(* ===== verification/_CoqProject ===== *)
-Q . S2P
Prelude.v
PyVal.v
PyText.v
PyNumber.v
PyCache.v
Digest.v
FeatureFlags.v
PolicyTypes.v
PolicyEngine.v
PolicyLoader.v
PolicyDocument.v
StepResults.v
Conditions.v
WorkflowParser.v
WorkflowGraph.v
WorkflowStore.v
WorkflowRetry.v
WorkflowEngine.v
WorkflowRuns.v
WorkflowConcurrency.v
Rbac.v
ApprovalPolicy.v
ApprovalConditions.v
ApprovalDecide.v
Cases.v
CaseSystem.v
Scopes.v
AuditLink.v
AuditChain.v
LedgerExport.v
Arbiter.v
ArbiterStore.v
PaymentJournal.v
PluralExecutor.v
HostedRefunds.v
PaymentSystem.v
PaymentProperties.v
RateLimiter.v
ActionPolicy.v
GrantEnforcement.v
RunGrants.v
OperatorOverride.v
ToolGateway.v
GatewaySystem.v
GatewayGuards.v
Cron.v
UcpQuantity.v
UcpDelivery.v
UcpMessages.v
UcpFulfillment.v
UcpPayment.v
UcpCheckout.v
UcpOrders.v
UcpHandoff.v
UcpSession.v
UcpSystem.v
UcpSafety.v
UcpIdempotency.v
UcpStock.v
Outbox.v
CasePush.v
UcpWebhooks.v
SpendDecimal.v
SpendPricing.v
SpendRates.v
SpendCommitments.v
SpendReplay.v
SpendDrawdown.v
SpendRollups.v
