(* ===== verification/Prelude.v ===== *)
(** A verification library for the core of AgenticOrg (the Python packages under
    src/).  This file is the root: the overview of the development, then the shared
    definitions, tactics and lemmas on results, sorting, lists and strings.

    * The program and its parts

    AgenticOrg runs business agents under governance.  The parts modelled here:

    - policies (src/core/policy/): YAML rule files are loaded strictly, evaluated
      on evidence with three-valued logic into a score, a tier and reasons, and
      rendered as a published document;
    - workflows (src/workflows/): definitions are parsed, ordered, and run by an
      engine that keeps the run's state in a versioned store, retries, replans,
      branches, waits for people and events, resumes and cancels, with several
      operations on one run at a time; triggers start them, on cron schedules too;
    - approvals (src/core/approvals/, src/api/v1/approvals.py, src/core/rbac.py):
      people decide queued items, in the steps of an approval policy with quorums;
    - governed cases (src/core/cases/, src/api/v1/governed_cases.py): a case is
      investigated by agents, shown to approvers at an external issuer, and decided;
    - tools (src/auth/scopes.py, src/core/tool_gateway/): what an agent and its
      clones may call, and the gateway every call goes through, with its rate
      limiter and the store of idempotency keys;
    - the guards of the gateway: the action policy and the operator overrides
      (src/core/governance/), grant enforcement and the grants of runs
      (src/auth/grant_enforcement.py, run_grants.py), under feature flags
      (src/core/feature_flags.py);
    - the audit trail (src/core/governance/audit_chain.py, audit_chain_link.py,
      src/core/tool_gateway/audit_logger.py): signed rows, sealed into a hash chain
      per tenant, exported and verified offline (src/core/commerce/ledger_export.py,
      src/scripts/verify_ledger.py);
    - commerce (src/core/commerce/): an arbiter that allows or refuses purchases by
      fixed rules, the store in which its decisions are consumed once, and the
      payments and refunds made under them through a journal of provider calls;
    - checkout (src/core/commerce/ucp/, src/core/commerce/payment_handoff.py):
      checkout sessions are priced, completed under a decision by charging a
      tokenized instrument or by handing the buyer a payment link, and become orders
      that are fulfilled, adjusted and reported to subscribers;
    - queued events (src/core/cases/push.py, src/core/commerce/ucp/webhooks.py): an
      outbox with leases, retries and dead letters, and signed deliveries;
    - spend (src/core/spend/): rate cards, the engine that prices usage with them,
      and committed volumes that usage records draw from.

    Policies are chosen by governed cases and their result is part of the memo; a
    workflow step may start a case or queue an approval, and a decided approval
    resumes its run.  Conditions guard branches of workflows and steps of approvals.
    The gateway asks [Scopes], the rate limiter and its guards, and its calls are
    audit rows.  Payments run under consumed decisions ([ArbiterStore]), and the
    ledger export reads the sealed chain ([AuditChain]).  A checkout consumes a
    decision and is charged by an executor; its orders and the changes of cases are
    queued in the outbox.  Other parts meet in the
    data they exchange (decisions, step results, memos), which the receiving model
    takes as arbitrary.

    * Files

    - [Prelude]: [result] for code that raises, with its monad and [inv_ok]; stable
      sorting; [fold_res], [map_res].
    - [PyVal]: Python values and dictionaries, truth, comparison of numbers,
      characters and the string methods used; [PyText]: datetimes, ISO text, lookup in
      values and [sub-string] search; [PyNumber]: [float(value)] with its rounding;
      [PyCache]: dictionaries used as bounded caches; [Digest]: SHA-256 and
      [json.dumps].
    - [FeatureFlags]: feature_flags.py, with the readers of its cache interleaved.
    - [PolicyTypes], [PolicyEngine], [PolicyLoader], [PolicyDocument]: types.py,
      engine.py, loader.py, document.py of src/core/policy/, one definition per
      function under the function's name.
    - [StepResults]: src/workflows/step_results.py; [Conditions]:
      condition_evaluator.py; [WorkflowParser]: parser.py;
      [WorkflowGraph]: the definition helpers and the topological sort of engine.py;
      [WorkflowStore]: run states, the in-memory repository and the store of
      state_store.py, and the type of effectful programs; [WorkflowRetry]: retries;
      [WorkflowEngine]: every operation of the class [WorkflowEngine], and the
      replanner's validation; [WorkflowRuns]: the abstract machine of a run;
      [WorkflowConcurrency]: the system of concurrent operations and the proofs that
      it implements the machine; [Cron]: trigger.py.
    - [Rbac], [ApprovalPolicy], [ApprovalDecide]: roles, policy_engine.py and the
      decide endpoint; [ApprovalConditions]: policies under the strict evaluator.
    - [Cases]: states.py, store.py, decisions.py, the verifier of
      decision_requests.py, the transactions of runtime.py and of the routes;
      [CaseSystem]: all of them in any order.
    - [Scopes]: scopes.py; [RateLimiter]: the token bucket; [ToolGateway]: the
      pipeline of gateway.py and idempotency.py as a program over the questions it
      asks and the Redis commands it sends; [GatewaySystem]: concurrent calls over one
      store with expiry; [ActionPolicy]: action_policy.py; [GrantEnforcement]:
      grant_enforcement.py and the linked ids of src/connectors/registry.py;
      [RunGrants]: run_grants.py; [OperatorOverride]: operator_override.py, its cache
      and its counters; [GatewayGuards]: the gateway with these answering.
    - [AuditLink]: rows, canonical payloads, signatures and link hashes; [AuditChain]:
      sealing and verification, and the tables that appends and sealings reach;
      [LedgerExport]: the export and the offline verifier.
    - [Arbiter]: the rules and decisions of arbiter.py; [ArbiterStore]: persisting,
      countersigning and consuming decisions; [PaymentJournal]: payment_records.py;
      [PluralExecutor]: executors/plural.py as programs of transactions and provider
      calls; [HostedRefunds]: hosted_refunds.py; [PaymentSystem]: all their jobs
      interleaved, with a provider that may lose answers; [PaymentProperties]: what
      holds of it.
    - [UcpQuantity], [UcpDelivery], [UcpMessages], [UcpFulfillment], [UcpPayment],
      [UcpCheckout], [UcpOrders]: quantity.py, delivery_area.py, messages.py,
      fulfillment.py, payment.py, checkout.py with consent.py, orders.py of
      src/core/commerce/ucp/, one definition per function; [UcpHandoff]:
      payment_handoff.py; [UcpSession]: the transactions of handlers.py on checkout
      sessions; [UcpSystem]: all of them interleaved with executors and provider
      reports; [UcpSafety]: what holds of it; [UcpIdempotency]: idempotency.py and
      [run]; [UcpStock]: catalog_recheck.py and the stock that links hold.
    - [Outbox]: the rows and workers that push.py and webhooks.py share; [CasePush]:
      push.py; [UcpWebhooks]: webhooks.py and the routes of subscriptions.
    - [SpendDecimal]: Python's decimals in a context; [SpendPricing]: pricing.py with
      the tables of vocab.py; [SpendRates]: the transactions of rates.py;
      [SpendCommitments]: commitments.py up to the draw of one record; [SpendReplay]:
      its recompute, page by page, between the writers of meter.py and
      maintenance.py; [SpendDrawdown]: what holds of it; [SpendRollups]: the upkeep and
      the rebuild of rollups.py.

    * What the theorems show

    Policies.  A policy file that loads never makes evaluation raise
    ([loaded_policy_always_evaluates]); missing or unusable evidence, at paths
    no rule tests with exists or missing, never lowers the outcome
    ([missing_evidence_never_lowers]); reasons, their order, the score
    and the tier are exactly the documented ones; the result does not depend on the
    order of mapping entries; conditions compile exactly when they are well formed
    and print back; loading a directory fails closed; production policies are
    reviewed.

    Workflows.  The parser accepts exactly the well-formed acyclic definitions, and the
    sort returns an order exactly when the graph with its fallback edges is acyclic.
    From an empty store and cache, under every interleaving of operations on any runs
    the stored history of a run is a path of the abstract machine
    ([engine_refines_machine]), from which: executed steps had their dependencies,
    finished runs are frozen, failures stop runs, completed runs have all results,
    stored runs are well formed, and operations end.  (A state that only Redis holds,
    from before the durable store, is adopted by [load] and can overwrite a run.)  Steps
    are retried only when read-only or keyed, and a bounded number of times.  A cron
    expression matches exactly the times its fields list.  A condition is the Boolean,
    or in the strict evaluator the Kleene, combination of its atoms
    ([conditions_combine_atoms]).

    Approvals.  However requests interleave, an item decided under a policy has the
    quorum of every applicable step, from different people and not the requester
    ([decided_item_has_quorum]), for requests by identified people while the policy is
    not edited; every counted decision was authorised; a step behind
    a threshold is skipped only when the threshold is known not to be met.

    Cases.  The transition log follows the lifecycle; a case is decided only by a
    confirmed consumption of grants for its action and version; the documents that
    were approved are the documents decided ([approved_documents_are_decided]);
    closed cases are frozen.

    Tools.  A clone that validates is allowed no operation its parent is not, and no
    amount above the cap of the parent's scope where both are capped
    ([clone_stays_under_parent]).  A tool runs only when every check it is subject to
    cleared the call, remote MCP tools by the checks of their adapter
    ([tool_runs_only_when_cleared]); under one key it succeeds once in the lifetime of
    a stored result ([tool_succeeds_once_per_key]); admitted calls are bounded by
    the capacity and the rate.

    Guards.  The action policy dispatches exactly reads, drafts and, in relaxed
    runtimes, authorised live actions ([dispatched_exactly_when_contained]).  Strict
    reads of flags are at most thirty seconds old, so an operator's deny takes hold for
    every tenant ([operators_deny_takes_hold]).  A call passes the check of a run's
    grant exactly when the grants cover it, and a run never gains what the token of its
    caller does not cover ([caller_cannot_borrow]).  While the override control is not
    switched off, a halt takes hold under every interleaving of readers and failure of
    its stores ([halt_takes_hold]), and throttles bound calls.  Put together, in a
    strict runtime the gateway dispatches only reads and drafts, past no settled halt
    (the control not switched off), under grants that cover them
    ([strict_gateway_is_contained]).

    Audit.  Written rows verify when read back; a chain built by appends and
    sealings verifies, whole or in part, and its exports verify offline; a chain
    that verifies against a head held elsewhere still has every row that head covers,
    unless SHA-256 collides ([tampering_is_detected]).

    Commerce.  A decision names the first rule that fails; an allowed purchase meets
    every documented condition; a decision is consumed at most once, for what it
    allowed; the provider is called at most once per operation and reference, and
    what it refunds of a hosted order stays within the total, lost answers included.

    Checkout.  A checkout is ready only when its lines, totals, fulfilment and payment
    add up ([ready_checkout_adds_up]), and quantities convert exactly.  Under every
    interleaving a completed session keeps its one order; each charge has its own
    decision and settles the total its session had, under the configuration the
    request was checked against ([executions_settled_once]); a paid link becomes an
    order exactly when the payment is the one asked for, and is recorded for attention
    otherwise, once per link ([paid_link_is_accounted_for]); and orders stay consistent.
    A write runs once per idempotency key ([write_runs_once]), and for checkouts that
    name each item once links never promise more than the stock
    ([reserved_stock_is_covered]).

    Events.  Rows say what happened ([deliveries_are_honest]), and while its receiver is
    served every event is settled after a bounded number of attempts
    ([every_event_settles]); a signed delivery verifies within the tolerance for whoever
    holds one of its keys, and what verifies was signed under a key of the receiver
    ([push_signature_exact]); a platform's subscription gets the platform's own orders,
    all of them and no others ([platform_sees_own_orders]).

    Some theorems state defects the models showed: identifiers accepted with a
    trailing newline, definitions that parse but cannot be ordered, replacement
    steps that never run, cases stranded by forgetting passages, clones that escape
    a cap, an intact chain reported as truncated while it is being sealed, executor
    refunds that overlap or are freed by a server error, captures that cannot be
    refunded, a sweep starved by settled refunds, a tool repeated after a late
    failure, buckets refilled by skewed clocks, a day of the week that never comes,
    flags of workflow conditions that are never true, authorisations that depend on
    the hash seed, counters that never expire, a halt undone by a slow reader, texts
    that are no unit, lines that together exceed the stock, a cancelled session that is
    charged, an escalated one that is repriced, a failed payment that hides a paid one,
    a key kept by a request that raised, sales counted in steps, stock promised twice
    under two ids, a delivery buried by a late answer, a tenant whose deliveries stop at one
    unreadable key, a finished run overwritten by a state adopted from Redis, a shortened
    output card whose use is forgotten, an unconsumed decision reported as consumed.

    Spend.  The card that prices a usage is the one whose offer is preferred to all
    others, whatever order the cards are read in ([best_card_prices]); amounts are
    rounded once, half to even ([amounts_rounded_once]); one card of a key is in force
    on a day, and no card in use is changed ([rates_are_consistent]).  A record draws
    from one commitment ([record_draws_from_one]); the overage of records adds up to
    what exceeds the commitment ([overage_is_the_excess]); a settled provider is drawn
    as a replay from scratch draws it, whatever was interleaved but a record written
    behind an append pass ([drawdown_is_a_replay]), and an uninterrupted recompute
    settles it in a step for each day and record ([recompute_settles]).  The daily sums
    kept as records are written and revised are those a rebuild computes
    ([rollup_is_the_sum]). The theorems that end [SpendDrawdown] show how a record can
    keep a wrong assignment, those that end [SpendRollups] which revisions and rebuilds
    the database refuses.

    * Modelling

    Exceptions are values of [result] or of a type of outcomes.  Code that awaits is
    a free monad over its events ([WorkflowStore.prog], [PluralExecutor.prog],
    [ToolGateway.prog]) or a sequence of transactions with the answers of the outside
    as arguments; systems interleave such programs one event at a time.  Integers are
    unbounded as in Python; floats are exact binary values with infinities and NaN,
    and exact rationals in the rate limiter;
    strings are over 256 characters (Latin-1).  Recursion is structural, or on a fuel
    proved sufficient: the cycle search and the sort on the number of steps, the
    engine's restarts on [MAX_REPLAN_ATTEMPTS], the pages of a verification on the
    number of rows, the pages of a replay on the days of its window and the records
    ahead of it.

    Code that is not in the repository, or whose result the component takes as
    given, is a type class or an argument: [FloatRepr], [PyStr], the YAML library and
    file system ([PolicyFileFormat]), the legacy store ([StoreConfig]), [ParseUuid],
    [ConditionEvaluator] (discharged by [ApprovalConditions]), [ConditionEnv] (Python
    literals and ISO dates), [UuidText], the Grantex SDK ([Client]), the pool of
    delegated grants, [Schemas], [CaseTools], [IsoTime], the decision-grant
    [Issuer], the language models and step handlers, [PyInt] (reading of integers
    from JSON values), [PayloadHash] (the canonical hash of commerce payloads), the
    signature check of witnesses, the JSON round trip of stored results, the text of
    numbers in Redis, the payment provider, the catalogue of a shop, the source of
    delivery rates, the renderers of payloads, the merchant's key store, the list
    prices of the deployment, the exchange rates and the billing days of time zones
    ([BillingZone]).  Every theorem with hypotheses
    has a witness that applies it to concrete instances.

    * Not modelled

    Logging, metrics, notifications; SQL (tables are lists or maps,
    a row lock makes a transaction atomic); HTTP; the handlers of workflow steps and
    the agents; parallel children of workflows and the SQL repository of runs; the
    encryption of keys and the signing of UCP requests; carts, negotiation, mandates,
    networks and catalogues; agent lifecycles; of spend, metering,
    attribution, queries, jobs and reconciliation; model gateways,
    connectors, documents, voice, billing, reports and the other packages of the
    repository, which are mostly input and output around services that are not in it. *)

From stdpp Require Export base tactics list strings sorting gmap pretty.
From Stdlib Require Export ZArith Lia.

(** * Outcomes of fallible Python code

    A function that can raise is modelled as a value of [result E A]: [Ok a] is
    the returned value, [Err e] the raised exception. *)

Inductive result (E A : Type) : Type :=
| Ok (a : A)
| Err (e : E).

Arguments Ok {E A} a.
Arguments Err {E A} e.

#[global] Instance result_ret {E} : MRet (result E) := λ A a, Ok a.
#[global] Instance result_bind {E} : MBind (result E) := λ A B f r,
  match r with Ok a => f a | Err e => Err e end.
#[global] Instance result_fmap {E} : FMap (result E) := λ A B f r,
  match r with Ok a => Ok (f a) | Err e => Err e end.

#[global] Instance result_eq_dec {E A} `{EqDecision E, EqDecision A} : EqDecision (result E A).
Proof. solve_decision. Defined.

Definition is_ok {E A} (r : result E A) : bool :=
  match r with Ok _ => true | Err _ => false end.

(** [raise_if b e] is Python's [if b: raise e]. *)
Definition raise_if {E} (b : bool) (e : E) : result E unit :=
  if b then Err e else Ok tt.

(** A lookup that raises [e] when the key is absent. *)
Definition of_option {E A} (e : E) (o : option A) : result E A :=
  match o with Some a => Ok a | None => Err e end.

(** [tuple(f(i, x) for i, x in enumerate(l))], stopping at the first exception. *)
Fixpoint map_res {E A B} (f : nat → A → result E B) (i : nat) (l : list A) : result E (list B) :=
  match l with
  | [] => Ok []
  | x :: l' => y ← f i x; ys ← map_res f (S i) l'; Ok (y :: ys)
  end.

(** A loop [for x in l: s = step(s, x)] whose body may raise. *)
Fixpoint fold_res {E A S} (step : S → A → result E S) (s : S) (l : list A) : result E S :=
  match l with
  | [] => Ok s
  | x :: l' => s' ← step s x; fold_res step s' l'
  end.

Lemma fold_res_inv {E A S} (P : S → Prop) (step : S → A → result E S) s l s' :
  P s → (∀ s x s', P s → step s x = Ok s' → P s') → fold_res step s l = Ok s' → P s'.
Proof.
  intros Hs Hstep. revert s Hs. induction l as [|x l IH]; intros s Hs; cbn; [by intros [= <-]|].
  destruct (step s x) as [s1|] eqn:Hx; [|done]. cbn. apply IH. by apply (Hstep s x).
Qed.

Lemma bind_Ok {E A B} (r : result E A) (f : A → result E B) (b : B) :
  r ≫= f = Ok b ↔ ∃ a, r = Ok a ∧ f a = Ok b.
Proof. destruct r; cbn; naive_solver. Qed.

Lemma bind_Err {E A B} (r : result E A) (f : A → result E B) (e : E) :
  r ≫= f = Err e ↔ r = Err e ∨ ∃ a, r = Ok a ∧ f a = Err e.
Proof. destruct r; cbn; naive_solver. Qed.

Lemma raise_if_Ok {E} b (e : E) u : raise_if b e = Ok u ↔ b = false.
Proof. destruct b, u; cbn; naive_solver. Qed.

Lemma raise_if_Err {E} b (e e' : E) : raise_if b e = Err e' ↔ b = true ∧ e = e'.
Proof. destruct b; cbn; naive_solver. Qed.

Lemma of_option_Ok {E A} (e : E) (o : option A) a : of_option e o = Ok a ↔ o = Some a.
Proof. destruct o; cbn; naive_solver. Qed.

(** Invert the sequence of binds of a computation that returned. *)
Ltac inv_ok :=
  repeat match goal with
  | H : Err _ = Ok _ |- _ => discriminate H
  | H : Ok _ = Err _ |- _ => discriminate H
  | H : Ok _ = Ok _ |- _ => apply (f_equal (λ r, match r with Ok x => Some x | Err _ => None end)) in H;
                            cbn in H; simplify_eq
  | H : mbind _ _ = Ok _ |- _ => apply bind_Ok in H as (? & ? & ?)
  | H : raise_if _ _ = Ok _ |- _ => apply raise_if_Ok in H
  | H : of_option _ _ = Ok _ |- _ => apply of_option_Ok in H
  end.

Lemma map_res_Forall2 {E A B} (f : nat → A → result E B) i l ys :
  map_res f i l = Ok ys → length ys = length l ∧
  ∀ k y, ys !! k = Some y → ∃ x, l !! k = Some x ∧ f (i + k) x = Ok y.
Proof.
  revert i ys. induction l as [|x l IH]; intros i ys H; cbn in H; inv_ok.
  - split; [done|]. intros k y Hk. by rewrite lookup_nil in Hk.
  - match goal with H : map_res _ _ _ = Ok _ |- _ => apply IH in H as [Hlen Hk] end.
    split; [cbn; congruence|]. intros [|k] y' Hy; cbn in *; simplify_eq.
    + exists x. rewrite Nat.add_0_r. done.
    + destruct (Hk _ _ Hy) as (x' & ? & Hf). exists x'. split; [done|].
      by rewrite Nat.add_succ_r.
Qed.

Lemma map_res_Forall {E A B} (f : nat → A → result E B) (P : B → Prop) i l ys :
  map_res f i l = Ok ys → (∀ j x y, f j x = Ok y → P y) → Forall P ys.
Proof.
  intros H HP. apply map_res_Forall2 in H as [_ H].
  apply Forall_lookup. intros k y Hy. destruct (H k y Hy) as (x & _ & Hf). eauto.
Qed.

Lemma map_res_Ok {E A B} (f : nat → A → result E B) (g : A → B) i l :
  (∀ j x, x ∈ l → f j x = Ok (g x)) → map_res f i l = Ok (g <$> l).
Proof.
  revert i. induction l as [|x l IH]; intros i H; cbn; [done|].
  rewrite H by set_solver. cbn. rewrite IH by (intros; apply H; set_solver). done.
Qed.

(** * Sorting

    Python's [sorted] and [list.sort] are stable sorts.  [sort_by leb] is the
    stable insertion sort for a boolean order; with [leb a b := key a <= key b]
    it is [sorted(l, key=key)]. *)

Fixpoint insert_by {A} (leb : A → A → bool) (x : A) (l : list A) : list A :=
  match l with
  | [] => [x]
  | y :: l' => if leb x y then x :: l else y :: insert_by leb x l'
  end.

Fixpoint sort_by {A} (leb : A → A → bool) (l : list A) : list A :=
  match l with
  | [] => []
  | x :: l' => insert_by leb x (sort_by leb l')
  end.

Section sorting_facts.
Context {A : Type} (leb : A → A → bool).

Lemma insert_by_Permutation x l : insert_by leb x l ≡ₚ x :: l.
Proof.
  induction l as [|y l IH]; cbn; [done|]. destruct (leb x y); [done|].
  rewrite IH. apply Permutation_swap.
Qed.

Lemma sort_by_Permutation l : sort_by leb l ≡ₚ l.
Proof. induction l as [|x l IH]; cbn; [done|]. by rewrite insert_by_Permutation, IH. Qed.

Lemma elem_of_sort_by x l : x ∈ sort_by leb l ↔ x ∈ l.
Proof. by rewrite sort_by_Permutation. Qed.

Context (leb_total : ∀ a b, leb a b = true ∨ leb b a = true)
        (leb_trans : ∀ a b c, leb a b = true → leb b c = true → leb a c = true).

Lemma insert_by_sorted x l :
  StronglySorted leb l → StronglySorted leb (insert_by leb x l).
Proof.
  induction 1 as [|y l Hl IH Hy]; cbn; [repeat constructor|].
  destruct (leb x y) eqn:Hxy.
  - constructor; [by constructor|]. constructor; [by rewrite Hxy|].
    eapply Forall_impl; [exact Hy|]. intros z Hz. cbn in *.
    apply Is_true_true in Hz. apply Is_true_true. eauto.
  - constructor; [done|]. rewrite insert_by_Permutation. constructor; [|done].
    destruct (leb_total x y); [congruence|by apply Is_true_true].
Qed.

Lemma sort_by_sorted l : StronglySorted leb (sort_by leb l).
Proof. induction l; cbn; [constructor|by apply insert_by_sorted]. Qed.

(** Stability: elements that compare equal to [k] keep their order. *)
Lemma insert_by_filter k x l :
  StronglySorted leb l →
  List.filter (λ y, leb k y && leb y k) (insert_by leb x l) =
  List.filter (λ y, leb k y && leb y k) (x :: l).
Proof.
  induction 1 as [|y l Hl IH Hy]; cbn; [done|].
  destruct (leb x y) eqn:Hxy; [done|]. cbn in *. rewrite IH.
  destruct (leb k y && leb y k) eqn:Hky; destruct (leb k x && leb x k) eqn:Hkx; try done.
  apply andb_true_iff in Hky as [? ?]. apply andb_true_iff in Hkx as [? ?].
  assert (leb x y = true) by eauto. congruence.
Qed.

Lemma sort_by_stable k l :
  List.filter (λ y, leb k y && leb y k) (sort_by leb l) =
  List.filter (λ y, leb k y && leb y k) l.
Proof.
  induction l as [|x l IH]; cbn -[List.filter]; [done|].
  rewrite insert_by_filter by apply sort_by_sorted. cbn. by rewrite IH.
Qed.
End sorting_facts.

Lemma filter_none {A} (p : A → bool) l : Forall (λ x, p x = false) l → List.filter p l = [].
Proof. induction 1 as [|x l Hx _ IH]; cbn; [done|]. by rewrite Hx. Qed.

Lemma filter_all {A} (p : A → bool) l : Forall (λ x, p x = true) l → List.filter p l = l.
Proof. induction 1 as [|x l Hx _ IH]; cbn; [done|]. by rewrite Hx, IH. Qed.

Lemma StronglySorted_filter {A} (R : A → A → Prop) (p : A → bool) l :
  StronglySorted R l → StronglySorted R (List.filter p l).
Proof.
  induction 1 as [|x l Hl IH Hx]; cbn; [constructor|]. destruct (p x); [|done].
  constructor; [done|]. rewrite Forall_forall in *. intros y Hy. apply Hx.
  apply list_elem_of_In, filter_In in Hy as [Hy _]. by apply list_elem_of_In.
Qed.

(** Two strictly ordered permutations of each other are equal. *)
Lemma sorted_perm_eq {A} (leb : A → A → bool) (l1 l2 : list A) :
  (∀ a b, leb a b = true → leb b a = true → a = b) →
  StronglySorted leb l1 → StronglySorted leb l2 → l1 ≡ₚ l2 → l1 = l2.
Proof.
  intros Hanti H1 H2 Hp. eapply StronglySorted_unique_strong; [|done..].
  intros x1 x2 _ _ ? ?. apply Hanti; by apply Is_true_true.
Qed.

(** ** Sorted sets of strings: [tuple(sorted(s))] for a [set[str]] *)

Definition sorted_strings (s : gset string) : list string :=
  sort_by String.leb (elements s).

Lemma string_leb_total a b : String.leb a b = true ∨ String.leb b a = true.
Proof. apply String.leb_total. Qed.

Lemma string_leb_trans a b c :
  String.leb a b = true → String.leb b c = true → String.leb a c = true.
Proof.
  intros H1 H2. apply Is_true_true. change (String.le a c).
  transitivity b; by apply Is_true_true.
Qed.

Lemma elem_of_sorted_strings x s : x ∈ sorted_strings s ↔ x ∈ s.
Proof. unfold sorted_strings. by rewrite elem_of_sort_by, elem_of_elements. Qed.

Lemma sorted_strings_sorted s : StronglySorted String.leb (sorted_strings s).
Proof. apply sort_by_sorted; [apply string_leb_total|apply string_leb_trans]. Qed.

Lemma sorted_strings_NoDup s : NoDup (sorted_strings s).
Proof. unfold sorted_strings. rewrite sort_by_Permutation. apply NoDup_elements. Qed.

(** * Sums *)

Fixpoint sumZ (l : list Z) : Z :=
  match l with [] => 0%Z | z :: l' => (z + sumZ l')%Z end.

Lemma sumZ_app l1 l2 : sumZ (l1 ++ l2) = (sumZ l1 + sumZ l2)%Z.
Proof. induction l1; cbn; lia. Qed.

Lemma sumZ_Permutation l1 l2 : l1 ≡ₚ l2 → sumZ l1 = sumZ l2.
Proof. induction 1; cbn; lia. Qed.

Lemma sumZ_nonneg l : Forall (λ z, (0 ≤ z)%Z) l → (0 ≤ sumZ l)%Z.
Proof. induction 1; cbn; lia. Qed.

Lemma sumZ_le l1 l2 : Forall2 Z.le l1 l2 → (sumZ l1 ≤ sumZ l2)%Z.
Proof. induction 1; cbn; lia. Qed.

Lemma Forall_Forall2_diag {A} (R : A → A → Prop) l : Forall (λ x, R x x) l → Forall2 R l l.
Proof. induction 1; by constructor. Qed.
