(* ===== verification/PyVal.v ===== *)
(** Python values as the modelled code inspects them: scalars, lists, mappings,
    the exact comparison of ints and floats, and the classification of
    characters by the [str] methods the code calls.

    Characters.  A [str] is a [string] of 8-bit characters standing for the code
    points U+0000 to U+00FF; [String.length] is [len].  The predicates below are
    the Unicode classes of those 256 code points.

    Floats.  A finite float is its exact value [m * 2^e]; the model needs no
    rounding because the code only compares floats. *)

From Stdlib Require Import Ascii.
From S2P Require Import Prelude.

Local Open Scope Z_scope.

(** * Values *)

Inductive pyfloat : Type :=
| FNan
| FInf (negative : bool)
| FFin (m e : Z).

#[global] Instance pyfloat_eq_dec : EqDecision pyfloat.
Proof. solve_decision. Defined.

(** [VRaise] is not a value: as the content of a mapping entry it says that
    reading the entry (or testing for its key) raises. [VOther] is any object
    that is none of the other kinds. *)
Inductive pyval : Type :=
| VNone
| VBool (b : bool)
| VInt (z : Z)
| VFloat (f : pyfloat)
| VStr (s : string)
| VList (l : list pyval)
| VMap (kvs : list (string * pyval))
| VOther
| VRaise.

(** Induction that reaches the items of lists and the entries of mappings. *)
Definition pyval_induction (P : pyval → Prop)
    (Hnone : P VNone) (Hbool : ∀ b, P (VBool b)) (Hint : ∀ z, P (VInt z))
    (Hfloat : ∀ f, P (VFloat f)) (Hstr : ∀ s, P (VStr s))
    (Hlist : ∀ l, Forall P l → P (VList l))
    (Hmap : ∀ kvs, Forall (λ kv, P (snd kv)) kvs → P (VMap kvs))
    (Hother : P VOther) (Hraise : P VRaise) : ∀ v, P v :=
  fix go v :=
    match v with
    | VNone => Hnone
    | VBool b => Hbool b
    | VInt z => Hint z
    | VFloat f => Hfloat f
    | VStr s => Hstr s
    | VList l => Hlist l ((fix gol l : Forall P l :=
        match l with [] => Forall_nil_2 _ | x :: l' => Forall_cons_2 _ _ _ (go x) (gol l') end) l)
    | VMap kvs => Hmap kvs ((fix gom kvs : Forall (λ kv, P (snd kv)) kvs :=
        match kvs with [] => Forall_nil_2 _ | kv :: l' => Forall_cons_2 _ _ _ (go (snd kv)) (gom l') end) kvs)
    | VOther => Hother
    | VRaise => Hraise
    end.

(** * Dictionaries with string keys, in insertion order *)

Fixpoint assoc {V} (k : string) (kvs : list (string * V)) : option V :=
  match kvs with
  | [] => None
  | (k', v) :: kvs' => if String.eqb k k' then Some v else assoc k kvs'
  end.

Lemma assoc_elem_of {V} k (kvs : list (string * V)) v : assoc k kvs = Some v → (k, v) ∈ kvs.
Proof.
  induction kvs as [|[k' v'] kvs IH]; cbn; [done|].
  destruct (String.eqb_spec k k') as [->|]; intros; simplify_eq; [by left|right; auto].
Qed.

Lemma assoc_NoDup {V} k (kvs : list (string * V)) v :
  NoDup kvs.*1 → (k, v) ∈ kvs → assoc k kvs = Some v.
Proof.
  induction kvs as [|[k' v'] kvs IH]; cbn; intros Hnd Hin; [by apply elem_of_nil in Hin|].
  apply NoDup_cons in Hnd as [Hk' Hnd]. apply elem_of_cons in Hin as [Heq|Hin].
  - simplify_eq. by rewrite String.eqb_refl.
  - destruct (String.eqb_spec k k') as [->|]; [|auto].
    exfalso. apply Hk'. apply list_elem_of_fmap. exists (k', v). done.
Qed.

Lemma assoc_Permutation {V} k (l1 l2 : list (string * V)) :
  NoDup l1.*1 → l1 ≡ₚ l2 → assoc k l1 = assoc k l2.
Proof.
  intros Hnd Hp. assert (NoDup l2.*1) by by rewrite <- Hp.
  destruct (assoc k l1) as [v|] eqn:H1, (assoc k l2) as [w|] eqn:H2; try done.
  - f_equal. apply assoc_elem_of in H1, H2. rewrite Hp in H1.
    eapply assoc_NoDup in H1, H2; [|done..]. congruence.
  - apply assoc_elem_of in H1. rewrite Hp in H1. eapply assoc_NoDup in H1; [|done]. congruence.
  - apply assoc_elem_of in H2. rewrite <- Hp in H2. eapply assoc_NoDup in H2; [|done]. congruence.
Qed.

(** [d[k] = v] on an insertion-ordered dictionary. *)
Fixpoint dict_set {V} (k : string) (v : V) (kvs : list (string * V)) : list (string * V) :=
  match kvs with
  | [] => [(k, v)]
  | (k', v') :: kvs' => if String.eqb k k' then (k, v) :: kvs' else (k', v') :: dict_set k v kvs'
  end.

Lemma dict_set_app {V} (k : string) (v : V) d : k ∉ d.*1 → dict_set k v d = d ++ [(k, v)].
Proof.
  induction d as [|[k' v'] d IH]; cbn; intros Hk; [done|].
  destruct (String.eqb_spec k k'); [set_solver|]. by rewrite IH by set_solver.
Qed.

(** Building a dictionary from distinct keys keeps their order. *)
Lemma dict_build {A V} (key : A → string) (val : A → V) l d :
  NoDup (d.*1 ++ (key <$> l)) →
  foldl (λ d x, dict_set (key x) (val x) d) d l = d ++ ((λ x, (key x, val x)) <$> l).
Proof.
  revert d. induction l as [|x l IH]; intros d Hnd; cbn; [by rewrite app_nil_r|].
  rewrite dict_set_app.
  - rewrite IH; [by rewrite <- app_assoc|]. rewrite fmap_app. cbn. by rewrite <- app_assoc.
  - cbn in Hnd. apply NoDup_app in Hnd as (_ & H & _). intros Hk. apply (H _ Hk). set_solver.
Qed.

Lemma assoc_dict_set {V} (k j : string) (v : V) d :
  assoc j (dict_set k v d) = if String.eqb j k then Some v else assoc j d.
Proof.
  induction d as [|[k' v'] d IH]; cbn; [done|].
  destruct (String.eqb_spec k k') as [->|]; cbn.
  - by destruct (String.eqb j k').
  - rewrite IH. destruct (String.eqb_spec j k'), (String.eqb_spec j k); congruence.
Qed.

Lemma assoc_dict_set_eq {V} (k : string) (v : V) d : assoc k (dict_set k v d) = Some v.
Proof. by rewrite assoc_dict_set, String.eqb_refl. Qed.

Lemma assoc_dict_set_ne {V} (k j : string) (v : V) d :
  j ≠ k → assoc j (dict_set k v d) = assoc j d.
Proof. intros. rewrite assoc_dict_set. by destruct (String.eqb_spec j k). Qed.

Lemma assoc_is_Some {V} k (d : list (string * V)) : is_Some (assoc k d) ↔ k ∈ d.*1.
Proof.
  induction d as [|[k' v'] d IH]; cbn; [split; [by intros [? ?]|set_solver]|].
  destruct (String.eqb_spec k k') as [->|]; [split; [set_solver|eauto]|]. rewrite IH. set_solver.
Qed.

Lemma assoc_None {V} k (d : list (string * V)) : assoc k d = None ↔ k ∉ d.*1.
Proof. rewrite <- assoc_is_Some, <- not_eq_None_Some. destruct (assoc k d); naive_solver. Qed.

Lemma dict_set_keys {V} k (v : V) d j : j ∈ (dict_set k v d).*1 ↔ j = k ∨ j ∈ d.*1.
Proof. rewrite <- !assoc_is_Some, assoc_dict_set. destruct (String.eqb_spec j k); naive_solver. Qed.

Lemma dict_set_NoDup {V} k (v : V) d : NoDup d.*1 → NoDup (dict_set k v d).*1.
Proof.
  induction d as [|[k' v'] d IH]; cbn; intros H; [by apply NoDup_singleton|].
  apply NoDup_cons in H as [H1 H2].
  destruct (String.eqb_spec k k') as [->|]; cbn; apply NoDup_cons; [done|].
  split; [|auto]. rewrite dict_set_keys. naive_solver.
Qed.

(** [d.get(k)]: absent and [None] are the same to the code that uses it. *)
Definition get (kvs : list (string * pyval)) (k : string) : option pyval :=
  match assoc k kvs with
  | None | Some VNone => None
  | Some v => Some v
  end.

(** [bool(v)] *)
Definition truthy (v : pyval) : bool :=
  match v with
  | VNone => false
  | VBool b => b
  | VInt z => negb (z =? 0)
  | VFloat (FFin m _) => negb (m =? 0)
  | VFloat _ => true
  | VStr s => negb (String.eqb s EmptyString)
  | VList l => match l with [] => false | _ => true end
  | VMap kvs => match kvs with [] => false | _ => true end
  | VOther | VRaise => true
  end.

(** [str(v)]. The text of a string is the string; that of other objects is left
    to the interpreter. *)
Class PyStr := { py_str : pyval → string; py_str_VStr : ∀ s, py_str (VStr s) = s }.

(** * Comparison of numbers

    Python compares an int with a float, and two floats, by exact value; every
    comparison with a NaN is false. *)

Definition fin_compare (m1 e1 m2 e2 : Z) : comparison :=
  let e := Z.min e1 e2 in (m1 * 2 ^ (e1 - e) ?= m2 * 2 ^ (e2 - e))%Z.

Definition float_compare (a b : pyfloat) : option comparison :=
  match a, b with
  | FNan, _ | _, FNan => None
  | FInf n1, FInf n2 =>
      Some (match n1, n2 with true, false => Lt | false, true => Gt | _, _ => Eq end)
  | FInf n, FFin _ _ => Some (if n then Lt else Gt)
  | FFin _ _, FInf n => Some (if n then Gt else Lt)
  | FFin m1 e1, FFin m2 e2 => Some (fin_compare m1 e1 m2 e2)
  end.

(** A [bool] is an int in Python: [True == 1]. *)
Definition as_number (v : pyval) : option pyfloat :=
  match v with
  | VBool b => Some (FFin (if b then 1 else 0) 0)
  | VInt z => Some (FFin z 0)
  | VFloat f => Some f
  | _ => None
  end.

Definition number_compare (a b : pyval) : option comparison :=
  match as_number a, as_number b with
  | Some x, Some y => float_compare x y
  | _, _ => None
  end.

(** [a == b] for the scalar operands the code compares. *)
Definition scalar_eqb (a b : pyval) : bool :=
  match a, b with
  | VStr s, VStr t => String.eqb s t
  | VNone, VNone => true
  | _, _ => match number_compare a b with Some Eq => true | _ => false end
  end.

(** [a < b] for two scalars of one kind: numbers by value, strings by code point. *)
Definition scalar_ltb (a b : pyval) : bool :=
  match a, b with
  | VStr s, VStr t => String.ltb s t
  | _, _ => match number_compare a b with Some Lt => true | _ => false end
  end.

Definition scalar_leb (a b : pyval) : bool := scalar_ltb a b || scalar_eqb a b.

Lemma fin_compare_swap m1 e1 m2 e2 :
  fin_compare m2 e2 m1 e1 = CompOpp (fin_compare m1 e1 m2 e2).
Proof. unfold fin_compare. by rewrite (Z.min_comm e2 e1), Z.compare_antisym. Qed.

Lemma fin_compare_refl m e : fin_compare m e m e = Eq.
Proof. apply Z.compare_refl. Qed.

Lemma float_compare_swap a b : float_compare b a = CompOpp <$> float_compare a b.
Proof. destruct a as [|[]|], b as [|[]|]; cbn; try done. by rewrite fin_compare_swap. Qed.

(** * Characters *)

Definition in_range (c : ascii) (lo hi : nat) : bool :=
  let n := nat_of_ascii c in (lo <=? n)%nat && (n <=? hi)%nat.

Definition is_lower_az (c : ascii) : bool := in_range c 97 122.
Definition is_upper_az (c : ascii) : bool := in_range c 65 90.
Definition is_digit (c : ascii) : bool := in_range c 48 57.
Definition is_underscore (c : ascii) : bool := in_range c 95 95.
Definition is_newline (c : ascii) : bool := in_range c 10 10.

(** [str.isspace]; also what [strip] and [split] remove. *)
Definition is_space (c : ascii) : bool :=
  in_range c 9 13 || in_range c 28 32 || in_range c 133 133 || in_range c 160 160.

(** [str.isalpha] *)
Definition is_alpha (c : ascii) : bool :=
  is_lower_az c || is_upper_az c || in_range c 170 170 || in_range c 181 181 ||
  in_range c 186 186 || in_range c 192 214 || in_range c 216 246 || in_range c 248 255.

(** [str.isalnum]: letters, digits, superscripts and vulgar fractions. *)
Definition is_alnum (c : ascii) : bool :=
  is_alpha c || is_digit c || in_range c 178 179 || in_range c 185 185 || in_range c 188 190.

(** [int(digits)] for ASCII digits. *)
Definition int_of_digits (ds : list ascii) : Z :=
  foldl (λ acc d, acc * 10 + (Z.of_nat (nat_of_ascii d) - 48))%Z 0%Z ds.

(** Code points a string can be folded to one at a time. *)
Definition shift_char (c : ascii) (d : nat) : ascii := ascii_of_nat (nat_of_ascii c + d).

(** [str.lower] on one character. *)
Definition lower_char (c : ascii) : ascii :=
  if is_upper_az c || in_range c 192 214 || in_range c 216 222 then shift_char c 32 else c.

(** [str.casefold] on one character. U+00DF folds to [ss]. U+00B5 folds to the
    Greek letter U+03BC, outside the 256 characters; it stands for itself here,
    which no modelled code can distinguish. *)
Definition casefold_char (c : ascii) : list ascii :=
  if in_range c 223 223 then ["s"; "s"]%char else [lower_char c].

Definition chars : string → list ascii := String.list_ascii_of_string.
Definition of_chars : list ascii → string := String.string_of_list_ascii.

Definition casefold (s : string) : list ascii := chars s ≫= casefold_char.
Definition lower (s : string) : string := of_chars (lower_char <$> chars s).

Fixpoint drop_while {A} (p : A → bool) (l : list A) : list A :=
  match l with
  | [] => []
  | x :: l' => if p x then drop_while p l' else l
  end.

(** [str.strip()] *)
Definition strip (s : string) : string :=
  of_chars (reverse (drop_while is_space (reverse (drop_while is_space (chars s))))).

(** [not s.strip()]: the string is empty or blank. *)
Definition blank (s : string) : bool := forallb is_space (chars s).

Definition dot : ascii := "."%char.

(** [s.split(sep)] for a one-character separator. *)
Fixpoint split_chars (sep : ascii) (cur : list ascii) (l : list ascii) : list (list ascii) :=
  match l with
  | [] => [reverse cur]
  | c :: l' => if Ascii.eqb c sep then reverse cur :: split_chars sep [] l'
               else split_chars sep (c :: cur) l'
  end.
Definition split (sep : ascii) (s : string) : list string :=
  of_chars <$> split_chars sep [] (chars s).

Lemma chars_of_chars l : chars (of_chars l) = l.
Proof. apply String.list_ascii_of_string_of_list_ascii. Qed.
Lemma of_chars_chars s : of_chars (chars s) = s.
Proof. apply String.string_of_list_ascii_of_string. Qed.

(** Lower-casing and stripping are idempotent and commute. *)
Lemma lower_char_idem c : lower_char (lower_char c) = lower_char c.
Proof. destruct c as [[] [] [] [] [] [] [] []]; vm_compute; reflexivity. Qed.

Lemma lower_char_space c : is_space (lower_char c) = is_space c.
Proof. destruct c as [[] [] [] [] [] [] [] []]; vm_compute; reflexivity. Qed.

Lemma lower_idem s : lower (lower s) = lower s.
Proof.
  unfold lower. rewrite chars_of_chars, <- list_fmap_compose. f_equal.
  apply list_fmap_ext. intros. apply lower_char_idem.
Qed.

Lemma drop_while_fmap {A} (p : A → bool) (f : A → A) l :
  (∀ a, p (f a) = p a) → drop_while p (f <$> l) = f <$> drop_while p l.
Proof. intros Hf. induction l as [|a l IH]; cbn; [done|]. rewrite Hf. by destruct (p a). Qed.

Lemma drop_while_suffix {A} (p : A → bool) l : ∃ k, l = k ++ drop_while p l.
Proof.
  induction l as [|a l [k IH]]; cbn; [by exists []|].
  destruct (p a); [exists (a :: k); cbn; congruence|by exists []].
Qed.

Lemma drop_while_prefix_fixed {A} (p : A → bool) l b k :
  drop_while p l = b ++ k → drop_while p b = b.
Proof.
  revert b k. induction l as [|a l IH]; cbn; intros b k E.
  - symmetry in E. apply app_eq_nil in E as [-> ->]. done.
  - destruct (p a) eqn:Ha; [eauto|]. destruct b as [|x b]; [done|]. cbn. injection E as <- _. by rewrite Ha.
Qed.

Lemma strip_idem s : strip (strip s) = strip s.
Proof.
  unfold strip. rewrite chars_of_chars. do 2 f_equal.
  set (a := drop_while is_space (chars s)). set (b := drop_while is_space (reverse a)).
  assert (drop_while is_space (reverse b) = reverse b) as ->.
  { destruct (drop_while_suffix is_space (reverse a)) as [k E]. fold b in E.
    apply (drop_while_prefix_fixed _ (chars s) _ (reverse k)). fold a.
    by rewrite <- reverse_app, <- E, reverse_involutive. }
  rewrite reverse_involutive. apply (drop_while_prefix_fixed _ (reverse a) _ []). by rewrite app_nil_r.
Qed.

Lemma strip_lower s : strip (lower s) = lower (strip s).
Proof.
  unfold strip, lower. rewrite !chars_of_chars. f_equal.
  rewrite drop_while_fmap by apply lower_char_space.
  rewrite <- fmap_reverse, drop_while_fmap by apply lower_char_space. by rewrite <- fmap_reverse.
Qed.

Lemma chars_app s t : chars (s +:+ t) = chars s ++ chars t.
Proof. induction s as [|c s IH]; [done|]. change (c :: chars (s +:+ t) = c :: chars s ++ chars t). by f_equal. Qed.

Lemma drop_while_none {A} (p : A → bool) l : forallb (λ x, negb (p x)) l = true → drop_while p l = l.
Proof. destruct l as [|x l]; cbn; [done|]. rewrite andb_true_iff, negb_true_iff. by intros [-> _]. Qed.

Lemma forallb_reverse {A} (p : A → bool) l : forallb p (reverse l) = forallb p l.
Proof. induction l as [|x l IH]; [done|]. rewrite reverse_cons, forallb_app, IH. cbn. rewrite andb_true_r. apply andb_comm. Qed.

Lemma strip_of_chars l : forallb (λ c, negb (is_space c)) l = true → strip (of_chars l) = of_chars l.
Proof.
  intros Hl. unfold strip. rewrite chars_of_chars, (drop_while_none _ l), drop_while_none, reverse_involutive by (done || by rewrite forallb_reverse). done.
Qed.

Lemma drop_while_head {A} (p : A → bool) a l : forallb (λ x, negb (p x)) a = true → a ≠ [] → drop_while p (a ++ l) = a ++ l.
Proof. destruct a as [|x a]; [done|]. cbn. rewrite andb_true_iff, negb_true_iff. by intros [-> _]. Qed.

Lemma strip_ends a m b :
  forallb (λ c, negb (is_space c)) a = true → a ≠ [] → forallb (λ c, negb (is_space c)) b = true → b ≠ [] →
  strip (of_chars (a ++ m ++ b)) = of_chars (a ++ m ++ b).
Proof.
  intros Ha Hna Hb Hnb. unfold strip. rewrite chars_of_chars, drop_while_head by done. f_equal.
  rewrite (app_assoc a m b), reverse_app, drop_while_head, reverse_app, !reverse_involutive; [done|by rewrite forallb_reverse|].
  intros He. apply Hnb. by rewrite <- (reverse_involutive b), He.
Qed.

(** A text that begins and ends with something other than space *)
Definition trimmed (l : list ascii) : Prop :=
  ∃ x y, head l = Some x ∧ last l = Some y ∧ is_space x = false ∧ is_space y = false.

Lemma strip_trimmed l : trimmed l → strip (of_chars l) = of_chars l.
Proof.
  intros (x & y & Hx & Hy & Sx & Sy). unfold strip. rewrite chars_of_chars. f_equal.
  destruct l as [|x' l]; [done|]. injection Hx as ->. cbn [drop_while]. rewrite Sx.
  apply last_Some in Hy as [l' E]. rewrite E, reverse_snoc. cbn [drop_while]. rewrite Sy. by rewrite reverse_cons, reverse_involutive.
Qed.

Lemma trimmed_app a m b : trimmed a → trimmed b → trimmed (a ++ m ++ b).
Proof.
  intros (x & _ & Hx & _ & Sx & _) (_ & y & _ & Hy & _ & Sy). exists x, y. split_and!; [by destruct a| |done..].
  apply last_Some in Hy as [b' ->]. by rewrite !app_assoc, last_snoc.
Qed.

Lemma trimmed_nonempty l : trimmed l → l ≠ [].
Proof. intros (x & y & Hx & _). by destruct l. Qed.

(** A regular expression ending in [$] also matches before one final newline:
    the text the rest of the pattern must match is the string without it. *)
Definition drop_final_newline (l : list ascii) : list ascii :=
  match reverse l with
  | c :: r => if is_newline c then reverse r else l
  | [] => []
  end.
