(* ===== verification/PyText.v ===== *)
(** Dates and texts of Python the commerce and audit components share: aware and naive
    datetimes with [isoformat], [str.upper], prefixes, substrings and [str.replace].

    Texts are sequences of code points below 256. [upper] is Python's on them, but for
    the two letters whose capital lies outside (it leaves them as they are, so that two
    texts are equal after it exactly when they are in Python). *)

From Stdlib Require Import Ascii.
From S2P Require Import Prelude PyVal.

Local Open Scope Z_scope.

(** * Dates *)

(** A [datetime]: the wall clock in microseconds since 1970-01-01T00:00, and the
    offset from UTC in microseconds when it is aware. *)
Record datetime := { wall : Z; utcoffset : option Z }.

#[global] Instance datetime_eq_dec : EqDecision datetime.
Proof. solve_decision. Defined.

(** [value.replace(tzinfo=UTC)] when naive, then [value.astimezone(UTC)]. *)
Definition to_utc (d : datetime) : datetime :=
  {| wall := match utcoffset d with None => wall d | Some o => wall d - o end; utcoffset := Some 0 |}.

(** The proleptic Gregorian date of a day number counted from 1970-01-01. *)
Definition civil_from_days (days : Z) : Z * Z * Z :=
  let z := days + 719468 in
  let era := z / 146097 in
  let doe := z mod 146097 in
  let yoe := (doe - doe / 1460 + doe / 36524 - doe / 146096) / 365 in
  let doy := doe - (365 * yoe + yoe / 4 - yoe / 100) in
  let mp := (5 * doy + 2) / 153 in
  let day := doy - (153 * mp + 2) / 5 + 1 in
  let month := if mp <? 10 then mp + 3 else mp - 9 in
  (yoe + era * 400 + (if month <=? 2 then 1 else 0), month, day).

(** [f"{z:0{n}d}"] *)
Fixpoint zpad (n : nat) (z : Z) : list ascii :=
  match n with
  | O => []
  | S n' => zpad n' (z / 10) ++ [ascii_of_nat (48 + Z.to_nat (z mod 10))]
  end.

Definition micros (us : Z) : list ascii := if us =? 0 then [] else "."%char :: zpad 6 us.

Definition iso_offset (o : Z) : list ascii :=
  let a := Z.abs o in
  let s := a / 1000000 in
  (if o <? 0 then "-"%char else "+"%char) :: zpad 2 (s / 3600) ++ [":"%char] ++ zpad 2 (s / 60 mod 60) ++
  (if a mod 60000000 =? 0 then [] else ":"%char :: zpad 2 (s mod 60) ++ micros (a mod 1000000)).

(** [d.isoformat(sep)] *)
Definition isoformat (sep : ascii) (d : datetime) : string :=
  let us := wall d mod 86400000000 in
  let s := us / 1000000 in
  let '(y, m, day) := civil_from_days (wall d / 86400000000) in
  of_chars (zpad 4 y ++ ["-"%char] ++ zpad 2 m ++ ["-"%char] ++ zpad 2 day ++ [sep] ++
            zpad 2 (s / 3600) ++ [":"%char] ++ zpad 2 (s / 60 mod 60) ++ [":"%char] ++ zpad 2 (s mod 60) ++
            micros (us mod 1000000) ++ match utcoffset d with None => [] | Some o => iso_offset o end).

Example isoformat_utc :
  isoformat "T" (to_utc {| wall := 1709251199000250; utcoffset := Some 19800000000 |}) =
  "2024-02-29T18:29:59.000250+00:00".
Proof. vm_compute. reflexivity. Qed.

(** * Texts *)

Definition upper_char (c : ascii) : list ascii :=
  let n := nat_of_ascii c in
  if is_lower_az c || (in_range c 224 254 && negb (n =? 247)%nat) then [ascii_of_nat (n - 32)]
  else if (n =? 223)%nat then ["S"%char; "S"%char]
  else [c].

(** [s.upper()] *)
Definition upper (s : string) : string := of_chars (chars s ≫= upper_char).

(** [text.encode("utf-8")] on code points below 256 *)
Definition utf8 (s : string) : string :=
  of_chars (chars s ≫= λ c, let n := nat_of_ascii c in
    if (n <? 128)%nat then [c] else [ascii_of_nat (192 + n / 64); ascii_of_nat (128 + n mod 64)]).

Fixpoint strip_prefix (p l : list ascii) : option (list ascii) :=
  match p, l with
  | [], _ => Some l
  | a :: p', b :: l' => if Ascii.eqb a b then strip_prefix p' l' else None
  | _ :: _, [] => None
  end.

(** [s.startswith(p)] *)
Definition starts_with (p s : string) : bool := bool_decide (is_Some (strip_prefix (chars p) (chars s))).

(** [sub in s] *)
Fixpoint contains_chars (sub l : list ascii) : bool :=
  bool_decide (is_Some (strip_prefix sub l)) || match l with [] => false | _ :: l' => contains_chars sub l' end.
Definition contains_text (sub s : string) : bool := contains_chars (chars sub) (chars s).

(** [s.replace(old, new)] for a non-empty [old] *)
Fixpoint replace_chars (fuel : nat) (old new l : list ascii) : list ascii :=
  match fuel with
  | O => l
  | S fuel' =>
      match strip_prefix old l with
      | Some rest => new ++ replace_chars fuel' old new rest
      | None => match l with [] => [] | c :: l' => c :: replace_chars fuel' old new l' end
      end
  end.
Definition replace_text (old new s : string) : string :=
  of_chars (replace_chars (length (chars s)) (chars old) (chars new) (chars s)).

Example replace_offset : replace_text "+00:00" "Z" "2024-01-02T03:04:05+00:00" = "2024-01-02T03:04:05Z".
Proof. reflexivity. Qed.

(** [bool(s)] of a text that may be [None] *)
Definition given (o : option string) : bool := match o with Some s => negb (String.eqb s EmptyString) | None => false end.

Lemma strip_prefix_app p l r : strip_prefix p l = Some r ↔ l = p ++ r.
Proof.
  revert l. induction p as [|a p IH]; intros l; cbn; [naive_solver|].
  destruct l as [|b l]; [done|]. destruct (Ascii.eqb_spec a b) as [->|]; [|naive_solver].
  rewrite IH. naive_solver.
Qed.

Lemma given_Some o : given o = true ↔ ∃ s, o = Some s ∧ s ≠ EmptyString.
Proof.
  destruct o as [s|]; cbn; [|naive_solver]. rewrite negb_true_iff, String.eqb_neq. naive_solver.
Qed.

(** The instant of an aware datetime, and the comparisons of two of them. *)
Definition instant (d : datetime) : Z := wall (to_utc d).
Definition dt_leb (a b : datetime) : bool := instant a <=? instant b.
Definition dt_ltb (a b : datetime) : bool := instant a <? instant b.

(** [d + timedelta(microseconds=us)] *)
Definition dt_add (d : datetime) (us : Z) : datetime := {| wall := wall d + us; utcoffset := utcoffset d |}.

Lemma instant_add d us : instant (dt_add d us) = instant d + us.
Proof. destruct d as [w [o|]]; unfold instant; cbn; lia. Qed.

(** * Reading parsed documents *)

Definition opt_val (o : option string) : pyval := match o with None => VNone | Some s => VStr s end.

(** [AttributeError], [TypeError], [ValueError]: a part of the document has the wrong type. *)
Inductive value_error := BadType.

Definition get_val (d : list (string * pyval)) (k : string) : pyval :=
  match assoc k d with Some v => v | None => VNone end.

(** [value or {}], then used as a dict *)
Definition or_dict (v : pyval) : result value_error (list (string * pyval)) :=
  if truthy v then match v with VMap kvs => Ok kvs | _ => Err BadType end else Ok [].

(** [for x in value or []] *)
Definition or_items (v : pyval) : result value_error (list pyval) :=
  if truthy v then
    match v with
    | VList l => Ok l
    | VMap kvs => Ok (VStr <$> kvs.*1)
    | VStr s => Ok ((λ c, VStr (of_chars [c])) <$> chars s)
    | _ => Err BadType
    end
  else Ok [].

(** [isinstance(value, int)]: a bool is an int. *)
Definition as_int (v : pyval) : option Z :=
  match v with VInt z => Some z | VBool b => Some (if b then 1 else 0) | _ => None end.

(** [str(value or '')] *)
Definition str_or_empty `{PyStr} (v : pyval) : string := if truthy v then py_str v else EmptyString.
