(* ===== verification/PyNumber.v ===== *)
(** [float(value)] of Python: the text of a number, and rounding to the nearest double.

    Decimal text is read exactly, as a fraction, and rounded once to the nearest binary
    float, ties to even; so is an [int]. *)

From Stdlib Require Import Ascii.
From S2P Require Import Prelude PyVal PyText.

Local Open Scope Z_scope.

(** * Rounding *)

(** The quotient rounded to the nearest integer, ties to the even one *)
Definition round_div (num den : Z) : Z :=
  let q := num / den in
  match (2 * (num mod den) ?= den)%Z with
  | Lt => q
  | Gt => q + 1
  | Eq => if Z.even q then q else q + 1
  end.

(** The exponent [e] with [2^e <= num / den < 2^(e+1)] *)
Definition floor_log2 (num den : Z) : Z :=
  let e := Z.log2 num - Z.log2 den in
  if num * 2 ^ Z.max 0 (- e) <? den * 2 ^ Z.max 0 e then e - 1 else e.

(** The double nearest to the positive fraction: 53 bits, exponents from -1074, and
    infinity from [2^1024] on *)
Definition round_fraction (num den : Z) : pyfloat :=
  let k := Z.max (floor_log2 num den - 52) (-1074) in
  let m := round_div (num * 2 ^ Z.max 0 (- k)) (den * 2 ^ Z.max 0 k) in
  if 2 ^ 1024 <=? m * 2 ^ Z.max 0 k then FInf false else FFin m k.

Definition negate (f : pyfloat) : pyfloat :=
  match f with FNan => FNan | FInf n => FInf (negb n) | FFin m e => FFin (- m) e end.

Definition signed (negative : bool) (f : pyfloat) : pyfloat := if negative then negate f else f.

(** * Text *)

(** Underscores may only stand between two digits; the text without them. *)
Fixpoint drop_underscores (prev : option ascii) (l : list ascii) : option (list ascii) :=
  let after_digit := match prev with Some p => is_digit p | None => false end in
  let after_underscore := match prev with Some p => is_underscore p | None => false end in
  match l with
  | [] => if after_underscore then None else Some []
  | c :: l' =>
      if is_underscore c then if after_digit then drop_underscores (Some c) l' else None
      else if after_underscore && negb (is_digit c) then None
      else cons c <$> drop_underscores (Some c) l'
  end.

Fixpoint span {A} (p : A → bool) (l : list A) : list A * list A :=
  match l with
  | x :: l' => if p x then let '(a, b) := span p l' in (x :: a, b) else ([], l)
  | [] => ([], [])
  end.

(** An optional sign, and what follows *)
Definition sign_of (l : list ascii) : bool * list ascii :=
  match l with
  | c :: l' => if Ascii.eqb c "-" then (true, l') else if Ascii.eqb c "+" then (false, l') else (false, l)
  | [] => (false, [])
  end.

(** [e], an optional sign and digits; nothing at all is exponent 0 *)
Definition exponent_of (l : list ascii) : option Z :=
  match l with
  | [] => Some 0
  | c :: l' =>
      if Ascii.eqb (lower_char c) "e" then
        let '(neg, ds) := sign_of l' in
        match ds with
        | [] => None
        | _ => if forallb is_digit ds then Some (if neg then - int_of_digits ds else int_of_digits ds) else None
        end
      else None
  end.

(** The double nearest to [m * 10^e] *)
Definition decimal (m e : Z) : pyfloat :=
  if m =? 0 then FFin 0 0 else round_fraction (m * 10 ^ Z.max 0 e) (10 ^ Z.max 0 (- e)).

Definition unsigned_number (l : list ascii) : option pyfloat :=
  let '(whole, l1) := span is_digit l in
  let '(frac, l2) := match l1 with
    | c :: l' => if Ascii.eqb c "." then span is_digit l' else ([], l1)
    | [] => ([], [])
    end in
  match whole ++ frac with
  | [] => None
  | ds => (λ e, decimal (int_of_digits ds) (e - Z.of_nat (length frac))) <$> exponent_of l2
  end.

(** [float(s)]; [None] is [ValueError] *)
Definition float_of_text (s : string) : option pyfloat :=
  l ← drop_underscores None (chars (strip s));
  let '(neg, rest) := sign_of l in
  let word := of_chars (lower_char <$> rest) in
  if String.eqb word "inf" || String.eqb word "infinity" then Some (FInf neg)
  else if String.eqb word "nan" then Some FNan
  else signed neg <$> unsigned_number rest.

(** * [float(value)] *)

(** [ValueError] and [TypeError], which callers catch together, and [OverflowError] *)
Inductive float_error := NotANumber | OverflowError.

Definition float_of_int (z : Z) : result float_error pyfloat :=
  if z =? 0 then Ok (FFin 0 0)
  else match round_fraction (Z.abs z) 1 with
  | FInf _ => Err OverflowError
  | f => Ok (signed (z <? 0) f)
  end.

Definition py_float (v : pyval) : result float_error pyfloat :=
  match v with
  | VBool b => Ok (FFin (if b then 1 else 0) 0)
  | VInt z => float_of_int z
  | VFloat f => Ok f
  | VStr s => match float_of_text s with Some f => Ok f | None => Err NotANumber end
  | _ => Err NotANumber
  end.

Example float_texts :
  float_of_text " 1_000.5 " = Some (FFin 8800491068719104 (-43)) ∧ float_of_text "-.5e1" = Some (FFin (-5629499534213120) (-50)) ∧
  float_of_text "0.1" = Some (FFin 7205759403792794 (-56)) ∧ float_of_text "1e400" = Some (FInf false) ∧
  float_of_text "4.9e-324" = Some (FFin 1 (-1074)) ∧ float_of_text "1__0" = None ∧ float_of_text "1e" = None ∧
  float_of_text "-Infinity" = Some (FInf true) ∧ py_float (VInt (10 ^ 400)) = Err OverflowError ∧
  py_float (VInt (2 ^ 53 + 1)) = Ok (FFin 4503599627370496 1).
Proof. vm_compute. repeat split; reflexivity. Qed.

(** * Integers of up to 53 bits are exact *)

Lemma round_div_exact a b : 0 < b → round_div (a * b) b = a.
Proof.
  intros Hb. unfold round_div. rewrite Z.div_mul, Z.mod_mul by lia.
  destruct (Z.compare_spec (2 * 0) b); [lia|done|lia].
Qed.

Lemma floor_log2_int z : 0 < z → floor_log2 z 1 = Z.log2 z.
Proof.
  intros Hz. unfold floor_log2. change (Z.log2 1) with 0. rewrite Z.sub_0_r.
  pose proof (Z.log2_nonneg z). rewrite (Z.max_l 0 (- _)), (Z.max_r 0) by lia.
  rewrite Z.pow_0_r, Z.mul_1_r, Z.mul_1_l. pose proof (Z.log2_spec z Hz).
  destruct (Z.ltb_spec z (2 ^ Z.log2 z)); lia.
Qed.

(** [FFin m e] is the integer [z] *)
Definition is_int (f : pyfloat) (z : Z) : Prop := ∃ m e, f = FFin m e ∧ fin_compare m e z 0 = Eq.

Lemma round_int_exact z : 0 < z ≤ 2 ^ 53 → ∃ m k, round_fraction z 1 = FFin m k ∧ fin_compare m k z 0 = Eq.
Proof.
  intros Hz. unfold round_fraction. rewrite floor_log2_int by lia.
  pose proof (Z.log2_spec z ltac:(lia)) as Hl. pose proof (Z.log2_nonneg z) as Hn.
  assert (Z.log2 z ≤ 53) by (rewrite <- (Z.log2_pow2 53) by lia; apply Z.log2_le_mono; lia).
  rewrite (Z.max_l (Z.log2 z - 52)) by lia. set (k := Z.log2 z - 52).
  destruct (decide (k ≤ 0)) as [Hk|Hk].
  - rewrite (Z.max_r 0 (- k)), (Z.max_l 0 k) by lia. rewrite <- (Z.mul_1_r (z * _)), round_div_exact by lia.
    destruct (Z.leb_spec (2 ^ 1024) (z * 2 ^ (- k) * 2 ^ 0)) as [Hb|_].
    + exfalso. assert (2 ^ 53 = 2 ^ Z.succ (Z.log2 z) * 2 ^ (- k)) as E by (rewrite <- Z.pow_add_r by lia; f_equal; lia).
      assert (z * 2 ^ (- k) < 2 ^ 53); [|lia]. rewrite E. apply Z.mul_lt_mono_pos_r; [apply Z.pow_pos_nonneg; lia|lia].
    + do 2 eexists. split; [done|]. unfold fin_compare. rewrite (Z.min_l k 0) by lia.
      replace (k - k) with 0 by lia. replace (0 - k) with (- k) by lia. rewrite Z.pow_0_r, Z.mul_1_r. apply Z.compare_refl.
  - assert (z = 2 ^ 53) as ->.
    { replace (Z.log2 z) with 53 in Hl by lia. lia. }
    vm_compute. do 2 eexists. split; reflexivity.
Qed.

Lemma float_of_int_exact z : Z.abs z ≤ 2 ^ 53 → ∃ f, float_of_int z = Ok f ∧ is_int f z.
Proof.
  intros Hz. unfold float_of_int. destruct (Z.eqb_spec z 0) as [->|Hz0]; [exists (FFin 0 0); split; [done|]; by exists 0, 0|].
  destruct (round_int_exact (Z.abs z)) as (m & k & -> & Hc); [lia|].
  eexists. split; [done|]. unfold signed. destruct (Z.ltb_spec z 0); cbn; do 2 eexists; (split; [done|]).
  - unfold fin_compare in *. rewrite Z.compare_eq_iff in *. lia.
  - by replace z with (Z.abs z) by lia.
Qed.

Lemma is_int_compare f g a b : is_int f a → is_int g b → float_compare f g = Some (a ?= b).
Proof.
  intros (m & e & -> & Hf) (n & d & -> & Hg). cbn. f_equal. unfold fin_compare in *.
  rewrite Z.compare_eq_iff in Hf, Hg. set (c := Z.min e d).
  assert (Hpow : ∀ e c x y, c ≤ e → c ≤ 0 → x * 2 ^ (e - Z.min e 0) = y * 2 ^ (0 - Z.min e 0) → x * 2 ^ (e - c) = y * 2 ^ (- c)).
  { clear. intros e c x y He Hc E. replace (e - c) with (e - Z.min e 0 + (Z.min e 0 - c)) by lia.
    replace (- c) with (0 - Z.min e 0 + (Z.min e 0 - c)) by lia. rewrite !Z.pow_add_r by lia. rewrite !Z.mul_assoc, E. lia. }
  pose proof (Hpow e (Z.min c 0) m a ltac:(lia) ltac:(lia) Hf) as Em.
  pose proof (Hpow d (Z.min c 0) n b ltac:(lia) ltac:(lia) Hg) as En.
  set (s := c - Z.min c 0). assert (0 < 2 ^ s) by (apply Z.pow_pos_nonneg; lia).
  assert (0 < 2 ^ (- Z.min c 0)) by (apply Z.pow_pos_nonneg; lia).
  rewrite (Zmult_compare_compat_r _ _ (2 ^ s)) by lia.
  rewrite <- !Z.mul_assoc, <- !Z.pow_add_r by lia.
  replace (e - c + s) with (e - Z.min c 0) by lia. replace (d - c + s) with (d - Z.min c 0) by lia.
  rewrite Em, En. symmetry. apply Zmult_compare_compat_r. lia.
Qed.
