(* ===== verification/PyCache.v ===== *)
(** Python dictionaries with any key, in insertion order, as the in-process caches of the program
    use them: lookup, assignment, [pop], and the entry [min] picks by its time. *)

From S2P Require Import Prelude.

Local Open Scope Z_scope.

Section cache.
Context {K V : Type} `{EqDecision K}.
Implicit Types (d : list (K * V)) (k j : K) (v w : V) (t : V → Z).

Fixpoint dget k d : option V :=
  match d with [] => None | (k', v) :: d' => if bool_decide (k = k') then Some v else dget k d' end.

Fixpoint dset k v d : list (K * V) :=
  match d with
  | [] => [(k, v)]
  | (k', v') :: d' => if bool_decide (k = k') then (k, v) :: d' else (k', v') :: dset k v d'
  end.

(** [d.pop(k, None)] *)
Definition dpop k d : list (K * V) := List.filter (λ e, negb (bool_decide (e.1 = k))) d.

(** [min(d, key=lambda k: t(d[k]))]: the first of the least *)
Fixpoint oldest t d : option (K * V) :=
  match d with
  | [] => None
  | e :: d' => match oldest t d' with Some e' => if t e'.2 <? t e.2 then Some e' else Some e | None => Some e end
  end.

Definition pop_oldest t d : list (K * V) := match oldest t d with Some e => dpop e.1 d | None => d end.

(** [while len(d) >= max: d.pop(min(d, ...), None)]; every turn removes an entry. *)
Fixpoint shrink (fuel : nat) t (max : nat) d : list (K * V) :=
  match fuel with
  | O => d
  | S fuel' => if (max <=? length d)%nat then shrink fuel' t max (pop_oldest t d) else d
  end.

(** * Lookup *)

Lemma dget_elem_of k v d : dget k d = Some v → (k, v) ∈ d.
Proof. induction d as [|[k' v'] d IH]; cbn; [done|]. case_bool_decide as Hk; intros; simplify_eq; [by left|right; auto]. Qed.

Lemma dget_is_Some k d : is_Some (dget k d) ↔ k ∈ d.*1.
Proof.
  induction d as [|[k' v'] d IH]; cbn; [split; [by intros [? ?]|set_solver]|].
  case_bool_decide as Hk; [split; [set_solver|eauto]|]. rewrite IH. set_solver.
Qed.

Lemma dget_dset k j v d : dget j (dset k v d) = if bool_decide (j = k) then Some v else dget j d.
Proof.
  induction d as [|[k' v'] d IH]; cbn; [done|].
  destruct (decide (k = k')) as [<-|Hk]; [rewrite (bool_decide_true (k = k)) by done|rewrite (bool_decide_false (k = k')) by done];
    cbn; rewrite ?IH; repeat case_bool_decide; congruence.
Qed.

Lemma elem_of_dset e k v d : e ∈ dset k v d → e = (k, v) ∨ e ∈ d.
Proof. induction d as [|[k' v'] d IH]; cbn; [set_solver|]. case_bool_decide; set_solver. Qed.

Lemma elem_of_dpop e k d : e ∈ dpop k d ↔ e.1 ≠ k ∧ e ∈ d.
Proof.
  unfold dpop. rewrite !list_elem_of_In, filter_In, negb_true_iff, bool_decide_eq_false. tauto.
Qed.

Lemma dget_dpop k j d : dget j (dpop k d) = if bool_decide (j = k) then None else dget j d.
Proof.
  unfold dpop. induction d as [|[k' v'] d IH]; cbn; [by case_bool_decide|].
  destruct (decide (k' = k)) as [->|Hk]; [rewrite (bool_decide_true (k = k)) by done|rewrite (bool_decide_false (k' = k)) by done];
    cbn; rewrite ?IH; repeat case_bool_decide; congruence.
Qed.

(** * Sizes *)

Lemma length_dset_present k v d : k ∈ d.*1 → length (dset k v d) = length d.
Proof.
  induction d as [|[k' v'] d IH]; cbn; [set_solver|]. case_bool_decide; cbn; [done|]. intros. f_equal. apply IH. set_solver.
Qed.

Lemma length_dset k v d : (length (dset k v d) ≤ S (length d))%nat.
Proof. induction d as [|[k' v'] d IH]; cbn; [done|]. case_bool_decide; cbn; lia. Qed.

Lemma length_dpop_le k d : (length (dpop k d) ≤ length d)%nat.
Proof. unfold dpop. induction d as [|e d IH]; cbn; [done|]. destruct (negb _); cbn; lia. Qed.

Lemma length_dpop_lt k d : k ∈ d.*1 → (length (dpop k d) < length d)%nat.
Proof.
  unfold dpop. induction d as [|e d IH]; cbn; [set_solver|]. intros [->|Hk]%elem_of_cons.
  - rewrite bool_decide_true by done. cbn. pose proof (length_dpop_le e.1 d). unfold dpop in *. lia.
  - specialize (IH Hk). destruct (negb _); cbn; lia.
Qed.

Lemma oldest_elem_of t d e : oldest t d = Some e → e ∈ d.
Proof.
  revert e. induction d as [|x d IH]; cbn; intros e; [done|]. destruct (oldest t d) as [e'|] eqn:E.
  - destruct (_ <? _); intros; simplify_eq; [right; auto|by left].
  - intros; simplify_eq. by left.
Qed.

(** What [min] picks is no later than any entry. *)
Lemma oldest_least t d e : oldest t d = Some e → Forall (λ e', t e.2 ≤ t e'.2) d.
Proof.
  revert e. induction d as [|x d IH]; cbn; intros e; [done|]. destruct (oldest t d) as [e'|] eqn:E.
  - specialize (IH _ eq_refl). destruct (Z.ltb_spec (t e'.2) (t x.2)); intros; simplify_eq; constructor; try lia; [done|].
    eapply Forall_impl; [done|]. cbn. lia.
  - destruct d as [|y d]; [|exfalso; cbn in E; repeat case_match; done]. intros; simplify_eq. by repeat constructor.
Qed.

Lemma oldest_Some t d : d ≠ [] → is_Some (oldest t d).
Proof. destruct d as [|e d]; [done|]. intros _. cbn. destruct (oldest t d); [destruct (_ <? _)|]; eauto. Qed.

Lemma length_pop_oldest t d : d ≠ [] → (length (pop_oldest t d) < length d)%nat.
Proof.
  intros Hd. unfold pop_oldest. destruct (oldest_Some t d Hd) as [e He]. rewrite He.
  apply length_dpop_lt. apply list_elem_of_fmap. exists e. split; [done|]. by eapply oldest_elem_of.
Qed.

Lemma pop_oldest_subset t d e : e ∈ pop_oldest t d → e ∈ d.
Proof. unfold pop_oldest. destruct (oldest t d); [|done]. by intros [_ He]%elem_of_dpop. Qed.

(** Enough turns bring the dictionary below its bound. *)
Lemma length_shrink fuel t max d : (0 < max)%nat → (length d ≤ fuel)%nat → (length (shrink fuel t max d) < max)%nat.
Proof.
  intros Hm. revert d. induction fuel as [|fuel IH]; cbn; intros d Hd; [lia|].
  destruct (Nat.leb_spec max (length d)); [|done]. apply IH.
  assert (d ≠ []) as Hne by (intros ->; cbn in *; lia). pose proof (length_pop_oldest t d Hne). lia.
Qed.

Lemma shrink_subset fuel t max d e : e ∈ shrink fuel t max d → e ∈ d.
Proof.
  revert d. induction fuel as [|fuel IH]; cbn; intros d; [done|]. destruct (_ <=? _)%nat; [|done].
  intros He. by apply (pop_oldest_subset t), IH.
Qed.

Lemma dget_NoDup k v d : NoDup d.*1 → (k, v) ∈ d → dget k d = Some v.
Proof.
  induction d as [|[k' v'] d IH]; cbn; intros Hnd Hin; [by apply elem_of_nil in Hin|].
  apply NoDup_cons in Hnd as [Hk' Hnd]. case_bool_decide as Hk.
  - subst. apply elem_of_cons in Hin as [?|Hin]; [by simplify_eq|]. exfalso. apply Hk', list_elem_of_fmap. by exists (k', v).
  - apply IH; [done|]. set_solver.
Qed.
End cache.
