(* ===== verification/Digest.v ===== *)
(** The parts of [hashlib] and [json] the modelled code calls: SHA-256 with its
    hexadecimal digest, and [json.dumps] in the canonical form used for hashing
    (sorted keys, no spaces, ASCII only, no NaN). *)

From Stdlib Require Import Ascii.
From S2P Require Import Prelude PyVal.

Local Open Scope Z_scope.

(** * SHA-256 (FIPS 180-4) on 32-bit words *)

Module SHA256.

Definition w32 (z : Z) : Z := z mod 2 ^ 32.
Definition add32 (a b : Z) : Z := w32 (a + b).
Definition rotr (n x : Z) : Z := Z.lor (Z.shiftr x n) (w32 (Z.shiftl x (32 - n))).
Definition not32 (x : Z) : Z := 2 ^ 32 - 1 - x.

Definition ch (x y z : Z) : Z := Z.lxor (Z.land x y) (Z.land (not32 x) z).
Definition maj (x y z : Z) : Z := Z.lxor (Z.land x y) (Z.lxor (Z.land x z) (Z.land y z)).
Definition bsig0 (x : Z) : Z := Z.lxor (rotr 2 x) (Z.lxor (rotr 13 x) (rotr 22 x)).
Definition bsig1 (x : Z) : Z := Z.lxor (rotr 6 x) (Z.lxor (rotr 11 x) (rotr 25 x)).
Definition ssig0 (x : Z) : Z := Z.lxor (rotr 7 x) (Z.lxor (rotr 18 x) (Z.shiftr x 3)).
Definition ssig1 (x : Z) : Z := Z.lxor (rotr 17 x) (Z.lxor (rotr 19 x) (Z.shiftr x 10)).

Definition K : list Z :=
  [1116352408; 1899447441; 3049323471; 3921009573; 961987163; 1508970993;
   2453635748; 2870763221; 3624381080; 310598401; 607225278; 1426881987;
   1925078388; 2162078206; 2614888103; 3248222580; 3835390401; 4022224774;
   264347078; 604807628; 770255983; 1249150122; 1555081692; 1996064986;
   2554220882; 2821834349; 2952996808; 3210313671; 3336571891; 3584528711;
   113926993; 338241895; 666307205; 773529912; 1294757372; 1396182291;
   1695183700; 1986661051; 2177026350; 2456956037; 2730485921; 2820302411;
   3259730800; 3345764771; 3516065817; 3600352804; 4094571909; 275423344;
   430227734; 506948616; 659060556; 883997877; 958139571; 1322822218;
   1537002063; 1747873779; 1955562222; 2024104815; 2227730452; 2361852424;
   2428436474; 2756734187; 3204031479; 3329325298].

Definition H0 : list Z := [1779033703; 3144134277; 1013904242; 2773480762; 1359893119; 2600822924; 528734635; 1541459225].

(** The message schedule, built backwards: [w] holds the words so far, last first. *)
Fixpoint extend (n : nat) (w : list Z) : list Z :=
  match n with
  | O => w
  | S n' =>
      let word i := nth i w 0 in
      extend n' (add32 (add32 (ssig1 (word 1%nat)) (word 6%nat))
                       (add32 (ssig0 (word 14%nat)) (word 15%nat)) :: w)
  end.

Definition round (st : list Z) (kw : Z * Z) : list Z :=
  match st with
  | [a; b; c; d; e; f; g; h] =>
      let t1 := add32 (add32 h (bsig1 e)) (add32 (ch e f g) (add32 (fst kw) (snd kw))) in
      let t2 := add32 (bsig0 a) (maj a b c) in
      [add32 t1 t2; a; b; c; add32 d t1; e; f; g]
  | _ => st
  end.

Definition compress (st block : list Z) : list Z :=
  let w := reverse (extend 48 (reverse block)) in
  zip_with add32 st (foldl round st (zip K w)).

(** Big-endian bytes to words and back. *)
Fixpoint words (bytes : list Z) : list Z :=
  match bytes with
  | b0 :: b1 :: b2 :: b3 :: rest => (((b0 * 256 + b1) * 256 + b2) * 256 + b3) :: words rest
  | _ => []
  end.

Fixpoint be_bytes (n : nat) (z : Z) : list Z :=
  match n with O => [] | S n' => be_bytes n' (z / 256) ++ [z mod 256] end.

Definition pad (bytes : list Z) : list Z :=
  let len := Z.of_nat (length bytes) in
  bytes ++ [128] ++ repeat 0 (Z.to_nat ((55 - len) mod 64)) ++ be_bytes 8 (8 * len).

Fixpoint blocks (n : nat) (ws : list Z) : list (list Z) :=
  match n with O => [] | S n' => take 16 ws :: blocks n' (drop 16 ws) end.

Definition digest (bytes : list Z) : list Z :=
  let ws := words (pad bytes) in
  foldl compress H0 (blocks (length ws / 16) ws).

End SHA256.

Definition hex_digit (n : Z) : ascii :=
  let k := Z.to_nat n in
  if (k <? 10)%nat then ascii_of_nat (48 + k) else ascii_of_nat (87 + k).

Definition hex_bytes (l : list Z) : list ascii :=
  l ≫= λ b, [hex_digit (b / 16); hex_digit (b mod 16)].

Definition byte_values (s : string) : list Z :=
  (λ c, Z.of_nat (nat_of_ascii c)) <$> chars s.

(** [hashlib.sha256(data).hexdigest()] on the bytes [data]. *)
Definition sha256_hexdigest (data : string) : string :=
  of_chars (hex_bytes (SHA256.digest (byte_values data) ≫= SHA256.be_bytes 4)).

#[global] Arguments sha256_hexdigest : simpl never.

Example sha256_abc : sha256_hexdigest "abc" =
  "ba7816bf8f01cfea414140de5dae2223b00361a396177a9cb410ff61f20015ad".
Proof. vm_compute. reflexivity. Qed.

Example sha256_two_blocks :
  sha256_hexdigest "abcdbcdecdefdefgefghfghighijhijkijkljklmklmnlmnomnopnopq" =
  "248d6a61d20638b8e5c026930c3e6039a33ce45964ff2167f6ecedd419db06c1".
Proof. vm_compute. reflexivity. Qed.

(** * JSON *)

Definition quote : ascii := ascii_of_nat 34.
Definition backslash : ascii := ascii_of_nat 92.

(** One character of a string under [ensure_ascii=True]. *)
Definition json_char (c : ascii) : list ascii :=
  let n := nat_of_ascii c in
  let esc d := [backslash; d] in
  if Ascii.eqb c quote then esc quote
  else if Ascii.eqb c backslash then esc backslash
  else if (n =? 8)%nat then esc "b"%char
  else if (n =? 9)%nat then esc "t"%char
  else if (n =? 10)%nat then esc "n"%char
  else if (n =? 12)%nat then esc "f"%char
  else if (n =? 13)%nat then esc "r"%char
  else if in_range c 32 126 then [c]
  else [backslash; "u"%char; "0"%char; "0"%char;
        hex_digit (Z.of_nat n / 16); hex_digit (Z.of_nat n mod 16)].

Definition json_string (s : string) : string :=
  of_chars (quote :: (chars s ≫= json_char) ++ [quote]).

Definition join (sep : string) (l : list string) : string :=
  match l with
  | [] => EmptyString
  | x :: l' => foldl (λ acc y, acc +:+ sep +:+ y) x l'
  end.

Definition key_leb {V} (a b : string * V) : bool := String.leb (fst a) (fst b).

(** The shortest decimal text that reads back as the same finite float:
    [float.__repr__], a parameter of the model. *)
Class FloatRepr := float_repr : pyfloat → string.

(** [json.dumps(v, sort_keys=True, separators=(",", ":"), ensure_ascii=True,
    allow_nan=False)]; [None] is the exception (ValueError on a non-finite float,
    TypeError on an object JSON has no form for). *)
Fixpoint json_dumps `{FloatRepr} (v : pyval) : option string :=
  match v with
  | VNone => Some "null"
  | VBool b => Some (if b then "true" else "false")
  | VInt z => Some (pretty z)
  | VFloat (FFin m e) => Some (float_repr (FFin m e))
  | VFloat _ => None
  | VStr s => Some (json_string s)
  | VList l =>
      (λ items, "[" +:+ join "," items +:+ "]") <$>
      (fix go l := match l with
         | [] => Some []
         | x :: l' => y ← json_dumps x; ys ← go l'; Some (y :: ys)
         end) l
  | VMap kvs =>
      (λ items : list (string * string),
         "{" +:+ join "," ((λ kv, json_string (fst kv) +:+ ":" +:+ snd kv) <$> sort_by key_leb items)
             +:+ "}") <$>
      (fix go kvs := match kvs with
         | [] => Some []
         | (k, x) :: l' => y ← json_dumps x; ys ← go l'; Some ((k, y) :: ys)
         end) kvs
  | VOther | VRaise => None
  end.

(** The values of a mapping, serialised; a failing value fails the mapping. *)
Definition dump_entries `{FloatRepr} : list (string * pyval) → option (list (string * string)) :=
  fix go kvs := match kvs with
    | [] => Some []
    | (k, x) :: l' => y ← json_dumps x; ys ← go l'; Some ((k, y) :: ys)
    end.

Lemma json_dumps_VMap `{FloatRepr} kvs :
  json_dumps (VMap kvs) =
  (λ items : list (string * string),
     "{" +:+ join "," ((λ kv, json_string (fst kv) +:+ ":" +:+ snd kv) <$> sort_by key_leb items)
         +:+ "}") <$> dump_entries kvs.
Proof. done. Qed.

Lemma dump_entries_keys `{FloatRepr} kvs out : dump_entries kvs = Some out → out.*1 = kvs.*1.
Proof.
  revert out. induction kvs as [|[k v] kvs IH]; intros out; cbn; [naive_solver|].
  destruct (json_dumps v); cbn; [|done].
  destruct (dump_entries kvs) eqn:E; cbn; [|done]. intros; simplify_eq/=. f_equal. by apply IH.
Qed.

Lemma dump_entries_Permutation `{FloatRepr} kvs1 kvs2 :
  kvs1 ≡ₚ kvs2 →
  match dump_entries kvs1, dump_entries kvs2 with
  | Some o1, Some o2 => o1 ≡ₚ o2
  | None, None => True
  | _, _ => False
  end.
Proof.
  induction 1 as [|[k v] l1 l2 _ IH|[k1 v1] [k2 v2] l|l1 l2 l3 _ IH1 _ IH2]; cbn; [done| | |].
  - destruct (json_dumps v); cbn; [|done].
    destruct (dump_entries l1), (dump_entries l2); cbn; try done. by rewrite IH.
  - destruct (json_dumps v1), (json_dumps v2); cbn; try done;
      destruct (dump_entries l); cbn; try done. apply Permutation_swap.
  - destruct (dump_entries l1), (dump_entries l2), (dump_entries l3); try done. by rewrite IH1.
Qed.

(** Mappings with the same entries in another order have one canonical text. *)
Lemma json_dumps_Permutation `{FloatRepr} kvs1 kvs2 :
  NoDup kvs1.*1 → kvs1 ≡ₚ kvs2 → json_dumps (VMap kvs1) = json_dumps (VMap kvs2).
Proof.
  intros Hnd Hp. rewrite !json_dumps_VMap.
  pose proof (dump_entries_Permutation _ _ Hp) as Hd.
  destruct (dump_entries kvs1) as [o1|] eqn:E1, (dump_entries kvs2) as [o2|] eqn:E2; try done.
  cbn. do 4 f_equal. apply dump_entries_keys in E1.
  assert (Hnd1 : NoDup o1.*1) by by rewrite E1.
  f_equal. eapply StronglySorted_unique_strong;
    [|apply sort_by_sorted; [intros ??; apply string_leb_total|intros ???; apply string_leb_trans]..
     |by rewrite !sort_by_Permutation].
  intros [ka va] [kb vb] Ha Hb H1 H2.
  apply elem_of_sort_by in Ha, Hb. rewrite <- Hd in Hb.
  apply Is_true_true in H1, H2. unfold key_leb in H1, H2. cbn in H1, H2.
  assert (ka = kb) as <- by by apply String.leb_antisym.
  f_equal. eapply assoc_NoDup in Ha, Hb; [|done..]. congruence.
Qed.
