(* ===== verification/FeatureFlags.v ===== *)
(** Feature flags: src/core/feature_flags.py.

    Flags are rows of a table, one per tenant and key and one global row per key, read through a
    bounded cache of thirty seconds that every reader of the process shares. A reader awaits the
    database between its lookup in the cache and its write, so other readers may change the cache in
    the meantime: an operation takes the cache it finds first ([c]) and, in [reading], the one it
    finds when it writes. Clock readings are whole nanoseconds. *)

From Stdlib Require Import Ascii.
From S2P Require Import Prelude PyVal PyText Digest PyCache.

Local Open Scope Z_scope.

Definition SECOND : Z := 1000000000.
Definition _CACHE_TTL_SECONDS : Z := 30.
Definition _CACHE_MAX_SIZE : nat := 2048.

(** * Rows *)

(** A row of the table *)
Record FeatureFlag := {
  tenant_id : option string;
  flag_key : string;
  enabled : bool;
  rollout_percentage : Z;
}.

(** What is kept of it *)
Record flag := { row_on : bool; row_percentage : Z }.
Definition _as_row (f : FeatureFlag) : flag := {| row_on := enabled f; row_percentage := rollout_percentage f |}.

Record FlagRows := { global_row : option flag; tenant_row : option flag }.

Inductive flag_error := FeatureFlagLookupError | KeyError.

Abbreviation db := (list FeatureFlag).

Definition flags_of (rows : db) (tenant : option string) (key : string) : db :=
  List.filter (λ f, bool_decide (tenant_id f = tenant) && String.eqb (flag_key f) key) rows.

(** [scalar_one_or_none] of a query that may fail ([None]) *)
Definition select_flag (table : option db) (tenant : option string) (key : string) : option (option flag) :=
  match table with
  | None => None
  | Some rows =>
      match flags_of rows tenant key with
      | [] => Some None
      | [f] => Some (Some (_as_row f))
      | _ => None
      end
  end.

(** What the cache keeps: the rows of a key, one row, or that a lookup failed *)
Inductive entry := Rows (r : FlagRows) | Row (r : option flag) | _LOOKUP_FAILED.

Abbreviation cache := (list ((string * string) * (entry * Z))).

(** One database read: when the operation began, what its two queries saw, and the time and the cache
    at which it writes *)
Record reading := { started : Z; select1 : option db; select2 : option db; stored : Z; found : cache }.

Definition _query_flag (tenant : option string) (key : string) (q : reading) : option (option flag) :=
  match (match tenant with Some t => select_flag (select1 q) (Some t) key | None => Some None end) with
  | None => None
  | Some (Some row) => Some (Some row)
  | Some None => select_flag (select2 q) None key
  end.

(** * Rollouts *)

Definition _bucket (key subject : string) : Z :=
  default 0 (head (SHA256.digest (byte_values (utf8 (key +:+ ":" +:+ subject))))) mod 100.

Definition rolled_out (key subject : string) (pct : Z) : bool :=
  if 100 <=? pct then true else if pct <=? 0 then false
  else _bucket key (if String.eqb subject EmptyString then "__anon__" else subject) <? pct.

(** [str(user_id or tenant_id or "")] *)
Definition subject_of (tenant user : option string) : string :=
  match user, tenant with Some u, _ => u | None, Some t => t | None, None => EmptyString end.

Definition _evaluate (row : option flag) (key : string) (tenant user : option string) (dflt : bool) : bool :=
  match row with
  | None => dflt
  | Some r => if negb (row_on r) then false else rolled_out key (subject_of tenant user) (row_percentage r)
  end.

Definition row_enabled (key : string) (row : option flag) (subject_id : string) : bool :=
  match row with
  | None => false
  | Some r => if negb (row_on r) then false else rolled_out key subject_id (row_percentage r)
  end.

(** * The cache *)

Definition expiry (v : entry * Z) : Z := snd v.

(** Expired entries go first, then those that expire soonest. *)
Definition make_room (now : Z) (c : cache) : cache :=
  let live := List.filter (λ e, negb (expiry e.2 <=? now)) c in shrink (length live) expiry _CACHE_MAX_SIZE live.

Definition _store_cache (key : string * string) (row : entry) (expires_at now : Z) (c : cache) : cache :=
  dset key (row, expires_at) (if bool_decide (key ∉ c.*1) && (_CACHE_MAX_SIZE <=? length c)%nat then make_room now c else c).

(** [cached is not None and cached[1] > now] *)
Definition cached_entry (key : string * string) (now : Z) (c : cache) : option entry :=
  match dget key c with Some (e, expires_at) => if now <? expires_at then Some e else None | None => None end.

Definition flag_cache_key (tenant : option string) (key : string) : string * string := (default "_global" tenant, key).
Definition rows_cache_key (tenant key : string) : string * string := ("rows:" +:+ tenant, key).

Definition remember (k : string * string) (row : entry) (q : reading) : cache :=
  _store_cache k row (started q + _CACHE_TTL_SECONDS * SECOND) (stored q) (found q).

(** * Readers *)

(** A row that is a pair has no [enabled]. *)
Definition row_of (e : entry) : result flag_error (option flag) :=
  match e with Row row => Ok row | Rows _ => Err KeyError | _LOOKUP_FAILED => Ok None end.

Definition _load_flag (tenant : option string) (key : string) (q : reading) (c : cache) : result flag_error (option flag) * cache :=
  let k := flag_cache_key tenant key in
  match cached_entry k (started q) c with
  | Some e => (row_of e, found q)
  | None =>
      match _query_flag tenant key q with
      | None => (Ok None, remember k _LOOKUP_FAILED q)
      | Some row => (Ok row, remember k (Row row) q)
      end
  end.

Definition is_enabled (key : string) (tenant user : option string) (dflt : bool) (q : reading) (c : cache) : result flag_error bool * cache :=
  let (row, c') := _load_flag tenant key q c in ((λ row, _evaluate row key tenant user dflt) <$> row, c').

Definition strict_row (tenant : option string) (key : string) (q : reading) (c : cache) : result flag_error (option flag) * cache :=
  let k := flag_cache_key tenant key in
  let ask :=
    match _query_flag tenant key q with
    | None => (Err FeatureFlagLookupError, found q)
    | Some row => (Ok row, remember k (Row row) q)
    end in
  match cached_entry k (started q) c with
  | Some _LOOKUP_FAILED | None => ask
  | Some e => (row_of e, found q)
  end.

Definition is_enabled_strict (key : string) (tenant user : option string) (q : reading) (c : cache) : result flag_error bool * cache :=
  let (row, c') := strict_row tenant key q c in ((λ row, _evaluate row key tenant user false) <$> row, c').

Definition read_rows (tenant key : string) (q : reading) : option FlagRows :=
  match select_flag (select1 q) (Some tenant) key, select_flag (select2 q) None key with
  | Some t, Some g => Some {| global_row := g; tenant_row := t |}
  | _, _ => None
  end.

Definition load_flag_rows_strict (tenant key : string) (q : reading) (c : cache) : result flag_error FlagRows * cache :=
  let k := rows_cache_key tenant key in
  let ask :=
    match read_rows tenant key q with
    | None => (Err FeatureFlagLookupError, found q)
    | Some rows => (Ok rows, remember k (Rows rows) q)
    end in
  match cached_entry k (started q) c with
  | Some (Rows rows) => (Ok rows, found q)
  | Some (Row (Some _)) | Some _LOOKUP_FAILED => (Err KeyError, found q)
  | Some (Row None) | None => ask
  end.

(** * Reserved keys *)

Definition RESERVED_FLAG_KEYS : list string :=
  ["grants.enforce_closed"; "pseudonymisation.pre_model"; "approvals.resume_agent_runs"; "approvals.unevaluable_condition";
   "decisions.required"; "caps.enforce"; "operator_override.enabled"; "residency.enforce"; "model_gateway.enabled"; "guardrails.enforce"].

Definition is_reserved_flag_key (key : string) : bool :=
  let k := lower (strip key) in
  existsb (λ reserved, String.eqb k reserved || starts_with (reserved +:+ ".") k) RESERVED_FLAG_KEYS.

(** * The cache bounds staleness *)

Lemma filter_subset {A} (p : A → bool) l x : x ∈ List.filter p l → x ∈ l.
Proof. rewrite !list_elem_of_In, filter_In. tauto. Qed.

Lemma elem_of_store e k row ex now c : e ∈ _store_cache k row ex now c → e = (k, (row, ex)) ∨ e ∈ c.
Proof.
  unfold _store_cache. intros [->|He]%elem_of_dset; [by left|right]. destruct (_ && _); [|done].
  unfold make_room in He. by eapply filter_subset, shrink_subset.
Qed.

Lemma length_store k row ex now c : (length c ≤ _CACHE_MAX_SIZE)%nat → (length (_store_cache k row ex now c) ≤ _CACHE_MAX_SIZE)%nat.
Proof.
  intros Hc. unfold _store_cache. case_bool_decide as Hk; cbn [andb].
  - destruct (Nat.leb_spec _CACHE_MAX_SIZE (length c)) as [Hm|Hm].
    + pose proof (length_dset k (row, ex) (make_room now c)). unfold make_room in *.
      pose proof (length_shrink (length (List.filter (λ e, negb (expiry e.2 <=? now)) c)) expiry _CACHE_MAX_SIZE
        (List.filter (λ e, negb (expiry e.2 <=? now)) c) ltac:(unfold _CACHE_MAX_SIZE; lia) ltac:(lia)). lia.
    + pose proof (length_dset k (row, ex) c). lia.
  - by rewrite length_dset_present.
Qed.

(** Identifiers are the text of a UUID. *)
Definition uuid_char (c : ascii) : bool := is_digit c || in_range c 97 102 || Ascii.eqb c "-".
Definition uuid_text (s : string) : bool := forallb uuid_char (chars s).

Lemma rows_key_apart tenant t key key' : default true (uuid_text <$> tenant) = true → flag_cache_key tenant key ≠ rows_cache_key t key'.
Proof.
  unfold flag_cache_key, rows_cache_key. intros Hu [= Ht _]. destruct tenant as [u|]; cbn in *; [|done]. subst. done.
Qed.

Lemma rows_cache_key_inj t t' key key' : rows_cache_key t key = rows_cache_key t' key' → t = t' ∧ key = key'.
Proof. by intros [=]. Qed.

Lemma flag_cache_key_inj t t' key key' : default true (uuid_text <$> t) = true → default true (uuid_text <$> t') = true →
  flag_cache_key t key = flag_cache_key t' key' → t = t' ∧ key = key'.
Proof. intros Ht Ht' [= E ->]. split; [|done]. destruct t, t'; cbn in *; subst; done. Qed.

Section freshness.
(** The table at every time; [None] while it cannot be read *)
Context (hist : Z → option db).

Definition fresh_since (lo hi : Z) (q : option db) : Prop := ∃ t, lo ≤ t ≤ hi ∧ q = hist t.

(** A read made in this history *)
Record in_history (q : reading) : Prop := {
  read_time : started q ≤ stored q;
  read_first : fresh_since (started q) (stored q) (select1 q);
  read_second : fresh_since (started q) (stored q) (select2 q);
}.

Inductive operation :=
| Is_enabled (key : string) (tenant user : option string) (dflt : bool)
| Is_enabled_strict (key : string) (tenant user : option string)
| Load_flag_rows_strict (tenant key : string).

Definition perform (o : operation) (q : reading) (c : cache) : cache :=
  match o with
  | Is_enabled key tenant user dflt => snd (is_enabled key tenant user dflt q c)
  | Is_enabled_strict key tenant user => snd (is_enabled_strict key tenant user q c)
  | Load_flag_rows_strict tenant key => snd (load_flag_rows_strict tenant key q c)
  end.

Definition op_tenant (o : operation) : option string :=
  match o with Is_enabled _ t _ _ | Is_enabled_strict _ t _ => t | Load_flag_rows_strict t _ => Some t end.

(** The caches of a process: readers begin at any cache [c0] and write when they are done. *)
Inductive reachable : Z → cache → Prop :=
| reach_start t : reachable t []
| reach_wait t t' c : reachable t c → t ≤ t' → reachable t' c
| reach_read o q c0 : reachable (stored q) (found q) → in_history q → default true (uuid_text <$> op_tenant o) = true →
    reachable (stored q) (perform o q c0).

(** What an entry of the cache was read from *)
Definition read_within (tenant key : string) (lo hi : Z) (rows : FlagRows) : Prop :=
  ∃ q, read_rows tenant key q = Some rows ∧ fresh_since lo hi (select1 q) ∧ fresh_since lo hi (select2 q).

Definition row_within (tenant : option string) (key : string) (lo hi : Z) (row : option flag) : Prop :=
  ∃ q, _query_flag tenant key q = Some row ∧ fresh_since lo hi (select1 q) ∧ fresh_since lo hi (select2 q).

Definition TTL : Z := _CACHE_TTL_SECONDS * SECOND.

Definition entry_ok (now : Z) (e : (string * string) * (entry * Z)) : Prop :=
  let '(k, (v, ex)) := e in
  match v with
  | Rows rows => ∃ tenant key, k = rows_cache_key tenant key ∧ uuid_text tenant = true ∧ read_within tenant key (ex - TTL) now rows
  | Row row => ∃ tenant key, k = flag_cache_key tenant key ∧ default true (uuid_text <$> tenant) = true ∧ row_within tenant key (ex - TTL) now row
  | _LOOKUP_FAILED => ∃ tenant key, k = flag_cache_key tenant key ∧ default true (uuid_text <$> tenant) = true
  end.

Lemma fresh_later lo hi hi' s : fresh_since lo hi s → hi ≤ hi' → fresh_since lo hi' s.
Proof. intros (t & ? & ->) ?. exists t. split; [lia|done]. Qed.

Lemma entry_ok_later now now' e : entry_ok now e → now ≤ now' → entry_ok now' e.
Proof.
  destruct e as [k [[rows|row|] ex]]; cbn; [| |done]; intros (tenant & key & ? & ? & q & ? & ? & ?) ?; exists tenant, key;
    (split_and!; [done..|]); exists q; eauto using fresh_later.
Qed.

Lemma remembered_ok k row q e :
  Forall (entry_ok (stored q)) (found q) → entry_ok (stored q) (k, (row, started q + TTL)) → e ∈ remember k row q → entry_ok (stored q) e.
Proof.
  intros Hc Hk [->|He]%elem_of_store; [done|]. rewrite Forall_forall in Hc. auto.
Qed.

Lemma perform_ok o q c0 : in_history q → default true (uuid_text <$> op_tenant o) = true →
  Forall (entry_ok (stored q)) (found q) → Forall (entry_ok (stored q)) (perform o q c0).
Proof.
  intros [Hle H1 H2] Hu Hc. unfold TTL in *.
  assert (∀ tenant key row, _query_flag tenant key q = Some row → default true (uuid_text <$> tenant) = true →
    entry_ok (stored q) (flag_cache_key tenant key, (Row row, started q + TTL))) as Hrow.
  { intros tenant key row Hq Ht. exists tenant, key. split_and!; [done..|]. exists q. by replace (started q + TTL - TTL) with (started q) by lia. }
  destruct o as [key tenant user dflt|key tenant user|tenant key]; cbn in Hu |- *.
  - unfold is_enabled, _load_flag. destruct (cached_entry _ _ c0); [done|].
    destruct (_query_flag tenant key q) as [row|] eqn:Eq; cbn; apply Forall_forall; intros e; apply remembered_ok; auto. by exists tenant, key.
  - unfold is_enabled_strict, strict_row. destruct (cached_entry _ _ c0) as [[]|]; [done..| |];
      (destruct (_query_flag tenant key q) as [row|] eqn:Eq; cbn; [|done]; apply Forall_forall; intros e; apply remembered_ok; auto).
  - unfold load_flag_rows_strict. destruct (read_rows tenant key q) as [rows|] eqn:Er.
    + assert (Forall (entry_ok (stored q)) (remember (rows_cache_key tenant key) (Rows rows) q)) as Hr.
      { apply Forall_forall. intros e. apply remembered_ok; [done|]. exists tenant, key. split_and!; [done..|].
        exists q. by replace (started q + TTL - TTL) with (started q) by lia. }
      by destruct (cached_entry _ _ c0) as [[|[]|]|].
    + by destruct (cached_entry _ _ c0) as [[|[]|]|].
Qed.

Lemma cache_entries_ok now c : reachable now c → Forall (entry_ok now) c.
Proof.
  induction 1 as [t|t t' c _ IH Ht|o q c0 _ IH Hq Hu]; [done| |by apply perform_ok].
  eapply Forall_impl; [exact IH|]. intros e He. by eapply entry_ok_later.
Qed.

Lemma cached_entry_ok now c k v : reachable now c → cached_entry k now c = Some v →
  ∃ ex, entry_ok now (k, (v, ex)) ∧ now < ex.
Proof.
  intros Hr%cache_entries_ok Hk. unfold cached_entry in Hk. destruct (dget k c) as [[w ex]|] eqn:Hg; [|done].
  destruct (Z.ltb_spec now ex); simplify_eq. exists ex. split; [|done].
  apply dget_elem_of in Hg. rewrite Forall_forall in Hr. by apply Hr.
Qed.

Lemma fresh_wider lo lo' hi s : fresh_since lo hi s → lo' ≤ lo → fresh_since lo' hi s.
Proof. intros (t & ? & ->) ?. exists t. split; [lia|done]. Qed.
End freshness.

#[export] Hint Resolve fresh_later fresh_wider : core.

(** The cache of flags never outgrows its bound. *)
Lemma flag_cache_bounded hist now c : reachable hist now c → (length c ≤ _CACHE_MAX_SIZE)%nat.
Proof.
  induction 1 as [t|t t' c _ IH _|o q c0 _ IH _ _]; [unfold _CACHE_MAX_SIZE; cbn; lia|done|].
  assert (∀ k row, (length (remember k row q) ≤ _CACHE_MAX_SIZE)%nat) as Hm by (intros; by apply length_store).
  destruct o as [key tenant user dflt|key tenant user|tenant key]; cbn; unfold is_enabled, _load_flag, is_enabled_strict, strict_row, load_flag_rows_strict.
  - destruct (cached_entry _ _ c0); [done|]. destruct (_query_flag tenant key q); apply Hm.
  - destruct (cached_entry _ _ c0) as [[]|]; [done..| |]; (destruct (_query_flag tenant key q); [apply Hm|done]).
  - destruct (cached_entry _ _ c0) as [[|[]|]|]; try done; (destruct (read_rows tenant key q); [apply Hm|done]).
Qed.

(** Authority flags are never stale beyond the lifetime of the cache and never guessed. Whatever
    readers of the process do in between, the rows a strict read answers were read from the table
    within the last thirty seconds (or during the read itself): the tenant's row and the global row,
    each on its own; a table that cannot be read is an error, never an absent row. The same holds for
    the row behind a strict single flag. *)
Theorem strict_flags_are_fresh hist q c :
  reachable hist (started q) c → in_history hist q →
  (∀ tenant key rows, uuid_text tenant = true → fst (load_flag_rows_strict tenant key q c) = Ok rows →
     read_within hist tenant key (started q - TTL) (stored q) rows) ∧
  (∀ tenant key row, default true (uuid_text <$> tenant) = true → fst (strict_row tenant key q c) = Ok row →
     row_within hist tenant key (started q - TTL) (stored q) row).
Proof.
  intros Hr [Hle H1 H2]. assert (0 ≤ TTL) by (unfold TTL, _CACHE_TTL_SECONDS, SECOND; lia). split.
  - intros tenant key rows Hu. unfold load_flag_rows_strict.
    assert (fst (match read_rows tenant key q with None => (Err FeatureFlagLookupError, found q)
      | Some rows => (Ok rows, remember (rows_cache_key tenant key) (Rows rows) q) end) = Ok rows →
      read_within hist tenant key (started q - TTL) (stored q) rows) as Hask.
    { destruct (read_rows tenant key q) as [r|] eqn:Er; cbn; [|done]. intros [= ->]. exists q. split_and!; eauto with lia. }
    destruct (cached_entry _ _ c) as [[r|[r|]|]|] eqn:Ec; try done; cbn.
    intros [= ->]. destruct (cached_entry_ok _ _ _ _ _ Hr Ec) as (ex & (tenant' & key' & [-> ->]%rows_cache_key_inj & _ & q' & ? & ? & ?) & ?). exists q'. split_and!; eauto 6 with lia.
  - intros tenant key row Hu. unfold strict_row.
    destruct (cached_entry _ _ c) as [[r|r|]|] eqn:Ec; [done| | |].
    2,3: (destruct (_query_flag tenant key q) as [r|] eqn:Eq; cbn; [|done]; intros [= ->]; exists q; split_and!; eauto with lia).
    intros [= ->]. destruct (cached_entry_ok _ _ _ _ _ Hr Ec) as (ex & (tenant' & key' & Hk & Hu' & q' & ? & ? & ?) & ?).
    apply flag_cache_key_inj in Hk as [-> ->]; [|done..]. exists q'. split_and!; eauto 6 with lia.
Qed.

(** Raising the percentage of a rollout never takes the flag away from anyone. *)
Lemma rollout_monotone key subject p p' : p ≤ p' → rolled_out key subject p = true → rolled_out key subject p' = true.
Proof.
  unfold rolled_out. intros Hp. destruct (Z.leb_spec 100 p'); [done|]. destruct (Z.leb_spec 100 p); [lia|].
  destruct (Z.leb_spec p 0); [done|]. destruct (Z.leb_spec p' 0); [lia|]. rewrite !Z.ltb_lt. lia.
Qed.

(** At full rollout a switched-on row is on for everyone, at none for no one. *)
Lemma rollout_ends key subject r : row_on r = true →
  (100 ≤ row_percentage r → row_enabled key (Some r) subject = true) ∧ (row_percentage r ≤ 0 → row_enabled key (Some r) subject = false).
Proof.
  intros Hr. unfold row_enabled, rolled_out. rewrite Hr. cbn [negb].
  destruct (Z.leb_spec 100 (row_percentage r)), (Z.leb_spec (row_percentage r) 0); (done || lia || split; intros; lia || done).
Qed.

Module FlagExample.
Definition tenant : string := "00000000-0000-4000-8000-000000000001".
Definition key : string := "grants.enforce_closed.deny".
Definition table : db := [{| tenant_id := None; flag_key := key; enabled := true; rollout_percentage := 100 |}].

(** The table is readable until second 5. *)
Definition outage (t : Z) : option db := if t <? 5 * SECOND then Some table else None.

Definition before : reading := {| started := 0; select1 := Some table; select2 := Some table; stored := SECOND; found := [] |}.
Definition during : reading := {| started := 10 * SECOND; select1 := None; select2 := None; stored := 10 * SECOND; found := [] |}.
Definition filled : cache := perform (Load_flag_rows_strict tenant key) before [].

(** Read from the cache ten seconds later, while the table cannot be read *)
Example read_during_outage : fst (load_flag_rows_strict tenant key during filled) =
  Ok {| global_row := Some {| row_on := true; row_percentage := 100 |}; tenant_row := None |}.
Proof. reflexivity. Qed.
End FlagExample.
Import FlagExample.

Lemma strict_flags_are_fresh_witness :
  read_within outage tenant key (started during - TTL) (stored during)
    {| global_row := Some {| row_on := true; row_percentage := 100 |}; tenant_row := None |}.
Proof.
  refine (proj1 (strict_flags_are_fresh outage during filled _ _) tenant key _ _ _).
  - apply (reach_wait outage SECOND); [|vm_compute; discriminate]. apply (reach_read outage (Load_flag_rows_strict tenant key) before []).
    + constructor.
    + split; [vm_compute; discriminate| |]; exists 0; (split; [split; vm_compute; discriminate|reflexivity]).
    + reflexivity.
  - split; [vm_compute; discriminate| |]; exists (10 * SECOND); (split; [split; vm_compute; discriminate|reflexivity]).
  - reflexivity.
  - exact read_during_outage.
Defined.
