(* ===== verification/PolicyTypes.v ===== *)
(** Types of the policy component (src/core/policy/types.py): tiers and their
    ranks, operators, load-error reasons, compiled conditions, policies and
    results, with the dictionary renderings of results. *)

From S2P Require Import Prelude PyVal.

Local Open Scope Z_scope.

(** * Enumerations *)

Inductive Tier := LOW | MEDIUM | HIGH | BLOCKED.

Inductive PolicyStatus := EXAMPLE | PRODUCTION.

Inductive Operator := EQ | NE | IN | NOT_IN | GT | GTE | LT | LTE | EXISTS | MISSING.

Inductive PolicyLoadReason :=
| FILE_UNREADABLE | TOO_LARGE | ENCODING_INVALID | YAML_INVALID | DUPLICATE_KEY
| YAML_ALIAS | MISSING_FIELD | UNKNOWN_KEY | INVALID_VALUE | INVALID_VERSION
| INVALID_CONDITION | UNKNOWN_OPERATOR | INVALID_PATH | INVALID_OPERAND
| DUPLICATE_RULE_ID | LIMIT_EXCEEDED | PRODUCTION_UNREVIEWED | NOT_PRODUCTION
| DIRECTORY_INVALID | DUPLICATE_POLICY.

#[global] Instance Tier_eq_dec : EqDecision Tier.
Proof. solve_decision. Defined.
#[global] Instance PolicyStatus_eq_dec : EqDecision PolicyStatus.
Proof. solve_decision. Defined.
#[global] Instance Operator_eq_dec : EqDecision Operator.
Proof. solve_decision. Defined.
#[global] Instance PolicyLoadReason_eq_dec : EqDecision PolicyLoadReason.
Proof. solve_decision. Defined.

Definition ENGINE_VERSION : string := "1".

(** [_TIER_RANK] and the [rank] property. *)
Definition rank (t : Tier) : Z :=
  match t with LOW => 0 | MEDIUM => 1 | HIGH => 2 | BLOCKED => 3 end.

Definition DEFAULT_TIER_SCORE (t : Tier) : Z :=
  match t with LOW => 0 | MEDIUM => 20 | HIGH => 50 | BLOCKED => 100 end.

Definition MAX_SCORE : Z := 100.
Definition MAX_SAFE_INTEGER : Z := 2 ^ 53.

Definition Tier_value (t : Tier) : string :=
  match t with LOW => "low" | MEDIUM => "medium" | HIGH => "high" | BLOCKED => "blocked" end.

Definition PolicyStatus_value (s : PolicyStatus) : string :=
  match s with EXAMPLE => "example" | PRODUCTION => "production" end.

Definition Operator_value (o : Operator) : string :=
  match o with
  | EQ => "eq" | NE => "ne" | IN => "in" | NOT_IN => "not_in" | GT => "gt" | GTE => "gte"
  | LT => "lt" | LTE => "lte" | EXISTS => "exists" | MISSING => "missing"
  end.

(** [Enum(value)]: the member with that value, [None] for Python's ValueError. *)
Definition member_of {E} (members : list E) (value : E → string) (s : string) : option E :=
  List.find (λ e, String.eqb (value e) s) members.

Definition all_tiers : list Tier := [LOW; MEDIUM; HIGH; BLOCKED].
Definition all_statuses : list PolicyStatus := [EXAMPLE; PRODUCTION].
Definition all_operators : list Operator :=
  [EQ; NE; IN; NOT_IN; GT; GTE; LT; LTE; EXISTS; MISSING].

Definition Tier_of (v : pyval) : option Tier :=
  match v with VStr s => member_of all_tiers Tier_value s | _ => None end.
Definition PolicyStatus_of (v : pyval) : option PolicyStatus :=
  match v with VStr s => member_of all_statuses PolicyStatus_value s | _ => None end.
Definition Operator_of (s : string) : option Operator :=
  member_of all_operators Operator_value s.

#[global] Arguments Tier_of : simpl never.
#[global] Arguments PolicyStatus_of : simpl never.
#[global] Arguments Operator_of : simpl never.

Lemma Tier_of_value t : Tier_of (VStr (Tier_value t)) = Some t.
Proof. by destruct t. Qed.
Lemma PolicyStatus_of_value s : PolicyStatus_of (VStr (PolicyStatus_value s)) = Some s.
Proof. by destruct s. Qed.
Lemma Operator_of_value o : Operator_of (Operator_value o) = Some o.
Proof. by destruct o. Qed.
Lemma rank_inj t1 t2 : rank t1 = rank t2 → t1 = t2.
Proof. by destruct t1, t2. Qed.
Lemma rank_bounds t : 0 ≤ rank t ≤ 3.
Proof. destruct t; cbn; lia. Qed.

(** * The load error *)

(** [PolicyLoadError] without its free-text detail. *)
Record PolicyLoadError := mkPolicyLoadError {
  le_reason : PolicyLoadReason;
  le_source : string;
  le_location : string
}.

#[global] Instance PolicyLoadError_eq_dec : EqDecision PolicyLoadError.
Proof. solve_decision. Defined.

(** * Compiled conditions *)

(** [Scalar | tuple[Scalar, ...]] *)
Inductive operand :=
| OScalar (v : pyval)
| OTuple (vs : list pyval).

Inductive Condition :=
| Compare (path : string) (segments : list string) (op : Operator) (opd : operand)
| AllOf (items : list Condition)
| AnyOf (items : list Condition)
| Not (item : Condition).

(** Induction through the item lists of the combinators. *)
Definition Condition_induction (P : Condition → Prop)
    (Hcmp : ∀ p segs op opd, P (Compare p segs op opd))
    (Hall : ∀ items, Forall P items → P (AllOf items))
    (Hany : ∀ items, Forall P items → P (AnyOf items))
    (Hnot : ∀ item, P item → P (Not item)) : ∀ c, P c :=
  fix go c :=
    let gol := fix gol l : Forall P l :=
      match l with [] => Forall_nil_2 _ | x :: l' => Forall_cons_2 _ _ _ (go x) (gol l') end in
    match c with
    | Compare p segs op opd => Hcmp p segs op opd
    | AllOf items => Hall items (gol items)
    | AnyOf items => Hany items (gol items)
    | Not item => Hnot item (go item)
    end.

Record Effect := mkEffect {
  tier : Tier;
  reason : string;
  score : Z
}.

Record Rule := mkRule {
  rule_id : string;
  when : Condition;
  effect : Effect;
  rule_description : option string
}.

Record Policy := mkPolicy {
  policy_id : string;
  version : string;
  status : PolicyStatus;
  reviewed_by : option string;
  description : option string;
  rules : list Rule;
  score_thresholds : list (Tier * Z);
  content_hash : string;
  source : string;
  referenced_paths : list string
}.

(** * Results *)

Record PolicyReason := mkPolicyReason {
  pr_rule_id : string;
  pr_tier : Tier;
  pr_score : Z;
  pr_reason : string;
  indeterminate : bool;
  unresolved_paths : list string
}.

(** [tier_source]: ["rules"] or ["score_threshold"]. *)
Inductive TierSource := FromRules | FromThreshold.

Definition TierSource_value (t : TierSource) : string :=
  match t with FromRules => "rules" | FromThreshold => "score_threshold" end.

Record PolicyResult := mkPolicyResult {
  res_policy_id : string;
  res_policy_version : string;
  res_policy_status : PolicyStatus;
  res_policy_hash : string;
  res_reviewed_by : option string;
  res_engine_version : string;
  res_tier : Tier;
  res_tier_source : TierSource;
  res_score : Z;
  res_reasons : list PolicyReason;
  res_fired_rules : list string;
  res_inputs : list (string * pyval);
  res_missing_inputs : list string;
  res_invalid_inputs : list string;
  res_inputs_hash : string
}.

(** A [str | None] field as a JSON value. *)
Definition opt_str (o : option string) : pyval :=
  match o with Some s => VStr s | None => VNone end.

(** [PolicyReason.to_dict] *)
Definition reason_to_dict (r : PolicyReason) : pyval :=
  VMap [("rule_id", VStr (pr_rule_id r));
        ("tier", VStr (Tier_value (pr_tier r)));
        ("score", VInt (pr_score r));
        ("reason", VStr (pr_reason r));
        ("indeterminate", VBool (indeterminate r));
        ("unresolved_paths", VList (VStr <$> unresolved_paths r))].

(** [PolicyResult.to_dict] *)
Definition result_to_dict (r : PolicyResult) : pyval :=
  VMap [("policy_id", VStr (res_policy_id r));
        ("policy_version", VStr (res_policy_version r));
        ("policy_status", VStr (PolicyStatus_value (res_policy_status r)));
        ("policy_hash", VStr (res_policy_hash r));
        ("reviewed_by", opt_str (res_reviewed_by r));
        ("engine_version", VStr (res_engine_version r));
        ("tier", VStr (Tier_value (res_tier r)));
        ("tier_source", VStr (TierSource_value (res_tier_source r)));
        ("score", VInt (res_score r));
        ("reasons", VList (reason_to_dict <$> res_reasons r));
        ("fired_rules", VList (VStr <$> res_fired_rules r));
        ("inputs", VMap (res_inputs r));
        ("missing_inputs", VList (VStr <$> res_missing_inputs r));
        ("invalid_inputs", VList (VStr <$> res_invalid_inputs r));
        ("inputs_hash", VStr (res_inputs_hash r))].

(** * The paths a condition reads

    [core.policy.loader._collect_paths] and [core.policy.document._paths] add
    the path of every leaf to a set. *)

Fixpoint _collect_paths (c : Condition) (into : gset string) : gset string :=
  match c with
  | Compare path _ _ _ => {[path]} ∪ into
  | Not item => _collect_paths item into
  | AllOf items | AnyOf items => foldl (λ acc item, _collect_paths item acc) into items
  end.

(** Specification: [p] is the path of some leaf of [c]. *)
Inductive leaf_path (p : string) : Condition → Prop :=
| leaf_compare segs op opd : leaf_path p (Compare p segs op opd)
| leaf_all items c : c ∈ items → leaf_path p c → leaf_path p (AllOf items)
| leaf_any items c : c ∈ items → leaf_path p c → leaf_path p (AnyOf items)
| leaf_not c : leaf_path p c → leaf_path p (Not c).

Lemma leaf_path_inv p c :
  leaf_path p c ↔
  match c with
  | Compare q _ _ _ => p = q
  | AllOf items | AnyOf items => ∃ c', c' ∈ items ∧ leaf_path p c'
  | Not c' => leaf_path p c'
  end.
Proof.
  split; [by destruct 1; eauto|]. destruct c as [q segs op opd|items|items|c].
  - intros ->. constructor.
  - intros (c' & ? & ?). by eapply leaf_all.
  - intros (c' & ? & ?). by eapply leaf_any.
  - by constructor.
Qed.

Lemma foldl_union_spec {A} (f : A → gset string → gset string) (Q : A → string → Prop)
    (l : list A) (acc : gset string) p :
  Forall (λ x, ∀ s, p ∈ f x s ↔ Q x p ∨ p ∈ s) l →
  p ∈ foldl (λ s x, f x s) acc l ↔ (∃ x, x ∈ l ∧ Q x p) ∨ p ∈ acc.
Proof.
  intros H. revert acc. induction H as [|x l Hx Hl IH]; intros acc; cbn.
  - split; [by right|]. intros [(x & Hx & _)|?]; [by apply elem_of_nil in Hx|done].
  - rewrite IH, Hx. setoid_rewrite elem_of_cons. naive_solver.
Qed.

Lemma elem_of_collect_paths p c s : p ∈ _collect_paths c s ↔ leaf_path p c ∨ p ∈ s.
Proof.
  revert s. induction c as [q segs op opd|items IH|items IH|c IH] using Condition_induction; intros s; cbn.
  - rewrite leaf_path_inv. set_solver.
  - rewrite leaf_path_inv. apply (foldl_union_spec _ (λ c p, leaf_path p c)).
    eapply Forall_impl; [exact IH|done].
  - rewrite leaf_path_inv. apply (foldl_union_spec _ (λ c p, leaf_path p c)).
    eapply Forall_impl; [exact IH|done].
  - rewrite IH. by rewrite (leaf_path_inv p (Not c)).
Qed.
