(* ===== verification/PolicyEngine.v ===== *)
(** The deterministic policy engine (src/core/policy/engine.py): reading evidence
    paths, three-valued conditions, firing of rules, scoring and tiers.

    The per-rule [_Evaluation] object is the set [unresolved] threaded through
    [truth] and [_compare]; the Python exceptions the code could raise on an
    ill-formed policy are the values of [engine_error]. *)

From S2P Require Import Prelude PyVal Digest PolicyTypes.

Local Open Scope Z_scope.

(** * Definitions *)

Inductive engine_error := EvidenceNotMapping | KeyError (path : string) | IndexError | DumpError.

Inductive kind := KBool | KNumber | KString.
#[global] Instance kind_eq_dec : EqDecision kind.
Proof. solve_decision. Defined.

Definition _kind (v : pyval) : option kind :=
  match v with
  | VBool _ => Some KBool
  | VInt z => if (- MAX_SAFE_INTEGER <=? z) && (z <=? MAX_SAFE_INTEGER) then Some KNumber else None
  | VFloat (FFin _ _) => Some KNumber
  | VFloat _ => None
  | VStr _ => Some KString
  | _ => None
  end.

(** What a path holds: the sentinels [_MISSING] and [_UNREADABLE], or a value. *)
Inductive reading := RMissing | RUnreadable | RValue (v : pyval).

(** The loop of [_read], from the node reached so far. *)
Fixpoint _read (node : pyval) (segments : list string) : reading :=
  match segments with
  | [] => match node with VNone => RMissing | VRaise => RUnreadable | v => RValue v end
  | segment :: rest =>
      match node with
      | VMap kvs =>
          match assoc segment kvs with
          | None => RMissing
          | Some VRaise => RUnreadable
          | Some v => _read v rest
          end
      | _ => RMissing
      end
  end.

Definition non_scalar (what : string) : pyval := VMap [("non_scalar", VStr what)].

Definition _snapshot (r : reading) : pyval :=
  match r with
  | RMissing => VNone
  | RUnreadable => non_scalar "unreadable"
  | RValue v =>
      match _kind v with
      | Some _ => v
      | None =>
          match v with
          | VFloat _ => non_scalar "non_finite_number"
          | VInt _ => non_scalar "integer_out_of_range"
          | VMap _ => non_scalar "mapping"
          | VList _ => non_scalar "list"
          | _ => non_scalar "other"
          end
      end
  end.

Definition operand_kind (o : operand) : option kind :=
  match o with OScalar v => _kind v | OTuple _ => None end.

(** The scalar a comparison operator is applied to. *)
Definition operand_scalar (o : operand) : pyval :=
  match o with OScalar v => v | OTuple vs => VList vs end.

(** [_Evaluation._compare] *)
Definition _compare (values : gmap string reading) (path : string) (op : Operator) (opd : operand)
    (unresolved : gset string) : result engine_error (option bool * gset string) :=
  value ← of_option (KeyError path) (values !! path);
  let unknown := Ok (None, {[path]} ∪ unresolved) in
  let known b := Ok (Some b, unresolved) in
  match value with
  | RUnreadable => unknown
  | _ =>
    match op with
    | EXISTS => known (match value with RMissing => false | _ => true end)
    | MISSING => known (match value with RMissing => true | _ => false end)
    | _ =>
      match value with
      | RValue v =>
        match _kind v with
        | None => unknown
        | Some k =>
          match op with
          | IN | NOT_IN =>
              let items := match opd with OTuple vs => vs | OScalar s => [s] end in
              match items with
              | [] => Err IndexError
              | item :: _ =>
                  if bool_decide (Some k = _kind item) then
                    let found := existsb (scalar_eqb v) items in
                    known (match op with IN => found | _ => negb found end)
                  else unknown
              end
          | _ =>
              if bool_decide (Some k = operand_kind opd) then
                let o := operand_scalar opd in
                known (match op with
                       | EQ => scalar_eqb v o
                       | NE => negb (scalar_eqb v o)
                       | GT => scalar_ltb o v
                       | GTE => scalar_leb o v
                       | LT => scalar_ltb v o
                       | _ => scalar_leb v o
                       end)
              else unknown
          end
        end
      | _ => unknown
      end
    end
  end.

(** [None if inner is None else not inner] *)
Definition kleene_not (b : option bool) : option bool := negb <$> b.

(** [False in results], then [None in results]. *)
Definition kleene_all (results : list (option bool)) : option bool :=
  if existsb (λ r, bool_decide (r = Some false)) results then Some false
  else if existsb (λ r, bool_decide (r = None)) results then None else Some true.

Definition kleene_any (results : list (option bool)) : option bool :=
  if existsb (λ r, bool_decide (r = Some true)) results then Some true
  else if existsb (λ r, bool_decide (r = None)) results then None else Some false.

(** [_Evaluation.truth]: every item of a combinator is evaluated. *)
Fixpoint truth (values : gmap string reading) (c : Condition) (unresolved : gset string)
    : result engine_error (option bool * gset string) :=
  let items_truth := fix go items u :=
    match items with
    | [] => Ok ([], u)
    | item :: items' =>
        r ← truth values item u;
        rs ← go items' (snd r);
        Ok (fst r :: fst rs, snd rs)
    end in
  match c with
  | Compare path _ op opd => _compare values path op opd unresolved
  | Not item => r ← truth values item unresolved; Ok (kleene_not (fst r), snd r)
  | AllOf items => rs ← items_truth items unresolved; Ok (kleene_all (fst rs), snd rs)
  | AnyOf items => rs ← items_truth items unresolved; Ok (kleene_any (fst rs), snd rs)
  end.

(** [_index_paths]: each referenced path is read once. *)
Fixpoint _index_paths (c : Condition) (evidence : pyval) (into : gmap string reading)
    : gmap string reading :=
  match c with
  | Compare path segments _ _ =>
      match into !! path with
      | Some _ => into
      | None => <[path := _read evidence segments]> into
      end
  | Not item => _index_paths item evidence into
  | AllOf items | AnyOf items => foldl (λ acc item, _index_paths item evidence acc) into items
  end.

Definition _canonical_hash `{FloatRepr} (payload : pyval) : result engine_error string :=
  encoded ← of_option DumpError (json_dumps payload);
  Ok ("sha256:" +:+ sha256_hexdigest encoded).

#[global] Arguments _canonical_hash : simpl never.

(** The body of the rule loop: the reason a rule fires with, if it fires. *)
Definition fire (values : gmap string reading) (rule : Rule)
    : result engine_error (option PolicyReason) :=
  r ← truth values (when rule) ∅;
  let '(t, unresolved) := r in
  Ok (match t with
      | Some false => None
      | _ => Some {| pr_rule_id := rule_id rule;
                     pr_tier := tier (effect rule);
                     pr_score := score (effect rule);
                     pr_reason := reason (effect rule);
                     indeterminate := bool_decide (t = None);
                     unresolved_paths := sorted_strings unresolved |}
      end).

(** The rule loop: the fired rules with their index. *)
Fixpoint fire_all (values : gmap string reading) (index : nat) (rules : list Rule)
    : result engine_error (list (nat * PolicyReason)) :=
  match rules with
  | [] => Ok []
  | rule :: rules' =>
      r ← fire values rule;
      rest ← fire_all values (S index) rules';
      Ok (match r with Some reason => (index, reason) :: rest | None => rest end)
  end.

(** The sort key [(-tier.rank, index)], compared lexicographically. *)
Definition fired_leb (a b : nat * PolicyReason) : bool :=
  let ra := rank (pr_tier (snd a)) in
  let rb := rank (pr_tier (snd b)) in
  (rb <? ra) || ((ra =? rb) && (fst a <=? fst b)%nat).

(** [if reason.tier.rank > tier.rank: tier = reason.tier] *)
Definition raise_tier (current : Tier) (t : Tier) : Tier :=
  if rank current <? rank t then t else current.

Definition rules_tier (reasons : list PolicyReason) : Tier :=
  foldl (λ current r, raise_tier current (pr_tier r)) LOW reasons.

(** The loop over [policy.score_thresholds]. *)
Definition apply_thresholds (sc : Z) (thresholds : list (Tier * Z)) (start : Tier * TierSource)
    : Tier * TierSource :=
  foldl (λ current th,
           let '(threshold_tier, minimum) := th in
           if (minimum <=? sc) && (rank (fst current) <? rank threshold_tier)
           then (threshold_tier, FromThreshold) else current)
        start thresholds.

Definition is_missing (r : reading) : bool :=
  match r with RMissing => true | _ => false end.
(** [_kind] of a reading; the sentinel [_UNREADABLE] has none. *)
Definition reading_kind (r : reading) : option kind :=
  match r with RValue v => _kind v | _ => None end.

(** [value is not _MISSING and _kind(value) is None] *)
Definition is_invalid (r : reading) : bool :=
  negb (is_missing r) && match reading_kind r with None => true | Some _ => false end.

Definition index_all (rules : list Rule) (evidence : pyval) : gmap string reading :=
  foldl (λ acc rule, _index_paths (when rule) evidence acc) ∅ rules.

Definition evaluate `{FloatRepr} (policy : Policy) (evidence : pyval)
    : result engine_error PolicyResult :=
  _ ← raise_if (match evidence with VMap _ => false | _ => true end) EvidenceNotMapping;
  let values := index_all (rules policy) evidence in
  reads ← map_res (λ _ path, r ← of_option (KeyError path) (values !! path); Ok (path, r))
                  0 (referenced_paths policy);
  let inputs := foldl (λ d pr, dict_set (fst pr) (_snapshot (snd pr)) d) [] reads in
  let missing := (List.filter (λ pr, is_missing (snd pr)) reads).*1 in
  let invalid := (List.filter (λ pr, is_invalid (snd pr)) reads).*1 in
  fired ← fire_all values 0 (rules policy);
  let reasons := (sort_by fired_leb fired).*2 in
  let sc := Z.min MAX_SCORE (sumZ (pr_score <$> reasons)) in
  let '(t, src) := apply_thresholds sc (score_thresholds policy) (rules_tier reasons, FromRules) in
  inputs_hash ← _canonical_hash (VMap inputs);
  Ok {| res_policy_id := policy_id policy;
        res_policy_version := version policy;
        res_policy_status := status policy;
        res_policy_hash := content_hash policy;
        res_reviewed_by := reviewed_by policy;
        res_engine_version := ENGINE_VERSION;
        res_tier := t;
        res_tier_source := src;
        res_score := sc;
        res_reasons := reasons;
        res_fired_rules := pr_rule_id <$> reasons;
        res_inputs := inputs;
        res_missing_inputs := missing;
        res_invalid_inputs := invalid;
        res_inputs_hash := inputs_hash |}.

(** * Specification of a condition

    [leaf_value] is the documented table of a leaf comparison and [denote] the
    strong Kleene reading of a condition under a total assignment of readings. *)

Definition compare_values (op : Operator) (v o : pyval) : bool :=
  match op with
  | EQ => scalar_eqb v o
  | NE => negb (scalar_eqb v o)
  | GT => scalar_ltb o v
  | GTE => scalar_leb o v
  | LT => scalar_ltb v o
  | _ => scalar_leb v o
  end.

Definition leaf_value (r : reading) (op : Operator) (opd : operand) : option bool :=
  match r, op with
  | RUnreadable, _ => None
  | RMissing, EXISTS | RValue _, MISSING => Some false
  | RMissing, MISSING | RValue _, EXISTS => Some true
  | RMissing, _ => None
  | RValue v, (IN | NOT_IN) =>
      let items := match opd with OTuple vs => vs | OScalar s => [s] end in
      if bool_decide (is_Some (_kind v) ∧ _kind v = (head items ≫= _kind))
      then Some (xorb (bool_decide (op = NOT_IN)) (existsb (scalar_eqb v) items))
      else None
  | RValue v, _ =>
      match opd with
      | OScalar o => if bool_decide (is_Some (_kind v) ∧ _kind v = _kind o)
                     then Some (compare_values op v o) else None
      | OTuple _ => None
      end
  end.

Fixpoint denote (ρ : string → reading) (c : Condition) : option bool :=
  match c with
  | Compare path _ op opd => leaf_value (ρ path) op opd
  | Not item => kleene_not (denote ρ item)
  | AllOf items => kleene_all (map (denote ρ) items)
  | AnyOf items => kleene_any (map (denote ρ) items)
  end.

(** The leaves of a condition whose comparison is unresolved. *)
Inductive unresolved_leaf (ρ : string → reading) (p : string) : Condition → Prop :=
| ul_compare segs op opd :
    leaf_value (ρ p) op opd = None → unresolved_leaf ρ p (Compare p segs op opd)
| ul_all items c : c ∈ items → unresolved_leaf ρ p c → unresolved_leaf ρ p (AllOf items)
| ul_any items c : c ∈ items → unresolved_leaf ρ p c → unresolved_leaf ρ p (AnyOf items)
| ul_not c : unresolved_leaf ρ p c → unresolved_leaf ρ p (Not c).

Lemma unresolved_leaf_inv ρ p c :
  unresolved_leaf ρ p c ↔
  match c with
  | Compare q _ op opd => p = q ∧ leaf_value (ρ p) op opd = None
  | AllOf items | AnyOf items => ∃ c', c' ∈ items ∧ unresolved_leaf ρ p c'
  | Not c' => unresolved_leaf ρ p c'
  end.
Proof.
  split; [by destruct 1; eauto|]. destruct c as [q segs op opd|items|items|c].
  - intros [-> ?]. by constructor.
  - intros (c' & ? & ?). by eapply ul_all.
  - intros (c' & ? & ?). by eapply ul_any.
  - by constructor.
Qed.

(** What the engine relies on and the loader establishes of a condition: paths
    are split at the dots and membership operands are not empty. *)
Inductive cond_ok : Condition → Prop :=
| ok_compare p op opd :
    opd ≠ OTuple [] → cond_ok (Compare p (split dot p) op opd)
| ok_all items : Forall cond_ok items → cond_ok (AllOf items)
| ok_any items : Forall cond_ok items → cond_ok (AnyOf items)
| ok_not c : cond_ok c → cond_ok (Not c).

Lemma cond_ok_inv c :
  cond_ok c →
  match c with
  | Compare p segs op opd => segs = split dot p ∧ opd ≠ OTuple []
  | AllOf items | AnyOf items => Forall cond_ok items
  | Not c' => cond_ok c'
  end.
Proof. by destruct 1. Qed.

(** Total view of the value table. *)
Definition rho (values : gmap string reading) (p : string) : reading :=
  default RMissing (values !! p).

(** ** The stateful evaluation computes the denotation *)

Lemma compare_spec values p op opd u :
  is_Some (values !! p) → opd ≠ OTuple [] →
  _compare values p op opd u =
  Ok (leaf_value (rho values p) op opd,
      match leaf_value (rho values p) op opd with None => {[p]} ∪ u | _ => u end).
Proof.
  intros [r Hr] Hne. unfold _compare, rho. rewrite Hr. cbn.
  destruct r as [| |v]; cbn; [by destruct op..|].
  destruct (_kind v) as [k|] eqn:Hk.
  2: { destruct op, opd; cbn; rewrite ?bool_decide_eq_false_2 by (intros [[? ?] ?]; done); done. }
  destruct op; try done.
  all: destruct opd as [o|[|o os]]; cbn; try done.
  all: first
    [ destruct (decide (Some k = _kind o)) as [E|E];
      [ rewrite !bool_decide_eq_true_2 by eauto; repeat case_bool_decide; try done
      | rewrite !bool_decide_eq_false_2 by naive_solver; done ] ].
Qed.

(** The inner loop of [truth] over the items of a combinator. *)
Definition items_truth (values : gmap string reading) :=
  fix go items u : result engine_error (list (option bool) * gset string) :=
    match items with
    | [] => Ok ([], u)
    | item :: items' =>
        r ← truth values item u;
        rs ← go items' (snd r);
        Ok (fst r :: fst rs, snd rs)
    end.

(** A condition evaluates to its denotation and adds exactly its unresolved leaves. *)
Definition truth_ok (values : gmap string reading) (c : Condition) : Prop :=
  ∀ u, ∃ u', truth values c u = Ok (denote (rho values) c, u') ∧
             ∀ p, p ∈ u' ↔ unresolved_leaf (rho values) p c ∨ p ∈ u.

Lemma items_truth_ok values items :
  Forall (truth_ok values) items →
  ∀ u, ∃ u', items_truth values items u = Ok (map (denote (rho values)) items, u') ∧
             ∀ p, p ∈ u' ↔ (∃ c, c ∈ items ∧ unresolved_leaf (rho values) p c) ∨ p ∈ u.
Proof.
  induction 1 as [|c items Hc _ IH]; intros u; cbn.
  - exists u. split; [done|]. intros p. split; [by right|].
    intros [(c & Hc & _)|?]; [by apply elem_of_nil in Hc|done].
  - destruct (Hc u) as (u1 & -> & Hu1). cbn. destruct (IH u1) as (u2 & -> & Hu2). cbn.
    exists u2. split; [done|]. intros p. rewrite Hu2, Hu1. setoid_rewrite elem_of_cons.
    naive_solver.
Qed.

Lemma truth_spec values c :
  cond_ok c → (∀ p, leaf_path p c → is_Some (values !! p)) → truth_ok values c.
Proof.
  induction c as [q segs op opd|items IH|items IH|c IH] using Condition_induction;
    intros Hok Hdom u; apply cond_ok_inv in Hok.
  - destruct Hok as [_ Hne]. cbn. rewrite compare_spec by (auto; apply Hdom; constructor).
    eexists. split; [done|]. intros p. rewrite unresolved_leaf_inv.
    destruct (leaf_value (rho values q) op opd) eqn:E; [|set_solver].
    split; [by right|]. intros [[-> ?]|?]; [congruence|done].
  - assert (Forall (truth_ok values) items) as Hall.
    { rewrite Forall_forall in *. intros c Hc. apply IH; [done|by apply Hok|].
      intros p Hp. apply Hdom. by eapply leaf_all. }
    destruct (items_truth_ok _ _ Hall u) as (u' & Hu & Hin). cbn.
    exists u'. split.
    + unfold items_truth in Hu. rewrite Hu. done.
    + intros p. rewrite Hin. by rewrite (unresolved_leaf_inv _ _ (AllOf items)).
  - assert (Forall (truth_ok values) items) as Hall.
    { rewrite Forall_forall in *. intros c Hc. apply IH; [done|by apply Hok|].
      intros p Hp. apply Hdom. by eapply leaf_any. }
    destruct (items_truth_ok _ _ Hall u) as (u' & Hu & Hin). cbn.
    exists u'. split.
    + unfold items_truth in Hu. rewrite Hu. done.
    + intros p. rewrite Hin. by rewrite (unresolved_leaf_inv _ _ (AnyOf items)).
  - destruct (IH Hok (λ p Hp, Hdom p (leaf_not p c Hp)) u) as (u' & Hu & Hin).
    cbn. rewrite Hu. cbn. exists u'. split; [done|].
    intros p. rewrite Hin. by rewrite (unresolved_leaf_inv _ _ (Not c)).
Qed.

(** ** The value table *)

(** [p] is read by some rule. *)
Definition rules_path (rs : list Rule) (p : string) : Prop :=
  ∃ rule, rule ∈ rs ∧ leaf_path p (when rule).

(** [values] holds, for every path read so far, the reading of that path. *)
Definition table_of (evidence : pyval) (Q : string → Prop) (values : gmap string reading) : Prop :=
  ∀ p r, values !! p = Some r ↔ Q p ∧ r = _read evidence (split dot p).

Lemma table_of_proper evidence Q1 Q2 values :
  (∀ p, Q1 p ↔ Q2 p) → table_of evidence Q1 values → table_of evidence Q2 values.
Proof. intros HQ H p r. rewrite (H p r). by rewrite HQ. Qed.

Lemma table_of_foldl {A} (evidence : pyval) (P : A → string → Prop)
    (f : A → gmap string reading → gmap string reading) (l : list A) Q values :
  Forall (λ x, ∀ Q values, table_of evidence Q values →
                           table_of evidence (λ p, P x p ∨ Q p) (f x values)) l →
  table_of evidence Q values →
  table_of evidence (λ p, (∃ x, x ∈ l ∧ P x p) ∨ Q p) (foldl (λ acc x, f x acc) values l).
Proof.
  intros Hl. revert Q values. induction Hl as [|x l Hx _ IH]; intros Q values H; cbn.
  - eapply table_of_proper; [|exact H]. intros p. split; [by right|].
    intros [(y & Hy & _)|?]; [by apply elem_of_nil in Hy|done].
  - eapply table_of_proper; [|apply IH, Hx, H]. intros p. setoid_rewrite elem_of_cons. naive_solver.
Qed.

Lemma index_paths_spec evidence c :
  cond_ok c → ∀ Q values, table_of evidence Q values →
  table_of evidence (λ p, leaf_path p c ∨ Q p) (_index_paths c evidence values).
Proof.
  induction c as [q segs op opd|items IH|items IH|c IH] using Condition_induction;
    intros Hok Q values H; apply cond_ok_inv in Hok.
  - destruct Hok as [-> _]. cbn. destruct (values !! q) as [r0|] eqn:E; intros p r.
    + rewrite (H p r), leaf_path_inv. split; [naive_solver|]. intros [[->|?] ->]; [|done].
      apply H in E as [? ->]. done.
    + rewrite lookup_insert, leaf_path_inv. case_decide as Hqp; [subst|].
      * naive_solver.
      * rewrite (H p r). naive_solver.
  - cbn. eapply (table_of_proper _ (λ p, (∃ c, c ∈ items ∧ leaf_path p c) ∨ Q p));
      [intros p; by rewrite (leaf_path_inv p (AllOf items))|].
    apply (table_of_foldl _ (λ c p, leaf_path p c) (λ c s, _index_paths c evidence s)); [|done].
    rewrite Forall_forall in *. eauto.
  - cbn. eapply (table_of_proper _ (λ p, (∃ c, c ∈ items ∧ leaf_path p c) ∨ Q p));
      [intros p; by rewrite (leaf_path_inv p (AnyOf items))|].
    apply (table_of_foldl _ (λ c p, leaf_path p c) (λ c s, _index_paths c evidence s)); [|done].
    rewrite Forall_forall in *. eauto.
  - cbn. eapply (table_of_proper _ (λ p, leaf_path p c ∨ Q p));
      [intros p; by rewrite (leaf_path_inv p (Not c))|]. by apply IH.
Qed.

Lemma index_all_spec rs evidence :
  Forall (λ r, cond_ok (when r)) rs →
  table_of evidence (rules_path rs) (index_all rs evidence).
Proof.
  intros Hok. unfold index_all.
  eapply (table_of_proper _ (λ p, rules_path rs p ∨ False)); [naive_solver|].
  apply (table_of_foldl _ (λ r p, leaf_path p (when r)) (λ r s, _index_paths (when r) evidence s)).
  - eapply Forall_impl; [exact Hok|]. intros r Hr Q values H. by apply index_paths_spec.
  - intros p r. rewrite lookup_empty. naive_solver.
Qed.

(** The readings evaluation uses, as a total function of the evidence. *)
Definition reads (evidence : pyval) (p : string) : reading := _read evidence (split dot p).

Lemma rho_index rs evidence p :
  Forall (λ r, cond_ok (when r)) rs → rules_path rs p →
  index_all rs evidence !! p = Some (reads evidence p).
Proof. intros Hok Hp. by apply (index_all_spec rs evidence Hok). Qed.

(** Conditions agree on readings that agree on their leaves. *)
Lemma denote_ext ρ1 ρ2 c : (∀ p, leaf_path p c → ρ1 p = ρ2 p) → denote ρ1 c = denote ρ2 c.
Proof.
  induction c as [q segs op opd|items IH|items IH|c IH] using Condition_induction; intros H; cbn.
  - rewrite H by constructor. done.
  - f_equal. apply map_ext_in. intros c Hc%list_elem_of_In. rewrite Forall_forall in IH.
    apply IH; [done|]. intros p Hp. apply H. by eapply leaf_all.
  - f_equal. apply map_ext_in. intros c Hc%list_elem_of_In. rewrite Forall_forall in IH.
    apply IH; [done|]. intros p Hp. apply H. by eapply leaf_any.
  - f_equal. apply IH. intros p Hp. apply H. by constructor.
Qed.

Lemma unresolved_ext ρ1 ρ2 c p :
  (∀ p, leaf_path p c → ρ1 p = ρ2 p) → unresolved_leaf ρ1 p c → unresolved_leaf ρ2 p c.
Proof.
  intros H Hu. induction Hu; try (econstructor; eauto; eapply IHHu; intros; apply H; by econstructor).
  constructor. rewrite <- H; [done|constructor].
Qed.

(** ** Firing *)

(** The reason a rule contributes, from the denotation of its condition. *)
Definition reason_of (evidence : pyval) (rule : Rule) (ur : list string) : PolicyReason :=
  {| pr_rule_id := rule_id rule; pr_tier := tier (effect rule); pr_score := score (effect rule);
     pr_reason := reason (effect rule);
     indeterminate := bool_decide (denote (reads evidence) (when rule) = None);
     unresolved_paths := ur |}.

Definition fires (evidence : pyval) (rule : Rule) : bool :=
  bool_decide (denote (reads evidence) (when rule) ≠ Some false).

Lemma fire_spec rs evidence rule :
  Forall (λ r, cond_ok (when r)) rs → rule ∈ rs →
  ∃ ur, fire (index_all rs evidence) rule =
          Ok (if fires evidence rule then Some (reason_of evidence rule ur) else None) ∧
        StronglySorted String.leb ur ∧ NoDup ur ∧
        ∀ p, p ∈ ur ↔ unresolved_leaf (reads evidence) p (when rule).
Proof.
  intros Hok Hin. pose proof Hok as Hok'. rewrite Forall_forall in Hok'.
  assert (Hpath : ∀ p, leaf_path p (when rule) →
                       index_all rs evidence !! p = Some (reads evidence p)).
  { intros p Hp. apply rho_index; [done|]. by exists rule. }
  assert (Hrho : ∀ p, leaf_path p (when rule) → rho (index_all rs evidence) p = reads evidence p).
  { intros p Hp. unfold rho. by rewrite Hpath. }
  destruct (truth_spec (index_all rs evidence) (when rule) (Hok' _ Hin)) with (u := (∅ : gset string))
    as (u' & Ht & Hu'); [intros p Hp; rewrite Hpath; eauto|].
  exists (sorted_strings u'). split; [|split; [apply sorted_strings_sorted|split; [apply sorted_strings_NoDup|]]].
  - unfold fire. rewrite Ht. cbn. rewrite (denote_ext _ _ _ Hrho).
    unfold fires, reason_of. destruct (denote (reads evidence) (when rule)) as [[]|]; reflexivity.
  - intros p. rewrite elem_of_sorted_strings, Hu'. split.
    + intros [H|H]; [|set_solver]. by eapply unresolved_ext.
    + intros H. left. eapply unresolved_ext; [|exact H]. intros q Hq. symmetry. by apply Hrho.
Qed.

(** The fired rules, in file order, with their index. *)
Definition fired_ok (evidence : pyval) (rule : Rule) (r : PolicyReason) : Prop :=
  fires evidence rule = true ∧
  ∃ ur, r = reason_of evidence rule ur ∧ StronglySorted String.leb ur ∧ NoDup ur ∧
        ∀ p, p ∈ ur ↔ unresolved_leaf (reads evidence) p (when rule).

Lemma fire_all_spec all evidence rs i :
  Forall (λ r, cond_ok (when r)) all → rs ⊆ all →
  ∃ fired, fire_all (index_all all evidence) i rs = Ok fired ∧
    (∀ k r, (k, r) ∈ fired ↔ ∃ j rule, k = (i + j)%nat ∧ rs !! j = Some rule ∧
       ∃ ur, fires evidence rule = true ∧ r = reason_of evidence rule ur ∧
             fire (index_all all evidence) rule = Ok (Some r)) ∧
    StronglySorted (λ a b, (fst a < fst b)%nat) fired.
Proof.
  intros Hok. revert i. induction rs as [|rule rs IH]; intros i Hsub; cbn.
  - exists []. split; [done|]. split; [|constructor]. intros k r. split; [by intros ?%elem_of_nil|].
    intros (j & rule & _ & Hj & _). by rewrite lookup_nil in Hj.
  - destruct (IH (S i)) as (fired & -> & Hin & Hs); [set_solver|].
    destruct (fire_spec all evidence rule) as (ur & Hf & _); [done|set_solver|].
    rewrite Hf. cbn. destruct (fires evidence rule) eqn:Hfires.
    + exists ((i, reason_of evidence rule ur) :: fired). split; [done|]. split.
      * intros k r. rewrite elem_of_cons, Hin. split.
        -- intros [Heq|(j & rule' & -> & Hj & Hr)].
           ++ simplify_eq. exists 0%nat, rule. rewrite Nat.add_0_r. eauto 10.
           ++ exists (S j), rule'. rewrite Nat.add_succ_r. eauto.
        -- intros ([|j] & rule' & -> & Hj & Hr); cbn in Hj; simplify_eq.
           ++ left. destruct Hr as (ur' & _ & -> & Hf'). rewrite Hf in Hf'.
              rewrite Nat.add_0_r. congruence.
           ++ right. exists j, rule'. rewrite Nat.add_succ_r. eauto.
      * constructor; [done|]. apply Forall_forall. intros [k r] Hk. cbn.
        apply Hin in Hk as (j & ? & -> & _). lia.
    + exists fired. split; [done|]. split; [|done]. intros k r. rewrite Hin. split.
      * intros (j & rule' & -> & Hj & Hr). exists (S j), rule'. rewrite Nat.add_succ_r. eauto.
      * intros ([|j] & rule' & -> & Hj & Hr); cbn in Hj; simplify_eq.
        -- destruct Hr as (ur' & ? & _). congruence.
        -- exists j, rule'. rewrite Nat.add_succ_r. eauto.
Qed.

(** ** Tiers and thresholds *)

Lemma raise_tier_rank a b : rank (raise_tier a b) = Z.max (rank a) (rank b).
Proof. unfold raise_tier. destruct (Z.ltb_spec (rank a) (rank b)); lia. Qed.

Definition max_rank (start : Z) (rs : list PolicyReason) : Z :=
  foldr (λ r acc, Z.max (rank (pr_tier r)) acc) start rs.

Lemma rules_tier_rank rs : rank (rules_tier rs) = max_rank 0 rs.
Proof.
  unfold rules_tier, max_rank. change 0 with (rank LOW). generalize LOW.
  induction rs as [|r rs IH]; intros t; cbn; [done|]. rewrite IH, raise_tier_rank.
  clear. induction rs as [|r' rs IH]; cbn; lia.
Qed.

Lemma max_rank_le k rs : max_rank 0 rs ≤ k ↔ 0 ≤ k ∧ ∀ r, r ∈ rs → rank (pr_tier r) ≤ k.
Proof.
  induction rs as [|r rs IH]; cbn -[max_rank].
  - split; [|naive_solver]. intros ?. split; [done|]. by intros ? ?%elem_of_nil.
  - change (max_rank 0 (r :: rs)) with (Z.max (rank (pr_tier r)) (max_rank 0 rs)).
    rewrite Z.max_lub_iff, IH. setoid_rewrite elem_of_cons. naive_solver.
Qed.

(** The tier after the thresholds: the highest of the starting tier and the
    tiers whose minimum the score reaches. *)
Lemma apply_thresholds_le sc ths start k :
  rank (fst (apply_thresholds sc ths start)) ≤ k ↔
  rank (fst start) ≤ k ∧ ∀ t m, (t, m) ∈ ths → m ≤ sc → rank t ≤ k.
Proof.
  unfold apply_thresholds. revert start.
  induction ths as [|[t m] ths IH]; intros start; cbn.
  - split; [|naive_solver]. intros ?. split; [done|]. by intros ? ? ?%elem_of_nil.
  - rewrite IH. setoid_rewrite elem_of_cons.
    destruct (Z.leb_spec m sc); cbn; [|naive_solver lia].
    destruct (Z.ltb_spec (rank (fst start)) (rank t)); cbn.
    + split; [|naive_solver lia]. intros [? Hk]. split; [lia|]. naive_solver lia.
    + split; [|naive_solver lia]. intros [? Hk]. split; [lia|]. intros t' m' [?|?] ?; [|eauto].
      simplify_eq. lia.
Qed.

(** The source is [rules] exactly when the thresholds left the tier alone. *)
Lemma apply_thresholds_source sc ths t :
  let '(t', src) := apply_thresholds sc ths (t, FromRules) in
  (src = FromRules ∧ t' = t) ∨
  (src = FromThreshold ∧ rank t < rank t' ∧ ∃ m, (t', m) ∈ ths ∧ m ≤ sc).
Proof.
  unfold apply_thresholds.
  assert (H : ∀ l cur, l ⊆ ths →
    (cur = (t, FromRules) ∨ (snd cur = FromThreshold ∧ rank t < rank (fst cur) ∧
                             ∃ m, (fst cur, m) ∈ ths ∧ m ≤ sc)) →
    let '(t', src) := foldl (λ current (th : Tier * Z),
           let '(threshold_tier, minimum) := th in
           if (minimum <=? sc) && (rank (fst current) <? rank threshold_tier)
           then (threshold_tier, FromThreshold) else current) cur l in
    (src = FromRules ∧ t' = t) ∨
    (src = FromThreshold ∧ rank t < rank t' ∧ ∃ m, (t', m) ∈ ths ∧ m ≤ sc)).
  { induction l as [|[tt m] l IH]; intros cur Hl Hcur; cbn.
    - destruct cur. naive_solver.
    - apply IH; [set_solver|].
      destruct (Z.leb_spec m sc); cbn; [|done].
      destruct (Z.ltb_spec (rank (fst cur)) (rank tt)); cbn; [|done].
      right. split; [done|]. split; [|exists m; split; [set_solver|done]].
      destruct Hcur as [->|(_ & ? & _)]; cbn in *; lia. }
  by apply H; [|left].
Qed.

(** ** What the loader guarantees of a policy *)

Record policy_ok (policy : Policy) : Prop := {
  ok_conditions : Forall (λ r, cond_ok (when r)) (rules policy);
  ok_paths : ∀ p, p ∈ referenced_paths policy ↔ rules_path (rules policy) p;
  ok_paths_nodup : NoDup (referenced_paths policy);
  ok_scores : Forall (λ r, 0 ≤ score (effect r) ≤ MAX_SCORE) (rules policy);
  ok_ids : NoDup (rule_id <$> rules policy)
}.

Lemma rule_score_nonneg policy r : policy_ok policy → r ∈ rules policy → 0 ≤ score (effect r).
Proof. intros Hok Hr. pose proof (ok_scores _ Hok) as Hs. rewrite Forall_forall in Hs. by apply Hs. Qed.

Definition snapshots (evidence : pyval) (paths : list string) : list (string * pyval) :=
  (λ p, (p, _snapshot (reads evidence p))) <$> paths.

Lemma snapshots_pairs ev l :
  (λ pr, (fst pr, _snapshot (snd pr))) <$> ((λ p, (p, reads ev p)) <$> l) = snapshots ev l.
Proof. unfold snapshots. by rewrite <- list_fmap_compose. Qed.

Lemma snapshot_dumps `{FloatRepr} r : r ≠ RValue VNone → is_Some (json_dumps (_snapshot r)).
Proof.
  destruct r as [| |v]; cbn; [eauto| | ]; [eexists; reflexivity|].
  intros _. destruct v as [| | z|f | | | | | ]; cbn; try (eexists; reflexivity).
  - destruct (_ && _); eexists; reflexivity.
  - destruct f; eexists; reflexivity.
Qed.

Lemma dump_entries_total `{FloatRepr} kvs :
  (∀ k v, (k, v) ∈ kvs → is_Some (json_dumps v)) → is_Some (dump_entries kvs).
Proof.
  induction kvs as [|[k v] kvs IH]; intros Hv; cbn; [eauto|].
  destruct (Hv k v) as [y ->]; [set_solver|]. cbn.
  destruct IH as [ys ->]; [intros k0 v0 ?; apply (Hv k0 v0); set_solver|]. cbn. eauto.
Qed.

Lemma canonical_hash_total `{FloatRepr} kvs :
  (∀ k v, (k, v) ∈ kvs → is_Some (json_dumps v)) → ∃ h, _canonical_hash (VMap kvs) = Ok h.
Proof.
  intros [out Hout]%dump_entries_total. unfold _canonical_hash.
  rewrite json_dumps_VMap, Hout. cbn. eauto.
Qed.

Lemma reads_not_none evidence p : reads evidence p ≠ RValue VNone.
Proof.
  unfold reads. generalize (split dot p) as segs. intros segs. revert evidence.
  induction segs as [|s segs IH]; intros [| | | | | | kvs | |]; cbn; try done.
  destruct (assoc s kvs) as [v|]; [|done]. destruct v; try done; apply IH.
Qed.

(** The shape of a successful evaluation. *)
Record evaluated `{FloatRepr} (policy : Policy) (evidence : pyval) (res : PolicyResult) : Prop := {
  ev_fired : ∃ fired, fire_all (index_all (rules policy) evidence) 0 (rules policy) = Ok fired ∧
                      res_reasons res = (sort_by fired_leb fired).*2;
  ev_score : res_score res = Z.min MAX_SCORE (sumZ (pr_score <$> res_reasons res));
  ev_tier : (res_tier res, res_tier_source res) =
            apply_thresholds (res_score res) (score_thresholds policy)
                             (rules_tier (res_reasons res), FromRules);
  ev_rules : res_fired_rules res = pr_rule_id <$> res_reasons res;
  ev_inputs : res_inputs res = snapshots evidence (referenced_paths policy);
  ev_missing : res_missing_inputs res =
    List.filter (λ p, is_missing (reads evidence p)) (referenced_paths policy);
  ev_invalid : res_invalid_inputs res =
    List.filter (λ p, is_invalid (reads evidence p)) (referenced_paths policy);
  ev_identity : (res_policy_id res, res_policy_version res, res_policy_hash res,
                 res_policy_status res, res_reviewed_by res) =
                (policy_id policy, version policy, content_hash policy,
                 status policy, reviewed_by policy);
  ev_hash : Ok (res_inputs_hash res) = _canonical_hash (VMap (res_inputs res))
}.

Lemma filter_pairs {B} (g : string → B) (f : B → bool) l :
  (List.filter (λ pr : string * B, f (snd pr)) ((λ p, (p, g p)) <$> l)).*1 =
  List.filter (λ p, f (g p)) l.
Proof. induction l as [|p l IH]; cbn; [done|]. destruct (f (g p)); cbn; by rewrite IH. Qed.

(** Evaluation of a loaded policy on any mapping returns. *)
Lemma evaluate_returns `{FloatRepr} policy kvs :
  policy_ok policy → ∃ res, evaluate policy (VMap kvs) = Ok res ∧ evaluated policy (VMap kvs) res.
Proof.
  intros Hok. set (ev := VMap kvs). unfold evaluate. subst ev. cbn -[index_all].
  set (ev := VMap kvs).
  rewrite (map_res_Ok _ (λ p, (p, reads ev p))); cycle 1.
  { intros _ p Hp%(ok_paths _ Hok). rewrite (rho_index _ ev p (ok_conditions _ Hok) Hp). done. }
  cbn -[index_all].
  destruct (fire_all_spec (rules policy) ev (rules policy) 0 (ok_conditions _ Hok)) as (fired & Hf & _);
    [done|].
  rewrite Hf. cbn -[index_all].
  destruct (apply_thresholds _ _ _) as [t src] eqn:Hth.
  rewrite (dict_build fst (λ pr, _snapshot (snd pr))); cycle 1.
  { cbn. rewrite <- list_fmap_compose. cbn. rewrite list_fmap_id. apply (ok_paths_nodup _ Hok). }
  cbn. rewrite snapshots_pairs.
  destruct (canonical_hash_total (snapshots ev (referenced_paths policy))) as [h Hh].
  { intros k v (p & Hp & _)%list_elem_of_fmap. simplify_eq. apply snapshot_dumps, reads_not_none. }
  rewrite Hh. cbn. eexists. split; [reflexivity|]. constructor; cbn; eauto.
  - apply filter_pairs.
  - apply filter_pairs.
Qed.

Lemma evaluated_of `{FloatRepr} policy evidence res :
  policy_ok policy → evaluate policy evidence = Ok res → evaluated policy evidence res.
Proof.
  intros Hok He. destruct evidence; try discriminate He.
  destruct (evaluate_returns policy kvs Hok) as (res' & He' & Hev). congruence.
Qed.

(** ** Reasons *)

(** The reasons of a result are those of the firing rules. *)
Lemma reasons_spec `{FloatRepr} policy evidence res r :
  policy_ok policy → evaluated policy evidence res →
  r ∈ res_reasons res ↔ ∃ rule, rule ∈ rules policy ∧ fired_ok evidence rule r.
Proof.
  intros Hok Hev. destruct (ev_fired _ _ _ Hev) as (fired & Hf & ->).
  destruct (fire_all_spec (rules policy) evidence (rules policy) 0 (ok_conditions _ Hok))
    as (fired' & Hf' & Hin & _); [done|]. rewrite Hf in Hf'. apply (inj Ok) in Hf' as <- || simplify_eq.
  rewrite list_elem_of_fmap. setoid_rewrite elem_of_sort_by. split.
  - intros ([k r'] & -> & Hk). cbn. apply Hin in Hk as (j & rule & -> & Hj & ur & Hfi & -> & Hfire).
    apply list_elem_of_lookup_2 in Hj. exists rule. split; [done|]. split; [done|].
    destruct (fire_spec (rules policy) evidence rule (ok_conditions _ Hok) Hj) as (ur' & Hfire' & ?).
    rewrite Hfi in Hfire'. exists ur'. split; [congruence|done].
  - intros (rule & Hr & Hfi & ur & -> & Hur).
    destruct (list_elem_of_lookup_1 _ _ Hr) as [j Hj].
    destruct (fire_spec (rules policy) evidence rule (ok_conditions _ Hok) Hr)
      as (ur' & Hfire & Hs' & Hnd' & Hin'). rewrite Hfi in Hfire.
    assert (ur = ur') as ->.
    { destruct Hur as (Hs & Hnd & Hin0). eapply sorted_perm_eq; [|exact Hs|exact Hs'|].
      - intros a b. apply String.leb_antisym.
      - apply NoDup_Permutation; [done..|]. intros p. by rewrite Hin0, Hin'. }
    exists (j, reason_of evidence rule ur'). split; [done|]. apply Hin.
    exists j, rule. eauto 10.
Qed.

Lemma fired_sum policy evidence rs i fired :
  policy_ok policy → rs ⊆ rules policy →
  fire_all (index_all (rules policy) evidence) i rs = Ok fired →
  sumZ (pr_score <$> fired.*2) =
  sumZ ((λ r, if fires evidence r then score (effect r) else 0) <$> rs).
Proof.
  intros Hok. revert i fired. induction rs as [|rule rs IH]; intros i fired Hsub Hf; cbn in Hf; inv_ok; [done|].
  destruct (fire_spec (rules policy) evidence rule (ok_conditions _ Hok)) as (ur & Hfire & _); [set_solver|].
  match goal with H : fire_all _ _ _ = Ok _ |- _ => apply IH in H; [|set_solver] end.
  match goal with H : fire _ _ = Ok ?x |- _ => is_var x; rewrite Hfire in H; inv_ok end.
  rewrite fmap_cons. cbn [sumZ].
  destruct (fires evidence rule); rewrite ?fmap_cons; cbn [sumZ snd reason_of pr_score]; lia.
Qed.

Lemma score_spec `{FloatRepr} policy evidence res :
  policy_ok policy → evaluated policy evidence res →
  res_score res = Z.min MAX_SCORE
    (sumZ ((λ r, if fires evidence r then score (effect r) else 0) <$> rules policy)).
Proof.
  intros Hok Hev. destruct (ev_fired _ _ _ Hev) as (fired & Hf & Hr).
  rewrite (ev_score _ _ _ Hev), Hr. f_equal.
  rewrite <- (fired_sum policy evidence (rules policy) 0 fired); [|done..].
  apply sumZ_Permutation. by rewrite sort_by_Permutation.
Qed.

(** ** Less evidence *)

(** [p] is compared with [op] by some leaf of [c]. *)
Inductive leaf_op (p : string) (op : Operator) : Condition → Prop :=
| lo_compare segs opd : leaf_op p op (Compare p segs op opd)
| lo_all items c : c ∈ items → leaf_op p op c → leaf_op p op (AllOf items)
| lo_any items c : c ∈ items → leaf_op p op c → leaf_op p op (AnyOf items)
| lo_not c : leaf_op p op c → leaf_op p op (Not c).

Definition presence (op : Operator) : bool :=
  match op with EXISTS | MISSING => true | _ => false end.

(** [r] is no more than [r'] for a leaf with operator [op]: the same reading, or
    one that no comparison can use. *)
Definition less_reading (op : Operator) (r r' : reading) : Prop :=
  r = r' ∨ (presence op = false ∧ reading_kind r = None).

Definition less_info (a b : option bool) : Prop := ∀ x, a = Some x → b = Some x.

Lemma leaf_value_mono op opd r r' :
  less_reading op r r' → less_info (leaf_value r op opd) (leaf_value r' op opd).
Proof.
  intros [->|[Hop Hk]]; [by intros x|]. intros x Hx. exfalso.
  destruct r as [| |v]; cbn in *; [by destruct op|done|].
  rewrite bool_decide_eq_false_2 in Hx by (rewrite Hk; by intros [[? ?] ?]).
  destruct op, opd; cbn in Hx; try done;
    rewrite bool_decide_eq_false_2 in Hx by (rewrite Hk; by intros [[? ?] ?]); done.
Qed.

Lemma existsb_bool_decide {A} `{EqDecision A} (a : A) (dec : ∀ r, Decision (r = a)) l :
  existsb (λ r, @bool_decide (r = a) (dec r)) l = bool_decide (a ∈ l).
Proof.
  induction l as [|x l IH]; cbn; [done|]. rewrite IH.
  repeat case_bool_decide; cbn; try done; exfalso; set_solver.
Qed.

Lemma kleene_all_Some l b :
  kleene_all l = Some b ↔ if b then ∀ x, x ∈ l → x = Some true else Some false ∈ l.
Proof.
  unfold kleene_all. rewrite !existsb_bool_decide.
  case_bool_decide as H1; [|case_bool_decide as H2].
  - destruct b; split; intros Hl; try done. by apply Hl in H1.
  - destruct b; split; intros Hl; try done. by apply Hl in H2.
  - destruct b; split; intros Hl; try done; intros [[]|] Hx; done.
Qed.

Lemma kleene_any_Some l b :
  kleene_any l = Some b ↔ if b then Some true ∈ l else ∀ x, x ∈ l → x = Some false.
Proof.
  unfold kleene_any. rewrite !existsb_bool_decide.
  case_bool_decide as H1; [|case_bool_decide as H2].
  - destruct b; split; intros Hl; try done. by apply Hl in H1.
  - destruct b; split; intros Hl; try done. by apply Hl in H2.
  - destruct b; split; intros Hl; try done; intros [[]|] Hx; done.
Qed.

Lemma denote_mono ρ ρ' c :
  (∀ p op, leaf_op p op c → less_reading op (ρ p) (ρ' p)) →
  less_info (denote ρ c) (denote ρ' c).
Proof.
  induction c as [q segs op opd|items IH|items IH|c IH] using Condition_induction; intros H; cbn.
  - apply leaf_value_mono, H. constructor.
  - assert (Hi : ∀ c, c ∈ items → less_info (denote ρ c) (denote ρ' c)).
    { rewrite Forall_forall in IH. intros c Hc. apply IH; [done|]. intros. apply H. by eapply lo_all. }
    intros [] Hx; apply kleene_all_Some in Hx; apply kleene_all_Some.
    + intros x (c & -> & Hc)%list_elem_of_fmap. apply Hi; [done|]. apply Hx.
      apply list_elem_of_fmap. eauto.
    + apply list_elem_of_fmap in Hx as (c & Heq & Hc). apply list_elem_of_fmap. exists c.
      split; [|done]. symmetry. by apply Hi.
  - assert (Hi : ∀ c, c ∈ items → less_info (denote ρ c) (denote ρ' c)).
    { rewrite Forall_forall in IH. intros c Hc. apply IH; [done|]. intros. apply H. by eapply lo_any. }
    intros [] Hx; apply kleene_any_Some in Hx; apply kleene_any_Some.
    + apply list_elem_of_fmap in Hx as (c & Heq & Hc). apply list_elem_of_fmap. exists c.
      split; [|done]. symmetry. by apply Hi.
    + intros x (c & -> & Hc)%list_elem_of_fmap. apply Hi; [done|]. apply Hx.
      apply list_elem_of_fmap. eauto.
  - intros x Hx. unfold kleene_not in *. destruct (denote ρ c) as [b|] eqn:E; [|done].
    rewrite (IH (λ p op Hp, H p op (lo_not p op c Hp)) b) by done. done.
Qed.

(** [evidence] carries no more than [evidence'] for the rules of a policy. *)
Definition less_evidence (rs : list Rule) (evidence evidence' : pyval) : Prop :=
  ∀ rule p op, rule ∈ rs → leaf_op p op (when rule) →
               less_reading op (reads evidence p) (reads evidence' p).

Lemma fires_mono rs evidence evidence' rule :
  less_evidence rs evidence evidence' → rule ∈ rs →
  fires evidence' rule = true → fires evidence rule = true.
Proof.
  intros Hle Hin Hf. unfold fires in *. apply bool_decide_eq_true in Hf. apply bool_decide_eq_true.
  intros Hd. apply Hf. eapply denote_mono; [|exact Hd]. intros p op Hp. by eapply Hle.
Qed.

(** ** Order of mapping entries

    [ev_equiv] relates evidence whose mappings agree on every lookup, whatever
    the order (or repetition) of their entries. *)

Inductive ev_equiv : pyval → pyval → Prop :=
| eqv_refl v : ev_equiv v v
| eqv_map kvs1 kvs2 :
    (∀ k, option_Forall2 ev_equiv (assoc k kvs1) (assoc k kvs2)) →
    ev_equiv (VMap kvs1) (VMap kvs2).

(** Readings that differ at most inside a mapping, which no operator looks into. *)
Definition reading_equiv (r1 r2 : reading) : Prop :=
  r1 = r2 ∨ ∃ kvs1 kvs2, r1 = RValue (VMap kvs1) ∧ r2 = RValue (VMap kvs2).

Definition table_equiv (t1 t2 : gmap string reading) : Prop :=
  ∀ p, option_Forall2 reading_equiv (t1 !! p) (t2 !! p).

Lemma read_equiv v1 v2 segs : ev_equiv v1 v2 → reading_equiv (_read v1 segs) (_read v2 segs).
Proof.
  revert v1 v2. induction segs as [|s segs IH]; intros v1 v2 [v|kvs1 kvs2 Hk]; try by left.
  - cbn. right. eauto.
  - cbn. destruct (Hk s) as [w1 w2 Hw|]; [|by left].
    destruct Hw as [w|m1 m2 Hm]; [by left|]. apply IH. by constructor.
Qed.

Lemma reading_equiv_snapshot r1 r2 : reading_equiv r1 r2 → _snapshot r1 = _snapshot r2.
Proof. by intros [->|(? & ? & -> & ->)]. Qed.

Lemma compare_equiv t1 t2 p op opd u :
  table_equiv t1 t2 → _compare t1 p op opd u = _compare t2 p op opd u.
Proof.
  intros Ht. unfold _compare.
  destruct (Ht p) as [r1 r2 [->|(? & ? & -> & ->)]|]; [done| |done]. by destruct op.
Qed.

Lemma items_truth_equiv t1 t2 items :
  Forall (λ c, ∀ u, truth t1 c u = truth t2 c u) items →
  ∀ u, items_truth t1 items u = items_truth t2 items u.
Proof.
  induction 1 as [|c items Hc _ IH]; intros u; cbn; [done|]. rewrite Hc.
  destruct (truth t2 c u) as [[? ?]|]; cbn; [|done]. by rewrite IH.
Qed.

Lemma truth_equiv t1 t2 c : table_equiv t1 t2 → ∀ u, truth t1 c u = truth t2 c u.
Proof.
  intros Ht. induction c as [q segs op opd|items IH|items IH|c IH] using Condition_induction; intros u; cbn.
  - by apply compare_equiv.
  - fold (items_truth t1) (items_truth t2). by rewrite (items_truth_equiv t1 t2 items IH u).
  - fold (items_truth t1) (items_truth t2). by rewrite (items_truth_equiv t1 t2 items IH u).
  - by rewrite IH.
Qed.

Lemma foldl_equiv {A} (f1 f2 : A → gmap string reading → gmap string reading) l :
  Forall (λ x, ∀ t1 t2, table_equiv t1 t2 → table_equiv (f1 x t1) (f2 x t2)) l →
  ∀ t1 t2, table_equiv t1 t2 →
  table_equiv (foldl (λ acc x, f1 x acc) t1 l) (foldl (λ acc x, f2 x acc) t2 l).
Proof. induction 1; intros t1 t2 Ht; cbn; eauto. Qed.

Lemma index_paths_equiv v1 v2 c :
  ev_equiv v1 v2 → ∀ t1 t2, table_equiv t1 t2 →
  table_equiv (_index_paths c v1 t1) (_index_paths c v2 t2).
Proof.
  intros Hv. induction c as [q segs op opd|items IH|items IH|c IH] using Condition_induction;
    intros t1 t2 Ht; cbn; [|by apply (foldl_equiv (λ c, _index_paths c v1) (λ c, _index_paths c v2))..|by apply IH].
  destruct (Ht q); [done|]. intros p. rewrite !lookup_insert. case_decide; [|done].
  constructor. by apply read_equiv.
Qed.

Lemma index_all_equiv rs v1 v2 :
  ev_equiv v1 v2 → table_equiv (index_all rs v1) (index_all rs v2).
Proof.
  intros Hv. apply (foldl_equiv (λ r, _index_paths (when r) v1) (λ r, _index_paths (when r) v2)).
  - apply Forall_forall. intros r _. by apply index_paths_equiv.
  - intros p. rewrite lookup_empty. constructor.
Qed.

Lemma fire_all_equiv t1 t2 i rs : table_equiv t1 t2 → fire_all t1 i rs = fire_all t2 i rs.
Proof.
  intros Ht. revert i. induction rs as [|r rs IH]; intros i; cbn; [done|].
  unfold fire. rewrite (truth_equiv t1 t2) by done. by rewrite IH.
Qed.

(** Lists of readings of the same paths. *)
Definition same_reads (l1 l2 : list (string * reading)) : Prop :=
  Forall2 (λ a b, fst a = fst b ∧ reading_equiv (snd a) (snd b)) l1 l2.

Lemma map_reads_equiv t1 t2 i paths :
  table_equiv t1 t2 →
  let read t := map_res (λ _ path, r ← of_option (KeyError path) (t !! path); Ok (path, r)) i paths in
  match read t1, read t2 with
  | Ok l1, Ok l2 => same_reads l1 l2
  | Err e1, Err e2 => e1 = e2
  | _, _ => False
  end.
Proof.
  intros Ht. cbn. revert i. induction paths as [|p paths IH]; intros i; cbn; [constructor|].
  destruct (Ht p) as [r1 r2 Hr|]; cbn; [|done]. specialize (IH (S i)). revert IH.
  destruct (map_res _ (S i) paths), (map_res _ (S i) paths); cbn; try done. by constructor.
Qed.

Lemma same_reads_filter (f : reading → bool) l1 l2 :
  (∀ r1 r2, reading_equiv r1 r2 → f r1 = f r2) → same_reads l1 l2 →
  (List.filter (λ pr, f (snd pr)) l1).*1 = (List.filter (λ pr, f (snd pr)) l2).*1.
Proof.
  intros Hf. induction 1 as [|[p1 r1] [p2 r2] l1 l2 [Hp Hr] _ IH]; cbn in *; [done|].
  rewrite (Hf _ _ Hr). destruct (f r2); cbn; congruence.
Qed.

Lemma same_reads_dict l1 l2 d :
  same_reads l1 l2 →
  foldl (λ d pr, dict_set (fst pr) (_snapshot (snd pr)) d) d l1 =
  foldl (λ d pr, dict_set (fst pr) (_snapshot (snd pr)) d) d l2.
Proof.
  intros H. revert d. induction H as [|[p1 r1] [p2 r2] l1 l2 [Hp Hr] _ IH]; intros d; cbn in *; [done|].
  rewrite (reading_equiv_snapshot _ _ Hr), Hp. apply IH.
Qed.

(** Evaluation respects the equivalence. *)
#[global] Instance evaluate_proper `{FloatRepr} policy : Proper (ev_equiv ==> eq) (evaluate policy).
Proof.
  intros v1 v2 Hv. pose proof (index_all_equiv (rules policy) v1 v2 Hv) as Ht.
  unfold evaluate.
  assert (Hm : match v1 with VMap _ => false | _ => true end =
               match v2 with VMap _ => false | _ => true end) by by destruct Hv.
  rewrite Hm. destruct (raise_if _ EvidenceNotMapping); cbn -[index_all]; [|done].
  pose proof (map_reads_equiv _ _ 0 (referenced_paths policy) Ht) as Hr.
  cbn -[index_all] in Hr. revert Hr.
  destruct (map_res _ 0 (referenced_paths policy)) as [l1|e1],
           (map_res _ 0 (referenced_paths policy)) as [l2|e2];
    cbn -[index_all]; intros Hr; [|by destruct Hr..|by rewrite Hr].
  rewrite (fire_all_equiv _ _ 0 (rules policy) Ht).
  destruct (fire_all _ 0 _) as [fired|]; cbn; [|done].
  rewrite (same_reads_dict l1 l2) by done.
  rewrite (same_reads_filter is_missing l1 l2) by (done || (intros r1 r2 [->|(? & ? & -> & ->)]; done)).
  rewrite (same_reads_filter is_invalid l1 l2) by (done || (intros r1 r2 [->|(? & ? & -> & ->)]; done)).
  done.
Qed.

(** The order of the reasons: by tier, most severe first, then by rule order. *)
Definition reason_before (a b : nat * Tier) : Prop :=
  rank (snd b) < rank (snd a) ∨ (snd a = snd b ∧ (fst a < fst b)%nat).

Lemma fired_leb_true a b :
  fired_leb a b = true ↔
  rank (pr_tier (snd b)) < rank (pr_tier (snd a)) ∨
  (rank (pr_tier (snd a)) = rank (pr_tier (snd b)) ∧ (fst a ≤ fst b)%nat).
Proof.
  unfold fired_leb. rewrite orb_true_iff, andb_true_iff, Z.ltb_lt, Z.eqb_eq, Nat.leb_le. done.
Qed.

Lemma fired_leb_total a b : fired_leb a b = true ∨ fired_leb b a = true.
Proof. rewrite !fired_leb_true. lia. Qed.

Lemma fired_leb_trans a b c : fired_leb a b = true → fired_leb b c = true → fired_leb a c = true.
Proof. rewrite !fired_leb_true. lia. Qed.

Lemma strict_sorted_NoDup {B} (l : list (nat * B)) :
  StronglySorted (λ a b, (fst a < fst b)%nat) l → NoDup l.*1.
Proof.
  induction 1 as [|[k b] l _ IH Hk]; cbn; constructor; [|done].
  intros ([k' b'] & ? & Hin)%list_elem_of_fmap. rewrite Forall_forall in Hk.
  specialize (Hk _ Hin). cbn in *. lia.
Qed.

Lemma zip_fst_fmap (l : list (nat * PolicyReason)) :
  zip l.*1 (pr_tier <$> l.*2) = (λ kr, (fst kr, pr_tier (snd kr))) <$> l.
Proof. induction l as [|[k r] l IH]; cbn; [done|]. by f_equal. Qed.

Lemma fired_sorted_strict fired :
  NoDup (sort_by fired_leb fired).*1 →
  StronglySorted reason_before ((λ kr, (fst kr, pr_tier (snd kr))) <$> sort_by fired_leb fired).
Proof.
  pose proof (sort_by_sorted fired_leb fired_leb_total fired_leb_trans fired) as Hs. revert Hs.
  generalize (sort_by fired_leb fired) as l.
  induction 1 as [|[k r] l _ IH Hk]; cbn; intros Hnd; constructor; apply NoDup_cons in Hnd as [Hn Hnd].
  - by apply IH.
  - apply Forall_fmap. rewrite Forall_forall in *. intros [k' r'] Hin.
    specialize (Hk _ Hin). apply Is_true_true, fired_leb_true in Hk. cbn in *.
    unfold reason_before; cbn. destruct Hk as [?|[Hrk ?]]; [by left|right].
    split; [by apply rank_inj|].
    assert (k ≠ k') by (intros ->; apply Hn, list_elem_of_fmap; by exists (k', r')). lia.
Qed.

(** * Properties *)

(** A small policy and evidence for the witnesses. *)
Module EngineExample.

Definition repr0 : FloatRepr := λ _, "0.0".

Definition leaf (p : string) (op : Operator) (v : pyval) : Condition :=
  Compare p (split dot p) op (OScalar v).

Definition hits : Rule :=
  mkRule "screening_hits"
    (AnyOf [leaf "screening.hits" GT (VInt 0); Not (leaf "kyc.passed" EQ (VBool true))])
    (mkEffect BLOCKED "screening" 100) None.

Definition young : Rule :=
  mkRule "young_company" (leaf "company.age_years" LT (VInt 2)) (mkEffect MEDIUM "young" 20) None.

Definition policy : Policy :=
  mkPolicy "onboarding" "1.0.0" EXAMPLE None None [young; hits] [(HIGH, 60)] "sha256:0" "mem"
    ["company.age_years"; "kyc.passed"; "screening.hits"].

Definition clean : pyval :=
  VMap [("screening", VMap [("hits", VInt 0)]); ("kyc", VMap [("passed", VBool true)]);
        ("company", VMap [("age_years", VInt 7)])].

(** The same case with the KYC answer missing. *)
Definition partial : pyval :=
  VMap [("company", VMap [("age_years", VInt 7)]); ("screening", VMap [("hits", VInt 0)])].

Lemma policy_is_ok : policy_ok policy.
Proof.
  constructor; cbn.
  - repeat constructor; cbn; done.
  - intros p. unfold rules_path. cbn. rewrite !elem_of_cons, elem_of_nil.
    split.
    + intros [->|[->|[->|[]]]].
      * exists young. split; [left|]. constructor.
      * exists hits. split; [right; left|]. eapply leaf_any; [right; left|]. constructor. constructor.
      * exists hits. split; [right; left|]. eapply leaf_any; [left|]. constructor.
    + intros (r & Hr & Hp). rewrite !elem_of_cons, elem_of_nil in Hr.
      destruct Hr as [->|[->|[]]]; cbn in Hp.
      * apply leaf_path_inv in Hp. cbn in Hp. auto.
      * apply leaf_path_inv in Hp as (c & Hc & Hp). rewrite !elem_of_cons, elem_of_nil in Hc.
        destruct Hc as [->|[->|[]]]; apply leaf_path_inv in Hp; cbn in Hp; [auto|].
        apply leaf_path_inv in Hp. cbn in Hp. auto.
  - apply (bool_decide_unpack _). vm_compute. exact I.
  - repeat constructor; cbn; done.
  - apply (bool_decide_unpack _). vm_compute. exact I.
Qed.

Lemma partial_less : less_evidence (rules policy) partial clean.
Proof.
  intros rule p op Hr Hp. cbn in Hr. rewrite !elem_of_cons, elem_of_nil in Hr.
  destruct Hr as [->|[->|[]]]; cbn in Hp; inversion Hp as [| |? ? Hc Hp'|]; subst; [by left|].
  rewrite !elem_of_cons, elem_of_nil in Hc. destruct Hc as [->|[->|[]]]; inversion Hp'; subst.
  - by left.
  - match goal with H : leaf_op _ _ (leaf _ _ _) |- _ => inversion H; subst end. right. done.
Qed.

End EngineExample.

(** C4. Missing or unusable evidence never lowers the outcome: if one evidence
    mapping carries no more than another (each path a rule compares reads the
    same, or reads something no comparison can use, in which case the path is
    not tested by [exists] or [missing]), then its score is at least as high and
    its tier at least as severe. *)
Theorem missing_evidence_never_lowers `{FloatRepr} policy evidence evidence' res res' :
  policy_ok policy →
  less_evidence (rules policy) evidence evidence' →
  evaluate policy evidence = Ok res → evaluate policy evidence' = Ok res' →
  res_score res' ≤ res_score res ∧ rank (res_tier res') ≤ rank (res_tier res).
Proof.
  intros Hok Hle He He'.
  pose proof (evaluated_of _ _ _ Hok He) as Hev. pose proof (evaluated_of _ _ _ Hok He') as Hev'.
  assert (Hsc : res_score res' ≤ res_score res).
  { rewrite (score_spec _ _ _ Hok Hev), (score_spec _ _ _ Hok Hev').
    apply Z.min_le_compat_l, sumZ_le, Forall2_fmap, Forall_Forall2_diag.
    apply Forall_forall. intros r Hr.
    pose proof (rule_score_nonneg _ _ Hok Hr).
    destruct (fires evidence' r) eqn:E; [|destruct (fires evidence r); lia].
    rewrite (fires_mono _ _ _ _ Hle Hr E). lia. }
  split; [done|].
  pose proof (ev_tier _ _ _ Hev) as Ht. pose proof (ev_tier _ _ _ Hev') as Ht'.
  assert (Hk : rank (fst (apply_thresholds (res_score res) (score_thresholds policy)
                            (rules_tier (res_reasons res), FromRules))) ≤ rank (res_tier res))
    by (rewrite <- Ht; cbn; lia).
  change (res_tier res') with (fst (res_tier res', res_tier_source res')). rewrite Ht'.
  apply apply_thresholds_le in Hk as [Hrules Hth]. apply apply_thresholds_le. cbn in *.
  split; [|intros t m Hin Hm; apply (Hth t m Hin); lia].
  rewrite rules_tier_rank in *. apply max_rank_le in Hrules as [H0 Hr]. apply max_rank_le.
  split; [done|]. intros r' Hr'. apply (reasons_spec _ _ _ _ Hok Hev') in Hr' as (rule & Hin & Hf & ur & -> & _).
  pose proof (fires_mono _ _ _ _ Hle Hin Hf) as Hf1.
  destruct (fire_spec (rules policy) evidence rule (ok_conditions _ Hok) Hin) as (ur' & _ & Hur').
  apply (Hr (reason_of evidence rule ur')). apply (reasons_spec _ _ _ _ Hok Hev).
  exists rule. split; [done|]. split; [done|]. by exists ur'.
Qed.

Lemma missing_evidence_never_lowers_witness :
  ∃ res res', evaluate (H := EngineExample.repr0) EngineExample.policy EngineExample.partial = Ok res ∧
    evaluate (H := EngineExample.repr0) EngineExample.policy EngineExample.clean = Ok res' ∧
    res_tier res = BLOCKED ∧ res_tier res' = LOW ∧
    (res_score res' ≤ res_score res ∧ rank (res_tier res') ≤ rank (res_tier res)).
Proof.
  eexists _, _. split; [vm_compute; reflexivity|]. split; [vm_compute; reflexivity|].
  split; [reflexivity|]. split; [reflexivity|].
  eapply (missing_evidence_never_lowers (H := EngineExample.repr0) EngineExample.policy
            EngineExample.partial EngineExample.clean).
  - apply EngineExample.policy_is_ok.
  - apply EngineExample.partial_less.
  - vm_compute; reflexivity.
  - vm_compute; reflexivity.
Defined.

(** The reasons of a result are exactly those of the rules whose condition
    is not false in the Kleene reading of the evidence: a rule that fires on
    unknown evidence is flagged [indeterminate], and its [unresolved_paths] are
    the sorted paths of the leaves that could not be decided, all of them. *)
Theorem reasons_exact `{FloatRepr} policy evidence res :
  policy_ok policy → evaluate policy evidence = Ok res →
  ∀ r, r ∈ res_reasons res ↔
    ∃ rule, rule ∈ rules policy ∧
      denote (reads evidence) (when rule) ≠ Some false ∧
      pr_rule_id r = rule_id rule ∧ pr_tier r = tier (effect rule) ∧
      pr_score r = score (effect rule) ∧ pr_reason r = reason (effect rule) ∧
      (indeterminate r = true ↔ denote (reads evidence) (when rule) = None) ∧
      StronglySorted String.leb (unresolved_paths r) ∧ NoDup (unresolved_paths r) ∧
      (∀ p, p ∈ unresolved_paths r ↔ unresolved_leaf (reads evidence) p (when rule)).
Proof.
  intros Hok He r. rewrite (reasons_spec _ _ _ r Hok (evaluated_of _ _ _ Hok He)). split.
  - intros (rule & Hin & Hf & ur & -> & Hs & Hnd & Hp). exists rule. cbn.
    apply bool_decide_eq_true in Hf. rewrite bool_decide_eq_true. auto 12.
  - intros (rule & Hin & Hf & H1 & H2 & H3 & H4 & H5 & Hs & Hnd & Hp). exists rule.
    split; [done|]. split; [by apply bool_decide_eq_true|]. exists (unresolved_paths r).
    split; [|done]. destruct r as [i t s m ind ur]; cbn in *. unfold reason_of. f_equal; try done.
    apply Bool.eq_iff_eq_true. by rewrite H5, bool_decide_eq_true.
Qed.

Lemma reasons_exact_witness :
  ∃ res, evaluate (H := EngineExample.repr0) EngineExample.policy EngineExample.partial = Ok res ∧
    ∃ r, r ∈ res_reasons res ∧ indeterminate r = true ∧ unresolved_paths r = ["kyc.passed"] ∧
    ∃ rule, rule ∈ rules EngineExample.policy ∧
            denote (reads EngineExample.partial) (when rule) ≠ Some false.
Proof.
  eexists. split; [vm_compute; reflexivity|]. eexists. split; [left|].
  split; [reflexivity|]. split; [reflexivity|].
  edestruct (reasons_exact (H := EngineExample.repr0) EngineExample.policy EngineExample.partial)
    as [Hr _]; [exact EngineExample.policy_is_ok|vm_compute; reflexivity|].
  destruct Hr as (rule & Hin & Hd & _); [left|]. exact (ex_intro _ rule (conj Hin Hd)).
Defined.

(** The reasons are ordered by tier, most severe first, and by position in the
    policy file within a tier: the positions [ks] of the fired rules list each
    rule at most once and, paired with their tiers, strictly increase in that
    order. *)
Theorem reasons_ordered `{FloatRepr} policy evidence res :
  policy_ok policy → evaluate policy evidence = Ok res →
  ∃ ks : list nat,
    StronglySorted reason_before (zip ks (pr_tier <$> res_reasons res)) ∧ NoDup ks ∧
    Forall2 (λ k r, ∃ rule, rules policy !! k = Some rule ∧ rule_id rule = pr_rule_id r) ks
            (res_reasons res) ∧
    res_fired_rules res = pr_rule_id <$> res_reasons res.
Proof.
  intros Hok He. pose proof (evaluated_of _ _ _ Hok He) as Hev.
  destruct (ev_fired _ _ _ Hev) as (fired & Hf & Hr). rewrite (ev_rules _ _ _ Hev), Hr.
  destruct (fire_all_spec (rules policy) evidence (rules policy) 0 (ok_conditions _ Hok))
    as (fired' & Hf' & Hin & Hs); [done|]. rewrite Hf in Hf'. inv_ok.
  assert (Hnd : NoDup (fired'.*1)) by by apply strict_sorted_NoDup.
  exists (sort_by fired_leb fired').*1. split; [|split; [|split; [|done]]].
  - rewrite zip_fst_fmap. apply fired_sorted_strict. by rewrite sort_by_Permutation.
  - by rewrite sort_by_Permutation.
  - apply Forall2_fmap, Forall_Forall2_diag, Forall_forall. intros [k r] Hk.
    rewrite elem_of_sort_by in Hk. apply Hin in Hk as (j & rule & -> & Hj & ur & _ & -> & _).
    cbn. eauto.
Qed.

Lemma reasons_ordered_witness :
  ∃ res, evaluate (H := EngineExample.repr0) EngineExample.policy
           (VMap [("company", VMap [("age_years", VInt 1)])]) = Ok res ∧
    res_fired_rules res = ["screening_hits"; "young_company"] ∧
    ∃ ks, StronglySorted reason_before (zip ks (pr_tier <$> res_reasons res)).
Proof.
  eexists. split; [vm_compute; reflexivity|]. split; [reflexivity|].
  edestruct (reasons_ordered (H := EngineExample.repr0) EngineExample.policy
    (VMap [("company", VMap [("age_years", VInt 1)])])) as (ks & Hs & _);
    [exact EngineExample.policy_is_ok|vm_compute; reflexivity|].
  exists ks. exact Hs.
Defined.

(** The tier of a result is the least upper bound of [low], the tiers of the
    fired rules and the tiers whose threshold the score reaches; the source says
    [rules] exactly when no threshold raised it. *)
Theorem tier_is_least_upper_bound `{FloatRepr} policy evidence res :
  policy_ok policy → evaluate policy evidence = Ok res →
  (∀ k, rank (res_tier res) ≤ k ↔
     0 ≤ k ∧ (∀ r, r ∈ res_reasons res → rank (pr_tier r) ≤ k) ∧
     (∀ t m, (t, m) ∈ score_thresholds policy → m ≤ res_score res → rank t ≤ k)) ∧
  (res_tier_source res = FromRules ↔
     ∀ t m, (t, m) ∈ score_thresholds policy → m ≤ res_score res →
            rank t ≤ max_rank 0 (res_reasons res)).
Proof.
  intros Hok He. pose proof (ev_tier _ _ _ (evaluated_of _ _ _ Hok He)) as Ht.
  assert (Hle : ∀ k, rank (res_tier res) ≤ k ↔ max_rank 0 (res_reasons res) ≤ k ∧
     (∀ t m, (t, m) ∈ score_thresholds policy → m ≤ res_score res → rank t ≤ k)).
  { intros k. change (res_tier res) with (fst (res_tier res, res_tier_source res)).
    rewrite Ht, apply_thresholds_le. cbn. by rewrite rules_tier_rank. }
  split; [intros k; rewrite Hle, max_rank_le; naive_solver|].
  pose proof (apply_thresholds_source (res_score res) (score_thresholds policy)
                (rules_tier (res_reasons res))) as Hs.
  rewrite <- Ht, rules_tier_rank in Hs. split.
  - intros Hsrc. rewrite Hsrc in Hs. destruct Hs as [[_ Heq]|[? _]]; [|done].
    apply (Hle (max_rank 0 (res_reasons res))). rewrite Heq, rules_tier_rank. lia.
  - intros Hk. destruct Hs as [[? _]|(_ & Hlt & m & Hin & Hm)]; [done|].
    specialize (Hk _ _ Hin Hm). lia.
Qed.

Lemma tier_is_least_upper_bound_witness :
  ∃ res, evaluate (H := EngineExample.repr0) EngineExample.policy EngineExample.clean = Ok res ∧
    res_tier res = LOW ∧
    (res_tier_source res = FromRules ↔
      ∀ t m, (t, m) ∈ score_thresholds EngineExample.policy → m ≤ res_score res →
             rank t ≤ max_rank 0 (res_reasons res)).
Proof.
  eexists. split; [vm_compute; reflexivity|]. split; [reflexivity|].
  eapply (tier_is_least_upper_bound (H := EngineExample.repr0) EngineExample.policy EngineExample.clean).
  - apply EngineExample.policy_is_ok.
  - vm_compute; reflexivity.
Defined.

(** The score is the sum of the scores of the rules that fire, capped at 100,
    and so lies between 0 and 100. *)
Theorem score_is_capped_sum `{FloatRepr} policy evidence res :
  policy_ok policy → evaluate policy evidence = Ok res →
  res_score res = Z.min MAX_SCORE
    (sumZ ((λ r, if bool_decide (denote (reads evidence) (when r) ≠ Some false)
                 then score (effect r) else 0) <$> rules policy)) ∧
  0 ≤ res_score res ≤ MAX_SCORE.
Proof.
  intros Hok He. pose proof (score_spec _ _ _ Hok (evaluated_of _ _ _ Hok He)) as Hs.
  split; [exact Hs|]. rewrite Hs. unfold MAX_SCORE. split; [|lia].
  apply Z.min_glb; [lia|]. apply sumZ_nonneg, Forall_fmap, Forall_forall. intros r Hr.
  pose proof (rule_score_nonneg _ _ Hok Hr). cbn. destruct (fires evidence r); lia.
Qed.

Lemma score_is_capped_sum_witness :
  ∃ res, evaluate (H := EngineExample.repr0) EngineExample.policy (VMap []) = Ok res ∧
    res_score res = 100 ∧ 0 ≤ res_score res ≤ MAX_SCORE.
Proof.
  eexists. split; [vm_compute; reflexivity|]. split; [reflexivity|].
  eapply (score_is_capped_sum (H := EngineExample.repr0) EngineExample.policy (VMap [])).
  - apply EngineExample.policy_is_ok.
  - vm_compute; reflexivity.
Defined.

(** The result does not depend on the order of mapping entries at any depth of
    the evidence: evidence that agrees on every lookup evaluates to the same
    result, input hash included. *)
Theorem evaluate_order_independent `{FloatRepr} policy evidence evidence' :
  ev_equiv evidence evidence' → evaluate policy evidence = evaluate policy evidence'.
Proof. intros Heq. by rewrite Heq. Qed.

Lemma evaluate_order_independent_witness :
  evaluate (H := EngineExample.repr0) EngineExample.policy
    (VMap [("kyc", VMap [("passed", VBool true)]); ("company", VNone)]) =
  evaluate (H := EngineExample.repr0) EngineExample.policy
    (VMap [("company", VNone); ("kyc", VMap [("passed", VBool true)])]).
Proof.
  apply (evaluate_order_independent (H := EngineExample.repr0)). constructor. intros k. cbn.
  destruct (String.eqb_spec k "kyc") as [->|]; [repeat constructor|].
  destruct (String.eqb k "company"); repeat constructor.
Defined.
