(* ===== verification/PolicyLoader.v ===== *)
(** The strict policy loader (src/core/policy/loader.py): validation helpers,
    compilation of conditions, rules, thresholds and policies, and the load entry
    points.  A refused policy is an [Err] with the reason, source and location of
    the [PolicyLoadError].

    The YAML library, UTF-8 decoding and the file system are parameters: the
    classes [PolicyFileFormat] and [file_entry] below.  Logging and metrics are
    left out. *)

From Stdlib Require Import Ascii.
From S2P Require Import Prelude PyVal Digest PolicyTypes PolicyEngine.

Local Open Scope Z_scope.

(** * Limits and key sets *)

Definition MAX_POLICY_BYTES : Z := 256 * 1024.
Definition MAX_RULES : Z := 500.
Definition MAX_CONDITION_DEPTH : Z := 12.
Definition MAX_COMBINATOR_ITEMS : Z := 50.
Definition MAX_LIST_OPERAND_ITEMS : Z := 200.
Definition MAX_PATH_DEPTH : Z := 8.
Definition MAX_PATH_CHARS : Z := 200.
Definition MAX_STRING_OPERAND_CHARS : Z := 200.
Definition MAX_REASON_CHARS : Z := 500.
Definition MAX_TEXT_CHARS : Z := 2000.
Definition POLICY_SUFFIXES : list string := [".yaml"; ".yml"].

Definition _POLICY_KEYS : list string :=
  ["policy"; "version"; "status"; "reviewed_by"; "description"; "score_thresholds"; "rules"].
Definition _RULE_KEYS : list string := ["id"; "description"; "when"; "effect"].
Definition _EFFECT_KEYS : list string := ["tier"; "reason"; "score"].

Definition len (s : string) : Z := Z.of_nat (String.length s).
Definition llen {A} (l : list A) : Z := Z.of_nat (length l).
Definition mem (s : string) (l : list string) : bool := existsb (String.eqb s) l.

(** * Regular expressions *)

Definition is_snake (c : ascii) : bool := is_lower_az c || is_digit c || is_underscore c.

(** [[a-z][a-z0-9_]*] *)
Definition segment_re (l : list ascii) : bool :=
  match l with
  | c :: r => is_lower_az c && forallb is_snake r
  | [] => false
  end.

(** [_ID_RE]: [^[a-z][a-z0-9_]{0,63}$] *)
Definition _ID_RE (s : string) : bool :=
  let l := drop_final_newline (chars s) in
  segment_re l && (llen l <=? 64).

(** [_PATH_RE]: segments separated by single dots. *)
Definition _PATH_RE (s : string) : bool :=
  forallb segment_re (split_chars dot [] (drop_final_newline (chars s))).

(** [0|[1-9]\d*] *)
Definition numeric_re (l : list ascii) : bool :=
  match l with
  | [] => false
  | c :: r => if in_range c 48 48 then bool_decide (r = [])
              else is_digit c && forallb is_digit r
  end.

Definition is_ident_char (c : ascii) : bool :=
  is_lower_az c || is_upper_az c || is_digit c || in_range c 45 45.

(** [0|[1-9]\d*|\d*[a-zA-Z-][0-9a-zA-Z-]*] *)
Definition prerelease_ident (l : list ascii) : bool :=
  numeric_re l || (forallb is_ident_char l && existsb (λ c, negb (is_digit c)) l).

(** [[0-9a-zA-Z-]+] *)
Definition build_ident (l : list ascii) : bool :=
  negb (bool_decide (l = [])) && forallb is_ident_char l.

(** The text before and after the first [sep], if there is one. *)
Fixpoint cut (sep : ascii) (l : list ascii) : list ascii * option (list ascii) :=
  match l with
  | [] => ([], None)
  | c :: r => if Ascii.eqb c sep then ([], Some r)
              else let '(a, b) := cut sep r in (c :: a, b)
  end.

(** [_SEMVER_RE]: a core of three numbers, an optional pre-release after the first
    [-] and optional build metadata after the first [+]. *)
Definition _SEMVER_RE (s : string) : bool :=
  let '(rest, build) := cut "+"%char (drop_final_newline (chars s)) in
  let '(core, pre) := cut "-"%char rest in
  (match split_chars dot [] core with
   | [a; b; c] => numeric_re a && numeric_re b && numeric_re c
   | _ => false
   end) &&
  match pre with None => true | Some p => forallb prerelease_ident (split_chars dot [] p) end &&
  match build with None => true | Some b => forallb build_ident (split_chars dot [] b) end.

(** [_CONTROL_RE]: [[\x00-\x08\x0b-\x1f\x7f]] *)
Definition is_control (c : ascii) : bool :=
  in_range c 0 8 || in_range c 11 31 || in_range c 127 127.
Definition _CONTROL_RE (s : string) : bool := existsb is_control (chars s).

Definition _NUMERIC_OPERATORS (op : Operator) : bool :=
  match op with GT | GTE | LT | LTE => true | _ => false end.
Definition _LIST_OPERATORS (op : Operator) : bool :=
  match op with IN | NOT_IN => true | _ => false end.
Definition _PRESENCE_OPERATORS (op : Operator) : bool :=
  match op with EXISTS | MISSING => true | _ => false end.

(** * YAML mapping keys *)

(** A key of a YAML mapping node: its tag and the object constructed from it. *)
Record key_node := mkKeyNode { key_tag : string; key_object : pyval }.

(** The loop of [_StrictLoader.construct_mapping] over the keys of one mapping. *)
Fixpoint construct_mapping (nodes : list key_node) (seen : gset string)
    : result PolicyLoadReason (gset string) :=
  match nodes with
  | [] => Ok seen
  | node :: nodes' =>
      if String.eqb (key_tag node) "tag:yaml.org,2002:merge" then Err YAML_ALIAS
      else match key_object node with
           | VStr key => if bool_decide (key ∈ seen) then Err DUPLICATE_KEY
                         else construct_mapping nodes' ({[key]} ∪ seen)
           | _ => Err INVALID_VALUE
           end
  end.

(** * Validation helpers *)

(** [_Context.fail] *)
Definition fail {A} (src : string) (why : PolicyLoadReason) (location : string)
    : result PolicyLoadError A :=
  Err (mkPolicyLoadError why src location).

(** [if b: ctx.fail(reason, ..., location)] *)
Definition fail_if (b : bool) (src : string) (why : PolicyLoadReason) (location : string)
    : result PolicyLoadError unit :=
  if b then fail src why location else Ok tt.

Definition _text (src : string) (value : pyval) (location : string) (max_chars : Z)
    : result PolicyLoadError string :=
  match value with
  | VStr s =>
      _ ← fail_if (blank s) src INVALID_VALUE location;
      _ ← fail_if (max_chars <? len s) src LIMIT_EXCEEDED location;
      _ ← fail_if (_CONTROL_RE s) src INVALID_VALUE location;
      Ok s
  | _ => fail src INVALID_VALUE location
  end.

Definition _identifier (src : string) (value : pyval) (location : string)
    : result PolicyLoadError string :=
  match value with
  | VStr s => if _ID_RE s then Ok s else fail src INVALID_VALUE location
  | _ => fail src INVALID_VALUE location
  end.

Definition _check_keys (src : string) (mapping : list (string * pyval)) (allowed : list string)
    (location : string) : result PolicyLoadError unit :=
  fail_if (existsb (λ kv, negb (mem (fst kv) allowed)) mapping) src UNKNOWN_KEY location.

Definition _require (src : string) (mapping : list (string * pyval)) (key location : string)
    : result PolicyLoadError pyval :=
  match get mapping key with
  | Some v => Ok v
  | None => fail src MISSING_FIELD location
  end.

Definition _PLACEHOLDER_REVIEWERS : list string :=
  ["anonymous"; "changeme"; "example"; "fixme"; "na"; "nobody"; "none"; "notreviewed"; "null";
   "pending"; "placeholder"; "reviewer"; "someone"; "tba"; "tbc"; "tbd"; "test"; "todo";
   "unknown"; "unreviewed"; "xxx"; "yourname"].

Definition _is_placeholder_reviewer (value : string) : bool :=
  let folded := List.filter is_alnum (casefold value) in
  let letters := llen (List.filter is_alpha folded) in
  (letters <? 2) || mem (of_chars folded) _PLACEHOLDER_REVIEWERS ||
  (llen (remove_dups folded) =? 1).

(** The loader's own copy of the engine's [_kind]. *)
Definition _kind (value : pyval) : option kind :=
  match value with
  | VBool _ => Some KBool
  | VInt z => if (- MAX_SAFE_INTEGER <=? z) && (z <=? MAX_SAFE_INTEGER) then Some KNumber else None
  | VFloat (FFin _ _) => Some KNumber
  | VFloat _ => None
  | VStr _ => Some KString
  | _ => None
  end.

Definition _scalar_operand (src : string) (value : pyval) (location : string)
    : result PolicyLoadError pyval :=
  match _kind value with
  | None => fail src INVALID_OPERAND location
  | Some _ =>
      _ ← fail_if (match value with VStr s => MAX_STRING_OPERAND_CHARS <? len s | _ => false end)
                  src LIMIT_EXCEEDED location;
      Ok value
  end.

(** * Conditions *)

Definition index_location (location : string) (index : nat) : string :=
  location +:+ "[" +:+ pretty index +:+ "]".

(** The operand of an operator. *)
Definition _compile_operand (src : string) (op : Operator) (opd : pyval) (op_location : string)
    : result PolicyLoadError operand :=
  if _PRESENCE_OPERATORS op then
    match opd with
    | VBool true => Ok (OScalar (VBool true))
    | _ => fail src INVALID_OPERAND op_location
    end
  else if _NUMERIC_OPERATORS op then
    _ ← fail_if (negb (bool_decide (_kind opd = Some KNumber))) src INVALID_OPERAND op_location;
    Ok (OScalar opd)
  else if _LIST_OPERATORS op then
    match opd with
    | VList ((item :: items) as all) =>
        _ ← fail_if (MAX_LIST_OPERAND_ITEMS <? llen all) src LIMIT_EXCEEDED op_location;
        compiled ← map_res (λ index it, _scalar_operand src it (index_location op_location index)) 0 all;
        _ ← fail_if (negb (forallb (λ it, bool_decide (_kind it = _kind item)) items))
                    src INVALID_OPERAND op_location;
        Ok (OTuple compiled)
    | _ => fail src INVALID_OPERAND op_location
    end
  else
    v ← _scalar_operand src opd op_location;
    Ok (OScalar v).

Definition _compile_compare (src path : string) (spec : pyval) (location : string)
    : result PolicyLoadError Condition :=
  _ ← fail_if ((MAX_PATH_CHARS <? len path) || negb (_PATH_RE path)) src INVALID_PATH location;
  let segments := split dot path in
  _ ← fail_if (MAX_PATH_DEPTH <? llen segments) src INVALID_PATH location;
  match spec with
  | VMap [(op_name, opd)] =>
      let op_location := location +:+ "." +:+ path +:+ "." +:+ op_name in
      match Operator_of op_name with
      | None => fail src UNKNOWN_OPERATOR op_location
      | Some op =>
          compiled ← _compile_operand src op opd op_location;
          Ok (Compare path segments op compiled)
      end
  | _ => fail src INVALID_CONDITION location
  end.

Fixpoint _compile_condition (src : string) (node : pyval) (location : string) (depth : Z)
    : result PolicyLoadError Condition :=
  if MAX_CONDITION_DEPTH <? depth then fail src LIMIT_EXCEEDED location else
  match node with
  | VMap [(key, value)] =>
      if String.eqb key "all" || String.eqb key "any" then
        match value with
        | VList ((_ :: _) as all) =>
            _ ← fail_if (MAX_COMBINATOR_ITEMS <? llen all) src LIMIT_EXCEEDED location;
            items ← (fix go index l :=
              match l with
              | [] => Ok []
              | item :: l' =>
                  c ← _compile_condition src item
                        (index_location (location +:+ "." +:+ key) index) (depth + 1);
                  cs ← go (S index) l';
                  Ok (c :: cs)
              end) 0%nat all;
            Ok (if String.eqb key "all" then AllOf items else AnyOf items)
        | _ => fail src INVALID_CONDITION location
        end
      else if String.eqb key "not" then
        c ← _compile_condition src value (location +:+ ".not") (depth + 1);
        Ok (Not c)
      else _compile_compare src key value location
  | _ => fail src INVALID_CONDITION location
  end.

(** * Rules *)

(** [isinstance(v, int) and not isinstance(v, bool) and lo <= v <= hi] *)
Definition whole_number (lo hi : Z) (v : pyval) : option Z :=
  match v with
  | VInt z => if (lo <=? z) && (z <=? hi) then Some z else None
  | _ => None
  end.

Definition optional_text (src : string) (mapping : list (string * pyval)) (key location : string)
    (max_chars : Z) : result PolicyLoadError (option string) :=
  match get mapping key with
  | None => Ok None
  | Some v => s ← _text src v location max_chars; Ok (Some s)
  end.

(** The effect of a rule. *)
Definition _compile_effect (src : string) (effect_raw : pyval) (effect_location : string)
    : result PolicyLoadError Effect :=
  match effect_raw with
  | VMap em =>
      _ ← _check_keys src em _EFFECT_KEYS effect_location;
      tier_raw ← _require src em "tier" effect_location;
      match Tier_of tier_raw with
      | None => fail src INVALID_VALUE (effect_location +:+ ".tier")
      | Some t =>
          reason_raw ← _require src em "reason" effect_location;
          why ← _text src reason_raw (effect_location +:+ ".reason") MAX_REASON_CHARS;
          sc ← match get em "score" with
               | None => Ok (DEFAULT_TIER_SCORE t)
               | Some v => match whole_number 0 MAX_SCORE v with
                           | Some z => Ok z
                           | None => fail src INVALID_VALUE (effect_location +:+ ".score")
                           end
               end;
          Ok (mkEffect t why sc)
      end
  | _ => fail src INVALID_VALUE effect_location
  end.

Definition _compile_rule (src : string) (raw : pyval) (location : string)
    : result PolicyLoadError Rule :=
  match raw with
  | VMap m =>
      _ ← _check_keys src m _RULE_KEYS location;
      id_raw ← _require src m "id" location;
      rid ← _identifier src id_raw (location +:+ ".id");
      desc ← optional_text src m "description" (location +:+ ".description") MAX_TEXT_CHARS;
      when_raw ← _require src m "when" location;
      cond ← _compile_condition src when_raw (location +:+ ".when") 1;
      effect_raw ← _require src m "effect" location;
      eff ← _compile_effect src effect_raw (location +:+ ".effect");
      Ok (mkRule rid cond eff desc)
  | _ => fail src INVALID_VALUE location
  end.

(** * Thresholds *)

Definition threshold_pair (src : string) (kv : string * pyval) : result PolicyLoadError (Tier * Z) :=
  let location := "score_thresholds" in
  match Tier_of (VStr (fst kv)) with
  | None => fail src UNKNOWN_KEY location
  | Some LOW => fail src INVALID_VALUE (location +:+ "." +:+ fst kv)
  | Some t => match whole_number 1 MAX_SCORE (snd kv) with
              | Some z => Ok (t, z)
              | None => fail src INVALID_VALUE (location +:+ "." +:+ fst kv)
              end
  end.

Definition pair_rank_leb (a b : Tier * Z) : bool := rank (fst a) <=? rank (fst b).

(** [zip(pairs, pairs[1:])]: some higher threshold is not above the lower one. *)
Fixpoint not_increasing (pairs : list (Tier * Z)) : bool :=
  match pairs with
  | a :: ((b :: _) as rest) => (snd b <=? snd a) || not_increasing rest
  | _ => false
  end.

Definition _compile_thresholds (src : string) (raw : option pyval)
    : result PolicyLoadError (list (Tier * Z)) :=
  let location := "score_thresholds" in
  match raw with
  | None => Ok []
  | Some (VMap ((_ :: _) as m)) =>
      pairs ← map_res (λ _ kv, threshold_pair src kv) 0 m;
      let sorted := sort_by pair_rank_leb pairs in
      _ ← fail_if (not_increasing sorted) src INVALID_VALUE location;
      Ok sorted
  | Some _ => fail src INVALID_VALUE location
  end.

(** * Policies *)

(** The rule loop: [compiled] and [seen] as in the code. *)
Fixpoint _compile_rules (src : string) (index : nat) (raws : list pyval) (seen : gset string)
    : result PolicyLoadError (list Rule) :=
  match raws with
  | [] => Ok []
  | raw :: raws' =>
      let location := index_location "rules" index in
      rule ← _compile_rule src raw location;
      _ ← fail_if (bool_decide (rule_id rule ∈ seen)) src DUPLICATE_RULE_ID (location +:+ ".id");
      rest ← _compile_rules src (S index) raws' ({[rule_id rule]} ∪ seen);
      Ok (rule :: rest)
  end.

Definition _compile_status (src : string) (status_raw : option pyval)
    : result PolicyLoadError PolicyStatus :=
  match status_raw with
  | None => Ok EXAMPLE
  | Some v => match PolicyStatus_of v with
              | Some s => Ok s
              | None => fail src INVALID_VALUE "status"
              end
  end.

Definition _compile_reviewer (src : string) (document : list (string * pyval)) (st : PolicyStatus)
    : result PolicyLoadError (option string) :=
  match get document "reviewed_by" with
  | Some v =>
      who ← _text src v "reviewed_by" MAX_STRING_OPERAND_CHARS;
      _ ← fail_if (_is_placeholder_reviewer who) src
            (match st with PRODUCTION => PRODUCTION_UNREVIEWED | EXAMPLE => INVALID_VALUE end)
            "reviewed_by";
      Ok (Some who)
  | None =>
      _ ← fail_if (bool_decide (st = PRODUCTION)) src PRODUCTION_UNREVIEWED "reviewed_by";
      Ok None
  end.

Definition policy_paths (rs : list Rule) : gset string :=
  foldl (λ acc r, _collect_paths (when r) acc) ∅ rs.

Definition _compile_policy (src : string) (document : pyval) (hash : string)
    : result PolicyLoadError Policy :=
  match document with
  | VMap d =>
      _ ← _check_keys src d _POLICY_KEYS EmptyString;
      id_raw ← _require src d "policy" EmptyString;
      pid ← _identifier src id_raw "policy";
      version_raw ← _require src d "version" EmptyString;
      ver ← match version_raw with
            | VStr v => if _SEMVER_RE v then Ok v else fail src INVALID_VERSION "version"
            | _ => fail src INVALID_VERSION "version"
            end;
      st ← _compile_status src (get d "status");
      reviewer ← _compile_reviewer src d st;
      desc ← optional_text src d "description" "description" MAX_TEXT_CHARS;
      thresholds ← _compile_thresholds src (get d "score_thresholds");
      rules_raw ← _require src d "rules" EmptyString;
      match rules_raw with
      | VList ((_ :: _) as raws) =>
          _ ← fail_if (MAX_RULES <? llen raws) src LIMIT_EXCEEDED "rules";
          rs ← _compile_rules src 0 raws ∅;
          Ok (mkPolicy pid ver st reviewer desc rs thresholds hash src
                       (sorted_strings (policy_paths rs)))
      | _ => fail src INVALID_VALUE "rules"
      end
  | _ => fail src INVALID_VALUE EmptyString
  end.

(** * Loading *)

(** How [_StrictLoader(text).get_single_data()] can end. *)
Inductive yaml_outcome :=
| YamlDocument (v : pyval)
| YamlRejected (why : PolicyLoadReason)
| YamlError
| YamlRecursionError
| YamlValueError.

(** UTF-8 decoding and the YAML library, as the loader calls them. *)
Class PolicyFileFormat := {
  utf8_decode : string → option string;
  get_single_data : string → yaml_outcome
}.

Definition _load `{PolicyFileFormat} (data src : string) (require_production : bool)
    : result PolicyLoadError Policy :=
  _ ← fail_if (MAX_POLICY_BYTES <? len data) src TOO_LARGE EmptyString;
  match utf8_decode data with
  | None => fail src ENCODING_INVALID EmptyString
  | Some text =>
      match get_single_data text with
      | YamlRejected why => fail src why EmptyString
      | YamlError | YamlValueError => fail src YAML_INVALID EmptyString
      | YamlRecursionError => fail src LIMIT_EXCEEDED EmptyString
      | YamlDocument document =>
          policy ← _compile_policy src document ("sha256:" +:+ sha256_hexdigest data);
          _ ← fail_if (require_production && negb (bool_decide (status policy = PRODUCTION)))
                      src NOT_PRODUCTION "status";
          Ok policy
      end
  end.

(** [load_policy_bytes] adds metrics and log lines to [_load]. *)
Definition load_policy_bytes `{PolicyFileFormat} (data src : string) (require_production : bool)
    : result PolicyLoadError Policy := _load data src require_production.

(** A directory entry: its path, suffix, whether it is a file, and its bytes or
    [None] when reading it raises [OSError]. *)
Record file_entry := mkFile {
  fe_path : string; fe_suffix : string; fe_is_file : bool; fe_bytes : option string
}.

(** [handle.read(n)]: at most [n] bytes. *)
Definition take_bytes (n : Z) (s : string) : string :=
  if len s <=? n then s else of_chars (take (Z.to_nat n) (chars s)).

Definition load_policy `{PolicyFileFormat} (file : file_entry) (require_production : bool)
    : result PolicyLoadError Policy :=
  match fe_bytes file with
  | None => fail (fe_path file) FILE_UNREADABLE EmptyString
  | Some content =>
      load_policy_bytes (take_bytes (MAX_POLICY_BYTES + 1) content) (fe_path file) require_production
  end.

Definition policy_files (entries : list file_entry) : list file_entry :=
  sort_by (λ a b, String.leb (fe_path a) (fe_path b))
    (List.filter (λ f, fe_is_file f && mem (lower (fe_suffix f)) POLICY_SUFFIXES) entries).

Definition add_policy `{PolicyFileFormat} (require_production : bool)
    (policies : gmap string Policy) (file : file_entry) : result PolicyLoadError (gmap string Policy) :=
  policy ← load_policy file require_production;
  match policies !! policy_id policy with
  | Some _ => fail (fe_path file) DUPLICATE_POLICY EmptyString
  | None => Ok (<[policy_id policy := policy]> policies)
  end.

(** [directory]: its path and its entries, [None] when it is not a directory. *)
Definition load_policies `{PolicyFileFormat} (directory : string) (entries : option (list file_entry))
    (require_production : bool) : result PolicyLoadError (gmap string Policy) :=
  match entries with
  | None => fail directory DIRECTORY_INVALID EmptyString
  | Some es =>
      match policy_files es with
      | [] => fail directory DIRECTORY_INVALID EmptyString
      | files => fold_res (add_policy require_production) ∅ files
      end
  end.

(** * Well-formed conditions *)

Definition short_scalar (v : pyval) : Prop :=
  is_Some (_kind v) ∧ ∀ s, v = VStr s → len s ≤ MAX_STRING_OPERAND_CHARS.

(** The operand an operator takes. *)
Definition operand_wf (op : Operator) (opd : operand) : Prop :=
  if _PRESENCE_OPERATORS op then opd = OScalar (VBool true)
  else if _NUMERIC_OPERATORS op then ∃ v, opd = OScalar v ∧ _kind v = Some KNumber
  else if _LIST_OPERATORS op then
    ∃ v vs, opd = OTuple (v :: vs) ∧ llen (v :: vs) ≤ MAX_LIST_OPERAND_ITEMS ∧
            Forall short_scalar (v :: vs) ∧ Forall (λ x, _kind x = _kind v) vs
  else ∃ v, opd = OScalar v ∧ short_scalar v.

Definition is_keyword (p : string) : bool :=
  String.eqb p "all" || String.eqb p "any" || String.eqb p "not".

Inductive cond_wf : Condition → Prop :=
| wf_compare p op opd :
    is_keyword p = false → _PATH_RE p = true → len p ≤ MAX_PATH_CHARS →
    llen (split dot p) ≤ MAX_PATH_DEPTH → operand_wf op opd →
    cond_wf (Compare p (split dot p) op opd)
| wf_all items : items ≠ [] → llen items ≤ MAX_COMBINATOR_ITEMS → Forall cond_wf items →
    cond_wf (AllOf items)
| wf_any items : items ≠ [] → llen items ≤ MAX_COMBINATOR_ITEMS → Forall cond_wf items →
    cond_wf (AnyOf items)
| wf_not c : cond_wf c → cond_wf (Not c).

Lemma cond_wf_inv c :
  cond_wf c →
  match c with
  | Compare p segs op opd =>
      segs = split dot p ∧ is_keyword p = false ∧ _PATH_RE p = true ∧ len p ≤ MAX_PATH_CHARS ∧
      llen (split dot p) ≤ MAX_PATH_DEPTH ∧ operand_wf op opd
  | AllOf items | AnyOf items =>
      items ≠ [] ∧ llen items ≤ MAX_COMBINATOR_ITEMS ∧ Forall cond_wf items
  | Not c' => cond_wf c'
  end.
Proof. destruct 1; auto 10. Qed.

(** Nesting depth, as [_compile_condition] counts it. *)
Fixpoint cond_depth (c : Condition) : Z :=
  match c with
  | Compare _ _ _ _ => 1
  | Not c' => 1 + cond_depth c'
  | AllOf items | AnyOf items => 1 + foldr (λ c acc, Z.max (cond_depth c) acc) 0 items
  end.

Definition max_depth (items : list Condition) : Z :=
  foldr (λ c acc, Z.max (cond_depth c) acc) 0 items.

Lemma max_depth_le items k : 0 ≤ k → max_depth items ≤ k ↔ Forall (λ c, cond_depth c ≤ k) items.
Proof.
  intros Hk. induction items as [|c items IH]; cbn; [by split|].
  fold (max_depth items). rewrite Z.max_lub_iff, IH. by rewrite Forall_cons.
Qed.

(** The YAML text of a compiled condition. *)
Definition decompile_operand (opd : operand) : pyval :=
  match opd with OScalar v => v | OTuple vs => VList vs end.

Fixpoint decompile (c : Condition) : pyval :=
  match c with
  | Compare p _ op opd => VMap [(p, VMap [(Operator_value op, decompile_operand opd)])]
  | AllOf items => VMap [("all", VList (decompile <$> items))]
  | AnyOf items => VMap [("any", VList (decompile <$> items))]
  | Not c' => VMap [("not", decompile c')]
  end.

(** ** Helper facts *)

Lemma fail_if_Ok b src why loc u : fail_if b src why loc = Ok u ↔ b = false.
Proof. destruct b, u; cbn; naive_solver. Qed.

Lemma fail_not_Ok {A} src why loc (a : A) : fail src why loc = Ok a ↔ False.
Proof. done. Qed.

Ltac inv_load :=
  repeat first
    [ progress inv_ok
    | match goal with
      | H : fail _ _ _ = Ok _ |- _ => discriminate H
      | H : fail_if _ _ _ _ = Ok _ |- _ => apply fail_if_Ok in H
      end ].

Lemma scalar_operand_Ok src v loc w :
  _scalar_operand src v loc = Ok w ↔ w = v ∧ short_scalar v.
Proof.
  unfold _scalar_operand, short_scalar. split.
  - destruct (_kind v) eqn:Hk; intros H; inv_load. split; [done|]. split; [eauto|].
    intros s ->. match goal with H : (_ <? _) = false |- _ => apply Z.ltb_ge in H end. done.
  - intros [-> [[k Hk] Hs]]. rewrite Hk. destruct v; try done. cbn.
    rewrite (proj2 (Z.ltb_ge _ _)) by by apply Hs. done.
Qed.

Lemma map_scalars_Ok src (loc : nat → string) i l ws :
  map_res (λ index it, _scalar_operand src it (loc index)) i l = Ok ws ↔
  ws = l ∧ Forall short_scalar l.
Proof.
  revert i ws. induction l as [|v l IH]; intros i ws; cbn.
  - split; [intros H; inv_ok; by split|by intros [-> _]].
  - split.
    + intros H. inv_ok. match goal with H : map_res _ _ _ = _ |- _ => apply IH in H as [-> ?] end.
      match goal with H : _scalar_operand _ _ _ = _ |- _ => apply scalar_operand_Ok in H as [-> ?] end.
      split; [done|]. by constructor.
    + intros [-> Hl]. inversion_clear Hl as [|? ? Hv Hl'].
      rewrite (proj2 (scalar_operand_Ok src v (loc i) v)) by done. cbn.
      rewrite (proj2 (IH (S i) l)) by done. done.
Qed.

Lemma compile_operand_Ok src op v loc opd :
  _compile_operand src op v loc = Ok opd ↔ v = decompile_operand opd ∧ operand_wf op opd.
Proof.
  unfold _compile_operand, operand_wf.
  destruct (_PRESENCE_OPERATORS op); [|destruct (_NUMERIC_OPERATORS op); [|destruct (_LIST_OPERATORS op)]].
  - split.
    + destruct v as [|[]| | | | | | |]; intros H; inv_load. done.
    + intros [-> ->]. done.
  - split.
    + intros H. inv_load. match goal with H : negb _ = false |- _ => apply negb_false_iff, bool_decide_eq_true in H end.
      eauto.
    + intros [-> (w & -> & Hw)]. cbn. rewrite bool_decide_eq_true_2 by done. done.
  - split.
    + destruct v as [| | | | |[|w ws]| | |]; intros H; inv_load.
      match goal with H : map_res _ _ _ = _ |- _ => apply map_scalars_Ok in H as [-> ?] end.
      match goal with H : (_ <? _) = false |- _ => apply Z.ltb_ge in H end.
      match goal with H : negb _ = false |- _ => apply negb_false_iff in H; rewrite forallb_forall in H end.
      split; [done|]. exists w, ws. split; [done|]. split; [done|]. split; [done|].
      apply Forall_forall. intros y Hy%list_elem_of_In. eapply bool_decide_eq_true. eauto.
    + intros [-> (w & ws & -> & Hlen & Hs & Hk)]. cbn -[map_res llen].
      unfold fail_if. rewrite (proj2 (Z.ltb_ge _ _)) by done. cbn -[map_res].
      rewrite (proj2 (map_scalars_Ok src (index_location loc) 0 (w :: ws) (w :: ws))) by done. cbn.
      rewrite (proj2 (forallb_forall _ ws)); [done|].
      intros x Hx%list_elem_of_In. rewrite Forall_forall in Hk. apply bool_decide_eq_true. by apply Hk.
  - split.
    + intros H. inv_load. match goal with H : _scalar_operand _ _ _ = _ |- _ => apply scalar_operand_Ok in H as [-> ?] end.
      eauto.
    + intros [-> (w & -> & Hw)]. cbn. rewrite (proj2 (scalar_operand_Ok src w loc w)) by done. done.
Qed.

Lemma Operator_of_Some s op : Operator_of s = Some op ↔ s = Operator_value op.
Proof.
  split; [|by intros ->; apply Operator_of_value].
  unfold Operator_of, member_of. intros H. apply find_some in H as [_ H].
  symmetry. by apply String.eqb_eq.
Qed.

Lemma compile_compare_Ok src p spec loc c :
  _compile_compare src p spec loc = Ok c ↔
  _PATH_RE p = true ∧ len p ≤ MAX_PATH_CHARS ∧ llen (split dot p) ≤ MAX_PATH_DEPTH ∧
  ∃ op opd, spec = VMap [(Operator_value op, decompile_operand opd)] ∧ operand_wf op opd ∧
            c = Compare p (split dot p) op opd.
Proof.
  unfold _compile_compare. split.
  - intros H. inv_load.
    match goal with H : (_ || _) = false |- _ => apply orb_false_iff in H as [Hlen Hre] end.
    apply Z.ltb_ge in Hlen. apply negb_false_iff in Hre.
    match goal with H : (_ <? _) = false |- _ => apply Z.ltb_ge in H end.
    destruct spec as [| | | | | |[|[op_name opd] [|]]| |]; try done.
    destruct (Operator_of op_name) as [op|] eqn:Hop; [|done]. inv_load.
    apply Operator_of_Some in Hop as ->.
    match goal with H : _compile_operand _ _ _ _ = _ |- _ => apply compile_operand_Ok in H as [-> ?] end.
    eauto 10.
  - intros (Hre & Hlen & Hd & op & opd & -> & Hwf & ->).
    rewrite (proj2 (Z.ltb_ge _ _) Hlen), Hre. cbn. unfold fail_if.
    rewrite (proj2 (Z.ltb_ge _ _) Hd). cbn. rewrite Operator_of_value.
    rewrite (proj2 (compile_operand_Ok src op (decompile_operand opd) _ opd)) by done. done.
Qed.

(** The item loop of [_compile_condition]. *)
Definition compile_items (src key location : string) (depth : Z) :=
  fix go (index : nat) (l : list pyval) : result PolicyLoadError (list Condition) :=
    match l with
    | [] => Ok []
    | item :: l' =>
        c ← _compile_condition src item (index_location (location +:+ "." +:+ key) index) (depth + 1);
        cs ← go (S index) l';
        Ok (c :: cs)
    end.

(** What compiling one node means, at every location and depth. *)
Definition compiles (node : pyval) : Prop :=
  ∀ src loc depth c, _compile_condition src node loc depth = Ok c ↔
    cond_wf c ∧ depth - 1 + cond_depth c ≤ MAX_CONDITION_DEPTH ∧ node = decompile c.

Lemma compile_items_Ok src key loc depth i l cs :
  Forall compiles l → depth ≤ MAX_CONDITION_DEPTH →
  compile_items src key loc depth i l = Ok cs ↔
  Forall cond_wf cs ∧ depth + max_depth cs ≤ MAX_CONDITION_DEPTH ∧ l = decompile <$> cs.
Proof.
  intros Hl Hd. revert i cs. induction Hl as [|node l Hn _ IH]; intros i cs; cbn.
  - split; [intros H; inv_ok; cbn; auto with lia|]. intros (_ & _ & H).
    by destruct cs.
  - split.
    + intros H. inv_ok.
      match goal with H : compile_items _ _ _ _ _ _ = _ |- _ => apply IH in H as (? & ? & ->) end.
      match goal with H : _compile_condition _ _ _ _ = _ |- _ => apply Hn in H as (? & ? & ->) end.
      split; [by constructor|]. cbn. fold (max_depth x0). split; [lia|done].
    + intros (Hwf & Hdep & Heq). destruct cs as [|c cs]; [done|]. cbn in Heq, Hdep. simplify_eq.
      fold (max_depth cs) in Hdep. apply Forall_cons in Hwf as [Hc Hcs].
      rewrite (proj2 (Hn src _ (depth + 1) c)) by (split; [done|]; split; [lia|done]). cbn.
      rewrite (proj2 (IH (S i) cs)) by (split; [done|]; split; [lia|done]). done.
Qed.

Lemma keyword_cases key :
  (String.eqb key "all" || String.eqb key "any") = true →
  (key = "all" ∨ key = "any").
Proof. rewrite orb_true_iff, !String.eqb_eq. done. Qed.

Lemma max_depth_nonneg items : 0 ≤ max_depth items.
Proof. induction items; cbn -[Z.max]; [done|]. fold (max_depth items). lia. Qed.

Lemma cond_depth_items items : cond_depth (AllOf items) = 1 + max_depth items ∧
                               cond_depth (AnyOf items) = 1 + max_depth items.
Proof. done. Qed.

Lemma cond_depth_pos c : 1 ≤ cond_depth c.
Proof.
  induction c as [| items IH|items IH|c IH] using Condition_induction.
  - done.
  - rewrite (proj1 (cond_depth_items items)). pose proof (max_depth_nonneg items). lia.
  - rewrite (proj2 (cond_depth_items items)). pose proof (max_depth_nonneg items). lia.
  - cbn -[Z.add]. lia.
Qed.

Lemma compile_combinator src (mk : list Condition → Condition) key loc depth l c :
  (∀ items, decompile (mk items) = VMap [(key, VList (decompile <$> items))]) →
  (∀ items, cond_depth (mk items) = 1 + max_depth items) →
  (∀ items, cond_wf (mk items) ↔ items ≠ [] ∧ llen items ≤ MAX_COMBINATOR_ITEMS ∧ Forall cond_wf items) →
  (∀ d, VMap [(key, VList l)] = decompile d → ∃ items, d = mk items) →
  Forall compiles l → l ≠ [] → depth ≤ MAX_CONDITION_DEPTH →
  (_ ← fail_if (MAX_COMBINATOR_ITEMS <? llen l) src LIMIT_EXCEEDED loc;
   items ← compile_items src key loc depth 0 l; Ok (mk items)) = Ok c ↔
  cond_wf c ∧ depth - 1 + cond_depth c ≤ MAX_CONDITION_DEPTH ∧ VMap [(key, VList l)] = decompile c.
Proof.
  intros Hdec Hdep Hwf Hinv Hl Hne Hd. split.
  - intros H. inv_load.
    match goal with H : (_ <? _) = false |- _ => apply Z.ltb_ge in H end.
    match goal with H : compile_items _ _ _ _ _ _ = _ |- _ =>
      apply compile_items_Ok in H as (? & ? & ->); [|done..] end.
    rewrite Hwf, Hdep, Hdec. split; [|split; [lia|done]]. split; [by intros ->|].
    split; [|done]. unfold llen in *. by rewrite length_fmap in *.
  - intros (Hc & Hdc & Heq). destruct (Hinv c Heq) as [items ->].
    rewrite Hdec in Heq. simplify_eq. rewrite Hdep in Hdc. apply Hwf in Hc as (_ & Hlen & Hitems).
    unfold fail_if. rewrite (proj2 (Z.ltb_ge _ _)) by (unfold llen in *; by rewrite length_fmap). cbn.
    rewrite (proj2 (compile_items_Ok src key loc depth 0 _ items Hl Hd)); [done|].
    split; [done|]. split; [lia|done].
Qed.

(** A node compiles to [c] exactly when [c] is well formed, not too deep, and the
    node is the text of [c]. *)
Lemma compile_condition_items node :
  compiles node ∧ ∀ l, node = VList l → Forall compiles l.
Proof.
  induction node as [| | | | |l IH|kvs IH| |] using pyval_induction;
    (split; [|intros l' Hl'; simplify_eq; try (eapply Forall_impl; [exact IH|]; naive_solver)]).
  all: intros src loc depth c; cbn -[decompile Z.add Z.sub].
  all: destruct (Z.ltb_spec MAX_CONDITION_DEPTH depth) as [Hd|Hd].
  all: try (split; [done|]; intros (_ & Hdc & Heq);
            first [ pose proof (cond_depth_pos c); lia | destruct c; discriminate Heq ]).
  destruct kvs as [|[key value] [|kv kvs]].
  1, 3: split; [done|]; intros (_ & _ & Heq); destruct c; discriminate Heq.
  apply Forall_cons in IH as [[IH IHl] _]. cbn in IH, IHl.
  destruct (String.eqb key "all" || String.eqb key "any") eqn:Hkey.
  { assert (Hbad : ∀ v, (∀ l, v ≠ VList l) ∨ v = VList [] → cond_wf c → VMap [(key, v)] ≠ decompile c).
    { intros v Hv Hwf Heq. destruct c as [p segs op opd|items|items|c']; cbn in Heq; simplify_eq.
      - apply cond_wf_inv in Hwf as (_ & Hp & _). unfold is_keyword in Hp. by rewrite Hkey in Hp.
      - apply cond_wf_inv in Hwf as (Hne & _). destruct Hv as [Hv|Hv]; [by eapply Hv|].
        simplify_eq. by destruct items.
      - apply cond_wf_inv in Hwf as (Hne & _). destruct Hv as [Hv|Hv]; [by eapply Hv|].
        simplify_eq. by destruct items. }
    destruct value as [| | | | |[|v l]| | |].
    1-6, 8-10: split; [done|]; intros (Hwf & _ & Heq); exfalso; eapply Hbad; [|done..];
               first [by right|left; intros; discriminate].
    apply keyword_cases in Hkey as [-> | ->].
    - apply (compile_combinator src AllOf "all" loc depth (v :: l) c); try done.
      + intros items. split; [apply (cond_wf_inv (AllOf items))|intros (? & ? & ?); by constructor].
      + intros d. destruct d; cbn; intros; simplify_eq; eauto.
      + by apply IHl.
    - apply (compile_combinator src AnyOf "any" loc depth (v :: l) c); try done.
      + intros items. split; [apply (cond_wf_inv (AnyOf items))|intros (? & ? & ?); by constructor].
      + intros d. destruct d; cbn; intros; simplify_eq; eauto.
      + by apply IHl. }
  destruct (String.eqb_spec key "not") as [->|Hnot].
  - split.
    + intros H. inv_ok. match goal with H : _compile_condition _ _ _ _ = _ |- _ => apply IH in H as (? & ? & ->) end.
      split; [by constructor|]. cbn. split; [lia|done].
    + intros (Hwf & Hdc & Heq). destruct c as [p segs op opd|items|items|c']; cbn in Heq; simplify_eq.
      * apply cond_wf_inv in Hwf as (_ & Hp & _). done.
      * cbn in Hdc. apply cond_wf_inv in Hwf.
        rewrite (proj2 (IH src _ (depth + 1) c')) by (split; [done|]; split; [lia|done]). done.
  - rewrite compile_compare_Ok. split.
    + intros (Hre & Hlen & Hdp & op & opd & -> & Hop & ->). split; [|split; [cbn; lia|done]].
      constructor; try done. unfold is_keyword. rewrite Hkey. by apply String.eqb_neq.
    + intros (Hwf & _ & Heq). destruct c as [p segs op opd|items|items|c']; cbn in Heq; simplify_eq.
      * apply cond_wf_inv in Hwf as (-> & _ & Hre & Hlen & Hdp & Hop). eauto 10.
Qed.

Lemma compile_condition_iff node : compiles node.
Proof. apply compile_condition_items. Qed.

(** ** Rules, thresholds and policies *)

Lemma operand_wf_nonempty op opd : operand_wf op opd → opd ≠ OTuple [].
Proof.
  unfold operand_wf. intros H ->.
  destruct (_PRESENCE_OPERATORS op), (_NUMERIC_OPERATORS op), (_LIST_OPERATORS op); naive_solver.
Qed.

Lemma cond_wf_ok c : cond_wf c → cond_ok c.
Proof.
  induction c as [q segs op opd|items IH|items IH|c IH] using Condition_induction;
    intros Hwf; apply cond_wf_inv in Hwf.
  - destruct Hwf as (-> & _ & _ & _ & _ & Hop). constructor. by eapply operand_wf_nonempty.
  - constructor. destruct Hwf as (_ & _ & Hf). rewrite Forall_forall in *. auto.
  - constructor. destruct Hwf as (_ & _ & Hf). rewrite Forall_forall in *. auto.
  - constructor. auto.
Qed.

Record rule_wf (r : Rule) : Prop := {
  rw_id : _ID_RE (rule_id r) = true;
  rw_cond : cond_wf (when r);
  rw_depth : cond_depth (when r) ≤ MAX_CONDITION_DEPTH;
  rw_score : 0 ≤ score (effect r) ≤ MAX_SCORE
}.

Lemma whole_number_Some lo hi v z : whole_number lo hi v = Some z ↔ v = VInt z ∧ lo ≤ z ≤ hi.
Proof.
  destruct v; cbn; try naive_solver.
  destruct (Z.leb_spec lo z0), (Z.leb_spec z0 hi); cbn; naive_solver lia.
Qed.

Lemma compile_effect_score src raw loc eff :
  _compile_effect src raw loc = Ok eff → 0 ≤ score eff ≤ MAX_SCORE.
Proof.
  unfold _compile_effect. destruct raw as [| | | | | |em| |]; try done. intros H. inv_load.
  destruct (Tier_of _) as [t|]; [|done]. inv_load. cbn.
  destruct (get em "score") as [v|].
  - destruct (whole_number 0 MAX_SCORE v) as [z|] eqn:Hz; [|done]. inv_load.
    by apply whole_number_Some in Hz as [_ ?].
  - inv_load. unfold MAX_SCORE. destruct t; cbn; lia.
Qed.

Lemma identifier_Ok src v loc s :
  _identifier src v loc = Ok s ↔ v = VStr s ∧ _ID_RE s = true.
Proof.
  destruct v as [| | | |t| | | |]; cbn; try (split; [done|by intros [? _]]).
  destruct (_ID_RE t) eqn:Ht; split; try done.
  - intros. inv_ok. done.
  - intros [? _]. by simplify_eq.
  - intros [? ?]. simplify_eq. congruence.
Qed.

Lemma compile_rule_wf src raw loc r : _compile_rule src raw loc = Ok r → rule_wf r.
Proof.
  unfold _compile_rule. destruct raw as [| | | | | |m| |]; try done. intros H. inv_load.
  match goal with H : _identifier _ _ _ = _ |- _ => apply identifier_Ok in H as [_ ?] end.
  match goal with H : _compile_condition _ _ _ _ = _ |- _ =>
    apply compile_condition_iff in H as (? & ? & _) end.
  match goal with H : _compile_effect _ _ _ = _ |- _ => apply compile_effect_score in H end.
  constructor; cbn; try done.
Qed.

Lemma compile_rules_wf src i raws seen rs :
  _compile_rules src i raws seen = Ok rs →
  length rs = length raws ∧ Forall rule_wf rs ∧ NoDup (rule_id <$> rs) ∧
  (∀ r, r ∈ rs → rule_id r ∉ seen).
Proof.
  revert i seen rs. induction raws as [|raw raws IH]; intros i seen rs H; cbn in H; inv_load.
  - split; [done|]. split; [constructor|]. split; [constructor|]. by intros r ?%elem_of_nil.
  - match goal with H : _compile_rules _ _ _ _ = _ |- _ => apply IH in H as (Hlen & Hwf & Hnd & Hns) end.
    match goal with H : _compile_rule _ _ _ = _ |- _ => apply compile_rule_wf in H end.
    match goal with H : bool_decide _ = false |- _ => apply bool_decide_eq_false in H end.
    split; [cbn; congruence|]. split; [by constructor|]. split.
    + cbn. constructor; [|done]. intros (r & Heq & Hr)%list_elem_of_fmap.
      apply (Hns r Hr). rewrite <- Heq. set_solver.
    + intros r [->|Hr]%elem_of_cons; [done|]. specialize (Hns r Hr). set_solver.
Qed.

Lemma elem_of_policy_paths p rs : p ∈ policy_paths rs ↔ rules_path rs p.
Proof.
  unfold policy_paths.
  rewrite (foldl_union_spec (λ r, _collect_paths (when r)) (λ r p, leaf_path p (when r))).
  - split; [|by left]. intros [H|H]; [done|set_solver].
  - apply Forall_forall. intros r _ s. apply elem_of_collect_paths.
Qed.

(** Thresholds name higher tiers for higher scores. *)
Definition threshold_before (a b : Tier * Z) : Prop := rank (fst a) ≤ rank (fst b) ∧ snd a < snd b.

Definition threshold_wf (p : Tier * Z) : Prop := fst p ≠ LOW ∧ 1 ≤ snd p ≤ MAX_SCORE.

Lemma threshold_pair_wf src kv p : threshold_pair src kv = Ok p → threshold_wf p.
Proof.
  unfold threshold_pair, threshold_wf.
  destruct (Tier_of _) as [[]|]; intros H; try done;
    (destruct (whole_number 1 MAX_SCORE (snd kv)) as [z|] eqn:Hz; [|done]); inv_ok; cbn;
    by apply whole_number_Some in Hz as [_ ?].
Qed.

Lemma pair_rank_leb_sorted l :
  StronglySorted (λ a b, rank (fst a) ≤ rank (fst b)) (sort_by pair_rank_leb l).
Proof.
  assert (H : StronglySorted pair_rank_leb (sort_by pair_rank_leb l)).
  { apply sort_by_sorted; unfold pair_rank_leb.
    - intros a b. rewrite !Z.leb_le. lia.
    - intros a b c. rewrite !Z.leb_le. lia. }
  induction H as [|a l' _ IH Ha]; constructor; [done|].
  eapply Forall_impl; [exact Ha|]. intros b Hb%Is_true_true. by apply Z.leb_le.
Qed.

Lemma thresholds_sorted l :
  StronglySorted (λ a b, rank (fst a) ≤ rank (fst b)) l → not_increasing l = false →
  StronglySorted threshold_before l.
Proof.
  induction 1 as [|a l Hl IH Ha]; intros Hni; constructor.
  - apply IH. destruct l; [done|]. cbn in Hni. by apply orb_false_iff in Hni as [_ ?].
  - destruct l as [|b l]; [constructor|]. cbn in Hni. apply orb_false_iff in Hni as [Hab Hni].
    apply Z.leb_gt in Hab. specialize (IH Hni). apply StronglySorted_inv in IH as [_ Hb].
    apply Forall_cons in Ha as [Hra Ha]. constructor; [split; [done|lia]|].
    rewrite Forall_forall in *. intros c Hc. specialize (Hb c Hc) as [? ?]. split; [by apply Ha|lia].
Qed.

Lemma compile_thresholds_wf src raw ths :
  _compile_thresholds src raw = Ok ths →
  StronglySorted threshold_before ths ∧ Forall threshold_wf ths.
Proof.
  unfold _compile_thresholds.
  destruct raw as [[| | | | | |[|kv m]| |]|]; intros H; inv_load; [|by split; constructor].
  split.
  - apply thresholds_sorted; [apply pair_rank_leb_sorted|done].
  - rewrite sort_by_Permutation. eapply map_res_Forall; [eassumption|].
    intros j a b Hab. exact (threshold_pair_wf _ _ _ Hab).
Qed.

(** What a compiled policy satisfies. *)
Record policy_wf (p : Policy) : Prop := {
  pw_id : _ID_RE (policy_id p) = true;
  pw_version : _SEMVER_RE (version p) = true;
  pw_rules : 1 ≤ llen (rules p) ≤ MAX_RULES;
  pw_rule : Forall rule_wf (rules p);
  pw_ids : NoDup (rule_id <$> rules p);
  pw_paths : referenced_paths p = sorted_strings (policy_paths (rules p));
  pw_thresholds : StronglySorted threshold_before (score_thresholds p);
  pw_threshold : Forall threshold_wf (score_thresholds p);
  pw_reviewed : match reviewed_by p with
                | Some who => _is_placeholder_reviewer who = false ∧ blank who = false ∧
                              len who ≤ MAX_STRING_OPERAND_CHARS
                | None => status p = EXAMPLE
                end
}.

Lemma text_Ok src v loc n s :
  _text src v loc n = Ok s ↔ v = VStr s ∧ blank s = false ∧ len s ≤ n ∧ _CONTROL_RE s = false.
Proof.
  destruct v as [| | | |t| | | |]; cbn; try (split; [done|by intros [? _]]). split.
  - intros H. inv_load.
    repeat match goal with H : (_ <? _) = false |- _ => apply Z.ltb_ge in H end. done.
  - intros (H & Hb & Hl & Hc). simplify_eq. rewrite Hb, Hc, (proj2 (Z.ltb_ge _ _) Hl). done.
Qed.

Lemma compile_reviewer_wf src d st who :
  _compile_reviewer src d st = Ok who →
  match who with
  | Some who => _is_placeholder_reviewer who = false ∧ blank who = false ∧
                len who ≤ MAX_STRING_OPERAND_CHARS
  | None => st = EXAMPLE
  end.
Proof.
  unfold _compile_reviewer. destruct (get d "reviewed_by") as [v|]; intros H; inv_load.
  - match goal with H : _text _ _ _ _ = _ |- _ => apply text_Ok in H as (_ & ? & ? & _) end. done.
  - match goal with H : bool_decide _ = false |- _ => apply bool_decide_eq_false in H end. by destruct st.
Qed.

Lemma compile_policy_wf src doc hash p :
  _compile_policy src doc hash = Ok p → policy_wf p ∧ content_hash p = hash ∧ source p = src.
Proof.
  unfold _compile_policy. destruct doc as [| | | | | |d| |]; try done. intros H. inv_load.
  match goal with H : match ?v with VList _ => _ | _ => _ end = Ok p |- _ =>
    destruct v as [| | | | |[|raw raws]| | |]; try done; inv_load end.
  match goal with H : _compile_rules _ _ _ _ = _ |- _ =>
    apply compile_rules_wf in H as (Hlen & Hwf & Hnd & _) end.
  match goal with H : _compile_thresholds _ _ = _ |- _ => apply compile_thresholds_wf in H as [? ?] end.
  match goal with H : _compile_reviewer _ _ _ = _ |- _ => apply compile_reviewer_wf in H end.
  match goal with H : _identifier _ _ _ = _ |- _ => apply identifier_Ok in H as [_ ?] end.
  match goal with H : match ?v with VStr _ => _ | _ => _ end = Ok _ |- _ =>
    destruct v as [| | | |ver| | | |]; try done; destruct (_SEMVER_RE ver) eqn:?; inv_load end.
  match goal with H : (MAX_RULES <? _) = false |- _ => apply Z.ltb_ge in H end.
  split; [|done]. constructor; cbn; try done. unfold llen in *. rewrite Hlen. cbn in *. lia.
Qed.

Lemma policy_wf_ok p : policy_wf p → policy_ok p.
Proof.
  intros Hp. constructor.
  - eapply Forall_impl; [apply (pw_rule _ Hp)|]. intros r Hr. apply cond_wf_ok, Hr.
  - intros q. by rewrite (pw_paths _ Hp), elem_of_sorted_strings, elem_of_policy_paths.
  - rewrite (pw_paths _ Hp). apply sorted_strings_NoDup.
  - eapply Forall_impl; [apply (pw_rule _ Hp)|]. by intros r [].
  - apply Hp.
Qed.

Lemma load_wf `{PolicyFileFormat} data src rp p :
  _load data src rp = Ok p →
  policy_wf p ∧ source p = src ∧ content_hash p = "sha256:" +:+ sha256_hexdigest data ∧
  (rp = true → status p = PRODUCTION).
Proof.
  unfold _load. intros Hl. inv_load. destruct (utf8_decode data) as [text|]; [|done].
  destruct (get_single_data text); inv_load.
  match goal with H : _compile_policy _ _ _ = _ |- _ => apply compile_policy_wf in H as (? & ? & ?) end.
  split; [done|]. split; [done|]. split; [done|]. intros ->.
  match goal with H : _ && _ = false |- _ => cbn in H; apply negb_false_iff, bool_decide_eq_true in H end.
  done.
Qed.

Lemma load_policy_wf `{PolicyFileFormat} file rp p :
  load_policy file rp = Ok p → policy_wf p ∧ source p = fe_path file.
Proof.
  unfold load_policy, load_policy_bytes. destruct (fe_bytes file); [|done].
  intros Hl. by apply load_wf in Hl as (? & ? & _).
Qed.

(** The directory loop keeps the policies it had and adds one per file. *)
Lemma add_policies_spec `{PolicyFileFormat} rp files m0 m :
  fold_res (add_policy rp) m0 files = Ok m →
  (∀ k p, m0 !! k = Some p → m !! k = Some p) ∧
  (∀ f, f ∈ files → ∃ p, load_policy f rp = Ok p ∧ m !! policy_id p = Some p) ∧
  (∀ k p, m !! k = Some p → m0 !! k = Some p ∨
     ∃ f, f ∈ files ∧ load_policy f rp = Ok p ∧ k = policy_id p) ∧
  size m = (size m0 + length files)%nat.
Proof.
  revert m0. induction files as [|f files IH]; intros m0 Hf; cbn in Hf; inv_ok.
  - split; [done|]. split; [by intros f ?%elem_of_nil|]. split; [eauto|cbn; lia].
  - match goal with H : add_policy _ _ _ = _ |- _ => unfold add_policy in H; inv_ok end.
    match goal with H : load_policy f rp = Ok ?p |- _ => rename p into pol; rename H into Hpol end.
    destruct (m0 !! policy_id pol) eqn:Hfresh; inv_load.
    match goal with H : fold_res _ _ _ = _ |- _ => apply IH in H as (Hk & Hfs & Hm & Hsz) end.
    assert (Hin : m !! policy_id pol = Some pol) by by apply Hk, lookup_insert_eq.
    split; [|split; [|split]].
    + intros k p Hp. apply Hk. rewrite lookup_insert_ne; [done|]. intros <-. congruence.
    + intros g [->|Hg]%elem_of_cons; eauto.
    + intros k p Hp. apply Hm in Hp as [Hp|(g & Hg & ? & ?)].
      * rewrite lookup_insert in Hp. case_decide; simplify_eq; [|eauto].
        right. exists f. split; [by left|done].
      * right. exists g. split; [by right|done].
    + rewrite Hsz, map_size_insert_None by done. cbn. lia.
Qed.

(** The identifier pattern. *)

Lemma newline_char c : is_newline c = true ↔ c = ascii_of_nat 10.
Proof.
  unfold is_newline, in_range. rewrite andb_true_iff, !Nat.leb_le. split; [|by intros ->].
  intros H. rewrite <- (ascii_nat_embedding c). f_equal. lia.
Qed.

Lemma drop_final_newline_cases l :
  (drop_final_newline l = l ∧ ∀ r, l ≠ r ++ [ascii_of_nat 10]) ∨
  l = drop_final_newline l ++ [ascii_of_nat 10].
Proof.
  unfold drop_final_newline. destruct (reverse l) as [|c r] eqn:Hr.
  - left. apply (f_equal reverse) in Hr. rewrite reverse_involutive in Hr. subst. cbn.
    split; [done|]. intros r. by destruct r.
  - assert (Hl : l = reverse r ++ [c]).
    { apply (f_equal reverse) in Hr. rewrite reverse_involutive in Hr. by rewrite reverse_cons in Hr. }
    destruct (is_newline c) eqn:Hc.
    + apply newline_char in Hc as ->. by right.
    + left. split; [done|]. intros r' Hl'. rewrite Hl in Hl'. apply app_inj_tail in Hl' as [_ ->].
      vm_compute in Hc. done.
Qed.

Lemma id_re_spec s :
  _ID_RE s = true ↔ ∃ c r nl, chars s = c :: r ++ nl ∧ (nl = [] ∨ nl = [ascii_of_nat 10]) ∧
    is_lower_az c = true ∧ Forall is_snake r ∧ (length r ≤ 63)%nat.
Proof.
  unfold _ID_RE. rewrite andb_true_iff, Z.leb_le. unfold llen. split.
  - intros [Hseg Hlen]. destruct (drop_final_newline (chars s)) as [|c r] eqn:Hd; [done|].
    cbn in Hseg. apply andb_true_iff in Hseg as [Hc Hr]. rewrite forallb_forall in Hr.
    assert (Hr' : Forall is_snake r)
      by (apply Forall_forall; intros x Hx%list_elem_of_In; by apply Is_true_true, Hr).
    destruct (drop_final_newline_cases (chars s)) as [[Heq _]|Heq]; rewrite Hd in Heq.
    + exists c, r, []. rewrite app_nil_r. cbn in Hlen. repeat split; auto. lia.
    + exists c, r, [ascii_of_nat 10]. cbn in Hlen. repeat split; auto. lia.
  - intros (c & r & nl & Hs & Hnl & Hc & Hr & Hlen).
    assert (Hd : drop_final_newline (chars s) = c :: r).
    { destruct (drop_final_newline_cases (chars s)) as [[Heq Hn]|Heq].
      - rewrite Heq. destruct Hnl as [-> | ->]; [by rewrite app_nil_r in Hs|].
        exfalso. apply (Hn (c :: r)). done.
      - destruct Hnl as [-> | ->].
        + exfalso. rewrite app_nil_r in Hs.
          assert (Hin : ascii_of_nat 10 ∈ c :: r) by (rewrite <- Hs, Heq; set_solver).
          apply elem_of_cons in Hin as [<-|Hin]; [done|]. rewrite Forall_forall in Hr.
          by apply Hr in Hin.
        + assert (Heq' : drop_final_newline (chars s) ++ [ascii_of_nat 10] = (c :: r) ++ [ascii_of_nat 10])
            by by rewrite <- Heq.
          by apply app_inj_tail in Heq' as [-> _]. }
    rewrite Hd. cbn. rewrite Hc. cbn. split; [|cbn; lia]. apply forallb_forall.
    intros x Hx%list_elem_of_In. rewrite Forall_forall in Hr. by apply Is_true_true, Hr.
Qed.

(** * Properties *)

Module LoaderExample.

Definition document : pyval :=
  VMap [("policy", VStr "onboarding"); ("version", VStr "1.2.0-rc.1+build.7");
        ("status", VStr "production"); ("reviewed_by", VStr "Asha Rao");
        ("score_thresholds", VMap [("blocked", VInt 90); ("high", VInt 60)]);
        ("rules", VList [VMap [
           ("id", VStr "screening_hits");
           ("when", VMap [("any", VList [
              VMap [("screening.hits", VMap [("gt", VInt 0)])];
              VMap [("not", VMap [("kyc.passed", VMap [("eq", VBool true)])])]])]);
           ("effect", VMap [("tier", VStr "blocked"); ("reason", VStr "screening")])]])].

Definition format : PolicyFileFormat :=
  {| utf8_decode := Some; get_single_data := λ _, YamlDocument document |}.

Definition condition : Condition :=
  AnyOf [Compare "screening.hits" ["screening"; "hits"] GT (OScalar (VInt 0));
         Not (Compare "kyc.passed" ["kyc"; "passed"] EQ (OScalar (VBool true)))].

Definition file : file_entry := mkFile "p/onboarding.yaml" ".YAML" true (Some "policy: onboarding").

End LoaderExample.

(** C12. A policy that loads never makes the engine fail: for every policy file
    accepted by the loader and every evidence mapping, evaluation returns a
    result (no missing path, empty membership list or unserialisable input). *)
Theorem loaded_policy_always_evaluates `{FloatRepr} `{PolicyFileFormat} data src rp policy :
  load_policy_bytes data src rp = Ok policy →
  ∀ kvs, ∃ res, evaluate policy (VMap kvs) = Ok res ∧ res_policy_hash res = content_hash policy.
Proof.
  intros Hl kvs. apply load_wf in Hl as (Hwf & _).
  destruct (evaluate_returns policy kvs (policy_wf_ok _ Hwf)) as (res & He & Hev).
  exists res. split; [done|]. pose proof (ev_identity _ _ _ Hev). by simplify_eq.
Qed.

Lemma loaded_policy_always_evaluates_witness :
  ∃ policy, load_policy_bytes (H := LoaderExample.format) "x" "mem" true = Ok policy ∧
    ∃ res, evaluate (H := EngineExample.repr0) policy (VMap []) = Ok res ∧
           res_policy_hash res = content_hash policy.
Proof.
  eexists. split; [vm_compute; reflexivity|].
  eapply (loaded_policy_always_evaluates (H := EngineExample.repr0) (H0 := LoaderExample.format) "x" "mem" true).
  vm_compute; reflexivity.
Defined.

(** Compiling a condition is exact: a YAML node compiles to [c] if and only if
    [c] is well formed (path syntax, operand types and the size limits), is
    nested at most 12 deep, and the node is the text of [c]; so nothing in the
    file is dropped or reinterpreted and every well-formed condition loads. *)
Theorem compile_condition_exact src node loc c :
  _compile_condition src node loc 1 = Ok c ↔
  cond_wf c ∧ cond_depth c ≤ MAX_CONDITION_DEPTH ∧ node = decompile c.
Proof.
  rewrite (compile_condition_iff node src loc 1 c). by replace (1 - 1 + cond_depth c) with (cond_depth c) by lia.
Qed.

(** Every loaded policy respects the documented limits: 1 to 500 rules with
    distinct ids, conditions well formed and at most 12 deep, scores from 0 to
    100, thresholds for tiers above [low] with strictly increasing scores, and
    [referenced_paths] the sorted, duplicate-free paths its rules read. *)
Theorem loaded_policy_limits `{PolicyFileFormat} data src rp policy :
  load_policy_bytes data src rp = Ok policy →
  1 ≤ llen (rules policy) ≤ MAX_RULES ∧ NoDup (rule_id <$> rules policy) ∧
  Forall (λ r, cond_wf (when r) ∧ cond_depth (when r) ≤ MAX_CONDITION_DEPTH ∧
               0 ≤ score (effect r) ≤ MAX_SCORE) (rules policy) ∧
  StronglySorted threshold_before (score_thresholds policy) ∧
  Forall threshold_wf (score_thresholds policy) ∧
  StronglySorted String.leb (referenced_paths policy) ∧ NoDup (referenced_paths policy) ∧
  (∀ p, p ∈ referenced_paths policy ↔ rules_path (rules policy) p).
Proof.
  intros Hl. apply load_wf in Hl as (Hwf & _). pose proof (policy_wf_ok _ Hwf) as Hok.
  split; [apply Hwf|]. split; [apply Hwf|]. split.
  { eapply Forall_impl; [apply (pw_rule _ Hwf)|]. by intros r []. }
  split; [apply Hwf|]. split; [apply Hwf|]. split; [|split; [apply Hok|apply Hok]].
  rewrite (pw_paths _ Hwf). apply sorted_strings_sorted.
Qed.

Lemma loaded_policy_limits_witness :
  ∃ policy, load_policy_bytes (H := LoaderExample.format) "x" "mem" true = Ok policy ∧
    score_thresholds policy = [(HIGH, 60); (BLOCKED, 90)] ∧
    StronglySorted threshold_before (score_thresholds policy).
Proof.
  eexists. split; [vm_compute; reflexivity|]. split; [reflexivity|].
  eapply (loaded_policy_limits (H := LoaderExample.format) "x" "mem" true). vm_compute; reflexivity.
Defined.

(** A production policy has a named reviewer: if it loads, its status is
    [example] or it carries a reviewer that is not blank and not a placeholder;
    with [require_production] only a production policy loads. *)
Theorem production_policy_is_reviewed `{PolicyFileFormat} data src rp policy :
  load_policy_bytes data src rp = Ok policy →
  (rp = true → status policy = PRODUCTION) ∧
  (status policy = PRODUCTION →
     ∃ who, reviewed_by policy = Some who ∧ _is_placeholder_reviewer who = false ∧ blank who = false).
Proof.
  intros Hl. apply load_wf in Hl as (Hwf & _ & _ & Hrp). split; [done|]. intros Hst.
  pose proof (pw_reviewed _ Hwf) as Hr. destruct (reviewed_by policy) as [who|]; [|congruence].
  exists who. naive_solver.
Qed.

Lemma production_policy_is_reviewed_witness :
  ∃ policy, load_policy_bytes (H := LoaderExample.format) "x" "mem" true = Ok policy ∧
    status policy = PRODUCTION ∧
    ∃ who, reviewed_by policy = Some who ∧ _is_placeholder_reviewer who = false ∧ blank who = false.
Proof.
  eexists. split; [vm_compute; reflexivity|]. split; [reflexivity|].
  eapply (production_policy_is_reviewed (H := LoaderExample.format) "x" "mem" true);
    [vm_compute; reflexivity|reflexivity].
Defined.

(** Loading a directory fails closed: when it succeeds, every policy file of
    the directory loaded, the result maps each id to the policy of exactly one
    of those files, and there are as many policies as files, at least one. *)
Theorem load_policies_fail_closed `{PolicyFileFormat} dir entries rp m :
  load_policies dir (Some entries) rp = Ok m →
  (∀ f, f ∈ entries → fe_is_file f = true → mem (lower (fe_suffix f)) POLICY_SUFFIXES = true →
        ∃ p, load_policy f rp = Ok p ∧ m !! policy_id p = Some p) ∧
  (∀ k p, m !! k = Some p →
        policy_id p = k ∧ policy_wf p ∧ ∃ f, f ∈ entries ∧ load_policy f rp = Ok p) ∧
  size m = length (policy_files entries) ∧ (0 < size m)%nat.
Proof.
  unfold load_policies. destruct (policy_files entries) as [|f0 fs] eqn:Hfs; [done|]. intros Hl.
  apply add_policies_spec in Hl as (_ & Hall & Hm & Hsz).
  assert (Hin : ∀ f, f ∈ f0 :: fs ↔ f ∈ entries ∧ fe_is_file f && mem (lower (fe_suffix f)) POLICY_SUFFIXES = true).
  { intros f. rewrite <- Hfs. unfold policy_files. rewrite elem_of_sort_by, !list_elem_of_In, filter_In. done. }
  split; [|split; [|split]].
  - intros f Hf H1 H2. apply Hall, Hin. split; [done|]. by rewrite H1, H2.
  - intros k p Hp. apply Hm in Hp as [Hp|(f & Hf & Hl & ->)]; [by rewrite lookup_empty in Hp|].
    split; [done|]. split; [by apply load_policy_wf in Hl as [? _]|].
    exists f. split; [|done]. by apply Hin in Hf as [? _].
  - rewrite Hsz, map_size_empty. done.
  - rewrite Hsz. cbn. lia.
Qed.

Lemma load_policies_fail_closed_witness :
  ∃ m, load_policies (H := LoaderExample.format) "p" (Some [LoaderExample.file]) true = Ok m ∧
       (0 < size m)%nat.
Proof.
  eexists. split; [vm_compute; reflexivity|].
  eapply (load_policies_fail_closed (H := LoaderExample.format) "p" [LoaderExample.file] true).
  vm_compute; reflexivity.
Defined.

(** [_identifier] accepts exactly a lower-case letter followed by at most 63
    lower-case letters, digits or underscores, with or without one newline after
    them: the pattern ends in [$], which also matches before a final newline. *)
Theorem identifier_accepts src v loc s :
  _identifier src v loc = Ok s ↔
  v = VStr s ∧ ∃ c r nl, chars s = c :: r ++ nl ∧ (nl = [] ∨ nl = [ascii_of_nat 10]) ∧
    is_lower_az c = true ∧ Forall is_snake r ∧ (length r ≤ 63)%nat.
Proof. rewrite identifier_Ok. by rewrite id_re_spec. Qed.
