(* ===== verification/PolicyDocument.v ===== *)
(** The published [policy_result] document (src/core/policy/document.py). *)

From S2P Require Import Prelude PyVal Digest PolicyTypes PolicyEngine PolicyLoader.

Local Open Scope Z_scope.

Definition SCHEMA_VERSION : string := "1.0.0".

Inductive document_error := NotThisPolicy | NoSuchRule (rule_id : string).

Fixpoint _paths (c : Condition) (into : gset string) : gset string :=
  match c with
  | Compare path _ _ _ => {[path]} ∪ into
  | Not item => _paths item into
  | AllOf items | AnyOf items => foldl (λ acc item, _paths item acc) into items
  end.

Definition _scalar (v : pyval) : pyval :=
  match v with
  | VNone | VStr _ | VBool _ | VInt _ | VFloat _ => v
  | _ => VNone
  end.

(** [rule_paths]: a later rule with the same id overwrites an earlier one. *)
Definition rule_paths (rs : list Rule) : list (string * list string) :=
  foldl (λ d rule, dict_set (rule_id rule) (sorted_strings (_paths (when rule) ∅)) d) [] rs.

(** [result.inputs.get(path)] *)
Definition input_of (inputs : list (string * pyval)) (path : string) : pyval :=
  default VNone (assoc path inputs).

Definition reason_document (rps : list (string * list string)) (inputs : list (string * pyval))
    (r : PolicyReason) : result document_error pyval :=
  paths ← of_option (NoSuchRule (pr_rule_id r)) (assoc (pr_rule_id r) rps);
  Ok (VMap [("rule_id", VStr (pr_rule_id r));
            ("tier", VStr (Tier_value (pr_tier r)));
            ("reason", VStr (pr_reason r));
            ("score", VInt (pr_score r));
            ("inputs", VMap ((λ path, (path, _scalar (input_of inputs path))) <$> paths))]).

Definition policy_result_document (policy : Policy) (res : PolicyResult)
    : result document_error pyval :=
  _ ← raise_if (negb (String.eqb (policy_id policy) (res_policy_id res) &&
                      String.eqb (version policy) (res_policy_version res) &&
                      String.eqb (content_hash policy) (res_policy_hash res))) NotThisPolicy;
  reasons ← map_res (λ _ r, reason_document (rule_paths (rules policy)) (res_inputs res) r) 0
                    (res_reasons res);
  Ok (VMap [("schema_version", VStr SCHEMA_VERSION);
            ("policy", VMap [("policy_id", VStr (res_policy_id res));
                             ("version", VStr (res_policy_version res));
                             ("example", VBool (bool_decide (res_policy_status res = EXAMPLE)));
                             ("reviewed_by", opt_str (res_reviewed_by res))]);
            ("inputs_digest", VStr (res_inputs_hash res));
            ("score", VInt (res_score res));
            ("tier", VStr (Tier_value (res_tier res)));
            ("reasons", VList reasons)]).

(** * Lemmas *)

Lemma paths_collect c s : _paths c s = _collect_paths c s.
Proof.
  revert s. induction c as [q segs op opd|items IH|items IH|c IH] using Condition_induction; intros s; cbn; auto.
  all: revert s; induction IH as [|c items Hc _ IHl]; intros s; cbn; [done|]; by rewrite Hc, IHl.
Qed.

Lemma elem_of_paths p c : p ∈ sorted_strings (_paths c ∅) ↔ leaf_path p c.
Proof. rewrite elem_of_sorted_strings, paths_collect, elem_of_collect_paths. set_solver. Qed.

Lemma rule_paths_lookup rs rule :
  NoDup (rule_id <$> rs) → rule ∈ rs →
  assoc (rule_id rule) (rule_paths rs) = Some (sorted_strings (_paths (when rule) ∅)).
Proof.
  intros Hnd Hin. unfold rule_paths.
  rewrite (dict_build rule_id (λ r, sorted_strings (_paths (when r) ∅))) by done. cbn.
  apply assoc_NoDup.
  - by rewrite <- list_fmap_compose.
  - apply list_elem_of_fmap. by exists rule.
Qed.

Lemma assoc_snapshots evidence paths p :
  p ∈ paths → assoc p (snapshots evidence paths) = Some (_snapshot (reads evidence p)).
Proof.
  induction paths as [|q paths IH]; [by intros ?%elem_of_nil|]. intros [->|Hp]%elem_of_cons; cbn.
  - by rewrite String.eqb_refl.
  - destruct (String.eqb_spec p q) as [->|]; [done|auto].
Qed.

(** The evidence a document shows for a rule: its paths with the values read. *)
Definition shown_inputs (evidence : pyval) (rule : Rule) : list (string * pyval) :=
  (λ p, (p, _scalar (_snapshot (reads evidence p)))) <$> sorted_strings (_paths (when rule) ∅).

Lemma reason_document_ok `{FloatRepr} policy evidence res rule r :
  policy_ok policy → evaluated policy evidence res →
  rule ∈ rules policy → rule_id rule = pr_rule_id r →
  reason_document (rule_paths (rules policy)) (res_inputs res) r =
  Ok (VMap [("rule_id", VStr (pr_rule_id r)); ("tier", VStr (Tier_value (pr_tier r)));
            ("reason", VStr (pr_reason r)); ("score", VInt (pr_score r));
            ("inputs", VMap (shown_inputs evidence rule))]).
Proof.
  intros Hok Hev Hin Hid. unfold reason_document. rewrite <- Hid.
  rewrite (rule_paths_lookup _ _ (ok_ids _ Hok) Hin). cbn.
  assert (Heq : (λ path, (path, _scalar (input_of (res_inputs res) path))) <$>
                  sorted_strings (_paths (when rule) ∅) = shown_inputs evidence rule); [|by rewrite Heq].
  apply list_fmap_ext. intros i p Hp. unfold input_of.
  rewrite (ev_inputs _ _ _ Hev), assoc_snapshots; [done|]. apply (ok_paths _ Hok).
  exists rule. split; [done|]. apply elem_of_paths. by apply list_elem_of_lookup_2 in Hp.
Qed.

(** * Properties *)

(** The document of one reason. *)
Definition reason_shows (evidence : pyval) (rule : Rule) (r : PolicyReason) (doc : pyval) : Prop :=
  doc = VMap [("rule_id", VStr (pr_rule_id r)); ("tier", VStr (Tier_value (pr_tier r)));
              ("reason", VStr (pr_reason r)); ("score", VInt (pr_score r));
              ("inputs", VMap (shown_inputs evidence rule))].

(** The result of evaluating a policy always renders as a document, which
    lists the reasons in order and shows, for each fired rule, every path its
    condition reads (and no other) with the scalar read there, [null] for a
    missing or non-scalar value. *)
Theorem evaluated_result_renders `{FloatRepr} policy evidence res :
  policy_ok policy → evaluate policy evidence = Ok res →
  ∃ docs, policy_result_document policy res =
      Ok (VMap [("schema_version", VStr SCHEMA_VERSION);
                ("policy", VMap [("policy_id", VStr (policy_id policy));
                                 ("version", VStr (version policy));
                                 ("example", VBool (bool_decide (status policy = EXAMPLE)));
                                 ("reviewed_by", opt_str (reviewed_by policy))]);
                ("inputs_digest", VStr (res_inputs_hash res)); ("score", VInt (res_score res));
                ("tier", VStr (Tier_value (res_tier res))); ("reasons", VList docs)]) ∧
    Forall2 (λ r doc, ∃ rule, rule ∈ rules policy ∧ rule_id rule = pr_rule_id r ∧
               reason_shows evidence rule r doc ∧
               ∀ p, p ∈ (shown_inputs evidence rule).*1 ↔ leaf_path p (when rule))
            (res_reasons res) docs.
Proof.
  intros Hok He. pose proof (evaluated_of _ _ _ Hok He) as Hev.
  pose proof (ev_identity _ _ _ Hev) as Hid. simplify_eq.
  assert (Hrule : ∀ r, r ∈ res_reasons res → ∃ rule, rule ∈ rules policy ∧ rule_id rule = pr_rule_id r).
  { intros r (rule & Hin & _ & ur & -> & _)%(reasons_spec _ _ _ _ Hok Hev). by exists rule. }
  assert (Hdocs : ∀ l, l ⊆ res_reasons res → ∀ i, ∃ docs,
    map_res (λ _ r, reason_document (rule_paths (rules policy)) (res_inputs res) r) i l = Ok docs ∧
    Forall2 (λ r doc, ∃ rule, rule ∈ rules policy ∧ rule_id rule = pr_rule_id r ∧
               reason_shows evidence rule r doc ∧
               ∀ p, p ∈ (shown_inputs evidence rule).*1 ↔ leaf_path p (when rule)) l docs).
  { induction l as [|r l IH]; intros Hl i; cbn; [by exists []|].
    destruct (Hrule r) as (rule & Hin & Hr); [set_solver|].
    destruct (IH ltac:(set_solver) (S i)) as (docs & Hd & Hf).
    rewrite (reason_document_ok policy evidence res rule r Hok Hev Hin Hr). cbn. rewrite Hd. cbn.
    eexists. split; [done|]. constructor; [|done]. exists rule. repeat (split; [done|]).
    intros p. unfold shown_inputs. rewrite <- list_fmap_compose. cbn. rewrite list_fmap_id.
    apply elem_of_paths. }
  destruct (Hdocs (res_reasons res) ltac:(done) 0%nat) as (docs & Hd & Hf).
  exists docs. split; [|done]. unfold policy_result_document. rewrite Hd.
  repeat match goal with H : _ = _ policy |- _ => rewrite ?H; clear H end.
  rewrite !String.eqb_refl. done.
Qed.

Lemma evaluated_result_renders_witness :
  ∃ res, evaluate (H := EngineExample.repr0) EngineExample.policy EngineExample.partial = Ok res ∧
  ∃ doc, policy_result_document EngineExample.policy res = Ok doc.
Proof.
  eexists. split; [vm_compute; reflexivity|].
  edestruct (evaluated_result_renders (H := EngineExample.repr0) EngineExample.policy EngineExample.partial)
    as (docs & Hd & _); [apply EngineExample.policy_is_ok|vm_compute; reflexivity|].
  eexists. exact Hd.
Defined.
