(* ===== verification/StepResults.v ===== *)
(** The contract of workflow step results: src/workflows/step_results.py.

    A step result is a Python dictionary, here a list of string keys and values in
    insertion order.  [str()] of values that are not strings is the parameter
    [PyStr]. *)

From S2P Require Import Prelude PyVal.

Definition dict := list (string * pyval).

(** [d.get(k)], with Python's [None] for an absent key. *)
Definition dget (d : dict) (k : string) : pyval := default VNone (assoc k d).

(** [v == s] for a string [s]. *)
Definition is_str (v : pyval) (s : string) : bool :=
  match v with VStr t => String.eqb t s | _ => false end.

Definition vstr (o : option string) : pyval :=
  match o with Some s => VStr s | None => VNone end.

(** [d[k] = v] when [c], as in [if c: details[k] = v]. *)
Definition dict_set_if (c : bool) (k : string) (v : pyval) (d : dict) : dict :=
  if c then dict_set k v d else d.

(** A string is truthy when it is not empty; [None] is not. *)
Definition nonempty (o : option string) : bool := truthy (vstr o).

(** * Statuses *)

Definition ALLOWED_STEP_STATUSES : gset string :=
  {[ "completed"; "failed"; "skipped"; "stubbed"; "waiting_hitl"; "waiting_delay";
     "waiting_event"; "timed_out"; "cancelled"; "compensated" ]}.
Definition SUCCESSFUL_STEP_STATUSES : gset string := {[ "completed" ]}.
Definition PAUSED_STEP_STATUSES : gset string := {[ "waiting_hitl"; "waiting_delay"; "waiting_event" ]}.
Definition FAILED_STEP_STATUSES : gset string := {[ "failed"; "cancelled" ]}.

(** The exceptions the workflow code itself can raise. [Unhashable] is the
    [TypeError] of testing a list or a mapping for membership in a set. *)
Inductive exn : Type :=
| Unhashable
| ValueError
| KeyError
| StaleState (expected actual : Z)
| OutOfTurns.

#[global] Instance exn_eq_dec : EqDecision exn.
Proof. solve_decision. Defined.

(** [status in statuses] *)
Definition status_in (status : pyval) (statuses : gset string) : result exn bool :=
  match status with
  | VStr s => Ok (bool_decide (s ∈ statuses))
  | VList _ | VMap _ => Err Unhashable
  | _ => Ok false
  end.

(** * Typed failures *)

Record WorkflowStepError := { code : string; message : string; details : dict }.

Definition to_error (e : WorkflowStepError) : dict :=
  dict_set_if (truthy (VMap (details e))) "details" (VMap (details e))
    [("code", VStr (code e)); ("message", VStr (message e))].

Definition MissingAgentConfigError (step_id : string) : WorkflowStepError := {|
  code := "missing_agent_config";
  message := "Agent step is missing an agent or agent_id configuration.";
  details := [("step_id", VStr step_id)] |}.

Definition MissingLLMProviderConfigError (agent step_id : string) : WorkflowStepError := {|
  code := "missing_llm_provider_config";
  message := "Agent step cannot run because no usable LLM/provider configuration is available.";
  details := [("agent", VStr agent); ("step_id", VStr step_id)] |}.

Definition AgentExecutionError (agent step_id cause : string) (exception_type : option string) :
    WorkflowStepError := {|
  code := "agent_execution_failed";
  message := "Agent execution failed.";
  details := dict_set_if (nonempty exception_type) "exception_type" (vstr exception_type)
    [("agent", VStr agent); ("step_id", VStr step_id); ("cause", VStr cause)] |}.

Definition UnsupportedTransformConfigError (step_id : string) (operation : option string) :
    WorkflowStepError := {|
  code := "unsupported_transform_configuration";
  message := "Transform step is missing a supported transform configuration.";
  details := dict_set_if (nonempty operation) "operation" (vstr operation)
    [("step_id", VStr step_id)] |}.

Definition NotifySideEffectNotConfiguredError (step_id connector : string) : WorkflowStepError := {|
  code := "notify_side_effect_not_configured";
  message := "Notify step is missing a configured delivery path.";
  details := [("step_id", VStr step_id); ("connector", VStr connector)] |}.

Definition NotifyActionContainedError (step_id connector reason : string) (governance : option dict) :
    WorkflowStepError :=
  let g := match governance with Some d => VMap d | None => VNone end in {|
  code := "notify_action_contained";
  message := "Notify side effect was contained by the action policy.";
  details := dict_set_if (truthy g) "governance" g
    [("step_id", VStr step_id); ("connector", VStr connector); ("reason", VStr reason)] |}.

Definition ConnectorToolConfigError (step_id : string) (connector tool : option string) :
    WorkflowStepError := {|
  code := "connector_tool_config_missing";
  message := "Connector tool step is missing connector or tool configuration.";
  details := [("step_id", VStr step_id); ("connector", vstr connector); ("tool", vstr tool)] |}.

(** [a or b] *)
Definition py_or (a b : pyval) : pyval := if truthy a then a else b.

Definition ConnectorToolExecutionError `{PyStr} (step_id connector tool : string) (result : dict) :
    WorkflowStepError := {|
  code := "connector_tool_execution_failed";
  message := py_str (py_or (dget result "message")
    (py_or (dget result "error") (VStr (connector +:+ "." +:+ tool +:+ " failed."))));
  details := [("step_id", VStr step_id); ("connector", VStr connector); ("tool", VStr tool);
    ("provider_error", dget result "error"); ("http_status", dget result "http_status");
    ("error_class", dget result "error_class")] |}.

Definition ExternalWriteConfirmationMissingError (step_id action : string)
    (connector mode : option string) (reason : string)
    (final_state next_action audit_reference : option string) (code : string) : WorkflowStepError := {|
  code := code;
  message := "External marketing write step cannot complete without write confirmation.";
  details :=
    dict_set_if (nonempty audit_reference) "audit_reference" (vstr audit_reference)
    (dict_set_if (nonempty next_action) "next_action" (vstr next_action)
    (dict_set_if (nonempty final_state) "final_state" (vstr final_state)
    (dict_set_if (nonempty mode) "mode" (vstr mode)
    (dict_set_if (nonempty connector) "connector" (vstr connector)
    [("step_id", VStr step_id); ("action", VStr action); ("reason", VStr reason)])))) |}.

Definition ParallelChildError (step_id : string) (failed_children : list dict) : WorkflowStepError := {|
  code := "parallel_child_failed";
  message := "One or more parallel child steps failed.";
  details := [("step_id", VStr step_id); ("failed_children", VList (VMap <$> failed_children))] |}.

Definition UnknownStepStatusError (step_id : string) (status : option string) : WorkflowStepError := {|
  code := "unknown_step_status";
  message := "Workflow step returned an unsupported status.";
  details := [("step_id", VStr step_id); ("status", vstr status)] |}.

(** * Results *)

Definition failure_result (step_id step_type : string) (failure : WorkflowStepError) (output : pyval) : dict :=
  [("step_id", VStr step_id); ("type", VStr step_type); ("status", VStr "failed"); ("output", output);
   ("error", VMap (to_error failure))].

Definition stubbed_result (step_id step_type code message : string) (output : pyval) (extra : dict) : dict :=
  foldl (λ d kv, dict_set kv.1 kv.2 d)
    [("step_id", VStr step_id); ("type", VStr step_type); ("status", VStr "stubbed");
     ("stubbed", VBool true); ("code", VStr code); ("reason", VStr message);
     ("output", match output with VNone => VMap [] | o => o end)] extra.

(** An exception as the code sees it: its class name and its text. *)
Record py_exception := { exception_type : string; cause : string }.

Definition exception_child_result (exc : py_exception) (child_id : string) : dict :=
  [("step_id", VStr child_id); ("status", VStr "failed"); ("output", VNone);
   ("error", VMap [("code", VStr "parallel_child_exception");
      ("message", VStr "Parallel child raised an exception.");
      ("details", VMap [("exception_type", VStr (exception_type exc)); ("cause", VStr (cause exc))])])].

(** [d.setdefault(k, v)] *)
Definition setdefault (k : string) (v : pyval) (d : dict) : dict :=
  match assoc k d with Some _ => d | None => dict_set k v d end.

(** What a child task produced: an exception or a value. *)
Definition normalize_child_result `{PyStr} (value : py_exception + pyval) (child_id : string) :
    result exn dict :=
  match value with
  | inl exc => Ok (exception_child_result exc child_id)
  | inr (VMap value) =>
      let normalized := setdefault "step_id" (VStr child_id) value in
      let status := dget normalized "status" in
      allowed ← status_in status ALLOWED_STEP_STATUSES;
      if (allowed : bool) then Ok (setdefault "output" (VMap []) normalized)
      else
        let sid := py_str (py_or (dget normalized "step_id") (VStr child_id)) in
        Ok (failure_result sid (py_str (py_or (dget normalized "type") (VStr "parallel_child")))
              (UnknownStepStatusError sid
                 match status with VNone => None | s => Some (py_str s) end)
              (VMap normalized))
  | inr value => Ok [("step_id", VStr child_id); ("status", VStr "completed"); ("output", value)]
  end.

Definition is_success_status (status : pyval) : result exn bool := status_in status SUCCESSFUL_STEP_STATUSES.
Definition is_failure_status (status : pyval) : result exn bool := status_in status FAILED_STEP_STATUSES.

#[global] Arguments ALLOWED_STEP_STATUSES : simpl never.

(** * Facts *)

Lemma status_in_true v statuses :
  status_in v statuses = Ok true ↔ ∃ s, v = VStr s ∧ s ∈ statuses.
Proof.
  split.
  - destruct v; cbn; intros [= Hs]. eexists. split; [done|]. by apply bool_decide_eq_true in Hs.
  - intros (s & -> & Hs). cbn. by rewrite bool_decide_eq_true_2.
Qed.

Lemma assoc_setdefault k j v d :
  assoc j (setdefault k v d) =
  match assoc j d with Some w => Some w | None => if String.eqb j k then Some v else None end.
Proof.
  unfold setdefault. destruct (assoc k d) as [w|] eqn:Hk.
  - destruct (assoc j d) eqn:Hj; [done|]. destruct (String.eqb_spec j k); congruence.
  - rewrite assoc_dict_set. destruct (String.eqb_spec j k) as [->|]; [by rewrite Hk|].
    by destruct (assoc j d).
Qed.

(** Normalising a child result either raises (a status that is a list or a
    mapping) or gives a dictionary with an allowed status, an output and a step
    id, whatever the child returned or raised; a dictionary that already has the
    three is returned unchanged. *)
Theorem normalize_child_result_contract `{PyStr} value child_id :
  match normalize_child_result value child_id with
  | Ok d => (∃ s, assoc "status" d = Some (VStr s) ∧ s ∈ ALLOWED_STEP_STATUSES) ∧
            is_Some (assoc "output" d) ∧ is_Some (assoc "step_id" d) ∧
            (∀ d0 s, value = inr (VMap d0) → assoc "status" d0 = Some (VStr s) →
               s ∈ ALLOWED_STEP_STATUSES → is_Some (assoc "output" d0) → is_Some (assoc "step_id" d0) →
               d = d0)
  | Err e => e = Unhashable ∧ ∃ d0, value = inr (VMap d0) ∧
             ∀ s, assoc "status" d0 ≠ Some (VStr s)
  end.
Proof.
  assert (∀ s, s ∈ ["failed"; "completed"] → s ∈ ALLOWED_STEP_STATUSES) as Hin.
  { intros s Hs. unfold ALLOWED_STEP_STATUSES. set_solver. }
  assert (assoc "status" [] = @None pyval) by done.
  destruct value as [exc|v]; cbn; [|destruct v; cbn]; try solve [
    split; [eexists; split; [done|]; apply Hin; set_solver|];
    split; [eauto|]; split; [eauto|]; by intros].
  set (n := setdefault "step_id" (VStr child_id) kvs).
  destruct (status_in (dget n "status") ALLOWED_STEP_STATUSES) as [[]|e] eqn:Hst; cbn.
  - apply status_in_true in Hst as (s & Hs & Hall).
    assert (assoc "status" kvs = Some (VStr s)) as Hk.
    { unfold dget, n in Hs. rewrite assoc_setdefault in Hs. destruct (assoc "status" kvs); by simplify_eq/=. }
    unfold n. rewrite !assoc_setdefault, Hk. cbn. split; [eauto|]. split; [|split].
    + destruct (assoc "output" kvs); eauto.
    + destruct (assoc "step_id" kvs); cbn; eauto.
    + intros d0 s0 [= <-] _ _ [o Ho] [i Hi]. unfold setdefault at 2. rewrite Hi.
      unfold setdefault. by rewrite Ho.
  - split; [eexists; split; [done|]; apply Hin; set_solver|]. split; [eauto|]. split; [eauto|].
    intros d0 s [= <-] Hs Hall _ _. exfalso. unfold dget, n in Hst. rewrite assoc_setdefault, Hs in Hst.
    cbn in Hst. by rewrite bool_decide_eq_true_2 in Hst.
  - assert (e = Unhashable) as -> by (destruct (dget n "status"); cbn in Hst; by simplify_eq).
    split; [done|]. exists kvs. split; [done|]. intros s Hs. unfold dget, n in Hst.
    by rewrite assoc_setdefault, Hs in Hst.
Qed.
