(* ===== verification/Conditions.v ===== *)
(** Conditions of workflow steps and approval policies: src/workflows/condition_evaluator.py.

    Values of the context are JSON values, as the callers keep them. The reading of list
    literals ([ast.literal_eval]) and of ISO dates ([datetime.fromisoformat]) are
    operations of [ConditionEnv]. Evaluation recurses on parts of the expression; the fuel
    is its length, which is always enough ([evaluation_returns]). *)

From Stdlib Require Import Ascii.
From S2P Require Import Prelude PyVal PyText PyNumber StepResults.

Local Open Scope Z_scope.

(** * Texts *)

(** [s.split(sep, 1)] when [sep] occurs *)
Fixpoint split_first (sep l : list ascii) : option (list ascii * list ascii) :=
  match strip_prefix sep l with
  | Some rest => Some ([], rest)
  | None => match l with [] => None | c :: l' => (λ '(a, b), (c :: a, b)) <$> split_first sep l' end
  end.

Fixpoint split_all (fuel : nat) (sep l : list ascii) : list (list ascii) :=
  match fuel with
  | O => [l]
  | S fuel' => match split_first sep l with Some (a, b) => a :: split_all fuel' sep b | None => [l] end
  end.

(** [s.split(sep)] for a separator that is not empty *)
Definition split_text (sep s : string) : list string :=
  of_chars <$> split_all (length (chars s)) (chars sep) (chars s).

Definition split_once (sep s : string) : option (string * string) :=
  (λ '(a, b), (of_chars a, of_chars b)) <$> split_first (chars sep) (chars s).

Definition drop_text (n : nat) (s : string) : string := of_chars (drop n (chars s)).

(** * Operators *)

Inductive Op := Gt_ | Lt_ | Ge_ | Le_ | Eq_ | Ne_.

#[global] Instance Op_eq_dec : EqDecision Op.
Proof. solve_decision. Defined.

Definition OPS : list (string * Op) := [(">", Gt_); ("<", Lt_); (">=", Ge_); ("<=", Le_); ("==", Eq_); ("!=", Ne_)].

(** [sorted(OPS.items(), key=lambda x: -len(x[0]))] *)
Definition sorted_OPS : list (string * Op) := sort_by (λ a b, (String.length (fst b) <=? String.length (fst a))%nat) OPS.

Definition ordering (op : Op) : bool := match op with Eq_ | Ne_ => false | _ => true end.

(** The operator on two values of which the comparison is known; [None] is a NaN. *)
Definition op_compare (op : Op) (c : option comparison) : bool :=
  match op, c with
  | Ne_, None => true
  | _, None => false
  | Gt_, Some Gt | Lt_, Some Lt | Eq_, Some Eq => true
  | Ge_, Some (Gt | Eq) | Le_, Some (Lt | Eq) => true
  | Ne_, Some (Lt | Gt) => true
  | _, _ => false
  end.

Definition op_text (op : Op) (a b : string) : bool := op_compare op (Some (String.compare a b)).

(** Two naive or two aware dates; [None] is the [TypeError] of a mixed pair. *)
Definition op_datetime (op : Op) (a b : datetime) : option bool :=
  match utcoffset a, utcoffset b with
  | None, None => Some (op_compare op (Some (wall a ?= wall b)))
  | Some _, Some _ => Some (op_compare op (Some (instant a ?= instant b)))
  | _, _ => None
  end.

(** [OverflowError] of a number too large for a float, an error of [ast.literal_eval] the
    code does not catch, and fuel that ran out, which does not happen. *)
Inductive condition_error := Overflow | LiteralError | OutOfFuel.

(** [ValueError] and [SyntaxError], which the code catches, and any other error *)
Inductive literal_error := BadLiteral | OtherLiteralError.

Class ConditionEnv := {
  (** The items when the literal is a list, tuple or set; [Ok None] for any other literal *)
  literal_eval : string → result literal_error (option (list pyval));
  fromisoformat : string → option datetime;
}.

Section evaluator.
Context `{PyStr, ConditionEnv}.

(** * Operands *)

Definition is_quote (c : ascii) : bool := Ascii.eqb c "'" || Ascii.eqb c "034".

Definition _is_quoted (token : list ascii) : bool :=
  match token, last token with
  | a :: _ :: _, Some b => Ascii.eqb a b && is_quote a
  | _, _ => false
  end.

(** What stands between the first and the last character *)
Definition inside (token : list ascii) : list ascii := removelast (tail token).

Fixpoint walk_path (parts : list string) (val : pyval) : option pyval :=
  match parts with
  | [] => Some val
  | p :: parts' => match val with VMap kvs => v ← assoc p kvs; walk_path parts' v | _ => None end
  end.

(** [None] is [MISSING] *)
Definition _resolve (token : string) (context : dict) (literal_fallback : bool) : option pyval :=
  let token := strip token in
  if _is_quoted (chars token) then Some (VStr (of_chars (inside (chars token))))
  else match walk_path (split dot token) (VMap context) with
  | Some v => Some v
  | None => if literal_fallback then Some (VStr token) else None
  end.

Definition _parse_list (token : string) (context : dict) : result condition_error (option (list pyval)) :=
  if starts_with "[" token || starts_with "(" token then
    match literal_eval token with
    | Ok items => Ok items
    | Err BadLiteral => Ok None
    | Err OtherLiteralError => Err LiteralError
    end
  else Ok (match _resolve token context false with Some (VList l) => Some l | _ => None end).

(** [float(a), float(b)]: [Ok None] when one of them is not a number *)
Definition both_floats (a b : pyval) : result condition_error (option (pyfloat * pyfloat)) :=
  match py_float a with
  | Err NotANumber => Ok None
  | Err OverflowError => Err Overflow
  | Ok x =>
      match py_float b with
      | Err NotANumber => Ok None
      | Err OverflowError => Err Overflow
      | Ok y => Ok (Some (x, y))
      end
  end.

Definition _values_equal (a b : pyval) : result condition_error bool :=
  fs ← both_floats a b;
  match (fs : option (pyfloat * pyfloat)) with
  | Some (x, y) => Ok (op_compare Eq_ (float_compare x y))
  | None => Ok (String.eqb (py_str a) (py_str b))
  end.

(** [any] and [all] of a generator stop at the first item that decides. *)
Fixpoint any_res {A} (f : A → result condition_error bool) (l : list A) : result condition_error bool :=
  match l with
  | [] => Ok false
  | x :: l' => b ← f x; if b : bool then Ok true else any_res f l'
  end.

Fixpoint all_res {A} (f : A → result condition_error bool) (l : list A) : result condition_error bool :=
  match l with
  | [] => Ok true
  | x :: l' => b ← f x; if b : bool then all_res f l' else Ok false
  end.

Definition _split_keyword (expression keyword : string) : option (list string) :=
  let up := " " +:+ upper keyword +:+ " " in
  let lo := " " +:+ lower keyword +:+ " " in
  if contains_text up expression then Some (split_text up expression)
  else if contains_text lo expression then Some (split_text lo expression)
  else None.

Definition negated (expression : string) : bool := starts_with "NOT " expression || starts_with "not " expression.

(** The membership test an atom is, and the two texts around it *)
Definition membership_of (expression : string) : option (bool * string * string) :=
  match split_once " not in " expression with
  | Some (l, r) => Some (true, l, r)
  | None => (λ '(l, r), (false, l, r)) <$> split_once " in " expression
  end.

(** The comparison an atom is: the first operator, longest first, that occurs in it *)
Fixpoint comparison_in (ops : list (string * Op)) (expression : string) : option (Op * string * string) :=
  match ops with
  | [] => None
  | (t, op) :: ops' =>
      match split_once t expression with
      | Some (l, r) => Some (op, l, r)
      | None => comparison_in ops' expression
      end
  end.
Definition comparison_of : string → option (Op * string * string) := comparison_in sorted_OPS.

(** * The lenient evaluator *)

Definition TRUE_WORDS : list string := ["true"; "1"; "yes"].
Definition FALSE_WORDS : list string := ["false"; "0"; "no"].
Definition among (s : string) (l : list string) : bool := bool_decide (s ∈ l).

Definition member (negate : bool) (left_val : pyval) (members : list pyval) : result condition_error bool :=
  found ← any_res (_values_equal left_val) members;
  Ok (if negate then negb found else found).

Definition evaluate_atom (expression : string) (context : dict) : result condition_error bool :=
  match membership_of expression with
  | Some (negate, lhs, rhs) =>
      match _resolve (strip lhs) context false with
      | None => Ok false
      | Some left_val =>
          members ← _parse_list (strip rhs) context;
          match (members : option (list pyval)) with
          | None => Ok false
          | Some l => member negate left_val l
          end
      end
  | None =>
      match comparison_of expression with
      | Some (op, lhs, rhs) =>
          match _resolve (strip lhs) context false, _resolve (strip rhs) context true with
          | Some left_val, Some right_val =>
              fs ← both_floats left_val right_val;
              match (fs : option (pyfloat * pyfloat)) with
              | Some (x, y) => Ok (op_compare op (float_compare x y))
              | None => Ok (op_text op (py_str left_val) (py_str right_val))
              end
          | _, _ => Ok false
          end
      | None =>
          match _resolve expression context true with
          | None => Ok false
          | Some (VStr s) => Ok (among (lower (strip s)) TRUE_WORDS)
          | Some v => Ok (truthy v)
          end
      end
  end.

(** The body of the function, over its recursive calls *)
Definition evaluate_step (rec : string → result condition_error bool) (expression : string) (context : dict) : result condition_error bool :=
  let expression := strip expression in
  match _split_keyword expression "or" with
  | Some parts => any_res (λ p, rec (strip p)) parts
  | None =>
      match _split_keyword expression "and" with
      | Some parts => all_res (λ p, rec (strip p)) parts
      | None =>
          if negated expression then b ← rec (strip (drop_text 4 expression)); Ok (negb b)
          else evaluate_atom expression context
      end
  end.

Fixpoint evaluate (fuel : nat) (expression : string) (context : dict) : result condition_error bool :=
  match fuel with
  | O => Err OutOfFuel
  | S fuel' => evaluate_step (λ p, evaluate fuel' p context) expression context
  end.

Definition evaluate_condition (expression : string) (context : dict) : result condition_error bool :=
  evaluate (S (length (chars expression))) expression context.

(** * The strict evaluator *)

(** The quote still open after the text *)
Fixpoint open_quote (q : option ascii) (l : list ascii) : option ascii :=
  match l with
  | [] => q
  | ch :: l' =>
      open_quote (match q with
                  | Some o => if Ascii.eqb ch o then None else q
                  | None => if is_quote ch then Some ch else None
                  end) l'
  end.
Definition _unbalanced_quotes (part : string) : bool := bool_decide (is_Some (open_quote None (chars part))).

(** One character of [_BARE_RE] *)
Definition is_bare (c : ascii) : bool :=
  negb (is_space c || is_quote c || existsb (Ascii.eqb c) ["="; "<"; ">"; "!"; "("; ")"; "["; "]"; ","]%char).

Definition bare_token (l : list ascii) : bool := negb (bool_decide (l = [])) && forallb is_bare l.

Definition _well_formed_operand (token : string) : bool :=
  let l := chars (strip token) in
  if _is_quoted l then match l with q :: _ => negb (existsb (Ascii.eqb q) (inside l)) | [] => false end
  else bare_token l.

(** [str.isdigit] on one character: superscripts too *)
Definition is_digit_char (c : ascii) : bool := is_digit c || in_range c 178 179 || in_range c 185 185.

Definition _as_datetime (value : pyval) : option datetime :=
  match value with
  | VStr s => match chars (strip s) with
              | c :: _ => if is_digit_char c then fromisoformat (strip s) else None
              | [] => None
              end
  | _ => None
  end.

(** Past the case of a flag and a word *)
Definition compare_values (op : Op) (left_val right_val : pyval) : result condition_error (option bool) :=
  fs ← both_floats left_val right_val;
  match (fs : option (pyfloat * pyfloat)) with
  | Some (x, y) => Ok (Some (op_compare op (float_compare x y)))
  | None =>
      if negb (ordering op) then Ok (Some (op_text op (py_str left_val) (py_str right_val)))
      else match _as_datetime left_val, _as_datetime right_val with
      | Some a, Some b => Ok (op_datetime op a b)
      | _, _ => Ok None
      end
  end.

Definition is_word (s : string) : bool := among (lower s) TRUE_WORDS || among (lower s) FALSE_WORDS.

Definition _compare (op : Op) (left_val : pyval) (right_token : string) (context : dict) : result condition_error (option bool) :=
  match _resolve (strip right_token) context true with
  | None => Ok None
  | Some right_val =>
      match left_val, right_val with
      | VBool b, VStr s =>
          if is_word s then
            Ok (if ordering op then None
                else Some (op_compare op (Some (if Bool.eqb b (among (lower s) TRUE_WORDS) then Eq else Lt))))
          else compare_values op left_val right_val
      | _, _ => compare_values op left_val right_val
      end
  end.

Definition word_value (word : string) : option bool :=
  if among word TRUE_WORDS then Some true else if among word FALSE_WORDS then Some false else None.

Definition strict_atom (expression : string) (context : dict) : result condition_error (option bool) :=
  match membership_of expression with
  | Some (negate, lhs, rhs) =>
      if negb (_well_formed_operand lhs) then Ok None
      else
        members ← _parse_list (strip rhs) context;
        match _resolve (strip lhs) context false, (members : option (list pyval)) with
        | Some left_val, Some l => b ← member negate left_val l; Ok (Some b)
        | _, _ => Ok None
        end
  | None =>
      match comparison_of expression with
      | Some (op, lhs, rhs) =>
          if negb (_well_formed_operand lhs && _well_formed_operand rhs) then Ok None
          else match _resolve (strip lhs) context false with
          | None => Ok None
          | Some left_val => _compare op left_val rhs context
          end
      | None =>
          match _resolve expression context false with
          | None => Ok (word_value (lower expression))
          | Some (VStr s) => Ok (word_value (lower (strip s)))
          | Some v => Ok (Some (truthy v))
          end
      end
  end.

(** The values of the parts of an [OR] and of an [AND], by Kleene's logic *)
Definition kleene_or (vs : list (option bool)) : option bool :=
  if bool_decide (Some true ∈ vs) then Some true else if bool_decide (None ∈ vs) then None else Some false.
Definition kleene_and (vs : list (option bool)) : option bool :=
  if bool_decide (Some false ∈ vs) then Some false else if bool_decide (None ∈ vs) then None else Some true.

Definition strict_step (rec : string → result condition_error (option bool)) (expression : string) (context : dict) :
    result condition_error (option bool) :=
  let expression := strip expression in
  if String.eqb expression EmptyString then Ok None
  else match _split_keyword expression "or" with
  | Some parts =>
      if existsb _unbalanced_quotes parts then Ok None
      else vs ← map_res (λ _ p, rec p) 0 parts; Ok (kleene_or vs)
  | None =>
      match _split_keyword expression "and" with
      | Some parts =>
          if existsb _unbalanced_quotes parts then Ok None
          else vs ← map_res (λ _ p, rec p) 0 parts; Ok (kleene_and vs)
      | None =>
          if negated expression then v ← rec (drop_text 4 expression); Ok (negb <$> (v : option bool))
          else strict_atom expression context
      end
  end.

Fixpoint strict (fuel : nat) (expression : string) (context : dict) : result condition_error (option bool) :=
  match fuel with
  | O => Err OutOfFuel
  | S fuel' => strict_step (λ p, strict fuel' p context) expression context
  end.

Definition evaluate_condition_strict (expression : string) (context : dict) : result condition_error (option bool) :=
  strict (S (length (chars expression))) expression context.
End evaluator.

(** * Searching *)

Lemma contains_chars_true sub l : contains_chars sub l = true ↔ ∃ a b, l = a ++ sub ++ b.
Proof.
  split.
  - induction l as [|c l IH]; cbn; rewrite orb_true_iff, bool_decide_eq_true.
    + intros [[r E]|?]; [|done]. apply strip_prefix_app in E. by exists [], r.
    + intros [[r E]|Hc]; [apply strip_prefix_app in E; by exists [], r|].
      destruct (IH Hc) as (a & b & ->). by exists (c :: a), b.
  - intros (a & b & ->). induction a as [|c a IH]; cbn.
    + assert (bool_decide (is_Some (strip_prefix sub (sub ++ b))) = true) as E.
      { apply bool_decide_eq_true. exists b. by apply strip_prefix_app. }
      destruct (sub ++ b) eqn:El; cbn in *; by rewrite E.
    + rewrite IH. apply orb_true_r.
Qed.

Lemma split_first_Some sep l a b : split_first sep l = Some (a, b) → l = a ++ sep ++ b.
Proof.
  revert a b. induction l as [|c l IH]; intros a b; cbn; destruct (strip_prefix sep _) as [r|] eqn:E; intros [=]; simplify_eq.
  - by apply strip_prefix_app in E.
  - by apply strip_prefix_app in E.
  - destruct (split_first sep l) as [[a' b']|]; simplify_eq/=. by erewrite IH.
Qed.

Lemma split_first_None sep l : split_first sep l = None ↔ contains_chars sep l = false.
Proof.
  induction l as [|c l IH]; cbn; destruct (strip_prefix sep _) as [r|] eqn:E; try done.
  rewrite fmap_None, IH. done.
Qed.

Lemma split_all_length fuel sep l p : sep ≠ [] → contains_chars sep l = true → (length l ≤ fuel)%nat →
  p ∈ split_all fuel sep l → (length p < length l)%nat.
Proof.
  intros Hsep. revert l. induction fuel as [|fuel IH]; intros l Hc Hl; cbn.
  - destruct l; [|cbn in Hl; lia]. apply contains_chars_true in Hc as (a & b & E).
    by destruct a, sep.
  - destruct (split_first sep l) as [[a b]|] eqn:E; [|by apply split_first_None in E; congruence].
    apply split_first_Some in E as ->. rewrite !length_app in *. assert (length sep ≠ 0)%nat by by destruct sep.
    intros [->|Hp]%elem_of_cons; [lia|]. destruct (contains_chars sep b) eqn:Hb.
    + apply IH in Hp; [lia|done|lia].
    + destruct fuel; cbn in Hp; [|apply split_first_None in Hb; rewrite Hb in Hp];
        apply list_elem_of_singleton in Hp as ->; lia.
Qed.

(** * The fuel is enough *)

Lemma drop_while_length {A} (p : A → bool) l : (length (drop_while p l) ≤ length l)%nat.
Proof. induction l as [|x l IH]; cbn; [done|]. destruct (p x); cbn; lia. Qed.

Lemma strip_length s : (length (chars (strip s)) ≤ length (chars s))%nat.
Proof.
  unfold strip. rewrite chars_of_chars, length_reverse.
  etrans; [apply drop_while_length|]. rewrite length_reverse. apply drop_while_length.
Qed.

Lemma split_text_length sep s p : chars sep ≠ [] → contains_text sep s = true → p ∈ split_text sep s →
  (length (chars p) < length (chars s))%nat.
Proof.
  intros Hsep Hc (l & -> & Hl)%list_elem_of_fmap. rewrite chars_of_chars. by eapply split_all_length.
Qed.

Lemma split_keyword_length e k parts p : _split_keyword e k = Some parts → p ∈ parts → (length (chars p) < length (chars e))%nat.
Proof.
  unfold _split_keyword. intros E Hp.
  destruct (contains_text (" " +:+ _) e) eqn:Hu; simplify_eq; [by eapply split_text_length; [|done..]|].
  destruct (contains_text (" " +:+ lower k +:+ " ") e) eqn:Hl; simplify_eq. by eapply split_text_length; [|done..].
Qed.

Lemma negated_length e : negated e = true → (length (chars (drop_text 4 e)) < length (chars e))%nat.
Proof.
  unfold negated, starts_with, drop_text. rewrite orb_true_iff, !bool_decide_eq_true, chars_of_chars, length_drop.
  intros [[r E]|[r E]]; apply strip_prefix_app in E as ->; rewrite length_app; cbn; lia.
Qed.

Lemma any_res_ext {A} (f g : A → result condition_error bool) l : (∀ x, x ∈ l → f x = g x) → any_res f l = any_res g l.
Proof. induction l as [|x l IH]; cbn; intros E; [done|]. rewrite E by set_solver. by rewrite IH by set_solver. Qed.

Lemma all_res_ext {A} (f g : A → result condition_error bool) l : (∀ x, x ∈ l → f x = g x) → all_res f l = all_res g l.
Proof. induction l as [|x l IH]; cbn; intros E; [done|]. rewrite E by set_solver. by rewrite IH by set_solver. Qed.

Lemma map_res_ext {E A B} (f g : A → result E B) i l :
  (∀ x, x ∈ l → f x = g x) → map_res (λ _, f) i l = map_res (λ _, g) i l.
Proof. revert i. induction l as [|x l IH]; cbn; intros i Hx; [done|]. rewrite Hx by set_solver. by rewrite IH by set_solver. Qed.

Lemma map_res_no_error {E A B} (f : A → result E B) (e : E) i l :
  (∀ x, x ∈ l → f x ≠ Err e) → map_res (λ _, f) i l ≠ Err e.
Proof.
  revert i. induction l as [|x l IH]; cbn; intros i Hx; [done|].
  destruct (f x) as [y|] eqn:Ef; cbn; [|specialize (Hx x ltac:(set_solver)); congruence].
  specialize (IH (S i) ltac:(set_solver)). by destruct (map_res _ _ l).
Qed.

Lemma any_res_no_error {A} (f : A → result condition_error bool) e l : (∀ x, x ∈ l → f x ≠ Err e) → any_res f l ≠ Err e.
Proof.
  induction l as [|x l IH]; cbn; intros Hx; [done|].
  destruct (f x) as [[]|] eqn:Ef; cbn; [done|apply IH; set_solver|specialize (Hx x ltac:(set_solver)); congruence].
Qed.

Lemma all_res_no_error {A} (f : A → result condition_error bool) e l : (∀ x, x ∈ l → f x ≠ Err e) → all_res f l ≠ Err e.
Proof.
  induction l as [|x l IH]; cbn; intros Hx; [done|].
  destruct (f x) as [[]|] eqn:Ef; cbn; [apply IH; set_solver|done|specialize (Hx x ltac:(set_solver)); congruence].
Qed.

Section fuel.
Context `{PyStr, ConditionEnv} (context : dict).

(** The body calls itself on shorter texts only. *)
Lemma evaluate_step_ext r r' e :
  (∀ p, (length (chars p) < length (chars e))%nat → r p = r' p) → evaluate_step r e context = evaluate_step r' e context.
Proof.
  intros Hr. unfold evaluate_step. pose proof (strip_length e) as Hs.
  assert (Hrec : ∀ p, (length (chars p) < length (chars (strip e)))%nat → r (strip p) = r' (strip p))
    by (intros p Hp; pose proof (strip_length p); apply Hr; lia).
  destruct (_split_keyword (strip e) "or") as [parts|] eqn:Eo;
    [apply any_res_ext; intros p Hp; apply Hrec; by eapply split_keyword_length|].
  destruct (_split_keyword (strip e) "and") as [parts|] eqn:Ea;
    [apply all_res_ext; intros p Hp; apply Hrec; by eapply split_keyword_length|].
  destruct (negated (strip e)) eqn:En; [|done]. by rewrite Hrec by by apply negated_length.
Qed.

Lemma strict_step_ext r r' e :
  (∀ p, (length (chars p) < length (chars e))%nat → r p = r' p) → strict_step r e context = strict_step r' e context.
Proof.
  intros Hr. unfold strict_step. pose proof (strip_length e) as Hs.
  destruct (String.eqb (strip e) EmptyString); [done|].
  assert (Hrec : ∀ k parts p, _split_keyword (strip e) k = Some parts → p ∈ parts → r p = r' p).
  { intros k parts p Hk Hp. eapply split_keyword_length in Hk; [|done]. apply Hr. lia. }
  destruct (_split_keyword (strip e) "or") as [parts|] eqn:Eo; [|destruct (_split_keyword (strip e) "and") as [parts|] eqn:Ea].
  - destruct (existsb _ parts); [done|]. erewrite map_res_ext; [done|]. eauto.
  - destruct (existsb _ parts); [done|]. erewrite map_res_ext; [done|]. eauto.
  - destruct (negated (strip e)) eqn:En; [|done]. rewrite Hr; [done|]. apply negated_length in En. lia.
Qed.

Lemma evaluate_fuel n m e : (length (chars e) < n)%nat → (length (chars e) < m)%nat → evaluate n e context = evaluate m e context.
Proof.
  revert m e. induction n as [|n IH]; intros [|m] e Hn Hm; try lia. cbn. apply evaluate_step_ext. intros p Hp. apply IH; lia.
Qed.

Lemma strict_fuel n m e : (length (chars e) < n)%nat → (length (chars e) < m)%nat → strict n e context = strict m e context.
Proof.
  revert m e. induction n as [|n IH]; intros [|m] e Hn Hm; try lia. cbn. apply strict_step_ext. intros p Hp. apply IH; lia.
Qed.

Lemma evaluate_condition_eq e :
  evaluate_condition e context = evaluate_step (λ p, evaluate_condition p context) e context.
Proof. unfold evaluate_condition at 1. cbn [evaluate]. apply evaluate_step_ext. intros p Hp. apply evaluate_fuel; lia. Qed.

Lemma strict_eq e :
  evaluate_condition_strict e context = strict_step (λ p, evaluate_condition_strict p context) e context.
Proof. unfold evaluate_condition_strict at 1. cbn [strict]. apply strict_step_ext. intros p Hp. apply strict_fuel; lia. Qed.

Lemma values_no_fuel v l : any_res (_values_equal v) l ≠ Err OutOfFuel.
Proof.
  apply any_res_no_error. intros x _. unfold _values_equal, both_floats.
  destruct (py_float v) as [a|[]]; cbn; [destruct (py_float x) as [b|[]]|..]; done.
Qed.

Lemma member_no_fuel b v l : member b v l ≠ Err OutOfFuel.
Proof. unfold member. pose proof (values_no_fuel v l). by destruct (any_res _ l). Qed.

Lemma floats_no_fuel a b : both_floats a b ≠ Err OutOfFuel.
Proof. unfold both_floats. destruct (py_float a) as [x|[]]; [destruct (py_float b) as [y|[]]|..]; done. Qed.

Lemma parse_list_no_fuel t : _parse_list t context ≠ Err OutOfFuel.
Proof. unfold _parse_list. destruct (_ || _); [|done]. by destruct (literal_eval t) as [|[]]. Qed.

Lemma evaluate_atom_no_fuel e : evaluate_atom e context ≠ Err OutOfFuel.
Proof.
  unfold evaluate_atom. destruct (membership_of e) as [[[b l] r]|].
  - destruct (_resolve (strip l) context false); [|done]. pose proof (parse_list_no_fuel (strip r)).
    destruct (_parse_list (strip r) context) as [[ms|]|]; cbn; [apply member_no_fuel|done|congruence].
  - destruct (comparison_of e) as [[[op l] r]|].
    + destruct (_resolve (strip l) context false) as [x|]; [|done]. destruct (_resolve (strip r) context true) as [y|]; [|done].
      pose proof (floats_no_fuel x y). destruct (both_floats x y) as [[[]|]|]; cbn; congruence.
    + by destruct (_resolve e context true) as [[]|].
Qed.

Lemma compare_values_no_fuel op a b : compare_values op a b ≠ Err OutOfFuel.
Proof.
  unfold compare_values. pose proof (floats_no_fuel a b). destruct (both_floats a b) as [[[]|]|]; cbn; [done| |congruence].
  destruct (negb (ordering op)); [done|]. by destruct (_as_datetime a), (_as_datetime b).
Qed.

Lemma strict_atom_no_fuel e : strict_atom e context ≠ Err OutOfFuel.
Proof.
  unfold strict_atom. destruct (membership_of e) as [[[b l] r]|].
  - destruct (negb _); [done|]. pose proof (parse_list_no_fuel (strip r)).
    destruct (_parse_list (strip r) context) as [ms|]; cbn; [|congruence].
    destruct (_resolve (strip l) context false) as [x|], ms as [ms|]; try done.
    pose proof (member_no_fuel b x ms). destruct (member b x ms); cbn; congruence.
  - destruct (comparison_of e) as [[[op l] r]|].
    + destruct (negb _); [done|]. destruct (_resolve (strip l) context false) as [x|]; [|done].
      unfold _compare. destruct (_resolve (strip r) context true) as [y|]; [|done].
      destruct x, y; try apply compare_values_no_fuel. destruct (is_word s); [done|]. apply compare_values_no_fuel.
    + by destruct (_resolve e context false) as [[]|].
Qed.

(** Every evaluation ends: neither evaluator runs out of fuel, whatever the text. *)
Lemma evaluation_returns e :
  evaluate_condition e context ≠ Err OutOfFuel ∧ evaluate_condition_strict e context ≠ Err OutOfFuel.
Proof.
  induction e as [e IH] using (induction_ltof1 _ (λ e, length (chars e))). unfold ltof in IH. pose proof (strip_length e) as Hs.
  split.
  - rewrite evaluate_condition_eq. unfold evaluate_step.
    assert (Hrec : ∀ p, (length (chars p) < length (chars (strip e)))%nat → evaluate_condition (strip p) context ≠ Err OutOfFuel)
      by (intros p Hp; pose proof (strip_length p); apply IH; lia).
    destruct (_split_keyword (strip e) "or") as [parts|] eqn:Eo;
      [apply any_res_no_error; intros p Hp; apply Hrec; by eapply split_keyword_length|].
    destruct (_split_keyword (strip e) "and") as [parts|] eqn:Ea;
      [apply all_res_no_error; intros p Hp; apply Hrec; by eapply split_keyword_length|].
    destruct (negated (strip e)) eqn:En; [|apply evaluate_atom_no_fuel].
    specialize (Hrec (drop_text 4 (strip e)) (negated_length _ En)). by destruct (evaluate_condition (strip _) context).
  - rewrite strict_eq. unfold strict_step. destruct (String.eqb _ _); [done|].
    assert (Hrec : ∀ p, (length (chars p) < length (chars (strip e)))%nat → evaluate_condition_strict p context ≠ Err OutOfFuel)
      by (intros p Hp; apply IH; lia).
    assert (Hparts : ∀ k parts, _split_keyword (strip e) k = Some parts →
      map_res (λ _ p, evaluate_condition_strict p context) 0 parts ≠ Err OutOfFuel).
    { intros k parts Hk. apply map_res_no_error. intros p Hp. apply Hrec. by eapply split_keyword_length. }
    destruct (_split_keyword (strip e) "or") as [parts|] eqn:Eo; [|destruct (_split_keyword (strip e) "and") as [parts|] eqn:Ea].
    + destruct (existsb _ parts); [done|]. specialize (Hparts _ _ Eo). destruct (map_res _ _ parts); cbn; congruence.
    + destruct (existsb _ parts); [done|]. specialize (Hparts _ _ Ea). destruct (map_res _ _ parts); cbn; congruence.
    + destruct (negated (strip e)) eqn:En; [|apply strict_atom_no_fuel].
      specialize (Hrec _ (negated_length _ En)). by destruct (evaluate_condition_strict (drop_text 4 _) context).
Qed.
End fuel.

(** * Words *)

Definition space : ascii := " "%char.

(** The text between the spaces, [s.split(" ")] *)
Fixpoint words (l : list ascii) : list (list ascii) :=
  match l with
  | [] => [[]]
  | c :: l' => if Ascii.eqb c space then [] :: words l' else match words l' with h :: t => (c :: h) :: t | [] => [[c]] end
  end.

Definition spaceless (l : list ascii) : bool := forallb (λ c, negb (Ascii.eqb c space)) l.

Lemma words_cons l : ∃ h t, words l = h :: t.
Proof. destruct l as [|c l]; cbn; [eauto|]. destruct (Ascii.eqb c space); [eauto|]. destruct (words l); eauto. Qed.

Lemma words_app a b : words (a ++ space :: b) = words a ++ words b.
Proof.
  induction a as [|c a IH]; [done|]. cbn [app words]. rewrite IH.
  destruct (Ascii.eqb c space); [done|]. by destruct (words_cons a) as (h & t & ->).
Qed.

Lemma words_spaceless w : spaceless w = true → words w = [w].
Proof.
  induction w as [|c w IH]; cbn; [done|]. intros [Hc Hw]%andb_true_iff. rewrite IH by done.
  by destruct (Ascii.eqb c space).
Qed.

(** A word with the spaces around it *)
Definition spaced (w : list ascii) : list ascii := space :: w ++ [space].

Lemma words_spaced a w b : spaceless w = true → words (a ++ spaced w ++ b) = words a ++ w :: words b.
Proof.
  intros Hw. unfold spaced. cbn. rewrite words_app. f_equal. rewrite <- app_assoc. cbn. by rewrite words_app, words_spaceless.
Qed.

Lemma contains_spaced w l : spaceless w = true → contains_chars (spaced w) l = true →
  ∃ pre post, words l = pre ++ w :: post ∧ pre ≠ [] ∧ post ≠ [].
Proof.
  intros Hw (a & b & ->)%contains_chars_true. exists (words a), (words b). rewrite words_spaced by done.
  destruct (words_cons a) as (? & ? & ->), (words_cons b) as (? & ? & ->). done.
Qed.

Lemma not_contains_spaced w l : spaceless w = true → w ∉ words l → contains_chars (spaced w) l = false.
Proof.
  intros Hw Hl. destruct (contains_chars _ l) eqn:E; [|done].
  apply contains_spaced in E as (pre & post & E & _); [|done]. rewrite E in Hl. set_solver.
Qed.

Lemma first_word w a x r : spaceless w = true → a ++ space :: x = w ++ space :: r → ∃ t, words a = w :: t.
Proof.
  revert a. induction w as [|c w IH]; intros a Hw E.
  - destruct a as [|y a]; cbn in *; [eauto|]. injection E as -> _. eauto.
  - cbn in Hw. apply andb_true_iff in Hw as [Hc Hw]. destruct a as [|y a]; cbn in E.
    + injection E as <- _. done.
    + injection E as -> E. destruct (IH a Hw E) as [t Ht]. cbn. rewrite Ht. destruct (Ascii.eqb c space); [done|eauto].
Qed.

(** The first spaced word of a text is where the words before it do not name it. *)
Lemma split_first_spaced w a b : spaceless w = true → w ∉ tail (words a) → split_first (spaced w) (a ++ spaced w ++ b) = Some (a, b).
Proof.
  intros Hw. induction a as [|c a IH]; intros Ha.
  - cbn [app]. assert (strip_prefix (spaced w) (spaced w ++ b) = Some b) as E by by apply strip_prefix_app.
    revert E. unfold spaced at 2 4. cbn [app split_first]. by intros ->.
  - cbn [app split_first]. destruct (strip_prefix (spaced w) (c :: a ++ spaced w ++ b)) as [r|] eqn:E.
    + exfalso. apply strip_prefix_app in E. unfold spaced in E. cbn in E. injection E as -> E. rewrite <- !app_assoc in E.
      destruct (first_word w a _ _ Hw E) as [t Ht]. apply Ha. cbn. rewrite Ht. set_solver.
    + rewrite IH; [done|]. cbn in Ha. destruct (words_cons a) as (h & t & E'). rewrite E' in *.
      destruct (Ascii.eqb c space); set_solver.
Qed.

(** ** Joined texts *)

(** The parts with the word between them *)
Fixpoint join (w : list ascii) (parts : list (list ascii)) : list ascii :=
  match parts with
  | [] => []
  | [p] => p
  | p :: parts' => p ++ spaced w ++ join w parts'
  end.

Lemma join_cons w p q parts : join w (p :: q :: parts) = p ++ spaced w ++ join w (q :: parts).
Proof. done. Qed.

Lemma split_join w parts fuel : spaceless w = true → Forall (λ p, w ∉ words p) parts → parts ≠ [] →
  (length parts ≤ S fuel)%nat → split_all fuel (spaced w) (join w parts) = parts.
Proof.
  intros Hw Hp Hne. revert fuel. induction Hp as [|p [|q parts] Hp Hq IH]; intros fuel Hf; [done|..].
  - cbn [join]. destruct fuel; [done|]. cbn [split_all].
    by rewrite (proj2 (split_first_None _ _)) by by apply not_contains_spaced.
  - rewrite join_cons. cbn in Hf. destruct fuel as [|fuel]; [lia|]. cbn [split_all].
    rewrite split_first_spaced by (done || (destruct (words_cons p) as (h & t & E); rewrite E in *; set_solver)).
    f_equal. apply IH; [done|]. cbn. lia.
Qed.

Lemma join_words w v parts : spaceless w = true → v ≠ w → Forall (λ p, v ∉ words p) parts → v ≠ [] → v ∉ words (join w parts).
Proof.
  intros Hw Hv Hp Hne. induction Hp as [|p [|q parts] Hp Hq IH]; cbn [join].
  - cbn. set_solver.
  - done.
  - rewrite words_spaced by done. set_solver.
Qed.

Lemma join_length w parts : (length parts ≤ S (length (join w parts)))%nat.
Proof.
  induction parts as [|p [|q parts] IH]; cbn [length join]; [lia..|]. rewrite !length_app. unfold spaced. cbn in *.
  rewrite length_app. cbn. lia.
Qed.

(** * Composite conditions *)

(** The spelling of the three connectives *)
Record spelling := { kw_or : string; kw_and : string; kw_not : string }.

Definition spelling_ok (k : spelling) : Prop := kw_or k ∈ ["OR"; "or"] ∧ kw_and k ∈ ["AND"; "and"] ∧ kw_not k ∈ ["NOT"; "not"].

(** An atom under some negations, and a disjunction of conjunctions of them *)
Record literal := { nots : nat; atom : string }.
Abbreviation condition := (list (list literal)).

Fixpoint nots_chars (knot : list ascii) (n : nat) (a : list ascii) : list ascii :=
  match n with O => a | S n' => knot ++ space :: nots_chars knot n' a end.

Definition literal_chars (k : spelling) (l : literal) : list ascii := nots_chars (chars (kw_not k)) (nots l) (chars (atom l)).
Definition conj_chars (k : spelling) (c : list literal) : list ascii := join (chars (kw_and k)) (literal_chars k <$> c).
Definition condition_text (k : spelling) (d : condition) : string := of_chars (join (chars (kw_or k)) (conj_chars k <$> d)).

(** What an atom may be: a text without the four words, without spaces at its ends, that
    closes its quotes. *)
Record atom_ok (a : string) : Prop := {
  atom_trimmed : trimmed (chars a);
  atom_words : ∀ w, w ∈ ["OR"; "or"; "AND"; "and"] → chars w ∉ words (chars a);
  atom_quotes : open_quote None (chars a) = None;
}.

Definition condition_ok (d : condition) : Prop :=
  d ≠ [] ∧ Forall (λ c, c ≠ [] ∧ Forall (λ l, atom_ok (atom l)) c) d.

(** The meaning, given that of the atoms *)
Definition literal_value (val : string → option bool) (l : literal) : option bool := Nat.iter (nots l) (fmap negb) (val (atom l)).
Definition literal_holds (val : string → bool) (l : literal) : bool := Nat.iter (nots l) negb (val (atom l)).
Definition condition_holds (val : string → bool) (d : condition) : bool := existsb (forallb (literal_holds val)) d.
Definition condition_value (val : string → option bool) (d : condition) : option bool :=
  kleene_or ((λ c, kleene_and (literal_value val <$> c)) <$> d).

Lemma open_quote_app q a b : open_quote q (a ++ b) = open_quote (open_quote q a) b.
Proof. revert q. induction a as [|c a IH]; intros q; cbn; [done|]. by rewrite IH. Qed.

(** The cases of a member of a closed list *)
Ltac list_cases H :=
  repeat first [apply elem_of_nil in H; destruct H | apply elem_of_cons in H; destruct H as [-> | H]].

Lemma kleene_or_one v : kleene_or [v] = v.
Proof. by destruct v as [[]|]. Qed.

Lemma kleene_and_one v : kleene_and [v] = v.
Proof. by destruct v as [[]|]. Qed.

Lemma existsb_false_fmap {A B} (p : B → bool) (f : A → B) l : (∀ x, x ∈ l → p (f x) = false) → existsb p (f <$> l) = false.
Proof. induction l as [|x l IH]; cbn; intros Hl; [done|]. rewrite Hl by set_solver. apply IH. set_solver. Qed.

Lemma map_res_fmap {E A B C} (F : B → result E C) (g : A → B) i l :
  map_res (λ _, F) i (g <$> l) = map_res (λ _ x, F (g x)) i l.
Proof. revert i. induction l as [|x l IH]; intros i; cbn; [done|]. by rewrite IH. Qed.

Section composite.
Context (k : spelling) (Hk : spelling_ok k).

(** What the texts of literals and conjunctions have in common *)
Record part_ok (avoid : list string) (l : list ascii) : Prop := {
  part_trimmed : trimmed l;
  part_words : ∀ w, w ∈ avoid → chars w ∉ words l;
  part_quotes : open_quote None l = None;
}.

Lemma literal_part l : atom_ok (atom l) → part_ok ["OR"; "or"; "AND"; "and"] (literal_chars k l).
Proof.
  intros Ha. unfold literal_chars. destruct Hk as (_ & _ & Hn). induction (nots l) as [|n IH]; cbn [nots_chars].
  - destruct Ha. by split.
  - destruct IH as [Ht Hw Hq]. assert (Hspell : chars (kw_not k) = chars "NOT" ∨ chars (kw_not k) = chars "not")
      by (revert Hn; generalize (kw_not k); intros x Hx; list_cases Hx; auto).
    split.
    + change (space :: ?l) with ([space] ++ l). apply trimmed_app; [|done].
      destruct Hspell as [-> | ->]; do 2 eexists; split_and!; try reflexivity.
    + intros w Hin. rewrite words_app. specialize (Hw w Hin). rewrite words_spaceless by (by destruct Hspell as [-> | ->]).
      apply not_elem_of_app. split; [|done]. rewrite list_elem_of_singleton.
      destruct Hspell as [-> | ->]; clear Hw; list_cases Hin; vm_compute; discriminate.
    + rewrite open_quote_app. revert Hq. by destruct Hspell as [-> | ->].
Qed.

Lemma join_part w avoid parts : w ∈ ["OR"; "or"; "AND"; "and"] → w ∉ avoid → (∀ v, v ∈ avoid → v ≠ EmptyString) →
  parts ≠ [] → Forall (part_ok avoid) parts → part_ok avoid (join (chars w) parts).
Proof.
  intros Hw Hav Hne Hp Hparts.
  assert (Hsp : spaceless (chars w) = true ∧ open_quote None (spaced (chars w)) = None) by (list_cases Hw; split; reflexivity).
  destruct Hsp as [Hsp Hq]. split.
  - induction Hparts as [|p [|q parts] [Ht _ _] Hq' IH]; [done|done|]. rewrite join_cons. apply trimmed_app; [done|]. by apply IH.
  - intros v Hv. apply join_words; [done| |by eapply Forall_impl; [exact Hparts|]; intros p [_ Hp' _]; apply Hp'|].
    + intros E. apply (f_equal of_chars) in E. rewrite !of_chars_chars in E. by subst.
    + intros E. apply (f_equal of_chars) in E. rewrite of_chars_chars in E. by eapply Hne.
  - induction Hparts as [|p [|q parts] [_ _ Hqp] Hq' IH]; [done|done|]. rewrite join_cons.
    rewrite !open_quote_app, Hqp, Hq. by apply IH.
Qed.

Lemma split_keyword_join kw w parts avoid :
  kw ∈ ["or"; "and"] → w ∈ [upper kw; lower kw] → upper kw ∈ avoid → lower kw ∈ avoid →
  Forall (part_ok avoid) parts → parts ≠ [] →
  _split_keyword (of_chars (join (chars w) parts)) kw = if (1 <? length parts)%nat then Some (of_chars <$> parts) else None.
Proof.
  intros Hkw Hw Hu Hl Hparts Hne.
  assert (Hfree : Forall (λ p, chars (upper kw) ∉ words p) parts ∧ Forall (λ p, chars (lower kw) ∉ words p) parts).
  { split; (eapply Forall_impl; [exact Hparts|]); intros p [_ Hp _]; by apply Hp. }
  destruct Hfree as [Hfu Hfl].
  assert (Hsp : spaceless (chars (upper kw)) = true ∧ spaceless (chars (lower kw)) = true ∧ chars (upper kw) ≠ chars (lower kw) ∧
    chars (" " +:+ upper kw +:+ " ") = spaced (chars (upper kw)) ∧ chars (" " +:+ lower kw +:+ " ") = spaced (chars (lower kw)) ∧
    chars (upper kw) ≠ [] ∧ chars (lower kw) ≠ [])
    by (clear -Hkw; list_cases Hkw; split_and!; vm_compute; first [reflexivity | intros [=]]).
  destruct Hsp as (Su & Sl & Hd & Eu & El & Nu & Nl).
  unfold _split_keyword, contains_text, split_text. rewrite Eu, El, !chars_of_chars.
  destruct parts as [|p [|q parts]]; [done|..]; cbn [length Nat.ltb Nat.leb].
  - cbn [join]. rewrite Forall_singleton in Hfu, Hfl. by rewrite (not_contains_spaced _ p Su Hfu), (not_contains_spaced _ p Sl Hfl).
  - assert (Hin : ∀ v, contains_chars (spaced v) (join v (p :: q :: parts)) = true).
    { intros v. apply contains_chars_true. exists p, (join v (q :: parts)). apply join_cons. }
    list_cases Hw.
    + rewrite Hin. do 2 f_equal. apply split_join; [done..|]. apply join_length.
    + rewrite not_contains_spaced, Hin; [|done|by apply join_words]. do 2 f_equal. apply split_join; [done..|]. apply join_length.
Qed.

Lemma part_single avoid l kw : kw ∈ ["or"; "and"] → upper kw ∈ avoid → lower kw ∈ avoid → part_ok avoid l →
  _split_keyword (of_chars l) kw = None.
Proof.
  intros Hkw Hu Hl Hp. apply (split_keyword_join kw (upper kw) [l] avoid); [done|by left|done..|by apply Forall_singleton|done].
Qed.

Lemma literal_no_or l : part_ok ["OR"; "or"; "AND"; "and"] l → _split_keyword (of_chars l) "or" = None.
Proof. apply part_single; by apply (bool_decide_unpack (_ ∈ _)). Qed.

Lemma literal_no_and l : part_ok ["OR"; "or"; "AND"; "and"] l → _split_keyword (of_chars l) "and" = None.
Proof. apply part_single; by apply (bool_decide_unpack (_ ∈ _)). Qed.

Lemma conj_no_or l : part_ok ["OR"; "or"] l → _split_keyword (of_chars l) "or" = None.
Proof. apply part_single; by apply (bool_decide_unpack (_ ∈ _)). Qed.

Lemma part_text avoid l : part_ok avoid l →
  strip (of_chars l) = of_chars l ∧ String.eqb (of_chars l) EmptyString = false ∧ _unbalanced_quotes (of_chars l) = false.
Proof.
  intros [Ht _ Hq]. split_and!; [by apply strip_trimmed| |].
  - apply String.eqb_neq. intros E. apply (f_equal chars) in E. rewrite chars_of_chars in E. by eapply trimmed_nonempty.
  - unfold _unbalanced_quotes. rewrite chars_of_chars, Hq. done.
Qed.

Lemma conj_part c : c ≠ [] → Forall (λ l, atom_ok (atom l)) c → part_ok ["OR"; "or"] (conj_chars k c).
Proof.
  intros Hne Hc. unfold conj_chars. destruct Hk as (_ & Ha & _). apply join_part.
  - revert Ha. generalize (kw_and k). intros x Hx. list_cases Hx; set_solver.
  - revert Ha. generalize (kw_and k). intros x Hx. list_cases Hx; by apply (bool_decide_unpack (_ ∉ _)).
  - intros v Hv. by list_cases Hv.
  - by destruct c.
  - apply Forall_fmap. eapply Forall_impl; [exact Hc|]. intros l Hl. destruct (literal_part l Hl) as [Ht Hw Hq]. split; [done| |done].
    intros w Hin. apply Hw. list_cases Hin; set_solver.
Qed.

Lemma negated_nots n a : negated (of_chars (nots_chars (chars (kw_not k)) (S n) a)) = true ∧
  drop_text 4 (of_chars (nots_chars (chars (kw_not k)) (S n) a)) = of_chars (nots_chars (chars (kw_not k)) n a).
Proof.
  destruct Hk as (_ & _ & Hn). unfold negated, starts_with, drop_text. rewrite chars_of_chars. cbn [nots_chars].
  generalize (nots_chars (chars (kw_not k)) n a). revert Hn. generalize (kw_not k). intros x Hx l. list_cases Hx.
  - split; [|done]. apply orb_true_iff. left. apply bool_decide_eq_true. exists l. by apply strip_prefix_app.
  - split; [|done]. apply orb_true_iff. right. apply bool_decide_eq_true. exists l. by apply strip_prefix_app.
Qed.

Lemma literals_ok c : Forall (λ l, atom_ok (atom l)) c → Forall (part_ok ["OR"; "or"; "AND"; "and"]) (literal_chars k <$> c).
Proof. intros Hc. apply Forall_fmap. eapply Forall_impl; [exact Hc|]. intros l Hl. by apply literal_part. Qed.

Lemma conj_split c : c ≠ [] → Forall (λ l, atom_ok (atom l)) c →
  _split_keyword (of_chars (conj_chars k c)) "and" =
  if (1 <? length c)%nat then Some ((λ l, of_chars (literal_chars k l)) <$> c) else None.
Proof.
  intros Hne Hc. unfold conj_chars.
  rewrite (split_keyword_join "and" (kw_and k) _ ["OR"; "or"; "AND"; "and"]); try by apply (bool_decide_unpack (_ ∈ _)).
  - rewrite length_fmap, <- list_fmap_compose. done.
  - apply Hk.
  - by apply literals_ok.
  - by destruct c.
Qed.

Lemma condition_split d : condition_ok d →
  _split_keyword (condition_text k d) "or" = if (1 <? length d)%nat then Some ((λ c, of_chars (conj_chars k c)) <$> d) else None.
Proof.
  intros [Hne Hd]. unfold condition_text.
  rewrite (split_keyword_join "or" (kw_or k) _ ["OR"; "or"]); try by apply (bool_decide_unpack (_ ∈ _)).
  - rewrite length_fmap, <- list_fmap_compose. done.
  - apply Hk.
  - apply Forall_fmap. eapply Forall_impl; [exact Hd|]. intros c [Hc Hl]. by apply conj_part.
  - by destruct d.
Qed.

Lemma condition_trimmed d : condition_ok d → trimmed (chars (condition_text k d)).
Proof.
  intros [Hne Hd]. unfold condition_text. rewrite chars_of_chars. apply (part_trimmed []). apply join_part.
  - destruct Hk as [Ho _]. revert Ho. generalize (kw_or k). intros x Hx. list_cases Hx; set_solver.
  - set_solver.
  - set_solver.
  - by destruct d.
  - apply Forall_fmap. eapply Forall_impl; [exact Hd|]. intros c [Hc Hl]. destruct (conj_part c Hc Hl) as [Ht _ Hq]. split; [done|set_solver|done].
Qed.

Section strict.
Context `{PyStr, ConditionEnv} (context : dict) (val : string → option bool).

Lemma strict_literal l : atom_ok (atom l) → evaluate_condition_strict (atom l) context = Ok (val (atom l)) →
  evaluate_condition_strict (of_chars (literal_chars k l)) context = Ok (literal_value val l).
Proof.
  intros Ha Hv. destruct l as [n a]. induction n as [|n IH].
  - unfold literal_chars, literal_value. cbn in *. by rewrite of_chars_chars.
  - rewrite strict_eq. unfold strict_step. pose proof (literal_part {| nots := S n; atom := a |} Ha) as Hp.
    destruct (part_text _ _ Hp) as (-> & -> & _). rewrite (literal_no_or _ Hp), (literal_no_and _ Hp).
    unfold literal_chars in *. cbn [nots atom] in *. destruct (negated_nots n (chars a)) as [-> ->]. by rewrite IH.
Qed.

Lemma strict_conj c : c ≠ [] → Forall (λ l, atom_ok (atom l) ∧ evaluate_condition_strict (atom l) context = Ok (val (atom l))) c →
  evaluate_condition_strict (of_chars (conj_chars k c)) context = Ok (kleene_and (literal_value val <$> c)).
Proof.
  intros Hne Hc. apply Forall_and in Hc as [Ha Hv]. destruct c as [|l [|l' c]]; [done|..].
  - rewrite Forall_singleton in Ha, Hv. cbn. rewrite kleene_and_one. by apply strict_literal.
  - rewrite strict_eq. unfold strict_step. pose proof (conj_part _ Hne Ha) as Hp.
    destruct (part_text _ _ Hp) as (-> & -> & _). rewrite (conj_no_or _ Hp), (conj_split _ Hne Ha). cbn [length Nat.ltb Nat.leb].
    rewrite existsb_false_fmap by (intros x Hx; rewrite Forall_forall in Ha; by apply (part_text _ _ (literal_part x (Ha x Hx)))).
    rewrite map_res_fmap, (map_res_Ok _ (literal_value val)); [done|].
    intros _ x Hx. rewrite Forall_forall in Ha, Hv. apply strict_literal; auto.
Qed.

Lemma strict_condition d : condition_ok d →
  Forall (Forall (λ l, evaluate_condition_strict (atom l) context = Ok (val (atom l)))) d →
  evaluate_condition_strict (condition_text k d) context = Ok (condition_value val d).
Proof.
  intros Hok Hv. assert (Hconj : ∀ c, c ∈ d →
    evaluate_condition_strict (of_chars (conj_chars k c)) context = Ok (kleene_and (literal_value val <$> c)) ∧
    _unbalanced_quotes (of_chars (conj_chars k c)) = false).
  { intros c Hin. destruct Hok as [_ Hd]. rewrite Forall_forall in Hd, Hv. destruct (Hd c Hin) as [Hne Ha]. split.
    - apply strict_conj; [done|]. apply Forall_and. auto.
    - by apply (part_text _ _ (conj_part c Hne Ha)). }
  pose proof (condition_split d Hok) as Hs. pose proof (condition_trimmed d Hok) as Ht.
  destruct d as [|c [|c' d]]; [by destruct Hok|..].
  - unfold condition_value. cbn. rewrite kleene_or_one. by apply Hconj; left.
  - rewrite strict_eq. unfold strict_step. rewrite <- (of_chars_chars (condition_text _ _)), strip_trimmed, of_chars_chars by done.
    destruct (String.eqb_spec (condition_text k (c :: c' :: d)) EmptyString) as [E|_]; [rewrite E in Ht; by apply trimmed_nonempty in Ht|].
    rewrite Hs. cbn [length Nat.ltb Nat.leb]. rewrite existsb_false_fmap by (intros x Hx; by apply Hconj).
    rewrite map_res_fmap, (map_res_Ok _ (λ c, kleene_and (literal_value val <$> c))); [done|]. intros _ x Hx. by apply Hconj.
Qed.
End strict.

Section lenient.
Context `{PyStr, ConditionEnv} (context : dict) (val : string → bool).

Lemma lenient_literal l : atom_ok (atom l) → evaluate_condition (atom l) context = Ok (val (atom l)) →
  evaluate_condition (of_chars (literal_chars k l)) context = Ok (literal_holds val l).
Proof.
  intros Ha Hv. destruct l as [n a]. induction n as [|n IH].
  - unfold literal_chars, literal_holds. cbn in *. by rewrite of_chars_chars.
  - rewrite evaluate_condition_eq. unfold evaluate_step. pose proof (literal_part {| nots := S n; atom := a |} Ha) as Hp.
    pose proof (literal_part {| nots := n; atom := a |} Ha) as Hp'.
    destruct (part_text _ _ Hp) as (-> & _ & _). rewrite (literal_no_or _ Hp), (literal_no_and _ Hp).
    unfold literal_chars in *. cbn [nots atom] in *. destruct (negated_nots n (chars a)) as [-> ->].
    destruct (part_text _ _ Hp') as (-> & _ & _). by rewrite IH.
Qed.

Lemma all_res_fmap {A B} (F : B → result condition_error bool) (g : A → B) (h : A → bool) l :
  (∀ x, x ∈ l → F (g x) = Ok (h x)) → all_res F (g <$> l) = Ok (forallb h l).
Proof. induction l as [|x l IH]; cbn; intros Hl; [done|]. rewrite Hl by set_solver. cbn. destruct (h x); [|done]. apply IH. set_solver. Qed.

Lemma any_res_fmap {A B} (F : B → result condition_error bool) (g : A → B) (h : A → bool) l :
  (∀ x, x ∈ l → F (g x) = Ok (h x)) → any_res F (g <$> l) = Ok (existsb h l).
Proof. induction l as [|x l IH]; cbn; intros Hl; [done|]. rewrite Hl by set_solver. cbn. destruct (h x); [done|]. apply IH. set_solver. Qed.

Lemma lenient_conj c : c ≠ [] → Forall (λ l, atom_ok (atom l) ∧ evaluate_condition (atom l) context = Ok (val (atom l))) c →
  evaluate_condition (of_chars (conj_chars k c)) context = Ok (forallb (literal_holds val) c).
Proof.
  intros Hne Hc. apply Forall_and in Hc as [Ha Hv]. destruct c as [|l [|l' c]]; [done|..].
  - rewrite Forall_singleton in Ha, Hv. cbn [forallb]. rewrite andb_true_r. by apply lenient_literal.
  - rewrite evaluate_condition_eq. unfold evaluate_step. pose proof (conj_part _ Hne Ha) as Hp.
    destruct (part_text _ _ Hp) as (-> & _ & _). rewrite (conj_no_or _ Hp), (conj_split _ Hne Ha). cbn [length Nat.ltb Nat.leb].
    apply all_res_fmap. intros x Hx. rewrite Forall_forall in Ha, Hv.
    destruct (part_text _ _ (literal_part x (Ha x Hx))) as (-> & _). apply lenient_literal; auto.
Qed.

Lemma lenient_condition d : condition_ok d →
  Forall (Forall (λ l, evaluate_condition (atom l) context = Ok (val (atom l)))) d →
  evaluate_condition (condition_text k d) context = Ok (condition_holds val d).
Proof.
  intros Hok Hv. assert (Hconj : ∀ c, c ∈ d →
    evaluate_condition (strip (of_chars (conj_chars k c))) context = Ok (forallb (literal_holds val) c) ∧
    strip (of_chars (conj_chars k c)) = of_chars (conj_chars k c)).
  { intros c Hin. destruct Hok as [_ Hd]. rewrite Forall_forall in Hd, Hv. destruct (Hd c Hin) as [Hne Ha].
    destruct (part_text _ _ (conj_part c Hne Ha)) as (E & _). split; [|done].
    rewrite E. apply lenient_conj; [done|]. apply Forall_and. auto. }
  pose proof (condition_split d Hok) as Hs. pose proof (condition_trimmed d Hok) as Ht.
  destruct d as [|c [|c' d]]; [by destruct Hok|..].
  - unfold condition_holds, condition_text. cbn [existsb fmap list_fmap join]. rewrite orb_false_r.
    destruct (Hconj c) as [E Es]; [by left|]. by rewrite <- Es.
  - rewrite evaluate_condition_eq. unfold evaluate_step. rewrite <- (of_chars_chars (condition_text _ _)), strip_trimmed, of_chars_chars by done.
    rewrite Hs. cbn [length Nat.ltb Nat.leb]. apply any_res_fmap. intros x Hx. by apply Hconj.
Qed.
End lenient.
End composite.

(** * Comparisons *)

Definition op_symbol (op : Op) : list ascii := chars match op with Gt_ => ">" | Lt_ => "<" | Ge_ => ">=" | Le_ => "<=" | Eq_ => "==" | Ne_ => "!=" end.

(** [field op value] *)
Definition comparison_chars (f : list ascii) (op : Op) (r : list ascii) : list ascii := f ++ space :: op_symbol op ++ space :: r.
Definition comparison_text (f : list ascii) (op : Op) (r : list ascii) : string := of_chars (comparison_chars f op r).

Lemma bare_char c : is_bare c = true →
  is_space c = false ∧ is_quote c = false ∧ Ascii.eqb c space = false ∧ Forall (λ x, Ascii.eqb x c = false) ["="; "<"; ">"; "!"; "("; "["]%char.
Proof. destruct c as [[] [] [] [] [] [] [] []]; vm_compute; intros [=]; split_and!; repeat constructor. Qed.

Lemma bare_token_all (P : ascii → bool) f : bare_token f = true → (∀ c, is_bare c = true → P c = true) → forallb P f = true.
Proof.
  unfold bare_token. intros [_ Hf]%andb_true_iff HP. apply forallb_forall. intros c Hc.
  apply HP. by apply (proj1 (forallb_forall _ _) Hf).
Qed.

Lemma bare_nonempty f : bare_token f = true → f ≠ [].
Proof. unfold bare_token. intros [Hf _]%andb_true_iff ->. done. Qed.

Lemma bare_nospace f : bare_token f = true → forallb (λ c, negb (is_space c)) f = true.
Proof. intros Hf. apply bare_token_all; [done|]. intros c Hc. by destruct (bare_char c Hc) as (-> & _). Qed.

Lemma bare_spaceless f : bare_token f = true → spaceless f = true.
Proof. intros Hf. apply bare_token_all; [done|]. intros c Hc. by destruct (bare_char c Hc) as (_ & _ & -> & _). Qed.

Lemma bare_unquoted f : bare_token f = true → _is_quoted f = false ∧ open_quote None f = None.
Proof.
  intros Hf. assert (Hq : forallb (λ c, negb (is_quote c)) f = true).
  { apply bare_token_all; [done|]. intros c Hc. by destruct (bare_char c Hc) as (_ & -> & _). }
  clear Hf. split.
  - destruct f as [|a [|b f]]; cbn; [done..|]. cbn in Hq. apply andb_true_iff in Hq as [Ha _]. apply negb_true_iff in Ha.
    rewrite Ha. destruct (last (b :: f)); [apply andb_false_r|done].
  - induction f as [|a f IH]; cbn in *; [done|]. apply andb_true_iff in Hq as [Ha Hq]. apply negb_true_iff in Ha. rewrite Ha. auto.
Qed.

Lemma bare_strip f : bare_token f = true →
  strip (of_chars f) = of_chars f ∧ strip (of_chars (f ++ [space])) = of_chars f ∧ strip (of_chars (space :: f)) = of_chars f.
Proof.
  intros Hf. pose proof (bare_nospace f Hf) as Hs. pose proof (bare_nonempty f Hf) as Hne. split_and!.
  - by apply strip_of_chars.
  - unfold strip. rewrite chars_of_chars, (drop_while_head _ f) by done. rewrite reverse_snoc. cbn [drop_while].
    change (is_space space) with true. cbn match. rewrite drop_while_none by by rewrite forallb_reverse. by rewrite reverse_involutive.
  - unfold strip. rewrite chars_of_chars. cbn [drop_while]. change (is_space space) with true. cbn match.
    rewrite (drop_while_none _ f), drop_while_none, reverse_involutive by (done || by rewrite forallb_reverse). done.
Qed.

Lemma split_first_skip x sep a l : forallb (λ c, negb (Ascii.eqb x c)) a = true →
  split_first (x :: sep) (a ++ l) = (λ '(y, z), (a ++ y, z)) <$> split_first (x :: sep) l.
Proof.
  induction a as [|c a IH]; cbn [app]; intros Ha; [by destruct (split_first _ l) as [[]|]|].
  cbn in Ha. apply andb_true_iff in Ha as [Hc Ha]. apply negb_true_iff in Hc. cbn [split_first strip_prefix]. rewrite Hc, IH by done.
  by destruct (split_first (x :: sep) l) as [[]|].
Qed.

Lemma split_first_free x sep a : forallb (λ c, negb (Ascii.eqb x c)) a = true → split_first (x :: sep) a = None.
Proof. intros Ha. rewrite <- (app_nil_r a), split_first_skip by done. done. Qed.

Lemma bare_free x f : x ∈ ["="; "<"; ">"; "!"]%char → bare_token f = true → forallb (λ c, negb (Ascii.eqb x c)) f = true.
Proof.
  intros Hx Hf. apply bare_token_all; [done|]. intros c Hc. destruct (bare_char c Hc) as (_ & _ & _ & Hall).
  rewrite Forall_forall in Hall. rewrite Hall; [done|]. set_solver.
Qed.

Section comparison.
Context (f r : list ascii) (op : Op) (Hf : bare_token f = true) (Hr : bare_token r = true).

Lemma symbol_spaceless : spaceless (op_symbol op) = true.
Proof. by destruct op. Qed.

Lemma comparison_words : words (comparison_chars f op r) = [f; op_symbol op; r].
Proof.
  unfold comparison_chars. rewrite !words_app, !words_spaceless; [done|by apply bare_spaceless|exact symbol_spaceless|by apply bare_spaceless].
Qed.

Lemma comparison_no_word w : spaceless w = true → w ≠ op_symbol op → contains_chars (spaced w) (comparison_chars f op r) = false.
Proof.
  intros Hw Hne. destruct (contains_chars _ _) eqn:E; [|done]. apply contains_spaced in E as (pre & post & E & Hpre & Hpost); [|done].
  rewrite comparison_words in E. destruct pre as [|a [|b [|c pre]]]; try done; cbn in E; simplify_eq; by destruct pre.
Qed.

Lemma comparison_no_keyword kw : kw ∈ ["or"; "and"] → _split_keyword (comparison_text f op r) kw = None.
Proof.
  intros Hkw. unfold _split_keyword, contains_text, comparison_text. rewrite !chars_of_chars.
  assert (chars (" " +:+ upper kw +:+ " ") = spaced (chars (upper kw)) ∧ chars (" " +:+ lower kw +:+ " ") = spaced (chars (lower kw)) ∧
    spaceless (chars (upper kw)) = true ∧ spaceless (chars (lower kw)) = true ∧
    chars (upper kw) ≠ op_symbol op ∧ chars (lower kw) ≠ op_symbol op) as (-> & -> & Su & Sl & Du & Dl)
    by (list_cases Hkw; destruct op; split_and!; vm_compute; first [reflexivity | intros [=]]).
  by rewrite (comparison_no_word _ Su Du), (comparison_no_word _ Sl Dl).
Qed.

Lemma comparison_no_membership : membership_of (comparison_text f op r) = None.
Proof.
  unfold membership_of, split_once, comparison_text. rewrite chars_of_chars.
  rewrite (proj2 (split_first_None (chars " not in ") _)).
  - rewrite (proj2 (split_first_None (chars " in ") _)); [done|]. apply (comparison_no_word (chars "in")); [done|]. by destruct op.
  - destruct (contains_chars _ _) eqn:E; [|done]. apply contains_chars_true in E as (a & b & E).
    assert (contains_chars (spaced (chars "not")) (comparison_chars f op r) = true) as E'.
    { apply contains_chars_true. exists a, (chars "in " ++ b). by rewrite E. }
    rewrite comparison_no_word in E'; [done|done|by destruct op].
Qed.

Lemma comparison_positive : of_chars f ∉ ["NOT"; "not"] → negated (comparison_text f op r) = false.
Proof.
  intros Hn. unfold negated, starts_with, comparison_text. rewrite chars_of_chars.
  assert (Hno : ∀ w, spaceless (chars w) = true → w ≠ of_chars f →
    bool_decide (is_Some (strip_prefix (chars w ++ [space]) (comparison_chars f op r))) = false).
  { intros w Hw Hne. apply bool_decide_eq_false. intros [x E]. apply strip_prefix_app in E. unfold comparison_chars in E.
    rewrite <- app_assoc in E. apply first_word in E as [t E]; [|done]. rewrite words_spaceless in E by by apply bare_spaceless.
    simplify_eq. by rewrite of_chars_chars in Hne. }
  change (chars "NOT ") with (chars "NOT" ++ [space]). change (chars "not ") with (chars "not" ++ [space]).
  rewrite (Hno "NOT"), (Hno "not"); [done|done|set_solver|done|set_solver].
Qed.

Lemma comparison_of_text : comparison_of (comparison_text f op r) = Some (op, of_chars (f ++ [space]), of_chars (space :: r)).
Proof.
  assert (Hskip : ∀ x sep l, x ∈ ["="; "<"; ">"; "!"]%char →
    split_first (x :: sep) (f ++ l) = (λ '(y, z), (f ++ y, z)) <$> split_first (x :: sep) l)
    by (intros; by apply split_first_skip, bare_free).
  assert (Hfree : ∀ x sep, x ∈ ["="; "<"; ">"; "!"]%char → split_first (x :: sep) r = None)
    by (intros; by apply split_first_free, bare_free).
  assert (Hin : ("="%char ∈ ["="; "<"; ">"; "!"]%char) ∧ ("<"%char ∈ ["="; "<"; ">"; "!"]%char) ∧
    (">"%char ∈ ["="; "<"; ">"; "!"]%char) ∧ ("!"%char ∈ ["="; "<"; ">"; "!"]%char)) by set_solver.
  destruct Hin as (Heq & Hlt & Hgt & Hbang).
  unfold comparison_of. change sorted_OPS with [(">=", Ge_); ("<=", Le_); ("==", Eq_); ("!=", Ne_); (">", Gt_); ("<", Lt_)].
  unfold comparison_text. cbn [comparison_in]. unfold split_once. rewrite !chars_of_chars. unfold comparison_chars, chars.
  cbn [String.list_ascii_of_string]. rewrite !Hskip by done.
  destruct op; cbn -[of_chars]; rewrite ?Hfree by done; done.
Qed.

Context `{PyStr, ConditionEnv} (context : dict).

(** The value of a field *)
Definition field_value (f : list ascii) : option pyval := walk_path (split dot (of_chars f)) (VMap context).

Lemma comparison_trimmed : strip (comparison_text f op r) = comparison_text f op r ∧ comparison_text f op r ≠ EmptyString.
Proof.
  assert (Ht : ∀ l, bare_token l = true → trimmed l).
  { intros l Hl. pose proof (bare_nospace l Hl) as Hs. pose proof (bare_nonempty l Hl). destruct l as [|a l]; [done|].
    destruct (last (a :: l)) as [b|] eqn:Eb; [|by apply last_None in Eb]. exists a, b.
    rewrite forallb_forall in Hs. split_and!; [done..| |]; apply negb_true_iff, Hs; [by left|].
    apply last_Some_elem_of in Eb. by apply list_elem_of_In. }
  assert (trimmed (comparison_chars f op r)) as Hc.
  { unfold comparison_chars. replace (space :: op_symbol op ++ space :: r) with ((space :: op_symbol op ++ [space]) ++ r)
      by (cbn; by rewrite <- app_assoc). apply trimmed_app; auto. }
  split; [by apply strip_trimmed|]. intros E. apply (f_equal chars) in E. unfold comparison_text in E. rewrite chars_of_chars in E.
  by apply trimmed_nonempty in Hc.
Qed.

Lemma bare_operand l : bare_token l = true →
  _well_formed_operand (of_chars (l ++ [space])) = true ∧ _well_formed_operand (of_chars (space :: l)) = true ∧
  _resolve (of_chars l) context false = walk_path (split dot (of_chars l)) (VMap context).
Proof.
  intros Hl. destruct (bare_strip l Hl) as (E1 & E2 & E3). destruct (bare_unquoted l Hl) as [Hq _].
  unfold _well_formed_operand, _resolve. rewrite E1, E2, E3, !chars_of_chars, Hq. split_and!; [done..|]. by destruct (walk_path _ _).
Qed.

Lemma strict_comparison : of_chars f ∉ ["NOT"; "not"] →
  evaluate_condition_strict (comparison_text f op r) context =
  match field_value f with None => Ok None | Some v => _compare op v (of_chars r) context end.
Proof.
  intros Hn. rewrite strict_eq. unfold strict_step. destruct comparison_trimmed as [-> Hne].
  destruct (String.eqb_spec (comparison_text f op r) EmptyString) as [|_]; [done|].
  rewrite (comparison_no_keyword "or"), (comparison_no_keyword "and"), (comparison_positive Hn) by set_solver.
  unfold strict_atom. rewrite comparison_no_membership, comparison_of_text.
  destruct (bare_operand f Hf) as (-> & _ & Ef), (bare_operand r Hr) as (_ & -> & _). cbn [andb negb].
  destruct (bare_strip f Hf) as (_ & -> & _). rewrite Ef. unfold field_value. destruct (walk_path _ _); [|done].
  unfold _compare. destruct (bare_strip r Hr) as (-> & _ & ->). done.
Qed.

Lemma lenient_comparison : of_chars f ∉ ["NOT"; "not"] →
  evaluate_condition (comparison_text f op r) context =
  match field_value f with
  | None => Ok false
  | Some v =>
      let w := default (VStr (of_chars r)) (field_value r) in
      fs ← both_floats v w;
      Ok match (fs : option (pyfloat * pyfloat)) with
         | Some (x, y) => op_compare op (float_compare x y)
         | None => op_text op (py_str v) (py_str w)
         end
  end.
Proof.
  intros Hn. rewrite evaluate_condition_eq. unfold evaluate_step. destruct comparison_trimmed as [-> Hne].
  rewrite (comparison_no_keyword "or"), (comparison_no_keyword "and"), (comparison_positive Hn) by set_solver.
  unfold evaluate_atom. rewrite comparison_no_membership, comparison_of_text.
  destruct (bare_operand f Hf) as (_ & _ & Ef). destruct (bare_strip f Hf) as (_ & -> & _), (bare_strip r Hr) as (Er & _ & ->).
  rewrite Ef. unfold field_value. destruct (walk_path (split dot (of_chars f)) _) as [v|]; [|done].
  unfold _resolve. rewrite Er, chars_of_chars, (proj1 (bare_unquoted r Hr)).
  destruct (walk_path (split dot (of_chars r)) _) as [w|]; cbn [default]; (destruct (both_floats _ _) as [[[]|]|]; done).
Qed.
End comparison.

(** * Theorems *)

(** A condition written as a disjunction of conjunctions of atoms, negated any number of times, in
    either spelling of the connectives, means what its connectives say: the strict evaluator
    combines the answers on the atoms by Kleene's three-valued logic, in which an atom that cannot
    be decided never counts as true or as false, and the lenient one combines them by Boolean logic.
    [OR] binds weaker than [AND], and [AND] weaker than [NOT]. *)
Theorem conditions_combine_atoms `{PyStr, ConditionEnv} context k d known holds :
  spelling_ok k → condition_ok d →
  Forall (Forall (λ l, evaluate_condition_strict (atom l) context = Ok (known (atom l)))) d →
  Forall (Forall (λ l, evaluate_condition (atom l) context = Ok (holds (atom l)))) d →
  evaluate_condition_strict (condition_text k d) context = Ok (condition_value known d) ∧
  evaluate_condition (condition_text k d) context = Ok (condition_holds holds d).
Proof. intros Hk Hd Hs Hl. split; [by apply strict_condition|by apply lenient_condition]. Qed.

(** A field that holds a JSON flag, compared with the word [true]: the strict evaluator answers the
    flag; the lenient one, which decides the branches of workflows, compares the texts [True] and
    [true] and answers no for either value of the flag. *)
Theorem flag_is_never_true `{PyStr, ConditionEnv} context f b :
  (∀ b, py_str (VBool b) = if b : bool then "True" else "False") →
  bare_token f = true → of_chars f ∉ ["NOT"; "not"] →
  field_value context f = Some (VBool b) → field_value context (chars "true") = None →
  evaluate_condition_strict (comparison_text f Eq_ (chars "true")) context = Ok (Some b) ∧
  evaluate_condition (comparison_text f Eq_ (chars "true")) context = Ok false.
Proof.
  intros Hstr Hf Hn Hv Ht. rewrite strict_comparison, lenient_comparison by done. rewrite Hv. split.
  - unfold _compare. replace (_resolve (strip (of_chars (chars "true"))) context true) with (Some (VStr "true")).
    + by destruct b.
    + unfold _resolve. change (_is_quoted (chars (strip (strip (of_chars (chars "true")))))) with false. cbn match.
      change (strip (strip (of_chars (chars "true")))) with "true". unfold field_value in Ht. rewrite of_chars_chars in Ht. by rewrite Ht.
  - rewrite Ht. cbn [default]. change (both_floats (VBool b) (VStr (of_chars (chars "true")))) with (Ok (E := condition_error) (@None (pyfloat * pyfloat))).
    cbn [mbind result_bind]. rewrite Hstr, py_str_VStr. by destruct b.
Qed.

(** * Examples *)

Module ConditionExample.
#[export] Instance example_str : PyStr :=
  {| py_str v := match v with VStr s => s | VBool b => if b then "True" else "False" | VInt z => pretty z | _ => "other" end; py_str_VStr s := eq_refl |}.

(** No list literals and no dates *)
#[export] Instance example_env : ConditionEnv := {| literal_eval _ := Err BadLiteral; fromisoformat _ := None |}.

Definition context : dict :=
  [("amount", VInt 120000); ("domain", VStr "finance"); ("risk", VMap [("score", VFloat (FFin 1 (-1)))]); ("urgent", VBool true)].

Definition spelled : spelling := {| kw_or := "or"; kw_and := "AND"; kw_not := "not" |}.

(** [amount >= 50000 AND not domain == hr or risk.level > 3] *)
Definition big_or_risky : condition :=
  [[{| nots := 0; atom := "amount >= 50000" |}; {| nots := 1; atom := "domain == hr" |}]; [{| nots := 0; atom := "risk.level > 3" |}]].

Definition known (a : string) : option bool :=
  match evaluate_condition_strict a context with Ok v => v | Err _ => None end.
Definition holds (a : string) : bool := match evaluate_condition a context with Ok v => v | Err _ => false end.

Example texts :
  condition_text spelled big_or_risky = "amount >= 50000 AND not domain == hr or risk.level > 3" ∧
  evaluate_condition_strict "risk.score<0.75" context = Ok (Some true) ∧
  evaluate_condition_strict "NOT risk.level > 3" context = Ok None ∧ evaluate_condition "NOT risk.level > 3" context = Ok true ∧
  evaluate_condition_strict "amount > 1,000" context = Ok None.
Proof. vm_compute. repeat split; reflexivity. Qed.
End ConditionExample.
Import ConditionExample.

Lemma conditions_combine_atoms_witness :
  evaluate_condition_strict "amount >= 50000 AND not domain == hr or risk.level > 3" ConditionExample.context = Ok (Some true) ∧
  evaluate_condition "amount >= 50000 AND not domain == hr or risk.level > 3" ConditionExample.context = Ok true.
Proof.
  apply (conditions_combine_atoms ConditionExample.context ConditionExample.spelled ConditionExample.big_or_risky
    ConditionExample.known ConditionExample.holds).
  - repeat split; by apply (bool_decide_unpack (_ ∈ _)).
  - split; [done|]. repeat constructor; try done.
    all: try (do 2 eexists; split_and!; reflexivity).
    all: intros w Hw; list_cases Hw; by apply (bool_decide_unpack (_ ∉ _)).
  - repeat constructor; vm_compute; reflexivity.
  - repeat constructor; vm_compute; reflexivity.
Defined.

Lemma flag_is_never_true_witness :
  evaluate_condition_strict "urgent == true" ConditionExample.context = Ok (Some true) ∧
  evaluate_condition "urgent == true" ConditionExample.context = Ok false.
Proof.
  apply (flag_is_never_true ConditionExample.context (chars "urgent") true).
  - intros []; reflexivity.
  - reflexivity.
  - by apply (bool_decide_unpack (_ ∉ _)).
  - reflexivity.
  - reflexivity.
Defined.
