(* ===== verification/WorkflowParser.v ===== *)
(** Workflow definitions and their validation: src/workflows/parser.py.

    A step definition is the record of the keys the workflow code reads; an
    absent key is [None] (or the default the code itself gives it).  The YAML
    text form of a definition goes through a third-party library and is not
    modelled: [parse] starts from the loaded mapping.

    The main result is that the depth-first cycle search accepts a definition
    exactly when its ids are present and distinct, its types are known and its
    dependency relation is acyclic; the search is structurally recursive on a
    fuel that is proved sufficient. *)

From S2P Require Import Prelude PyVal.

(** * Step definitions *)

(** The keys of a step besides ["id"]. [optional] and [allow_failure] hold
    whether the key is the boolean [True], the only test the code makes. *)
Record StepFields := {
  type : option string;
  depends_on : list string;
  on_failure : option string;
  optional : bool;
  allow_failure : bool;
  true_path : option string;
  false_path : option string;
  connector : option string;
  connector_key : option string;
  tool : option string;
  tool_name : option string;
  action : option string;
  agent : option string;
  agent_type : option string;
  idempotency_key : option string;
  http_method : option string;
  replanned : bool;
}.

(** A step as it comes in, and a step whose ["id"] is known to be there. *)
Record RawStep := { raw_id : option string; raw_fields : StepFields }.
Record Step := { step_id : string; fields :> StepFields }.

Definition raw_of (s : Step) : RawStep := {| raw_id := Some (step_id s); raw_fields := fields s |}.

(** A definition mapping; [steps = None] when the key is absent. *)
Record RawDefinition := { raw_steps : option (list RawStep) }.

Inductive ParseError : Type :=
| MissingSteps
| MissingId
| DuplicateId (id : string)
| InvalidType (t : string)
| Circular (node : string)
| OutOfFuel.

#[global] Instance ParseError_eq_dec : EqDecision ParseError.
Proof. solve_decision. Defined.

Definition VALID_STEP_TYPES : gset string :=
  {[ "agent"; "case_agent"; "condition"; "human_in_loop"; "parallel"; "loop"; "transform";
     "connector_tool"; "notify"; "sub_workflow"; "wait"; "wait_for_event"; "collaboration" ]}.

Definition step_type (f : StepFields) : string := default "agent" (type f).

(** * The cycle search *)

Definition graph := list (string * list string).

(** [graph.get(node, [])] *)
Definition deps_of (g : graph) (node : string) : list string := default [] (assoc node g).

(** The sets [visited] and [in_stack], mutated by the search. *)
Record marks := { visited : gset string; in_stack : gset string }.

(** [for dep in deps: if self._has_cycle(dep, ...): return True] *)
Fixpoint any_cycle (rec : string → marks → option (bool * marks)) (deps : list string) (m : marks) :
    option (bool * marks) :=
  match deps with
  | [] => Some (false, m)
  | dep :: deps' =>
      match rec dep m with
      | None => None
      | Some (true, m1) => Some (true, m1)
      | Some (false, m1) => any_cycle rec deps' m1
      end
  end.

(** [None] when the fuel runs out. *)
Fixpoint _has_cycle (fuel : nat) (g : graph) (node : string) (m : marks) : option (bool * marks) :=
  match fuel with
  | O => None
  | S fuel =>
      if decide (node ∈ in_stack m) then Some (true, m)
      else if decide (node ∈ visited m) then Some (false, m)
      else
        let m1 := {| visited := {[node]} ∪ visited m; in_stack := {[node]} ∪ in_stack m |} in
        match any_cycle (_has_cycle fuel g) (deps_of g node) m1 with
        | None => None
        | Some (true, m2) => Some (true, m2)
        | Some (false, m2) =>
            Some (false, {| visited := visited m2; in_stack := in_stack m2 ∖ {[node]} |})
        end
  end.

(** [graph[step["id"]] = deps], in definition order. *)
Definition build_graph (steps : list Step) : graph :=
  foldl (λ g s, dict_set (step_id s) (depends_on s) g) [] steps.

(** Every node the search can meet. *)
Definition graph_nodes (g : graph) : gset string :=
  list_to_set (g.*1 ++ (g ≫= snd)).

(** Enough for any search: each nested call marks a fresh node. *)
Definition search_fuel (g : graph) : nat := S (size (graph_nodes g)).

Definition check_node (g : graph) (m : marks) (node : string) : result ParseError marks :=
  match _has_cycle (search_fuel g) g node m with
  | None => Err OutOfFuel
  | Some (true, _) => Err (Circular node)
  | Some (false, m') => Ok m'
  end.

Definition _check_circular (steps : list Step) : result ParseError unit :=
  let g := build_graph steps in
  _ ← fold_res (check_node g) {| visited := ∅; in_stack := ∅ |} g.*1;
  Ok tt.

(** * Validation *)

(** One iteration of the loop over [defn["steps"]]: the ids seen so far and the
    steps accepted so far. *)
Definition validate_step (acc : gset string * list Step) (s : RawStep) :
    result ParseError (gset string * list Step) :=
  let '(step_ids, done) := acc in
  sid ← of_option MissingId (raw_id s);
  _ ← raise_if (bool_decide (sid ∈ step_ids)) (DuplicateId sid);
  let t := step_type (raw_fields s) in
  _ ← raise_if (negb (bool_decide (t ∈ VALID_STEP_TYPES))) (InvalidType t);
  Ok ({[sid]} ∪ step_ids, done ++ [{| step_id := sid; fields := raw_fields s |}]).

(** The steps of a definition that validates, read with their ids. *)
Definition _validate (defn : RawDefinition) : result ParseError (list Step) :=
  steps ← of_option MissingSteps (raw_steps defn);
  acc ← fold_res validate_step (∅, []) steps;
  _ ← _check_circular acc.2;
  Ok acc.2.

Definition parse (defn : RawDefinition) : result ParseError (list Step) := _validate defn.

(** * Specification *)

(** [a] depends on [b]. *)
Definition depends (steps : list Step) (a b : string) : Prop :=
  ∃ s, s ∈ steps ∧ step_id s = a ∧ b ∈ depends_on s.

Definition acyclic {A} (R : relation A) : Prop := ∀ a, ¬ tc R a a.

Definition edge (g : graph) (a b : string) : Prop := b ∈ deps_of g a.

(** * Correctness of the search *)

Section search.
Context (g : graph).

(** Finished nodes: marked, and no longer on the stack. *)
Definition finished (m : marks) : gset string := visited m ∖ in_stack m.

(** The finished nodes are closed under edges and free of cycles. *)
Record good (m : marks) : Prop := {
  good_stack : in_stack m ⊆ visited m;
  good_closed : ∀ a b, a ∈ finished m → edge g a b → b ∈ finished m;
  good_acyclic : ∀ a, a ∈ finished m → ¬ tc (edge g) a a;
}.

(** Calling the search at [node]: every node of the stack reaches it. *)
Definition reaches (m : marks) (node : string) : Prop :=
  ∀ a, a ∈ in_stack m → tc (edge g) a node.

(** What a call that started from [m] delivers. *)
Definition delivers (m : marks) (nodes : list string) (r : option (bool * marks)) : Prop :=
  match r with
  | None => False
  | Some (true, _) => ∃ a, tc (edge g) a a
  | Some (false, m') =>
      good m' ∧ in_stack m' = in_stack m ∧ visited m ⊆ visited m' ∧
      ∀ n, n ∈ nodes → n ∈ finished m'
  end.

Lemma finished_closed m a b : good m → a ∈ finished m → tc (edge g) a b → b ∈ finished m.
Proof. intros Hm Ha H. induction H; eauto using good_closed. Qed.

Lemma good_push m node :
  good m → node ∉ visited m →
  good {| visited := {[node]} ∪ visited m; in_stack := {[node]} ∪ in_stack m |}.
Proof.
  intros Hm Hn. pose proof (good_stack m Hm).
  assert (finished {| visited := {[node]} ∪ visited m; in_stack := {[node]} ∪ in_stack m |} =
          finished m) as Heq by (unfold finished; cbn; set_solver).
  split; [cbn; set_solver|..]; rewrite Heq; apply Hm.
Qed.

Lemma good_pop m node :
  good m → node ∈ in_stack m → (∀ d, edge g node d → d ∈ finished m) →
  good {| visited := visited m; in_stack := in_stack m ∖ {[node]} |}.
Proof.
  intros Hm Hn Hd. pose proof (good_stack m Hm).
  assert (∀ a, a ∈ finished {| visited := visited m; in_stack := in_stack m ∖ {[node]} |} ↔
               a = node ∨ a ∈ finished m) as Hf.
  { intros a. unfold finished; cbn. destruct (decide (a = node)); set_solver. }
  split; [cbn; set_solver|..].
  - intros a b [-> | Ha]%Hf Hab; apply Hf; right; eauto using good_closed.
  - intros a [-> | Ha]%Hf Hc; [|by eapply good_acyclic].
    assert (node ∈ finished m) as Hin.
    { inversion Hc as [? ? He|? d ? He Ht]; subst; [eauto|].
      by eapply finished_closed; [..|exact Ht]; eauto. }
    unfold finished in Hin. set_solver.
Qed.

(** The number of nodes a search can still mark. *)
Definition unvisited (m : marks) : nat := size (graph_nodes g ∖ visited m).

Lemma unvisited_mono m m' : visited m ⊆ visited m' → unvisited m' ≤ unvisited m.
Proof. intros. unfold unvisited. apply subseteq_size. set_solver. Qed.

Lemma unvisited_push m node :
  node ∈ graph_nodes g → node ∉ visited m →
  unvisited {| visited := {[node]} ∪ visited m; in_stack := {[node]} ∪ in_stack m |} < unvisited m.
Proof. intros. unfold unvisited. apply subset_size. cbn. set_solver. Qed.

Lemma edge_nodes a b : edge g a b → b ∈ graph_nodes g.
Proof.
  unfold edge, deps_of, graph_nodes. destruct (assoc a g) as [ds|] eqn:Ha; cbn; [|set_solver].
  intros Hb. apply elem_of_list_to_set, elem_of_app. right. apply list_elem_of_bind.
  exists (a, ds). split; [done|by apply assoc_elem_of].
Qed.

(** One loop over dependencies, given that a call on each of them delivers. *)
Lemma any_cycle_delivers rec deps m :
  (∀ d m0, d ∈ deps → good m0 → reaches m0 d → visited m ⊆ visited m0 →
     delivers m0 [d] (rec d m0)) →
  good m → (∀ d, d ∈ deps → reaches m d) →
  delivers m deps (any_cycle rec deps m).
Proof.
  revert m. induction deps as [|d deps IH]; intros m Hrec Hm Hr; cbn.
  { split; [done|]. split; [done|]. set_solver. }
  assert (delivers m [d] (rec d m)) as Hd by (apply Hrec; set_solver).
  destruct (rec d m) as [[[] m1]|] eqn:E; [done| |done].
  destruct Hd as (Hm1 & Hs & Hv & Hf).
  assert (delivers m1 deps (any_cycle rec deps m1)) as Hrest.
  { apply IH; [intros; apply Hrec; set_solver|done|].
    intros d' Hd' a. rewrite Hs. intros. eapply Hr; set_solver. }
  destruct (any_cycle rec deps m1) as [[[] m2]|]; [done| |done].
  destruct Hrest as (Hm2 & Hs2 & Hv2 & Hf2).
  split; [done|]. split; [congruence|]. split; [set_solver|].
  intros n [-> | Hn]%elem_of_cons; [|auto].
  assert (d ∈ finished m1) as Hd by (apply Hf; set_solver).
  unfold finished in *. rewrite Hs2. set_solver.
Qed.

Lemma has_cycle_delivers fuel node m :
  node ∈ graph_nodes g → unvisited m < fuel → good m → reaches m node →
  delivers m [node] (_has_cycle fuel g node m).
Proof.
  revert node m. induction fuel as [|fuel IH]; intros node m Hn Hfuel Hm Hr; [lia|]. cbn.
  destruct (decide (node ∈ in_stack m)) as [Hs|Hs]; [by exists node; apply Hr|].
  destruct (decide (node ∈ visited m)) as [Hv|Hv].
  { cbn. split; [done|]. split; [done|]. split; [done|]. unfold finished. set_solver. }
  set (m1 := {| visited := {[node]} ∪ visited m; in_stack := {[node]} ∪ in_stack m |}).
  assert (unvisited m1 < unvisited m) as Hlt by by apply unvisited_push.
  assert (delivers m1 (deps_of g node) (any_cycle (_has_cycle fuel g) (deps_of g node) m1)) as Hd.
  { apply any_cycle_delivers; [..|by apply good_push|].
    - intros d m0 Hin Hg0 Hr0 Hv0. apply IH; eauto using edge_nodes.
      pose proof (unvisited_mono m1 m0 Hv0). lia.
    - intros d Hin a. cbn. intros [-> %elem_of_singleton | Ha]%elem_of_union; [by apply tc_once|].
      eapply tc_r; [by apply Hr|done]. }
  destruct (any_cycle _ _ m1) as [[[] m2]|] eqn:E; [done| |done].
  destruct Hd as (Hm2 & Hs2 & Hv2 & Hf2). cbn in Hs2, Hv2.
  assert (good {| visited := visited m2; in_stack := in_stack m2 ∖ {[node]} |}) as Hgood.
  { apply good_pop; [done|set_solver|]. intros d He. by apply Hf2. }
  split; [done|]. cbn. split; [set_solver|]. split; [set_solver|].
  intros n ->%list_elem_of_singleton. unfold finished; cbn. set_solver.
Qed.
End search.

#[global] Arguments _has_cycle : simpl never.
#[global] Arguments check_node : simpl never.

(** The whole search: it succeeds exactly on acyclic graphs, and its fuel is
    always enough. *)
Lemma check_nodes_spec g nodes m :
  good g m → in_stack m = ∅ → (∀ n, n ∈ nodes → n ∈ graph_nodes g) →
  match fold_res (check_node g) m nodes with
  | Ok m' => good g m' ∧ in_stack m' = ∅ ∧ visited m ⊆ visited m' ∧
             ∀ n, n ∈ nodes → n ∈ finished m'
  | Err e => (∃ n, n ∈ nodes ∧ e = Circular n) ∧ ∃ a, tc (edge g) a a
  end.
Proof.
  revert m. induction nodes as [|n nodes IH]; intros m Hm Hs Hn; cbn -[mbind]; [set_solver|].
  assert (delivers g m [n] (_has_cycle (search_fuel g) g n m)) as Hd.
  { apply has_cycle_delivers; [set_solver| |done|by intros a; rewrite Hs; set_solver].
    unfold search_fuel, unvisited.
    assert (size (graph_nodes g ∖ visited m) ≤ size (graph_nodes g)) by (apply subseteq_size; set_solver).
    lia. }
  destruct (check_node g m n) as [m1|e] eqn:E; unfold check_node in E; cbn;
    destruct (_has_cycle _ _ _ _) as [[[] m1']|]; simplify_eq; try done; [|split; [set_solver|done]].
  destruct Hd as (Hm1 & Hs1 & Hv1 & Hf1). specialize (IH m1).
  destruct (fold_res _ m1 nodes) as [m2|e].
  - destruct IH as (Hm2 & Hs2 & Hv2 & Hf2); [set_solver..|].
    split; [done|]. split; [done|]. split; [set_solver|].
    intros n' [-> | Hn']%elem_of_cons; [|auto].
    assert (n ∈ finished m1) as Hin by (apply Hf1; set_solver).
    unfold finished in *. set_solver.
  - destruct IH as [(n' & ? & ->) Hc]; [set_solver..|]. split; [|done]. set_solver.
Qed.

Lemma build_graph_eq steps :
  NoDup (step_id <$> steps) →
  build_graph steps = (λ s, (step_id s, depends_on s)) <$> steps.
Proof. intros. by apply (dict_build step_id (λ s : Step, depends_on s) steps []). Qed.

Lemma edge_depends steps a b :
  NoDup (step_id <$> steps) → edge (build_graph steps) a b ↔ depends steps a b.
Proof.
  intros Hnd. rewrite build_graph_eq by done. unfold edge, deps_of, depends.
  assert (((λ s : Step, (step_id s, depends_on s)) <$> steps).*1 = step_id <$> steps) as Hk.
  { rewrite <- list_fmap_compose. done. }
  split.
  - destruct (assoc a _) as [ds|] eqn:Ha; cbn; [|set_solver]. intros Hb.
    apply assoc_elem_of, list_elem_of_fmap in Ha as (s & Heq & Hs). simplify_eq. eauto.
  - intros (s & Hs & <- & Hb).
    rewrite (assoc_NoDup _ _ (depends_on s)); [done|by rewrite Hk|].
    apply list_elem_of_fmap. eauto.
Qed.

Lemma tc_ext {A} (R S : relation A) a b : (∀ x y, R x y → S x y) → tc R a b → tc S a b.
Proof. intros H. induction 1; [by apply tc_once; auto|eapply tc_l; eauto]. Qed.

Lemma check_circular_spec steps :
  NoDup (step_id <$> steps) →
  match _check_circular steps with
  | Ok _ => acyclic (depends steps)
  | Err e => (∃ n, n ∈ step_id <$> steps ∧ e = Circular n) ∧ ¬ acyclic (depends steps)
  end.
Proof.
  intros Hnd. unfold _check_circular.
  assert ((build_graph steps).*1 = step_id <$> steps) as Hk.
  { rewrite build_graph_eq by done. by rewrite <- list_fmap_compose. }
  pose proof (check_nodes_spec (build_graph steps) (build_graph steps).*1
    {| visited := ∅; in_stack := ∅ |}) as H.
  destruct (fold_res _ _ _) as [m|e]; cbn.
  - destruct H as (Hm & Hs & _ & Hf); [by split; cbn; set_solver|done|..].
    { unfold graph_nodes. set_solver. }
    intros a Ha. assert (a ∈ finished m) as Hin.
    { apply Hf. rewrite Hk. inversion Ha as [? ? Hd|? ? ? Hd]; subst;
        destruct Hd as (s & Hs' & <- & _); apply list_elem_of_fmap; eauto. }
    eapply (good_acyclic _ m Hm a Hin). eapply tc_ext; [|exact Ha].
    intros. by apply edge_depends.
  - destruct H as [(n & Hn & ->) (a & Ha)]; [by split; cbn; set_solver|done|..].
    { unfold graph_nodes. set_solver. }
    split; [exists n; by rewrite <- Hk|]. intros Hac. apply (Hac a).
    eapply tc_ext; [|exact Ha]. intros. by apply edge_depends.
Qed.

#[global] Arguments _check_circular : simpl never.
#[global] Arguments VALID_STEP_TYPES : simpl never.

(** * Correctness of validation *)

Definition valid_type (s : Step) : Prop := step_type s ∈ VALID_STEP_TYPES.

(** The loop accepts a list of steps exactly when every id is present, fresh
    and every type is known. *)
Lemma validate_steps_Ok ids d raws acc :
  fold_res validate_step (ids, d) raws = Ok acc ↔
  ∃ steps, raws = raw_of <$> steps ∧ acc = (list_to_set (step_id <$> steps) ∪ ids, d ++ steps) ∧
    NoDup (step_id <$> steps) ∧ Forall valid_type steps ∧ Forall (λ s, step_id s ∉ ids) steps.
Proof.
  revert ids d. induction raws as [|r raws IH]; intros ids d; cbn -[VALID_STEP_TYPES].
  { split.
    - intros [= <-]. exists []. cbn. rewrite app_nil_r. repeat split; [|by constructor..].
      f_equal. set_solver.
    - intros (steps & Hs & -> & _). destruct steps; [|done]. cbn. rewrite app_nil_r.
      do 2 f_equal. set_solver. }
  rewrite bind_Ok. split.
  - intros ([ids1 done1] & Hv & Hr). unfold validate_step in Hv. inv_ok.
    apply IH in Hr as (steps & -> & -> & Hnd & Hty & Hfr).
    rename x into sid. match goal with H : bool_decide _ = false |- _ => apply bool_decide_eq_false in H end.
    match goal with H : negb _ = false |- _ => apply negb_false_iff, bool_decide_eq_true in H end.
    exists ({| step_id := sid; fields := raw_fields r |} :: steps). cbn -[VALID_STEP_TYPES].
    rewrite Forall_forall in Hfr. split; [|split; [|split; [|split]]].
    + unfold raw_of at 2. cbn. destruct r; cbn in *; congruence.
    + f_equal; [set_solver|by rewrite <- app_assoc].
    + constructor; [|done]. intros (s & Heq & Hs)%list_elem_of_fmap. apply (Hfr s Hs). set_solver.
    + by constructor.
    + constructor; [done|]. apply Forall_forall. set_solver.
  - intros (steps & Hr & -> & Hnd & Hty & Hfr). destruct steps as [|s steps]; [done|]. cbn in Hr.
    simplify_eq. apply NoDup_cons in Hnd as [Hn Hnd]. apply Forall_cons in Hty as [Ht Hty].
    apply Forall_cons in Hfr as [Hf Hfr].
    exists ({[step_id s]} ∪ ids, d ++ [s]). split.
    { unfold validate_step. cbn -[VALID_STEP_TYPES].
      rewrite (bool_decide_eq_false_2 (step_id s ∈ ids)) by done. cbn -[VALID_STEP_TYPES].
      rewrite (bool_decide_eq_true_2 (step_type s ∈ VALID_STEP_TYPES)) by done. by destruct s. }
    apply IH. exists steps. split; [done|].
    split; [f_equal; [set_solver|by rewrite <- app_assoc]|].
    split; [done|]. split; [done|]. rewrite Forall_forall in *. intros s' Hs'.
    specialize (Hfr s' Hs'). assert (step_id s' ∈ step_id <$> steps) by (apply list_elem_of_fmap; eauto).
    set_solver.
Qed.

Lemma parse_spec defn steps :
  parse defn = Ok steps ↔
  raw_steps defn = Some (raw_of <$> steps) ∧ NoDup (step_id <$> steps) ∧
  Forall (λ s : Step, step_type s ∈ VALID_STEP_TYPES) steps ∧ acyclic (depends steps).
Proof.
  unfold parse, _validate. split.
  - intros (raws & Hraw%of_option_Ok & H)%bind_Ok. apply bind_Ok in H as (acc & Hv & H).
    apply bind_Ok in H as (u & Hc & [= <-]).
    apply validate_steps_Ok in Hv as (steps & -> & -> & Hnd & Hty & _). cbn in *.
    pose proof (check_circular_spec steps Hnd) as Hcyc. by rewrite Hc in Hcyc.
  - intros (Hraw & Hnd & Hty & Hac). rewrite Hraw. cbn -[fold_res].
    assert (fold_res validate_step (∅, []) (raw_of <$> steps) =
      Ok (list_to_set (step_id <$> steps) ∪ ∅, steps)) as Hv.
    { apply validate_steps_Ok. exists steps. repeat split; try done. apply Forall_forall. set_solver. }
    cbn in Hv |- *. rewrite Hv. cbn.
    pose proof (check_circular_spec steps Hnd) as Hcyc.
    destruct (_check_circular steps); [done|]. by destruct Hcyc.
Qed.

(** A definition parses, to the steps it lists, exactly when every step has
    an id, no id is used twice, every type is known (an absent type is
    ["agent"]) and the dependency relation has no cycle. *)
Theorem parse_accepts defn steps :
  parse defn = Ok steps ↔
  raw_steps defn = Some (raw_of <$> steps) ∧ NoDup (step_id <$> steps) ∧
  Forall (λ s : Step, step_type s ∈ VALID_STEP_TYPES) steps ∧ acyclic (depends steps).
Proof. apply parse_spec. Qed.

(** Validation never gives up: the fuel of the cycle search always
    suffices, and a circular-dependency error means there is a cycle. *)
Theorem parse_errors_genuine defn e :
  parse defn = Err e →
  e ≠ OutOfFuel ∧
  (∀ n, e = Circular n → ∃ steps, raw_steps defn = Some (raw_of <$> steps) ∧
     n ∈ step_id <$> steps ∧ ¬ acyclic (depends steps)).
Proof.
  unfold parse, _validate. intros [H | (raws & Hraw & H)]%bind_Err.
  { destruct (raw_steps defn); simplify_eq/=; done. }
  apply of_option_Ok in Hraw. apply bind_Err in H as [H | (acc & Hv & H)].
  - assert (∀ ids d, fold_res validate_step (ids, d) raws = Err e → e ≠ OutOfFuel ∧ ∀ n, e ≠ Circular n) as Hne.
    { clear. induction raws as [|r raws IH]; intros ids d; cbn -[VALID_STEP_TYPES]; [done|].
      intros [H | ([ids' d'] & _ & H)]%bind_Err; [|by eapply IH].
      unfold validate_step in H. apply bind_Err in H as [H | (? & _ & H)].
      { by destruct (raw_id r); simplify_eq/=. }
      apply bind_Err in H as [[_ <-]%raise_if_Err | (? & _ & H)]; [done|].
      by apply bind_Err in H as [[_ <-]%raise_if_Err | (? & _ & H)]. }
    apply Hne in H as [? Hn]. split; [done|]. intros n ->. by destruct (Hn n).
  - apply validate_steps_Ok in Hv as (steps & -> & -> & Hnd & Hty & _). cbn in *.
    pose proof (check_circular_spec steps Hnd) as Hcyc.
    destruct (_check_circular steps) as [|e']; cbn in H; [done|]. simplify_eq.
    destruct Hcyc as [(n & Hn & ->) Hc]. split; [done|]. intros n' [= <-]. eauto.
Qed.

(** * Examples *)
Module ParserExample.

Definition plain (deps : list string) : StepFields := {|
  type := None; depends_on := deps; on_failure := None; optional := false; allow_failure := false;
  true_path := None; false_path := None; connector := None; connector_key := None; tool := None;
  tool_name := None; action := None; agent := None; agent_type := None; idempotency_key := None;
  http_method := None; replanned := false |}.

Definition raw (id : string) (deps : list string) : RawStep :=
  {| raw_id := Some id; raw_fields := plain deps |}.

Definition cyclic : RawDefinition :=
  {| raw_steps := Some [raw "a" ["c"]; raw "b" ["a"]; raw "c" ["b"; "x"]] |}.

Definition diamond : RawDefinition :=
  {| raw_steps := Some [raw "d" ["b"; "c"]; raw "b" ["a"]; raw "c" ["a"]; raw "a" ["missing"]] |}.

Example diamond_parses : is_ok (parse diamond) = true.
Proof. vm_compute. reflexivity. Qed.

Example cyclic_refused : parse cyclic = Err (Circular "a").
Proof. vm_compute. reflexivity. Qed.
End ParserExample.

Lemma parse_errors_genuine_witness :
  ∃ e, parse ParserExample.cyclic = Err e ∧ e ≠ OutOfFuel.
Proof.
  eexists. split; [vm_compute; reflexivity|].
  refine (proj1 (parse_errors_genuine ParserExample.cyclic _ _)). vm_compute. reflexivity.
Defined.
