(* ===== verification/WorkflowGraph.v ===== *)
(** The dependency graph of a workflow: the static helpers of
    src/workflows/engine.py that read a definition.

    [_topological_sort] is Kahn's algorithm on the edges declared by
    [depends_on] and by [on_failure: fallback(<id>)].  It is run on a fuel of two
    turns per step, which is proved enough for every list of steps, duplicate
    ids included.  For distinct ids it returns a permutation of the ids in which
    every edge points forward, or reports a cycle exactly when there is one. *)

From Stdlib Require Import Ascii.
From S2P Require Import Prelude PyVal WorkflowParser.

(** * Directives in [on_failure] *)

Definition id_char (c : ascii) : bool :=
  is_lower_az c || is_upper_az c || is_digit c || is_underscore c ||
  in_range c 46 46 || in_range c 45 45.

Fixpoint take_while {A} (p : A → bool) (l : list A) : list A :=
  match l with
  | [] => []
  | x :: l' => if p x then x :: take_while p l' else []
  end.

(** [l] without the prefix [p], when it starts with it. *)
Fixpoint strip_prefix (p l : list ascii) : option (list ascii) :=
  match p, l with
  | [], _ => Some l
  | _ :: _, [] => None
  | a :: p', b :: l' => if Ascii.eqb a b then strip_prefix p' l' else None
  end.

(** [fallback\(\s*([A-Za-z0-9_.-]+)\s*\)] at the start of [l]: the captured name.
    The three classes are disjoint, so the greedy reading is the only match. *)
Definition match_fallback (l : list ascii) : option string :=
  match strip_prefix (chars "fallback(") l with
  | None => None
  | Some l1 =>
      let l2 := drop_while is_space l1 in
      let name := take_while id_char l2 in
      let l3 := drop_while is_space (drop_while id_char l2) in
      match name, strip_prefix (chars ")") l3 with
      | _ :: _, Some _ => Some (of_chars name)
      | _, _ => None
      end
  end.

(** [re.search]: the leftmost match. *)
Fixpoint search_fallback (l : list ascii) : option string :=
  match match_fallback l with
  | Some name => Some name
  | None => match l with [] => None | _ :: l' => search_fallback l' end
  end.

Definition _fallback_target (step : StepFields) : option string :=
  search_fallback (chars (default EmptyString (on_failure step))).

(** [retry\((\d+)\)] at the start of [l]: the digits and the rest of the text. *)
Definition match_retry (l : list ascii) : option (list ascii * list ascii) :=
  match strip_prefix (chars "retry(") l with
  | None => None
  | Some l1 =>
      match take_while is_digit l1, strip_prefix (chars ")") (drop_while is_digit l1) with
      | (_ :: _) as ds, Some rest => Some (ds, rest)
      | _, _ => None
      end
  end.

(** [_RETRY_DIRECTIVE_RE.sub("", s)]; a match is never empty, so [length l] turns
    are enough. *)
Fixpoint remove_retry (fuel : nat) (l : list ascii) : list ascii :=
  match fuel, l with
  | O, _ | _, [] => l
  | S fuel, c :: l' =>
      match match_retry l with
      | Some (_, rest) => remove_retry fuel rest
      | None => c :: remove_retry fuel l'
      end
  end.

(** [{token for token in re.split(r"[^a-z_]+", s) if token}] *)
Fixpoint word_tokens (cur : list ascii) (l : list ascii) : list string :=
  let flush := match cur with [] => [] | _ => [of_chars (reverse cur)] end in
  match l with
  | [] => flush
  | c :: l' => if is_lower_az c || is_underscore c then word_tokens (c :: cur) l'
               else flush ++ word_tokens [] l'
  end.

Definition _step_allows_failure (step : StepFields) : bool :=
  let text := chars (lower (strip (default EmptyString (on_failure step)))) in
  let tokens := word_tokens [] (remove_retry (length text) text) in
  optional step || allow_failure step ||
  existsb (λ t, bool_decide (t ∈ ["continue"; "ignore"; "optional"])) tokens ||
  bool_decide (is_Some (_fallback_target step)).

Definition _parse_retry_count (on_failure : string) : Z :=
  match match_retry (chars (strip on_failure)) with
  | Some (ds, _) => int_of_digits ds
  | None => 0%Z
  end.

(** The steps that name [sid] as their fallback, in definition order. *)
Definition _fallback_sources (sid : string) (steps : list Step) : list string :=
  step_id <$> List.filter (λ s, negb (String.eqb (step_id s) sid) &&
                             bool_decide (_fallback_target s = Some sid)) steps.

(** [{step["id"]: step for step in steps}]: the last step of an id wins. *)
Definition _build_step_index (steps : list Step) : gmap string Step :=
  foldl (λ m s, <[step_id s := s]> m) ∅ steps.

(** * Topological order *)

(** The edges a step adds, in the order the code adds them: one per known
    dependency, then the edge to its fallback. *)
Definition step_edges (step_set : gset string) (s : Step) : list (string * string) :=
  ((λ dep, (dep, step_id s)) <$> List.filter (λ dep, bool_decide (dep ∈ step_set)) (depends_on s)) ++
  match _fallback_target s with
  | Some fb => if bool_decide (fb ∈ step_set) && negb (String.eqb fb (step_id s))
               then [(step_id s, fb)] else []
  | None => []
  end.

Definition all_edges (steps : list Step) : list (string * string) :=
  steps ≫= step_edges (list_to_set (step_id <$> steps)).

Abbreviation topo_graph := (gmap string (list string)) (only parsing).
Abbreviation degrees := (gmap string Z) (only parsing).

(** [graph[a].append(b); in_degree[b] += 1] *)
Definition add_edge (gd : topo_graph * degrees) (e : string * string) : topo_graph * degrees :=
  (alter (λ l, l ++ [e.2]) e.1 gd.1, alter (λ d, d + 1)%Z e.2 gd.2).

Definition build_topo (steps : list Step) : topo_graph * degrees :=
  let ids := step_id <$> steps in
  foldl add_edge (list_to_map ((λ i, (i, [])) <$> ids), list_to_map ((λ i, (i, 0%Z)) <$> ids))
    (all_edges steps).

Definition degree (deg : degrees) (n : string) : Z := default 0%Z (deg !! n).

(** The loop over the neighbours of a node taken from the queue. *)
Fixpoint relax (ns : list string) (deg : degrees) (queue : list string) : degrees * list string :=
  match ns with
  | [] => (deg, queue)
  | n :: ns' =>
      let d := (degree deg n - 1)%Z in
      relax ns' (<[n := d]> deg) (if (d =? 0)%Z then queue ++ [n] else queue)
  end.

(** [while queue: ...]; [None] when the fuel runs out. *)
Fixpoint kahn (fuel : nat) (g : topo_graph) (deg : degrees) (queue order : list string) :
    option (list string) :=
  match queue with
  | [] => Some order
  | node :: queue' =>
      match fuel with
      | O => None
      | S fuel =>
          let '(deg', queue'') := relax (default [] (g !! node)) deg queue' in
          kahn fuel g deg' queue'' (order ++ [node])
      end
  end.

Inductive TopoError : Type := CircularDependency | TopoOutOfFuel.

Definition _topological_sort (steps : list Step) : result TopoError (list string) :=
  let step_ids := step_id <$> steps in
  let '(g, deg) := build_topo steps in
  let queue := List.filter (λ sid, (degree deg sid =? 0)%Z) step_ids in
  match kahn (2 * length step_ids) g deg queue [] with
  | None => Err TopoOutOfFuel
  | Some order => if (length order =? length step_ids)%nat then Ok order else Err CircularDependency
  end.

(** * What the order means *)

(** [a] runs before [b]: [b] depends on [a], or [b] is the fallback of [a]. *)
Definition runs_before (steps : list Step) (a b : string) : Prop := (a, b) ∈ all_edges steps.

(** [a] occurs strictly before [b]. *)
Definition precedes (l : list string) (a b : string) : Prop :=
  ∃ i j, l !! i = Some a ∧ l !! j = Some b ∧ i < j.

(** * Counting edges *)

(** The edges into [b] from a source that [P] does not hold. *)
Definition pending (E : list (string * string)) (P : list string) (b : string) : nat :=
  length (List.filter (λ e, bool_decide (e.2 = b ∧ e.1 ∉ P)) E).

Definition targets (E : list (string * string)) (a : string) : list string :=
  snd <$> List.filter (λ e, bool_decide (e.1 = a)) E.

Definition occurrences (b : string) (l : list string) : nat :=
  length (List.filter (λ x, bool_decide (x = b)) l).

Lemma pending_app E n P b :
  n ∉ P → pending E P b = (pending E (P ++ [n]) b + occurrences b (targets E n))%nat.
Proof.
  intros Hn. unfold pending, occurrences, targets.
  induction E as [|[a c] E IH]; cbn; [done|].
  repeat case_bool_decide; cbn in *; simplify_eq; repeat case_bool_decide; cbn; try set_solver; try lia.
Qed.

Lemma pending_zero E P b : pending E P b = 0 ↔ ∀ a, (a, b) ∈ E → a ∈ P.
Proof.
  unfold pending. induction E as [|[a c] E IH]; cbn; [split; [set_solver|done]|].
  case_bool_decide as Hb; cbn in *.
  - split; [lia|]. intros H. destruct Hb as [-> Ha]. set_solver.
  - rewrite IH. split; [|set_solver]. intros H a' [Heq | Hin]%elem_of_cons; [|auto].
    simplify_eq. destruct (decide (a ∈ P)); [done|]. exfalso. apply Hb. done.
Qed.

(** * Building the graph *)

Lemma build_lookup (E : list (string * string)) g deg :
  (∀ e, e ∈ E → is_Some (g !! e.1) ∧ is_Some (deg !! e.2)) →
  let r := foldl add_edge (g, deg) E in
  (∀ a l, g !! a = Some l → r.1 !! a = Some (l ++ targets E a)) ∧
  (∀ b d, deg !! b = Some d → r.2 !! b = Some (d + Z.of_nat (pending E [] b))%Z).
Proof.
  revert g deg. induction E as [|[a b] E IH]; intros g deg HE; cbn -[add_edge].
  { split; intros; [by rewrite app_nil_r|by rewrite Z.add_0_r]. }
  destruct (IH (alter (λ l, l ++ [b]) a g) (alter (λ d, d + 1)%Z b deg)) as [H1 H2].
  { intros e He. rewrite !lookup_alter_is_Some. apply HE. by right. }
  change (add_edge (g, deg) (a, b)) with (alter (λ l, l ++ [b]) a g, alter (λ d, d + 1)%Z b deg).
  split.
  - intros a' l Hl. unfold targets in *. cbn. destruct (decide (a = a')) as [->|Hne].
    + rewrite bool_decide_eq_true_2 by done. cbn.
      rewrite (H1 a' (l ++ [b])); [by rewrite <- app_assoc|].
      by rewrite lookup_alter_eq, Hl.
    + rewrite bool_decide_eq_false_2 by done. apply H1. by rewrite lookup_alter_ne.
  - intros b' d Hd. unfold pending in *. cbn. destruct (decide (b = b')) as [->|Hne].
    + rewrite bool_decide_eq_true_2 by set_solver. cbn.
      rewrite (H2 b' (d + 1)%Z); [f_equal; lia|]. by rewrite lookup_alter_eq, Hd.
    + rewrite bool_decide_eq_false_2 by set_solver. apply H2. by rewrite lookup_alter_ne.
Qed.
(** * The main loop *)

Section kahn.
Context (ids : list string) (E : list (string * string)) (g : topo_graph).
Context (ids_NoDup : NoDup ids).
Context (E_ids : ∀ a b, (a, b) ∈ E → a ∈ ids ∧ b ∈ ids).
Context (g_targets : ∀ a, a ∈ ids → g !! a = Some (targets E a)).

(** Between two turns, and inside a turn with neighbours [rest] still to visit:
    the degrees count the edges from unprocessed nodes, and a node has left
    degree zero exactly when it is processed or queued. *)
Record inv (rest : list string) (deg : degrees) (queue order : list string) : Prop := {
  inv_NoDup : NoDup (order ++ queue);
  inv_ids : ∀ n, n ∈ order ++ queue → n ∈ ids;
  inv_degree : ∀ b, b ∈ ids → degree deg b = Z.of_nat (pending E order b + occurrences b rest);
  inv_zero : ∀ b, b ∈ ids → b ∈ order ++ queue ↔ degree deg b = 0%Z;
}.

(** Every processed node comes after all its sources. *)
Definition ordered (order : list string) : Prop :=
  ∀ l1 b l2, order = l1 ++ b :: l2 → ∀ a, (a, b) ∈ E → a ∈ l1.

Lemma degree_insert deg n d b :
  degree (<[n := d]> deg) b = if decide (n = b) then d else degree deg b.
Proof.
  unfold degree. case_decide; subst; [by rewrite lookup_insert_eq|by rewrite lookup_insert_ne].
Qed.

Lemma relax_inv rest deg queue order :
  (∀ n, n ∈ rest → n ∈ ids) → inv rest deg queue order →
  let r := relax rest deg queue in inv [] r.1 r.2 order.
Proof.
  revert deg queue. induction rest as [|n rest IH]; intros deg queue Hrest Hinv; [done|].
  cbn. apply IH; [set_solver|]. assert (n ∈ ids) as Hn by set_solver. clear IH.
  assert (degree deg n = Z.of_nat (pending E order n + S (occurrences n rest))) as Hdn.
  { rewrite (inv_degree _ _ _ _ Hinv) by done. unfold occurrences. cbn.
    by rewrite bool_decide_eq_true_2. }
  assert (n ∉ order ++ queue) as Hfresh.
  { intros Hin. apply (inv_zero _ _ _ _ Hinv) in Hin; [lia|done]. }
  set (d := (degree deg n - 1)%Z).
  assert (∀ q, q = (if (d =? 0)%Z then queue ++ [n] else queue) →
    ∀ b, b ∈ order ++ q ↔ b ∈ order ++ queue ∨ (b = n ∧ d = 0%Z)) as Hq.
  { intros q -> b. destruct (Z.eqb_spec d 0); set_solver. }
  specialize (Hq _ eq_refl). split.
  - destruct (d =? 0)%Z; [|apply Hinv]. rewrite app_assoc. apply NoDup_app.
    split; [apply Hinv|]. split; [set_solver|apply NoDup_singleton].
  - intros b [Hb|[-> _]]%Hq; [by eapply inv_ids|done].
  - intros b Hb. rewrite degree_insert. case_decide as Heq; [subst b; lia|].
    rewrite (inv_degree _ _ _ _ Hinv) by done. unfold occurrences. cbn.
    by rewrite bool_decide_eq_false_2.
  - intros b Hb. rewrite Hq, degree_insert. case_decide as Heq.
    + subst b. naive_solver.
    + rewrite (inv_zero _ _ _ _ Hinv) by done. naive_solver.
Qed.

Lemma ordered_snoc order n :
  ordered order → (∀ a, (a, n) ∈ E → a ∈ order) → ordered (order ++ [n]).
Proof.
  intros Ho Hn l1 b l2 Heq a Ha. destruct l2 as [|c l2 _] using rev_ind.
  - apply app_inj_tail in Heq as [<- <-]. auto.
  - rewrite app_comm_cons, app_assoc in Heq. apply app_inj_tail in Heq as [-> _]. eauto.
Qed.

(** One turn of the loop. *)
Lemma turn_inv node queue deg order :
  inv [] deg (node :: queue) order → ordered order →
  let r := relax (default [] (g !! node)) deg queue in
  inv [] r.1 r.2 (order ++ [node]) ∧ ordered (order ++ [node]).
Proof.
  intros Hinv Ho.
  assert (node ∈ ids) as Hn by (eapply inv_ids; [done|set_solver]).
  pose proof (inv_NoDup _ _ _ _ Hinv) as Hnd.
  assert (order ++ node :: queue = (order ++ [node]) ++ queue) as Hsplit by by rewrite <- app_assoc.
  assert (node ∉ order) as Hfresh by (apply NoDup_app in Hnd; set_solver).
  rewrite g_targets by done. cbn. split.
  - apply relax_inv.
    + intros n. unfold targets. intros ([a b] & -> & Hin)%list_elem_of_fmap.
      apply list_elem_of_In, filter_In in Hin as [Hin _]. apply list_elem_of_In in Hin.
      by apply E_ids in Hin as [_ ?].
    + split.
      * by rewrite <- Hsplit.
      * rewrite <- Hsplit. apply Hinv.
      * intros b Hb. rewrite (inv_degree _ _ _ _ Hinv) by done.
        rewrite (pending_app E node order b) by done. change (occurrences b []) with 0. lia.
      * intros b Hb. rewrite <- Hsplit. by apply Hinv.
  - apply ordered_snoc; [done|]. apply pending_zero.
    assert (degree deg node = 0%Z) as H0 by (apply Hinv; set_solver).
    rewrite (inv_degree _ _ _ _ Hinv) in H0 by done. lia.
Qed.

Lemma kahn_spec fuel deg queue order :
  inv [] deg queue order → ordered order → length ids ≤ fuel + length order →
  ∃ order' deg', kahn fuel g deg queue order = Some order' ∧ inv [] deg' [] order' ∧ ordered order'.
Proof.
  revert deg queue order. induction fuel as [|fuel IH]; intros deg queue order Hinv Ho Hf;
    (destruct queue as [|node queue]; [by exists order, deg|]).
  - exfalso. assert (length (order ++ node :: queue) ≤ length ids) as Hlen.
    { apply submseteq_length, NoDup_submseteq; [apply Hinv|apply (inv_ids _ _ _ _ Hinv)]. }
    rewrite length_app in Hlen. cbn in Hlen. lia.
  - destruct (turn_inv _ _ _ _ Hinv Ho) as [Hinv' Ho']. cbn.
    destruct (relax _ deg queue) as [deg' queue']. apply IH; [done..|].
    rewrite length_app. cbn. lia.
Qed.
End kahn.

(** A finite set in which every element has a predecessor contains a cycle. *)
Lemma predecessors_cycle (R : relation string) (X : gset string) :
  X ≠ ∅ → (∀ x, x ∈ X → ∃ y, y ∈ X ∧ R y x) → ∃ a, tc R a a.
Proof.
  intros HX Hpred.
  assert (∀ n (V : gset string) x, x ∈ X → size (X ∖ V) ≤ n → (∀ v, v ∈ V → tc R x v) → ∃ a, tc R a a) as H.
  { induction n as [|n IH]; intros V x Hx Hs HV; destruct (decide (x ∈ V)) as [Hin|Hin];
      try by (exists x; apply HV).
    - apply Nat.le_0_r, size_empty_inv in Hs. destruct (Hs x) as [Hs' _]. exfalso.
      apply (not_elem_of_empty (C := gset string) x), Hs', elem_of_difference. done.
    - destruct (Hpred x Hx) as (y & Hy & Hyx).
      apply (IH ({[x]} ∪ V) y Hy).
      + enough (size (X ∖ ({[x]} ∪ V)) < size (X ∖ V)) by lia. apply subset_size.
        clear -Hx Hin. set_solver.
      + intros v [->%elem_of_singleton | Hv]%elem_of_union; [by apply tc_once|].
        eapply tc_l; eauto. }
  apply set_choose_L in HX as [x Hx]. apply (H (size X) ∅ x); [done|by rewrite difference_empty_L|].
  intros v Hv. by apply elem_of_empty in Hv.
Qed.

Lemma all_edges_ids steps a b :
  (a, b) ∈ all_edges steps → a ∈ step_id <$> steps ∧ b ∈ step_id <$> steps.
Proof.
  unfold all_edges. intros (s & He & Hs)%list_elem_of_bind.
  assert (step_id s ∈ step_id <$> steps) by (apply list_elem_of_fmap; eauto).
  unfold step_edges in He. apply elem_of_app in He as [He|He].
  - apply list_elem_of_fmap in He as (d & Heq & Hd). simplify_eq.
    apply list_elem_of_In, filter_In in Hd as [_ Hd%bool_decide_eq_true]. set_solver.
  - destruct (_fallback_target s) as [fb|]; [|set_solver].
    destruct (bool_decide _) eqn:Hfb; cbn in He; [|set_solver].
    apply bool_decide_eq_true in Hfb. destruct (negb _); set_solver.
Qed.

Lemma ordered_precedes E order a b :
  ordered E order → b ∈ order → (a, b) ∈ E → precedes order a b.
Proof.
  intros Ho (j & Hj)%list_elem_of_lookup_1 Hab.
  assert (a ∈ take j order) as Ha.
  { eapply (Ho _ b (drop (S j) order)); [|done]. by rewrite take_drop_middle. }
  apply list_elem_of_lookup_1 in Ha as (i & Hi).
  assert (i < j) by (apply lookup_lt_Some in Hi; rewrite length_take in Hi; lia).
  exists i, j. rewrite lookup_take_lt in Hi by done. done.
Qed.

Lemma precedes_trans l a b c : NoDup l → precedes l a b → precedes l b c → precedes l a c.
Proof.
  intros Hnd (i & j & Hi & Hj & ?) (j' & k & Hj' & Hk & ?).
  assert (j = j') by by eapply NoDup_lookup. subst. exists i, k. split; [done|]. split; [done|]. lia.
Qed.

Lemma precedes_irrefl l a : NoDup l → ¬ precedes l a a.
Proof.
  intros Hnd (i & j & Hi & Hj & ?). assert (i = j) by by eapply NoDup_lookup. lia.
Qed.

Lemma lookup_const_map {V} (c : V) (ids : list string) a :
  a ∈ ids → (list_to_map ((λ i, (i, c)) <$> ids) : gmap string V) !! a = Some c.
Proof.
  induction ids as [|i ids IH]; cbn; [set_solver|]. intros Ha.
  destruct (decide (i = a)) as [->|]; [by rewrite lookup_insert_eq|].
  rewrite lookup_insert_ne by done. apply IH. set_solver.
Qed.

(** The graph and the degrees the loop starts from. *)
Lemma build_topo_spec steps g deg :
  build_topo steps = (g, deg) →
  (∀ a, a ∈ step_id <$> steps → g !! a = Some (targets (all_edges steps) a)) ∧
  (∀ b, b ∈ step_id <$> steps → degree deg b = Z.of_nat (pending (all_edges steps) [] b)).
Proof.
  unfold build_topo. intros Hb.
  destruct (build_lookup (all_edges steps) (list_to_map ((λ i, (i, [])) <$> (step_id <$> steps)))
    (list_to_map ((λ i, (i, 0%Z)) <$> (step_id <$> steps)))) as [Hg Hd].
  { intros [a b] [Ha Hb']%all_edges_ids. cbn. rewrite !lookup_const_map by done. eauto. }
  rewrite Hb in Hg, Hd. cbn in Hg, Hd. split.
  - intros a Ha. by rewrite (Hg a []) by by apply lookup_const_map.
  - intros b Hb'. unfold degree. by rewrite (Hd b 0%Z) by by apply lookup_const_map.
Qed.

Lemma initial_inv steps deg :
  NoDup (step_id <$> steps) →
  (∀ b, b ∈ step_id <$> steps → degree deg b = Z.of_nat (pending (all_edges steps) [] b)) →
  inv (step_id <$> steps) (all_edges steps) [] deg
    (List.filter (λ sid, (degree deg sid =? 0)%Z) (step_id <$> steps)) [].
Proof.
  intros Hnd Hd. split; cbn.
  - rewrite NoDup_ListNoDup in *. by apply List.NoDup_filter.
  - intros n. rewrite !list_elem_of_In, filter_In. naive_solver.
  - intros b Hb. rewrite Hd by done. lia.
  - intros b Hb. rewrite !list_elem_of_In, filter_In, Z.eqb_eq. rewrite list_elem_of_In in Hb. naive_solver.
Qed.

(** When the queue is empty and nodes remain, they lie on or behind a cycle. *)
Lemma stuck_cycle ids E deg order :
  (∀ a b, (a, b) ∈ E → a ∈ ids ∧ b ∈ ids) → inv ids E [] deg [] order →
  length order ≠ length ids → NoDup ids → ∃ a, tc (λ a b, (a, b) ∈ E) a a.
Proof.
  intros HE Hinv Hlen Hnd. pose proof (inv_NoDup _ _ _ _ _ _ Hinv) as Ho. rewrite app_nil_r in Ho.
  pose proof (inv_ids _ _ _ _ _ _ Hinv) as Hids. rewrite app_nil_r in Hids.
  apply (predecessors_cycle _ (list_to_set ids ∖ list_to_set order)).
  - intros Hempty. apply Hlen, Permutation_length, NoDup_Permutation; [done..|].
    intros x. split; [apply Hids|]. intros Hx. destruct (decide (x ∈ order)); [done|]. set_solver.
  - intros x [Hx%elem_of_list_to_set Hn]%elem_of_difference. rewrite elem_of_list_to_set in Hn.
    pose proof (inv_zero _ _ _ _ _ _ Hinv x Hx) as Hz. rewrite app_nil_r in Hz.
    rewrite (inv_degree _ _ _ _ _ _ Hinv) in Hz by done.
    change (occurrences x []) with 0 in Hz.
    destruct (decide (Exists (λ e, e.2 = x ∧ e.1 ∉ order) E)) as [([y z] & He & <- & Hy)%Exists_exists|Hnone].
    + exists y. split; [|done]. apply HE in He. set_solver.
    + exfalso. apply Hn, Hz. enough (pending E order x = 0) by lia. apply pending_zero.
      intros a Ha. destruct (decide (a ∈ order)); [done|]. exfalso. apply Hnone, Exists_exists. by exists (a, x).
Qed.

Lemma topological_sort_spec steps :
  NoDup (step_id <$> steps) →
  match _topological_sort steps with
  | Ok order => order ≡ₚ step_id <$> steps ∧ acyclic (runs_before steps) ∧
                ∀ a b, runs_before steps a b → precedes order a b
  | Err e => e = CircularDependency ∧ ¬ acyclic (runs_before steps)
  end.
Proof.
  intros Hnd. unfold _topological_sort.
  destruct (build_topo steps) as [g deg] eqn:Hb. apply build_topo_spec in Hb as [Hg Hd].
  destruct (kahn_spec _ _ g Hnd (all_edges_ids steps) Hg (2 * length (step_id <$> steps)) _ _ []
    (initial_inv steps deg Hnd Hd)) as (order & deg' & -> & Hinv & Ho); [|cbn; lia|].
  { intros [|] ? ? ?; discriminate. }
  destruct (Nat.eqb_spec (length order) (length (step_id <$> steps))) as [Hlen|Hlen]; cycle 1.
  { split; [done|]. intros Hac. edestruct stuck_cycle as [a Ha]; [apply all_edges_ids|done..|].
    by apply (Hac a). }
  pose proof (inv_NoDup _ _ _ _ _ _ Hinv) as Hno. rewrite app_nil_r in Hno.
  assert (order ≡ₚ step_id <$> steps) as Hp.
  { apply submseteq_length_Permutation; [|lia]. apply NoDup_submseteq; [done|].
    intros x Hx. apply (inv_ids _ _ _ _ _ _ Hinv). by rewrite app_nil_r. }
  assert (∀ a b, runs_before steps a b → precedes order a b) as Hprec.
  { intros a b Hab. eapply ordered_precedes; [done| |done]. rewrite Hp. by apply all_edges_ids in Hab as [_ ?]. }
  split; [done|]. split; [|done]. intros a Ha. apply (precedes_irrefl order a Hno).
  assert (∀ x y, tc (runs_before steps) x y → precedes order x y) as Htc; [|by apply Htc].
  induction 1; [auto|]. eapply precedes_trans; eauto.
Qed.

(** ** Termination for any list of steps *)

(** The nodes that can still enter the queue. *)
Definition positive (deg : degrees) : nat := size (filter (λ kv, (0 < kv.2)%Z) deg).

Lemma positive_decrement deg n :
  (positive (<[n := (degree deg n - 1)%Z]> deg) + (if (degree deg n - 1 =? 0)%Z then 1 else 0) ≤
   positive deg)%nat.
Proof.
  unfold positive. destruct (Z.eqb_spec (degree deg n - 1) 0) as [Hd|Hd].
  - rewrite Hd, map_filter_insert_False by (cbn; lia).
    assert (deg !! n = Some 1%Z) as Hn.
    { unfold degree in Hd. destruct (deg !! n); cbn in Hd; [f_equal; lia|lia]. }
    assert (filter (λ kv, (0 < kv.2)%Z) deg !! n = Some 1%Z) as Hin
      by (apply map_lookup_filter_Some; cbn; split; [done|lia]).
    rewrite map_filter_delete, map_size_delete_Some by eauto.
    assert (size (filter (λ kv, (0 < kv.2)%Z) deg) ≠ 0%nat); [|lia].
    intros H0%map_size_empty_inv. rewrite H0 in Hin. by rewrite lookup_empty in Hin.
  - rewrite Nat.add_0_r. destruct (decide (0 < degree deg n - 1)%Z) as [Hp|Hp].
    + assert (∃ d, deg !! n = Some d ∧ (0 < d)%Z) as (d & Hn & Hd0).
      { unfold degree in Hp. destruct (deg !! n) as [d|]; cbn in Hp; [exists d; split; [done|lia]|lia]. }
      rewrite map_filter_insert_True by done.
      rewrite map_size_insert_Some; [done|]. exists d. by apply map_lookup_filter_Some.
    + rewrite map_filter_insert_False by done. rewrite map_filter_delete. rewrite map_size_delete.
      destruct (_ !! n); cbn; lia.
Qed.

Lemma relax_measure ns deg queue :
  let r := relax ns deg queue in
  (length r.2 + positive r.1 ≤ length queue + positive deg)%nat.
Proof.
  revert deg queue. induction ns as [|n ns IH]; intros deg queue; cbn; [done|].
  etrans; [apply IH|]. pose proof (positive_decrement deg n) as H.
  destruct (_ =? 0)%Z; [rewrite length_app; cbn|]; lia.
Qed.

Lemma kahn_terminates fuel g deg queue order :
  (length queue + positive deg ≤ fuel)%nat → is_Some (kahn fuel g deg queue order).
Proof.
  revert deg queue order. induction fuel as [|fuel IH]; intros deg queue order Hf;
    (destruct queue as [|n queue]; [by eexists|]); [cbn in Hf; lia|].
  cbn. pose proof (relax_measure (default [] (g !! n)) deg queue) as Hr.
  destruct (relax _ deg queue) as [deg' queue']. apply IH. cbn in *. lia.
Qed.

Lemma build_topo_size steps g deg :
  build_topo steps = (g, deg) → (size deg ≤ length (step_id <$> steps))%nat.
Proof.
  unfold build_topo. generalize (all_edges steps) as E. intros E Hb.
  assert (∀ (g0 : topo_graph) (d0 : degrees), size (foldl add_edge (g0, d0) E).2 = size d0) as Hs.
  { clear. induction E as [|e E IH]; intros g0 d0; cbn -[add_edge]; [done|].
    unfold add_edge at 2. cbn. rewrite IH. rewrite <- !(size_dom (D := gset string)). by rewrite dom_alter_L. }
  apply (f_equal snd) in Hb. cbn in Hb. rewrite <- Hb, Hs. clear.
  generalize (step_id <$> steps) as ids. induction ids as [|i ids IH]; cbn; [by rewrite map_size_empty|].
  rewrite map_size_insert. destruct (_ !! i); cbn; lia.
Qed.

(** The sort never runs out of fuel, whatever the steps. *)
Lemma topological_sort_terminates steps : _topological_sort steps ≠ Err TopoOutOfFuel.
Proof.
  unfold _topological_sort. destruct (build_topo steps) as [g deg] eqn:Hb.
  destruct (kahn_terminates (2 * length (step_id <$> steps)) g deg
    (List.filter (λ sid, (degree deg sid =? 0)%Z) (step_id <$> steps)) []) as [o ->];
    [|by destruct (_ =? _)].
  assert (length (List.filter (λ sid, (degree deg sid =? 0)%Z) (step_id <$> steps)) ≤
          length (step_id <$> steps))%nat by apply List.filter_length_le.
  assert (positive deg ≤ length (step_id <$> steps))%nat; [|lia].
  unfold positive. etrans; [apply map_size_filter|]. eapply build_topo_size; eauto.
Qed.

(** ** The order lists only ids of steps *)

Lemma relax_elem ns deg queue x : x ∈ (relax ns deg queue).2 → x ∈ queue ∨ x ∈ ns.
Proof.
  revert deg queue. induction ns as [|n ns IH]; intros deg queue; cbn; [by left|].
  intros [Hq|Hn]%IH; [|by right; right]. destruct (_ =? 0)%Z; [|by left].
  apply elem_of_app in Hq as [?|Hq]; [by left|]. apply list_elem_of_singleton in Hq as ->. right. left.
Qed.

Lemma kahn_elem (ids : list string) fuel g deg queue order order' :
  (∀ a l x, g !! a = Some l → x ∈ l → x ∈ ids) → (∀ x, x ∈ queue → x ∈ ids) → (∀ x, x ∈ order → x ∈ ids) →
  kahn fuel g deg queue order = Some order' → ∀ x, x ∈ order' → x ∈ ids.
Proof.
  intros Hg. revert deg queue order. induction fuel as [|fuel IH]; intros deg queue order Hq Ho;
    (destruct queue as [|n queue]; cbn; [by intros [= <-]|]); [done|].
  destruct (relax _ deg queue) as [deg' queue'] eqn:Er. apply IH.
  - intros x Hx. assert (x ∈ (relax (default [] (g !! n)) deg queue).2) as Hx' by by rewrite Er.
    apply relax_elem in Hx' as [Hx'|Hx']; [apply Hq; by right|].
    destruct (g !! n) as [l|] eqn:Hl; [by eapply Hg|by apply elem_of_nil in Hx'].
  - intros x [?|Hx]%elem_of_app; [auto|]. apply list_elem_of_singleton in Hx as ->. apply Hq. left.
Qed.

Lemma build_topo_targets steps g deg a l x :
  build_topo steps = (g, deg) → g !! a = Some l → x ∈ l → x ∈ step_id <$> steps.
Proof.
  unfold build_topo. intros Hb.
  assert (∀ (E : list (string * string)) (g0 : topo_graph) d0, (∀ e, e ∈ E → e.2 ∈ step_id <$> steps) →
    (∀ a l x, g0 !! a = Some l → x ∈ l → x ∈ step_id <$> steps) →
    ∀ a l x, (foldl add_edge (g0, d0) E).1 !! a = Some l → x ∈ l → x ∈ step_id <$> steps) as Hfold.
  { induction E as [|e E IH]; intros g0 d0 HE Hg0; [done|]. cbn -[add_edge].
    apply IH; [intros; apply HE; by right|]. intros a' l' x'. cbn.
    destruct (decide (e.1 = a')) as [<-|Hne].
    - rewrite lookup_alter_eq. destruct (g0 !! e.1) as [l0|] eqn:E0; [|done]. intros [= <-].
      intros [?|Hx]%elem_of_app; [by eapply Hg0|]. apply list_elem_of_singleton in Hx as ->. apply HE. left.
    - rewrite lookup_alter_ne by done. apply Hg0. }
  apply (f_equal fst) in Hb. cbn in Hb. subst g. apply Hfold.
  - intros [y z] Hin. by apply all_edges_ids in Hin as [_ ?].
  - intros a' l' x' Hl Hx. exfalso.
    apply elem_of_list_to_map_2, list_elem_of_fmap in Hl as (i & [= _ ->] & _). by apply elem_of_nil in Hx.
Qed.

Lemma topological_sort_elem steps order sid :
  _topological_sort steps = Ok order → sid ∈ order → sid ∈ step_id <$> steps.
Proof.
  unfold _topological_sort. destruct (build_topo steps) as [g deg] eqn:Hb.
  destruct (kahn _ _ _ _ _) as [o|] eqn:Hk; [|done]. destruct (_ =? _)%nat; [|done]. intros [= ->].
  eapply kahn_elem; [| | |done].
  - intros a l x. by eapply build_topo_targets.
  - intros x Hx%list_elem_of_In. apply filter_In in Hx as [Hx _]. by apply list_elem_of_In.
  - intros x Hx. by apply elem_of_nil in Hx.
Qed.

Lemma build_step_index_Some steps sid :
  sid ∈ step_id <$> steps → is_Some (_build_step_index steps !! sid).
Proof.
  unfold _build_step_index.
  assert (∀ m : gmap string Step, is_Some (m !! sid) ∨ sid ∈ step_id <$> steps →
    is_Some (foldl (λ m s, <[step_id s := s]> m) m steps !! sid)) as H; [|by auto].
  induction steps as [|x steps IH]; intros m; cbn; [by intros [?|?%elem_of_nil]|].
  intros Hm. apply IH. destruct (decide (step_id x = sid)) as [<-|Hne].
  - left. rewrite lookup_insert_eq. eauto.
  - destruct Hm as [Hm|[?|?]%elem_of_cons]; [|done|by right]. left. by rewrite lookup_insert_ne.
Qed.

(** ** Agreement with the parser *)

(** A definition that parses and names no fallback always has an execution
    order. *)
Theorem parsed_definition_sorts defn steps :
  parse defn = Ok steps → Forall (λ s : Step, _fallback_target s = None) steps →
  ∃ order, _topological_sort steps = Ok order.
Proof.
  intros Hp Hfb. apply parse_spec in Hp as (_ & Hnd & _ & Hac).
  pose proof (topological_sort_spec steps Hnd) as H.
  destruct (_topological_sort steps) as [order|e]; [eauto|]. destruct H as [_ Hc]. exfalso. apply Hc.
  intros a Ha. apply (Hac a).
  assert (∀ x y, tc (runs_before steps) x y → tc (depends steps) y x) as Htc; [|by apply Htc].
  assert (∀ x y, runs_before steps x y → depends steps y x) as Hone.
  { intros x y (s & He & Hs)%list_elem_of_bind. rewrite Forall_forall in Hfb.
    unfold step_edges in He. rewrite (Hfb s Hs), app_nil_r in He.
    apply list_elem_of_fmap in He as (d & [= -> ->] & Hd).
    apply list_elem_of_In, filter_In in Hd as [Hd%list_elem_of_In _]. by exists s. }
  induction 1; [apply tc_once; auto|]. eapply tc_r; eauto.
Qed.

(** For steps with distinct ids the sort returns every id exactly once, each
    step after the steps it depends on and each fallback after its sources; it
    refuses the steps exactly when these constraints are cyclic, and it always
    finishes. *)
Theorem topological_sort_correct steps :
  NoDup (step_id <$> steps) →
  match _topological_sort steps with
  | Ok order => order ≡ₚ step_id <$> steps ∧ acyclic (runs_before steps) ∧
                ∀ a b, runs_before steps a b → precedes order a b
  | Err e => e = CircularDependency ∧ ¬ acyclic (runs_before steps)
  end.
Proof. apply topological_sort_spec. Qed.

(** * Examples *)
Module GraphExample.

Definition mk (id : string) (deps : list string) (onf : option string) : Step :=
  {| step_id := id; fields := {| type := None; depends_on := deps; on_failure := onf; optional := false;
       allow_failure := false; true_path := None; false_path := None; connector := None;
       connector_key := None; tool := None; tool_name := None; action := None; agent := None;
       agent_type := None; idempotency_key := None; http_method := None; replanned := false |} |}.

Definition diamond : list Step :=
  [mk "d" ["b"; "c"] None; mk "b" ["a"] None; mk "c" ["a"; "zz"] None; mk "a" [] None].

(** The fallback of [a] is a step that [a] itself depends on. *)
Definition circular_fallback : list Step :=
  [mk "a" ["b"] (Some "retry(2) then fallback( b )"); mk "b" [] None].

Example diamond_order : _topological_sort diamond = Ok ["a"; "b"; "c"; "d"].
Proof. vm_compute. reflexivity. Qed.

Example directives :
  (_step_allows_failure (mk "a" [] (Some "retry(3), Ignore")),
   _step_allows_failure (mk "a" [] (Some "retry(3)")),
   _step_allows_failure (mk "a" [] (Some "fallback(b)")),
   _parse_retry_count " retry(12)x") = (true, false, true, 12%Z).
Proof. vm_compute. reflexivity. Qed.
End GraphExample.

Lemma topological_sort_correct_witness :
  NoDup (step_id <$> GraphExample.diamond) ∧
  match _topological_sort GraphExample.diamond with
  | Ok order => order ≡ₚ step_id <$> GraphExample.diamond ∧
      acyclic (runs_before GraphExample.diamond) ∧
      ∀ a b, runs_before GraphExample.diamond a b → precedes order a b
  | Err e => e = CircularDependency ∧ ¬ acyclic (runs_before GraphExample.diamond)
  end.
Proof.
  assert (NoDup (step_id <$> GraphExample.diamond)) as H.
  { apply (bool_decide_unpack _). vm_compute. exact I. }
  split; [exact H|]. apply (topological_sort_correct GraphExample.diamond H).
Defined.

Lemma parsed_definition_sorts_witness :
  ∃ steps, parse {| raw_steps := Some (raw_of <$> GraphExample.diamond) |} = Ok steps ∧
  ∃ order, _topological_sort steps = Ok order.
Proof.
  exists GraphExample.diamond. split; [vm_compute; reflexivity|].
  apply (parsed_definition_sorts {| raw_steps := Some (raw_of <$> GraphExample.diamond) |}).
  - vm_compute. reflexivity.
  - repeat (constructor; [vm_compute; reflexivity|]). constructor.
Defined.

(** The parser does not look at fallback edges: it accepts a definition whose
    steps have no execution order. *)
Theorem parser_accepts_unsortable :
  ∃ defn steps, parse defn = Ok steps ∧ _topological_sort steps = Err CircularDependency.
Proof.
  exists {| raw_steps := Some (raw_of <$> GraphExample.circular_fallback) |},
    GraphExample.circular_fallback.
  split; vm_compute; reflexivity.
Qed.
