(* ===== verification/WorkflowStore.v ===== *)
(** Workflow run state, its durable store and the effects of the engine:
    src/workflows/state_store.py.

    [RunState] is the run's state dictionary with one field per key the code
    reads or writes.  The repository is [InMemoryWorkflowStateRepository]; its
    rows and its transition log are the [world].  A state is a JSON document, which
    the JSON copy a save makes leaves as it is.  Timestamps of rows, the state
    hashes and the transition metadata beyond the event name are left out.

    Code that awaits something outside itself is a [prog]: a tree of [event]s
    with a continuation for every possible answer.  Store events are answered by
    the store; the answers of external events (running a step, the language
    model, the clock, the operator override) are arbitrary.  A program is finite
    because the code's loops are bounded, so programs are an inductive type. *)

From Stdlib Require Import QArith.
From S2P Require Import Prelude PyVal StepResults WorkflowParser.

#[local] Close Scope Q_scope.

(** * Run state *)

Record ReplanEvent := {
  replan_number : nat;
  replan_timestamp : Z;
  replan_failed_step_id : string;
  replan_error : string;
  replacement_steps : list string;
}.

Record Definition_ := {
  def_steps : list Step;
  timeout_hours : option Q;
  replan_on_failure : bool;
}.

(** Times are microseconds since the epoch. [state_version] is the key
    [_state_version], present on states that came from the store. *)
Record RunState := {
  run_id : string;
  definition : Definition_;
  status : string;
  trigger_payload : dict;
  steps_total : nat;
  steps_completed : nat;
  step_results : list (string * dict);
  started_at : Z;
  replan_count : nat;
  replan_history : list ReplanEvent;
  tenant_id : option string;
  workflow_run_id : option string;
  workflow_id : option string;
  caller_grant : dict;
  waiting_step_id : option string;
  run_error : option dict;
  completed_at : option Z;
  cancelled_at : option Z;
  state_version : option Z;
}.

(** Assignments [state[key] = value]. *)
Definition set_status (v : string) (s : RunState) : RunState :=
  Build_RunState (run_id s) (definition s) v (trigger_payload s) (steps_total s) (steps_completed s)
    (step_results s) (started_at s) (replan_count s) (replan_history s) (tenant_id s)
    (workflow_run_id s) (workflow_id s) (caller_grant s) (waiting_step_id s) (run_error s)
    (completed_at s) (cancelled_at s) (state_version s).

(** [state["step_results"] = r; state["steps_completed"] = len(r)] *)
Definition set_results (r : list (string * dict)) (s : RunState) : RunState :=
  Build_RunState (run_id s) (definition s) (status s) (trigger_payload s) (steps_total s) (length r)
    r (started_at s) (replan_count s) (replan_history s) (tenant_id s) (workflow_run_id s)
    (workflow_id s) (caller_grant s) (waiting_step_id s) (run_error s) (completed_at s)
    (cancelled_at s) (state_version s).

(** [state["step_results"][sid] = d; state["steps_completed"] = len(state["step_results"])] *)
Definition set_result (sid : string) (d : dict) (s : RunState) : RunState :=
  set_results (dict_set sid d (step_results s)) s.

Definition set_waiting (v : option string) (s : RunState) : RunState :=
  Build_RunState (run_id s) (definition s) (status s) (trigger_payload s) (steps_total s)
    (steps_completed s) (step_results s) (started_at s) (replan_count s) (replan_history s)
    (tenant_id s) (workflow_run_id s) (workflow_id s) (caller_grant s) v (run_error s)
    (completed_at s) (cancelled_at s) (state_version s).

Definition set_error (v : dict) (s : RunState) : RunState :=
  Build_RunState (run_id s) (definition s) (status s) (trigger_payload s) (steps_total s)
    (steps_completed s) (step_results s) (started_at s) (replan_count s) (replan_history s)
    (tenant_id s) (workflow_run_id s) (workflow_id s) (caller_grant s) (waiting_step_id s) (Some v)
    (completed_at s) (cancelled_at s) (state_version s).

Definition set_completed_at (t : Z) (s : RunState) : RunState :=
  Build_RunState (run_id s) (definition s) (status s) (trigger_payload s) (steps_total s)
    (steps_completed s) (step_results s) (started_at s) (replan_count s) (replan_history s)
    (tenant_id s) (workflow_run_id s) (workflow_id s) (caller_grant s) (waiting_step_id s)
    (run_error s) (Some t) (cancelled_at s) (state_version s).

Definition set_cancelled_at (t : Z) (s : RunState) : RunState :=
  Build_RunState (run_id s) (definition s) (status s) (trigger_payload s) (steps_total s)
    (steps_completed s) (step_results s) (started_at s) (replan_count s) (replan_history s)
    (tenant_id s) (workflow_run_id s) (workflow_id s) (caller_grant s) (waiting_step_id s)
    (run_error s) (completed_at s) (Some t) (state_version s).

Definition set_version (v : option Z) (s : RunState) : RunState :=
  Build_RunState (run_id s) (definition s) (status s) (trigger_payload s) (steps_total s)
    (steps_completed s) (step_results s) (started_at s) (replan_count s) (replan_history s)
    (tenant_id s) (workflow_run_id s) (workflow_id s) (caller_grant s) (waiting_step_id s)
    (run_error s) (completed_at s) (cancelled_at s) v.

(** The assignments a successful replan makes besides the step result. *)
Definition set_plan (steps : list Step) (count : nat) (ev : ReplanEvent) (s : RunState) : RunState :=
  Build_RunState (run_id s)
    {| def_steps := steps; timeout_hours := timeout_hours (definition s); replan_on_failure := replan_on_failure (definition s) |}
    (status s) (trigger_payload s) (length steps) (steps_completed s) (step_results s)
    (started_at s) count (replan_history s ++ [ev]) (tenant_id s) (workflow_run_id s)
    (workflow_id s) (caller_grant s) (waiting_step_id s) (run_error s) (completed_at s)
    (cancelled_at s) (state_version s).

Definition _without_version (s : RunState) : RunState := set_version None s.

(** * The repository *)

Record Row := { row_state : RunState; row_version : Z }.

Record Transition := {
  t_run_id : string;
  t_step_id : option string;
  t_actor : string;
  t_event : string;
  t_idempotency_key : option string;
}.

(** [redis] holds what the cache answers per run id; [issued] the run ids handed
    out so far, [named] those callers have asked for. *)
Record world := {
  rows : gmap string Row;
  transitions : list Transition;
  redis : gmap string RunState;
  issued : gset string;
  named : gset string;
}.

(** The row and the transition a save writes, and the new version. *)
Definition repo_write (w : world) (s : RunState) (version : Z) (actor event : string)
    (step_id idempotency_key : option string) : world * result exn (option Z) :=
  ({| rows := <[run_id s := {| row_state := s; row_version := version |}]> (rows w);
      transitions := transitions w ++ [{| t_run_id := run_id s; t_step_id := step_id; t_actor := actor;
        t_event := event; t_idempotency_key := idempotency_key |}];
      redis := redis w; issued := issued w; named := named w |}, Ok (Some version)).

(** The answer of a repository save is a version, [None] for a replayed
    idempotency key, or the stale-state error. *)
Definition repo_save (w : world) (s : RunState) (expected : option Z) (actor event : string)
    (step_id idempotency_key : option string) : world * result exn (option Z) :=
  let rid := run_id s in
  let replayed := nonempty idempotency_key &&
    existsb (λ t, bool_decide (t_run_id t = rid ∧ t_idempotency_key t = idempotency_key)) (transitions w) in
  let previous := rows w !! rid in
  if replayed then (w, Ok None)
  else
    match previous, expected with
    | Some p, Some v =>
        if (row_version p =? v)%Z then repo_write w s (row_version p + 1) actor event step_id idempotency_key
        else (w, Err (StaleState v (row_version p)))
    | Some p, None => repo_write w s (row_version p + 1) actor event step_id idempotency_key
    | None, _ => repo_write w s 1 actor event step_id idempotency_key
    end.

(** [load]: the stored state, carrying the row's version. *)
Definition repo_load (w : world) (rid : string) : option RunState :=
  (λ r, set_version (Some (row_version r)) (row_state r)) <$> rows w !! rid.

(** * Effects *)

(** The verdict of [core.governance.operator_override.check]. *)
Record override_verdict := { blocked : bool; override_reason : string; override_dict : pyval }.

Inductive event : Type → Type :=
| RepoLoad (rid : string) : event (option RunState)
| RepoSave (s : RunState) (expected : option Z) (actor ev : string) (sid : option string) :
    event (result exn (option Z))
| RedisGet (rid : string) : event (option RunState)
| RedisSet (s : RunState) : event unit
| NewRunId : event string
| Now : event Z
| CheckOverride (tenant wf : option string) : event override_verdict
| ExecuteStep (step : Step) (s : RunState) (context : dict) : event (result string pyval)
| Sleep (attempt : nat) : event unit
| ReplanModel (defn : Definition_) (completed : list (string * dict)) (failed : string * string)
    (remaining : list Step) : event (result string (list RawStep)).

Inductive prog (A : Type) : Type :=
| Ret (a : A)
| Vis {X : Type} (e : event X) (k : X → prog A).
Arguments Ret {A} a.
Arguments Vis {A X} e k.

Fixpoint bind {A B} (p : prog A) (f : A → prog B) : prog B :=
  match p with
  | Ret a => f a
  | Vis e k => Vis e (λ x, bind (k x) f)
  end.

Definition trigger {X} (e : event X) : prog X := Vis e Ret.

(** Programs that may raise. *)
Definition M (A : Type) : Type := prog (result exn A).

Definition ret {A} (a : A) : M A := Ret (Ok a).
Definition throw {A} (e : exn) : M A := Ret (Err e).
Definition lift {A} (p : prog A) : M A := bind p ret.
Definition of_result {A} (r : result exn A) : M A := Ret r.
Definition bindM {A B} (m : M A) (f : A → M B) : M B :=
  bind m (λ r, match r with Ok a => f a | Err e => Ret (Err e) end).

Declare Scope prog_scope.
Delimit Scope prog_scope with prog.
Bind Scope prog_scope with prog.
Notation "x ⇐ m ; k" := (bindM m (λ x, k))
  (at level 20, m at level 100, k at level 200, right associativity) : prog_scope.

(** * The state store *)

(** [WorkflowStateStore.save], which also updates the version of the caller's
    state and refreshes the cache. *)
Definition store_save (actor ev : string) (sid : option string) (s : RunState) : M RunState :=
  (v ⇐ trigger (RepoSave (_without_version s) (state_version s) actor ev sid);
   let s' := match v with Some n => set_version (Some n) s | None => s end in
   (_ ⇐ lift (trigger (RedisSet (_without_version s)));
    ret s'))%prog.

(** Which repository the store was given; the SQL one has a tenant scope. *)
Inductive repository_kind := InMemory | SqlAlchemy (scope : option string).

(** The parsing of UUIDs by the standard library; [None] when it fails. *)
Class StoreConfig := {
  repository : repository_kind;
  coerce_uuid : pyval → option string;
}.

Definition _extract_tenant_id `{StoreConfig} (s : RunState) : option string :=
  coerce_uuid (py_or (vstr (tenant_id s))
    (py_or (dget (trigger_payload s) "tenant_id") (dget (trigger_payload s) "agenticorg:tenant_id"))).

(** A cached legacy state is adopted only inside the repository's own scope. *)
Definition legacy_admitted `{StoreConfig} (rid : string) (s : RunState) : bool :=
  String.eqb (run_id s) rid &&
  match repository with
  | InMemory => true
  | SqlAlchemy None => false
  | SqlAlchemy (Some scope) => bool_decide (_extract_tenant_id s = Some scope)
  end.

Definition store_load `{StoreConfig} (rid : string) : M (option RunState) :=
  (found ⇐ lift (trigger (RepoLoad rid));
   match found with
   | Some s => ret (Some s)
   | None =>
       legacy ⇐ lift (trigger (RedisGet rid));
       match legacy with
       | Some s =>
           if legacy_admitted rid s
           then (s' ⇐ store_save "redis_legacy_backfill" "redis_fallback" None s; ret (Some s'))
           else ret None
       | None => ret None
       end
   end)%prog.

(** * Answers

    What a program can observe: the store answers its own events, a cache write
    may fail and a cache read may find nothing, a new run id (a random UUID) is
    one that was neither issued nor asked for before, and everything else is unconstrained. *)
Definition answers {X} (e : event X) : world → world → X → Prop :=
  match e in event X return world → world → X → Prop with
  | RepoLoad rid => λ w w' x, w' = w ∧ x = repo_load w rid
  | RepoSave s expected actor ev sid => λ w w' x, (w', x) = repo_save w s expected actor ev sid None
  | RedisGet rid => λ w w' x, w' = w ∧ (x = redis w !! rid ∨ x = None)
  | RedisSet s => λ w w' x,
      w' = w ∨ w' = {| rows := rows w; transitions := transitions w;
                       redis := <[run_id s := s]> (redis w); issued := issued w; named := named w |}
  | NewRunId => λ w w' x, (x ∉ issued w) ∧ (x ∉ named w) ∧
      w' = {| rows := rows w; transitions := transitions w; redis := redis w; issued := {[x]} ∪ issued w; named := named w |}
  | Now => λ w w' x, w' = w
  | CheckOverride _ _ => λ w w' x, w' = w
  | ExecuteStep _ _ _ => λ w w' x, w' = w
  | Sleep _ => λ w w' x, w' = w
  | ReplanModel _ _ _ _ => λ w w' x, w' = w
  end.

(** * A run state for examples *)
Module StoreExample.
Definition fresh (rid : string) (steps : list Step) : RunState := {|
  run_id := rid;
  definition := {| def_steps := steps; timeout_hours := None; replan_on_failure := false |};
  status := "running"; trigger_payload := []; steps_total := length steps; steps_completed := 0;
  step_results := []; started_at := 0; replan_count := 0; replan_history := []; tenant_id := None;
  workflow_run_id := None; workflow_id := None; caller_grant := []; waiting_step_id := None;
  run_error := None; completed_at := None; cancelled_at := None; state_version := None |}.
End StoreExample.
