(* ===== verification/WorkflowRetry.v ===== *)
(** The retry rule of workflow steps: [_execute_with_retry] and its helpers in
    src/workflows/engine.py, [retry_with_backoff] in src/workflows/retry.py, and
    the part of src/workflows/step_types.py that decides which connector tool a
    step calls.

    The theorems show that a step is attempted more than once only when what it
    calls is read-only by name or carries an idempotency key, and bound the number
    of attempts. *)

From Stdlib Require Import Ascii.
From S2P Require Import Prelude PyVal StepResults WorkflowParser WorkflowGraph WorkflowStore.

(** * Text *)

Fixpoint contains_chars (p l : list ascii) : bool :=
  match strip_prefix p l with
  | Some _ => true
  | None => match l with [] => false | _ :: l' => contains_chars p l' end
  end.

(** [p in s] and [s.startswith(p)] *)
Definition contains (p s : string) : bool := contains_chars (chars p) (chars s).
Definition starts_with (p s : string) : bool := bool_decide (is_Some (strip_prefix (chars p) (chars s))).

(** [s.replace(a, b)] for single characters. *)
Definition replace_char (a b : ascii) (s : string) : string :=
  of_chars ((λ c, if Ascii.eqb c a then b else c) <$> chars s).

(** [str.upper] on one character; U+00B5 and U+00FF leave the 256 characters and
    stand for themselves, which no modelled code can distinguish. *)
Definition upper_char (c : ascii) : list ascii :=
  if in_range c 223 223 then ["S"; "S"]%char
  else if is_lower_az c || in_range c 224 246 || in_range c 248 254
  then [ascii_of_nat (nat_of_ascii c - 32)] else [c].
Definition upper (s : string) : string := of_chars (chars s ≫= upper_char).

(** [str(value or "").strip().lower().replace("-", "_").replace(" ", "_")] *)
Definition _normalize_key (value : option string) : string :=
  replace_char " " "_" (replace_char "-" "_" (lower (strip (default EmptyString value)))).

(** [a or b] on optional strings. *)
Definition or_str (a b : option string) : option string := if nonempty a then a else b.

(** * The connector tool of a step *)

Definition CONNECTOR_TOOL_ALIASES : list (string * (string * string)) :=
  [("fetch_hubspot_contacts", ("hubspot", "list_contacts"));
   ("get_hubspot_contacts", ("hubspot", "list_contacts"));
   ("list_hubspot_contacts", ("hubspot", "list_contacts"));
   ("retrieve_hubspot_contacts", ("hubspot", "list_contacts"));
   ("hubspot_contact_retrieval", ("hubspot", "list_contacts"));
   ("fetch_hubspot_deals", ("hubspot", "list_deals"));
   ("get_hubspot_deals", ("hubspot", "list_deals"));
   ("list_hubspot_deals", ("hubspot", "list_deals"));
   ("retrieve_hubspot_deals", ("hubspot", "list_deals"));
   ("hubspot_deal_retrieval", ("hubspot", "list_deals"))].

(** The first value whose key is an alias. *)
Fixpoint first_alias (values : list (option string)) : option (string * string) :=
  match values with
  | [] => None
  | v :: vs => match assoc (_normalize_key v) CONNECTOR_TOOL_ALIASES with
               | Some r => Some r
               | None => first_alias vs
               end
  end.

(** [value.split(":", 1)] when the value holds a colon. *)
Fixpoint split_colon (cur l : list ascii) : option (string * string) :=
  match l with
  | [] => None
  | c :: l' => if Ascii.eqb c ":" then Some (of_chars (reverse cur), of_chars l')
               else split_colon (c :: cur) l'
  end.

Definition qualified (value : option string) : option (string * string) :=
  match value with
  | Some v => if starts_with "tool:" v then None
              else match split_colon [] (chars v) with
                   | Some (c, t) => Some (_normalize_key (Some c), strip t)
                   | None => None
                   end
  | None => None
  end.

Definition _connector_tool_ref_from_step (step : Step) (allow_action_tool : bool) :
    option (string * string) :=
  let connector := or_str (connector step) (connector_key step) in
  let tool := or_str (tool step) (tool_name step) in
  let action := action step in
  let agent := or_str (agent step) (agent_type step) in
  match first_alias [tool; action; agent; Some (step_id step)] with
  | Some r => Some r
  | None =>
      match qualified tool with
      | Some r => Some r
      | None =>
          match qualified action with
          | Some r => Some r
          | None =>
              if nonempty connector && nonempty tool
              then Some (_normalize_key connector, strip (default EmptyString tool))
              else if allow_action_tool && nonempty connector && nonempty action
              then Some (_normalize_key connector, strip (default EmptyString action))
              else None
          end
      end
  end.

(** The handler a step is dispatched to: [Some] for the connector tool handler. *)
Definition dispatches_to_tool (step : Step) : bool :=
  let t := step_type step in
  (String.eqb t "agent" && (bool_decide (is_Some (tool step)) || bool_decide (is_Some (tool_name step)))) ||
  (String.eqb t "agent" && bool_decide (is_Some (_connector_tool_ref_from_step step false))) ||
  String.eqb t "connector_tool".

(** * The rule *)

Definition _READ_ONLY_ACTION_PREFIXES : list string :=
  ["analy"; "audit"; "check"; "classif"; "compare"; "describe"; "detect"; "estimate"; "evaluate";
   "extract"; "fetch"; "find"; "forecast"; "get"; "identify"; "list"; "lookup"; "monitor"; "plan";
   "query"; "rank"; "read"; "recommend"; "reconcile"; "research"; "retrieve"; "review"; "score";
   "search"; "summar"; "validate"; "verify"].

Definition _WRITE_ACTION_HINTS : list string :=
  ["activate"; "approve"; "cancel"; "charge"; "create"; "delete"; "deploy"; "disburse"; "execute";
   "file"; "initiate"; "launch"; "mutate"; "notify"; "pay"; "post"; "publish"; "queue"; "refund";
   "release"; "remove"; "schedule"; "send"; "set_"; "setup"; "spend"; "submit"; "sync"; "transfer";
   "update"; "upload"; "upsert"; "write"].

Definition _is_read_only_name (name : option string) : bool :=
  let normalized := _normalize_key name in
  negb (String.eqb normalized EmptyString) &&
  negb (existsb (λ hint, contains hint normalized) _WRITE_ACTION_HINTS) &&
  existsb (λ prefix, starts_with prefix normalized) _READ_ONLY_ACTION_PREFIXES.

(** [if connector and tool] on the pair [_connector_tool_ref_from_step] returns. *)
Definition both_truthy (ref : option (string * string)) : bool :=
  match ref with Some (c, t) => nonempty (Some c) && nonempty (Some t) | None => false end.

Definition _step_is_retryable (step : Step) : bool :=
  let t := lower (strip (step_type step)) in
  if bool_decide (t ∈ ["notify"; "sub_workflow"; "human_in_loop"; "wait"; "wait_for_event"]) then false
  else if String.eqb t "http" then
    String.eqb (upper (strip (default "GET" (http_method step)))) "GET"
  else
    let ref := _connector_tool_ref_from_step step (String.eqb t "connector_tool") in
    if String.eqb t "connector_tool" || (String.eqb t "agent" && both_truthy ref) then
      nonempty (idempotency_key step) || _is_read_only_name (snd <$> ref)
    else if String.eqb t "agent" then
      nonempty (idempotency_key step) || _is_read_only_name (Some (default "process" (action step)))
    else false.

(** * Retrying *)

(** The result of an attempt inside the retry loop: a value, or an exception that
    is either the step's own failed result or some other exception. *)
Inductive attempt_error := StepFailedError (result : dict) | OtherError (text : string).

Definition attempt (step : Step) (s : RunState) (context : dict) : prog (result attempt_error pyval) :=
  bind (trigger (ExecuteStep step s context)) (λ r, Ret
    match r with
    | Ok (VMap d) => if is_str (dget d "status") "failed" then Err (StepFailedError d)
                     else Ok (VMap d)
    | Ok v => Ok v
    | Err text => Err (OtherError text)
    end).

(** [for attempt in range(max_retries + 1)], with [more] turns after this one. *)
Fixpoint retry_loop {E A} (func : prog (result E A)) (n more : nat) : prog (result E A) :=
  bind func (λ r,
    match r, more with
    | Ok v, _ => Ret (Ok v)
    | Err e, O => Ret (Err e)
    | Err _, S more => bind (trigger (Sleep n)) (λ _, retry_loop func (S n) more)
    end).

Definition retry_with_backoff {E A} (func : prog (result E A)) (max_retries : nat) : prog (result E A) :=
  retry_loop func 0 max_retries.

(** An uncaught exception leaves as its text. *)
Definition _execute_with_retry (step : Step) (s : RunState) (context : dict) : prog (result string pyval) :=
  let max_retries := _parse_retry_count (default EmptyString (on_failure step)) in
  if (0 <? max_retries)%Z && _step_is_retryable step then
    bind (retry_with_backoff (attempt step s context) (Z.to_nat max_retries)) (λ r, Ret
      match r with
      | Ok v => Ok v
      | Err (StepFailedError d) => Ok (VMap (dict_set "retry_attempts" (VInt max_retries) d))
      | Err (OtherError text) => Err text
      end)
  else trigger (ExecuteStep step s context).

(** * What a step calls *)

(** The connector tool or agent action a dispatched step runs, if any: the tool
    handler refuses a reference whose connector or tool is empty. *)
Definition called (step : Step) : option string :=
  if dispatches_to_tool step then
    let ref := _connector_tool_ref_from_step step true in
    if both_truthy ref then snd <$> ref else None
  else Some (default "process" (action step)).

Lemma drop_while_idemp {A} (p : A → bool) l : drop_while p (drop_while p l) = drop_while p l.
Proof. induction l as [|x l IH]; cbn; [done|]. destruct (p x) eqn:E; [done|]. cbn. by rewrite E. Qed.

(** A text without a leading space keeps its first character when trailing spaces go. *)
Lemma drop_while_strip_end {A} (p : A → bool) l :
  drop_while p l = l → drop_while p (reverse (drop_while p (reverse l))) = reverse (drop_while p (reverse l)).
Proof.
  intros Hl. destruct l as [|x l]; [done|]. cbn in Hl.
  destruct (p x) eqn:E.
  - exfalso. assert (length (drop_while p l) ≤ length l)%nat as Hlen.
    { clear. induction l as [|y l IH]; cbn; [done|]. destruct (p y); cbn; lia. }
    rewrite Hl in Hlen. cbn in Hlen. lia.
  - rewrite reverse_cons.
    assert (∃ m, drop_while p (reverse l ++ [x]) = m ++ [x]) as [m ->].
    { generalize (reverse l) as r. induction r as [|y r [m IH]]; cbn; [rewrite E; by exists []|].
      destruct (p y); [eauto|]. by exists (y :: r). }
    rewrite reverse_app. cbn. by rewrite E.
Qed.

Lemma strip_idemp s : strip (strip s) = strip s.
Proof.
  unfold strip. rewrite chars_of_chars. f_equal.
  set (l := drop_while is_space (chars s)).
  rewrite drop_while_strip_end by apply drop_while_idemp.
  rewrite reverse_involutive. apply drop_while_strip_end, drop_while_idemp.
Qed.

Lemma normalize_key_strip s : _normalize_key (Some (strip s)) = _normalize_key (Some s).
Proof. unfold _normalize_key. cbn [from_option]. unfold id. by rewrite strip_idemp. Qed.

(** Allowing the action as a tool only adds references. *)
Lemma tool_ref_mono step r :
  _connector_tool_ref_from_step step false = Some r → _connector_tool_ref_from_step step true = Some r.
Proof.
  unfold _connector_tool_ref_from_step. destruct (first_alias _); [done|].
  destruct (qualified _); [done|]. destruct (qualified _); [done|].
  by destruct (_ && _).
Qed.

(** ... and the added reference is the step's own action. *)
Lemma tool_ref_action step c t :
  _connector_tool_ref_from_step step false = None →
  _connector_tool_ref_from_step step true = Some (c, t) →
  ∃ a, action step = Some a ∧ t = strip a.
Proof.
  unfold _connector_tool_ref_from_step. destruct (first_alias _); [done|].
  destruct (qualified _); [done|]. destruct (qualified _); [done|].
  destruct (_ && _); [done|]. cbn. intros _. destruct (nonempty _); cbn; [|done].
  destruct (action step) as [a|]; [|done]. destruct (nonempty _); [|done].
  intros [= <- <-]. by exists a.
Qed.

#[global] Arguments _is_read_only_name : simpl never.
#[global] Arguments _connector_tool_ref_from_step : simpl never.
#[global] Arguments _normalize_key : simpl never.
#[global] Arguments both_truthy : simpl never.

(** The types the parser admits are their own normal form. *)
Lemma valid_type_normal t : t ∈ VALID_STEP_TYPES → lower (strip t) = t.
Proof.
  intros Ht%elem_of_elements. revert t Ht. apply Forall_forall.
  apply (bool_decide_unpack _). vm_compute. exact I.
Qed.

(** A step of a parsed workflow that may be retried without an idempotency
    key only ever calls something read-only by name: the tool or action its
    dispatch runs passes [_is_read_only_name]. *)
Theorem retried_step_is_read_only (step : Step) name :
  step_type step ∈ VALID_STEP_TYPES → _step_is_retryable step = true →
  nonempty (idempotency_key step) = false → called step = Some name →
  step_type step ∈ ["agent"; "connector_tool"] ∧ _is_read_only_name (Some name) = true.
Proof.
  intros Hv Hr Hk Hc. unfold _step_is_retryable in Hr.
  rewrite valid_type_normal, Hk in Hr by done. unfold called, dispatches_to_tool in Hc.
  destruct (bool_decide (_ ∈ ["notify"; _; _; _; _])) eqn:Hno; [done|].
  destruct (String.eqb_spec (step_type step) "http") as [Hh|_].
  { exfalso. rewrite Hh in Hv. revert Hv. vm_compute. done. }
  destruct (String.eqb_spec (step_type step) "connector_tool") as [Ht|Ht].
  - split; [rewrite Ht; right; left|]. rewrite orb_true_r in Hc. cbn in Hr.
    destruct (both_truthy _); [|done]. destruct (_connector_tool_ref_from_step step true) as [[c t]|]; [|done].
    by simplify_eq/=.
  - destruct (String.eqb_spec (step_type step) "agent") as [Ha|Ha]; [|done].
    split; [rewrite Ha; left|]. rewrite orb_false_r in Hc. cbn in Hr, Hc.
    destruct (_connector_tool_ref_from_step step false) as [[c t]|] eqn:Href; cbn in Hr, Hc.
    + rewrite orb_true_r, (tool_ref_mono step _ Href) in Hc. cbn in Hc.
      destruct (both_truthy _); [|done]. by injection Hc as <-.
    + rewrite orb_false_r in Hc. destruct (_ || _) in Hc; [|by injection Hc as <-].
      destruct (both_truthy _) in Hc; [|done].
      destruct (_connector_tool_ref_from_step step true) as [[c t]|] eqn:Ht1; [|done].
      injection Hc as <-. destruct (tool_ref_action _ _ _ Href Ht1) as (a & Hact & ->).
      rewrite Hact in Hr. cbn in Hr. unfold _is_read_only_name in *. by rewrite normalize_key_strip.
Qed.

(** * How often a step runs *)

Definition runs_step {X} (e : event X) : bool :=
  match e with ExecuteStep _ _ _ => true | _ => false end.

(** No path of [p] executes a step more than [n] times. *)
Fixpoint execs_le {A} (n : nat) (p : prog A) : Prop :=
  match p with
  | Ret _ => True
  | Vis e k =>
      if runs_step e then match n with O => False | S n' => ∀ x, execs_le n' (k x) end
      else ∀ x, execs_le n (k x)
  end.

Lemma execs_le_mono {A} (p : prog A) n m : n ≤ m → execs_le n p → execs_le m p.
Proof.
  revert n m. induction p as [a|X e k IH]; intros n m Hnm; cbn; [done|].
  destruct (runs_step e); [|eauto].
  destruct n as [|n]; [done|]. destruct m as [|m]; [lia|]. intros H x. eapply IH; [|apply H]. lia.
Qed.

Lemma execs_le_bind {A B} (p : prog A) (f : A → prog B) n m :
  execs_le n p → (∀ a, execs_le m (f a)) → execs_le (n + m) (bind p f).
Proof.
  revert n. induction p as [a|X e k IH]; intros n; cbn.
  - intros _ H. eapply execs_le_mono; [|apply H]. lia.
  - destruct (runs_step e); [|eauto]. destruct n as [|n]; [done|]. cbn. eauto.
Qed.

Lemma retry_loop_execs {E A} (func : prog (result E A)) n more :
  execs_le 1 func → execs_le (S more) (retry_loop func n more).
Proof.
  intros Hf. revert n. induction more as [|more IH]; intros n; cbn [retry_loop].
  - apply (execs_le_bind _ _ 1 0); [done|]. by intros [].
  - apply (execs_le_bind _ _ 1 (S more)); [done|]. intros [a|e]; cbn -[execs_le]; [done|].
    cbn. intros _. apply IH.
Qed.

(** A step runs at most [N + 1] times under [retry(N)], and exactly one
    attempt is made when the rule does not allow a retry. *)
Theorem attempts_bounded step s context :
  execs_le (if _step_is_retryable step
            then S (Z.to_nat (_parse_retry_count (default EmptyString (on_failure step)))) else 1)
    (_execute_with_retry step s context).
Proof.
  unfold _execute_with_retry. generalize (_parse_retry_count (default EmptyString (on_failure step))) as n.
  intros n. destruct (_step_is_retryable step) eqn:Hr; [|by rewrite andb_false_r].
  destruct (0 <? n)%Z; cbn [andb].
  - rewrite <- (Nat.add_0_r (S _)). apply execs_le_bind; [|done].
    apply retry_loop_execs. unfold attempt. by apply (execs_le_bind _ _ 1 0).
  - eapply (execs_le_mono _ 1); [lia|]. done.
Qed.

(** Run a program on a list of scripted answers to [ExecuteStep]. *)
Fixpoint run_script {A} (p : prog A) (script : list (result string pyval)) : option A :=
  match p with
  | Ret a => Some a
  | Vis e k =>
      match e in event X return (X → prog A) → (X → list (result string pyval) → option A) → option A with
      | ExecuteStep _ _ _ => λ _ rec, match script with r :: script' => rec r script' | [] => None end
      | Sleep _ => λ _ rec, rec tt script
      | _ => λ _ _, None
      end k (λ x, run_script (k x))
  end.

Definition failed_dict (d : dict) : Prop := assoc "status" d = Some (VStr "failed").

Lemma is_str_failed d : is_str (dget d "status") "failed" = true ↔ failed_dict d.
Proof.
  unfold is_str, dget, failed_dict. destruct (assoc "status" d) as [[]|]; cbn; try naive_solver.
  rewrite String.eqb_eq. naive_solver.
Qed.

(** The loop on scripted answers, before any continuation [g]. *)
Lemma retry_loop_script {B} step s context (g : result attempt_error pyval → prog B) fails last k more :
  length fails ≤ more → Forall (λ r, ∃ d, r = Ok (VMap d) ∧ failed_dict d) fails →
  run_script (bind (retry_loop (attempt step s context) k more) g) (fails ++ [last]) =
  match last with
  | Ok (VMap d) =>
      if is_str (dget d "status") "failed"
      then if (length fails =? more)%nat then run_script (g (Err (StepFailedError d))) []
           else None
      else run_script (g (Ok (VMap d))) []
  | Ok v => run_script (g (Ok v)) []
  | Err text => if (length fails =? more)%nat then run_script (g (Err (OtherError text))) [] else None
  end.
Proof.
  revert fails k. induction more as [|more IH]; intros fails k Hlen Hf.
  - destruct fails; [|cbn in Hlen; lia]. cbn. destruct last as [[]|]; cbn; try done.
    by destruct (is_str _ _).
  - destruct fails as [|r fails]; cbn [app length].
    + cbn. destruct last as [[]|]; cbn; try done; [destruct (is_str _ _)|]; try done; by destruct more.
    + apply Forall_cons in Hf as [(d & -> & Hd) Hf]. cbn.
      rewrite (proj2 (is_str_failed d) Hd). cbn. rewrite IH by (done || cbn in Hlen; lia). done.
Qed.

(** Under [retry(N)] a retryable step that returns a failed result at most [N]
    times and then something else returns that; when all [N + 1] attempts return
    a failed result the last one is returned, marked with the number of
    retries. *)
Theorem retry_outcome (step : Step) s context fails last (n : nat) :
  _parse_retry_count (default EmptyString (on_failure step)) = Z.of_nat n → 0 < n →
  _step_is_retryable step = true →
  Forall (λ r, ∃ d, r = Ok (VMap d) ∧ failed_dict d) fails →
  (∀ v, length fails ≤ n → last = Ok v → (∀ d, v = VMap d → ¬ failed_dict d) →
     run_script (_execute_with_retry step s context) (fails ++ [last]) = Some (Ok v)) ∧
  (∀ d, length fails = n → last = Ok (VMap d) → failed_dict d →
     run_script (_execute_with_retry step s context) (fails ++ [last]) =
       Some (Ok (VMap (dict_set "retry_attempts" (VInt (Z.of_nat n)) d)))).
Proof.
  intros Hn Hpos Hr Hf. unfold _execute_with_retry. rewrite Hn, Hr.
  replace (0 <? Z.of_nat n)%Z with true by lia. cbn [andb]. rewrite Nat2Z.id.
  unfold retry_with_backoff. split.
  - intros v Hlen -> Hv. rewrite retry_loop_script by done.
    destruct v; try done. destruct (is_str _ _) eqn:E; [|done].
    apply is_str_failed in E. by destruct (Hv _ eq_refl).
  - intros d Hlen -> Hd. rewrite retry_loop_script by (done || lia).
    rewrite (proj2 (is_str_failed d) Hd), Hlen, Nat.eqb_refl. done.
Qed.

(** * Examples *)
Module RetryExample.
Definition lookup_step : Step :=
  {| step_id := "lookup"; fields := {| type := Some "agent"; depends_on := [];
       on_failure := Some "retry(2)"; optional := false; allow_failure := false; true_path := None;
       false_path := None; connector := Some "Sales-Force"; connector_key := None; tool := None;
       tool_name := Some EmptyString; action := Some " List Contacts "; agent := None; agent_type := None;
       idempotency_key := None; http_method := None; replanned := false |} |}.

Definition failed_once : dict := [("status", VStr "failed")].
Definition success : pyval := VMap [("status", VStr "completed")].

Example lookup_called : called lookup_step = Some "List Contacts".
Proof. vm_compute. reflexivity. Qed.
End RetryExample.

Lemma retried_step_is_read_only_witness :
  step_type RetryExample.lookup_step ∈ ["agent"; "connector_tool"] ∧
  _is_read_only_name (Some "List Contacts") = true.
Proof.
  apply (retried_step_is_read_only RetryExample.lookup_step "List Contacts");
    [apply (bool_decide_unpack _)|..]; vm_compute; constructor.
Defined.

Lemma retry_outcome_witness :
  let r := Ok (VMap RetryExample.failed_once) in
  run_script (_execute_with_retry RetryExample.lookup_step (StoreExample.fresh "r" []) [])
    ([r; r] ++ [Ok RetryExample.success]) = Some (Ok RetryExample.success).
Proof.
  cbv zeta. eapply (proj1 (retry_outcome RetryExample.lookup_step (StoreExample.fresh "r" []) []
    [Ok (VMap RetryExample.failed_once); Ok (VMap RetryExample.failed_once)]
    (Ok RetryExample.success) 2 ltac:(vm_compute; reflexivity) ltac:(lia) ltac:(vm_compute; reflexivity)
    ltac:(repeat (constructor; [eexists; split; reflexivity|]); constructor))).
  - cbn; lia.
  - reflexivity.
  - intros d [= <-]. vm_compute. discriminate.
Defined.
