(* ===== verification/WorkflowEngine.v ===== *)
(** The workflow engine: [WorkflowEngine] of src/workflows/engine.py and the
    validation of replanned steps in src/workflows/replanner.py.

    Every public operation is a program ([WorkflowStore.prog]) whose events are
    the code's awaits: loading and saving the run, executing a step, asking for
    an operator override, the clock, the replanning model.  The run's state
    dictionary is passed explicitly; responses are dictionaries as in the code.
    Log lines and spend attribution are left out.

    [execute] calls itself after a successful replan; the model gives it
    [MAX_REPLAN_ATTEMPTS + 1] turns, since the replan counter it tests is
    persisted with every replan. *)

From Stdlib Require Import QArith.
From S2P Require Import Prelude PyVal StepResults WorkflowParser WorkflowGraph WorkflowStore WorkflowRetry.

#[local] Close Scope Q_scope.
#[local] Open Scope prog_scope.

Definition has_result (sid : string) (s : RunState) : bool := bool_decide (is_Some (assoc sid (step_results s))).

(** [state["step_results"]] as a value. *)
Definition results_value (s : RunState) : pyval := VMap ((λ kv, (kv.1, VMap kv.2)) <$> step_results s).

Definition status_response (st : string) (s : RunState) : dict :=
  [("status", VStr st); ("step_results", results_value s)].

Definition error_response (msg : string) : dict := [("error", VStr msg)].

(** * Step results *)

Section results.
Context `{PyStr}.

Definition _normalize_step_result (step : Step) (r : pyval) : result exn dict :=
  match r with
  | VMap d =>
      let st := dget d "status" in
      allowed ← status_in st ALLOWED_STEP_STATUSES;
      if (allowed : bool) then Ok d
      else Ok (failure_result (step_id step) (step_type step)
                (UnknownStepStatusError (step_id step) match st with VNone => None | v => Some (py_str v) end)
                (VMap d))
  | _ => Ok (failure_result (step_id step) (step_type step) (UnknownStepStatusError (step_id step) None) r)
  end.

Definition _state_result_from_step_result (d : dict) : dict :=
  let base := [("output", default (VMap d) (assoc "output" d)); ("status", dget d "status");
               ("confidence", dget d "confidence")] in
  let with_error := dict_set_if (truthy (dget d "error")) "error" (dget d "error") base in
  if truthy (dget d "stubbed") then
    let s1 := dict_set "code" (dget d "code")
      (dict_set "reason" (dget d "reason") (dict_set "stubbed" (VBool true) with_error)) in
    dict_set_if (truthy (dget d "action")) "action" (dget d "action")
      (dict_set_if (truthy (dget d "agent")) "agent" (dget d "agent")
        (dict_set_if (truthy (dget d "connector")) "connector" (dget d "connector") s1))
  else with_error.

(** * Dependencies *)

Definition skipped_result (reason : string) : dict :=
  [("output", VNone); ("status", VStr "skipped"); ("confidence", VNone); ("reason", VStr reason)].

Definition failed_result (error : string) : dict :=
  [("output", VNone); ("status", VStr "failed"); ("confidence", VNone); ("error", VStr error)].

(** The fallback sources of a step: those the definition names, then the
    dependencies whose recorded result names it. *)
Definition dependency_sources (step : Step) (s : RunState) : list string :=
  foldl (λ sources dep,
    if negb (bool_decide (dep ∈ sources)) &&
       is_str (dget (default [] (assoc dep (step_results s))) "fallback_target") (step_id step)
    then sources ++ [dep] else sources)
    (_fallback_sources (step_id step) (def_steps (definition s))) (depends_on step).

(** [for source in sources: if source not in step_results: return ...] *)
Fixpoint missing_source (results : list (string * dict)) (sources : list string) : option string :=
  match sources with
  | [] => None
  | src :: rest =>
      match assoc src results with
      | None => Some ("Fallback source '" +:+ src +:+ "' has not been executed")
      | Some _ => missing_source results rest
      end
  end.

Fixpoint unmet_dependency (results : list (string * dict)) (sources deps : list string) : option string :=
  match deps with
  | [] => None
  | dep :: rest =>
      if bool_decide (dep ∈ sources) then unmet_dependency results sources rest
      else match assoc dep results with
      | None => Some ("Dependency '" +:+ dep +:+ "' has not been executed")
      | Some r =>
          let st := dget r "status" in
          if is_str st "skipped" && is_str (dget r "reason") "branch_not_taken"
          then Some "branch_not_taken"
          else if is_str st "completed" then unmet_dependency results sources rest
          else Some ("Dependency '" +:+ dep +:+ "' did not complete successfully (status=" +:+
                     py_str st +:+ ")")
      end
  end.

(** The reason a step must not run, if there is one. *)
Definition _check_dependencies (step : Step) (s : RunState) : option string :=
  let results := step_results s in
  let sources := dependency_sources step s in
  let gate :=
    match sources with
    | [] => None
    | _ =>
        match missing_source results sources with
        | Some reason => Some reason
        | None =>
            if existsb (λ src, is_str (dget (default [] (assoc src results)) "status") "failed") sources
            then None else Some "fallback_not_needed"
        end
    end in
  match gate with
  | Some reason => Some reason
  | None => unmet_dependency results sources (depends_on step)
  end.

Definition _build_context (s : RunState) : dict :=
  foldl (λ ctx kv, dict_set kv.1 (VMap kv.2) ctx)
    (foldl (λ ctx kv, dict_set kv.1 kv.2 ctx) [] (trigger_payload s)) (step_results s).

(** * Branches *)

Definition _resolve_condition_branch (step : Step) (r : dict) : option string :=
  if truthy (default (VBool false) (assoc "result" r)) then true_path step else false_path step.

Definition skip_path (branch_target other : option string) (s : RunState) : RunState :=
  match other with
  | Some o => if negb (nonempty other) || bool_decide (other = branch_target) || has_result o s then s
              else set_result o (skipped_result "branch_not_taken") s
  | None => s
  end.

Definition _skip_branch_not_taken (step : Step) (branch_target : option string) (s : RunState) : RunState :=
  skip_path branch_target (false_path step) (skip_path branch_target (true_path step) s).

(** [state["step_results"][sid][k] = v] *)
Definition annotate_result (sid k : string) (v : pyval) (s : RunState) : RunState :=
  match assoc sid (step_results s) with
  | Some d => set_result sid (dict_set k v d) s
  | None => s
  end.

(** Recording the result of a step, with the fallback it names. *)
Definition record_result (step : Step) (r : dict) (s : RunState) : RunState :=
  let s1 := set_result (step_id step) (_state_result_from_step_result r) s in
  match _fallback_target step with
  | Some fb => annotate_result (step_id step) "fallback_target" (VStr fb) s1
  | None => s1
  end.

(** The branching of a condition step; [known] says which targets are recorded. *)
Definition apply_branch (known : string → bool) (step : Step) (r : dict) (s : RunState) : RunState :=
  if bool_decide (type step = Some "condition") then
    let target := _resolve_condition_branch step r in
    let s1 := match target with
              | Some t => if nonempty target && known t
                          then annotate_result (step_id step) "branch_target" (VStr t) s else s
              | None => s
              end in
    _skip_branch_not_taken step target s1
  else s.

(** * Timeouts and overrides *)

(** Whether [WorkflowTimeoutError] is raised; elapsed time and limit are compared
    exactly, in microseconds. *)
Definition _check_timeout (now : Z) (s : RunState) (hours : Q) : bool :=
  negb (Qle_bool (inject_Z (now - started_at s)) (hours * inject_Z 3600000000)).

Definition timed_out (s : RunState) : M bool :=
  match timeout_hours (definition s) with
  | None => ret false
  | Some h => now ⇐ lift (trigger Now); ret (_check_timeout now s h)
  end.

Definition _operator_halt (s : RunState) : M (option dict) :=
  v ⇐ lift (trigger (CheckOverride (tenant_id s) (workflow_id s)));
  ret (if blocked v then
         Some [("status", VStr (status s)); ("halted", VBool true); ("override", override_dict v);
               ("error", VStr (override_reason v)); ("step_results", results_value s)]
       else None).

(** * Replanning *)

Definition MAX_REPLAN_ATTEMPTS : nat := 3.

(** One iteration of the validation loop of [replan_workflow]. *)
Definition validate_replanned (completed_ids : gset string) (acc : gset string * list Step) (r : RawStep) :
    result unit (gset string * list Step) :=
  let '(seen_ids, done) := acc in
  sid ← of_option tt (raw_id r);
  _ ← raise_if (bool_decide (sid ∈ completed_ids)) tt;
  _ ← raise_if (bool_decide (sid ∈ seen_ids)) tt;
  _ ← raise_if (negb (bool_decide (step_type (raw_fields r) ∈ VALID_STEP_TYPES))) tt;
  Ok ({[sid]} ∪ seen_ids, done ++ [{| step_id := sid; fields := raw_fields r |}]).

Definition completed_ids (completed : list (string * dict)) : gset string :=
  list_to_set (List.filter (λ sid, nonempty (Some sid)) completed.*1).

(** The steps the model proposed, when they validate; [Err] is [ReplanError]. *)
Definition replan_workflow (completed : list (string * dict)) (proposed : result string (list RawStep)) :
    result unit (list Step) :=
  match proposed with
  | Ok [] | Err _ => Err tt
  | Ok raws => acc ← fold_res (validate_replanned (completed_ids completed)) (∅, []) raws; Ok acc.2
  end.

Definition build_replan_event (count : nat) (now : Z) (failed error : string) (new_steps : list Step) :
    ReplanEvent :=
  {| replan_number := count; replan_timestamp := now; replan_failed_step_id := failed;
     replan_error := error; replacement_steps := step_id <$> new_steps |}.

Definition mark_replanned (s : Step) : Step :=
  {| step_id := step_id s; fields := {| type := type s; depends_on := depends_on s;
     on_failure := on_failure s; optional := optional s; allow_failure := allow_failure s;
     true_path := true_path s; false_path := false_path s; connector := connector s;
     connector_key := connector_key s; tool := tool s; tool_name := tool_name s; action := action s;
     agent := agent s; agent_type := agent_type s; idempotency_key := idempotency_key s;
     http_method := http_method s; replanned := true |} |}.

Definition replanned_result (error : string) : dict :=
  [("output", VNone); ("status", VStr "replanned"); ("confidence", VNone); ("error", VStr error);
   ("replanned", VBool true)].

(** The state after a successful replan. *)
Definition replan_state (s : RunState) (failed error : string) (all_steps new_steps : list Step) (now : Z) :
    RunState :=
  let count := S (replan_count s) in
  let s1 := set_result failed (replanned_result error) s in
  let completed_defs := List.filter (λ st, has_result (step_id st) s1) all_steps in
  set_plan (completed_defs ++ (mark_replanned <$> new_steps)) count
    (build_replan_event count now failed error new_steps) s1.

(** [None] when replanning failed, otherwise the saved state. *)
Definition _attempt_replan (s : RunState) (failed error : string) (all_steps : list Step)
    (execution_order : list string) : M (option RunState) :=
  let index := _build_step_index all_steps in
  let remaining := omap (λ sid, if has_result sid s || String.eqb sid failed then None else index !! sid)
                     execution_order in
  proposed ⇐ lift (trigger (ReplanModel (definition s) (step_results s) (failed, error) remaining));
  match replan_workflow (step_results s) proposed with
  | Err _ => ret None
  | Ok new_steps =>
      now ⇐ lift (trigger Now);
      s' ⇐ store_save "workflow_engine.replan" "workflow_replanned" (Some failed)
             (replan_state s failed error all_steps new_steps now);
      ret (Some s')
  end.
End results.

(** * Running *)

(** How a turn of the main loop ends: the method returns, or the loop goes on
    with the checkpointed state. *)
Inductive flow := Return (r : dict) | Continue (s : RunState).

Section engine.
Context `{PyStr} `{StoreConfig}.

Definition save := store_save "workflow_engine".

Definition _live_status (rid : string) : M (option string) :=
  latest ⇐ store_load rid; ret (status <$> latest).

(** The pause a recorded result asks for, if any. *)
Definition pause_of (step : Step) (r : dict) : option string :=
  if bool_decide (type step = Some "human_in_loop") || is_str (dget r "status") "waiting_hitl"
  then Some "waiting_hitl"
  else if is_str (dget r "status") "waiting_delay" then Some "waiting_delay"
  else if is_str (dget r "status") "waiting_event" then Some "waiting_event"
  else None.

Definition paused_state (st sid : string) (s : RunState) : RunState :=
  set_waiting (Some sid) (set_status st s).

(** From the recorded result of a step to the end of its turn in [execute]. *)
Definition settle (index : gmap string Step) (step : Step) (r : dict) (s : RunState) : M flow :=
  let sid := step_id step in
  let s1 := record_result step r s in
  if is_str (dget r "status") "failed" && negb (_step_allows_failure step) then
    s2 ⇐ save "step_failed" (Some sid) (set_status "failed" s1);
    ret (Return (status_response "failed" s2))
  else
    let s2 := apply_branch (λ t, bool_decide (is_Some (index !! t))) step r s1 in
    match pause_of step r with
    | Some st =>
        s3 ⇐ save st (Some sid) (paused_state st sid s2);
        ret (Return (status_response st s3))
    | None => s3 ⇐ save "step_checkpointed" (Some sid) s2; ret (Continue s3)
    end.

(** The [except] branch of a step that raised. *)
Definition step_raised (restart : M dict) (steps : list Step) (order : list string) (sid error : string)
    (s : RunState) : M flow :=
  replan ⇐ (if replan_on_failure (definition s) && (replan_count s <? MAX_REPLAN_ATTEMPTS)
            then _attempt_replan s sid error steps order else ret None);
  match replan with
  | Some _ => r ⇐ restart; ret (Return r)
  | None =>
      s1 ⇐ save "step_failed" (Some sid) (set_status "failed" (set_result sid (failed_result error) s));
      ret (Return (status_response "failed" s1))
  end.

(** A step whose dependencies hold. *)
Definition run_step (restart : M dict) (steps : list Step) (order : list string)
    (index : gmap string Step) (step : Step) (s : RunState) : M flow :=
  outcome ⇐ lift (_execute_with_retry step s (_build_context s));
  match outcome with
  | Err error => step_raised restart steps order (step_id step) error s
  | Ok v => r ⇐ of_result (_normalize_step_result step v); settle index step r s
  end.

Definition skip_step (sid reason : string) (s : RunState) : M RunState :=
  save "step_skipped" (Some sid) (set_result sid (skipped_result reason) s).

(** The status that stops the loop before a step: the durable status is read
    again once a step has run. *)
Definition stop_status (rid : string) (ran_step : bool) : M (option string) :=
  if ran_step then
    live ⇐ _live_status rid;
    ret (match live with
         | Some st => if String.eqb st "running" then None else Some st
         | None => None
         end)
  else ret None.

(** One turn of [for step_id in execution_order], after the completed check. *)
Definition turn (restart : M dict) (rid : string) (steps : list Step) (order : list string)
    (index : gmap string Step) (sid : string) (ran_step : bool) (s : RunState) : M (bool * flow) :=
  stop ⇐ stop_status rid ran_step;
  match stop with
  | Some live => ret (ran_step, Return (status_response live s))
  | None =>
      halted ⇐ _operator_halt s;
      match halted with
      | Some r => ret (ran_step, Return r)
      | None =>
          late ⇐ timed_out s;
          if (late : bool) then
            s1 ⇐ save "workflow_timed_out" (Some sid) (set_status "timed_out" s);
            ret (ran_step, Return (status_response "timed_out" s1))
          else
            match index !! sid with
            | None => throw KeyError
            | Some step =>
                match _check_dependencies step s with
                | Some reason => s1 ⇐ skip_step sid reason s; ret (ran_step, Continue s1)
                | None => f ⇐ run_step restart steps order index step s; ret (true, f)
                end
            end
      end
  end.

Definition complete_run (s : RunState) : M dict :=
  now ⇐ lift (trigger Now);
  s1 ⇐ save "workflow_completed" None (set_completed_at now (set_status "completed" s));
  ret (status_response "completed" s1).

Fixpoint run_order (restart : M dict) (rid : string) (steps : list Step) (order : list string)
    (index : gmap string Step) (todo : list string) (ran_step : bool) (s : RunState) : M dict :=
  match todo with
  | [] => complete_run s
  | sid :: todo' =>
      if has_result sid s then run_order restart rid steps order index todo' ran_step s
      else
        t ⇐ turn restart rid steps order index sid ran_step s;
        match t with
        | (_, Return r) => ret r
        | (ran, Continue s1) => run_order restart rid steps order index todo' ran s1
        end
  end.

(** [_topological_sort] inside a method: a cycle is a [ValueError]. *)
Definition sort_steps (steps : list Step) : M (list string) :=
  match _topological_sort steps with
  | Ok order => ret order
  | Err _ => throw ValueError
  end.

Definition _execute_unguarded (restart : M dict) (rid : string) : M dict :=
  loaded ⇐ store_load rid;
  match loaded with
  | None => ret (error_response "Run not found")
  | Some s =>
      if String.eqb (status s) "running" then
        let steps := def_steps (definition s) in
        order ⇐ sort_steps steps;
        run_order restart rid steps order (_build_step_index steps) order false s
      else ret (status_response (status s) s)
  end.

(** A concurrent writer won: report its status. *)
Definition _stale_state_result (rid : string) : M dict :=
  latest ⇐ store_load rid;
  ret (match latest with
       | Some s => status_response (status s) s
       | None => [("status", VStr "unknown"); ("step_results", VMap [])]
       end).

(** [try: ... except StaleStateError: ...] *)
Definition catch_stale (rid : string) (m : M dict) : M dict :=
  bind m (λ r, match r with
               | Err (StaleState _ _) => _stale_state_result rid
               | _ => Ret r
               end).

(** [turns] bounds the restarts after a replan. *)
Fixpoint execute_turns (turns : nat) (rid : string) : M dict :=
  match turns with
  | O => throw OutOfTurns
  | S turns => catch_stale rid (_execute_unguarded (execute_turns turns rid) rid)
  end.

Definition execute (rid : string) : M dict := execute_turns (S MAX_REPLAN_ATTEMPTS) rid.

(** * Single steps: [execute_next] *)

Definition step_response (st sid : string) : dict := [("status", VStr st); ("step_id", VStr sid)].

Definition settle_next (step : Step) (r : dict) (s : RunState) : M dict :=
  let sid := step_id step in
  let s1 := record_result step r s in
  if is_str (dget r "status") "failed" && negb (_step_allows_failure step) then
    _ ⇐ save "step_failed" (Some sid) (set_status "failed" s1);
    ret (step_response "failed" sid ++ [("error", dget r "error")])
  else
    let s2 := apply_branch (λ _, true) step r s1 in
    match pause_of step r with
    | Some st => _ ⇐ save st (Some sid) (paused_state st sid s2); ret (step_response st sid)
    | None => _ ⇐ save "step_checkpointed" (Some sid) s2; ret r
    end.

Definition run_step_next (step : Step) (s : RunState) : M dict :=
  outcome ⇐ lift (_execute_with_retry step s (_build_context s));
  match outcome with
  | Err error =>
      _ ⇐ save "step_failed" (Some (step_id step))
            (set_status "failed" (set_result (step_id step) (failed_result error) s));
      ret (step_response "failed" (step_id step) ++ [("error", VStr error)])
  | Ok v => r ⇐ of_result (_normalize_step_result step v); settle_next step r s
  end.

Fixpoint next_order (index : gmap string Step) (todo : list string) (s : RunState) : M dict :=
  match todo with
  | [] => complete_run s
  | sid :: todo' =>
      if has_result sid s then next_order index todo' s
      else
        late ⇐ timed_out s;
        if (late : bool) then
          _ ⇐ save "workflow_timed_out" (Some sid) (set_status "timed_out" s);
          ret [("status", VStr "timed_out")]
        else
          match index !! sid with
          | None => throw KeyError
          | Some step =>
              match _check_dependencies step s with
              | Some reason => s1 ⇐ skip_step sid reason s; next_order index todo' s1
              | None =>
                  halted ⇐ _operator_halt s;
                  match halted with
                  | Some r => ret r
                  | None => run_step_next step s
                  end
              end
          end
  end.

Definition _execute_next_unguarded (rid : string) : M dict :=
  loaded ⇐ store_load rid;
  match loaded with
  | None => ret (error_response "Run not found")
  | Some s =>
      if String.eqb (status s) "running" then
        let steps := def_steps (definition s) in
        order ⇐ sort_steps steps;
        next_order (_build_step_index steps) order s
      else ret (status_response (status s) s)
  end.

Definition execute_next (rid : string) : M dict := catch_stale rid (_execute_next_unguarded rid).

(** * Starting *)

Definition start_run (defn : RawDefinition) (timeout : option Q) (replan : bool) (payload : dict)
    (tenant wf_run wf : option string) (grant : dict) : M string :=
  rid ⇐ lift (trigger NewRunId);
  match parse defn with
  | Err _ => throw ValueError
  | Ok steps =>
      now ⇐ lift (trigger Now);
      _ ⇐ save "run_started" None {|
        run_id := rid;
        definition := {| def_steps := steps; timeout_hours := timeout; replan_on_failure := replan |};
        status := "running"; trigger_payload := payload; steps_total := length steps;
        steps_completed := 0; step_results := []; started_at := now; replan_count := 0;
        replan_history := []; tenant_id := if nonempty tenant then tenant else None;
        workflow_run_id := if nonempty wf_run then wf_run else None;
        workflow_id := if nonempty wf then wf else None; caller_grant := grant;
        waiting_step_id := None; run_error := None; completed_at := None; cancelled_at := None;
        state_version := None |};
      ret rid
  end.

(** * Resuming *)

Definition _step_type_for (s : RunState) (sid : string) : string :=
  match List.find (λ st, String.eqb (step_id st) sid) (def_steps (definition s)) with
  | Some st => lower (strip (default EmptyString (or_str (type st) (Some "agent"))))
  | None => "agent"
  end.

Definition _is_rejection (decision : dict) : bool :=
  bool_decide (lower (strip (py_str (py_or (dget decision "decision") (VStr EmptyString)))) ∈
    ["reject"; "rejected"; "deny"; "denied"]).

(** [v in (None, {}, "")] *)
Definition no_output (v : pyval) : bool :=
  match v with
  | VNone | VMap [] => true
  | VStr t => String.eqb t EmptyString
  | _ => false
  end.

Definition rejected_result (decision : dict) : dict :=
  [("output", VMap decision); ("status", VStr "rejected"); ("confidence", dget decision "confidence");
   ("error", VMap [("code", VStr "hitl_rejected"); ("message", VStr "Rejected by human reviewer")])].

(** The result recorded for an approved step: a dedicated human step takes the
    decision as its output, any other step keeps the work it produced. *)
Definition approved_result (s : RunState) (sid : string) (decision : dict) : dict :=
  let prior := default [] (assoc sid (step_results s)) in
  let prior_output := dget prior "output" in
  if String.eqb (_step_type_for s sid) "human_in_loop" || no_output prior_output then
    [("output", VMap decision); ("status", VStr "completed"); ("confidence", dget decision "confidence")]
  else
    let merged := dict_set "hitl_decision" (VMap decision)
      match prior_output with VMap d => d | v => [("result", v)] end in
    [("output", VMap merged); ("status", VStr "completed");
     ("confidence", match dget prior "confidence" with VNone => dget decision "confidence" | c => c end)].

Definition reject_state (sid : string) (decision : dict) (now : Z) (s : RunState) : RunState :=
  set_waiting None (set_completed_at now
    (set_error [("code", VStr "hitl_rejected");
                ("message", VStr ("Step '" +:+ sid +:+ "' was rejected by a human reviewer"))]
      (set_status "failed" (set_result sid (rejected_result decision) s)))).

Definition resumed_state (sid : string) (r : dict) (s : RunState) : RunState :=
  set_waiting None (set_status "running" (set_result sid r s)).

Definition resume_from_hitl (rid : string) (decision : dict) : M dict :=
  loaded ⇐ store_load rid;
  match loaded with
  | None => ret (error_response "Run not found")
  | Some s =>
      if negb (String.eqb (status s) "waiting_hitl") then
        ret (error_response ("Run is not waiting for HITL, current status: " +:+ status s))
      else
        match waiting_step_id s with
        | None => ret (error_response "No waiting step recorded")
        | Some sid =>
            if negb (nonempty (Some sid)) then ret (error_response "No waiting step recorded")
            else if _is_rejection decision then
              now ⇐ lift (trigger Now);
              s1 ⇐ store_save "workflow_engine.hitl_resume" "hitl_rejected" (Some sid)
                     (reject_state sid decision now s);
              ret (status_response "failed" s1)
            else
              _ ⇐ store_save "workflow_engine.hitl_resume" "hitl_resumed" (Some sid)
                    (resumed_state sid (approved_result s sid decision) s);
              execute rid
        end
  end.

Definition resume_from_wait (rid : string) (step_result : option dict) : M dict :=
  loaded ⇐ store_load rid;
  match loaded with
  | None => ret (error_response "Run not found")
  | Some s =>
      if negb (bool_decide (status s ∈ ["waiting_delay"; "waiting_event"])) then
        ret (error_response ("Run is not waiting, current status: " +:+ status s))
      else
        match waiting_step_id s with
        | None => ret (error_response "No waiting step recorded")
        | Some sid =>
            if negb (nonempty (Some sid)) then ret (error_response "No waiting step recorded")
            else
              _ ⇐ store_save "workflow_engine.wait_resume" "wait_resumed" (Some sid)
                    (resumed_state sid [("output", VMap (default [] step_result)); ("status", VStr "completed")] s);
              execute rid
        end
  end.

Definition resume_from_event (rid : string) (event_data : dict) : M dict :=
  resume_from_wait rid (Some [("event", VMap event_data); ("status", VStr "event_received")]).

Definition timeout_event_wait (rid sid : string) : M dict :=
  loaded ⇐ store_load rid;
  match loaded with
  | None => ret (error_response "Run not found")
  | Some s =>
      if negb (String.eqb (status s) "waiting_event" && bool_decide (waiting_step_id s = Some sid)) then
        ret (error_response "Step is no longer waiting")
      else
        _ ⇐ store_save "workflow_engine.event_timeout" "event_wait_timed_out" (Some sid)
              (resumed_state sid [("status", VStr "timed_out"); ("output", VMap [])] s);
        execute rid
  end.

Definition cancel_state (now : Z) (s : RunState) : RunState :=
  set_cancelled_at now (set_status "cancelled" s).

Definition cancel (rid : string) : M unit :=
  loaded ⇐ store_load rid;
  match loaded with
  | None => ret tt
  | Some s =>
      now ⇐ lift (trigger Now);
      _ ⇐ store_save "workflow_engine.cancel" "workflow_cancelled" None (cancel_state now s);
      ret tt
  end.
End engine.
