(* ===== verification/WorkflowRuns.v ===== *)
(** The life of a workflow run: an abstract state machine over stored run states
    and the invariants of every run.

    [commit s s'] says that [s'] may be stored as the successor of [s]; each
    constructor is one kind of checkpoint the engine makes.  WorkflowConcurrency.v
    proves that the engine, under any interleaving of its operations, only ever
    stores successors of this relation; this file proves what follows for a run. *)

From S2P Require Import Prelude PyVal StepResults WorkflowParser WorkflowGraph WorkflowStore WorkflowRetry.
From S2P Require Import WorkflowEngine.

(** * The machine *)

Section machine.
Context `{PyStr}.

(** The step the engine reads for an id: the last one the definition lists. *)
Definition indexed (s : RunState) (step : Step) : Prop :=
  _build_step_index (def_steps (definition s)) !! step_id step = Some step.

(** A step that may be taken up: the run is running, the step has no result. *)
Definition ready (s : RunState) (step : Step) : Prop :=
  status s = "running" ∧ indexed s step ∧ has_result (step_id step) s = false.

(** ... and its dependencies allow it to execute. *)
Definition runnable (s : RunState) (step : Step) : Prop :=
  ready s step ∧ _check_dependencies step s = None.

Definition allowed_result (r : dict) : Prop :=
  ∃ st, dget r "status" = VStr st ∧ st ∈ ALLOWED_STEP_STATUSES.

Definition terminal_failure (step : Step) (r : dict) : bool :=
  is_str (dget r "status") "failed" && negb (_step_allows_failure step).

Inductive commit : RunState → RunState → Prop :=
| commit_timeout s :
    status s = "running" → is_Some (timeout_hours (definition s)) →
    commit s (set_status "timed_out" s)
| commit_skip s step reason :
    ready s step → _check_dependencies step s = Some reason →
    commit s (set_result (step_id step) (skipped_result reason) s)
| commit_raised s step error :
    runnable s step →
    commit s (set_status "failed" (set_result (step_id step) (failed_result error) s))
| commit_failed s step r :
    runnable s step → allowed_result r → terminal_failure step r = true →
    commit s (set_status "failed" (record_result step r s))
| commit_step s step r known :
    runnable s step → allowed_result r → terminal_failure step r = false → pause_of step r = None →
    commit s (apply_branch known step r (record_result step r s))
| commit_pause s step r known st :
    runnable s step → allowed_result r → terminal_failure step r = false → pause_of step r = Some st →
    commit s (paused_state st (step_id step) (apply_branch known step r (record_result step r s)))
| commit_replan s step error proposed new_steps now :
    runnable s step → replan_on_failure (definition s) = true → replan_count s < MAX_REPLAN_ATTEMPTS →
    replan_workflow (step_results s) proposed = Ok new_steps →
    commit s (replan_state s (step_id step) error (def_steps (definition s)) new_steps now)
| commit_complete s order now :
    status s = "running" → _topological_sort (def_steps (definition s)) = Ok order →
    Forall (λ sid, has_result sid s = true) order →
    commit s (set_completed_at now (set_status "completed" s))
| commit_reject s sid decision now :
    status s = "waiting_hitl" → waiting_step_id s = Some sid → _is_rejection decision = true →
    commit s (reject_state sid decision now s)
| commit_approve s sid decision :
    status s = "waiting_hitl" → waiting_step_id s = Some sid → _is_rejection decision = false →
    commit s (resumed_state sid (approved_result s sid decision) s)
| commit_resume s sid output :
    status s ∈ ["waiting_delay"; "waiting_event"] → waiting_step_id s = Some sid →
    commit s (resumed_state sid [("output", VMap output); ("status", VStr "completed")] s)
| commit_event_timeout s sid :
    status s = "waiting_event" → waiting_step_id s = Some sid →
    commit s (resumed_state sid [("status", VStr "timed_out"); ("output", VMap [])] s)
| commit_cancel s now :
    commit s (cancel_state now s).

(** The state [start_run] stores. *)
Definition initial (s : RunState) : Prop :=
  status s = "running" ∧ step_results s = [] ∧ steps_completed s = 0 ∧ replan_count s = 0 ∧
  waiting_step_id s = None ∧ NoDup (step_id <$> def_steps (definition s)) ∧
  acyclic (depends (def_steps (definition s))).

(** Rows are stored without their version. *)
Definition commit_row (s s' : RunState) : Prop :=
  ∃ t t', s = _without_version t ∧ s' = _without_version t' ∧ commit t t'.
End machine.

(** * Facts about results *)

Definition result_of (s : RunState) (sid : string) : option dict := assoc sid (step_results s).

Definition completed_result (r : dict) : Prop := dget r "status" = VStr "completed".

(** A result of a step that was executed: neither skipped nor replaced by a
    replan. *)
Definition ran_result (r : dict) : Prop :=
  dget r "status" ≠ VStr "skipped" ∧ dget r "status" ≠ VStr "replanned".

Lemma has_result_spec sid s : has_result sid s = true ↔ is_Some (result_of s sid).
Proof. unfold has_result. by rewrite bool_decide_eq_true. Qed.

Lemma has_result_false sid s : has_result sid s = false ↔ result_of s sid = None.
Proof.
  unfold has_result. rewrite bool_decide_eq_false. unfold result_of.
  destruct (assoc _ _); [split; [intros []; eauto|done]|split; [done|by intros _ []]].
Qed.

Lemma is_str_spec v t : is_str v t = true ↔ v = VStr t.
Proof. destruct v; cbn; try naive_solver. rewrite String.eqb_eq. naive_solver. Qed.

Lemma is_str_false v t : is_str v t = false ↔ v ≠ VStr t.
Proof. rewrite <- is_str_spec. by destruct (is_str v t). Qed.

Lemma dget_dict_set k j v d : dget (dict_set k v d) j = if String.eqb j k then v else dget d j.
Proof. unfold dget. rewrite assoc_dict_set. by destruct (String.eqb j k). Qed.

Lemma result_of_set_result sid d s k :
  result_of (set_result sid d s) k = if String.eqb k sid then Some d else result_of s k.
Proof. apply assoc_dict_set. Qed.

(** The results that are there stay, and the definition does not change. *)
Definition extends (s s' : RunState) : Prop :=
  definition s' = definition s ∧ ∀ k r, result_of s k = Some r → result_of s' k = Some r.

Lemma extends_refl s : extends s s.
Proof. by split. Qed.

Lemma extends_trans s1 s2 s3 : extends s1 s2 → extends s2 s3 → extends s1 s3.
Proof. intros [? ?] [? ?]. split; [congruence|eauto]. Qed.

(** ** The branch of a condition only adds skipped results *)

Definition adds_skips (s s' : RunState) : Prop :=
  extends s s' ∧ status s' = status s ∧ waiting_step_id s' = waiting_step_id s ∧
  replan_count s' = replan_count s ∧ run_id s' = run_id s ∧
  (steps_completed s = length (step_results s) → steps_completed s' = length (step_results s')) ∧
  (NoDup (step_results s).*1 → NoDup (step_results s').*1) ∧
  ∀ k r, result_of s k = None → result_of s' k = Some r → r = skipped_result "branch_not_taken".

Lemma adds_skips_refl s : adds_skips s s.
Proof. repeat split; try done. congruence. Qed.

Lemma adds_skips_trans s1 s2 s3 : adds_skips s1 s2 → adds_skips s2 s3 → adds_skips s1 s3.
Proof.
  intros (E1 & ? & ? & ? & ? & ? & ? & N1) (E2 & ? & ? & ? & ? & ? & ? & N2).
  split; [by eapply extends_trans|]. repeat (split; [by (congruence || auto)|]).
  intros k r Hk Hr. destruct (result_of s2 k) as [r2|] eqn:Hr2; [|eauto].
  apply E2 in Hr2 as Hr3. rewrite Hr3 in Hr. simplify_eq. eauto.
Qed.

Lemma skip_path_adds bt other s : adds_skips s (skip_path bt other s).
Proof.
  destruct other as [o|]; cbn; [|apply adds_skips_refl].
  destruct (negb _ || _ || _) eqn:Hc; [apply adds_skips_refl|].
  apply orb_false_iff in Hc as [_ Hn%has_result_false].
  split; [|repeat split; try done].
  - split; [done|]. intros k r Hk. rewrite result_of_set_result.
    destruct (String.eqb_spec k o); [congruence|done].
  - intros. by apply dict_set_NoDup.
  - intros k r Hk. rewrite result_of_set_result. destruct (String.eqb_spec k o); congruence.
Qed.

(** ** Recording a result *)

Lemma state_result_fields d :
  dget (_state_result_from_step_result d) "status" = dget d "status" ∧
  dget (_state_result_from_step_result d) "fallback_target" = VNone.
Proof.
  unfold _state_result_from_step_result, dict_set_if.
  destruct (truthy (dget d "error")), (truthy (dget d "stubbed")), (truthy (dget d "connector")),
    (truthy (dget d "agent")), (truthy (dget d "action")); done.
Qed.

(** The result a step gets, as it ends up in the run. *)
Definition recorded (step : Step) (r : dict) : dict :=
  match _fallback_target step with
  | Some fb => dict_set "fallback_target" (VStr fb) (_state_result_from_step_result r)
  | None => _state_result_from_step_result r
  end.

Lemma recorded_fields step r :
  dget (recorded step r) "status" = dget r "status" ∧
  dget (recorded step r) "fallback_target" = vstr (_fallback_target step).
Proof.
  destruct (state_result_fields r) as [H1 H2]. unfold recorded.
  destruct (_fallback_target step); rewrite ?dget_dict_set; done.
Qed.

Lemma dict_set_twice {V} k (v v' : V) d : dict_set k v' (dict_set k v d) = dict_set k v' d.
Proof.
  induction d as [|[j w] d IH]; cbn; [by rewrite String.eqb_refl|].
  destruct (String.eqb_spec k j) as [->|Hne]; cbn; [by rewrite String.eqb_refl|].
  destruct (String.eqb_spec k j); [done|]. by rewrite IH.
Qed.

Lemma record_result_eq step r s :
  record_result step r s = set_result (step_id step) (recorded step r) s.
Proof.
  unfold record_result, recorded, annotate_result. destruct (_fallback_target step) as [fb|]; [|done].
  cbn. rewrite assoc_dict_set_eq. unfold set_result, set_results. cbn. by rewrite dict_set_twice.
Qed.

(** ** A branch annotates the step and skips other paths *)

(** After the recording of a result the step's own result keeps its status and
    fallback, and the paths not taken are marked skipped. *)
Lemma apply_branch_spec known step r s R :
  ∃ R', dget R' "status" = dget R "status" ∧ dget R' "fallback_target" = dget R "fallback_target" ∧
    adds_skips (set_result (step_id step) R' s) (apply_branch known step r (set_result (step_id step) R s)).
Proof.
  unfold apply_branch. destruct (bool_decide (type step = Some "condition")).
  2:{ exists R. split; [done|]. split; [done|]. apply adds_skips_refl. }
  set (s1 := set_result (step_id step) R s).
  assert (∃ R', dget R' "status" = dget R "status" ∧ dget R' "fallback_target" = dget R "fallback_target" ∧
    match _resolve_condition_branch step r with
    | Some t => if nonempty (_resolve_condition_branch step r) && known t
                then annotate_result (step_id step) "branch_target" (VStr t) s1 else s1
    | None => s1
    end = set_result (step_id step) R' s) as (R' & H1 & H2 & ->).
  { destruct (_resolve_condition_branch step r) as [t|]; [|by exists R].
    destruct (nonempty _ && known t); [|by exists R].
    exists (dict_set "branch_target" (VStr t) R). rewrite !dget_dict_set. split; [done|]. split; [done|].
    unfold annotate_result, s1. cbn. rewrite assoc_dict_set_eq. unfold set_result, set_results. cbn.
    by rewrite dict_set_twice. }
  exists R'. split; [done|]. split; [done|]. unfold _skip_branch_not_taken.
  eapply adds_skips_trans; apply skip_path_adds.
Qed.

(** * The invariant of a run *)

(** [d] is a fallback source of [sid] that has been executed. *)
Definition source_of (s : RunState) (d sid : string) : Prop :=
  is_Some (result_of s d) ∧
  ∃ sd, sd ∈ def_steps (definition s) ∧ step_id sd = d ∧ _fallback_target sd = Some sid.

Definition completed_dep (s : RunState) (d : string) : Prop :=
  ∃ r, result_of s d = Some r ∧ completed_result r.

(** Every dependency completed, or is a step this one is the fallback of. *)
Definition deps_ok (s : RunState) (step : Step) : Prop :=
  ∀ d, d ∈ depends_on step → (d ≠ step_id step ∧ completed_dep s d) ∨ source_of s d (step_id step).

(** Steps with an empty id are left out: the replanner does not check them for
    reuse. *)
Definition listed (s : RunState) (step : Step) : Prop :=
  step ∈ def_steps (definition s) ∧ step_id step ≠ EmptyString.

Record Inv (s : RunState) : Prop := {
  Inv_count : steps_completed s = length (step_results s);
  Inv_keys : NoDup (step_results s).*1;
  Inv_running : status s = "running" → waiting_step_id s = None;
  Inv_unique : ∀ a b, listed s a → listed s b → step_id a = step_id b →
    result_of s (step_id a) = None → a = b;
  Inv_deps : ∀ step r, listed s step → result_of s (step_id step) = Some r → ran_result r → deps_ok s step;
  Inv_waiting : ∀ w, waiting_step_id s = Some w →
    is_Some (result_of s w) ∧
    (∀ step, listed s step → step_id step = w → deps_ok s step) ∧
    (∀ step r, listed s step → step_id step ≠ w → result_of s (step_id step) = Some r → ran_result r →
       w ∈ depends_on step → source_of s w (step_id step));
  Inv_fallback : ∀ d r t, result_of s d = Some r → dget r "fallback_target" = VStr t → source_of s d t;
}.

Lemma source_of_extends s s' d sid : extends s s' → source_of s d sid → source_of s' d sid.
Proof.
  intros [Hd Hr] ([r Hres] & sd & Hsd). split; [eauto|]. exists sd. by rewrite Hd.
Qed.

Lemma deps_ok_extends s s' step : extends s s' → deps_ok s step → deps_ok s' step.
Proof.
  intros He Hok d Hd. destruct (Hok d Hd) as [[Hne (r & Hr & Hc)]|Hs].
  - left. split; [done|]. exists r. split; [by apply He|done].
  - right. by eapply source_of_extends.
Qed.

Lemma listed_extends s s' step : extends s s' → listed s step ↔ listed s' step.
Proof. intros [Hd _]. unfold listed. by rewrite Hd. Qed.

(** ** Dependencies that hold *)

Lemma fallback_sources_spec d sid steps :
  d ∈ _fallback_sources sid steps → d ≠ sid ∧ ∃ sd, sd ∈ steps ∧ step_id sd = d ∧ _fallback_target sd = Some sid.
Proof.
  unfold _fallback_sources. intros (sd & -> & Hin)%list_elem_of_fmap.
  apply list_elem_of_In, filter_In in Hin as [Hin Hc]. apply list_elem_of_In in Hin.
  apply andb_true_iff in Hc as [Hne Ht]. apply negb_true_iff, String.eqb_neq in Hne.
  apply bool_decide_eq_true in Ht. eauto.
Qed.

Lemma missing_source_None results sources :
  missing_source results sources = None → ∀ d, d ∈ sources → is_Some (assoc d results).
Proof.
  induction sources as [|src rest IH]; cbn; [set_solver|].
  destruct (assoc src results) as [r|] eqn:Er; [|done]. intros Hn d [-> | Hd]%elem_of_cons; [eauto|auto].
Qed.

Section steps.
Context `{PyStr}.

Lemma unmet_dependency_None results sources deps :
  unmet_dependency results sources deps = None →
  ∀ d, d ∈ deps → d ∉ sources → ∃ r, assoc d results = Some r ∧ completed_result r.
Proof.
  induction deps as [|dep deps IH]; cbn; [set_solver|]. intros Hn d Hd Hns.
  case_bool_decide as Hin.
  { apply elem_of_cons in Hd as [-> | Hd]; [done|]. by apply IH. }
  destruct (assoc dep results) as [r|] eqn:Er; [|done].
  destruct (is_str _ "skipped" && _); [done|].
  destruct (is_str (dget r "status") "completed") eqn:Hc; [|done].
  apply elem_of_cons in Hd as [-> | Hd]; [|by apply IH].
  exists r. split; [done|]. by apply is_str_spec.
Qed.

(** The sources found while reading dependencies come from recorded results. *)
Lemma dependency_sources_spec step s d :
  d ∈ dependency_sources step s →
  d ∈ _fallback_sources (step_id step) (def_steps (definition s)) ∨
  ∃ r, result_of s d = Some r ∧ dget r "fallback_target" = VStr (step_id step).
Proof.
  unfold dependency_sources.
  generalize (_fallback_sources (step_id step) (def_steps (definition s))) as src.
  generalize (depends_on step) as deps. induction deps as [|dep deps IH]; intros src; cbn; [by left|].
  intros [Hin | ?]%IH; [|by right].
  destruct (negb _ && _) eqn:Hc; [|by left].
  apply elem_of_app in Hin as [?|Hin]; [by left|]. apply list_elem_of_singleton in Hin as ->.
  right. apply andb_true_iff in Hc as [_ Hc]. apply is_str_spec in Hc.
  unfold result_of. destruct (assoc dep (step_results s)) as [r|]; [|done]. eauto.
Qed.

Lemma runnable_deps_ok s step : Inv s → runnable s step → deps_ok s step.
Proof.
  intros HI [(Hrun & Hidx & Hnone%has_result_false) Hc] d Hd. unfold _check_dependencies in Hc.
  set (sources := dependency_sources step s) in *.
  assert (is_Some (result_of s d) ∨ d ∉ sources) as Hexec.
  { destruct sources as [|src rest] eqn:Es; [right; set_solver|].
    destruct (missing_source _ _) eqn:Hm; [done|].
    destruct (decide (d ∈ src :: rest)); [|by right]. left. by eapply missing_source_None. }
  assert (unmet_dependency (step_results s) sources (depends_on step) = None) as Hu.
  { destruct sources; [done|]. destruct (missing_source _ _); [done|]. by destruct (existsb _ _). }
  destruct (decide (d ∈ sources)) as [Hin|Hnin].
  - right. destruct Hexec as [Hex|]; [|done]. split; [done|].
    apply dependency_sources_spec in Hin as [Hin | (r & Hr & Hf)].
    + by apply fallback_sources_spec in Hin as [_ ?].
    + by eapply Inv_fallback in Hf as [_ ?].
  - left. destruct (unmet_dependency_None _ _ _ Hu d Hd Hnin) as (r & Hr & Hcr).
    split; [|by exists r]. intros ->. unfold result_of in Hnone. congruence.
Qed.

(** ** Adding the result of a step *)

(** [t] has the results of [s'], which are those of [s], the new result [R] of
    [step], and skipped paths. *)
Record adds (s t : RunState) (step : Step) (R : dict) : Prop := {
  adds_indexed : indexed s step;
  adds_new : result_of s (step_id step) = None;
  adds_extends : extends s t;
  adds_self : result_of t (step_id step) = Some R;
  adds_others : ∀ k r, result_of t k = Some r →
    result_of s k = Some r ∨ (k = step_id step ∧ r = R) ∨ r = skipped_result "branch_not_taken";
  adds_count : steps_completed t = length (step_results t);
  adds_keys : NoDup (step_results t).*1;
}.

Lemma build_step_index_elem steps sid step :
  _build_step_index steps !! sid = Some step → step ∈ steps ∧ step_id step = sid.
Proof.
  unfold _build_step_index.
  assert (∀ m : gmap string Step, foldl (λ m s, <[step_id s := s]> m) m steps !! sid = Some step →
    (step ∈ steps ∧ step_id step = sid) ∨ m !! sid = Some step) as H0.
  { induction steps as [|x steps IH]; intros m; cbn; [by right|]. intros [[? ?]|Hm]%IH; [left; set_solver|].
    destruct (decide (step_id x = sid)) as [<-|].
    - rewrite lookup_insert_eq in Hm. left. simplify_eq. set_solver.
    - rewrite lookup_insert_ne in Hm by done. by right. }
  intros [?|Hm]%H0; [done|]. by rewrite lookup_empty in Hm.
Qed.

Lemma skipped_not_ran reason : ¬ ran_result (skipped_result reason).
Proof. by intros [H1 _]. Qed.

Lemma ran_adds s t step R k r :
  adds s t step R → result_of t k = Some r → ran_result r →
  result_of s k = Some r ∨ (k = step_id step ∧ r = R).
Proof.
  intros Ha Hk Hr. destruct (adds_others _ _ _ _ Ha k r Hk) as [?|[?| ->]]; [by left|by right|].
  by apply skipped_not_ran in Hr.
Qed.

(** The one step of an id that has no result yet. *)
Lemma adds_unique s t step R st :
  Inv s → adds s t step R → listed s st → step_id st = step_id step → st = step.
Proof.
  intros HI Ha Hl Heq. pose proof (adds_indexed _ _ _ _ Ha) as Hidx.
  apply build_step_index_elem in Hidx as [Hin _].
  apply (Inv_unique s HI); [done| |done|by rewrite Heq; apply Ha].
  split; [done|]. rewrite <- Heq. apply Hl.
Qed.

Lemma Inv_add s t step R :
  Inv s → adds s t step R →
  (status t = "running" → waiting_step_id t = None) →
  waiting_step_id t ∈ [None; Some (step_id step)] →
  (ran_result R ∨ waiting_step_id t = Some (step_id step) → deps_ok s step) →
  (∀ u, dget R "fallback_target" = VStr u → _fallback_target step = Some u) →
  Inv t.
Proof.
  intros HI Ha Hw Hwait Hdeps Hfb.
  pose proof (adds_extends _ _ _ _ Ha) as He. split.
  - apply Ha.
  - apply Ha.
  - done.
  - intros a b Hla Hlb Heq Hnone. rewrite <- (listed_extends s t) in Hla, Hlb by done.
    apply (Inv_unique s HI); [done..|]. destruct (result_of s (step_id a)) eqn:Hs; [|done].
    apply He in Hs. congruence.
  - intros st r Hl Hr Hran. rewrite <- (listed_extends s t) in Hl by done.
    eapply deps_ok_extends; [done|].
    destruct (ran_adds _ _ _ _ _ _ Ha Hr Hran) as [Hs|[Heq ->]]; [by eapply Inv_deps|].
    rewrite (adds_unique _ _ _ _ _ HI Ha Hl Heq). auto.
  - intros w Hwt. assert (w = step_id step) as -> by set_solver.
    split; [rewrite (adds_self _ _ _ _ Ha); eauto|]. split.
    + intros st Hl Heq. rewrite <- (listed_extends s t) in Hl by done.
      rewrite (adds_unique _ _ _ _ _ HI Ha Hl Heq). eapply deps_ok_extends; [done|]. auto.
    + intros st r Hl Hne Hr Hran Hin. rewrite <- (listed_extends s t) in Hl by done.
      eapply source_of_extends; [done|].
      destruct (ran_adds _ _ _ _ _ _ Ha Hr Hran) as [Hs|[? _]]; [|done].
      destruct (Inv_deps s HI st r Hl Hs Hran _ Hin) as [[_ (r' & Hr' & _)]|?]; [|done].
      rewrite (adds_new _ _ _ _ Ha) in Hr'. done.
  - intros d r u Hr Hu.
    destruct (adds_others _ _ _ _ Ha d r Hr) as [Hs|[[-> ->] | ->]]; [..|done].
    + eapply source_of_extends; [done|]. by eapply Inv_fallback.
    + split; [rewrite (adds_self _ _ _ _ Ha); eauto|]. exists step.
      pose proof (adds_indexed _ _ _ _ Ha) as Hidx.
      apply build_step_index_elem in Hidx as [Hin _]. destruct He as [Hd _]. rewrite Hd. auto.
Qed.

(** ** The two ways results are added *)

Lemma adds_single s step R t :
  Inv s → ready s step → definition t = definition s →
  step_results t = dict_set (step_id step) R (step_results s) →
  steps_completed t = length (step_results t) →
  adds s t step R.
Proof.
  intros HI (_ & Hidx & Hnone%has_result_false) Hdef Hres Hlen.
  assert (∀ k, result_of t k = if String.eqb k (step_id step) then Some R else result_of s k) as Hk.
  { intros k. unfold result_of. rewrite Hres. apply assoc_dict_set. }
  split; try done.
  - split; [done|]. intros k r Hr. rewrite Hk. destruct (String.eqb_spec k (step_id step)); congruence.
  - by rewrite Hk, String.eqb_refl.
  - intros k r. rewrite Hk. destruct (String.eqb_spec k (step_id step)); naive_solver.
  - rewrite Hres. apply dict_set_NoDup, HI.
Qed.

Lemma adds_branch s step r known t :
  Inv s → ready s step →
  let s1 := apply_branch known step r (record_result step r s) in
  definition t = definition s1 → step_results t = step_results s1 → steps_completed t = steps_completed s1 →
  ∃ R, adds s t step R ∧ dget R "status" = dget r "status" ∧
       dget R "fallback_target" = vstr (_fallback_target step).
Proof.
  intros HI Hready s1 Hdef Hres Hcnt. unfold s1 in *. rewrite record_result_eq in *.
  destruct (apply_branch_spec known step r s (recorded step r)) as (R & HR1 & HR2 & Hadd).
  destruct (recorded_fields step r) as [Hf1 Hf2].
  exists R. split; [|split; congruence].
  pose proof (adds_single s step R (set_result (step_id step) R s) HI Hready eq_refl eq_refl eq_refl) as H1.
  destruct Hadd as (He & _ & _ & _ & _ & Hc & Hk & Hnew).
  assert (∀ k, result_of t k = result_of (apply_branch known step r (set_result (step_id step) (recorded step r) s)) k) as Ht.
  { intros k. unfold result_of. by rewrite Hres. }
  split; try apply H1.
  - destruct (extends_trans _ _ _ (adds_extends _ _ _ _ H1) He) as [E1 E2].
    split; [congruence|]. intros k r' Hr'. rewrite Ht. auto.
  - rewrite Ht. apply He. exact (adds_self _ _ _ _ H1).
  - intros k r'. rewrite Ht. intros Hr'.
    destruct (result_of (set_result (step_id step) R s) k) as [r2|] eqn:Hr2.
    + apply He in Hr2 as Hr3. rewrite Hr3 in Hr'. simplify_eq. by apply (adds_others _ _ _ _ H1).
    + right. right. by eapply Hnew.
  - rewrite Hcnt, Hres. apply Hc, H1.
  - rewrite Hres. apply Hk, H1.
Qed.

(** ** Resuming replaces the result of the waiting step *)

Lemma Inv_resume s w R t :
  Inv s → waiting_step_id s = Some w → definition t = definition s →
  step_results t = dict_set w R (step_results s) → steps_completed t = length (step_results t) →
  waiting_step_id t = None → dget R "fallback_target" = VNone →
  Inv t.
Proof.
  intros HI Hw Hdef Hres Hlen Hwt Hfb.
  destruct (Inv_waiting s HI w Hw) as (Hsome & Hself & Hothers).
  assert (∀ k, result_of t k = if String.eqb k w then Some R else result_of s k) as Hk.
  { intros k. unfold result_of. rewrite Hres. apply assoc_dict_set. }
  assert (∀ k, is_Some (result_of t k) ↔ is_Some (result_of s k)) as Hdom.
  { intros k. rewrite Hk. destruct (String.eqb_spec k w) as [->|]; [|done]. split; eauto. }
  assert (∀ d sid, source_of s d sid → source_of t d sid) as Hsrc.
  { intros d sid [Hd Hex]. split; [by apply Hdom|]. by rewrite Hdef. }
  assert (∀ st, listed t st ↔ listed s st) as Hl by (intros; unfold listed; by rewrite Hdef).
  assert (∀ d, d ≠ w → completed_dep s d → completed_dep t d) as Hcomp.
  { intros d Hd (r & Hr & Hc). exists r. split; [|done]. rewrite Hk.
    by destruct (String.eqb_spec d w). }
  split.
  - done.
  - rewrite Hres. apply dict_set_NoDup, HI.
  - done.
  - intros a b Ha Hb Heq Hnone. apply (Inv_unique s HI); [by apply Hl..|done|].
    destruct (result_of s (step_id a)) eqn:E; [|done].
    assert (is_Some (result_of t (step_id a))) as [? ?] by (apply Hdom; eauto). congruence.
  - intros st r Hst Hr Hran d Hd. apply Hl in Hst.
    destruct (decide (step_id st = w)) as [Heq|Hne].
    + destruct (Hself st Hst Heq d Hd) as [[Hdw Hc]|?]; [left|right; auto].
      split; [done|]. apply Hcomp; [congruence|done].
    + rewrite Hk in Hr. destruct (String.eqb_spec (step_id st) w); [done|].
      destruct (decide (d = w)) as [->|Hdw]; [right; eauto|].
      destruct (Inv_deps s HI st r Hst Hr Hran d Hd) as [[? Hc]|?]; [left|right; auto]. eauto.
  - intros w'. rewrite Hwt. done.
  - intros d r u. rewrite Hk. destruct (String.eqb_spec d w) as [->|]; [congruence|].
    intros Hr Hu. apply Hsrc. by eapply Inv_fallback.
Qed.

(** ** Changes of status only *)

Lemma Inv_status s t :
  Inv s → definition t = definition s → step_results t = step_results s →
  steps_completed t = steps_completed s → waiting_step_id t = waiting_step_id s →
  (status t = "running" → waiting_step_id t = None) → Inv t.
Proof.
  intros HI Hdef Hres Hcnt Hw Hrun.
  assert (∀ k, result_of t k = result_of s k) as Hk by (intros; unfold result_of; by rewrite Hres).
  assert (extends s t) as Hst by (split; [done|]; intros; by rewrite Hk).
  assert (extends t s) as Hts by (split; [done|]; intros; by rewrite <- Hk).
  split; rewrite ?Hcnt, ?Hres; try apply HI; try done.
  - intros a b. rewrite <- !(listed_extends s t) by done. rewrite Hk. apply HI.
  - intros st r. rewrite <- (listed_extends s t), Hk by done. intros.
    eapply deps_ok_extends; [done|]. by eapply Inv_deps.
  - intros w. rewrite Hw. intros (H0 & H1 & H2)%(Inv_waiting s HI). split; [by rewrite Hk|]. split.
    + intros st. rewrite <- (listed_extends s t) by done. intros. eapply deps_ok_extends; eauto.
    + intros st r. rewrite <- (listed_extends s t), Hk by done. intros.
      eapply source_of_extends; eauto.
  - intros d r u. rewrite Hk. intros. eapply source_of_extends; [done|]. by eapply Inv_fallback.
Qed.

(** ** Replanning *)

Lemma validate_replanned_Ok done_ids raws ids d acc :
  fold_res (validate_replanned done_ids) (ids, d) raws = Ok acc →
  NoDup (step_id <$> d) → (∀ s, s ∈ d → step_id s ∈ ids ∧ step_id s ∉ done_ids) →
  NoDup (step_id <$> acc.2) ∧ ∀ s, s ∈ acc.2 → step_id s ∉ done_ids.
Proof.
  revert ids d. induction raws as [|r raws IH]; intros ids d Hf Hnd Hin; cbn -[validate_replanned] in Hf.
  { simplify_eq/=. split; [done|]. intros s Hs. by apply Hin. }
  apply bind_Ok in Hf as ([ids1 d1] & Hv & Hf).
  unfold validate_replanned in Hv. apply bind_Ok in Hv as (sid & _ & Hv).
  apply bind_Ok in Hv as (u1 & H1%raise_if_Ok & Hv). apply bind_Ok in Hv as (u2 & H2%raise_if_Ok & Hv).
  apply bind_Ok in Hv as (u3 & _ & Hv). injection Hv as <- <-.
  apply bool_decide_eq_false in H1, H2.
  apply (IH _ _ Hf).
  - rewrite fmap_app. apply NoDup_app. split; [done|]. split; [|by apply NoDup_singleton].
    intros k (s & -> & Hs)%list_elem_of_fmap Hk. cbn in Hk. apply list_elem_of_singleton in Hk.
    destruct (Hin s Hs). congruence.
  - intros s [Hs | ->%list_elem_of_singleton]%elem_of_app; [|cbn; set_solver].
    destruct (Hin s Hs). set_solver.
Qed.

Lemma replan_workflow_Ok completed proposed new_steps :
  replan_workflow completed proposed = Ok new_steps →
  NoDup (step_id <$> new_steps) ∧ ∀ s, s ∈ new_steps → step_id s ∉ completed_ids completed.
Proof.
  unfold replan_workflow. destruct proposed as [[|r raws]|]; try done.
  intros (acc & Hf & [= <-])%bind_Ok.
  apply (validate_replanned_Ok _ _ _ _ _ Hf); [apply NoDup_nil_2|]. by intros s Hs%elem_of_nil.
Qed.

Lemma completed_ids_spec sid (completed : list (string * dict)) :
  sid ≠ EmptyString → sid ∉ completed_ids completed → assoc sid completed = None.
Proof.
  intros Hne Hn. apply assoc_None. intros Hin. apply Hn. unfold completed_ids.
  apply elem_of_list_to_set, list_elem_of_In, filter_In. split; [by apply list_elem_of_In|].
  unfold nonempty. cbn. apply negb_true_iff. by destruct (String.eqb_spec sid EmptyString).
Qed.

Lemma Inv_replan s step error proposed new_steps now :
  Inv s → ready s step → replan_workflow (step_results s) proposed = Ok new_steps →
  Inv (replan_state s (step_id step) error (def_steps (definition s)) new_steps now).
Proof.
  intros HI Hready [Hnd Hfresh]%replan_workflow_Ok.
  set (s1 := set_result (step_id step) (replanned_result error) s).
  pose proof (adds_single s step (replanned_result error) s1 HI Hready eq_refl eq_refl eq_refl) as Ha.
  assert (Inv s1) as HI1.
  { apply (Inv_add s s1 step (replanned_result error)); try done.
    - intros Hs. by apply (Inv_running s HI).
    - change (waiting_step_id s1) with (waiting_step_id s).
      destruct Hready as [Hr _]. rewrite (Inv_running s HI Hr). left.
    - change (waiting_step_id s1) with (waiting_step_id s).
      destruct Hready as [Hr _]. rewrite (Inv_running s HI Hr). intros [[_ []]|]; done. }
  set (t := replan_state _ _ _ _ _ _).
  assert (∀ k, result_of t k = result_of s1 k) as Hk by done.
  (* a listed step is an old step with a result, or a new step without one that ran *)
  assert (∀ st, listed t st →
    (listed s1 st ∧ is_Some (result_of s1 (step_id st))) ∨
    (∃ n, n ∈ new_steps ∧ st = mark_replanned n ∧
       ∀ r, result_of s1 (step_id st) = Some r → ¬ ran_result r)) as Hlist.
  { intros st [Hin Hne]. unfold t in Hin. cbn in Hin. apply elem_of_app in Hin as [Hin|Hin].
    - left. apply list_elem_of_In, filter_In in Hin as [Hin Hres]. apply has_result_spec in Hres.
      split; [|done]. split; [by apply list_elem_of_In|done].
    - right. apply list_elem_of_fmap in Hin as (n & -> & Hin). exists n. split; [done|]. split; [done|].
      intros r Hr. destruct (adds_others _ _ _ _ Ha _ _ Hr) as [Hs|[[_ ->] | ->]]; [|by intros [_ []]|apply skipped_not_ran].
      exfalso. unfold result_of in Hs. rewrite completed_ids_spec in Hs; [done|done|]. exact (Hfresh n Hin). }
  assert (∀ d sid, source_of s1 d sid → source_of t d sid) as Hsrc.
  { intros d sid (Hd & sd & Hsd & Heq & Hf). split; [by rewrite Hk|]. exists sd. split; [|done].
    unfold t. cbn. apply elem_of_app. left. apply list_elem_of_In, filter_In.
    split; [by apply list_elem_of_In|]. apply has_result_spec. by rewrite Heq. }
  split.
  - apply HI1.
  - apply HI1.
  - intros Hs. apply (Inv_running s HI Hs).
  - intros a b Hla Hlb Heq Hnone. rewrite Hk in Hnone.
    destruct (Hlist a Hla) as [[_ [? ?]]|(na & Hna & -> & _)]; [congruence|].
    destruct (Hlist b Hlb) as [[_ [? ?]]|(nb & Hnb & -> & _)]; [congruence|].
    f_equal. apply list_elem_of_lookup_1 in Hna as [i Hi], Hnb as [j Hj].
    assert (i = j) as <-; [|congruence].
    eapply NoDup_lookup; [exact Hnd|..]; rewrite list_lookup_fmap; [by rewrite Hi|by rewrite Hj; cbn in *; f_equal].
  - intros st r Hst Hr Hran d Hd. rewrite Hk in Hr.
    destruct (Hlist st Hst) as [[Hold _]|(n & _ & _ & Hno)]; [|by destruct (Hno r)].
    destruct (Inv_deps s1 HI1 st r Hold Hr Hran d Hd) as [?|?]; [by left|right; auto].
  - intros w Hw. change (waiting_step_id s = Some w) in Hw.
    destruct Hready as [Hr _]. rewrite (Inv_running s HI Hr) in Hw. done.
  - intros d r u Hr Hu. rewrite Hk in Hr. apply Hsrc. by eapply Inv_fallback.
Qed.
End steps.

(** * Every run keeps the invariant *)

Section runs.
Context `{PyStr}.

Lemma initial_Inv s : initial s → Inv s.
Proof.
  intros (Hst & Hres & Hcnt & _ & Hw & Hnd & _).
  assert (∀ k, result_of s k = None) as Hk by (intros; unfold result_of; by rewrite Hres).
  split.
  - by rewrite Hcnt, Hres.
  - rewrite Hres. apply NoDup_nil_2.
  - done.
  - intros a b [Ha _] [Hb _] Heq _. apply list_elem_of_lookup_1 in Ha as [i Hi], Hb as [j Hj].
    assert (i = j) as <-; [|congruence].
    eapply NoDup_lookup; [exact Hnd|..]; rewrite list_lookup_fmap; [by rewrite Hi|by rewrite Hj; cbn; f_equal].
  - intros st r _ Hr. by rewrite Hk in Hr.
  - intros w. by rewrite Hw.
  - intros d r u Hr. by rewrite Hk in Hr.
Qed.

Lemma failed_result_ran error : ran_result (failed_result error).
Proof. by split. Qed.

Lemma vstr_VStr o u : vstr o = VStr u → o = Some u.
Proof. destruct o; cbn; congruence. Qed.

Lemma paused_running s : Inv s → status s = "running" → waiting_step_id s = None.
Proof. intros HI. apply HI. Qed.

(** The commits that add the result of a step. *)
Lemma Inv_step s step r known t :
  Inv s → runnable s step →
  let s1 := apply_branch known step r (record_result step r s) in
  definition t = definition s1 → step_results t = step_results s1 → steps_completed t = steps_completed s1 →
  waiting_step_id t ∈ [None; Some (step_id step)] → (status t = "running" → waiting_step_id t = None) → Inv t.
Proof.
  intros HI Hrun s1 Hd Hr Hc Hw Hs.
  destruct (adds_branch s step r known t HI (proj1 Hrun) Hd Hr Hc) as (R & Ha & HR1 & HR2).
  apply (Inv_add s t step R); try done.
  - intros _. by apply runnable_deps_ok.
  - intros u. rewrite HR2. apply vstr_VStr.
Qed.

Lemma apply_branch_frame known step r s :
  waiting_step_id (apply_branch known step r (record_result step r s)) = waiting_step_id s ∧
  status (apply_branch known step r (record_result step r s)) = status s ∧
  replan_count (apply_branch known step r (record_result step r s)) = replan_count s ∧
  run_id (apply_branch known step r (record_result step r s)) = run_id s ∧
  definition (apply_branch known step r (record_result step r s)) = definition s.
Proof.
  rewrite record_result_eq.
  destruct (apply_branch_spec known step r s (recorded step r))
    as (R & _ & _ & (Hd & _) & Hst & Hw & Hrc & Hid & _).
  done.
Qed.

Lemma commit_Inv s s' : commit s s' → Inv s → Inv s'.
Proof.
  intros Hc HI. destruct Hc as [s|s step reason|s step error|s step r|s step r known|s step r known st
    |s step error proposed new_steps now|s order now|s sid decision now|s sid decision|s sid output|s sid|s now].
  - by apply (Inv_status s).
  - apply (Inv_add s _ step (skipped_result reason)); try done.
    + by apply adds_single.
    + intros Hs. by apply (Inv_running s HI).
    + cbn. rewrite (Inv_running s HI) by apply H0. left.
    + cbn. intros [[Hr _]|Hw]; [done|]. rewrite (Inv_running s HI) in Hw by apply H0. done.
  - apply (Inv_add s _ step (failed_result error)); try done.
    + apply adds_single; try done. by destruct H0.
    + cbn. rewrite (Inv_running s HI) by apply H0. left.
    + intros _. by apply runnable_deps_ok.
  - destruct (recorded_fields step r) as [_ Hf].
    apply (Inv_add s _ step (recorded step r)); rewrite ?record_result_eq; try done.
    + apply adds_single; try done. by destruct H0.
    + cbn. rewrite (Inv_running s HI) by apply H0. left.
    + intros _. by apply runnable_deps_ok.
    + intros u. rewrite Hf. apply vstr_VStr.
  - destruct (apply_branch_frame known step r s) as (Hw & Hst & _).
    eapply (Inv_step s step r known); try done; rewrite Hw.
    + rewrite (Inv_running s HI) by apply H0. left.
    + intros _. apply (Inv_running s HI), H0.
  - eapply (Inv_step s step r known); try done.
    + cbn. right. left.
    + cbn. unfold pause_of in *. repeat case_match; by simplify_eq.
  - apply Inv_replan with proposed; try done. by destruct H0.
  - by apply (Inv_status s).
  - eapply Inv_resume; done.
  - eapply Inv_resume; try done. unfold approved_result. by destruct (_ || _).
  - eapply Inv_resume; done.
  - eapply Inv_resume; done.
  - by apply (Inv_status s).
Qed.

(** ** Chains of stored states *)

Lemma Inv_without_version s : Inv (_without_version s) ↔ Inv s.
Proof. split; intros HI; by apply (Inv_status _ _ HI), HI. Qed.

(** A state that can be stored for a run: the engine's initial state or one that
    follows from it by commits. *)
Definition reachable_run (s : RunState) : Prop :=
  ∃ s0, initial s0 ∧ rtc commit_row s0 s.

Lemma commit_row_Inv s s' : commit_row s s' → Inv s → Inv s'.
Proof.
  intros (t & t' & -> & -> & Hc) HI. apply Inv_without_version. eapply commit_Inv; [done|].
  by apply Inv_without_version.
Qed.

Lemma reachable_Inv s : reachable_run s → Inv s.
Proof.
  intros (s0 & Hi & Hc). apply initial_Inv in Hi. induction Hc; [done|]. eauto using commit_row_Inv.
Qed.

(** ** Statuses *)

Definition FINISHED : list string := ["completed"; "failed"; "timed_out"; "cancelled"].

(** The transitions of the run status. *)
Definition status_edges (st : string) : list string :=
  if String.eqb st "running" then
    ["running"; "completed"; "failed"; "timed_out"; "waiting_hitl"; "waiting_delay"; "waiting_event"; "cancelled"]
  else if String.eqb st "waiting_hitl" then ["running"; "failed"; "cancelled"]
  else if String.eqb st "waiting_delay" || String.eqb st "waiting_event" then ["running"; "cancelled"]
  else ["cancelled"].

Lemma pause_of_status step r st :
  pause_of step r = Some st → st ∈ ["waiting_hitl"; "waiting_delay"; "waiting_event"].
Proof. unfold pause_of. repeat case_match; intros [= <-]; set_solver. Qed.

Lemma cancelled_edge st : "cancelled" ∈ status_edges st.
Proof. unfold status_edges. repeat case_match; set_solver. Qed.

Ltac edge H := rewrite H; cbn; clear; set_solver.

Lemma commit_status s s' : commit s s' → status s' ∈ status_edges (status s).
Proof.
  intros Hc. destruct Hc as [s Hr _|s step reason (Hr & _) _|s step error [(Hr & _) _]
    |s step r [(Hr & _) _] _ _|s step r known [(Hr & _) _] _ _ _|s step r known st [(Hr & _) _] _ _ Hp
    |s step error proposed new_steps now [(Hr & _) _] _ _ _|s order now Hr _ _|s sid decision now Hr _ _
    |s sid decision Hr _ _|s sid output Hr _|s sid Hr _|s now].
  - cbn. edge Hr.
  - cbn. edge Hr.
  - cbn. edge Hr.
  - cbn. edge Hr.
  - destruct (apply_branch_frame known step r s) as (_ & -> & _). edge Hr.
  - apply pause_of_status in Hp. cbn. rewrite Hr. cbn. clear -Hp. set_solver.
  - cbn. edge Hr.
  - cbn. edge Hr.
  - cbn. edge Hr.
  - cbn. edge Hr.
  - cbn. apply elem_of_cons in Hr as [Hr|Hr]; [edge Hr|].
    apply list_elem_of_singleton in Hr. edge Hr.
  - cbn. edge Hr.
  - apply cancelled_edge.
Qed.

(** A finished run can only be cancelled, and keeps its results. *)
Lemma commit_finished s s' :
  commit s s' → status s ∈ FINISHED →
  status s' = "cancelled" ∧ step_results s' = step_results s ∧ definition s' = definition s.
Proof.
  intros Hc Hf.
  assert (status s ≠ "running" ∧ status s ≠ "waiting_hitl" ∧ status s ≠ "waiting_delay" ∧
          status s ≠ "waiting_event") as (N1 & N2 & N3 & N4).
  { unfold FINISHED in Hf. repeat split; intros E; rewrite E in Hf; clear -Hf; set_solver. }
  destruct Hc as [s Hr _|s step reason (Hr & _) _|s step error [(Hr & _) _]
    |s step r [(Hr & _) _] _ _|s step r known [(Hr & _) _] _ _ _|s step r known st [(Hr & _) _] _ _ Hp
    |s step error proposed new_steps now [(Hr & _) _] _ _ _|s order now Hr _ _|s sid decision now Hr _ _
    |s sid decision Hr _ _|s sid output Hr _|s sid Hr _|s now]; try done.
  clear -Hr N3 N4. set_solver.
Qed.

(** ** Failures are never passed over in silence *)

Definition failed_or_cancelled (s : RunState) : Prop := status s = "failed" ∨ status s = "cancelled".

(** While the run has neither failed nor been cancelled, no step was rejected and
    every failed step was declared to allow failure. *)
Definition failures_declared (s : RunState) : Prop :=
  ¬ failed_or_cancelled s →
  ∀ step r, listed s step → result_of s (step_id step) = Some r →
    dget r "status" ≠ VStr "rejected" ∧
    (dget r "status" = VStr "failed" → _step_allows_failure step = true).

Lemma failures_declared_add s t step R :
  Inv s → adds s t step R → status s = "running" → failures_declared s →
  (dget R "status" ≠ VStr "rejected" ∧
   (dget R "status" = VStr "failed" → _step_allows_failure step = true)) →
  failures_declared t.
Proof.
  intros HI Ha Hrun Hs HR _ st r Hl Hr.
  rewrite <- (listed_extends s t) in Hl by apply (adds_extends _ _ _ _ Ha).
  destruct (adds_others _ _ _ _ Ha _ _ Hr) as [Hold|[[Heq ->] | ->]].
  - apply Hs; [|done..]. intros [E|E]; rewrite Hrun in E; done.
  - by rewrite (adds_unique _ _ _ _ _ HI Ha Hl Heq).
  - done.
Qed.

Lemma failures_declared_same s t :
  failures_declared s → (failed_or_cancelled s → failed_or_cancelled t) →
  definition t = definition s → step_results t = step_results s → failures_declared t.
Proof.
  intros Hs Hfc Hd Hr Hn st r [Hl Hne]. rewrite Hd in Hl. unfold result_of. rewrite Hr.
  intros Hres. apply Hs; [naive_solver|done..].
Qed.

Lemma failures_declared_resume s w R t :
  Inv s → failures_declared s → ¬ failed_or_cancelled s → definition t = definition s →
  step_results t = dict_set w R (step_results s) →
  dget R "status" ≠ VStr "rejected" → dget R "status" ≠ VStr "failed" → failures_declared t.
Proof.
  intros HI Hs Hfc Hd Hr H1 H2 _ st r [Hl Hne]. rewrite Hd in Hl. unfold result_of.
  rewrite Hr, assoc_dict_set. destruct (String.eqb_spec (step_id st) w); [intros [= <-]; naive_solver|].
  by apply Hs.
Qed.

Lemma failures_declared_replan s step error proposed new_steps now :
  Inv s → ready s step → replan_workflow (step_results s) proposed = Ok new_steps →
  failures_declared s →
  failures_declared (replan_state s (step_id step) error (def_steps (definition s)) new_steps now).
Proof.
  intros HI Hready [Hnd Hfresh]%replan_workflow_Ok Hs _ st r [Hl Hne] Hr.
  assert (status s = "running") as Hrun by apply Hready.
  change (assoc (step_id st) (dict_set (step_id step) (replanned_result error) (step_results s)) = Some r) in Hr.
  rewrite assoc_dict_set in Hr.
  destruct (String.eqb_spec (step_id st) (step_id step)); [by simplify_eq|].
  cbn in Hl. apply elem_of_app in Hl as [Hl|Hl].
  - apply list_elem_of_In, filter_In in Hl as [Hl%list_elem_of_In _].
    apply Hs; [|done..]. intros [E|E]; rewrite Hrun in E; done.
  - apply list_elem_of_fmap in Hl as (ns & -> & Hin). exfalso. cbn in Hr.
    rewrite completed_ids_spec in Hr; [done|done|]. exact (Hfresh ns Hin).
Qed.

Lemma terminal_failure_false step r :
  allowed_result r → terminal_failure step r = false →
  dget r "status" ≠ VStr "rejected" ∧ (dget r "status" = VStr "failed" → _step_allows_failure step = true).
Proof.
  intros (st & Hst & Hin) Ht. rewrite Hst. split.
  - intros [= ->]. revert Hin. by apply (bool_decide_unpack _).
  - intros [= ->]. unfold terminal_failure in Ht. rewrite Hst in Ht. by apply negb_false_iff in Ht.
Qed.

Lemma commit_failures_declared s s' :
  commit s s' → Inv s → failures_declared s → failures_declared s'.
Proof.
  intros Hc HI Hs. destruct Hc as [s Hr _|s step reason (Hr & Hrest) _|s step error [(Hr & _) _]
    |s step r [(Hr & _) _] _ _|s step r known [Hready _] Hall Ht _|s step r known st [Hready _] Hall Ht Hp
    |s step error proposed new_steps now [Hready _] _ _ Hp|s order now Hr _ _|s sid decision now Hr _ _
    |s sid decision Hr _ _|s sid output Hr _|s sid Hr _|s now].
  - eapply failures_declared_same; try done. by intros [E|E]; rewrite Hr in E.
  - eapply (failures_declared_add s _ step (skipped_result reason)); try done. by apply adds_single.
  - intros Hn. exfalso. apply Hn. by left.
  - intros Hn. exfalso. apply Hn. by left.
  - edestruct (adds_branch s step r known) as (R & Ha & HR & _); [done|done|reflexivity..|].
    eapply failures_declared_add; [done|exact Ha|apply Hready|done|]. rewrite HR.
    by apply terminal_failure_false.
  - edestruct (adds_branch s step r known (paused_state st (step_id step)
      (apply_branch known step r (record_result step r s)))) as (R & Ha & HR & _); [done|done|reflexivity..|].
    eapply failures_declared_add; [done|exact Ha|apply Hready|done|]. rewrite HR.
    by apply terminal_failure_false.
  - by eapply failures_declared_replan.
  - eapply failures_declared_same; try done. by intros [E|E]; rewrite Hr in E.
  - intros Hn. exfalso. apply Hn. by left.
  - eapply failures_declared_resume; try done; [|unfold approved_result; by destruct (_ || _)..].
    by intros [E|E]; rewrite Hr in E.
  - eapply failures_declared_resume; try done.
    intros [E|E]; rewrite E in Hr; clear -Hr; set_solver.
  - eapply failures_declared_resume; try done. by intros [E|E]; rewrite Hr in E.
  - intros Hn. exfalso. apply Hn. by right.
Qed.

(** ** Completed runs *)

(** A completed run has a result for every step its order lists. *)
Definition completed_all (s : RunState) : Prop :=
  status s = "completed" → ∃ order, _topological_sort (def_steps (definition s)) = Ok order ∧
    ∀ sid, sid ∈ order → is_Some (result_of s sid).

Lemma commit_completed_all s s' : commit s s' → completed_all s'.
Proof.
  intros Hc. destruct Hc as [s Hr _|s step reason (Hr & Hrest) _|s step error [(Hr & _) _]
    |s step r [(Hr & _) _] _ _|s step r known [(Hr & _) _] Hall Ht _|s step r known st [Hready _] Hall Ht Hp
    |s step error proposed new_steps now [(Hr & _) _] _ _ Hp|s order now Hr Hsort Hall|s sid decision now Hr _ _
    |s sid decision Hr _ _|s sid output Hr _|s sid Hr _|s now]; intros Hcomp; try done.
  - cbn in Hcomp. congruence.
  - destruct (apply_branch_frame known step r s) as (_ & E & _). congruence.
  - cbn in Hcomp. apply pause_of_status in Hp. rewrite Hcomp in Hp. clear -Hp. set_solver.
  - cbn in Hcomp. congruence.
  - exists order. split; [done|]. intros sid Hsid. rewrite Forall_forall in Hall.
    by apply has_result_spec, Hall.
Qed.

(** ** Replans are bounded *)

Lemma commit_replan_count s s' :
  commit s s' → replan_count s ≤ replan_count s' ∧
  (replan_count s ≤ MAX_REPLAN_ATTEMPTS → replan_count s' ≤ MAX_REPLAN_ATTEMPTS).
Proof.
  intros Hc. destruct Hc as [| | |s step r|s step r known|s step r known st|s step error proposed new_steps now _ _ Hlt
    |s order now|s sid decision now|s sid decision|s sid output|s sid|s now]; cbn; try lia.
  - rewrite record_result_eq. cbn. lia.
  - destruct (apply_branch_frame known step r s) as (_ & _ & -> & _). lia.
  - destruct (apply_branch_frame known step r s) as (_ & _ & -> & _). lia.
Qed.

Lemma commit_run_id s s' : commit s s' → run_id s' = run_id s.
Proof.
  intros Hc. destruct Hc as [| | |s step r|s step r known|s step r known st|s step error proposed new_steps now
    |s order now|s sid decision now|s sid decision|s sid output|s sid|s now]; try done.
  - by rewrite record_result_eq.
  - by apply apply_branch_frame.
  - cbn. by apply apply_branch_frame.
Qed.

(** ** Everything that holds of a stored run *)

Definition STATUSES : list string :=
  ["running"; "waiting_hitl"; "waiting_delay"; "waiting_event"; "completed"; "failed"; "timed_out"; "cancelled"].

Record run_ok (s : RunState) : Prop := {
  ok_Inv : Inv s;
  ok_failures : failures_declared s;
  ok_completed : completed_all s;
  ok_replans : replan_count s ≤ MAX_REPLAN_ATTEMPTS;
  ok_status : status s ∈ STATUSES;
}.

Lemma run_ok_without_version s : run_ok (_without_version s) ↔ run_ok s.
Proof.
  split; intros [H1 H2 H3 H4 H5]; (split; [|done..]); by apply Inv_without_version.
Qed.

Lemma initial_run_ok s : initial s → run_ok s.
Proof.
  intros Hi. pose proof (initial_Inv s Hi) as HI. destruct Hi as (Hst & Hres & _ & Hrc & _). split; try done.
  - intros _ st r _ Hr. unfold result_of in Hr. by rewrite Hres in Hr.
  - intros E. by rewrite Hst in E.
  - rewrite Hrc. unfold MAX_REPLAN_ATTEMPTS. lia.
  - rewrite Hst. left.
Qed.

Lemma status_edges_known st st' : st' ∈ status_edges st → st' ∈ STATUSES.
Proof.
  unfold status_edges, STATUSES. intros Hin.
  destruct (st =? "running")%string; [clear -Hin; set_solver|].
  destruct (st =? "waiting_hitl")%string; [clear -Hin; set_solver|].
  destruct (_ || _); clear -Hin; set_solver.
Qed.

Lemma commit_run_ok s s' : commit s s' → run_ok s → run_ok s'.
Proof.
  intros Hc [HI Hf _ Hr Hst]. split.
  - by eapply commit_Inv.
  - by eapply commit_failures_declared.
  - by eapply commit_completed_all.
  - by eapply commit_replan_count.
  - by eapply status_edges_known, commit_status.
Qed.

Lemma commit_row_run_ok s s' : commit_row s s' → run_ok s → run_ok s'.
Proof.
  intros (t & t' & -> & -> & Hc) Hok. apply run_ok_without_version. eapply commit_run_ok; [done|].
  by apply run_ok_without_version.
Qed.

Lemma reachable_run_ok s : reachable_run s → run_ok s.
Proof.
  intros (s0 & Hi & Hc). apply initial_run_ok in Hi. induction Hc; [done|]. eauto using commit_row_run_ok.
Qed.

Lemma commit_row_finished s s' :
  commit_row s s' → status s ∈ FINISHED →
  status s' = "cancelled" ∧ step_results s' = step_results s ∧ definition s' = definition s.
Proof. intros (t & t' & -> & -> & Hc) Hf. exact (commit_finished t t' Hc Hf). Qed.

(** The rest of a run's history after it finished. *)
Lemma finished_forever s s' :
  rtc commit_row s s' → status s ∈ FINISHED →
  step_results s' = step_results s ∧ definition s' = definition s ∧
  (status s' = status s ∨ status s' = "cancelled").
Proof.
  induction 1 as [s|s s1 s' H1 _ IH]; intros Hf; [by auto|].
  destruct (commit_row_finished _ _ H1 Hf) as (Hst & Hres & Hd).
  destruct IH as (E1 & E2 & E3); [rewrite Hst; unfold FINISHED; clear; set_solver|].
  rewrite E1, E2. split; [done|]. split; [done|]. right. destruct E3 as [E3|E3]; congruence.
Qed.

Lemma commit_row_facts s s' :
  commit_row s s' → run_id s' = run_id s ∧ replan_count s ≤ replan_count s' ∧
  status s' ∈ status_edges (status s).
Proof.
  intros (t & t' & -> & -> & Hc). split; [exact (commit_run_id t t' Hc)|].
  split; [exact (proj1 (commit_replan_count t t' Hc))|exact (commit_status t t' Hc)].
Qed.

Lemma commit_rows_facts s s' :
  rtc commit_row s s' → run_id s' = run_id s ∧ replan_count s ≤ replan_count s'.
Proof.
  induction 1 as [s|s s1 s' H1 _ [IH1 IH2]]; [done|].
  destruct (commit_row_facts _ _ H1) as (? & ? & _). split; [congruence|lia].
Qed.
End runs.
