(* ===== verification/WorkflowConcurrency.v ===== *)
(** Concurrent use of the workflow engine.

    A configuration is the store and a pool of running operations; a step of the
    system lets one operation perform its next event, or starts another
    operation.  The store checks the version of a save, so an operation that read
    an older state cannot overwrite a newer one.  The section [logic] turns this
    into a small program logic: [wp] follows a program with a ghost snapshot of
    the run it works on, and a save is allowed only as a [commit] of that
    snapshot.  Its soundness gives the refinement: under every interleaving of
    [start_run], [execute], [execute_next], the resume operations and [cancel],
    the stored history of every run is a path of the machine of WorkflowRuns.v.

    Operations may ask for any run, stored or not; the id [start_run] draws becomes
    known to callers when it returns it, after its first save.  The store and its cache
    start empty: a state that only the cache holds, from before the durable store, is
    adopted by [store_load] without a version, and [adopted_state_overwrites_a_finished_run]
    shows what such a state can do. *)

From Stdlib Require Import QArith.
From S2P Require Import Prelude PyVal StepResults WorkflowParser WorkflowGraph WorkflowStore WorkflowRetry.
From S2P Require Import WorkflowEngine WorkflowRuns.

#[local] Close Scope Q_scope.

(** * The system *)

Inductive call :=
| CallStart (defn : RawDefinition) (timeout : option Q) (replan : bool) (payload : dict)
    (tenant wf_run wf : option string) (grant : dict)
| CallExecute (rid : string)
| CallExecuteNext (rid : string)
| CallResumeHitl (rid : string) (decision : dict)
| CallResumeWait (rid : string) (step_result : option dict)
| CallResumeEvent (rid : string) (event_data : dict)
| CallTimeoutEvent (rid sid : string)
| CallCancel (rid : string).

Definition call_target (c : call) : option string :=
  match c with
  | CallStart _ _ _ _ _ _ _ _ => None
  | CallExecute rid | CallExecuteNext rid | CallResumeHitl rid _ | CallResumeWait rid _
  | CallResumeEvent rid _ | CallTimeoutEvent rid _ | CallCancel rid => Some rid
  end.

Section concurrency.
Context `{PyStr} `{StoreConfig}.

Definition run_call (c : call) : prog (result exn dict) :=
  match c with
  | CallStart defn timeout replan payload tenant wf_run wf grant =>
      bindM (start_run defn timeout replan payload tenant wf_run wf grant) (λ rid, ret [("run_id", VStr rid)])
  | CallExecute rid => execute rid
  | CallExecuteNext rid => execute_next rid
  | CallResumeHitl rid decision => resume_from_hitl rid decision
  | CallResumeWait rid r => resume_from_wait rid r
  | CallResumeEvent rid d => resume_from_event rid d
  | CallTimeoutEvent rid sid => timeout_event_wait rid sid
  | CallCancel rid => bindM (cancel rid) (λ _, ret [])
  end.

Record config := { store : world; pool : list (prog (result exn dict)) }.

(** The world once a caller has asked for a run *)
Definition name_run (target : option string) (w : world) : world :=
  {| rows := rows w; transitions := transitions w; redis := redis w; issued := issued w;
     named := match target with Some rid => {[rid]} ∪ named w | None => named w end |}.

Inductive sys_step : config → config → Prop :=
| sys_spawn w ps c :
    (∀ rid, call_target c = Some rid → rid ∈ issued w → is_Some (rows w !! rid)) →
    sys_step {| store := w; pool := ps |} {| store := name_run (call_target c) w; pool := ps ++ [run_call c] |}
| sys_event w w' ps i X (e : event X) k x :
    ps !! i = Some (Vis e k) → answers e w w' x →
    sys_step {| store := w; pool := ps |} {| store := w'; pool := <[i := k x]> ps |}.

(** No runs yet, neither stored nor cached. *)
Definition system_start (c : config) : Prop := rows (store c) = ∅ ∧ redis (store c) = ∅ ∧ pool c = [].

Definition reachable (c : config) : Prop := ∃ c0, system_start c0 ∧ rtc sys_step c0 c.

(** * How rows change *)

Definition row_evolves (o o' : option Row) : Prop :=
  o' = o ∨
  (∃ s, o = None ∧ initial s ∧ o' = Some {| row_state := s; row_version := 1 |}) ∨
  (∃ r r', o = Some r ∧ o' = Some r' ∧ row_version r' = (row_version r + 1)%Z ∧
           commit_row (row_state r) (row_state r')).

(** * A logic for one operation *)

(** What an operation knows: nothing, an id it drew, that a run does not exist and
    never will, that it exists, or a version of it and the state stored under it. *)
Inductive ghost :=
| GNone
| GFresh (rid : string)
| GMissing (rid : string)
| GKnown (rid : string)
| GSnap (v : Z) (s : RunState).

Definition wp_event {X} (e : event X) (g : ghost) : (ghost → X → Prop) → Prop :=
  match e in event X return (ghost → X → Prop) → Prop with
  | RepoLoad rid => λ K,
      match g with
      | GMissing rid' => rid' = rid ∧ K g None
      | GKnown rid' => rid' = rid ∧
          ∀ v st, run_id st = rid → state_version st = None →
            K (GSnap v st) (Some (set_version (Some v) st))
      | GSnap v s => run_id s = rid ∧
          ∀ v' st, (v ≤ v')%Z → state_version st = None → rtc commit_row s st →
            K (GSnap v' st) (Some (set_version (Some v') st)) ∨ K g (Some (set_version (Some v') st))
      | _ => False
      end
  | RepoSave s expected _ _ _ => λ K,
      match g with
      | GFresh rid => run_id s = rid ∧ initial s ∧ state_version s = None ∧ K (GSnap 1 s) (Ok (Some 1%Z))
      | GSnap v s0 => expected = Some v ∧ commit_row s0 s ∧
          K (GSnap (v + 1) s) (Ok (Some (v + 1)%Z)) ∧ ∀ a, K g (Err (StaleState v a))
      | _ => False
      end
  | NewRunId => λ K, g = GNone ∧ ∀ rid, K (GFresh rid) rid
  | RedisGet rid => λ K, match g with GMissing rid' => rid' = rid ∧ K g None | _ => ∀ x, K g x end
  | RedisSet s => λ K, match g with GSnap _ s0 => run_id s = run_id s0 ∧ ∀ x, K g x | _ => False end
  | Now => λ K, ∀ x, K g x
  | CheckOverride _ _ => λ K, ∀ x, K g x
  | ExecuteStep _ _ _ => λ K, ∀ x, K g x
  | Sleep _ => λ K, ∀ x, K g x
  | ReplanModel _ _ _ _ => λ K, ∀ x, K g x
  end.

Fixpoint wp {A} (Φ : ghost → A → Prop) (g : ghost) (p : prog A) : Prop :=
  match p with
  | Ret a => Φ g a
  | Vis e k => wp_event e g (λ g' x, wp Φ g' (k x))
  end.

Lemma wp_event_mono {X} (e : event X) g (K K' : ghost → X → Prop) :
  (∀ g' x, K g' x → K' g' x) → wp_event e g K → wp_event e g K'.
Proof.
  intros HK. destruct e, g; cbn; try done; naive_solver.
Qed.

Lemma wp_mono {A} (Φ Ψ : ghost → A → Prop) g p :
  (∀ g' a, Φ g' a → Ψ g' a) → wp Φ g p → wp Ψ g p.
Proof.
  intros HΦ. revert g. induction p as [a|X e k IH]; intros g; cbn; [auto|].
  apply wp_event_mono. auto.
Qed.

Lemma wp_bind {A B} (Φ : ghost → B → Prop) g (p : prog A) (f : A → prog B) :
  wp (λ g' a, wp Φ g' (f a)) g p → wp Φ g (bind p f).
Proof.
  revert g. induction p as [a|X e k IH]; intros g; cbn; [done|]. apply wp_event_mono. auto.
Qed.

Lemma wp_bindM {A B} (Φ : ghost → result exn B → Prop) g (m : M A) (f : A → M B) :
  wp (λ g' r, match r with Ok a => wp Φ g' (f a) | Err e => Φ g' (Err e) end) g m →
  wp Φ g (bindM m f).
Proof. intros Hm. apply wp_bind. eapply wp_mono; [|exact Hm]. by intros g' [a|e]. Qed.

(** ** Soundness *)

Definition valid (w : world) (g : ghost) : Prop :=
  match g with
  | GNone => True
  | GFresh rid => rid ∈ issued w ∧ rows w !! rid = None
  | GMissing rid => rid ∈ named w ∧ rid ∉ issued w
  | GKnown rid => is_Some (rows w !! rid)
  | GSnap v s => ∃ r, rows w !! run_id s = Some r ∧ (v ≤ row_version r)%Z ∧
      rtc commit_row s (row_state r) ∧ (row_version r = v → row_state r = s)
  end.

Definition row_ok (w : world) (rid : string) (r : Row) : Prop :=
  rid ∈ issued w ∧ run_id (row_state r) = rid ∧ state_version (row_state r) = None ∧
  reachable_run (row_state r).

(** The cache holds nothing the store does not. *)
Definition world_ok (w : world) : Prop :=
  (∀ rid r, rows w !! rid = Some r → row_ok w rid r) ∧ (∀ rid, is_Some (redis w !! rid) → is_Some (rows w !! rid)).

Definition evolves (w w' : world) : Prop :=
  (issued w ⊆ issued w' ∧ named w ⊆ named w' ∧ ∀ rid, rid ∈ named w → rid ∈ issued w' → rid ∈ issued w) ∧
  ∀ rid, row_evolves (rows w !! rid) (rows w' !! rid).

Lemma evolves_same w w' :
  rows w' = rows w → issued w ⊆ issued w' → named w ⊆ named w' →
  (∀ rid, rid ∈ named w → rid ∈ issued w' → rid ∈ issued w) → evolves w w'.
Proof. intros Hr Hi Hn Hd. split; [done|]. intros rid. left. by rewrite Hr. Qed.

(** What another operation knows survives a step of this one. *)
Lemma valid_evolves w w' g :
  evolves w w' → valid w g → (∀ rid, g = GFresh rid → rows w' !! rid = rows w !! rid) → valid w' g.
Proof.
  intros [(Hi & Hn & Hd) Hrows] Hv Hfresh. destruct g as [|rid|rid|rid|v s]; cbn in *; [done|..].
  - destruct Hv as [H1 H2]. split; [by apply Hi|]. by rewrite Hfresh.
  - destruct Hv as [H1 H2]. split; [by apply Hn|]. intros H3. by apply H2, Hd.
  - destruct (Hrows rid) as [-> | [(s & E & _)|(r & r' & _ & -> & _)]]; [done| |eauto].
    rewrite E in Hv. by destruct Hv.
  - destruct Hv as (r & Hr & Hle & Hc & Heq).
    destruct (Hrows (run_id s)) as [-> | [(s' & E & _)|(r0 & r' & E & -> & Hv' & Hc')]].
    + eauto.
    + congruence.
    + rewrite Hr in E. simplify_eq. exists r'. split; [done|]. split; [lia|]. split; [|lia].
      eapply rtc_r; eauto.
Qed.

Lemma rows_insert_evolves w s v actor ev sid k o :
  rows w !! run_id s = o →
  row_evolves o (Some {| row_state := s; row_version := v |}) →
  evolves w (repo_write w s v actor ev sid k).1.
Proof.
  intros Ho He. split; [by split_and!|]. intros rid. cbn.
  destruct (decide (run_id s = rid)) as [<-|Hne].
  - rewrite lookup_insert_eq, Ho. done.
  - rewrite lookup_insert_ne by done. by left.
Qed.

Lemma rows_insert_ok w s v actor ev sid k :
  world_ok w → run_id s ∈ issued w → state_version s = None → reachable_run s →
  world_ok (repo_write w s v actor ev sid k).1.
Proof.
  intros [Hok Hred] Hi Hv Hr. split.
  - intros rid r. cbn. destruct (decide (run_id s = rid)) as [<-|Hne].
    + rewrite lookup_insert_eq. by intros [= <-].
    + rewrite lookup_insert_ne by done. apply Hok.
  - intros rid Hc. cbn. destruct (decide (run_id s = rid)) as [<-|Hne]; [rewrite lookup_insert_eq; eauto|].
    rewrite lookup_insert_ne by done. by apply Hred.
Qed.

Lemma reachable_run_commit s s' : reachable_run s → commit_row s s' → reachable_run s'.
Proof. intros (s0 & Hi & Hc) H1. exists s0. split; [done|]. eapply rtc_r; eauto. Qed.

(** One event: the next ghost, and what the others can rely on. *)
Record event_ok {X} (w w' : world) (g : ghost) (x : X) (K : ghost → X → Prop) (g' : ghost) : Prop := {
  event_K : K g' x;
  event_valid : valid w' g';
  event_world : world_ok w';
  event_evolves : evolves w w';
  event_fresh : ∀ rid, g' = GFresh rid → g = GFresh rid ∨ rid ∉ issued w;
  event_created : ∀ rid, rows w !! rid = None → rows w' !! rid ≠ None → g = GFresh rid;
}.

Lemma same_rows_ok {X} w w' g g' (x : X) (K : ghost → X → Prop) :
  world_ok w → rows w' = rows w → issued w' = issued w → named w' = named w →
  (∀ rid, is_Some (redis w' !! rid) → is_Some (rows w !! rid)) → valid w g' → K g' x →
  (∀ rid, g' = GFresh rid → g = GFresh rid) → event_ok w w' g x K g'.
Proof.
  intros [Hok _] Hr Hi Hn Hred Hv HK Hf.
  assert (evolves w w') as Hev by (apply evolves_same; [done|by rewrite Hi|by rewrite Hn|by rewrite Hi]). split; try done.
  - eapply valid_evolves; [done..|]. intros. by rewrite Hr.
  - split; rewrite Hr; [|done]. intros rid r Hrow. destruct (Hok rid r Hrow) as (? & ? & ? & ?). split; [by rewrite Hi|done].
  - intros rid E. left. auto.
  - intros rid H1 H2. by rewrite Hr in H2.
Qed.

Lemma unchanged_ok {X} w g g' (x : X) (K : ghost → X → Prop) :
  world_ok w → valid w g' → K g' x → (∀ rid, g' = GFresh rid → g = GFresh rid) → event_ok w w g x K g'.
Proof. intros Hok Hv HK Hf. apply same_rows_ok; try done. apply Hok. Qed.

Lemma load_ok w rid r : world_ok w → rows w !! rid = Some r →
  repo_load w rid = Some (set_version (Some (row_version r)) (row_state r)) ∧
  run_id (row_state r) = rid ∧ state_version (row_state r) = None.
Proof.
  intros [Hok _] Hr. destruct (Hok rid r Hr) as (_ & Hid & Hv & _). unfold repo_load. by rewrite Hr.
Qed.

Lemma wp_event_sound {X} (e : event X) w w' g x K :
  world_ok w → valid w g → wp_event e g K → answers e w w' x → ∃ g', event_ok w w' g x K g'.
Proof.
  intros Hok Hv Hwp Ha. destruct e; cbn in Ha.
  - destruct Ha as [-> ->]. destruct g as [|?|rid'|rid'|v s]; cbn in Hwp, Hv; try done.
    + destruct Hwp as [-> HK]. assert (repo_load w rid = None) as ->.
      { unfold repo_load. destruct (rows w !! rid) as [r|] eqn:E; [|done]. exfalso. apply Hv. by apply (proj1 Hok rid r). }
      exists (GMissing rid). by apply unchanged_ok.
    + destruct Hwp as [-> HK]. destruct Hv as [r Hr]. destruct (load_ok _ _ _ Hok Hr) as (-> & Hid & Hnv).
      exists (GSnap (row_version r) (row_state r)). apply unchanged_ok; try done; [|by apply HK].
      exists r. rewrite Hid. done.
    + destruct Hwp as [<- HK]. destruct Hv as (r & Hr & Hle & Hc & Heq).
      destruct (load_ok _ _ _ Hok Hr) as (-> & Hid & Hnv).
      destruct (HK (row_version r) (row_state r) Hle Hnv Hc) as [HK'|HK'].
      * exists (GSnap (row_version r) (row_state r)). apply unchanged_ok; try done.
        exists r. rewrite Hid. done.
      * exists (GSnap v s). apply unchanged_ok; try done. exists r. done.
  - unfold repo_save in Ha. cbn [nonempty vstr truthy andb] in Ha.
    destruct g as [|rid|?|?|v s0]; cbn in Hwp; try done.
    + destruct Hwp as (<- & Hinit & Hnv & HK). destruct Hv as [Hi Hnone]. rewrite Hnone in Ha.
      injection Ha as -> ->. exists (GSnap 1 s). split.
      * done.
      * eexists. cbn. rewrite lookup_insert_eq. split; [done|]. split; [done|]. done.
      * apply (rows_insert_ok w s 1); try done. by exists s.
      * apply (rows_insert_evolves w s 1 _ _ _ _ None Hnone). right. left. eauto.
      * done.
      * intros rid H1 H2. cbn in H2. destruct (decide (run_id s = rid)) as [->|Hne]; [done|].
        by rewrite lookup_insert_ne in H2.
    + destruct Hwp as (-> & Hc & HK & HKerr). destruct Hv as (r & Hr & Hle & Hcs & Heq).
      destruct (commit_row_facts _ _ Hc) as (Hid & _). rewrite Hid, Hr in Ha.
      destruct (Z.eqb_spec (row_version r) v) as [Ev|Hne].
      2:{ injection Ha as -> ->. exists (GSnap v s0). apply unchanged_ok; try done. exists r. done. }
      injection Ha as -> ->. specialize (Heq Ev). subst s0.
      destruct (proj1 Hok _ _ Hr) as (Hiss & _ & _ & Hreach). rewrite Ev.
      exists (GSnap (v + 1) s). split.
      * done.
      * eexists. cbn. rewrite Hid, lookup_insert_eq. split; [done|]. cbn. split; [lia|]. done.
      * apply (rows_insert_ok w s (v + 1)); try done; [by rewrite Hid| |by eapply reachable_run_commit].
        by destruct Hc as (? & ? & _ & -> & _).
      * apply (rows_insert_evolves w s (v + 1) _ _ _ _ (Some r)); [by rewrite Hid|]. right. right.
        exists r. eexists. split; [done|]. split; [done|]. split; [cbn; lia|done].
      * done.
      * intros rid H1 H2. cbn in H2. destruct (decide (run_id s = rid)) as [<-|Hne].
        -- rewrite Hid in H1. congruence.
        -- by rewrite lookup_insert_ne in H2.
  - destruct Ha as [-> Hx]. exists g. apply unchanged_ok; try done. destruct g as [|?|rid'|?|?]; cbn in Hwp; try done.
    destruct Hwp as [-> HK]. destruct Hx as [-> | ->]; [|done]. destruct (redis w !! rid) eqn:E; [|done].
    exfalso. destruct (proj2 Hok rid) as [row Hrow]; [by rewrite E|]. apply Hv. by apply (proj1 Hok rid row).
  - destruct g as [|?|?|?|v s0]; cbn in Hwp; try done. destruct Hwp as [Hid HK]. exists (GSnap v s0).
    destruct Ha as [-> | ->]; [by apply unchanged_ok|]. apply same_rows_ok; try done. intros rid. cbn.
    destruct (decide (run_id s = rid)) as [<-|Hne]; [|rewrite lookup_insert_ne by done; apply Hok].
    intros _. rewrite Hid. destruct Hv as (r & -> & _). eauto.
  - destruct Hwp as [-> HK]. destruct Ha as (Hx & Hxn & ->). exists (GFresh x). split.
    + done.
    + split; [cbn; clear; set_solver|]. cbn. destruct (rows w !! x) as [r|] eqn:E; [|done].
      by destruct (proj1 Hok _ _ E) as [? _].
    + split; [|apply Hok]. intros rid r Hr. destruct (proj1 Hok rid r Hr) as (Hi & Hrest). split; [|done]. cbn. clear -Hi. set_solver.
    + apply evolves_same; cbn; [done|clear; set_solver|done|]. intros rid Hrid. clear -Hrid Hxn. set_solver.
    + intros rid [= <-]. by right.
    + done.
  - subst. exists g. by apply unchanged_ok.
  - subst. exists g. by apply unchanged_ok.
  - subst. exists g. by apply unchanged_ok.
  - subst. exists g. by apply unchanged_ok.
  - subst. exists g. by apply unchanged_ok.
Qed.

(** ** Programs that do not touch the store *)

Lemma wp_ret {A} (Φ : ghost → result exn A → Prop) g (a : A) : Φ g (Ok a) → wp Φ g (ret a).
Proof. done. Qed.

Lemma wp_lift {A} (Φ : ghost → result exn A → Prop) g (p : prog A) :
  wp (λ g' a, Φ g' (Ok a)) g p → wp Φ g (lift p).
Proof. intros Hp. apply wp_bind. eapply wp_mono; [|exact Hp]. done. Qed.

(** Events that change nothing an operation knows. *)
Definition neutral {X} (e : event X) : Prop := ∀ g (K : ghost → X → Prop), (∀ x, K g x) → wp_event e g K.

Lemma wp_neutral {X B} (Φ : ghost → result exn B → Prop) g (e : event X) (k : X → M B) :
  neutral e → (∀ x, wp Φ g (k x)) → wp Φ g (bindM (lift (trigger e)) k).
Proof. intros Hn Hk. apply wp_bindM, wp_lift. cbn. apply Hn. done. Qed.

Lemma neutral_Now : neutral Now.
Proof. by intros g K. Qed.
Lemma neutral_ReplanModel a b c d : neutral (ReplanModel a b c d).
Proof. by intros g K. Qed.
Lemma neutral_CheckOverride a b : neutral (CheckOverride a b).
Proof. by intros g K. Qed.

Lemma wp_retry_loop {E A} Φ g (func : prog (result E A)) n more :
  (∀ Ψ : ghost → result E A → Prop, (∀ r, Ψ g r) → wp Ψ g func) →
  (∀ r, Φ g r) → wp Φ g (retry_loop func n more).
Proof.
  intros Hf HΦ. revert n. induction more as [|more IH]; intros n; cbn; apply wp_bind, Hf; intros [a|e]; cbn; auto.
Qed.

Lemma wp_execute_with_retry Φ g step s context :
  (∀ r, Φ g r) → wp Φ g (_execute_with_retry step s context).
Proof.
  intros HΦ. unfold _execute_with_retry. destruct (_ && _); [|cbn; auto].
  apply wp_bind, wp_retry_loop.
  - intros Ψ HΨ. unfold attempt. cbn. auto.
  - intros r. cbn. auto.
Qed.

(** ** Loading and saving *)

(** Knowledge of run [rid], with a lower bound on its replan counter. *)
Definition knows (rid : string) (n : nat) (g : ghost) : Prop :=
  (g = GKnown rid ∧ n = 0) ∨ ∃ v s, g = GSnap v s ∧ run_id s = rid ∧ n ≤ replan_count s.

(** The program's state is the snapshot. *)
Definition at_state (g : ghost) (s : RunState) : Prop :=
  ∃ v, g = GSnap v (_without_version s) ∧ state_version s = Some v.

Lemma at_state_knows g s : at_state g s → knows (run_id s) (replan_count s) g.
Proof. intros (v & -> & _). right. exists v, (_without_version s). done. Qed.

Lemma without_version_eta st v : state_version st = None → _without_version (set_version (Some v) st) = st.
Proof. destruct st. cbn. by intros ->. Qed.

Lemma at_loaded v st : state_version st = None → at_state (GSnap v st) (set_version (Some v) st).
Proof. intros Hs. exists v. by rewrite without_version_eta. Qed.

Lemma wp_store_load Φ g rid n :
  knows rid n g →
  (∀ g' s, at_state g' s → run_id s = rid → n ≤ replan_count s → Φ g' (Ok (Some s))) →
  wp Φ g (store_load rid).
Proof.
  intros Hk HΦ. unfold store_load. apply wp_bindM, wp_lift. cbn.
  destruct Hk as [[-> ->] | (v & s & -> & Hid & Hn)].
  - split; [done|]. intros v st Hst Hv. apply HΦ; [by apply at_loaded|done|lia].
  - split; [done|]. intros v' st _ Hv Hc. left. destruct (commit_rows_facts _ _ Hc) as [H1 H2].
    apply HΦ; [by apply at_loaded|cbn; congruence|cbn; lia].
Qed.

Lemma wp_store_load_missing Φ rid : Φ (GMissing rid) (Ok None) → wp Φ (GMissing rid) (store_load rid).
Proof. intros HΦ. by repeat split. Qed.

(** A load that leaves the snapshot as it is. *)
Lemma wp_store_load_keep Φ g s :
  at_state g s → (∀ o, Φ g (Ok o)) → wp Φ g (store_load (run_id s)).
Proof.
  intros (v & -> & Hv) HΦ. unfold store_load. apply wp_bindM, wp_lift. cbn.
  split; [done|]. intros v' st _ _ _. right. apply HΦ.
Qed.

Lemma wp_store_save Φ g s s' actor ev sid :
  at_state g s → commit s s' → state_version s' = state_version s →
  (∀ g' s1, at_state g' s1 → _without_version s1 = _without_version s' → Φ g' (Ok s1)) →
  (∀ a b, Φ g (Err (StaleState a b))) →
  wp Φ g (store_save actor ev sid s').
Proof.
  intros (v & -> & Hv) Hc Hv' HΦ Herr. unfold store_save. apply wp_bindM. cbn.
  split; [congruence|]. split; [by exists s, s'|]. split; [|auto]. split; [done|]. intros _. apply HΦ; [|done].
  exists (v + 1)%Z. done.
Qed.

(** ** The operations *)

(** How an operation may end: not by running out of turns, and not with a step
    missing from the index. *)
Definition proper_end {A} (r : result exn A) : Prop := r ≠ Err OutOfTurns ∧ r ≠ Err KeyError.

Definition at_end {A} (rid : string) (g : ghost) (r : result exn A) : Prop :=
  knows rid 0 g ∧ proper_end r.

Lemma stale_proper {A} a b : proper_end (Err (StaleState a b) : result exn A).
Proof. done. Qed.

Lemma at_state_end {A} rid g s (r : result exn A) :
  at_state g s → run_id s = rid → proper_end r → at_end rid g r.
Proof. intros (v & -> & _) Hid Hr. split; [|done]. right. exists v, (_without_version s). split; [done|]. split; [done|lia]. Qed.

(** A state the main loop goes on with after handling step [sid] in state [s]. *)
Record continues (rid sid : string) (s s' : RunState) : Prop := {
  continues_id : run_id s' = rid;
  continues_status : status s' = "running";
  continues_definition : definition s' = definition s;
  continues_replans : replan_count s' = replan_count s;
  continues_results : ∀ k, is_Some (result_of s k) ∨ k = sid → is_Some (result_of s' k);
}.

Definition flow_post (rid sid : string) (s : RunState) (g : ghost) (r : result exn flow) : Prop :=
  match r with
  | Ok (Return d) => at_end rid g (Ok d)
  | Ok (Continue s') => at_state g s' ∧ continues rid sid s s'
  | Err e => at_end rid g (Err e : result exn dict)
  end.

(** States that differ only in their version continue alike. *)
Lemma continues_version rid sid s s1 s' :
  _without_version s1 = _without_version s' → continues rid sid s s' → continues rid sid s s1.
Proof.
  intros Heq [H1 H2 H3 H4 H5].
  assert (step_results s1 = step_results s') as E by (change (step_results s1) with (step_results (_without_version s1)); by rewrite Heq).
  split.
  - change (run_id s1) with (run_id (_without_version s1)). by rewrite Heq.
  - change (status s1) with (status (_without_version s1)). by rewrite Heq.
  - change (definition s1) with (definition (_without_version s1)). by rewrite Heq.
  - change (replan_count s1) with (replan_count (_without_version s1)). by rewrite Heq.
  - unfold result_of in *. by rewrite E.
Qed.

(** Saving a commit of the current state. *)
Lemma wp_save (rid : string) g s s' actor ev sid :
  at_state g s → run_id s = rid → state_version s' = state_version s → commit s s' →
  wp (λ g' r, match r with
              | Ok s1 => at_state g' s1 ∧ _without_version s1 = _without_version s'
              | Err e => at_end rid g' (Err e : result exn dict)
              end) g (store_save actor ev sid s').
Proof.
  intros Hat Hid Hv Hc. eapply wp_store_save; [done..|]. intros a b. by eapply at_state_end.
Qed.

Lemma saved_run_id s s' s1 :
  commit s s' → _without_version s1 = _without_version s' → run_id s1 = run_id s.
Proof.
  intros Hc Heq. change (run_id s1) with (run_id (_without_version s1)). rewrite Heq.
  exact (commit_run_id _ _ Hc).
Qed.

(** Saving the state that ends the method. *)
Lemma wp_final_save (rid k : string) g s s0 s' actor ev sid (f : RunState → dict) :
  at_state g s → run_id s = rid → state_version s' = state_version s → commit s s' →
  wp (flow_post rid k s0) g
    (bindM (store_save actor ev sid s') (λ s1, ret (Return (f s1)))).
Proof.
  intros Hat Hid Hv Hc. apply wp_bindM. eapply wp_mono; [|by eapply wp_save].
  intros g' [s1|e]; [|done]. intros [Hat' Heq]. apply wp_ret. eapply at_state_end; [done| |done].
  rewrite <- Hid. by eapply saved_run_id.
Qed.

(** Saving the state the loop goes on with. *)
Lemma wp_continue_save (rid : string) g s s' actor ev sid :
  at_state g s → run_id s = rid → state_version s' = state_version s → commit s s' →
  continues rid sid s s' →
  wp (flow_post rid sid s) g
    (bindM (store_save actor ev (Some sid) s') (λ s1, ret (Continue s1))).
Proof.
  intros Hat Hid Hv Hc Hcont. apply wp_bindM. eapply wp_mono; [|by eapply wp_save].
  intros g' [s1|e]; [|done]. intros [Hat' Heq]. apply wp_ret. split; [done|]. by eapply continues_version.
Qed.

Lemma state_version_frame known step r s :
  state_version (apply_branch known step r (record_result step r s)) = state_version s.
Proof.
  rewrite record_result_eq. unfold apply_branch. destruct (bool_decide _); [|done].
  assert (∀ bt o t, state_version (skip_path bt o t) = state_version t) as Hskip.
  { intros bt [o|] t; cbn; [|done]. by destruct (_ || _). }
  unfold _skip_branch_not_taken. rewrite !Hskip.
  destruct (_resolve_condition_branch step r); [|done]. destruct (_ && _); [|done].
  unfold annotate_result. cbn. by rewrite assoc_dict_set_eq.
Qed.

Lemma branch_continues rid known step r s :
  run_id s = rid → status s = "running" → result_of s (step_id step) = None →
  continues rid (step_id step) s (apply_branch known step r (record_result step r s)).
Proof.
  intros Hid Hst Hnone. destruct (apply_branch_frame known step r s) as (_ & H1 & H2 & H3 & H4).
  split; try congruence. intros k Hk. rewrite record_result_eq in *.
  destruct (apply_branch_spec known step r s (recorded step r)) as (R & _ & _ & [_ He] & _).
  assert (is_Some (result_of (set_result (step_id step) R s) k)) as [r' Hr']; [|eauto].
  rewrite result_of_set_result. destruct (String.eqb_spec k (step_id step)); [eauto|].
  destruct Hk; [done|congruence].
Qed.

Lemma wp_settle rid g index step r s :
  at_state g s → run_id s = rid → runnable s step → allowed_result r →
  wp (flow_post rid (step_id step) s) g (settle index step r s).
Proof.
  intros Hat Hid Hrun Hall. unfold settle. fold (terminal_failure step r).
  destruct (terminal_failure step r) eqn:Ht.
  - eapply wp_final_save; [done..|by rewrite record_result_eq|by apply commit_failed].
  - set (known := λ t, bool_decide (is_Some (index !! t))).
    destruct (pause_of step r) as [st|] eqn:Hp.
    + eapply wp_final_save; [done..|apply state_version_frame|by apply commit_pause].
    + eapply wp_continue_save; [done..|apply state_version_frame|by apply commit_step|].
      destruct Hrun as [(Hst & _ & Hn%has_result_false) _]. by apply branch_continues.
Qed.

Lemma normalize_allowed step v r :
  _normalize_step_result step v = Ok r → allowed_result r.
Proof.
  assert ("failed" ∈ ALLOWED_STEP_STATUSES) as Hf by by apply (bool_decide_unpack _).
  assert (∀ t f o, allowed_result (failure_result (step_id step) t f o)) as Hfail.
  { intros t f o. exists "failed". done. }
  unfold _normalize_step_result. destruct v; try (intros [= <-]; apply Hfail).
  intros ([] & Hs & Hr)%bind_Ok; simplify_eq; [|apply Hfail].
  by apply status_in_true in Hs.
Qed.

Lemma normalize_proper step v e :
  _normalize_step_result step v = Err e → proper_end (Err e : result exn dict).
Proof.
  unfold _normalize_step_result. destruct v; try done. intros [Hs|([] & _ & Hr)]%bind_Err; [|done..].
  destruct (dget kvs "status"); cbn in Hs; by simplify_eq.
Qed.

Section execute.
Context (rid : string) (turns : nat) (restart : M dict).
Context (restart_wp : ∀ g n, knows rid n g → S MAX_REPLAN_ATTEMPTS ≤ n + turns →
  n ≤ MAX_REPLAN_ATTEMPTS → wp (at_end rid) g restart).

Lemma wp_step_raised g steps order step error s :
  at_state g s → run_id s = rid → runnable s step → steps = def_steps (definition s) →
  MAX_REPLAN_ATTEMPTS ≤ replan_count s + turns →
  wp (flow_post rid (step_id step) s) g (step_raised restart steps order (step_id step) error s).
Proof.
  intros Hat Hid Hrun -> Hturns. unfold step_raised.
  assert (wp (flow_post rid (step_id step) s) g
    (bindM (save "step_failed" (Some (step_id step))
       (set_status "failed" (set_result (step_id step) (failed_result error) s)))
       (λ s1, ret (Return (status_response "failed" s1))))) as Hfail.
  { eapply wp_final_save; [done..|by apply commit_raised]. }
  apply wp_bindM. destruct (replan_on_failure (definition s) && _) eqn:Hre; [|by apply wp_ret].
  apply andb_true_iff in Hre as [Hon Hlt%Nat.ltb_lt]. unfold _attempt_replan.
  apply wp_neutral; [apply neutral_ReplanModel|]. intros proposed.
  destruct (replan_workflow (step_results s) proposed) as [new_steps|] eqn:Hp; [|by apply wp_ret].
  apply wp_neutral; [apply neutral_Now|]. intros now. apply wp_bindM.
  eapply wp_store_save; [done|by eapply commit_replan|done|..].
  - intros g' s1 Hat' Heq. cbn. apply wp_bindM.
    assert (run_id s1 = rid) as Hid1.
    { change (run_id s1) with (run_id (_without_version s1)). by rewrite Heq. }
    assert (replan_count s1 = S (replan_count s)) as Hrc.
    { change (replan_count s1) with (replan_count (_without_version s1)). by rewrite Heq. }
    apply at_state_knows in Hat'. rewrite Hid1 in Hat'.
    eapply wp_mono; [|eapply restart_wp; [exact Hat'|lia|lia]].
    intros g2 [d|e] Hend; [by apply wp_ret|done].
  - intros a b. by eapply at_state_end.
Qed.

Lemma wp_run_step g steps order index step s :
  at_state g s → run_id s = rid → runnable s step → steps = def_steps (definition s) →
  MAX_REPLAN_ATTEMPTS ≤ replan_count s + turns →
  wp (flow_post rid (step_id step) s) g (run_step restart steps order index step s).
Proof.
  intros Hat Hid Hrun Hsteps Hturns. unfold run_step. apply wp_bindM, wp_lift, wp_execute_with_retry.
  intros [v|error]; [|by apply wp_step_raised].
  destruct (_normalize_step_result step v) as [r|e] eqn:Hn; cbn -[settle].
  - apply wp_settle; try done. by eapply normalize_allowed.
  - eapply at_state_end; [done..|]. by eapply normalize_proper.
Qed.

Lemma wp_stop_status Φ g s ran :
  at_state g s → run_id s = rid → (∀ o, Φ g (Ok o)) → wp Φ g (stop_status rid ran).
Proof.
  intros Hat <- HΦ. destruct ran; cbn -[store_load]; [|apply HΦ].
  apply wp_bindM, wp_bindM. eapply wp_store_load_keep; [done|]. intros o. apply wp_ret, wp_ret, HΦ.
Qed.

Lemma wp_timed_out Φ g s :
  Φ g (Ok false) → (is_Some (timeout_hours (definition s)) → Φ g (Ok true)) → wp Φ g (timed_out s).
Proof.
  intros Hf Ht. unfold timed_out. destruct (timeout_hours (definition s)) as [h|]; [|by apply wp_ret].
  apply wp_neutral; [apply neutral_Now|]. intros now. apply wp_ret. destruct (_check_timeout now s h); eauto.
Qed.

Lemma wp_operator_halt Φ g s : (∀ o, Φ g (Ok o)) → wp Φ g (_operator_halt s).
Proof.
  intros HΦ. unfold _operator_halt. apply wp_neutral; [apply neutral_CheckOverride|]. intros v. apply wp_ret, HΦ.
Qed.

Lemma skip_continues step reason s :
  run_id s = rid → status s = "running" →
  continues rid (step_id step) s (set_result (step_id step) (skipped_result reason) s).
Proof.
  intros Hid Hst. split; try done. intros k Hk. rewrite result_of_set_result.
  destruct (String.eqb_spec k (step_id step)); [eauto|]. by destruct Hk.
Qed.

Definition turn_post (sid : string) (s : RunState) (g : ghost) (r : result exn (bool * flow)) : Prop :=
  flow_post rid sid s g (match r with Ok (_, f) => Ok f | Err e => Err e end).

Lemma flow_turn g sid s (m : M flow) b :
  wp (flow_post rid sid s) g m → wp (turn_post sid s) g (bindM m (λ f, ret (b, f))).
Proof.
  intros Hm. apply wp_bindM. eapply wp_mono; [|exact Hm]. by intros g' [f|e].
Qed.

Lemma wp_turn g steps order sid ran s :
  at_state g s → run_id s = rid → status s = "running" → steps = def_steps (definition s) →
  sid ∈ step_id <$> steps → has_result sid s = false →
  MAX_REPLAN_ATTEMPTS ≤ replan_count s + turns →
  wp (turn_post sid s) g (turn restart rid steps order (_build_step_index steps) sid ran s).
Proof.
  intros Hat Hid Hst -> Hin Hnone Hturns. unfold turn. apply wp_bindM.
  eapply wp_stop_status; [done..|]. intros [live|]; [apply wp_ret; by eapply at_state_end|].
  apply wp_bindM, wp_operator_halt. intros [r|]; [apply wp_ret; by eapply at_state_end|].
  apply wp_bindM, wp_timed_out.
  - destruct (build_step_index_Some (def_steps (definition s)) sid Hin) as [step Hstep]. rewrite Hstep.
    destruct (build_step_index_elem _ _ _ Hstep) as [_ Hsid].
    assert (ready s step) as Hready.
    { split; [done|]. unfold indexed. rewrite Hsid. done. }
    destruct (_check_dependencies step s) as [reason|] eqn:Hdep.
    + unfold skip_step. rewrite <- Hsid. apply wp_bindM. eapply wp_mono; [|eapply wp_save; [done..|by apply commit_skip]].
      intros g' [s1|e]; [|done]. intros [Hat' Heq]. apply wp_ret. split; [done|].
      eapply continues_version; [done|]. by apply skip_continues.
    + rewrite <- Hsid. apply flow_turn. by apply wp_run_step.
  - intros Hto. apply wp_bindM. eapply wp_mono; [|eapply wp_save; [done..|by apply commit_timeout]].
    intros g' [s1|e]; [|done]. intros [Hat' Heq]. apply wp_ret. eapply at_state_end; [done| |done].
    change (run_id s1) with (run_id (_without_version s1)). by rewrite Heq.
Qed.

Lemma wp_complete_run g s order :
  at_state g s → run_id s = rid → status s = "running" →
  _topological_sort (def_steps (definition s)) = Ok order →
  (∀ sid, sid ∈ order → is_Some (result_of s sid)) →
  wp (at_end rid) g (complete_run s).
Proof.
  intros Hat Hid Hst Hsort Hall. unfold complete_run. apply wp_neutral; [apply neutral_Now|]. intros now.
  apply wp_bindM. eapply wp_mono; [|eapply (wp_save rid g s); [done..|]].
  - intros g' [s1|e]; [|done]. intros [Hat' Heq]. apply wp_ret. eapply at_state_end; [done| |done].
    change (run_id s1) with (run_id (_without_version s1)). by rewrite Heq.
  - eapply commit_complete; [done..|]. apply Forall_forall. intros sid Hin. apply has_result_spec. auto.
Qed.

Lemma wp_run_order g steps order pre todo ran s :
  at_state g s → run_id s = rid → status s = "running" → steps = def_steps (definition s) →
  _topological_sort steps = Ok order → order = pre ++ todo →
  (∀ sid, sid ∈ pre → is_Some (result_of s sid)) →
  MAX_REPLAN_ATTEMPTS ≤ replan_count s + turns →
  wp (at_end rid) g (run_order restart rid steps order (_build_step_index steps) todo ran s).
Proof.
  revert g pre ran s. induction todo as [|sid todo IH]; intros g pre ran s Hat Hid Hst Hsteps Hsort Hord Hpre Hturns.
  { rewrite app_nil_r in Hord. subst pre. rewrite Hsteps in Hsort. by eapply wp_complete_run. }
  cbn [run_order].
  assert (order = (pre ++ [sid]) ++ todo) as Hord' by (by rewrite <- app_assoc).
  destruct (has_result sid s) eqn:Hres.
  - eapply IH; try done. intros k [?|Hk]%elem_of_app; [auto|].
    apply list_elem_of_singleton in Hk as ->. by apply has_result_spec.
  - apply wp_bindM. eapply wp_mono; [|apply wp_turn; try done].
    + intros g' [[b [d|s1]]|e]; [by apply wp_ret| |done]. intros [Hat' [H1 H2 H3 H4 H5]].
      eapply IH; try done; [congruence| |lia].
      intros k [?|Hk]%elem_of_app; [auto|]. apply list_elem_of_singleton in Hk as ->. auto.
    + eapply topological_sort_elem; [done|]. rewrite Hord. apply elem_of_app. right. left.
Qed.

Lemma wp_execute_unguarded g n :
  knows rid n g → MAX_REPLAN_ATTEMPTS ≤ n + turns →
  wp (at_end rid) g (_execute_unguarded restart rid).
Proof.
  intros Hk Hturns. unfold _execute_unguarded. apply wp_bindM. eapply wp_store_load; [done|].
  intros g' s Hat Hid Hn. destruct (String.eqb_spec (status s) "running") as [Hst|];
    [|apply wp_ret; by eapply at_state_end].
  unfold sort_steps. destruct (_topological_sort _) as [order|e] eqn:Hsort.
  - apply wp_bindM, wp_ret. eapply (wp_run_order _ _ _ []); try done; [|lia].
    intros sid Hin. by apply elem_of_nil in Hin.
  - apply wp_bindM. eapply at_state_end; done.
Qed.
End execute.

Lemma wp_stale_state_result rid g : knows rid 0 g → wp (at_end rid) g (_stale_state_result rid).
Proof.
  intros Hk. unfold _stale_state_result. apply wp_bindM. eapply wp_store_load; [done|].
  intros g' s Hat Hid _. apply wp_ret. by eapply at_state_end.
Qed.

Lemma wp_catch_stale rid g m : wp (at_end rid) g m → wp (at_end rid) g (catch_stale rid m).
Proof.
  intros Hm. apply wp_bind. eapply wp_mono; [|exact Hm]. intros g' [d|[]] [Hk Hp]; try done.
  by apply wp_stale_state_result.
Qed.

Lemma wp_execute_turns rid turns g n :
  knows rid n g → S MAX_REPLAN_ATTEMPTS ≤ n + turns → n ≤ MAX_REPLAN_ATTEMPTS →
  wp (at_end rid) g (execute_turns turns rid).
Proof.
  revert g n. induction turns as [|turns IH]; intros g n Hk Hturns Hn; [lia|]. cbn [execute_turns].
  apply wp_catch_stale. eapply (wp_execute_unguarded rid turns); [|done|lia]. intros. by eapply IH.
Qed.

Lemma wp_execute rid g : knows rid 0 g → wp (at_end rid) g (execute rid).
Proof. intros Hk. by eapply wp_execute_turns; [exact Hk|unfold MAX_REPLAN_ATTEMPTS; lia..]. Qed.

Lemma knows_weaken rid n g : knows rid n g → knows rid 0 g.
Proof. intros [[-> _]|(v & s & -> & Hs & _)]; [by left|]. right. exists v, s. split; [done|]. split; [done|lia]. Qed.


(** Saving a commit and returning. *)
Lemma wp_save_ret {A} (rid : string) g s s' actor ev sid (f : RunState → A) :
  at_state g s → run_id s = rid → state_version s' = state_version s → commit s s' →
  wp (at_end rid) g (bindM (store_save actor ev sid s') (λ s1, ret (f s1))).
Proof.
  intros Hat Hid Hv Hc. apply wp_bindM. eapply wp_mono; [|by eapply wp_save].
  intros g' [s1|e]; [|by intros [? [? ?]]; split; [|split; congruence]].
  intros [Hat' Heq]. apply wp_ret. eapply at_state_end; [done| |done].
  rewrite <- Hid. by eapply saved_run_id.
Qed.

(** Saving a commit and running on. *)
Lemma wp_save_execute (rid : string) g s s' actor ev sid :
  at_state g s → run_id s = rid → state_version s' = state_version s → commit s s' →
  wp (at_end rid) g (bindM (store_save actor ev sid s') (λ _, execute rid)).
Proof.
  intros Hat Hid Hv Hc. apply wp_bindM. eapply wp_mono; [|by eapply wp_save].
  intros g' [s1|e]; [|done]. intros [Hat' Heq]. apply wp_execute. eapply knows_weaken.
  rewrite <- Hid, <- (saved_run_id _ _ _ Hc Heq). by apply at_state_knows.
Qed.

Lemma wp_settle_next rid g step r s :
  at_state g s → run_id s = rid → runnable s step → allowed_result r →
  wp (at_end rid) g (settle_next step r s).
Proof.
  intros Hat Hid Hrun Hall. unfold settle_next. fold (terminal_failure step r).
  destruct (terminal_failure step r) eqn:Ht.
  - eapply wp_save_ret; [done..|by rewrite record_result_eq|by apply commit_failed].
  - destruct (pause_of step r) as [st|] eqn:Hp.
    + eapply wp_save_ret; [done..|apply state_version_frame|by apply commit_pause].
    + eapply wp_save_ret; [done..|apply state_version_frame|by apply commit_step].
Qed.

Lemma wp_run_step_next rid g step s :
  at_state g s → run_id s = rid → runnable s step → wp (at_end rid) g (run_step_next step s).
Proof.
  intros Hat Hid Hrun. unfold run_step_next. apply wp_bindM, wp_lift, wp_execute_with_retry.
  intros [v|error].
  - destruct (_normalize_step_result step v) as [r|e] eqn:Hn; cbn -[settle_next].
    + apply wp_settle_next; try done. by eapply normalize_allowed.
    + eapply at_state_end; [done..|]. by eapply normalize_proper.
  - eapply wp_save_ret; [done..|by apply commit_raised].
Qed.

Lemma wp_next_order rid g steps order pre todo s :
  at_state g s → run_id s = rid → status s = "running" → steps = def_steps (definition s) →
  _topological_sort steps = Ok order → order = pre ++ todo →
  (∀ sid, sid ∈ pre → is_Some (result_of s sid)) →
  wp (at_end rid) g (next_order (_build_step_index steps) todo s).
Proof.
  revert g pre s. induction todo as [|sid todo IH]; intros g pre s Hat Hid Hst Hsteps Hsort Hord Hpre.
  { rewrite app_nil_r in Hord. subst pre. rewrite Hsteps in Hsort. by eapply wp_complete_run. }
  cbn [next_order].
  assert (order = (pre ++ [sid]) ++ todo) as Hord' by (by rewrite <- app_assoc).
  destruct (has_result sid s) eqn:Hres.
  { eapply IH; try done. intros k [?|Hk]%elem_of_app; [auto|].
    apply list_elem_of_singleton in Hk as ->. by apply has_result_spec. }
  apply wp_bindM, wp_timed_out; [|intros; eapply wp_save_ret; [done..|by apply commit_timeout]].
  destruct (build_step_index_Some steps sid) as [step Hstep].
  { eapply topological_sort_elem; [done|]. rewrite Hord. apply elem_of_app. right. left. }
  rewrite Hstep. destruct (build_step_index_elem _ _ _ Hstep) as [_ Hsid].
  assert (ready s step) as Hready.
  { split; [done|]. unfold indexed. rewrite Hsid, <- Hsteps. done. }
  destruct (_check_dependencies step s) as [reason|] eqn:Hdep.
  - rewrite <- Hsid. unfold skip_step. apply wp_bindM.
    eapply wp_mono; [|eapply wp_save; [done..|by apply commit_skip]].
    intros g' [s1|e]; [|done]. intros [Hat' Heq].
    pose proof (continues_version rid (step_id step) s s1 _ Heq (skip_continues rid step reason s Hid Hst))
      as [H1 H2 H3 H4 H5].
    eapply IH; try done; [congruence|]. intros k [?|Hk]%elem_of_app; [auto|].
    apply list_elem_of_singleton in Hk as ->. auto.
  - apply wp_bindM, wp_operator_halt. intros [r|]; [apply wp_ret; by eapply at_state_end|].
    by apply wp_run_step_next.
Qed.

Lemma wp_execute_next rid g : knows rid 0 g → wp (at_end rid) g (execute_next rid).
Proof.
  intros Hk. apply wp_catch_stale. unfold _execute_next_unguarded. apply wp_bindM.
  eapply wp_store_load; [done|]. intros g' s Hat Hid _.
  destruct (String.eqb_spec (status s) "running") as [Hst|]; [|apply wp_ret; by eapply at_state_end].
  unfold sort_steps. destruct (_topological_sort _) as [order|e] eqn:Hsort.
  - apply wp_bindM, wp_ret. eapply (wp_next_order _ _ _ _ []); try done.
    intros sid Hin. by apply elem_of_nil in Hin.
  - apply wp_bindM. eapply at_state_end; done.
Qed.

(** ** Resuming and cancelling *)

Lemma wp_resume_from_hitl rid g decision :
  knows rid 0 g → wp (at_end rid) g (resume_from_hitl rid decision).
Proof.
  intros Hk. unfold resume_from_hitl. apply wp_bindM. eapply wp_store_load; [done|]. intros g' s Hat Hid _.
  destruct (String.eqb_spec (status s) "waiting_hitl") as [Hst|]; cbn [negb];
    [|apply wp_ret; by eapply at_state_end].
  destruct (waiting_step_id s) as [sid|] eqn:Hw; [|apply wp_ret; by eapply at_state_end].
  destruct (negb _); [apply wp_ret; by eapply at_state_end|].
  destruct (_is_rejection decision) eqn:Hrej.
  - apply wp_neutral; [apply neutral_Now|]. intros now. eapply wp_save_ret; [done..|by apply commit_reject].
  - eapply wp_save_execute; [done..|by apply commit_approve].
Qed.

Lemma wp_resume_from_wait rid g r : knows rid 0 g → wp (at_end rid) g (resume_from_wait rid r).
Proof.
  intros Hk. unfold resume_from_wait. apply wp_bindM. eapply wp_store_load; [done|]. intros g' s Hat Hid _.
  case_bool_decide as Hst; cbn [negb]; [|apply wp_ret; by eapply at_state_end].
  destruct (waiting_step_id s) as [sid|] eqn:Hw; [|apply wp_ret; by eapply at_state_end].
  destruct (negb _); [apply wp_ret; by eapply at_state_end|].
  eapply wp_save_execute; [done..|by apply commit_resume].
Qed.

Lemma wp_timeout_event_wait rid g sid : knows rid 0 g → wp (at_end rid) g (timeout_event_wait rid sid).
Proof.
  intros Hk. unfold timeout_event_wait. apply wp_bindM. eapply wp_store_load; [done|]. intros g' s Hat Hid _.
  destruct (String.eqb_spec (status s) "waiting_event") as [Hst|]; cbn [negb andb];
    [|apply wp_ret; by eapply at_state_end].
  case_bool_decide as Hw; cbn [negb]; [|apply wp_ret; by eapply at_state_end].
  eapply wp_save_execute; [done..|by apply commit_event_timeout].
Qed.

Lemma wp_cancel rid g : knows rid 0 g → wp (at_end rid) g (cancel rid).
Proof.
  intros Hk. unfold cancel. apply wp_bindM. eapply wp_store_load; [done|]. intros g' s Hat Hid _.
  apply wp_neutral; [apply neutral_Now|]. intros now. eapply wp_save_ret; [done..|apply commit_cancel].
Qed.

Lemma wp_start_run defn timeout replan payload tenant wf_run wf grant :
  wp (λ _, proper_end) GNone (start_run defn timeout replan payload tenant wf_run wf grant).
Proof.
  unfold start_run. apply wp_bindM, wp_lift. cbn -[parse store_save]. split; [done|]. intros rid.
  destruct (parse defn) as [steps|] eqn:Hp; [|done].
  apply parse_spec in Hp as (_ & Hnd & _ & Hac).
  apply wp_neutral; [apply neutral_Now|]. intros now. apply wp_bindM, wp_bindM. cbn.
  split; [done|]. split; [by repeat split|]. done.
Qed.

Lemma run_call_known c :
  wp (λ _, proper_end) match call_target c with Some rid => GKnown rid | None => GNone end (run_call c).
Proof.
  assert (∀ rid (m : M dict), wp (at_end rid) (GKnown rid) m → wp (λ _, proper_end) (GKnown rid) m) as Hend.
  { intros rid m. apply wp_mono. by intros g' r [_ Hp]. }
  assert (∀ rid, knows rid 0 (GKnown rid)) as Hk by (by left).
  destruct c; cbn [call_target run_call].
  - apply wp_bindM. eapply wp_mono; [|apply wp_start_run]. intros g' [rid|e] Hp; [done|].
    destruct Hp. by split; congruence.
  - by apply Hend, wp_execute.
  - by apply Hend, wp_execute_next.
  - by apply Hend, wp_resume_from_hitl.
  - by apply Hend, wp_resume_from_wait.
  - by apply Hend, wp_resume_from_wait.
  - by apply Hend, wp_timeout_event_wait.
  - apply wp_bindM. eapply wp_mono; [|by apply wp_cancel]. intros g' [u|e] [_ Hp]; [done|].
    destruct Hp. by split; congruence.
Qed.

(** An operation on a run that does not exist reports it and touches nothing. *)
Lemma run_call_missing c rid : call_target c = Some rid → wp (λ _, proper_end) (GMissing rid) (run_call c).
Proof. destruct c; intros [= ->]; by repeat split. Qed.

Definition start_ghost (w : world) (c : call) : ghost :=
  match call_target c with
  | Some rid => match rows w !! rid with Some _ => GKnown rid | None => GMissing rid end
  | None => GNone
  end.

Lemma run_call_wp w c : wp (λ _, proper_end) (start_ghost w c) (run_call c).
Proof.
  unfold start_ghost. pose proof (run_call_known c) as Hk. destruct (call_target c) as [rid|] eqn:E; [|done].
  destruct (rows w !! rid); [done|by apply run_call_missing].
Qed.

(** ** The pool *)

Definition thread_ok (w : world) (g : ghost) (p : prog (result exn dict)) : Prop :=
  valid w g ∧ wp (λ _, proper_end) g p.

Record system_ok (c : config) : Prop := {
  system_world : world_ok (store c);
  system_threads : ∃ gs, Forall2 (thread_ok (store c)) gs (pool c) ∧
    ∀ i j rid, gs !! i = Some (GFresh rid) → gs !! j = Some (GFresh rid) → i = j;
}.

Lemma name_run_evolves t w : evolves w (name_run t w).
Proof. apply evolves_same; [done|done| |done]. destruct t; cbn; [clear; set_solver|done]. Qed.

Lemma name_run_ok t w : world_ok w → world_ok (name_run t w).
Proof. done. Qed.

Lemma spawn_ok w ps c :
  (∀ rid, call_target c = Some rid → rid ∈ issued w → is_Some (rows w !! rid)) →
  system_ok {| store := w; pool := ps |} → system_ok {| store := name_run (call_target c) w; pool := ps ++ [run_call c] |}.
Proof.
  intros Hc [Hw (gs & Hgs & Huniq)]. split; [by apply name_run_ok|]. exists (gs ++ [start_ghost w c]). split.
  - apply Forall2_app; [|].
    { eapply Forall2_impl; [exact Hgs|]. intros g p [Hv Hp]. split; [|done]. eapply valid_evolves; [apply name_run_evolves|done|done]. }
    constructor; [|constructor]. split; [|apply run_call_wp].
    unfold start_ghost. destruct (call_target c) as [rid|] eqn:E; [|done].
    destruct (rows w !! rid) as [r|] eqn:Er; cbn; [by rewrite Er|]. split; [clear; set_solver|]. intros Hi. destruct (Hc rid eq_refl Hi) as [? ?]. congruence.
  - assert (∀ i rid, (gs ++ [start_ghost w c]) !! i = Some (GFresh rid) → gs !! i = Some (GFresh rid)) as Hin.
    { intros i rid Hi. apply lookup_app_Some in Hi as [?|[_ Hi]]; [done|].
      apply list_lookup_singleton_Some in Hi as [_ E]. unfold start_ghost in E. destruct (call_target c) as [t|]; [by destruct (rows w !! t)|done]. }
    intros i j rid Hi%Hin Hj%Hin. eauto.
Qed.

(** A step of one thread keeps every thread's knowledge. *)
Lemma event_ok_threads {X} w w' gs ps i (e : event X) k x g :
  system_ok {| store := w; pool := ps |} → Forall2 (thread_ok w) gs ps →
  (∀ i j rid, gs !! i = Some (GFresh rid) → gs !! j = Some (GFresh rid) → i = j) →
  ps !! i = Some (Vis e k) → gs !! i = Some g → answers e w w' x →
  ∃ g', event_ok w w' g x (λ g' x, wp (λ _, proper_end) g' (k x)) g'.
Proof.
  intros [Hw _] Hgs Huniq Hp Hg Ha.
  destruct (Forall2_lookup_lr _ _ _ _ _ _ Hgs Hg Hp) as [Hv Hwp].
  by eapply (wp_event_sound e w w' g x).
Qed.

Lemma event_system_ok {X} w w' ps i (e : event X) k x :
  ps !! i = Some (Vis e k) → answers e w w' x →
  system_ok {| store := w; pool := ps |} →
  system_ok {| store := w'; pool := <[i := k x]> ps |} ∧ evolves w w'.
Proof.
  intros Hp Ha Hsys. destruct (system_threads _ Hsys) as (gs & Hgs & Huniq). cbn in Hgs.
  destruct (Forall2_lookup_r _ _ _ _ _ Hgs Hp) as (g & Hg & _).
  destruct (event_ok_threads _ _ _ _ _ _ _ _ _ Hsys Hgs Huniq Hp Hg Ha) as (g' & [HK Hv' Hw' Hev Hfr Hcr]).
  split; [|done]. split; [done|]. exists (<[i := g']> gs). cbn. split.
  - apply Forall2_same_length_lookup_2.
    { rewrite !length_insert. by eapply Forall2_length. }
    intros j gj pj Hgj Hpj. destruct (decide (i = j)) as [<-|Hne].
    + rewrite list_lookup_insert_eq in Hgj by by eapply lookup_lt_Some.
      rewrite list_lookup_insert_eq in Hpj by by eapply lookup_lt_Some. by simplify_eq.
    + rewrite list_lookup_insert_ne in Hgj by done. rewrite list_lookup_insert_ne in Hpj by done.
      destruct (Forall2_lookup_lr _ _ _ _ _ _ Hgs Hgj Hpj) as [Hvj Hwpj]. split; [|done].
      eapply valid_evolves; [done..|]. intros rid ->. destruct Hvj as [_ Hnone]. rewrite Hnone.
      destruct (rows w' !! rid) eqn:E; [|done]. exfalso. apply Hne.
      apply (Huniq i j rid); [|done]. rewrite Hg. f_equal. by apply Hcr; rewrite ?E.
  - assert (∀ j rid, <[i := g']> gs !! j = Some (GFresh rid) →
      gs !! j = Some (GFresh rid) ∨ (i = j ∧ rid ∉ issued w)) as Hin.
    { intros j rid Hj. destruct (decide (i = j)) as [<-|Hne].
      - rewrite list_lookup_insert_eq in Hj by by eapply lookup_lt_Some. simplify_eq.
        destruct (Hfr rid eq_refl) as [-> | ?]; auto.
      - rewrite list_lookup_insert_ne in Hj by done. by left. }
    assert (∀ j rid, gs !! j = Some (GFresh rid) → rid ∈ issued w) as Hiss.
    { intros j rid Hj. destruct (Forall2_lookup_l _ _ _ _ _ Hgs Hj) as (p & _ & [[? _] _]). done. }
    intros j1 j2 rid H1 H2.
    apply Hin in H1 as [H1|[<- H1]], H2 as [H2|[<- H2]]; [by eapply Huniq|..|done]; exfalso; eauto.
Qed.

Lemma sys_step_ok c c' : sys_step c c' → system_ok c → system_ok c' ∧ evolves (store c) (store c').
Proof.
  intros Hs Hok. destruct Hs as [w ps c Hc|w w' ps i X e k x Hp Ha].
  - split; [by apply spawn_ok|]. apply name_run_evolves.
  - by eapply event_system_ok.
Qed.

Lemma system_start_ok c : system_start c → system_ok c.
Proof.
  intros (Hr & Hc & Hp). split.
  - split; [intros rid r; by rewrite Hr, lookup_empty|]. intros rid. rewrite Hc, lookup_empty. by intros [? ?].
  - exists []. rewrite Hp. split; [constructor|]. intros i j rid Hi. by rewrite lookup_nil in Hi.
Qed.

Lemma reachable_ok c : reachable c → system_ok c.
Proof.
  intros (c0 & Hs & Hc). apply system_start_ok in Hs. induction Hc as [|c1 c2 c3 H1 _ IH]; [done|].
  apply IH. by apply sys_step_ok in H1 as [? _].
Qed.

(** * Sequential executions

    An executable scheduler that runs operations one after the other against a
    given environment. *)

Record environment := {
  env_run_id : string;
  env_now : Z;
  env_override : override_verdict;
  env_step : Step → result string pyval;
  env_replan : result string (list RawStep);
}.

(** [None] when the environment hands out a used run id. *)
Definition answer_event {X} (env : environment) (e : event X) (w : world) : option (world * X) :=
  match e in event X return option (world * X) with
  | RepoLoad rid => Some (w, repo_load w rid)
  | RepoSave s expected actor ev sid => Some (repo_save w s expected actor ev sid None)
  | RedisGet rid => Some (w, redis w !! rid)
  | RedisSet s => Some ({| rows := rows w; transitions := transitions w;
                           redis := <[run_id s := s]> (redis w); issued := issued w; named := named w |}, tt)
  | NewRunId => if bool_decide (env_run_id env ∈ issued w) || bool_decide (env_run_id env ∈ named w) then None
                else Some ({| rows := rows w; transitions := transitions w; redis := redis w;
                              issued := {[env_run_id env]} ∪ issued w; named := named w |}, env_run_id env)
  | Now => Some (w, env_now env)
  | CheckOverride _ _ => Some (w, env_override env)
  | ExecuteStep step _ _ => Some (w, env_step env step)
  | Sleep _ => Some (w, tt)
  | ReplanModel _ _ _ _ => Some (w, env_replan env)
  end.

Fixpoint drive {A} (env : environment) (p : prog A) (w : world) : option (world * A) :=
  match p with
  | Ret a => Some (w, a)
  | Vis e k => match answer_event env e w with
               | Some (w', x) => drive env (k x) w'
               | None => None
               end
  end.

Fixpoint run_calls (todo : list (environment * call)) (w : world) (rs : list (result exn dict)) :
    option (world * list (result exn dict)) :=
  match todo with
  | [] => Some (w, rs)
  | (env, c) :: todo' =>
      if match call_target c with Some rid => bool_decide (is_Some (rows w !! rid)) | None => true end
      then match drive env (run_call c) (name_run (call_target c) w) with
           | Some (w', r) => run_calls todo' w' (rs ++ [r])
           | None => None
           end
      else None
  end.

Lemma answer_event_sound {X} env (e : event X) w w' x :
  answer_event env e w = Some (w', x) → answers e w w' x.
Proof.
  destruct e; cbn; try (intros [= <- <-]; by auto).
  - intros [= Heq]. by rewrite Heq.
  - case_bool_decide; [done|]. case_bool_decide; [done|]. by intros [= <- <-].
Qed.

Lemma drive_sound env p w w' r ps i :
  drive env p w = Some (w', r) → ps !! i = Some p →
  rtc sys_step {| store := w; pool := ps |} {| store := w'; pool := <[i := Ret r]> ps |}.
Proof.
  revert w ps. induction p as [a|X e k IH]; intros w ps Hd Hi; cbn in Hd.
  { simplify_eq. by rewrite list_insert_id. }
  destruct (answer_event env e w) as [[w1 x]|] eqn:Ha; [|done].
  eapply rtc_l; [eapply sys_event; [done|by eapply answer_event_sound]|].
  assert (<[i := k x]> ps !! i = Some (k x)) as Hi' by (apply list_lookup_insert_eq; by eapply lookup_lt_Some).
  pose proof (IH x w1 (<[i := k x]> ps) Hd Hi') as Hr. by rewrite list_insert_insert_eq in Hr.
Qed.

Lemma run_calls_sound todo w w' rs rs' :
  run_calls todo w rs = Some (w', rs') →
  rtc sys_step {| store := w; pool := Ret <$> rs |} {| store := w'; pool := Ret <$> rs' |}.
Proof.
  revert w rs. induction todo as [|[env c] todo IH]; intros w rs; cbn; [by intros [= <- <-]|].
  destruct (match call_target c with Some rid => bool_decide _ | None => true end) eqn:Hc; [|done].
  destruct (drive env (run_call c) (name_run (call_target c) w)) as [[w1 r]|] eqn:Hd; [|done]. intros Hrun.
  eapply rtc_l; [apply (sys_spawn w _ c)|].
  { intros rid Hrid _. rewrite Hrid in Hc. by apply bool_decide_eq_true in Hc. }
  etrans; [eapply (drive_sound env _ _ w1 r _ (length (Ret <$> rs))); [done|]|].
  { rewrite lookup_app_r by done. by rewrite Nat.sub_diag. }
  rewrite insert_app_r_alt by done. rewrite Nat.sub_diag. cbn.
  change [Ret r] with (Ret <$> [r] : list (prog (result exn dict))). rewrite <- fmap_app. by apply IH.
Qed.

Lemma run_calls_app t1 t2 w rs :
  run_calls (t1 ++ t2) w rs =
  match run_calls t1 w rs with Some (w1, rs1) => run_calls t2 w1 rs1 | None => None end.
Proof.
  revert w rs. induction t1 as [|[env c] t1 IH]; intros w rs; cbn; [done|].
  destruct (match call_target c with Some rid => bool_decide _ | None => true end); [|done].
  destruct (drive env (run_call c) _) as [[w1 r]|]; [apply IH|done].
Qed.

Lemma spawn_step c op :
  (∀ rid, call_target op = Some rid → rid ∈ issued (store c) → is_Some (rows (store c) !! rid)) →
  sys_step c {| store := name_run (call_target op) (store c); pool := pool c ++ [run_call op] |}.
Proof. destruct c. apply sys_spawn. Qed.

(** A schedule: each entry lets the operation of that index perform its next event. *)
Fixpoint interleave (env : environment) (schedule : list nat) (c : config) : option config :=
  match schedule with
  | [] => Some c
  | i :: schedule =>
      match pool c !! i with
      | Some (Vis e k) =>
          match answer_event env e (store c) with
          | Some (w', x) => interleave env schedule {| store := w'; pool := <[i := k x]> (pool c) |}
          | None => None
          end
      | _ => None
      end
  end.

Lemma interleave_sound env schedule c c' : interleave env schedule c = Some c' → rtc sys_step c c'.
Proof.
  revert c. induction schedule as [|i schedule IH]; intros c; cbn; [by intros [= ->]|].
  destruct (pool c !! i) as [[|X e k]|] eqn:Hi; [done| |done].
  destruct (answer_event env e (store c)) as [[w x]|] eqn:Ha; [|done]. intros H1.
  eapply rtc_l; [|by eapply IH]. destruct c. eapply sys_event; [done|by eapply answer_event_sound].
Qed.

Definition empty_world : world := {| rows := ∅; transitions := []; redis := ∅; issued := ∅; named := ∅ |}.

Lemma run_calls_reachable todo w rs :
  run_calls todo empty_world [] = Some (w, rs) → reachable {| store := w; pool := Ret <$> rs |}.
Proof. intros Hr%run_calls_sound. eexists. split; [|exact Hr]. done. Qed.

(** * What holds in every reachable configuration *)

(** C1. Refinement: from an empty store and cache, whatever operations run concurrently on
    whatever run ids, every step of the system leaves each run's row as it is, creates it in
    an initial state, or replaces its state by one the run machine allows, one version later. *)
Theorem engine_refines_machine c c' :
  reachable c → sys_step c c' → ∀ rid, row_evolves (rows (store c) !! rid) (rows (store c') !! rid).
Proof.
  intros Hc Hs. apply reachable_ok in Hc. apply sys_step_ok in Hs as [_ [_ He]]; [|done]. done.
Qed.

Lemma stored_run_ok c rid r : reachable c → rows (store c) !! rid = Some r → run_ok (row_state r).
Proof. intros Hc%reachable_ok Hr. apply reachable_run_ok. by apply (proj1 (system_world _ Hc) rid r). Qed.

(** Dependencies: in every stored run, a step that was executed (its result is
    neither skipped nor replaced by a replan) has each dependency completed, or
    executed as a step whose fallback it is. *)
Theorem executed_steps_have_dependencies c rid r step res d :
  reachable c → rows (store c) !! rid = Some r →
  step ∈ def_steps (definition (row_state r)) → step_id step ≠ EmptyString →
  result_of (row_state r) (step_id step) = Some res → ran_result res → d ∈ depends_on step →
  completed_dep (row_state r) d ∨ source_of (row_state r) d (step_id step).
Proof.
  intros Hc Hr Hin Hne Hres Hran Hd. pose proof (ok_Inv _ (stored_run_ok _ _ _ Hc Hr)) as HI.
  by destruct (Inv_deps _ HI step res (conj Hin Hne) Hres Hran d Hd) as [[_ ?]|?]; [left|right].
Qed.

(** No silent failure: in a stored run that has neither failed nor been
    cancelled, no step is rejected and every failed step was declared to allow
    failure. *)
Theorem failures_stop_the_run c rid r step res :
  reachable c → rows (store c) !! rid = Some r →
  status (row_state r) ≠ "failed" → status (row_state r) ≠ "cancelled" →
  step ∈ def_steps (definition (row_state r)) → step_id step ≠ EmptyString →
  result_of (row_state r) (step_id step) = Some res →
  dget res "status" ≠ VStr "rejected" ∧
  (dget res "status" = VStr "failed" → _step_allows_failure step = true).
Proof.
  intros Hc Hr H1 H2 Hin Hne Hres.
  apply (ok_failures _ (stored_run_ok _ _ _ Hc Hr)); [|done..]. by intros [?|?].
Qed.

(** A stored run that is completed has a result for every step of its
    definition, when the ids of the definition are distinct. *)
Theorem completed_run_has_all_results c rid r step :
  reachable c → rows (store c) !! rid = Some r → status (row_state r) = "completed" →
  NoDup (step_id <$> def_steps (definition (row_state r))) →
  step ∈ def_steps (definition (row_state r)) → is_Some (result_of (row_state r) (step_id step)).
Proof.
  intros Hc Hr Hst Hnd Hin.
  destruct (ok_completed _ (stored_run_ok _ _ _ Hc Hr) Hst) as (order & Hsort & Hall).
  pose proof (topological_sort_spec _ Hnd) as Hspec. rewrite Hsort in Hspec. destruct Hspec as [Hp _].
  apply Hall. rewrite Hp. apply list_elem_of_fmap. eauto.
Qed.

(** C13. A finished run stays finished (the store and its cache started empty): from any later point of any execution its
    results and definition are unchanged, and its status is unchanged or
    [cancelled]. *)
Theorem finished_run_is_frozen c c' rid r r' :
  reachable c → rtc sys_step c c' →
  rows (store c) !! rid = Some r → rows (store c') !! rid = Some r' → status (row_state r) ∈ FINISHED →
  step_results (row_state r') = step_results (row_state r) ∧
  definition (row_state r') = definition (row_state r) ∧
  (status (row_state r') = status (row_state r) ∨ status (row_state r') = "cancelled").
Proof.
  intros Hc%reachable_ok Hs Hr Hr' Hf. apply finished_forever; [|done].
  clear Hf. revert r Hr Hc. induction Hs as [c|c c1 c' H1 _ IH]; intros r Hr Hc.
  { rewrite Hr in Hr'. by simplify_eq. }
  destruct (sys_step_ok _ _ H1 Hc) as [Hc1 [_ He]].
  destruct (He rid) as [Heq|[(s & E & _)|(r0 & r1 & E & Hr1 & _ & Hcom)]].
  - apply IH; [done| |done]. by rewrite Heq.
  - congruence.
  - rewrite Hr in E. simplify_eq. eapply rtc_l; [done|]. by apply IH.
Qed.

(** C38. From an empty store and cache, no operation runs out of the turns the model gives it or misses a step
    in its index: every operation that ends, under any interleaving and any
    answers, ends with a response or with one of the code's own exceptions. *)
Theorem operations_end_properly c i r :
  reachable c → pool c !! i = Some (Ret r) → r ≠ Err OutOfTurns ∧ r ≠ Err KeyError.
Proof.
  intros Hc%reachable_ok Hp. destruct (system_threads _ Hc) as (gs & Hgs & _).
  by destruct (Forall2_lookup_r _ _ _ _ _ Hgs Hp) as (g & _ & [_ Hend]).
Qed.

(** C39. Stored runs are well formed, if the store and its cache started empty: the status is one of eight, the step counter
    counts the results, no step has two results and at most three replans
    happened. *)
Theorem stored_runs_well_formed c rid r :
  reachable c → rows (store c) !! rid = Some r →
  status (row_state r) ∈ STATUSES ∧ steps_completed (row_state r) = length (step_results (row_state r)) ∧
  NoDup (step_results (row_state r)).*1 ∧ replan_count (row_state r) ≤ 3.
Proof.
  intros Hc Hr. destruct (stored_run_ok _ _ _ Hc Hr) as [HI _ _ Hrep Hst].
  split; [done|]. split; [apply HI|]. split; [apply HI|]. exact Hrep.
Qed.
End concurrency.

(** * Examples *)
Module ConcurrencyExample.

#[local] Instance example_str : PyStr := {|
  py_str v := match v with VStr t => t | _ => "?" end; py_str_VStr := λ s, eq_refl |}.
#[local] Instance example_store : StoreConfig := {| repository := InMemory; coerce_uuid := λ _, None |}.

(** Steps answer with the status their action names. *)
Definition env : environment := {|
  env_run_id := "wfr_1"; env_now := 5;
  env_override := {| blocked := false; override_reason := EmptyString; override_dict := VNone |};
  env_step := λ st, Ok (VMap [("status", VStr (default "completed" (action st)))]);
  env_replan := Err "no model" |}.

Definition mk (id : string) (deps : list string) (act onf : option string) : RawStep :=
  {| raw_id := Some id; raw_fields := {| type := None; depends_on := deps; on_failure := onf; optional := false;
       allow_failure := false; true_path := None; false_path := None; connector := None;
       connector_key := None; tool := None; tool_name := None; action := act; agent := None;
       agent_type := None; idempotency_key := None; http_method := None; replanned := false |} |}.

(** [pay] fails, its fallback [refund] runs, and [report] still needs [pay]. *)
Definition defn : RawDefinition := {| raw_steps := Some
  [mk "report" ["pay"] None None; mk "pay" ["quote"] (Some "failed") (Some "fallback(refund)");
   mk "refund" [] None None; mk "quote" [] None None] |}.

Definition start : environment * call := (env, CallStart defn None false [] None None None []).
Definition trace : list (environment * call) := [start; (env, CallExecute "wfr_1")].

Example trace_runs :
  (λ w, (λ r, (status (row_state r), row_version r,
     (λ kv, (kv.1, dget kv.2 "status")) <$> step_results (row_state r))) <$> rows w !! "wfr_1")
  <$> (fst <$> run_calls trace empty_world []) =
  Some (Some ("completed", 6%Z,
    [("quote", VStr "completed"); ("pay", VStr "failed"); ("report", VStr "skipped");
     ("refund", VStr "completed")])).
Proof. vm_compute. reflexivity. Qed.

Definition outcome (todo : list (environment * call)) : config :=
  match run_calls todo empty_world [] with
  | Some (w, rs) => {| store := w; pool := Ret <$> rs |}
  | None => {| store := empty_world; pool := [] |}
  end.

Lemma outcome_reachable todo : reachable (outcome todo).
Proof.
  unfold outcome. destruct (run_calls todo empty_world []) as [[w rs]|] eqn:E; [by eapply run_calls_reachable|].
  exists {| store := empty_world; pool := [] |}. done.
Qed.

Definition final : config := outcome trace.
Definition stored (c : config) : Row :=
  default {| row_state := StoreExample.fresh "none" []; row_version := 0 |} (rows (store c) !! "wfr_1").

Definition pay : Step :=
  default {| step_id := "none"; fields := ParserExample.plain [] |}
    (_build_step_index (def_steps (definition (row_state (stored final)))) !! "pay").
Definition pay_result : dict := default [] (result_of (row_state (stored final)) "pay").

Lemma final_stored : rows (store final) !! "wfr_1" = Some (stored final).
Proof. vm_compute. reflexivity. Qed.

Lemma pay_listed : pay ∈ def_steps (definition (row_state (stored final))).
Proof. vm_compute. right. left. Qed.

(** A cancellation that arrives after the end. *)
Definition cancelled : config := outcome (trace ++ [(env, CallCancel "wfr_1")]).

Lemma outcome_extends t1 t2 :
  is_Some (run_calls t1 empty_world []) → is_Some (run_calls (t1 ++ t2) empty_world []) →
  rtc sys_step (outcome t1) (outcome (t1 ++ t2)).
Proof.
  unfold outcome. intros [[w rs] E1] [[w' rs'] E2]. rewrite E1, E2. rewrite run_calls_app, E1 in E2.
  by eapply run_calls_sound.
Qed.

Lemma final_cancelled : rtc sys_step final cancelled.
Proof.
  apply outcome_extends; apply (bool_decide_unpack _); vm_compute; exact I.
Qed.

(** A replan whose replacement keeps the id of the failed step. *)
Definition replan_env : environment := {|
  env_run_id := "wfr_2"; env_now := 5;
  env_override := {| blocked := false; override_reason := EmptyString; override_dict := VNone |};
  env_step := λ st, if replanned st then Ok (VMap [("status", VStr "completed")]) else Err "boom";
  env_replan := Ok [mk "fetch" [] (Some "completed") None] |}.

Definition replan_trace : list (environment * call) :=
  [(replan_env, CallStart {| raw_steps := Some [mk "fetch" [] None None] |} None true [] None None None []);
   (replan_env, CallExecute "wfr_2")].

(** A run that only the cache knows, with one step, and two operations on it. *)
Definition legacy : RunState := StoreExample.fresh "old"
  [{| step_id := "pay"; fields := raw_fields (mk "pay" [] None None) |}].
Definition legacy_world : world := {| rows := ∅; transitions := []; redis := {["old" := legacy]}; issued := ∅; named := ∅ |}.
Definition legacy_start : config := {| store := legacy_world; pool := [] |}.
Definition two_calls : config :=
  {| store := name_run (Some "old") (name_run (Some "old") legacy_world); pool := [run_call (CallExecute "old"); run_call (CallExecute "old")] |}.
(** Both miss the row and read the cache; the first runs to its end; then the second saves what it read. *)
Definition first_ends : list nat := [0; 0; 1; 1] ++ repeat 0 9.
Definition completed_legacy : config := default two_calls (interleave env first_ends two_calls).
Definition overwritten : config := default two_calls (interleave env [1] completed_legacy).
Definition seen (c : config) : option (string * nat) :=
  (λ r, (status (row_state r), length (step_results (row_state r)))) <$> rows (store c) !! "old".
End ConcurrencyExample.

Section witnesses.
Import ConcurrencyExample.
#[local] Existing Instances example_str example_store.

Lemma engine_refines_machine_witness :
  row_evolves (rows (store final) !! "wfr_1")
    (rows (store {| store := name_run (Some "wfr_1") (store final); pool := pool final ++ [run_call (CallCancel "wfr_1")] |}) !! "wfr_1").
Proof.
  apply (engine_refines_machine final); [apply outcome_reachable|].
  apply (spawn_step final (CallCancel "wfr_1")). intros rid [= <-] _. rewrite final_stored. eauto.
Defined.

Lemma executed_steps_have_dependencies_witness :
  completed_dep (row_state (stored final)) "quote" ∨ source_of (row_state (stored final)) "quote" (step_id pay).
Proof.
  apply (executed_steps_have_dependencies final "wfr_1" (stored final) pay pay_result "quote").
  - apply outcome_reachable.
  - apply final_stored.
  - apply pay_listed.
  - vm_compute. discriminate.
  - vm_compute. reflexivity.
  - split; vm_compute; discriminate.
  - vm_compute. left.
Defined.

Lemma failures_stop_the_run_witness : _step_allows_failure pay = true.
Proof.
  apply (failures_stop_the_run final "wfr_1" (stored final) pay pay_result).
  - apply outcome_reachable.
  - apply final_stored.
  - vm_compute. discriminate.
  - vm_compute. discriminate.
  - apply pay_listed.
  - vm_compute. discriminate.
  - vm_compute. reflexivity.
  - vm_compute. reflexivity.
Defined.

Lemma completed_run_has_all_results_witness : is_Some (result_of (row_state (stored final)) (step_id pay)).
Proof.
  apply (completed_run_has_all_results final "wfr_1" (stored final) pay).
  - apply outcome_reachable.
  - apply final_stored.
  - vm_compute. reflexivity.
  - apply (bool_decide_unpack _). vm_compute. exact I.
  - apply pay_listed.
Defined.

Lemma finished_run_is_frozen_witness :
  step_results (row_state (stored cancelled)) = step_results (row_state (stored final)).
Proof.
  apply (finished_run_is_frozen final cancelled "wfr_1" (stored final) (stored cancelled)).
  - apply outcome_reachable.
  - apply final_cancelled.
  - apply final_stored.
  - vm_compute. reflexivity.
  - apply (bool_decide_unpack _). vm_compute. exact I.
Defined.

Lemma operations_end_properly_witness : ∃ r, pool final !! 1 = Some (Ret r) ∧ r ≠ Err OutOfTurns ∧ r ≠ Err KeyError.
Proof.
  eexists. split; [vm_compute; reflexivity|].
  eapply (operations_end_properly final 1); [apply outcome_reachable|]. vm_compute. reflexivity.
Defined.

Lemma stored_runs_well_formed_witness : status (row_state (stored final)) ∈ STATUSES.
Proof.
  apply (stored_runs_well_formed final "wfr_1" (stored final)); [apply outcome_reachable|apply final_stored].
Defined.

(** The replanner accepts a replacement step that keeps the id of the failed
    step; the run then completes with that id marked [replanned], and the
    replacement is never executed. *)
Theorem replacement_with_failed_id_never_runs :
  ∃ c r, reachable c ∧ rows (store c) !! "wfr_2" = Some r ∧ status (row_state r) = "completed" ∧
    (step_id <$> def_steps (definition (row_state r))) = ["fetch"; "fetch"] ∧
    ((λ kv, (kv.1, dget kv.2 "status")) <$> step_results (row_state r)) = [("fetch", VStr "replanned")] ∧
    env_step replan_env <$> (_build_step_index (def_steps (definition (row_state r))) !! "fetch") =
      Some (Ok (VMap [("status", VStr "completed")])).
Proof.
  exists (outcome replan_trace). eexists. split; [apply outcome_reachable|].
  split; [vm_compute; reflexivity|]. repeat split; vm_compute; reflexivity.
Qed.

(** The adoption of a state that only the cache holds is saved without a version: of two operations
    that load such a run, the slower one overwrites the run the other has completed. *)
Theorem adopted_state_overwrites_a_finished_run :
  rows (store legacy_start) = ∅ ∧ rtc sys_step legacy_start completed_legacy ∧ seen completed_legacy = Some ("completed", 1) ∧
  rtc sys_step completed_legacy overwritten ∧ seen overwritten = Some ("running", 0).
Proof.
  assert (∀ sched c, is_Some (interleave env sched c) → interleave env sched c = Some (default two_calls (interleave env sched c))) as Hs.
  { intros sched c [c' E]. by rewrite E. }
  split_and!; [done| |vm_compute; reflexivity| |vm_compute; reflexivity].
  - eapply rtc_l; [by apply (spawn_step legacy_start (CallExecute "old"))|].
    eapply rtc_l; [by apply (spawn_step _ (CallExecute "old"))|]. eapply (interleave_sound env first_ends), Hs. apply (bool_decide_unpack _). vm_compute. exact I.
  - eapply (interleave_sound env [1]), Hs. apply (bool_decide_unpack _). vm_compute. exact I.
Qed.
End witnesses.
