(* ===== verification/Rbac.v ===== *)
(** Roles, their scopes and their domains: src/core/rbac.py. *)

From S2P Require Import Prelude PyVal StepResults.

Definition ADMIN_SCOPE : string := "agenticorg:admin".

Definition has_admin_scope (scopes : list string) : bool := existsb (String.eqb ADMIN_SCOPE) scopes.

(** [None] is an unrestricted role. *)
Definition ROLE_DOMAIN_MAP : list (string * option (list string)) :=
  [("cfo", Some ["finance"]); ("chro", Some ["hr"]); ("cmo", Some ["marketing"]); ("coo", Some ["ops"]);
   ("merchant", Some ["commerce"]); ("admin", None); ("auditor", None); ("domain_lead", Some []);
   ("analyst", Some []); ("developer", Some [])].

Definition _USER_DOMAIN_DERIVED_ROLES : list string := ["domain_lead"; "analyst"; "developer"].

Definition _DOMAIN_ROLE_SCOPES : list string :=
  ["agents:read"; "agents:write"; "workflows:read"; "workflows:write"; "approvals:read"; "approvals:write";
   "audit:read"; "connectors.read"; "connectors.contracts.read"; "connectors.registry.read";
   "connectors.tools.read"; "report_schedules.read"; "report_schedules.write"; "report_schedules.run";
   "connectors.personal.write"].

Definition _KPI_PAGE_SCOPES : list string := ["kpis:read"].
Definition _INSIGHTS_SCOPES : list string := ["insights:read"; "insights:write"].
Definition _INSIGHTS_READ_SCOPES : list string := ["insights:read"].

Definition ROLE_SCOPES : list (string * list string) :=
  [("cfo", _DOMAIN_ROLE_SCOPES ++ _KPI_PAGE_SCOPES ++ _INSIGHTS_SCOPES);
   ("chro", _DOMAIN_ROLE_SCOPES ++ _KPI_PAGE_SCOPES ++ _INSIGHTS_SCOPES);
   ("cmo", _DOMAIN_ROLE_SCOPES ++ _KPI_PAGE_SCOPES ++ _INSIGHTS_SCOPES ++
           ["connectors.cmo_vendor_sandbox.write"]);
   ("coo", _DOMAIN_ROLE_SCOPES ++ _KPI_PAGE_SCOPES ++ _INSIGHTS_SCOPES);
   ("merchant", "commerce.merchant_config.write" :: _INSIGHTS_SCOPES);
   ("admin", ["agenticorg:admin"]);
   ("auditor", "audit:read" :: _INSIGHTS_READ_SCOPES);
   ("domain_lead", _DOMAIN_ROLE_SCOPES ++ _INSIGHTS_SCOPES);
   ("analyst", ["agents:read"; "workflows:read"; "approvals:read"; "connectors.read";
                "report_schedules.read"] ++ _INSIGHTS_SCOPES);
   ("developer", ["agents:read"; "agents:write"; "approvals:read"; "approvals:write"; "workflows:read";
                  "connectors.read"; "connectors.contracts.read"; "connectors.registry.read";
                  "connectors.tools.read"; "connectors.personal.write"] ++ _INSIGHTS_SCOPES)].

Definition APPROVAL_POLICY_ROLES : list string :=
  (List.filter (λ rs, existsb (String.eqb "approvals:write") rs.2 || existsb (String.eqb ADMIN_SCOPE) rs.2)
    ROLE_SCOPES).*1.

Definition is_approval_policy_role (role : string) : bool := bool_decide (role ∈ APPROVAL_POLICY_ROLES).

Definition get_allowed_domains (role : string) (user_domain : option string) : option (list string) :=
  if bool_decide (role ∈ _USER_DOMAIN_DERIVED_ROLES) then
    let domain := strip (default EmptyString user_domain) in
    Some (if nonempty (Some domain) then [domain] else [])
  else
    match assoc role ROLE_DOMAIN_MAP with
    | None => Some []
    | Some d => d
    end.

Definition get_scopes_for_role (role : string) : list string := default [] (assoc role ROLE_SCOPES).

Example policy_roles : APPROVAL_POLICY_ROLES = ["cfo"; "chro"; "cmo"; "coo"; "admin"; "domain_lead"; "developer"].
Proof. vm_compute. reflexivity. Qed.

(** Only administrators and auditors see every domain. *)
Lemma unrestricted_roles role user_domain :
  get_allowed_domains role user_domain = None ↔ role ∈ ["admin"; "auditor"].
Proof.
  unfold get_allowed_domains. case_bool_decide as Hd.
  - split; [done|]. intros Hr. exfalso. revert Hd Hr. unfold _USER_DOMAIN_DERIVED_ROLES. set_solver.
  - cbn. repeat match goal with |- context [String.eqb ?a ?b] => destruct (String.eqb_spec a b); [subst; set_solver|] end.
    split; [done|]. set_solver.
Qed.
