(* ===== verification/ApprovalPolicy.v ===== *)
(** Approval policies: src/core/approvals/policy_engine.py.

    Tables are lists of rows; the session's [scalar_one_or_none] and
    [order_by(sequence)] are modelled as such.  The condition evaluator is an
    interface ([ConditionEvaluator]): a step's condition is applied through
    [_condition_matches], which turns an undecided or failing evaluation into
    "the step applies".  Feature-flag rows are given as the verdicts of
    [row_enabled]. *)

From S2P Require Import Prelude PyVal StepResults.

Local Open Scope Z_scope.

(** * Rows *)

Record ApprovalStep := {
  sequence : Z;
  approver_role : string;
  quorum_required : Z;
  quorum_total : Z;
  condition : option string;
}.

Record ApprovalPolicy := {
  policy_id : string;
  policy_name : string;
  policy_workflow : option string;
  policy_agent : option string;
  policy_steps : list ApprovalStep;
}.

#[global] Instance ApprovalStep_eq_dec : EqDecision ApprovalStep.
Proof. solve_decision. Defined.

(** [evaluate_condition_strict(condition, context)]: [None] when it raises,
    [Some None] when the condition cannot be evaluated. *)
Class ConditionEvaluator := evaluate_condition_strict : string → dict → option (option bool).

Definition UNEVALUABLE_CONDITION_OFF : string := "off".
Definition UNEVALUABLE_CONDITION_DENY : string := "deny".
Definition REASON_CONDITION_UNEVALUABLE : string := "approval_condition_unevaluable".

(** * Conditions *)

Section conditions.
Context `{ConditionEvaluator}.

Definition _evaluate_condition (c : string) (context : dict) : option bool :=
  match evaluate_condition_strict c context with
  | None => None
  | Some r => r
  end.

Definition _condition_matches (c : option string) (context : dict) : bool :=
  match c with
  | Some c => if nonempty (Some c) then
                match _evaluate_condition c context with None => true | Some b => b end
              else true
  | None => true
  end.

(** * Steps in sequence *)

Definition step_leb (a b : ApprovalStep) : bool := sequence a <=? sequence b.
Definition ordered_steps (policy : ApprovalPolicy) : list ApprovalStep := sort_by step_leb (policy_steps policy).

Definition first_applicable_step (policy : ApprovalPolicy) (context : dict) : option ApprovalStep :=
  List.find (λ step, _condition_matches (condition step) context) (ordered_steps policy).

Definition next_step_after (policy : ApprovalPolicy) (current_sequence : Z) (context : dict) :
    option ApprovalStep :=
  List.find (λ step, _condition_matches (condition step) context)
    (List.filter (λ step, current_sequence <? sequence step) (ordered_steps policy)).

Definition unevaluable_steps (policy : ApprovalPolicy) (context : dict) : list ApprovalStep :=
  List.filter (λ step,
    match condition step with
    | Some c => nonempty (Some c) && bool_decide (_evaluate_condition c context = None)
    | None => false
    end) (ordered_steps policy).
End conditions.

(** * Modes and scopes *)

(** The deny flag's rows as [row_enabled] reads them, or an unreadable store. *)
Definition unevaluable_condition_mode (rows : result unit (bool * bool)) : string :=
  match rows with
  | Err _ => UNEVALUABLE_CONDITION_DENY
  | Ok (global_row, tenant_row) =>
      if global_row || tenant_row then UNEVALUABLE_CONDITION_DENY else UNEVALUABLE_CONDITION_OFF
  end.

(** [scalar_one_or_none]: more than one row is an error. *)
Definition scalar_one_or_none {A} (rows : list A) : result unit (option A) :=
  match rows with
  | [] => Ok None
  | [r] => Ok (Some r)
  | _ => Err tt
  end.

Definition select_policy (table : list ApprovalPolicy) (p : ApprovalPolicy → bool) :
    result unit (option ApprovalPolicy) := scalar_one_or_none (List.filter p table).

(** The tenant's policies, by precedence: name, workflow, agent, default. *)
Definition resolve_policy (table : list ApprovalPolicy) (workflow_id agent_id name : option string) :
    result unit (option ApprovalPolicy) :=
  by_name ← (if nonempty name then select_policy table (λ p, bool_decide (Some (policy_name p) = name)) else Ok None);
  match (by_name : option ApprovalPolicy) with
  | Some p => Ok (Some p)
  | None =>
      by_workflow ← match workflow_id with
                    | Some _ => select_policy table (λ p, bool_decide (policy_workflow p = workflow_id))
                    | None => Ok None
                    end;
      match (by_workflow : option ApprovalPolicy) with
      | Some p => Ok (Some p)
      | None =>
          by_agent ← match agent_id with
                     | Some _ => select_policy table (λ p, bool_decide (policy_agent p = agent_id))
                     | None => Ok None
                     end;
          match (by_agent : option ApprovalPolicy) with
          | Some p => Ok (Some p)
          | None => select_policy table (λ p, bool_decide (policy_workflow p = None) &&
                      bool_decide (policy_agent p = None) && String.eqb (policy_name p) "default")
          end
      end
  end.

(** * One decision *)

Record PolicyDecision := {
  action : string;
  current_step_approvals : Z;
  reason : string;
}.

(** [None] for a decision the engine has no rule for ([ValueError]). *)
Definition apply_decision (step : ApprovalStep) (prior_approvals : Z) (decision : string) :
    option PolicyDecision :=
  if String.eqb decision "reject" then
    Some {| action := "reject"; current_step_approvals := prior_approvals; reason := "decision=reject" |}
  else if negb (String.eqb decision "approve") then None
  else
    let new_approvals := prior_approvals + 1 in
    if quorum_required step <=? new_approvals then
      Some {| action := "advance"; current_step_approvals := new_approvals;
              reason := "quorum " +:+ pretty (quorum_required step) +:+ "/" +:+ pretty (quorum_total step) +:+
                        " reached" |}
    else
      Some {| action := "collect"; current_step_approvals := new_approvals;
              reason := pretty new_approvals +:+ "/" +:+ pretty (quorum_required step) +:+
                        " approvals collected" |}.

(** * Facts *)

Section facts.
Context `{ConditionEvaluator}.

(** The steps of a policy that apply to an item. *)
Definition applicable (policy : ApprovalPolicy) (context : dict) (step : ApprovalStep) : Prop :=
  step ∈ policy_steps policy ∧ _condition_matches (condition step) context = true.

Lemma ordered_steps_elem policy step : step ∈ ordered_steps policy ↔ step ∈ policy_steps policy.
Proof. apply elem_of_sort_by. Qed.

Lemma ordered_steps_sorted policy : StronglySorted step_leb (ordered_steps policy).
Proof. apply sort_by_sorted; unfold step_leb; intros; lia. Qed.

Lemma find_sorted (p : ApprovalStep → bool) l step :
  StronglySorted step_leb l → List.find p l = Some step →
  step ∈ l ∧ p step = true ∧ ∀ s, s ∈ l → p s = true → sequence step <= sequence s.
Proof.
  induction 1 as [|x l Hl IH Hx]; cbn; [done|]. destruct (p x) eqn:Hp.
  - intros [= <-]. split; [left|]. split; [done|]. intros s [-> | Hs]%elem_of_cons Hps; [lia|].
    rewrite Forall_forall in Hx. specialize (Hx s Hs). apply Is_true_true in Hx. unfold step_leb in Hx. lia.
  - intros (Hin & Hps & Hmin)%IH. split; [by right|]. split; [done|].
    intros s [-> | Hs]%elem_of_cons Hs'; [congruence|auto].
Qed.

Lemma find_none (p : ApprovalStep → bool) l : List.find p l = None → ∀ s, s ∈ l → p s = false.
Proof.
  induction l as [|x l IH]; cbn; [set_solver|]. destruct (p x) eqn:Hp; [done|].
  intros Hf s [-> | Hs]%elem_of_cons; auto.
Qed.

(** The first applicable step has the least sequence among the applicable ones. *)
Lemma first_applicable_step_spec policy context :
  match first_applicable_step policy context with
  | Some step => applicable policy context step ∧
                 ∀ s, applicable policy context s → sequence step <= sequence s
  | None => ∀ s, ¬ applicable policy context s
  end.
Proof.
  unfold first_applicable_step. destruct (List.find _ _) as [step|] eqn:Hf.
  - apply find_sorted in Hf as (Hin & Hp & Hmin); [|apply ordered_steps_sorted].
    split; [split; [by apply ordered_steps_elem|done]|].
    intros s [Hs Hm]. apply Hmin; [by apply ordered_steps_elem|done].
  - intros s [Hs Hm]. rewrite (find_none _ _ Hf s) in Hm; [done|by apply ordered_steps_elem].
Qed.

(** The next step has the least sequence among the applicable ones after the current. *)
Lemma next_step_after_spec policy seq context :
  match next_step_after policy seq context with
  | Some step => applicable policy context step ∧ seq < sequence step ∧
                 ∀ s, applicable policy context s → seq < sequence s → sequence step <= sequence s
  | None => ∀ s, applicable policy context s → sequence s <= seq
  end.
Proof.
  unfold next_step_after.
  assert (∀ s, s ∈ List.filter (λ step, seq <? sequence step) (ordered_steps policy) ↔
               s ∈ policy_steps policy ∧ seq < sequence s) as Hfil.
  { intros s. rewrite list_elem_of_In, filter_In, <- list_elem_of_In, ordered_steps_elem, Z.ltb_lt. done. }
  assert (StronglySorted step_leb (List.filter (λ step, seq <? sequence step) (ordered_steps policy)))
    by apply StronglySorted_filter, ordered_steps_sorted.
  destruct (List.find _ _) as [step|] eqn:Hf.
  - apply find_sorted in Hf as (Hin & Hp & Hmin); [|done].
    apply Hfil in Hin as [Hin Hlt]. split; [done|]. split; [done|].
    intros s [Hs Hm] Hls. apply Hmin; [by apply Hfil|done].
  - intros s [Hs Hm]. destruct (Z.le_gt_cases (sequence s) seq); [done|].
    rewrite (find_none _ _ Hf s) in Hm; [done|]. by apply Hfil.
Qed.
End facts.
