(* ===== verification/ApprovalConditions.v ===== *)
(** Approval steps under the condition evaluator of src/workflows/condition_evaluator.py: the evaluator
    discharges the interface [ConditionEvaluator] of [ApprovalPolicy], and steps guarded by a threshold
    are skipped exactly when the threshold is known not to be met. *)

From Stdlib Require Import Ascii.
From S2P Require Import Prelude PyVal PyText PyNumber StepResults Conditions ApprovalPolicy.

Local Open Scope Z_scope.

(** What [_evaluate_condition] calls inside its [try] *)
#[export] Instance strict_evaluator `{PyStr, ConditionEnv} : ConditionEvaluator := λ c context,
  match Conditions.evaluate_condition_strict c context with Ok v => Some v | Err _ => None end.

Section thresholds.
Context `{PyStr, ConditionEnv} (context : dict).

(** A number written as a bare token that is not the word of a flag, a date or a field *)
Record number_token (r : list ascii) (y : pyfloat) : Prop := {
  token_bare : bare_token r = true;
  token_value : float_of_text (of_chars r) = Some y;
  token_not_word : is_word (of_chars r) = false;
  token_not_date : fromisoformat (of_chars r) = None;
  token_not_field : field_value context r = None;
}.

Lemma compare_number op v r y : number_token r y → ordering op = true →
  _compare op v (of_chars r) context =
  match py_float v with
  | Ok x => Ok (Some (op_compare op (float_compare x y)))
  | Err NotANumber => Ok None
  | Err OverflowError => Err Overflow
  end.
Proof.
  intros [Hb Hv Hw Hd Hf] Hop. unfold _compare, _resolve. destruct (bare_strip r Hb) as (-> & _ & _). rewrite (proj1 (bare_strip r Hb)).
  rewrite chars_of_chars, (proj1 (bare_unquoted r Hb)). unfold field_value in Hf. rewrite Hf.
  assert (Hc : compare_values op v (VStr (of_chars r)) = match py_float v with
    | Ok x => Ok (Some (op_compare op (float_compare x y))) | Err NotANumber => Ok None | Err OverflowError => Err Overflow end).
  { unfold compare_values, both_floats. destruct (py_float v) as [x|[]]; cbn; [by rewrite Hv| |done].
    rewrite Hop. cbn. destruct (_as_datetime v); [|done]. rewrite (proj1 (bare_strip r Hb)), chars_of_chars, Hd.
    destruct r as [|c r]; [done|]. by destruct (is_digit_char c). }
  destruct v; try done. by rewrite Hw.
Qed.

(** Thresholds of approval steps fail closed. A step whose condition is [field op number] is skipped
    exactly when the field is there, is a number and does not meet the threshold; when the field is
    missing, is no number, or is too large for a float, the step applies. *)
Theorem threshold_step_skipped_exactly f op r y :
  bare_token f = true → of_chars f ∉ ["NOT"; "not"] → ordering op = true → number_token r y →
  _condition_matches (Some (comparison_text f op r)) context = false ↔
  ∃ v x, field_value context f = Some v ∧ py_float v = Ok x ∧ op_compare op (float_compare x y) = false.
Proof.
  intros Hf Hn Hop Hr. unfold _condition_matches, _evaluate_condition.
  change (evaluate_condition_strict ?c ?ctx) with (strict_evaluator c ctx). unfold strict_evaluator.
  rewrite strict_comparison by (done || by eapply token_bare).
  destruct (comparison_trimmed f r op Hf (token_bare _ _ Hr)) as [_ Hne].
  assert (nonempty (Some (comparison_text f op r)) = true) as -> by (cbn; by destruct (comparison_text f op r)).
  destruct (field_value context f) as [v|]; [|split; [done|by intros (? & ? & [=] & _)]]. rewrite (compare_number op v r y Hr Hop).
  split.
  - destruct (py_float v) as [x|[]] eqn:Ex; cbn; [intros; eauto|done..].
  - by intros (w & x & [= <-] & -> & E).
Qed.
End thresholds.

(** For whole numbers of up to 53 bits the comparison is that of integers. *)
Lemma whole_threshold op z k : Z.abs z ≤ 2 ^ 53 → Z.abs k ≤ 2 ^ 53 →
  ∃ x y, py_float (VInt z) = Ok x ∧ py_float (VInt k) = Ok y ∧ op_compare op (float_compare x y) = op_compare op (Some (z ?= k)).
Proof.
  intros Hz Hk. destruct (float_of_int_exact z Hz) as (x & Ex & Hx), (float_of_int_exact k Hk) as (y & Ey & Hy).
  exists x, y. split_and!; [done..|]. by rewrite (is_int_compare _ _ _ _ Hx Hy).
Qed.

Lemma threshold_step_skipped_exactly_witness :
  @_condition_matches (@strict_evaluator ConditionExample.example_str ConditionExample.example_env)
    (Some "amount > 500000") ConditionExample.context = false.
Proof.
  apply (threshold_step_skipped_exactly (H := ConditionExample.example_str) (H0 := ConditionExample.example_env)
    ConditionExample.context (chars "amount") Gt_ (chars "500000") (FFin 8589934592000000 (-34))).
  - reflexivity.
  - by apply (bool_decide_unpack (_ ∉ _)).
  - reflexivity.
  - split; vm_compute; reflexivity.
  - exists (VInt 120000), (FFin 8246337208320000 (-36)). split; [reflexivity|]. split; vm_compute; reflexivity.
Defined.
