(* ===== verification/ApprovalDecide.v ===== *)
(** Deciding an approval: the [decide] endpoint of src/api/v1/approvals.py and its
    helpers, on top of the approval policy engine.

    The endpoint locks the item's row, so decisions on one item are sequential: a
    history of an item is a list of requests.  Everything raised inside the
    session rolls the item back, except a refused decision, which is committed
    first.  What other components compute is an argument: the ownership verdict of
    core/ownership.py, the delegations of the caller, the rows of the feature
    flag, the tenant's policies.  Parsing of UUIDs is the parameter [ParseUuid];
    audit rows, feedback capture, notifications and background tasks are left
    out. *)

From S2P Require Import Prelude PyVal StepResults Rbac ApprovalPolicy.

Local Open Scope Z_scope.

Class ParseUuid := parse_uuid : string → option string.

(** * Authority *)

Definition _ROLE_HIERARCHY : list (string * Z) :=
  [("staff", 10); ("manager", 20); ("auditor", 25); ("cfo", 30); ("chro", 30); ("cmo", 30); ("coo", 30);
   ("cbo", 30); ("ceo", 50); ("admin", 100); ("merchant", 30); ("domain_lead", 30); ("analyst", 10);
   ("developer", 10)].

Definition _role_level (role : string) : Z := default 0 (assoc (lower role) _ROLE_HIERARCHY).

(** Whether a user may decide; the texts of the reasons are left out. *)
Definition _can_decide (user_role : string) (user_domains : option (list string)) (assignee_role : string)
    (agent_domain : option string) : bool :=
  nonempty (Some user_role) && nonempty (Some assignee_role) &&
  let user_lvl := _role_level user_role in
  let required_lvl := _role_level assignee_role in
  negb (user_lvl =? 0) && negb (user_lvl <? required_lvl) &&
  negb match user_domains, agent_domain with
       | Some ds, Some d => nonempty agent_domain && negb (bool_decide (d ∈ ds))
       | _, _ => false
       end.

(** * Items *)

Record Vote := {
  vote_user_id : string;
  vote_identities : list string;
  vote_decision : string;
  vote_sequence : Z;
  vote_at : string;
}.

(** [context["policy_state"]]: an absent key is [None]. *)
Record PolicyState := {
  ps_policy_id : option string;
  ps_current_sequence : option Z;
  ps_approvals_collected : option Z;
  ps_approvals : option (list Vote);
  ps_last_action : option string;
  ps_last_reason : option string;
  ps_unevaluable : option (list Z);
}.

Definition empty_state : PolicyState := {|
  ps_policy_id := None; ps_current_sequence := None; ps_approvals_collected := None; ps_approvals := None;
  ps_last_action := None; ps_last_reason := None; ps_unevaluable := None |}.

(** [context] is the item's context without the key ["policy_state"]. *)
Record Item := {
  item_status : string;
  expires_at : option Z;
  assignee_role : option string;
  agent_id : option string;
  workflow_run_id : option string;
  requested_by_user_id : option string;
  context : dict;
  policy_state : option PolicyState;
  decision : option string;
  decision_by : option string;
  decision_at : option Z;
  decision_notes : option string;
}.

(** [dict(ctx.get("policy_state") or {})] *)
Definition state_of (item : Item) : PolicyState := default empty_state (policy_state item).

(** The votes recorded on an item. *)
Definition votes (item : Item) : list Vote := default [] (ps_approvals (state_of item)).

Definition _effective_status (item : Item) (now : Z) : string :=
  match expires_at item with
  | Some e => if String.eqb (item_status item) "pending" && (e <? now) then "expired" else item_status item
  | None => item_status item
  end.

(** The value the condition evaluator sees under ["policy_state"]. *)
Definition vote_value (v : Vote) : pyval :=
  VMap [("user_id", VStr (vote_user_id v)); ("identities", VList (VStr <$> vote_identities v));
        ("decision", VStr (vote_decision v)); ("sequence", VInt (vote_sequence v)); ("at", VStr (vote_at v))].

Definition opt_entry {A} (k : string) (f : A → pyval) (o : option A) : dict :=
  match o with Some a => [(k, f a)] | None => [] end.

Definition policy_state_value (ps : PolicyState) : pyval :=
  VMap (opt_entry "policy_id" VStr (ps_policy_id ps) ++
        opt_entry "current_sequence" VInt (ps_current_sequence ps) ++
        opt_entry "approvals_collected" VInt (ps_approvals_collected ps) ++
        opt_entry "approvals" (λ vs, VList (vote_value <$> vs)) (ps_approvals ps) ++
        opt_entry "last_action" VStr (ps_last_action ps) ++
        opt_entry "last_reason" VStr (ps_last_reason ps) ++
        opt_entry "unevaluable_steps" (λ zs, VList (VInt <$> zs)) (ps_unevaluable ps)).

(** [ctx]: the item's context as a dictionary. *)
Definition item_context (item : Item) : dict :=
  match policy_state item with
  | Some ps => dict_set "policy_state" (policy_state_value ps) (context item)
  | None => context item
  end.

(** * Requests *)

Record Claims := { claim_user_id : option string; claim_sub : option string; claim_email : option string }.

(** A delegation of the tenant, with the role of the delegator *)
Record Delegation := { delegate_id : string; delegator_role : string; revoked_at : option Z; starts_at : Z; ends_at : option Z }.

(** One request with what the transaction reads; [now_text] is [now] in ISO format. *)
Record Request := {
  claims : Claims;
  user_role : string;
  user_domains : option (list string);
  body_decision : string;
  body_notes : string;
  ownership_verdict : option bool;
  can_view : bool;
  agent_domain : option string;
  delegations : list Delegation;
  policies : list ApprovalPolicy;
  deny_flag : result unit (bool * bool);
  now : Z;
  now_text : string;
}.

(** [{str(v).strip().lower() for v in values if isinstance(v, str) and v.strip()}] *)
Definition normal_identities (values : list string) : gset string :=
  list_to_set ((λ v, lower (strip v)) <$> List.filter (λ v, nonempty (Some (strip v))) values).

Definition option_strings (l : list (option string)) : list string := omap id l.

Definition _voter_identities (c : Claims) : gset string :=
  normal_identities (option_strings [claim_user_id c; claim_sub c; claim_email c]).

(** The identities a recorded vote carries. *)
Definition vote_voter (v : Vote) : gset string := normal_identities (vote_user_id v :: vote_identities v).

(** [user_claims.get("agenticorg:user_id") or user_claims.get("sub") or ""] *)
Definition user_id_str (c : Claims) : string :=
  if nonempty (claim_user_id c) then default EmptyString (claim_user_id c)
  else if nonempty (claim_sub c) then default EmptyString (claim_sub c) else EmptyString.

(** HTTP status codes of refusals. *)
Inductive outcome :=
| Raised (code : Z)
| Refused (item : Item) (code : Z)
| Done (item : Item) (policy_action : string).

(** * The endpoint *)

Section decide.
Context `{PyStr} `{ParseUuid} `{ConditionEvaluator}.

Definition user_uuid (req : Request) : option string := parse_uuid (user_id_str (claims req)).

(** The first active delegation whose delegator could decide. *)
Definition delegated (req : Request) (assignee : string) : option string :=
  delegator_role <$> List.find (λ d,
    bool_decide (user_uuid req = Some (delegate_id d)) && bool_decide (revoked_at d = None) && (starts_at d <=? now req) &&
    match ends_at d with None => true | Some e => now req <? e end &&
    _can_decide (delegator_role d) (user_domains req) assignee (agent_domain req)) (delegations req).

(** A delegation to the caller that is in force *)
Definition delegates (req : Request) (d : Delegation) : Prop :=
  d ∈ delegations req ∧ user_uuid req = Some (delegate_id d) ∧ revoked_at d = None ∧ starts_at d <= now req ∧ (∀ e, ends_at d = Some e → now req < e).

(** The roles a caller acts in *)
Definition acts_as (req : Request) (role : string) : Prop := role = user_role req ∨ ∃ d, delegates req d ∧ delegator_role d = role.


(** The checks before any policy: the delegated role in use, if one was needed. *)
Definition authorise (req : Request) (item : Item) : result Z (option string) :=
  _ ← raise_if (negb (nonempty (Some (user_id_str (claims req))))) 401;
  _ ← raise_if (bool_decide (ownership_verdict req = Some false) && negb (can_view req)) 404;
  _ ← raise_if (negb (String.eqb (item_status item) "pending")) 409;
  _ ← raise_if match expires_at item with Some e => e <? now req | None => false end 410;
  _ ← raise_if (negb (nonempty (assignee_role item))) 422;
  let assignee := default EmptyString (assignee_role item) in
  match ownership_verdict req with
  | Some true => Ok None
  | Some false => Err 403
  | None =>
      if _can_decide (user_role req) (user_domains req) assignee (agent_domain req) then Ok None
      else match user_uuid req with
           | Some _ => match delegated req assignee with Some r => Ok (Some r) | None => Err 403 end
           | None => Err 403
           end
  end.

Definition set_item_run (run : option string) (item : Item) : Item := {|
  item_status := item_status item; expires_at := expires_at item; assignee_role := assignee_role item;
  agent_id := agent_id item; workflow_run_id := run; requested_by_user_id := requested_by_user_id item;
  context := context item; policy_state := policy_state item; decision := decision item;
  decision_by := decision_by item; decision_at := decision_at item; decision_notes := decision_notes item |}.

(** An item without a run takes the run its context names. *)
Definition adopt_run_id (item : Item) : Item :=
  match workflow_run_id item with
  | Some _ => item
  | None => let v := dget (context item) "workflow_run_id" in
            if truthy v then set_item_run (parse_uuid (py_str v)) item else item
  end.

Definition set_policy_state (ps : option PolicyState) (item : Item) : Item := {|
  item_status := item_status item; expires_at := expires_at item; assignee_role := assignee_role item;
  agent_id := agent_id item; workflow_run_id := workflow_run_id item;
  requested_by_user_id := requested_by_user_id item; context := context item; policy_state := ps;
  decision := decision item; decision_by := decision_by item; decision_at := decision_at item;
  decision_notes := decision_notes item |}.

Definition set_assignee (role : string) (item : Item) : Item := {|
  item_status := item_status item; expires_at := expires_at item; assignee_role := Some role;
  agent_id := agent_id item; workflow_run_id := workflow_run_id item;
  requested_by_user_id := requested_by_user_id item; context := context item;
  policy_state := policy_state item; decision := decision item; decision_by := decision_by item;
  decision_at := decision_at item; decision_notes := decision_notes item |}.

(** The steps that make a decision refused, in deny mode. *)
Definition refused_steps (req : Request) (policy : option ApprovalPolicy) (ctx : dict) : list Z :=
  match policy with
  | Some p =>
      if negb (String.eqb (body_decision req) "reject") &&
         String.eqb (unevaluable_condition_mode (deny_flag req)) UNEVALUABLE_CONDITION_DENY
      then sequence <$> unevaluable_steps p ctx else []
  | None => []
  end.

Definition refuse (ps : PolicyState) (steps : list Z) : PolicyState := {|
  ps_policy_id := ps_policy_id ps; ps_current_sequence := ps_current_sequence ps;
  ps_approvals_collected := ps_approvals_collected ps; ps_approvals := ps_approvals ps;
  ps_last_action := Some "refused"; ps_last_reason := Some REASON_CONDITION_UNEVALUABLE;
  ps_unevaluable := Some steps |}.

(** The state without the markers of an earlier refusal; [None] when nothing is
    left. *)
Definition clear_markers (ps : PolicyState) : option PolicyState :=
  let ps' := {| ps_policy_id := ps_policy_id ps; ps_current_sequence := ps_current_sequence ps;
    ps_approvals_collected := ps_approvals_collected ps; ps_approvals := ps_approvals ps;
    ps_last_action := None; ps_last_reason := None; ps_unevaluable := None |} in
  match ps_policy_id ps, ps_current_sequence ps, ps_approvals_collected ps, ps_approvals ps with
  | None, None, None, None => None
  | _, _, _, _ => Some ps'
  end.

Definition clear_refusal (item : Item) : Item :=
  match policy_state item with
  | Some ps => if bool_decide (ps_last_action ps = Some "refused")
               then set_policy_state (clear_markers ps) item else item
  | None => item
  end.

(** Attribution and status once the vote counts. *)
Definition finish (req : Request) (item : Item) (policy_action : string) : Item :=
  let decider := match user_uuid req with Some u => Some u | None => decision_by item end in
  let notes := if nonempty (Some (body_notes req)) then Some (body_notes req) else None in
  let closed st := {|
    item_status := st; expires_at := expires_at item; assignee_role := assignee_role item;
    agent_id := agent_id item; workflow_run_id := workflow_run_id item;
    requested_by_user_id := requested_by_user_id item; context := context item;
    policy_state := policy_state item; decision := Some (body_decision req); decision_by := decider;
    decision_at := Some (now req); decision_notes := notes |} in
  if String.eqb policy_action "collect" then {|
    item_status := item_status item; expires_at := expires_at item; assignee_role := assignee_role item;
    agent_id := agent_id item; workflow_run_id := workflow_run_id item;
    requested_by_user_id := requested_by_user_id item; context := context item;
    policy_state := policy_state item; decision := decision item; decision_by := decider;
    decision_at := decision_at item; decision_notes := notes |}
  else if String.eqb policy_action "reject" then closed "rejected"
  else closed "decided".

(** The step a vote counts for. *)
Definition current_step (policy : ApprovalPolicy) (ps : PolicyState) (ctx : dict) :
    result Z (option ApprovalStep) :=
  let current_seq := default 0 (ps_current_sequence ps) in
  if current_seq =? 0 then Ok (first_applicable_step policy ctx)
  else match List.filter (λ s, sequence s =? current_seq) (policy_steps policy) with
       | [] => Err 409
       | [s] => Ok (Some s)
       | _ => Err 500
       end.

(** The checks on the voter at a step. *)
Definition check_voter (req : Request) (delegated_role : option string) (item : Item) (step : ApprovalStep)
    (history : list Vote) : result Z unit :=
  _ ← raise_if (negb (is_approval_policy_role (approver_role step))) 409;
  let direct := _can_decide (user_role req) (user_domains req) (approver_role step) (agent_domain req) in
  let by_delegation := match delegated_role with
    | Some r => _can_decide r (user_domains req) (approver_role step) (agent_domain req)
    | None => false
    end in
  _ ← raise_if (negb (direct || by_delegation)) 403;
  _ ← raise_if match requested_by_user_id item with
               | Some requester => match user_uuid req with
                                   | None => true
                                   | Some u => String.eqb requester u
                                   end
               | None => false
               end 403;
  raise_if (existsb (λ v, negb (bool_decide (_voter_identities (claims req) ∩ vote_voter v = ∅))) history) 409.

Definition cast_vote (req : Request) (step : ApprovalStep) : Vote := {|
  vote_user_id := user_id_str (claims req);
  vote_identities := sorted_strings (_voter_identities (claims req));
  vote_decision := body_decision req; vote_sequence := sequence step; vote_at := now_text req |}.

(** Counting a vote at a step and moving on. *)
Definition count_vote (req : Request) (policy : ApprovalPolicy) (ctx : dict) (item : Item)
    (step : ApprovalStep) (collected : Z) (history : list Vote) : outcome :=
  let d := if nonempty (Some (body_decision req)) then body_decision req else "approve" in
  match apply_decision step collected d with
  | None => Raised 500
  | Some pdec =>
      let base seq n := Some {|
        ps_policy_id := Some (policy_id policy); ps_current_sequence := Some seq;
        ps_approvals_collected := Some n; ps_approvals := Some (history ++ [cast_vote req step]);
        ps_last_action := Some (action pdec); ps_last_reason := Some (reason pdec);
        ps_unevaluable := None |} in
      let stay := set_policy_state (base (sequence step) (current_step_approvals pdec)) item in
      if String.eqb (action pdec) "advance" then
        match next_step_after policy (sequence step) ctx with
        | Some next =>
            if is_approval_policy_role (approver_role next)
            then Done (finish req (set_assignee (approver_role next)
                         (set_policy_state (base (sequence next) 0) item)) "collect") "collect"
            else Raised 409
        | None => Done (finish req stay "advance") "advance"
        end
      else Done (finish req stay (action pdec)) (action pdec)
  end.

(** Past the refusals: the item's checks and its vote, under the resolved policy. *)
Definition settle_decision (req : Request) (dr : option string) (policy : option ApprovalPolicy) (item : Item) : outcome :=
  match policy with
  | None => Done (finish req item "advance") "advance"
  | Some p =>
      match current_step p (state_of item) (item_context item) with
      | Err code => Raised code
      | Ok None => Done (finish req (set_policy_state (Some (state_of item)) item) "advance") "advance"
      | Ok (Some step) =>
          match check_voter req dr item step (votes item) with
          | Err code => Raised code
          | Ok _ => count_vote req p (item_context item) item step
                      (default 0 (ps_approvals_collected (state_of item))) (votes item)
          end
      end
  end.

Definition decide (req : Request) (item : Item) : outcome :=
  match authorise req item with
  | Err code => Raised code
  | Ok delegated_role =>
      let item1 := adopt_run_id item in
      let ps := state_of item1 in
      match resolve_policy (policies req) (workflow_run_id item1) (agent_id item1) None with
      | Err _ => Raised 500
      | Ok policy =>
          if nonempty (ps_policy_id ps) &&
             negb (bool_decide (policy_id <$> policy = ps_policy_id ps))
          then Raised 409
          else
            match refused_steps req policy (item_context item1) with
            | (_ :: _) as steps => Refused (set_policy_state (Some (refuse ps steps)) item1) 409
            | [] => settle_decision req delegated_role policy (clear_refusal item1)
            end
      end
  end.

(** The item after a request: only counted and refused decisions are committed. *)
Definition after (item : Item) (req : Request) : Item :=
  match decide req item with
  | Raised _ => item
  | Refused item' _ | Done item' _ => item'
  end.
End decide.


(** * Votes *)

(** The number of votes recorded at a step. *)
Definition tally (step : ApprovalStep) (vs : list Vote) : Z :=
  Z.of_nat (length (List.filter (λ v, vote_sequence v =? sequence step) vs)).

Lemma tally_snoc step vs v :
  tally step (vs ++ [v]) = tally step vs + (if vote_sequence v =? sequence step then 1 else 0).
Proof.
  unfold tally. rewrite List.filter_app, length_app. cbn. destruct (vote_sequence v =? sequence step); cbn; lia.
Qed.

Lemma tally_zero step vs : (∀ v, v ∈ vs → vote_sequence v < sequence step) → tally step vs = 0.
Proof.
  unfold tally. induction vs as [|v vs IH]; cbn; intros Hlt; [done|].
  destruct (Z.eqb_spec (vote_sequence v) (sequence step)) as [E|_].
  - specialize (Hlt v ltac:(left)). lia.
  - apply IH. intros w Hw. apply Hlt. by right.
Qed.

(** Normalising identities twice changes nothing. *)
Lemma elem_of_normal_identities x l :
  x ∈ normal_identities l ↔ ∃ v, v ∈ l ∧ nonempty (Some (strip v)) = true ∧ x = lower (strip v).
Proof.
  unfold normal_identities. rewrite elem_of_list_to_set, list_elem_of_fmap.
  setoid_rewrite list_elem_of_In. setoid_rewrite filter_In. naive_solver.
Qed.

Lemma nonempty_lower s : nonempty (Some (lower s)) = nonempty (Some s).
Proof. by destruct s. Qed.

Lemma normal_identities_idem x l : x ∈ normal_identities l → strip x = x ∧ lower x = x ∧ nonempty (Some x) = true.
Proof.
  rewrite elem_of_normal_identities. intros (v & _ & Hne & ->).
  rewrite strip_lower, strip_idem, lower_idem, nonempty_lower. done.
Qed.

Lemma user_id_identity c x :
  nonempty (Some (user_id_str c)) = true → nonempty (Some (strip (user_id_str c))) = true →
  x = lower (strip (user_id_str c)) → x ∈ _voter_identities c.
Proof.
  intros Hne Hs ->. unfold _voter_identities. apply elem_of_normal_identities.
  exists (user_id_str c). split; [|done]. clear Hs. revert Hne. unfold user_id_str, option_strings.
  destruct c as [[u|] [s|] e]; cbn; repeat case_match; cbn; set_solver.
Qed.

(** A recorded vote carries the voter's identities and no other. *)
Lemma cast_vote_voter req step :
  nonempty (Some (user_id_str (claims req))) = true →
  vote_voter (cast_vote req step) = _voter_identities (claims req).
Proof.
  intros Hne. apply set_eq. intros x. unfold vote_voter. cbn [vote_user_id vote_identities cast_vote].
  rewrite elem_of_normal_identities. split.
  - intros (v & [-> | Hv]%elem_of_cons & Hs & ->); [by eapply user_id_identity|].
    apply elem_of_sorted_strings in Hv. pose proof Hv as (E1 & E2 & _)%normal_identities_idem.
    by rewrite E1, E2.
  - intros Hx. exists x. pose proof Hx as (E1 & E2 & E3)%normal_identities_idem. rewrite E1, E2.
    split; [|done]. right. by apply elem_of_sorted_strings.
Qed.

(** * Fair votes *)

Section fairness.
Context `{PyStr} `{ParseUuid} `{ConditionEvaluator}.

(** Different votes come from people that share no identity, none from the
    requester. *)
Definition fair (requester : option string) (vs : list Vote) : Prop :=
  (∀ i j v w, vs !! i = Some v → vs !! j = Some w → i ≠ j → vote_voter v ∩ vote_voter w = ∅) ∧
  (∀ v, v ∈ vs → vote_voter v ≠ ∅ ∧
    ∀ r, requester = Some r → ∃ u, parse_uuid (vote_user_id v) = Some u ∧ u ≠ r).

Lemma fair_nil rq : fair rq [].
Proof. split; [intros i j v w Hi; by rewrite lookup_nil in Hi|intros v []%not_elem_of_nil]. Qed.

Lemma fair_snoc rq vs v :
  fair rq vs → (∀ w, w ∈ vs → vote_voter v ∩ vote_voter w = ∅) → vote_voter v ≠ ∅ →
  (∀ r, rq = Some r → ∃ u, parse_uuid (vote_user_id v) = Some u ∧ u ≠ r) → fair rq (vs ++ [v]).
Proof.
  intros [Hd Hr] Hnew Hne Hrq. split.
  - intros i j a b [Hi | [Hi Ei]]%lookup_snoc_Some [Hj | [Hj Ej]]%lookup_snoc_Some Hij.
    + destruct Hi, Hj. eauto.
    + subst b. rewrite (comm_L (∩)). apply Hnew. destruct Hi as [_ Hi]. by eapply list_elem_of_lookup_2.
    + subst a. apply Hnew. destruct Hj as [_ Hj]. by eapply list_elem_of_lookup_2.
    + lia.
  - intros w [Hw | ->%list_elem_of_singleton]%elem_of_app; auto.
Qed.

(** A voter who passes the checks shares no identity with an earlier one and is
    not the requester. *)
Lemma check_voter_ok req dr item step vs :
  check_voter req dr item step vs = Ok tt →
  is_approval_policy_role (approver_role step) = true ∧
  (∃ role, (role = user_role req ∨ dr = Some role) ∧
    _can_decide role (user_domains req) (approver_role step) (agent_domain req) = true) ∧
  (∀ r, requested_by_user_id item = Some r → ∃ u, user_uuid req = Some u ∧ u ≠ r) ∧
  (∀ v, v ∈ vs → _voter_identities (claims req) ∩ vote_voter v = ∅).
Proof.
  unfold check_voter, raise_if. intros Hc.
  repeat (match type of Hc with mbind _ (if ?b then _ else _) = _ => destruct b eqn:?; [done|]; cbn in Hc end).
  destruct (existsb _ vs) eqn:Hex; [done|]. split; [by apply negb_false_iff|]. split; [|split].
  - match goal with Hd : negb (_ || _) = false |- _ => apply negb_false_iff, orb_true_iff in Hd as [Hd | Hd] end.
    + eauto.
    + destruct dr as [r|]; [eauto|done].
  - intros r Hr. rewrite Hr in *. destruct (user_uuid req) as [u|]; [|done]. exists u. split; [done|].
    intros ->. by rewrite String.eqb_refl in *.
  - intros v Hv. destruct (decide_rel (=) (_voter_identities (claims req) ∩ vote_voter v) ∅) as [E|E]; [done|].
    exfalso. apply not_true_iff_false in Hex. apply Hex, existsb_exists. exists v.
    split; [by apply list_elem_of_In|]. apply negb_true_iff. by apply bool_decide_eq_false_2.
Qed.
End fairness.

(** * Progress through a policy *)

Lemma resolve_policy_in table wf ag name p :
  resolve_policy table wf ag name = Ok (Some p) → p ∈ table.
Proof.
  assert (∀ f q, select_policy table f = Ok (Some q) → q ∈ table) as Hsel.
  { unfold select_policy, scalar_one_or_none. intros f q E.
    destruct (List.filter f table) as [|x []] eqn:Hf; simplify_eq.
    apply list_elem_of_In, (filter_In f). rewrite Hf. by left. }
  unfold resolve_policy. intros E.
  destruct (if nonempty name then _ else _) as [[q|]|] eqn:H1; cbn in E; simplify_eq;
    [repeat case_match; simplify_eq; by eapply Hsel|].
  destruct (match wf with Some _ => _ | None => _ end) as [[q|]|] eqn:H2; cbn in E; simplify_eq;
    [repeat case_match; simplify_eq; by eapply Hsel|].
  destruct (match ag with Some _ => _ | None => _ end) as [[q|]|] eqn:H3; cbn in E; simplify_eq;
    [repeat case_match; simplify_eq; by eapply Hsel|by eapply Hsel].
Qed.

Section progress.
Context `{PyStr} `{ParseUuid} `{ConditionEvaluator}.
Variable p : ApprovalPolicy.

(** What the tables guarantee of a policy (unique positive sequences), and that
    its conditions do not read the item's voting state. *)
Record regular : Prop := {
  sequences_positive : ∀ s, s ∈ policy_steps p → 0 < sequence s;
  sequences_unique : ∀ s s', s ∈ policy_steps p → s' ∈ policy_steps p → sequence s = sequence s' → s = s';
  conditions_stable : ∀ s c ctx v, s ∈ policy_steps p → condition s = Some c →
    evaluate_condition_strict c (dict_set "policy_state" v ctx) = evaluate_condition_strict c ctx;
}.

(** A request from an identified person, made while the policy named as [p] is
    the policy [p]. *)
Record admissible (req : Request) : Prop := {
  caller_identified : _voter_identities (claims req) ≠ ∅;
  policy_ids_set : ∀ q, q ∈ policies req → policy_id q ≠ EmptyString;
  policy_unedited : ∀ q, q ∈ policies req → policy_id q = policy_id p → q = p;
}.

Definition progress (ps : PolicyState) : option string * option Z * option Z * option (list Vote) :=
  (ps_policy_id ps, ps_current_sequence ps, ps_approvals_collected ps, ps_approvals ps).

(** [step] is the one voted on: what is counted is what was voted, and every
    applicable step before it has its quorum. *)
Definition ready (ctx : dict) (vs : list Vote) (collected : Z) (step : ApprovalStep) : Prop :=
  applicable p ctx step ∧ collected = tally step vs ∧
  (∀ s, applicable p ctx s → sequence s < sequence step → quorum_required s <= tally s vs) ∧
  (∀ v, v ∈ vs → vote_sequence v <= sequence step).

Definition sound_progress (status : string) (ctx : dict) (requester : option string)
    (pr : option string * option Z * option Z * option (list Vote)) : Prop :=
  let '(pid, seq, collected, approvals) := pr in
  let vs := default [] approvals in
  pid ≠ Some EmptyString ∧
  (pid = None → seq = None ∧ collected = None ∧ approvals = None) ∧
  fair requester vs ∧
  (pid = Some (policy_id p) → status = "pending" →
     ∃ step n, seq = Some (sequence step) ∧ collected = Some n ∧ ready ctx vs n step) ∧
  (pid = Some (policy_id p) → status = "decided" →
     ∀ s, applicable p ctx s → quorum_required s <= tally s vs).

Definition sound (item : Item) : Prop :=
  sound_progress (item_status item) (context item) (requested_by_user_id item) (progress (state_of item)).

(** Items that differ only in what [sound] does not read. *)
Definition same_progress (item item' : Item) : Prop :=
  item_status item' = item_status item ∧ context item' = context item ∧
  requested_by_user_id item' = requested_by_user_id item ∧
  progress (state_of item') = progress (state_of item).

Lemma same_progress_sound item item' : same_progress item item' → sound item → sound item'.
Proof. unfold sound. by intros (-> & -> & -> & ->). Qed.


Lemma adopt_run_id_same item : same_progress item (adopt_run_id item).
Proof. unfold adopt_run_id. repeat case_match; done. Qed.

Lemma clear_refusal_same item : same_progress item (clear_refusal item).
Proof.
  unfold clear_refusal. destruct (policy_state item) as [ps|] eqn:E; [|done]. case_bool_decide; [|done].
  unfold same_progress, state_of. rewrite E. split; [done|]. split; [done|]. split; [done|]. cbn.
  unfold clear_markers, progress. by repeat case_match; cbn; simplify_eq.
Qed.

Lemma refuse_same item steps : same_progress item (set_policy_state (Some (refuse (state_of item) steps)) item).
Proof. done. Qed.

Lemma applicable_item_context item s :
  regular → applicable p (item_context item) s ↔ applicable p (context item) s.
Proof.
  intros [_ _ Hst]. unfold applicable, item_context. destruct (policy_state item) as [ps|]; [|done].
  split; intros [Hs Hm]; (split; [done|]); revert Hm; unfold _condition_matches, _evaluate_condition;
    destruct (condition s) as [c|] eqn:Hc; (try done); case_match; (try done); by rewrite (Hst s c).
Qed.

Lemma finish_state req item a : state_of (finish req item a) = state_of item.
Proof. unfold finish. by repeat case_match. Qed.

Lemma finish_context req item a : context (finish req item a) = context item.
Proof. unfold finish. by repeat case_match. Qed.

Lemma finish_requester req item a : requested_by_user_id (finish req item a) = requested_by_user_id item.
Proof. unfold finish. by repeat case_match. Qed.

Definition status_after (a st : string) : string :=
  if String.eqb a "collect" then st else if String.eqb a "reject" then "rejected" else "decided".

Lemma finish_status req item a : item_status (finish req item a) = status_after a (item_status item).
Proof. unfold finish, status_after. by repeat case_match. Qed.

#[local] Arguments finish : simpl never.

Lemma finish_sound req item a :
  sound_progress (status_after a (item_status item)) (context item) (requested_by_user_id item)
    (progress (state_of item)) → sound (finish req item a).
Proof. unfold sound. by rewrite finish_state, finish_context, finish_requester, finish_status. Qed.

(** The three results of a vote. *)
Lemma apply_decision_cases step n d pdec :
  apply_decision step n d = Some pdec →
  (d = "reject" ∧ action pdec = "reject" ∧ current_step_approvals pdec = n) ∨
  (d = "approve" ∧ current_step_approvals pdec = n + 1 ∧
   ((action pdec = "advance" ∧ quorum_required step <= n + 1) ∨
    (action pdec = "collect" ∧ n + 1 < quorum_required step))).
Proof.
  unfold apply_decision. destruct (String.eqb_spec d "reject"); [intros; simplify_eq; auto|].
  destruct (String.eqb_spec d "approve"); cbn; [|done].
  destruct (Z.leb_spec (quorum_required step) (n + 1)); intros; simplify_eq/=; auto 7.
Qed.

(** A vote at the step in progress is counted there. *)
Lemma ready_vote ctx vs n step v :
  ready ctx vs n step → vote_sequence v = sequence step → ready ctx (vs ++ [v]) (n + 1) step.
Proof.
  intros (Ha & -> & Hq & Hv) E. split; [done|]. split; [|split].
  - by rewrite tally_snoc, E, Z.eqb_refl.
  - intros s Hs Hlt. specialize (Hq s Hs Hlt). rewrite tally_snoc. case_match; lia.
  - intros w [Hw | ->%list_elem_of_singleton]%elem_of_app; [auto|lia].
Qed.

(** With its quorum reached, every applicable step up to it has its quorum. *)
Lemma ready_reached ctx vs n step s :
  regular → ready ctx vs n step → quorum_required step <= n →
  applicable p ctx s → sequence s <= sequence step → quorum_required s <= tally s vs.
Proof.
  intros Hreg (Ha & -> & Hq & Hv) Hle Hs Hlt.
  destruct (Z.eq_dec (sequence s) (sequence step)) as [E|]; [|apply Hq; [done|lia]].
  assert (s = step) as -> by (apply Hreg; [apply Hs|apply Ha|done]). done.
Qed.

Lemma count_vote_sound req q ctx item step n vs item' a :
  regular → item_status item = "pending" → policy_id q ≠ EmptyString →
  fair (requested_by_user_id item) (vs ++ [cast_vote req step]) →
  (∀ s, applicable p ctx s ↔ applicable p (context item) s) →
  (policy_id q = policy_id p → q = p ∧ ready (context item) vs n step) →
  count_vote req q ctx item step n vs = Done item' a → sound item'.
Proof.
  intros Hreg Hst Hid Hfair Hctx Hp Hc. unfold count_vote in Hc.
  destruct (apply_decision _ _ _) as [pdec|] eqn:Hd; [|done].
  set (vs' := vs ++ [cast_vote req step]) in *.
  assert (Some (policy_id q) ≠ Some EmptyString) by congruence.
  apply apply_decision_cases in Hd as [(_ & Ea & En) | (_ & En & [[Ea Hq] | [Ea Hq]])]; rewrite Ea in Hc; cbn in Hc.
  - injection Hc as <- <-. apply finish_sound. cbn. do 3 (split; [done|]). by split.
  - destruct (next_step_after q (sequence step) ctx) as [next|] eqn:Hn.
    + destruct (is_approval_policy_role _); [|done]. injection Hc as <- <-. apply finish_sound. cbn.
      do 3 (split; [done|]). rewrite Hst. split; [|done].
      intros [= E] _. destruct (Hp E) as [-> Hr]. exists next, 0. do 2 (split; [done|]).
      apply (ready_vote _ _ _ _ (cast_vote req step)) in Hr; [|done]. fold vs' in Hr.
      pose proof (next_step_after_spec p (sequence step) ctx) as Hnext. rewrite Hn in Hnext.
      destruct Hnext as (Ha & Hlt & Hmin). split; [by apply Hctx|]. split; [|split].
      * symmetry. apply tally_zero. intros v Hv. destruct Hr as (_ & _ & _ & Hv'). specialize (Hv' v Hv). lia.
      * intros s Hs Hs'. eapply ready_reached; try done.
        destruct (Z.le_gt_cases (sequence s) (sequence step)) as [|Hgt]; [done|].
        specialize (Hmin s (proj2 (Hctx s) Hs) ltac:(lia)). lia.
      * intros v Hv. destruct Hr as (_ & _ & _ & Hv'). specialize (Hv' v Hv). lia.
    + injection Hc as <- <-. apply finish_sound. cbn. do 3 (split; [done|]). split; [done|].
      intros [= E] _ s Hs. destruct (Hp E) as [-> Hr].
      apply (ready_vote _ _ _ _ (cast_vote req step)) in Hr; [|done].
      pose proof (next_step_after_spec p (sequence step) ctx) as Hnext. rewrite Hn in Hnext.
      eapply ready_reached; try done. by apply Hnext, Hctx.
  - injection Hc as <- <-. apply finish_sound. cbn. do 3 (split; [done|]). rewrite Hst. split; [|done].
    intros [= E] _. destruct (Hp E) as [-> Hr]. exists step, (n + 1). rewrite En. do 2 (split; [done|]).
    by apply (ready_vote _ _ _ _ (cast_vote req step)) in Hr.
Qed.


(** The checks before any policy. *)
Lemma authorise_ok req item dr :
  authorise req item = Ok dr →
  nonempty (Some (user_id_str (claims req))) = true ∧ item_status item = "pending" ∧
  (∀ e, expires_at item = Some e → now req <= e) ∧ ownership_verdict req ≠ Some false ∧
  (∀ role, dr = Some role → acts_as req role) ∧
  (ownership_verdict req = None →
   ∃ role, (role = user_role req ∨ dr = Some role) ∧
     _can_decide role (user_domains req) (default EmptyString (assignee_role item)) (agent_domain req) = true).
Proof.
  unfold authorise, raise_if. intros Hc.
  repeat (match type of Hc with mbind _ (if ?b then _ else _) = _ => destruct b eqn:?; [done|]; cbn in Hc end).
  split; [by apply negb_false_iff|]. split; [by apply String.eqb_eq, negb_false_iff|].
  split; [intros e He; rewrite He in *; lia|].
  destruct (ownership_verdict req) as [[]|]; [by simplify_eq|done|]. split; [done|].
  destruct (_can_decide _ _ _ _) eqn:Hd; [injection Hc as <-; split; [done|eauto]|].
  destruct (user_uuid req); [|done]. unfold delegated in Hc.
  destruct (List.find _ _) as [d|] eqn:Hf; cbn in Hc; [|done]. injection Hc as <-.
  apply List.find_some in Hf as [Hin Hf]. rewrite !andb_true_iff, !bool_decide_eq_true, Z.leb_le in Hf. destruct Hf as [[[[Hid Hrev] Hst] He] Hf]. split.
  - intros role [= <-]. right. exists d. split; [|done]. split_and!; try done; [by apply list_elem_of_In|]. intros e E. rewrite E in He. lia.
  - intros _. exists (delegator_role d). split; [by right|done].
Qed.

(** The step a vote is counted at, when the resolved policy is [p]. *)
Lemma current_step_ready item step :
  regular → sound item → item_status item = "pending" →
  (ps_policy_id (state_of item) = None ∨ ps_policy_id (state_of item) = Some (policy_id p)) →
  current_step p (state_of item) (item_context item) = Ok (Some step) →
  ready (context item) (votes item) (default 0 (ps_approvals_collected (state_of item))) step.
Proof.
  intros Hreg (_ & Hblank & _ & Hready & _) Hst [Hid | Hid] Hc; unfold votes, current_step in *.
  - destruct (Hblank Hid) as (E1 & E2 & E3). rewrite E1, E2, E3 in *. cbn in Hc |- *.
    pose proof (first_applicable_step_spec p (item_context item)) as Hf.
    injection Hc as Hc. rewrite Hc in Hf. destruct Hf as [Ha Hmin].
    split; [by apply applicable_item_context|]. split; [done|]. split.
    + intros s Hs Hlt. specialize (Hmin s (proj2 (applicable_item_context item s Hreg) Hs)). lia.
    + intros v []%not_elem_of_nil.
  - destruct (Hready Hid Hst) as (cur & n & E1 & E2 & Hr). rewrite E1, E2 in *. cbn in Hc |- *.
    pose proof (sequences_positive Hreg cur (proj1 (proj1 Hr))).
    destruct (Z.eqb_spec (sequence cur) 0) as [E0|_]; [lia|].
    assert (cur ∈ List.filter (λ s, sequence s =? sequence cur) (policy_steps p)) as Hin.
    { apply list_elem_of_In, filter_In. split; [apply list_elem_of_In, Hr|apply Z.eqb_refl]. }
    destruct (List.filter _ _) as [|x []]; simplify_eq. by apply list_elem_of_singleton in Hin as <-.
Qed.

(** An item that is in a policy is only decided under that policy. *)
Lemma bound_policy item policy :
  sound item →
  nonempty (ps_policy_id (state_of item)) &&
    negb (bool_decide (policy_id <$> policy = ps_policy_id (state_of item))) = false →
  ps_policy_id (state_of item) = None ∨
  ∃ q, policy = Some q ∧ ps_policy_id (state_of item) = Some (policy_id q).
Proof.
  intros (Hne & _). destruct (ps_policy_id (state_of item)) as [i|]; [|by left].
  destruct i as [|c i]; [done|]. cbn. case_bool_decide as E; [|done]. intros _. right.
  destruct policy as [q|]; [|done]. exists q. split; [done|]. by rewrite <- E.
Qed.

Lemma settle_decision_sound req dr policy item item' a :
  regular → admissible req → sound item → item_status item = "pending" →
  nonempty (Some (user_id_str (claims req))) = true →
  (∀ q, policy = Some q → q ∈ policies req) →
  (ps_policy_id (state_of item) = None ∨
   ∃ q, policy = Some q ∧ ps_policy_id (state_of item) = Some (policy_id q)) →
  settle_decision req dr policy item = Done item' a → sound item'.
Proof.
  intros Hreg Hadm Hs Hst Hne Hin Hbound Hd. pose proof Hs as (Hsid & Hblank & Hfair & Hready & Hquo).
  destruct policy as [q|]; cbn in Hd.
  2: { injection Hd as <- _. destruct Hbound as [Hnone|(q & ? & _)]; [|done]. apply finish_sound.
       do 3 (split; [done|]). by rewrite Hnone. }
  destruct (current_step q _ _) as [[step|]|] eqn:Hcur; [| |done].
  - destruct (check_voter _ _ _ _ _) as [[]|] eqn:Hv; [|done].
    apply check_voter_ok in Hv as (_ & _ & Hrq & Hdis).
    refine (count_vote_sound _ _ _ _ _ _ _ _ _ Hreg Hst _ _ _ _ Hd).
    + by apply Hadm, Hin.
    + apply fair_snoc; [done|..]; rewrite ?cast_vote_voter by done; [done|apply Hadm|done].
    + intros s. by apply applicable_item_context.
    + intros E. assert (q = p) as -> by (apply Hadm; auto). split; [done|].
      apply current_step_ready; try done. destruct Hbound as [?|(q & [= <-] & ?)]; auto.
  - injection Hd as <- _. apply finish_sound. do 3 (split; [done|]). split; [done|]. intros Hpid _ s Hs'.
    destruct (Hready Hpid Hst) as (cur & n & E1 & _ & Hr). exfalso.
    pose proof (sequences_positive Hreg cur (proj1 (proj1 Hr))).
    unfold current_step in Hcur. rewrite E1 in Hcur. cbn in Hcur.
    destruct (Z.eqb_spec (sequence cur) 0) as [E0|_]; [lia|]. repeat case_match; done.
Qed.

Lemma after_sound req item : regular → admissible req → sound item → sound (after item req).
Proof.
  intros Hreg Hadm Hs. unfold after, decide. destruct (authorise req item) as [dr|] eqn:Hau; [|done].
  apply authorise_ok in Hau as (Hne & Hst & _).
  destruct (resolve_policy _ _ _ _) as [policy|] eqn:Hres; [|done].
  pose proof (same_progress_sound _ _ (adopt_run_id_same item) Hs) as Hs1.
  destruct (nonempty _ && _) eqn:Hbound; [done|]. apply (bound_policy _ _ Hs1) in Hbound.
  destruct (refused_steps _ _ _) as [|z zs].
  2: { eapply same_progress_sound, Hs1. apply refuse_same. }
  pose proof (clear_refusal_same (adopt_run_id item)) as Hsame.
  pose proof (same_progress_sound _ _ Hsame Hs1) as Hs2.
  destruct (settle_decision _ _ _ _) as [| |item' a] eqn:Hd; [done| |].
  - exfalso. revert Hd. unfold settle_decision, count_vote. repeat case_match; done.
  - eapply settle_decision_sound; try done.
    + destruct Hsame as (-> & _). destruct (adopt_run_id_same item) as (-> & _). done.
    + intros q ->. by eapply resolve_policy_in.
    + destruct Hsame as (_ & _ & _ & E). injection E as -> _ _ _. done.
Qed.

Lemma history_sound reqs item : regular → Forall admissible reqs → sound item → sound (fold_left after reqs item).
Proof.
  intros Hreg Hall. revert item. induction Hall as [|r rs Hr _ IH]; intros item Hs; cbn; [done|].
  by apply IH, after_sound.
Qed.

Lemma fresh_sound item : policy_state item = None → sound item.
Proof.
  intros E. unfold sound, state_of. rewrite E. cbn. do 2 (split; [done|]). split; [apply fair_nil|done].
Qed.
End progress.

(** * Claims *)

(** C2. An item decided under a policy has the policy's quorum: however the
    requests on a fresh item interleave (refusals, errors, delegations, policies
    that come and go), while every caller has an identity, the policy [p] is not edited and its conditions do not
    read the item's voting state, if the item ends [decided] while bound to the policy [p],
    then every step of [p] that applies to the item has at least its required
    number of recorded votes, no two votes come from people sharing an identity,
    and none from the requester. *)
Theorem decided_item_has_quorum `{PyStr} `{ParseUuid} `{ConditionEvaluator} p reqs item0 :
  policy_state item0 = None → regular p → Forall (admissible p) reqs →
  item_status (fold_left after reqs item0) = "decided" →
  ps_policy_id (state_of (fold_left after reqs item0)) = Some (policy_id p) →
  let item := fold_left after reqs item0 in
  (∀ step, applicable p (context item) step → quorum_required step <= tally step (votes item)) ∧
  fair (requested_by_user_id item) (votes item).
Proof.
  intros Hfresh Hreg Hall Hst Hid item.
  destruct (history_sound p reqs item0 Hreg Hall (fresh_sound p item0 Hfresh)) as (_ & _ & Hfair & _ & Hq).
  split; [by apply Hq|done].
Qed.

(** A small tenant: two finance approvals, then one of the administrators, for
    items whose condition holds. *)
Module ApprovalExample.
Definition repr0 : PyStr := {|
  py_str := λ v, match v with VStr s => s | _ => "value" end; py_str_VStr := λ s, eq_refl |}.
Definition uuid0 : ParseUuid := λ s, if String.eqb s EmptyString then None else Some s.
Definition eval0 : ConditionEvaluator := λ c ctx,
  if String.eqb c "amount > 1000" then
    Some match dget ctx "amount" with VInt n => Some (1000 <? n) | _ => None end
  else Some (Some false).
Definition step1 : ApprovalStep := {|
  sequence := 1; approver_role := "cfo"; quorum_required := 2; quorum_total := 3; condition := None |}.
Definition step2 : ApprovalStep := {|
  sequence := 2; approver_role := "admin"; quorum_required := 1; quorum_total := 1;
  condition := Some "amount > 1000" |}.
Definition step3 : ApprovalStep := {|
  sequence := 3; approver_role := "admin"; quorum_required := 5; quorum_total := 5;
  condition := Some "never" |}.
Definition policy : ApprovalPolicy := {|
  policy_id := "p-1"; policy_name := "default"; policy_workflow := None; policy_agent := None;
  policy_steps := [step2; step1; step3] |}.
Definition item0 : Item := {|
  item_status := "pending"; expires_at := Some 100; assignee_role := Some "manager"; agent_id := Some "a-1";
  workflow_run_id := None; requested_by_user_id := Some "u-0"; context := [("amount", VInt 5000)];
  policy_state := None; decision := None; decision_by := None; decision_at := None; decision_notes := None |}.
Definition request (user role : string) (t : Z) : Request := {|
  claims := {| claim_user_id := Some user; claim_sub := Some (user +:+ "@example.com"); claim_email := None |};
  user_role := role; user_domains := None; body_decision := "approve"; body_notes := EmptyString;
  ownership_verdict := None; can_view := true; agent_domain := Some "finance"; delegations := [];
  policies := [policy]; deny_flag := Ok (true, false); now := t; now_text := "t" |}.
(** The requester's own vote, the same person twice and a second role-less user
    do not count. *)
Definition requests : list Request :=
  [request "u-0" "cfo" 1; request "u-1" "cfo" 2; request "U-1 " "cfo" 3; request "u-2" "staff" 4;
   request "u-3" "cfo" 5; request "u-4" "cfo" 6; request "u-5" "admin" 7].
#[local] Existing Instances repr0 uuid0 eval0.
Definition final : Item := fold_left after requests item0.
Example final_votes : vote_user_id <$> votes final = ["u-1"; "u-3"; "u-5"].
Proof. vm_compute. reflexivity. Qed.
Lemma policy_regular : regular policy.
Proof.
  split.
  - intros s Hs. cbn in Hs. set_unfold in Hs. naive_solver.
  - intros s s' Hs Hs' E. cbn in Hs, Hs'. set_unfold in Hs. set_unfold in Hs'. naive_solver.
  - intros s c ctx v Hs Hc. unfold evaluate_condition_strict, eval0, dget. rewrite assoc_dict_set. done.
Qed.
Lemma requests_admissible : Forall (admissible policy) requests.
Proof.
  unfold requests. repeat constructor.
  all: try (intros q Hq; cbn in Hq; set_unfold in Hq; naive_solver).
  all: apply (bool_decide_unpack _); vm_compute; exact I.
Qed.
End ApprovalExample.

Lemma decided_item_has_quorum_witness :
  tally ApprovalExample.step1 (votes ApprovalExample.final) = 2 ∧
  quorum_required ApprovalExample.step2 <= tally ApprovalExample.step2 (votes ApprovalExample.final).
Proof.
  split; [vm_compute; reflexivity|].
  apply (decided_item_has_quorum (H := ApprovalExample.repr0) (H0 := ApprovalExample.uuid0)
    (H1 := ApprovalExample.eval0) ApprovalExample.policy ApprovalExample.requests ApprovalExample.item0).
  - reflexivity.
  - apply ApprovalExample.policy_regular.
  - apply ApprovalExample.requests_admissible.
  - vm_compute. reflexivity.
  - vm_compute. reflexivity.
  - split; [set_solver|vm_compute; reflexivity].
Defined.



