(* ===== verification/Cases.v ===== *)
(** Governed cases: src/core/cases/states.py, store.py, decisions.py, the
    verifier of decision_requests.py, the transactions of runtime.py and of the
    case routes of src/api/v1/governed_cases.py.

    One case is modelled (looking it up is not): its row, its transition log and the push events queued
    for it.  An operation is a transaction on them; what it raises rolls it back.
    The row's columns are grouped in records ([Identity], [Documents]).

    Parameters: the schema validator ([Schemas]), the encryption of excerpts, the
    review of a disposition and the proposals of information requests
    ([CaseTools]), the issuer of decision grants ([Issuer]).  The answers of the
    agents are arguments.  Metrics, log lines, run evidence, announcements to the
    issuer and the delivery of pushes are left out; times are integers with their
    ISO text given by [iso]. *)

From Stdlib Require Import Ascii.
From S2P Require Import Prelude PyVal StepResults.

Local Open Scope Z_scope.

(** * The lifecycle *)

Inductive CaseState := SUBMITTED | IN_PROGRESS | AWAITING_DECISION | DECIDED | WITHDRAWN | FAILED.

#[global] Instance CaseState_eq_dec : EqDecision CaseState.
Proof. solve_decision. Defined.

Definition CaseState_value (s : CaseState) : string :=
  match s with
  | SUBMITTED => "submitted" | IN_PROGRESS => "in_progress" | AWAITING_DECISION => "awaiting_decision"
  | DECIDED => "decided" | WITHDRAWN => "withdrawn" | FAILED => "failed"
  end.

Definition case_states : list CaseState := [SUBMITTED; IN_PROGRESS; AWAITING_DECISION; DECIDED; WITHDRAWN; FAILED].

(** [CaseState(current)] *)
Definition CaseState_of (v : string) : option CaseState :=
  List.find (λ s, String.eqb (CaseState_value s) v) case_states.

Definition TRANSITIONS (s : CaseState) : list CaseState :=
  match s with
  | SUBMITTED => [IN_PROGRESS; WITHDRAWN]
  | IN_PROGRESS => [AWAITING_DECISION; FAILED]
  | AWAITING_DECISION => [DECIDED; WITHDRAWN; IN_PROGRESS]
  | FAILED => [IN_PROGRESS; WITHDRAWN]
  | DECIDED => []
  | WITHDRAWN => []
  end.

Definition TERMINAL : list CaseState :=
  List.filter (λ s, match TRANSITIONS s with [] => true | _ => false end) case_states.

(** [CaseError] with its reason and status; [Crash] is any other exception. *)
Inductive case_exn :=
| CaseError (reason : string) (status : Z)
| Crash.

Definition check_transition (current : string) (target : CaseState) : result case_exn CaseState :=
  match CaseState_of current with
  | None => Err (CaseError "case_state_unknown" 409)
  | Some s => if bool_decide (target ∈ TRANSITIONS s) then Ok s else Err (CaseError "transition_not_allowed" 409)
  end.

(** * Rows *)

Record Identity := {
  case_ref : string;
  tenant_id : string;
  purpose : string;
  provider : string;
  case_policy_id : string;
  application : dict;
  created_by : string;
  created_at : Z;
}.

Record Documents := {
  subject : option dict;
  memo : option dict;
  policy_result : option dict;
  ownership_graph : option dict;
  screening_results : list dict;
  parties : list dict;
  screening_dispositions : list dict;
  agent_records : list dict;
  excerpts_encrypted : list dict;
  information_requests : list dict;
  failure_reason : option string;
}.

Record CaseDecision := { outcome : string; approvers : list (string * string); decided_at : Z }.

Record GovernedCase := {
  identity : Identity;
  documents : Documents;
  state : string;
  version : Z;
  updated_at : Z;
  completed_at : option Z;
  decision : option CaseDecision;
  decision_requests : list dict;
}.

Record GovernedCaseTransition := {
  case_version : Z;
  from_state : option string;
  to_state : string;
  actor : string;
  reason : string;
  at_ : Z;
}.

(** The rows of one case; [outbox] has the type and the version of each push. *)
Record CaseDb := {
  row : GovernedCase;
  transitions : list GovernedCaseTransition;
  outbox : list (string * Z);
}.

Definition set_row (c : GovernedCase) (db : CaseDb) : CaseDb :=
  {| row := c; transitions := transitions db; outbox := outbox db |}.

Definition set_documents (d : Documents) (c : GovernedCase) : GovernedCase := {|
  identity := identity c; documents := d; state := state c; version := version c; updated_at := updated_at c;
  completed_at := completed_at c; decision := decision c; decision_requests := decision_requests c |}.

Definition set_decision (d : CaseDecision) (c : GovernedCase) : GovernedCase := {|
  identity := identity c; documents := documents c; state := state c; version := version c;
  updated_at := updated_at c; completed_at := completed_at c; decision := Some d;
  decision_requests := decision_requests c |}.

Definition set_decision_requests (rs : list dict) (c : GovernedCase) : GovernedCase := {|
  identity := identity c; documents := documents c; state := state c; version := version c;
  updated_at := updated_at c; completed_at := completed_at c; decision := decision c; decision_requests := rs |}.

(** [s[:n]] *)
Definition truncate (n : nat) (s : string) : string := of_chars (take n (chars s)).

(** * Interfaces *)

Class IsoTime := iso : Z → string.

(** [validate("business_case", document)] *)
Class Schemas := business_case_valid : dict → bool.

(** What the case operations call: [None] for an exception, a reason for a
    refusal. *)
Class CaseTools := {
  store_excerpts : list dict → list dict → string → option (list dict);
  apply_review : dict → dict → string → result string dict;
  propose : dict → dict → result string dict;
  render : dict → string → string → result string dict;
}.

(** The issuer's answers: the approvers and their grants; a refusal with its
    reason and detail; or another exception. *)
Definition issuer_answer : Type := result (option (string * string)) (list (string * string)).

Record Issuer := {
  consume : list string → dict → string → issuer_answer;
  consume_request : string → dict → string → issuer_answer;
}.

(** * The store *)

Definition name_char (c : ascii) : bool := is_lower_az c || is_digit c || is_underscore c.

Definition purpose_name (l : list ascii) : bool :=
  match l with [] => false | c :: l' => is_lower_az c && forallb name_char l' end.

Definition purpose_extension (l : list ascii) : bool :=
  match l with
  | x :: d :: c :: l' =>
      Ascii.eqb x "x" && Ascii.eqb d "-" && (is_lower_az c || is_digit c) &&
      forallb (λ c, is_lower_az c || is_digit c || Ascii.eqb c "-") l'
  | _ => false
  end.

(** [PURPOSE_RE.match] *)
Definition PURPOSE_RE (s : string) : bool :=
  match split_chars dot [] (drop_final_newline (chars s)) with
  | first :: ((_ :: _) as rest) => (purpose_name first || purpose_extension first) && forallb purpose_name rest
  | _ => false
  end.

Section cases.
Context `{PyStr} `{IsoTime} `{Schemas} `{CaseTools}.

Definition decision_value (d : CaseDecision) : pyval :=
  VMap [("outcome", VStr (outcome d));
        ("approvers", VList ((λ a, VMap [("approver", VStr a.1); ("decision_grant_id", VStr a.2)]) <$> approvers d));
        ("decided_at", VStr (iso (decided_at d)))].

Definition vdict (d : option dict) : pyval := match d with Some d => VMap d | None => VNone end.

Definition business_case_document (c : GovernedCase) : dict :=
  [("schema_version", VStr "1.0.0"); ("case_id", VStr (case_ref (identity c)));
   ("purpose", VStr (purpose (identity c))); ("state", VStr (state c));
   ("created_at", VStr (iso (created_at (identity c)))); ("updated_at", VStr (iso (updated_at c)));
   ("application", VMap (application (identity c))); ("subject", vdict (subject (documents c)));
   ("decision", if String.eqb (state c) (CaseState_value DECIDED)
                then match decision c with Some d => decision_value d | None => VNone end else VNone)].

Definition no_documents : Documents := {|
  subject := None; memo := None; policy_result := None; ownership_graph := None; screening_results := [];
  parties := []; screening_dispositions := []; agent_records := []; excerpts_encrypted := [];
  information_requests := []; failure_reason := None |}.

(** [new_ref] is the fresh reference. *)
Definition create_case (new_ref tenant : string) (app : dict) (purp prov policy creator : string) (now : Z) :
    result case_exn CaseDb :=
  _ ← raise_if (negb (PURPOSE_RE purp)) (CaseError "purpose_invalid" 422);
  let c := {|
    identity := {| case_ref := new_ref; tenant_id := tenant; purpose := purp; provider := prov;
      case_policy_id := policy; application := app; created_by := truncate 256 creator; created_at := now |};
    documents := no_documents; state := CaseState_value SUBMITTED; version := 1; updated_at := now;
    completed_at := None; decision := None; decision_requests := [] |} in
  _ ← raise_if (negb (business_case_valid (business_case_document c))) (CaseError "application_invalid" 422);
  Ok {| row := c;
        transitions := [{| case_version := 1; from_state := None; to_state := CaseState_value SUBMITTED;
          actor := truncate 256 creator; reason := "case_submitted"; at_ := now |}];
        outbox := [] |}.

(** [enqueue]: [push] says whether the tenant has an enabled endpoint; an event
    is identified by the case's version and its type. *)
Definition enqueue (push : bool) (event_type : string) (db : CaseDb) : CaseDb :=
  if push && negb (bool_decide ((event_type, version (row db)) ∈ outbox db))
  then {| row := row db; transitions := transitions db; outbox := outbox db ++ [(event_type, version (row db))] |}
  else db.

Definition event_type_for (c : GovernedCase) (target : CaseState) : option string :=
  match target with
  | AWAITING_DECISION =>
      let investigations := length (List.filter (λ r,
        match dget r "agent" with VStr a => String.eqb a "business_underwriter" | _ => false end)
        (agent_records (documents c))) in
      Some (if (investigations <=? 1)%nat then "case.completed" else "case.updated")
  | DECIDED => Some "case.decided"
  | WITHDRAWN | FAILED => Some "case.updated"
  | _ => None
  end.

Definition move (target : CaseState) (at_time : Z) (c : GovernedCase) : GovernedCase := {|
  identity := identity c; documents := documents c; state := CaseState_value target; version := version c + 1;
  updated_at := at_time;
  completed_at := if bool_decide (target = AWAITING_DECISION) then Some at_time else completed_at c;
  decision := decision c; decision_requests := decision_requests c |}.

Definition transition (push : bool) (target : CaseState) (who why : string) (expected_version : option Z)
    (now : Z) (db : CaseDb) : result case_exn CaseDb :=
  current ← check_transition (state (row db)) target;
  _ ← raise_if match expected_version with Some v => negb (version (row db) =? v) | None => false end
        (CaseError "case_version_conflict" 409);
  let c := move target now (row db) in
  let entry := {| case_version := version c; from_state := Some (CaseState_value current);
    to_state := CaseState_value target; actor := truncate 256 who; reason := truncate 128 why; at_ := now |} in
  let db' := {| row := c; transitions := transitions db ++ [entry]; outbox := outbox db |} in
  Ok match event_type_for c target with Some e => enqueue push e db' | None => db' end.

Definition record_update (push : bool) (now : Z) (db : CaseDb) : CaseDb :=
  let c := row db in
  enqueue push "case.updated" (set_row {|
    identity := identity c; documents := documents c; state := state c; version := version c + 1;
    updated_at := now; completed_at := completed_at c; decision := decision c;
    decision_requests := decision_requests c |} db).

Definition in_state (s : CaseState) (c : GovernedCase) : bool := String.eqb (state c) (CaseState_value s).

(** * Decisions *)

Definition DECISION_OUTCOMES : list string := ["approve"; "decline"].

Record DecisionCheck := { allowed : bool; check_reason : string; check_approvers : list (string * string) }.

Definition refused_check (why : string) : DecisionCheck :=
  {| allowed := false; check_reason := why; check_approvers := [] |}.

(** [str(subject.get(key, ''))] *)
Definition get_text (d : dict) (k : string) : string :=
  match assoc k d with Some v => py_str v | None => EmptyString end.

Definition semantic_action (c : GovernedCase) (out : string) : dict :=
  let s := default [] (subject (documents c)) in
  [("case_id", VStr (case_ref (identity c))); ("action", VStr "case_decision"); ("decision", VStr out);
   ("subject", VStr (get_text s "provider" +:+ ":" +:+ get_text s "provider_ref"))].

Definition case_action (c : GovernedCase) (out : string) : dict :=
  semantic_action c out ++ [("extra", VMap [("tenant", VStr (tenant_id (identity c)))])].

Definition str_eq (v : pyval) (s : string) : bool := match v with VStr t => String.eqb t s | _ => false end.

(** The approvals a recorded request needs. *)
Definition _recorded_approvals_required (c : GovernedCase) (request_id : string) : option Z :=
  match List.find (λ r, str_eq (dget r "request_id") request_id) (decision_requests c) with
  | Some r => match dget r "approvals_required" with
              | VInt n => if 1 <=? n then Some n else None
              | _ => None
              end
  | None => None
  end.

Definition _hold_to_recorded_approvals (consumed : list (string * string)) (required : Z) : bool :=
  (Z.of_nat (length consumed) =? required) && bool_decide (NoDup consumed.*1).

(** The check of [RequireDecisionGrant] ([None]) or of [ServiceDecisionVerifier];
    [None] when it raises. *)
Definition verify (verifier : option Issuer) (c : GovernedCase) (out : string) (grants : list string)
    (request_id : option string) : option DecisionCheck :=
  match verifier with
  | None => Some (refused_check "decision_required")
  | Some issuer =>
      let by_request := nonempty request_id in
      let presented := match grants with [] => false | _ => true end in
      if by_request && presented then Some (refused_check "decision_invalid")
      else if negb presented && negb by_request then Some (refused_check "decision_required")
      else
        let action := case_action c out in
        let answered (a : issuer_answer) := match a with
          | Ok who => Some {| allowed := true; check_reason := EmptyString; check_approvers := who |}
          | Err (Some (why, detail)) =>
              Some (refused_check (if String.eqb why "decision_invalid" then detail else why))
          | Err None => None
          end in
        if by_request then
          let rid := default EmptyString request_id in
          match _recorded_approvals_required c rid with
          | None => Some (refused_check "decision_request_not_found")
          | Some required =>
              match consume_request issuer rid action (pretty (version c)) with
              | Ok who => if _hold_to_recorded_approvals who required then answered (Ok who)
                          else Some (refused_check "decision_service_response_invalid")
              | a => answered a
              end
          end
        else answered (consume issuer grants action (pretty (version c)))
  end.

Definition record_decision (push : bool) (out : string) (grants : list string) (verifier : option Issuer)
    (who : string) (now : Z) (request_id : option string) (db : CaseDb) : result case_exn CaseDb :=
  let c := row db in
  _ ← raise_if (negb (bool_decide (out ∈ DECISION_OUTCOMES))) (CaseError "decision_outcome_invalid" 422);
  _ ← raise_if (negb (in_state AWAITING_DECISION c)) (CaseError "transition_not_allowed" 409);
  match verify verifier c out grants (if nonempty request_id then request_id else None) with
  | None => Err (CaseError "decision_invalid" 403)
  | Some check =>
      if negb (allowed check) || match check_approvers check with [] => true | _ => false end then
        Err (CaseError (if nonempty (Some (check_reason check)) then check_reason check else "decision_required") 403)
      else
        let d := {| outcome := out; approvers := check_approvers check; decided_at := now |} in
        _ ← raise_if (negb (business_case_valid
              (dict_set "decision" (decision_value d)
                 (dict_set "state" (VStr "decided") (business_case_document c)))))
              (CaseError "decision_document_invalid" 422);
        transition push DECIDED who ("decision_" +:+ out) None now (set_row (set_decision d c) db)
  end.

(** * Investigations *)

Record Outcome := {
  out_status : string;
  out_failure_reason : string;
  out_memo : option dict;
  out_ownership_graph : option dict;
  out_screening_results : list dict;
  out_parties : list dict;
  out_excerpts : list dict;
  out_record : dict;
}.

(** What the run of the underwriter came to: no policy, no provider, an agent
    error ([Ran None]) or an outcome. *)
Inductive agent_run := NoPolicy | NoProvider | Ran (o : option Outcome).

Definition run_outcome (r : agent_run) : option Outcome := match r with Ran o => o | _ => None end.

Definition run_failure (r : agent_run) : string :=
  match r with
  | NoPolicy => "policy_not_configured"
  | NoProvider => "provider_unavailable"
  | Ran None => "investigation_error"
  | Ran (Some o) => if String.eqb (out_status o) "completed" then EmptyString else out_failure_reason o
  end.

(** The gates before a run: the feature flag, the agent's identity and the
    authorizer. *)
Record Gates := { enabled : bool; identity_ok : bool; authorizer_ok : bool }.

Definition AUTHORIZATION_UNAVAILABLE : string := "authorization_unavailable".

Definition require_enabled (b : bool) : result case_exn unit :=
  raise_if (negb b) (CaseError "governed_cases_disabled" 404).

(** First transaction of [investigate_case]: the started version, and whether the
    state is to be kept on failure. *)
Definition investigate_start (push : bool) (g : Gates) (who why : string) (keep_state_on_failure : bool) (now : Z)
    (db : CaseDb) : result case_exn (CaseDb * (Z * bool)) :=
  _ ← require_enabled (enabled g);
  _ ← raise_if (negb (identity_ok g)) (CaseError AUTHORIZATION_UNAVAILABLE 503);
  _ ← raise_if (negb (authorizer_ok g)) (CaseError AUTHORIZATION_UNAVAILABLE 503);
  let started_state := state (row db) in
  db' ← transition push IN_PROGRESS who why None now db;
  Ok (db', (version (row db'), keep_state_on_failure && String.eqb started_state (CaseState_value AWAITING_DECISION))).

Definition add_records (rs : list dict) (d : Documents) : Documents := {|
  subject := subject d; memo := memo d; policy_result := policy_result d; ownership_graph := ownership_graph d;
  screening_results := screening_results d; parties := parties d; screening_dispositions := screening_dispositions d;
  agent_records := agent_records d ++ rs; excerpts_encrypted := excerpts_encrypted d;
  information_requests := information_requests d; failure_reason := failure_reason d |}.

Definition set_failure (r : string) (d : Documents) : Documents := {|
  subject := subject d; memo := memo d; policy_result := policy_result d; ownership_graph := ownership_graph d;
  screening_results := screening_results d; parties := parties d; screening_dispositions := screening_dispositions d;
  agent_records := agent_records d; excerpts_encrypted := excerpts_encrypted d;
  information_requests := information_requests d; failure_reason := Some r |}.

(** [value[key]] *)
Definition getitem (v : pyval) (k : string) : option pyval :=
  match v with VMap d => assoc k d | _ => None end.

Definition as_dict (v : pyval) : option dict := match v with VMap d => Some d | _ => None end.
Definition as_list (v : pyval) : option (list pyval) := match v with VList l => Some l | _ => None end.

(** The lookups of the returned summary, inside the transaction. *)
Definition summary_ok (m : dict) (results : list dict) : option unit :=
  _ ← (assoc "recommendation" m ≫= λ v, getitem v "proposed");
  _ ← (assoc "policy_result" m ≫= λ v, getitem v "tier");
  _ ← mapM (λ r, assoc "hits" r ≫= as_list) results;
  items ← (assoc "missing_items" m ≫= as_list);
  _ ← mapM (λ i, getitem i "item") items;
  Some tt.

Definition investigated (o : Outcome) (m subj pol : dict) (ex : list dict) (d : Documents) : Documents := {|
  subject := Some subj; memo := Some m; policy_result := Some pol; ownership_graph := out_ownership_graph o;
  screening_results := out_screening_results o; parties := out_parties o; screening_dispositions := [];
  agent_records := agent_records d; excerpts_encrypted := ex;
  information_requests := information_requests d; failure_reason := None |}.

Definition holds_memo (d : Documents) : bool := match memo d with Some (_ :: _) => true | _ => false end.

(** A run that left no memo: the case keeps the one it had, or fails. *)
Definition store_failure (push : bool) (who : string) (keep : bool) (r : agent_run) (docs : Documents) (now : Z)
    (db : CaseDb) : result case_exn CaseDb :=
  let why := truncate 128 (if nonempty (Some (run_failure r)) then run_failure r else "investigation_failed") in
  if keep && holds_memo docs then
    transition push AWAITING_DECISION who (truncate 128 ("re_evaluation_failed:" +:+ why)) None now
      (set_row (set_documents docs (row db)) db)
  else
    transition push FAILED who why None now (set_row (set_documents (set_failure why docs) (row db)) db).

(** A run with a memo.  The memo's subject and policy result are mappings, as the
    memo's schema has it. *)
Definition store_memo (push : bool) (who : string) (o : Outcome) (m : dict) (docs : Documents) (now : Z)
    (db : CaseDb) : result case_exn CaseDb :=
  match (assoc "subject" m ≫= as_dict), (assoc "policy_result" m ≫= as_dict),
        store_excerpts (excerpts_encrypted docs) (out_excerpts o) (iso now),
        summary_ok m (out_screening_results o) with
  | Some subj, Some pol, Some ex, Some _ =>
      transition push AWAITING_DECISION who "memo_ready" None now
        (set_row (set_documents (investigated o m subj pol ex docs) (row db)) db)
  | _, _, _, _ => Err Crash
  end.

(** [_store_investigation]: the second transaction. *)
Definition store_investigation (push : bool) (who : string) (started_version : Z) (keep : bool) (r : agent_run)
    (now : Z) (db : CaseDb) : result case_exn CaseDb :=
  _ ← raise_if (negb (version (row db) =? started_version)) (CaseError "case_version_conflict" 409);
  let docs := documents (row db) in
  match run_outcome r with
  | None => store_failure push who keep r docs now db
  | Some o =>
      let docs := add_records [out_record o] docs in
      match out_memo o with
      | Some m => if nonempty (Some (run_failure r)) then store_failure push who keep r docs now db
                  else store_memo push who o m docs now db
      | None => store_failure push who keep r docs now db
      end
  end.

(** * Dispositions *)

(** What the first transaction of [dispose_screening_hits] reads. *)
Record DispositionRead := {
  read_version : Z;
  read_results : list dict;
  read_parties : list dict;
  read_existing : list pyval;
}.

Definition dispose_read (on : bool) (db : CaseDb) : result case_exn DispositionRead :=
  _ ← require_enabled on;
  _ ← raise_if (negb (in_state AWAITING_DECISION (row db))) (CaseError "transition_not_allowed" 409);
  match mapM (assoc "hit_id") (screening_dispositions (documents (row db))) with
  | None => Err Crash
  | Some ids => Ok {| read_version := version (row db); read_results := screening_results (documents (row db));
                      read_parties := parties (documents (row db)); read_existing := ids |}
  end.

(** One run of the disposition agent: its record, its excerpts, its proposal. *)
Record DispositionOutcome := {
  disp_record : dict;
  disp_excerpts : list dict;
  disposition : option dict;
}.

(** The hits that get a run: with a party, wanted and without a disposition.
    Names and ids are scalars. *)
Definition hits_of (rd : DispositionRead) (hit_ids : option (list string)) (result : dict) :
    option (list (dict * dict * dict)) :=
  name ← (assoc "subject" result ≫= λ v, getitem v "name");
  let party := List.find (λ p, scalar_eqb (dget p "name") name) (read_parties rd) in
  hits ← (assoc "hits" result ≫= as_list);
  hits ← mapM as_dict hits;
  todo ← mapM (λ h, hid ← assoc "hit_id" h;
                    Some (h, negb (existsb (scalar_eqb hid) (read_existing rd)) &&
                             match hit_ids with Some ids => existsb (λ i, scalar_eqb hid (VStr i)) ids | None => true end))
           hits;
  Some match party with
       | Some p => (λ hb, (result, hb.1, p)) <$> List.filter snd todo
       | None => []
       end.

(** The agent's runs, in order. *)
Definition dispose_runs (agent : dict → dict → dict → DispositionOutcome) (rd : DispositionRead)
    (hit_ids : option (list string)) : option (list DispositionOutcome) :=
  todo ← mapM (hits_of rd hit_ids) (read_results rd);
  Some ((λ rhp, agent rhp.1.1 rhp.1.2 rhp.2) <$> concat todo).

(** The second transaction of [dispose_screening_hits], after the runs. *)
Definition dispose_store (push : bool) (rd : DispositionRead) (outs : list DispositionOutcome) (now : Z)
    (db : CaseDb) : result case_exn CaseDb :=
  _ ← raise_if (negb (version (row db) =? read_version rd)) (CaseError "case_version_conflict" 409);
  let d := documents (row db) in
  match store_excerpts (excerpts_encrypted d) (outs ≫= disp_excerpts) (iso now) with
  | None => Err Crash
  | Some ex =>
      Ok (record_update push now (set_row (set_documents {|
        subject := subject d; memo := memo d; policy_result := policy_result d; ownership_graph := ownership_graph d;
        screening_results := screening_results d; parties := parties d;
        screening_dispositions := screening_dispositions d ++ omap disposition outs;
        agent_records := agent_records d ++ (disp_record <$> outs); excerpts_encrypted := ex;
        information_requests := information_requests d; failure_reason := failure_reason d |} (row db)) db))
  end.

(** * The routes *)

Definition REFERENCE_KEYS : list string :=
  ["excerpt_ref"; "provider"; "record_id"; "media_type"; "sha256"; "fields"; "captured_at"].

Definition reference (entry : dict) : dict :=
  omap (λ k, (λ v, (k, v)) <$> assoc k entry) REFERENCE_KEYS.

Definition forget (existing : list dict) : list dict := reference <$> existing.

Definition set_excerpts (ex : list dict) (d : Documents) : Documents := {|
  subject := subject d; memo := memo d; policy_result := policy_result d; ownership_graph := ownership_graph d;
  screening_results := screening_results d; parties := parties d; screening_dispositions := screening_dispositions d;
  agent_records := agent_records d; excerpts_encrypted := ex; information_requests := information_requests d;
  failure_reason := failure_reason d |}.

Definition set_dispositions (ds : list dict) (d : Documents) : Documents := {|
  subject := subject d; memo := memo d; policy_result := policy_result d; ownership_graph := ownership_graph d;
  screening_results := screening_results d; parties := parties d; screening_dispositions := ds;
  agent_records := agent_records d; excerpts_encrypted := excerpts_encrypted d;
  information_requests := information_requests d; failure_reason := failure_reason d |}.

Definition set_information (rs : list dict) (d : Documents) : Documents := {|
  subject := subject d; memo := memo d; policy_result := policy_result d; ownership_graph := ownership_graph d;
  screening_results := screening_results d; parties := parties d; screening_dispositions := screening_dispositions d;
  agent_records := agent_records d; excerpts_encrypted := excerpts_encrypted d; information_requests := rs;
  failure_reason := failure_reason d |}.

(** A human session, as [human_actor_for] finds it; [None] is refused. *)
Definition human_actor_for (session : option string) : result case_exn string :=
  match session with Some a => Ok a | None => Err (CaseError "human_session_required" 403) end.

Definition forget_case_excerpts (push : bool) (session : option string) (on : bool) (now : Z) (db : CaseDb) :
    result case_exn CaseDb :=
  _ ← human_actor_for session;
  _ ← require_enabled on;
  let d := documents (row db) in
  Ok (record_update push now
        (set_row (set_documents (set_excerpts (forget (excerpts_encrypted d)) d) (row db)) db)).

Definition withdraw_case (push : bool) (session : option string) (on : bool) (now : Z) (db : CaseDb) :
    result case_exn CaseDb :=
  who ← human_actor_for session;
  _ ← require_enabled on;
  transition push WITHDRAWN who "withdrawn" None now db.

(** The first entry with [entry.get(key) == value], by its index. *)
Fixpoint find_index (key value : string) (i : nat) (l : list dict) : option (nat * dict) :=
  match l with
  | [] => None
  | e :: l' => if str_eq (dget e key) value then Some (i, e) else find_index key value (S i) l'
  end.

Definition review_screening_disposition (push : bool) (session : option string) (on : bool) (hit_id : string)
    (body : dict) (now : Z) (db : CaseDb) : result case_exn CaseDb :=
  analyst ← human_actor_for session;
  _ ← require_enabled on;
  _ ← raise_if (negb (in_state AWAITING_DECISION (row db))) (CaseError "transition_not_allowed" 409);
  let d := documents (row db) in
  match find_index "hit_id" hit_id 0 (screening_dispositions d) with
  | None => Err (CaseError "disposition_not_found" 404)
  | Some (i, disp) =>
      match apply_review disp body analyst with
      | Err why => Err (CaseError why (if String.eqb why "already_reviewed" then 409 else 422))
      | Ok disp' => Ok (record_update push now
          (set_row (set_documents (set_dispositions (<[i := disp']> (screening_dispositions d)) d) (row db)) db))
      end
  end.

Definition propose_information_request (push : bool) (on : bool) (template : dict) (now : Z) (db : CaseDb) :
    result case_exn CaseDb :=
  _ ← require_enabled on;
  let d := documents (row db) in
  match memo d with
  | Some ((_ :: _) as m) =>
      _ ← raise_if (negb (in_state AWAITING_DECISION (row db))) (CaseError "transition_not_allowed" 409);
      match propose m template with
      | Err why => Err (CaseError why 422)
      | Ok proposal =>
          let existing := List.filter (λ r,
            negb (scalar_eqb (dget r "proposal_sha256") (dget proposal "proposal_sha256"))) (information_requests d) in
          Ok (record_update push now (set_row (set_documents (set_information
            (existing ++ [dict_set "status" (VStr "awaiting_approval") proposal]) d) (row db)) db))
      end
  | _ => Err (CaseError "transition_not_allowed" 409)
  end.

Definition approve_information_request (push : bool) (session : option string) (on : bool) (sha : string)
    (now : Z) (db : CaseDb) : result case_exn CaseDb :=
  approver ← human_actor_for session;
  _ ← require_enabled on;
  _ ← raise_if (negb (in_state AWAITING_DECISION (row db))) (CaseError "transition_not_allowed" 409);
  let d := documents (row db) in
  match find_index "proposal_sha256" sha 0 (information_requests d) with
  | None => Err (CaseError "information_request_not_found" 404)
  | Some (i, proposal) =>
      _ ← raise_if (negb (str_eq (dget proposal "status") "awaiting_approval"))
            (CaseError "information_request_not_pending" 409);
      match render proposal approver sha with
      | Err why => Err (CaseError why 422)
      | Ok rendered =>
          let approved := dict_set "approved_at" (VStr (iso now))
            (dict_set "request" (VMap rendered) (dict_set "status" (VStr "approved") proposal)) in
          Ok (record_update push now (set_row (set_documents
            (set_information (<[i := approved]> (information_requests d)) d) (row db)) db))
      end
  end.

Definition decide_case (push : bool) (on : bool) (out : string) (grants : list string) (verifier : option Issuer)
    (who : string) (now : Z) (request_id : option string) (db : CaseDb) : result case_exn CaseDb :=
  _ ← require_enabled on;
  record_decision push out grants verifier who now request_id db.

(** What the issuer answers to a new decision request; [view_fields] are the other
    entries of the stored record (page, hash, who asked and when). *)
Record RequestView := { request_id : string; approvals_required : Z; view_fields : dict }.

(** The first transaction of [request_case_decision]: the case shown to the
    approver. *)
Definition request_read (session : option string) (on configured : bool) (db : CaseDb) :
    result case_exn GovernedCase :=
  _ ← human_actor_for session;
  _ ← require_enabled on;
  _ ← raise_if (negb configured) (CaseError "decision_service_not_configured" 503);
  _ ← raise_if (negb (in_state AWAITING_DECISION (row db))) (CaseError "transition_not_allowed" 409);
  match memo (documents (row db)), policy_result (documents (row db)) with
  | Some (_ :: _), Some (_ :: _) => Ok (row db)
  | _, _ => Err (CaseError "memo_not_ready" 409)
  end.

(** Its second transaction: the request is recorded without a new version. *)
Definition request_store (shown_version : Z) (out : string) (view : RequestView) (db : CaseDb) :
    result case_exn CaseDb :=
  _ ← raise_if (negb (String.eqb (pretty (version (row db))) (pretty shown_version)))
        (CaseError "case_version_conflict" 409);
  let existing := List.filter (λ r, negb (str_eq (dget r "request_id") (request_id view)))
                    (decision_requests (row db)) in
  let record := [("request_id", VStr (request_id view)); ("outcome", VStr out);
                 ("case_version", VStr (pretty shown_version));
                 ("approvals_required", VInt (approvals_required view))] ++ view_fields view in
  Ok (set_row (set_decision_requests (existing ++ [record]) (row db)) db).
End cases.
