(* ===== verification/CaseSystem.v ===== *)
(** The life of a governed case: every operation of [Cases] in any order.

    Operations that release the case between two transactions (investigations,
    dispositions, decision requests) leave a task behind, and the second
    transaction may come at any later time, or never.  [issued] is what the issuer
    of decision grants was asked to approve: the action, the version and the case
    shown to the approver.  A label carries the inputs of one step, so a history is
    a list of labels and [run] executes it. *)

From S2P Require Import Prelude PyVal StepResults Cases.

Local Open Scope Z_scope.

Inductive task :=
| TInvestigate (started_version : Z) (keep : bool)
| TDispose (rd : DispositionRead)
| TRequest (shown_version : Z) (out : string) (view : RequestView).

Record Issued := {
  issued_action : dict;
  issued_version : string;
  issued_outcome : string;
  issued_case : GovernedCase;
}.

Record System := { db : CaseDb; tasks : list task; issued : list Issued }.

Inductive label :=
| Start (push : bool) (g : Gates) (who why : string) (keep : bool) (now : Z)
| Store (i : nat) (push : bool) (who : string) (r : agent_run) (now : Z)
| DisposeRead (on : bool)
| DisposeStore (i : nat) (push : bool) (g : Gates) (agent : dict → dict → dict → DispositionOutcome)
    (hit_ids : option (list string)) (now : Z)
| Forget (push : bool) (session : option string) (on : bool) (now : Z)
| Withdraw (push : bool) (session : option string) (on : bool) (now : Z)
| Review (push : bool) (session : option string) (on : bool) (hit_id : string) (body : dict) (now : Z)
| Propose (push : bool) (on : bool) (template : dict) (now : Z)
| ApproveInformation (push : bool) (session : option string) (on : bool) (sha : string) (now : Z)
| Decide (push : bool) (on : bool) (out : string) (grants : list string) (verifier : option Issuer)
    (who : string) (now : Z) (rid : option string)
| RequestOpen (session : option string) (on configured : bool) (out : string) (view : option RequestView)
| RequestStore (i : nat)
| Abandon (i : nat).

Section system.
Context `{PyStr} `{IsoTime} `{Schemas} `{CaseTools}.

Definition init (d : CaseDb) : System := {| db := d; tasks := []; issued := [] |}.

Definition with_db (d : CaseDb) (s : System) : System := {| db := d; tasks := tasks s; issued := issued s |}.

Definition add_task (t : task) (s : System) : System := {| db := db s; tasks := t :: tasks s; issued := issued s |}.

Definition drop_task (i : nat) (s : System) : System :=
  {| db := db s; tasks := take i (tasks s) ++ drop (S i) (tasks s); issued := issued s |}.

(** A transaction that raises leaves the rows as they were. *)
Definition commit (r : result case_exn CaseDb) (s : System) : System :=
  match r with Ok d => with_db d s | Err _ => s end.

Definition step (l : label) (s : System) : System :=
  match l with
  | Start push g who why keep now =>
      match investigate_start push g who why keep now (db s) with
      | Ok (d, (v, k)) => add_task (TInvestigate v k) (with_db d s)
      | Err _ => s
      end
  | Store i push who r now =>
      match tasks s !! i with
      | Some (TInvestigate v k) => commit (store_investigation push who v k r now (db s)) (drop_task i s)
      | _ => s
      end
  | DisposeRead on =>
      match dispose_read on (db s) with Ok rd => add_task (TDispose rd) s | Err _ => s end
  | DisposeStore i push g agent hit_ids now =>
      match tasks s !! i with
      | Some (TDispose rd) =>
          match dispose_runs agent rd hit_ids with
          | Some outs => if identity_ok g && authorizer_ok g
                         then commit (dispose_store push rd outs now (db s)) (drop_task i s) else drop_task i s
          | None => drop_task i s
          end
      | _ => s
      end
  | Forget push session on now => commit (forget_case_excerpts push session on now (db s)) s
  | Withdraw push session on now => commit (withdraw_case push session on now (db s)) s
  | Review push session on hit_id body now =>
      commit (review_screening_disposition push session on hit_id body now (db s)) s
  | Propose push on template now => commit (propose_information_request push on template now (db s)) s
  | ApproveInformation push session on sha now =>
      commit (approve_information_request push session on sha now (db s)) s
  | Decide push on out grants verifier who now rid =>
      commit (decide_case push on out grants verifier who now rid (db s)) s
  | RequestOpen session on configured out view =>
      match request_read session on configured (db s), view with
      | Ok shown, Some v =>
          {| db := db s; tasks := TRequest (version shown) out v :: tasks s;
             issued := {| issued_action := case_action shown out; issued_version := pretty (version shown);
                          issued_outcome := out; issued_case := shown |} :: issued s |}
      | _, _ => s
      end
  | RequestStore i =>
      match tasks s !! i with
      | Some (TRequest v out view) => commit (request_store v out view (db s)) (drop_task i s)
      | _ => s
      end
  | Abandon i => drop_task i s
  end.

Definition run (ls : list label) (s : System) : System := fold_left (λ s l, step l s) ls s.
End system.

Create HintDb cases.

(** * What an operation may change *)

Record updated (d d' : CaseDb) : Prop := {
  up_state : state (row d') = state (row d);
  up_version : version (row d') = version (row d) + 1;
  up_identity : identity (row d') = identity (row d);
  up_decision : decision (row d') = decision (row d);
  up_requests : decision_requests (row d') = decision_requests (row d);
  up_log : transitions d' = transitions d;
  up_memo : memo (documents (row d')) = memo (documents (row d));
  up_docs : in_state AWAITING_DECISION (row d) = true ∨
            set_excerpts [] (documents (row d')) = set_excerpts [] (documents (row d));
}.

Record moved (from to : CaseState) (d d' : CaseDb) : Prop := {
  mv_from : state (row d) = CaseState_value from;
  mv_to : state (row d') = CaseState_value to;
  mv_allowed : to ∈ TRANSITIONS from;
  mv_version : version (row d') = version (row d) + 1;
  mv_identity : identity (row d') = identity (row d);
  mv_requests : decision_requests (row d') = decision_requests (row d);
  mv_log : ∃ e, transitions d' = transitions d ++ [e] ∧ case_version e = version (row d') ∧
                from_state e = Some (CaseState_value from) ∧ to_state e = CaseState_value to;
  mv_docs : from ≠ IN_PROGRESS → documents (row d') = documents (row d);
  mv_memo : to = AWAITING_DECISION → holds_memo (documents (row d')) = true;
  mv_decision : to ≠ DECIDED → decision (row d') = decision (row d);
}.

Definition recorded (d d' : CaseDb) : Prop :=
  in_state AWAITING_DECISION (row d) = true ∧ ∃ rs, d' = set_row (set_decision_requests rs (row d)) d.

Definition change (d d' : CaseDb) : Prop :=
  d' = d ∨ recorded d d' ∨ updated d d' ∨ ∃ from to, moved from to d d'.

Lemma CaseState_of_value v s : CaseState_of v = Some s ↔ v = CaseState_value s.
Proof.
  split; [|intros ->; by destruct s]. intros [_ E]%List.find_some. by apply String.eqb_eq in E.
Qed.

Lemma CaseState_value_inj s t : CaseState_value s = CaseState_value t → s = t.
Proof. by destruct s, t. Qed.

Lemma in_state_true s c : in_state s c = true ↔ state c = CaseState_value s.
Proof. apply String.eqb_eq. Qed.

Lemma enqueue_row push e d : row (enqueue push e d) = row d.
Proof. unfold enqueue. by case_match. Qed.

Lemma enqueue_log push e d : transitions (enqueue push e d) = transitions d.
Proof. unfold enqueue. by case_match. Qed.

(** A transition follows the lifecycle and is logged. *)
Lemma transition_ok push target who why exp now d d' :
  transition push target who why exp now d = Ok d' →
  ∃ from, state (row d) = CaseState_value from ∧ target ∈ TRANSITIONS from ∧ row d' = move target now (row d) ∧
    ∃ e, transitions d' = transitions d ++ [e] ∧ case_version e = version (row d') ∧
         from_state e = Some (CaseState_value from) ∧ to_state e = CaseState_value target.
Proof.
  unfold transition, check_transition. intros Ht.
  destruct (CaseState_of (state (row d))) as [from|] eqn:Hfrom; [|done].
  apply CaseState_of_value in Hfrom. case_bool_decide as Hallowed; [|done]. cbn in Ht.
  unfold raise_if in Ht. destruct (match exp with Some v => _ | None => _ end); [done|]. cbn in Ht.
  injection Ht as <-. exists from. do 2 (split; [done|]).
  destruct (event_type_for _ _); rewrite ?enqueue_row, ?enqueue_log; (split; [done|]); eexists; done.
Qed.

Lemma transition_moved push target who why now d d' docs :
  transition push target who why None now (set_row (set_documents docs (row d)) d) = Ok d' →
  (target = AWAITING_DECISION → holds_memo docs = true) →
  (target = AWAITING_DECISION ∨ target = FAILED ∨ docs = documents (row d)) →
  ∃ from, moved from target d d'.
Proof.
  intros (from & Hst & Hal & Hrow & Hlog)%transition_ok Hmemo Hdocs. exists from. cbn in *.
  rewrite Hrow in Hlog. split; rewrite ?Hrow; try done.
  - intros Hne. cbn. destruct Hdocs as [-> | [-> | Hd]]; [..|done]; destruct from; set_solver.
Qed.

Lemma set_documents_same d : set_row (set_documents (documents (row d)) (row d)) d = d.
Proof. by destruct d as [[] ?]. Qed.

Lemma transition_moved_plain push target who why now d d' :
  transition push target who why None now d = Ok d' → target ≠ AWAITING_DECISION →
  ∃ from, moved from target d d'.
Proof.
  intros Ht Hne. eapply (transition_moved _ _ _ _ _ _ _ (documents (row d))); [|done|auto].
  by rewrite set_documents_same.
Qed.

Lemma record_update_updated push now d docs :
  memo docs = memo (documents (row d)) →
  in_state AWAITING_DECISION (row d) = true ∨ set_excerpts [] docs = set_excerpts [] (documents (row d)) →
  updated d (record_update push now (set_row (set_documents docs (row d)) d)).
Proof. intros Hm Hd. split; unfold record_update; rewrite ?enqueue_row, ?enqueue_log; done. Qed.

(** * The operations *)

Section changes.
Context `{PyStr} `{IsoTime} `{Schemas} `{CaseTools}.

(** A task still to be stored at the present version knows the state. *)
Definition task_ok (c : GovernedCase) (t : task) : Prop :=
  match t with
  | TInvestigate v _ => v <= version c
  | TDispose rd => read_version rd <= version c ∧
                   (read_version rd = version c → in_state AWAITING_DECISION c = true)
  | TRequest v _ _ => v <= version c ∧ (v = version c → in_state AWAITING_DECISION c = true)
  end.

Ltac open_ok H :=
  repeat first
    [ progress (unfold raise_if, require_enabled, human_actor_for in H; cbn in H)
    | match type of H with
      | mbind _ (if ?b then _ else _) = Ok _ => destruct b eqn:?; [discriminate H|]
      | mbind _ (match ?o with _ => _ end) = Ok _ => destruct o eqn:?; [|discriminate H]
      | (if ?b then _ else _) = Ok _ => destruct b eqn:?; [discriminate H|]
      end ].

Lemma forget_change push session on now d d' :
  forget_case_excerpts push session on now d = Ok d' → updated d d'.
Proof.
  unfold forget_case_excerpts. intros Hok. open_ok Hok. injection Hok as <-.
  apply record_update_updated; [done|]. by right.
Qed.

Lemma withdraw_change push session on now d d' :
  withdraw_case push session on now d = Ok d' → ∃ from, moved from WITHDRAWN d d'.
Proof. unfold withdraw_case. intros Hok. open_ok Hok. by eapply transition_moved_plain. Qed.

Lemma review_change push session on hit_id body now d d' :
  review_screening_disposition push session on hit_id body now d = Ok d' → updated d d'.
Proof.
  unfold review_screening_disposition. intros Hok. open_ok Hok.
  destruct (find_index _ _ _ _) as [[i disp]|]; [|done]. destruct (apply_review _ _ _); [|done].
  injection Hok as <-. apply record_update_updated; [done|]. left. by apply negb_false_iff.
Qed.

Lemma propose_change push on template now d d' :
  propose_information_request push on template now d = Ok d' → updated d d'.
Proof.
  unfold propose_information_request. intros Hok. open_ok Hok.
  destruct (memo (documents (row d))) as [[|kv m]|] eqn:Hm; try done. open_ok Hok.
  destruct (propose _ _); [|done]. injection Hok as <-.
  apply record_update_updated; [done|]. left. by apply negb_false_iff.
Qed.

Lemma approve_change push session on sha now d d' :
  approve_information_request push session on sha now d = Ok d' → updated d d'.
Proof.
  unfold approve_information_request. intros Hok. open_ok Hok.
  destruct (find_index _ _ _ _) as [[i prop]|]; [|done]. open_ok Hok. destruct (render _ _ _); [|done].
  injection Hok as <-. apply record_update_updated; [done|]. left. by apply negb_false_iff.
Qed.

Lemma dispose_change push rd outs now d d' :
  task_ok (row d) (TDispose rd) → dispose_store push rd outs now d = Ok d' → updated d d'.
Proof.
  unfold dispose_store. intros [_ Ht] Hok. open_ok Hok. destruct (store_excerpts _ _ _); [|done].
  injection Hok as <-. apply record_update_updated; [done|]. left. apply Ht.
  match goal with E : negb (_ =? _) = false |- _ => apply negb_false_iff, Z.eqb_eq in E; done end.
Qed.

Lemma request_change v out view d d' :
  task_ok (row d) (TRequest v out view) → request_store v out view d = Ok d' → recorded d d'.
Proof.
  unfold request_store. intros [_ Ht] Hok. open_ok Hok. injection Hok as <-. split; [|eauto]. apply Ht.
  match goal with E : negb (String.eqb _ _) = false |- _ => apply negb_false_iff, String.eqb_eq in E end.
  by apply (inj pretty).
Qed.

Lemma request_read_ok session on configured d c :
  request_read session on configured d = Ok c → c = row d ∧ in_state AWAITING_DECISION (row d) = true.
Proof.
  unfold request_read. intros Hok. open_ok Hok. split; [|by apply negb_false_iff]. repeat case_match; by simplify_eq.
Qed.

Lemma start_change push g who why keep now d d' v k :
  investigate_start push g who why keep now d = Ok (d', (v, k)) →
  (∃ from, moved from IN_PROGRESS d d') ∧ v = version (row d').
Proof.
  unfold investigate_start. intros Hok. open_ok Hok.
  destruct (transition _ _ _ _ _ _ _) as [x|] eqn:Ht; [|done]. cbn in Hok. simplify_eq.
  split; [|done]. by eapply transition_moved_plain.
Qed.

Lemma store_failure_change push who keep r docs now d d' :
  store_failure push who keep r docs now d = Ok d' → ∃ from to, moved from to d d' ∧ to ≠ DECIDED.
Proof.
  unfold store_failure. destruct (keep && holds_memo docs) eqn:Hk; intros [from Hm]%transition_moved; try by auto.
  - by exists from, AWAITING_DECISION.
  - intros _. by apply andb_true_iff in Hk as [_ ?].
  - by exists from, FAILED.
Qed.

Lemma store_memo_change push who o m docs now d d' :
  store_memo push who o m docs now d = Ok d' → ∃ from, moved from AWAITING_DECISION d d'.
Proof.
  unfold store_memo. intros Hok. destruct (assoc "subject" m ≫= as_dict) as [subj|] eqn:Hs; [|done].
  repeat case_match; try done. apply transition_moved in Hok; auto. intros _. by destruct m.
Qed.

Lemma store_change push who v keep r now d d' :
  store_investigation push who v keep r now d = Ok d' →
  version (row d) = v ∧ ∃ from to, moved from to d d' ∧ to ≠ DECIDED.
Proof.
  unfold store_investigation, raise_if. intros Hok. destruct (negb _) eqn:E; [done|].
  apply negb_false_iff, Z.eqb_eq in E. split; [done|]. cbn [mbind result_bind] in Hok.
  destruct (run_outcome r) as [o|]; [|by apply store_failure_change in Hok].
  destruct (out_memo o) as [m|]; [|by apply store_failure_change in Hok].
  destruct (nonempty _); [by apply store_failure_change in Hok|].
  apply store_memo_change in Hok as [from Hm]. by exists from, AWAITING_DECISION.
Qed.

(** A recorded decision was allowed for exactly this case at this version. *)
Definition confirmed (verifier : option Issuer) (c : GovernedCase) (out : string) (grants : list string)
    (rid : option string) (who : list (string * string)) : Prop :=
  ∃ issuer, verifier = Some issuer ∧
  ((∃ r n, rid = Some r ∧ grants = [] ∧ _recorded_approvals_required c r = Some n ∧
      consume_request issuer r (case_action c out) (pretty (version c)) = Ok who ∧
      Z.of_nat (length who) = n ∧ NoDup who.*1) ∨
   (nonempty rid = false ∧ grants ≠ [] ∧ consume issuer grants (case_action c out) (pretty (version c)) = Ok who)).

Lemma verify_allowed verifier c out grants rid check :
  verify verifier c out grants rid = Some check → allowed check = true →
  confirmed verifier c out grants rid (check_approvers check).
Proof.
  unfold verify. intros Hv Ha. destruct verifier as [issuer|]; [|by simplify_eq/=].
  exists issuer. split; [done|]. destruct (nonempty rid) eqn:Hrid.
  - left. destruct rid as [r|]; [|done]. destruct grants; [|by simplify_eq/=]. cbn [andb negb from_option id] in Hv.
    destruct (_recorded_approvals_required c r) as [n|] eqn:Hn; [|by simplify_eq/=].
    exists r, n. do 3 (split; [done|]).
    destruct (consume_request _ _ _ _) as [who|[[why detail]|]] eqn:Hc; [|by simplify_eq/=..].
    unfold _hold_to_recorded_approvals in Hv. destruct (_ && _) eqn:Hhold; [|by simplify_eq/=].
    apply andb_true_iff in Hhold as [Hlen%Z.eqb_eq Hnd%bool_decide_eq_true_1].
    cbn in Hv. injection Hv as <-. auto.
  - right. split; [done|]. destruct grants as [|g gs]; [by simplify_eq/=|]. split; [done|]. cbn [andb negb] in Hv.
    destruct (consume _ _ _ _) as [who|[[why detail]|]] eqn:Hc; [|by simplify_eq/=..]. cbn in Hv. by injection Hv as <-.
Qed.

Lemma decide_change push on out grants verifier who now rid d d' :
  decide_case push on out grants verifier who now rid d = Ok d' →
  moved AWAITING_DECISION DECIDED d d' ∧ out ∈ DECISION_OUTCOMES ∧
  ∃ approved, approved ≠ [] ∧ confirmed verifier (row d) out grants (if nonempty rid then rid else None) approved ∧
    decision (row d') = Some {| outcome := out; approvers := approved; decided_at := now |}.
Proof.
  unfold decide_case, record_decision, require_enabled, raise_if. intros Hok.
  destruct (negb on); [done|]. cbn [mbind result_bind] in Hok.
  case_bool_decide as Hout; [|done]. cbn [mbind result_bind negb] in Hok.
  destruct (in_state AWAITING_DECISION (row d)) eqn:Hst; [|done]. cbn [mbind result_bind negb] in Hok.
  apply in_state_true in Hst. destruct (verify _ _ _ _ _) as [check|] eqn:Hv; [|done].
  destruct (negb (allowed check) || _) eqn:Hno; [done|]. apply orb_false_iff in Hno as [Ha Hne].
  apply negb_false_iff in Ha. destruct (negb (business_case_valid _)); [done|]. cbn [mbind result_bind] in Hok.
  apply transition_ok in Hok as (from & Hfrom & Hal & Hrow & Hlog). cbn in Hfrom.
  assert (from = AWAITING_DECISION) as -> by (apply CaseState_value_inj; congruence).
  split; [|split; [done|]].
  - rewrite Hrow in Hlog. split; rewrite ?Hrow; done.
  - exists (check_approvers check). split; [by destruct (check_approvers check)|].
    split; [by eapply verify_allowed|]. by rewrite Hrow.
Qed.

(** Why a step moves a case: restarts and withdrawals apart, an investigation is
    stored at the version it started from, or a decision is recorded. *)
Definition cause (l : label) (s : System) (to : CaseState) (d' : CaseDb) : Prop :=
  match to with
  | IN_PROGRESS | WITHDRAWN => True
  | DECIDED => ∃ push on out grants verifier who now rid,
      l = Decide push on out grants verifier who now rid ∧
      decide_case push on out grants verifier who now rid (db s) = Ok d'
  | _ => ∃ k, TInvestigate (version (row (db s))) k ∈ tasks s
  end.

Definition effect (l : label) (s : System) (d' : CaseDb) : Prop :=
  d' = db s ∨ recorded (db s) d' ∨ updated (db s) d' ∨ ∃ from to, moved from to (db s) d' ∧ cause l s to d'.

Lemma commit_effect l s s0 r : db s0 = db s → (∀ d', r = Ok d' → effect l s d') → effect l s (db (commit r s0)).
Proof. unfold commit. intros E Hr. destruct r; cbn; [by apply Hr|by left]. Qed.

Lemma effect_updated l s d' : updated (db s) d' → effect l s d'.
Proof. intros. do 2 right. by left. Qed.

#[local] Hint Resolve effect_updated forget_change review_change propose_change approve_change : cases.

(** The effect of every step. *)
Lemma step_effect l s : Forall (task_ok (row (db s))) (tasks s) → effect l s (db (step l s)).
Proof.
  intros Htasks. pose proof (λ i t, proj1 (Forall_lookup _ _) Htasks i t) as Htask. clear Htasks. destruct l; cbn.
  - destruct (investigate_start _ _ _ _ _ _ _) as [[d' [v k]]|] eqn:E; [|by left].
    apply start_change in E as [[from Hm] _]. do 3 right. by exists from, IN_PROGRESS.
  - destruct (tasks s !! i) as [[v k| |]|] eqn:Ei; try by left. apply commit_effect; [done|]. intros d' Hs.
    apply store_change in Hs as (<- & from & to & Hm & Hne). do 3 right. exists from, to. split; [done|].
    apply list_elem_of_lookup_2 in Ei. destruct to; cbn; eauto; done.
  - destruct (dispose_read _ _); by left.
  - destruct (tasks s !! i) as [[|rd|]|] eqn:Ei; try by left. destruct (dispose_runs _ _ _); [|by left].
    destruct (_ && _); [|by left]. apply commit_effect; [done|]. intros d' Hs. apply effect_updated.
    eapply dispose_change, Hs. by eapply Htask.
  - apply commit_effect; [done|]. eauto with cases.
  - apply commit_effect; [done|]. intros d' Hs. do 3 right. apply withdraw_change in Hs as [from Hm].
    by exists from, WITHDRAWN.
  - apply commit_effect; [done|]. eauto with cases.
  - apply commit_effect; [done|]. eauto with cases.
  - apply commit_effect; [done|]. eauto with cases.
  - apply commit_effect; [done|]. intros d' Hs. do 3 right. exists AWAITING_DECISION, DECIDED.
    split; [by apply decide_change in Hs as [Hm _]|]. cbn. eauto 12.
  - destruct (request_read _ _ _ _), view; by left.
  - destruct (tasks s !! i) as [[| |v o w]|] eqn:Ei; try by left. apply commit_effect; [done|].
    intros d' Hs. right. left. eapply request_change, Hs. by eapply Htask.
  - by left.
Qed.

Lemma step_change l s : Forall (task_ok (row (db s))) (tasks s) → change (db s) (db (step l s)).
Proof.
  intros [-> | [Hr | [Hu | (from & to & Hm & _)]]]%(step_effect l); unfold change; eauto 6.
Qed.
End changes.

(** * The invariant *)

(** A log that follows the lifecycle, with the state and the version it ends in. *)
Inductive lifecycle : list GovernedCaseTransition → CaseState → Z → Prop :=
| lifecycle_submitted e :
    from_state e = None → to_state e = CaseState_value SUBMITTED → case_version e = 1 →
    lifecycle [e] SUBMITTED 1
| lifecycle_transition log s v e t :
    lifecycle log s v → t ∈ TRANSITIONS s →
    from_state e = Some (CaseState_value s) → to_state e = CaseState_value t → v < case_version e →
    lifecycle (log ++ [e]) t (case_version e).

(** The documents without the stored passages. *)
Definition substance (c : GovernedCase) : Documents := set_excerpts [] (documents c).

Section invariant.
Context `{PyStr} `{IsoTime} `{Schemas} `{CaseTools}.

(** What the issuer was shown of a version is what that version holds. *)
Definition issued_ok (c : GovernedCase) (e : Issued) : Prop :=
  issued_version e = pretty (version (issued_case e)) ∧
  issued_action e = case_action (issued_case e) (issued_outcome e) ∧
  version (issued_case e) <= version c ∧
  (version (issued_case e) = version c →
     documents (issued_case e) = documents c ∧ identity (issued_case e) = identity c ∧
     in_state AWAITING_DECISION c = true).

Record Inv (s : System) : Prop := {
  inv_log : ∃ st v, lifecycle (transitions (db s)) st v ∧ state (row (db s)) = CaseState_value st ∧
                    v <= version (row (db s));
  inv_tasks : Forall (task_ok (row (db s))) (tasks s);
  inv_issued : Forall (issued_ok (row (db s))) (issued s);
  inv_memo : ∀ st, state (row (db s)) = CaseState_value st → st ∈ [AWAITING_DECISION; DECIDED] →
             holds_memo (documents (row (db s))) = true;
}.

(** What a change does to the version and to the facts about old versions. *)
Lemma change_version d d' : change d d' →
  version (row d) <= version (row d') ∧
  (version (row d) = version (row d') →
     documents (row d') = documents (row d) ∧ identity (row d') = identity (row d) ∧
     state (row d') = state (row d)).
Proof.
  intros [-> | [[_ [rs ->]] | [Hu | (from & to & Hm)]]]; [by split..| |].
  - pose proof (up_version _ _ Hu). split; [lia|]. intros E. lia.
  - pose proof (mv_version _ _ _ _ Hm). split; [lia|]. intros E. lia.
Qed.

Lemma in_state_eq c c' s : state c' = state c → in_state s c = true → in_state s c' = true.
Proof. unfold in_state. by intros ->. Qed.

Lemma task_ok_change d d' t : change d d' → task_ok (row d) t → task_ok (row d') t.
Proof.
  intros (Hle & Heq)%change_version. destruct t; cbn; [lia| |]; intros [Hv Hst]; (split; [lia|]); intros E.
  all: destruct Heq as (_ & _ & Est); [lia|]; eapply in_state_eq, Hst; [done|lia].
Qed.

Lemma issued_ok_change d d' e : change d d' → issued_ok (row d) e → issued_ok (row d') e.
Proof.
  intros (Hle & Heq)%change_version (Hv & Ha & Hvle & Hcur). do 2 (split; [done|]). split; [lia|]. intros E.
  destruct Heq as (Ed & Ei & Est); [lia|]. destruct Hcur as (? & ? & ?); [lia|].
  split; [congruence|]. split; [congruence|]. by eapply in_state_eq.
Qed.

Lemma holds_memo_memo d d' : memo d' = memo d → holds_memo d = true → holds_memo d' = true.
Proof. unfold holds_memo. by intros ->. Qed.

Lemma log_change d d' :
  change d d' →
  (∃ st v, lifecycle (transitions d) st v ∧ state (row d) = CaseState_value st ∧ v <= version (row d)) →
  ∃ st v, lifecycle (transitions d') st v ∧ state (row d') = CaseState_value st ∧ v <= version (row d').
Proof.
  intros Hc (st & v & Hl & Hst & Hv). destruct Hc as [-> | [[_ [rs ->]] | [Hu | (from & to & Hm)]]].
  - eauto.
  - exists st, v. auto.
  - exists st, v. rewrite (up_log _ _ Hu), (up_state _ _ Hu), (up_version _ _ Hu). split; [done|]. split; [done|lia].
  - destruct (mv_log _ _ _ _ Hm) as (e & -> & Ev & Ef & Et). exists to, (case_version e).
    split; [|split; [apply Hm|lia]]. pose proof (mv_from _ _ _ _ Hm). pose proof (mv_version _ _ _ _ Hm).
    assert (from = st) as -> by (apply CaseState_value_inj; congruence).
    econstructor; try done; [by apply Hm|lia].
Qed.

Lemma memo_change d d' :
  change d d' →
  (∀ st, state (row d) = CaseState_value st → st ∈ [AWAITING_DECISION; DECIDED] → holds_memo (documents (row d)) = true) →
  ∀ st, state (row d') = CaseState_value st → st ∈ [AWAITING_DECISION; DECIDED] → holds_memo (documents (row d')) = true.
Proof.
  intros Hc Hmemo st Hst Hin. destruct Hc as [-> | [[_ [rs ->]] | [Hu | (from & to & Hm)]]].
  - eauto.
  - apply (Hmemo st Hst Hin).
  - eapply holds_memo_memo; [apply Hu|]. apply (Hmemo st); [|done]. by rewrite <- (up_state _ _ Hu).
  - assert (st = to) as -> by (apply CaseState_value_inj; rewrite <- Hst; apply Hm).
    apply elem_of_cons in Hin as [-> | ->%list_elem_of_singleton]; [by apply Hm|].
    assert (from = AWAITING_DECISION) as ->.
    { pose proof (mv_allowed _ _ _ _ Hm). destruct from; set_solver. }
    rewrite (mv_docs _ _ _ _ Hm) by done. apply (Hmemo AWAITING_DECISION); [apply Hm|]. left.
Qed.

#[local] Arguments drop_task : simpl never.
#[local] Arguments commit : simpl never.

Lemma commit_tasks r s : tasks (commit r s) = tasks s.
Proof. by destruct r. Qed.

Lemma commit_issued r s : issued (commit r s) = issued s.
Proof. by destruct r. Qed.

Lemma drop_task_elem i s t : t ∈ tasks (drop_task i s) → t ∈ tasks s.
Proof.
  unfold drop_task. cbn. rewrite elem_of_app. intros [Ht | Ht].
  - by eapply subseteq_take.
  - by eapply subseteq_drop.
Qed.

#[local] Hint Resolve drop_task_elem : cases.

(** A new task knows the state it was started in. *)
Lemma step_tasks l s t : t ∈ tasks (step l s) → t ∈ tasks s ∨ task_ok (row (db (step l s))) t.
Proof.
  destruct l; cbn.
  - destruct (investigate_start _ _ _ _ _ _ _) as [[d' [v k]]|] eqn:E; [|auto]. cbn.
    apply start_change in E as [_ ->]. intros [-> | Ht]%elem_of_cons; [right; cbn; lia|auto].
  - destruct (tasks s !! i) as [[]|]; rewrite ?commit_tasks; eauto with cases.
  - destruct (dispose_read on (db s)) as [rd|] eqn:E; [|auto]. cbn. intros [-> | Ht]%elem_of_cons; [right|auto].
    unfold dispose_read, require_enabled, raise_if in E. destruct (negb on); [done|]. cbn in E.
    destruct (in_state AWAITING_DECISION (row (db s))) eqn:Est; [|done]. cbn in E.
    destruct (mapM _ _); [|done]. injection E as <-. cbn. split; [lia|done].
  - destruct (tasks s !! i) as [[]|]; [..|auto]; try by auto. destruct (dispose_runs _ _ _); [|eauto with cases].
    destruct (_ && _); rewrite ?commit_tasks; eauto with cases.
  - rewrite commit_tasks. auto.
  - rewrite commit_tasks. auto.
  - rewrite commit_tasks. auto.
  - rewrite commit_tasks. auto.
  - rewrite commit_tasks. auto.
  - rewrite commit_tasks. auto.
  - destruct (request_read session on configured (db s)) as [c|] eqn:E; [|auto]. destruct view as [v|]; [|auto]. cbn.
    intros [-> | Ht]%elem_of_cons; [right|auto]. apply request_read_ok in E as [-> Hst]. cbn. split; [lia|done].
  - destruct (tasks s !! i) as [[]|]; rewrite ?commit_tasks; eauto with cases.
  - eauto with cases.
Qed.

Lemma step_issued l s e : e ∈ issued (step l s) → e ∈ issued s ∨ issued_ok (row (db (step l s))) e.
Proof.
  destruct l; cbn; rewrite ?commit_issued; auto.
  - destruct (investigate_start _ _ _ _ _ _ _) as [[d' [v k]]|]; auto.
  - destruct (tasks s !! i) as [[]|]; rewrite ?commit_issued; auto.
  - destruct (dispose_read on (db s)); auto.
  - destruct (tasks s !! i) as [[]|]; auto. destruct (dispose_runs _ _ _); [|auto].
    destruct (_ && _); rewrite ?commit_issued; auto.
  - destruct (request_read session on configured (db s)) as [c|] eqn:E; [|auto]. destruct view as [v|]; [|auto]. cbn.
    intros [-> | He]%elem_of_cons; [right|auto]. apply request_read_ok in E as [-> Hst].
    do 2 (split; [done|]). split; [cbn; lia|]. cbn. auto.
  - destruct (tasks s !! i) as [[]|]; rewrite ?commit_issued; auto.
Qed.

Lemma step_Inv l s : Inv s → Inv (step l s).
Proof.
  intros [Hlog Htasks Hissued Hmemo]. pose proof (step_change l s Htasks) as Hc. split.
  - by eapply log_change.
  - apply Forall_forall. intros t [Ht | Ht]%step_tasks; [|done].
    eapply task_ok_change; [done|]. by eapply Forall_forall in Htasks.
  - apply Forall_forall. intros e [He | He]%step_issued; [|done].
    eapply issued_ok_change; [done|]. by eapply Forall_forall in Hissued.
  - by eapply memo_change.
Qed.

Lemma run_Inv ls s : Inv s → Inv (run ls s).
Proof. revert s. induction ls as [|l ls IH]; intros s Hs; [done|]. by apply IH, step_Inv. Qed.

Lemma create_Inv ref tenant app purp prov policy creator now d :
  create_case ref tenant app purp prov policy creator now = Ok d → Inv (init d).
Proof.
  unfold create_case, raise_if. intros Hc. destruct (negb (PURPOSE_RE purp)); [done|]. cbn [mbind result_bind] in Hc.
  destruct (negb (business_case_valid _)); [done|]. injection Hc as <-. split; cbn; [|constructor|constructor|].
  - exists SUBMITTED, 1. split; [by constructor|]. split; [done|lia].
  - intros st Hst Hin. destruct st; [set_solver|done..].
Qed.
End invariant.

(** * Consequences *)

Section consequences.
Context `{PyStr} `{IsoTime} `{Schemas} `{CaseTools}.

#[local] Arguments drop_task : simpl never.

Lemma moved_state from to d d' st : moved from to d d' → state (row d') = CaseState_value st → to = st.
Proof. intros Hm Hst. apply CaseState_value_inj. rewrite <- Hst. symmetry. apply Hm. Qed.

(** A closed case changes at most its passages. *)
Lemma closed_change d d' st :
  change d d' → state (row d) = CaseState_value st → st ∈ TERMINAL →
  state (row d') = state (row d) ∧ transitions d' = transitions d ∧ decision (row d') = decision (row d) ∧
  decision_requests (row d') = decision_requests (row d) ∧ substance (row d') = substance (row d).
Proof.
  intros Hc Hst Hterm.
  assert (in_state AWAITING_DECISION (row d) = false) as Hno.
  { unfold in_state. rewrite Hst. revert Hterm. destruct st; vm_compute; set_solver. }
  destruct Hc as [-> | [[Haw _] | [Hu | (from & to & Hm)]]].
  - done.
  - congruence.
  - destruct (up_docs _ _ Hu) as [?|Hd]; [congruence|]. repeat split; try apply Hu. exact Hd.
  - exfalso. assert (from = st) as -> by (apply CaseState_value_inj; rewrite <- Hst; symmetry; apply Hm).
    pose proof (mv_allowed _ _ _ _ Hm) as Hal. revert Hterm Hal. clear.
    destruct st; cbn; set_solver.
Qed.

(** Only a confirmed decision decides a case. *)
Lemma step_decides l s :
  Inv s → state (row (db s)) ≠ CaseState_value DECIDED → state (row (db (step l s))) = CaseState_value DECIDED →
  ∃ push on out grants verifier who now rid, l = Decide push on out grants verifier who now rid ∧
    decide_case push on out grants verifier who now rid (db s) = Ok (db (step l s)).
Proof.
  intros HI Hno Hdec.
  destruct (step_effect l s (inv_tasks _ HI)) as [E | [[_ [rs E]] | [Hu | (from & to & Hm & Hcause)]]].
  - by rewrite E in Hdec.
  - by rewrite E in Hdec.
  - by rewrite (up_state _ _ Hu) in Hdec.
  - by rewrite (moved_state _ _ _ _ DECIDED Hm Hdec) in Hcause.
Qed.

(** ** What was approved is what is decided *)

(** The issuer consumes grants for a case only for an action and a version it was
    asked to have approved. *)
Definition honest_label (s : System) (l : label) : Prop :=
  match l with
  | Decide _ _ out _ (Some issuer) _ _ _ =>
      let a := case_action (row (db s)) out in
      let v := pretty (version (row (db s))) in
      (∃ gs who, consume issuer gs a v = Ok who) ∨ (∃ r who, consume_request issuer r a v = Ok who) →
      ∃ e, e ∈ issued s ∧ issued_action e = a ∧ issued_version e = v
  | _ => True
  end.

Fixpoint honest (ls : list label) (s : System) : Prop :=
  match ls with
  | [] => True
  | l :: ls' => honest_label s l ∧ honest ls' (step l s)
  end.

Definition approved (s : System) : Prop :=
  state (row (db s)) = CaseState_value DECIDED →
  ∃ e d, e ∈ issued s ∧ decision (row (db s)) = Some d ∧ issued_outcome e = outcome d ∧
    substance (issued_case e) = substance (row (db s)).

Lemma issued_grows l s e : e ∈ issued s → e ∈ issued (step l s).
Proof.
  intros He. destruct l; cbn; rewrite ?commit_issued; try done.
  - destruct (investigate_start _ _ _ _ _ _ _) as [[? []]|]; done.
  - destruct (tasks s !! i) as [[]|]; rewrite ?commit_issued; done.
  - destruct (dispose_read _ _); done.
  - destruct (tasks s !! i) as [[]|]; try done. destruct (dispose_runs _ _ _); [|done].
    destruct (_ && _); rewrite ?commit_issued; done.
  - destruct (request_read _ _ _ _), view; try done. by right.
  - destruct (tasks s !! i) as [[]|]; rewrite ?commit_issued; done.
Qed.

Lemma case_action_outcome c c' out out' : case_action c out = case_action c' out' → out = out'.
Proof. unfold case_action, semantic_action. cbn. by intros [= _ -> _ _]. Qed.

(** A consumed request was made for this version: the case shown is the case. *)
Lemma confirmed_shown s push on out grants verifier who now rid approved_by :
  Inv s → honest_label s (Decide push on out grants verifier who now rid) →
  confirmed verifier (row (db s)) out grants (if nonempty rid then rid else None) approved_by →
  ∃ e, e ∈ issued s ∧ issued_outcome e = out ∧ documents (issued_case e) = documents (row (db s)).
Proof.
  intros HI Hh (issuer & -> & Hcons). cbn in Hh.
  assert (∃ e, e ∈ issued s ∧ issued_action e = case_action (row (db s)) out ∧
               issued_version e = pretty (version (row (db s)))) as (e & He & Ha & Hv).
  { apply Hh. destruct Hcons as [(r & n & _ & _ & _ & Hc & _) | (_ & _ & Hc)]; eauto. }
  pose proof (proj1 (Forall_forall _ _) (inv_issued _ HI) e He) as (Ev & Ea & _ & Hsame).
  exists e. split; [done|]. split; [by eapply case_action_outcome; rewrite <- Ea, Ha|].
  apply Hsame. apply (inj pretty). congruence.
Qed.

Lemma step_approved l s : Inv s → honest_label s l → approved s → approved (step l s).
Proof.
  intros HI Hh Hap Hdec.
  destruct (decide_rel (=) (state (row (db s))) (CaseState_value DECIDED)) as [Hd|Hd].
  - destruct (Hap Hd) as (e & d & He & Ed & Eo & Es).
    destruct (closed_change _ _ DECIDED (step_change l s (inv_tasks _ HI)) Hd) as (_ & _ & Edec & _ & Esub).
    { vm_compute. set_solver. }
    exists e, d. split; [by apply issued_grows|]. rewrite Edec, Esub. done.
  - destruct (step_decides l s HI Hd Hdec) as (push & on & out & grants & verifier & who & now & rid & -> & E).
    apply decide_change in E as (Hm & _ & who' & _ & Hconf & Edec).
    destruct (confirmed_shown _ _ _ _ _ _ _ _ _ _ HI Hh Hconf) as (e & He & Eo & Edoc).
    eexists e, _. split; [by apply issued_grows|]. split; [exact Edec|]. split; [done|].
    unfold substance. by rewrite (mv_docs _ _ _ _ Hm), Edoc by done.
Qed.

Lemma run_approved ls s : Inv s → honest ls s → approved s → approved (run ls s).
Proof.
  revert s. induction ls as [|l ls IH]; intros s HI Hh Hap; [done|].
  destruct Hh as [Hl Hls]. apply IH; [by apply step_Inv|done|by apply step_approved].
Qed.

Lemma run_closed ls s st :
  Inv s → state (row (db s)) = CaseState_value st → st ∈ TERMINAL →
  let s' := run ls s in
  state (row (db s')) = state (row (db s)) ∧ transitions (db s') = transitions (db s) ∧
  decision (row (db s')) = decision (row (db s)) ∧
  decision_requests (row (db s')) = decision_requests (row (db s)) ∧ substance (row (db s')) = substance (row (db s)).
Proof.
  revert s. induction ls as [|l ls IH]; intros s HI Hst Ht; [done|]. cbv zeta.
  change (run (l :: ls) s) with (run ls (step l s)).
  destruct (closed_change _ _ st (step_change l s (inv_tasks _ HI)) Hst Ht) as (E1 & E2 & E3 & E4 & E5).
  destruct (IH (step l s)) as (F1 & F2 & F3 & F4 & F5); [by apply step_Inv|congruence|done|].
  repeat split; congruence.
Qed.

(** ** Investigations that can no longer be stored *)

Definition stranded (s : System) : Prop :=
  state (row (db s)) = CaseState_value IN_PROGRESS ∧
  ∀ v k, TInvestigate v k ∈ tasks s → v < version (row (db s)).

Lemma moved_from_progress from to d d' :
  moved from to d d' → state (row d) = CaseState_value IN_PROGRESS → to = AWAITING_DECISION ∨ to = FAILED.
Proof.
  intros Hm Hst. assert (from = IN_PROGRESS) as -> by (apply CaseState_value_inj; rewrite <- Hst; symmetry; apply Hm).
  pose proof (mv_allowed _ _ _ _ Hm) as Hal. cbn in Hal. set_solver.
Qed.

#[local] Hint Resolve drop_task_elem : cases.

Lemma investigate_task l s v k :
  TInvestigate v k ∈ tasks (step l s) → state (row (db s)) = CaseState_value IN_PROGRESS →
  TInvestigate v k ∈ tasks s.
Proof.
  intros Ht Hst. destruct l; cbn in Ht; rewrite ?commit_tasks in Ht; try done.
  - destruct (investigate_start _ _ _ _ _ _ _) as [[d' [v' k']]|] eqn:E; [|done].
    apply start_change in E as [[from Hm] _]. by destruct (moved_from_progress _ _ _ _ Hm Hst).
  - destruct (tasks s !! i) as [[]|]; rewrite ?commit_tasks in Ht; eauto with cases.
  - destruct (dispose_read _ _); [|done]. cbn in Ht. by apply elem_of_cons in Ht as [? | ?].
  - destruct (tasks s !! i) as [[]|]; try done. destruct (dispose_runs _ _ _); [|by eapply drop_task_elem].
    destruct (_ && _); rewrite ?commit_tasks in Ht; by eapply drop_task_elem.
  - destruct (request_read _ _ _ _), view; try done. cbn in Ht. by apply elem_of_cons in Ht as [? | ?].
  - destruct (tasks s !! i) as [[]|]; rewrite ?commit_tasks in Ht; eauto with cases.
  - by eapply drop_task_elem.
Qed.

Lemma stranded_state l s : Inv s → stranded s → state (row (db (step l s))) = CaseState_value IN_PROGRESS.
Proof.
  intros HI [Hst Hold].
  destruct (step_effect l s (inv_tasks _ HI)) as [-> | [[_ [rs ->]] | [Hu | (from & to & Hm & Hcause)]]];
    [done|done|by rewrite (up_state _ _ Hu)|].
  exfalso. destruct (moved_from_progress _ _ _ _ Hm Hst) as [-> | ->]; destruct Hcause as [k Hk];
    specialize (Hold _ _ Hk); lia.
Qed.

Lemma stranded_forever ls s : Inv s → stranded s → state (row (db (run ls s))) = CaseState_value IN_PROGRESS.
Proof.
  revert s. induction ls as [|l ls IH]; intros s HI Hs; [apply Hs|].
  apply (IH (step l s)); [by apply step_Inv|]. split; [by apply stranded_state|].
  intros v k Ht. apply investigate_task in Ht; [|apply Hs]. pose proof (proj2 Hs v k Ht).
  pose proof (proj1 (change_version _ _ (step_change l s (inv_tasks _ HI)))). lia.
Qed.

Lemma forget_strands s push who now :
  Inv s → state (row (db s)) = CaseState_value IN_PROGRESS → stranded (step (Forget push (Some who) true now) s).
Proof.
  intros HI Hst. set (s' := step _ s).
  pose proof (forget_change push (Some who) true now (db s) (db s') eq_refl) as Hu.
  split; [by rewrite (up_state _ _ Hu)|]. intros v k Ht. rewrite (up_version _ _ Hu).
  pose proof (proj1 (Forall_forall _ _) (inv_tasks _ HI) (TInvestigate v k) Ht) as Hle. cbn in Hle. lia.
Qed.
End consequences.

(** * Claims *)

(** Whatever operations are applied to a new case, in whatever order and with
    whatever answers, its transition log is a path of the documented lifecycle from
    submission to the case's state with increasing versions, and a case that awaits
    a decision or is decided holds a memo. *)
Theorem case_follows_lifecycle `{PyStr} `{IsoTime} `{Schemas} `{CaseTools}
    ref tenant app purp prov policy creator now d ls :
  create_case ref tenant app purp prov policy creator now = Ok d →
  let s := run ls (init d) in
  ∃ st v, lifecycle (transitions (db s)) st v ∧ state (row (db s)) = CaseState_value st ∧
    v <= version (row (db s)) ∧
    (st ∈ [AWAITING_DECISION; DECIDED] → holds_memo (documents (row (db s))) = true).
Proof.
  intros Hc s. assert (Inv s) as [(st & v & Hl & Hst & Hv) _ _ Hm] by by eapply run_Inv, create_Inv.
  exists st, v. do 3 (split; [done|]). by apply Hm.
Qed.

(** C10. A case is decided only by a recorded decision, on a case awaiting one, for
    the outcome approve or decline, with at least one approver, and only after the
    issuer consumed the grants for this case's action and version; a decision
    consumed by its request names exactly the recorded number of approvers, all
    different. *)
Theorem decided_only_by_confirmed_decision `{PyStr} `{IsoTime} `{Schemas} `{CaseTools}
    ref tenant app purp prov policy creator now0 d ls l :
  create_case ref tenant app purp prov policy creator now0 = Ok d →
  let s := run ls (init d) in
  state (row (db s)) ≠ CaseState_value DECIDED → state (row (db (step l s))) = CaseState_value DECIDED →
  ∃ push on out grants verifier who now rid approved_by,
    l = Decide push on out grants verifier who now rid ∧
    state (row (db s)) = CaseState_value AWAITING_DECISION ∧ out ∈ DECISION_OUTCOMES ∧ approved_by ≠ [] ∧
    confirmed verifier (row (db s)) out grants (if nonempty rid then rid else None) approved_by ∧
    decision (row (db (step l s))) = Some {| outcome := out; approvers := approved_by; decided_at := now |}.
Proof.
  intros Hc s Hno Hdec. assert (Inv s) as HI by by eapply run_Inv, create_Inv.
  destruct (step_decides l s HI Hno Hdec) as (push & on & out & grants & verifier & who & now & rid & -> & E).
  apply decide_change in E as (Hm & Hout & who' & Hne & Hconf & Edec).
  exists push, on, out, grants, verifier, who, now, rid, who'. repeat split; try done. apply Hm.
Qed.

(** C3. What was approved is what is decided: if the issuer only consumes grants
    for actions and versions it was asked about, then a decided case was shown for
    approval with the outcome that was decided, and with the documents the case
    holds (stored passages apart, which may be forgotten later). *)
Theorem approved_documents_are_decided `{PyStr} `{IsoTime} `{Schemas} `{CaseTools}
    ref tenant app purp prov policy creator now d ls :
  create_case ref tenant app purp prov policy creator now = Ok d →
  honest ls (init d) →
  let s := run ls (init d) in
  state (row (db s)) = CaseState_value DECIDED →
  ∃ e dec, e ∈ issued s ∧ decision (row (db s)) = Some dec ∧ issued_outcome e = outcome dec ∧
    substance (issued_case e) = substance (row (db s)).
Proof.
  intros Hc Hh s Hdec. pose proof (create_Inv _ _ _ _ _ _ _ _ _ Hc) as HI.
  apply run_approved; try done. intros Hd. exfalso.
  destruct (inv_log _ HI) as (st & v & Hl & Hst & _). revert Hd Hc. cbn. unfold create_case, raise_if. intros Hd.
  destruct (negb (PURPOSE_RE purp)); [done|]. cbn [mbind result_bind].
  destruct (negb (business_case_valid _)); [done|]. by intros [= <-].
Qed.

(** A decided or withdrawn case is closed: no later operation changes its
    state, its log, its decision, its requests or any document other than the
    stored passages. *)
Theorem closed_case_is_frozen `{PyStr} `{IsoTime} `{Schemas} `{CaseTools}
    ref tenant app purp prov policy creator now d ls ls' st :
  create_case ref tenant app purp prov policy creator now = Ok d →
  let s := run ls (init d) in let s' := run ls' s in
  state (row (db s)) = CaseState_value st → st ∈ TERMINAL →
  state (row (db s')) = state (row (db s)) ∧ transitions (db s') = transitions (db s) ∧
  decision (row (db s')) = decision (row (db s)) ∧
  decision_requests (row (db s')) = decision_requests (row (db s)) ∧ substance (row (db s')) = substance (row (db s)).
Proof. intros Hc s s' Hst Ht. eapply run_closed; try done. by eapply run_Inv, create_Inv. Qed.

(** Forgetting a case's passages while it is being investigated strands it:
    the version moves on, so the running investigation can never be stored, and no
    sequence of operations takes the case out of [in_progress] again. *)
Theorem forgetting_strands_investigation `{PyStr} `{IsoTime} `{Schemas} `{CaseTools}
    ref tenant app purp prov policy creator now0 d ls push who now ls' :
  create_case ref tenant app purp prov policy creator now0 = Ok d →
  let s := run ls (init d) in
  state (row (db s)) = CaseState_value IN_PROGRESS →
  state (row (db (run ls' (step (Forget push (Some who) true now) s)))) = CaseState_value IN_PROGRESS.
Proof.
  intros Hc s Hst. assert (Inv s) as HI by by eapply run_Inv, create_Inv.
  apply stranded_forever; [by apply step_Inv|by apply forget_strands].
Qed.

(** A case through its whole life: investigated, shown for approval, decided, its
    passages forgotten. *)
Module CaseExample.
Definition repr0 : PyStr := {|
  py_str := λ v, match v with VStr s => s | _ => "value" end; py_str_VStr := λ s, eq_refl |}.
Definition iso0 : IsoTime := λ n, pretty n.
Definition schemas0 : Schemas := λ d, bool_decide (length d = 9%nat).
Definition tools0 : CaseTools := {|
  store_excerpts := λ old new _, Some (old ++ new);
  apply_review := λ d _ _, Ok d; propose := λ m _, Ok m; render := λ p _ _, Ok p |}.
#[local] Existing Instances repr0 iso0 schemas0 tools0.
Definition created : result case_exn CaseDb :=
  create_case "case_0123456789abcdef01234567" "t-1" [("legal_name", VStr "Acme")] "kyb.onboarding" "stub" "p-1" "user:1" 0.
Definition start_row : CaseDb := match created with Ok d => d | Err _ => {|
  row := {| identity := {| case_ref := EmptyString; tenant_id := EmptyString; purpose := EmptyString;
      provider := EmptyString; case_policy_id := EmptyString; application := []; created_by := EmptyString;
      created_at := 0 |};
    documents := no_documents; state := EmptyString; version := 0; updated_at := 0; completed_at := None;
    decision := None; decision_requests := [] |};
  transitions := []; outbox := [] |} end.
Lemma created_ok :
  create_case "case_0123456789abcdef01234567" "t-1" [("legal_name", VStr "Acme")] "kyb.onboarding" "stub" "p-1" "user:1" 0
  = Ok start_row.
Proof. vm_compute. reflexivity. Qed.
Definition memo1 : dict :=
  [("memo_id", VStr "m-1"); ("subject", VMap [("provider", VStr "stub"); ("provider_ref", VStr "42")]);
   ("policy_result", VMap [("tier", VStr "low")]); ("recommendation", VMap [("proposed", VStr "approve")]);
   ("missing_items", VList [])].
Definition outcome1 : Outcome := {|
  out_status := "completed"; out_failure_reason := EmptyString; out_memo := Some memo1; out_ownership_graph := None;
  out_screening_results := []; out_parties := []; out_excerpts := [[("excerpt_ref", VStr "x")]];
  out_record := [("agent", VStr "business_underwriter")] |}.
Definition gates : Gates := {| enabled := true; identity_ok := true; authorizer_ok := true |}.
Definition view1 : RequestView := {| request_id := "r-1"; approvals_required := 2; view_fields := [] |}.
Definition issuer1 : Issuer := {|
  consume := λ _ _ _, Err None;
  consume_request := λ r _ v, if String.eqb r "r-1" && String.eqb v "3"
                              then Ok [("ann", "g-1"); ("bob", "g-2")] else Err (Some ("case_changed", EmptyString)) |}.
Definition investigated_labels : list label :=
  [Start true gates "user:1" "investigation_started" false 1; Store 0 true "user:1" (Ran (Some outcome1)) 2;
   RequestOpen (Some "user:1") true true "approve" (Some view1); RequestStore 0].
Definition decision_label : label := Decide true true "approve" [] (Some issuer1) "user:1" 5 (Some "r-1").
Definition before : System := run investigated_labels (init start_row).
Definition labels : list label := investigated_labels ++ [decision_label].
Definition final : System := run labels (init start_row).
Example final_state :
  (state (row (db final)), version (row (db final)), to_state <$> transitions (db final), outbox (db final)) =
  ("decided", 4, ["submitted"; "in_progress"; "awaiting_decision"; "decided"],
   [("case.completed", 3); ("case.decided", 4)]).
Proof. vm_compute. reflexivity. Qed.
Lemma labels_honest : honest labels (init start_row).
Proof.
  do 4 (split; [exact I|]). split; [|exact I]. intros _.
  eexists. split; [vm_compute; left|]. split; vm_compute; reflexivity.
Qed.
(** A second investigation, during which the passages are forgotten. *)
Definition reopened : list label :=
  [Start true gates "user:1" "investigation_started" false 1; Store 0 true "user:1" (Ran (Some outcome1)) 2;
   Start true gates "user:1" "re_investigation" false 3].
End CaseExample.

Lemma case_follows_lifecycle_witness :
  ∃ st v, lifecycle (transitions (db CaseExample.final)) st v ∧
    state (row (db CaseExample.final)) = CaseState_value st ∧ v <= version (row (db CaseExample.final)) ∧
    (st ∈ [AWAITING_DECISION; DECIDED] → holds_memo (documents (row (db CaseExample.final))) = true).
Proof.
  refine (case_follows_lifecycle (H := CaseExample.repr0) (H0 := CaseExample.iso0) (H1 := CaseExample.schemas0)
    (H2 := CaseExample.tools0) _ _ _ _ _ _ _ _ CaseExample.start_row CaseExample.labels CaseExample.created_ok).
Defined.

Lemma decided_only_by_confirmed_decision_witness :
  ∃ out grants verifier rid approved_by, out ∈ DECISION_OUTCOMES ∧ approved_by ≠ [] ∧
    @confirmed CaseExample.repr0 verifier (row (db CaseExample.before)) out grants rid approved_by.
Proof.
  edestruct (decided_only_by_confirmed_decision (H := CaseExample.repr0) (H0 := CaseExample.iso0)
    (H1 := CaseExample.schemas0) (H2 := CaseExample.tools0) _ _ _ _ _ _ _ _ CaseExample.start_row
    CaseExample.investigated_labels CaseExample.decision_label CaseExample.created_ok)
    as (push & on & out & grants & verifier & who & now & rid & ap & _ & _ & Hout & Hne & Hc & _).
  - vm_compute. discriminate.
  - vm_compute. reflexivity.
  - eexists out, grants, verifier, _, ap. split; [exact Hout|]. split; [exact Hne|exact Hc].
Defined.

Lemma approved_documents_are_decided_witness :
  ∃ e dec, e ∈ issued CaseExample.final ∧ decision (row (db CaseExample.final)) = Some dec ∧
    issued_outcome e = outcome dec ∧ substance (issued_case e) = substance (row (db CaseExample.final)).
Proof.
  refine (approved_documents_are_decided (H := CaseExample.repr0) (H0 := CaseExample.iso0)
    (H1 := CaseExample.schemas0) (H2 := CaseExample.tools0) _ _ _ _ _ _ _ _ CaseExample.start_row
    CaseExample.labels CaseExample.created_ok CaseExample.labels_honest _).
  vm_compute. reflexivity.
Defined.

Lemma closed_case_is_frozen_witness :
  state (row (db (@run CaseExample.repr0 CaseExample.iso0 CaseExample.schemas0 CaseExample.tools0
    [Withdraw true (Some "user:2") true 9; CaseExample.decision_label] CaseExample.final))) = "decided".
Proof.
  refine (proj1 (closed_case_is_frozen (H := CaseExample.repr0) (H0 := CaseExample.iso0)
    (H1 := CaseExample.schemas0) (H2 := CaseExample.tools0) _ _ _ _ _ _ _ _ CaseExample.start_row
    CaseExample.labels _ DECIDED CaseExample.created_ok _ _)).
  - vm_compute. reflexivity.
  - vm_compute. left.
Defined.

Lemma forgetting_strands_investigation_witness :
  state (row (db (@run CaseExample.repr0 CaseExample.iso0 CaseExample.schemas0 CaseExample.tools0
    [Store 0 true "user:1" (Ran (Some CaseExample.outcome1)) 8; Withdraw true (Some "user:1") true 9;
     Start true CaseExample.gates "user:1" "again" false 10]
    (@step CaseExample.repr0 CaseExample.iso0 CaseExample.schemas0 CaseExample.tools0
      (Forget true (Some "user:1") true 7)
      (@run CaseExample.repr0 CaseExample.iso0 CaseExample.schemas0 CaseExample.tools0
        CaseExample.reopened (init CaseExample.start_row)))))) = "in_progress".
Proof.
  refine (forgetting_strands_investigation (H := CaseExample.repr0) (H0 := CaseExample.iso0)
    (H1 := CaseExample.schemas0) (H2 := CaseExample.tools0) _ _ _ _ _ _ _ _ CaseExample.start_row
    CaseExample.reopened _ _ _ _ CaseExample.created_ok _).
  vm_compute. reflexivity.
Defined.
