(* ===== verification/Scopes.v ===== *)
(** Tool scopes and the ceiling of cloned agents: src/auth/scopes.py.

    A scope string is matched by splitting it at the colons, which no word
    character is; a pattern ending in [$] also matches before one final newline.
    Amounts are Python numbers. *)

From Stdlib Require Import Ascii.
From S2P Require Import Prelude PyVal.

Local Open Scope Z_scope.

Record ParsedScope := {
  category : string;
  connector : string;
  permission : string;
  resource : string;
  cap : option Z;
}.

Definition colon : ascii := ":"%char.

(** [[\w]+] and [\d+] *)
Definition is_word (s : string) : bool :=
  negb (String.eqb s EmptyString) && forallb (λ c, is_alnum c || is_underscore c) (chars s).
Definition is_number (s : string) : bool := negb (String.eqb s EmptyString) && forallb is_digit (chars s).

(** [SCOPE_PATTERN] on the segments: resource and cap are optional, the resource
    is tried first. *)
Definition match_segments (l : list string) : option ParsedScope :=
  match l with
  | cat :: conn :: perm :: rest =>
      if bool_decide (cat ∈ ["tool"; "agenticorg"]) && is_word conn && is_word perm then
        let parsed res c :=
          Some {| category := cat; connector := conn; permission := perm; resource := res; cap := c |} in
        match rest with
        | [] => parsed EmptyString None
        | [res] => if is_word res then parsed res None else None
        | [capped; n] =>
            if String.eqb capped "capped" && is_number n then parsed EmptyString (Some (int_of_digits (chars n))) else None
        | [res; capped; n] =>
            if is_word res && String.eqb capped "capped" && is_number n
            then parsed res (Some (int_of_digits (chars n))) else None
        | _ => None
        end
      else None
  | _ => None
  end.

Definition parse_scope (scope_str : string) : option ParsedScope :=
  match_segments (split colon (of_chars (drop_final_newline (chars scope_str)))).

Definition covers (p : ParsedScope) (conn perm res : string) : bool :=
  String.eqb (connector p) conn && String.eqb (permission p) perm && String.eqb (resource p) res.

Definition is_admin (p : ParsedScope) (conn : string) : bool :=
  String.eqb (connector p) conn && String.eqb (permission p) "admin".

Fixpoint check_scope (granted : list string) (conn perm res : string) (amount : option pyval) : bool * string :=
  match granted with
  | [] => (false, "no_matching_scope")
  | scope_str :: rest =>
      match parse_scope scope_str with
      | None => check_scope rest conn perm res amount
      | Some p =>
          if is_admin p conn then (true, "admin_scope")
          else if covers p conn perm res then
            match cap p, amount with
            | Some c, Some a => if scalar_ltb (VInt c) a then (false, "cap_exceeded:" +:+ pretty c)
                                else (true, "scope_match")
            | _, _ => (true, "scope_match")
            end
          else check_scope rest conn perm res amount
      end
  end.

(** The parent a child scope is held to: the violations it finds there, [None]
    without one. *)
Fixpoint hold_to_parent (child_scope : string) (child : ParsedScope) (parents : list string) : option (list string) :=
  match parents with
  | [] => None
  | parent_scope :: rest =>
      match parse_scope parent_scope with
      | None => hold_to_parent child_scope child rest
      | Some p =>
          if covers p (connector child) (permission child) (resource child) then
            Some match cap child, cap p with
                 | Some c, Some c' => if negb (c =? 0) && negb (c' =? 0) && (c' <? c)
                                      then ["Cap elevation: " +:+ child_scope +:+ " exceeds parent " +:+ parent_scope]
                                      else []
                 | _, _ => []
                 end
          else if is_admin p (connector child) then Some []
          else hold_to_parent child_scope child rest
      end
  end.

Definition validate_child (parents : list string) (child_scope : string) : list string :=
  match parse_scope child_scope with
  | None => []
  | Some child => default ["Scope not in parent: " +:+ child_scope] (hold_to_parent child_scope child parents)
  end.

Definition validate_clone_scopes (parents children : list string) : list string :=
  children ≫= validate_child parents.

(** * The ceiling *)

(** What allows an operation: an admin scope of the connector or the scope itself. *)
Definition grants (p : ParsedScope) (conn perm res : string) : Prop :=
  is_admin p conn = true ∨ covers p conn perm res = true.

Lemma covers_spec p conn perm res :
  covers p conn perm res = true ↔ connector p = conn ∧ permission p = perm ∧ resource p = res.
Proof. unfold covers. rewrite !andb_true_iff, !String.eqb_eq. naive_solver. Qed.

Lemma is_admin_spec p conn : is_admin p conn = true ↔ connector p = conn ∧ permission p = "admin".
Proof. unfold is_admin. by rewrite andb_true_iff, !String.eqb_eq. Qed.

(** An amount, if any, within a cap, if any *)
Definition within (c : option Z) (amount : option pyval) : Prop := ∀ n a, c = Some n → amount = Some a → scalar_ltb (VInt n) a = false.

(** An allowed operation is allowed by one of the scopes, with its amount. *)
Lemma check_scope_granted granted conn perm res amount :
  (check_scope granted conn perm res amount).1 = true →
  ∃ s p, s ∈ granted ∧ parse_scope s = Some p ∧ (is_admin p conn = true ∨ covers p conn perm res = true ∧ within (cap p) amount).
Proof.
  induction granted as [|s granted IH]; cbn -[scalar_ltb]; [done|]. intros Hc.
  assert ((check_scope granted conn perm res amount).1 = true →
    ∃ s' p, s' ∈ s :: granted ∧ parse_scope s' = Some p ∧ (is_admin p conn = true ∨ covers p conn perm res = true ∧ within (cap p) amount)) as Hrest.
  { intros (s' & p & Hin & ?)%IH. exists s', p. split; [by right|done]. }
  destruct (parse_scope s) as [p|] eqn:Hp; [|by apply Hrest].
  destruct (is_admin p conn) eqn:Ha; [exists s, p; split_and!; [left|done|by left]|]. destruct (covers p conn perm res) eqn:Hco; [|by apply Hrest].
  exists s, p. split_and!; [left|done|right]. split; [done|]. intros n a E1 E2. rewrite E1, E2 in Hc. by destruct (scalar_ltb (VInt n) a).
Qed.

Lemma fin_compare_mono c c' m e : c <= c' → fin_compare c' 0 m e = Lt → fin_compare c 0 m e = Lt.
Proof. unfold fin_compare. rewrite !Z.compare_lt_iff. intros Hle Hlt. pose proof (Z.pow_nonneg 2 (0 - Z.min 0 e) ltac:(lia)). nia. Qed.

Lemma scalar_ltb_mono c c' a : c <= c' → scalar_ltb (VInt c') a = true → scalar_ltb (VInt c) a = true.
Proof.
  intros Hle. destruct a as [|b|n|[| |m e]|s|l|m| |]; cbn; try done.
  1: destruct (fin_compare c' 0 (if b then 1 else 0) 0) eqn:E; try done. 2: destruct (fin_compare c' 0 n 0) eqn:E; try done. 3: destruct (fin_compare c' 0 m e) eqn:E; try done.
  all: by rewrite (fin_compare_mono _ _ _ _ Hle E).
Qed.

(** Without an amount above a cap, one granting scope is enough. *)
Lemma check_scope_allows granted conn perm res amount s p :
  (amount = None ∨ ∀ s' p', s' ∈ granted → parse_scope s' = Some p' → cap p' = None) →
  s ∈ granted → parse_scope s = Some p → grants p conn perm res →
  (check_scope granted conn perm res amount).1 = true.
Proof.
  intros Hcap. induction granted as [|s' granted IH]; intros Hin Hp Hg; [by apply not_elem_of_nil in Hin|]. cbn.
  assert (s ∈ granted → (check_scope granted conn perm res amount).1 = true) as Hrest.
  { intros Hin'. apply IH; try done. destruct Hcap as [Hcap|Hcap]; [by left|right]. intros s0 p0 Hs0. apply Hcap. by right. }
  destruct (parse_scope s') as [p'|] eqn:Hp'.
  - destruct (is_admin p' conn) eqn:Ha; [done|]. destruct (covers p' conn perm res) eqn:Hco.
    + destruct Hcap as [-> | Hcap]; [by destruct (cap p')|]. by rewrite (Hcap s' p') by (done || left).
    + apply elem_of_cons in Hin as [<- | Hin]; [|auto]. rewrite Hp in Hp'.
      injection Hp' as <-. by destruct Hg; congruence.
  - apply elem_of_cons in Hin as [<- | Hin]; [congruence|auto].
Qed.

(** A held child scope has a parent that is an admin scope of its connector, or the same scope with no lower cap. *)
Lemma hold_to_parent_granted child_scope child parents :
  hold_to_parent child_scope child parents = Some [] →
  ∃ s p, s ∈ parents ∧ parse_scope s = Some p ∧
    (is_admin p (connector child) = true ∨
     covers p (connector child) (permission child) (resource child) = true ∧ ∀ c c', cap child = Some c → cap p = Some c' → c ≠ 0 → c' ≠ 0 → c <= c').
Proof.
  induction parents as [|s parents IH]; cbn; [done|]. intros Hh.
  assert (hold_to_parent child_scope child parents = Some [] →
    ∃ s' p, s' ∈ s :: parents ∧ parse_scope s' = Some p ∧
      (is_admin p (connector child) = true ∨
       covers p (connector child) (permission child) (resource child) = true ∧ ∀ c c', cap child = Some c → cap p = Some c' → c ≠ 0 → c' ≠ 0 → c <= c')) as Hrest.
  { intros (s' & p & Hin & ?)%IH. exists s', p. split; [by right|done]. }
  destruct (parse_scope s) as [p|] eqn:Hp; [|by apply Hrest].
  destruct (covers p _ _ _) eqn:Hco; [|destruct (is_admin p _) eqn:Ha; [exists s, p; split_and!; [left|done|by left]|by apply Hrest]].
  exists s, p. split_and!; [left|done|right]. split; [done|]. intros c c' E1 E2 Hc Hc'. rewrite E1, E2 in Hh.
  destruct (Z.eqb_spec c 0), (Z.eqb_spec c' 0), (Z.ltb_spec c' c); try done; try lia.
Qed.

(** C15. The scope ceiling: when a clone's scopes show no violation, then for whatever they allow the parent holds a scope, an admin scope of
    the connector or the very scope, and where that scope and the clone's both have a cap other than zero the amount is within the parent's;
    an operation without an amount, and every operation if no parent scope is capped, is allowed to the parent itself. *)
Theorem clone_stays_under_parent parents children conn perm res amount :
  validate_clone_scopes parents children = [] →
  (check_scope children conn perm res amount).1 = true →
  (∃ s p, s ∈ parents ∧ parse_scope s = Some p ∧
    (is_admin p conn = true ∨
     covers p conn perm res = true ∧ ∃ s' child, s' ∈ children ∧ parse_scope s' = Some child ∧ covers child conn perm res = true ∧ within (cap child) amount ∧
       ((∃ c c', cap child = Some c ∧ c ≠ 0 ∧ cap p = Some c' ∧ c' ≠ 0) → within (cap p) amount))) ∧
  (amount = None ∨ (∀ s p, s ∈ parents → parse_scope s = Some p → cap p = None) → (check_scope parents conn perm res amount).1 = true).
Proof.
  intros Hval (s & child & Hin & Hp & Hg)%check_scope_granted.
  assert (validate_child parents s = []) as Hv.
  { apply list_elem_of_split in Hin as (l1 & l2 & ->). unfold validate_clone_scopes in Hval.
    rewrite bind_app in Hval. cbn in Hval. by apply app_eq_nil in Hval as [_ [? _]%app_eq_nil]. }
  unfold validate_child in Hv. rewrite Hp in Hv.
  destruct (hold_to_parent s child parents) as [v|] eqn:Hh; [|done]. cbn in Hv. subst v.
  apply hold_to_parent_granted in Hh as (s' & p & Hin' & Hp' & Hsub).
  assert (is_admin p conn = true ∨ covers p conn perm res = true ∧ covers child conn perm res = true ∧ within (cap child) amount ∧
    ((∃ c c', cap child = Some c ∧ c ≠ 0 ∧ cap p = Some c' ∧ c' ≠ 0) → within (cap p) amount)) as Hkey.
  { rewrite !is_admin_spec, !covers_spec in *. destruct Hg as [[E1 E2]|[(E1 & E2 & E3) Hw]], Hsub as [[F1 F2]|[(F1 & F2 & F3) Hc]]; try (left; split; congruence).
    right. split_and!; try (congruence || done). intros (c & c' & E4 & Hc0 & E5 & Hc0') n a E6 E7. assert (n = c') as -> by congruence. specialize (Hw c a E4 E7). specialize (Hc c c' E4 E5 Hc0 Hc0').
    destruct (scalar_ltb (VInt c') a) eqn:E; [|done]. by rewrite (scalar_ltb_mono _ _ _ Hc E) in Hw. }
  split.
  - exists s', p. split_and!; [done|done|]. destruct Hkey as [?|(Hco & Hcc & Hw & Hcap)]; [by left|right]. split; [done|]. by exists s, child.
  - intros Hcap. eapply check_scope_allows; [done|exact Hin'|exact Hp'|]. destruct Hkey as [?|(? & _)]; [by left|by right].
Qed.

Lemma clone_stays_under_parent_witness :
  ∃ s p, s ∈ ["tool:oracle_fusion:admin"; "tool:slack:write:message:capped:20"] ∧ parse_scope s = Some p ∧
    (is_admin p "slack" = true ∨ within (cap p) (Some (VInt 7))).
Proof.
  destruct (clone_stays_under_parent ["tool:oracle_fusion:admin"; "tool:slack:write:message:capped:20"] ["tool:slack:write:message:capped:9"; "tool:oracle_fusion:read:journal_entry"]
    "slack" "write" "message" (Some (VInt 7))) as [(s & p & Hin & Hp & H) _].
  - vm_compute. reflexivity.
  - vm_compute. reflexivity.
  - exists s, p. split; [exact Hin|]. split; [exact Hp|]. destruct H as [Ha|(Hc & s' & child & Hin' & Hp' & Hc' & Hw & Hcap)]; [by left|right]. apply Hcap.
    apply elem_of_cons in Hin as [->|Hin]; [vm_compute in Hp; injection Hp as <-; vm_compute in Hc; discriminate Hc|]. apply list_elem_of_singleton in Hin as ->.
    apply elem_of_cons in Hin' as [->|Hin']; [|apply list_elem_of_singleton in Hin' as ->; vm_compute in Hp'; injection Hp' as <-; vm_compute in Hc'; discriminate Hc'].
    exists 9, 20. vm_compute in Hp, Hp'. injection Hp as <-. injection Hp' as <-. split_and!; reflexivity || discriminate.
Defined.

#[local] Arguments scalar_ltb : simpl never.

(** The ceiling does not hold for capped amounts: a clone whose scope drops the
    parent's cap shows no violation, and may spend any amount the cap forbids the
    parent; so does a clone of a parent capped at zero. *)
Theorem clone_escapes_cap amount :
  scalar_ltb (VInt 500) amount = true →
  validate_clone_scopes ["tool:oracle_fusion:write:purchase_order:capped:500"]
    ["tool:oracle_fusion:write:purchase_order"] = [] ∧
  (check_scope ["tool:oracle_fusion:write:purchase_order"] "oracle_fusion" "write" "purchase_order" (Some amount)).1 = true ∧
  (check_scope ["tool:oracle_fusion:write:purchase_order:capped:500"] "oracle_fusion" "write" "purchase_order"
     (Some amount)).1 = false ∧
  validate_clone_scopes ["tool:oracle_fusion:write:purchase_order:capped:0"]
    ["tool:oracle_fusion:write:purchase_order:capped:900"] = [].
Proof.
  intros Ha. split; [vm_compute; reflexivity|]. split; [vm_compute; reflexivity|]. split; [|vm_compute; reflexivity].
  assert (parse_scope "tool:oracle_fusion:write:purchase_order:capped:500" =
    Some {| category := "tool"; connector := "oracle_fusion"; permission := "write"; resource := "purchase_order";
            cap := Some 500 |}) as Hp by (vm_compute; reflexivity).
  cbn [check_scope]. rewrite Hp. cbn. by rewrite Ha.
Qed.

Lemma clone_escapes_cap_witness :
  (check_scope ["tool:oracle_fusion:write:purchase_order:capped:500"] "oracle_fusion" "write" "purchase_order"
     (Some (VInt 1000000))).1 = false.
Proof. apply (clone_escapes_cap (VInt 1000000)). vm_compute. reflexivity. Defined.
