(* ===== verification/AuditLink.v ===== *)
(** The link arithmetic of the audit chain: src/core/governance/audit_chain_link.py,
    and the signed row of src/core/tool_gateway/audit_logger.py.

    A row is read column by column; a column of an ORM row is a string, a UUID, an
    aware or naive datetime or a JSON value, a column of an in-memory entry or of an
    exported row is any of them too. Texts are sequences of code points below 256,
    encoded in UTF-8 before they are hashed. [float.__repr__] and [str] of other
    objects are the parameters of [PyVal] and [Digest]. *)

From Stdlib Require Import Ascii.
From S2P Require Import Prelude PyVal PyText Digest.

Local Open Scope Z_scope.

(** * Columns and rows *)

Inductive column :=
| CUuid (s : string)
| CTime (d : datetime)
| CVal (v : pyval).

Abbreviation CNone := (CVal VNone).
Abbreviation CStr s := (CVal (VStr s)).

Section text.
Context `{PyStr}.

(** [str(value)] *)
Definition col_str (c : column) : string :=
  match c with
  | CUuid s => s
  | CTime d => isoformat " " d
  | CVal v => py_str v
  end.
End text.

(** The ORM row of [audit_log]. *)
Record AuditLog := {
  row_id : string;
  tenant_id : string;
  event_type : string;
  actor_type : string;
  actor_id : string;
  agent_id : option string;
  workflow_run_id : option string;
  resource_type : option string;
  resource_id : option string;
  action : string;
  outcome : string;
  details : list (string * pyval);
  signature : option string;
  trace_id : option string;
  chain_seq : option Z;
  chain_prev : option string;
  chain_hash : option string;
  sealed_at : option datetime;
  created_at : datetime;
}.

(** What the payload and the signature are computed from: a dict or an ORM row. *)
Inductive record :=
| RDict (d : list (string * column))
| RRow (r : AuditLog).

Definition opt_str (o : option string) : column := match o with None => CNone | Some s => CStr s end.
Definition opt_uuid (o : option string) : column := match o with None => CNone | Some s => CUuid s end.

(** [getattr(record, k, None)] for the columns of the row *)
Definition getattr (r : AuditLog) (k : string) : column :=
  if String.eqb k "tenant_id" then CUuid (tenant_id r)
  else if String.eqb k "event_type" then CStr (event_type r)
  else if String.eqb k "actor_type" then CStr (actor_type r)
  else if String.eqb k "actor_id" then CStr (actor_id r)
  else if String.eqb k "agent_id" then opt_uuid (agent_id r)
  else if String.eqb k "workflow_run_id" then opt_uuid (workflow_run_id r)
  else if String.eqb k "resource_type" then opt_str (resource_type r)
  else if String.eqb k "resource_id" then opt_str (resource_id r)
  else if String.eqb k "action" then CStr (action r)
  else if String.eqb k "outcome" then CStr (outcome r)
  else if String.eqb k "details" then CVal (VMap (details r))
  else if String.eqb k "trace_id" then opt_str (trace_id r)
  else if String.eqb k "created_at" then CTime (created_at r)
  else if String.eqb k "signature" then opt_str (signature r)
  else CNone.

Definition record_get (rec : record) (k : string) : column :=
  match rec with
  | RDict d => match assoc k d with Some c => c | None => CNone end
  | RRow r => getattr r k
  end.

(** * The payload *)

Definition CHAIN_VERSION : string := "1".
Definition GENESIS : string := of_chars (repeat "0"%char 64).

Definition SIGNED_COLUMNS : list string :=
  ["tenant_id"; "event_type"; "actor_type"; "actor_id"; "agent_id"; "workflow_run_id"; "resource_type";
   "resource_id"; "action"; "outcome"; "details"; "trace_id"; "created_at"].

Section payload.
Context `{PyStr, FloatRepr}.

Definition canonical_value (key : string) (value : column) : pyval :=
  match value with
  | CVal VNone => VNone
  | _ =>
      if String.eqb key "created_at" then
        VStr (match value with CTime d => isoformat "T" (to_utc d) | _ => col_str value end)
      else if String.eqb key "details" then
        match value with CVal (VMap kvs) => VMap kvs | _ => VMap [] end
      else VStr (col_str value)
  end.

(** [json.dumps(v, sort_keys=True, separators=(",", ":"), default=str)] *)
Fixpoint json_dumps_str (v : pyval) : string :=
  match v with
  | VNone => "null"
  | VBool b => if b then "true" else "false"
  | VInt z => pretty z
  | VFloat FNan => "NaN"
  | VFloat (FInf n) => if n then "-Infinity" else "Infinity"
  | VFloat (FFin m e) => float_repr (FFin m e)
  | VStr s => json_string s
  | VList l => "[" +:+ join "," (map json_dumps_str l) +:+ "]"
  | VMap kvs =>
      "{" +:+ join "," ((λ kv, json_string (fst kv) +:+ ":" +:+ snd kv) <$>
                        sort_by key_leb (map (λ kv, (fst kv, json_dumps_str (snd kv))) kvs)) +:+ "}"
  | VOther | VRaise => json_string (py_str v)
  end.

Definition canonical (rec : record) : list (string * pyval) :=
  (λ key, (key, canonical_value key (record_get rec key))) <$> SIGNED_COLUMNS.

Definition canonical_audit_payload (rec : record) : string := json_dumps_str (VMap (canonical rec)).

(** [str(signature or '')] *)
Definition signature_text (rec : record) : string :=
  match record_get rec "signature" with
  | CVal v => if truthy v then py_str v else EmptyString
  | c => col_str c
  end.

Definition link_material (prev_hash : string) (row : record) : string :=
  CHAIN_VERSION +:+ "|" +:+ prev_hash +:+ "|" +:+ canonical_audit_payload row +:+ "|" +:+ signature_text row.

Definition link_hash (prev_hash : string) (row : record) : string :=
  sha256_hexdigest (utf8 (link_material prev_hash row)).

(** * The signature of a row *)

Definition hmac_block (key : list Z) : list Z :=
  let k := if (64 <? length key)%nat then SHA256.digest key ≫= SHA256.be_bytes 4 else key in
  k ++ repeat 0 (64 - length k).

(** [hmac.new(key, message, hashlib.sha256).hexdigest()] *)
Definition hmac_sha256_hexdigest (key message : string) : string :=
  let k := hmac_block (byte_values key) in
  let inner := SHA256.digest (map (Z.lxor 54) k ++ byte_values message) ≫= SHA256.be_bytes 4 in
  of_chars (hex_bytes (SHA256.digest (map (Z.lxor 92) k ++ inner) ≫= SHA256.be_bytes 4)).

Definition sign_audit_record (rec : record) (secret : string) : string :=
  hmac_sha256_hexdigest secret (utf8 (canonical_audit_payload rec)).

(** [hmac.compare_digest] raises on a string that is not ASCII. *)
Definition compare_digest (a b : string) : option bool :=
  if forallb (λ c, (nat_of_ascii c <? 128)%nat) (chars a ++ chars b) then Some (String.eqb a b) else None.

Definition verify_audit_row (row : record) (secret : string) : option bool :=
  let stored := signature_text row in
  if String.eqb stored EmptyString then Some false
  else compare_digest (sign_audit_record row secret) stored.

Definition build_signed_audit_entry (tenant_id : column) (event_type actor_type actor_id action outcome : string)
    (details : list (string * pyval)) (created_at : column) (resource_type resource_id : option string)
    (agent_id workflow_run_id : column) (trace_id secret : string) : list (string * column) :=
  let entry :=
    [("tenant_id", tenant_id); ("event_type", CStr event_type); ("actor_type", CStr actor_type);
     ("actor_id", CStr actor_id); ("agent_id", agent_id); ("workflow_run_id", workflow_run_id);
     ("resource_type", opt_str resource_type); ("resource_id", opt_str resource_id); ("action", CStr action);
     ("outcome", CStr outcome); ("details", CVal (VMap details)); ("trace_id", CStr trace_id);
     ("created_at", created_at)] in
  dict_set "signature" (CStr (sign_audit_record (RDict entry) secret)) entry.

(** [a or b] on strings and on a string that may be [None] *)
Definition or_str (a : option string) (b : string) : string :=
  match a with Some s => if String.eqb s EmptyString then b else s | None => b end.

(** The entry [AuditLogger.log] signs and writes at [now]; [mask_pii] is the masker it
    applies to the details. *)
Definition log_entry (mask_pii : list (string * pyval) → list (string * pyval)) (secret : string) (now : datetime)
    (tenant_id : string) (agent_id : option string) (tool_name action outcome : string)
    (details : list (string * pyval)) (workflow_run_id resource_type resource_id : option string)
    (actor_type : string) (actor_id trace_id enforcement_action : option string) : list (string * column) :=
  let at_text := VStr (isoformat "T" now) in
  let enriched :=
    match enforcement_action with
    | Some e => if String.eqb e EmptyString then details
                else dict_set "enforcement_at" at_text (dict_set "enforcement_action" (VStr e) details)
    | None => details
    end in
  let entry :=
    [("tenant_id", CStr tenant_id);
     ("event_type", CStr (if String.eqb tool_name EmptyString then action else "tool." +:+ tool_name));
     ("actor_type", CStr actor_type);
     ("actor_id", CStr (or_str actor_id (or_str agent_id EmptyString)));
     ("agent_id", opt_str agent_id); ("workflow_run_id", opt_str workflow_run_id);
     ("resource_type", CStr (or_str resource_type "tool_call"));
     ("resource_id", CStr (or_str resource_id tool_name));
     ("action", CStr action); ("outcome", CStr outcome);
     ("details", CVal (VMap (mask_pii (dict_set "logged_at" at_text enriched))));
     ("trace_id", CStr (or_str trace_id EmptyString)); ("created_at", CVal at_text)] in
  dict_set "signature" (CStr (sign_audit_record (RDict entry) secret)) entry.
End payload.

#[global] Arguments link_hash : simpl never.
#[global] Arguments link_material : simpl never.
#[global] Arguments canonical_audit_payload : simpl never.
#[global] Arguments GENESIS : simpl never.
#[global] Arguments hmac_sha256_hexdigest : simpl never.

Example hmac_quick_fox :
  hmac_sha256_hexdigest "key" "The quick brown fox jumps over the lazy dog" =
  "f7bc83f430538424b13298e6aa6fb143ef4d59a14946175997479dbc2d1a3cd8".
Proof. vm_compute. reflexivity. Qed.

(** * Lengths of digests *)

Lemma round_length st kw : length st = 8%nat → length (SHA256.round st kw) = 8%nat.
Proof. destruct kw. do 9 (destruct st as [|? st]; try done). Qed.

Lemma compress_length st block : length st = 8%nat → length (SHA256.compress st block) = 8%nat.
Proof.
  intros Hst. unfold SHA256.compress. rewrite length_zip_with.
  assert (∀ l st', length st' = 8%nat → length (foldl SHA256.round st' l) = 8%nat) as ->; [|lia|done].
  induction l as [|kw l IH]; cbn; intros st' H; [done|]. by apply IH, round_length.
Qed.

Lemma digest_length bytes : length (SHA256.digest bytes) = 8%nat.
Proof.
  unfold SHA256.digest. generalize (SHA256.blocks (length (SHA256.words (SHA256.pad bytes)) / 16)
    (SHA256.words (SHA256.pad bytes))). intros l.
  assert (Hg : length SHA256.H0 = 8%nat) by done. revert Hg. generalize SHA256.H0.
  induction l as [|b l IH]; cbn; intros st Hst; [done|]. by apply IH, compress_length.
Qed.

Lemma bind_length {A B} (f : A → list B) n l : (∀ a, length (f a) = n) → length (l ≫= f) = (length l * n)%nat.
Proof. intros Hf. induction l as [|a l IH]; cbn; [done|]. rewrite length_app, Hf. by f_equal. Qed.

Lemma be_bytes_length n z : length (SHA256.be_bytes n z) = n.
Proof. revert z. induction n as [|n IH]; cbn; intros z; [done|]. rewrite length_app, IH. cbn. lia. Qed.

Lemma sha256_hexdigest_length data : length (chars (sha256_hexdigest data)) = 64%nat.
Proof.
  unfold sha256_hexdigest. rewrite chars_of_chars. unfold hex_bytes.
  rewrite (bind_length _ 2) by done. rewrite (bind_length _ 4) by apply be_bytes_length.
  by rewrite digest_length.
Qed.

(** * A JSON object delimits itself

    [skip d q l] reads [l] inside [d] open braces ([q]: inside a string) and returns
    what follows the brace that closes the last of them. *)

Fixpoint skip (d : nat) (q : bool) (l : list ascii) : option (list ascii) :=
  match l with
  | [] => None
  | c :: l' =>
      if q then
        if Ascii.eqb c backslash then match l' with _ :: l'' => skip d true l'' | [] => None end
        else skip d (negb (Ascii.eqb c quote)) l'
      else if Ascii.eqb c quote then skip d true l'
      else if Ascii.eqb c "{"%char then skip (S d) false l'
      else if Ascii.eqb c "}"%char then
        match d with O => None | S O => Some l' | S d' => skip d' false l' end
      else skip d false l'
  end.

(** A character outside strings that neither opens nor closes anything. *)
Definition plain (c : ascii) : bool :=
  negb (Ascii.eqb c quote) && negb (Ascii.eqb c "{"%char) && negb (Ascii.eqb c "}"%char).

(** A text [skip] passes over inside an object. *)
Definition passes (t : string) : Prop := ∀ d rest, skip (S d) false (chars t ++ rest) = skip (S d) false rest.

Lemma passes_plain t : forallb plain (chars t) = true → passes t.
Proof.
  intros Ht d rest. unfold plain in Ht. induction (chars t) as [|c l IH]; [done|].
  cbn in Ht. apply andb_true_iff in Ht as [Hc Hl]. apply andb_true_iff in Hc as [[H1 H2]%andb_true_iff H3].
  cbn. apply negb_true_iff in H1, H2, H3. rewrite H1, H2, H3. by apply IH.
Qed.

Lemma passes_app s t : passes s → passes t → passes (s +:+ t).
Proof. intros Hs Ht d rest. by rewrite chars_app, <- app_assoc, Hs, Ht. Qed.

Lemma skip_json_char d c rest : skip (S d) true (json_char c ++ rest) = skip (S d) true rest.
Proof. by destruct c as [[] [] [] [] [] [] [] []]. Qed.

Lemma passes_json_string s : passes (json_string s).
Proof.
  intros d rest. unfold json_string. rewrite chars_of_chars. cbn.
  rewrite <- app_assoc. induction (chars s) as [|c l IH]; [done|].
  cbn. by rewrite <- app_assoc, skip_json_char.
Qed.

Lemma pretty_N_go_plain x s : forallb plain (chars s) = true → forallb plain (chars (pretty_N_go x s)) = true.
Proof.
  revert s. induction (N.lt_wf_0 x) as [x _ IH]; intros s Hs.
  destruct (decide (0 < x)%N) as [Hx|Hx].
  - rewrite pretty_N_go_step by done. apply IH; [by apply N.div_lt|].
    cbn. rewrite Hs, andb_true_r. unfold pretty_N_char. by repeat case_match.
  - assert (x = 0%N) as -> by lia. by rewrite pretty_N_go_0.
Qed.

Lemma passes_pretty (z : Z) : passes (pretty z).
Proof.
  assert (Hp : ∀ n : N, forallb plain (chars (pretty n)) = true).
  { intros n. unfold pretty, pretty_N. case_decide; [done|]. by apply pretty_N_go_plain. }
  apply passes_plain. destruct z as [|p|p]; [done|apply (Hp (Npos p))|]. cbn. apply (Hp (Npos p)).
Qed.

Lemma passes_join l : Forall passes l → passes (join "," l).
Proof.
  intros Hl. unfold join. destruct Hl as [|x l Hx Hl]; [by apply passes_plain|].
  revert x Hx. induction Hl as [|y l Hy Hl IH]; cbn; intros x Hx; [done|].
  apply IH. repeat apply passes_app; [done|by apply passes_plain|done].
Qed.

Section delimited.
Context `{PyStr, FloatRepr} (float_repr_plain : ∀ f, forallb plain (chars (float_repr f)) = true).

Lemma passes_entries (kvs : list (string * string)) :
  Forall (λ kv, passes (snd kv)) kvs →
  passes (join "," ((λ kv, json_string (fst kv) +:+ ":" +:+ snd kv) <$> sort_by key_leb kvs)).
Proof.
  intros Hl. apply passes_join, Forall_fmap. rewrite sort_by_Permutation. eapply Forall_impl; [done|].
  intros [k v] Hv. cbn in *. repeat apply passes_app; [apply passes_json_string|by apply passes_plain|done].
Qed.

Lemma passes_json_dumps v : passes (json_dumps_str v).
Proof.
  induction v using pyval_induction; cbn [json_dumps_str];
    try (by apply passes_plain); try (by apply passes_json_string).
  - by destruct b; apply passes_plain.
  - apply passes_pretty.
  - destruct f as [|[]|m e]; by apply passes_plain.
  - repeat apply passes_app; [by apply passes_plain| |by apply passes_plain].
    by apply passes_join, Forall_map.
  - intros d rest. rewrite !chars_app, <- !app_assoc. cbn.
    rewrite passes_entries; [done|]. by apply Forall_map.
Qed.

Lemma skip_object kvs rest : skip 0 false (chars (json_dumps_str (VMap kvs)) ++ rest) = Some rest.
Proof.
  cbn [json_dumps_str]. rewrite !chars_app, <- !app_assoc. cbn. rewrite passes_entries; [done|].
  apply Forall_map, Forall_true. intros kv. apply passes_json_dumps.
Qed.

Lemma chars_inj s t : chars s = chars t → s = t.
Proof. intros E. by rewrite <- (of_chars_chars s), E, of_chars_chars. Qed.

(** The material of a link determines the link before it, the payload and the
    signature: the links have 64 characters and the payload is a JSON object. *)
Lemma link_material_inj p1 p2 r1 r2 :
  length (chars p1) = 64%nat → length (chars p2) = 64%nat →
  link_material p1 r1 = link_material p2 r2 →
  p1 = p2 ∧ canonical_audit_payload r1 = canonical_audit_payload r2 ∧ signature_text r1 = signature_text r2.
Proof.
  intros H1 H2 E. apply (f_equal chars) in E. unfold link_material in E. rewrite !chars_app in E.
  apply app_inv_head, app_inv_head in E.
  apply app_inj_1 in E as [Ep E]; [|lia]. apply chars_inj in Ep. apply app_inv_head in E.
  pose proof (f_equal (skip 0 false) E) as Es.
  unfold canonical_audit_payload in *. rewrite !skip_object in Es.
  injection Es as Es. rewrite Es in E. apply app_inv_tail, chars_inj in E. by apply chars_inj in Es.
Qed.
End delimited.

(** * One payload for every form of a row *)

(** A value with the entries of its mappings in key order. Two values with one
    normal form differ only in the order of keys, as a value read back from a JSONB
    column does. *)
Fixpoint normalise (v : pyval) : pyval :=
  match v with
  | VList l => VList (map normalise l)
  | VMap kvs => VMap (sort_by key_leb (map (λ kv, (fst kv, normalise (snd kv))) kvs))
  | _ => v
  end.

Definition json_equiv (v w : pyval) : Prop := normalise v = normalise w.

#[global] Instance json_equiv_equivalence : Equivalence json_equiv.
Proof. split; unfold json_equiv; congruence. Qed.

Lemma insert_by_map {A B} (g : A → B) (leA : A → A → bool) (leB : B → B → bool) x l :
  (∀ a b, leB (g a) (g b) = leA a b) → insert_by leB (g x) (map g l) = map g (insert_by leA x l).
Proof. intros Hg. induction l as [|y l IH]; cbn; [done|]. rewrite Hg. destruct (leA x y); cbn; by rewrite ?IH. Qed.

Lemma sort_by_map {A B} (g : A → B) (leA : A → A → bool) (leB : B → B → bool) l :
  (∀ a b, leB (g a) (g b) = leA a b) → sort_by leB (map g l) = map g (sort_by leA l).
Proof. intros Hg. induction l as [|x l IH]; cbn; [done|]. rewrite IH. by apply insert_by_map. Qed.

Lemma sort_by_sorted_id {A} (leb : A → A → bool) l : StronglySorted leb l → sort_by leb l = l.
Proof.
  induction 1 as [|x l Hl IH Hx]; cbn; [done|]. rewrite IH. destruct Hx as [|y l Hxy]; cbn; [done|].
  apply Is_true_true in Hxy. by rewrite Hxy.
Qed.

Lemma sort_by_key_idem {V} (l : list (string * V)) : sort_by key_leb (sort_by key_leb l) = sort_by key_leb l.
Proof.
  apply sort_by_sorted_id, sort_by_sorted; [intros ??; apply string_leb_total|intros ???; apply string_leb_trans].
Qed.

Section forms.
Context `{PyStr, FloatRepr}.

Lemma json_dumps_normalise v : json_dumps_str (normalise v) = json_dumps_str v.
Proof.
  induction v as [| | | | |l IH|kvs IH| |] using pyval_induction; cbn [json_dumps_str normalise]; try done.
  - rewrite map_map. do 3 f_equal. apply map_ext_Forall. done.
  - rewrite (sort_by_map _ key_leb key_leb) by done. rewrite sort_by_key_idem.
    rewrite <- (sort_by_map _ key_leb key_leb) by done. rewrite map_map. cbn. do 4 f_equal.
    f_equal. apply map_ext_Forall. eapply Forall_impl; [done|]. intros [k v] Hv. cbn in *. by rewrite Hv.
Qed.

#[global] Instance json_dumps_proper : Proper (json_equiv ==> eq) json_dumps_str.
Proof. intros v w Hvw. rewrite <- (json_dumps_normalise v), Hvw. apply json_dumps_normalise. Qed.

(** Rows whose columns have equivalent canonical values have one payload. *)
Lemma payload_ext r1 r2 :
  Forall (λ key, json_equiv (canonical_value key (record_get r1 key)) (canonical_value key (record_get r2 key)))
    SIGNED_COLUMNS →
  canonical_audit_payload r1 = canonical_audit_payload r2.
Proof.
  intros Hc. apply json_dumps_proper. unfold json_equiv, canonical. cbn [normalise].
  do 2 f_equal. change (@fmap list _ ?A ?B ?f ?l) with (map f l). rewrite !map_map. cbn -[SIGNED_COLUMNS].
  apply map_ext_Forall. eapply Forall_impl; [done|]. intros key Hk. by f_equal.
Qed.

(** A canonical value is its own canonical value: an exported row has the payload of
    the row it was exported from. *)
Lemma canonical_value_idem key c : canonical_value key (CVal (canonical_value key c)) = canonical_value key c.
Proof.
  assert (Hs : ∀ k s, k ≠ "details" → canonical_value k (CStr s) = VStr s).
  { intros k s Hk. unfold canonical_value. cbn. rewrite py_str_VStr.
    apply String.eqb_neq in Hk as ->. by destruct (String.eqb k "created_at"). }
  destruct (decide (key = "details")) as [->|Hd].
  - unfold canonical_value at 2 3. cbn. by destruct c as [s|d|[]].
  - assert (canonical_value key c = VNone ∨ ∃ s, canonical_value key c = VStr s) as [-> | [s ->]]; [|done|by apply Hs].
    unfold canonical_value. pose proof Hd as Hd'. apply String.eqb_neq in Hd' as ->.
    destruct c as [s|d|[]], (String.eqb key "created_at"); eauto.
Qed.

Lemma hex_digit_ascii b : 0 ≤ b < 16 → (nat_of_ascii (hex_digit b) < 128)%nat.
Proof.
  intros Hb. assert (Hin : Z.to_nat b ∈ seq 0 16) by (apply elem_of_seq; lia).
  unfold hex_digit. revert Hin. generalize (Z.to_nat b). apply Forall_forall.
  vm_compute. repeat constructor; lia.
Qed.

Lemma be_bytes_range n z : Forall (λ b, 0 ≤ b < 256) (SHA256.be_bytes n z).
Proof.
  revert z. induction n as [|n IH]; cbn; intros z; [done|].
  apply Forall_app. split; [done|]. constructor; [|done]. by apply Z.mod_pos_bound.
Qed.

Lemma hex_bytes_ascii l : Forall (λ b, 0 ≤ b < 256) l →
  forallb (λ c, (nat_of_ascii c <? 128)%nat) (hex_bytes l) = true.
Proof.
  unfold hex_bytes. induction 1 as [|b l Hb Hl IH]; [done|]. cbn -[Nat.ltb Z.div Z.modulo nat_of_ascii].
  rewrite IH. rewrite !(proj2 (Nat.ltb_lt _ _)); [done|apply hex_digit_ascii..].
  - by apply Z.mod_pos_bound.
  - split; [apply Z.div_pos; lia|apply Z.div_lt_upper_bound; lia].
Qed.

Lemma hmac_hexdigest_ascii key m : forallb (λ c, (nat_of_ascii c <? 128)%nat) (chars (hmac_sha256_hexdigest key m)) = true.
Proof.
  unfold hmac_sha256_hexdigest. rewrite chars_of_chars. apply hex_bytes_ascii.
  apply Forall_bind, Forall_true. intros w. apply be_bytes_range.
Qed.

Lemma hmac_hexdigest_nonempty key m : hmac_sha256_hexdigest key m ≠ EmptyString.
Proof.
  intros E. apply (f_equal (λ s, length (chars s))) in E. unfold hmac_sha256_hexdigest in E.
  rewrite chars_of_chars in E. unfold hex_bytes in E. rewrite (bind_length _ 2) in E by done.
  rewrite (bind_length _ 4) in E by apply be_bytes_length. rewrite digest_length in E. done.
Qed.

(** A row that carries the signature of some form of itself verifies. *)
Lemma verify_signed rec r secret :
  signature r = Some (sign_audit_record rec secret) →
  canonical_audit_payload rec = canonical_audit_payload (RRow r) →
  verify_audit_row (RRow r) secret = Some true.
Proof.
  intros Hs Hp. unfold verify_audit_row, signature_text. cbn [record_get getattr String.eqb Ascii.eqb Bool.eqb].
  unfold opt_str. rewrite Hs. cbn [truthy].
  set (sig := sign_audit_record rec secret).
  assert (Hne : String.eqb sig EmptyString = false) by (apply String.eqb_neq, hmac_hexdigest_nonempty).
  rewrite Hne. cbn [negb]. rewrite py_str_VStr, Hne. unfold compare_digest.
  assert (sign_audit_record (RRow r) secret = sig) as ->.
  { unfold sig, sign_audit_record. by rewrite Hp. }
  rewrite forallb_app. unfold sig, sign_audit_record. rewrite hmac_hexdigest_ascii. cbn [andb].
  by rewrite String.eqb_refl.
Qed.
End forms.

(** * Reading a written row back *)

(** The text of a text or UUID column as the driver returns it. *)
Definition column_text (c : column) : option string :=
  match c with CUuid s => Some s | CVal (VStr s) => Some s | _ => None end.

Definition column_map (c : column) : list (string * pyval) :=
  match c with CVal (VMap kvs) => kvs | _ => [] end.

(** The ORM row of [AuditLog( **entry )] once stored and read: [created] is the instant
    the timestamp column holds and [jsonb] the form the JSONB column gives the details. *)
Definition read_back (jsonb : list (string * pyval) → list (string * pyval)) (id : string) (created : datetime)
    (entry : list (string * column)) : AuditLog :=
  let text k := column_text (record_get (RDict entry) k) in
  let required k := default EmptyString (text k) in
  {| row_id := id; tenant_id := required "tenant_id"; event_type := required "event_type";
     actor_type := required "actor_type"; actor_id := required "actor_id"; agent_id := text "agent_id";
     workflow_run_id := text "workflow_run_id"; resource_type := text "resource_type";
     resource_id := text "resource_id"; action := required "action"; outcome := required "outcome";
     details := jsonb (column_map (record_get (RDict entry) "details")); signature := text "signature";
     trace_id := text "trace_id"; chain_seq := None; chain_prev := None; chain_hash := None; sealed_at := None;
     created_at := created |}.

Section read_back.
Context `{PyStr, FloatRepr} (jsonb : list (string * pyval) → list (string * pyval))
  (jsonb_equiv : ∀ d, json_equiv (VMap (jsonb d)) (VMap d)).

Lemma to_utc_utc d : utcoffset d = Some 0 → to_utc d = d.
Proof. destruct d as [w o]; cbn; intros ->. unfold to_utc. cbn. f_equal. lia. Qed.

Lemma read_back_verifies (entry : list (string * column)) secret id created :
  (∀ k, k ∈ ["tenant_id"; "event_type"; "actor_type"; "actor_id"; "action"; "outcome"] →
     is_Some (column_text (record_get (RDict entry) k))) →
  (∀ k, k ∈ ["agent_id"; "workflow_run_id"; "resource_type"; "resource_id"; "trace_id"] →
     record_get (RDict entry) k = CNone ∨ is_Some (column_text (record_get (RDict entry) k))) →
  (∃ kvs, record_get (RDict entry) "details" = CVal (VMap kvs)) →
  record_get (RDict entry) "created_at" = CTime created ∨
    record_get (RDict entry) "created_at" = CStr (isoformat "T" (to_utc created)) →
  "signature" ∉ entry.*1 →
  verify_audit_row (RRow (read_back jsonb id created
    (dict_set "signature" (CStr (sign_audit_record (RDict entry) secret)) entry))) secret = Some true.
Proof.
  intros Hreq Hopt (kvs & Hd) Hc Hs. set (e := dict_set "signature" _ entry).
  assert (Hget : ∀ k, k ≠ "signature" → record_get (RDict e) k = record_get (RDict entry) k).
  { intros k Hk. unfold e. cbn. by rewrite assoc_dict_set_ne. }
  apply (verify_signed (RDict entry)).
  { unfold read_back, e. cbn [signature record_get]. by rewrite assoc_dict_set_eq. }
  apply payload_ext. unfold SIGNED_COLUMNS.
  assert (Htext : ∀ k c, (k = "details" → False) → (k = "created_at" → False) → is_Some (column_text c) →
    canonical_value k (CStr (default EmptyString (column_text c))) = canonical_value k c ∧
    canonical_value k (CUuid (default EmptyString (column_text c))) = canonical_value k c).
  { intros k c H1 H2 [s Hcs]. unfold canonical_value.
    destruct (String.eqb_spec k "created_at"); [done|]. destruct (String.eqb_spec k "details"); [done|].
    destruct c as [s'|d|[]]; try discriminate Hcs; cbn in *; rewrite ?py_str_VStr; by simplify_eq. }
  assert (Hopt' : ∀ k c, (k = "details" → False) → (k = "created_at" → False) → c = CNone ∨ is_Some (column_text c) →
    canonical_value k (opt_str (column_text c)) = canonical_value k c ∧
    canonical_value k (opt_uuid (column_text c)) = canonical_value k c).
  { intros k c H1 H2 [-> | Hc']; [done|]. destruct (Htext k c H1 H2 Hc') as [E1 E2].
    destruct Hc' as [s Hc']. rewrite Hc' in *. done. }
  repeat apply Forall_cons_2; [..|by apply Forall_nil]; unfold read_back;
    change (record_get (RRow ?r) ?k) with (getattr r k); cbn [getattr String.eqb Ascii.eqb Bool.eqb
      tenant_id event_type actor_type actor_id agent_id workflow_run_id resource_type resource_id action
      outcome details trace_id created_at]; rewrite ?Hget by done.
  all: try (symmetry; apply (f_equal normalise); apply Htext; [done|done|apply Hreq, (bool_decide_unpack _); reflexivity]).
  all: try (symmetry; apply (f_equal normalise); apply Hopt'; [done|done|apply Hopt, (bool_decide_unpack _); reflexivity]).
  - rewrite Hd. symmetry. apply jsonb_equiv.
  - destruct Hc as [-> | ->]; [done|]. unfold canonical_value. cbn. by rewrite py_str_VStr.
Qed.
End read_back.

Section written_rows.
Context `{PyStr, FloatRepr} (jsonb : list (string * pyval) → list (string * pyval))
  (jsonb_equiv : ∀ d, json_equiv (VMap (jsonb d)) (VMap d)).

Lemma opt_str_text o : opt_str o = CNone ∨ is_Some (column_text (opt_str o)).
Proof. destruct o; eauto. Qed.

Lemma opt_uuid_text o : opt_uuid o = CNone ∨ is_Some (column_text (opt_uuid o)).
Proof. destruct o; eauto. Qed.

Ltac columns := intros k Hk; revert k Hk; apply Forall_forall;
  repeat apply Forall_cons_2; [first [apply opt_str_text|apply opt_uuid_text|by eexists|by right; eexists]..|by apply Forall_nil].

(** A row [AuditLogger.log] signed, with the instant it carries as ISO text, and a
    row [build_signed_audit_entry] signed, with the datetime itself, both verify under
    the signing key when they are read back from the table as UUIDs, a datetime and a
    JSONB value whose keys come in any order. *)
Theorem written_row_verifies mask_pii secret now created tenant agent run tool action outcome dets
    rtype rid atype actor trace enforcement id event :
  utcoffset now = Some 0 →
  verify_audit_row (RRow (read_back jsonb id now
    (log_entry mask_pii secret now tenant agent tool action outcome dets run rtype rid atype actor trace
       enforcement))) secret = Some true ∧
  verify_audit_row (RRow (read_back jsonb id created
    (build_signed_audit_entry (CUuid tenant) event atype tool action outcome dets (CTime created) rtype rid
       (opt_uuid agent) (opt_uuid run) (default EmptyString trace) secret))) secret = Some true.
Proof.
  intros Hnow. split; apply read_back_verifies; try done; try columns; try (by eexists); try (by left);
    try (apply (bool_decide_unpack _); reflexivity).
  right. by rewrite to_utc_utc.
Qed.
End written_rows.

(** * Examples *)

#[global] Instance example_str : PyStr := {| py_str v := match v with VStr s => s | _ => "?" end; py_str_VStr := λ s, eq_refl |}.
#[global] Instance example_float : FloatRepr := λ _, "0.5".

Definition example_now : datetime := {| wall := 1709251199000250; utcoffset := Some 0 |}.

Lemma written_row_verifies_witness :
  verify_audit_row (RRow (read_back (λ d, sort_by key_leb d) "r1" example_now
    (log_entry (λ d, d) "key" example_now "t1" (Some "a1") "mail" "send" "success" [("b", VInt 1); ("a", VNone)] None None
       None "agent" None None None))) "key" = Some true.
Proof.
  assert (Hj : ∀ d, json_equiv (VMap (sort_by key_leb d)) (VMap d)).
  { intros d. unfold json_equiv. cbn [normalise]. f_equal.
    rewrite (sort_by_map (λ kv : string * pyval, (kv.1, normalise kv.2)) key_leb key_leb) by done.
    rewrite sort_by_key_idem. symmetry. by apply sort_by_map. }
  exact (proj1 (written_row_verifies (λ d, sort_by key_leb d) Hj (λ d, d) "key" example_now example_now "t1" (Some "a1")
    None "mail" "send" "success" [("b", VInt 1); ("a", VNone)] None None "agent" None None None "r1" "e" eq_refl)).
Defined.
