(* ===== verification/AuditChain.v ===== *)
(** The tamper-evident audit chain: src/core/governance/audit_chain.py, over the
    tables of src/core/models/audit.py.

    The database is the list of [audit_log] rows of every tenant and the anchor row of
    each tenant. Sealing is one transaction under the tenant's advisory lock and is one
    step. Verification is a sequence of statements, each of which sees what is committed
    when it runs: [verify_reads] takes the database its head, count and anchor
    statements see and the one the later statements see; [verify] is the run in which
    they all see the same. [secret] is the audit key of the settings. *)

From Stdlib Require Import Ascii.
From S2P Require Import Prelude PyVal PyText Digest AuditLink.

Local Open Scope Z_scope.

(** * Data *)

Record Head := { seq : Z; hash : string; head_sealed_at : option datetime }.

#[global] Instance Head_eq_dec : EqDecision Head.
Proof. solve_decision. Defined.

Definition empty_head : Head := {| seq := 0; hash := GENESIS; head_sealed_at := None |}.

Record Break := { break_seq : Z; break_row : option string; reason : string }.

Record Verification := {
  head : Head;
  unsealed : nat;
  checked_from : Z;
  checked_to : Z;
  verified : nat;
  unsigned : nat;
  anchor : option Head;
  expected_head : option Head;
  first_break : option Break;
  breaks : list Break;
}.

Definition status (v : Verification) : string :=
  match first_break v with
  | Some _ => "broken"
  | None => if seq (head v) =? 0 then "empty" else "verified"
  end.

Record SealOutcome := { sealed : nat; outcome_head : Head; more : bool }.

Record db := { rows : list AuditLog; anchors : list (string * Head) }.

(** * Queries *)

Definition is_sealed (r : AuditLog) : bool := bool_decide (is_Some (chain_seq r)).
Definition seq_of (r : AuditLog) : Z := default 0 (chain_seq r).
Definition of_tenant (t : string) (r : AuditLog) : bool := String.eqb (tenant_id r) t.
Definition seq_leb (a b : AuditLog) : bool := seq_of a <=? seq_of b.
Definition seq_geb (a b : AuditLog) : bool := seq_of b <=? seq_of a.

(** [ORDER BY created_at ASC, id ASC] *)
Definition written_leb (a b : AuditLog) : bool :=
  let ta := wall (to_utc (created_at a)) in
  let tb := wall (to_utc (created_at b)) in
  (ta <? tb) || (ta =? tb) && String.leb (row_id a) (row_id b).

Definition head_row (d : db) (t : string) : option AuditLog :=
  hd_error (sort_by seq_geb (List.filter (λ r, of_tenant t r && is_sealed r) (rows d))).

Definition waiting (d : db) (t : string) : list AuditLog :=
  List.filter (λ r, of_tenant t r && negb (is_sealed r)) (rows d).

Definition unsealed_rows (d : db) (t : string) (limit : nat) : list AuditLog :=
  take limit (sort_by written_leb (waiting d t)).

Definition unsealed_count (d : db) (t : string) : nat := length (waiting d t).

(** The sealed rows of the tenant from a sequence number on, in order. *)
Definition sealed_from (d : db) (t : string) (from_seq : Z) : list AuditLog :=
  sort_by seq_leb (List.filter (λ r, of_tenant t r && is_sealed r && (from_seq <=? seq_of r)) (rows d)).

Definition sealed_rows (d : db) (t : string) (from_seq : Z) (limit : Z) : list AuditLog :=
  take (Z.to_nat limit) (sealed_from d t from_seq).

Definition stored_anchor (d : db) (t : string) : option Head := assoc t (anchors d).

Definition write_anchor (d : db) (t : string) (h : Head) : db :=
  {| rows := rows d; anchors := dict_set t h (anchors d) |}.

(** [str(row.chain_hash or default)] *)
Definition text_or (o : option string) (dflt : string) : string :=
  match o with Some s => if String.eqb s EmptyString then dflt else s | None => dflt end.

Definition head_of (row : option AuditLog) : Head :=
  match row with
  | None => empty_head
  | Some r => {| seq := seq_of r; hash := text_or (chain_hash r) GENESIS; head_sealed_at := sealed_at r |}
  end.

(** * Sealing *)

Definition with_link (r : AuditLog) (s : Z) (prev h : string) (now : datetime) : AuditLog :=
  {| row_id := row_id r; tenant_id := tenant_id r; event_type := event_type r; actor_type := actor_type r;
     actor_id := actor_id r; agent_id := agent_id r; workflow_run_id := workflow_run_id r;
     resource_type := resource_type r; resource_id := resource_id r; action := action r; outcome := outcome r;
     details := details r; signature := signature r; trace_id := trace_id r;
     chain_seq := Some s; chain_prev := Some prev; chain_hash := Some h; sealed_at := Some now;
     created_at := created_at r |}.

(** What the trigger asks of the row an UPDATE finds, and of the row it leaves; every
    other column must be as it was. *)
Definition chain_columns_null (r : AuditLog) : bool :=
  bool_decide (chain_seq r = None) && bool_decide (chain_prev r = None) &&
  bool_decide (chain_hash r = None) && bool_decide (sealed_at r = None).
Definition chain_columns_filled (r : AuditLog) : bool :=
  bool_decide (is_Some (chain_seq r)) && bool_decide (is_Some (chain_prev r)) &&
  bool_decide (is_Some (chain_hash r)) && bool_decide (is_Some (sealed_at r)).

(** The UPDATEs [audit_log_reject_mutation] lets through. *)
Definition update_allowed (old new : AuditLog) : Prop :=
  chain_columns_null old = true ∧ chain_columns_filled new = true ∧
  ∀ s p h n, with_link new s p h n = with_link old s p h n.

Section chain.
Context `{PyStr, FloatRepr} (secret : string).

(** The loop over the rows of a batch: the sealed rows, the last sequence and link. *)
Fixpoint seal_loop (now : datetime) (s : Z) (prev : string) (batch : list AuditLog) : list AuditLog * Z * string :=
  match batch with
  | [] => ([], s, prev)
  | r :: batch' =>
      let h := link_hash prev (RRow r) in
      let '(rest, s', prev') := seal_loop now (s + 1) h batch' in
      (with_link r (s + 1) prev h now :: rest, s', prev')
  end.

(** The flush: each sealed row replaces the row with its id. *)
Definition flush (new : list AuditLog) (table : list AuditLog) : list AuditLog :=
  (λ r, match List.find (λ n, String.eqb (row_id n) (row_id r)) new with Some n => n | None => r end) <$> table.

(** [max(1, int(batch or settings.audit_chain_seal_batch))] *)
Definition seal_size (batch : option Z) (setting : Z) : Z :=
  Z.max 1 (match batch with Some b => if b =? 0 then setting else b | None => setting end).

(** [None]: the trigger refused one of the UPDATEs and the transaction rolled back. *)
Definition seal (d : db) (t : string) (batch : option Z) (setting : Z) (now : datetime) : option (db * SealOutcome) :=
  let size := seal_size batch setting in
  let h := head_of (head_row d t) in
  let picked := unsealed_rows d t (Z.to_nat size) in
  if forallb chain_columns_null picked then
    let '(new, s, prev) := seal_loop now (seq h) (hash h) picked in
    let h' := if bool_decide (picked = []) then h else {| seq := s; hash := prev; head_sealed_at := Some now |} in
    let d' := if bool_decide (picked = []) then d
              else write_anchor {| rows := flush new (rows d); anchors := anchors d |} t h' in
    Some (d', {| sealed := length picked; outcome_head := h'; more := size <=? Z.of_nat (length picked) |})
  else None.

(** * Verification *)

Definition PAGE : Z := 1000.

Definition anchor_break (d : db) (t : string) (h anc : Head) : option Break :=
  if seq anc <=? 0 then None
  else if seq h <? seq anc then Some {| break_seq := seq h + 1; break_row := None; reason := "truncated" |}
  else match sealed_rows d t (seq anc) 1 with
       | r :: _ =>
           if negb (seq_of r =? seq anc) then
             Some {| break_seq := seq anc; break_row := None; reason := "sequence_gap" |}
           else if negb (String.eqb (text_or (chain_hash r) EmptyString) (hash anc)) then
             Some {| break_seq := seq anc; break_row := Some (row_id r); reason := "anchor_mismatch" |}
           else None
       | [] => Some {| break_seq := seq anc; break_row := None; reason := "sequence_gap" |}
       end.

Definition signed (r : AuditLog) : bool := negb (String.eqb (text_or (signature r) EmptyString) EmptyString).

Inductive verify_error := TypeError | OutOfFuel.

(** The reason a row breaks the chain, if it does; the comparison of the signature
    raises on text that is not ASCII. *)
Definition check (r : AuditLog) (s expected : Z) (prev : string) : result verify_error (option string) :=
  if negb (s =? expected) then Ok (Some "sequence_gap")
  else if negb (String.eqb (text_or (chain_prev r) EmptyString) prev) then Ok (Some "previous_link")
  else if negb (String.eqb (text_or (chain_hash r) EmptyString) (link_hash prev (RRow r))) then Ok (Some "link_hash")
  else if signed r then
    match verify_audit_row (RRow r) secret with
    | None => Err TypeError
    | Some ok => Ok (if ok then None else Some "signature")
    end
  else Ok None.

Definition with_break (v : Verification) (b : Break) : Verification :=
  {| head := head v; unsealed := unsealed v; checked_from := checked_from v; checked_to := checked_to v;
     verified := verified v; unsigned := unsigned v; anchor := anchor v; expected_head := expected_head v;
     first_break := Some b; breaks := breaks v ++ [b] |}.

Definition with_row (v : Verification) (r : AuditLog) (s : Z) : Verification :=
  {| head := head v; unsealed := unsealed v; checked_from := checked_from v; checked_to := s;
     verified := S (verified v); unsigned := if signed r then unsigned v else S (unsigned v);
     anchor := anchor v; expected_head := expected_head v; first_break := first_break v; breaks := breaks v |}.

(** The loop over the rows of a page: the report, whether it broke, and the next
    expected sequence and previous link. *)
Fixpoint check_rows (page : list AuditLog) (expected : Z) (prev : string) (v : Verification) :
    result verify_error (Verification * bool * Z * string) :=
  match page with
  | [] => Ok (v, false, expected, prev)
  | r :: page' =>
      let s := seq_of r in
      match check r s expected prev with
      | Err e => Err e
      | Ok (Some w) => Ok (with_break v {| break_seq := s; break_row := Some (row_id r); reason := w |}, true, expected, prev)
      | Ok None => check_rows page' (s + 1) (default EmptyString (chain_hash r)) (with_row v r s)
      end
  end.

Fixpoint verify_loop (fuel : nat) (d : db) (t : string) (remaining : option Z) (expected : Z) (prev : string)
    (v : Verification) : result verify_error Verification :=
  match fuel with
  | O => Err OutOfFuel
  | S fuel' =>
      if match remaining with None => true | Some n => 0 <? n end then
        let page := match remaining with None => PAGE | Some n => Z.min PAGE n end in
        let found := sealed_rows d t expected page in
        match found with
        | [] => Ok v
        | _ =>
            match check_rows found expected prev v with
            | Err e => Err e
            | Ok (v', true, _, _) => Ok v'
            | Ok (v', false, expected', prev') =>
            if Z.of_nat (length found) <? page then Ok v'
            else verify_loop fuel' d t ((λ n, n - Z.of_nat (length found)) <$> remaining) expected' prev' v'
            end
        end
      else Ok v
  end.

Definition first_anchor_break (d : db) (t : string) (h : Head) (l : list (option Head)) : option Break :=
  foldr (λ a rest, match a with
                   | None => rest
                   | Some anc => match anchor_break d t h anc with Some b => Some b | None => rest end
                   end) None l.

Definition verify_reads (d_head d_count d_anchor d_rows : db) (t : string) (from_seq : Z) (limit : option Z)
    (expected : option Head) : result verify_error Verification :=
  let start := Z.max 1 from_seq in
  let h := head_of (head_row d_head t) in
  let v := {| head := h; unsealed := unsealed_count d_count t; checked_from := start; checked_to := 0;
              verified := 0; unsigned := 0; anchor := stored_anchor d_anchor t; expected_head := expected;
              first_break := None; breaks := [] |} in
  match first_anchor_break d_rows t h [anchor v; expected] with
  | Some b => Ok (with_break v b)
  | None =>
      if seq h =? 0 then Ok v
      else
        let run prev := verify_loop (S (length (rows d_rows))) d_rows t limit start prev v in
        if 1 <? start then
          let gap := Ok (with_break v {| break_seq := start - 1; break_row := None; reason := "sequence_gap" |}) in
          match sealed_rows d_rows t (start - 1) 1 with
          | r :: _ => if seq_of r =? start - 1 then run (text_or (chain_hash r) EmptyString) else gap
          | [] => gap
          end
        else run GENESIS
  end.

Definition verify (d : db) : string → Z → option Z → option Head → result verify_error Verification :=
  verify_reads d d d d.
End chain.

#[global] Arguments PAGE : simpl never.

(** * Facts about the queries *)

(** The sealed rows of a tenant, in order. *)
Definition sealed_all (d : db) (t : string) : list AuditLog :=
  sort_by seq_leb (List.filter (λ r, of_tenant t r && is_sealed r) (rows d)).

Lemma seq_leb_total a b : seq_leb a b = true ∨ seq_leb b a = true.
Proof. unfold seq_leb. destruct (Z.leb_spec (seq_of a) (seq_of b)); [by left|right]. apply Z.leb_le. lia. Qed.

Lemma seq_leb_trans a b c : seq_leb a b = true → seq_leb b c = true → seq_leb a c = true.
Proof. unfold seq_leb. rewrite !Z.leb_le. lia. Qed.

Lemma sort_by_filter {A} (leb : A → A → bool) (p : A → bool) l :
  (∀ a b, leb a b = true ∨ leb b a = true) →
  (∀ a b c, leb a b = true → leb b c = true → leb a c = true) →
  sort_by leb (List.filter p l) = List.filter p (sort_by leb l).
Proof.
  intros Htot Htr.
  assert (Hins : ∀ x l, StronglySorted leb l →
    List.filter p (insert_by leb x l) =
    if p x then insert_by leb x (List.filter p l) else List.filter p l).
  { intros x l'. induction 1 as [|y l' Hl IH Hy]; cbn; [by destruct (p x)|].
    destruct (leb x y) eqn:Exy; cbn.
    - destruct (p x) eqn:Ex; [|done]. destruct (p y); cbn; [by rewrite Exy|].
      symmetry. clear -Hy Exy Htr. induction Hy as [|z l' Hz Hl IH]; cbn; [done|].
      destruct (p z); cbn; [|done]. apply Is_true_true in Hz. by rewrite (Htr x y z).
    - rewrite IH. destruct (p y), (p x); cbn; rewrite ?Exy; done. }
  induction l as [|x l IH]; cbn; [done|]. rewrite Hins by (by apply sort_by_sorted).
  destruct (p x); cbn; by rewrite IH.
Qed.

#[local] Instance list_filter_proper {A} (p : A → bool) : Proper ((≡ₚ) ==> (≡ₚ)) (List.filter p).
Proof.
  intros l l'. induction 1 as [|x l1 l2 _ IH|x y l|l1 l2 l3 _ IH1 _ IH2]; cbn; [done| | |by etrans].
  - destruct (p x); by rewrite IH.
  - destruct (p x), (p y); try done. apply Permutation_swap.
Qed.

Lemma filter_andb {A} (p q : A → bool) l : List.filter (λ x, p x && q x) l = List.filter q (List.filter p l).
Proof. induction l as [|x l IH]; cbn; [done|]. destruct (p x); cbn; [|done]. destruct (q x); by rewrite IH. Qed.

Lemma sealed_from_all d t e : sealed_from d t e = List.filter (λ r, e <=? seq_of r) (sealed_all d t).
Proof.
  unfold sealed_from, sealed_all. rewrite filter_andb. apply sort_by_filter; [apply seq_leb_total|apply seq_leb_trans].
Qed.

Lemma sealed_all_elem d t r : r ∈ sealed_all d t ↔ r ∈ rows d ∧ tenant_id r = t ∧ is_sealed r = true.
Proof.
  unfold sealed_all. rewrite elem_of_sort_by, !list_elem_of_In, filter_In, andb_true_iff.
  unfold of_tenant. by rewrite String.eqb_eq.
Qed.

(** The unique index of [audit_log] on the tenant and the sequence number. *)
Definition unique_seqs (d : db) : Prop := ∀ t, NoDup (seq_of <$> sealed_all d t).

Lemma same_seq l x1 x2 : NoDup (seq_of <$> l) → x1 ∈ l → x2 ∈ l → seq_of x1 = seq_of x2 → x1 = x2.
Proof.
  intros Hnd Hx1 Hx2 Heq. apply list_elem_of_lookup in Hx1 as [i Hi], Hx2 as [j Hj].
  enough (i = j) by congruence. eapply NoDup_lookup; [exact Hnd|by rewrite list_lookup_fmap, Hi|].
  rewrite list_lookup_fmap, Hj. cbn. by f_equal.
Qed.

Lemma sorted_unique (l1 l2 : list AuditLog) :
  NoDup (seq_of <$> l1) → StronglySorted seq_leb l1 → StronglySorted seq_leb l2 → l1 ≡ₚ l2 → l1 = l2.
Proof.
  intros Hnd H1 H2 Hp. eapply StronglySorted_unique_strong; [|done..].
  intros x1 x2 Hx1 Hx2 Ha Hb. rewrite <- Hp in Hx2. apply Is_true_true in Ha, Hb.
  unfold seq_leb in Ha, Hb. apply Z.leb_le in Ha, Hb. eapply same_seq; [exact Hnd|done|done|lia].
Qed.

Lemma sealed_all_sorted d t : StronglySorted seq_leb (sealed_all d t).
Proof. apply sort_by_sorted; [apply seq_leb_total|apply seq_leb_trans]. Qed.

Lemma StronglySorted_reverse {A} (R : A → A → Prop) l :
  StronglySorted R l → StronglySorted (flip R) (reverse l).
Proof.
  induction 1 as [|x l Hl IH Hx]; [constructor|]. rewrite reverse_cons.
  clear Hl. assert (Hx' : Forall (λ y, flip R y x) (reverse l)) by (by rewrite reverse_Permutation).
  induction IH as [|y l' Hl' IH' Hy]; cbn; [repeat constructor|]. inversion Hx' as [|?? Hyx Hx'']; subst.
  constructor; [by apply IH'|]. rewrite Forall_app. split; [done|]. by constructor.
Qed.

(** The newest link is the last of the sealed rows in order. *)
Lemma head_row_last d t : NoDup (seq_of <$> sealed_all d t) → head_row d t = last (sealed_all d t).
Proof.
  intros Hnd. unfold head_row.
  assert (sort_by seq_geb (List.filter (λ r, of_tenant t r && is_sealed r) (rows d)) = reverse (sealed_all d t)) as ->.
  { eapply StronglySorted_unique_strong with (R := seq_geb).
    - intros x1 x2 Hx1 Hx2 Ha Hb. rewrite elem_of_sort_by in Hx1.
      assert (Hx1' : x1 ∈ sealed_all d t) by (by unfold sealed_all; rewrite elem_of_sort_by).
      rewrite elem_of_reverse in Hx2. apply Is_true_true in Ha, Hb.
      unfold seq_geb in Ha, Hb. apply Z.leb_le in Ha, Hb. eapply same_seq; [exact Hnd|done|done|lia].
    - apply sort_by_sorted; [intros a b; destruct (seq_leb_total b a); auto|].
      intros a b c Hab Hbc. by apply (seq_leb_trans c b a).
    - apply StronglySorted_reverse, sealed_all_sorted.
    - rewrite sort_by_Permutation, reverse_Permutation. unfold sealed_all. by rewrite sort_by_Permutation. }
  generalize (sealed_all d t). intros l. induction l as [|x l IH] using rev_ind; [done|].
  by rewrite reverse_app, last_snoc.
Qed.

(** * Linked rows *)

Section linked.
Context `{PyStr, FloatRepr}.

(** [linked prev n l]: the rows of [l] carry the sequence numbers from [n] on, each with
    the link before it and its own link, the first after [prev]. *)
Fixpoint linked (prev : string) (n : Z) (l : list AuditLog) : Prop :=
  match l with
  | [] => True
  | r :: l' =>
      let h := link_hash prev (RRow r) in
      chain_seq r = Some n ∧ chain_prev r = Some prev ∧ chain_hash r = Some h ∧ linked h (n + 1) l'
  end.

(** The link after the rows of [l]. *)
Fixpoint end_link (prev : string) (l : list AuditLog) : string :=
  match l with [] => prev | r :: l' => end_link (link_hash prev (RRow r)) l' end.

Lemma linked_app prev n l1 l2 :
  linked prev n (l1 ++ l2) ↔ linked prev n l1 ∧ linked (end_link prev l1) (n + Z.of_nat (length l1)) l2.
Proof.
  revert prev n. induction l1 as [|r l1 IH]; intros prev n.
  { cbn. rewrite Z.add_0_r. naive_solver. }
  cbn [linked end_link app length]. rewrite IH.
  replace (n + 1 + Z.of_nat (length l1)) with (n + Z.of_nat (S (length l1))) by lia. naive_solver.
Qed.

Lemma end_link_app prev l1 l2 : end_link prev (l1 ++ l2) = end_link (end_link prev l1) l2.
Proof. revert prev. induction l1 as [|r l1 IH]; intros prev; [done|]. apply IH. Qed.

Lemma linked_lookup prev n l i r : linked prev n l → l !! i = Some r →
  seq_of r = n + Z.of_nat i ∧ is_sealed r = true ∧
  chain_prev r = Some (end_link prev (take i l)) ∧
  chain_hash r = Some (link_hash (end_link prev (take i l)) (RRow r)).
Proof.
  revert prev n i. induction l as [|r' l IH]; intros prev n i Hl Hi; [done|].
  destruct Hl as (Hs & Hp & Hh & Hl). destruct i as [|i]; cbn in Hi.
  - simplify_eq. unfold seq_of, is_sealed. rewrite Hs. cbn. repeat split; try done. lia.
  - destruct (IH _ _ _ Hl Hi) as (E1 & E2 & E3). split; [lia|done].
Qed.

Lemma linked_NoDup prev n l : linked prev n l → NoDup (seq_of <$> l).
Proof.
  intros Hl. apply NoDup_alt. intros i j x Hi Hj. rewrite list_lookup_fmap in Hi, Hj.
  apply fmap_Some in Hi as (r1 & Hi & ->), Hj as (r2 & Hj & E).
  apply (linked_lookup _ _ _ _ _ Hl) in Hi as [Hi _], Hj as [Hj _]. lia.
Qed.

Lemma linked_sorted prev n l : linked prev n l → StronglySorted seq_leb l.
Proof.
  revert prev n. induction l as [|r l IH]; intros prev n Hl; [constructor|].
  pose proof Hl as (Hs & _ & _ & Hl'). constructor; [by eapply IH|].
  apply Forall_lookup. intros i r' Hi. apply (linked_lookup _ _ _ _ _ Hl') in Hi as [Hi _].
  apply Is_true_true. unfold seq_leb. apply Z.leb_le. rewrite Hi. unfold seq_of. rewrite Hs. cbn. lia.
Qed.

(** The rows of a linked list from a sequence number on are a suffix of it. *)
Lemma linked_from prev n l e : linked prev n l → n ≤ e →
  List.filter (λ r, e <=? seq_of r) l = drop (Z.to_nat (e - n)) l.
Proof.
  revert prev n. induction l as [|r l IH]; intros prev n Hl He; [by rewrite drop_nil|].
  destruct Hl as (Hs & _ & _ & Hl). cbn [List.filter].
  assert (Hr : seq_of r = n) by (unfold seq_of; by rewrite Hs).
  destruct (Z.leb_spec e (seq_of r)).
  - assert (e = n) as -> by lia. rewrite Z.sub_diag. cbn. f_equal.
    rewrite List.forallb_filter_id; [done|].
    apply forallb_forall. intros x Hx. apply list_elem_of_In, list_elem_of_lookup in Hx as [i Hi].
    apply (linked_lookup _ _ _ _ _ Hl) in Hi as [Hi _]. apply Z.leb_le. lia.
  - rewrite (IH _ _ Hl) by lia. replace (Z.to_nat (e - n)) with (S (Z.to_nat (e - (n + 1)))) by lia. done.
Qed.

Lemma link_hash_length prev r : length (chars (link_hash prev r)) = 64%nat.
Proof. apply sha256_hexdigest_length. Qed.

Lemma link_hash_text prev r dflt : text_or (Some (link_hash prev r)) dflt = link_hash prev r.
Proof.
  unfold text_or. destruct (String.eqb_spec (link_hash prev r) EmptyString) as [E|]; [|done].
  pose proof (link_hash_length prev r) as Hl. by rewrite E in Hl.
Qed.

Lemma end_link_length l prev : length (chars prev) = 64%nat → length (chars (end_link prev l)) = 64%nat.
Proof. revert prev. induction l as [|r l IH]; cbn; intros prev Hp; [done|]. apply IH, link_hash_length. Qed.

Lemma link_hash_with_link prev r s p h n : link_hash prev (RRow (with_link r s p h n)) = link_hash prev (RRow r).
Proof. done. Qed.

(** The head of a linked chain. *)
Lemma head_of_linked d t : linked GENESIS 1 (sealed_all d t) →
  seq (head_of (head_row d t)) = Z.of_nat (length (sealed_all d t)) ∧
  hash (head_of (head_row d t)) = end_link GENESIS (sealed_all d t).
Proof.
  intros Hl. rewrite head_row_last by (by eapply linked_NoDup). revert Hl.
  generalize (sealed_all d t). intros l. induction l as [|r l _] using rev_ind; intros Hl; [done|].
  rewrite last_snoc. apply linked_app in Hl as [_ (Hs & _ & Hh & _)]. cbn [head_of seq hash].
  rewrite Hh, link_hash_text, length_app, end_link_app. unfold seq_of. rewrite Hs. cbn. split; [lia|done].
Qed.

(** The loop of a batch links it onto the chain and changes nothing else of its rows. *)
Lemma seal_loop_spec now s prev batch new s' prev' :
  seal_loop now s prev batch = (new, s', prev') →
  linked prev (s + 1) new ∧ s' = s + Z.of_nat (length new) ∧ prev' = end_link prev new ∧
  Forall2 (λ old n, ∃ q p h, n = with_link old q p h now) batch new.
Proof.
  revert s prev new s' prev'. induction batch as [|r batch IH]; intros s prev new s' prev' E; cbn in E.
  { simplify_eq. cbn. repeat split; [lia|constructor]. }
  destruct (seal_loop now (s + 1) (link_hash prev (RRow r)) batch) as [[rest s1] p1] eqn:Er. simplify_eq.
  apply IH in Er as (H1 & -> & -> & H4). cbn [linked end_link length]. rewrite link_hash_with_link.
  repeat split; [done|lia|]. constructor; [|done]. by eexists _, _, _.
Qed.
End linked.

(** * The table under appends and sealings *)

Section system.
Context `{PyStr, FloatRepr} (secret : string).

(** A row as the platform writes it: unsealed, and unsigned or with a valid signature. *)
Definition sound (r : AuditLog) : Prop :=
  signed r = false ∨ verify_audit_row (RRow r) secret = Some true.

Inductive chain_step : db → db → Prop :=
| step_append d r :
    row_id r ∉ row_id <$> rows d → chain_columns_null r = true → sound r →
    chain_step d {| rows := rows d ++ [r]; anchors := anchors d |}
| step_seal d t batch setting now d' out :
    seal d t batch setting now = Some (d', out) → chain_step d d'.

Definition chain_init : db := {| rows := []; anchors := [] |}.

Record chain_inv (d : db) : Prop := {
  inv_ids : NoDup (row_id <$> rows d);
  inv_rows : Forall sound (rows d);
  inv_null : Forall (λ r, chain_columns_null r = true ∨ is_sealed r = true) (rows d);
  inv_linked : ∀ t, linked GENESIS 1 (sealed_all d t);
  inv_anchor : ∀ t, stored_anchor d t =
    if bool_decide (sealed_all d t = []) then None else Some (head_of (last (sealed_all d t)));
}.

Lemma chain_init_inv : chain_inv chain_init.
Proof. split; cbn; by try constructor. Qed.

Lemma sealed_all_perm d t l :
  List.filter (λ r, of_tenant t r && is_sealed r) (rows d) ≡ₚ l → linked GENESIS 1 l → sealed_all d t = l.
Proof.
  intros Hp Hl. symmetry. apply sorted_unique; [by eapply linked_NoDup|by eapply linked_sorted|apply sealed_all_sorted|].
  unfold sealed_all. by rewrite sort_by_Permutation.
Qed.

Lemma sealed_all_filter d t : List.filter (λ r, of_tenant t r && is_sealed r) (rows d) ≡ₚ sealed_all d t.
Proof. unfold sealed_all. by rewrite sort_by_Permutation. Qed.

Lemma chain_null_unsealed r : chain_columns_null r = true → is_sealed r = false.
Proof.
  unfold chain_columns_null, is_sealed. intros H1. apply andb_true_iff in H1 as [[[H1 _]%andb_true_iff _]%andb_true_iff _].
  apply bool_decide_eq_true in H1. by rewrite H1.
Qed.

Lemma append_sealed_all d r t : chain_columns_null r = true →
  sealed_all {| rows := rows d ++ [r]; anchors := anchors d |} t = sealed_all d t.
Proof.
  intros Hr. unfold sealed_all. cbn. rewrite List.filter_app. cbn. rewrite (chain_null_unsealed r) by done.
  rewrite andb_false_r. by rewrite app_nil_r.
Qed.

Lemma append_inv d r : chain_inv d → row_id r ∉ row_id <$> rows d → chain_columns_null r = true → sound r →
  chain_inv {| rows := rows d ++ [r]; anchors := anchors d |}.
Proof.
  intros [Hi Hr Hn Hl Ha] Hid Hnull Hs. split; cbn [rows anchors].
  - rewrite fmap_app. apply NoDup_app. split_and!; [done| |apply NoDup_singleton].
    intros x Hx Hx'. apply list_elem_of_singleton in Hx' as ->. done.
  - apply Forall_app. by split; [|constructor].
  - apply Forall_app. split; [done|]. constructor; [by left|done].
  - intros t. by rewrite append_sealed_all.
  - intros t. rewrite append_sealed_all by done. apply Ha.
Qed.

(** The rows a sealing takes, and the ones it leaves. *)
Definition left_rows (d : db) (t : string) (n : nat) : list AuditLog :=
  drop n (sort_by written_leb (waiting d t)) ++
  List.filter (λ r, negb (of_tenant t r && negb (is_sealed r))) (rows d).

Lemma filter_partition {A} (p : A → bool) l : l ≡ₚ List.filter p l ++ List.filter (λ x, negb (p x)) l.
Proof.
  induction l as [|x l IH]; cbn; [done|]. destruct (p x); cbn; [by f_equiv|].
  rewrite IH at 1. apply Permutation_middle.
Qed.

Lemma rows_split d t n : rows d ≡ₚ unsealed_rows d t n ++ left_rows d t n.
Proof.
  rewrite (filter_partition (λ r, of_tenant t r && negb (is_sealed r)) (rows d)) at 1.
  unfold unsealed_rows, left_rows. rewrite app_assoc, take_drop. f_equiv.
  unfold waiting. by rewrite sort_by_Permutation.
Qed.

Lemma flush_split new old rest :
  NoDup (row_id <$> old ++ rest) → Forall2 (λ o n, ∃ now q p h, n = with_link o q p h now) old new →
  flush new (old ++ rest) = new ++ rest.
Proof.
  intros Hnd Hf. unfold flush. rewrite fmap_app. rewrite fmap_app in Hnd. apply NoDup_app in Hnd as (Hnd & Hdis & _).
  assert (Hids : row_id <$> new = row_id <$> old).
  { clear -Hf. induction Hf as [|o n old new (now & q & p & h & ->) _ IH]; [done|]. cbn. by rewrite IH. }
  f_equal.
  - apply list_eq. intros i. rewrite list_lookup_fmap.
    destruct (old !! i) as [o|] eqn:Eo; cbn.
    2: { symmetry. apply lookup_ge_None. rewrite <- (Forall2_length _ _ _ Hf). by apply lookup_ge_None. }
    eapply Forall2_lookup_l in Hf as (n & En & now & q & p & h & ->); [|done].
    rewrite En. f_equal. destruct (List.find _ new) as [m|] eqn:Em.
    + apply find_some in Em as [Hm Hid]. apply String.eqb_eq in Hid.
      apply list_elem_of_In, list_elem_of_lookup in Hm as [j Hj].
      assert (i = j); [|congruence]. eapply NoDup_lookup; [exact Hnd|by rewrite list_lookup_fmap, Eo|].
      rewrite <- Hids, list_lookup_fmap, Hj. cbn. by rewrite Hid.
    + eapply find_none in Em; [|apply list_elem_of_In; by eapply list_elem_of_lookup_2].
      cbn in Em. by rewrite String.eqb_refl in Em.
  - rewrite <- (list_fmap_id rest) at 2. apply list_fmap_ext. intros i r Hi.
    destruct (List.find _ new) as [m|] eqn:Em; [|done].
    apply find_some in Em as [Hm Hid]. apply String.eqb_eq in Hid. exfalso. eapply (Hdis (row_id r)).
    + rewrite <- Hids, <- Hid. apply list_elem_of_fmap. exists m. split; [done|by apply list_elem_of_In].
    + apply list_elem_of_fmap. exists r. split; [done|]. by eapply list_elem_of_lookup_2.
Qed.

(** What a sealing leaves: nothing waiting and the database as it was, or the batch
    linked after the sealed rows. *)
Lemma seal_effect d t batch setting now d' out : chain_inv d → seal d t batch setting now = Some (d', out) →
  let size := Z.to_nat (seal_size batch setting) in
  (unsealed_rows d t size = [] ∧ d' = d ∧ outcome_head out = head_of (head_row d t)) ∨
  ∃ new, unsealed_rows d t size ≠ [] ∧ rows d' ≡ₚ new ++ left_rows d t size ∧
    Forall2 (λ o n, ∃ now q p h, n = with_link o q p h now) (unsealed_rows d t size) new ∧
    linked GENESIS 1 (sealed_all d t ++ new) ∧
    anchors d' = dict_set t (outcome_head out) (anchors d) ∧
    outcome_head out = head_of (last (sealed_all d t ++ new)).
Proof.
  intros Hinv. unfold seal. set (size := Z.to_nat (seal_size batch setting)). cbn zeta.
  destruct (forallb chain_columns_null (unsealed_rows d t size)); [|done].
  destruct (seal_loop now _ _ _) as [[new s] prev] eqn:El. intros E. simplify_eq.
  destruct (head_of_linked d t (inv_linked _ Hinv t)) as [Hs Hh]. rewrite Hs, Hh in El.
  case_bool_decide as Hp; [by left|right]. apply seal_loop_spec in El as (Hl & -> & -> & Hf).
  exists new. cbn [write_anchor rows anchors seq hash outcome_head head_sealed_at].
  assert (Hf' : Forall2 (λ o n, ∃ now q p h, n = with_link o q p h now) (unsealed_rows d t size) new).
  { eapply Forall2_impl; [exact Hf|]. intros o n (q & p & h & ->). by exists now, q, p, h. }
  split_and!; try done.
  - unfold flush. rewrite (rows_split d t size). fold (flush new (unsealed_rows d t size ++ left_rows d t size)).
    rewrite flush_split; [done| |done].
    rewrite <- rows_split. apply (inv_ids _ Hinv).
  - apply linked_app. split; [apply (inv_linked _ Hinv)|]. by rewrite Z.add_comm.
  - assert (Hn : new ≠ []) by (intros ->; by inversion Hf; congruence).
    destruct (exists_last Hn) as (l & r & ->). rewrite app_assoc, last_snoc.
    apply linked_app in Hl as [_ (E1 & _ & E2 & _)]. cbn [head_of]. rewrite E2, link_hash_text, end_link_app.
    unfold seq_of. rewrite E1, length_app. cbn. f_equal; [lia|].
    apply Forall2_app_inv_r in Hf as (l1 & l2 & _ & Hf & _).
    inversion Hf as [|o ?? l' (q & p & h & ->)]; subst. done.
Qed.

Lemma picked_spec d t n r : r ∈ unsealed_rows d t n → r ∈ rows d ∧ tenant_id r = t ∧ is_sealed r = false.
Proof.
  intros Hr. unfold unsealed_rows in Hr. apply elem_of_take in Hr as (i & Hr & _).
  apply list_elem_of_lookup_2 in Hr.
  unfold waiting in Hr. rewrite elem_of_sort_by, list_elem_of_In, filter_In, andb_true_iff in Hr.
  destruct Hr as (H1 & H2 & H3). apply list_elem_of_In in H1. apply String.eqb_eq in H2.
  apply negb_true_iff in H3. done.
Qed.

Lemma new_spec old new (P : AuditLog → Prop) :
  Forall2 (λ o n, ∃ now q p h, n = with_link o q p h now) old new → Forall P old →
  (∀ o q p h now, P o → P (with_link o q p h now)) → Forall (λ n, P n ∧ is_sealed n = true) new.
Proof.
  intros Hf Ho HP. induction Hf as [|o n old new (now & q & p & h & ->) _ IH]; [done|].
  inversion Ho; subst. constructor; [|auto]. split; [auto|done].
Qed.

(** The sealed rows of the sealed tenant grow by the batch, those of others stay. *)
Lemma seal_sealed_all d t n d' new u :
  chain_inv d → rows d' ≡ₚ new ++ left_rows d t n →
  Forall2 (λ o n, ∃ now q p h, n = with_link o q p h now) (unsealed_rows d t n) new →
  linked GENESIS 1 (sealed_all d t ++ new) →
  sealed_all d' u = if bool_decide (u = t) then sealed_all d t ++ new else sealed_all d u.
Proof.
  intros Hinv Hp Hf Hl.
  assert (Hnew : Forall (λ r, tenant_id r = t ∧ is_sealed r = true) new).
  { eapply new_spec; [done| |done]. apply Forall_forall. intros r Hr. by apply picked_spec in Hr as (_ & ? & _). }
  assert (Hold : ∀ u, List.filter (λ r, of_tenant u r && is_sealed r) (left_rows d t n) ≡ₚ sealed_all d u).
  { intros u'. rewrite <- sealed_all_filter. rewrite (rows_split d t n), List.filter_app.
    rewrite (filter_none _ (unsealed_rows d t n)); [done|]. apply Forall_forall. intros r Hr.
    apply picked_spec in Hr as (_ & _ & ->). apply andb_false_r. }
  case_bool_decide as Hu.
  - subst u. apply sealed_all_perm; [|done]. rewrite Hp, List.filter_app, Hold, filter_all; [apply Permutation_app_comm|].
    eapply Forall_impl; [exact Hnew|]. intros r [<- ->]. unfold of_tenant. by rewrite String.eqb_refl.
  - apply sealed_all_perm; [|apply (inv_linked _ Hinv)]. rewrite Hp, List.filter_app, Hold, filter_none; [done|].
    eapply Forall_impl; [exact Hnew|]. intros r [<- ->]. unfold of_tenant.
    apply not_eq_sym, String.eqb_neq in Hu. by rewrite Hu.
Qed.

Lemma with_link_sound o q p h now : sound o → sound (with_link o q p h now).
Proof. done. Qed.

Lemma seal_inv d t batch setting now d' out :
  chain_inv d → seal d t batch setting now = Some (d', out) → chain_inv d'.
Proof.
  intros Hinv Hs. destruct (seal_effect _ _ _ _ _ _ _ Hinv Hs) as [(_ & -> & _)|(new & Hne & Hp & Hf & Hl & Ha & Hh)];
    [done|].
  set (n := Z.to_nat (seal_size batch setting)) in *.
  assert (Hall : ∀ u, sealed_all d' u = if bool_decide (u = t) then sealed_all d t ++ new else sealed_all d u)
    by (intros u; by eapply seal_sealed_all).
  assert (Hids : row_id <$> new = row_id <$> unsealed_rows d t n).
  { clear -Hf. induction Hf as [|o r old l (x & q & p & h & ->) _ IH]; cbn; congruence. }
  destruct Hinv as [Hi Hr Hn Hlk Hanc]. rewrite (rows_split d t n) in Hi, Hr, Hn.
  apply Forall_app in Hr as [Hr1 Hr2], Hn as [Hn1 Hn2]. split.
  - rewrite Hp, fmap_app, Hids, <- fmap_app. done.
  - rewrite Hp. apply Forall_app. split; [|done].
    eapply Forall_impl; [eapply (new_spec _ _ sound); eauto using with_link_sound|]. by intros r [? _].
  - rewrite Hp. apply Forall_app. split; [|done].
    eapply Forall_impl; [eapply (new_spec _ _ (λ _, True)); [done|by apply Forall_true|done]|]. intros r [_ ?]. by right.
  - intros u. rewrite Hall. by case_bool_decide.
  - intros u. unfold stored_anchor. rewrite Ha, Hall. destruct (bool_decide (u = t)) eqn:Hu.
    + apply bool_decide_eq_true in Hu as ->. rewrite assoc_dict_set_eq, Hh, bool_decide_eq_false_2; [done|].
      intros [_ ->]%app_nil. apply Hne. by inversion Hf.
    + apply bool_decide_eq_false in Hu. rewrite assoc_dict_set_ne by done. apply Hanc.
Qed.

Lemma chain_step_inv d d' : chain_inv d → chain_step d d' → chain_inv d'.
Proof. intros Hinv Hs. destruct Hs; [by apply append_inv|by eapply seal_inv]. Qed.

Lemma reachable_inv d : rtc chain_step chain_init d → chain_inv d.
Proof. apply rtc_ind_r; [apply chain_init_inv|]. eauto using chain_step_inv. Qed.

(** Sealed rows stay where they are: the chain of a tenant only grows at its end. *)
Lemma chain_step_prefix d d' t : chain_inv d → chain_step d d' → sealed_all d t `prefix_of` sealed_all d' t.
Proof.
  intros Hinv Hs. destruct Hs as [d r Hid Hn Hr|d u batch setting now d' out Hs].
  - by rewrite append_sealed_all.
  - destruct (seal_effect _ _ _ _ _ _ _ Hinv Hs) as [(_ & -> & _)|(new & _ & Hp & Hf & Hl & _)]; [done|].
    rewrite (seal_sealed_all _ _ _ _ _ t Hinv Hp Hf Hl). case_bool_decide; [subst; by eexists|done].
Qed.

Lemma reachable_prefix d d' t : chain_inv d → rtc chain_step d d' → sealed_all d t `prefix_of` sealed_all d' t.
Proof.
  intros Hinv Hs. induction Hs as [d|d d1 d' Hs _ IH]; [done|].
  etrans; [by eapply chain_step_prefix|]. apply IH. by eapply chain_step_inv.
Qed.
End system.

(** * The paged verification is one walk over the chain *)

Section walk.
Context `{PyStr, FloatRepr} (secret : string).

Definition limited (limit : option Z) (l : list AuditLog) : list AuditLog :=
  match limit with None => l | Some n => take (Z.to_nat n) l end.

(** The reference: the rows from [expected] on, read at once and checked in order. *)
Definition walk (d : db) (t : string) (limit : option Z) (expected : Z) (prev : string) (v : Verification) :
    result verify_error Verification :=
  match check_rows secret (limited limit (sealed_from d t expected)) expected prev v with
  | Err e => Err e
  | Ok (v', _, _, _) => Ok v'
  end.

Lemma check_rows_app l1 l2 e prev v :
  check_rows secret (l1 ++ l2) e prev v =
  match check_rows secret l1 e prev v with
  | Ok (v', false, e', prev') => check_rows secret l2 e' prev' v'
  | other => other
  end.
Proof.
  revert e prev v. induction l1 as [|r l1 IH]; intros e prev v; [done|]. cbn [check_rows app].
  destruct (check secret r (seq_of r) e prev) as [[w|]|]; [done|apply IH|done].
Qed.

Lemma check_ok r e prev : check secret r (seq_of r) e prev = Ok None →
  seq_of r = e ∧ text_or (chain_prev r) EmptyString = prev ∧ text_or (chain_hash r) EmptyString = link_hash prev (RRow r) ∧
  sound secret r.
Proof.
  unfold check. destruct (Z.eqb_spec (seq_of r) e); cbn [negb]; [|done].
  destruct (String.eqb_spec (text_or (chain_prev r) EmptyString) prev); cbn [negb]; [|done].
  destruct (String.eqb_spec (text_or (chain_hash r) EmptyString) (link_hash prev (RRow r))); cbn [negb]; [|done].
  unfold sound. destruct (signed r); [|by auto].
  destruct (verify_audit_row (RRow r) secret) as [[]|]; try done. by auto.
Qed.

Lemma text_or_link r prev : text_or (chain_hash r) EmptyString = link_hash prev (RRow r) →
  chain_hash r = Some (link_hash prev (RRow r)).
Proof.
  intros E. pose proof (link_hash_length prev (RRow r)) as Hl. rewrite <- E in Hl |- *.
  unfold text_or in *. destruct (chain_hash r) as [h|]; [|done].
  destruct (String.eqb_spec h EmptyString); [done|done].
Qed.

(** Rows that pass carry the expected numbers, and the walk goes on after the last. *)
Lemma check_rows_pass l e prev v v' e' prev' : check_rows secret l e prev v = Ok (v', false, e', prev') →
  (∀ i r, l !! i = Some r → seq_of r = e + Z.of_nat i) ∧ e' = e + Z.of_nat (length l) ∧
  prev' = end_link prev l ∧ Forall (sound secret) l ∧
  v' = foldl (λ v r, with_row v r (seq_of r)) v l.
Proof.
  revert e prev v. induction l as [|r l IH]; intros e prev v; cbn [check_rows].
  { intros [= <- <- <-]. split_and!; [done|cbn; lia|done|done|done]. }
  destruct (check secret r (seq_of r) e prev) as [[w|]|] eqn:Ec; try done.
  apply check_ok in Ec as (E1 & E2 & E3%text_or_link & Es). rewrite E3. cbn [default from_option id].
  intros (H1 & -> & -> & H4 & ->)%IH. split_and!.
  - intros [|i] r' Hi; cbn in Hi; [simplify_eq; lia|]. apply H1 in Hi. lia.
  - cbn [length]. lia.
  - done.
  - by constructor.
  - done.
Qed.

Lemma filter_filter {A} (p q : A → bool) l : (∀ x, q x = true → p x = true) →
  List.filter q (List.filter p l) = List.filter q l.
Proof.
  intros Hpq. induction l as [|x l IH]; cbn; [done|]. destruct (p x) eqn:Ep; cbn; rewrite IH; [done|].
  destruct (q x) eqn:Eq; [|done]. apply Hpq in Eq. congruence.
Qed.

Lemma sealed_from_NoDup d t e : unique_seqs d → NoDup (seq_of <$> sealed_from d t e).
Proof.
  intros Hu. rewrite sealed_from_all. specialize (Hu t). induction (sealed_all d t) as [|x l IH]; cbn; [done|].
  cbn in Hu. apply NoDup_cons in Hu as [H1 H2]. destruct (e <=? seq_of x); cbn; [|by apply IH].
  apply NoDup_cons. split; [|by apply IH]. intros Hx. apply H1. apply list_elem_of_fmap in Hx as (y & E & Hy).
  apply list_elem_of_fmap. exists y. split; [done|].
  apply list_elem_of_In, filter_In in Hy as [Hy _]. by apply list_elem_of_In.
Qed.

Lemma sealed_from_elem d t e r : r ∈ sealed_from d t e → r ∈ sealed_all d t ∧ e ≤ seq_of r.
Proof.
  rewrite sealed_from_all, !list_elem_of_In, filter_In. intros [Hr He]. apply Z.leb_le in He. done.
Qed.

(** The page after [k] rows that passed starts where they end. *)
Lemma next_page d t e k : unique_seqs d →
  (∀ i r, take k (sealed_from d t e) !! i = Some r → seq_of r = e + Z.of_nat i) →
  (k ≤ length (sealed_from d t e))%nat →
  sealed_from d t (e + Z.of_nat k) = drop k (sealed_from d t e).
Proof.
  intros Hu Hs Hk. rewrite (sealed_from_all d t (e + Z.of_nat k)).
  rewrite <- (filter_filter (λ r, e <=? seq_of r)) by (intros x; rewrite !Z.leb_le; lia).
  rewrite <- sealed_from_all. pose proof (sealed_from_NoDup d t e Hu) as Hnd.
  pose proof (λ r, sealed_from_elem d t e r) as Hel.
  assert (Hsort : StronglySorted seq_leb (sealed_from d t e))
    by (rewrite sealed_from_all; apply StronglySorted_filter, sealed_all_sorted).
  revert Hs Hk Hnd Hel Hsort. generalize (sealed_from d t e). intros L Hs Hk Hnd Hel Hsort.
  rewrite <- (take_drop k L) in Hnd, Hsort. rewrite <- (take_drop k L) at 1.
  rewrite List.filter_app, filter_none, filter_all; [done|..]; apply Forall_forall; intros r Hr.
  - apply Z.leb_le. destruct k as [|k]; [rewrite drop_0 in Hr; apply Hel in Hr as [_ Hr]; lia|].
    destruct (lookup_lt_is_Some_2 (take (S k) L) k) as [r0 Hr0]; [rewrite length_take; lia|].
    pose proof (Hs k r0 Hr0) as E0. apply list_elem_of_lookup_2 in Hr0.
    pose proof (StronglySorted_app_1_elem_of _ _ _ _ _ Hsort Hr0 Hr) as Hle.
    apply Is_true_true in Hle. unfold seq_leb in Hle. apply Z.leb_le in Hle.
    rewrite fmap_app in Hnd. apply NoDup_app in Hnd as (_ & Hnd & _).
    assert (seq_of r0 ≠ seq_of r); [|lia]. intros E. apply (Hnd (seq_of r)).
    + rewrite <- E. by apply list_elem_of_fmap_2.
    + by apply list_elem_of_fmap_2.
  - apply Z.leb_gt. apply list_elem_of_lookup in Hr as [i Hi].
    assert (i < k)%nat by (apply lookup_lt_Some in Hi; rewrite length_take in Hi; lia).
    rewrite (Hs i r Hi). lia.
Qed.

Definition page_size (limit : option Z) : Z := match limit with None => PAGE | Some n => Z.min PAGE n end.

Lemma limited_page limit L :
  match limit with None => true | Some n => 0 <? n end = true →
  (1 ≤ Z.to_nat (page_size limit))%nat ∧
  limited limit L =
    take (Z.to_nat (page_size limit)) L ++
    limited ((λ n, n - Z.of_nat (Z.to_nat (page_size limit))) <$> limit) (drop (Z.to_nat (page_size limit)) L).
Proof.
  destruct limit as [n|]; cbn [limited page_size fmap option_fmap option_map].
  - intros Hn%Z.ltb_lt. assert (0 < Z.min PAGE n ≤ n) by (unfold PAGE; lia). split; [lia|].
    replace (Z.to_nat n) with (Z.to_nat (Z.min PAGE n) + Z.to_nat (n - Z.of_nat (Z.to_nat (Z.min PAGE n))))%nat by lia.
    by rewrite <- take_take_drop.
  - intros _. split; [unfold PAGE; lia|]. by rewrite take_drop.
Qed.

Lemma verify_loop_walk fuel d t limit e prev v : unique_seqs d →
  (length (sealed_from d t e) < fuel)%nat →
  verify_loop secret fuel d t limit e prev v = walk d t limit e prev v.
Proof.
  intros Hu. revert limit e prev v. induction fuel as [|fuel IH]; intros limit e prev v Hf; [lia|].
  cbn [verify_loop]. fold (page_size limit).
  destruct (match limit with None => true | Some n => 0 <? n end) eqn:Hl.
  2: { unfold walk. destruct limit as [n|]; [|done]. apply Z.ltb_ge in Hl. cbn [limited].
       by replace (Z.to_nat n) with 0%nat by lia. }
  destruct (limited_page limit (sealed_from d t e) Hl) as [Hp Hlim]. unfold walk. rewrite Hlim, check_rows_app.
  unfold sealed_rows. set (k := Z.to_nat (page_size limit)) in *.
  destruct (decide (sealed_from d t e = [])) as [E|Hne].
  { rewrite E, take_nil, drop_nil. cbn. by destruct limit as [n|]; cbn [limited fmap option_fmap option_map]; rewrite ?take_nil. }
  destruct (take k (sealed_from d t e)) as [|r0 l0] eqn:Et.
  { destruct k; [lia|]. by destruct (sealed_from d t e). }
  rewrite <- Et. destruct (check_rows secret (take k (sealed_from d t e)) e prev v) as [[[[v' []] e'] prev']|] eqn:Ec; [done| |done].
  apply check_rows_pass in Ec as (Hseq & -> & _). rewrite length_take.
  destruct (Z.ltb_spec (Z.of_nat (k `min` length (sealed_from d t e))) (page_size limit)).
  - rewrite drop_ge by lia. by destruct limit as [n|]; cbn [limited fmap option_fmap option_map]; rewrite ?take_nil.
  - assert (k ≤ length (sealed_from d t e))%nat by lia. rewrite Nat.min_l by done.
    assert (Hnext := next_page d t e k Hu Hseq ltac:(done)).
    rewrite IH by (rewrite Hnext, length_drop; lia). unfold walk. by rewrite Hnext.
Qed.
End walk.

(** * What verification shows *)

Section theorems.
Context `{PyStr, FloatRepr} (secret : string).

Lemma linked_unique d t : linked GENESIS 1 (sealed_all d t) → sealed_from d t 1 = sealed_all d t.
Proof. intros Hl. by rewrite sealed_from_all, (linked_from _ _ _ _ Hl). Qed.

Lemma inv_unique d : chain_inv secret d → unique_seqs d.
Proof. intros Hinv t. eapply linked_NoDup, (inv_linked _ _ Hinv). Qed.

Lemma inv_from d t e : chain_inv secret d → 1 ≤ e → sealed_from d t e = drop (Z.to_nat (e - 1)) (sealed_all d t).
Proof. intros Hinv He. rewrite sealed_from_all. by apply (linked_from _ _ _ _ (inv_linked _ _ Hinv t)). Qed.

(** Linked rows with sound signatures pass. *)
Lemma check_rows_linked l e prev v : linked prev e l → length (chars prev) = 64%nat → Forall (sound secret) l →
  check_rows secret l e prev v =
  Ok (foldl (λ v r, with_row v r (seq_of r)) v l, false, e + Z.of_nat (length l), end_link prev l).
Proof.
  revert e prev v. induction l as [|r l IH]; intros e prev v Hl Hp Hs; cbn [check_rows].
  { cbn. by rewrite Z.add_0_r. }
  destruct Hl as (H1 & H2 & H3 & Hl). inversion Hs as [|?? Hr Hs']; subst.
  assert (Hc : check secret r (seq_of r) e prev = Ok None).
  { unfold check, seq_of. rewrite H1, H2, H3, link_hash_text, String.eqb_refl. cbn [default from_option id].
    rewrite Z.eqb_refl. cbn [negb]. unfold text_or at 1. destruct (String.eqb_spec prev EmptyString) as [-> | _]; [done|].
    rewrite String.eqb_refl. cbn [negb]. destruct Hr as [-> | Hr]; [done|]. rewrite Hr. by destruct (signed r). }
  rewrite Hc, H3. cbn [default from_option id foldl length end_link].
  assert (E : seq_of r = e) by (unfold seq_of; by rewrite H1). rewrite E.
  rewrite IH; [|done|apply link_hash_length|done]. f_equal. f_equal. f_equal. lia.
Qed.

Lemma fold_with_row l v : let v' := foldl (λ v r, with_row v r (seq_of r)) v l in
  first_break v' = first_break v ∧ verified v' = (verified v + length l)%nat ∧ head v' = head v ∧
  unsigned v' = (unsigned v + length (List.filter (λ r, negb (signed r)) l))%nat.
Proof.
  revert v. induction l as [|r l IH]; intros v; cbn [foldl length]; [split_and!; cbn; try done; lia|].
  destruct (IH (with_row v r (seq_of r))) as (H1 & H2 & H3 & H4). rewrite H1, H2, H3, H4. cbn.
  split_and!; try done; destruct (signed r); cbn; lia.
Qed.

Lemma sealed_rows_at d t i r : chain_inv secret d → sealed_all d t !! i = Some r →
  ∃ rest, sealed_rows d t (1 + Z.of_nat i) 1 = r :: rest.
Proof.
  intros Hinv Hi. unfold sealed_rows. rewrite inv_from by (done || lia).
  replace (Z.to_nat (1 + Z.of_nat i - 1)) with i by lia. rewrite (drop_S _ _ _ Hi). by eexists.
Qed.

(** A head the chain had, or still has, shows no break. *)
Lemma prefix_anchor_ok d t l : chain_inv secret d → l `prefix_of` sealed_all d t →
  anchor_break d t (head_of (head_row d t)) (head_of (last l)) = None.
Proof.
  intros Hinv [k E]. pose proof (inv_linked _ _ Hinv t) as Hl. unfold anchor_break.
  destruct (head_of_linked d t Hl) as [Hs Hh]. rewrite Hs.
  destruct l as [|r l _] using rev_ind; [done|]. rewrite last_snoc. cbn [head_of seq hash].
  assert (Hi : sealed_all d t !! length l = Some r) by (rewrite E, <- app_assoc; by apply list_lookup_middle).
  destruct (linked_lookup _ _ _ _ _ Hl Hi) as (H1 & _ & _ & H2). rewrite H1.
  destruct (Z.leb_spec (1 + Z.of_nat (length l)) 0); [done|].
  destruct (Z.ltb_spec (Z.of_nat (length (sealed_all d t))) (1 + Z.of_nat (length l))) as [Hlt|_].
  { rewrite E, !length_app in Hlt. cbn in Hlt. lia. }
  destruct (sealed_rows_at d t _ r Hinv Hi) as [rest ->]. rewrite H1, Z.eqb_refl, H2, !link_hash_text, String.eqb_refl.
  done.
Qed.

Lemma stored_anchor_ok d t l : chain_inv secret d → l `prefix_of` sealed_all d t →
  ∀ expected, expected = None ∨ expected = Some (head_of (last l)) →
  first_anchor_break d t (head_of (head_row d t)) [stored_anchor d t; expected] = None.
Proof.
  intros Hinv Hpre expected Hexp. unfold first_anchor_break. cbn [foldr].
  assert (Hlast : match expected with None => None | Some anc => match anchor_break d t (head_of (head_row d t)) anc with
    Some b => Some b | None => None end end = None).
  { destruct Hexp as [-> | ->]; [done|]. by rewrite prefix_anchor_ok. }
  rewrite Hlast, (inv_anchor _ _ Hinv). case_bool_decide; [done|]. by rewrite prefix_anchor_ok.
Qed.

Lemma limited_prefix limit l : limited limit l `prefix_of` l.
Proof. destruct limit as [n|]; cbn [limited]; [apply prefix_take|done]. Qed.

Lemma sealed_all_sound d t : chain_inv secret d → Forall (sound secret) (sealed_all d t).
Proof.
  intros Hinv. apply Forall_forall. intros r Hr. apply sealed_all_elem in Hr as [Hr _].
  by eapply Forall_forall in Hr; [|apply (inv_rows _ _ Hinv)].
Qed.

(** The loop over a chain in order verifies all the rows it is asked for. *)
Lemma verify_loop_inv d t limit k v : chain_inv secret d → (k ≤ length (sealed_all d t))%nat →
  verify_loop secret (S (length (rows d))) d t limit (1 + Z.of_nat k) (end_link GENESIS (take k (sealed_all d t))) v =
  Ok (foldl (λ v r, with_row v r (seq_of r)) v (limited limit (drop k (sealed_all d t)))).
Proof.
  intros Hinv Hk. assert (Hfrom : sealed_from d t (1 + Z.of_nat k) = drop k (sealed_all d t)).
  { rewrite inv_from by (done || lia). f_equal. lia. }
  rewrite verify_loop_walk; [|by apply inv_unique|].
  2: { rewrite Hfrom, length_drop. unfold sealed_all. rewrite sort_by_Permutation.
       pose proof (filter_length_le (λ r, of_tenant t r && is_sealed r) (rows d)). lia. }
  unfold walk. rewrite Hfrom. pose proof (inv_linked _ _ Hinv t) as Hl. pose proof (sealed_all_sound d t Hinv) as Hs.
  rewrite <- (take_drop k (sealed_all d t)) in Hl, Hs. apply linked_app in Hl as [_ Hl]. apply Forall_app in Hs as [_ Hs].
  rewrite length_take, Nat.min_l in Hl by done. destruct (limited_prefix limit (drop k (sealed_all d t))) as [rest E].
  rewrite E in Hl, Hs. apply linked_app in Hl as [Hl _]. apply Forall_app in Hs as [Hs _].
  rewrite check_rows_linked; [done|done|by apply end_link_length|done].
Qed.

(** After any sequence of appends and sealings, verification from any sequence number
    of the chain, with any limit, held against the stored anchor and against any head
    the chain had before, finds no break: it verifies exactly the rows it was asked for
    and counts the unsigned ones. *)
Theorem sealed_chain_verifies d0 d t from_seq limit expected :
  rtc (chain_step secret) chain_init d0 → rtc (chain_step secret) d0 d →
  expected = None ∨ expected = Some (head_of (head_row d0 t)) →
  from_seq ≤ Z.of_nat (length (sealed_all d t)) + 1 →
  ∃ v, verify secret d t from_seq limit expected = Ok v ∧ first_break v = None ∧
    status v = (if bool_decide (sealed_all d t = []) then "empty" else "verified") ∧
    let asked := limited limit (drop (Z.to_nat (Z.max 1 from_seq - 1)) (sealed_all d t)) in
    verified v = length asked ∧ unsigned v = length (List.filter (λ r, negb (signed r)) asked).
Proof.
  intros Hd0 Hd Hexp Hfrom. pose proof (reachable_inv _ _ Hd0) as Hinv0.
  assert (Hinv : chain_inv secret d) by (apply reachable_inv; by etrans).
  pose proof (inv_linked _ _ Hinv t) as Hl. destruct (head_of_linked d t Hl) as [Hs Hh].
  rewrite (head_row_last d0) in Hexp by (eapply linked_NoDup, (inv_linked _ _ Hinv0)).
  unfold verify, verify_reads. cbn [anchor].
  rewrite (stored_anchor_ok d t (sealed_all d0 t)) by (done || by eapply reachable_prefix).
  set (v0 := {| head := _ |}). rewrite Hs.
  destruct (Z.eqb_spec (Z.of_nat (length (sealed_all d t))) 0) as [Hz|Hz].
  { assert (E : sealed_all d t = []) by (apply length_zero_iff_nil; lia).
    exists v0. unfold status. cbn [first_break head verified unsigned v0]. rewrite Hs, E, drop_nil.
    by destruct limit; cbn [limited]; rewrite ?take_nil. }
  rewrite bool_decide_eq_false_2 by (intros E; by rewrite E in Hz).
  set (k := Z.to_nat (Z.max 1 from_seq - 1)). assert (Hk : (k ≤ length (sealed_all d t))%nat) by lia.
  pose proof (verify_loop_inv d t limit k v0 Hinv Hk) as Hrun.
  destruct (fold_with_row (limited limit (drop k (sealed_all d t))) v0) as (F1 & F2 & F3 & F4).
  eexists. split; [|unfold status; rewrite F1, F3; cbn [head first_break v0]; rewrite Hs; split_and!; [done| |exact F2|exact F4]].
  2: { destruct (Z.eqb_spec (Z.of_nat (length (sealed_all d t))) 0); [lia|done]. }
  replace (Z.max 1 from_seq) with (1 + Z.of_nat k) by lia.
  destruct (Z.ltb_spec 1 (1 + Z.of_nat k)) as [Hk1|Hk1].
  - destruct (lookup_lt_is_Some_2 (sealed_all d t) (k - 1)) as [r Hr]; [lia|].
    destruct (sealed_rows_at d t _ r Hinv Hr) as [rest Er].
    replace (1 + Z.of_nat k - 1) with (1 + Z.of_nat (k - 1)) by lia. rewrite Er.
    destruct (linked_lookup _ _ _ _ _ Hl Hr) as (-> & _ & _ & ->). rewrite Z.eqb_refl, link_hash_text, <- Hrun.
    f_equal. replace k with (S (k - 1)) at 2 by lia.
    by rewrite (take_S_r _ _ _ Hr), end_link_app.
  - assert (k = 0%nat) as Ek by lia. rewrite Ek in Hrun |- *. exact Hrun.
Qed.

(** * Tampering *)

(** Two rows with one payload and one signature. *)
Definition same_content (r0 r : AuditLog) : Prop :=
  canonical_audit_payload (RRow r0) = canonical_audit_payload (RRow r) ∧
  signature_text (RRow r0) = signature_text (RRow r).

(** Two rows at one place of two chains whose links hash different material to one value. *)
Definition link_collision (l0 l : list AuditLog) : Prop :=
  ∃ i r0 r, l0 !! i = Some r0 ∧ l !! i = Some r ∧
    let p0 := end_link GENESIS (take i l0) in
    let p := end_link GENESIS (take i l) in
    link_material p0 (RRow r0) ≠ link_material p (RRow r) ∧ link_hash p0 (RRow r0) = link_hash p (RRow r).

Lemma end_link_same l0 l :
  (∀ f, forallb plain (chars (float_repr f)) = true) →
  length l0 = length l → end_link GENESIS l0 = end_link GENESIS l → Forall2 same_content l0 l ∨ link_collision l0 l.
Proof.
  intros Hfl. revert l. induction l0 as [|r0 l0 IH] using rev_ind; intros l Hlen He.
  { destruct l; [by left; constructor|done]. }
  destruct l as [|r l _] using rev_ind; rewrite !length_app in Hlen; cbn in Hlen; [lia|].
  assert (Hlen' : length l0 = length l) by lia. rewrite !end_link_app in He. cbn [end_link] in He.
  destruct (decide (link_material (end_link GENESIS l0) (RRow r0) = link_material (end_link GENESIS l) (RRow r))) as [Em|Em].
  - apply (link_material_inj Hfl) in Em as (E1 & E2 & E3); [|by apply end_link_length..].
    destruct (IH l Hlen' E1) as [Hsame|(i & a0 & a & Ha0 & Ha & Hc)].
    + left. apply Forall2_app; [done|]. by constructor.
    + right. exists i, a0, a. rewrite !lookup_app_l by (by eapply lookup_lt_Some). split_and!; [done|done|].
      by rewrite !take_app_le by (apply Nat.lt_le_incl; by eapply lookup_lt_Some).
  - right. exists (length l0), r0, r. split_and!.
    + by apply list_lookup_middle.
    + by apply list_lookup_middle.
    + cbn zeta. rewrite take_app_length, Hlen', take_app_length. done.
Qed.

(** Rows that pass in order after a 64-character link are linked. *)
Lemma check_rows_links l e prev v v' e' prev' : length (chars prev) = 64%nat → Forall (λ r, is_sealed r = true) l →
  check_rows secret l e prev v = Ok (v', false, e', prev') → linked prev e l.
Proof.
  revert e prev v. induction l as [|r l IH]; intros e prev v Hp Hs Hc; [done|].
  inversion Hs as [|?? Hr Hs']; subst. cbn [check_rows] in Hc.
  destruct (check secret r (seq_of r) e prev) as [[w|]|] eqn:Ec; try done.
  apply check_ok in Ec as (E1 & E2 & E3%text_or_link & _). rewrite E3, E1 in Hc. cbn [default from_option id] in Hc.
  cbn [linked]. split_and!; [| |done|].
  - unfold is_sealed in Hr. apply bool_decide_eq_true in Hr as [q Hq]. unfold seq_of in E1. rewrite Hq in *. by subst.
  - unfold text_or in E2. destruct (chain_prev r) as [p|]; [|by subst].
    destruct (String.eqb_spec p EmptyString); by subst.
  - eapply IH; [apply link_hash_length|done|exact Hc].
Qed.

Lemma check_rows_broke l e prev v v' e' prev' : check_rows secret l e prev v = Ok (v', true, e', prev') → is_Some (first_break v').
Proof.
  revert e prev v. induction l as [|r l IH]; intros e prev v; cbn [check_rows]; [done|].
  destruct (check secret r (seq_of r) e prev) as [[w|]|]; [|apply IH|done]. intros [= <- _ _]. by eexists.
Qed.

(** A table that verifies from the start is a chain, and has the expected link where the
    expected head says. *)
Lemma verified_is_linked d t expected v : unique_seqs d →
  verify secret d t 1 None expected = Ok v → first_break v = None → seq (head_of (head_row d t)) ≠ 0 →
  linked GENESIS 1 (sealed_from d t 1).
Proof.
  intros Hu. unfold verify, verify_reads. set (v0 := {| head := _ |}).
  destruct (first_anchor_break _ _ _ _) as [b|]; [by intros [= <-]|].
  destruct (Z.eqb_spec (seq (head_of (head_row d t))) 0) as [Hz|Hz]; [done|]. change (Z.max 1 1) with 1.
  change (1 <? 1) with false. cbn iota. rewrite verify_loop_walk; [|done|].
  2: { unfold sealed_from. rewrite sort_by_Permutation.
       pose proof (filter_length_le (λ r, of_tenant t r && is_sealed r && (1 <=? seq_of r)) (rows d)). lia. }
  unfold walk. cbn [limited].
  destruct (check_rows secret (sealed_from d t 1) 1 GENESIS v0) as [[[[v' []] e'] prev']|] eqn:Ec; [..|done]; intros [= <-] Hb _.
  - apply check_rows_broke in Ec as [b Eb]. congruence.
  - eapply check_rows_links; [done| |exact Ec]. apply Forall_forall. intros r Hr.
    apply sealed_from_elem in Hr as [Hr _]. by apply sealed_all_elem in Hr as (_ & _ & ?).
Qed.

Lemma expected_anchor_holds d t h v limit from_seq : verify secret d t from_seq limit (Some h) = Ok v → first_break v = None →
  anchor_break d t (head_of (head_row d t)) h = None.
Proof.
  unfold verify, verify_reads. cbn [first_anchor_break foldr anchor].
  destruct (anchor_break d t (head_of (head_row d t)) h) as [b|]; [|done].
  destruct (stored_anchor d t) as [a|]; [destruct (anchor_break d t _ a)|]; by intros [= <-].
Qed.

(** C7. Tamper evidence. Let the chain of a tenant have been sealed up to some head, and
    let the table be anything at all afterwards, but for the unique index. If its
    verification against that head reports no break, then the rows 1..n the head covers
    are all there in order with the payload and the signature they were sealed with,
    unless two rows at one place hash different link material to one SHA-256 value. *)
Theorem tampering_is_detected d0 d t v :
  (∀ f, forallb plain (chars (float_repr f)) = true) →
  rtc (chain_step secret) chain_init d0 → unique_seqs d →
  verify secret d t 1 None (Some (head_of (head_row d0 t))) = Ok v → first_break v = None →
  let sealed_then := sealed_all d0 t in
  let sealed_now := take (length sealed_then) (sealed_from d t 1) in
  Forall2 same_content sealed_then sealed_now ∨ link_collision sealed_then sealed_now.
Proof.
  intros Hfl Hd0 Hu Hv Hb. pose proof (reachable_inv _ _ Hd0) as Hinv. pose proof (inv_linked _ _ Hinv t) as Hl0.
  destruct (head_of_linked d0 t Hl0) as [Hs0 Hh0]. cbn zeta.
  pose proof (expected_anchor_holds _ _ _ _ _ _ Hv Hb) as Ha. unfold anchor_break in Ha. rewrite Hs0, Hh0 in Ha.
  destruct (Z.leb_spec (Z.of_nat (length (sealed_all d0 t))) 0).
  { assert (sealed_all d0 t = []) as -> by (apply length_zero_iff_nil; lia). by left; constructor. }
  destruct (Z.ltb_spec (seq (head_of (head_row d t))) (Z.of_nat (length (sealed_all d0 t)))); [done|].
  assert (Hl : linked GENESIS 1 (sealed_from d t 1)) by (eapply verified_is_linked; [done|exact Hv|done|lia]).
  unfold sealed_rows in Ha. rewrite sealed_from_all in Ha.
  rewrite <- (filter_filter (λ r, 1 <=? seq_of r)) in Ha by (intros x; rewrite !Z.leb_le; lia).
  rewrite <- sealed_from_all, (linked_from _ _ _ _ Hl) in Ha by lia.
  set (l := sealed_from d t 1) in *. set (n := length (sealed_all d0 t)) in *.
  destruct (drop (Z.to_nat (Z.of_nat n - 1)) l) as [|r rest] eqn:Ed; [by rewrite take_nil in Ha|].
  assert (Hr : l !! Z.to_nat (Z.of_nat n - 1) = Some r).
  { rewrite <- (take_drop (Z.to_nat (Z.of_nat n - 1)) l), Ed. apply list_lookup_middle.
    rewrite length_take_le; [done|]. assert (length (drop (Z.to_nat (Z.of_nat n - 1)) l) ≠ 0%nat) by (by rewrite Ed).
    rewrite length_drop in *. lia. }
  change (Z.to_nat 1) with 1%nat in Ha. cbn [take] in Ha.
  destruct (linked_lookup _ _ _ _ _ Hl Hr) as (E1 & _ & _ & E2). rewrite E1, E2, link_hash_text in Ha.
  destruct (Z.eqb_spec (1 + Z.of_nat (Z.to_nat (Z.of_nat n - 1))) (Z.of_nat n)); [|done]. cbn [negb] in Ha.
  destruct (String.eqb_spec (link_hash (end_link GENESIS (take (Z.to_nat (Z.of_nat n - 1)) l)) (RRow r)) 
    (end_link GENESIS (sealed_all d0 t))) as [Eh|]; [|done].
  apply lookup_lt_Some in Hr as Hlt. apply end_link_same; [done|rewrite length_take_le; lia|].
  replace n with (S (Z.to_nat (Z.of_nat n - 1))) by lia.
  by rewrite (take_S_r _ _ _ Hr), end_link_app, <- Eh.
Qed.

(** Each statement of a verification sees what is committed when it runs. For every
    reachable table with rows waiting, a sealing that commits between the statement
    that reads the head and the one that reads the anchor makes the verification of an
    intact chain report it as truncated. *)
Theorem concurrent_sealing_reads_as_truncation d t batch setting now d' out :
  rtc (chain_step secret) chain_init d → seal d t batch setting now = Some (d', out) → sealed out ≠ 0%nat →
  ∃ v v', verify_reads secret d d d' d' t 1 None None = Ok v ∧ status v = "broken" ∧
    reason <$> first_break v = Some "truncated" ∧
    verify secret d' t 1 None None = Ok v' ∧ status v' = "verified".
Proof.
  intros Hd Hs Hn. pose proof (reachable_inv _ _ Hd) as Hinv.
  assert (Hd' : rtc (chain_step secret) chain_init d') by (eapply rtc_r; [exact Hd|by eapply step_seal]).
  destruct (seal_effect _ _ _ _ _ _ _ _ Hinv Hs) as [(Hp & _)|(new & Hne & Hp & Hf & Hl & Ha & Hh)].
  { exfalso. apply Hn. unfold seal in Hs. cbn zeta in Hs. rewrite Hp in Hs. cbn in Hs. by simplify_eq/=. }
  pose proof (seal_sealed_all _ _ _ _ _ _ t Hinv Hp Hf Hl) as Hall. rewrite bool_decide_eq_true_2 in Hall by done.
  assert (Hnew : new ≠ []) by (intros ->; apply Hne; by inversion Hf).
  destruct (sealed_chain_verifies d' d' t 1 None None Hd' (rtc_refl _ _) (or_introl eq_refl)) as (v' & Hv' & _ & Hst & _); [lia|].
  rewrite Hall, bool_decide_eq_false_2 in Hst by (intros [_ ?]%app_nil; done).
  assert (Hbreak : first_anchor_break d' t (head_of (head_row d t)) [stored_anchor d' t; None] =
    Some {| break_seq := seq (head_of (head_row d t)) + 1; break_row := None; reason := "truncated" |}).
  { unfold stored_anchor. rewrite Ha, assoc_dict_set_eq, Hh. cbn [first_anchor_break foldr].
    destruct (head_of_linked d t (inv_linked _ _ Hinv t)) as [E1 _].
    rewrite <- Hall. rewrite <- Hall in Hl. rewrite <- head_row_last by (by eapply linked_NoDup).
    destruct (head_of_linked d' t Hl) as [E2 _]. unfold anchor_break. rewrite E1, E2, Hall, length_app.
    destruct new; [done|]. cbn [length]. destruct (Z.leb_spec (Z.of_nat (length (sealed_all d t) + S (length new))) 0); [lia|].
    destruct (Z.ltb_spec (Z.of_nat (length (sealed_all d t))) (Z.of_nat (length (sealed_all d t) + S (length new)))); [done|lia]. }
  eexists _, v'. unfold verify_reads. cbn [anchor]. rewrite Hbreak. by split_and!.
Qed.
End theorems.

(** * Examples *)

Definition example_row : AuditLog :=
  read_back (λ d, d) "r1" example_now
    (build_signed_audit_entry (CUuid "t1") "case.opened" "user" "u1" "open" "success" [("case", VStr "c1")]
       (CTime example_now) None None CNone CNone "trace" "key").
Definition example_appended : db := {| rows := [example_row]; anchors := [] |}.
Definition example_sealed : db :=
  match seal example_appended "t1" None 500 example_now with Some (d, _) => d | None => example_appended end.

Lemma example_appended_reachable : rtc (chain_step "key") chain_init example_appended.
Proof.
  apply rtc_once. apply (step_append "key" chain_init example_row).
  - by apply not_elem_of_nil.
  - vm_compute. reflexivity.
  - right. vm_compute. reflexivity.
Qed.

Lemma example_seal : ∃ out, seal example_appended "t1" None 500 example_now = Some (example_sealed, out) ∧ sealed out = 1%nat.
Proof. eexists. split; vm_compute; reflexivity. Qed.

Lemma example_sealed_reachable : rtc (chain_step "key") chain_init example_sealed.
Proof.
  destruct example_seal as (out & Hs & _). eapply rtc_r; [apply example_appended_reachable|]. by eapply step_seal.
Qed.

Lemma sealed_chain_verifies_witness :
  ∃ v, verify "key" example_sealed "t1" 1 None (Some (head_of (head_row example_sealed "t1"))) = Ok v ∧
    first_break v = None ∧ status v = "verified".
Proof.
  destruct (sealed_chain_verifies "key" example_sealed example_sealed "t1" 1 None
    (Some (head_of (head_row example_sealed "t1"))) example_sealed_reachable (rtc_refl _ _) (or_intror eq_refl))
    as (v & Hv & Hb & Hs & _).
  - vm_compute. discriminate.
  - exists v. split; [exact Hv|]. split; [exact Hb|]. rewrite Hs. vm_compute. reflexivity.
Defined.

Lemma tampering_is_detected_witness :
  let l := sealed_all example_sealed "t1" in
  let l' := take (length l) (sealed_from example_sealed "t1" 1) in
  Forall2 same_content l l' ∨ link_collision l l'.
Proof.
  destruct (verify "key" example_sealed "t1" 1 None (Some (head_of (head_row example_sealed "t1")))) as [v|] eqn:Hv.
  - refine (tampering_is_detected "key" example_sealed example_sealed "t1" v _ example_sealed_reachable _ Hv _).
    + intros f. reflexivity.
    + apply (inv_unique "key"), reachable_inv, example_sealed_reachable.
    + enough (E : match verify "key" example_sealed "t1" 1 None (Some (head_of (head_row example_sealed "t1"))) with
        Ok v => first_break v | Err _ => None end = None) by (rewrite Hv in E; exact E).
      vm_compute. reflexivity.
  - exfalso. enough (E : is_ok (verify "key" example_sealed "t1" 1 None (Some (head_of (head_row example_sealed "t1")))) = true)
      by (rewrite Hv in E; discriminate E). vm_compute. reflexivity.
Defined.

Lemma concurrent_sealing_reads_as_truncation_witness :
  ∃ v v', verify_reads "key" example_appended example_appended example_sealed example_sealed "t1" 1 None None = Ok v ∧
    status v = "broken" ∧ reason <$> first_break v = Some "truncated" ∧
    verify "key" example_sealed "t1" 1 None None = Ok v' ∧ status v' = "verified".
Proof.
  destruct example_seal as (out & Hs & Hn).
  apply (concurrent_sealing_reads_as_truncation "key" example_appended "t1" None 500 example_now example_sealed out
    example_appended_reachable Hs). rewrite Hn. discriminate.
Defined.
