(* ===== verification/LedgerExport.v ===== *)
(** The export of a tenant's ledger (src/core/commerce/ledger_export.py) and the offline
    verifier of the exported bundle (src/scripts/verify_ledger.py).

    A bundle is the JSON value the export returns and the verifier parses. [int] of a
    value that is not an int, and the check of a compact JWS against a key set, are
    parameters; the texts that explain a break and the notes of the report are left
    out. *)

From Stdlib Require Import Ascii.
From S2P Require Import Prelude PyVal PyText Digest AuditLink AuditChain.

Local Open Scope Z_scope.

Definition EXPORT_FORMAT : string := "agenticorg-commerce-ledger-export-v1".
Definition LEDGER_RESOURCE_TYPE : string := "commerce_ledger".
Definition MAX_EXPORT_ROWS : Z := 5000.

(** A stored witness row. *)
Record checkpoint := {
  cp_head_seq : Z;
  cp_head_hash : string;
  cp_anchored_at : datetime;
  cp_status : string;
  cp_witness_id : option string;
  cp_countersignature : option string;
  cp_witnessed_at : option datetime;
  cp_fork_evidence : pyval;
}.

Definition iso (o : option datetime) : pyval :=
  match o with None => VNone | Some d => VStr (isoformat "T" (to_utc d)) end.

(** [Head.to_dict] *)
Definition head_to_dict (h : Head) : pyval :=
  VMap [("seq", VInt (seq h)); ("hash", VStr (hash h));
        ("sealed_at", match head_sealed_at h with None => VNone | Some d => VStr (isoformat "T" d) end)].

Section export.
Context `{PyStr, FloatRepr}.

Definition export_row (r : AuditLog) : list (string * pyval) :=
  ("id", VStr (row_id r)) ::
  ((λ key, (key, canonical_value key (getattr r key))) <$> SIGNED_COLUMNS) ++
  [("signature", opt_val (signature r)); ("chain_seq", VInt (seq_of r)); ("chain_prev", opt_val (chain_prev r));
   ("chain_hash", opt_val (chain_hash r)); ("sealed_at", iso (sealed_at r));
   ("commerce_ledger", VBool (bool_decide (resource_type r = Some LEDGER_RESOURCE_TYPE)))].

Definition witness_view (c : checkpoint) : pyval :=
  VMap [("head_seq", VInt (cp_head_seq c)); ("head_hash", VStr (cp_head_hash c));
        ("anchored_at", iso (Some (cp_anchored_at c))); ("status", VStr (cp_status c));
        ("witness_id", opt_val (cp_witness_id c)); ("countersignature", opt_val (cp_countersignature c));
        ("witnessed_at", iso (cp_witnessed_at c)); ("fork_evidence", cp_fork_evidence c)].

(** The row at [start - 1], when it is there: its link is the one before the range. *)
Definition link_before (d : db) (t : string) (start : Z) : option string :=
  if 1 <? start then
    match sealed_rows d t (start - 1) 1 with
    | r :: _ => if seq_of r =? start - 1 then Some (default "None" (chain_hash r)) else None
    | [] => None
    end
  else Some GENESIS.

Definition export_end (h : Head) (start : Z) (to_seq : option Z) : Z :=
  let e := match to_seq with None => seq h | Some n => Z.min n (seq h) end in
  Z.min e (start + MAX_EXPORT_ROWS - 1).

Definition export_rows (d : db) (t : string) (start e : Z) : list AuditLog :=
  if start <=? e then List.filter (λ r, seq_of r <=? e) (sealed_rows d t start (e - start + 1)) else [].

Definition unsealed_commerce (d : db) (t : string) : Z :=
  Z.of_nat (length (List.filter (λ r, bool_decide (resource_type r = Some LEDGER_RESOURCE_TYPE)) (waiting d t))).

Definition audit_key_id (secret : string) : string :=
  "audit-hmac-" +:+ of_chars (take 16 (chars (hmac_sha256_hexdigest secret "agenticorg-audit-key-id-v1"))).

Definition signatures_section (secret : string) : pyval :=
  VMap [("algorithm", VStr "HMAC-SHA256"); ("key_id", VStr (audit_key_id secret));
        ("signed_columns", VList (VStr <$> SIGNED_COLUMNS)); ("offline_verifiable", VBool false);
        ("note", VStr ("Row signatures are HMAC-SHA256 under the platform audit secret, which is never exported. " +:+
                       "Offline verification recomputes every chain link and checks anchors and witness " +:+
                       "countersignatures; row signatures can be checked only by a holder of the secret."))].

Definition build_export_bundle (d : db) (t : string) (from_seq : Z) (to_seq : option Z)
    (witnesses : list checkpoint) (grantex_issuer : option string) (grantex_jwks : pyval) (secret : string)
    (now : datetime) : list (string * pyval) :=
  let start := Z.max 1 from_seq in
  let h := head_of (head_row d t) in
  let found := export_rows d t start (export_end h start to_seq) in
  [("format", VStr EXPORT_FORMAT); ("generated_at", iso (Some now)); ("tenant_id", VStr t);
   ("chain", VMap [("version", VStr CHAIN_VERSION); ("genesis", VStr GENESIS);
      ("link_hash", VStr "sha256(version|prev_link|canonical_signed_columns|signature), lowercase hex");
      ("from_seq", VInt start);
      ("to_seq", VInt (match last found with Some r => seq_of r | None => start - 1 end));
      ("prev_link", opt_val (link_before d t start)); ("head", head_to_dict h);
      ("row_count", VInt (Z.of_nat (length found)))]);
   ("rows", VList ((λ r, VMap (export_row r)) <$> found));
   ("anchors", VMap [("audit_chain_anchor", match stored_anchor d t with Some a => head_to_dict a | None => VNone end);
                     ("witness_checkpoints", VList (witness_view <$> witnesses))]);
   ("signatures", signatures_section secret);
   ("grantex", VMap [("issuer", match grantex_issuer with Some s => if String.eqb s EmptyString then VNone else VStr s | None => VNone end);
                     ("jwks", match grantex_jwks with VMap kvs => VMap kvs | _ => VNone end)]);
   ("unsealed_commerce_rows", VInt (unsealed_commerce d t))].
End export.

(** * The offline verifier *)

Record Report := {
  report_break : option (option Z * string);
  rows_checked : nat;
  anchors_checked : nat;
  witnesses_verified : nat;
  row_signatures : string;
}.

(** [int(value)] for values that are not ints is left to the interpreter. *)
Class PyInt := { py_int : pyval → option Z; py_int_VInt : ∀ z, py_int (VInt z) = Some z }.

Section offline.
Context `{PyStr, FloatRepr, PyInt}.
(** [jws.verify_compact_jwt(token, jwks, expected_typ)]: the claims, or [None] when it raises;
    [None] instead of the function when the module cannot be loaded. *)
Context (jws : option (pyval → pyval → option (list (string * pyval)))).

Definition dict_row (kvs : list (string * pyval)) : record := RDict ((λ kv, (fst kv, CVal (snd kv))) <$> kvs).

Definition no_break (rep : Report) : bool := match report_break rep with None => true | Some _ => false end.

Definition broken (rep : Report) (s : option Z) (why : string) : Report :=
  {| report_break := Some (s, why); rows_checked := rows_checked rep; anchors_checked := anchors_checked rep;
     witnesses_verified := witnesses_verified rep; row_signatures := row_signatures rep |}.

Definition empty_report : Report :=
  {| report_break := None; rows_checked := 0; anchors_checked := 0; witnesses_verified := 0;
     row_signatures := "not_verifiable_offline" |}.

(** One row of the walk: the break, or the recomputed link. *)
Definition check_row (secret : option string) (expected : Z) (prev : string) (row : pyval) :
    result value_error ((option Z * string) + (Z * string)) :=
  match row with
  | VMap kvs =>
      match as_int (get_val kvs "chain_seq") with
      | Some s =>
          if negb (s =? expected) then Ok (inl (Some expected, "sequence_gap"))
          else if negb (scalar_eqb (get_val kvs "chain_prev") (VStr prev)) then Ok (inl (Some s, "previous_link"))
          else
            let recomputed := link_hash prev (dict_row kvs) in
            if negb (scalar_eqb (get_val kvs "chain_hash") (VStr recomputed)) then Ok (inl (Some s, "link_hash"))
            else match secret with
                 | None => Ok (inr (s, recomputed))
                 | Some key =>
                     if truthy (get_val kvs "signature") then
                       match compare_digest (sign_audit_record (dict_row kvs) key) (py_str (get_val kvs "signature")) with
                       | None => Err BadType
                       | Some false => Ok (inl (Some s, "signature"))
                       | Some true => Ok (inr (s, recomputed))
                       end
                     else Ok (inl (Some s, "signature"))
                 end
      | None => Ok (inl (Some expected, "sequence_gap"))
      end
  | _ => Ok (inl (Some expected, "sequence_gap"))
  end.

(** The loop over the rows: a break, or the links by sequence number and the last expected. *)
Fixpoint walk_rows (secret : option string) (expected : Z) (prev : string) (l : list pyval) (n : nat)
    (by_seq : list (Z * string)) : result value_error ((option Z * string) * nat + (Z * nat * list (Z * string))) :=
  match l with
  | [] => Ok (inr (expected, n, by_seq))
  | row :: l' =>
      match check_row secret expected prev row with
      | Err e => Err e
      | Ok (inl b) => Ok (inl (b, n))
      | Ok (inr (s, recomputed)) => walk_rows secret (s + 1) recomputed l' (S n) (by_seq ++ [(s, recomputed)])
      end
  end.

Definition witness_problem (check : pyval → pyval → option (list (string * pyval))) (jwks issuer : pyval)
    (w : list (string * pyval)) (tenant : pyval) : bool :=
  match check (get_val w "countersignature") jwks with
  | None => true
  | Some claims =>
      negb (forallb (λ kv, scalar_eqb (get_val claims (fst kv)) (snd kv))
        [("source", VStr "agenticorg"); ("chain", VStr "audit_log"); ("tenant_ref", VStr (py_str tenant));
         ("head_seq", get_val w "head_seq"); ("head_hash", get_val w "head_hash"); ("jti", get_val w "witness_id")])
      || (truthy issuer && negb (scalar_eqb (get_val claims "iss") issuer))
  end.

(** The loop over the witnesses: a break at a head, or the anchors and how many were verified. *)
Fixpoint walk_witnesses (check : option (pyval → pyval → option (list (string * pyval)))) (jwks issuer tenant : pyval)
    (l : list pyval) (n : nat) (acc : list (Z * string)) : Z * nat + nat * list (Z * string) :=
  match l with
  | [] => inr (n, acc)
  | VMap w :: l' =>
      if negb (scalar_eqb (get_val w "status") (VStr "witnessed")) then walk_witnesses check jwks issuer tenant l' n acc
      else match as_int (get_val w "head_seq"), get_val w "head_hash" with
           | Some s, VStr h =>
               match check with
               | Some f => if witness_problem f jwks issuer w tenant then inl (s, n)
                           else walk_witnesses check jwks issuer tenant l' (S n) (acc ++ [(s, h)])
               | None => walk_witnesses check jwks issuer tenant l' n (acc ++ [(s, h)])
               end
           | _, _ => walk_witnesses check jwks issuer tenant l' n acc
           end
  | _ :: l' => walk_witnesses check jwks issuer tenant l' n acc
  end.

Definition link_at (s : Z) (by_seq : list (Z * string)) : option string :=
  snd <$> List.find (λ kv, fst kv =? s) (reverse by_seq).

(** The loop over the anchors. *)
Fixpoint walk_anchors (from_seq last_seq head_seq : Z) (by_seq : list (Z * string)) (l : list (Z * string)) (n : nat) :
    (option Z * string) * nat + nat :=
  match l with
  | [] => inr n
  | (s, h) :: l' =>
      if head_seq <? s then inl ((Some (head_seq + 1), "truncated"), n)
      else if (s <? from_seq) || (last_seq <? s) then walk_anchors from_seq last_seq head_seq by_seq l' n
      else if bool_decide (link_at s by_seq = Some h) then walk_anchors from_seq last_seq head_seq by_seq l' (S n)
      else inl ((Some s, "anchor_mismatch"), S n)
  end.

(** The stored anchor the bundle carries, when it is a positive one. *)
Definition bundle_anchor (v : pyval) : list (Z * string) :=
  match v with
  | VMap a => match as_int (get_val a "seq") with
              | Some s => if 0 <? s then [(s, py_str (get_val a "hash"))] else []
              | None => []
              end
  | _ => []
  end.

(** The part after the walk: the anchors of the bundle against the walked links. *)
Definition verify_anchors (bundle chain : list (string * pyval)) (expected_head : option (Z * string))
    (from_seq last_seq : Z) (by_seq : list (Z * string)) (rep : Report) : result value_error Report :=
  anchors ← or_dict (get_val bundle "anchors");
  witnesses ← or_items (get_val anchors "witness_checkpoints");
  grantex ← or_dict (get_val bundle "grantex");
  let jwks := get_val grantex "jwks" in
  let check := if truthy jwks then jws else None in
  match walk_witnesses check jwks (get_val grantex "issuer") (get_val bundle "tenant_id") witnesses 0 [] with
  | inl (s, n) =>
      Ok (broken {| report_break := None; rows_checked := rows_checked rep; anchors_checked := 0;
                    witnesses_verified := n; row_signatures := row_signatures rep |} (Some s) "witness_countersignature")
  | inr (n, witnessed) =>
      let rep := {| report_break := None; rows_checked := rows_checked rep; anchors_checked := 0;
                    witnesses_verified := n; row_signatures := row_signatures rep |} in
      head ← or_dict (get_val chain "head");
      let head_seq := default last_seq (as_int (get_val head "seq")) in
      if head_seq <? last_seq then Ok (broken rep (Some (head_seq + 1)) "anchor_mismatch")
      else
        let named := bundle_anchor (get_val anchors "audit_chain_anchor") ++ witnessed ++
                     match expected_head with Some a => [a] | None => [] end ++
                     (if (last_seq =? head_seq) && (from_seq <=? head_seq)
                      then [(head_seq, py_str (get_val head "hash"))] else []) in
        match walk_anchors from_seq last_seq head_seq by_seq named 0 with
        | inl ((s, why), k) =>
            Ok (broken {| report_break := None; rows_checked := rows_checked rep; anchors_checked := k;
                          witnesses_verified := n; row_signatures := row_signatures rep |} s why)
        | inr k =>
            Ok {| report_break := None; rows_checked := rows_checked rep; anchors_checked := k;
                  witnesses_verified := n; row_signatures := row_signatures rep |}
        end
  end.

Definition verify_bundle (value : pyval) (expected_head : option (Z * string)) (secret : option string) :
    result value_error Report :=
  match value with
  | VMap bundle =>
      if negb (scalar_eqb (get_val bundle "format") (VStr EXPORT_FORMAT)) then Ok (broken empty_report None "format")
      else
        chain ← or_dict (get_val bundle "chain");
        if negb (scalar_eqb (get_val chain "version") (VStr CHAIN_VERSION)) then Ok (broken empty_report None "format")
        else
          from_seq ← (if truthy (get_val chain "from_seq") then of_option BadType (py_int (get_val chain "from_seq")) else Ok 1);
          match (if from_seq =? 1 then Some GENESIS
                 else match get_val chain "prev_link" with VStr p => Some p | _ => None end) with
          | None => Ok (broken empty_report (Some (from_seq - 1)) "sequence_gap")
          | Some prev =>
              rows ← or_items (get_val bundle "rows");
              walked ← walk_rows secret from_seq prev rows 0 [];
              match walked with
              | inl ((s, why), n) =>
                  Ok (broken {| report_break := None; rows_checked := n; anchors_checked := 0; witnesses_verified := 0;
                                row_signatures := "not_verifiable_offline" |} s why)
              | inr (expected, n, by_seq) =>
                  let last_seq := expected - 1 in
                  let rep := {| report_break := None; rows_checked := n; anchors_checked := 0; witnesses_verified := 0;
                                row_signatures := match secret with Some _ => "verified" | None => "not_verifiable_offline" end |} in
                  if negb (scalar_eqb (get_val chain "to_seq") (VInt last_seq)) then
                    Ok (broken {| report_break := None; rows_checked := n; anchors_checked := 0; witnesses_verified := 0;
                                  row_signatures := "not_verifiable_offline" |} (Some (last_seq + 1)) "truncated")
                  else verify_anchors bundle chain expected_head from_seq last_seq by_seq rep
              end
          end
  | _ => Ok (broken empty_report None "format")
  end.
End offline.

(** * An export verifies *)

Section exported.
Context `{PyStr, FloatRepr, PyInt} (key : string).

Lemma get_exported_column r k : k ∈ SIGNED_COLUMNS →
  record_get (dict_row (export_row r)) k = CVal (canonical_value k (getattr r k)).
Proof. revert k. apply Forall_forall. by repeat apply Forall_cons_2. Qed.

Lemma export_payload r : canonical_audit_payload (dict_row (export_row r)) = canonical_audit_payload (RRow r).
Proof.
  apply payload_ext. apply Forall_forall. intros k Hk. rewrite get_exported_column by done.
  rewrite canonical_value_idem. done.
Qed.

Lemma export_signature r : signature_text (dict_row (export_row r)) = signature_text (RRow r).
Proof. unfold signature_text. cbn. by destruct (signature r). Qed.

(** An exported row links as the row it was exported from. *)
Lemma export_link prev r : link_hash prev (dict_row (export_row r)) = link_hash prev (RRow r).
Proof. unfold link_hash, link_material. by rewrite export_payload, export_signature. Qed.

Lemma get_exported r :
  get_val (export_row r) "chain_seq" = VInt (seq_of r) ∧ get_val (export_row r) "chain_prev" = opt_val (chain_prev r) ∧
  get_val (export_row r) "chain_hash" = opt_val (chain_hash r) ∧ get_val (export_row r) "signature" = opt_val (signature r).
Proof. done. Qed.

(** The keys a verifier may be given: none, or the audit key when every row is signed. *)
Definition key_fits (secret : option string) (l : list AuditLog) : Prop :=
  secret = None ∨ secret = Some key ∧ Forall (λ r, signed r = true) l.

Lemma signed_sound r : signed r = true → sound key r →
  ∃ s, signature r = Some s ∧ s ≠ EmptyString ∧ compare_digest (sign_audit_record (RRow r) key) s = Some true.
Proof.
  intros Hs [Hn|Hv]; [congruence|]. unfold signed, text_or in Hs. unfold verify_audit_row, signature_text in Hv. cbn in Hv.
  destruct (signature r) as [s|]; [|done]. cbn in Hv. exists s.
  destruct (String.eqb_spec s EmptyString); [done|]. cbn in Hv. rewrite py_str_VStr in Hv.
  destruct (String.eqb_spec s EmptyString); [done|]. done.
Qed.

Lemma check_exported secret e prev r : linked prev e [r] → sound key r → key_fits secret [r] →
  check_row secret e prev (VMap (export_row r)) = Ok (inr (e, link_hash prev (RRow r))).
Proof.
  intros (L1 & L2 & L3 & _) Hs Hk. destruct (get_exported r) as (G1 & G2 & G3 & G4).
  assert (E : seq_of r = e) by (unfold seq_of; by rewrite L1).
  unfold check_row. rewrite G1, G2, G3, G4, L2, L3, export_link, E. cbn [as_int opt_val scalar_eqb].
  rewrite Z.eqb_refl, !String.eqb_refl. cbn [negb]. destruct Hk as [-> | [-> Hk]]; [done|].
  inversion Hk as [|?? Hr _]; subst. destruct (signed_sound r Hr Hs) as (s & -> & Hne & Hc).
  cbn [opt_val truthy]. apply String.eqb_neq in Hne. rewrite Hne. cbn [negb].
  unfold sign_audit_record in *. by rewrite py_str_VStr, export_payload, Hc.
Qed.

Definition links (l : list AuditLog) : list (Z * string) := (λ r, (seq_of r, default EmptyString (chain_hash r))) <$> l.

Lemma walk_exported secret l : ∀ e prev n acc, linked prev e l → Forall (sound key) l → key_fits secret l →
  walk_rows secret e prev ((λ r, VMap (export_row r)) <$> l) n acc =
  Ok (inr (e + Z.of_nat (length l), (n + length l)%nat, acc ++ links l)).
Proof.
  induction l as [|r l IH]; intros e prev n acc Hl Hs Hk.
  { cbn. by rewrite Z.add_0_r, Nat.add_0_r, app_nil_r. }
  inversion Hs as [|?? Hr Hs']; subst. destruct Hl as (L1 & L2 & L3 & Hl).
  assert (Hk' : key_fits secret [r] ∧ key_fits secret l).
  { destruct Hk as [-> | [-> Hk]]; [by split; left|]. inversion Hk; subst. split; right; split; try done. by constructor. }
  destruct Hk' as [Hk1 Hk2]. cbn [fmap list_fmap walk_rows].
  rewrite check_exported; [|by repeat split|done|done].
  rewrite IH by done. cbn [links length fmap list_fmap]. rewrite L3. cbn [default from_option id].
  assert (E : seq_of r = e) by (unfold seq_of; by rewrite L1). rewrite E, <- app_assoc.
  f_equal. f_equal. f_equal. f_equal; lia.
Qed.

(** [s] and [h] name a link of the chain. *)
Definition names_link (l : list AuditLog) (s : Z) (h : string) : Prop :=
  ∃ i r, l !! i = Some r ∧ s = 1 + Z.of_nat i ∧ chain_hash r = Some h.

Lemma link_at_elem s h l : NoDup l.*1 → (s, h) ∈ l → link_at s l = Some h.
Proof.
  intros Hnd Hin. unfold link_at. destruct (List.find _ (reverse l)) as [[s' h']|] eqn:Ef.
  - apply find_some in Ef as [Hin' E]. cbn in E. apply Z.eqb_eq in E as ->. apply list_elem_of_In in Hin'.
    rewrite elem_of_reverse in Hin'. cbn. f_equal. apply list_elem_of_lookup in Hin as [i Hi], Hin' as [j Hj].
    assert (i = j); [|congruence]. eapply NoDup_lookup; [exact Hnd|by rewrite list_lookup_fmap, Hi|by rewrite list_lookup_fmap, Hj].
  - eapply find_none in Ef; [|apply list_elem_of_In; by rewrite elem_of_reverse]. cbn in Ef. by rewrite Z.eqb_refl in Ef.
Qed.

Lemma links_NoDup prev e l : linked prev e l → NoDup (links l).*1.
Proof.
  intros Hl. unfold links. rewrite <- list_fmap_compose.
  assert (NoDup (seq_of <$> l)) by (by eapply linked_NoDup).
  by rewrite (list_fmap_ext _ seq_of).
Qed.

(** A named link within an exported range is the one the walk recomputed. *)
Lemma named_link_at l k m s h : linked GENESIS 1 l → names_link l s h →
  let found := take m (drop k l) in
  1 + Z.of_nat k ≤ s ≤ Z.of_nat k + Z.of_nat (length found) → link_at s (links found) = Some h.
Proof.
  intros Hl (i & r & Hi & -> & Hh) found Hs.
  assert (Hf : found !! (i - k)%nat = Some r).
  { unfold found in *. rewrite lookup_take_lt by (rewrite length_take in Hs; lia). rewrite lookup_drop.
    by replace (k + (i - k))%nat with i by lia. }
  destruct (linked_lookup _ _ _ _ _ Hl Hi) as (Hseq & _). apply link_at_elem.
  - rewrite <- (take_drop k l) in Hl. apply linked_app in Hl as [_ Hl]. rewrite <- (take_drop m (drop k l)) in Hl.
    apply linked_app in Hl as [Hl _]. by eapply links_NoDup.
  - apply list_elem_of_lookup. exists (i - k)%nat. unfold links. rewrite list_lookup_fmap, Hf. cbn. by rewrite Hh, Hseq.
Qed.

Lemma walk_anchors_pass from_seq last_seq head_seq by_seq l : ∀ n,
  Forall (λ a, fst a ≤ head_seq ∧ (from_seq ≤ fst a ≤ last_seq → link_at (fst a) by_seq = Some (snd a))) l →
  ∃ k, walk_anchors from_seq last_seq head_seq by_seq l n = inr k.
Proof.
  induction l as [|[s h] l IH]; intros n Hl; cbn [walk_anchors]; [by eexists|].
  inversion Hl as [|?? [Hle Hat] Hl']; subst. cbn in Hle, Hat.
  destruct (Z.ltb_spec head_seq s); [lia|].
  destruct (Z.ltb_spec s from_seq), (Z.ltb_spec last_seq s); cbn [orb]; eauto.
  rewrite bool_decide_eq_true_2 by (apply Hat; lia). eauto.
Qed.

(** A stored witness the export may carry: a fork, or a link of the chain whose
    countersignature the key set accepts. *)
Definition witness_fits (jws : option (pyval → pyval → option (list (string * pyval)))) (jwks issuer : pyval) (t : string)
    (l : list AuditLog) (c : checkpoint) : Prop :=
  cp_status c = "witnessed" → names_link l (cp_head_seq c) (cp_head_hash c) ∧
  ∀ f w, jws = Some f → truthy jwks = true → witness_view c = VMap w → witness_problem f jwks issuer w (VStr t) = false.

Lemma walk_witnesses_pass jws jwks issuer t l ws : ∀ n acc,
  Forall (witness_fits jws jwks issuer t l) ws → Forall (λ a, names_link l (fst a) (snd a)) acc →
  ∃ n' acc', walk_witnesses (if truthy jwks then jws else None) jwks issuer (VStr t) (witness_view <$> ws) n acc = inr (n', acc') ∧
    Forall (λ a, names_link l (fst a) (snd a)) acc'.
Proof.
  induction ws as [|c ws IH]; intros n acc Hw Hacc; cbn [fmap list_fmap walk_witnesses]; [by eauto|].
  inversion Hw as [|?? Hc Hws]; subst.
  change (witness_view c) with (VMap (match witness_view c with VMap w => w | _ => [] end)). cbv iota.
  set (w := match witness_view c with VMap w => w | _ => [] end).
  change (get_val w "status") with (VStr (cp_status c)). change (get_val w "head_seq") with (VInt (cp_head_seq c)).
  change (get_val w "head_hash") with (VStr (cp_head_hash c)). cbn [scalar_eqb as_int].
  destruct (String.eqb_spec (cp_status c) "witnessed") as [Es|]; cbn [negb]; [|by apply IH].
  destruct (Hc Es) as [Hn Hf].
  assert (Hacc' : Forall (λ a, names_link l (fst a) (snd a)) (acc ++ [(cp_head_seq c, cp_head_hash c)])).
  { apply Forall_app. split; [done|]. by constructor. }
  destruct (truthy jwks) eqn:Ej; [|by apply IH].
  destruct jws as [f|]; [|by apply IH]. rewrite (Hf f w eq_refl eq_refl eq_refl). by apply IH.
Qed.

(** The rows of an export are the range of the chain it asks for. *)
Lemma export_rows_range d t start to_seq : chain_inv key d → 1 ≤ start →
  export_rows d t start (export_end (head_of (head_row d t)) start to_seq) =
  take (Z.to_nat (export_end (head_of (head_row d t)) start to_seq - start + 1)) (drop (Z.to_nat (start - 1)) (sealed_all d t)).
Proof.
  intros Hinv Hs. destruct (head_of_linked d t (inv_linked _ _ Hinv t)) as [Hh _].
  set (e := export_end _ _ _). assert (He : e ≤ Z.of_nat (length (sealed_all d t))).
  { unfold e, export_end. rewrite Hh. destruct to_seq; lia. }
  unfold export_rows. destruct (Z.leb_spec start e).
  - unfold sealed_rows. rewrite (inv_from key) by done. rewrite filter_all; [done|].
    apply Forall_lookup. intros i r Hi. apply lookup_take_Some in Hi as [Hi Hlt]. rewrite lookup_drop in Hi.
    apply (linked_lookup _ _ _ _ _ (inv_linked _ _ Hinv t)) in Hi as [Hi _]. apply Z.leb_le. lia.
  - by replace (Z.to_nat (e - start + 1)) with 0%nat by lia.
Qed.

Lemma last_seq_range l k m : linked GENESIS 1 l → (k ≤ length l)%nat →
  match last (take m (drop k l)) with Some r => seq_of r | None => Z.of_nat k end =
  Z.of_nat k + Z.of_nat (length (take m (drop k l))).
Proof.
  intros Hl Hk. rewrite <- (take_drop k l) in Hl. apply linked_app in Hl as [_ Hl].
  rewrite length_take, Nat.min_l in Hl by done. rewrite <- (take_drop m (drop k l)) in Hl. apply linked_app in Hl as [Hl _].
  rewrite last_lookup. destruct (take m (drop k l) !! _) as [r|] eqn:Er.
  - pose proof (lookup_lt_Some _ _ _ Er). apply (linked_lookup _ _ _ _ _ Hl) in Er as [-> _]. lia.
  - apply lookup_ge_None in Er. lia.
Qed.

Lemma prefix_names_head l l0 : linked GENESIS 1 l → l0 `prefix_of` l → l0 ≠ [] →
  names_link l (seq (head_of (last l0))) (hash (head_of (last l0))).
Proof.
  intros Hl [k ->] Hne. destruct (exists_last Hne) as (l' & r & ->). rewrite last_snoc.
  assert (Hi : ((l' ++ [r]) ++ k) !! length l' = Some r) by (rewrite <- app_assoc; by apply list_lookup_middle).
  destruct (linked_lookup _ _ _ _ _ Hl Hi) as (E1 & _ & _ & E2). exists (length l'), r. split_and!; [done|done|].
  cbn [head_of hash]. by rewrite E2, link_hash_text.
Qed.

(** The anchors of an export name links of the chain, or nothing. *)
Lemma named_anchor_ok l k m s h :
  linked GENESIS 1 l → names_link l s h ∨ s = 0 →
  s ≤ Z.of_nat (length l) ∧
  (1 + Z.of_nat k ≤ s ≤ Z.of_nat k + Z.of_nat (length (take m (drop k l))) → link_at s (links (take m (drop k l))) = Some h).
Proof.
  intros Hl [Hn | ->]; [|lia]. split; [|by apply named_link_at].
  destruct Hn as (i & r & Hi & -> & _). apply lookup_lt_Some in Hi. lia.
Qed.

(** The anchors part accepts the anchors of an exported range. *)
Lemma verify_anchors_pass jws jwks issuer t ws bundle chain anchors grantex h expected l k m rep stored :
  linked GENESIS 1 l →
  get_val bundle "anchors" = VMap anchors → get_val anchors "witness_checkpoints" = VList (witness_view <$> ws) →
  get_val anchors "audit_chain_anchor" = match stored with Some a => head_to_dict a | None => VNone end →
  get_val bundle "grantex" = VMap grantex → get_val grantex "jwks" = jwks → get_val grantex "issuer" = issuer →
  get_val bundle "tenant_id" = VStr t → get_val chain "head" = head_to_dict h →
  seq h = Z.of_nat (length l) → (l ≠ [] → names_link l (seq h) (hash h)) →
  (∀ a, stored = Some a → names_link l (seq a) (hash a)) →
  (∀ a, expected = Some a → names_link l (fst a) (snd a) ∨ fst a = 0) →
  Forall (witness_fits jws jwks issuer t l) ws → (k ≤ length l)%nat →
  let found := take m (drop k l) in
  ∃ rep', verify_anchors jws bundle chain expected (1 + Z.of_nat k) (Z.of_nat k + Z.of_nat (length found)) (links found) rep = Ok rep' ∧
    report_break rep' = None ∧ rows_checked rep' = rows_checked rep.
Proof.
  intros Hl Ba Bw Bs Bg Bj Bi Bt Bh Hh Hhn Hst Hexp Hw Hk found. unfold verify_anchors.
  assert (Hor : ∀ kvs, or_dict (VMap kvs) = Ok kvs) by (by intros []).
  assert (Hit : ∀ vs, or_items (VList vs) = Ok vs) by (by intros []).
  rewrite Ba, Hor. cbn [mbind result_bind]. rewrite Bw, Hit. cbn [mbind result_bind]. rewrite Bg, Hor. cbn [mbind result_bind].
  rewrite Bj, Bi, Bt. destruct (walk_witnesses_pass jws jwks issuer t l ws 0 [] Hw (Forall_nil_2 _)) as (n & acc & -> & Hacc).
  rewrite Bh. unfold head_to_dict at 1. rewrite Hor. cbn [mbind result_bind].
  change (get_val [("seq", VInt (seq h)); _; _] "seq") with (VInt (seq h)).
  change (get_val [_; ("hash", VStr (hash h)); _] "hash") with (VStr (hash h)). cbn [as_int default from_option id].
  rewrite Hh, py_str_VStr.
  assert (Hlen : Z.of_nat k + Z.of_nat (length found) ≤ Z.of_nat (length l)) by (unfold found; rewrite length_take, length_drop; lia).
  destruct (Z.ltb_spec (Z.of_nat (length l)) (Z.of_nat k + Z.of_nat (length found))); [lia|].
  match goal with |- context [walk_anchors _ _ _ _ ?named 0] => set (na := named) end.
  assert (Hna : Forall (λ a, names_link l (fst a) (snd a) ∨ fst a = 0) na).
  { unfold na. repeat (apply Forall_app; split).
    - rewrite Bs. destruct stored as [a|]; [|by constructor]. unfold head_to_dict, bundle_anchor.
      change (get_val [("seq", VInt (seq a)); _; _] "seq") with (VInt (seq a)).
      change (get_val [_; ("hash", VStr (hash a)); _] "hash") with (VStr (hash a)). cbn [as_int].
      destruct (0 <? seq a); [|by constructor]. rewrite py_str_VStr. constructor; [|done]. left. by apply Hst.
    - eapply Forall_impl; [exact Hacc|]. by left.
    - destruct expected as [a|]; [|by constructor]. constructor; [|done]. by apply Hexp.
    - destruct ((_ =? _) && _) eqn:E; [|by constructor]. constructor; [|done]. left. cbn [fst snd]. rewrite <- Hh.
      apply Hhn. intros ->. apply andb_true_iff in E as [_ E]. apply Z.leb_le in E. cbn in E. lia. }
  destruct (walk_anchors_pass (1 + Z.of_nat k) (Z.of_nat k + Z.of_nat (length found)) (Z.of_nat (length l)) (links found) na 0)
    as [kk ->]; [|by eexists].
  eapply Forall_impl; [exact Hna|]. intros [s h'] Hs. by apply named_anchor_ok.
Qed.

(** The link an export names before its range. *)
Lemma link_before_range d t k : chain_inv key d → (k ≤ length (sealed_all d t))%nat →
  link_before d t (1 + Z.of_nat k) = Some (end_link GENESIS (take k (sealed_all d t))).
Proof.
  intros Hinv Hk. unfold link_before. destruct (Z.ltb_spec 1 (1 + Z.of_nat k)).
  - destruct (lookup_lt_is_Some_2 (sealed_all d t) (k - 1)) as [r Hr]; [lia|].
    destruct (sealed_rows_at key d t _ r Hinv Hr) as [rest Er].
    replace (1 + Z.of_nat k - 1) with (1 + Z.of_nat (k - 1)) by lia. rewrite Er.
    destruct (linked_lookup _ _ _ _ _ (inv_linked _ _ Hinv t) Hr) as (-> & _ & _ & ->). rewrite Z.eqb_refl.
    replace k with (S (k - 1)) at 2 by lia. by rewrite (take_S_r _ _ _ Hr), end_link_app.
  - by replace k with 0%nat by lia.
Qed.

Lemma key_fits_range secret l k m : key_fits secret l → key_fits secret (take m (drop k l)).
Proof.
  intros [-> | [-> Hk]]; [by left|right]. split; [done|]. by apply Forall_take, Forall_drop.
Qed.

Lemma or_items_VList vs : or_items (VList vs) = Ok vs.
Proof. by destruct vs. Qed.

Lemma scalar_eqb_VInt z : scalar_eqb (VInt z) (VInt z) = true.
Proof. cbn. by rewrite fin_compare_refl. Qed.

(** A range of the chain is linked to what lies before it. *)
Lemma range_linked d t k m :
  chain_inv key d → (k ≤ length (sealed_all d t))%nat →
  let found := take m (drop k (sealed_all d t)) in
  linked (end_link GENESIS (take k (sealed_all d t))) (1 + Z.of_nat k) found ∧ Forall (sound key) found.
Proof.
  intros Hinv Hk. split; [|apply Forall_take, Forall_drop; by apply sealed_all_sound].
  pose proof (inv_linked _ _ Hinv t) as Hl. rewrite <- (take_drop k (sealed_all d t)) in Hl.
  apply linked_app in Hl as [_ Hl]. rewrite length_take, Nat.min_l in Hl by done.
  rewrite <- (take_drop m (drop k _)) in Hl. by apply linked_app in Hl as [Hl _].
Qed.

(** End to end: an export of any range of a tenant's chain, taken from a database
    that was only appended to and sealed, passes the offline verifier without a break,
    held against the stored anchor, the witnessed heads, any head the chain had before
    and, when every exported row is signed, the audit key; it checks every exported row. *)
Theorem export_verifies_offline jws d0 d t from_seq to_seq ws issuer jwks secret now expected :
  rtc (chain_step key) chain_init d0 → rtc (chain_step key) d0 d →
  from_seq ≤ Z.of_nat (length (sealed_all d t)) + 1 →
  Forall (witness_fits jws (match jwks with VMap kvs => VMap kvs | _ => VNone end)
            (match issuer with Some s => if String.eqb s EmptyString then VNone else VStr s | None => VNone end) t (sealed_all d t)) ws →
  expected = None ∨ expected = Some (seq (head_of (head_row d0 t)), hash (head_of (head_row d0 t))) →
  key_fits secret (sealed_all d t) →
  ∃ rep, verify_bundle jws (VMap (build_export_bundle d t from_seq to_seq ws issuer jwks key now)) expected secret = Ok rep ∧
    report_break rep = None ∧
    rows_checked rep = length (export_rows d t (Z.max 1 from_seq) (export_end (head_of (head_row d t)) (Z.max 1 from_seq) to_seq)).
Proof.
  intros Hd0 Hd Hfrom Hw Hexp Hkey. pose proof (reachable_inv _ _ Hd0) as Hinv0.
  assert (Hinv : chain_inv key d) by (apply reachable_inv; by etrans).
  pose proof (inv_linked _ _ Hinv t) as Hl. destruct (head_of_linked d t Hl) as [Hh _].
  set (start := Z.max 1 from_seq). set (e := export_end (head_of (head_row d t)) start to_seq).
  pose proof (export_rows_range d t start to_seq Hinv ltac:(lia)) as Hrows. fold e in Hrows.
  set (k := Z.to_nat (start - 1)) in *. set (m := Z.to_nat (e - start + 1)) in *.
  assert (Hk : (k ≤ length (sealed_all d t))%nat) by lia. assert (Estart : start = 1 + Z.of_nat k) by lia.
  unfold verify_bundle. set (bundle := build_export_bundle d t from_seq to_seq ws issuer jwks key now).
  change (get_val bundle "format") with (VStr EXPORT_FORMAT). cbn [scalar_eqb]. rewrite String.eqb_refl. cbn [negb].
  set (chain := match get_val bundle "chain" with VMap kvs => kvs | _ => [] end).
  change (get_val bundle "chain") with (VMap chain). change (or_dict (VMap chain)) with (@Ok value_error _ chain).
  cbn [mbind result_bind]. change (get_val chain "version") with (VStr CHAIN_VERSION).
  cbn [scalar_eqb]. rewrite String.eqb_refl. cbn [negb].
  change (get_val chain "from_seq") with (VInt start). cbn [truthy]. rewrite py_int_VInt.
  destruct (Z.eqb_spec start 0); [lia|]. cbn [negb of_option mbind result_bind].
  change (get_val chain "prev_link") with (opt_val (link_before d t start)).
  change (get_val chain "to_seq") with (VInt (match last (export_rows d t start e) with Some r => seq_of r | None => start - 1 end)).
  change (get_val bundle "rows") with (VList ((λ r, VMap (export_row r)) <$> export_rows d t start e)).
  rewrite Estart, (link_before_range _ _ _ Hinv Hk), <- Estart. cbn [opt_val].
  assert (Hprev : (if start =? 1 then Some GENESIS else Some (end_link GENESIS (take k (sealed_all d t)))) =
    Some (end_link GENESIS (take k (sealed_all d t)))).
  { destruct (Z.eqb_spec start 1); [|done]. by replace k with 0%nat by lia. }
  rewrite Hprev, Hrows. set (found := take m (drop k (sealed_all d t))) in *.
  rewrite or_items_VList. cbn [mbind result_bind].
  destruct (range_linked d t k m Hinv Hk) as [Hlf Hsf]. rewrite <- Estart in Hlf. fold found in Hlf, Hsf. rewrite (walk_exported secret) by (done || by apply key_fits_range). cbn [app Nat.add mbind result_bind].
  pose proof (last_seq_range (sealed_all d t) k m Hl Hk) as Hlast. fold found in Hlast.
  replace (start - 1) with (Z.of_nat k) by lia. rewrite Hlast.
  replace (start + Z.of_nat (length found) - 1) with (Z.of_nat k + Z.of_nat (length found)) by lia.
  rewrite scalar_eqb_VInt. cbn [negb]. rewrite Estart.
  match goal with |- context [verify_anchors jws bundle chain expected _ _ _ ?r] =>
    refine (verify_anchors_pass jws _ _ t ws bundle chain _ _ (head_of (head_row d t)) expected (sealed_all d t) k m r
      (stored_anchor d t) Hl eq_refl eq_refl eq_refl eq_refl eq_refl eq_refl eq_refl eq_refl Hh _ _ _ Hw Hk) end.
  - intros Hne. rewrite (head_row_last d) by (by eapply linked_NoDup). by apply prefix_names_head.
  - intros a Ha. rewrite (inv_anchor _ _ Hinv) in Ha. case_bool_decide; [done|]. simplify_eq. by apply prefix_names_head.
  - intros a ->. destruct Hexp as [|[= ->]]; [done|]. cbn [fst snd].
    rewrite head_row_last by (eapply linked_NoDup, (inv_linked _ _ Hinv0)).
    destruct (decide (sealed_all d0 t = [])) as [-> |Hne]; [by right|left].
    apply prefix_names_head; [done|by eapply reachable_prefix|done].
Qed.
End exported.

(** * Examples *)

#[local] Instance example_int : PyInt :=
  {| py_int v := match v with VInt z => Some z | _ => None end; py_int_VInt := λ z, eq_refl |}.

Lemma export_verifies_offline_witness :
  ∃ rep, verify_bundle None
      (VMap (build_export_bundle example_sealed "t1" 1 None [] None VNone "key" example_now))
      (Some (seq (head_of (head_row example_sealed "t1")), hash (head_of (head_row example_sealed "t1")))) (Some "key") = Ok rep ∧
    report_break rep = None ∧ rows_checked rep = 1%nat.
Proof.
  destruct (export_verifies_offline "key" None example_sealed example_sealed "t1" 1 None [] None VNone (Some "key") example_now
    (Some (seq (head_of (head_row example_sealed "t1")), hash (head_of (head_row example_sealed "t1")))))
    as (rep & Hr & Hb & Hn).
  - exact example_sealed_reachable.
  - apply rtc_refl.
  - vm_compute. discriminate.
  - constructor.
  - right. reflexivity.
  - right. split; [reflexivity|]. vm_compute. constructor; [reflexivity|constructor].
  - exists rep. split; [exact Hr|]. split; [exact Hb|]. rewrite Hn. vm_compute. reflexivity.
Defined.
