(* ===== verification/Arbiter.v ===== *)
(** The commerce arbiter: src/core/commerce/arbiter.py, with the RBI rule of
    src/core/commerce/india_rails.py and the verification refs of
    src/core/commerce/oacp_mandates.py it reads.

    The times of a decision are aware datetimes. The hash of a payload, SHA-256 of its
    RFC 8785 canonical JSON, goes through a library and is a parameter, as is the parser
    of ISO times ([datetime.fromisoformat]). *)

From Stdlib Require Import Ascii.
From S2P Require Import Prelude PyVal PyText Digest.

Local Open Scope Z_scope.

Class PayloadHash := commerce_payload_hash : pyval → string.

(** * Evidence and context *)

Record MandateEvidence := { mandate_ref : option string; mandate_hash : option string; mandate_expires_at : option datetime }.
Record ConsentEvidence := { consent_ref : option string; consent_status : option string }.
Record PassportEvidence := {
  passport_ref : option string;
  passport_max_amount : option Z;
  passport_currency : option string;
  passport_expires_at : option datetime;
}.
Record AfaEvidence := {
  debit_kind : string;
  afa_amount : option Z;
  afa_currency : option string;
  purpose : option string;
  limit_minor_units : Z;
  higher_limit_minor_units : Z;
  evidence_ref : option string;
}.
Record RefundEvidence := {
  refund_order_id : string;
  refund_currency : string;
  captured_minor_units : Z;
  refunded_minor_units : Z;
}.
Record ArtifactEvidence := {
  artifact_id : string;
  family : string;
  artifact_tenant_id : option string;
  artifact_merchant_id : option string;
  artifact_seller_agent_id : option string;
  artifact_buyer_agent_id : option string;
  verifier_result_ref : option string;
  artifact_expires_at : option datetime;
  freshness_status : option string;
  revocation_status : option string;
}.
Record MerchantLimits := {
  max_order_amount : option Z;
  currency_allowlist : list string;
  max_quantity_per_order : option Z;
  not_present_max_order_amount : option Z;
  not_present_max_quantity_per_order : option Z;
  escalate_to_human : bool;
  review_agent_id : option string;
  max_daily_amount : option Z;
}.

Record ArbiterContext := {
  tenant_id : string;
  merchant_id : string;
  seller_agent_id : string;
  buyer_agent_id : option string;
  now : datetime;
  payload : pyval;
  amount_minor_units : option Z;
  currency : option string;
  quantity : option Z;
  mandate : option MandateEvidence;
  consent : option ConsentEvidence;
  passport : option PassportEvidence;
  artifacts : list ArtifactEvidence;
  merchant_limits : option MerchantLimits;
  authority_verification_ref : option string;
  require_verified_authority : bool;
  afa : option AfaEvidence;
  refund : option RefundEvidence;
  mandate_hashes_in : list (string * pyval);
  mandate_jtis_in : list (string * pyval);
  presence : option string;
  intent_max_amount : option Z;
  intent_currency : option string;
  daily_committed_amount : option Z;
}.

Definition POLICY_VERSION : string := "commerce-arbiter-v4".
Definition DECISION_TTL : Z := 600000000.

Definition RULE_MANDATE : string := "mandate_present_unexpired".
Definition RULE_CONSENT : string := "consent_active".
Definition RULE_PASSPORT : string := "passport_amount_cap".
Definition RULE_AUTHORITY_VERIFIED : string := "buyer_authority_verified".
Definition RULE_ARTIFACTS : string := "oacp_artifacts_valid".
Definition RULE_MERCHANT_LIMITS : string := "merchant_limits".
Definition RULE_NOT_PRESENT : string := "human_not_present_limits".
Definition RULE_AFA : string := "afa_evidence_present".
Definition RULE_REFUND : string := "refund_within_captured".
Definition RULE_HANDOFF_LIMITS : string := "handoff_merchant_limits".

Definition RULE_ORDER : list string :=
  [RULE_MANDATE; RULE_CONSENT; RULE_PASSPORT; RULE_AUTHORITY_VERIFIED; RULE_ARTIFACTS; RULE_MERCHANT_LIMITS; RULE_NOT_PRESENT].

Definition COMMITMENT_FAMILIES : list string :=
  ["catalog_snapshot"; "price"; "inventory"; "policy"; "mandate_capability"; "protocol_adapter"].

Definition REQUIRED_ARTIFACT_FAMILIES (action : string) : option (list string) :=
  assoc action
    [("purchase_handoff", COMMITMENT_FAMILIES); ("pos_handoff", COMMITMENT_FAMILIES);
     ("session_complete", COMMITMENT_FAMILIES); ("mandate_request", ["policy"; "mandate_capability"]);
     ("payment_handoff", List.filter (λ f, negb (String.eqb f "mandate_capability")) COMMITMENT_FAMILIES)].

Definition RULES_BY_ACTION (action : string) : option (list string) :=
  assoc action
    [("purchase_handoff", RULE_ORDER); ("pos_handoff", RULE_ORDER); ("session_complete", RULE_ORDER ++ [RULE_AFA]);
     ("mandate_request", List.filter (λ r, negb (String.eqb r RULE_MANDATE)) RULE_ORDER);
     ("refund", [RULE_REFUND]); ("payment_handoff", [RULE_ARTIFACTS; RULE_HANDOFF_LIMITS])].

(** * Rules *)

(** [a.upper() != b.upper()] is [negb (same_currency a b)]. *)
Definition same_currency (a b : string) : bool := String.eqb (upper a) (upper b).

Definition rule_mandate_present_unexpired (context : ArbiterContext) : bool * string :=
  match mandate context with
  | None => (false, "mandate_missing")
  | Some m =>
      if negb (given (mandate_ref m)) || negb (given (mandate_hash m)) then (false, "mandate_missing")
      else match mandate_expires_at m with
           | None => (false, "mandate_expiry_missing")
           | Some e => if dt_leb e (now context) then (false, "mandate_expired") else (true, "mandate_present_unexpired")
           end
  end.

Definition ACTIVE_CONSENT_STATUSES : list string := ["active"; "granted"].

Definition rule_consent_active (context : ArbiterContext) : bool * string :=
  match consent context with
  | None => (false, "consent_missing")
  | Some c =>
      if negb (given (consent_ref c)) || negb (given (consent_status c)) then (false, "consent_missing")
      else
        let status := lower (strip (default EmptyString (consent_status c))) in
        if bool_decide (status ∈ ACTIVE_CONSENT_STATUSES) then (true, "consent_active")
        else
          let shown := of_chars (take 32 (chars status)) in
          (false, "consent_" +:+ (if String.eqb shown EmptyString then "unknown" else shown))
  end.

Definition rule_passport_amount_cap (context : ArbiterContext) : bool * string :=
  match passport context with
  | None => (false, "passport_missing")
  | Some p =>
      if negb (given (passport_ref p)) then (false, "passport_missing")
      else match passport_max_amount p with
      | None => (false, "passport_cap_missing")
      | Some cap =>
          if negb (given (passport_currency p)) then (false, "passport_cap_missing")
          else match passport_expires_at p with
          | None => (false, "passport_expiry_missing")
          | Some e =>
              if dt_leb e (now context) then (false, "passport_expired")
              else match amount_minor_units context with
              | None => (false, "order_amount_missing")
              | Some amount =>
                  if negb (given (currency context)) then (false, "order_amount_missing")
                  else if negb (same_currency (default EmptyString (passport_currency p)) (default EmptyString (currency context)))
                  then (false, "passport_currency_mismatch")
                  else if cap <? amount then (false, "passport_amount_cap_exceeded")
                  else (true, "within_passport_amount_cap")
              end
          end
      end
  end.

(** ** The verification ref of the mandate verifier *)

Definition VERIFICATION_REF_PROFILE : string := "oacp-mandate-v1".
Definition semicolon : ascii := ";"%char.

Definition is_hex (c : ascii) : bool := is_digit c || in_range c 97 102.
Definition HEX64 (s : string) : bool := (length (chars s) =? 64)%nat && forallb is_hex (chars s).

Definition is_ref_char (c : ascii) : bool :=
  is_digit c || is_lower_az c || is_upper_az c || is_underscore c || existsb (Ascii.eqb c) (chars ".:@/-").
Definition REF (s : string) : bool :=
  match chars s with
  | [] => false
  | c :: rest => (is_digit c || is_lower_az c || is_upper_az c) && forallb is_ref_char rest && (length rest <=? 255)%nat
  end.

(** The value of a part [name=value] with a non-empty value *)
Definition ref_part (name part : string) : option string :=
  match strip_prefix (chars (name +:+ "=")) (chars part) with
  | Some (c :: v) => Some (of_chars (c :: v))
  | _ => None
  end.

(** The jti and the mandate hash of a ref, with the time it was verified. *)
Definition parse_verification_ref (ref : string) : option (string * string * string) :=
  match split semicolon ref with
  | [profile; p1; p2; p3] =>
      if negb (String.eqb profile VERIFICATION_REF_PROFILE) then None
      else
        jti ← ref_part "jti" p1;
        h ← ref_part "mandate_hash" p2;
        at_ ← ref_part "verified_at" p3;
        if HEX64 h && REF jti then Some (jti, h, at_) else None
  | _ => None
  end.

Definition rule_buyer_authority_verified (context : ArbiterContext) : bool * string :=
  if given (authority_verification_ref context) then
    match parse_verification_ref (default EmptyString (authority_verification_ref context)), mandate context with
    | Some (jti, h, _), Some m =>
        if bool_decide (mandate_ref m = Some jti) && bool_decide (mandate_hash m = Some h)
        then (true, "buyer_authority_server_verified") else (false, "buyer_authority_ref_invalid")
    | _, _ => (false, "buyer_authority_ref_invalid")
    end
  else if require_verified_authority context then (false, "buyer_authority_caller_asserted")
  else (true, "buyer_authority_caller_asserted_accepted").

(** ** Artifacts *)

Definition VERIFIER_REF_PREFIX : string := "oacp-artifact-jws-v1;".

Definition artifact_in_scope (a : ArtifactEvidence) (context : ArbiterContext) : bool :=
  bool_decide (artifact_tenant_id a = Some (tenant_id context)) &&
  bool_decide (artifact_merchant_id a = Some (merchant_id context)) &&
  bool_decide (artifact_seller_agent_id a = Some (seller_agent_id context)) &&
  (bool_decide (artifact_buyer_agent_id a = None) || bool_decide (artifact_buyer_agent_id a = buyer_agent_id context)).

Definition artifact_problem (a : ArtifactEvidence) (context : ArbiterContext) : option string :=
  let ref := default EmptyString (verifier_result_ref a) in
  if negb (starts_with VERIFIER_REF_PREFIX ref) || negb (contains_text ";kid=oacp-" ref) || negb (contains_text ";status=valid" ref)
  then Some "unverified"
  else if bool_decide (revocation_status a = Some "revoked") then Some "revoked"
  else if negb (bool_decide (revocation_status a = Some "fresh")) then Some "revocation_unknown"
  else if match artifact_expires_at a with None => true | Some e => dt_leb e (now context) end then Some "expired"
  else if negb (bool_decide (freshness_status a = Some "fresh")) then Some "stale"
  else None.

Definition PROBLEM_ORDER : list string := ["revoked"; "unverified"; "revocation_unknown"; "expired"; "stale"].

(** One family of the loop: [None] when it is covered. *)
Definition family_problem (context : ArbiterContext) (f : string) : option string :=
  let candidates := List.filter (λ a, String.eqb (family a) f && artifact_in_scope a context) (artifacts context) in
  match candidates with
  | [] => Some ("artifact_missing:" +:+ f)
  | _ =>
      let problems := (λ a, artifact_problem a context) <$> candidates in
      if bool_decide (None ∈ problems) then None
      else match List.find (λ p, bool_decide (Some p ∈ problems)) PROBLEM_ORDER with
           | Some p => Some ("artifact_" +:+ p +:+ ":" +:+ f)
           | None => None
           end
  end.

Definition rule_oacp_artifacts_valid (context : ArbiterContext) (action : string) : bool * string :=
  match REQUIRED_ARTIFACT_FAMILIES action with
  | None | Some [] => (false, "action_unknown")
  | Some required =>
      foldr (λ f rest, match family_problem context f with Some w => (false, w) | None => rest end)
        (true, "oacp_artifacts_verified_fresh_unrevoked") required
  end.

(** ** Limits *)

(** The amount, currency and quantity of an order that has all three. *)
Definition order_terms (context : ArbiterContext) : option (Z * string * Z) :=
  match amount_minor_units context, currency context, quantity context with
  | Some a, Some c, Some q => if String.eqb c EmptyString then None else Some (a, c, q)
  | _, _, _ => None
  end.

Definition rule_merchant_limits (context : ArbiterContext) : bool * string :=
  match merchant_limits context with
  | None => (false, "merchant_limits_missing")
  | Some l =>
      match max_order_amount l, currency_allowlist l, max_quantity_per_order l with
      | Some cap, (_ :: _) as allowed, Some qcap =>
          match order_terms context with
          | None => (false, "order_amount_missing")
          | Some (amount, cur, q) =>
              if negb (existsb (same_currency cur) allowed) then (false, "currency_not_allowed")
              else if qcap <? q then (false, "quantity_cap_exceeded")
              else if cap <? amount then (false, "order_amount_cap_exceeded")
              else match max_daily_amount l, daily_committed_amount context with
                   | Some daily, Some committed =>
                       if daily <? committed + amount then (false, "daily_amount_cap_exceeded")
                       else (true, "within_merchant_limits")
                   | _, _ => (true, "within_merchant_limits")
                   end
          end
      | _, _, _ => (false, "merchant_limits_missing")
      end
  end.

Definition rule_handoff_merchant_limits (context : ArbiterContext) : bool * string :=
  match merchant_limits context with
  | None => (true, "merchant_limits_not_configured")
  | Some _ => rule_merchant_limits context
  end.

Definition PRESENCE_HUMAN_PRESENT : string := "human_present".
Definition PRESENCE_HUMAN_NOT_PRESENT : string := "human_not_present".

Definition rule_human_not_present_limits (context : ArbiterContext) : bool * string :=
  match presence context with
  | None => (true, "presence_unverified")
  | Some p =>
      if String.eqb p PRESENCE_HUMAN_PRESENT then (true, "human_present")
      else if negb (String.eqb p PRESENCE_HUMAN_NOT_PRESENT) then (false, "presence_unknown")
      else match merchant_limits context with
      | None => (false, "not_present_limits_missing")
      | Some l =>
          match not_present_max_order_amount l with
          | None => (false, "not_present_limits_missing")
          | Some cap =>
              match order_terms context with
              | None => (false, "order_amount_missing")
              | Some (amount, cur, q) =>
                  match intent_max_amount context, intent_currency context with
                  | Some icap, Some icur =>
                      if String.eqb icur EmptyString then (false, "intent_cap_missing")
                      else if negb (same_currency icur cur) then (false, "intent_currency_mismatch")
                      else if icap <? amount then (false, "intent_cap_below_total")
                      else if cap <? amount then (false, "not_present_amount_cap_exceeded")
                      else match not_present_max_quantity_per_order l with
                           | Some qcap => if qcap <? q then (false, "not_present_quantity_cap_exceeded")
                                          else (true, "within_not_present_limits")
                           | None => (true, "within_not_present_limits")
                           end
                  | _, _ => (false, "intent_cap_missing")
                  end
              end
          end
      end
  end.

(** ** The additional factor of authentication *)

Definition HIGHER_LIMIT_PURPOSES : list string := ["insurance_premium"; "mutual_fund_subscription"; "credit_card_bill"].

(** Whether it is required, and on which basis. *)
Definition afa_requirement (e : AfaEvidence) : bool * string :=
  if String.eqb (debit_kind e) "registration" then (true, "rbi_em26_registration_and_first_debit")
  else if negb (String.eqb (debit_kind e) "subsequent") then (true, "debit_kind_unknown")
  else match afa_amount e with
  | None => (true, "amount_or_currency_unknown")
  | Some amount =>
      if negb (String.eqb (upper (default EmptyString (afa_currency e))) "INR") then (true, "amount_or_currency_unknown")
      else
        let named := match purpose e with Some p => if String.eqb p EmptyString then "general" else p | None => "general" end in
        let limit := if bool_decide (named ∈ HIGHER_LIMIT_PURPOSES) then higher_limit_minor_units e else limit_minor_units e in
        if limit <? amount then (true, "rbi_em26_s8_above_limit") else (false, "rbi_em26_s8_within_limit")
  end.

Definition is_upi_autopay (item : pyval) : bool :=
  match item with VMap kvs => match assoc "type" kvs with Some (VStr t) => String.eqb t "upi_autopay" | _ => false end | _ => false end.

Definition pays_by_upi (context : ArbiterContext) : bool :=
  match payload context with
  | VMap kvs => match assoc "payment" kvs with Some (VList items) => existsb is_upi_autopay items | _ => false end
  | _ => false
  end.

Definition rule_afa_evidence_present (context : ArbiterContext) : bool * string :=
  match afa context with
  | None => if pays_by_upi context then (false, "afa_input_missing") else (true, "afa_not_applicable")
  | Some e =>
      let '(required, basis) := afa_requirement e in
      if negb required && negb (bool_decide (presence context = Some PRESENCE_HUMAN_NOT_PRESENT))
      then (true, "afa_not_required:" +:+ basis)
      else if given (evidence_ref e) then (true, "afa_evidence_present")
      else (false, "afa_evidence_missing")
  end.

(** ** Refunds *)

Definition rule_refund_within_captured (context : ArbiterContext) : bool * string :=
  match refund context with
  | None => (false, "refund_input_missing")
  | Some r =>
      match amount_minor_units context with
      | None => (false, "refund_amount_invalid")
      | Some amount =>
          if amount <? 1 then (false, "refund_amount_invalid")
          else if negb (given (currency context)) || negb (same_currency (default EmptyString (currency context)) (refund_currency r))
          then (false, "refund_currency_mismatch")
          else if captured_minor_units r <? 1 then (false, "order_not_captured")
          else if captured_minor_units r <? refunded_minor_units r + amount then (false, "refund_exceeds_captured")
          else (true, "refund_within_captured")
      end
  end.

(** * The decision *)

Record RuleResult := { rule : string; passed : bool; reason : string }.

Record Decision := {
  decision_id : string;
  decision_tenant_id : string;
  decision_merchant_id : string;
  decision_seller_agent_id : string;
  decision_buyer_agent_id : option string;
  action : string;
  outcome : string;
  rules_evaluated : list string;
  failing_rule : option string;
  rule_results : list RuleResult;
  evidence : list (string * pyval);
  evidence_hashes_of : list string;
  payload_hash : string;
  policy_version : string;
  decided_at : datetime;
  expires_at : datetime;
  decision_reason : string;
  extra : list (string * pyval);
}.

(** [_RULES]; a name it does not hold raises [KeyError]. *)
Definition run_rule (name : string) (context : ArbiterContext) (act : string) : option (bool * string) :=
  if String.eqb name RULE_MANDATE then Some (rule_mandate_present_unexpired context)
  else if String.eqb name RULE_CONSENT then Some (rule_consent_active context)
  else if String.eqb name RULE_PASSPORT then Some (rule_passport_amount_cap context)
  else if String.eqb name RULE_AUTHORITY_VERIFIED then Some (rule_buyer_authority_verified context)
  else if String.eqb name RULE_ARTIFACTS then Some (rule_oacp_artifacts_valid context act)
  else if String.eqb name RULE_MERCHANT_LIMITS then Some (rule_merchant_limits context)
  else if String.eqb name RULE_NOT_PRESENT then Some (rule_human_not_present_limits context)
  else if String.eqb name RULE_AFA then Some (rule_afa_evidence_present context)
  else if String.eqb name RULE_REFUND then Some (rule_refund_within_captured context)
  else if String.eqb name RULE_HANDOFF_LIMITS then Some (rule_handoff_merchant_limits context)
  else None.

Definition opt_val (o : option string) : pyval := match o with None => VNone | Some s => VStr s end.

Definition evidence_summary (context : ArbiterContext) : list (string * pyval) :=
  [("mandate_ref", opt_val (m ← mandate context; mandate_ref m)); ("mandate_hash", opt_val (m ← mandate context; mandate_hash m));
   ("consent_ref", opt_val (c ← consent context; consent_ref c)); ("consent_status", opt_val (c ← consent context; consent_status c));
   ("passport_ref", opt_val (p ← passport context; passport_ref p));
   ("artifact_ids", VList (VStr <$> sorted_strings (list_to_set (artifact_id <$> artifacts context))))].

(** [ArtifactEvidence.payload_hash]: the first part of the verifier ref that names one. *)
Definition artifact_payload_hash (a : ArtifactEvidence) : option string :=
  match List.find (starts_with "payload_hash=") (split semicolon (default EmptyString (verifier_result_ref a))) with
  | Some part =>
      match strip_prefix (chars "payload_hash=") (chars part) with
      | Some (c :: v) => Some (of_chars (c :: v))
      | _ => None
      end
  | None => None
  end.

Definition evidence_hashes (context : ArbiterContext) : list string :=
  let hash_of (pre : string) (o : option string) (text : string) := if given o then [pre +:+ sha256_hexdigest (utf8 text)] else [] in
  let mandate_part := match mandate context with
    | Some m => if given (mandate_hash m) then ["mandate:" +:+ default EmptyString (mandate_hash m)] else [] | None => [] end in
  let artifact_part := artifacts context ≫= λ a,
    match artifact_payload_hash a with Some h => ["artifact:" +:+ artifact_id a +:+ ":" +:+ h] | None => [] end in
  let consent_part := match consent context with
    | Some c => hash_of "consent:" (consent_ref c) (default EmptyString (consent_ref c) +:+ "|" +:+ default EmptyString (consent_status c))
    | None => [] end in
  let passport_part := match passport context with
    | Some p => hash_of "passport:" (passport_ref p) (default EmptyString (passport_ref p)) | None => [] end in
  let afa_part := match afa context with
    | Some e => hash_of "afa:" (evidence_ref e) (default EmptyString (evidence_ref e)) | None => [] end in
  sorted_strings (list_to_set (mandate_part ++ artifact_part ++ consent_part ++ passport_part ++ afa_part)).

Definition AUTHORITY_SERVER_VERIFIED : string := "server_verified".
Definition AUTHORITY_CALLER_ASSERTED : string := "caller_asserted".

Definition buyer_authority_source (context : ArbiterContext) : string :=
  if given (authority_verification_ref context) then AUTHORITY_SERVER_VERIFIED else AUTHORITY_CALLER_ASSERTED.

Definition _iso (d : datetime) : string := replace_text "+00:00" "Z" (isoformat "T" d).

Definition MANDATE_KINDS : list string := ["intent"; "cart"; "payment"].

Section decide.
Context `{PayloadHash, PyStr}.

Definition mandate_jtis (context : ArbiterContext) : list (string * pyval) :=
  (λ kind, (kind, match assoc kind (mandate_jtis_in context) with
                  | Some v => if truthy v then VStr (of_chars (take 255 (chars (py_str v)))) else VNone
                  | None => VNone
                  end)) <$> MANDATE_KINDS.

Definition mandate_hashes (context : ArbiterContext) : list (string * pyval) :=
  (λ kind, (kind, match assoc kind (mandate_hashes_in context) with
                  | Some (VStr s) => if HEX64 s then VStr s else VNone
                  | _ => VNone
                  end)) <$> MANDATE_KINDS.

Definition decision_id_for (context : ArbiterContext) (act hash : string) : string :=
  let material := commerce_payload_hash (VMap
    [("policy_version", VStr POLICY_VERSION); ("tenant_id", VStr (tenant_id context));
     ("merchant_id", VStr (merchant_id context)); ("seller_agent_id", VStr (seller_agent_id context));
     ("buyer_agent_id", opt_val (buyer_agent_id context)); ("action", VStr act); ("payload_hash", VStr hash);
     ("evidence_hashes", VList (VStr <$> evidence_hashes context));
     ("buyer_authority_source", VStr (buyer_authority_source context));
     ("require_verified_authority", VBool (require_verified_authority context));
     ("presence", opt_val (presence context)); ("now", VStr (_iso (now context)))]) in
  "arbdec_" +:+ of_chars (take 40 (chars material)).

Definition rule_run (context : ArbiterContext) (act : string) (name : string) : option RuleResult :=
  (λ '(ok, why), {| rule := name; passed := ok; reason := why |}) <$> run_rule name context act.

(** [None] would be a [KeyError] of a rule name without a rule. *)
Definition decide_action (act : string) (context : ArbiterContext) : option Decision :=
  let hash := commerce_payload_hash (payload context) in
  '(results, names) ← match RULES_BY_ACTION act with
    | None => Some ([{| rule := "action_supported"; passed := false; reason := "action_unknown" |}], ["action_supported"])
    | Some rules => (λ rs, (rs, rules)) <$> mapM (rule_run context act) rules
    end;
  let failing := List.find (λ r, negb (passed r)) results in
  Some {| decision_id := decision_id_for context act hash; decision_tenant_id := tenant_id context;
          decision_merchant_id := merchant_id context; decision_seller_agent_id := seller_agent_id context;
          decision_buyer_agent_id := buyer_agent_id context; action := act;
          outcome := match failing with Some _ => "refuse" | None => "allow" end;
          rules_evaluated := names; failing_rule := rule <$> failing; rule_results := results;
          evidence := evidence_summary context; evidence_hashes_of := evidence_hashes context; payload_hash := hash;
          policy_version := POLICY_VERSION; decided_at := now context; expires_at := dt_add (now context) DECISION_TTL;
          decision_reason := match failing with Some r => reason r | None => "all_rules_passed" end;
          extra := [("buyer_authority_source", VStr (buyer_authority_source context));
                    ("mandate_hashes", VMap (mandate_hashes context)); ("mandate_jtis", VMap (mandate_jtis context));
                    ("presence", opt_val (presence context));
                    ("authority_verification_ref", opt_val (authority_verification_ref context))] |}.
End decide.

#[global] Arguments rule_oacp_artifacts_valid : simpl never.
#[global] Arguments COMMITMENT_FAMILIES : simpl never.

(** * What an allow means *)

(** Case analysis on the conditions of a rule that passed. *)
Ltac rule_cases H :=
  repeat match type of H with
  | (false, _) = (true, _) => discriminate H
  | (if negb ?b then _ else _) = _ => destruct b eqn:?; cbn [negb] in H
  | (if ?a || ?b then _ else _) = _ => destruct a eqn:?; cbn [orb] in H
  | (if ?b then _ else _) = _ => destruct b eqn:?
  | (match ?o with _ => _ end) = _ => destruct o eqn:?
  end; try discriminate H.

Ltac bools :=
  repeat match goal with
  | H : negb _ = true |- _ => apply negb_true_iff in H
  | H : negb _ = false |- _ => apply negb_false_iff in H
  | H : _ && _ = true |- _ => apply andb_true_iff in H as [? ?]
  | H : _ || _ = false |- _ => apply orb_false_iff in H as [? ?]
  | H : bool_decide _ = true |- _ => apply bool_decide_eq_true in H
  | H : bool_decide _ = false |- _ => apply bool_decide_eq_false in H
  | H : (_ <? _) = false |- _ => apply Z.ltb_ge in H
  | H : (_ <? _) = true |- _ => apply Z.ltb_lt in H
  | H : String.eqb _ _ = true |- _ => apply String.eqb_eq in H
  | H : String.eqb _ _ = false |- _ => apply String.eqb_neq in H
  end.

Lemma mandate_rule_sound ctx why : rule_mandate_present_unexpired ctx = (true, why) →
  ∃ m e, mandate ctx = Some m ∧ given (mandate_ref m) = true ∧ given (mandate_hash m) = true ∧
    mandate_expires_at m = Some e ∧ instant (now ctx) < instant e.
Proof.
  unfold rule_mandate_present_unexpired. intros H. rule_cases H. bools. eexists _, _. split_and!; try done.
  unfold dt_leb in *. by apply Z.leb_gt.
Qed.

Lemma consent_rule_sound ctx why : rule_consent_active ctx = (true, why) →
  ∃ c s, consent ctx = Some c ∧ given (consent_ref c) = true ∧ consent_status c = Some s ∧
    lower (strip s) ∈ ACTIVE_CONSENT_STATUSES.
Proof.
  unfold rule_consent_active. intros H. rule_cases H. bools. destruct (consent_status _) as [s|] eqn:Es; [|done].
  by eexists _, s.
Qed.

Lemma passport_rule_sound ctx why : rule_passport_amount_cap ctx = (true, why) →
  ∃ p cap pc e a c, passport ctx = Some p ∧ given (passport_ref p) = true ∧ passport_max_amount p = Some cap ∧
    passport_currency p = Some pc ∧ passport_expires_at p = Some e ∧ instant (now ctx) < instant e ∧
    amount_minor_units ctx = Some a ∧ currency ctx = Some c ∧ upper pc = upper c ∧ a ≤ cap.
Proof.
  unfold rule_passport_amount_cap. intros H. rule_cases H. unfold same_currency in *. bools.
  destruct (passport_currency _) as [pc|] eqn:Ep; [|done]. destruct (currency ctx) as [c|] eqn:Ec; [|done]. cbn in *.
  eexists _, _, pc, _, _, c. split_and!; try done. unfold dt_leb in *. by apply Z.leb_gt.
Qed.

Lemma order_terms_Some ctx a c q : order_terms ctx = Some (a, c, q) →
  amount_minor_units ctx = Some a ∧ currency ctx = Some c ∧ c ≠ EmptyString ∧ quantity ctx = Some q.
Proof. unfold order_terms. intros H. repeat case_match; simplify_eq. bools. done. Qed.

(** The order is within the limits the merchant set. *)
Definition within_merchant_limits (ctx : ArbiterContext) : Prop :=
  ∃ l cap qcap a c q, merchant_limits ctx = Some l ∧ max_order_amount l = Some cap ∧ max_quantity_per_order l = Some qcap ∧
    order_terms ctx = Some (a, c, q) ∧ a ≤ cap ∧ q ≤ qcap ∧ (∃ x, x ∈ currency_allowlist l ∧ upper c = upper x) ∧
    ∀ daily committed, max_daily_amount l = Some daily → daily_committed_amount ctx = Some committed → committed + a ≤ daily.

Lemma merchant_rule_sound ctx why : rule_merchant_limits ctx = (true, why) → within_merchant_limits ctx.
Proof.
  unfold rule_merchant_limits. intros H. destruct (merchant_limits ctx) as [l|] eqn:El; [|done].
  destruct (max_order_amount l) as [cap|] eqn:E1; [|done].
  destruct (currency_allowlist l) as [|x0 xs] eqn:E2; [done|].
  destruct (max_quantity_per_order l) as [qcap|] eqn:E3; [|done].
  destruct (order_terms ctx) as [[[a c] q]|] eqn:E4; [|done].
  destruct (existsb (same_currency c) (x0 :: xs)) eqn:E5; [|done]. cbn [negb] in H.
  destruct (qcap <? q) eqn:E6; [done|]. destruct (cap <? a) eqn:E7; [done|]. bools.
  exists l, cap, qcap, a, c, q. split_and!; try done.
  - apply existsb_exists in E5 as (x & Hx & E5). exists x. rewrite E2. split; [by apply list_elem_of_In|by apply String.eqb_eq].
  - intros daily committed Ed Ec. rewrite Ed, Ec in H. destruct (daily <? committed + a) eqn:E8; [done|]. by bools.
Qed.

(** What a purchase without a person asks on top. *)
Definition within_not_present_limits (ctx : ArbiterContext) : Prop :=
  ∃ l cap icap icur a c q, merchant_limits ctx = Some l ∧ not_present_max_order_amount l = Some cap ∧
    intent_max_amount ctx = Some icap ∧ intent_currency ctx = Some icur ∧ order_terms ctx = Some (a, c, q) ∧
    upper icur = upper c ∧ a ≤ icap ∧ a ≤ cap ∧ ∀ qcap, not_present_max_quantity_per_order l = Some qcap → q ≤ qcap.

Lemma not_present_rule_sound ctx why : rule_human_not_present_limits ctx = (true, why) →
  presence ctx = None ∨ presence ctx = Some PRESENCE_HUMAN_PRESENT ∨
  presence ctx = Some PRESENCE_HUMAN_NOT_PRESENT ∧ within_not_present_limits ctx.
Proof.
  unfold rule_human_not_present_limits. intros H. destruct (presence ctx) as [p|]; [|by left]. right.
  destruct (String.eqb p PRESENCE_HUMAN_PRESENT) eqn:E1; [left; by bools; subst|right].
  destruct (String.eqb p PRESENCE_HUMAN_NOT_PRESENT) eqn:E2; [|done]. cbn [negb] in H.
  apply String.eqb_eq in E2 as ->. split; [done|].
  destruct (merchant_limits ctx) as [l|] eqn:El; [|done]. destruct (not_present_max_order_amount l) as [cap|] eqn:Ec; [|done].
  destruct (order_terms ctx) as [[[a c] q]|] eqn:Eo; [|done].
  destruct (intent_max_amount ctx) as [icap|] eqn:Ei; [|done]. destruct (intent_currency ctx) as [icur|] eqn:Eu; [|done].
  unfold same_currency in H. rule_cases H; bools; exists l, cap, icap, icur, a, c, q; split_and!; try done;
    intros qcap' Hq; simplify_eq; done.
Qed.

(** An artifact that covers a family for the decision. *)
Definition valid_artifact (ctx : ArbiterContext) (f : string) (a : ArtifactEvidence) : Prop :=
  a ∈ artifacts ctx ∧ family a = f ∧ artifact_tenant_id a = Some (tenant_id ctx) ∧
  artifact_merchant_id a = Some (merchant_id ctx) ∧ artifact_seller_agent_id a = Some (seller_agent_id ctx) ∧
  (artifact_buyer_agent_id a = None ∨ artifact_buyer_agent_id a = buyer_agent_id ctx) ∧
  revocation_status a = Some "fresh" ∧ freshness_status a = Some "fresh" ∧
  (∃ e, artifact_expires_at a = Some e ∧ instant (now ctx) < instant e) ∧
  ∃ ref, verifier_result_ref a = Some ref ∧ starts_with VERIFIER_REF_PREFIX ref = true ∧
    contains_text ";kid=oacp-" ref = true ∧ contains_text ";status=valid" ref = true.

Lemma artifact_problem_None ctx a : artifact_problem a ctx = None →
  revocation_status a = Some "fresh" ∧ freshness_status a = Some "fresh" ∧
  (∃ e, artifact_expires_at a = Some e ∧ instant (now ctx) < instant e) ∧
  ∃ ref, verifier_result_ref a = Some ref ∧ starts_with VERIFIER_REF_PREFIX ref = true ∧
    contains_text ";kid=oacp-" ref = true ∧ contains_text ";status=valid" ref = true.
Proof.
  unfold artifact_problem. destruct (negb _ || _ || _) eqn:E1; [done|]. bools.
  case_bool_decide; [done|]. destruct (negb (bool_decide (revocation_status a = Some "fresh"))) eqn:E2; [done|].
  destruct (match artifact_expires_at a with None => true | Some e => dt_leb e (now ctx) end) eqn:E3; [done|].
  destruct (negb (bool_decide (freshness_status a = Some "fresh"))) eqn:E4; [done|]. intros _. bools.
  split_and!; [done|done| |].
  - destruct (artifact_expires_at a) as [e|]; [|done]. exists e. split; [done|]. unfold dt_leb in E3. by apply Z.leb_gt.
  - destruct (verifier_result_ref a) as [ref|]; [by exists ref|done].
Qed.

Lemma artifact_in_scope_true ctx a : artifact_in_scope a ctx = true →
  artifact_tenant_id a = Some (tenant_id ctx) ∧ artifact_merchant_id a = Some (merchant_id ctx) ∧
  artifact_seller_agent_id a = Some (seller_agent_id ctx) ∧
  (artifact_buyer_agent_id a = None ∨ artifact_buyer_agent_id a = buyer_agent_id ctx).
Proof.
  unfold artifact_in_scope. intros H. bools. split_and!; try done.
  match goal with H : _ || _ = true |- _ => apply orb_true_iff in H as [?|?] end; bools; auto.
Qed.

(** A family whose artifacts all have a problem is reported. *)
Lemma artifact_problem_known a ctx p : artifact_problem a ctx = Some p → p ∈ PROBLEM_ORDER.
Proof. unfold artifact_problem. intros H. repeat case_match; simplify_eq; apply (bool_decide_unpack _); reflexivity. Qed.

Lemma family_problem_None ctx f : family_problem ctx f = None → ∃ a, valid_artifact ctx f a.
Proof.
  unfold family_problem. set (cs := List.filter _ (artifacts ctx)). intros H.
  assert (Hin : None ∈ (λ a, artifact_problem a ctx) <$> cs).
  { destruct cs as [|a0 cs'] eqn:Ecs; [done|]. case_bool_decide as Hn; [done|].
    destruct (List.find _ PROBLEM_ORDER) eqn:Ef; [done|]. exfalso.
    destruct (artifact_problem a0 ctx) as [p|] eqn:Ep; [|apply Hn; cbn; rewrite Ep; left].
    pose proof (artifact_problem_known _ _ _ Ep) as Hp. apply list_elem_of_In in Hp.
    eapply find_none in Ef; [|exact Hp]. apply bool_decide_eq_false in Ef. apply Ef. cbn. rewrite Ep. left. }
  apply list_elem_of_fmap in Hin as (a & Ha & Hin). apply list_elem_of_In, filter_In in Hin as [Hin Hf]. bools.
  apply list_elem_of_In in Hin. symmetry in Ha. apply artifact_problem_None in Ha as (? & ? & ? & ?).
  match goal with H : artifact_in_scope _ _ = true |- _ => apply artifact_in_scope_true in H as (? & ? & ? & ?) end.
  exists a. unfold valid_artifact. by split_and!.
Qed.

Lemma artifact_rule_sound ctx act why : rule_oacp_artifacts_valid ctx act = (true, why) →
  ∃ required, REQUIRED_ARTIFACT_FAMILIES act = Some required ∧ Forall (λ f, ∃ a, valid_artifact ctx f a) required.
Proof.
  unfold rule_oacp_artifacts_valid. destruct (REQUIRED_ARTIFACT_FAMILIES act) as [required|]; [|done]. intros H.
  exists required. split; [done|].
  assert (H' : (foldr (λ f rest, match family_problem ctx f with Some w => (false, w) | None => rest end)
    (true, "oacp_artifacts_verified_fresh_unrevoked") required).1 = true) by (destruct required; [done|by rewrite H]).
  clear H. induction required as [|f fs IH]; cbn [foldr] in H'; [done|].
  destruct (family_problem ctx f) eqn:Ef; [done|]. constructor; [by apply family_problem_None|by apply IH].
Qed.

Lemma authority_rule_sound ctx why : rule_buyer_authority_verified ctx = (true, why) →
  (authority_verification_ref ctx = None ∨ authority_verification_ref ctx = Some EmptyString) ∧ require_verified_authority ctx = false ∨
  ∃ ref m jti h at_, authority_verification_ref ctx = Some ref ∧ parse_verification_ref ref = Some (jti, h, at_) ∧
    mandate ctx = Some m ∧ mandate_ref m = Some jti ∧ mandate_hash m = Some h.
Proof.
  unfold rule_buyer_authority_verified. destruct (authority_verification_ref ctx) as [ref|] eqn:Er; cbn [given].
  - destruct (String.eqb_spec ref EmptyString) as [-> | Hne]; cbn [negb].
    + destruct (require_verified_authority ctx); [done|]. intros _. left. auto.
    + cbn [default from_option id]. destruct (parse_verification_ref ref) as [[[jti h] at_]|] eqn:Ep; [|done].
      destruct (mandate ctx) as [m|] eqn:Em; [|done].
      destruct (bool_decide (mandate_ref m = Some jti) && bool_decide (mandate_hash m = Some h)) eqn:Eb; [|done]. intros _.
      bools. right. by exists ref, m, jti, h, at_.
  - destruct (require_verified_authority ctx); [done|]. intros _. left. auto.
Qed.

(** When a UPI AutoPay payment needs the buyer's second factor, its evidence is there. *)
Definition afa_satisfied (ctx : ArbiterContext) : Prop :=
  match afa ctx with
  | None => pays_by_upi ctx = false
  | Some e => given (evidence_ref e) = true ∨
      presence ctx ≠ Some PRESENCE_HUMAN_NOT_PRESENT ∧ debit_kind e = "subsequent" ∧
      ∃ a, afa_amount e = Some a ∧ upper (default EmptyString (afa_currency e)) = "INR" ∧
        a ≤ Z.max (limit_minor_units e) (higher_limit_minor_units e) ∧
        ((∀ p, purpose e = Some p → p ∉ HIGHER_LIMIT_PURPOSES) → a ≤ limit_minor_units e)
  end.

Lemma general_not_higher : "general" ∉ HIGHER_LIMIT_PURPOSES.
Proof. apply (bool_decide_unpack _). reflexivity. Qed.

Lemma afa_not_required e basis : afa_requirement e = (false, basis) →
  debit_kind e = "subsequent" ∧ ∃ a, afa_amount e = Some a ∧ upper (default EmptyString (afa_currency e)) = "INR" ∧
    a ≤ Z.max (limit_minor_units e) (higher_limit_minor_units e) ∧
    ((∀ p, purpose e = Some p → p ∉ HIGHER_LIMIT_PURPOSES) → a ≤ limit_minor_units e).
Proof.
  unfold afa_requirement. intros H. destruct (String.eqb (debit_kind e) "registration"); [done|].
  destruct (String.eqb (debit_kind e) "subsequent") eqn:E1; [|done]. cbn [negb] in H.
  destruct (afa_amount e) as [a|]; [|done].
  destruct (String.eqb (upper (default EmptyString (afa_currency e))) "INR") eqn:E2; [|done]. cbn [negb] in H.
  set (named := match purpose e with Some p => if String.eqb p EmptyString then "general" else p | None => "general" end) in H.
  destruct (bool_decide (named ∈ HIGHER_LIMIT_PURPOSES)) eqn:E3; destruct (_ <? a) eqn:E4 in H; try done; bools.
  - split; [done|]. exists a. split_and!; try done; [lia|]. intros Hp. exfalso. unfold named in *.
    destruct (purpose e) as [p|]; [|by apply general_not_higher].
    destruct (String.eqb p EmptyString); [by apply general_not_higher|by apply (Hp p)].
  - split; [done|]. exists a. split_and!; try done; lia.
Qed.

Lemma afa_rule_sound ctx why : rule_afa_evidence_present ctx = (true, why) → afa_satisfied ctx.
Proof.
  unfold rule_afa_evidence_present, afa_satisfied. destruct (afa ctx) as [e|]; [|by destruct (pays_by_upi ctx)].
  destruct (afa_requirement e) as [req basis] eqn:Er. intros H.
  destruct (negb req && negb (bool_decide (presence ctx = Some PRESENCE_HUMAN_NOT_PRESENT))) eqn:E1.
  - bools. subst. right. split; [done|]. by eapply afa_not_required.
  - left. by destruct (given (evidence_ref e)).
Qed.

Lemma refund_rule_sound ctx why : rule_refund_within_captured ctx = (true, why) →
  ∃ r a c, refund ctx = Some r ∧ amount_minor_units ctx = Some a ∧ currency ctx = Some c ∧ upper c = upper (refund_currency r) ∧
    1 ≤ a ∧ 1 ≤ captured_minor_units r ∧ refunded_minor_units r + a ≤ captured_minor_units r.
Proof.
  unfold rule_refund_within_captured. intros H. rule_cases H. unfold same_currency in *. bools.
  destruct (currency ctx) as [c|] eqn:Ec; [|done]. cbn in *. eexists _, _, c. by split_and!.
Qed.

Section decisions.
Context `{PayloadHash, PyStr}.

(** Every rule an action names exists. *)
Lemma rules_known act rules ctx : RULES_BY_ACTION act = Some rules → ∃ rs, mapM (rule_run ctx act) rules = Some rs.
Proof.
  intros Hr. apply mapM_is_Some_2.
  assert (Hall : Forall (λ n, ∀ c a, is_Some (rule_run c a n)) rules); [|by eapply Forall_impl; [exact Hall|]; auto].
  unfold RULES_BY_ACTION in Hr. apply assoc_elem_of in Hr.
  repeat (apply elem_of_cons in Hr as [Hr|Hr]; [injection Hr as _ ->; repeat (apply Forall_cons_2 || apply Forall_nil_2);
    intros c a; unfold rule_run; cbn; by destruct (_ : bool * string)|]). by apply not_elem_of_nil in Hr.
Qed.

Lemma mapM_names rules ctx act rs : mapM (rule_run ctx act) rules = Some rs →
  rule <$> rs = rules ∧ Forall (λ r, run_rule (rule r) ctx act = Some (passed r, reason r)) rs.
Proof.
  intros Hm. apply mapM_Some in Hm. induction Hm as [|n r names rs Hr _ [IH1 IH2]]; [done|].
  unfold rule_run in Hr. destruct (run_rule n ctx act) as [[ok why]|] eqn:En; [|done]. cbn in Hr. simplify_eq. cbn.
  split; [by f_equal|by constructor].
Qed.

Lemma find_first {A} (p : A → bool) l x : List.find p l = Some x →
  ∃ pre post, l = pre ++ x :: post ∧ p x = true ∧ Forall (λ y, p y = false) pre.
Proof.
  induction l as [|y l IH]; cbn; [done|]. destruct (p y) eqn:Ey.
  - intros [= ->]. by exists [], l.
  - intros (pre & post & -> & Hx & Hpre)%IH. exists (y :: pre), post. split_and!; [done|done|by constructor].
Qed.

Lemma find_nothing {A} (p : A → bool) l : List.find p l = None → Forall (λ y, p y = false) l.
Proof. intros Hf. apply Forall_forall. intros y Hy. eapply find_none in Hf; [done|]. by apply list_elem_of_In. Qed.

(** A decision is made of the rules of its action, in order. *)
Lemma decide_action_spec act ctx :
  ∃ d, decide_action act ctx = Some d ∧ action d = act ∧ payload_hash d = commerce_payload_hash (payload ctx) ∧
    decided_at d = now ctx ∧ instant (expires_at d) = instant (now ctx) + DECISION_TTL ∧
    match RULES_BY_ACTION act with
    | None => outcome d = "refuse" ∧ failing_rule d = Some "action_supported"
    | Some rules =>
        rules_evaluated d = rules ∧
        (outcome d = "allow" ∧ failing_rule d = None ∧
           Forall (λ n, ∃ why, run_rule n ctx act = Some (true, why)) rules ∨
         outcome d = "refuse" ∧ ∃ pre n post, rules = pre ++ n :: post ∧ failing_rule d = Some n ∧
           run_rule n ctx act = Some (false, decision_reason d) ∧
           Forall (λ n, ∃ why, run_rule n ctx act = Some (true, why)) pre)
    end.
Proof.
  unfold decide_action. destruct (RULES_BY_ACTION act) as [rules|] eqn:Er.
  2: { eexists. split; [reflexivity|].
       cbn [action payload_hash decided_at expires_at rules_evaluated outcome failing_rule decision_reason].
       rewrite instant_add. by split_and!. }
  destruct (rules_known act rules ctx Er) as [rs Hrs]. rewrite Hrs. cbn [fmap option_fmap option_map mbind option_bind].
  destruct (mapM_names _ _ _ _ Hrs) as [Hnames Hrun].
  eexists. split; [reflexivity|]. cbn [action payload_hash decided_at expires_at rules_evaluated outcome failing_rule decision_reason].
  rewrite instant_add. split_and!; try done.
  assert (Hpass : ∀ l, Forall (λ r, run_rule (rule r) ctx act = Some (passed r, reason r)) l →
    Forall (λ r, negb (passed r) = false) l → Forall (λ n, ∃ why, run_rule n ctx act = Some (true, why)) (rule <$> l)).
  { intros l Hl Hp. apply Forall_fmap. rewrite Forall_forall in *. intros r Hr. cbn. exists (reason r).
    rewrite (Hl r Hr). specialize (Hp r Hr). apply negb_false_iff in Hp. by rewrite Hp. }
  destruct (List.find (λ r, negb (passed r)) rs) as [r|] eqn:Ef; [right|left].
  - apply find_first in Ef as (pre & post & -> & Hr & Hpre). apply Forall_app in Hrun as [Hrun1 Hrun2].
    inversion Hrun2 as [|?? Hrr _]; subst. split; [done|]. exists (rule <$> pre), (rule r), (rule <$> post).
    rewrite fmap_app. cbn [fmap list_fmap option_fmap option_map]. split_and!; [done|done| |by apply Hpass].
    apply negb_true_iff in Hr. by rewrite Hrr, Hr.
  - apply find_nothing in Ef. split_and!; [done|done|]. rewrite <- Hnames. by apply Hpass.
Qed.

(** A decision is always made, it is [allow] or [refuse], and it is valid for ten
    minutes. It is [allow] exactly when the action is known and every one of its rules
    passes; a refusal names the first rule, in the fixed order, that does not pass, with
    the reason that rule gave. *)
Theorem decision_names_first_failing_rule act ctx :
  ∃ d, decide_action act ctx = Some d ∧ action d = act ∧ payload_hash d = commerce_payload_hash (payload ctx) ∧
    decided_at d = now ctx ∧ instant (expires_at d) = instant (now ctx) + DECISION_TTL ∧
    match RULES_BY_ACTION act with
    | None => outcome d = "refuse" ∧ failing_rule d = Some "action_supported"
    | Some rules =>
        rules_evaluated d = rules ∧
        (outcome d = "allow" ∧ failing_rule d = None ∧
           Forall (λ n, ∃ why, run_rule n ctx act = Some (true, why)) rules ∨
         outcome d = "refuse" ∧ ∃ pre n post, rules = pre ++ n :: post ∧ failing_rule d = Some n ∧
           run_rule n ctx act = Some (false, decision_reason d) ∧
           Forall (λ n, ∃ why, run_rule n ctx act = Some (true, why)) pre)
    end.
Proof. apply decide_action_spec. Qed.

(** What the arbiter promises of an allowed purchase. *)
Record purchase_authorised (ctx : ArbiterContext) (act : string) : Prop := {
  auth_mandate : ∃ m e, mandate ctx = Some m ∧ given (mandate_ref m) = true ∧ given (mandate_hash m) = true ∧
    mandate_expires_at m = Some e ∧ instant (now ctx) < instant e;
  auth_consent : ∃ c s, consent ctx = Some c ∧ given (consent_ref c) = true ∧ consent_status c = Some s ∧
    lower (strip s) ∈ ACTIVE_CONSENT_STATUSES;
  auth_passport : ∃ p cap pc e a c, passport ctx = Some p ∧ given (passport_ref p) = true ∧ passport_max_amount p = Some cap ∧
    passport_currency p = Some pc ∧ passport_expires_at p = Some e ∧ instant (now ctx) < instant e ∧
    amount_minor_units ctx = Some a ∧ currency ctx = Some c ∧ upper pc = upper c ∧ a ≤ cap;
  auth_authority :
    (authority_verification_ref ctx = None ∨ authority_verification_ref ctx = Some EmptyString) ∧ require_verified_authority ctx = false ∨
    ∃ ref m jti h at_, authority_verification_ref ctx = Some ref ∧ parse_verification_ref ref = Some (jti, h, at_) ∧
      mandate ctx = Some m ∧ mandate_ref m = Some jti ∧ mandate_hash m = Some h;
  auth_artifacts : Forall (λ f, ∃ a, valid_artifact ctx f a) COMMITMENT_FAMILIES;
  auth_limits : within_merchant_limits ctx;
  auth_presence : presence ctx = None ∨ presence ctx = Some PRESENCE_HUMAN_PRESENT ∨
    presence ctx = Some PRESENCE_HUMAN_NOT_PRESENT ∧ within_not_present_limits ctx;
  auth_afa : act = "session_complete" → afa_satisfied ctx;
}.

(** C9. An allowed purchase, POS purchase or checkout completion has an unexpired mandate,
    an active consent, a passport in the order currency whose cap covers the order,
    authority the server verified for that very mandate (unless the deployment accepts
    asserted authority), a verified, fresh and unrevoked artifact of every required family
    in scope, and an order within the merchant's per-order, quantity, currency and daily
    limits; without a person present it is also within the stricter limits and the intent
    cap, and a UPI AutoPay completion has the second factor the rules of the central bank
    ask for. *)
Theorem allowed_purchase_is_authorised act ctx d :
  act ∈ ["purchase_handoff"; "pos_handoff"; "session_complete"] →
  decide_action act ctx = Some d → outcome d = "allow" → purchase_authorised ctx act.
Proof.
  intros Ha Hd Ho. destruct (decide_action_spec act ctx) as (d' & Hd' & _ & _ & _ & _ & Hr). simplify_eq.
  assert (Hrules : ∃ rest, RULES_BY_ACTION act = Some (RULE_ORDER ++ rest) ∧ (act = "session_complete" → rest = [RULE_AFA]) ∧
    REQUIRED_ARTIFACT_FAMILIES act = Some COMMITMENT_FAMILIES).
  { repeat (apply elem_of_cons in Ha as [-> | Ha]); [by exists []..|by exists [RULE_AFA]|by apply not_elem_of_nil in Ha]. }
  destruct Hrules as (rest & Hrules & Hafa & Hfam). rewrite Hrules in Hr. destruct Hr as [_ [(_ & _ & Hall)|(E & _)]]; [|congruence].
  apply Forall_app in Hall as [Hall Hrest]. unfold RULE_ORDER in Hall.
  repeat (apply Forall_cons in Hall as [(? & ?) Hall]). revert Hfam. cbn in * |-. simplify_eq. intros Hfam.
  split; eauto using mandate_rule_sound, consent_rule_sound, passport_rule_sound, authority_rule_sound, merchant_rule_sound,
    not_present_rule_sound.
  - match goal with H : rule_oacp_artifacts_valid _ _ = _ |- _ => apply artifact_rule_sound in H as (req & Hreq & Hf) end.
    rewrite Hfam in Hreq. by injection Hreq as <-.
  - intros Hs. rewrite (Hafa Hs) in Hrest. apply Forall_cons in Hrest as [(why & Hw) _]. cbn in Hw. simplify_eq.
    by eapply afa_rule_sound.
Qed.
End decisions.

(** * Examples *)

#[global] Instance example_payload_hash : PayloadHash := λ _, of_chars (repeat "a"%char 64).
#[global] Instance example_py_str : PyStr := {| py_str v := match v with VStr s => s | _ => "?" end; py_str_VStr := λ s, eq_refl |}.

Definition example_time (us : Z) : datetime := {| wall := us; utcoffset := Some 0 |}.

Definition example_artifact (f : string) : ArtifactEvidence :=
  {| artifact_id := f; family := f; artifact_tenant_id := Some "t"; artifact_merchant_id := Some "m";
     artifact_seller_agent_id := Some "s"; artifact_buyer_agent_id := None;
     verifier_result_ref := Some "oacp-artifact-jws-v1;kid=oacp-1;status=valid"; artifact_expires_at := Some (example_time 10);
     freshness_status := Some "fresh"; revocation_status := Some "fresh" |}.

Definition example_context : ArbiterContext :=
  {| tenant_id := "t"; merchant_id := "m"; seller_agent_id := "s"; buyer_agent_id := None; now := example_time 5;
     payload := VMap []; amount_minor_units := Some 900; currency := Some "INR"; quantity := Some 1;
     mandate := Some {| mandate_ref := Some "j"; mandate_hash := Some "h"; mandate_expires_at := Some (example_time 6) |};
     consent := Some {| consent_ref := Some "c"; consent_status := Some " Active " |};
     passport := Some {| passport_ref := Some "p"; passport_max_amount := Some 1000; passport_currency := Some "inr";
                         passport_expires_at := Some (example_time 7) |};
     artifacts := example_artifact <$> COMMITMENT_FAMILIES;
     merchant_limits := Some {| max_order_amount := Some 900; currency_allowlist := ["INR"]; max_quantity_per_order := Some 1;
        not_present_max_order_amount := None; not_present_max_quantity_per_order := None; escalate_to_human := false;
        review_agent_id := None; max_daily_amount := Some 1000 |};
     authority_verification_ref := None; require_verified_authority := false; afa := None; refund := None;
     mandate_hashes_in := []; mandate_jtis_in := []; presence := None; intent_max_amount := None; intent_currency := None;
     daily_committed_amount := Some 100 |}.

Lemma allowed_purchase_is_authorised_witness : purchase_authorised example_context "session_complete".
Proof.
  destruct (decide_action "session_complete" example_context) as [d|] eqn:Hd.
  - refine (allowed_purchase_is_authorised "session_complete" example_context d _ Hd _).
    + right. right. left.
    + enough (E : outcome <$> decide_action "session_complete" example_context = Some "allow")
        by (rewrite Hd in E; injection E as E; exact E). vm_compute. reflexivity.
  - exfalso. enough (E : bool_decide (is_Some (decide_action "session_complete" example_context)) = true)
      by (rewrite Hd in E; discriminate E). vm_compute. reflexivity.
Defined.
