(* ===== verification/ArbiterStore.v ===== *)
(** Arbiter decisions on disk: src/core/commerce/arbiter_store.py, with the attachment of
    the Grantex grant (src/core/commerce/arbiter_grantex.py) and the proof of consumption
    executors ask for (src/core/commerce/executors/__init__.py).

    The table maps decision ids (its primary key) to rows. Each statement is atomic: an
    UPDATE evaluates its WHERE clause on the row as it is when it changes it. The read
    that explains a refusal is a later statement and may see a later table. *)

From Stdlib Require Import Ascii.
From S2P Require Import Prelude PyVal PyText Digest Arbiter.

Local Open Scope Z_scope.

Record DecisionRow := {
  row_tenant_id : string;
  row_merchant_id : string;
  row_seller_agent_id : string;
  row_buyer_agent_id : option string;
  row_action : string;
  row_payload_hash : string;
  row_outcome : string;
  row_evidence : list (string * pyval);
  row_expires_at : datetime;
  consumed_at : option datetime;
  grantex_grant_jti : option string;
}.

Abbreviation table := (gmap string DecisionRow).

(** ** Persisting *)

Definition row_of (d : Decision) : DecisionRow :=
  {| row_tenant_id := decision_tenant_id d; row_merchant_id := decision_merchant_id d;
     row_seller_agent_id := decision_seller_agent_id d; row_buyer_agent_id := decision_buyer_agent_id d;
     row_action := action d; row_payload_hash := payload_hash d; row_outcome := outcome d;
     row_evidence := evidence d ++ extra d; row_expires_at := expires_at d; consumed_at := None; grantex_grant_jti := None |}.

(** INSERT ... ON CONFLICT (decision_id) DO NOTHING *)
Definition persist_decision (tb : table) (d : Decision) : table :=
  match tb !! decision_id d with Some _ => tb | None => <[decision_id d := row_of d]> tb end.

Definition with_grant (r : DecisionRow) (jti : string) : DecisionRow :=
  {| row_tenant_id := row_tenant_id r; row_merchant_id := row_merchant_id r; row_seller_agent_id := row_seller_agent_id r;
     row_buyer_agent_id := row_buyer_agent_id r; row_action := row_action r; row_payload_hash := row_payload_hash r;
     row_outcome := row_outcome r; row_evidence := row_evidence r; row_expires_at := row_expires_at r;
     consumed_at := consumed_at r; grantex_grant_jti := Some jti |}.

Definition attach_grant (tb : table) (tenant id jti : string) : table * bool :=
  match tb !! id with
  | Some r =>
      if String.eqb (row_tenant_id r) tenant && String.eqb (row_outcome r) "allow" && bool_decide (grantex_grant_jti r = None)
      then (<[id := with_grant r (of_chars (take 255 (chars jti)))]> tb, true) else (tb, false)
  | None => (tb, false)
  end.

(** ** Consuming *)

Definition with_consumed (r : DecisionRow) (moment : datetime) : DecisionRow :=
  {| row_tenant_id := row_tenant_id r; row_merchant_id := row_merchant_id r; row_seller_agent_id := row_seller_agent_id r;
     row_buyer_agent_id := row_buyer_agent_id r; row_action := row_action r; row_payload_hash := row_payload_hash r;
     row_outcome := row_outcome r; row_evidence := row_evidence r; row_expires_at := row_expires_at r;
     consumed_at := Some moment; grantex_grant_jti := grantex_grant_jti r |}.

(** The WHERE clause of the consuming UPDATE, past the primary key. *)
Definition consumable (r : DecisionRow) (tenant act hash : string) (moment : datetime) (grant_required : bool) : bool :=
  String.eqb (row_tenant_id r) tenant && String.eqb (row_action r) act && String.eqb (row_payload_hash r) hash &&
  String.eqb (row_outcome r) "allow" && bool_decide (consumed_at r = None) && dt_ltb moment (row_expires_at r) &&
  (negb grant_required || bool_decide (is_Some (grantex_grant_jti r))).

Definition get_decision (tb : table) (tenant id : string) : option DecisionRow :=
  r ← tb !! id; if String.eqb (row_tenant_id r) tenant then Some r else None.

Definition refusal_for (row : option DecisionRow) (act hash : string) (moment : datetime) (grant_required : bool) : string :=
  match row with
  | None => "decision_not_found"
  | Some r =>
      if negb (String.eqb (row_outcome r) "allow") then "decision_not_allow"
      else if negb (String.eqb (row_action r) act) then "decision_action_mismatch"
      else if negb (String.eqb (row_payload_hash r) hash) then "decision_payload_mismatch"
      else if bool_decide (is_Some (consumed_at r)) then "decision_consumed"
      else if dt_leb (row_expires_at r) moment then "decision_expired"
      else if grant_required && bool_decide (grantex_grant_jti r = None) then "grantex_grant_missing"
      else "decision_consumed"
  end.

(** [tb_read] is the table the explaining read sees. The error is the refusal code. *)
Definition require_allow_decision (tb tb_read : table) (tenant : string) (id : option string) (hash act : string)
    (moment : datetime) (grant_required : bool) : table * result string DecisionRow :=
  match id with
  | None => (tb, Err "decision_id_missing")
  | Some i =>
      if String.eqb i EmptyString then (tb, Err "decision_id_missing")
      else match tb !! i with
      | Some r =>
          if consumable r tenant act hash moment grant_required then (<[i := with_consumed r moment]> tb, Ok r)
          else (tb, Err (refusal_for (get_decision tb_read tenant i) act hash moment grant_required))
      | None => (tb, Err (refusal_for (get_decision tb_read tenant i) act hash moment grant_required))
      end
  end.

(** The proof of consumption an executor asks for. *)
Record ConsumedDecision := {
  consumed_id : string;
  consumed_payload_hash : string;
  consumed_tenant_id : string;
  consumed_merchant_id : string;
  consumed_seller_agent_id : string;
  consumed_action : string;
  consumed_mandate_hashes : list (string * pyval);
}.

(** The error is the refusal code, or [ValueError] for another action. *)
Definition consume_decision (tb tb_read : table) (tenant merchant seller : string) (id : option string) (hash act : string)
    (moment : datetime) (grant_required : bool) : table * result string ConsumedDecision :=
  if bool_decide (act ∈ ["session_complete"; "refund"]) then
    match require_allow_decision tb tb_read tenant id hash act moment grant_required with
    | (tb', Ok r) =>
        (tb', Ok {| consumed_id := default EmptyString id; consumed_payload_hash := hash; consumed_tenant_id := tenant;
                    consumed_merchant_id := merchant; consumed_seller_agent_id := seller; consumed_action := act;
                    consumed_mandate_hashes :=
                      match assoc "mandate_hashes" (row_evidence r) with Some (VMap kvs) => kvs | _ => [] end |})
    | (tb', Err e) => (tb', Err e)
    end
  else (tb, Err "ValueError").

(** * The life of decisions

    Any number of requests decide and persist, attach grants and try to consume, in any
    order and at any times; [uses] is the list of consumptions that succeeded. *)

Record use := { use_id : string; use_tenant : string; use_action : string; use_hash : string; use_at : datetime }.

Record store := { decisions : table; uses : list use }.

Section life.
Context `{PayloadHash, PyStr}.

Inductive store_step : store → store → Prop :=
| step_decide s act ctx d :
    decide_action act ctx = Some d →
    store_step s {| decisions := persist_decision (decisions s) d; uses := uses s |}
| step_grant s tenant id jti :
    store_step s {| decisions := fst (attach_grant (decisions s) tenant id jti); uses := uses s |}
| step_refused s tb_read tenant id hash act moment grant code :
    require_allow_decision (decisions s) tb_read tenant id hash act moment grant = (decisions s, Err code) →
    store_step s s
| step_consume s tb_read tenant id hash act moment grant tb' r :
    require_allow_decision (decisions s) tb_read tenant (Some id) hash act moment grant = (tb', Ok r) →
    store_step s {| decisions := tb';
                    uses := {| use_id := id; use_tenant := tenant; use_action := act; use_hash := hash; use_at := moment |} :: uses s |}.

Definition store_init : store := {| decisions := ∅; uses := [] |}.

(** A row is what the arbiter decided, with the consumption and grant filled in later. *)
Definition decided (id : string) (r : DecisionRow) : Prop :=
  ∃ act ctx d, decide_action act ctx = Some d ∧ decision_id d = id ∧ row_tenant_id r = tenant_id ctx ∧ row_action r = act ∧
    row_payload_hash r = commerce_payload_hash (payload ctx) ∧ row_outcome r = outcome d ∧ row_expires_at r = expires_at d.

(** What the consumption [u] was allowed by. *)
Definition justified (u : use) : Prop :=
  ∃ ctx d, decide_action (use_action u) ctx = Some d ∧ decision_id d = use_id u ∧ outcome d = "allow" ∧
    tenant_id ctx = use_tenant u ∧ commerce_payload_hash (payload ctx) = use_hash u ∧
    instant (use_at u) < instant (now ctx) + DECISION_TTL.

Record store_inv (s : store) : Prop := {
  si_rows : ∀ id r, decisions s !! id = Some r → decided id r;
  si_uses : Forall justified (uses s);
  si_unique : NoDup (use_id <$> uses s);
  si_consumed : ∀ u, u ∈ uses s → ∃ r, decisions s !! use_id u = Some r ∧ is_Some (consumed_at r);
}.

Lemma require_ok tb tb_read tenant id hash act moment grant tb' r :
  require_allow_decision tb tb_read tenant (Some id) hash act moment grant = (tb', Ok r) →
  tb !! id = Some r ∧ consumable r tenant act hash moment grant = true ∧ tb' = <[id := with_consumed r moment]> tb.
Proof.
  unfold require_allow_decision. destruct (String.eqb id EmptyString); [done|]. destruct (tb !! id) as [r'|] eqn:E; [|done].
  destruct (consumable r' tenant act hash moment grant) eqn:Ec; [|done]. intros [= <- <-]. done.
Qed.

Lemma consumable_facts r tenant act hash moment grant : consumable r tenant act hash moment grant = true →
  row_tenant_id r = tenant ∧ row_action r = act ∧ row_payload_hash r = hash ∧ row_outcome r = "allow" ∧
  consumed_at r = None ∧ instant moment < instant (row_expires_at r) ∧ (grant = true → is_Some (grantex_grant_jti r)).
Proof.
  unfold consumable, dt_ltb. intros E. apply andb_true_iff in E as [E E7]. apply andb_true_iff in E as [E E6%Z.ltb_lt].
  apply andb_true_iff in E as [E E5%bool_decide_eq_true]. apply andb_true_iff in E as [E E4%String.eqb_eq].
  apply andb_true_iff in E as [E E3%String.eqb_eq]. apply andb_true_iff in E as [E1%String.eqb_eq E2%String.eqb_eq].
  split_and!; try done. intros ->. cbn in E7. by apply bool_decide_eq_true in E7.
Qed.

Lemma decide_fields act ctx d : decide_action act ctx = Some d →
  decision_tenant_id d = tenant_id ctx ∧ action d = act ∧ payload_hash d = commerce_payload_hash (payload ctx) ∧
  expires_at d = dt_add (now ctx) DECISION_TTL.
Proof.
  unfold decide_action. intros E. apply bind_Some in E as ([rs names] & _ & E). by injection E as <-.
Qed.

Lemma persist_inv s d act ctx : store_inv s → decide_action act ctx = Some d →
  store_inv {| decisions := persist_decision (decisions s) d; uses := uses s |}.
Proof.
  intros [Hr Hu Hn Hc] Hd. unfold persist_decision. destruct (decisions s !! decision_id d) as [r0|] eqn:E; [by split|].
  split; cbn [decisions uses]; try done.
  - intros id r Hid. destruct (decide_rel eq id (decision_id d)) as [->|Hne].
    + rewrite lookup_insert_eq in Hid. injection Hid as <-. destruct (decide_fields _ _ _ Hd) as (H1 & H2 & H3 & H4).
      exists act, ctx, d. by split_and!.
    + rewrite lookup_insert_ne in Hid by done. by apply Hr.
  - intros u Hin. destruct (Hc u Hin) as (r & Hl & Hs). exists r. split; [|done].
    rewrite lookup_insert_ne; [done|]. congruence.
Qed.

Lemma grant_inv s tenant id jti : store_inv s →
  store_inv {| decisions := fst (attach_grant (decisions s) tenant id jti); uses := uses s |}.
Proof.
  intros [Hr Hu Hn Hc]. unfold attach_grant. destruct (decisions s !! id) as [r0|] eqn:E; [|by split].
  destruct (_ && _ && _); [|by split]. split; cbn [decisions uses fst]; try done.
  - intros id' r Hid. destruct (decide_rel eq id' id) as [->|Hne].
    + rewrite lookup_insert_eq in Hid. injection Hid as <-. exact (Hr _ _ E).
    + rewrite lookup_insert_ne in Hid by done. by apply Hr.
  - intros u Hin. destruct (Hc u Hin) as (r & Hl & Hs). destruct (decide_rel eq (use_id u) id) as [Eu|Hne].
    + rewrite Eu in *. rewrite lookup_insert_eq. eexists. split; [done|]. simplify_eq. done.
    + rewrite lookup_insert_ne by done. by exists r.
Qed.

Lemma consume_inv s tb_read tenant id hash act moment grant tb' r : store_inv s →
  require_allow_decision (decisions s) tb_read tenant (Some id) hash act moment grant = (tb', Ok r) →
  store_inv {| decisions := tb';
    uses := {| use_id := id; use_tenant := tenant; use_action := act; use_hash := hash; use_at := moment |} :: uses s |}.
Proof.
  intros [Hr Hu Hn Hc] (El & Ec & ->)%require_ok. apply consumable_facts in Ec as (E1 & E2 & E3 & E4 & E5 & E6 & _).
  destruct (Hr _ _ El) as (act' & ctx & d & Hd & Hid & Ht & Ha & Hh & Ho & He). subst.
  split; cbn [decisions uses].
  - intros id' r' Hid'. destruct (decide_rel eq id' (decision_id d)) as [->|Hne].
    + rewrite lookup_insert_eq in Hid'. injection Hid' as <-. exact (Hr _ _ El).
    + rewrite lookup_insert_ne in Hid' by done. by apply Hr.
  - constructor; [|done]. destruct (decide_fields _ _ _ Hd) as (_ & _ & _ & Hx). exists ctx, d. cbn.
    rewrite He, Hx, instant_add in E6. split_and!; congruence || done.
  - cbn. apply NoDup_cons. split; [|done]. intros Hin. apply list_elem_of_fmap in Hin as (u & Eu & Hin).
    destruct (Hc u Hin) as (r' & Hl' & [m Hm]). rewrite <- Eu in Hl'. congruence.
  - intros u Hin. apply elem_of_cons in Hin as [-> | Hin]; cbn.
    + rewrite lookup_insert_eq. by eexists.
    + destruct (Hc u Hin) as (r' & Hl' & Hs). rewrite lookup_insert_ne; [by exists r'|]. intros Eu. rewrite <- Eu in Hl'.
      destruct Hs as [m Hm]. congruence.
Qed.

Lemma store_reachable s : rtc store_step store_init s → store_inv s.
Proof.
  apply rtc_ind_r.
  - split; cbn; try done; [by constructor|]. intros u Hin. by apply not_elem_of_nil in Hin.
  - intros s1 s2 _ Hs Hinv. destruct Hs; eauto using persist_inv, grant_inv, consume_inv.
Qed.

(** C8. Whatever is decided, persisted, countersigned and presented, in any order and by any
    number of executors, every consumption that succeeds is justified by an [allow] the
    arbiter made for that tenant, that action and that very payload less than ten minutes
    before its expiry, and no decision is ever consumed twice. *)
Theorem decisions_are_consumed_once s : rtc store_step store_init s →
  Forall justified (uses s) ∧ NoDup (use_id <$> uses s).
Proof. intros Hs%store_reachable. split; [apply (si_uses _ Hs)|apply (si_unique _ Hs)]. Qed.

(** C40. The code of a refusal is exact. It names the first of the documented conditions that does not hold of
    the decision as the read that explains the refusal sees it ([tb_read], a statement after the consuming one
    that other transactions may have come before), and the table is left as it was. Only when that read sees a
    decision that could be consumed, though the consuming statement found none, is the code the last one,
    [decision_consumed]; this does not happen when the decision did not change in between. *)
Theorem refusal_code_is_exact tb tb_read tenant id hash act moment grant tb' code :
  require_allow_decision tb tb_read tenant (Some id) hash act moment grant = (tb', Err code) →
  tb' = tb ∧
  (code = "decision_id_missing" ∧ id = EmptyString ∨
   code = "decision_not_found" ∧ get_decision tb_read tenant id = None ∨
   ∃ r, get_decision tb_read tenant id = Some r ∧
     (code = "decision_not_allow" ∧ row_outcome r ≠ "allow" ∨
      row_outcome r = "allow" ∧
      (code = "decision_action_mismatch" ∧ row_action r ≠ act ∨
       row_action r = act ∧
       (code = "decision_payload_mismatch" ∧ row_payload_hash r ≠ hash ∨
        row_payload_hash r = hash ∧
        (code = "decision_consumed" ∧ is_Some (consumed_at r) ∨
         consumed_at r = None ∧
         (code = "decision_expired" ∧ instant (row_expires_at r) ≤ instant moment ∨
          instant moment < instant (row_expires_at r) ∧
          (code = "grantex_grant_missing" ∧ grant = true ∧ grantex_grant_jti r = None ∨
           code = "decision_consumed" ∧ (grant = true → is_Some (grantex_grant_jti r)) ∧ get_decision tb tenant id ≠ Some r))))))).
Proof.
  unfold require_allow_decision. destruct (String.eqb_spec id EmptyString) as [-> | Hid]; [intros [= <- <-]; auto|].
  intros E. assert (Hcode : tb' = tb ∧ code = refusal_for (get_decision tb_read tenant id) act hash moment grant ∧
    ∀ r, get_decision tb tenant id = Some r → consumable r tenant act hash moment grant = false).
  { unfold get_decision at 2. destruct (tb !! id) as [r|]; cbn; [destruct (consumable r tenant act hash moment grant) eqn:Ec|]; simplify_eq;
      split_and!; try done. intros r' Hr'. destruct (String.eqb (row_tenant_id r) tenant); by simplify_eq. }
  destruct Hcode as (-> & -> & Hno). split; [done|]. right.
  destruct (get_decision tb_read tenant id) as [r|] eqn:Eg; [right|by left]. exists r. split; [done|]. cbn [refusal_for].
  assert (row_tenant_id r = tenant) as Et.
  { unfold get_decision in Eg. apply bind_Some in Eg as (r' & _ & E'). destruct (String.eqb_spec (row_tenant_id r') tenant); [|done]. by simplify_eq. }
  destruct (String.eqb_spec (row_outcome r) "allow") as [Ho|]; cbn [negb]; [right; split; [done|]|by left].
  destruct (String.eqb_spec (row_action r) act) as [Ha|]; cbn [negb]; [right; split; [done|]|by left].
  destruct (String.eqb_spec (row_payload_hash r) hash) as [Hh|]; cbn [negb]; [right; split; [done|]|by left].
  case_bool_decide as Hc; [by left|right]. assert (consumed_at r = None) as Hn by (destruct (consumed_at r); [destruct Hc; by eexists|done]). split; [done|].
  unfold dt_leb. destruct (Z.leb_spec (instant (row_expires_at r)) (instant moment)) as [Hle|Hlt]; [by left|right]. split; [done|].
  destruct (grant && bool_decide (grantex_grant_jti r = None)) eqn:Eb; [left; by apply andb_true_iff in Eb as [-> ?%bool_decide_eq_true]|right].
  assert (grant = true → is_Some (grantex_grant_jti r)) as Hg.
  { intros ->. cbn in Eb. apply bool_decide_eq_false in Eb. destruct (grantex_grant_jti r); [by eexists|done]. }
  split_and!; [done|done|]. intros Hsame. specialize (Hno r Hsame). unfold consumable in Hno.
  rewrite Et, Ha, Hh, Ho, Hn, !String.eqb_refl in Hno. unfold dt_ltb in Hno. rewrite (proj2 (Z.ltb_lt _ _) Hlt) in Hno.
  rewrite bool_decide_eq_true_2 in Hno by done. destruct grant; [|done]. cbn in Hno. by rewrite bool_decide_eq_true_2 in Hno by (by apply Hg).
Qed.
End life.

(** * Examples *)

Definition example_uses : list use :=
  [{| use_id := "arbdec_" +:+ of_chars (repeat "a"%char 40); use_tenant := "t"; use_action := "session_complete";
      use_hash := of_chars (repeat "a"%char 64); use_at := example_time 9 |}].

Definition example_table : table :=
  match decide_action "session_complete" example_context with Some d => persist_decision ∅ d | None => ∅ end.

Definition example_consume : table * result string DecisionRow :=
  require_allow_decision example_table example_table "t" (Some ("arbdec_" +:+ of_chars (repeat "a"%char 40)))
    (of_chars (repeat "a"%char 64)) "session_complete" (example_time 9) false.

Lemma decisions_are_consumed_once_witness :
  ∃ s, rtc store_step store_init s ∧ uses s = example_uses ∧ Forall justified (uses s) ∧ NoDup (use_id <$> uses s).
Proof.
  assert (Hok : is_ok (snd example_consume) = true) by (vm_compute; reflexivity).
  assert (Hsome : bool_decide (is_Some (decide_action "session_complete" example_context)) = true) by (vm_compute; reflexivity).
  destruct (decide_action "session_complete" example_context) as [d|] eqn:Hd; [|discriminate Hsome].
  destruct example_consume as [tb' [r|e]] eqn:Hc; [|discriminate Hok].
  pose (s := {| decisions := tb'; uses := example_uses |}). exists s.
  assert (Hs : rtc store_step store_init s).
  { eapply rtc_l; [exact (step_decide store_init "session_complete" example_context d Hd)|].
    apply rtc_once. refine (step_consume {| decisions := persist_decision ∅ d; uses := [] |} example_table "t" _ _
      "session_complete" (example_time 9) false tb' r _). cbn [decisions].
    replace (persist_decision ∅ d) with example_table by (unfold example_table; by rewrite Hd). exact Hc. }
  split; [exact Hs|]. split; [reflexivity|]. exact (decisions_are_consumed_once s Hs).
Defined.

Lemma refusal_code_is_exact_witness :
  require_allow_decision ∅ ∅ "t" (Some "x") "h" "refund" (example_time 9) false = (∅, Err "decision_not_found") ∧
  get_decision ∅ "t" "x" = None.
Proof.
  assert (E : require_allow_decision ∅ ∅ "t" (Some "x") "h" "refund" (example_time 9) false = (∅, Err "decision_not_found"))
    by reflexivity.
  split; [exact E|]. destruct (refusal_code_is_exact ∅ ∅ "t" "x" "h" "refund" (example_time 9) false ∅ _ E)
    as [_ [[Hc _]|[[_ Hg]|(r & Hr & _)]]]; [discriminate Hc|exact Hg|discriminate Hr].
Defined.

(** A decision whose grant is attached between the two statements is refused as consumed, though it was not. *)
Theorem unconsumed_decision_reported_consumed :
  let id := "arbdec_" +:+ of_chars (repeat "a"%char 40) in
  let granted := fst (attach_grant example_table "t" id "jti") in
  snd (require_allow_decision example_table granted "t" (Some id) (of_chars (repeat "a"%char 64)) "session_complete" (example_time 9) true) = Err "decision_consumed" ∧
  snd (require_allow_decision example_table example_table "t" (Some id) (of_chars (repeat "a"%char 64)) "session_complete" (example_time 9) true) = Err "grantex_grant_missing" ∧
  (consumed_at <$> granted !! id) = Some None.
Proof. split_and!; vm_compute; reflexivity. Qed.
