(* ===== verification/PaymentJournal.v ===== *)
(** The journal of provider calls: src/core/commerce/payment_records.py over the table
    commerce_payment_operations (src/core/models/commerce_payments.py).

    The database is the list of journal rows in the order they were inserted, the commerce
    ledger events, the orders and the sellers of checkout sessions. A transaction takes the
    clock and the database and returns the new database with its value, or the error it
    raises (and then changes nothing). Tenant ids are canonical UUID texts; the widths of the
    text columns are left out. *)

From S2P Require Import Prelude PyVal PyText Digest.

Local Open Scope Z_scope.

Definition PROVIDER_PLURAL : string := "plural_pine".

(** [PAYMENT_OPERATIONS] *)
Inductive operation := Create_order | Create_payment | Capture | Refund.

(** [PAYMENT_PHASES] *)
Inductive phase := Requested | Succeeded | Failed | Unknown.

#[global] Instance operation_eq_dec : EqDecision operation.
Proof. solve_decision. Defined.
#[global] Instance phase_eq_dec : EqDecision phase.
Proof. solve_decision. Defined.

#[global] Instance operation_countable : Countable operation.
Proof.
  apply (inj_countable' (λ o, match o with Create_order => 0 | Create_payment => 1 | Capture => 2 | Refund => 3 end)%nat
           (λ n, match n with 0 => Create_order | 1 => Create_payment | 2 => Capture | _ => Refund end)%nat).
  by intros [].
Defined.
#[global] Instance phase_countable : Countable phase.
Proof.
  apply (inj_countable' (λ p, match p with Requested => 0 | Succeeded => 1 | Failed => 2 | Unknown => 3 end)%nat
           (λ n, match n with 0 => Requested | 1 => Succeeded | 2 => Failed | _ => Unknown end)%nat).
  by intros [].
Defined.

Definition operation_name (o : operation) : string :=
  match o with
  | Create_order => "create_order" | Create_payment => "create_payment" | Capture => "capture" | Refund => "refund"
  end.

Definition phase_name (p : phase) : string :=
  match p with Requested => "requested" | Succeeded => "succeeded" | Failed => "failed" | Unknown => "unknown" end.

(** * Records and tables *)

Record OperationRecord := {
  op_tenant_id : string;
  op_merchant_id : string;
  op_seller_agent_id : string;
  op_checkout_session_id : string;
  op_decision_id : string;
  op_operation : operation;
  op_idempotency_key : string;
  op_amount_minor_units : option Z;
  op_currency : option string;
  op_order_id : option string;
  op_provider : string;
  op_mandate_hashes : list (string * pyval);
}.

Record Row := {
  r_tenant_id : string;
  r_merchant_id : string;
  r_checkout_session_id : string;
  r_order_id : option string;
  r_decision_id : string;
  r_provider : string;
  r_operation : operation;
  r_phase : phase;
  r_idempotency_key : string;
  r_provider_ref : option string;
  r_amount_minor_units : option Z;
  r_currency : option string;
  r_mandate_hashes : list (string * pyval);
  r_details : list (string * pyval);
  r_created_at : Z;
}.

(** What [record_commerce_event] is given. *)
Record LedgerEvent := {
  ev_tenant_id : string;
  ev_event : string;
  ev_outcome : string;
  ev_merchant_id : string;
  ev_seller_agent_id : option string;
  ev_payload : list (string * pyval);
  ev_resource_id : string;
  ev_details : list (string * pyval);
}.

(** The columns of commerce_orders the refunds read. *)
Record OrderRow := {
  o_merchant_id : string;
  o_seller_agent_id : string;
  o_checkout_session_id : string;
  o_executor : string;
  o_provider_order_ref : option string;
  o_currency : string;
  o_total_minor_units : Z;
  o_snapshot : pyval;
}.

Record db := {
  rows : list Row;
  ledger : list LedgerEvent;
  orders : gmap (string * string) OrderRow;
  sellers : gmap (string * string) string;
}.

(** A violated constraint, or a value of the wrong type. *)
Inductive db_error := IntegrityError | ValueError.

Definition txn (A : Type) : Type := Z → db → result db_error (db * A).

Definition with_rows (d : db) (l : list Row) : db :=
  {| rows := l; ledger := ledger d; orders := orders d; sellers := sellers d |}.
Definition with_event (d : db) (e : LedgerEvent) : db :=
  {| rows := rows d; ledger := ledger d ++ [e]; orders := orders d; sellers := sellers d |}.

Definition ref_digest (value : option string) : pyval :=
  match value with
  | Some s => if String.eqb s EmptyString then VNone else VStr (sha256_hexdigest (utf8 s))
  | None => VNone
  end.

Definition int_val (o : option Z) : pyval := match o with Some z => VInt z | None => VNone end.

Definition ledger_event (op : OperationRecord) : string := "commerce.plural." +:+ operation_name (op_operation op).

(** [phase] is a journal phase or one of [replayed] and [blocked]. *)
Definition ledger_payload (op : OperationRecord) (phase : string) (provider_ref : option string) : list (string * pyval) :=
  [("decision_id", VStr (op_decision_id op)); ("operation", VStr (operation_name (op_operation op)));
   ("phase", VStr phase); ("idempotency_key", VStr (op_idempotency_key op));
   ("checkout_session_id", VStr (op_checkout_session_id op)); ("order_id", opt_val (op_order_id op));
   ("amount", int_val (op_amount_minor_units op)); ("currency", opt_val (op_currency op));
   ("provider_ref_sha256", ref_digest provider_ref); ("mandate_hashes", VMap (op_mandate_hashes op))].

Definition event_of (op : OperationRecord) (outcome phase : string) (provider_ref : option string)
    (details : list (string * pyval)) : LedgerEvent :=
  {| ev_tenant_id := op_tenant_id op; ev_event := ledger_event op; ev_outcome := outcome; ev_merchant_id := op_merchant_id op;
     ev_seller_agent_id := Some (op_seller_agent_id op); ev_payload := ledger_payload op phase provider_ref;
     ev_resource_id := op_idempotency_key op;
     ev_details := foldl (λ kvs kv, dict_set (fst kv) (snd kv) kvs) [("decision_id", VStr (op_decision_id op))] details |}.

(** [_values], and the time the server stamps the row with *)
Definition values (now : Z) (op : OperationRecord) (p : phase) (provider_ref : option string)
    (details : list (string * pyval)) : Row :=
  {| r_tenant_id := op_tenant_id op; r_merchant_id := op_merchant_id op; r_checkout_session_id := op_checkout_session_id op;
     r_order_id := op_order_id op; r_decision_id := op_decision_id op; r_provider := op_provider op;
     r_operation := op_operation op; r_phase := p; r_idempotency_key := op_idempotency_key op;
     r_provider_ref := provider_ref; r_amount_minor_units := op_amount_minor_units op; r_currency := op_currency op;
     r_mandate_hashes := op_mandate_hashes op; r_details := details; r_created_at := now |}.

(** ** Inserting under the constraints of the table *)

(** [uq_commerce_payment_operations] *)
Definition unique_key (r : Row) : string * string * operation * phase :=
  (r_tenant_id r, r_idempotency_key r, r_operation r, r_phase r).

(** [ck_commerce_payment_operations_amount] *)
Definition amount_ok (r : Row) : bool := match r_amount_minor_units r with Some z => 0 <=? z | None => true end.

Definition conflicts (l : list Row) (r : Row) : bool := bool_decide (unique_key r ∈ unique_key <$> l).

(** INSERT ... ON CONFLICT DO NOTHING RETURNING id *)
Definition insert_if_new (r : Row) (d : db) : result db_error (db * bool) :=
  if negb (amount_ok r) then Err IntegrityError
  else if conflicts (rows d) r then Ok (d, false)
  else Ok (with_rows d (rows d ++ [r]), true).

(** * The journal: [DbPaymentJournal] *)

Definition begin (op : OperationRecord) : txn bool := λ now d,
  match insert_if_new (values now op Requested None []) d with
  | Err e => Err e
  | Ok (d', true) => Ok (d', true)
  | Ok (d', false) =>
      Ok (with_event d' (event_of op "refused" "replayed" None [("reason", VStr "operation_already_requested")]), false)
  end.

(** Here a second outcome row of the phase raises. *)
Definition finish (op : OperationRecord) (p : phase) (provider_ref : option string) (details : list (string * pyval)) : txn unit :=
  λ now d,
  match insert_if_new (values now op p provider_ref details) d with
  | Err e => Err e
  | Ok (_, false) => Err IntegrityError
  | Ok (d', true) =>
      Ok (with_event d' (event_of op (match p with Succeeded => "success" | Unknown => "blocked" | _ => "refused" end)
                           (phase_name p) provider_ref (("phase", VStr (phase_name p)) :: details)), tt)
  end.

Definition blocked (op : OperationRecord) (reason : string) : txn unit := λ _ d,
  Ok (with_event d (event_of op "blocked" "blocked" None [("reason", VStr reason)]), tt).

Definition record_once (op : OperationRecord) (p : phase) (provider_ref : option string) (details : list (string * pyval)) : txn bool :=
  λ now d,
  match insert_if_new (values now op p provider_ref details) d with
  | Err e => Err e
  | Ok (d', false) => Ok (d', false)
  | Ok (d', true) =>
      let e := event_of op (match p with Succeeded => "success" | _ => "refused" end) (phase_name p) provider_ref
                 (("phase", VStr (phase_name p)) :: details) in
      Ok (with_event d' {| ev_tenant_id := ev_tenant_id e; ev_event := ev_event e; ev_outcome := ev_outcome e;
                           ev_merchant_id := ev_merchant_id e;
                           ev_seller_agent_id := if given (ev_seller_agent_id e) then ev_seller_agent_id e else None;
                           ev_payload := ev_payload e; ev_resource_id := ev_resource_id e; ev_details := ev_details e |}, true)
  end.

(** [operations], as rows: [JournalEntry.from_row] copies columns *)
Definition operations (tenant key : string) : txn (list Row) := λ _ d,
  Ok (d, sort_by (λ a b, r_created_at a <=? r_created_at b)
           (List.filter (λ r, String.eqb (r_tenant_id r) tenant && String.eqb (r_idempotency_key r) key) (rows d))).

Definition session_seller (tenant session : string) : txn (option string) := λ _ d, Ok (d, sellers d !! (tenant, session)).

(** ** What was captured and refunded *)

Record PaymentState := {
  provider_order_ref : option string;
  currency : option string;
  captured_minor_units : Z;
  refunded_minor_units : Z;
}.

Definition refundable_minor_units (s : PaymentState) : Z := Z.max 0 (captured_minor_units s - refunded_minor_units s).

Definition row_key (r : Row) : operation * string := (r_operation r, r_idempotency_key r).

(** The dictionaries and variables of the loop *)
Record scan := {
  sc_phases : gmap (operation * string) (gset phase);
  sc_amounts : gmap (operation * string) Z;
  sc_ref : option string;
  sc_currency : option string;
}.

Definition scan0 : scan := {| sc_phases := ∅; sc_amounts := ∅; sc_ref := None; sc_currency := None |}.

Definition scan_row (s : scan) (r : Row) : scan :=
  let key := row_key r in
  let first := bool_decide (r_phase r = Requested) in
  {| sc_phases := <[key := {[r_phase r]} ∪ default ∅ (sc_phases s !! key)]> (sc_phases s);
     sc_amounts := if first then <[key := default 0 (r_amount_minor_units r)]> (sc_amounts s) else sc_amounts s;
     sc_ref := if bool_decide (r_operation r = Create_order ∧ r_phase r = Succeeded) then r_provider_ref r else sc_ref s;
     sc_currency := if first then (if given (sc_currency s) then sc_currency s else r_currency r) else sc_currency s |}.

(** [sum(f(k, v) for k, v in d.items())] *)
Definition sum_map {K A} `{Countable K} (f : K → A → Z) (m : gmap K A) : Z := map_fold (λ k x acc, f k x + acc) 0 m.

Definition captured_of (s : scan) (k : operation * string) (p : gset phase) : Z :=
  if bool_decide (fst k = Capture ∧ Succeeded ∈ p) then default 0 (sc_amounts s !! k) else 0.

Definition refunded_of (s : scan) (k : operation * string) (p : gset phase) : Z :=
  if bool_decide (fst k = Refund ∧ Failed ∉ p) then default 0 (sc_amounts s !! k) else 0.

Definition payment_state_from (l : list Row) : PaymentState :=
  let s := foldl scan_row scan0 l in
  {| provider_order_ref := sc_ref s; currency := sc_currency s;
     captured_minor_units := sum_map (captured_of s) (sc_phases s);
     refunded_minor_units := sum_map (refunded_of s) (sc_phases s) |}.

Definition session_rows (d : db) (tenant session : string) : list Row :=
  List.filter (λ r, String.eqb (r_tenant_id r) tenant && String.eqb (r_checkout_session_id r) session) (rows d).

Definition payment_state (tenant session : string) : txn PaymentState := λ _ d,
  Ok (d, payment_state_from (session_rows d tenant session)).

(** * Facts *)

Lemma sum_map_delete {K A} `{Countable K} (f : K → A → Z) m k x :
  m !! k = Some x → sum_map f m = f k x + sum_map f (delete k m).
Proof.
  intros Hk. unfold sum_map. erewrite map_fold_delete_L; [reflexivity| |exact Hk]. intros; cbn; lia.
Qed.

Lemma sum_map_insert {K A} `{Countable K} (f : K → A → Z) m k x :
  sum_map f (<[k := x]> m) = f k x + sum_map f (delete k m).
Proof.
  rewrite (sum_map_delete f _ k x) by apply lookup_insert_eq. by rewrite delete_insert_eq.
Qed.

Lemma sum_map_ext {K A} `{Countable K} (f g : K → A → Z) m :
  (∀ k x, m !! k = Some x → f k x = g k x) → sum_map f m = sum_map g m.
Proof.
  unfold sum_map. induction m as [|k x m Hk IH] using map_ind; intros Hfg; [by rewrite !map_fold_empty|].
  rewrite !map_fold_insert_L by (done || (intros; lia)). rewrite (Hfg k x) by apply lookup_insert_eq.
  rewrite IH; [done|]. intros j y Hj. apply Hfg. rewrite lookup_insert_ne; [done|]. congruence.
Qed.

(** Distinct keys of a map of non-negative terms sum to at most the whole. *)
Lemma sum_map_sub {K A} `{Countable K} (f : K → A → Z) (m : gmap K A) (l : list (K * Z)) :
  (∀ k x, m !! k = Some x → 0 ≤ f k x) → NoDup l.*1 → (∀ k z, (k, z) ∈ l → ∃ x, m !! k = Some x ∧ f k x = z) →
  sumZ l.*2 ≤ sum_map f m.
Proof.
  revert m. induction l as [|[k z] l IH]; intros m Hpos Hnd Hin; cbn.
  - clear Hnd Hin. unfold sum_map. induction m as [|k x m Hk IHm] using map_ind; [by rewrite map_fold_empty|].
    rewrite map_fold_insert_L by (done || (intros; lia)).
    assert (0 ≤ f k x) by (apply Hpos, lookup_insert_eq). assert (0 ≤ map_fold (λ k x acc, f k x + acc) 0 m); [|lia].
    apply IHm. intros j y Hj. apply Hpos. rewrite lookup_insert_ne; [done|congruence].
  - cbn in Hnd. apply NoDup_cons in Hnd as [Hk Hnd]. destruct (Hin k z) as (x & Hx & Hz); [set_solver|].
    rewrite (sum_map_delete f m k x) by done. rewrite Hz. apply Z.add_le_mono_l. apply IH; [|done|].
    + intros j y Hj. apply lookup_delete_Some in Hj as [_ Hj]. by apply Hpos.
    + intros j y Hj. destruct (Hin j y) as (v & Hv & Hf); [set_solver|]. exists v. split; [|done].
      apply lookup_delete_Some. split; [|done]. intros ->. apply Hk, list_elem_of_fmap. by exists (j, y).
Qed.

(** ** How one more row changes the sums *)

Abbreviation scanned l := (foldl scan_row scan0 l).

Definition captured_at (l : list Row) (k : operation * string) : Z :=
  match sc_phases (scanned l) !! k with Some p => captured_of (scanned l) k p | None => 0 end.
Definition refunded_at (l : list Row) (k : operation * string) : Z :=
  match sc_phases (scanned l) !! k with Some p => refunded_of (scanned l) k p | None => 0 end.

Lemma scanned_snoc l r : scanned (l ++ [r]) = scan_row (scanned l) r.
Proof. by rewrite foldl_app. Qed.

Lemma sc_amounts_ne s r k : k ≠ row_key r → sc_amounts (scan_row s r) !! k = sc_amounts s !! k.
Proof. intros. cbn. case_bool_decide; [|done]. by rewrite lookup_insert_ne. Qed.

Lemma sum_scan_row (f : scan → operation * string → gset phase → Z) s r :
  (∀ k p, k ≠ row_key r → f (scan_row s r) k p = f s k p) →
  sum_map (f (scan_row s r)) (sc_phases (scan_row s r)) =
  sum_map (f s) (sc_phases s)
  - match sc_phases s !! row_key r with Some p => f s (row_key r) p | None => 0 end
  + match sc_phases (scan_row s r) !! row_key r with Some p => f (scan_row s r) (row_key r) p | None => 0 end.
Proof.
  intros Hf. cbn [sc_phases scan_row]. rewrite sum_map_insert, lookup_insert_eq.
  rewrite (sum_map_ext _ (f s)).
  - destruct (sc_phases s !! row_key r) as [p|] eqn:Hk.
    + rewrite (sum_map_delete (f s) (sc_phases s) _ p) by done. lia.
    + rewrite delete_id by done. lia.
  - intros k p Hkp. apply Hf. intros ->. by rewrite lookup_delete_eq in Hkp.
Qed.

Lemma refunded_snoc l r :
  refunded_minor_units (payment_state_from (l ++ [r])) =
  refunded_minor_units (payment_state_from l) - refunded_at l (row_key r) + refunded_at (l ++ [r]) (row_key r).
Proof.
  unfold payment_state_from, refunded_at. cbn [refunded_minor_units]. rewrite scanned_snoc.
  apply (sum_scan_row refunded_of). intros k p Hk. unfold refunded_of. by rewrite sc_amounts_ne.
Qed.

Lemma captured_snoc l r :
  captured_minor_units (payment_state_from (l ++ [r])) =
  captured_minor_units (payment_state_from l) - captured_at l (row_key r) + captured_at (l ++ [r]) (row_key r).
Proof.
  unfold payment_state_from, captured_at. cbn [captured_minor_units]. rewrite scanned_snoc.
  apply (sum_scan_row captured_of). intros k p Hk. unfold captured_of. by rewrite sc_amounts_ne.
Qed.

(** The dictionaries of the loop, by the rows of each key *)
Definition has_phase (l : list Row) (k : operation * string) (p : phase) : Prop :=
  ∃ r, r ∈ l ∧ row_key r = k ∧ r_phase r = p.

#[global] Instance has_phase_dec l k p : Decision (has_phase l k p).
Proof.
  destruct (decide (Exists (λ r, row_key r = k ∧ r_phase r = p) l)) as [Hl|Hl]; rewrite Exists_exists in Hl;
    [left|right]; unfold has_phase; naive_solver.
Defined.

Fixpoint requested_amount (l : list Row) (k : operation * string) : option Z :=
  match l with
  | [] => None
  | r :: l' =>
      match requested_amount l' k with
      | Some a => Some a
      | None => if bool_decide (row_key r = k ∧ r_phase r = Requested) then Some (default 0 (r_amount_minor_units r)) else None
      end
  end.

Lemma has_phase_snoc l r k p : has_phase (l ++ [r]) k p ↔ has_phase l k p ∨ (row_key r = k ∧ r_phase r = p).
Proof. unfold has_phase. setoid_rewrite elem_of_app. setoid_rewrite list_elem_of_singleton. naive_solver. Qed.

Lemma requested_amount_snoc l r k :
  requested_amount (l ++ [r]) k =
  if bool_decide (row_key r = k ∧ r_phase r = Requested) then Some (default 0 (r_amount_minor_units r)) else requested_amount l k.
Proof.
  induction l as [|r' l IH]; cbn; [done|]. rewrite IH. case_bool_decide; [done|]. done.
Qed.

Lemma scan_amounts l k : sc_amounts (scanned l) !! k = requested_amount l k.
Proof.
  induction l as [|r l IH] using rev_ind; [done|]. rewrite scanned_snoc, requested_amount_snoc. cbn.
  repeat case_bool_decide; destruct_and?; simplify_eq; try done.
  - by rewrite lookup_insert_eq.
  - rewrite lookup_insert_ne; [done|]. naive_solver.
Qed.

Lemma scan_phases l k p : p ∈ default ∅ (sc_phases (scanned l) !! k) ↔ has_phase l k p.
Proof.
  induction l as [|r l IH] using rev_ind.
  - cbn. rewrite lookup_empty. unfold has_phase. set_solver.
  - rewrite scanned_snoc, has_phase_snoc, <- IH. cbn [sc_phases scan_row].
    destruct (decide (row_key r = k)) as [<-|Hk].
    + rewrite lookup_insert_eq. cbn [default from_option id]. set_solver.
    + rewrite lookup_insert_ne by done. naive_solver.
Qed.

Lemma scan_amounts_phases l k : sc_phases (scanned l) !! k = None → requested_amount l k = None.
Proof.
  intros Hk. destruct (requested_amount l k) as [a|] eqn:Ha; [|done]. exfalso.
  assert (has_phase l k Requested) as Hp.
  { clear Hk. revert a Ha. induction l as [|r l IH] using rev_ind; [done|]. intros a. rewrite requested_amount_snoc, has_phase_snoc.
    case_bool_decide; [tauto|]. intros Ha. left. by apply (IH a). }
  apply scan_phases in Hp. rewrite Hk in Hp. set_solver.
Qed.

(** A refund counts with its requested amount unless it failed. *)
Lemma refunded_at_spec l key :
  refunded_at l (Refund, key) = if decide (has_phase l (Refund, key) Failed) then 0 else default 0 (requested_amount l (Refund, key)).
Proof.
  unfold refunded_at. destruct (sc_phases (scanned l) !! (Refund, key)) as [p|] eqn:Hp.
  - unfold refunded_of. rewrite scan_amounts. pose proof (scan_phases l (Refund, key) Failed) as Hf.
    rewrite Hp in Hf. cbn in Hf. case_bool_decide; destruct (decide _); naive_solver.
  - rewrite scan_amounts_phases by done. by destruct (decide _).
Qed.

Lemma refunded_at_other l o key : o ≠ Refund → refunded_at l (o, key) = 0.
Proof.
  intros. unfold refunded_at, refunded_of. destruct (_ !! _); [|done]. case_bool_decide; naive_solver.
Qed.

(** A capture counts with its requested amount once it succeeded. *)
Lemma captured_at_spec l key :
  captured_at l (Capture, key) = if decide (has_phase l (Capture, key) Succeeded) then default 0 (requested_amount l (Capture, key)) else 0.
Proof.
  unfold captured_at. destruct (sc_phases (scanned l) !! (Capture, key)) as [p|] eqn:Hp.
  - unfold captured_of. rewrite scan_amounts. pose proof (scan_phases l (Capture, key) Succeeded) as Hf.
    rewrite Hp in Hf. cbn in Hf. case_bool_decide; destruct (decide _); naive_solver.
  - rewrite scan_amounts_phases by done. by destruct (decide _).
Qed.

Lemma captured_at_other l o key : o ≠ Capture → captured_at l (o, key) = 0.
Proof.
  intros. unfold captured_at, captured_of. destruct (_ !! _); [|done]. case_bool_decide; naive_solver.
Qed.
