(* ===== verification/PluralExecutor.v ===== *)
(** The Plural payment executor: src/core/commerce/executors/plural.py, with the data of
    src/core/commerce/executors/__init__.py.

    An operation is a [prog]: a tree of database transactions and calls of the Plural API
    ([Call] for one that changes something there, [Read] for one that only reads).
    Each transaction is atomic; between two of them, and around a call, any other operation
    may run. Whether credentials are configured is an argument ([client]). The Request-ID
    header is a function of the operation record a call carries, and is left out. *)

From Stdlib Require Import Ascii.
From S2P Require Import Prelude PyVal PyText Digest Arbiter ArbiterStore PaymentJournal.

Local Open Scope Z_scope.

(** * Programs *)

(** A response as the HTTP client gives it: the status, the bytes of the body and, when the
    body is JSON, the value. *)
Record response := { status_code : Z; content_size : Z; parsed : option pyval }.

(** What happens to one call: it never gets an answer, or the token request (none when a
    token is cached) and then the request itself are answered. *)
Inductive exchange :=
| Unreachable
| Responded (token : option response) (r : response).

Inductive prog (A : Type) : Type :=
| Ret (a : A)
| Raise (e : db_error)
| Txn {X : Type} (t : txn X) (k : X → prog A)
| Call (op : OperationRecord) (method path : string) (body : list (string * pyval)) (k : exchange → prog A)
| Read (tenant path : string) (k : exchange → prog A).
Arguments Ret {A} a.
Arguments Raise {A} e.
Arguments Txn {A X} t k.
Arguments Call {A} op method path body k.
Arguments Read {A} tenant path k.

Fixpoint bind {A B} (p : prog A) (f : A → prog B) : prog B :=
  match p with
  | Ret a => f a
  | Raise e => Raise e
  | Txn t k => Txn t (λ x, bind (k x) f)
  | Call op method path body k => Call op method path body (λ x, bind (k x) f)
  | Read tenant path k => Read tenant path (λ x, bind (k x) f)
  end.

Declare Scope plural_scope.
Delimit Scope plural_scope with plural.
Notation "x ⇐ t ; k" := (Txn t (λ x, k))
  (at level 20, t at level 100, k at level 200, right associativity) : plural_scope.
Notation "' x ⇇ p ; k" := (bind p (λ x, k))
  (at level 20, x pattern, p at level 100, k at level 200, right associativity) : plural_scope.

(** ** One run with nothing else running

    [xs] are the exchanges of its calls. The run ends with its value, or with the error the
    code raises; [None] when there are fewer exchanges than calls. *)
Fixpoint run {A} (now : Z) (xs : list exchange) (p : prog A) (d : db) : option (db * result db_error A) :=
  match p with
  | Ret a => Some (d, Ok a)
  | Raise e => Some (d, Err e)
  | Txn t k => match t now d with Ok (d', x) => run now xs (k x) d' | Err e => Some (d, Err e) end
  | Call _ _ _ _ k | Read _ _ k => match xs with x :: xs' => run now xs' (k x) d | [] => None end
  end.

(** * The client *)

Definition AUTHORIZED : list string := ["AUTHORIZED"].
Definition CAPTURED : list string := ["PROCESSED"; "CAPTURED"].
Definition FAILED : list string := ["FAILED"; "CANCELLED"; "DECLINED"; "REJECTED"].
Definition MAX_RESPONSE_BYTES : Z := 256 * 1024.
Definition PLURAL_HANDLER_ID : string := "plural_tokenized".
Definition INSTRUMENT_UPI_AUTOPAY : string := "upi_autopay".

(** The data, [PluralRequestError], [PluralUnavailableError] *)
Inductive reply :=
| Data (data : list (string * pyval))
| RequestError (status : Z) (code : string)
| Unavailable.

Definition first_truthy (l : list pyval) : pyval := default VNone (head (List.filter truthy l)).

Section executor.
Context `{PyStr}.

Definition _parse (r : response) : reply :=
  if MAX_RESPONSE_BYTES <? content_size r then Unavailable
  else match parsed r with
  | Some (VMap kvs) =>
      if 400 <=? status_code r then
        let code := first_truthy [get_val kvs "code"; get_val kvs "error_code"; VStr ("http_" +:+ pretty (status_code r))] in
        RequestError (status_code r) (of_chars (take 64 (chars (py_str code))))
      else match get_val kvs "data" with VMap data => Data data | _ => Data kvs end
  | _ => Unavailable
  end.

(** [PluralApiClient.call] *)
Definition client_call (x : exchange) : reply :=
  match x with
  | Unreachable => Unavailable
  | Responded None r => _parse r
  | Responded (Some t) r =>
      match _parse t with
      | Data data =>
          match get_val data "access_token" with
          | VStr token => if String.eqb token EmptyString then Unavailable else _parse r
          | _ => Unavailable
          end
      | e => e
      end
  end.

(** [str(data.get(key) or '').upper()] *)
Definition status_of (data : list (string * pyval)) : string := upper (str_or_empty (get_val data "status")).
Definition among (s : string) (l : list string) : bool := bool_decide (s ∈ l).

(** [... or None] *)
Definition some_text (s : string) : option string := if String.eqb s EmptyString then None else Some s.

Open Scope plural_scope.

(** [None] is the phase [replayed]. *)
Definition _call (record : OperationRecord) (method path : string) (body : list (string * pyval)) (provider_ref : option string)
    (success pending : option (list (string * pyval) → bool)) : prog (option phase * list (string * pyval)) :=
  ok ⇐ begin record ;
  if negb ok then Ret (None, [])
  else Call record method path body (λ x,
    match client_call x with
    | RequestError status code =>
        _ ⇐ finish record Failed provider_ref [("http_status", VInt status); ("code", VStr code)] ;
        Ret (Some Failed, [])
    | Unavailable =>
        _ ⇐ finish record Unknown provider_ref [("error", VStr "unreachable")] ;
        Ret (Some Unknown, [])
    | Data data =>
        let ref := some_text (str_or_empty (first_truthy [get_val data "refund_id"; get_val data "order_id"; opt_val provider_ref])) in
        let phase :=
          if match pending with Some f => f data | None => false end then Unknown
          else if match success with Some f => negb (f data) | None => false end then Failed
          else Succeeded in
        _ ⇐ finish record phase ref [("status", VStr (status_of data))] ;
        Ret (Some phase, data)
    end).

Definition call_name (p : option phase) : string := match p with Some p => phase_name p | None => "replayed" end.

(** * Refunding *)

Record RefundRequest := {
  rq_tenant_id : string;
  rq_merchant_id : string;
  rq_seller_agent_id : string;
  rq_order_id : string;
  rq_checkout_session_id : string;
  rq_payload_hash : string;
  rq_amount_minor_units : Z;
  rq_currency : string;
  rq_order_total_minor_units : Z;
  rq_allowance_max_minor_units : option Z;
  rq_reference : option string;
}.

Record RefundResult := {
  rr_status : string;
  rr_reason : string;
  rr_provider_refund_ref : option string;
  rr_idempotency_key : option string;
}.

Definition order_reference (session_id decision_id : string) : string :=
  "aoc-" +:+ of_chars (take 44 (chars (sha256_hexdigest (utf8 (session_id +:+ "|" +:+ decision_id))))).

Definition refund_reference (order_id request_key : string) : string :=
  "aor-" +:+ of_chars (take 44 (chars (sha256_hexdigest (utf8 (order_id +:+ "|" +:+ request_key))))).

Definition _amount_problem (amount : Z) (cur : string) (ceiling : Z) (allowance_max : option Z)
    (allowance_currency : option string) (ceiling_reason : string) : option string :=
  if amount <? 1 then Some "amount_invalid"
  else match allowance_max with
  | None => Some "allowance_missing"
  | Some m =>
      if negb (given allowance_currency) then Some "allowance_missing"
      else if String.eqb cur EmptyString || negb (String.eqb (upper cur) (upper (default EmptyString allowance_currency)))
      then Some "currency_mismatch"
      else if ceiling <? amount then Some ceiling_reason
      else if m <? amount then Some "amount_exceeds_allowance"
      else None
  end.

Definition refund_key (request : RefundRequest) (decision : ConsumedDecision) : string :=
  match rq_reference request with
  | Some r => if String.eqb r EmptyString then refund_reference (rq_order_id request) (consumed_id decision) else r
  | None => refund_reference (rq_order_id request) (consumed_id decision)
  end.

Definition refund_record (request : RefundRequest) (decision : ConsumedDecision) : OperationRecord :=
  {| op_tenant_id := rq_tenant_id request; op_merchant_id := rq_merchant_id request;
     op_seller_agent_id := rq_seller_agent_id request; op_checkout_session_id := rq_checkout_session_id request;
     op_decision_id := consumed_id decision; op_operation := PaymentJournal.Refund;
     op_idempotency_key := refund_key request decision; op_amount_minor_units := Some (rq_amount_minor_units request);
     op_currency := Some (upper (rq_currency request)); op_order_id := Some (rq_order_id request);
     op_provider := PROVIDER_PLURAL; op_mandate_hashes := consumed_mandate_hashes decision |}.

(** The refusals before any call, in the order the code checks them *)
Definition refund_problem (request : RefundRequest) (decision : ConsumedDecision) (state : PaymentState) (client : bool) : option string :=
  if negb (String.eqb (consumed_action decision) "refund") then Some "decision_action_mismatch"
  else if negb (String.eqb (consumed_payload_hash decision) (rq_payload_hash request))
          || negb (String.eqb (consumed_tenant_id decision) (rq_tenant_id request)) then Some "decision_scope_mismatch"
  else match _amount_problem (rq_amount_minor_units request) (rq_currency request)
               (Z.min (rq_order_total_minor_units request) (refundable_minor_units state))
               (rq_allowance_max_minor_units request) (currency state) "refund_exceeds_captured" with
  | Some p => Some p
  | None =>
      if negb (given (provider_order_ref state)) then Some "order_not_captured"
      else if negb client then Some "plural_credentials_missing" else None
  end.

Definition refund (client : bool) (request : RefundRequest) (decision : ConsumedDecision) : prog RefundResult :=
  let key := refund_key request decision in
  let record := refund_record request decision in
  let result s r ref := {| rr_status := s; rr_reason := r; rr_provider_refund_ref := ref; rr_idempotency_key := Some key |} in
  state ⇐ payment_state (rq_tenant_id request) (rq_checkout_session_id request) ;
  match refund_problem request decision state client with
  | Some problem => _ ⇐ blocked record problem ; Ret (result "refused" problem None)
  | None =>
      let ref := default EmptyString (provider_order_ref state) in
      let body :=
        [("merchant_order_reference", VStr key);
         ("refund_amount", VMap [("value", VInt (rq_amount_minor_units request)); ("currency", VStr (upper (rq_currency request)))]);
         ("merchant_metadata", VMap [("oacp_decision_id", VStr (consumed_id decision)); ("oacp_order_id", VStr (rq_order_id request));
                                     ("oacp_payload_hash", VStr (rq_payload_hash request))])] in
      ' (ph, data) ⇇ _call record "POST" ("/pay/v1/refunds/" +:+ ref) body (Some ref)
                       (Some (λ data, among (status_of data) (CAPTURED ++ ["SUCCESS"; "REFUNDED"])))
                       (Some (λ data, among (status_of data) ["PENDING"; "INITIATED"; "CREATED"])) ;
      match ph with
      | None => Ret (result "refused" "operation_already_requested" None)
      | Some Succeeded =>
          Ret (result "succeeded" "refund_succeeded"
                 (some_text (str_or_empty (first_truthy [get_val data "refund_id"; get_val data "order_id"]))))
      | Some p => Ret (result (phase_name p) ("refund_" +:+ phase_name p) None)
      end
  end.
(** * Executing a checkout *)

Record ExecutionInstrument := {
  ins_id : string;
  ins_handler_id : string;
  ins_type : string;
  ins_credential : list (string * pyval);
  ins_amount_minor_units : option Z;
}.

(** The fields of [ExecutionCheckout] this executor reads *)
Record ExecutionCheckout := {
  ck_session_id : string;
  ck_tenant_id : string;
  ck_merchant_id : string;
  ck_seller_agent_id : string;
  ck_currency : string;
  ck_total_minor_units : Z;
  ck_instruments : list ExecutionInstrument;
  ck_payload_hash : string;
  ck_allowance_max_minor_units : option Z;
  ck_allowance_currency : option string;
  ck_upi_mandate_reference : option string;
  ck_afa_evidence_ref : option string;
}.

Inductive ExecutionResult :=
| Completed (provider_order_ref : string)
| Action_required (provider_order_ref escalation_url : string) (actions : pyval)
| Execution_failed (error_code error_message : string).

Definition _failed (code : string) : ExecutionResult :=
  if String.eqb code "payment_declined" then Execution_failed code "The payment was declined."
  else if String.eqb code "payment_pending" then
    Execution_failed code "The payment is still pending at the provider; try again later."
  else if String.eqb code "afa_evidence_missing" then
    Execution_failed code "The UPI AutoPay mandate has not been authorised yet."
  else Execution_failed "payment_failed" "The payment could not be processed.".

Definition is_text (v : pyval) (s : string) : bool := match v with VStr t => String.eqb t s | _ => false end.

Definition _instrument_problem (i : ExecutionInstrument) : option string :=
  let c := ins_credential i in
  let kind := get_val c "type" in
  if is_text kind "pan" || (is_text kind "card" && is_text (get_val c "card_number_type") "fpan") then Some "pan_not_accepted"
  else if is_text kind "plural_pine_token" && truthy (get_val c "token") then None
  else if is_text kind "network_token" && truthy (get_val c "number") && truthy (get_val c "cryptogram") then None
  else if is_text kind "card" && is_text (get_val c "card_number_type") "network_token" && truthy (get_val c "number") then None
  else Some "credential_not_accepted".

Definition payment_option (i : ExecutionInstrument) (mandate_reference : option string) : string * list (string * pyval) :=
  let c := ins_credential i in
  let kind := get_val c "type" in
  if String.eqb (ins_type i) INSTRUMENT_UPI_AUTOPAY then
    ("UPI", [("upi_details", VMap [("txn_mode", VStr "MANDATE"); ("token", get_val c "token");
                                   ("mandate_reference", opt_val mandate_reference)])])
  else if is_text kind "network_token" || (is_text kind "card" && is_text (get_val c "card_number_type") "network_token") then
    ("CARD", [("card_token_details", VMap [("token", get_val c "number"); ("cryptogram", get_val c "cryptogram");
                                           ("token_type", VStr "NETWORK_TOKEN"); ("expiry_month", get_val c "expiry_month");
                                           ("expiry_year", get_val c "expiry_year")])])
  else ("CARD", [("card_token_details", VMap [("token", get_val c "token"); ("token_type", VStr "PLURAL_TOKEN")])]).

Definition order_metadata (decision : ConsumedDecision) (session_id payload_hash : string) : list (string * pyval) :=
  let hash k := VStr (str_or_empty (get_val (consumed_mandate_hashes decision) k)) in
  [("oacp_decision_id", VStr (consumed_id decision)); ("oacp_checkout_session_id", VStr session_id);
   ("oacp_payload_hash", VStr payload_hash); ("oacp_intent_mandate_hash", hash "intent");
   ("oacp_cart_mandate_hash", hash "cart"); ("oacp_payment_mandate_hash", hash "payment")].

(** An int that is not a bool *)
Definition _amount (v : pyval) : option Z :=
  match v with
  | VMap kvs => match get_val kvs "value" with VInt z => Some z | _ => None end
  | VInt z => Some z
  | _ => None
  end.

(** [_amount(a) or _amount(b)]: a zero is passed over. *)
Definition first_amount (a b : pyval) : option Z :=
  match _amount a with Some z => if z =? 0 then _amount b else Some z | None => _amount b end.

Definition _execution_problem (ck : ExecutionCheckout) (decision : ConsumedDecision) : option string :=
  if negb (String.eqb (consumed_action decision) "session_complete") then Some "decision_action_mismatch"
  else if negb (String.eqb (consumed_payload_hash decision) (ck_payload_hash ck))
          || negb (String.eqb (consumed_tenant_id decision) (ck_tenant_id ck))
          || negb (String.eqb (consumed_merchant_id decision) (ck_merchant_id ck)) then Some "decision_scope_mismatch"
  else _amount_problem (ck_total_minor_units ck) (ck_currency ck) (ck_total_minor_units ck) (ck_allowance_max_minor_units ck)
         (ck_allowance_currency ck) "amount_exceeds_session_total".

(** The instrument to charge, or the refusal before any call *)
Definition execution_instrument (client : bool) (ck : ExecutionCheckout) (decision : ConsumedDecision) : ExecutionInstrument + string :=
  match _execution_problem ck decision with
  | Some p => inr p
  | None =>
      match ck_instruments ck with
      | [i] =>
          if negb (String.eqb (ins_handler_id i) PLURAL_HANDLER_ID) then inr "single_plural_instrument_required"
          else match _instrument_problem i with
          | Some p => inr p
          | None =>
              if match ins_amount_minor_units i with Some a => negb (a =? ck_total_minor_units ck) | None => false end
              then inr "instrument_amount_mismatch"
              else if String.eqb (ins_type i) INSTRUMENT_UPI_AUTOPAY
                      && (negb (given (ck_afa_evidence_ref ck)) || negb (given (ck_upi_mandate_reference ck)))
              then inr "afa_evidence_missing"
              else if negb client then inr "plural_credentials_missing" else inl i
          end
      | _ => inr "single_plural_instrument_required"
      end
  end.

Definition execute_record (ck : ExecutionCheckout) (decision : ConsumedDecision) (o : operation) : OperationRecord :=
  {| op_tenant_id := ck_tenant_id ck; op_merchant_id := ck_merchant_id ck; op_seller_agent_id := ck_seller_agent_id ck;
     op_checkout_session_id := ck_session_id ck; op_decision_id := consumed_id decision; op_operation := o;
     op_idempotency_key := order_reference (ck_session_id ck) (consumed_id decision);
     op_amount_minor_units := Some (ck_total_minor_units ck); op_currency := Some (upper (ck_currency ck));
     op_order_id := None; op_provider := PROVIDER_PLURAL; op_mandate_hashes := consumed_mandate_hashes decision |}.

(** [payments[0]] when [payments] is a non-empty list of which it is a mapping, else [{}] *)
Definition first_payment (data : list (string * pyval)) : list (string * pyval) :=
  match get_val data "payments" with VList (VMap kvs :: _) => kvs | _ => [] end.

Definition money (amount : Z) (cur : string) : pyval := VMap [("value", VInt amount); ("currency", VStr cur)].

(** [reference[4:20]] *)
Definition three_ds_id (reference : string) : string := "three-ds-" +:+ of_chars (take 16 (drop 4 (chars reference))).

Definition captured_status (data : list (string * pyval)) : bool := among (status_of data) CAPTURED.

Definition execute (client : bool) (ck : ExecutionCheckout) (decision : ConsumedDecision) : prog ExecutionResult :=
  let op := execute_record ck decision in
  let reference := order_reference (ck_session_id ck) (consumed_id decision) in
  let amount := ck_total_minor_units ck in
  let cur := upper (ck_currency ck) in
  match execution_instrument client ck decision with
  | inr problem => _ ⇐ blocked (op Create_order) problem ; Ret (_failed problem)
  | inl i =>
      let (method, option) := payment_option i (ck_upi_mandate_reference ck) in
      let order_body :=
        [("merchant_order_reference", VStr reference); ("order_amount", money amount cur); ("pre_auth", VBool true);
         ("allowed_payment_methods", VList [VStr method]); ("notes", VStr ("OACP decision " +:+ consumed_id decision));
         ("purchase_details", VMap [("merchant_metadata", VMap (order_metadata decision (ck_session_id ck) (ck_payload_hash ck)))])] in
      ' (ph, created) ⇇ _call (op Create_order) "POST" "/pay/v1/orders" order_body None None None ;
      if negb (bool_decide (ph = Some Succeeded)) then Ret (_failed "payment_failed")
      else
        let provider_order := str_or_empty (get_val created "order_id") in
        if String.eqb provider_order EmptyString then Ret (_failed "payment_failed")
        else
          let payment_body :=
            [("payments", VList [VMap [("merchant_payment_reference", VStr reference); ("payment_method", VStr method);
                                       ("payment_amount", money amount cur); ("payment_option", VMap option)]])] in
          ' (ph, paid) ⇇ _call (op Create_payment) "POST" ("/pay/v1/orders/" +:+ provider_order +:+ "/payments") payment_body
                           (Some provider_order) None None ;
          if negb (bool_decide (ph = Some Succeeded)) then
            Ret (_failed (if bool_decide (ph = Some Failed) then "payment_declined" else "payment_failed"))
          else
            let first := first_payment paid in
            let challenge := str_or_empty (first_truthy [get_val paid "challenge_url"; get_val first "challenge_url"]) in
            if starts_with "https://" challenge then
              Ret (Action_required provider_order challenge
                     (VMap [("dev.ucp.common.payment.three_ds_challenge",
                             VList [VMap [("id", VStr (three_ds_id reference));
                                          ("config", VMap [("payment_instrument_id", VStr (ins_id i)); ("url", VStr challenge)])]])]))
            else if among (status_of paid) FAILED then Ret (_failed "payment_declined")
            else if negb (among (status_of paid) AUTHORIZED) then Ret (_failed "payment_pending")
            else if match first_amount (get_val first "payment_amount") (get_val paid "order_amount") with
                    | Some a => negb (a =? amount) | None => false end
            then _ ⇐ blocked (op Capture) "authorized_amount_mismatch" ; Ret (_failed "payment_failed")
            else
              ' (ph, _) ⇇ _call (op Capture) "PUT" ("/pay/v1/orders/" +:+ provider_order +:+ "/capture")
                            [("merchant_capture_reference", VStr reference); ("capture_amount", money amount cur)]
                            (Some provider_order) (Some captured_status) None ;
              if negb (bool_decide (ph = Some Succeeded)) then Ret (_failed "payment_failed") else Ret (Completed provider_order)
  end.

(** * Events of the provider *)

Record PaymentOutcome := {
  po_order_id : string;
  po_merchant_reference : string;
  po_status : string;
  po_amount_minor_units : option Z;
}.

(** The data of a verified event *)
Definition nested (data : list (string * pyval)) (k : string) : list (string * pyval) :=
  match get_val data k with VMap kvs => kvs | _ => data end.

Definition payment_outcome (data : list (string * pyval)) : option PaymentOutcome :=
  let order := nested data "order" in
  let order_id := str_or_empty (get_val order "order_id") in
  let reference := str_or_empty (get_val order "merchant_order_reference") in
  if String.eqb order_id EmptyString || negb (starts_with "aoc-" reference) then None
  else
    let first := first_payment order in
    let status := upper (str_or_empty (first_truthy [get_val order "status"; get_val first "status"])) in
    if String.eqb status EmptyString then None
    else Some {| po_order_id := of_chars (take 120 (chars order_id)); po_merchant_reference := of_chars (take 64 (chars reference));
                 po_status := status;
                 po_amount_minor_units := first_amount (get_val first "payment_amount") (get_val order "order_amount") |}.

Definition MANDATE_AUTHORIZED : list string := ["ACTIVE"; "AUTHORIZED"; "APPROVED"].
Definition MANDATE_FAILED : list string := ["FAILED"; "REJECTED"; "DECLINED"; "CANCELLED"; "EXPIRED"].

Definition afa_outcome (data : list (string * pyval)) : option (string * bool * option string) :=
  let mandate := nested data "mandate" in
  let reference := str_or_empty (first_truthy [get_val mandate "merchant_mandate_reference"; get_val mandate "mandate_reference"]) in
  if negb (starts_with "aom-" reference) then None
  else if negb (among (status_of mandate) (MANDATE_AUTHORIZED ++ MANDATE_FAILED)) then None
  else Some (reference, among (status_of mandate) MANDATE_AUTHORIZED,
             some_text (str_or_empty (first_truthy [get_val mandate "mandate_id"; get_val mandate "id"]))).

(** ** [reconcile], up to the outcome it applies to the checkout session

    [inl] is the result when the session is left alone; [inr (journal, outcome)] what was done
    to the journal and the outcome handed on to [reconcile_execution]. *)

Definition reconcile_record (created : Row) (tenant seller : string) (o : operation) : OperationRecord :=
  {| op_tenant_id := tenant; op_merchant_id := r_merchant_id created; op_seller_agent_id := seller;
     op_checkout_session_id := r_checkout_session_id created; op_decision_id := r_decision_id created; op_operation := o;
     op_idempotency_key := r_idempotency_key created; op_amount_minor_units := r_amount_minor_units created;
     op_currency := r_currency created; op_order_id := None; op_provider := PROVIDER_PLURAL;
     op_mandate_hashes := r_mandate_hashes created |}.

Definition entry_has (entries : list Row) (o : operation) (p : phase) : bool :=
  existsb (λ e, bool_decide (r_operation e = o) && bool_decide (r_phase e = p)) entries.

Definition reconcile_journal (client : bool) (tenant : string) (outcome : PaymentOutcome) (event_sha256 : string) :
    prog (string + string * string) :=
  entries ⇐ operations tenant (po_merchant_reference outcome) ;
  match find (λ e, bool_decide (r_operation e = Create_order ∧ r_phase e = Succeeded ∧ r_provider_ref e = Some (po_order_id outcome))) entries with
  | None => Ret (inl "unknown_order")
  | Some created =>
      seller ⇐ session_seller tenant (r_checkout_session_id created) ;
      let op := reconcile_record created tenant (default EmptyString seller) in
      let source := [("source", VStr "webhook"); ("event_sha256", VStr event_sha256); ("status", VStr (po_status outcome))] in
      let ref := Some (po_order_id outcome) in
      if among (po_status outcome) CAPTURED then
        if entry_has entries Capture Succeeded then Ret (inr ("unchanged", "captured"))
        else
          new ⇐ record_once (op Capture) Succeeded ref source ;
          Ret (inr (if new then "capture_recorded" else "unchanged", "captured"))
      else if among (po_status outcome) AUTHORIZED then
        if entry_has entries Capture Succeeded then Ret (inr ("unchanged", "captured"))
        else if entry_has entries Capture Requested then Ret (inl "capture_already_requested")
        else if match po_amount_minor_units outcome with
                | Some a => negb (bool_decide (r_amount_minor_units created = Some a)) | None => false end
        then _ ⇐ blocked (op Capture) "authorized_amount_mismatch" ; Ret (inl "authorized_amount_mismatch")
        else match r_amount_minor_units created with
        | Some amount =>
            if negb client then _ ⇐ blocked (op Capture) "plural_credentials_missing" ; Ret (inl "plural_credentials_missing")
            else
              ' (ph, _) ⇇ _call (op Capture) "PUT" ("/pay/v1/orders/" +:+ po_order_id outcome +:+ "/capture")
                            [("merchant_capture_reference", VStr (r_idempotency_key created));
                             ("capture_amount", money amount (py_str (opt_val (r_currency created))))]
                            ref (Some captured_status) None ;
              if bool_decide (ph = Some Succeeded) then Ret (inr ("capture_succeeded", "captured"))
              else Ret (inl ("capture_" +:+ call_name ph))
        | None => _ ⇐ blocked (op Capture) "plural_credentials_missing" ; Ret (inl "plural_credentials_missing")
        end
      else if among (po_status outcome) FAILED then
        if entry_has entries Create_payment Failed then Ret (inr ("unchanged", "failed"))
        else
          new ⇐ record_once (op Create_payment) Failed ref source ;
          Ret (inr (if new then "failure_recorded" else "unchanged", "failed"))
      else Ret (inl "pending")
  end.
End executor.
