(* ===== verification/HostedRefunds.v ===== *)
(** Refunds of payments made on the merchant's hosted page:
    src/core/commerce/hosted_refunds.py, for refunds of orders.

    A transaction that locks the order row is atomic here: everything that can raise what
    counts as refunded of that order takes the same lock. Whether the vault holds the
    merchant's credentials is an argument. *)

From Stdlib Require Import Ascii.
From S2P Require Import Prelude PyVal PyText Digest PaymentJournal PluralExecutor.

Local Open Scope Z_scope.

Definition HOSTED_EXECUTOR : string := "plural_hosted".
Definition PROVIDER : string := "plural_hosted".
Definition SUCCEEDED : list string := ["PROCESSED"; "CAPTURED"; "SUCCESS"; "REFUNDED"].
Definition REFUND_FAILED : list string := ["FAILED"; "REJECTED"; "DECLINED"; "CANCELLED"].
Definition AMBIGUOUS_HTTP : list Z := [408; 409; 425; 429].

Definition refund_phase (status : string) : phase :=
  if among (upper status) SUCCEEDED then Succeeded
  else if among (upper status) REFUND_FAILED then Failed
  else Unknown.

Definition refused_phase (http_status : Z) : phase :=
  if (400 <=? http_status) && (http_status <? 500) && negb (bool_decide (http_status ∈ AMBIGUOUS_HTTP)) then Failed else Unknown.

Definition adjustment_id_for (reference : string) : string :=
  "adj_" +:+ of_chars (take 16 (chars (sha256_hexdigest (utf8 ("refund|" +:+ reference))))).

(** * What is already refunded *)

(** [entry.get("id") in exclude_ids]: an unhashable id raises. *)
Definition excluded (v : pyval) (ids : gset string) : result value_error bool :=
  match v with VStr s => Ok (bool_decide (s ∈ ids)) | VList _ | VMap _ => Err BadType | _ => Ok false end.

Definition total_line (line : pyval) : Z :=
  match line with
  | VMap kvs => if is_text (get_val kvs "type") "total" then match as_int (get_val kvs "amount") with Some a => Z.abs a | None => 0 end else 0
  | _ => 0
  end.

Definition recorded_entry (ids : gset string) (total : Z) (entry : pyval) : result value_error Z :=
  match entry with
  | VMap kvs =>
      if negb (is_text (get_val kvs "type") "refund") then Ok total
      else
        out ← excluded (get_val kvs "id") ids;
        if out : bool then Ok total
        else if negb (is_text (get_val kvs "status") "completed" || is_text (get_val kvs "status") "pending") then Ok total
        else lines ← or_items (get_val kvs "totals"); Ok (total + sumZ (total_line <$> lines))
  | _ => Ok total
  end.

Definition recorded_refunds (snapshot : pyval) (ids : gset string) : result value_error Z :=
  kvs ← or_dict snapshot;
  entries ← or_items (get_val kvs "adjustments");
  fold_res (recorded_entry ids) 0 entries.

(** Every refund call journalled for the order: [{reference: (phases, requested amount)}] *)
Definition add_call (calls : gmap string (gset phase * Z)) (r : Row) : gmap string (gset phase * Z) :=
  let '(phases, amount) := default (∅, 0) (calls !! r_idempotency_key r) in
  <[r_idempotency_key r :=
      ({[r_phase r]} ∪ phases, if bool_decide (r_phase r = Requested) then default 0 (r_amount_minor_units r) else amount)]> calls.

Definition order_refund_rows (l : list Row) (tenant order_id : string) : list Row :=
  List.filter (λ r, String.eqb (r_tenant_id r) tenant && bool_decide (r_order_id r = Some order_id) &&
                    bool_decide (r_operation r = Refund)) l.

Definition journalled_refund_calls (l : list Row) (tenant order_id : string) : gmap string (gset phase * Z) :=
  foldl add_call ∅ (order_refund_rows l tenant order_id).

Definition call_amount (_ : string) (c : gset phase * Z) : Z := if bool_decide (Failed ∉ fst c) then snd c else 0.

Definition journalled_refunds (l : list Row) (tenant order_id : string) : Z :=
  sum_map call_amount (journalled_refund_calls l tenant order_id).

Definition hosted_refunded (d : db) (tenant order_id : string) (order : OrderRow) : result value_error Z :=
  let calls := journalled_refund_calls (rows d) tenant order_id in
  let represented : gset string := set_map adjustment_id_for (dom calls) in
  recorded ← recorded_refunds (o_snapshot order) represented;
  Ok (journalled_refunds (rows d) tenant order_id + recorded).

(** * Refunding an order *)

Record HostedRefundResult := {
  hr_status : string;
  hr_reason : string;
  hr_provider_refund_ref : option string;
}.

Definition _operation (tenant merchant seller session decision reference : string) (amount : Z) (cur : string)
    (order_id : option string) : OperationRecord :=
  {| op_tenant_id := tenant; op_merchant_id := merchant; op_seller_agent_id := seller; op_checkout_session_id := session;
     op_decision_id := decision; op_operation := Refund; op_idempotency_key := reference; op_amount_minor_units := Some amount;
     op_currency := Some (upper cur); op_order_id := order_id; op_provider := PROVIDER; op_mandate_hashes := [] |}.

Definition _begin (op : OperationRecord) (now : Z) (d : db) : result db_error (db * bool) :=
  insert_if_new (values now op Requested None []) d.

Definition _journalled (d : db) (tenant reference : string) : bool :=
  existsb (λ r, String.eqb (r_tenant_id r) tenant && String.eqb (r_idempotency_key r) reference &&
                bool_decide (r_operation r = Refund)) (rows d).

Definition refused_result (reason : string) : HostedRefundResult :=
  {| hr_status := "refused"; hr_reason := reason; hr_provider_refund_ref := None |}.
Definition replayed_result : HostedRefundResult :=
  {| hr_status := "replayed"; hr_reason := "operation_already_requested"; hr_provider_refund_ref := None |}.

(** The transaction under the row lock: the refusal or replay, or the operation to call for and
    the provider order it is on. *)
Definition reserve (credentials : bool) (tenant order_id reference decision_id : string) (amount : Z) (cur : string) :
    txn (HostedRefundResult + OperationRecord * string) := λ now d,
  match orders d !! (tenant, order_id) with
  | None => Ok (d, inl (refused_result "order_not_hosted"))
  | Some order =>
      if _journalled d tenant reference then Ok (d, inl replayed_result)
      else if negb (String.eqb (o_executor order) HOSTED_EXECUTOR) then Ok (d, inl (refused_result "order_not_hosted"))
      else if negb (given (o_provider_order_ref order)) then Ok (d, inl (refused_result "order_not_captured"))
      else if negb (String.eqb (upper cur) (upper (o_currency order))) then Ok (d, inl (refused_result "refund_currency_mismatch"))
      else match hosted_refunded d tenant order_id order with
      | Err _ => Err ValueError
      | Ok refunded =>
          if o_total_minor_units order <? refunded + amount then Ok (d, inl (refused_result "refund_exceeds_captured"))
          else if negb credentials then Ok (d, inl (refused_result "plural_credentials_missing"))
          else
            let op := _operation tenant (o_merchant_id order) (o_seller_agent_id order) (o_checkout_session_id order) decision_id
                        reference amount cur (Some order_id) in
            match _begin op now d with
            | Err e => Err e
            | Ok (d', false) => Ok (d', inl replayed_result)
            | Ok (d', true) => Ok (d', inr (op, default EmptyString (o_provider_order_ref order)))
            end
      end
  end.

Section hosted.
Context `{PyStr}.

Open Scope plural_scope.

Definition _call_plural (provider_order_id : string) (op : OperationRecord) (metadata : list (string * string)) :
    prog (phase * option string) :=
  let body :=
    [("merchant_order_reference", VStr (op_idempotency_key op));
     ("refund_amount", money (default 0 (op_amount_minor_units op)) (upper (default EmptyString (op_currency op))));
     ("merchant_metadata", VMap ((λ kv, (fst kv, VStr (of_chars (take 255 (chars (snd kv)))))) <$> metadata))] in
  Call op "POST" ("/pay/v1/refunds/" +:+ provider_order_id) body (λ x,
    match client_call x with
    | RequestError status code =>
        _ ⇐ finish op (refused_phase status) (Some provider_order_id) [("http_status", VInt status); ("code", VStr code)] ;
        Ret (refused_phase status, None)
    | Unavailable =>
        _ ⇐ finish op Unknown (Some provider_order_id) [("error", VStr "unreachable")] ;
        Ret (Unknown, None)
    | Data data =>
        let status := status_of data in
        let ref := some_text (str_or_empty (first_truthy [get_val data "refund_id"; get_val data "order_id"; VStr provider_order_id])) in
        _ ⇐ finish op (refund_phase status) ref [("status", VStr (of_chars (take 40 (chars status))))] ;
        Ret (refund_phase status, ref)
    end).

Definition refund_hosted_order (credentials : bool) (tenant order_id reference decision_id payload_hash : string) (amount : Z)
    (cur : string) : prog HostedRefundResult :=
  reserved ⇐ reserve credentials tenant order_id reference decision_id amount cur ;
  match reserved with
  | inl res => Ret res
  | inr (op, provider_order_id) =>
      ' (ph, ref) ⇇ _call_plural provider_order_id op
                      [("oacp_decision_id", decision_id); ("oacp_order_id", order_id); ("oacp_payload_hash", payload_hash)] ;
      Ret {| hr_status := phase_name ph;
             hr_reason := match ph with Succeeded => "refund_succeeded" | Unknown => "refund_unknown" | _ => "refund_failed" end;
             hr_provider_refund_ref := ref |}
  end.

(** * Reconciliation *)

Definition RECONCILE_AFTER : Z := 5 * 60 * 1000000.
Definition RECONCILE_WINDOW : Z := 30 * 86400 * 1000000.
Definition RECONCILE_BATCH : nat := 50.
Definition REFUND_REFERENCE_KEYS : list string := ["merchant_order_reference"; "merchant_refund_reference"; "merchant_refund_id"].
Definition ORDER_REFUNDED : list string := ["REFUNDED"; "FULLY_REFUNDED"].
Definition UNREPORTED_PREFIX : string := "unreported:".

Definition provider_order_known (id : string) : bool := negb (String.eqb id EmptyString) && negb (starts_with UNREPORTED_PREFIX id).

(** The stack is popped at its end, so the later values of a mapping or list come first. *)
Fixpoint _refund_entries (v : pyval) : list (list (string * pyval)) :=
  match v with
  | VMap kvs =>
      (if truthy (get_val kvs "status") && existsb (λ k, truthy (get_val kvs k)) REFUND_REFERENCE_KEYS then [kvs] else []) ++
      (fix go (l : list (string * pyval)) := match l with [] => [] | (_, x) :: l' => go l' ++ _refund_entries x end) kvs
  | VList l => (fix go (l : list pyval) := match l with [] => [] | x :: l' => go l' ++ _refund_entries x end) l
  | _ => []
  end.

Definition refund_state_from_order (order : list (string * pyval)) (reference : string) (amount : Z) : option phase :=
  match find (λ e, existsb (λ k, String.eqb (str_or_empty (get_val e k)) reference) REFUND_REFERENCE_KEYS)
             (_refund_entries (VMap order)) with
  | Some entry =>
      match refund_phase (str_or_empty (get_val entry "status")) with Unknown => None | p => Some p end
  | None =>
      let inner := nested order "order" in
      let order_amount := match get_val inner "order_amount" with VMap kvs => kvs | _ => [] end in
      if among (status_of inner) ORDER_REFUNDED && scalar_eqb (get_val order_amount "value") (VInt amount) then Some Succeeded else None
  end.

Record OutstandingRefund := {
  out_reference : string;
  out_order_id : option string;
  out_checkout_session_id : string;
  out_merchant_id : string;
  out_decision_id : string;
  out_amount_minor_units : Z;
  out_currency : string;
  out_requested_at : Z;
}.

Fixpoint first_seen (seen : list string) (l : list Row) : list string :=
  match l with
  | [] => []
  | r :: l' =>
      if bool_decide (r_idempotency_key r ∈ seen) then first_seen seen l'
      else r_idempotency_key r :: first_seen (r_idempotency_key r :: seen) l'
  end.

Definition outstanding_of (moment : Z) (batch : list Row) (key : string) : option OutstandingRefund :=
  let entries := List.filter (λ r, String.eqb (r_idempotency_key r) key) batch in
  match find (λ r, bool_decide (r_phase r = Requested)) entries with
  | None => None
  | Some requested =>
      if existsb (λ r, bool_decide (r_phase r = Succeeded ∨ r_phase r = Failed)) entries
         || (moment - RECONCILE_AFTER <? r_created_at requested) then None
      else Some {| out_reference := key; out_order_id := r_order_id requested;
                   out_checkout_session_id := r_checkout_session_id requested; out_merchant_id := r_merchant_id requested;
                   out_decision_id := r_decision_id requested;
                   out_amount_minor_units := default 0 (r_amount_minor_units requested);
                   out_currency := default EmptyString (r_currency requested); out_requested_at := r_created_at requested |}
  end.

(** [order_id] and [reference] restrict the query when given. *)
Definition outstanding_batch (l : list Row) (tenant : string) (moment : Z) (order_id reference : option string) (limit : nat) : list Row :=
  take (limit * 4) (sort_by (λ a b, r_created_at a <=? r_created_at b)
    (List.filter (λ r, String.eqb (r_tenant_id r) tenant && String.eqb (r_provider r) PROVIDER &&
                       bool_decide (r_operation r = Refund) && (moment - RECONCILE_WINDOW <=? r_created_at r) &&
                       match order_id with Some o => bool_decide (r_order_id r = Some o) | None => true end &&
                       match reference with Some k => String.eqb (r_idempotency_key r) k | None => true end) l)).

Definition outstanding_refunds (tenant : string) (moment : Z) (order_id reference : option string) (limit : nat) :
    txn (list OutstandingRefund) := λ _ d,
  let batch := outstanding_batch (rows d) tenant moment order_id reference limit in
  Ok (d, take limit (omap (outstanding_of moment batch) (first_seen [] batch))).

Definition order_id_char (c : ascii) : bool :=
  is_lower_az c || is_upper_az c || is_digit c || existsb (Ascii.eqb c) ["_"; "."; ":"; "-"]%char.

Definition fetch_order (tenant order_id : string) : prog reply :=
  if bool_decide (0 < length (chars order_id) ≤ 120)%nat && forallb order_id_char (chars order_id)
  then Read tenant ("/pay/v1/orders/" +:+ order_id) (λ x, Ret (client_call x))
  else Ret Unavailable.

(** [_refund_target] of a refund of an order: the Plural order and the seller, when there are credentials *)
Definition _refund_target (credentials : bool) (tenant order_id : string) : txn (option (string * string)) := λ _ d,
  Ok (d, match orders d !! (tenant, order_id) with
         | Some order => if credentials then Some (default EmptyString (o_provider_order_ref order), o_seller_agent_id order) else None
         | None => None
         end).

(** [reconcile_refund] of a refund of an order, up to the change of the order's adjustment: the phase
    learned and recorded, or why there is none. *)
Definition reconcile_refund_journal (credentials : bool) (tenant order_id : string) (item : OutstandingRefund) : prog (phase + string) :=
  target ⇐ _refund_target credentials tenant order_id ;
  match target with
  | Some (provider_order_id, seller) =>
      if negb (provider_order_known provider_order_id) then Ret (inr "credentials_missing")
      else
        ' answer ⇇ fetch_order tenant provider_order_id ;
        match answer with
        | Data data =>
            match refund_state_from_order data (out_reference item) (out_amount_minor_units item) with
            | None => Ret (inr "still_unknown")
            | Some p =>
                let cur := if String.eqb (out_currency item) EmptyString then "INR" else out_currency item in
                let op := _operation tenant (out_merchant_id item) seller (out_checkout_session_id item) (out_decision_id item)
                            (out_reference item) (out_amount_minor_units item) cur (Some order_id) in
                _ ⇐ record_once op p (Some provider_order_id) [("source", VStr "reconcile"); ("phase", VStr (phase_name p))] ;
                Ret (inl p)
            end
        | _ => Ret (inr "status_unavailable")
        end
  | None => Ret (inr "credentials_missing")
  end.
End hosted.

(** * The sweep *)

Definition in_query (tenant : string) (moment : Z) (r : Row) : Prop :=
  r_tenant_id r = tenant ∧ r_provider r = PROVIDER ∧ r_operation r = Refund ∧ moment - RECONCILE_WINDOW ≤ r_created_at r.

(** The outcome of its refund is among the rows. *)
Definition settled_in (l : list Row) (r : Row) : Prop :=
  ∃ r', r' ∈ l ∧ r_idempotency_key r' = r_idempotency_key r ∧ (r_phase r' = Succeeded ∨ r_phase r' = Failed).

#[global] Instance in_query_dec tenant moment r : Decision (in_query tenant moment r).
Proof. unfold in_query. apply _. Defined.

#[global] Instance settled_in_dec l r : Decision (settled_in l r).
Proof.
  destruct (decide (Exists (λ r', r_idempotency_key r' = r_idempotency_key r ∧ (r_phase r' = Succeeded ∨ r_phase r' = Failed)) l)) as [Hl|Hl];
    rewrite Exists_exists in Hl; [left|right]; unfold settled_in; naive_solver.
Defined.

Lemma sort_by_prefix {A} (leb : A → A → bool) (old l : list A) :
  StronglySorted leb old → (∀ a b, a ∈ old → b ∈ l → leb a b = true) → sort_by leb (old ++ l) = old ++ sort_by leb l.
Proof.
  induction 1 as [|x old Hs IH Hx]; intros Hl; [done|]. cbn. rewrite IH by set_solver.
  assert (∀ y, y ∈ old ++ sort_by leb l → leb x y = true) as Hy.
  { intros y [Hy|Hy]%elem_of_app; [|apply Hl; [set_solver|by apply elem_of_sort_by in Hy]].
    rewrite Forall_forall in Hx. by apply Is_true_true, Hx. }
  destruct (old ++ sort_by leb l) as [|y l']; [done|]. cbn. by rewrite Hy by set_solver.
Qed.

Lemma omap_none {A B} (f : A → option B) l : (∀ x, x ∈ l → f x = None) → omap f l = [].
Proof. induction l as [|x l IH]; cbn; intros Hl; [done|]. rewrite Hl by set_solver. apply IH. set_solver. Qed.

Lemma first_seen_elem seen l k : k ∈ first_seen seen l → ∃ r, r ∈ l ∧ r_idempotency_key r = k.
Proof.
  revert seen. induction l as [|r l IH]; intros seen; cbn; [set_solver|]. case_bool_decide.
  - intros Hk. destruct (IH _ Hk) as (r' & ? & ?). exists r'. set_solver.
  - intros [->|Hk]%elem_of_cons; [exists r; set_solver|]. destruct (IH _ Hk) as (r' & ? & ?). exists r'. set_solver.
Qed.

Lemma outstanding_of_settled moment batch r : settled_in batch r → outstanding_of moment batch (r_idempotency_key r) = None.
Proof.
  intros (r' & Hin & Hk & Hp). unfold outstanding_of. case_match; [|done].
  assert (existsb (λ r, bool_decide (r_phase r = Succeeded ∨ r_phase r = Failed))
            (List.filter (λ r0, String.eqb (r_idempotency_key r0) (r_idempotency_key r)) batch) = true) as ->; [|done].
  apply existsb_exists. exists r'. split; [|by apply bool_decide_eq_true].
  apply filter_In. split; [by apply list_elem_of_In|by rewrite Hk, String.eqb_refl].
Qed.

(** The sweep reads the oldest rows of the last thirty days first and only [limit * 4] of them,
    settled refunds included: once so many rows of settled refunds are in the window, it finds no
    outstanding refund at all, however many there are after them and however old. *)
Theorem settled_refunds_starve_the_sweep d tenant moment limit old newer now :
  rows d = old ++ newer → length old = (limit * 4)%nat →
  StronglySorted (λ a b, r_created_at a <=? r_created_at b) old →
  (∀ a b, a ∈ old → b ∈ newer → r_created_at a ≤ r_created_at b) →
  Forall (in_query tenant moment) old → Forall (settled_in old) old →
  outstanding_refunds tenant moment None None limit now d = Ok (d, []).
Proof.
  intros Hrows Hlen Hsort Hnew Hq Hset. unfold outstanding_refunds, outstanding_batch. rewrite Hrows, List.filter_app.
  set (f := List.filter _ newer).
  rewrite (filter_all _ old).
  2: { eapply Forall_impl; [exact Hq|]. intros r (-> & Hp & Ho & Hw). 
       by rewrite Hp, Ho, !String.eqb_refl, bool_decide_eq_true_2, (proj2 (Z.leb_le _ _) Hw) by done. }
  rewrite sort_by_prefix; [|done|].
  2: { intros a b Ha Hb. apply Z.leb_le, Hnew; [done|]. unfold f in Hb.
       rewrite list_elem_of_In, filter_In, <- list_elem_of_In in Hb. tauto. }
  rewrite take_app_length' by done. do 2 f_equal.
  assert (omap (outstanding_of moment old) (first_seen [] old) = []) as ->; [|by rewrite take_nil].
  apply omap_none. intros k (r & Hr & <-)%first_seen_elem. apply outstanding_of_settled.
  rewrite Forall_forall in Hset. by apply Hset.
Qed.

(** A hundred settled refunds of one hour ago, and one of half an hour ago still without an outcome *)
Definition example_call (key : string) : OperationRecord := _operation "t1" "merchant-1" "seller-1" "chk-1" "dec-1" key 100 "INR" (Some "ord-1").

Definition settled_rows : list Row :=
  seq 0 100 ≫= λ i, [values (Z.of_nat i) (example_call (pretty i)) Requested None [];
                     values (Z.of_nat i) (example_call (pretty i)) Succeeded (Some "po-1") []].

Definition open_row : Row := values 1000 (example_call "aor-open") Requested None [].

Definition busy_db : db := {| rows := settled_rows ++ [open_row]; ledger := []; orders := ∅; sellers := ∅ |}.

Lemma settled_refunds_starve_the_sweep_witness :
  outstanding_refunds "t1" (1000 + 2 * RECONCILE_AFTER) None (Some "aor-open") RECONCILE_BATCH 0 busy_db ≠ Ok (busy_db, []) ∧
  outstanding_refunds "t1" (1000 + 2 * RECONCILE_AFTER) None None RECONCILE_BATCH 0 busy_db = Ok (busy_db, []).
Proof.
  split; [intros Hx; apply (f_equal (λ r, match r with Ok (_, []) => true | _ => false end)) in Hx; vm_compute in Hx; discriminate Hx|].
  apply (settled_refunds_starve_the_sweep busy_db "t1" (1000 + 2 * RECONCILE_AFTER) RECONCILE_BATCH settled_rows [open_row] 0).
  - reflexivity.
  - vm_compute. reflexivity.
  - apply Sorted_StronglySorted; [intros a b c; rewrite !Is_true_true, !Z.leb_le; lia|].
    apply (bool_decide_unpack _). vm_compute. reflexivity.
  - intros a b Ha ->%list_elem_of_singleton.
    assert (Forall (λ r, r_created_at r ≤ 1000) settled_rows) as Hall by (apply (bool_decide_unpack _); vm_compute; reflexivity).
    rewrite Forall_forall in Hall. by apply Hall.
  - apply (bool_decide_unpack _). vm_compute. reflexivity.
  - apply (bool_decide_unpack _). vm_compute. reflexivity.
Defined.
