(* ===== verification/PaymentSystem.v ===== *)
(** Payments as a system: any number of executions, refunds, hosted refunds and
    reconciliations of both, one transaction or call of any of them at a time, with the
    provider deciding what becomes of each call.

    The provider keeps [sent], the calls it was sent, [made], those it carried out, and
    [refused], those it will never carry out. It may carry out a call at any time after it was
    sent, answered or not. The answers are arbitrary but for what the code relies on: an
    explicit refusal, in the answer to the call or in a later read, is of a refused call. *)

From S2P Require Import Prelude PyVal PyText ArbiterStore PaymentJournal PluralExecutor HostedRefunds.

Local Open Scope Z_scope.

Definition call_key (op : OperationRecord) : string * string * operation :=
  (op_tenant_id op, op_idempotency_key op, op_operation op).

Record world := {
  wdb : db;
  sent : list OperationRecord;
  made : list OperationRecord;
  refused : list OperationRecord;
  pool : list (prog unit);
}.

Section system.
Context `{PyStr}.
(** The orders paid on a hosted page, by tenant and id: [o_executor] is set when the order is
    created and never changed. *)
Context (hosted : string → string → bool).

Definition explicit_refusal (x : exchange) : Prop :=
  match client_call x with
  | RequestError status _ => refused_phase status = Failed
  | Data data => refund_phase (status_of data) = Failed
  | Unavailable => False
  end.

#[global] Instance explicit_refusal_dec x : Decision (explicit_refusal x).
Proof. unfold explicit_refusal. destruct (client_call x); apply _. Defined.

(** A read that shows a refund as failed is of a refused call. *)
Definition truthful (dead : list OperationRecord) (tenant : string) (x : exchange) : Prop :=
  ∀ data reference amount, client_call x = Data data → refund_state_from_order data reference amount = Some Failed →
  ∃ op, op ∈ dead ∧ call_key op = (tenant, reference, Refund).

Abbreviation quiet p := (bind p (λ _, Ret tt)).

(** The operations that may start. The executor refunds only orders it was the executor of. *)
Inductive job : prog unit → Prop :=
| job_execute client ck decision : job (quiet (execute client ck decision))
| job_refund client rq decision :
    hosted (rq_tenant_id rq) (rq_order_id rq) = false → job (quiet (refund client rq decision))
| job_reconcile client tenant outcome sha : job (quiet (reconcile_journal client tenant outcome sha))
| job_hosted creds tenant order_id reference decision hash amount cur :
    job (quiet (refund_hosted_order creds tenant order_id reference decision hash amount cur))
| job_reconcile_refund creds tenant order_id item : job (quiet (reconcile_refund_journal creds tenant order_id item)).

Definition conform (d : db) : Prop :=
  ∀ t o ord, orders d !! (t, o) = Some ord → String.eqb (o_executor ord) HOSTED_EXECUTOR = hosted t o.

(** What other code does to the tables: snapshots of orders change (adjustments recorded by
    hand among them), new orders get ids no journal row names, sellers change. *)
Definition environment (d d' : db) : Prop :=
  rows d' = rows d ∧ conform d' ∧
  (∀ k ord, orders d !! k = Some ord → ∃ ord', orders d' !! k = Some ord' ∧ o_total_minor_units ord' = o_total_minor_units ord) ∧
  (∀ t o, is_Some (orders d' !! (t, o)) → orders d !! (t, o) = None →
    ∀ r, r ∈ rows d → r_tenant_id r = t → r_order_id r ≠ Some o).

Inductive step : world → world → Prop :=
| step_start w p : job p →
    step w {| wdb := wdb w; sent := sent w; made := made w; refused := refused w; pool := pool w ++ [p] |}
| step_txn w l1 l2 X (t : txn X) k now d x : pool w = l1 ++ Txn t k :: l2 → t now (wdb w) = Ok (d, x) →
    step w {| wdb := d; sent := sent w; made := made w; refused := refused w; pool := l1 ++ k x :: l2 |}
| step_error w l1 l2 X (t : txn X) k now e : pool w = l1 ++ Txn t k :: l2 → t now (wdb w) = Err e →
    step w {| wdb := wdb w; sent := sent w; made := made w; refused := refused w; pool := l1 ++ Raise e :: l2 |}
| step_call w l1 l2 op method path body k x : pool w = l1 ++ Call op method path body k :: l2 →
    step w {| wdb := wdb w; sent := sent w ++ [op]; made := made w;
              refused := refused w ++ (if decide (explicit_refusal x) then [op] else []); pool := l1 ++ k x :: l2 |}
| step_read w l1 l2 tenant path k x : pool w = l1 ++ Read tenant path k :: l2 → truthful (refused w) tenant x →
    step w {| wdb := wdb w; sent := sent w; made := made w; refused := refused w; pool := l1 ++ k x :: l2 |}
| step_make w op : op ∈ sent w → op ∉ made w → op ∉ refused w →
    step w {| wdb := wdb w; sent := sent w; made := made w ++ [op]; refused := refused w; pool := pool w |}
| step_refuse w op : op ∈ sent w → op ∉ made w →
    step w {| wdb := wdb w; sent := sent w; made := made w; refused := refused w ++ [op]; pool := pool w |}
| step_environment w d : environment (wdb w) d →
    step w {| wdb := d; sent := sent w; made := made w; refused := refused w; pool := pool w |}.

(** Nothing was journalled or sent yet. *)
Definition initial (w : world) : Prop :=
  rows (wdb w) = [] ∧ conform (wdb w) ∧ sent w = [] ∧ made w = [] ∧ refused w = [] ∧ pool w = [].

Definition reachable (w : world) : Prop := ∃ w0, initial w0 ∧ rtc step w0 w.
End system.

(** * The discipline of the programs

    What every transaction of every operation does to the journal, for one order [(T, O)], and
    that a call is sent only by the operation whose transaction journalled it as requested. *)

Section discipline.
Context `{PyStr} (hosted : string → string → bool) (T O : string).

Definition relevant (r : Row) : Prop :=
  hosted T O = true ∧ r_tenant_id r = T ∧ r_order_id r = Some O ∧ r_operation r = Refund.

(** A failed refund of the order is one the provider refused. *)
Definition failure_known (dead : list OperationRecord) (r : Row) : Prop :=
  relevant r → r_phase r = Failed → ∃ op, op ∈ dead ∧ call_key op = (T, r_idempotency_key r, Refund).

Definition wf (d : db) : Prop := NoDup (unique_key <$> rows d) ∧ Forall (λ r, amount_ok r = true) (rows d) ∧ conform hosted d.

Definition bounded (d : db) : Prop :=
  hosted T O = true → ∀ ord, orders d !! (T, O) = Some ord → journalled_refunds (rows d) T O ≤ Z.max 0 (o_total_minor_units ord).

Definition legal (dead : list OperationRecord) (d d' : db) : Prop :=
  orders d' = orders d ∧ (∃ new, rows d' = rows d ++ new ∧ Forall (failure_known dead) new) ∧
  (wf d → bounded d → wf d' ∧ bounded d').

Definition unrequested (l : list Row) (op : OperationRecord) : Prop := (call_key op, Requested) ∉ unique_key <$> l.

Definition requested_by (l : list Row) (op : OperationRecord) : Prop := ∃ now, values now op Requested None [] ∈ l.

Fixpoint safe {A} (tok : option OperationRecord) (dead : list OperationRecord) (p : prog A) : Prop :=
  match p with
  | Ret _ | Raise _ => True
  | Txn t k => ∀ now d d' x dead', dead ⊆ dead' → t now d = Ok (d', x) →
      legal dead' d d' ∧
      (safe None dead' (k x) ∨ ∃ op, unrequested (rows d) op ∧ requested_by (rows d') op ∧ safe (Some op) dead' (k x))
  | Call op _ _ _ k => tok = Some op ∧ ∀ x dead', dead ⊆ dead' → (explicit_refusal x → op ∈ dead') → safe None dead' (k x)
  | Read tenant _ k => ∀ x dead', dead ⊆ dead' → truthful dead' tenant x → safe None dead' (k x)
  end.

Lemma safe_mono {A} tok dead dead' (p : prog A) : dead ⊆ dead' → safe tok dead p → safe tok dead' p.
Proof.
  intros Hsub. destruct p; cbn; [done|done| | |].
  - intros Hp now d d' x dead'' Hsub'. apply Hp. set_solver.
  - intros [-> Hp]. split; [done|]. intros x dead'' Hsub'. apply Hp. set_solver.
  - intros Hp x dead'' Hsub'. apply Hp. set_solver.
Qed.

Lemma safe_token {A} tok dead (p : prog A) : safe None dead p → safe tok dead p.
Proof. destruct p; cbn; naive_solver. Qed.

Lemma safe_bind {A B} tok dead (p : prog A) (f : A → prog B) :
  safe tok dead p → (∀ a dead', dead ⊆ dead' → safe None dead' (f a)) → safe tok dead (bind p f).
Proof.
  revert tok dead. induction p as [a|e|X t k IH|op method path body k IH|tenant path k IH]; intros tok dead Hp Hf; cbn in *.
  - apply safe_token, Hf. done.
  - done.
  - intros now d d' x dead' Hsub Ht. destruct (Hp now d d' x dead' Hsub Ht) as [Hl Hk]. split; [done|].
    destruct Hk as [Hk|(op & Hu & Hr & Hk)]; [left|right; exists op; repeat split; try done];
      (apply IH; [done|]; intros; apply Hf; set_solver).
  - destruct Hp as [-> Hp]. split; [done|]. intros x dead' Hsub Hx. apply IH; [by apply Hp|]. intros; apply Hf; set_solver.
  - intros x dead' Hsub Hx. apply IH; [by apply Hp|]. intros; apply Hf; set_solver.
Qed.

(** ** The sums of the order *)

Lemma call_amount_key k c : call_amount k c = call_amount EmptyString c.
Proof. done. Qed.

Lemma add_call_sum calls r :
  sum_map call_amount (add_call calls r) =
  sum_map call_amount calls - call_amount EmptyString (default (∅, 0) (calls !! r_idempotency_key r))
  + call_amount EmptyString
      ({[r_phase r]} ∪ fst (default (∅, 0) (calls !! r_idempotency_key r)),
       if bool_decide (r_phase r = Requested) then default 0 (r_amount_minor_units r)
       else snd (default (∅, 0) (calls !! r_idempotency_key r))).
Proof.
  unfold add_call. destruct (calls !! r_idempotency_key r) as [[ph a]|] eqn:Hk; cbn [default from_option id fst snd];
    rewrite sum_map_insert.
  - rewrite (sum_map_delete call_amount calls _ (ph, a)), !(call_amount_key (r_idempotency_key r)) by done. ring.
  - rewrite delete_id, (call_amount_key (r_idempotency_key r)) by done.
    assert (call_amount EmptyString (∅, 0) = 0) as -> by (unfold call_amount; by case_bool_decide). ring.
Qed.

Lemma order_refund_rows_snoc l r t o :
  order_refund_rows (l ++ [r]) t o =
  order_refund_rows l t o ++
  (if String.eqb (r_tenant_id r) t && bool_decide (r_order_id r = Some o) && bool_decide (r_operation r = Refund) then [r] else []).
Proof. unfold order_refund_rows. rewrite List.filter_app. cbn. by destruct (_ && _). Qed.

Lemma journalled_irrelevant l r :
  hosted T O = true → ¬ relevant r → journalled_refunds (l ++ [r]) T O = journalled_refunds l T O.
Proof.
  intros Hh Hr. unfold journalled_refunds, journalled_refund_calls. rewrite order_refund_rows_snoc.
  destruct (_ && _) eqn:Hb; [|by rewrite app_nil_r]. exfalso. apply Hr.
  apply andb_true_iff in Hb as [[Ht Ho]%andb_true_iff Hop].
  apply String.eqb_eq in Ht. apply bool_decide_eq_true in Ho, Hop. done.
Qed.

Lemma call_amount_nonneg l t o : Forall (λ r, amount_ok r = true) l → ∀ k c, journalled_refund_calls l t o !! k = Some c → 0 ≤ snd c.
Proof.
  unfold journalled_refund_calls. intros Hl.
  assert (Forall (λ r, amount_ok r = true) (order_refund_rows l t o)) as Hl'.
  { rewrite Forall_forall in *. intros r Hr. apply Hl. unfold order_refund_rows in Hr.
    rewrite list_elem_of_In, filter_In, <- list_elem_of_In in Hr. tauto. }
  clear Hl. induction (order_refund_rows l t o) as [|r l' IH] using rev_ind; intros k c.
  - cbn. by rewrite lookup_empty.
  - apply Forall_app in Hl' as [Hl' Hr]. rewrite foldl_app. cbn [foldl]. unfold add_call at 1.
    destruct (default _ _) as [ph a] eqn:Hd. destruct (decide (k = r_idempotency_key r)) as [->|Hk].
    + rewrite lookup_insert_eq. intros [= <-]. cbn [snd]. case_bool_decide.
      * rewrite Forall_singleton in Hr. unfold amount_ok in Hr. destruct (r_amount_minor_units r); cbn in *; lia.
      * destruct (foldl add_call ∅ l' !! r_idempotency_key r) as [[ph' a']|] eqn:Hq; cbn in Hd; simplify_eq; [|done].
        by apply (IH Hl' _ _ Hq).
    + rewrite lookup_insert_ne by done. by apply IH.
Qed.

(** An outcome row never raises what counts as refunded. *)
Lemma journalled_outcome l r :
  Forall (λ r, amount_ok r = true) l → r_phase r ≠ Requested → journalled_refunds (l ++ [r]) T O ≤ journalled_refunds l T O.
Proof.
  intros Hl Hp. unfold journalled_refunds, journalled_refund_calls. rewrite order_refund_rows_snoc.
  destruct (_ && _); [|rewrite app_nil_r; lia]. rewrite foldl_app. cbn [foldl]. rewrite add_call_sum.
  fold (journalled_refund_calls l T O).
  rewrite bool_decide_eq_false_2 by done.
  pose proof (call_amount_nonneg l T O Hl (r_idempotency_key r)) as Hn.
  destruct (journalled_refund_calls l T O !! r_idempotency_key r) as [[ph a]|]; cbn [default from_option id fst snd].
  - specialize (Hn _ eq_refl). cbn in Hn. unfold call_amount. cbn [fst snd]. repeat case_bool_decide; try lia; set_solver.
  - unfold call_amount. cbn [fst snd]. repeat case_bool_decide; lia.
Qed.

(** ** Transactions *)

Lemma legal_refl dead d : legal dead d d.
Proof. split; [done|]. split; [|done]. exists []. by rewrite app_nil_r. Qed.

Lemma legal_event dead d d' e : legal dead d d' → legal dead d (with_event d' e).
Proof. intros (Ho & Hr & Hw). by repeat (split; [done|]). Qed.

Lemma insert_if_new_cases r d d' b :
  insert_if_new r d = Ok (d', b) →
  (b = false ∧ d' = d) ∨
  (b = true ∧ d' = with_rows d (rows d ++ [r]) ∧ amount_ok r = true ∧ unique_key r ∉ unique_key <$> rows d).
Proof.
  unfold insert_if_new, conflicts. destruct (amount_ok r); cbn; [|done].
  case_bool_decide; intros [= <- <-]; [by left|]. right. done.
Qed.

Lemma insert_wf r d :
  wf d → amount_ok r = true → unique_key r ∉ unique_key <$> rows d → wf (with_rows d (rows d ++ [r])).
Proof.
  intros (Hn & Ha & Hc) Hr Hu. split; [|split; [|done]].
  - cbn. rewrite fmap_app. apply NoDup_app. split; [done|]. split; [|apply NoDup_singleton].
    intros x Hx Hx'. apply list_elem_of_singleton in Hx' as ->. by apply Hu.
  - cbn. apply Forall_app. split; [done|]. by apply Forall_singleton.
Qed.

Lemma insert_legal dead r d d' b :
  insert_if_new r d = Ok (d', b) → failure_known dead r → (relevant r → r_phase r ≠ Requested) → legal dead d d'.
Proof.
  intros Hi Hf Hp. destruct (insert_if_new_cases _ _ _ _ Hi) as [[-> ->]|(-> & -> & Ha & Hu)]; [apply legal_refl|].
  split; [done|]. split; [exists [r]; by rewrite Forall_singleton|]. intros Hw Hb. split; [by apply insert_wf|].
  intros Hh ord Ho. cbn in *. specialize (Hb Hh ord Ho). destruct Hw as (_ & Hl & _).
  destruct (decide (r_phase r = Requested)) as [Hq|Hq].
  - rewrite journalled_irrelevant; [done|done|]. intros Hrel. by apply Hp.
  - etrans; [by apply journalled_outcome|done].
Qed.

(** An operation that is not a refund of the order, or an outcome of a call *)
Definition elsewhere (op : OperationRecord) : Prop :=
  hosted T O = true → op_tenant_id op = T → op_order_id op = Some O → op_operation op ≠ Refund.

Lemma elsewhere_irrelevant now op p ref details : elsewhere op → ¬ relevant (values now op p ref details).
Proof. intros He (Hh & Ht & Ho & Hop). by apply (He Hh Ht Ho). Qed.

Lemma safe_begin {A} tok dead op (k : bool → prog A) :
  elsewhere op → (∀ dead', dead ⊆ dead' → safe (Some op) dead' (k true) ∧ safe None dead' (k false)) →
  safe tok dead (Txn (begin op) k).
Proof.
  intros He Hk now d d' x dead' Hsub Ht. specialize (Hk dead' Hsub). unfold begin in Ht.
  destruct (insert_if_new _ d) as [[d1 b]|] eqn:Hi; [|done].
  assert (legal dead' d d1) as Hl.
  { eapply insert_legal; [exact Hi| |]; intros Hr; by apply elsewhere_irrelevant in Hr. }
  destruct b; inv_ok.
  - split; [done|]. right. exists op. destruct (insert_if_new_cases _ _ _ _ Hi) as [[? _]|(_ & -> & _ & Hu)]; [done|].
    repeat split; [exact Hu| |apply Hk]. exists now. cbn. set_solver.
  - split; [by apply legal_event|]. left. apply Hk.
Qed.

Lemma outcome_legal dead op p ref details now d d' b :
  insert_if_new (values now op p ref details) d = Ok (d', b) → p ≠ Requested → (elsewhere op ∨ (p = Failed → op ∈ dead)) →
  legal dead d d'.
Proof.
  intros Hi Hp Hd. eapply insert_legal; [exact Hi| |done]. intros Hr Hf.
  destruct Hd as [He|Hd]; [by apply elsewhere_irrelevant in Hr|]. exists op. split; [by apply Hd|].
  destruct Hr as (_ & Ht & _ & Ho). cbn in *. unfold call_key. by rewrite Ht, Ho.
Qed.

Lemma safe_finish {A} tok dead op p ref details (k : unit → prog A) :
  p ≠ Requested → (elsewhere op ∨ (p = Failed → op ∈ dead)) → (∀ dead', dead ⊆ dead' → safe None dead' (k tt)) →
  safe tok dead (Txn (finish op p ref details) k).
Proof.
  intros Hp Hd Hk now d d' [] dead' Hsub Ht. split; [|left; by apply Hk]. unfold finish in Ht.
  destruct (insert_if_new _ d) as [[d1 []]|] eqn:Hi; inv_ok. apply legal_event.
  eapply outcome_legal; [exact Hi|done|]. destruct Hd as [?|Hd]; [by left|right; intros; by apply Hsub, Hd].
Qed.

Lemma safe_record_once {A} tok dead op p ref details (k : bool → prog A) :
  p ≠ Requested → (elsewhere op ∨ (p = Failed → op ∈ dead) ∨ (p = Failed → ∃ op', op' ∈ dead ∧ call_key op' = call_key op)) →
  (∀ b dead', dead ⊆ dead' → safe None dead' (k b)) → safe tok dead (Txn (record_once op p ref details) k).
Proof.
  intros Hp Hd Hk now d d' x dead' Hsub Ht. split; [|left; by apply Hk]. unfold record_once in Ht.
  destruct (insert_if_new _ d) as [[d1 b]|] eqn:Hi; [|done].
  assert (legal dead' d d1) as Hl.
  { eapply insert_legal; [exact Hi| |done]. intros Hr Hf. cbn in Hf.
    destruct Hd as [He|[Hd|Hd]]; [by apply elsewhere_irrelevant in Hr| |].
    - exists op. split; [by apply Hsub, Hd|]. destruct Hr as (_ & Ht' & _ & Ho). cbn in *. unfold call_key. by rewrite Ht', Ho.
    - destruct (Hd Hf) as (op' & Hin & Hkey). exists op'. split; [by apply Hsub|]. rewrite Hkey.
      destruct Hr as (_ & Ht' & _ & Ho). cbn in *. unfold call_key. by rewrite Ht', Ho. }
  destruct b; inv_ok; [by apply legal_event|done].
Qed.

Lemma safe_blocked {A} tok dead op reason (k : unit → prog A) :
  (∀ dead', dead ⊆ dead' → safe None dead' (k tt)) → safe tok dead (Txn (blocked op reason) k).
Proof. intros Hk now d d' [] dead' Hsub [= <-]. split; [apply legal_event, legal_refl|left; by apply Hk]. Qed.

(** A transaction that only reads *)
Lemma safe_reads {A X} tok dead (t : txn X) (k : X → prog A) :
  (∀ now d d' x, t now d = Ok (d', x) → d' = d) → (∀ x dead', dead ⊆ dead' → safe None dead' (k x)) → safe tok dead (Txn t k).
Proof. intros Ht Hk now d d' x dead' Hsub Hx. rewrite (Ht _ _ _ _ Hx). split; [apply legal_refl|left; by apply Hk]. Qed.

(** ** Programs *)

Lemma safe_call dead record method path body ref success pending :
  elsewhere record → safe None dead (_call record method path body ref success pending).
Proof.
  intros He. apply safe_begin; [done|]. intros dead' _. split; [|done].
  cbn [negb]. split; [done|]. intros x dead2 _ _.
  destruct (client_call x) as [data|status code|]; apply safe_finish; try done; try (by left).
  repeat case_match; done.
Qed.

Lemma safe_execute dead client ck decision : safe None dead (execute client ck decision).
Proof.
  unfold execute. destruct (execution_instrument client ck decision) as [i|problem]; [|by apply safe_blocked].
  destruct (payment_option i _) as [method option].
  apply safe_bind; [by apply safe_call|]. intros [ph created] dead1 _. case_match; [done|]. case_match; [done|].
  apply safe_bind; [by apply safe_call|]. intros [ph2 paid] dead2 _. repeat case_match; try done; try (by apply safe_blocked).
  all: apply safe_bind; [by apply safe_call|]; intros [ph3 ?] dead3 _; by case_match.
Qed.

Lemma safe_refund dead client rq decision :
  hosted (rq_tenant_id rq) (rq_order_id rq) = false → safe None dead (refund client rq decision).
Proof.
  intros Hh. apply safe_reads; [by intros ???? [= <- _]|]. intros state dead1 _.
  destruct (refund_problem rq decision state client); [by apply safe_blocked|].
  apply safe_bind; [|intros [ph data] dead2 _; by repeat case_match]. apply safe_call.
  intros Hto Ht Ho. cbn in Ht, Ho. simplify_eq. congruence.
Qed.

Lemma safe_reconcile dead client tenant outcome sha : safe None dead (reconcile_journal client tenant outcome sha).
Proof.
  apply safe_reads; [by intros ???? [= <- _]|]. intros entries dead1 _. case_match; [|done].
  apply safe_reads; [by intros ???? [= <- _]|]. intros seller dead2 _.
  repeat case_match; try done; try (by apply safe_blocked).
  all: try (apply safe_record_once; [done|by left|done]).
  all: apply safe_bind; [by apply safe_call|]; intros [ph3 ?] dead3 _; by case_match.
Qed.

Lemma safe_call_plural dead provider_order op metadata : safe (Some op) dead (_call_plural provider_order op metadata).
Proof.
  split; [done|]. intros x dead1 _ Hx. unfold explicit_refusal in Hx.
  destruct (client_call x) as [data|status code|]; apply safe_finish; try done; try (by right).
  - unfold refund_phase. by repeat case_match.
  - unfold refused_phase. by repeat case_match.
Qed.

Lemma total_lines_nonneg l : 0 ≤ sumZ (total_line <$> l).
Proof. apply sumZ_nonneg, Forall_fmap, Forall_true. intros line. unfold total_line. cbn. repeat case_match; lia. Qed.

Lemma recorded_refunds_nonneg snapshot ids z : recorded_refunds snapshot ids = Ok z → 0 ≤ z.
Proof.
  unfold recorded_refunds. intros Hz. inv_ok.
  match goal with Hf : fold_res _ _ _ = Ok z |- _ => revert Hf end. apply (fold_res_inv (λ z, 0 ≤ z)); [lia|].
  intros s e s' Hs Hx. unfold recorded_entry in Hx. destruct e; inv_ok; try done.
  repeat (case_match; inv_ok; [done|]).
  match goal with |- context [total_line <$> ?ls] => pose proof (total_lines_nonneg ls) end. lia.
Qed.

Lemma calls_fresh l tenant order_id key :
  (∀ r, r ∈ l → r_tenant_id r = tenant → r_idempotency_key r = key → r_operation r ≠ Refund) →
  journalled_refund_calls l tenant order_id !! key = None.
Proof.
  intros Hl. unfold journalled_refund_calls.
  assert (∀ r, r ∈ order_refund_rows l tenant order_id → r_idempotency_key r ≠ key) as Hk.
  { intros r Hr Hk. unfold order_refund_rows in Hr. rewrite list_elem_of_In, filter_In, <- list_elem_of_In in Hr.
    destruct Hr as [Hr Hb]. apply andb_true_iff in Hb as [[Ht _]%andb_true_iff Hop].
    apply String.eqb_eq in Ht. apply bool_decide_eq_true in Hop. by apply (Hl r). }
  induction (order_refund_rows l tenant order_id) as [|r l' IH] using rev_ind; [apply lookup_empty|].
  rewrite foldl_app. cbn [foldl]. unfold add_call at 1. destruct (default _ _).
  rewrite lookup_insert_ne by (apply Hk; set_solver). apply IH. intros; apply Hk; set_solver.
Qed.

(** A first request counts with its amount. *)
Lemma journalled_request l now op :
  op_tenant_id op = T → op_order_id op = Some O → op_operation op = Refund →
  (∀ r, r ∈ l → r_tenant_id r = T → r_idempotency_key r = op_idempotency_key op → r_operation r ≠ Refund) →
  journalled_refunds (l ++ [values now op Requested None []]) T O = journalled_refunds l T O + default 0 (op_amount_minor_units op).
Proof.
  intros Ht Ho Hop Hl. unfold journalled_refunds, journalled_refund_calls. rewrite order_refund_rows_snoc. cbn.
  rewrite Ht, Ho, Hop, String.eqb_refl, !bool_decide_eq_true_2 by done. cbn [andb].
  rewrite foldl_app. cbn [foldl]. rewrite add_call_sum. fold (journalled_refund_calls l T O). cbn.
  rewrite calls_fresh by done. cbn [default from_option id fst snd]. unfold call_amount at 2 3. cbn [fst snd].
  rewrite !bool_decide_eq_true_2 by set_solver. lia.
Qed.

Lemma safe_reserve {A} dead creds tenant order_id reference decision amount cur (k : _ → prog A) :
  (∀ res dead', dead ⊆ dead' → safe None dead' (k (inl res))) →
  (∀ op po dead', dead ⊆ dead' → safe (Some op) dead' (k (inr (op, po)))) →
  safe None dead (Txn (reserve creds tenant order_id reference decision amount cur) k).
Proof.
  intros Hl Hr now d d' x dead' Hsub Ht. unfold reserve in Ht.
  destruct (orders d !! (tenant, order_id)) as [order|] eqn:Ho; [|inv_ok; split; [apply legal_refl|left; by apply Hl]].
  destruct (_journalled d tenant reference) eqn:Hj; [inv_ok; split; [apply legal_refl|left; by apply Hl]|].
  repeat (case_match; [by inv_ok; split; [apply legal_refl|left; by apply Hl]|]).
  destruct (hosted_refunded d tenant order_id order) as [refunded|] eqn:Hre; [|done].
  do 2 (case_match; [by inv_ok; split; [apply legal_refl|left; by apply Hl]|]).
  set (op := _operation _ _ _ _ _ _ _ _ _) in *.
  destruct (_begin op now d) as [[d1 b]|] eqn:Hi; [|done].
  destruct (insert_if_new_cases _ _ _ _ Hi) as [[-> ->]|(-> & -> & Ha & Hu)]; inv_ok.
  { split; [apply legal_refl|left; by apply Hl]. }
  split; [|right; exists op; repeat split; [exact Hu|exists now; cbn; set_solver|by apply Hr]].
  split; [done|]. split; [exists [values now op Requested None []]; split; [done|]; apply Forall_singleton; by intros _ ?|].
  intros Hw Hb. split; [by apply insert_wf|]. intros Hh ord Hord. cbn [rows with_rows orders] in *.
  destruct (decide (tenant = T ∧ order_id = O)) as [[-> ->]|Hne].
  - rewrite journalled_request; [|done..|].
    + unfold hosted_refunded in Hre. inv_ok. simplify_eq.
      match goal with Hrec : recorded_refunds _ _ = Ok _ |- _ => apply recorded_refunds_nonneg in Hrec end.
      cbn [op op_amount_minor_units _operation default from_option id]. rewrite Z.ltb_ge in *. lia.
    + intros r Hin Hrt Hrk Hrop. unfold _journalled in Hj. apply not_true_iff_false in Hj. apply Hj.
      apply existsb_exists. exists r. split; [by apply list_elem_of_In|]. cbn in Hrk.
      by rewrite Hrt, Hrk, !String.eqb_refl, bool_decide_eq_true_2.
  - rewrite journalled_irrelevant; [by apply Hb|done|]. intros (_ & Ht' & Ho' & _). cbn in *. naive_solver.
Qed.

Lemma safe_hosted dead creds tenant order_id reference decision hash amount cur :
  safe None dead (refund_hosted_order creds tenant order_id reference decision hash amount cur).
Proof.
  apply safe_reserve; [done|]. intros op po dead1 _. apply safe_bind; [apply safe_call_plural|]. by intros [ph ref] dead2 _.
Qed.

Lemma safe_reconcile_refund dead creds tenant order_id item :
  safe None dead (reconcile_refund_journal creds tenant order_id item).
Proof.
  apply safe_reads; [by intros ???? [= <- _]|]. intros [[po seller]|] dead1 _; [|done].
  destruct (negb (provider_order_known po)); [done|]. unfold fetch_order. case_match; [|done]. cbn [bind].
  intros x dead2 _ Hx. destruct (client_call x) as [data| |] eqn:Hc; [|done..].
  destruct (refund_state_from_order data _ _) as [p|] eqn:Hp; [|done].
  apply safe_record_once; [|right; right; intros ->; by apply (Hx data _ _ Hc Hp)|done].
  intros ->. revert Hp. unfold refund_state_from_order, refund_phase. repeat case_match; congruence.
Qed.

Lemma safe_job dead p : job hosted p → safe None dead p.
Proof.
  intros []; (apply safe_bind; [|done]).
  - apply safe_execute.
  - by apply safe_refund.
  - apply safe_reconcile.
  - apply safe_hosted.
  - apply safe_reconcile_refund.
Qed.

(** * The invariant

    Each running operation holds at most one call it has journalled and not sent ([toks]). *)

Definition held (toks : list (option OperationRecord)) : list OperationRecord := omap id toks.

Record inv (toks : list (option OperationRecord)) (w : world) : Prop := {
  inv_pool : Forall2 (λ tok p, safe tok (refused w) p) toks (pool w);
  inv_once : NoDup (call_key <$> sent w ++ held toks);
  inv_requested : ∀ op, op ∈ sent w ++ held toks → requested_by (rows (wdb w)) op;
  inv_db : wf (wdb w) ∧ bounded (wdb w);
  inv_made : made w ⊆ sent w ∧ NoDup (made w);
  inv_refused : refused w ⊆ sent w ∧ ∀ op, op ∈ made w → op ∉ refused w;
  inv_failures : Forall (failure_known (refused w)) (rows (wdb w));
}.

Lemma inv_initial w : initial hosted w → inv [] w.
Proof.
  intros (Hr & Hc & Hs & Hm & Hf & Hp). split; rewrite ?Hr, ?Hs, ?Hm, ?Hf, ?Hp; cbn; try (by constructor); try set_solver.
  - split; [split; rewrite Hr; [constructor|by split]|]. intros Hh ord _. rewrite Hr.
    unfold journalled_refunds, journalled_refund_calls, sum_map. cbn. rewrite map_fold_empty. lia.
  - split; [set_solver|constructor].
Qed.

Lemma requested_by_key l op : requested_by l op → (call_key op, Requested) ∈ unique_key <$> l.
Proof. intros [now Hin]. apply list_elem_of_fmap. by exists (values now op Requested None []). Qed.

Lemma unrequested_fresh l (ops : list OperationRecord) op :
  (∀ op', op' ∈ ops → requested_by l op') → unrequested l op → call_key op ∉ call_key <$> ops.
Proof.
  intros Hreq Hu Hin. apply list_elem_of_fmap in Hin as (op' & Heq & Hin). apply Hu. rewrite Heq.
  by apply requested_by_key, Hreq.
Qed.

Lemma held_app t1 tok t2 : held (t1 ++ tok :: t2) ≡ₚ option_list tok ++ held (t1 ++ t2).
Proof. unfold held. rewrite !omap_app. cbn. destruct tok; cbn; [|done]. by rewrite Permutation_middle. Qed.

Lemma failure_known_mono dead dead' r : dead ⊆ dead' → failure_known dead r → failure_known dead' r.
Proof. intros Hsub Hf Hr Hp. destruct (Hf Hr Hp) as (op & ? & ?). exists op. split; [by apply Hsub|done]. Qed.

(** One operation moves on with the journal [d] and the token [tok']; the provider's lists are unchanged. *)
Lemma inv_advance toks w l1 l2 p d tok' p' :
  inv toks w → pool w = l1 ++ p :: l2 → legal (refused w) (wdb w) d →
  (∀ tok, safe tok (refused w) p →
     safe tok' (refused w) p' ∧ match tok' with Some op => unrequested (rows (wdb w)) op ∧ requested_by (rows d) op | None => True end) →
  ∃ toks', inv toks' {| wdb := d; sent := sent w; made := made w; refused := refused w; pool := l1 ++ p' :: l2 |}.
Proof.
  intros [Hpool Honce Hreq [Hw Hb] Hmade Href Hfail] Hp (Ho & (new & Hrows & Hnew) & Hl) Hstep.
  rewrite Hp in Hpool. apply Forall2_app_inv_r in Hpool as (t1 & t2' & H1 & H2 & ->).
  apply Forall2_cons_inv_r in H2 as (tok & t2 & Hsafe & H2 & ->). destruct (Hstep tok Hsafe) as [Hsafe' Htok].
  exists (t1 ++ tok' :: t2).
  rewrite held_app, fmap_app in Honce. assert (∀ op, op ∈ sent w ++ held (t1 ++ t2) → requested_by (rows (wdb w)) op) as Hreq'.
  { intros op Hop. apply Hreq. rewrite held_app. set_solver. }
  assert (NoDup (call_key <$> sent w ++ held (t1 ++ t2))) as Hnd.
  { rewrite fmap_app in *. revert Honce. rewrite (Permutation_app_comm (call_key <$> sent w)), <- app_assoc.
    intros (_ & _ & Hn)%NoDup_app. by rewrite Permutation_app_comm. }
  split; cbn; try done.
  - apply Forall2_app; [done|]. by constructor.
  - rewrite held_app. destruct tok' as [op|]; cbn; [|done]. destruct Htok as [Hu _].
    rewrite <- Permutation_middle. cbn. apply NoDup_cons. split; [|done]. by apply (unrequested_fresh (rows (wdb w))).
  - intros op. rewrite held_app, Hrows. destruct tok' as [op'|]; cbn.
    + rewrite <- Permutation_middle. intros [->|Hop]%elem_of_cons; [by rewrite <- Hrows; apply Htok|].
      destruct (Hreq' op Hop) as [now Hin]. exists now. set_solver.
    + intros Hop. destruct (Hreq' op Hop) as [now Hin]. exists now. set_solver.
  - by apply Hl.
  - rewrite Hrows. by apply Forall_app.
Qed.

Lemma call_key_inj (l : list OperationRecord) a b :
  NoDup (call_key <$> l) → a ∈ l → b ∈ l → call_key a = call_key b → a = b.
Proof.
  intros Hn Ha Hb Hk. apply list_elem_of_lookup in Ha as [i Hi], Hb as [j Hj].
  assert (i = j) as ->; [|congruence]. apply (NoDup_lookup _ _ _ (call_key a) Hn); rewrite list_lookup_fmap, ?Hi, ?Hj; cbn; congruence.
Qed.

(** The operation that holds the call sends it. *)
Lemma inv_send toks w l1 l2 op method path body k x :
  inv toks w → pool w = l1 ++ Call op method path body k :: l2 →
  ∃ toks', inv toks' {| wdb := wdb w; sent := sent w ++ [op]; made := made w;
                        refused := refused w ++ (if decide (explicit_refusal x) then [op] else []); pool := l1 ++ k x :: l2 |}.
Proof.
  intros [Hpool Honce Hreq Hdb [Hmade Hmn] [Href Hdis] Hfail] Hp. set (extra := if decide _ then _ else _).
  rewrite Hp in Hpool. apply Forall2_app_inv_r in Hpool as (t1 & t2' & H1 & H2 & ->).
  apply Forall2_cons_inv_r in H2 as (tok & t2 & [-> Hk] & H2 & ->). exists (t1 ++ None :: t2).
  assert (refused w ⊆ refused w ++ extra) as Hsub by set_solver.
  assert (sent w ++ held (t1 ++ Some op :: t2) ≡ₚ (sent w ++ [op]) ++ held (t1 ++ None :: t2)) as Hperm.
  { rewrite !held_app. cbn. by rewrite <- app_assoc. }
  assert (∀ o, o ∈ refused w ++ extra → o ∈ refused w ∨ o = op) as Hextra.
  { intros o. unfold extra. case_decide; set_solver. }
  assert (op ∉ sent w) as Hnew.
  { intros Hin. rewrite Hperm, <- app_assoc, fmap_app in Honce. apply NoDup_app in Honce as (_ & Hn & _).
    apply (Hn (call_key op)); [by apply list_elem_of_fmap_2|]. cbn. set_solver. }
  split; cbn; [| |..].
  - apply Forall2_app; [eapply Forall2_impl; [exact H1|]; intros; by apply (safe_mono _ (refused w))|].
    constructor; [|eapply Forall2_impl; [exact H2|]; intros; by apply (safe_mono _ (refused w))].
    apply Hk; [done|]. intros Hx. unfold extra. rewrite decide_True by done. set_solver.
  - by rewrite <- Hperm.
  - intros o. rewrite <- Hperm. apply Hreq.
  - done.
  - split; [set_solver|done].
  - split; [intros o [Ho| ->]%Hextra; set_solver|]. intros o Ho [Hr| ->]%Hextra; [by apply (Hdis o)|]. by apply Hnew, Hmade.
  - eapply Forall_impl; [exact Hfail|]. intros r. by apply failure_known_mono.
Qed.

Lemma inv_provider toks w made' refused' :
  inv toks w → (made' ⊆ sent w ∧ NoDup made') → (refused' ⊆ sent w ∧ ∀ op, op ∈ made' → op ∉ refused') → refused w ⊆ refused' →
  inv toks {| wdb := wdb w; sent := sent w; made := made'; refused := refused'; pool := pool w |}.
Proof.
  intros [Hpool Honce Hreq Hdb Hm Hr Hfail] Hm' Hr' Hsub. split; cbn; try done.
  - eapply Forall2_impl; [exact Hpool|]. intros. by apply (safe_mono _ (refused w)).
  - eapply Forall_impl; [exact Hfail|]. intros r. by apply failure_known_mono.
Qed.

Lemma journalled_none l : (∀ r, r ∈ l → r_tenant_id r = T → r_order_id r ≠ Some O) → journalled_refunds l T O = 0.
Proof.
  intros Hl. unfold journalled_refunds, journalled_refund_calls.
  assert (order_refund_rows l T O = []) as ->; [|unfold sum_map; cbn; by rewrite map_fold_empty].
  unfold order_refund_rows. induction l as [|r l IH]; cbn; [done|]. rewrite IH by set_solver.
  destruct (String.eqb_spec (r_tenant_id r) T) as [Ht|]; [|done]. cbn.
  rewrite bool_decide_eq_false_2; [done|]. apply Hl; [set_solver|done].
Qed.

Lemma inv_environment toks w d :
  inv toks w → environment hosted (wdb w) d →
  inv toks {| wdb := d; sent := sent w; made := made w; refused := refused w; pool := pool w |}.
Proof.
  intros [Hpool Honce Hreq [(Hn & Ha & _) Hb] Hm Hr Hfail] (Hrows & Hc & Hold & Hfresh). split; cbn; rewrite ?Hrows; try done.
  split; [split; rewrite Hrows; [done|by split]|]. intros Hh ord Hord. rewrite Hrows.
  destruct (orders (wdb w) !! (T, O)) as [ord0|] eqn:Ho.
  - destruct (Hold _ _ Ho) as (ord' & Hord' & Heq). simplify_eq. rewrite Heq. by apply Hb.
  - rewrite journalled_none; [lia|]. by apply Hfresh; [rewrite Hord|].
Qed.

Lemma inv_step toks w w' : inv toks w → step hosted w w' → ∃ toks', inv toks' w'.
Proof.
  intros Hi Hs. destruct Hs as [w p Hj|w l1 l2 X t k now d x Hp Ht|w l1 l2 X t k now e Hp Ht|w l1 l2 op method path body k x Hp
    |w l1 l2 tenant path k x Hp Hx|w op Hin Hm Hr|w op Hin Hm|w d He].
  - exists (toks ++ [None]). destruct Hi as [Hpool Honce Hreq Hdb Hm Hr Hfail].
    assert (held (toks ++ [None]) = held toks) as Hheld by (unfold held; rewrite omap_app; apply app_nil_r).
    split; cbn; rewrite ?Hheld; try done. apply Forall2_app; [done|]. constructor; [by apply safe_job|constructor].
  - pose proof (inv_pool _ _ Hi) as Hpool. rewrite Hp in Hpool.
    apply Forall2_app_inv_r in Hpool as (t1 & t2' & _ & (tok & t2 & Hsafe & _ & _)%Forall2_cons_inv_r & _).
    destruct (Hsafe now _ _ _ _ ltac:(done) Ht) as [Hl [Hk|(op & Hu & Hrq & Hk)]].
    + by apply (inv_advance toks w l1 l2 (Txn t k) d None (k x)).
    + by apply (inv_advance toks w l1 l2 (Txn t k) d (Some op) (k x)).
  - by apply (inv_advance toks w l1 l2 (Txn t k) (wdb w) None (Raise e)); [..|apply legal_refl|].
  - by eapply inv_send.
  - apply (inv_advance toks w l1 l2 (Read tenant path k) (wdb w) None (k x)); [done|done|apply legal_refl|].
    intros tok Hk. split; [by apply Hk|done].
  - exists toks. destruct (inv_made _ _ Hi), (inv_refused _ _ Hi) as [? Hd]. apply inv_provider; [done| | |done].
    + split; [set_solver|]. apply NoDup_app. split; [done|]. split; [set_solver|apply NoDup_singleton].
    + split; [done|]. intros o [Ho|Ho%list_elem_of_singleton]%elem_of_app; [by apply Hd|by subst].
  - exists toks. destruct (inv_made _ _ Hi), (inv_refused _ _ Hi) as [? Hd]. apply inv_provider; [done|done| |set_solver].
    split; [set_solver|]. intros o Ho [Hr|Hr%list_elem_of_singleton]%elem_of_app; [by apply (Hd o)|by subst].
  - exists toks. by apply inv_environment.
Qed.

(** ** What the provider made of the order counts as refunded *)

Lemma calls_spec (l : list Row) k :
  match foldl add_call ∅ l !! k with
  | None => ∀ r, r ∈ l → r_idempotency_key r ≠ k
  | Some (ph, a) =>
      (∀ p, p ∈ ph → ∃ r, r ∈ l ∧ r_idempotency_key r = k ∧ r_phase r = p) ∧
      (∀ z, (∀ r, r ∈ l → r_idempotency_key r = k → r_phase r = Requested → default 0 (r_amount_minor_units r) = z) →
            (∃ r, r ∈ l ∧ r_idempotency_key r = k ∧ r_phase r = Requested) → a = z)
  end.
Proof.
  induction l as [|r l IH] using rev_ind; [cbn; rewrite lookup_empty; set_solver|].
  rewrite foldl_app. cbn [foldl]. unfold add_call at 1. destruct (decide (r_idempotency_key r = k)) as [<-|Hk].
  - destruct (foldl add_call ∅ l !! r_idempotency_key r) as [[ph a]|] eqn:Hl; cbn [default from_option id];
      rewrite lookup_insert_eq; (split; [intros p Hp|intros z Hz Hex]).
    + apply elem_of_union in Hp as [->%elem_of_singleton|Hp]; [exists r; set_solver|].
      destruct IH as [IH _]. destruct (IH p Hp) as (r' & ? & ?). exists r'. set_solver.
    + case_bool_decide as Hreq; [apply Hz; set_solver|]. apply IH; [intros; apply Hz; set_solver|].
      destruct Hex as (r' & [Hr'|Hr'%list_elem_of_singleton]%elem_of_app & Hk' & Hp'); [by exists r'|by subst].
    + apply elem_of_union in Hp as [->%elem_of_singleton|Hp]; [exists r|]; set_solver.
    + case_bool_decide as Hreq; [apply Hz; set_solver|]. exfalso.
      destruct Hex as (r' & [Hr'|Hr'%list_elem_of_singleton]%elem_of_app & Hk' & Hp'); [by apply (IH r')|by subst].
  - destruct (default _ _) as [ph' a']. rewrite lookup_insert_ne by done.
    destruct (foldl add_call ∅ l !! k) as [[ph a]|]; [|set_solver]. destruct IH as [IH1 IH2]. split.
    + intros p Hp. destruct (IH1 p Hp) as (r' & ? & ?). exists r'. set_solver.
    + intros z Hz (r' & [Hr'|Hr'%list_elem_of_singleton]%elem_of_app & Hk' & Hp'); [|by subst].
      apply IH2; [intros; apply Hz; set_solver|by exists r'].
Qed.

Definition of_order (op : OperationRecord) : bool :=
  bool_decide (op_tenant_id op = T ∧ op_order_id op = Some O ∧ op_operation op = Refund).

Definition made_amounts (w : world) : list (string * Z) :=
  (λ op, (op_idempotency_key op, default 0 (op_amount_minor_units op))) <$> List.filter of_order (made w).

Lemma made_counts toks w k z :
  inv toks w → hosted T O = true → (k, z) ∈ made_amounts w →
  ∃ c, journalled_refund_calls (rows (wdb w)) T O !! k = Some c ∧ call_amount k c = z.
Proof.
  intros [_ Honce Hreq [[Hnd _] _] [Hms _] [Hrs Hdis] Hfail] Hh Hkz.
  apply list_elem_of_fmap in Hkz as (op & [= -> ->] & Hop). rewrite list_elem_of_In, filter_In, <- list_elem_of_In in Hop.
  destruct Hop as [Hmade (Ht & Ho & Hr)%bool_decide_eq_true]. assert (op ∈ sent w) as Hsent by by apply Hms.
  destruct (Hreq op) as [now Hrow]; [set_solver|].
  pose proof (calls_spec (order_refund_rows (rows (wdb w)) T O) (op_idempotency_key op)) as Hspec.
  assert (∀ r, r ∈ order_refund_rows (rows (wdb w)) T O ↔
               r ∈ rows (wdb w) ∧ r_tenant_id r = T ∧ r_order_id r = Some O ∧ r_operation r = Refund) as Hrows.
  { intros r. unfold order_refund_rows. rewrite list_elem_of_In, filter_In, <- list_elem_of_In, !andb_true_iff, String.eqb_eq, !bool_decide_eq_true.
    tauto. }
  assert (values now op Requested None [] ∈ order_refund_rows (rows (wdb w)) T O) as Hin by by apply Hrows.
  unfold journalled_refund_calls. destruct (foldl add_call ∅ _ !! _) as [[ph a]|]; [|by destruct (Hspec _ Hin)].
  destruct Hspec as [Hph Ha]. exists (ph, a). split; [done|]. unfold call_amount. cbn [fst snd]. rewrite bool_decide_eq_true_2.
  - apply Ha; [|by eexists]. intros r (Hr1 & Hr2 & Hr3 & Hr4)%Hrows Hrk Hrp.
    assert (r = values now op Requested None []) as ->; [|done].
    apply list_elem_of_lookup in Hr1 as [i Hi], Hrow as [j Hj]. assert (i = j) as ->; [|congruence].
    apply (NoDup_lookup _ _ _ (unique_key r) Hnd); rewrite list_lookup_fmap, ?Hi, ?Hj; [done|].
    unfold unique_key. cbn. by rewrite Hr2, Hrk, Hr4, Hrp, Ht, Hr.
  - intros Hf. destruct (Hph _ Hf) as (r & (Hr1 & Hr2 & Hr3 & Hr4)%Hrows & Hrk & Hrp).
    rewrite Forall_forall in Hfail. destruct (Hfail r Hr1) as (op' & Hop' & Hkey); [done|done|].
    assert (op' = op) as ->; [|by apply (Hdis op)].
    apply (call_key_inj (sent w)); [|by apply Hrs|done|].
    + rewrite fmap_app in Honce. by apply NoDup_app in Honce as (? & _).
    + rewrite Hkey, Hrk. unfold call_key. by rewrite Ht, Hr.
Qed.

Lemma made_within toks w ord :
  inv toks w → hosted T O = true → orders (wdb w) !! (T, O) = Some ord →
  sumZ (made_amounts w).*2 ≤ Z.max 0 (o_total_minor_units ord).
Proof.
  intros Hi Hh Ho. etrans; [|by apply (proj2 (inv_db _ _ Hi))]. apply sum_map_sub.
  - intros k c Hc. unfold call_amount. case_bool_decide; [|done].
    eapply call_amount_nonneg; [|exact Hc]. apply (proj1 (inv_db _ _ Hi)).
  - assert (NoDup (call_key <$> List.filter of_order (made w))) as Hn.
    { apply NoDup_fmap_2_strong.
      - intros a b Ha Hb. rewrite list_elem_of_In, filter_In, <- list_elem_of_In in Ha, Hb.
        pose proof (inv_once _ _ Hi) as Honce. rewrite fmap_app in Honce. apply NoDup_app in Honce as (Hn & _).
        destruct (inv_made _ _ Hi) as [Hm _]. apply (call_key_inj (sent w)); [done|apply Hm; tauto..].
      - apply NoDup_ListNoDup, List.NoDup_filter, NoDup_ListNoDup. apply (inv_made _ _ Hi). }
    unfold made_amounts. rewrite <- list_fmap_compose. revert Hn. generalize (made w). intros l.
    intros Hn. apply (NoDup_fmap_1 (λ k, (T, k, Refund))). rewrite <- list_fmap_compose.
    erewrite list_fmap_ext; [exact Hn|]. intros i op Hop. apply list_elem_of_lookup_2 in Hop.
    rewrite list_elem_of_In, filter_In in Hop. destruct Hop as [_ (Ht & _ & Hr)%bool_decide_eq_true].
    cbn. unfold call_key. by rewrite Ht, Hr.
  - intros k z Hkz. by apply (made_counts toks w).
Qed.

Lemma inv_reachable w : reachable hosted w → ∃ toks, inv toks w.
Proof.
  intros (w0 & Hi & Hs). assert (∃ toks, inv toks w0) as Hinv by (exists []; by apply inv_initial). clear Hi.
  induction Hs as [|w1 w2 w3 Hstep _ IH]; [done|]. apply IH. destruct Hinv as [toks Hinv]. by eapply inv_step.
Qed.
End discipline.
