(* ===== verification/PaymentProperties.v ===== *)
(** What the payment system guarantees, and where the executor's refunds fall short of it. *)

From S2P Require Import Prelude PyVal PyText Digest Arbiter ArbiterStore PaymentJournal PluralExecutor HostedRefunds PaymentSystem.

Local Open Scope Z_scope.

(** * A refund of the executor on its own *)

Definition session_state (d : db) (tenant session : string) : PaymentState := payment_state_from (session_rows d tenant session).

Lemma session_rows_snoc d l r tenant session :
  session_rows (with_rows d (l ++ [r])) tenant session =
  session_rows (with_rows d l) tenant session ++
  (if String.eqb (r_tenant_id r) tenant && String.eqb (r_checkout_session_id r) session then [r] else []).
Proof. unfold session_rows. cbn. rewrite List.filter_app. cbn. by destruct (_ && _). Qed.

Lemma requested_amount_has l k a : requested_amount l k = Some a → has_phase l k Requested.
Proof.
  revert a. induction l as [|r l IH] using rev_ind; [done|]. intros a. rewrite requested_amount_snoc, has_phase_snoc.
  case_bool_decide; [tauto|]. intros Ha. left. by apply (IH a).
Qed.

(** The effect on the sums of the row of a refund's request, when it is the first. *)
Lemma request_counts l r key :
  row_key r = (Refund, key) → r_phase r = Requested → ¬ has_phase l (Refund, key) Requested →
  let s := payment_state_from l in let s' := payment_state_from (l ++ [r]) in
  captured_minor_units s' = captured_minor_units s ∧
  refunded_minor_units s' = refunded_minor_units s + (if decide (has_phase l (Refund, key) Failed) then 0 else default 0 (r_amount_minor_units r)).
Proof.
  intros Hk Hp Hn s s'. unfold s, s'. rewrite captured_snoc, refunded_snoc, Hk, !captured_at_other, !refunded_at_spec by done.
  rewrite requested_amount_snoc, bool_decide_eq_true_2 by done.
  destruct (requested_amount l (Refund, key)) as [a|] eqn:Ha; [by apply requested_amount_has in Ha|].
  assert (has_phase (l ++ [r]) (Refund, key) Failed ↔ has_phase l (Refund, key) Failed) as Hf.
  { rewrite has_phase_snoc. split; [intros [?|[_ ?]]; [done|congruence]|tauto]. }
  cbn. repeat destruct (decide _); try tauto; lia.
Qed.

(** That of an outcome row *)
Lemma outcome_counts l r key :
  row_key r = (Refund, key) → r_phase r ≠ Requested →
  let s := payment_state_from l in let s' := payment_state_from (l ++ [r]) in
  captured_minor_units s' = captured_minor_units s ∧
  refunded_minor_units s' = refunded_minor_units s - refunded_at l (Refund, key)
    + (if decide (r_phase r = Failed) then 0 else refunded_at l (Refund, key)).
Proof.
  intros Hk Hp s s'. unfold s, s'. rewrite captured_snoc, refunded_snoc, Hk, !captured_at_other, !refunded_at_spec by done.
  rewrite requested_amount_snoc, bool_decide_eq_false_2 by naive_solver.
  pose proof (has_phase_snoc l r (Refund, key) Failed) as Hf.
  repeat destruct (decide _); try tauto; lia.
Qed.

Lemma with_rows_id d : with_rows d (rows d) = d.
Proof. by destruct d. Qed.

(** The journal after a refund that was let through: [begin] journals the request, then the call and
    its outcome. *)
Section one_refund.
Context `{PyStr}.

Lemma phase_not_requested data (success pending : option (list (string * pyval) → bool)) :
  (if match pending with Some f => f data | None => false end then Unknown
   else if match success with Some f => negb (f data) | None => false end then Failed else Succeeded) ≠ Requested.
Proof. by repeat case_match. Qed.

(** What a whole call leaves in the journal: nothing, the request, or the request and one outcome. *)
Lemma run_call now xs record method path body ref success pending d d' v :
  run now xs (_call record method path body ref success pending) d = Some (d', v) →
  rows d' = rows d ∨
  ((unique_key (values now record Requested None []) ∉ unique_key <$> rows d) ∧
   (rows d' = rows d ++ [values now record Requested None []] ∨
    ∃ p ref' details, p ≠ Requested ∧
      (∀ x xs' status code, xs = x :: xs' → client_call x = RequestError status code → p = Failed) ∧
      rows d' = rows d ++ [values now record Requested None []] ++ [values now record p ref' details])).
Proof.
  unfold _call. cbn [run]. unfold begin.
  destruct (insert_if_new _ d) as [[d1 b]|] eqn:Hi; [|intros [= <- _]; by left].
  destruct (insert_if_new_cases _ _ _ _ Hi) as [[-> ->]|(-> & -> & _ & Hu)]; cbn [run negb].
  { intros [= <- _]. by left. }
  destruct xs as [|x xs]; [done|]. intros Hrun. right. split; [done|].
  assert (∀ p ref' details data,
    run now xs (Txn (finish record p ref' details) (λ _, Ret (Some p, data))) (with_rows d (rows d ++ [values now record Requested None []])) = Some (d', v) →
    rows d' = rows d ++ [values now record Requested None []] ∨
    rows d' = rows d ++ [values now record Requested None []] ++ [values now record p ref' details]) as Hfin.
  { intros p ref' details data. cbn [run]. unfold finish.
    destruct (insert_if_new (values now record p ref' details) _) as [[d2 b]|] eqn:Hi2; [|intros [= <- _]; by left].
    destruct (insert_if_new_cases _ _ _ _ Hi2) as [[-> ->]|(-> & -> & _ & _)]; cbn [run]; intros [= <- <-]; [by left|].
    right. cbn. by rewrite <- app_assoc. }
  destruct (client_call x) as [data|status code|] eqn:Hx; eapply Hfin in Hrun as [Hr|Hr]; try (by left);
    right; do 3 eexists; (split; [|split; [|exact Hr]]); try done; try apply phase_not_requested;
    intros ???? [= <- <-]; congruence.
Qed.

Lemma run_bind_ret {A B} now xs (p : prog A) (f : A → prog B) d d' v :
  (∀ a, ∃ b, f a = Ret b) → run now xs (bind p f) d = Some (d', v) → ∃ u, run now xs p d = Some (d', u).
Proof.
  intros Hf. revert xs d. induction p as [a|e|X t k IH|op method path body k IH|tenant path k IH]; intros xs d; cbn [bind run].
  - destruct (Hf a) as [b ->]. cbn. intros [= <- _]. by eexists.
  - intros [= <- _]. by eexists.
  - destruct (t now d) as [[d1 x]|]; [apply IH|intros [= <- _]; by eexists].
  - destruct xs; [done|apply IH].
  - destruct xs; [done|apply IH].
Qed.

(** The rows a refund leaves, by whether it was let through *)
Lemma run_refund now xs client rq decision d d' v :
  run now xs (refund client rq decision) d = Some (d', v) →
  let record := refund_record rq decision in
  let s := session_state d (rq_tenant_id rq) (rq_checkout_session_id rq) in
  rows d' = rows d ∨
  (refund_problem rq decision s client = None ∧
   (unique_key (values now record Requested None []) ∉ unique_key <$> rows d) ∧
   (rows d' = rows d ++ [values now record Requested None []] ∨
    ∃ p ref' details, p ≠ Requested ∧
      (∀ x xs' status code, xs = x :: xs' → client_call x = RequestError status code → p = Failed) ∧
      rows d' = rows d ++ [values now record Requested None []] ++ [values now record p ref' details])).
Proof.
  intros Hrun record s. unfold refund in Hrun. cbn [run payment_state] in Hrun. fold (session_state d (rq_tenant_id rq) (rq_checkout_session_id rq)) in Hrun.
  fold s in Hrun. destruct (refund_problem rq decision s client) as [problem|] eqn:Hp.
  { cbn in Hrun. simplify_eq. by left. }
  apply run_bind_ret in Hrun as [u Hu]; [|intros [[[]|] data]; by eexists].
  apply run_call in Hu as [Hr|[Hn Hr]]; [by left|right]. done.
Qed.

Lemma session_rows_of d d' l tenant session :
  rows d' = rows d ++ l → Forall (λ r, r_tenant_id r = tenant ∧ r_checkout_session_id r = session) l →
  session_rows d' tenant session = session_rows d tenant session ++ l.
Proof.
  intros Hr Hl. unfold session_rows. rewrite Hr, List.filter_app. f_equal. clear Hr.
  induction Hl as [|r l [Ht Hs] _ IH]; cbn; [done|]. by rewrite Ht, Hs, !String.eqb_refl, IH.
Qed.

Lemma unique_no_request d tenant session now record :
  op_tenant_id record = tenant → op_operation record = Refund →
  unique_key (values now record Requested None []) ∉ unique_key <$> rows d →
  ¬ has_phase (session_rows d tenant session) (Refund, op_idempotency_key record) Requested.
Proof.
  intros Ht Ho Hu (r & Hr & Hk & Hp). apply Hu. apply list_elem_of_fmap. exists r.
  unfold session_rows in Hr. rewrite list_elem_of_In, filter_In, <- list_elem_of_In in Hr. destruct Hr as [Hr Hb].
  split; [|done]. apply andb_true_iff in Hb as [Hb _]. apply String.eqb_eq in Hb.
  unfold row_key in Hk. simplify_eq. unfold unique_key. cbn. congruence.
Qed.

(** What a refund let through adds to the sums of the session, with its outcome *)
Lemma refund_sums now rq decision d d' p ref' details :
  let record := refund_record rq decision in
  let before := session_state d (rq_tenant_id rq) (rq_checkout_session_id rq) in
  let after := session_state d' (rq_tenant_id rq) (rq_checkout_session_id rq) in
  0 ≤ rq_amount_minor_units rq → (unique_key (values now record Requested None []) ∉ unique_key <$> rows d) →
  (rows d' = rows d ++ [values now record Requested None []] ∧ p = Unknown ∨
   rows d' = rows d ++ [values now record Requested None []] ++ [values now record p ref' details] ∧ p ≠ Requested) →
  captured_minor_units after = captured_minor_units before ∧
  refunded_minor_units before ≤ refunded_minor_units after ≤ refunded_minor_units before + rq_amount_minor_units rq ∧
  (p = Failed → refunded_minor_units after = refunded_minor_units before).
Proof.
  intros record before after Ha Hu Hd'. set (key := op_idempotency_key record). set (first := values now record Requested None []) in *.
  set (l := session_rows d (rq_tenant_id rq) (rq_checkout_session_id rq)).
  assert (¬ has_phase l (Refund, key) Requested) as Hn by by apply (unique_no_request d _ _ now record).
  destruct (request_counts l first key) as [Hc1 Hr1]; [done..|].
  change (default 0 (r_amount_minor_units first)) with (rq_amount_minor_units rq) in Hr1.
  unfold after, before, session_state. destruct Hd' as [[Hd' ->]|[Hd' Hp]].
  - rewrite (session_rows_of d d' [first]) by (done || by repeat constructor). fold l. rewrite Hc1, Hr1. destruct (decide _); (split; [done|split; [lia|done]]).
  - rewrite (session_rows_of d d' ([first] ++ [values now record p ref' details])) by (done || by repeat constructor). fold l.
    rewrite app_assoc. destruct (outcome_counts (l ++ [first]) (values now record p ref' details) key) as [Hc2 Hr2]; [done..|].
    rewrite Hc2, Hr2, Hc1, Hr1. cbn [r_phase values]. split; [done|].
    assert (refunded_at (l ++ [first]) (Refund, key) = if decide (has_phase l (Refund, key) Failed) then 0 else rq_amount_minor_units rq) as ->.
    { rewrite refunded_at_spec, requested_amount_snoc, bool_decide_eq_true_2 by done.
      assert (has_phase (l ++ [first]) (Refund, key) Failed ↔ has_phase l (Refund, key) Failed) as Hf.
      { rewrite has_phase_snoc. split; [intros [?|[_ ?]]; done|tauto]. }
      destruct (decide (has_phase (l ++ [first]) _ _)), (decide (has_phase l _ _)); tauto || done. }
    repeat destruct (decide _); subst; split; (lia || done || (intros; lia)).
Qed.
End one_refund.

(** * Properties *)

Lemma refund_problem_None rq decision s client :
  refund_problem rq decision s client = None →
  1 ≤ rq_amount_minor_units rq ≤ refundable_minor_units s ∧ consumed_action decision = "refund" ∧
  consumed_payload_hash decision = rq_payload_hash rq ∧ given (provider_order_ref s) = true.
Proof.
  unfold refund_problem, _amount_problem. repeat case_match; try done; intros _.
  rewrite orb_false_iff, !negb_false_iff, !String.eqb_eq in *. rewrite Z.ltb_ge in *. destruct_and?. repeat split; (done || lia).
Qed.

(** A refund by the executor with nothing else running on the checkout, whatever the provider
    answers, even when the run ends in an error: if the refunds counted were within the captured
    amount before, they are after, and never fewer; and the journal only changes under a consumed
    [refund] decision for exactly this payload. *)
Theorem refund_alone_within_capture `{PyStr} now xs client rq decision d d' v :
  run now xs (refund client rq decision) d = Some (d', v) →
  let before := session_state d (rq_tenant_id rq) (rq_checkout_session_id rq) in
  let after := session_state d' (rq_tenant_id rq) (rq_checkout_session_id rq) in
  refunded_minor_units before ≤ captured_minor_units before →
  captured_minor_units after = captured_minor_units before ∧
  refunded_minor_units before ≤ refunded_minor_units after ≤ captured_minor_units after ∧
  (rows d' ≠ rows d → consumed_action decision = "refund" ∧ consumed_payload_hash decision = rq_payload_hash rq).
Proof.
  intros Hrun before after Hle.
  destruct (run_refund _ _ _ _ _ _ _ _ Hrun) as [Hr|(Hp & Hu & Hr)].
  - unfold after, session_state, session_rows. rewrite Hr. unfold before, session_state, session_rows in *. split; [done|]. split; [lia|done].
  - apply refund_problem_None in Hp as (Ham & Hact & Hhash & _). fold before in Ham. unfold refundable_minor_units in Ham.
    assert (∃ p ref' details,
      rows d' = rows d ++ [values now (refund_record rq decision) Requested None []] ∧ p = Unknown ∨
      rows d' = rows d ++ [values now (refund_record rq decision) Requested None []] ++ [values now (refund_record rq decision) p ref' details] ∧ p ≠ Requested)
      as (p & ref' & details & Hrows).
    { destruct Hr as [Hr|(p & ref' & details & Hp & _ & Hr)]; [exists Unknown, None, []; by left|by exists p, ref', details; right]. }
    destruct (refund_sums now rq decision d d' p ref' details) as (Hc & Hre & _); [lia|done|done|].
    fold before after in Hc, Hre. split; [done|]. split; [lia|done].
Qed.

(** The executor takes every HTTP error for a refusal: after a refund answered with one that does
    not prove it was refused (a server error, a timeout, a conflict; the hosted refunds keep those as
    unknown), once its two rows are journalled what counts as refunded is as before it, and the same
    amount can be refunded again. *)
Theorem ambiguous_refund_frees_amount `{PyStr} now x client rq decision d d' v status code :
  run now [x] (refund client rq decision) d = Some (d', v) →
  client_call x = RequestError status code → refused_phase status = Unknown →
  length (rows d') = (2 + length (rows d))%nat →
  let before := session_state d (rq_tenant_id rq) (rq_checkout_session_id rq) in
  let after := session_state d' (rq_tenant_id rq) (rq_checkout_session_id rq) in
  captured_minor_units after = captured_minor_units before ∧ refunded_minor_units after = refunded_minor_units before ∧
  refundable_minor_units after = refundable_minor_units before.
Proof.
  intros Hrun Hx _ Hlen before after.
  destruct (run_refund _ _ _ _ _ _ _ _ Hrun) as [Hr|(Hp & Hu & [Hr|(p & ref' & details & Hp' & Hfail & Hr)])].
  { rewrite Hr in Hlen. lia. }
  { rewrite Hr, length_app in Hlen. cbn in Hlen. lia. }
  apply refund_problem_None in Hp as (Ham & _). assert (p = Failed) as -> by by eapply Hfail.
  destruct (refund_sums now rq decision d d' Failed ref' details) as (Hc & _ & Hre); [lia|done|by right|].
  fold before after in Hc, Hre. unfold refundable_minor_units. rewrite Hc, Hre by done. done.
Qed.

Lemma find_created (p : Row → bool) (l : list Row) r : r ∈ l → p r = true → (∀ r', r' ∈ l → p r' = true → r' = r) → find p l = Some r.
Proof.
  intros Hr Hp Hu. induction l as [|r' l IH]; [set_solver|]. cbn. destruct (p r') eqn:Hr'; [f_equal; apply Hu; set_solver|].
  apply IH; [|set_solver]. apply elem_of_cons in Hr as [->|]; [congruence|done].
Qed.

Lemma unique_row (l : list Row) a b : NoDup (unique_key <$> l) → a ∈ l → b ∈ l → unique_key a = unique_key b → a = b.
Proof.
  intros Hn Ha Hb Hk. apply list_elem_of_lookup in Ha as [i Hi], Hb as [j Hj].
  assert (i = j) as ->; [|congruence]. apply (NoDup_lookup _ _ _ (unique_key a) Hn); rewrite list_lookup_fmap, ?Hi, ?Hj; cbn; congruence.
Qed.

(** The outcome of a capture nobody asked for changes no sum. *)
Lemma unasked_capture_counts l r key :
  row_key r = (Capture, key) → r_phase r = Succeeded → ¬ has_phase l (Capture, key) Requested →
  captured_minor_units (payment_state_from (l ++ [r])) = captured_minor_units (payment_state_from l) ∧
  refundable_minor_units (payment_state_from (l ++ [r])) = refundable_minor_units (payment_state_from l).
Proof.
  intros Hk Hp Hn. unfold refundable_minor_units.
  rewrite captured_snoc, refunded_snoc, Hk, !captured_at_spec, !refunded_at_other, requested_amount_snoc, bool_decide_eq_false_2 by (congruence || (intros [_ ?]; congruence)).
  destruct (requested_amount l _) as [a|] eqn:Hreq; [by apply requested_amount_has in Hreq|].
  repeat destruct (decide _); cbn; lia.
Qed.

(** A payment the provider reports as captured before the executor asked for the capture (a
    webhook with status CAPTURED or PROCESSED and no capture journalled): reconciliation records the
    capture and completes the checkout, but what counts as captured and refundable stays as it was,
    since amounts are read from requests only; with nothing else captured every refund is refused. *)
Theorem webhook_capture_is_not_refundable `{PyStr} now client d tenant outcome sha created :
  NoDup (unique_key <$> rows d) → Forall (λ r, amount_ok r = true) (rows d) →
  created ∈ rows d → unique_key created = (tenant, po_merchant_reference outcome, Create_order, Succeeded) →
  r_provider_ref created = Some (po_order_id outcome) → po_status outcome ∈ CAPTURED →
  (∀ r, r ∈ rows d → r_tenant_id r = tenant → r_idempotency_key r = po_merchant_reference outcome → r_operation r ≠ Capture) →
  ∃ d', run now [] (reconcile_journal client tenant outcome sha) d = Some (d', Ok (inr ("capture_recorded", "captured"))) ∧
    let before := session_state d tenant (r_checkout_session_id created) in
    let after := session_state d' tenant (r_checkout_session_id created) in
    captured_minor_units after = captured_minor_units before ∧ refundable_minor_units after = refundable_minor_units before ∧
    (refundable_minor_units before = 0 → ∀ client rq decision, refund_problem rq decision after client ≠ None).
Proof.
  intros Hn Ha Hin Hkey Href Hst Hno. unfold unique_key in Hkey. injection Hkey as Ht Hk Hop Hph.
  set (entries := sort_by (λ a b, r_created_at a <=? r_created_at b)
    (List.filter (λ r, String.eqb (r_tenant_id r) tenant && String.eqb (r_idempotency_key r) (po_merchant_reference outcome)) (rows d))).
  assert (∀ r, r ∈ entries ↔ r ∈ rows d ∧ r_tenant_id r = tenant ∧ r_idempotency_key r = po_merchant_reference outcome) as Hentries.
  { intros r. unfold entries. rewrite elem_of_sort_by, list_elem_of_In, filter_In, <- list_elem_of_In, andb_true_iff, !String.eqb_eq. tauto. }
  unfold reconcile_journal. cbn [run operations]. fold entries.
  rewrite (find_created _ entries created); [|by apply Hentries|by apply bool_decide_eq_true|].
  2: { intros r (Hr & Hrt & Hrk)%Hentries (Hro & Hrp & Hrr)%bool_decide_eq_true. apply (unique_row (rows d)); [done..|].
       unfold unique_key. congruence. }
  cbn [run session_seller]. unfold among. rewrite bool_decide_eq_true_2 by done.
  assert (entry_has entries Capture Succeeded = false) as ->.
  { apply not_true_iff_false. unfold entry_has. rewrite existsb_exists. intros (r & Hr & Hb). apply list_elem_of_In, Hentries in Hr as (Hr & Hrt & Hrk).
    apply andb_true_iff in Hb as [Hb _]. apply bool_decide_eq_true in Hb. by apply (Hno r). }
  cbn [run]. unfold record_once, insert_if_new. set (row := values now _ Succeeded _ _).
  assert (amount_ok row = true) as -> by (rewrite Forall_forall in Ha; by apply (Ha created)).
  assert (conflicts (rows d) row = false) as ->.
  { apply bool_decide_eq_false. intros Hc. apply list_elem_of_fmap in Hc as (r & Heq & Hr). unfold unique_key in Heq. cbn in Heq.
    injection Heq as H1 H2 H3 _. by apply (Hno r); congruence. }
  cbn [negb run]. eexists. split; [reflexivity|].
  set (d' := with_event _ _).
  set (l := session_rows d tenant (r_checkout_session_id created)).
  assert (session_rows d' tenant (r_checkout_session_id created) = l ++ [row]) as Hl by (apply session_rows_of; [done|]; by repeat constructor).
  unfold session_state. rewrite Hl. fold l. cbn zeta.
  assert (row_key row = (Capture, po_merchant_reference outcome)) as Hrow by (unfold row_key; cbn; by rewrite Hk).
  destruct (unasked_capture_counts l row (po_merchant_reference outcome)) as [Hcap Hre]; [done..| |].
  { intros (r & Hr & Hrk & _). unfold l, session_rows in Hr. rewrite list_elem_of_In, filter_In, <- list_elem_of_In in Hr.
    destruct Hr as [Hr [Hb _]%andb_true_iff]. apply String.eqb_eq in Hb. unfold row_key in Hrk. injection Hrk as ? ?. by destruct (Hno r). }
  split; [done|]. split; [done|]. intros Hz client' rq decision Hp. apply refund_problem_None in Hp as (Ham & _). lia.
Qed.

(** However many executions, refunds and reconciliations run, and however they interleave,
    the provider is sent at most one call per tenant, reference and operation, and every call it
    was sent is journalled as requested, with its decision, amount and order. *)
Theorem provider_calls_at_most_once `{PyStr} hosted w :
  reachable hosted w → NoDup (call_key <$> sent w) ∧ ∀ op, op ∈ sent w → ∃ now, values now op Requested None [] ∈ rows (wdb w).
Proof.
  intros Hw. destruct (inv_reachable hosted EmptyString EmptyString w Hw) as [toks Hi].
  pose proof (inv_once _ _ _ _ _ Hi) as Hn. rewrite fmap_app in Hn. apply NoDup_app in Hn as (Hn & _).
  split; [done|]. intros op Hop. apply (inv_requested _ _ _ _ _ Hi). set_solver.
Qed.

(** C6. However hosted refunds of an order interleave, with each other, with their reconciliation
    and with hand-recorded adjustments, what the provider has in fact refunded of the order, lost
    answers included, is at most its total. *)
Theorem hosted_refunds_within_total `{PyStr} hosted w tenant order_id ord :
  reachable hosted w → hosted tenant order_id = true → orders (wdb w) !! (tenant, order_id) = Some ord →
  sumZ (made_amounts tenant order_id w).*2 ≤ Z.max 0 (o_total_minor_units ord).
Proof.
  intros Hw Hh Ho. destruct (inv_reachable hosted tenant order_id w Hw) as [toks Hi]. by apply (made_within hosted tenant order_id toks).
Qed.

(** * Schedules

    A schedule names the next step; running it gives the world it leads to. *)

Inductive choice :=
| Start (p : prog unit)
| Transact (i : nat) (now : Z)
| Answer (i : nat) (x : exchange)
| Make (i : nat).

Definition take_step `{PyStr} (w : world) (c : choice) : option world :=
  match c with
  | Start p => Some {| wdb := wdb w; sent := sent w; made := made w; refused := refused w; pool := pool w ++ [p] |}
  | Transact i now =>
      match pool w !! i with
      | Some (Txn t k) =>
          match t now (wdb w) with
          | Ok (d, x) =>
              Some {| wdb := d; sent := sent w; made := made w; refused := refused w;
                      pool := take i (pool w) ++ k x :: drop (S i) (pool w) |}
          | Err e =>
              Some {| wdb := wdb w; sent := sent w; made := made w; refused := refused w;
                      pool := take i (pool w) ++ Raise e :: drop (S i) (pool w) |}
          end
      | _ => None
      end
  | Answer i x =>
      match pool w !! i with
      | Some (Call op _ _ _ k) =>
          Some {| wdb := wdb w; sent := sent w ++ [op]; made := made w;
                  refused := refused w ++ (if decide (explicit_refusal x) then [op] else []);
                  pool := take i (pool w) ++ k x :: drop (S i) (pool w) |}
      | _ => None
      end
  | Make i =>
      match sent w !! i with
      | Some op =>
          if bool_decide (call_key op ∉ call_key <$> (made w ++ refused w))
          then Some {| wdb := wdb w; sent := sent w; made := made w ++ [op]; refused := refused w; pool := pool w |} else None
      | None => None
      end
  end.

Fixpoint follow `{PyStr} (w : world) (l : list choice) : option world :=
  match l with [] => Some w | c :: l' => match take_step w c with Some w' => follow w' l' | None => None end end.

(** The operations a schedule starts *)
Definition started (l : list choice) : list (prog unit) := omap (λ c, match c with Start p => Some p | _ => None end) l.

Lemma take_step_sound `{PyStr} hosted w c w' :
  (∀ p, c = Start p → job hosted p) → take_step w c = Some w' → step hosted w w'.
Proof.
  intros Hj. destruct c as [p|i now|i x|i]; cbn.
  - intros [= <-]. constructor. by apply Hj.
  - destruct (pool w !! i) as [p|] eqn:Hp; [|done]. pose proof (take_drop_middle _ _ _ Hp) as Hpool. symmetry in Hpool.
    destruct p as [| |X t k| |]; try done. destruct (t now (wdb w)) as [[d x]|e] eqn:Ht; intros [= <-].
    + by eapply step_txn.
    + by eapply step_error.
  - destruct (pool w !! i) as [p|] eqn:Hp; [|done]. pose proof (take_drop_middle _ _ _ Hp) as Hpool. symmetry in Hpool.
    destruct p as [| | |op method path body k|]; try done. intros [= <-]. by eapply step_call.
  - destruct (sent w !! i) as [op|] eqn:Hs; [|done]. case_bool_decide as Hk; [|done]. intros [= <-].
    apply list_elem_of_lookup_2 in Hs. apply step_make; [done| |]; intros Hin; apply Hk, list_elem_of_fmap_2; set_solver.
Qed.

Lemma follow_reachable `{PyStr} hosted w l w' :
  reachable hosted w → Forall (job hosted) (started l) → follow w l = Some w' → reachable hosted w'.
Proof.
  revert w. induction l as [|c l IH]; intros w Hw Hl; cbn; [by intros [= <-]|].
  destruct (take_step w c) as [w1|] eqn:Hs; [|done].
  assert (Forall (job hosted) (started l) ∧ ∀ p, c = Start p → job hosted p) as [Hl' Hc].
  { destruct c; cbn in Hl; [apply Forall_cons in Hl as [? ?]; split; [done|by intros ? [= <-]]|done..]. }
  apply IH; [|done]. destruct Hw as (w0 & Hi & Hr). exists w0. split; [done|].
  eapply rtc_r; [exact Hr|]. by eapply take_step_sound.
Qed.

(** The world a schedule leads to from an empty journal, with one order *)
Definition start_world (tenant order_id : string) (ord : OrderRow) : world :=
  {| wdb := {| rows := []; ledger := []; orders := {[(tenant, order_id) := ord]}; sellers := ∅ |};
     sent := []; made := []; refused := []; pool := [] |}.

Lemma schedule_reachable `{PyStr} hosted tenant order_id ord l :
  String.eqb (o_executor ord) HOSTED_EXECUTOR = hosted tenant order_id →
  Forall (job hosted) (started l) →
  match follow (start_world tenant order_id ord) l with Some _ => true | None => false end = true →
  reachable hosted (default (start_world tenant order_id ord) (follow (start_world tenant order_id ord) l)).
Proof.
  intros He Hl Hs. destruct (follow _ l) as [w|] eqn:Hf; [|done]. cbn. eapply follow_reachable; [|exact Hl|exact Hf].
  exists (start_world tenant order_id ord). split; [|done]. repeat split. intros t o ord' Hord. cbn in Hord.
  apply lookup_singleton_Some in Hord as [[= <- <-] <-]. done.
Qed.

(** * Concrete runs *)

Definition example_order (executor : string) : OrderRow :=
  {| o_merchant_id := "merchant-1"; o_seller_agent_id := "seller-1"; o_checkout_session_id := "chk-1"; o_executor := executor;
     o_provider_order_ref := Some "po-1"; o_currency := "INR"; o_total_minor_units := 1000; o_snapshot := VMap [] |}.

Definition answered (status : Z) (body : list (string * pyval)) : exchange :=
  Responded None {| status_code := status; content_size := 200; parsed := Some (VMap body) |}.

Definition example_decision (id act : string) : ConsumedDecision :=
  {| consumed_id := id; consumed_payload_hash := "hash"; consumed_tenant_id := "t1"; consumed_merchant_id := "merchant-1";
     consumed_seller_agent_id := "seller-1"; consumed_action := act; consumed_mandate_hashes := [] |}.

Definition example_checkout : ExecutionCheckout :=
  {| ck_session_id := "chk-1"; ck_tenant_id := "t1"; ck_merchant_id := "merchant-1"; ck_seller_agent_id := "seller-1";
     ck_currency := "INR"; ck_total_minor_units := 1000;
     ck_instruments := [{| ins_id := "pi-1"; ins_handler_id := PLURAL_HANDLER_ID; ins_type := "card";
                           ins_credential := [("type", VStr "plural_pine_token"); ("token", VStr "tok-1")];
                           ins_amount_minor_units := None |}];
     ck_payload_hash := "hash"; ck_allowance_max_minor_units := Some 1000; ck_allowance_currency := Some "INR";
     ck_upi_mandate_reference := None; ck_afa_evidence_ref := None |}.

Definition example_refund (reference : string) : RefundRequest :=
  {| rq_tenant_id := "t1"; rq_merchant_id := "merchant-1"; rq_seller_agent_id := "seller-1"; rq_order_id := "ord-1";
     rq_checkout_session_id := "chk-1"; rq_payload_hash := "hash"; rq_amount_minor_units := 1000; rq_currency := "INR";
     rq_order_total_minor_units := 1000; rq_allowance_max_minor_units := Some 1000; rq_reference := Some reference |}.

Abbreviation quietly p := (bind p (λ _, Ret tt)).

Definition execution_schedule : list choice :=
  [Start (quietly (execute true example_checkout (example_decision "dec-1" "session_complete")));
   Transact 0 1; Answer 0 (answered 200 [("order_id", VStr "po-1")]); Transact 0 2;
   Transact 0 3; Answer 0 (answered 200 [("status", VStr "AUTHORIZED")]); Transact 0 4;
   Transact 0 5; Answer 0 (answered 200 [("status", VStr "PROCESSED")]); Transact 0 6].

(** Two refunds, each of the whole payment, that both read the journal before either is journalled *)
Definition race_schedule : list choice :=
  execution_schedule ++
  [Start (quietly (refund true (example_refund "aor-a") (example_decision "dec-2" "refund")));
   Start (quietly (refund true (example_refund "aor-b") (example_decision "dec-3" "refund")));
   Transact 1 7; Transact 2 8;
   Transact 1 9; Answer 1 (answered 200 [("status", VStr "PROCESSED")]); Transact 1 10;
   Transact 2 11; Answer 2 (answered 200 [("status", VStr "PROCESSED")]); Transact 2 12;
   Make 3; Make 4].

Definition race_world : world :=
  default (start_world "t1" "ord-1" (example_order "plural_pine")) (follow (start_world "t1" "ord-1" (example_order "plural_pine")) race_schedule).

Lemma race_reachable : reachable (λ _ _, false) race_world.
Proof.
  apply (schedule_reachable (λ _ _, false)); [reflexivity| |vm_compute; reflexivity].
  cbn [started omap list_omap race_schedule execution_schedule app]. repeat constructor.
Qed.

(** The bound of the executor's refunds does not hold when two refunds of one order overlap: each
    reads the journal, and neither is journalled until both have read. A payment of 1000 captured
    once is then refunded twice, each time in full, under two consumed decisions and two references. *)
Theorem overlapping_refunds_exceed_capture :
  ∃ w, reachable (λ _ _, false) w ∧ captured_minor_units (session_state (wdb w) "t1" "chk-1") = 1000 ∧
    refunded_minor_units (session_state (wdb w) "t1" "chk-1") = 2000 ∧ made_amounts "t1" "ord-1" w = [("aor-a", 1000); ("aor-b", 1000)].
Proof. exists race_world. split; [apply race_reachable|]. vm_compute. repeat split. Qed.

(** Two hosted refunds of one order; the second is refused, the first has no answer but was made. *)
Definition hosted_schedule : list choice :=
  [Start (quietly (refund_hosted_order true "t1" "ord-1" "aor-a" "dec-2" "hash" 600 "INR"));
   Start (quietly (refund_hosted_order true "t1" "ord-1" "aor-b" "dec-3" "hash" 600 "INR"));
   Transact 0 1; Transact 1 2; Answer 0 Unreachable; Transact 0 3; Make 0].

Definition hosted_world : world :=
  default (start_world "t1" "ord-1" (example_order HOSTED_EXECUTOR)) (follow (start_world "t1" "ord-1" (example_order HOSTED_EXECUTOR)) hosted_schedule).

Lemma hosted_world_reachable : reachable (λ _ _, true) hosted_world.
Proof.
  apply (schedule_reachable (λ _ _, true)); [reflexivity| |vm_compute; reflexivity].
  cbn [started omap list_omap hosted_schedule]. repeat constructor.
Qed.

Lemma hosted_refunds_within_total_witness :
  made_amounts "t1" "ord-1" hosted_world = [("aor-a", 600)] ∧ sumZ (made_amounts "t1" "ord-1" hosted_world).*2 ≤ Z.max 0 1000.
Proof.
  split; [vm_compute; reflexivity|].
  apply (hosted_refunds_within_total (λ _ _, true) hosted_world "t1" "ord-1" (example_order HOSTED_EXECUTOR));
    [apply hosted_world_reachable|reflexivity|vm_compute; reflexivity].
Defined.

Lemma provider_calls_at_most_once_witness :
  length (sent race_world) = 5%nat ∧ NoDup (call_key <$> sent race_world).
Proof.
  split; [vm_compute; reflexivity|]. apply (provider_calls_at_most_once (λ _ _, false) race_world race_reachable).
Defined.

(** The journal after the execution, and a refund of the payment then answered with a server error *)
Definition captured_db : db :=
  wdb (default race_world (follow (start_world "t1" "ord-1" (example_order "plural_pine")) execution_schedule)).

Definition server_error : exchange := answered 503 [("code", VStr "UNAVAILABLE")].

Definition refund_run (xs : list exchange) : db * result db_error RefundResult :=
  default (captured_db, Err ValueError) (run 7 xs (refund true (example_refund "aor-a") (example_decision "dec-2" "refund")) captured_db).

Lemma refund_run_eq xs :
  match run 7 xs (refund true (example_refund "aor-a") (example_decision "dec-2" "refund")) captured_db with Some _ => true | None => false end = true →
  run 7 xs (refund true (example_refund "aor-a") (example_decision "dec-2" "refund")) captured_db = Some (fst (refund_run xs), snd (refund_run xs)).
Proof. unfold refund_run. by destruct (run _ _ _ _) as [[? ?]|]. Qed.

Lemma refund_alone_within_capture_witness :
  refunded_minor_units (session_state (fst (refund_run [Unreachable])) "t1" "chk-1") = 1000 ∧
  refunded_minor_units (session_state (fst (refund_run [Unreachable])) "t1" "chk-1") ≤
  captured_minor_units (session_state (fst (refund_run [Unreachable])) "t1" "chk-1").
Proof.
  split; [vm_compute; reflexivity|].
  apply (refund_alone_within_capture 7 [Unreachable] true (example_refund "aor-a") (example_decision "dec-2" "refund") captured_db
           (fst (refund_run [Unreachable])) (snd (refund_run [Unreachable]))).
  - apply refund_run_eq. vm_compute. reflexivity.
  - apply Z.leb_le. vm_compute. reflexivity.
Defined.

Lemma ambiguous_refund_frees_amount_witness :
  refundable_minor_units (session_state captured_db "t1" "chk-1") = 1000 ∧
  refundable_minor_units (session_state (fst (refund_run [server_error])) "t1" "chk-1") =
  refundable_minor_units (session_state captured_db "t1" "chk-1").
Proof.
  split; [vm_compute; reflexivity|].
  apply (ambiguous_refund_frees_amount 7 server_error true (example_refund "aor-a") (example_decision "dec-2" "refund") captured_db
           (fst (refund_run [server_error])) (snd (refund_run [server_error])) 503 "UNAVAILABLE").
  - apply refund_run_eq. vm_compute. reflexivity.
  - reflexivity.
  - reflexivity.
  - vm_compute. reflexivity.
Defined.

Definition created_row : Row :=
  values 1 (execute_record example_checkout (example_decision "dec-1" "session_complete") Create_order) Succeeded (Some "po-1") [].

Definition created_db : db := {| rows := [created_row]; ledger := []; orders := ∅; sellers := ∅ |}.

Definition captured_event : PaymentOutcome :=
  {| po_order_id := "po-1"; po_merchant_reference := r_idempotency_key created_row; po_status := "CAPTURED"; po_amount_minor_units := None |}.

Lemma webhook_capture_is_not_refundable_witness :
  ∃ d', run 2 [] (reconcile_journal true "t1" captured_event "sha") created_db = Some (d', Ok (inr ("capture_recorded", "captured"))) ∧
    captured_minor_units (session_state d' "t1" "chk-1") = 0 ∧
    refund_problem (example_refund "aor-a") (example_decision "dec-2" "refund") (session_state d' "t1" "chk-1") true ≠ None.
Proof.
  destruct (webhook_capture_is_not_refundable 2 true created_db "t1" captured_event "sha" created_row) as (d' & Hrun & Hc & _ & Hr).
  - apply NoDup_singleton.
  - repeat constructor.
  - apply list_elem_of_singleton. reflexivity.
  - reflexivity.
  - reflexivity.
  - apply (bool_decide_unpack _). reflexivity.
  - intros r Hin _ _. apply list_elem_of_singleton in Hin as ->. discriminate.
  - exists d'. split; [exact Hrun|]. split; [exact Hc|]. apply Hr. reflexivity.
Defined.
