(* ===== verification/RateLimiter.v ===== *)
(** The token bucket of tool calls: src/core/tool_gateway/rate_limiter.py.

    Numbers are rationals. What the script keeps goes through [tostring] and back, and its
    arithmetic rounds: [text] is the number that comes back, an argument. The bucket is what
    Redis holds under the key with the time it expires at; [t] is the time at the server and
    [now] the time the caller sends. *)

From Stdlib Require Import QArith Qround Lqa.
From S2P Require Import Prelude PyVal.

Local Open Scope Q_scope.

Definition CONNECTOR_RPM : list (string * Z) :=
  [("salesforce", 1500); ("hubspot", 6000); ("zendesk", 400); ("zoho_crm", 600);
   ("stripe", 6000); ("quickbooks", 500); ("netsuite", 600); ("oracle_fusion", 600); ("sap", 600); ("tally", 1200); ("zoho_books", 600);
   ("darwinbox", 300); ("greenhouse", 300); ("keka", 300); ("okta", 1200);
   ("mailchimp", 600); ("google_ads", 600); ("meta_ads", 400); ("linkedin_ads", 400);
   ("jira", 600); ("confluence", 600); ("github", 5000); ("pagerduty", 900); ("servicenow", 600);
   ("gstn", 100); ("banking_aa", 200); ("mca_portal", 60);
   ("slack", 600); ("twilio", 1200); ("sendgrid", 1800); ("whatsapp", 480)]%Z.

Definition default_rpm : Z := 60.

(** [rpm or self.CONNECTOR_RPM.get(connector_name, self._default_rpm)] *)
Definition limit_of (connector : string) (rpm : option Z) : Z :=
  match rpm with
  | Some z => if (z =? 0)%Z then default default_rpm (assoc connector CONNECTOR_RPM) else z
  | None => default default_rpm (assoc connector CONNECTOR_RPM)
  end.

Definition qmin (a b : Q) : Q := if Qle_bool a b then a else b.
Definition qmax (a b : Q) : Q := if Qle_bool a b then b else a.

Record bucket := { tokens : Q; last_refill : Q; expires : Q }.

Record RateLimitResult := { allowed : bool; remaining : Q; retry_after_seconds : Q }.

(** [round(x, 3)]: to the nearest thousandth, halves to the even one *)
Definition round3 (x : Q) : Q :=
  let y := x * 1000 + (1 # 2) in
  let n := Qfloor y in
  (if Qeq_bool (inject_Z n) y && Z.odd n then inject_Z (n - 1) else inject_Z n) / 1000.

Section script.
Context (text : Q → Q).

(** Redis drops a key once its time has come. *)
Definition live (t : Q) (b : option bucket) : option bucket :=
  match b with Some b => if Qle_bool (expires b) t then None else Some b | None => None end.

Definition ttl (capacity refill_rate : Q) : Q :=
  qmax 120 (inject_Z (Qceiling (capacity / refill_rate) * 2)).

(** The tokens there are at [now]. *)
Definition refilled (capacity refill_rate now t : Q) (b : option bucket) : Q :=
  match live t b with
  | Some b => qmin capacity (tokens b + qmax (now - last_refill b) 0 * refill_rate)
  | None => qmin capacity (capacity + qmax (now - now) 0 * refill_rate)
  end.

Definition token_bucket (capacity refill_rate now t : Q) (b : option bucket) : bool * Q * Q * bucket :=
  let n := refilled capacity refill_rate now t b in
  let kept q := {| tokens := text q; last_refill := text now; expires := t + ttl capacity refill_rate |} in
  if Qle_bool 1 n then (true, text (n - 1), 0, kept (n - 1))
  else (false, text n, text ((1 - n) / refill_rate), kept n).

(** [None] for the store: Redis is not configured. *)
Definition check (store : option (option bucket)) (connector : string) (rpm : option Z) (now t : Q) :
    RateLimitResult * option (option bucket) :=
  match store with
  | None => ({| allowed := true; remaining := 0; retry_after_seconds := 0 |}, None)
  | Some b =>
      let limit := inject_Z (limit_of connector rpm) in
      let '(ok, left_over, retry, b') := token_bucket limit (limit / 60) now t b in
      ({| allowed := ok; remaining := qmax left_over 0; retry_after_seconds := if ok then 0 else round3 retry |}, Some (Some b'))
  end.

(** The calls at [times] that are let through, with every clock showing the same time *)
Fixpoint admitted (capacity refill_rate : Q) (times : list Q) (b : option bucket) : Q :=
  match times with
  | [] => 0
  | t :: times' =>
      let '(ok, _, _, b') := token_bucket capacity refill_rate t t b in
      (if ok then 1 else 0) + admitted capacity refill_rate times' (Some b')
  end.

(** * The bound *)

Lemma qmin_le_l a b : qmin a b <= a.
Proof. unfold qmin. destruct (Qle_bool a b) eqn:E; [lra|]. destruct (Qlt_le_dec b a); [lra|]. apply Qle_bool_iff in q. congruence. Qed.
Lemma qmin_le_r a b : qmin a b <= b.
Proof. unfold qmin. destruct (Qle_bool a b) eqn:E; [by apply Qle_bool_iff|lra]. Qed.
Lemma qmin_glb a b c : c <= a → c <= b → c <= qmin a b.
Proof. unfold qmin. by destruct (Qle_bool a b). Qed.
Lemma qmax_ub_l a b : a <= qmax a b.
Proof. unfold qmax. destruct (Qle_bool a b) eqn:E; [by apply Qle_bool_iff|lra]. Qed.
Lemma qmax_ub_r a b : b <= qmax a b.
Proof. unfold qmax. destruct (Qle_bool a b) eqn:E; [lra|]. destruct (Qlt_le_dec b a); [lra|]. apply Qle_bool_iff in q. congruence. Qed.
Lemma qmax_lub a b c : a <= c → b <= c → qmax a b <= c.
Proof. unfold qmax. by destruct (Qle_bool a b). Qed.

Context (eps capacity rate : Q).
Context (text_close : ∀ q, text q <= q + eps ∧ q <= text q + eps) (text_nonneg : ∀ q, 0 <= q → 0 <= text q).
Context (rate_pos : 0 < rate) (capacity_nonneg : 0 <= capacity).

Definition bucket_ok (b : option bucket) : Prop := match b with Some b => 0 <= tokens b | None => True end.

Lemma eps_nonneg : 0 <= eps.
Proof. destruct (text_close 0). lra. Qed.

Lemma refilled_le now t b : refilled capacity rate now t b <= capacity.
Proof. unfold refilled. destruct (live t b); apply qmin_le_l. Qed.

Lemma refilled_nonneg now t b : bucket_ok b → 0 <= refilled capacity rate now t b.
Proof.
  intros Hb. unfold refilled. assert (∀ x, 0 <= qmax x 0 * rate) as Hm by (intros x; apply Qmult_le_0_compat; [apply qmax_ub_r|lra]).
  destruct (live t b) as [b'|] eqn:Hl.
  - assert (b = Some b') as -> by (destruct b as [b0|]; cbn in Hl; [by destruct (Qle_bool _ t); simplify_eq|done]).
    apply qmin_glb; [done|]. cbn in Hb. specialize (Hm (now - last_refill b')). lra.
  - apply qmin_glb; [done|]. specialize (Hm (now - now)). lra.
Qed.

(** A key lives at least as long as an empty bucket takes to fill. *)
Lemma ttl_fills : capacity <= ttl capacity rate * rate.
Proof.
  unfold ttl. set (c := Qceiling (capacity / rate)).
  assert (capacity / rate <= inject_Z c) as Hc by apply Qle_ceiling.
  assert (0 <= capacity / rate) as Hn by (apply Qle_shift_div_l; lra).
  assert (inject_Z (c * 2) == inject_Z c * 2) as H2 by (rewrite inject_Z_mult; reflexivity).
  pose proof (qmax_ub_r 120 (inject_Z (c * 2))) as Hm.
  assert (capacity == capacity / rate * rate) as He by (field; lra).
  assert (capacity / rate * rate <= qmax 120 (inject_Z (c * 2)) * rate) by (apply Qmult_le_compat_r; lra). lra.
Qed.

(** What one call at [t] leaves for a later [t']. *)
Lemma token_bucket_step t t' b :
  bucket_ok b → t <= t' →
  let '(ok, _, _, b') := token_bucket capacity rate t t b in
  bucket_ok (Some b') ∧
  (if ok then 1 else 0) + refilled capacity rate t' t' (Some b') <=
  refilled capacity rate t t b + (t' - t) * rate + (eps + eps * rate).
Proof.
  intros Hb Ht. pose proof (refilled_nonneg t t b Hb) as Hn. pose proof eps_nonneg as He.
  unfold token_bucket. set (n := refilled capacity rate t t b) in *.
  assert (∀ q, 0 <= q → let b' := {| tokens := text q; last_refill := text t; expires := t + ttl capacity rate |} in
    bucket_ok (Some b') ∧ refilled capacity rate t' t' (Some b') <= q + (t' - t) * rate + (eps + eps * rate)) as Hkept.
  { intros q Hq b'. split; [by apply text_nonneg|]. unfold refilled. cbn [live b' expires].
    destruct (text_close q) as [Hq1 _], (text_close t) as [_ Ht1].
    destruct (Qle_bool (t + ttl capacity rate) t') eqn:Hx.
    - eapply Qle_trans; [apply qmin_le_l|]. apply Qle_bool_iff in Hx. pose proof ttl_fills.
      assert (ttl capacity rate * rate <= (t' - t) * rate) by (apply Qmult_le_compat_r; lra).
      assert (0 <= eps * rate) by (apply Qmult_le_0_compat; lra). lra.
    - eapply Qle_trans; [apply qmin_le_r|]. cbn.
      assert (qmax (t' - text t) 0 * rate <= (t' - t + eps) * rate) by (apply Qmult_le_compat_r; [apply qmax_lub; lra|lra]). lra. }
  destruct (Qle_bool 1 n) eqn:H1.
  - apply Qle_bool_iff in H1. destruct (Hkept (n - 1)) as [? ?]; [lra|]. split; [done|]. lra.
  - destruct (Hkept n Hn) as [? ?]. split; [done|]. lra.
Qed.

Lemma admitted_bound times t b :
  bucket_ok b → StronglySorted Qle (t :: times) →
  admitted capacity rate (t :: times) b <=
  refilled capacity rate t t b + (List.last (t :: times) 0 - t) * rate + inject_Z (Z.of_nat (length (t :: times))) * (eps + eps * rate).
Proof.
  revert t b. induction times as [|t' times IH]; intros t b Hb Hs.
  - pose proof (token_bucket_step t t b Hb (Qle_refl t)) as Hstep. cbn [admitted List.last length].
    destruct (token_bucket capacity rate t t b) as [[[ok ?] ?] b']. destruct Hstep as [Hb' Hle].
    pose proof (refilled_nonneg t t (Some b') Hb'). change (inject_Z (Z.of_nat 1)) with 1. lra.
  - apply StronglySorted_inv in Hs as [Hs Hall]. inversion_clear Hall as [|? ? Htt _].
    pose proof (token_bucket_step t t' b Hb Htt) as Hstep. cbn [admitted] in *.
    destruct (token_bucket capacity rate t t b) as [[[ok ?] ?] b']. destruct Hstep as [Hb' Hle].
    specialize (IH t' (Some b') Hb' Hs).
    change (List.last (t :: t' :: times) 0) with (List.last (t' :: times) 0). cbn [length] in *.
    rewrite (Nat2Z.inj_succ (S (length times))), <- Z.add_1_r, inject_Z_plus. change (inject_Z 1) with 1.
    set (m := inject_Z (Z.of_nat (S (length times)))) in *. set (l := List.last (t' :: times) 0) in *.
    cbn [admitted] in IH. destruct (token_bucket capacity rate t' t' (Some b')) as [[[ok' ?] ?] b'']. lra.
Qed.
End script.

(** * The limiter *)

(** How many of the calls [(now, t)] of one tenant and connector [check] lets through *)
Fixpoint let_through (text : Q → Q) (connector : string) (rpm : option Z) (calls : list (Q * Q)) (store : option (option bucket)) : Q :=
  match calls with
  | [] => 0
  | (now, t) :: calls' =>
      let (res, store') := check text store connector rpm now t in
      (if allowed res then 1 else 0) + let_through text connector rpm calls' store'
  end.

Lemma let_through_admitted text connector rpm times b :
  let_through text connector rpm ((λ t, (t, t)) <$> times) (Some b) ==
  admitted text (inject_Z (limit_of connector rpm)) (inject_Z (limit_of connector rpm) / 60) times b.
Proof.
  revert b. induction times as [|t times IH]; intros b; [reflexivity|]. cbn. destruct (token_bucket _ _ _ _ _ _) as [[[ok ?] ?] b'].
  cbn. by rewrite IH.
Qed.

(** Over any period, whatever the bucket held before and whether or not its key expired in
    between, the calls let through are at most the limit per minute once more than the period
    allows: [limit + limit / 60 * seconds], up to the error of the numbers kept as text. *)
Theorem admitted_calls_bounded text eps connector rpm t times b :
  (∀ q, text q <= q + eps ∧ q <= text q + eps) → (∀ q, 0 <= q → 0 <= text q) →
  (0 < limit_of connector rpm)%Z → bucket_ok b → StronglySorted Qle (t :: times) →
  let limit := inject_Z (limit_of connector rpm) in
  let_through text connector rpm ((λ t, (t, t)) <$> t :: times) (Some b) <=
  limit + (List.last (t :: times) 0 - t) * (limit / 60) + inject_Z (Z.of_nat (length (t :: times))) * (eps + eps * (limit / 60)).
Proof.
  intros Hclose Hnn Hlim Hb Hs limit. rewrite let_through_admitted. fold limit.
  assert (0 < limit) as Hl by (unfold limit; change 0 with (inject_Z 0); by rewrite <- Zlt_Qlt).
  assert (0 < limit / 60) as Hr by (apply Qlt_shift_div_l; lra).
  eapply Qle_trans; [apply (admitted_bound text eps); [done|done|lra|lra|done|done]|].
  pose proof (refilled_le limit (limit / 60) t t b). lra.
Qed.

(** A call is refused with a wait of zero seconds when less than half a millisecond is missing,
    although the result promises a positive one. *)
Theorem refused_with_zero_wait :
  ∃ b, let res := fst (check (λ q, q) (Some (Some b)) "hubspot" None 0 0) in allowed res = false ∧ retry_after_seconds res == 0.
Proof. exists {| tokens := 96 # 100; last_refill := 0; expires := 1000 |}. vm_compute. repeat split. Qed.

Lemma token_bucket_lets text capacity rate now t b :
  1 <= refilled capacity rate now t b →
  token_bucket text capacity rate now t b =
  (true, text (refilled capacity rate now t b - 1), 0,
   {| tokens := text (refilled capacity rate now t b - 1); last_refill := text now; expires := t + ttl capacity rate |}).
Proof. intros Hn. unfold token_bucket. by apply Qle_bool_iff in Hn as ->. Qed.

(** Two turns of callers a minute apart: both are let through, and the next two find the bucket as these did. *)
Definition at_zero (b : option bucket) : Prop :=
  match b with Some b => 0 <= tokens b ∧ last_refill b == 0 ∧ 0 < expires b | None => True end.

Lemma skewed_turns b :
  at_zero b → ∃ b', at_zero (Some b') ∧
    ∀ calls, let_through (λ q, q) "tool" None ((60, 0) :: (0, 0) :: calls) (Some b) == 2 + let_through (λ q, q) "tool" None calls (Some (Some b')).
Proof.
  intros Hb. set (r := inject_Z 60 / 60). assert (∀ x, x * r == x) as Hr by (intros x; unfold r; field).
  assert (60 <= refilled 60 r 60 0 b) as H1.
  { destruct b as [b|]; [|vm_compute; discriminate]. destruct Hb as (Ht & Hl & He). unfold refilled. cbn [live].
    destruct (Qle_bool (expires b) 0) eqn:Hx; [apply Qle_bool_iff in Hx; lra|]. apply qmin_glb; [lra|].
    pose proof (qmax_ub_l (60 - last_refill b) 0). pose proof (Hr (qmax (60 - last_refill b) 0)). lra. }
  set (b1 := {| tokens := refilled 60 r 60 0 b - 1; last_refill := 60; expires := 0 + ttl 60 r |}).
  assert (59 <= refilled 60 r 0 0 (Some b1)) as H2.
  { unfold refilled. change (live 0 (Some b1)) with (Some b1). apply qmin_glb; [lra|]. cbn.
    pose proof (qmax_ub_r (0 - 60) 0). pose proof (Hr (qmax (0 - 60) 0)). lra. }
  exists {| tokens := refilled 60 r 0 0 (Some b1) - 1; last_refill := 0; expires := 0 + ttl 60 r |}.
  split; [cbn; repeat split; lra|]. intros calls. cbn [let_through]. unfold check.
  change (inject_Z (limit_of "tool" None)) with 60. change (60 / 60) with r.
  rewrite (token_bucket_lets _ 60 r 60 0 b) by lra. cbv beta iota. fold b1.
  rewrite (token_bucket_lets _ 60 r 0 0 (Some b1)) by lra. cbv beta iota. cbn [allowed]. ring.
Qed.

(** The callers' clocks are trusted to go forward: two callers of a connector with the default
    limit of 60 a minute whose clocks are a minute apart are let through every time they take turns,
    [2 * n] calls at one and the same moment. *)
Theorem skewed_clocks_defeat_the_limit n :
  let_through (λ q, q) "tool" None (mjoin (replicate n [(60, 0); (0, 0)])) (Some None) == inject_Z (2 * Z.of_nat n).
Proof.
  assert (at_zero None) as Hb by done. revert Hb. generalize (None : option bucket).
  induction n as [|n IH]; intros b Hb; [reflexivity|].
  destruct (skewed_turns b Hb) as (b' & Hb' & Hstep).
  change (mjoin (replicate (S n) [(60, 0); (0, 0)])) with ((60, 0) :: (0, 0) :: mjoin (replicate n [(60, 0); (0, 0)])).
  rewrite Hstep, IH, Nat2Z.inj_succ, Z.mul_succ_r, inject_Z_plus by done. change (inject_Z 2) with 2. ring.
Qed.

(** Numbers kept to the hundredth below *)
Definition hundredths (q : Q) : Q := inject_Z (Qfloor (q * 100)) / 100.

Lemma hundredths_close q : hundredths q <= q + (1 # 100) ∧ q <= hundredths q + (1 # 100).
Proof.
  unfold hundredths. pose proof (Qfloor_le (q * 100)) as H1. pose proof (Qlt_floor (q * 100)) as H2.
  rewrite inject_Z_plus in H2. change (inject_Z 1) with 1 in H2.
  set (f := inject_Z (Qfloor (q * 100))) in *. assert (f / 100 == f * (1 # 100)) as -> by field. split; lra.
Qed.

Lemma admitted_calls_bounded_witness :
  let_through hundredths "tool" None ((λ t, (t, t)) <$> [0; 30; 60]) (Some None) <= 60 + (60 - 0) * 1 + 3 * ((1 # 100) + (1 # 100) * 1).
Proof.
  refine (Qle_trans _ _ _ (admitted_calls_bounded hundredths (1 # 100) "tool" None 0 [30; 60] None hundredths_close _ _ _ _) _).
  - intros q Hq. unfold hundredths. apply Qle_shift_div_l; [reflexivity|]. rewrite Qmult_0_l. change 0 with (inject_Z 0).
    rewrite <- Zle_Qle. assert (Qfloor (inject_Z 0) <= Qfloor (q * 100))%Z as Hf by (apply Qfloor_resp_le; change (inject_Z 0) with 0; lra).
    rewrite Qfloor_Z in Hf. exact Hf.
  - reflexivity.
  - exact I.
  - repeat constructor; discriminate.
  - apply Qle_bool_iff. vm_compute. reflexivity.
Defined.
