(* ===== verification/ActionPolicy.v ===== *)
(** The action policy of tool calls: src/core/governance/action_policy.py and the runtime labels of
    src/core/config.py.

    Identifiers of tenants and companies are parsed by [UuidText]; the store of feature flags is an
    argument of [evaluate_action], whose reads may fail. The code collects up to two candidate names
    of an action in a Python set and takes the first one a group lists; the order of the set is that
    of the string hashes of the process, an argument here ([before]). *)

From Stdlib Require Import Ascii.
From S2P Require Import Prelude PyVal PyText.

Local Open Scope Z_scope.

(** [UUID(text)] *)
Class UuidText := uuid_of_text : string → option string.

(** * Taxonomy *)

Definition ACTION_TAXONOMY_VERSION : string := "2026-07-14.v1".
Definition FORCE_SHADOW_FLAG : string := "safety.unsafe_actions.force_shadow".

Inductive ActionDomain := PLATFORM | FINANCE | CA | MARKETING | HR | OPERATIONS | CBO | COMMERCE.

Inductive ActionRisk :=
| READ | DRAFT | INTERNAL_WRITE | CUSTOMER_WRITE | MONEY | FILING | EMPLOYMENT | ACCESS | DESTRUCTIVE | SIGNATURE
| DISCLOSURE | REGULATOR.

Inductive ActionMode := READ_ONLY | DRAFT_ONLY | SHADOW | LIVE | BLOCKED.

#[global] Instance ActionDomain_eq_dec : EqDecision ActionDomain.
Proof. solve_decision. Defined.
#[global] Instance ActionRisk_eq_dec : EqDecision ActionRisk.
Proof. solve_decision. Defined.
#[global] Instance ActionMode_eq_dec : EqDecision ActionMode.
Proof. solve_decision. Defined.

Definition domain_value (d : ActionDomain) : string :=
  match d with
  | PLATFORM => "platform" | FINANCE => "finance" | CA => "ca" | MARKETING => "marketing" | HR => "hr"
  | OPERATIONS => "operations" | CBO => "cbo" | COMMERCE => "commerce"
  end.

Definition risk_value (r : ActionRisk) : string :=
  match r with
  | READ => "read" | DRAFT => "draft" | INTERNAL_WRITE => "internal-write" | CUSTOMER_WRITE => "customer-write"
  | MONEY => "money" | FILING => "filing" | EMPLOYMENT => "employment" | ACCESS => "access" | DESTRUCTIVE => "destructive"
  | SIGNATURE => "signature" | DISCLOSURE => "disclosure" | REGULATOR => "regulator"
  end.

Definition ALL_DOMAINS : list ActionDomain := [PLATFORM; FINANCE; CA; MARKETING; HR; OPERATIONS; CBO; COMMERCE].
Definition CUSTOMER_DOMAINS : list ActionDomain := List.filter (λ d, negb (bool_decide (d = PLATFORM))) ALL_DOMAINS.
Definition ALL_RISKS : list ActionRisk :=
  [READ; DRAFT; INTERNAL_WRITE; CUSTOMER_WRITE; MONEY; FILING; EMPLOYMENT; ACCESS; DESTRUCTIVE; SIGNATURE; DISCLOSURE; REGULATOR].
Definition UNSAFE_ACTION_RISKS : list ActionRisk := List.filter (λ r, negb (bool_decide (r ∈ [READ; DRAFT]))) ALL_RISKS.

Definition domain_of (s : string) : option ActionDomain := List.find (λ d, String.eqb (domain_value d) s) ALL_DOMAINS.
Definition risk_of (s : string) : option ActionRisk := List.find (λ r, String.eqb (risk_value r) s) ALL_RISKS.

Definition _ALIASES : list (string * string) :=
  [("security", "platform"); ("accounting", "finance"); ("tax", "finance"); ("cfo", "finance"); ("ca_firm",
   "ca"); ("chartered_accountant", "ca"); ("cmo", "marketing"); ("human_resources", "hr"); ("chro", "hr");
   ("ops", "operations"); ("coo", "operations"); ("it", "operations"); ("support", "operations"); ("facilities",
   "operations"); ("backoffice", "cbo"); ("back_office", "cbo"); ("legal", "cbo"); ("risk", "cbo"); ("corporate",
   "cbo"); ("comms", "cbo"); ("sales", "commerce")].

(** * Names *)

Definition name_char (c : ascii) : bool := is_lower_az c || is_digit c.

(** [re.sub(r"[^a-z0-9]+", "_", text)] *)
Fixpoint collapse (in_run : bool) (l : list ascii) : list ascii :=
  match l with
  | [] => []
  | c :: l' =>
      if name_char c then c :: collapse false l'
      else if in_run then collapse true l' else "_"%char :: collapse true l'
  end.

(** [text.strip("_")] *)
Definition strip_underscores (l : list ascii) : list ascii :=
  reverse (drop_while is_underscore (reverse (drop_while is_underscore l))).

Definition _norm (value : string) : string := of_chars (strip_underscores (collapse false (chars (lower (strip value))))).

Definition _domain (value : string) : option ActionDomain :=
  let normalized := _norm value in domain_of (default normalized (assoc normalized _ALIASES)).

(** * The table of actions *)

Definition _RULE_GROUPS : list (ActionRisk * list ActionDomain * list string) := [
  (READ, ALL_DOMAINS,
     ["remote_mcp_read"]);
  (CUSTOMER_WRITE, ALL_DOMAINS,
     ["remote_mcp_write"]);
  (READ, ALL_DOMAINS,
     ["read_record"; "get_record"; "list_records"; "search_records"; "fetch_report"; "check_status";
      "get_trial_balance"; "get_ledger_balance"; "get_profit_loss"; "get_balance_sheet"; "list_invoices";
      "list_overdue_invoices"; "fetch_bank_statement"; "check_account_balance"; "get_transaction_list";
      "fetch_gstr2a"; "check_tds_credit_in_26as"; "apply_macro"; "buyer_discovery_preview"; "catalog_get_item";
      "catalog_search"; "check_filing_status"; "check_order_status"; "get_access_log"; "get_analytics";
      "get_applications"; "get_attendance"; "get_backlinks"; "get_balance"; "get_bill_by_id";
      "get_campaign_analytics"; "get_campaign_insights"; "get_campaign_performance";
      "get_campaign_performance_metrics"; "get_campaign_report"; "get_campaign_stats"; "get_cash_position";
      "get_compliance_notice"; "get_csat_score"; "get_deal"; "get_domain_rating"; "get_employee";
      "get_invoice_by_id"; "get_mentions"; "get_org_chart"; "get_organic_keywords"; "get_page_tree"; "get_payslip";
      "get_post_analytics"; "get_project_metrics"; "get_search_term_report"; "get_search_terms";
      "get_share_of_voice"; "get_sla_breach_status"; "get_stats"; "inventory_check"; "list_active_sessions";
      "list_bills"; "list_channel_videos"; "list_contacts"; "list_deals"; "list_owners"; "list_vendor_bills";
      "list_vendors"; "merchant_get_profile"; "payment_get_status"; "query"; "read_inbox"; "search_bills";
      "search_campaigns"; "search_candidates"; "search_contacts"; "search_content_fulltext"; "search_emails";
      "search_invoices"; "search_issues"]);
  (DRAFT, ALL_DOMAINS,
     ["prepare_draft"; "draft_customer_message"; "draft_disclosure"; "calculate_tds"; "generate_tds_summary";
      "prepare_26q"; "prepare_24q"; "prepare_professional_tax_return"; "get_professional_tax_challan_draft";
      "build_filing_payload"; "propose_payment"]);
  (INTERNAL_WRITE, ALL_DOMAINS,
     ["create_internal_record"; "update_internal_record"; "create_journal_entry"; "create_tds_entry"; "update_bill";
      "post_voucher"; "reconcile_bank"; "write_off_invoice"; "acknowledge_incident"; "add_comment";
      "add_list_member"; "assign_contact_owner"; "associate_contact_to_company"; "create_ap_invoice"; "create_bill";
      "create_contact"; "create_incident"; "create_invoice"; "create_issue"; "create_item"; "create_ticket";
      "create_vendor"; "escalate_to_group"; "generate_postmortem_doc"; "manage_on_call_schedule";
      "post_journal_entry"; "record_expense"; "trigger_alert_with_context"; "update_contact"]);
  (CUSTOMER_WRITE, CUSTOMER_DOMAINS,
     ["send_customer_message"; "send_email"; "send_message"; "reply_ticket"; "publish_content"; "launch_campaign";
      "create_calendar_event"; "create_tweet"; "create_update"; "post_alert"; "schedule_social_post";
      "send_campaign"; "slack_send_message"; "cart_create"]);
  (MONEY, [FINANCE; CA; COMMERCE],
     ["queue_payment"; "initiate_payment"; "pay_tax_challan"; "create_payment_intent"; "capture_payment";
      "issue_refund"; "transfer_funds"; "create_payment_link"; "checkout_create"; "create_order";
      "payment_create_intent"]);
  (MONEY, [MARKETING],
     ["mutate_campaign_budget"]);
  (FILING, [FINANCE; CA],
     ["push_gstr1_data"; "file_gstr3b"; "file_gstr9"; "file_26q_return"; "file_24q_return"; "file_itr";
      "submit_professional_tax_return"]);
  (EMPLOYMENT, [HR],
     ["shortlist_candidate"; "reject_candidate"; "hire_candidate"; "create_employee"; "terminate_employee";
      "update_compensation"; "process_payroll"; "post_job"; "post_leave"; "run_payroll"; "schedule_interview";
      "send_inmail"; "send_offer"; "update_performance"]);
  (ACCESS, ALL_DOMAINS,
     ["provision_access"; "revoke_access"; "disable_user"; "enable_user"; "reset_credentials"; "assign_group";
      "consent_exchange"; "consent_request"; "deactivate_user"; "manage_space_permissions"; "provision_user";
      "remove_group"]);
  (DESTRUCTIVE, ALL_DOMAINS,
     ["delete_resource"; "purge_resource"; "restart_service"; "rollback_deployment"; "terminate_instance";
      "delete_contact"]);
  (SIGNATURE, [CA; HR; CBO],
     ["create_envelope"; "send_for_signature"; "apply_signature"; "execute_contract"]);
  (DISCLOSURE, [MARKETING; CBO],
     ["publish_disclosure"; "publish_crisis_response"; "publish_board_material"; "publish_press_release"]);
  (REGULATOR, [FINANCE; CA; HR; CBO],
     ["respond_to_notice"; "submit_regulatory_response"; "update_entity_registration"; "generate_eway_bill";
      "generate_einvoice_irn"])
].

Definition _QUALIFIED_RULES : list (string * (ActionRisk * list ActionDomain)) :=
  [
   ("ucp_buyer_catalog_search", (READ, ALL_DOMAINS));
   ("ucp_buyer_catalog_lookup", (READ, ALL_DOMAINS));
   ("ucp_buyer_checkout_get", (READ, ALL_DOMAINS));
   ("ucp_buyer_checkout_create", (CUSTOMER_WRITE, CUSTOMER_DOMAINS));
   ("ucp_buyer_checkout_update", (CUSTOMER_WRITE, CUSTOMER_DOMAINS));
   ("ucp_buyer_sandbox_checkout_create", (DRAFT, CUSTOMER_DOMAINS));
   ("ucp_buyer_sandbox_checkout_update", (DRAFT, CUSTOMER_DOMAINS))].

(** [text.rsplit(":", 1)[-1]] *)
Definition last_part (s : string) : string := default s (last (split ":" s)).

Definition has_colon (s : string) : bool := existsb (Ascii.eqb ":") (chars s).

Section policy.
(** Whether the first string comes before the second in a set of the two *)
Context (before : string → string → bool).

Definition candidates (raw : string) : list string :=
  let whole := _norm raw in
  if has_colon raw then
    let tool := _norm (last_part raw) in
    if String.eqb whole tool then [whole] else if before whole tool then [whole; tool] else [tool; whole]
  else [whole].

Fixpoint first_group (cs : list string) (groups : list (ActionRisk * list ActionDomain * list string)) :
    option (string * ActionRisk * list ActionDomain) :=
  match groups with
  | [] => None
  | (risk, domains, actions) :: groups' =>
      match List.find (λ c, bool_decide (c ∈ actions)) cs with
      | Some c => Some (c, risk, domains)
      | None => first_group cs groups'
      end
  end.

Definition _rule (action : string) : option (string * ActionRisk * list ActionDomain) :=
  let raw := strip action in
  match assoc (_norm raw) _QUALIFIED_RULES with
  | Some (risk, domains) => Some (_norm raw, risk, domains)
  | None => first_group (candidates raw) _RULE_GROUPS
  end.

Definition classify_action (action : string) (domain : option string) : option ActionRisk :=
  match _rule action with
  | None => None
  | Some (_, risk, domains) =>
      match domain with
      | None => Some risk
      | Some d => match _domain d with Some d => if bool_decide (d ∈ domains) then Some risk else None | None => None end
      end
  end.

Definition capability_flag_key (domain : ActionDomain) (risk : ActionRisk) : string :=
  "safety.live_capability." +:+ domain_value domain +:+ "." +:+ replace_text "-" "_" (risk_value risk).

(** * Contexts and authorisations *)

Context `{UuidText}.

(** An identifier as a caller gives it: nothing, a [UUID] or a text *)
Inductive ident := NoId | Uuid (u : string) | IdText (s : string).

Definition _uuid (value : ident) : option string :=
  match value with NoId => uuid_of_text "None" | Uuid u => Some u | IdText s => uuid_of_text s end.

Definition _required_uuid (value : ident) (name : string) : string + string :=
  if match value with NoId => true | Uuid _ => false | IdText s => blank s end then inr ("context_" +:+ name +:+ "_missing")
  else match _uuid value with Some u => inl u | None => inr ("context_" +:+ name +:+ "_invalid") end.

Record ActionContext := { tenant_id : ident; company_id : ident; domain : option string; runtime_env : option string }.

Record CapabilityAuthorization := {
  authorization_id : string;
  auth_tenant_id : ident;
  auth_company_id : ident;
  auth_domain : string;
  auth_action : string;
  auth_risk : string;
}.

Definition matches (a : CapabilityAuthorization) (tenant company : string) (d : ActionDomain) (action : string) (risk : ActionRisk) : bool :=
  match risk_of (replace_text "_" "-" (auth_risk a)) with
  | None => false
  | Some r =>
      let act := match _rule (auth_action a) with Some (c, _, _) => c | None => _norm (auth_action a) end in
      negb (blank (authorization_id a)) && bool_decide (_uuid (auth_tenant_id a) = Some tenant) &&
      bool_decide (_uuid (auth_company_id a) = Some company) && bool_decide (_domain (auth_domain a) = Some d) &&
      String.eqb act action && bool_decide (r = risk)
  end.

Record ActionDecision := {
  mode : ActionMode;
  dispatch_allowed : bool;
  safe_mode_allowed : bool;
  reason : string;
  requested_action : string;
  canonical_action : option string;
  risk : option ActionRisk;
  decision_domain : option ActionDomain;
  strict_runtime : bool;
  required_feature_flag : option string;
}.

(** * Runtimes *)

Definition RELAXED_ENVS : list string := ["local"; "dev"; "development"; "test"; "ci"].
Definition is_strict_runtime_env (env : option string) : bool :=
  negb (bool_decide (lower (strip (default EmptyString env)) ∈ RELAXED_ENVS)).

(** * The decision *)

(** [resolver(key, tenant_id, company_id, default)]; [None] is an exception *)
Definition resolver : Type := string → string → string → bool → option bool.

Definition _flag (r : resolver) (key tenant company : string) (dflt failure : bool) : bool :=
  default failure (r key tenant company dflt).

Definition blocked (why requested : string) (canonical : option string) (r : option ActionRisk) (d : option ActionDomain) (strict : bool) : ActionDecision :=
  {| mode := BLOCKED; dispatch_allowed := false; safe_mode_allowed := false; reason := why; requested_action := requested;
     canonical_action := canonical; risk := r; decision_domain := d; strict_runtime := strict; required_feature_flag := None |}.

Definition shadow (why requested canonical : string) (r : ActionRisk) (d : ActionDomain) (strict : bool) (flag : string) : ActionDecision :=
  {| mode := SHADOW; dispatch_allowed := false; safe_mode_allowed := true; reason := why; requested_action := requested;
     canonical_action := Some canonical; risk := Some r; decision_domain := Some d; strict_runtime := strict;
     required_feature_flag := Some flag |}.

(** The decision on an action of the table in a domain it belongs to *)
Definition contain (requested canonical : string) (r : ActionRisk) (d : ActionDomain) (strict : bool) (tenant company : string)
    (authorization : option CapabilityAuthorization) (feature_flags : option resolver) : ActionDecision :=
  let allow m why safe flag :=
    {| mode := m; dispatch_allowed := true; safe_mode_allowed := safe; reason := why; requested_action := requested;
       canonical_action := Some canonical; risk := Some r; decision_domain := Some d; strict_runtime := strict;
       required_feature_flag := flag |} in
  if bool_decide (r = READ) then allow READ_ONLY "read_action_allowed" true None
  else if bool_decide (r = DRAFT) then allow DRAFT_ONLY "draft_action_allowed" true None
  else
    let flag := capability_flag_key d r in
    let contained why := shadow why requested canonical r d strict flag in
    if strict then contained "unsafe_action_force_shadow"
    else if match feature_flags with None => false | Some f => _flag f FORCE_SHADOW_FLAG tenant company false true end
    then contained "unsafe_action_force_shadow"
    else if negb match feature_flags with None => false | Some f => _flag f flag tenant company false false end
    then contained "live_capability_flag_disabled"
    else match authorization with
    | None => contained "capability_authorization_missing"
    | Some a =>
        if negb (matches a tenant company d canonical r) then contained "capability_authorization_mismatch"
        else allow LIVE "live_capability_authorized" false (Some flag)
    end.

Definition evaluate_action (action : string) (context : ActionContext) (authorization : option CapabilityAuthorization)
    (feature_flags : option resolver) : ActionDecision :=
  let requested := strip action in
  let strict := is_strict_runtime_env (runtime_env context) in
  match _required_uuid (tenant_id context) "tenant", _required_uuid (company_id context) "company" with
  | inr why, _ | inl _, inr why => blocked why requested None None None strict
  | inl tenant, inl company =>
      match _domain (default EmptyString (domain context)) with
      | None =>
          blocked (if blank (default EmptyString (domain context)) then "context_domain_missing" else "context_domain_unknown")
            requested None None None strict
      | Some d =>
          match _rule action with
          | None => blocked (if String.eqb requested EmptyString then "action_missing" else "action_unknown") requested None None (Some d) strict
          | Some (canonical, r, domains) =>
              if negb (bool_decide (d ∈ domains)) then blocked "action_domain_mismatch" requested (Some canonical) (Some r) (Some d) strict
              else contain requested canonical r d strict tenant company authorization feature_flags
          end
      end
  end.
End policy.

(** * What the policy lets through *)

(** A name of the table, in a group whose domains include that of the call *)
Definition classified `{UuidText} (before : string → string → bool) (action : string) (context : ActionContext)
    (tenant company canonical : string) (d : ActionDomain) (r : ActionRisk) : Prop :=
  _required_uuid (tenant_id context) "tenant" = inl tenant ∧ _required_uuid (company_id context) "company" = inl company ∧
  _domain (default EmptyString (domain context)) = Some d ∧
  ∃ domains, _rule before action = Some (canonical, r, domains) ∧ d ∈ domains.

(** An operator has switched the capability on for the company, nothing forces shadow mode, and the
    caller holds an authorisation for this very action. *)
Definition live_authorised `{UuidText} (before : string → string → bool) (tenant company canonical : string) (d : ActionDomain)
    (r : ActionRisk) (authorization : option CapabilityAuthorization) (flags : option resolver) : Prop :=
  ∃ f a, flags = Some f ∧ authorization = Some a ∧ f FORCE_SHADOW_FLAG tenant company false = Some false ∧
    f (capability_flag_key d r) tenant company false = Some true ∧ matches before a tenant company d canonical r = true.

(** The part of the decision past the table *)
Definition released (strict : bool) (r : ActionRisk) (live : Prop) : Prop := r = READ ∨ r = DRAFT ∨ strict = false ∧ live.

Lemma flag_failed f key tenant company dflt : _flag f key tenant company dflt true = false ↔ f key tenant company dflt = Some false.
Proof. unfold _flag. destruct (f _ _ _ _) as [[]|]; naive_solver. Qed.

Lemma flag_on f key tenant company dflt : _flag f key tenant company dflt false = true ↔ f key tenant company dflt = Some true.
Proof. unfold _flag. destruct (f _ _ _ _) as [[]|]; naive_solver. Qed.

Lemma contain_spec `{UuidText} before requested canonical r d strict tenant company authorization flags :
  let dec := contain before requested canonical r d strict tenant company authorization flags in
  risk dec = Some r ∧
  (dispatch_allowed dec = true ↔ released strict r (live_authorised before tenant company canonical d r authorization flags)).
Proof.
  cbn zeta. unfold contain, released, live_authorised.
  case_bool_decide as Hr; [naive_solver|]. case_bool_decide as Hd; [naive_solver|].
  destruct strict; [naive_solver|]. destruct flags as [f|]; [|naive_solver].
  destruct (_flag f FORCE_SHADOW_FLAG tenant company false true) eqn:E1.
  { split; [done|]. cbn. split; [done|]. rewrite <- not_false_iff_true, flag_failed in E1. naive_solver. }
  destruct (_flag f (capability_flag_key d r) tenant company false false) eqn:E2; cbn [negb].
  2: { split; [done|]. cbn. split; [done|]. rewrite <- not_true_iff_false, flag_on in E2. naive_solver. }
  apply flag_failed in E1. apply flag_on in E2.
  destruct authorization as [a|]; [|naive_solver]. destruct (matches before a tenant company d canonical r) eqn:E3; naive_solver.
Qed.

Lemma dispatch_spec `{UuidText} before action context authorization flags :
  let d := evaluate_action before action context authorization flags in
  dispatch_allowed d = true ↔
  ∃ tenant company canonical dom r, classified before action context tenant company canonical dom r ∧ risk d = Some r ∧
    released (is_strict_runtime_env (runtime_env context)) r (live_authorised before tenant company canonical dom r authorization flags).
Proof.
  cbn zeta. unfold evaluate_action, classified, released.
  destruct (_required_uuid (tenant_id context) "tenant") as [tenant|]; [|split; [done|intros (?&?&?&?&?&(?&_)&_); done]].
  destruct (_required_uuid (company_id context) "company") as [company|]; [|split; [done|intros (?&?&?&?&?&(_&?&_)&_); done]].
  destruct (_domain _) as [dom|]; [|split; [done|intros (?&?&?&?&?&(_&_&?&_)&_); done]].
  destruct (_rule before action) as [[[canonical r] domains]|]; [|split; [done|intros (?&?&?&?&?&(_&_&_&?&?&_)&_); done]].
  case_bool_decide as Hin; cbn [negb]; [|split; [done|intros (?&?&?&?&?&(_&_&?&?&?&?)&_); simplify_eq; done]].
  destruct (contain_spec before (strip action) canonical r dom (is_strict_runtime_env (runtime_env context)) tenant company
    authorization flags) as [Hr Hd]. rewrite Hd. split.
  - intros Hrel. exists tenant, company, canonical, dom, r. naive_solver.
  - intros (t & c & n & d & r' & (? & ? & ? & ds & ? & ?) & _ & Hrel). by simplify_eq.
Qed.

(** C16. Containment. The policy lets an action be dispatched exactly when tenant, company and domain are
    given, the action is one of the table in a group of that domain, and it is a read or a draft, or
    the runtime is a relaxed one in which an operator has switched the live capability on, nothing
    forces shadow mode, and the caller holds an authorisation for this tenant, company, domain, action
    and risk. A failing flag store counts as shadow mode; in a strict runtime no flag and no
    authorisation ever lets anything but a read or a draft through. *)
Theorem dispatched_exactly_when_contained `{UuidText} before action context authorization flags :
  let d := evaluate_action before action context authorization flags in
  dispatch_allowed d = true ↔
  ∃ tenant company canonical dom r, classified before action context tenant company canonical dom r ∧ risk d = Some r ∧
    released (is_strict_runtime_env (runtime_env context)) r (live_authorised before tenant company canonical dom r authorization flags).
Proof. apply dispatch_spec. Qed.

(** The class of an action does not depend on the order of the set of its names. *)
Lemma first_group_class cs cs' groups : (∀ c, c ∈ cs ↔ c ∈ cs') →
  (λ '(_, r, d), (r, d)) <$> first_group cs groups = (λ '(_, r, d), (r, d)) <$> first_group cs' groups.
Proof.
  intros Hcs. induction groups as [|[[r d] actions] groups IH]; cbn; [done|].
  destruct (List.find _ cs) as [c|] eqn:E1, (List.find _ cs') as [c'|] eqn:E2; try done.
  - exfalso. apply List.find_some in E1 as [H1 H2]. eapply List.find_none in E2; [|apply list_elem_of_In, Hcs, list_elem_of_In, H1].
    cbn in *. congruence.
  - exfalso. apply List.find_some in E2 as [H1 H2]. eapply List.find_none in E1; [|apply list_elem_of_In, Hcs, list_elem_of_In, H1].
    cbn in *. congruence.
Qed.

Theorem class_independent_of_order before before' action d : classify_action before action d = classify_action before' action d.
Proof.
  assert (E : (λ '(_, r, d), (r, d)) <$> _rule before action = (λ '(_, r, d), (r, d)) <$> _rule before' action).
  { unfold _rule. destruct (assoc _ _QUALIFIED_RULES) as [[r ds]|]; [done|]. apply first_group_class. intros c. unfold candidates.
    destruct (has_colon _); [|done]. destruct (String.eqb _ _); [done|]. destruct (before _ _), (before' _ _); set_solver. }
  unfold classify_action. destruct (_rule before action) as [[[n r] ds]|], (_rule before' action) as [[[n' r'] ds']|]; by simplify_eq/=.
Qed.

(** Every name of the table has one class. *)
Lemma action_names_distinct : NoDup (_RULE_GROUPS ≫= snd).
Proof. apply (bool_decide_eq_true_1 _). vm_compute. reflexivity. Qed.

(** The order of the set of the two names of a qualified action does decide its canonical name: both
    names of [slack:send_message] are in one group, and an authorisation for the one name matches or
    does not as the set is iterated, that is, by the hash seed of the process. *)
Definition slack_authorization : CapabilityAuthorization :=
  {| authorization_id := "auth-1"; auth_tenant_id := Uuid "t"; auth_company_id := Uuid "c"; auth_domain := "marketing";
     auth_action := "send_message"; auth_risk := "customer-write" |}.

Definition slack_context : ActionContext :=
  {| tenant_id := Uuid "t"; company_id := Uuid "c"; domain := Some "marketing"; runtime_env := Some "dev" |}.

Definition slack_flags : resolver := λ key _ _ _, Some (negb (String.eqb key FORCE_SHADOW_FLAG)).

Theorem hash_seed_decides_dispatch `{UuidText} :
  let decide before := evaluate_action before "slack:send_message" slack_context (Some slack_authorization) (Some slack_flags) in
  dispatch_allowed (decide (λ _ _, false)) = true ∧ reason (decide (λ _ _, true)) = "capability_authorization_mismatch".
Proof. vm_compute. done. Qed.
