(* ===== verification/GrantEnforcement.v ===== *)
(** Grant enforcement of agent tool calls: src/auth/grant_enforcement.py, with the linked connector
    ids of src/connectors/registry.py.

    The Grantex SDK is a parameter ([Client]); an exception is its class name. The feature flags are
    read by [load_flag_rows_strict], whose answers are an argument here ([None]: the lookup failed);
    the last known modes of tenants are the state. Denials are recorded as events. *)

From Stdlib Require Import Ascii.
From S2P Require Import Prelude PyVal PyText PyCache FeatureFlags ActionPolicy.

Local Open Scope Z_scope.

(** * Modes *)

Definition FLAG_WARN : string := "grants.enforce_closed.warn".
Definition FLAG_DENY : string := "grants.enforce_closed.deny".

Inductive EnforcementMode := OFF | WARN | DENY.

#[global] Instance EnforcementMode_eq_dec : EqDecision EnforcementMode.
Proof. solve_decision. Defined.

Definition _STRICTNESS (m : EnforcementMode) : Z := match m with OFF => 0 | WARN => 1 | DENY => 2 end.

Definition _stricter (a b : EnforcementMode) : EnforcementMode := if _STRICTNESS b <=? _STRICTNESS a then a else b.

Definition _LAST_KNOWN_TTL_SECONDS : Z := 3600.
Definition _LAST_KNOWN_MAX : nat := 4096.

(** Mode and time of the last resolution, by tenant *)
Abbreviation last_known := (list (string * (EnforcementMode * Z))).

Definition _remember (tenant_key : string) (mode : EnforcementMode) (now : Z) (known : last_known) : last_known :=
  dset tenant_key (mode, now)
    (if bool_decide (tenant_key ∉ known.*1) && (_LAST_KNOWN_MAX <=? length known)%nat then pop_oldest snd known else known).

Definition _recall (tenant_key : string) (now : Z) (known : last_known) : option EnforcementMode :=
  match dget tenant_key known with
  | Some (mode, at_) => if _LAST_KNOWN_TTL_SECONDS * SECOND <? now - at_ then None else Some mode
  | None => None
  end.

Record settings := { grants_isolate_run_tokens : bool; grants_enforce_closed : EnforcementMode; grantex_audience : string }.

Definition deployment_default_mode (s : settings) : EnforcementMode := if grants_isolate_run_tokens s then DENY else grants_enforce_closed s.

(** [str(tenant_id or "")] *)
Definition tenant_key_of (tenant : ident) : string := match tenant with NoId => EmptyString | Uuid u => u | IdText t => t end.

(** The mode of the flags, from the rows of the two keys in turn *)
Definition flag_mode (default : EnforcementMode) (tenant_key : string) (load : string → option FlagRows) : option EnforcementMode :=
  let apply_flag key mode m :=
    match load key with
    | None => None
    | Some rows =>
        Some (if row_enabled key (global_row rows) tenant_key || row_enabled key (tenant_row rows) tenant_key then _stricter m mode else m)
    end in
  match apply_flag FLAG_WARN WARN default with None => None | Some m => apply_flag FLAG_DENY DENY m end.

(** How a mode was found *)
Inductive mode_source := Deployment | Flags | Last_known_mode | Fallback_deny.

#[global] Instance mode_source_eq_dec : EqDecision mode_source.
Proof. solve_decision. Defined.

Definition resolve_enforcement_mode `{UuidText} (s : settings) (tenant : ident) (load : string → option FlagRows) (now : Z) (known : last_known) :
    EnforcementMode * mode_source * last_known :=
  let default := deployment_default_mode s in
  let tenant_key := tenant_key_of tenant in
  match (match tenant with Uuid u => Some u | _ => uuid_of_text tenant_key end) with
  | None => (default, Deployment, known)
  | Some _ =>
      match flag_mode default tenant_key load with
      | None =>
          match _recall tenant_key now known with
          | Some remembered => (_stricter default remembered, Last_known_mode, known)
          | None => (DENY, Fallback_deny, known)
          end
      | Some mode => (mode, Flags, _remember tenant_key mode now known)
      end
  end.

(** * Reasons *)

Inductive DenialReason :=
| PURPOSE_NOT_ALLOWED | TOOL_NOT_GRANTED | PERMISSION_INSUFFICIENT | CAP_EXCEEDED | DECISION_REQUIRED | DECISION_INVALID
| GRANT_REVOKED | REGION_MISMATCH | MANIFEST_UNKNOWN_TOOL | TOKEN_INVALID | GRANT_MISSING | ENFORCEMENT_UNAVAILABLE | UNCLASSIFIED.

#[global] Instance DenialReason_eq_dec : EqDecision DenialReason.
Proof. solve_decision. Defined.

Definition reason_value (r : DenialReason) : string :=
  match r with
  | PURPOSE_NOT_ALLOWED => "purpose_not_allowed" | TOOL_NOT_GRANTED => "tool_not_granted"
  | PERMISSION_INSUFFICIENT => "permission_insufficient" | CAP_EXCEEDED => "cap_exceeded"
  | DECISION_REQUIRED => "decision_required" | DECISION_INVALID => "decision_invalid" | GRANT_REVOKED => "grant_revoked"
  | REGION_MISMATCH => "region_mismatch" | MANIFEST_UNKNOWN_TOOL => "manifest_unknown_tool" | TOKEN_INVALID => "token_invalid"
  | GRANT_MISSING => "grant_missing" | ENFORCEMENT_UNAVAILABLE => "enforcement_unavailable" | UNCLASSIFIED => "unclassified"
  end.

Definition _SDK_REASON_CODES : list DenialReason :=
  [PURPOSE_NOT_ALLOWED; TOOL_NOT_GRANTED; PERMISSION_INSUFFICIENT; CAP_EXCEEDED; DECISION_REQUIRED; DECISION_INVALID; GRANT_REVOKED;
   REGION_MISMATCH; MANIFEST_UNKNOWN_TOOL; TOKEN_INVALID].

Definition _SUB_REASON_MAX : nat := 64.

Record Denial := { denial_reason : DenialReason; denial_sub_reason : string; denial_grant_id : string; detail : string }.

Record GrantCheck := { dispatch_allowed : bool; denial : option Denial }.

(** * Messages of the older SDK *)

(** What the patterns of the table are made of: text, [.+], [\S+], and a choice of words *)
Inductive piece := Lit (s : string) | Any1 | NonSpace1 | OneOf (ws : list string).

(** The rests of a text after one or more characters of a class *)
Fixpoint rests (p : ascii → bool) (l : list ascii) : list (list ascii) :=
  match l with [] => [] | c :: l' => if p c then l' :: rests p l' else [] end.

Fixpoint fullmatch (ps : list piece) (l : list ascii) : bool :=
  match ps with
  | [] => match l with [] => true | _ => false end
  | Lit s :: ps' => match strip_prefix (chars s) l with Some r => fullmatch ps' r | None => false end
  | OneOf ws :: ps' => existsb (λ w, match strip_prefix (chars w) l with Some r => fullmatch ps' r | None => false end) ws
  | Any1 :: ps' => existsb (fullmatch ps') (rests (λ _, true) l)
  | NonSpace1 :: ps' => existsb (fullmatch ps') (rests (λ c, negb (is_space c)) l)
  end.

Definition permissions : list string := ["read"; "write"; "delete"; "admin"].

Definition _SDK_05_MESSAGES (connector tool : string) : list (list piece * (DenialReason * string)) :=
  [([Lit "Token verification failed: Signature has expired"], (TOKEN_INVALID, "expired"));
   ([Lit "Token verification failed: "; Any1], (TOKEN_INVALID, EmptyString));
   ([Lit "No manifest loaded for connector '"; Lit connector; Lit "'. Load a manifest first."], (MANIFEST_UNKNOWN_TOOL, "unknown_connector"));
   ([Lit "Unknown tool '"; Lit tool; Lit "' on connector '"; Lit connector; Lit "'. Tool not found in manifest."], (MANIFEST_UNKNOWN_TOOL, "unknown_tool"));
   ([Lit "No scope grants access to connector '"; Lit connector; Lit "'."], (TOOL_NOT_GRANTED, EmptyString));
   ([OneOf permissions; Lit " scope does not permit "; OneOf permissions; Lit " operations on "; Lit connector; Lit "."], (PERMISSION_INSUFFICIENT, EmptyString));
   ([Lit "Amount "; NonSpace1; Lit " exceeds budget cap of "; NonSpace1; Lit " on "; Lit connector; Lit "."], (CAP_EXCEEDED, "amount_cap"));
   ([Lit "Amount must be a finite number to enforce a budget cap on "; Lit connector; Lit "."], (CAP_EXCEEDED, "invalid_amount"));
   ([Lit "A capped scope on "; Lit connector; Lit " carries a malformed cap; refusing to authorize amount "; NonSpace1; Lit "."], (CAP_EXCEEDED, "malformed_cap"))].

Definition _classify_sdk_05_message (message connector tool : string) : DenialReason * string :=
  match List.find (λ p, fullmatch (fst p) (chars message)) (_SDK_05_MESSAGES connector tool) with
  | Some (_, r) => r
  | None => (UNCLASSIFIED, "unknown_message")
  end.

(** * The SDK *)

(** [reason_code] is [None] when the SDK has no such field; an absent or [None] text is empty. *)
Record EnforceResult := {
  allowed : bool;
  reason_code : option string;
  sub_reason : string;
  reason : string;
  grant_id : string;
  scopes : list string;
}.

Record request := { grant_token : string; req_tool : string; amount : option pyval; audience : option string }.

Record Client := {
  (** [isinstance(client, Grantex)] *)
  is_grantex : bool;
  enforce : string → request → result string EnforceResult;
  (** [enforce] of a copy of the client whose manifest for the connector is the one tool, a write *)
  enforce_isolated : string → request → result string EnforceResult;
  (** [Permission.covers] *)
  covers : string → string → bool;
}.

Definition take_text (n : nat) (s : string) : string := of_chars (take n (chars s)).

Definition sdk_code (code : string) : option DenialReason := List.find (λ r, String.eqb (reason_value r) code) _SDK_REASON_CODES.

Definition classify_enforce_result (r : EnforceResult) (connector tool : string) : DenialReason * string :=
  match reason_code r with
  | Some raw =>
      let code := strip raw in
      if String.eqb code EmptyString then (UNCLASSIFIED, "no_reason_code")
      else match sdk_code code with
           | Some d => (d, take_text _SUB_REASON_MAX (strip (sub_reason r)))
           | None => (UNCLASSIFIED, "unknown_reason_code")
           end
  | None => _classify_sdk_05_message (reason r) connector tool
  end.

(** * Linked connectors *)

(** The registered connectors, and the deprecated ones with their replacement *)
Record ConnectorRegistry := { _connectors : list string; _deprecated : list (string * option string) }.

Definition live_id (reg : ConnectorRegistry) (name : string) : string :=
  if bool_decide (name ∈ _connectors reg) then name
  else match assoc name (_deprecated reg) with
       | Some (Some replacement) => if bool_decide (replacement ∈ _connectors reg) then replacement else name
       | _ => name
       end.

(** [dict.fromkeys]: the first occurrence of each *)
Fixpoint fromkeys (seen l : list string) : list string :=
  match l with [] => [] | x :: l' => if bool_decide (x ∈ seen) then fromkeys seen l' else x :: fromkeys (seen ++ [x]) l' end.

Definition ids_of (reg : ConnectorRegistry) (name : string) : list string :=
  let live := live_id reg name in
  let retired := fst <$> List.filter (λ e, bool_decide (snd e = Some live)) (_deprecated reg) in
  fromkeys [] (name :: live :: retired).

(** * Checks *)

(** [[A-Za-z][A-Za-z0-9_-]{0,63}] *)
Definition is_az (c : ascii) : bool := is_lower_az c || is_upper_az c.
Definition mcp_tool_name (tool : string) : bool :=
  match chars tool with
  | [] => false
  | c :: l => is_az c && forallb (λ c, is_az c || is_digit c || is_underscore c || Ascii.eqb c "-") l && (length l <=? 63)%nat
  end.

Definition scope_names_tool (cl : Client) (connector tool scope : string) : bool :=
  match split ":" scope with
  | kind :: c :: perm :: rest =>
      String.eqb kind "tool" && String.eqb c connector && covers cl perm "write" &&
      match rest with [] => true | t :: _ => String.eqb t tool end
  | _ => false
  end.

(** The first linked id under which the SDK allows the call *)
Fixpoint enforce_others (cl : Client) (req : request) (ids : list string) (refused : EnforceResult) : result string EnforceResult :=
  match ids with
  | [] => Ok refused
  | id :: ids' => other ← enforce cl id req; if allowed other : bool then Ok other else enforce_others cl req ids' refused
  end.

Definition enforce_connector_grant (s : settings) (reg : ConnectorRegistry) (cl : Client) (connector : string) (req : request) : result string EnforceResult :=
  if starts_with "mcp_" connector then
    if negb (is_grantex cl) || negb (mcp_tool_name (req_tool req)) then Err "ValueError"
    else
      let req :=
        if bool_decide (audience req = None) && negb (String.eqb (grantex_audience s) EmptyString)
        then {| grant_token := grant_token req; req_tool := req_tool req; amount := amount req; audience := Some (grantex_audience s) |} else req in
      r ← enforce_isolated cl connector req;
      if negb (allowed r) then Ok r
      else if existsb (scope_names_tool cl connector (req_tool req)) (scopes r) then Ok r
      else Ok {| allowed := false; reason_code := Some "tool_not_granted"; sub_reason := "tool_scope_missing";
                 reason := "The verified grant does not authorize this remote MCP tool"; grant_id := grant_id r; scopes := scopes r |}
  else
    r ← enforce cl connector req;
    if allowed r : bool then Ok r else enforce_others cl req (tail (ids_of reg connector)) r.

(** A denied call, or one that would have been *)
Record denial_event := { ev_mode : EnforcementMode; ev_denial : Denial; ev_connector : string; ev_tool : string; ev_source : string }.

(** The denial of a call, if the grant does not cover it *)
Definition grant_denial (s : settings) (reg : ConnectorRegistry) (cl : result string Client) (token connector tool : string) (amt : option pyval)
    (missing_sub_reason : string) : option Denial :=
  let deny r sub id d := Some {| denial_reason := r; denial_sub_reason := sub; denial_grant_id := id; detail := d |} in
  if String.eqb token EmptyString then
    deny GRANT_MISSING (if String.eqb missing_sub_reason EmptyString then "no_grant" else missing_sub_reason) EmptyString EmptyString
  else
    match (c ← cl; enforce_connector_grant s reg c connector {| grant_token := token; req_tool := tool; amount := amt; audience := None |}) with
    | Err e => deny ENFORCEMENT_UNAVAILABLE e EmptyString EmptyString
    | Ok r =>
        if allowed r then None
        else let (why, sub) := classify_enforce_result r connector tool in
             deny why sub (grant_id r) (if bool_decide (why = UNCLASSIFIED) then take_text 200 (reason r) else EmptyString)
    end.

Definition check_tool_grant (s : settings) (reg : ConnectorRegistry) (cl : result string Client) (mode : EnforcementMode) (token connector tool : string)
    (source : string) (amt : option pyval) (missing_sub_reason : string) : result string (list denial_event * GrantCheck) :=
  if bool_decide (mode = OFF) then Err "ValueError"
  else match grant_denial s reg cl token connector tool amt missing_sub_reason with
  | None => Ok ([], {| dispatch_allowed := true; denial := None |})
  | Some d =>
      Ok ([{| ev_mode := mode; ev_denial := d; ev_connector := connector; ev_tool := tool; ev_source := source |}],
          {| dispatch_allowed := bool_decide (mode = WARN); denial := Some d |})
  end.

(** * Modes never weaken *)

Lemma stricter_DENY a b : _stricter a b = DENY ↔ a = DENY ∨ b = DENY.
Proof. destruct a, b; cbn; naive_solver. Qed.

Lemma stricter_OFF a b : _stricter a b = OFF ↔ a = OFF ∧ b = OFF.
Proof. destruct a, b; cbn; naive_solver. Qed.

Lemma stricter_ge a b : _STRICTNESS a ≤ _STRICTNESS (_stricter a b) ∧ _STRICTNESS b ≤ _STRICTNESS (_stricter a b).
Proof. destruct a, b; cbn; lia. Qed.

(** Either row of a key switches it on *)
Definition flag_on (key tenant_key : string) (rows : FlagRows) : bool :=
  row_enabled key (global_row rows) tenant_key || row_enabled key (tenant_row rows) tenant_key.

Lemma flag_mode_spec default tenant_key load m : flag_mode default tenant_key load = Some m →
  ∃ w d, load FLAG_WARN = Some w ∧ load FLAG_DENY = Some d ∧
    (m = DENY ↔ default = DENY ∨ flag_on FLAG_DENY tenant_key d = true) ∧
    (m = OFF ↔ default = OFF ∧ flag_on FLAG_WARN tenant_key w = false ∧ flag_on FLAG_DENY tenant_key d = false).
Proof.
  unfold flag_mode. destruct (load FLAG_WARN) as [w|]; [|done]. destruct (load FLAG_DENY) as [d|]; [|done].
  fold (flag_on FLAG_WARN tenant_key w). fold (flag_on FLAG_DENY tenant_key d). intros [= <-]. exists w, d.
  split_and!; [done..| |]; destruct (flag_on FLAG_WARN _ _), (flag_on FLAG_DENY _ _), default; cbn; naive_solver.
Qed.

Section last_modes.
Context `{UuidText} (s : settings).

(** The modes resolved from flags so far, the last first, with the state they leave *)
Inductive resolutions : Z → list (string * EnforcementMode * Z) → last_known → Prop :=
| res_start t : resolutions t [] []
| res_wait t t' log known : resolutions t log known → t ≤ t' → resolutions t' log known
| res_flags now log known tenant load mode known' : resolutions now log known →
    resolve_enforcement_mode s tenant load now known = (mode, Flags, known') →
    resolutions now ((tenant_key_of tenant, mode, now) :: log) known'
| res_other now log known tenant load mode source known' : resolutions now log known →
    resolve_enforcement_mode s tenant load now known = (mode, source, known') → source ≠ Flags → resolutions now log known'.

Definition latest (key : string) (log : list (string * EnforcementMode * Z)) : option (EnforcementMode * Z) :=
  match List.find (λ e, String.eqb e.1.1 key) log with Some (_, m, t) => Some (m, t) | None => None end.

Lemma resolve_known tenant load now known mode source known' :
  resolve_enforcement_mode s tenant load now known = (mode, source, known') →
  known' = if bool_decide (source = Flags) then _remember (tenant_key_of tenant) mode now known else known.
Proof.
  unfold resolve_enforcement_mode. destruct (match tenant with Uuid _ => _ | _ => _ end); [|by intros [= <- <- <-]].
  destruct (flag_mode _ _ _); [by intros [= <- <- <-]|]. destruct (_recall _ _ _); by intros [= <- <- <-].
Qed.

Lemma recalled_is_latest now log known : resolutions now log known →
  ∀ key m t, dget key known = Some (m, t) → latest key log = Some (m, t) ∧ t ≤ now.
Proof.
  induction 1 as [t|t t' log known _ IH Ht|now log known tenant load mode known' _ IH Hr|now log known tenant load mode source known' _ IH Hr Hs];
    intros key m u.
  - done.
  - intros Hg. destruct (IH _ _ _ Hg). split; [done|lia].
  - apply resolve_known in Hr as ->. rewrite bool_decide_true by done. unfold _remember, latest. rewrite dget_dset. cbn.
    rewrite (String.eqb_sym (tenant_key_of tenant)). destruct (String.eqb_spec key (tenant_key_of tenant)) as [->|Hk].
    + rewrite bool_decide_true by done. intros [= <- <-]. by split.
    + rewrite bool_decide_false by done. intros Hg. apply IH. destruct (_ && _); [|done]. unfold pop_oldest in Hg.
      destruct (oldest snd known); [|done]. rewrite dget_dpop in Hg. by case_bool_decide.
  - apply resolve_known in Hr as ->. rewrite bool_decide_false by done. apply IH.
Qed.

Lemma known_bounded now log known : resolutions now log known → (length known ≤ _LAST_KNOWN_MAX)%nat.
Proof.
  assert (0 < _LAST_KNOWN_MAX)%nat as Hpos by (unfold _LAST_KNOWN_MAX; lia).
  induction 1 as [t|t t' log known _ IH Ht|now log known tenant load mode known' _ IH Hr|now log known tenant load mode source known' _ IH Hr Hs].
  - cbn. lia.
  - done.
  - apply resolve_known in Hr as ->. rewrite bool_decide_true by done. unfold _remember. case_bool_decide as Hk; cbn [andb].
    + destruct (Nat.leb_spec _LAST_KNOWN_MAX (length known)).
      * pose proof (length_dset (tenant_key_of tenant) (mode, now) (pop_oldest snd known)).
        pose proof (length_pop_oldest snd known ltac:(intros ->; cbn in *; lia)). lia.
      * pose proof (length_dset (tenant_key_of tenant) (mode, now) known). lia.
    + by rewrite length_dset_present.
  - apply resolve_known in Hr as ->. by rewrite bool_decide_false.
Qed.

(** What a resolution may answer *)
Lemma resolve_cases tenant u load now known mode source known' : tenant = Uuid u →
  resolve_enforcement_mode s tenant load now known = (mode, source, known') →
  flag_mode (deployment_default_mode s) u load = Some mode ∨
  (load FLAG_WARN = None ∨ load FLAG_DENY = None) ∧
  (mode = DENY ∨ ∃ m, _recall u now known = Some m ∧ mode = _stricter (deployment_default_mode s) m).
Proof.
  intros ->. unfold resolve_enforcement_mode. cbn. destruct (flag_mode _ u load) as [m|] eqn:Em; [intros [= <- _ _]; by left|].
  intros Hr. right. split; [|destruct (_recall u now known) as [m|]; simplify_eq; eauto].
  unfold flag_mode in Em. destruct (load FLAG_WARN); [|by left]. destruct (load FLAG_DENY); [done|by right].
Qed.
End last_modes.

(** The operator's global row of a key, fully rolled out, in every state of the table *)
Definition globally_on (key : string) (table : option db) : Prop :=
  ∀ rows, table = Some rows → ∃ f, flags_of rows None key = [f] ∧
    enabled f = true ∧ 100 ≤ rollout_percentage f.

Lemma globally_on_read hist tenant key lo hi rows : (∀ t, lo ≤ t ≤ hi → globally_on key (hist t)) →
  read_within hist tenant key lo hi rows → flag_on key tenant rows = true.
Proof.
  intros Hon (q & Hq & _ & (t & Ht & E)). unfold read_rows in Hq.
  destruct (select_flag (select1 q) _ _) as [tr|]; [|done]. destruct (select_flag (select2 q) _ _) as [gr|] eqn:Eg; simplify_eq.
  unfold select_flag in Eg. rewrite E in Eg. destruct (hist t) as [rs|] eqn:Eh; [|done].
  destruct (Hon t Ht rs Eh) as (f & Hf & He & Hp). rewrite Hf in Eg. injection Eg as <-.
  unfold flag_on. cbn [global_row tenant_row]. rewrite (proj1 (rollout_ends key tenant (_as_row f) He)); [done|exact Hp].
Qed.

(** An operator's deny takes hold. Once the global deny row has been on for the lifetime of the flag
    cache, every resolution of a tenant's mode answers deny, whatever the tenant's own rows say; the one
    exception is a flag store that cannot be read, where the mode last resolved for the tenant, at most
    an hour ago, is kept, and is never weaker than the deployment's. *)
Theorem operators_deny_takes_hold `{UuidText} hist s u load now log known mode source known' :
  resolutions s now log known →
  (∀ key rows, load key = Some rows → read_within hist u key (now - TTL) now rows) →
  (∀ t, now - TTL ≤ t ≤ now → globally_on FLAG_DENY (hist t)) →
  resolve_enforcement_mode s (Uuid u) load now known = (mode, source, known') →
  mode = DENY ∨
  (load FLAG_WARN = None ∨ load FLAG_DENY = None) ∧
  ∃ m t, latest u log = Some (m, t) ∧ now - t ≤ _LAST_KNOWN_TTL_SECONDS * SECOND ∧ mode = _stricter (deployment_default_mode s) m.
Proof.
  intros Hlog Hload Hon Hr. apply (resolve_cases s _ u) in Hr as [Hm|(Hl & [->|(m & Hm & ->)])]; [|by left| |done].
  - left. apply flag_mode_spec in Hm as (w & d & _ & Hd & HD & _). apply HD. right. by apply (globally_on_read hist u _ _ _ _ Hon), Hload.
  - right. split; [done|]. unfold _recall in Hm. destruct (dget u known) as [[m' t]|] eqn:Hg; [|done].
    destruct (Z.ltb_spec (_LAST_KNOWN_TTL_SECONDS * SECOND) (now - t)); simplify_eq.
    destruct (recalled_is_latest _ _ _ _ Hlog _ _ _ Hg). eauto.
Qed.

Module DenyExample.
Definition tenant : string := "00000000-0000-4000-8000-000000000001".
Definition relaxed : settings := {| grants_isolate_run_tokens := false; grants_enforce_closed := OFF; grantex_audience := EmptyString |}.

(** The tenant's own row switches deny off; the global one is on. *)
Definition table : db :=
  [{| FeatureFlags.tenant_id := None; flag_key := FLAG_DENY; enabled := true; rollout_percentage := 100 |};
   {| FeatureFlags.tenant_id := Some tenant; flag_key := FLAG_DENY; enabled := false; rollout_percentage := 0 |}].

Definition q : reading := {| started := 0; select1 := Some table; select2 := Some table; stored := 0; found := [] |}.
Definition load (key : string) : option FlagRows := read_rows tenant key q.
#[local] Instance no_uuid : UuidText := λ _, None.

Example resolved : resolve_enforcement_mode relaxed (Uuid tenant) load 0 [] = (DENY, Flags, [(tenant, (DENY, 0))]).
Proof. vm_compute. reflexivity. Qed.
End DenyExample.

Lemma operators_deny_takes_hold_witness :
  DENY = DENY ∨
  (DenyExample.load FLAG_WARN = None ∨ DenyExample.load FLAG_DENY = None) ∧
  ∃ m t, latest DenyExample.tenant [] = Some (m, t) ∧ 0 - t ≤ _LAST_KNOWN_TTL_SECONDS * SECOND ∧
    DENY = _stricter (deployment_default_mode DenyExample.relaxed) m.
Proof.
  refine (@operators_deny_takes_hold DenyExample.no_uuid (λ _, Some DenyExample.table) DenyExample.relaxed DenyExample.tenant DenyExample.load 0 [] []
    DENY Flags [(DenyExample.tenant, (DENY, 0))] _ _ _ DenyExample.resolved).
  - constructor.
  - intros key rows Hr. exists DenyExample.q. split; [exact Hr|]. split; exists 0; (split; [split; vm_compute; discriminate|reflexivity]).
  - intros t _ rows [= <-]. eexists. split; [vm_compute; reflexivity|]. split; [reflexivity|vm_compute; discriminate].
Defined.
