(* ===== verification/RunGrants.v ===== *)
(** The grant an agent run carries: src/auth/run_grants.py.

    [resolve_run_grant] picks the token of a run, [refresh_run_grant] renews it, [check_run_grant]
    checks every tool call against it, and against the token of the caller when the run was started
    by another agent's. The pool of delegated grants is an argument ([pool]); points in time are whole nanoseconds. *)

From Stdlib Require Import Ascii.
From S2P Require Import Prelude PyVal PyText PyNumber PyCache FeatureFlags ActionPolicy GrantEnforcement.

Local Open Scope Z_scope.

Definition LEGACY_ENFORCED_SOURCES : list string := ["supplied"; "agent_config"].
Definition POOL_SOURCES : list string := ["minted"; "pool_cache"].

Record RunGrant := {
  mode : EnforcementMode;
  token : string;
  source : string;
  run_grant_id : string;
  missing_sub_reason : string;
  expires_at : option Z;
  ttl_seconds : Z;
  run_tenant_id : string;
  run_agent_id : string;
  grantex_agent_id : string;
  run_scopes : list string;
  isolation_key : string;
  caller_token : string;
  caller_agent_id : string;
  caller_token_unavailable : bool;
}.

(** [RunGrant(mode=mode, token=..., source=..., missing_sub_reason=...)] *)
Definition plain_grant (m : EnforcementMode) (tok src missing : string) : RunGrant :=
  {| mode := m; token := tok; source := src; run_grant_id := EmptyString; missing_sub_reason := missing; expires_at := None; ttl_seconds := 0;
     run_tenant_id := EmptyString; run_agent_id := EmptyString; grantex_agent_id := EmptyString; run_scopes := []; isolation_key := EmptyString;
     caller_token := EmptyString; caller_agent_id := EmptyString; caller_token_unavailable := false |}.

(** [replace(grant, caller_token=..., caller_agent_id=..., caller_token_unavailable=...)] *)
Definition with_caller (g : RunGrant) (tok agent : string) (unavailable : bool) : RunGrant :=
  {| mode := mode g; token := token g; source := source g; run_grant_id := run_grant_id g; missing_sub_reason := missing_sub_reason g;
     expires_at := expires_at g; ttl_seconds := ttl_seconds g; run_tenant_id := run_tenant_id g; run_agent_id := run_agent_id g;
     grantex_agent_id := grantex_agent_id g; run_scopes := run_scopes g; isolation_key := isolation_key g;
     caller_token := tok; caller_agent_id := agent; caller_token_unavailable := unavailable |}.

Definition nonempty_text (s : string) : bool := negb (String.eqb s EmptyString).

Definition call_mode (g : RunGrant) : EnforcementMode :=
  if bool_decide (mode g = WARN) && nonempty_text (token g) && bool_decide (source g ∈ LEGACY_ENFORCED_SOURCES) then DENY else mode g.

(** * Callers *)

Record CallerGrant := { cg_token : string; cg_agent_id : string; required : bool }.

Definition NO_CALLER : CallerGrant := {| cg_token := EmptyString; cg_agent_id := EmptyString; required := false |}.

Definition bound (c : CallerGrant) : bool := nonempty_text (cg_token c) || required c.

(** The marker a run persists: the agent id *)
Definition marker (c : CallerGrant) : option string := if bound c then Some (cg_agent_id c) else None.

(** [state.grant_token] and [state.agent_id] of the request, when they are texts *)
Definition caller_grant_from_request (grant_token agent_id : option string) : CallerGrant :=
  match grant_token with
  | Some t => if blank t then NO_CALLER else {| cg_token := strip t; cg_agent_id := default EmptyString agent_id; required := false |}
  | None => NO_CALLER
  end.

(** [active] is the caller of the running context. *)
Definition caller_grant_for_run (active : CallerGrant) (m : option string) : CallerGrant :=
  match m with
  | None => active
  | Some agent =>
      if nonempty_text (cg_token active) && String.eqb (cg_agent_id active) agent then active
      else {| cg_token := EmptyString; cg_agent_id := agent; required := true |}
  end.

(** * The pool *)

Record RunGrantToken := { rt_token : string; rt_grant_id : string; rt_expires_at : option Z; rt_source : string; rt_ttl_seconds : Z }.

Inductive mint_failure := GrantMintError (sub_reason : string) | OtherError.

(** [get_run_grant_token]: tenant, agent, Grantex agent, scopes, lifetime, isolation key *)
Definition pool : Type := string → string → string → list string → option Z → option string → result mint_failure RunGrantToken.

Definition RUN_GRANT_MIN_REMAINING_FLOOR_SECONDS : Z := 120.

(** [math.ceil] of a float that is a number *)
Definition ceil (f : pyfloat) : Z := match f with FFin m e => if 0 <=? e then m * 2 ^ e else - ((- m) / 2 ^ (- e)) | _ => 0 end.

(** [0.1 * ttl]: the float nearest to 0.1 times a number of seconds, rounded *)
Definition tenth_of (ttl : Z) : pyfloat := round_fraction (3602879701896397 * ttl) (2 ^ 55).

Definition min_remaining_seconds (ttl : Z) : Z := Z.max RUN_GRANT_MIN_REMAINING_FLOOR_SECONDS (ceil (tenth_of ttl)).

(** * Resolution *)

(** The settings of the agent under [config.grantex], as far as they are read *)
Record grantex_config := { grant_token_of : option string; grantex_scopes : list pyval; grantex_agent : string }.

Definition texts (l : list pyval) : list string := omap (λ v, match v with VStr s => if nonempty_text s then Some s else None | _ => None end) l.

Definition _resolve_run_agent_grant (p : pool) (m : EnforcementMode) (tenant agent : option string) (supplied : string)
    (config : option grantex_config) (load_config : option grantex_config) (isolation : option string) : RunGrant :=
  if nonempty_text supplied then plain_grant m supplied "supplied" EmptyString
  else
    let tenant := default EmptyString tenant in
    let agent := default EmptyString agent in
    let _missing sub := plain_grant m EmptyString "none" sub in
    if negb (nonempty_text agent) then _missing "no_agent"
    else match (match config with Some c => Some c | None => load_config end) with
    | None => _missing "lookup_failed"
    | Some c =>
        let legacy := strip (default EmptyString (grant_token_of c)) in
        if bool_decide (isolation = None) && nonempty_text legacy then plain_grant m legacy "agent_config" EmptyString
        else
          let scopes := texts (grantex_scopes c) in
          match p tenant agent (grantex_agent c) scopes None isolation with
          | Err (GrantMintError sub) => _missing sub
          | Err OtherError => _missing "mint_failed"
          | Ok g =>
              {| mode := m; token := rt_token g; source := rt_source g; run_grant_id := rt_grant_id g; missing_sub_reason := EmptyString;
                 expires_at := rt_expires_at g; ttl_seconds := rt_ttl_seconds g; run_tenant_id := tenant; run_agent_id := agent;
                 grantex_agent_id := grantex_agent c; run_scopes := scopes; isolation_key := default EmptyString isolation;
                 caller_token := EmptyString; caller_agent_id := EmptyString; caller_token_unavailable := false |}
          end
    end.

#[global] Arguments _resolve_run_agent_grant : simpl never.

(** [a or b] on texts *)
Definition or_text (a b : string) : string := if nonempty_text a then a else b.

Record run_request := {
  tenant : option string;
  agent : option string;
  supplied_token : option string;
  config : option grantex_config;
  req_caller_token : option string;
  req_caller_agent_id : option string;
  caller_required : bool;
  req_isolation_key : option string;
}.

(** [resolved] is the enforcement mode of the tenant, [fresh_key] a new [uuid4().hex]. *)
Definition resolve_run_grant (s : settings) (p : pool) (resolved : EnforcementMode) (load_config : option grantex_config) (fresh_key : string) (r : run_request) : RunGrant :=
  let supplied := strip (default EmptyString (supplied_token r)) in
  let caller := strip (default EmptyString (req_caller_token r)) in
  let caller_agent := default EmptyString (req_caller_agent_id r) in
  let isolated := grants_isolate_run_tokens s in
  let m := if isolated then DENY else resolved in
  let key := if isolated then Some (or_text (default EmptyString (req_isolation_key r)) fresh_key) else None in
  if isolated && nonempty_text supplied && nonempty_text caller && negb (String.eqb caller supplied) then
    plain_grant m EmptyString "none" "ambiguous_external_grants"
  else
    let '(supplied, caller, caller_agent) :=
      if isolated && nonempty_text supplied then (EmptyString, supplied, or_text caller_agent (default EmptyString (agent r)))
      else (supplied, caller, caller_agent) in
    if bool_decide (m = OFF) then
      let legacy := or_text (default EmptyString (supplied_token r)) (default EmptyString (req_caller_token r)) in
      plain_grant m legacy (if nonempty_text (strip legacy) then "supplied" else EmptyString) EmptyString
    else
      let '(supplied, caller) :=
        if negb isolated && nonempty_text caller && negb (nonempty_text supplied) && nonempty_text caller_agent &&
           String.eqb caller_agent (default EmptyString (agent r))
        then (caller, EmptyString) else (supplied, caller) in
      let g := _resolve_run_agent_grant p m (tenant r) (agent r) supplied (config r) load_config key in
      if nonempty_text caller then with_caller g caller caller_agent (caller_token_unavailable g)
      else if caller_required r && negb (nonempty_text (strip (default EmptyString (req_caller_token r)))) then with_caller g (caller_token g) caller_agent true
      else g.

Definition refresh_run_grant (p : pool) (now : Z) (g : RunGrant) : RunGrant :=
  if bool_decide (mode g = OFF) || negb (bool_decide (source g ∈ POOL_SOURCES)) then g
  else if match expires_at g with Some e => min_remaining_seconds (ttl_seconds g) * SECOND <=? e - now | None => false end then g
  else match p (run_tenant_id g) (run_agent_id g) (grantex_agent_id g) (run_scopes g)
             (if ttl_seconds g =? 0 then None else Some (ttl_seconds g))
             (if nonempty_text (isolation_key g) then Some (isolation_key g) else None) with
  | Err _ => g
  | Ok f =>
      {| mode := mode g; token := rt_token f; source := rt_source f; run_grant_id := rt_grant_id f; missing_sub_reason := missing_sub_reason g;
         expires_at := rt_expires_at f; ttl_seconds := rt_ttl_seconds f; run_tenant_id := run_tenant_id g; run_agent_id := run_agent_id g;
         grantex_agent_id := grantex_agent_id g; run_scopes := run_scopes g; isolation_key := isolation_key g;
         caller_token := caller_token g; caller_agent_id := caller_agent_id g; caller_token_unavailable := caller_token_unavailable g |}
  end.

(** * Checks *)

(** What a scope says of a connector: nothing, one tool, or all of them *)
Definition scope_reading (connector scope : string) : option (option string) :=
  match split ":" scope with
  | kind :: c :: _ :: rest =>
      if (String.eqb kind "tool" || String.eqb kind "agenticorg") && String.eqb c connector then
        Some match rest with t :: _ => if nonempty_text t then Some t else None | [] => None end
      else None
  | _ => None
  end.

Definition tool_scope_denial (scopes : list string) (connector tool : string) : option Denial :=
  let readings := omap (scope_reading connector) scopes in
  let named := omap id readings in
  if bool_decide (None ∈ readings) || bool_decide (named = []) || bool_decide (tool ∈ named) then None
  else Some {| denial_reason := TOOL_NOT_GRANTED; denial_sub_reason := "tool_scope_missing"; denial_grant_id := EmptyString;
               detail := connector +:+ ":" +:+ tool |}.

Section checks.
Context (s : settings) (reg : ConnectorRegistry) (cl : result string Client).

(** The token of the caller first, always strictly, then the grant of the run in its own mode *)
Definition check_tokens (g : RunGrant) (connector tool src : string) (amt : option pyval) : result string (list denial_event * GrantCheck) :=
  if caller_token_unavailable g && negb (nonempty_text (caller_token g)) then
    check_tool_grant s reg cl DENY EmptyString connector tool "caller" amt "caller_token_unavailable"
  else
    let own := check_tool_grant s reg cl (call_mode g) (token g) connector tool src amt (missing_sub_reason g) in
    if nonempty_text (caller_token g) then
      '(evs, c) ← check_tool_grant s reg cl DENY (caller_token g) connector tool "caller" amt EmptyString;
      if dispatch_allowed c : bool then ('(evs', c') ← own; Ok (evs ++ evs', c')) else Ok (evs, c)
    else own.

Definition check_run_grant (g : RunGrant) (connector tool src : string) (amt : option pyval) : result string (list denial_event * GrantCheck) :=
  match (if bool_decide (call_mode g = OFF) then None else tool_scope_denial (run_scopes g) connector tool) with
  | None => check_tokens g connector tool src amt
  | Some d =>
      let ev := {| ev_mode := call_mode g; ev_denial := d; ev_connector := connector; ev_tool := tool; ev_source := src |} in
      if bool_decide (call_mode g = WARN) then ('(evs, c) ← check_tokens g connector tool src amt; Ok (ev :: evs, c))
      else Ok ([ev], {| dispatch_allowed := false; denial := Some d |})
  end.

Definition direct_tool_call_permitted (g : RunGrant) (connector tool : string) : result string bool :=
  if bool_decide (mode g = OFF) then Ok true else ('(_, c) ← check_run_grant g connector tool (source g) None; Ok (dispatch_allowed c)).
End checks.

(** * What a check lets through *)

Section coverage.
Context (s : settings) (reg : ConnectorRegistry) (cl : result string Client).

(** The SDK allows the call under the connector's id or one linked to it. *)
Definition covered (tok connector tool : string) (amt : option pyval) : Prop :=
  tok ≠ EmptyString ∧ ∃ c r, cl = Ok c ∧ allowed r = true ∧
    enforce_connector_grant s reg c connector {| grant_token := tok; req_tool := tool; amount := amt; audience := None |} = Ok r.

Lemma grant_denial_None tok connector tool amt missing :
  grant_denial s reg cl tok connector tool amt missing = None ↔ covered tok connector tool amt.
Proof.
  unfold grant_denial, covered. destruct (String.eqb_spec tok EmptyString) as [->|Ht]; [naive_solver|].
  destruct cl as [c|e]; cbn; [|naive_solver].
  destruct (enforce_connector_grant s reg c connector _) as [r|e] eqn:E; cbn;
    [|split; [done|intros (_ & ? & ? & [= <-] & _ & ?); congruence]].
  destruct (allowed r) eqn:Ea; [split; [|done]; intros _; split; [done|by exists c, r]|].
  destruct (classify_enforce_result r connector tool). split; [done|intros (_ & ? & ? & [= <-] & ? & ?); congruence].
Qed.

Lemma check_tool_grant_spec m tok connector tool src amt missing : m ≠ OFF →
  ∃ evs c, check_tool_grant s reg cl m tok connector tool src amt missing = Ok (evs, c) ∧
    (dispatch_allowed c = true ↔ m = WARN ∨ covered tok connector tool amt) ∧ (evs = [] ↔ covered tok connector tool amt).
Proof.
  intros Hm. unfold check_tool_grant. rewrite bool_decide_false by done.
  pose proof (grant_denial_None tok connector tool amt missing) as HN.
  destruct (grant_denial _ _ _ _ _ _ _ _) as [d|]; eexists _, _; (split; [reflexivity|]); cbn.
  - assert (¬ covered tok connector tool amt) by (rewrite <- HN; done). rewrite bool_decide_eq_true. naive_solver.
  - assert (covered tok connector tool amt) by by apply HN. naive_solver.
Qed.

(** The caller's token is there, if one is needed, and covers the call. *)
Definition caller_allows (g : RunGrant) (connector tool : string) (amt : option pyval) : Prop :=
  if nonempty_text (caller_token g) then covered (caller_token g) connector tool amt else caller_token_unavailable g = false.

Lemma not_covered_empty connector tool amt : ¬ covered EmptyString connector tool amt.
Proof. by intros [? _]. Qed.

Lemma check_tokens_spec g connector tool src amt : call_mode g ≠ OFF →
  ∃ evs c, check_tokens s reg cl g connector tool src amt = Ok (evs, c) ∧
    (dispatch_allowed c = true ↔ caller_allows g connector tool amt ∧ (call_mode g = WARN ∨ covered (token g) connector tool amt)) ∧
    (evs = [] ↔ caller_allows g connector tool amt ∧ covered (token g) connector tool amt).
Proof.
  intros Hm. unfold check_tokens, caller_allows.
  destruct (check_tool_grant_spec (call_mode g) (token g) connector tool src amt (missing_sub_reason g) Hm) as (evs & c & E & Ha & He).
  rewrite E. destruct (nonempty_text (caller_token g)) eqn:Ht; cbn [negb]; rewrite ?andb_false_r, ?andb_true_r; cbn.
  - destruct (check_tool_grant_spec DENY (caller_token g) connector tool "caller" amt EmptyString ltac:(done)) as (evs' & c' & -> & Ha' & He').
    cbn. destruct (dispatch_allowed c') eqn:Ed; eexists _, _; (split; [reflexivity|]).
    + assert (evs' = []) as -> by naive_solver. naive_solver.
    + rewrite Ed. naive_solver.
  - destruct (caller_token_unavailable g); [|exists evs, c; naive_solver].
    destruct (check_tool_grant_spec DENY EmptyString connector tool "caller" amt "caller_token_unavailable" ltac:(done)) as (evs' & c' & E' & Ha' & He').
    exists evs', c'. pose proof (not_covered_empty connector tool amt). naive_solver.
Qed.

(** No scope of the run names other tools of the connector only. *)
Definition scope_allows (g : RunGrant) (connector tool : string) : Prop :=
  (∃ sc, sc ∈ run_scopes g ∧ scope_reading connector sc = Some None) ∨
  (∃ sc, sc ∈ run_scopes g ∧ scope_reading connector sc = Some (Some tool)) ∨
  (∀ sc, sc ∈ run_scopes g → scope_reading connector sc = None).

Lemma tool_scope_denial_None g connector tool : tool_scope_denial (run_scopes g) connector tool = None ↔ scope_allows g connector tool.
Proof.
  unfold tool_scope_denial, scope_allows. set (rs := omap (scope_reading connector) (run_scopes g)).
  assert (∀ x, x ∈ rs ↔ ∃ sc, sc ∈ run_scopes g ∧ scope_reading connector sc = Some x) as Hrs.
  { intros x. unfold rs. rewrite list_elem_of_omap. done. }
  assert (∀ t, t ∈ omap id rs ↔ Some t ∈ rs) as Hn by (intros t; rewrite list_elem_of_omap; naive_solver).
  case_bool_decide as H1; cbn [orb]; [rewrite Hrs in H1; naive_solver|].
  assert (omap id rs = [] ↔ ∀ sc, sc ∈ run_scopes g → scope_reading connector sc = None) as Hnil.
  { split.
    - intros E sc Hsc. destruct (scope_reading connector sc) as [x|] eqn:Er; [|done]. exfalso. assert (x ∈ rs) as Hx by (apply Hrs; eauto).
      destruct x as [t|]; [|done]. apply Hn in Hx. rewrite E in Hx. by apply elem_of_nil in Hx.
    - intros Hall. destruct (omap id rs) as [|t l]; [done|]. assert (t ∈ t :: l) as Ht%Hn by by left.
      apply Hrs in Ht as (sc & Hsc & Er). rewrite Hall in Er; done. }
  case_bool_decide as H2; cbn [orb]; [naive_solver|]. case_bool_decide as H3.
  - rewrite Hn, Hrs in H3. naive_solver.
  - rewrite Hn, Hrs in H3. rewrite Hrs in H1. naive_solver.
Qed.
End coverage.

Lemma tool_call_spec s reg cl g connector tool src amt : call_mode g ≠ OFF →
  ∃ evs c, check_run_grant s reg cl g connector tool src amt = Ok (evs, c) ∧
    (dispatch_allowed c = true ↔ caller_allows s reg cl g connector tool amt ∧
       (call_mode g = WARN ∨ scope_allows g connector tool ∧ covered s reg cl (token g) connector tool amt)) ∧
    (evs = [] ↔ caller_allows s reg cl g connector tool amt ∧ scope_allows g connector tool ∧ covered s reg cl (token g) connector tool amt).
Proof.
  intros Hm. unfold check_run_grant. rewrite bool_decide_false by done.
  destruct (check_tokens_spec s reg cl g connector tool src amt Hm) as (evs & c & E & Ha & He). pose proof (tool_scope_denial_None g connector tool) as Hs.
  destruct (tool_scope_denial _ _ _) as [d|].
  - assert (¬ scope_allows g connector tool) as Hns by (rewrite <- Hs; done).
    case_bool_decide as Hw; [rewrite E; cbn|]; eexists _, _; (split; [reflexivity|]); cbn; (split; [|by split; [|tauto]]).
    + rewrite Ha. tauto.
    + split; [done|tauto].
  - assert (scope_allows g connector tool) by by apply Hs. rewrite E. exists evs, c. rewrite Ha, He. tauto.
Qed.

(** What a run may call. In warn and deny mode the check of a tool call always answers. It lets
    the call through exactly when the token of the caller, if the run has one, covers it (a run whose
    caller token is needed but gone is refused), and, unless the mode is warn, the scopes of the run
    do not leave the tool out and the grant of the run covers it. Every call the grants do not cover
    is recorded, those that warn mode lets through too. *)
Theorem tool_call_permitted_exactly s reg cl g connector tool src amt : call_mode g ≠ OFF →
  ∃ evs c, check_run_grant s reg cl g connector tool src amt = Ok (evs, c) ∧
    (dispatch_allowed c = true ↔ caller_allows s reg cl g connector tool amt ∧
       (call_mode g = WARN ∨ scope_allows g connector tool ∧ covered s reg cl (token g) connector tool amt)) ∧
    (evs = [] ↔ caller_allows s reg cl g connector tool amt ∧ scope_allows g connector tool ∧ covered s reg cl (token g) connector tool amt).
Proof. apply tool_call_spec. Qed.

(** * The binding of a run to its caller *)

Definition refreshes (l : list (pool * Z)) (g : RunGrant) : RunGrant := foldl (λ g pt, refresh_run_grant pt.1 pt.2 g) g l.

(** A refresh renews the token of the run; its mode, its scopes and what binds it to a caller stay. *)
Definition same_binding (g g' : RunGrant) : Prop :=
  mode g = mode g' ∧ run_scopes g = run_scopes g' ∧ caller_token g = caller_token g' ∧ caller_token_unavailable g = caller_token_unavailable g'.

Lemma refresh_binding p now g : same_binding g (refresh_run_grant p now g).
Proof. unfold refresh_run_grant. repeat case_match; done. Qed.

Lemma refreshes_binding l g : same_binding g (refreshes l g).
Proof.
  revert g. induction l as [|[p now] l IH]; intros g; [done|]. cbn. destruct (refresh_binding p now g) as (? & ? & ? & ?), (IH (refresh_run_grant p now g)) as (? & ? & ? & ?).
  unfold refreshes in *. cbn in *. split_and!; congruence.
Qed.

Lemma refreshes_outside_pool l g : source g ∉ POOL_SOURCES → refreshes l g = g.
Proof.
  intros Hs. induction l as [|[p now] l IH]; [done|]. cbn. unfold refresh_run_grant.
  rewrite (bool_decide_false (source g ∈ POOL_SOURCES)), orb_true_r by done. exact IH.
Qed.

(** The caller's token of a request, and the agent it was issued to *)
Definition request_caller (r : run_request) : string := strip (default EmptyString (req_caller_token r)).
Definition request_supplied (r : run_request) : string := strip (default EmptyString (supplied_token r)).

(** The run acts for an agent other than the caller's, or carries a token of its own. *)
Definition acts_for_another (r : run_request) : Prop :=
  default EmptyString (req_caller_agent_id r) ≠ default EmptyString (agent r) ∨ request_supplied r ≠ EmptyString.

Lemma nonempty_text_spec t : nonempty_text t = true ↔ t ≠ EmptyString.
Proof. unfold nonempty_text. rewrite negb_true_iff. by destruct (String.eqb_spec t EmptyString). Qed.

Lemma agent_grant_mode p m t a sup c lc iso : mode (_resolve_run_agent_grant p m t a sup c lc iso) = m.
Proof. unfold _resolve_run_agent_grant. repeat case_match; done. Qed.

Lemma agent_grant_caller p m t a sup c lc iso :
  caller_token (_resolve_run_agent_grant p m t a sup c lc iso) = EmptyString ∧
  caller_token_unavailable (_resolve_run_agent_grant p m t a sup c lc iso) = false.
Proof. unfold _resolve_run_agent_grant. repeat case_match; done. Qed.

Definition ambiguous (m : EnforcementMode) : RunGrant := plain_grant m EmptyString "none" "ambiguous_external_grants".

Definition run_mode (s : settings) (m : EnforcementMode) : EnforcementMode := if grants_isolate_run_tokens s then DENY else m.

Lemma resolved_mode s p m lc fk r : mode (resolve_run_grant s p m lc fk r) = run_mode s m.
Proof.
  unfold resolve_run_grant, run_mode. cbv zeta. repeat (case_match; cbn; try (by rewrite ?agent_grant_mode)).
Qed.

(** A run started by the token of another agent keeps that token. *)
Lemma resolved_caller s p m lc fk r : run_mode s m ≠ OFF → request_caller r ≠ EmptyString → acts_for_another r →
  let g := resolve_run_grant s p m lc fk r in g = ambiguous DENY ∨ caller_token g = request_caller r.
Proof.
  unfold run_mode, request_caller, acts_for_another, request_supplied. intros Hm Hc%nonempty_text_spec Ha. cbn zeta. unfold resolve_run_grant. cbv zeta.
  set (caller := strip (default EmptyString (req_caller_token r))) in *. set (sup := strip (default EmptyString (supplied_token r))) in *.
  rewrite Hc. rewrite (bool_decide_false (_ = OFF)) by done. destruct (grants_isolate_run_tokens s); cbn.
  - destruct (nonempty_text sup) eqn:Es; cbn.
    + destruct (String.eqb_spec caller sup) as [<-|]; cbn; [|by left]. right. by rewrite Hc.
    + right. by rewrite Hc.
  - right. destruct (nonempty_text sup) eqn:Es; cbn; [rewrite Hc; cbn; by rewrite Hc|]. unfold nonempty_text in Es. apply negb_false_iff, String.eqb_eq in Es.
    destruct Ha as [Ha|]; [|done]. rewrite (proj2 (String.eqb_neq _ _) Ha), andb_false_r. cbn. by rewrite Hc.
Qed.

(** A run whose caller's token is needed and gone is marked so. *)
Lemma resolved_unavailable s p m lc fk r : run_mode s m ≠ OFF → caller_required r = true → request_caller r = EmptyString →
  (grants_isolate_run_tokens s = true → request_supplied r = EmptyString) →
  let g := resolve_run_grant s p m lc fk r in caller_token g = EmptyString ∧ caller_token_unavailable g = true.
Proof.
  unfold run_mode, request_caller, request_supplied. intros Hm Hq Hc Hs. cbn zeta. unfold resolve_run_grant. cbv zeta. rewrite Hc. cbn.
  rewrite andb_false_r, (bool_decide_false (_ = OFF)) by done. cbn.
  destruct (grants_isolate_run_tokens s); cbn.
  - rewrite (Hs eq_refl). cbn. rewrite Hq. cbn. split; [apply agent_grant_caller|done].
  - rewrite Hq. cbn. split; [apply agent_grant_caller|done].
Qed.

(** No borrowed authority. A run that the token of one agent starts for another agent, whatever the
    mode (off apart) and however often its own grant is renewed, calls only tools the token of its
    caller covers; resumed without that token it calls none at all, unless isolation is on and the
    request supplies a token in its place. *)
Theorem caller_cannot_borrow s reg cl p m lc fk r renewals connector tool src amt evs c :
  run_mode s m ≠ OFF →
  check_run_grant s reg cl (refreshes renewals (resolve_run_grant s p m lc fk r)) connector tool src amt = Ok (evs, c) →
  dispatch_allowed c = true →
  (request_caller r ≠ EmptyString → acts_for_another r → covered s reg cl (request_caller r) connector tool amt) ∧
  (caller_required r = true → request_caller r = EmptyString → grants_isolate_run_tokens s = true ∧ request_supplied r ≠ EmptyString).
Proof.
  intros Hm Hch Hd. set (g := resolve_run_grant s p m lc fk r) in *. destruct (refreshes_binding renewals g) as (Em & _ & Et & Eu).
  assert (mode (refreshes renewals g) = run_mode s m) as Em' by (rewrite <- Em; apply resolved_mode).
  assert (call_mode (refreshes renewals g) ≠ OFF) as Hcm by (unfold call_mode; rewrite Em'; by destruct (_ && _)).
  destruct (tool_call_spec s reg cl _ connector tool src amt Hcm) as (evs' & c' & Hch' & Hspec). rewrite Hch in Hch'. simplify_eq.
  apply Hspec in Hd as [Hcaller Hrest]. unfold caller_allows in Hcaller. rewrite <- Et, <- Eu in Hcaller. split.
  - intros Hc Ha. destruct (resolved_caller s p m lc fk r Hm Hc Ha) as [Hg|Hg]; fold g in Hg.
    + exfalso. rewrite Hg, refreshes_outside_pool in Hrest by (apply (bool_decide_unpack (_ ∉ _)); vm_compute; done). cbn in Hrest.
      destruct Hrest as [|[_ [? _]]]; done.
    + rewrite Hg in Hcaller. by rewrite (proj2 (nonempty_text_spec _) Hc) in Hcaller.
  - intros Hq Hc. destruct (decide (grants_isolate_run_tokens s = true ∧ request_supplied r ≠ EmptyString)) as [|Hn]; [done|exfalso].
    destruct (resolved_unavailable s p m lc fk r Hm Hq Hc) as [Hg Hu].
    { intros Hi. destruct (decide (request_supplied r = EmptyString)); [done|]. by destruct Hn. }
    fold g in Hg, Hu. rewrite Hg, Hu in Hcaller. done.
Qed.

(** * Examples *)

Module RunGrantExample.
Definition plain : settings := {| grants_isolate_run_tokens := false; grants_enforce_closed := DENY; grantex_audience := EmptyString |}.
Definition isolating : settings := {| grants_isolate_run_tokens := true; grants_enforce_closed := OFF; grantex_audience := EmptyString |}.
Definition registry : ConnectorRegistry := {| _connectors := ["crm"]; _deprecated := [("old_crm", Some "crm")] |}.

Definition verdict (ok : bool) : EnforceResult :=
  {| allowed := ok; reason_code := Some "tool_not_granted"; sub_reason := EmptyString; reason := EmptyString; grant_id := "g1"; scopes := [] |}.

(** Any token but [nothing] may read contacts, under the live id only. *)
Definition client : Client :=
  {| is_grantex := true;
     enforce := λ connector req, Ok (verdict (String.eqb connector "crm" && String.eqb (req_tool req) "get_contact" && negb (String.eqb (grant_token req) "nothing")));
     enforce_isolated := λ _ _, Err "RuntimeError"; covers := String.eqb |}.

Definition minting : pool := λ _ _ _ _ _ _, Ok {| rt_token := "minted-1"; rt_grant_id := "g1"; rt_expires_at := None; rt_source := "minted"; rt_ttl_seconds := 900 |}.

Definition agent_config : grantex_config := {| grant_token_of := None; grantex_scopes := [VStr "tool:crm:read:get_contact"]; grantex_agent := "ga-1" |}.

(** A run of agent [a2] that the token of agent [a1] starts *)
Definition started_by (tok : option string) (needed : bool) (supplied : option string) : run_request :=
  {| tenant := Some "t1"; agent := Some "a2"; supplied_token := supplied; config := Some agent_config; req_caller_token := tok;
     req_caller_agent_id := Some "a1"; caller_required := needed; req_isolation_key := None |}.

Definition run : RunGrant := refreshes [(minting, 0)] (resolve_run_grant plain minting DENY None "k" (started_by (Some " caller-1 ") false None)).

Example contact_read : check_run_grant plain registry (Ok client) run "crm" "get_contact" "minted" None = Ok ([], {| dispatch_allowed := true; denial := None |}).
Proof. vm_compute. reflexivity. Qed.

(** Under the retired id the live one is tried. *)
Example retired_id : allowed <$> enforce_connector_grant plain registry client "old_crm" {| grant_token := "x"; req_tool := "get_contact"; amount := None; audience := None |} = Ok true.
Proof. vm_compute. reflexivity. Qed.

Example cap_message : _classify_sdk_05_message "Amount 500.0 exceeds budget cap of 100 on crm." "crm" "pay" = (CAP_EXCEEDED, "amount_cap").
Proof. vm_compute. reflexivity. Qed.

Example other_tool_refused : ∃ ev d, check_run_grant plain registry (Ok client) run "crm" "delete_contact" "minted" None =
  Ok ([ev], {| dispatch_allowed := false; denial := Some d |}) ∧ denial_sub_reason d = "tool_scope_missing".
Proof. vm_compute. eauto. Qed.
End RunGrantExample.
Import RunGrantExample.

Lemma tool_call_permitted_exactly_witness :
  ∃ evs c, check_run_grant plain registry (Ok client) run "crm" "get_contact" "minted" None = Ok (evs, c) ∧
    (dispatch_allowed c = true ↔ caller_allows plain registry (Ok client) run "crm" "get_contact" None ∧
       (call_mode run = WARN ∨ scope_allows run "crm" "get_contact" ∧ covered plain registry (Ok client) (token run) "crm" "get_contact" None)) ∧
    (evs = [] ↔ caller_allows plain registry (Ok client) run "crm" "get_contact" None ∧ scope_allows run "crm" "get_contact" ∧
       covered plain registry (Ok client) (token run) "crm" "get_contact" None).
Proof. apply tool_call_permitted_exactly. discriminate. Defined.

Lemma caller_cannot_borrow_witness : covered plain registry (Ok client) "caller-1" "crm" "get_contact" None.
Proof.
  refine (proj1 (caller_cannot_borrow plain registry (Ok client) minting DENY None "k" (started_by (Some " caller-1 ") false None) [(minting, 0)]
    "crm" "get_contact" "minted" None [] {| dispatch_allowed := true; denial := None |} _ contact_read _) _ _).
  - discriminate.
  - reflexivity.
  - vm_compute. discriminate.
  - left. discriminate.
Defined.

(** With isolation on, a resumed run whose caller's token is needed and gone is not refused when the
    request supplies another token: that token takes the place of the caller's. *)
Theorem supplied_token_replaces_caller :
  let r := started_by None true (Some "other-token") in
  check_run_grant isolating registry (Ok client) (resolve_run_grant isolating minting OFF None "k" r) "crm" "get_contact" "minted" None =
    Ok ([], {| dispatch_allowed := true; denial := None |}) ∧
  caller_agent_id (resolve_run_grant isolating minting OFF None "k" r) = "a1".
Proof. vm_compute. done. Qed.

(** A refused check names its denial; the gateway relies on it. *)
Lemma refused_has_denial s reg cl g connector tool src amt evs c :
  check_run_grant s reg cl g connector tool src amt = Ok (evs, c) → dispatch_allowed c = false → is_Some (denial c).
Proof.
  assert (∀ m tok src missing evs c, check_tool_grant s reg cl m tok connector tool src amt missing = Ok (evs, c) → dispatch_allowed c = false → is_Some (denial c)) as Hc.
  { intros m tok src' missing evs' c'. unfold check_tool_grant. case_bool_decide; [done|]. destruct (grant_denial _ _ _ _ _ _ _ _); intros [= <- <-]; [eauto|done]. }
  assert (∀ evs c, check_tokens s reg cl g connector tool src amt = Ok (evs, c) → dispatch_allowed c = false → is_Some (denial c)) as Ht.
  { intros evs' c'. unfold check_tokens. destruct (_ && _); [apply Hc|]. destruct (nonempty_text _); [|apply Hc].
    destruct (check_tool_grant s reg cl DENY (caller_token g) _ _ _ _ _) as [[evs1 c1]|] eqn:E1; cbn; [|done].
    destruct (dispatch_allowed c1) eqn:Ed.
    - destruct (check_tool_grant _ _ _ (call_mode g) _ _ _ _ _ _) as [[evs2 c2]|] eqn:E2; cbn; [|done]. intros [= <- <-]. by eapply Hc.
    - intros [= <- <-] _. by eapply Hc. }
  unfold check_run_grant. destruct (if bool_decide _ then _ else _) as [d|]; [|apply Ht]. case_bool_decide.
  - destruct (check_tokens _ _ _ _ _ _ _ _) as [[evs1 c1]|] eqn:E1; cbn; [|done]. intros [= <- <-]. by eapply Ht.
  - intros [= <- <-]. cbn. eauto.
Qed.
