(* ===== verification/OperatorOverride.v ===== *)
(** Operator overrides: src/core/governance/operator_override.py with the rows of
    src/core/models/operator_override.py and the window counter of src/core/auth_state.py.

    An administrator halts or throttles a target; every enforcement point asks [check]. Overrides are
    rows of a table, read through a cache in Redis that lives five seconds; throttles count calls in
    Redis. Any read may fail. The JSON of the cache is kept as the list it stands for. Points in time
    are whole nanoseconds. *)

From Stdlib Require Import Ascii.
From S2P Require Import Prelude PyVal PyText PyCache FeatureFlags ActionPolicy.

Local Open Scope Z_scope.

(** * Targets *)

Definition FLAG_KEY : string := "operator_override.enabled".
Definition CACHE_TTL_SECONDS : Z := 5.

Definition _PROVIDER_ALIASES : list (string * string) :=
  [("claude", "anthropic"); ("gpt", "openai"); ("azure_openai", "openai"); ("openai_compatible", "openai")].

Definition clean (name : option string) : string := lower (strip (default EmptyString name)).

Definition normalise_provider (name : option string) : string := let key := clean name in default key (assoc key _PROVIDER_ALIASES).

Definition TARGET_KINDS : list string := ["provider"; "model"; "agent"; "all_agents"; "workflow"; "connector"; "tool"; "tool_pipeline"].
Definition MODES : list string := ["halt"; "throttle"].

Record Override := {
  id : string;
  target_kind : string;
  target_id : string;
  mode : string;
  limit_per_minute : option Z;
  reason : string;
}.

#[global] Instance Override_eq_dec : EqDecision Override.
Proof. solve_decision. Defined.

Record OverrideDecision := { blocked : bool; why : string; override : option Override }.

Definition ALLOWED : OverrideDecision := {| blocked := false; why := EmptyString; override := None |}.

Definition THROTTLE_UNITS : list (string * string) :=
  [("provider", "model"); ("model", "model"); ("agent", "agent"); ("all_agents", "agent"); ("workflow", "workflow"); ("connector", "tool");
   ("tool", "tool"); ("tool_pipeline", "tool")].

(** What a call touches *)
Record context := { provider : string; model : string; agent_id : string; workflow_id : string; connector : string; tool : string }.

Definition some_text (s : string) : bool := negb (String.eqb s EmptyString).

Definition _matches (o : Override) (c : context) : bool :=
  let target := lower (strip (target_id o)) in
  let kind := target_kind o in
  if String.eqb kind "provider" then some_text (provider c) && String.eqb (normalise_provider (Some target)) (provider c)
  else if String.eqb kind "model" then some_text (model c) && String.eqb target (model c)
  else if String.eqb kind "agent" then some_text (agent_id c) && String.eqb target (agent_id c)
  else if String.eqb kind "all_agents" then some_text (agent_id c)
  else if String.eqb kind "workflow" then some_text (workflow_id c) && String.eqb target (workflow_id c)
  else if String.eqb kind "connector" then some_text (connector c) && String.eqb target (connector c)
  else if String.eqb kind "tool" then
    some_text (connector c) && some_text (tool c) && (String.eqb target (tool c) || String.eqb target (connector c +:+ ":" +:+ tool c))
  else if String.eqb kind "tool_pipeline" then some_text (connector c)
  else false.

(** [str] of the limit; [None] for no limit *)
Definition _describe (str_limit : option Z → string) (o : Override) : string :=
  let target := target_kind o +:+ (if some_text (target_id o) then " " +:+ target_id o else EmptyString) in
  if String.eqb (mode o) "halt" then "Operator override: " +:+ target +:+ " is halted (" +:+ reason o +:+ ")."
  else "Operator override: " +:+ target +:+ " is throttled to " +:+ str_limit (limit_per_minute o) +:+ " calls per minute (" +:+ reason o +:+ ").".

(** * The window counter *)

(** Counters in Redis with their expiry, and the times kept in memory *)
Record rate_state := { counters : list (string * (Z * option Z)); mem_window : list (string * list Z) }.

(** Redis during one call: it cannot be connected to (the exception), or is, and either command may fail. *)
Inductive redis_state := Unconnected (e : string) | Connected (incr_ok expire_ok : bool).

Definition live_count (key : string) (now : Z) (st : rate_state) : option (Z * option Z) :=
  match dget key (counters st) with
  | Some (n, Some ex) => if now <? ex then Some (n, Some ex) else None
  | other => other
  end.

Definition memory_window (key : string) (limit window now : Z) (st : rate_state) : bool * rate_state :=
  let times := List.filter (λ t, now - t <? window * SECOND) (default [] (dget key (mem_window st))) in
  if limit <=? Z.of_nat (length times) then (true, {| counters := counters st; mem_window := dset key times (mem_window st) |})
  else (false, {| counters := counters st; mem_window := dset key (times ++ [now]) (mem_window st) |}).

(** [true]: the call should be blocked *)
Definition check_window_rate (strict : bool) (redis : redis_state) (namespace key : string) (limit window now : Z) (st : rate_state) :
    result string bool * rate_state :=
  let fallback st :=
    if strict then (Err "RuntimeError", st)
    else let (b, st') := memory_window (namespace +:+ ":" +:+ key) limit window now st in (Ok b, st') in
  match redis with
  | Unconnected e => if strict then (Err e, st) else fallback st
  | Connected false _ => fallback st
  | Connected true expire_ok =>
      let redis_key := "auth:" +:+ namespace +:+ ":" +:+ key in
      let '(count, ex) := match live_count redis_key now st with Some (n, ex) => (n + 1, ex) | None => (1, None) end in
      let put ex := {| counters := dset redis_key (count, ex) (counters st); mem_window := mem_window st |} in
      if count =? 1 then
        if expire_ok then (Ok (limit <? count), put (Some (now + window * SECOND))) else fallback (put ex)
      else (Ok (limit <? count), put ex)
  end.

Definition _throttled (strict : bool) (redis : redis_state) (tenant : string) (o : Override) (now : Z) (st : rate_state) : result string bool * rate_state :=
  let limit := default 0 (limit_per_minute o) in
  if limit <=? 0 then (Ok true, st)
  else match check_window_rate strict redis "operator_override" (tenant +:+ ":" +:+ id o) limit 60 now st with
  | (Err e, st') => if String.eqb e "RuntimeError" then (Ok true, st') else (Err e, st')
  | r => r
  end.

(** * The check *)

Definition _as_uuid `{UuidText} (value : ident) : option string :=
  match value with NoId => None | Uuid u => Some u | IdText t => if some_text t then uuid_of_text t else None end.

Section check.
Context (str_limit : option Z → string).

Definition refuse (o : Override) : OverrideDecision := {| blocked := true; why := _describe str_limit o; override := Some o |}.

(** The throttles in turn, up to the first that blocks *)
Fixpoint apply_throttles (strict : bool) (redis : Override → redis_state) (unit_ : option string) (tenant : string) (os : list Override) (now : Z) (st : rate_state) :
    result string OverrideDecision * rate_state :=
  match os with
  | [] => (Ok ALLOWED, st)
  | o :: os' =>
      if match unit_ with None => true | Some u => negb (bool_decide (assoc (target_kind o) THROTTLE_UNITS = Some u)) end
      then apply_throttles strict redis unit_ tenant os' now st
      else match _throttled strict (redis o) tenant o now st with
      | (Err e, st') => (Err e, st')
      | (Ok true, st') => (Ok (refuse o), st')
      | (Ok false, st') => apply_throttles strict redis unit_ tenant os' now st'
      end
  end.

(** [on] is the answer of [enabled], [overrides] that of [active_overrides]; [None] when they raise.
    [auth_strict] is the switch that makes the counters strict in any runtime. *)
Definition check `{UuidText} (strict auth_strict : bool) (tenant : ident) (on : option bool) (overrides : option (list Override)) (redis : Override → redis_state)
    (unit_ : option string) (c : context) (now : Z) (st : rate_state) : result string OverrideDecision * rate_state :=
  let unreadable :=
    if strict then {| blocked := true; why := "Operator overrides could not be read; refusing the call."; override := None |} else ALLOWED in
  match _as_uuid tenant with
  | None => (Ok ALLOWED, st)
  | Some t =>
      match on with
      | None => (Ok unreadable, st)
      | Some false => (Ok ALLOWED, st)
      | Some true =>
          match overrides with
          | None => (Ok unreadable, st)
          | Some os =>
              let matched := List.filter (λ o, _matches o c) os in
              match List.filter (λ o, String.eqb (mode o) "halt") matched with
              | o :: _ => (Ok (refuse o), st)
              | [] => apply_throttles (auth_strict || strict) redis unit_ t matched now st
              end
          end
      end
  end.
End check.

(** The context of a call, from what the enforcement point passes *)
Definition context_of (provider model agent_id workflow_id connector tool : option string) : context :=
  {| provider := normalise_provider provider; model := clean model; agent_id := clean agent_id; workflow_id := clean workflow_id;
     connector := clean connector; tool := clean tool |}.

(** The settings switch, or either row of the authority flag; [None] when the rows cannot be read *)
Definition enabled `{UuidText} (switch : bool) (tenant : ident) (load : string → option FlagRows) : option bool :=
  if switch then Some true
  else match _as_uuid tenant with
  | None => Some false
  | Some t =>
      match load FLAG_KEY with
      | None => None
      | Some rows => Some (row_enabled FLAG_KEY (global_row rows) t || row_enabled FLAG_KEY (tenant_row rows) t)
      end
  end.

(** * The table and its cache *)

Record OverrideRow := {
  row_id : string;
  row_tenant : string;
  row_kind : string;
  row_target : string;
  row_mode : string;
  row_limit : option Z;
  row_reason : string;
  created_by : string;
  created_at : Z;
  expires_at : option Z;
  released_at : option Z;
  released_by : option string;
}.

Definition override_of (w : OverrideRow) : Override :=
  {| id := row_id w; target_kind := row_kind w; target_id := row_target w; mode := row_mode w; limit_per_minute := row_limit w; reason := row_reason w |}.

Definition unexpired (now : Z) (w : OverrideRow) : bool := match expires_at w with None => true | Some e => now <? e end.
Definition active (tenant : string) (now : Z) (w : OverrideRow) : bool :=
  String.eqb (row_tenant w) tenant && bool_decide (released_at w = None) && unexpired now w.

Definition _load_from_db (tenant : string) (now : Z) (rows : list OverrideRow) : list Override :=
  override_of <$> List.filter (active tenant now) rows.

Abbreviation override_cache := (list (string * (list Override * Z))).
Definition _cache_key (tenant : string) : string := "operator_overrides:" +:+ tenant.

Definition redis_get (key : string) (now : Z) (c : override_cache) : option (list Override) :=
  match dget key c with Some (l, ex) => if now <? ex then Some l else None | None => None end.

Definition write_cache (tenant : string) (l : list Override) (now : Z) (c : override_cache) : override_cache :=
  dset (_cache_key tenant) (l, now + CACHE_TTL_SECONDS * SECOND) c.

Definition invalidate (tenant : string) (c : override_cache) : override_cache := dpop (_cache_key tenant) c.

(** The overrides of the tenant, and what is to be cached; [redis] is [None] when Redis or the read of the cache
    fails, [rows] when the table cannot be read. *)
Definition active_overrides (tenant : string) (redis : option override_cache) (rows : option (list OverrideRow)) (now : Z) : option (list Override) * option (list Override) :=
  match redis ≫= redis_get (_cache_key tenant) now with
  | Some l => (Some l, None)
  | None =>
      match rows with
      | None => (None, None)
      | Some rs => let l := _load_from_db tenant now rs in (Some l, match redis with Some _ => Some l | None => None end)
      end
  end.

(** * Changes *)

Definition set_override (tenant kind target md : string) (limit : option Z) (why actor : string) (expires : option Z) (new_id : string) (now : Z) : result string OverrideRow :=
  _ ← raise_if (negb (bool_decide (kind ∈ TARGET_KINDS))) "unknown target kind";
  _ ← raise_if (negb (bool_decide (md ∈ MODES))) "unknown mode";
  _ ← raise_if (String.eqb md "throttle" && match limit with None => true | Some l => l <? 0 end) "a throttle needs limit_per_minute >= 0";
  let whole := bool_decide (kind ∈ ["all_agents"; "tool_pipeline"]) in
  _ ← raise_if (negb whole && negb (some_text (strip target))) "target kind needs a target_id";
  Ok {| row_id := new_id; row_tenant := tenant; row_kind := kind; row_target := if whole then EmptyString else strip target; row_mode := md;
        row_limit := if String.eqb md "halt" then None else limit; row_reason := strip why; created_by := actor; created_at := now;
        expires_at := expires; released_at := None; released_by := None |}.

Definition released (actor : string) (now : Z) (w : OverrideRow) : OverrideRow :=
  {| row_id := row_id w; row_tenant := row_tenant w; row_kind := row_kind w; row_target := row_target w; row_mode := row_mode w; row_limit := row_limit w;
     row_reason := row_reason w; created_by := created_by w; created_at := created_at w; expires_at := expires_at w; released_at := Some now; released_by := Some actor |}.

(** The override released and the table after it *)
Definition release_override (tenant oid actor : string) (now : Z) (rows : list OverrideRow) : option Override * list OverrideRow :=
  let hit w := String.eqb (row_id w) oid && String.eqb (row_tenant w) tenant && bool_decide (released_at w = None) in
  match List.filter hit rows with
  | [w] => (Some (override_of w), (λ w, if hit w then released actor now w else w) <$> rows)
  | _ => (None, rows)
  end.

(** The constraints of the table *)
Definition row_ok (w : OverrideRow) : Prop :=
  row_kind w ∈ TARGET_KINDS ∧ row_mode w ∈ MODES ∧
  (row_mode w = "halt" ∧ row_limit w = None ∨ row_mode w = "throttle" ∧ ∃ l, row_limit w = Some l ∧ 0 ≤ l).

Lemma set_override_ok tenant kind target md limit why actor expires new_id now w :
  set_override tenant kind target md limit why actor expires new_id now = Ok w → row_ok w.
Proof.
  unfold set_override. intros Hw. inv_ok. apply negb_false_iff, bool_decide_eq_true in H, H0. split_and!; [done..|]. cbn.
  apply list_elem_of_In in H0 as [<-|[<-|[]]]; [by left|right]. cbn in H1. split; [done|]. destruct limit as [l|]; [|done].
  exists l. cbn. split; [done|]. by apply Z.ltb_ge.
Qed.

(** * Halts take hold *)

Lemma halt_blocks `{UuidText} str_limit strict auth tenant t os redis u c now st o :
  _as_uuid tenant = Some t → o ∈ os → mode o = "halt" → _matches o c = true →
  ∃ d, fst (check str_limit strict auth tenant (Some true) (Some os) redis u c now st) = Ok d ∧ blocked d = true.
Proof.
  intros Ht Ho Hm Hc. unfold check. rewrite Ht.
  assert (o ∈ List.filter (λ o, String.eqb (mode o) "halt") (List.filter (λ o, _matches o c) os)) as Hin.
  { rewrite !list_elem_of_In, !filter_In, <- list_elem_of_In, Hm. done. }
  destruct (List.filter _ (List.filter _ _)) as [|o' l]; [by apply elem_of_nil in Hin|]. by exists (refuse str_limit o').
Qed.

Section system.
(** The longest a reader takes from the table to the cache *)
Context (D : Z) (D_nonneg : 0 ≤ D).

(** A reader that has read the table and not yet written the cache: its tenant, what it read and when *)
Record system := { clock : Z; table : list OverrideRow; cached : override_cache; readers : list (string * list Override * Z) }.

Inductive step : system → system → Prop :=
| Tick t t' rows c rs : t ≤ t' → Forall (λ r, t' - r.2 ≤ D) rs →
    step {| clock := t; table := rows; cached := c; readers := rs |} {| clock := t'; table := rows; cached := c; readers := rs |}
| Set_ t rows c rs tenant kind target md limit why actor ex new_id w :
    set_override tenant kind target md limit why actor ex new_id t = Ok w →
    step {| clock := t; table := rows; cached := c; readers := rs |} {| clock := t; table := rows ++ [w]; cached := c; readers := rs |}
| Release t rows c rs tenant oid actor :
    step {| clock := t; table := rows; cached := c; readers := rs |}
         {| clock := t; table := snd (release_override tenant oid actor t rows); cached := c; readers := rs |}
| Invalidate t rows c rs tenant :
    step {| clock := t; table := rows; cached := c; readers := rs |} {| clock := t; table := rows; cached := invalidate tenant c; readers := rs |}
| Read t rows c rs tenant l :
    active_overrides tenant (Some c) (Some rows) t = (Some l, Some l) →
    step {| clock := t; table := rows; cached := c; readers := rs |} {| clock := t; table := rows; cached := c; readers := (tenant, l, t) :: rs |}
| Write t rows c rs rs' tenant l tr :
    step {| clock := t; table := rows; cached := c; readers := rs ++ (tenant, l, tr) :: rs' |}
         {| clock := t; table := rows; cached := write_cache tenant l t c; readers := rs ++ rs' |}
| Give_up t rows c rs rs' r :
    step {| clock := t; table := rows; cached := c; readers := rs ++ r :: rs' |} {| clock := t; table := rows; cached := c; readers := rs ++ rs' |}.

(** Whatever the table holds active and older than the read is in what was read. *)
Definition snapshot (rows : list OverrideRow) (tenant : string) (l : list Override) (tr : Z) : Prop :=
  ∀ w, w ∈ rows → row_tenant w = tenant → released_at w = None → unexpired tr w = true → created_at w < tr → override_of w ∈ l.

Record consistent (s : system) : Prop := {
  readers_ok : ∀ tenant l tr, (tenant, l, tr) ∈ readers s → tr ≤ clock s ∧ clock s - tr ≤ D ∧ snapshot (table s) tenant l tr;
  cache_ok : ∀ key l ex, (key, (l, ex)) ∈ cached s → ∃ tenant tr, key = _cache_key tenant ∧ tr ≤ clock s ∧
    ex - CACHE_TTL_SECONDS * SECOND - D ≤ tr ∧ snapshot (table s) tenant l tr;
}.

(** A snapshot stays one while the table only gains rows that are newer and releases others. *)
Definition only_newer (t : Z) (rows rows' : list OverrideRow) : Prop :=
  ∀ w, w ∈ rows' → released_at w = None → w ∈ rows ∨ created_at w = t.

Lemma snapshot_newer t rows rows' tenant l tr : only_newer t rows rows' → tr ≤ t → snapshot rows tenant l tr → snapshot rows' tenant l tr.
Proof. intros Hn Htr Hs w Hw Ht Hr Hu Hc. destruct (Hn w Hw Hr) as [?|?]; [by apply Hs|lia]. Qed.

Lemma table_step t rows rows' c rs : only_newer t rows rows' →
  consistent {| clock := t; table := rows; cached := c; readers := rs |} → consistent {| clock := t; table := rows'; cached := c; readers := rs |}.
Proof.
  intros Hn [Hr Hc]. split; cbn in *.
  - intros tenant l tr Hin. destruct (Hr _ _ _ Hin) as (? & ? & ?). split_and!; [done..|by eapply snapshot_newer].
  - intros key l ex Hin. destruct (Hc _ _ _ Hin) as (tenant & tr & -> & ? & ? & ?). exists tenant, tr. split_and!; [done..|by eapply snapshot_newer].
Qed.

Lemma set_created tenant kind target md limit why actor ex new_id t w :
  set_override tenant kind target md limit why actor ex new_id t = Ok w → created_at w = t.
Proof. unfold set_override. intros Hw. by inv_ok. Qed.

Lemma release_newer tenant oid actor t rows : only_newer t rows (snd (release_override tenant oid actor t rows)).
Proof.
  intros w. unfold release_override. destruct (List.filter _ rows) as [|w0 [|]]; cbn; [by left| |by left].
  intros (w' & -> & Hw')%list_elem_of_fmap. destruct (_ && _); [intros [=]|intros _; by left].
Qed.

Lemma load_snapshot tenant t rows : snapshot rows tenant (_load_from_db tenant t rows) t.
Proof.
  intros w Hw Ht Hr Hu _. unfold _load_from_db. apply list_elem_of_fmap. exists w. split; [done|].
  rewrite list_elem_of_In, filter_In, <- list_elem_of_In. split; [done|]. unfold active. by rewrite Ht, String.eqb_refl, Hr, Hu.
Qed.

Lemma read_is_load tenant c rows t l : active_overrides tenant (Some c) (Some rows) t = (Some l, Some l) →
  l = _load_from_db tenant t rows ∧ redis_get (_cache_key tenant) t c = None.
Proof. unfold active_overrides. cbn. destruct (redis_get _ t c); [done|]. by intros [= <-]. Qed.

Lemma elem_of_drop {A} (x y : A) l l' : x ∈ l ++ l' → x ∈ l ++ y :: l'.
Proof. set_solver. Qed.

Lemma write_consistent t rows c rs rs' tenant l tr :
  consistent {| clock := t; table := rows; cached := c; readers := rs ++ (tenant, l, tr) :: rs' |} →
  consistent {| clock := t; table := rows; cached := write_cache tenant l t c; readers := rs ++ rs' |}.
Proof.
  intros [Hr Hc]. split; cbn in *; [intros; by eapply Hr, elem_of_drop|].
  intros key m ex [[= -> -> ->]|Hin]%elem_of_dset; [|by eapply Hc].
  destruct (Hr tenant l tr) as (? & ? & ?); [set_solver|]. exists tenant, tr. split_and!; [done..|lia|done].
Qed.

Lemma step_consistent s s' : step s s' → consistent s → consistent s'.
Proof.
  destruct 1 as [t t' rows c rs Ht Hrs|t rows c rs tenant kind target md limit why actor ex new_id w Hw|t rows c rs tenant oid actor
    |t rows c rs tenant|t rows c rs tenant l Hl|t rows c rs rs' tenant l tr|t rows c rs rs' r].
  - intros [Hr Hc]. split; cbn in *.
    + intros tenant l tr Hin. destruct (Hr _ _ _ Hin) as (? & ? & ?). rewrite Forall_forall in Hrs. specialize (Hrs _ Hin). cbn in Hrs. split_and!; [lia..|done].
    + intros key l ex Hin. destruct (Hc _ _ _ Hin) as (tenant & tr & -> & ? & ? & ?). exists tenant, tr. split_and!; [done|lia|done..].
  - apply table_step. intros w' [Hw'| ->%list_elem_of_singleton]%elem_of_app _; [by left|right]. by eapply set_created.
  - apply table_step, release_newer.
  - intros [Hr Hc]. split; cbn in *; [done|]. intros key l ex [_ Hin]%elem_of_dpop. by apply Hc.
  - intros [Hr Hc]. split; cbn in *; [|done]. intros tenant' l' tr [[= -> -> ->]|Hin]%elem_of_cons; [|by apply Hr].
    rewrite (proj1 (read_is_load _ _ _ _ _ Hl)). split_and!; [done|lia|apply load_snapshot].
  - apply write_consistent.
  - intros [Hr Hc]. split; cbn in *; [|done]. intros; by eapply Hr, elem_of_drop.
Qed.

Definition initial (t : Z) : system := {| clock := t; table := []; cached := []; readers := [] |}.

Lemma reachable_consistent t s : rtc step (initial t) s → consistent s.
Proof.
  intros Hs. assert (consistent (initial t)) as H0 by (split; cbn; intros *; by intros ?%elem_of_nil).
  induction Hs; eauto using step_consistent.
Qed.

Lemma cache_key_inj t t' : _cache_key t = _cache_key t' → t = t'.
Proof. by intros [=]. Qed.

(** What an enforcement point may learn: the cache or the table, either of which may fail *)
Lemma halt_is_seen t s w redis rows l : rtc step (initial t) s → w ∈ table s → released_at w = None → unexpired (clock s) w = true →
  created_at w + D + CACHE_TTL_SECONDS * SECOND ≤ clock s →
  redis = None ∨ redis = Some (cached s) → rows = None ∨ rows = Some (table s) →
  fst (active_overrides (row_tenant w) redis rows (clock s)) = Some l → override_of w ∈ l.
Proof.
  intros Hs Hw Hr Hu Hc Hredis Hrows Hl. destruct (reachable_consistent t s Hs) as [_ Hcache].
  assert (∀ rs, rows = Some rs → override_of w ∈ _load_from_db (row_tenant w) (clock s) rs) as Hload.
  { intros rs ->. destruct Hrows as [[=]|[= ->]]. apply list_elem_of_fmap. exists w. split; [done|].
    rewrite list_elem_of_In, filter_In, <- list_elem_of_In. unfold active. by rewrite String.eqb_refl, Hr, Hu. }
  unfold active_overrides in Hl. destruct (redis ≫= redis_get (_cache_key (row_tenant w)) (clock s)) as [l'|] eqn:Eg; cbn in Hl.
  - injection Hl as ->. destruct Hredis as [->| ->]; [done|]. cbn in Eg. unfold redis_get in Eg.
    destruct (dget _ (cached s)) as [[l' ex]|] eqn:Ed; [|done]. destruct (Z.ltb_spec (clock s) ex); simplify_eq.
    apply dget_elem_of in Ed. destruct (Hcache _ _ _ Ed) as (tenant & tr & <-%cache_key_inj & ? & ? & Hsnap).
    apply Hsnap; [done..| |lia]. unfold unexpired in *. destruct (expires_at w); [|done]. rewrite Z.ltb_lt in *. lia.
  - destruct rows as [rs|]; [|done]. injection Hl as <-. by apply Hload.
Qed.
End system.

Lemma halt_blocks_call `{UuidText} str_limit auth tenant D t s w on redis rows rstate u c st :
  0 ≤ D → rtc (step D) (initial t) s →
  w ∈ table s → row_mode w = "halt" → released_at w = None → unexpired (clock s) w = true →
  created_at w + D + CACHE_TTL_SECONDS * SECOND ≤ clock s →
  _as_uuid tenant = Some (row_tenant w) → _matches (override_of w) c = true →
  on ≠ Some false → redis = None ∨ redis = Some (cached s) → rows = None ∨ rows = Some (table s) →
  ∃ d, fst (check str_limit true auth tenant on (fst (active_overrides (row_tenant w) redis rows (clock s))) rstate u c (clock s) st) = Ok d ∧ blocked d = true.
Proof.
  intros HD Hs Hw Hm Hr Hu Hc Ht Hmatch Hon Hredis Hrows.
  destruct on as [[|]|]; [|done|unfold check; rewrite Ht; by eexists].
  destruct (fst (active_overrides _ _ _ _)) as [l|] eqn:El; [|unfold check; rewrite Ht; by eexists].
  apply (halt_blocks str_limit true auth tenant (row_tenant w) l rstate u c (clock s) st (override_of w)); [done| |done|done].
  by eapply (halt_is_seen D HD t s w redis rows).
Qed.

(** C18. A halt takes hold while the control is not switched off (with it off, every call is allowed). Under every interleaving of changes of overrides, readers that fill the cache
    and their delays (at most [D] from the table to the cache), once a halt is older than [D] and the
    lifetime of the cache, and until it is released or expires, every call in a strict runtime that it
    matches is blocked: whether the list comes from the cache or the table, and also when either, or
    the switch of the control, cannot be read. *)
Theorem halt_takes_hold `{UuidText} str_limit auth tenant D t s w on redis rows rstate u c st :
  0 ≤ D → rtc (step D) (initial t) s →
  w ∈ table s → row_mode w = "halt" → released_at w = None → unexpired (clock s) w = true →
  created_at w + D + CACHE_TTL_SECONDS * SECOND ≤ clock s →
  _as_uuid tenant = Some (row_tenant w) → _matches (override_of w) c = true →
  on ≠ Some false → redis = None ∨ redis = Some (cached s) → rows = None ∨ rows = Some (table s) →
  ∃ d, fst (check str_limit true auth tenant on (fst (active_overrides (row_tenant w) redis rows (clock s))) rstate u c (clock s) st) = Ok d ∧ blocked d = true.
Proof. apply halt_blocks_call. Qed.

(** * An example: a reader races an operator *)

Module HaltExample.
Definition tenant : string := "t1".
#[export] Instance known_uuid : UuidText := λ s, Some s.

(** Agent [a1] is halted at second 1. *)
Definition halt : OverrideRow :=
  {| row_id := "o1"; row_tenant := tenant; row_kind := "agent"; row_target := "A1"; row_mode := "halt"; row_limit := None; row_reason := "incident";
     created_by := "ops"; created_at := SECOND; expires_at := None; released_at := None; released_by := None |}.

Definition call : context := context_of None None (Some "a1") None (Some "crm") (Some "get_contact").

(** The cache a reader fills at second 1 with what it read at second 0 *)
Definition stale : override_cache := write_cache tenant [] SECOND [].

(** The list was read at second 0; the halt is set and the cache invalidated, then the reader writes. *)
Definition after (t : Z) : system := {| clock := t; table := [halt]; cached := stale; readers := [] |}.

Lemma after_reachable t : SECOND ≤ t → rtc (step SECOND) (initial 0) (after t).
Proof.
  intros Ht.
  eapply rtc_l. { apply (Read SECOND 0 [] [] [] tenant []). reflexivity. }
  eapply rtc_l. { apply (Tick SECOND 0 SECOND); [discriminate|]. repeat constructor. discriminate. }
  eapply rtc_l. { apply (Set_ SECOND SECOND [] [] _ tenant "agent" " A1" "halt" (Some 3) "incident " "ops" None "o1" halt). reflexivity. }
  eapply rtc_l. { apply (Invalidate SECOND SECOND [halt] [] _ tenant). }
  eapply rtc_l. { apply (Write SECOND SECOND [halt] [] [] [] tenant [] 0). }
  apply rtc_once. apply (Tick SECOND SECOND t); [done|constructor].
Qed.

Definition no_counters : rate_state := {| counters := []; mem_window := [] |}.
Definition verdict (t : Z) : result string OverrideDecision :=
  fst (check (λ _, EmptyString) true false (IdText tenant) (Some true) (fst (active_overrides tenant (Some stale) (Some [halt]) t))
    (λ _, Unconnected "ConnectionError") (Some "tool") call t no_counters).
End HaltExample.
Import HaltExample.

Lemma halt_takes_hold_witness : ∃ d, verdict (7 * SECOND) = Ok d ∧ blocked d = true.
Proof.
  refine (halt_takes_hold (λ _, EmptyString) false (IdText tenant) SECOND 0 (after (7 * SECOND)) halt (Some true) (Some stale) (Some [halt])
    (λ _, Unconnected "ConnectionError") (Some "tool") call no_counters _ _ _ _ _ _ _ _ _ _ _ _).
  - vm_compute. discriminate.
  - apply after_reachable. vm_compute. discriminate.
  - by left.
  - reflexivity.
  - reflexivity.
  - reflexivity.
  - vm_compute. discriminate.
  - reflexivity.
  - vm_compute. reflexivity.
  - discriminate.
  - by right.
  - by right.
Defined.

(** Invalidation does not make the next check read the table: a reader that was under way writes its
    older list afterwards, and calls pass for up to five seconds after the operator was told that
    the halt is set. *)
Theorem stale_reader_defeats_halt :
  rtc (step SECOND) (initial 0) (after (5 * SECOND)) ∧ halt ∈ table (after (5 * SECOND)) ∧ _matches (override_of halt) call = true ∧
  verdict (5 * SECOND) = Ok ALLOWED.
Proof. split_and!; [apply after_reachable; vm_compute; discriminate|by left|vm_compute; reflexivity|vm_compute; reflexivity]. Qed.

(** In a strict runtime a throttle whose counter cannot be reached for lack of a connection raises out
    of the check, since only [RuntimeError] is caught. *)
Theorem unconnected_counter_raises :
  let o := {| id := "o2"; target_kind := "tool_pipeline"; target_id := EmptyString; mode := "throttle"; limit_per_minute := Some 10; reason := "load" |} in
  fst (check (λ _, EmptyString) true false (IdText tenant) (Some true) (Some [o]) (λ _, Unconnected "ConnectionError") (Some "tool") call 0 no_counters) = Err "ConnectionError" ∧
  (∀ ok, ∃ d, fst (check (λ _, EmptyString) true false (IdText tenant) (Some true) (Some [o]) (λ _, Connected false ok) (Some "tool") call 0 no_counters) = Ok d ∧ blocked d = true).
Proof. split; [vm_compute; reflexivity|]. intros []; vm_compute; eauto. Qed.

(** * Throttles *)

Section throttle.
Context (strict : bool) (tenant : string) (o : Override) (limit : Z).
Hypothesis Hlimit : limit_per_minute o = Some limit.
Hypothesis Hpos : 0 < limit.

Definition WINDOW : Z := 60 * SECOND.
Definition counter_key : string := "auth:operator_override:" +:+ (tenant +:+ ":" +:+ id o).
Definition counter (st : rate_state) : option (Z * option Z) := dget counter_key (counters st).

(** The calls the throttle lets through while Redis works *)
Fixpoint let_through (times : list Z) (st : rate_state) : Z :=
  match times with
  | [] => 0
  | t :: times' =>
      let (r, st') := _throttled strict (Connected true true) tenant o t st in
      (if bool_decide (r = Ok false) then 1 else 0) + let_through times' st'
  end.

Lemma throttled_counts redis t st :
  _throttled strict redis tenant o t st =
  match check_window_rate strict redis "operator_override" (tenant +:+ ":" +:+ id o) limit 60 t st with
  | (Err e, st') => if String.eqb e "RuntimeError" then (Ok true, st') else (Err e, st')
  | r => r
  end.
Proof. unfold _throttled. rewrite Hlimit. change (default 0 (Some limit)) with limit. by rewrite (proj2 (Z.leb_gt limit 0) Hpos). Qed.

Lemma throttled_live t st n ex : counter st = Some (n, ex) → match ex with Some e => t < e | None => True end → 1 ≤ n →
  ∃ st', _throttled strict (Connected true true) tenant o t st = (Ok (limit <? n + 1), st') ∧ counter st' = Some (n + 1, ex).
Proof.
  intros Hc Ht Hn. rewrite throttled_counts. unfold check_window_rate. fold counter_key.
  assert (live_count counter_key t st = Some (n, ex)) as Hl.
  { unfold live_count. fold (counter st). rewrite Hc. destruct ex as [e|]; [|done]. by rewrite (proj2 (Z.ltb_lt _ _) Ht). }
  change (live_count ("auth:" +:+ _) t st) with (live_count counter_key t st). rewrite Hl.
  rewrite (proj2 (Z.eqb_neq (n + 1) 1)) by lia. eexists. split; [reflexivity|]. unfold counter. cbn. by rewrite dget_dset, bool_decide_true.
Qed.

Lemma throttled_new t st expire_ok : match counter st with None => True | Some (_, Some e) => e ≤ t | _ => False end →
  ∃ r st', _throttled strict (Connected true expire_ok) tenant o t st = (r, st') ∧
    (if expire_ok then r = Ok false ∧ counter st' = Some (1, Some (t + WINDOW)) else strict = true → r = Ok true ∧ counter st' = Some (1, None)).
Proof.
  intros Hc. rewrite throttled_counts. unfold check_window_rate.
  assert (live_count counter_key t st = None) as Hl.
  { unfold live_count. fold (counter st). destruct (counter st) as [[n [e|]]|]; [|done..]. by rewrite (proj2 (Z.ltb_ge _ _) Hc). }
  change (live_count ("auth:" +:+ _) t st) with (live_count counter_key t st). rewrite Hl. cbn [Z.eqb Pos.eqb]. destruct expire_ok.
  - rewrite (proj2 (Z.ltb_ge limit 1)) by lia. do 2 eexists. split; [reflexivity|]. split; [done|]. unfold counter. cbn. by rewrite dget_dset, bool_decide_true.
  - destruct strict; [|destruct (memory_window _ _ _ _ _); do 2 eexists; by split]. do 2 eexists. split; [reflexivity|]. intros _. split; [done|].
    unfold counter. cbn. by rewrite dget_dset, bool_decide_true.
Qed.

(** The windows that begin from [x] to [b] *)
Definition windows (x b : Z) : Z := if b <? x then 0 else (b - x) / WINDOW + 1.

Lemma WINDOW_pos : 0 < WINDOW.
Proof. unfold WINDOW, SECOND. lia. Qed.

Lemma windows_step x b : x ≤ b → windows x b = 1 + windows (x + WINDOW) b.
Proof.
  intros Hx. pose proof WINDOW_pos. unfold windows. rewrite (proj2 (Z.ltb_ge b x) Hx). destruct (Z.ltb_spec b (x + WINDOW)).
  - rewrite Z.div_small by lia. lia.
  - replace (b - x) with (b - (x + WINDOW) + 1 * WINDOW) by lia. rewrite Z.div_add by lia. lia.
Qed.

Lemma windows_le x y b : x ≤ y → windows y b ≤ windows x b.
Proof.
  intros Hxy. pose proof WINDOW_pos. unfold windows. destruct (Z.ltb_spec b y), (Z.ltb_spec b x); [lia| |lia|].
  - pose proof (Z.div_pos (b - x) WINDOW). lia.
  - pose proof (Z.div_le_mono (b - y) (b - x) WINDOW). lia.
Qed.

Lemma windows_nonneg x b : 0 ≤ windows x b.
Proof. pose proof WINDOW_pos. unfold windows. destruct (Z.ltb_spec b x); [done|]. pose proof (Z.div_pos (b - x) WINDOW). lia. Qed.

(** What may still pass by time [b], seen from time [a] *)
Definition allowance (a b : Z) (st : rate_state) : Z :=
  match counter st with
  | Some (n, Some ex) => if a <? ex then Z.max 0 (limit - n) + limit * windows ex b else limit * windows a b
  | _ => limit * windows a b
  end.

Definition counting (st : rate_state) : Prop := match counter st with None => True | Some (n, Some _) => 1 ≤ n | Some (_, None) => False end.

Lemma let_through_bound times a b st : counting st → StronglySorted Z.le (a :: times) → Forall (λ t, t ≤ b) times → let_through times st ≤ allowance a b st.
Proof.
  revert a st. induction times as [|t times IH]; intros a st Hc Hs Hb; cbn.
  { unfold allowance. destruct (counter st) as [[n [ex|]]|]; [destruct (a <? ex)|..]; pose proof (windows_nonneg a b); try pose proof (windows_nonneg ex b); nia. }
  inversion Hs as [|? ? Hs' Ha]; subst. apply Forall_cons in Ha as [Hat _]. apply Forall_cons in Hb as [Htb Hb].
  destruct (match counter st with Some (_, Some ex) => t <? ex | _ => false end) eqn:Hl.
  - destruct (counter st) as [[n [ex|]]|] eqn:Ec; [|done..]. apply Z.ltb_lt in Hl. unfold counting in Hc. rewrite Ec in Hc.
    destruct (throttled_live t st n (Some ex) Ec Hl Hc) as (st' & -> & Ec').
    specialize (IH t st'). unfold counting, allowance in *. rewrite Ec, (proj2 (Z.ltb_lt a ex)) by lia. rewrite Ec', (proj2 (Z.ltb_lt t ex)) in IH by lia.
    specialize (IH ltac:(lia) Hs' Hb). destruct (Z.ltb_spec limit (n + 1)); case_bool_decide; try congruence; lia.
  - destruct (throttled_new t st true) as (r & st' & -> & -> & Ec').
    { unfold counting in Hc. destruct (counter st) as [[n [ex|]]|]; [by apply Z.ltb_ge|done..]. }
    specialize (IH t st'). unfold counting, allowance in *. rewrite Ec' in IH. pose proof WINDOW_pos. rewrite (proj2 (Z.ltb_lt t (t + WINDOW))) in IH by lia.
    specialize (IH ltac:(lia) Hs' Hb). rewrite bool_decide_true by done. pose proof (windows_step t b Htb).
    assert (limit * windows t b ≤ match counter st with Some (n, Some ex) => if a <? ex then Z.max 0 (limit - n) + limit * windows ex b else limit * windows a b
      | _ => limit * windows a b end) as Hw.
    { pose proof (windows_le a t b Hat). destruct (counter st) as [[n [ex|]]|]; [|nia..]. apply Z.ltb_ge in Hl. pose proof (windows_le ex t b Hl). destruct (a <? ex); nia. }
    nia.
Qed.
End throttle.

(** Throttled to its rate. While its counter works, a throttle of [limit] calls a minute lets at
    most [limit] calls through for every window of a minute that begins in the span of the calls: for
    calls from [a] to [b] at most [limit * ((b - a) / 60s + 1)]. *)
Theorem throttle_bounds_calls strict tenant o limit times a b st :
  limit_per_minute o = Some limit → 0 < limit → dget (counter_key tenant o) (counters st) = None →
  StronglySorted Z.le (a :: times) → Forall (λ t, t ≤ b) times → a ≤ b →
  let_through strict tenant o times st ≤ limit * ((b - a) / WINDOW + 1).
Proof.
  intros Hl Hp Hst Hs Hb Hab. etransitivity; [apply (let_through_bound strict tenant o limit Hl Hp times a b)|]; try done.
  - unfold counting, counter. by rewrite Hst.
  - unfold allowance, counter, windows. rewrite Hst, (proj2 (Z.ltb_ge b a) Hab). done.
Qed.

Lemma throttle_bounds_calls_witness :
  let_through true tenant {| id := "o2"; target_kind := "tool_pipeline"; target_id := EmptyString; mode := "throttle"; limit_per_minute := Some 2; reason := "load" |}
    [0; SECOND; 2 * SECOND; 61 * SECOND] no_counters ≤ 2 * ((61 * SECOND - 0) / WINDOW + 1).
Proof.
  apply throttle_bounds_calls; [reflexivity|reflexivity|reflexivity| | |vm_compute; discriminate].
  - repeat constructor; vm_compute; discriminate.
  - repeat constructor; vm_compute; discriminate.
Defined.

(** A counter whose expiry could not be set never starts a new window: once it has counted [limit]
    calls, it blocks every later one, however long after. *)
Theorem lost_expiry_blocks_for_ever tenant o limit t0 st times now :
  limit_per_minute o = Some limit → 0 < limit → dget (counter_key tenant o) (counters st) = None → limit ≤ Z.of_nat (length times) + 1 →
  let first := snd (_throttled true (Connected true false) tenant o t0 st) in
  let later := foldl (λ st t, snd (_throttled true (Connected true true) tenant o t st)) first times in
  fst (_throttled true (Connected true true) tenant o now later) = Ok true.
Proof.
  intros Hl Hp Hst Hn first later.
  assert (∀ times st n, counter tenant o st = Some (n, None) → 1 ≤ n →
    counter tenant o (foldl (λ st t, snd (_throttled true (Connected true true) tenant o t st)) st times) = Some (n + Z.of_nat (length times), None)) as Hfold.
  { clear -Hl Hp. induction times as [|t times IH]; intros st n Hc Hn; cbn [foldl length]; [by rewrite Z.add_0_r|].
    destruct (throttled_live true tenant o limit Hl Hp t st n None Hc I Hn) as (st' & -> & Hc'). cbn [snd]. rewrite (IH st' (n + 1)) by (done || lia). do 2 f_equal. lia. }
  destruct (throttled_new true tenant o limit Hl Hp t0 st false) as (r & st' & E & Hnew); [unfold counter; by rewrite Hst|].
  destruct (Hnew eq_refl) as [_ Hc]. pose proof (Hfold times st' 1 Hc ltac:(lia)) as Hlater.
  unfold later, first. rewrite E. cbn [snd]. destruct (throttled_live true tenant o limit Hl Hp now _ _ None Hlater I ltac:(lia)) as (st'' & -> & _).
  cbn. f_equal. apply Z.ltb_lt. lia.
Qed.
