(* ===== verification/ToolGateway.v ===== *)
(** The gateway of tool calls: [ToolGateway.execute] of src/core/tool_gateway/gateway.py with the
    idempotency store of src/core/tool_gateway/idempotency.py, and the path of remote MCP tools through
    [execute_agent_tool] of src/core/langgraph/tool_adapter.py and [execute] of src/core/remote_mcp.py.

    A call is a [prog]: a tree of questions to other components (the operator override, the
    action policy, the grant checks, the rate limiter, the tool registry, the connectors, the
    audit log, whose entries are abbreviated), of Redis commands and of the dispatch of the tool. Any of them may raise;
    their answers are arbitrary. The scope check of legacy callers is [Scopes.check_scope]. *)

From Stdlib Require Import Ascii.
From S2P Require Import Prelude PyVal PyText GrantEnforcement Scopes.

Local Open Scope Z_scope.

(** * Programs *)

Inductive question : Type → Type :=
| Restore_arguments (params : pyval) : question (string + pyval)
| Pseudonymise (v : pyval) : question pyval
| Check_operator_override : question (option pyval)
| Authorized_descriptor : question (option pyval)
| Evaluate_action : question (bool * bool * string * pyval)
| Check_run_grant : question (option (string * pyval))
| Enforce_connector_grant (token : string) : question (bool * string)
| Rate_limit : question (bool * pyval)
| Screen_call (params : pyval) : question (option (option pyval))
| Resolve_connector : question bool
| Tool_authorized : question bool
| Guard_action (params : pyval) : question (option pyval)
| Remote_descriptor : question (string + bool)
| Evaluate_remote (reads : bool) : question (string + (bool * pyval))
| Remote_credentials : question (string + unit)
| Remote_rate_limit : question (string + (bool * pyval))
| Remote_audit : question (string + unit)
| Remote_handled (e : string) : question (option string)
| Enveloped (r : result string pyval) : question pyval
| Mask_pii (v : pyval) : question pyval
| Hashes (params result : pyval) : question (string * string)
| Audit_log (act outcome : string) (details : list (string * pyval)) : question unit.

Inductive redis_op : Type → Type :=
| SetNx (key : string) (v : pyval) (ex : Z) : redis_op bool
| Get (key : string) : redis_op (option pyval)
| Del (key : string) : redis_op unit
| SetEx (key : string) (ex : Z) (v : pyval) : redis_op unit.

(** [Dispatch] runs the tool; [key] is the idempotency key the call has reserved. *)
Inductive prog (A : Type) : Type :=
| Ret (a : A)
| Raise (e : string)
| Ask {X : Type} (q : question X) (k : result string X → prog A)
| Redis {X : Type} (op : redis_op X) (k : result string X → prog A)
| Dispatch (key : option string) (tool : string) (params : pyval) (k : result string pyval → prog A).
Arguments Ret {A} a.
Arguments Raise {A} e.
Arguments Ask {A X} q k.
Arguments Redis {A X} op k.
Arguments Dispatch {A} key tool params k.

(** An exception that nothing catches *)
Definition ask {A X} (q : question X) (k : X → prog A) : prog A := Ask q (λ r, match r with Ok x => k x | Err e => Raise e end).
Definition redis {A X} (op : redis_op X) (k : X → prog A) : prog A := Redis op (λ r, match r with Ok x => k x | Err e => Raise e end).

Declare Scope gateway_scope.
Delimit Scope gateway_scope with gateway.
Notation "x ⇐ q ; k" := (ask q (λ x, k)) (at level 20, q at level 100, k at level 200, right associativity) : gateway_scope.
Local Open Scope gateway_scope.

(** * The idempotency store *)

Definition IDEMPOTENCY_TTL : Z := 86400.
Definition RESERVATION_TTL : Z := 300.
Definition PENDING_MARKER : pyval := VMap [("__idempotency_pending__", VBool true)].

Definition _key (tenant key : string) : string := "idempotency:" +:+ tenant +:+ ":" +:+ key.

Definition is_pending (v : pyval) : bool := match v with VMap kvs => truthy (get_val kvs "__idempotency_pending__") | _ => false end.

(** [(acquired, cached)] *)
Definition reserve {A} (tenant key : string) (k : bool * option pyval → prog A) : prog A :=
  redis (SetNx (_key tenant key) PENDING_MARKER RESERVATION_TTL) (λ acquired,
    if acquired : bool then k (true, None)
    else redis (Get (_key tenant key)) (λ data,
      match data with
      | None => k (false, None)
      | Some cached => if is_pending cached then k (false, None) else k (false, match cached with VNone => None | v => Some v end)
      end)).

(** * The gateway *)

Record Gateway := {
  rate_limiter : bool;
  idempotency : bool;
  audit : bool;
  strict_env : bool;
}.

Record call := {
  c_tenant_id : string;
  c_agent_scopes : list string;
  c_connector : string;
  c_tool : string;
  c_params : pyval;
  c_idempotency_key : option string;
  c_amount : option pyval;
  c_effective_token : option string;
  c_company_id : option string;
  c_domain : bool;
  c_run_grant : option EnforcementMode;
  c_pseudonymiser : bool;
}.

Inductive answer :=
| Error (code message : string) (extra : list (string * pyval))
| Refusal (v : pyval)
| Value (v : pyval).

(** [tool_name.split("_", 1)[-1]] *)
Fixpoint after_underscore (l : list ascii) : option (list ascii) :=
  match l with [] => None | c :: l' => if Ascii.eqb c "_" then Some l' else after_underscore l' end.
Definition resource_of (tool : string) : string := of_chars (default (chars tool) (after_underscore (chars tool))).

Definition WRITE_WORDS : list string := ["create"; "post"; "update"; "delete"; "send"; "file"; "initiate"; "queue"].

(** The permission the legacy check asks for; [governed] is the verdict of the action policy on whether the action only reads. *)
Definition permission_of (governed : option bool) (tool : string) : string :=
  match governed with
  | Some reads => if reads then "read" else "write"
  | None => if existsb (λ w, contains_text w tool) WRITE_WORDS then "write" else "read"
  end.

Definition scoped_key (c : call) : option string :=
  match c_idempotency_key c with
  | Some k => if String.eqb k EmptyString then None
              else Some ((match c_company_id c with Some co => if String.eqb co EmptyString then "_global" else co | None => "_global" end) +:+ ":" +:+ k)
  | None => None
  end.

Definition grant_enforced (c : call) : bool := match c_run_grant c with Some WARN | Some DENY => true | _ => false end.

Section gateway.
(** [json.loads(json.dumps(result, default=str))] *)
Context (json_copy : pyval → pyval).
Context (g : Gateway).

(** [if self.audit: await self.audit.log(...)] *)
Definition audited (act outcome : string) (details : list (string * pyval)) (k : prog answer) : prog answer :=
  if audit g then _ ⇐ Audit_log act outcome details ; k else k.

(** The reservation a call made, to be dropped or replaced by its result *)
Definition release (reserved : option string) (k : prog answer) : prog answer :=
  match reserved with Some key => redis (Del key) (λ _, k) | None => k end.

(** The handler of whatever is raised once the tool is called *)
Definition failed_call (reserved : option string) (e : string) : prog answer :=
  release reserved (audited "execute" "error" [("error", VStr e)] (Ret (Error "E1001" e []))).

(** [mask_pii(v) if isinstance(v, dict) else v], inside the [try] *)
Definition masked (reserved : option string) (v : pyval) (k : pyval → prog answer) : prog answer :=
  match v with
  | VMap _ => Ask (Mask_pii v) (λ r, match r with Err e => failed_call reserved e | Ok w => k w end)
  | _ => k v
  end.

(** Once the tool has run, its result kept: the audit entry and the answer *)
Definition succeeded (reserved : option string) (res masked_params masked_result : pyval) : prog answer :=
  if audit g then
    Ask (Hashes masked_params masked_result) (λ r, match r with
    | Err e => failed_call reserved e
    | Ok (input_hash, output_hash) =>
        Ask (Audit_log "execute" "success" [("input_hash", VStr input_hash); ("output_hash", VStr output_hash)]) (λ r,
          match r with Err e => failed_call reserved e | Ok _ => Ret (Value res) end)
    end)
  else Ret (Value res).

Definition is_error (res : pyval) : bool := match res with VMap kvs => truthy (get_val kvs "error") | _ => false end.

(** From the dispatch on: [reserved] is the Redis key of the reservation. *)
Definition dispatch (reserved : option string) (tool : string) (params : pyval) : prog answer :=
  Dispatch reserved tool params (λ r, match r with
  | Err e => failed_call reserved e
  | Ok res =>
      masked reserved params (λ masked_params,
      masked reserved res (λ masked_result,
        match reserved with
        | None => succeeded reserved res masked_params masked_result
        | Some key =>
            let keep (r : result string unit) :=
              match r with Err e => failed_call reserved e | Ok _ => succeeded reserved res masked_params masked_result end in
            if is_error res then Redis (Del key) keep else Redis (SetEx key IDEMPOTENCY_TTL (json_copy res)) keep
        end))
  end).

(** From the registry screen on *)
Definition resolve_and_dispatch (c : call) (reserved : option string) (params : pyval) : prog answer :=
  screened ⇐ Screen_call params ;
  match screened with
  | Some (Some refusal) => release reserved (audited "input_rejected" "blocked" [] (Ret (Refusal refusal)))
  | _ =>
      found ⇐ Resolve_connector ;
      if found : bool then dispatch reserved (c_tool c) params
      else release reserved (Ret (Error "E1005" ("Connector not found: " +:+ c_connector c) []))
  end.

(** From the reservation of the idempotency key on *)
Definition keyed (c : call) (params : pyval) : prog answer :=
  match scoped_key c with
  | Some key =>
      if idempotency g then
        reserve (c_tenant_id c) key (λ r, match r with
        | (_, Some cached) => Ret (Value cached)
        | (true, None) => resolve_and_dispatch c (Some (_key (c_tenant_id c) key)) params
        | (false, None) => Ret (Error "E1009" "idempotent_request_in_progress: a call with this key is already executing" [])
        end)
      else resolve_and_dispatch c None params
  | None => resolve_and_dispatch c None params
  end.

(** From the rate limit on *)
Definition limited (c : call) (params : pyval) : prog answer :=
  if rate_limiter g then
    verdict ⇐ Rate_limit ;
    if fst verdict : bool then keyed c params
    else Ret (Error "E1003" "Rate limit exceeded" [("retry_after_seconds", snd verdict)])
  else keyed c params.

Definition scope_denied (act code reason : string) : prog answer :=
  audited act "blocked" [("reason", VStr reason)] (Ret (Error code (act +:+ ": " +:+ reason) [])).

(** The grant of the token, or the scopes of a legacy caller; a caller with neither is refused. *)
Definition authorised (c : call) (governed : option bool) (params : pyval) : prog answer :=
  if given (c_effective_token c) then
    verdict ⇐ Enforce_connector_grant (default EmptyString (c_effective_token c)) ;
    let (ok, reason) := verdict in
    if ok : bool then limited c params else scope_denied "scope_denied" "E1007" reason
  else match c_agent_scopes c with
  | [] => scope_denied "scope_denied" "E1007" "missing_grant_and_legacy_scopes"
  | scopes =>
      let (ok, reason) := check_scope scopes (c_connector c) (permission_of governed (c_tool c)) (resource_of (c_tool c)) (c_amount c) in
      if ok : bool then limited c params
      else if contains_text "cap_exceeded" reason then scope_denied "cap_exceeded" "E1008" reason
      else scope_denied "scope_denied" "E1007" reason
  end.

Definition granted (c : call) (governed : option bool) (params : pyval) : prog answer :=
  if grant_enforced c then
    denial ⇐ Check_run_grant ;
    match denial with
    | Some (reason, details) =>
        audited "scope_denied" "blocked" [("reason", VStr ("grant_denied: " +:+ reason)); ("details", details)]
          (Ret (Error "E1007" ("grant_denied: " +:+ reason) [("details", details)]))
    | None => authorised c governed params
    end
  else authorised c governed params.

(** ** Remote MCP tools *)

Definition unavailable (message : string) : pyval := VMap [("error", VStr "remote_mcp_unavailable"); ("message", VStr message)].

(** A question inside the [try] of [remote_mcp.execute]: [inl] when what it raised is caught there *)
Definition caught {X} (q : question (string + X)) (k : result string pyval → prog answer) (f : X → prog answer) : prog answer :=
  Ask q (λ r, match r with Err e => k (Err e) | Ok (inl message) => k (Ok (unavailable message)) | Ok (inr x) => f x end).

(** [remote_mcp.execute]: [Remote_descriptor] reloads the descriptor, whether it is a reviewed read, and the company of the agent *)
Definition remote_execute (c : call) (params : pyval) (k : result string pyval → prog answer) : prog answer :=
  caught Remote_descriptor k (λ reads,
  caught (Evaluate_remote reads) k (λ decision,
    if fst decision : bool then
      caught Remote_credentials k (λ _,
      caught Remote_rate_limit k (λ admitted,
        if fst admitted : bool then
          Dispatch None (c_tool c) params (λ r, match r with
          | Err e => Ask (Remote_handled e) (λ h, match h with Ok (Some message) => k (Ok (unavailable message)) | _ => k (Err e) end)
          | Ok res => caught Remote_audit k (λ _, k (Ok res))
          end)
        else k (Ok (VMap [("error", VStr "rate_limited"); ("retry_after_seconds", snd admitted)]))))
    else k (Ok (VMap [("error", VStr "action_contained"); ("governance", snd decision)])))).

(** [_dispatch_connector_tool]; [fin] takes what [execute_agent_tool] returns. A registered tool runs under its envelope. *)
Definition adapter_dispatch (c : call) (params : pyval) (fin : pyval → prog answer) : prog answer :=
  blocked ⇐ Check_operator_override ;
  match blocked with
  | Some error => _ ⇐ Audit_log "operator_override" "blocked" [("error", error)] ; fin (VMap [("error", VStr "operator_override"); ("override", error)])
  | None =>
      stopped ⇐ Guard_action params ;
      match stopped with
      | Some error => fin (VMap [("error", VStr "guardrail_blocked"); ("guardrail", error)])
      | None =>
          screened ⇐ Screen_call params ;
          match screened with
          | Some (Some refusal) => _ ⇐ Audit_log "input_rejected" "blocked" [] ; fin refusal
          | Some None => remote_execute c params (λ r, v ⇐ Enveloped r ; fin v)
          | None => remote_execute c params (λ r, match r with Ok v => fin v | Err e => Raise e end)
          end
      end
  end.

Definition scope_error (code message : string) : pyval := VMap [("error", VMap [("code", VStr code); ("message", VStr message)])].

(** [execute_agent_tool] for a remote tool *)
Definition execute_agent_tool (c : call) (params : pyval) (fin : pyval → prog answer) : prog answer :=
  let scoped := if negb (given (c_company_id c)) && strict_env g then fin (scope_error "E1010" "company_scope_required: tool calls need a company-scoped agent in this runtime")
                else adapter_dispatch c params fin in
  listed ⇐ Tool_authorized ;
  if listed : bool then
    if grant_enforced c then
      denial ⇐ Check_run_grant ;
      match denial with
      | Some (reason, details) => fin (scope_error "E1007" ("grant_denied: " +:+ reason))
      | None => scoped
      end
    else if given (c_effective_token c) then
      verdict ⇐ Enforce_connector_grant (default EmptyString (c_effective_token c)) ;
      if fst verdict : bool then scoped else fin (scope_error "E1007" ("scope_denied: " +:+ snd verdict))
    else scoped
  else fin (scope_error "E1007" ("scope_denied: " +:+ c_connector c +:+ "." +:+ c_tool c +:+ " is not in the agent's authorized_tools")).

Definition remote (c : call) (params : pyval) : prog answer :=
  descriptor ⇐ Authorized_descriptor ;
  match descriptor with
  | None => Ret (Error "E1007" "MCP tool is not available to this agent" [])
  | Some tools =>
      let run := execute_agent_tool c params (λ res,
        if c_pseudonymiser c then v ⇐ Pseudonymise res ; Ret (Value v) else v ⇐ Mask_pii res ; Ret (Value v)) in
      if given (c_effective_token c) || grant_enforced c then run
      else if fst (check_scope (c_agent_scopes c) (c_connector c) "write" (c_tool c) (c_amount c)) then run
      else Ret (Error "E1007" "MCP tool scope is missing" [])
  end.

Definition governed (c : call) (params : pyval) : prog answer :=
  if strict_env g || bool_decide (is_Some (c_company_id c)) || c_domain c then
    verdict ⇐ Evaluate_action ;
    let '(ok, reads, reason, details) := verdict in
    if ok : bool then granted c (Some reads) params
    else audited "action_contained" "blocked" [("details", details)]
           (Ret (Error "E1011" ("action_contained: " +:+ reason) [("governance", details)]))
  else granted c None params.

Definition checked (c : call) (params : pyval) : prog answer :=
  blocked ⇐ Check_operator_override ;
  match blocked with
  | Some error => audited "operator_override" "blocked" [("error", error)] (Ret (Refusal error))
  | None => if starts_with "mcp_" (c_connector c) then remote c params else governed c params
  end.

(** [ToolGateway.execute] *)
Definition execute (c : call) : prog answer :=
  if c_pseudonymiser c then
    restored ⇐ Restore_arguments (c_params c) ;
    match restored with
    | inl reason => audited "pseudonym_restore_failed" "blocked" [("reason", VStr reason)] (Ret (Refusal (VStr reason)))
    | inr params => checked c params
    end
  else checked c (c_params c).
End gateway.

(** * What comes before a dispatch *)

Inductive obs : Type :=
| Asked {X : Type} (q : question X) (a : result string X)
| Commanded {X : Type} (op : redis_op X) (a : result string X).

Fixpoint quiet {A} (p : prog A) : Prop :=
  match p with
  | Ret _ | Raise _ => True
  | Ask _ k => ∀ a, quiet (k a)
  | Redis _ k => ∀ a, quiet (k a)
  | Dispatch _ _ _ _ => False
  end.

(** Every dispatch comes after a trace for which [P] holds, and is the only one. *)
Fixpoint guarded {A} (P : list obs → option string → Prop) (tr : list obs) (p : prog A) : Prop :=
  match p with
  | Ret _ | Raise _ => True
  | Ask q k => ∀ a, guarded P (tr ++ [Asked q a]) (k a)
  | Redis op k => ∀ a, guarded P (tr ++ [Commanded op a]) (k a)
  | Dispatch key _ _ k => P tr key ∧ ∀ a, quiet (k a)
  end.

Lemma quiet_guarded {A} P tr (p : prog A) : quiet p → guarded P tr p.
Proof. revert tr. induction p; cbn; intros tr Hq; try done; intros a; auto. Qed.

Lemma guarded_ask {A X} P tr (q : question X) (k : X → prog A) :
  (∀ x, guarded P (tr ++ [Asked q (Ok x)]) (k x)) → guarded P tr (ask q k).
Proof. intros Hk [x|e]; [apply Hk|done]. Qed.

Section guards.
Context (json_copy : pyval → pyval) (g : Gateway) (c : call).

Lemma quiet_audited act outcome details p : quiet p → quiet (audited g act outcome details p).
Proof. intros Hp. unfold audited. destruct (audit g); [|done]. by intros []. Qed.

Lemma quiet_release reserved p : quiet p → quiet (release reserved p).
Proof. intros Hp. destruct reserved; [|done]. by intros []. Qed.

Lemma quiet_failed reserved e : quiet (failed_call g reserved e).
Proof. apply quiet_release, quiet_audited. done. Qed.

Lemma quiet_masked reserved v k : (∀ w, quiet (k w)) → quiet (masked g reserved v k).
Proof. intros Hk. destruct v; cbn; try done. intros []; [done|apply quiet_failed]. Qed.

Lemma quiet_succeeded reserved res p r : quiet (succeeded g reserved res p r).
Proof.
  unfold succeeded. destruct (audit g); [|done]. intros [[ih oh]|]; [|apply quiet_failed]. intros []; [done|apply quiet_failed].
Qed.

Lemma guarded_dispatch P tr reserved tool params : P tr reserved → guarded P tr (dispatch json_copy g reserved tool params).
Proof.
  intros HP. split; [done|]. intros [res|e]; [|apply quiet_failed].
  apply quiet_masked. intros mp. apply quiet_masked. intros mr. destruct reserved as [key|]; [|apply quiet_succeeded].
  destruct (is_error res); intros []; (apply quiet_succeeded || apply quiet_failed).
Qed.

Lemma guarded_resolve P tr reserved params :
  (∀ screened, (∀ refusal, screened ≠ Some (Some refusal)) → P (tr ++ [Asked (Screen_call params) (Ok screened)] ++ [Asked Resolve_connector (Ok true)]) reserved) →
  guarded P tr (resolve_and_dispatch json_copy g c reserved params).
Proof.
  intros HP. apply guarded_ask. intros screened. specialize (HP screened). rewrite app_assoc in HP.
  destruct screened as [[refusal|]|]; [by apply quiet_guarded, quiet_release, quiet_audited| |];
    (apply guarded_ask; intros []; [by apply guarded_dispatch, HP|by apply quiet_guarded, quiet_release]).
Qed.

(** ** The checks, as answers on the trace *)

Definition needs_governance : bool := strict_env g || bool_decide (is_Some (c_company_id c)) || c_domain c.

Definition policy_allowed (tr : list obs) : Prop :=
  needs_governance = true → ∃ reads reason details, Asked Evaluate_action (Ok (true, reads, reason, details)) ∈ tr.

Definition run_grant_allowed (tr : list obs) : Prop := grant_enforced c = true → Asked Check_run_grant (Ok None) ∈ tr.

(** The permission a legacy caller needs: what the action policy says of the action, or what the name of the tool says where no policy applies *)
Definition permission_needed (tr : list obs) (permission : string) : Prop :=
  if needs_governance then ∃ reads reason details, Asked Evaluate_action (Ok (true, reads, reason, details)) ∈ tr ∧ permission = (if reads : bool then "read" else "write")
  else permission = if existsb (λ w, contains_text w (c_tool c)) WRITE_WORDS then "write" else "read".

(** The grant of the token, or a scope of the caller that covers the tool with the permission it needs *)
Definition caller_authorised (tr : list obs) : Prop :=
  if given (c_effective_token c) then
    ∃ reason, Asked (Enforce_connector_grant (default EmptyString (c_effective_token c))) (Ok (true, reason)) ∈ tr
  else ∃ permission, permission_needed tr permission ∧
    fst (check_scope (c_agent_scopes c) (c_connector c) permission (resource_of (c_tool c)) (c_amount c)) = true.

(** The tool registry was asked and did not refuse the input. *)
Definition input_accepted (tr : list obs) : Prop := ∃ params screened, Asked (Screen_call params) (Ok screened) ∈ tr ∧ ∀ refusal, screened ≠ Some (Some refusal).

Definition within_rate (tr : list obs) : Prop := rate_limiter g = true → ∃ v, Asked Rate_limit (Ok (true, v)) ∈ tr.

(** The call holds the reservation of its key. *)
Definition key_reserved (tr : list obs) (reserved : option string) : Prop :=
  reserved = (if idempotency g then _key (c_tenant_id c) <$> scoped_key c else None) ∧
  ∀ key, reserved = Some key → Commanded (SetNx key PENDING_MARKER RESERVATION_TTL) (Ok true) ∈ tr.

(** For a remote tool: the agent may use it, by the run's grant, else the token's, else a scope; the company is known in a strict runtime; guardrails and
    the registry let the input through; the action policy allows it as the read or write its reloaded descriptor says it is; and the rate limiter. *)
Record remote_authorised (tr : list obs) : Prop := {
  remote_linked : ∃ tools, Asked Authorized_descriptor (Ok (Some tools)) ∈ tr;
  remote_listed : Asked Tool_authorized (Ok true) ∈ tr;
  remote_granted : if grant_enforced c then Asked Check_run_grant (Ok None) ∈ tr
    else if given (c_effective_token c) then ∃ reason, Asked (Enforce_connector_grant (default EmptyString (c_effective_token c))) (Ok (true, reason)) ∈ tr
    else fst (check_scope (c_agent_scopes c) (c_connector c) "write" (c_tool c) (c_amount c)) = true;
  remote_company : strict_env g = true → given (c_company_id c) = true;
  remote_guarded : ∃ params, Asked (Guard_action params) (Ok None) ∈ tr;
  remote_screened : input_accepted tr;
  remote_allowed : ∃ reads details, Asked Remote_descriptor (Ok (inr reads)) ∈ tr ∧ Asked (Evaluate_remote reads) (Ok (inr (true, details))) ∈ tr;
  remote_limited : ∃ v, Asked Remote_rate_limit (Ok (inr (true, v))) ∈ tr;
}.

(** What must have been answered before the tool runs *)
Definition cleared (tr : list obs) (reserved : option string) : Prop :=
  Asked Check_operator_override (Ok None) ∈ tr ∧
  if starts_with "mcp_" (c_connector c) then remote_authorised tr
  else policy_allowed tr ∧ run_grant_allowed tr ∧ caller_authorised tr ∧ within_rate tr ∧ key_reserved tr reserved ∧ input_accepted tr ∧
       Asked Resolve_connector (Ok true) ∈ tr.

Lemma seen_later {X} (q : question X) a tr tr' : Asked q a ∈ tr → Asked q a ∈ tr ++ tr'.
Proof. intros. apply elem_of_app. by left. Qed.

Lemma seen_now {X} (q : question X) a tr : Asked q a ∈ tr ++ [Asked q a].
Proof. apply elem_of_app. right. by apply list_elem_of_singleton. Qed.

(** The checks before the rate limit *)
Definition prior (tr : list obs) : Prop :=
  Asked Check_operator_override (Ok None) ∈ tr ∧ policy_allowed tr ∧ run_grant_allowed tr.

Lemma prior_later tr tr' : prior tr → prior (tr ++ tr').
Proof.
  intros (Ho & Hp & Hr). split; [by apply seen_later|]. split; [|intros He; by apply seen_later, Hr].
  intros He. destruct (Hp He) as (reads & reason & details & Hin). exists reads, reason, details. by apply seen_later.
Qed.

Lemma permission_later tr tr' permission : permission_needed tr permission → permission_needed (tr ++ tr') permission.
Proof.
  unfold permission_needed. destruct needs_governance; [|done]. intros (reads & reason & details & Hin & E). exists reads, reason, details. split; [by apply seen_later|done].
Qed.

Lemma authorised_later tr tr' : caller_authorised tr → caller_authorised (tr ++ tr').
Proof.
  unfold caller_authorised. destruct (given _); [intros [reason Hin]; exists reason; by apply seen_later|].
  intros (permission & Hp & Hc). exists permission. split; [by apply permission_later|done].
Qed.

Lemma within_rate_later tr tr' : within_rate tr → within_rate (tr ++ tr').
Proof. intros Hr He. destruct (Hr He) as [v Hin]. exists v. by apply seen_later. Qed.

Lemma guarded_cleared tr reserved params :
  starts_with "mcp_" (c_connector c) = false → prior tr → caller_authorised tr → within_rate tr → key_reserved tr reserved →
  guarded cleared tr (resolve_and_dispatch json_copy g c reserved params).
Proof.
  intros Hm Hp Ha Hr Hk. apply guarded_resolve. intros screened Hs. rewrite app_assoc.
  set (tr1 := tr ++ _). set (tr2 := tr1 ++ _).
  assert (prior tr2) as (Ho2 & Hp2 & Hg2) by by do 2 apply prior_later. split; [done|]. rewrite Hm.
  repeat split; try done.
  - by do 2 apply authorised_later.
  - by do 2 apply within_rate_later.
  - apply Hk.
  - intros key Hkey. do 2 (apply elem_of_app; left). by apply Hk.
  - exists params, screened. split; [apply seen_later, seen_now|done].
  - apply seen_now.
Qed.

Lemma guarded_keyed tr params :
  starts_with "mcp_" (c_connector c) = false → prior tr → caller_authorised tr → within_rate tr →
  guarded cleared tr (keyed json_copy g c params).
Proof.
  intros Hm Hp Ha Hr. unfold keyed. destruct (scoped_key c) as [key|] eqn:Hkey; [destruct (idempotency g) eqn:Hi|].
  - intros [[]|e]; [| |done].
    + apply guarded_cleared; [done|by apply prior_later|by apply authorised_later|by apply within_rate_later|].
      split; [by rewrite Hi, Hkey|]. intros k [= <-]. apply elem_of_app. right. by apply list_elem_of_singleton.
    + intros [[cached|]|e]; [|done..]. destruct (is_pending cached); [done|]. by destruct cached.
  - apply guarded_cleared; try done. split; [by rewrite Hi|done].
  - apply guarded_cleared; try done. split; [|done]. rewrite Hkey. by destruct (idempotency g).
Qed.

Lemma guarded_limited tr params :
  starts_with "mcp_" (c_connector c) = false → prior tr → caller_authorised tr → guarded cleared tr (limited json_copy g c params).
Proof.
  intros Hm Hp Ha. unfold limited. destruct (rate_limiter g) eqn:Hr; [|by apply guarded_keyed; [..|intros ?; congruence]].
  apply guarded_ask. intros [ok v]. cbn. destruct ok; [|done].
  apply guarded_keyed; [done|by apply prior_later|by apply authorised_later|]. intros _. exists v. apply seen_now.
Qed.

Lemma guarded_authorised tr governed params :
  starts_with "mcp_" (c_connector c) = false → prior tr → permission_needed tr (permission_of governed (c_tool c)) →
  guarded cleared tr (authorised json_copy g c governed params).
Proof.
  intros Hm Hp Hperm. unfold authorised. destruct (given (c_effective_token c)) eqn:Ht.
  - apply guarded_ask. intros [ok reason]. destruct ok; [|by apply quiet_guarded, quiet_audited].
    apply guarded_limited; [done|by apply prior_later|]. unfold caller_authorised. rewrite Ht. exists reason. apply seen_now.
  - destruct (c_agent_scopes c) as [|s l] eqn:Hs; [by apply quiet_guarded, quiet_audited|]. rewrite <- Hs.
    destruct (check_scope _ _ _ _ _) as [ok reason] eqn:Hc. destruct ok.
    + apply guarded_limited; [done|done|]. unfold caller_authorised. rewrite Ht. exists (permission_of governed (c_tool c)). split; [done|by rewrite Hc].
    + destruct (contains_text _ _); by apply quiet_guarded, quiet_audited.
Qed.

Lemma guarded_governed tr params :
  starts_with "mcp_" (c_connector c) = false → Asked Check_operator_override (Ok None) ∈ tr →
  guarded cleared tr (governed json_copy g c params).
Proof.
  intros Hm Ho. assert (∀ tr gov, Asked Check_operator_override (Ok None) ∈ tr → policy_allowed tr → permission_needed tr (permission_of gov (c_tool c)) →
    guarded cleared tr (granted json_copy g c gov params)) as Hgranted.
  { clear tr Ho. intros tr gov Ho Hp Hperm. unfold granted. destruct (grant_enforced c) eqn:Hg.
    - apply guarded_ask. intros [[reason details]|]; [by apply quiet_guarded, quiet_audited|].
      apply guarded_authorised; [done| |by apply permission_later]. split; [by apply seen_later|]. split; [|intros _; apply seen_now].
      intros He. destruct (Hp He) as (reads & r & d & Hin). exists reads, r, d. by apply seen_later.
    - apply guarded_authorised; [done| |done]. split; [done|]. split; [done|]. intros ?; congruence. }
  unfold governed. fold needs_governance. destruct needs_governance eqn:Hn.
  - apply guarded_ask. intros [[[ok reads] reason] details]. destruct ok; [|by apply quiet_guarded, quiet_audited].
    apply Hgranted; [by apply seen_later| |].
    + intros _. exists reads, reason, details. apply seen_now.
    + unfold permission_needed. rewrite Hn. exists reads, reason, details. split; [apply seen_now|done].
  - apply Hgranted; [done| |]; [intros ?; congruence|]. unfold permission_needed. by rewrite Hn.
Qed.

Lemma guarded_caught {X} P tr (q : question (string + X)) k f :
  (∀ x, guarded P (tr ++ [Asked q (Ok (inr x))]) (f x)) → (∀ r, quiet (k r)) → guarded P tr (caught q k f).
Proof. intros Hf Hk [[message|x]|e]; [by apply quiet_guarded|apply Hf|by apply quiet_guarded]. Qed.

Lemma quiet_ask {A X} (q : question X) (k : X → prog A) : (∀ x, quiet (k x)) → quiet (ask q k).
Proof. intros Hk [x|e]; [apply Hk|done]. Qed.

(** What holds of a remote call when its guardrails are asked *)
Definition remote_prior (tr : list obs) : Prop :=
  Asked Check_operator_override (Ok None) ∈ tr ∧ (∃ tools, Asked Authorized_descriptor (Ok (Some tools)) ∈ tr) ∧ Asked Tool_authorized (Ok true) ∈ tr ∧
  (if grant_enforced c then Asked Check_run_grant (Ok None) ∈ tr
   else if given (c_effective_token c) then ∃ reason, Asked (Enforce_connector_grant (default EmptyString (c_effective_token c))) (Ok (true, reason)) ∈ tr
   else fst (check_scope (c_agent_scopes c) (c_connector c) "write" (c_tool c) (c_amount c)) = true) ∧
  (strict_env g = true → given (c_company_id c) = true).

Lemma remote_prior_later tr tr' : remote_prior tr → remote_prior (tr ++ tr').
Proof.
  intros (Ho & [tools Hd] & Ht & Hg & Hc). split; [by apply seen_later|]. split; [exists tools; by apply seen_later|]. split; [by apply seen_later|]. split; [|done].
  revert Hg. destruct (grant_enforced c); [apply seen_later|]. destruct (given (c_effective_token c)); [|done]. intros [reason Hg]. exists reason. by apply seen_later.
Qed.

Lemma guarded_remote_execute tr params0 params k :
  starts_with "mcp_" (c_connector c) = true → remote_prior tr → Asked (Guard_action params0) (Ok None) ∈ tr → input_accepted tr → (∀ r, quiet (k r)) →
  guarded cleared tr (remote_execute c params k).
Proof.
  intros Hm Hp Hg (ps & scr & Hs & Hscr) Hk. apply guarded_caught; [intros reads|done]. apply guarded_caught; [intros [ok details]|done]. cbn [fst snd].
  destruct ok; [|by apply quiet_guarded]. apply guarded_caught; [intros []|done]. apply guarded_caught; [intros [admitted v]|done]. cbn [fst snd].
  destruct admitted; [|by apply quiet_guarded]. split; [|intros [res|e]; [intros [[m|[]]|e]; apply Hk|intros [[m|]|e']; apply Hk]].
  set (tr4 := ((( _ ++ _) ++ _) ++ _) ++ _). assert (remote_prior tr4) as (Ho & Hd & Ht & Hgr & Hc) by by do 4 apply remote_prior_later.
  split; [done|]. rewrite Hm. split; try done.
  - exists params0. by do 4 apply seen_later.
  - exists ps, scr. split; [by do 4 apply seen_later|done].
  - exists reads, details. split; [do 3 apply seen_later; apply seen_now|do 2 apply seen_later; apply seen_now].
  - exists v. apply seen_now.
Qed.

Lemma guarded_adapter tr params fin :
  starts_with "mcp_" (c_connector c) = true → remote_prior tr → (∀ v, quiet (fin v)) → guarded cleared tr (adapter_dispatch c params fin).
Proof.
  intros Hm Hp Hf. apply guarded_ask. intros [error|]; [apply quiet_guarded; by apply quiet_ask|].
  apply guarded_ask. intros [error|]; [by apply quiet_guarded|]. apply guarded_ask. intros screened.
  assert (∀ k, (∀ refusal, screened ≠ Some (Some refusal)) → (∀ r, quiet (k r)) → guarded cleared (((tr ++ [Asked Check_operator_override (Ok None)]) ++ [Asked (Guard_action params) (Ok None)]) ++
    [Asked (Screen_call params) (Ok screened)]) (remote_execute c params k)) as Hrun.
  { intros k Hs Hk. apply (guarded_remote_execute _ params); [done|by do 3 apply remote_prior_later|apply seen_later, seen_now| |done]. exists params, screened. split; [apply seen_now|done]. }
  destruct screened as [[refusal|]|]; [apply quiet_guarded; by apply quiet_ask|apply Hrun; [done|]|apply Hrun; [done|]].
  - intros r. by apply quiet_ask.
  - by intros [v|e].
Qed.

Lemma guarded_remote tr params :
  starts_with "mcp_" (c_connector c) = true → Asked Check_operator_override (Ok None) ∈ tr → guarded cleared tr (remote g c params).
Proof.
  intros Hm Ho. apply guarded_ask. intros [tools|]; [|done]. set (fin := λ res : pyval, _). assert (∀ v, quiet (fin v)) as Hfin by (intros v; unfold fin; destruct (c_pseudonymiser c); by intros []).
  assert ((grant_enforced c = false → given (c_effective_token c) = false → fst (check_scope (c_agent_scopes c) (c_connector c) "write" (c_tool c) (c_amount c)) = true) →
    guarded cleared (tr ++ [Asked Authorized_descriptor (Ok (Some tools))]) (execute_agent_tool g c params fin)) as Hrun.
  { intros Hscope. apply guarded_ask. intros []; [|by apply quiet_guarded]. set (tr1 := (tr ++ _) ++ _).
    assert (∀ tr', (if grant_enforced c then Asked Check_run_grant (Ok None) ∈ tr1 ++ tr'
      else if given (c_effective_token c) then ∃ reason, Asked (Enforce_connector_grant (default EmptyString (c_effective_token c))) (Ok (true, reason)) ∈ tr1 ++ tr'
      else fst (check_scope (c_agent_scopes c) (c_connector c) "write" (c_tool c) (c_amount c)) = true) →
      guarded cleared (tr1 ++ tr') (if negb (given (c_company_id c)) && strict_env g then fin (scope_error "E1010" "company_scope_required: tool calls need a company-scoped agent in this runtime")
        else adapter_dispatch c params fin)) as Hscoped.
    { intros tr' Hg. destruct (negb (given (c_company_id c)) && strict_env g) eqn:Hco; [by apply quiet_guarded|]. apply guarded_adapter; [done| |done].
      split_and!; [by do 3 apply seen_later|exists tools; do 2 apply seen_later; apply seen_now|apply seen_later, seen_now|done|].
      intros Hst. rewrite Hst, andb_true_r in Hco. by apply negb_false_iff. }
    destruct (grant_enforced c) eqn:Hge.
    - apply guarded_ask. intros [[reason details]|]; [by apply quiet_guarded|]. apply Hscoped. apply seen_now.
    - destruct (given (c_effective_token c)) eqn:Ht.
      + apply guarded_ask. intros [ok reason]. cbn [fst snd]. destruct ok; [|by apply quiet_guarded]. apply Hscoped. exists reason. apply seen_now.
      + specialize (Hscoped []). rewrite app_nil_r in Hscoped. apply Hscoped. auto. }
  destruct (given (c_effective_token c) || grant_enforced c) eqn:Hb.
  - apply Hrun. intros H1 H2. rewrite H1, H2 in Hb. done.
  - destruct (fst _) eqn:Hc; [|done]. by apply Hrun.
Qed.
End guards.

Lemma execute_cleared json_copy g c : guarded (cleared g c) [] (execute json_copy g c).
Proof.
  assert (∀ tr params, guarded (cleared g c) tr (checked json_copy g c params)) as Hchecked.
  { intros tr params. apply guarded_ask. intros [error|]; [by apply quiet_guarded, quiet_audited|].
    destruct (starts_with "mcp_" (c_connector c)) eqn:Hm; [apply guarded_remote|apply guarded_governed]; (done || apply seen_now). }
  unfold execute. destruct (c_pseudonymiser c); [|apply Hchecked]. apply guarded_ask.
  intros [reason|params]; [by apply quiet_guarded, quiet_audited|apply Hchecked].
Qed.

(** C5. The tool gateway dispatches a tool at most once per call, and only after every check the call is
    subject to: no operator override blocks it; the action policy allows it wherever a policy applies;
    the run's grant does not deny it; the token's grant, or without a token a scope of the caller with the permission the policy
    or the name of the tool asks for, covers it; the rate limiter lets it through; a call with an idempotency key holds the reservation
    of that key; the tool registry does not refuse its input. A remote MCP tool takes no reservation; it is
    subject to the override, the agent's own list, the run's grant, else the token's, else a write scope, the company in strict
    runtimes, guardrails, the registry, the action policy on its reviewed descriptor and the rate limiter. *)
Theorem tool_runs_only_when_cleared json_copy g c : guarded (cleared g c) [] (execute json_copy g c).
Proof. apply execute_cleared. Qed.
