(* ===== verification/GatewaySystem.v ===== *)
(** Tool calls that share idempotency keys: any number of calls of the gateway at a time, one
    question, Redis command or dispatch of any of them at a step, with the clock of the store.

    A Redis command that raises was not executed. In an orderly system a running call ends
    before the reservation it made expires, and nothing raises once its tool has returned. *)

From S2P Require Import Prelude PyVal PyText Scopes ToolGateway.

Local Open Scope Z_scope.

Record job := { code : prog answer; returned : bool; deadline : option Z }.

Record world := {
  clock : Z;
  store : gmap string (pyval * Z);
  jobs : list job;
  successes : list (string * Z);
}.

(** A key is there until it expires. *)
Definition lookup_live (now : Z) (st : gmap string (pyval * Z)) (key : string) : option pyval :=
  match st !! key with Some (v, ex) => if now <? ex then Some v else None | None => None end.

Definition redis_exec {X} (now : Z) (st : gmap string (pyval * Z)) (op : redis_op X) : gmap string (pyval * Z) * X :=
  match op in redis_op X return gmap string (pyval * Z) * X with
  | SetNx key v ex => match lookup_live now st key with Some _ => (st, false) | None => (<[key := (v, now + ex)]> st, true) end
  | Get key => (st, lookup_live now st key)
  | Del key => (delete key st, tt)
  | SetEx key ex v => (<[key := (v, now + ex)]> st, tt)
  end.

(** When the reservation a job made expires *)
Definition deadline_after {X} (now : Z) (op : redis_op X) (old : option Z) : X → option Z :=
  match op in redis_op X return X → option Z with
  | SetNx _ _ ex => λ ok, if ok : bool then Some (now + ex) else old
  | Get _ => λ _, old
  | Del _ | SetEx _ _ _ => λ _, None
  end.

Definition running (j : job) : bool := match code j with Ret _ | Raise _ => false | _ => true end.

(** A tool that returned something other than an error, under a key *)
Definition success (key : option string) (a : result string pyval) : option string :=
  match a with Ok res => if is_error res then None else key | Err _ => None end.

Definition is_ok {X} (a : result string X) : bool := match a with Ok _ => true | Err _ => false end.

Section system.
Context (json_copy : pyval → pyval) (g : Gateway) (orderly : bool).

Inductive step : world → world → Prop :=
| step_start w c :
    step w {| clock := clock w; store := store w; successes := successes w;
              jobs := jobs w ++ [{| code := execute json_copy g c; returned := false; deadline := None |}] |}
| step_ask w l1 l2 X (q : question X) k ret dl a :
    jobs w = l1 ++ {| code := Ask q k; returned := ret; deadline := dl |} :: l2 →
    (orderly = true → ret = true → is_ok a = true) →
    step w {| clock := clock w; store := store w; successes := successes w;
              jobs := l1 ++ {| code := k a; returned := ret; deadline := dl |} :: l2 |}
| step_redis w l1 l2 X (op : redis_op X) k ret dl :
    jobs w = l1 ++ {| code := Redis op k; returned := ret; deadline := dl |} :: l2 →
    step w {| clock := clock w; store := fst (redis_exec (clock w) (store w) op); successes := successes w;
              jobs := l1 ++ {| code := k (Ok (snd (redis_exec (clock w) (store w) op))); returned := ret;
                               deadline := deadline_after (clock w) op dl (snd (redis_exec (clock w) (store w) op)) |} :: l2 |}
| step_redis_error w l1 l2 X (op : redis_op X) k ret dl e :
    jobs w = l1 ++ {| code := Redis op k; returned := ret; deadline := dl |} :: l2 → (orderly = true → ret = false) →
    step w {| clock := clock w; store := store w; successes := successes w;
              jobs := l1 ++ {| code := k (Err e); returned := ret; deadline := dl |} :: l2 |}
| step_dispatch w l1 l2 key tool params k ret dl a :
    jobs w = l1 ++ {| code := Dispatch key tool params k; returned := ret; deadline := dl |} :: l2 →
    step w {| clock := clock w; store := store w;
              successes := successes w ++ match success key a with Some key => [(key, clock w)] | None => [] end;
              jobs := l1 ++ {| code := k a; returned := ret || is_ok a; deadline := dl |} :: l2 |}
| step_tick w now :
    clock w ≤ now → (orderly = true → ∀ j dl, j ∈ jobs w → running j = true → deadline j = Some dl → now < dl) →
    step w {| clock := now; store := store w; successes := successes w; jobs := jobs w |}.

Definition initial (w : world) : Prop := store w = ∅ ∧ jobs w = [] ∧ successes w = [].

Definition reachable (w : world) : Prop := ∃ w0, initial w0 ∧ rtc step w0 w.
End system.

(** * Who holds a key *)

Inductive tok := Free | Held | Ran.

#[global] Instance tok_eq_dec : EqDecision tok.
Proof. solve_decision. Defined.

Section discipline.
Context (K : string).

Definition held (key : option string) : tok := match key with Some key => if decide (key = K) then Held else Free | None => Free end.

(** What a command makes of the hold on [K]; [None] for a command the holder, or one who is not, never gives. *)
Definition after {X} (t : tok) (op : redis_op X) : result string X → option tok :=
  match op in redis_op X return result string X → option tok with
  | SetNx key _ ex => λ a, if decide (t = Free ∧ ex = RESERVATION_TTL) then Some (match a with Ok true => held (Some key) | _ => Free end) else None
  | Get _ => λ _, Some t
  | Del key => λ a, if decide (key = K) then if decide (t = Held) then Some (if is_ok a then Free else Held) else None
                    else if decide (t = Free) then Some Free else None
  | SetEx key ex _ => λ a, if decide (key = K) then if decide (t = Ran ∧ ex = IDEMPOTENCY_TTL) then Some (if is_ok a then Free else Ran) else None
                     else if decide (t = Free) then Some Free else None
  end.

Fixpoint safe {A} (ret : bool) (t : tok) (p : prog A) : Prop :=
  match p with
  | Ret _ | Raise _ => t ≠ Ran
  | Ask _ k => ∀ a, (ret = true → is_ok a = true) → safe ret t (k a)
  | Redis op k => ∀ a, (ret = true → is_ok a = true) → ∃ t', after t op a = Some t' ∧ safe ret t' (k a)
  | Dispatch key _ _ k =>
      t = held key ∧ ∀ a, safe (ret || is_ok a) (if decide (success key a = Some K) then Ran else t) (k a)
  end.

(** ** The programs keep to it *)

Lemma held_not_Ran key : held key ≠ Ran.
Proof. unfold held. destruct key; [|done]. by case_decide. Qed.

Lemma safe_ask {A X} ret t (q : question X) (k : X → prog A) : t ≠ Ran → (∀ x, safe ret t (k x)) → safe ret t (ask q k).
Proof. intros Ht Hk [x|e] _; [apply Hk|done]. Qed.

Lemma safe_audited g act outcome details ret t p : t ≠ Ran → safe ret t p → safe ret t (audited g act outcome details p).
Proof. intros. unfold audited. destruct (audit g); [|done]. by apply safe_ask. Qed.

Lemma safe_del {A} ret key (k : result string unit → prog A) :
  safe ret Free (k (Ok tt)) → (ret = false → ∀ e, safe ret (held (Some key)) (k (Err e))) → safe ret (held (Some key)) (Redis (Del key) k).
Proof.
  intros Hok Herr a Ha. cbn [after]. unfold held in *. destruct (decide (key = K)) as [->|Hne].
  - rewrite decide_True by done. eexists. split; [done|]. destruct a as [[]|e]; cbn; [done|]. apply Herr. destruct ret; [by specialize (Ha eq_refl)|done].
  - rewrite decide_True by done. eexists. split; [done|]. destruct a as [[]|e]; [done|]. apply Herr. destruct ret; [by specialize (Ha eq_refl)|done].
Qed.

Lemma safe_release reserved ret p : safe ret Free p → safe ret (held reserved) (release reserved p).
Proof.
  intros Hp. destruct reserved as [key|]; [|done]. apply safe_del; [done|]. intros _ e. apply held_not_Ran.
Qed.

Lemma safe_failed g reserved e : safe false (held reserved) (failed_call g reserved e).
Proof. by apply safe_release, safe_audited. Qed.

Lemma safe_masked g reserved t v k : (∀ w, safe true t (k w)) → safe true t (masked g reserved v k).
Proof. intros Hk. destruct v; cbn [masked]; try done. intros [w|e] Ha; [apply Hk|by specialize (Ha eq_refl)]. Qed.

Lemma safe_succeeded g reserved res p r : safe true Free (succeeded g reserved res p r).
Proof.
  unfold succeeded. destruct (audit g); [|done]. intros [[ih oh]|] Ha; [|by specialize (Ha eq_refl)].
  intros [[]|] Hb; [done|by specialize (Hb eq_refl)].
Qed.

Lemma safe_dispatch json_copy g reserved tool params : safe false (held reserved) (dispatch json_copy g reserved tool params).
Proof.
  split; [done|]. intros [res|e]; [|cbn; rewrite decide_False by done; apply safe_failed].
  cbn [orb is_ok success]. set (t := if decide _ then _ else _).
  apply safe_masked. intros mp. apply safe_masked. intros mr.
  destruct reserved as [key|]; [|unfold t; rewrite decide_False by (by destruct (is_error res)); apply safe_succeeded].
  destruct (is_error res) eqn:He.
  - unfold t. rewrite decide_False by done. apply safe_del; [apply safe_succeeded|done].
  - assert (t = if decide (key = K) then Ran else Free) as -> by (unfold t, held; repeat case_decide; congruence).
    intros [[]|e] Ha; [|by specialize (Ha eq_refl)]. cbn [after]. destruct (decide (key = K)) as [->|Hne].
    + rewrite decide_True by done. eexists. split; [done|]. apply safe_succeeded.
    + rewrite decide_True by done. eexists. split; [done|]. apply safe_succeeded.
Qed.

Lemma safe_resolve json_copy g c reserved params : safe false (held reserved) (resolve_and_dispatch json_copy g c reserved params).
Proof.
  apply safe_ask; [apply held_not_Ran|]. intros screened.
  destruct screened as [[refusal|]|]; [by apply safe_release, safe_audited| |];
    (apply safe_ask; [apply held_not_Ran|]; intros []; [apply safe_dispatch|by apply safe_release]).
Qed.

Lemma safe_keyed json_copy g c params : safe false Free (keyed json_copy g c params).
Proof.
  unfold keyed. destruct (scoped_key c) as [key|]; [destruct (idempotency g)|]; try apply (safe_resolve _ _ _ None).
  intros [ok|e] _; cbn [after]; rewrite decide_True by done; (eexists; split; [done|]); [|done].
  destruct ok; [apply safe_resolve|]. intros [data|e] _; (eexists; split; [done|]); [|done].
  destruct data as [cached|]; [|done]. destruct (is_pending cached); [done|]. by destruct cached.
Qed.

Lemma safe_limited json_copy g c params : safe false Free (limited json_copy g c params).
Proof.
  unfold limited. destruct (rate_limiter g); [|apply safe_keyed]. apply safe_ask; [done|]. intros [ok v]. cbn. destruct ok; [apply safe_keyed|done].
Qed.

Lemma safe_authorised json_copy g c gov params : safe false Free (authorised json_copy g c gov params).
Proof.
  unfold authorised, scope_denied. destruct (given _).
  - apply safe_ask; [done|]. intros [ok reason]. destruct ok; [apply safe_limited|by apply safe_audited].
  - destruct (c_agent_scopes c); [by apply safe_audited|]. destruct (check_scope _ _ _ _ _) as [ok reason].
    destruct ok; [apply safe_limited|]. destruct (contains_text _ _); by apply safe_audited.
Qed.

Lemma safe_caught {X} ret (q : question (string + X)) k f : (∀ x, safe ret Free (f x)) → (∀ r, safe ret Free (k r)) → safe ret Free (caught q k f).
Proof. intros Hf Hk [[message|x]|e] _; [apply Hk|apply Hf|apply Hk]. Qed.

Lemma safe_remote_execute c params k : (∀ ret r, safe ret Free (k r)) → safe false Free (remote_execute c params k).
Proof.
  intros Hk. apply safe_caught; [intros reads|done]. apply safe_caught; [intros [[] details]|done]; cbn [fst snd]; [|done].
  apply safe_caught; [intros []|done]. apply safe_caught; [intros [[] v]|done]; cbn [fst snd]; [|done].
  split; [done|]. intros [res|e]; cbn [success is_ok orb].
  - rewrite decide_False by (by destruct (is_error res)). by apply safe_caught.
  - rewrite decide_False by done. intros [[message|]|e'] _; apply Hk.
Qed.

Lemma safe_adapter c params fin : (∀ ret v, safe ret Free (fin v)) → safe false Free (adapter_dispatch c params fin).
Proof.
  intros Hf. apply safe_ask; [done|]. intros [error|]; [by apply safe_ask|]. apply safe_ask; [done|]. intros [error|]; [done|].
  apply safe_ask; [done|]. intros [[refusal|]|]; [by apply safe_ask|..]; apply safe_remote_execute.
  - intros ret r. by apply safe_ask.
  - by intros ret [v|e].
Qed.

Lemma safe_remote g c params : safe false Free (remote g c params).
Proof.
  apply safe_ask; [done|]. intros [tools|]; [|done]. set (fin := λ res : pyval, _). assert (∀ ret v, safe ret Free (fin v)) as Hfin by (intros ret v; unfold fin; destruct (c_pseudonymiser c); by apply safe_ask).
  assert (safe false Free (execute_agent_tool g c params fin)) as Hrun.
  { assert (safe false Free (if negb (given (c_company_id c)) && strict_env g then fin (scope_error "E1010" "company_scope_required: tool calls need a company-scoped agent in this runtime")
      else adapter_dispatch c params fin)) as Hs by (destruct (_ && _); [apply Hfin|by apply safe_adapter]).
    apply safe_ask; [done|]. intros []; [|apply Hfin]. destruct (grant_enforced c); [apply safe_ask; [done|]; intros [[reason details]|]; [apply Hfin|exact Hs]|].
    destruct (given (c_effective_token c)); [|exact Hs]. apply safe_ask; [done|]. intros [[] reason]; [exact Hs|apply Hfin]. }
  destruct (_ || _); [exact Hrun|]. destruct (fst _); [exact Hrun|done].
Qed.

Lemma safe_gateway json_copy g c : safe false Free (execute json_copy g c).
Proof.
  assert (∀ gov params, safe false Free (granted json_copy g c gov params)) as Hgranted.
  { intros gov params. unfold granted. destruct (grant_enforced c); [|apply safe_authorised]. apply safe_ask; [done|].
    intros [[reason details]|]; [by apply safe_audited|apply safe_authorised]. }
  assert (∀ params, safe false Free (remote g c params)) as Hremote by apply safe_remote.
  assert (∀ params, safe false Free (checked json_copy g c params)) as Hchecked.
  { intros params. apply safe_ask; [done|]. intros [error|]; [by apply safe_audited|]. destruct (starts_with _ _); [done|].
    unfold governed. destruct (_ || _); [|done]. apply safe_ask; [done|]. intros [[[ok reads] reason] details].
    destruct ok; [done|by apply safe_audited]. }
  unfold execute. destruct (c_pseudonymiser c); [|done]. apply safe_ask; [done|]. intros [reason|params]; [by apply safe_audited|done].
Qed.

(** * The invariant of an orderly system *)

Definition times (l : list (string * Z)) : list Z := snd <$> List.filter (λ kt, String.eqb (fst kt) K) l.

(** Two successes under [K] are a day apart. *)
Definition spaced (l : list Z) : Prop := ∀ i j a b, (i < j)%nat → l !! i = Some a → l !! j = Some b → a + IDEMPOTENCY_TTL ≤ b.

(** The only hold on [K], of a job whose reservation is in the store *)
Definition holds (w : world) (t : tok) (j : job) : Prop :=
  t = Free ∨ (running j = true ∧ ∃ v dl, deadline j = Some dl ∧ store w !! K = Some (v, dl) ∧ clock w < dl).

Definition no_hold (toks : list tok) : Prop := Forall (λ t, t = Free) toks.

Definition one_hold (toks : list tok) : Prop := ∀ i j a b, toks !! i = Some a → toks !! j = Some b → a ≠ Free → b ≠ Free → i = j.

(** The latest success is a day old, or its call has yet to store the result, or the result is stored. *)
Definition accounted (toks : list tok) (w : world) : Prop :=
  ∀ s, s ∈ times (successes w) →
  s + IDEMPOTENCY_TTL ≤ clock w ∨ (s ≤ clock w ∧ Ran ∈ toks) ∨
  (no_hold toks ∧ ∃ v ex, store w !! K = Some (v, ex) ∧ s + IDEMPOTENCY_TTL ≤ ex).

Record inv (toks : list tok) (w : world) : Prop := {
  inv_safe : Forall2 (λ t j, safe (returned j) t (code j) ∧ holds w t j) toks (jobs w);
  inv_one : one_hold toks;
  inv_accounted : accounted toks w;
  inv_spaced : spaced (times (successes w));
}.

Lemma one_hold_split t1 t t2 : one_hold (t1 ++ t :: t2) → t ≠ Free → no_hold (t1 ++ t2).
Proof.
  intros Ho Ht. apply Forall_forall. intros t' Hin. destruct (decide (t' = Free)) as [|Hne]; [done|]. exfalso.
  assert ((t1 ++ t :: t2) !! length t1 = Some t) as Hmid by by rewrite list_lookup_middle.
  apply elem_of_app in Hin as [Hin|Hin]; apply list_elem_of_lookup in Hin as [i Hi].
  - assert (i = length t1) as -> by (eapply Ho; [rewrite lookup_app_l; [exact Hi|by eapply lookup_lt_Some]|exact Hmid|done|done]).
    apply lookup_lt_Some in Hi. lia.
  - assert ((length t1 + S i)%nat = length t1); [|lia].
    eapply Ho; [|exact Hmid|exact Hne|done]. rewrite lookup_app_r by lia. by replace (length t1 + S i - length t1)%nat with (S i) by lia.
Qed.

Lemma one_hold_replace t1 t t2 t' : one_hold (t1 ++ t :: t2) → (t' ≠ Free → t ≠ Free ∨ no_hold (t1 ++ t2)) → one_hold (t1 ++ t' :: t2).
Proof.
  intros Ho Ht'. destruct (decide (t' = Free)) as [->|Hne].
  - intros i j a b Hi Hj Ha Hb. assert (∀ i a, (t1 ++ Free :: t2) !! i = Some a → a ≠ Free → (t1 ++ t :: t2) !! i = Some a) as Hsame.
    { intros n x Hx Hxne. destruct (decide (n = length t1)) as [->|Hn]; [rewrite list_lookup_middle in Hx by done; congruence|].
      revert Hx. rewrite !lookup_app. destruct (t1 !! n) eqn:E; [done|]. apply lookup_ge_None in E.
      destruct (n - length t1)%nat eqn:E'; [lia|done]. }
    eapply Ho; eauto.
  - assert (no_hold (t1 ++ t2)) as Hno by (destruct (Ht' Hne) as [?|?]; [by eapply one_hold_split|done]).
    assert (∀ i a, (t1 ++ t' :: t2) !! i = Some a → a ≠ Free → i = length t1) as Hpos.
    { intros n x Hx Hxne. destruct (decide (n = length t1)) as [|Hn]; [done|]. exfalso. apply Hxne.
      unfold no_hold in Hno. rewrite Forall_forall in Hno. apply Hno. rewrite lookup_app in Hx. apply elem_of_app.
      destruct (t1 !! n) eqn:E; [left; apply list_elem_of_lookup; exists n; congruence|]. right. apply lookup_ge_None in E.
      destruct (n - length t1)%nat as [|m] eqn:E'; [lia|]. cbn in Hx. by apply list_elem_of_lookup_2 in Hx. }
    intros i j a b Hi Hj Ha Hb. rewrite (Hpos i a), (Hpos j b) by done. done.
Qed.

Lemma one_hold_snoc toks : one_hold toks → one_hold (toks ++ [Free]).
Proof.
  intros Ho i j a b Hi Hj Ha Hb. apply lookup_app_Some in Hi as [Hi|[_ Hi%list_lookup_singleton_Some]]; [|by destruct Hi].
  apply lookup_app_Some in Hj as [Hj|[_ Hj%list_lookup_singleton_Some]]; [by eapply Ho|by destruct Hj].
Qed.

Lemma no_hold_not_Ran toks : no_hold toks → Ran ∉ toks.
Proof. intros Hn Hin. unfold no_hold in Hn. rewrite Forall_forall in Hn. by specialize (Hn _ Hin). Qed.

Lemma no_hold_middle t1 t t2 : no_hold (t1 ++ t :: t2) ↔ t = Free ∧ no_hold (t1 ++ t2).
Proof. unfold no_hold. rewrite !Forall_app, Forall_cons. tauto. Qed.

Lemma elem_of_middle (t1 : list tok) t t2 x : x ∈ t1 ++ t :: t2 ↔ x = t ∨ x ∈ t1 ++ t2.
Proof. rewrite !elem_of_app, elem_of_cons. tauto. Qed.

(** The hold of a job that has ended no longer counts. *)
Definition settled (t : tok) (j : job) : tok := if running j then t else Free.

Lemma safe_settled t j : safe (returned j) t (code j) → safe (returned j) (settled t j) (code j).
Proof. unfold settled, running. by destruct (code j). Qed.

Lemma safe_Ran_running j : safe (returned j) Ran (code j) → running j = true.
Proof. unfold running. destruct (code j); cbn; try done; congruence. Qed.

(** One job moves on. [t'] is its new hold; the store changes under [K] only when nobody else holds it. *)
Lemma reservation_advance t1 t t2 l1 j l2 w j' t' st succ :
  inv (t1 ++ t :: t2) w → jobs w = l1 ++ j :: l2 → length t1 = length l1 →
  let w' := {| clock := clock w; store := st; jobs := l1 ++ j' :: l2; successes := succ |} in
  safe (returned j') t' (code j') → holds w' (settled t' j') j' →
  (t' ≠ Free → t ≠ Free ∨ no_hold (t1 ++ t2)) → (no_hold (t1 ++ t2) ∨ st !! K = store w !! K) →
  accounted (t1 ++ settled t' j' :: t2) w' → spaced (times succ) →
  inv (t1 ++ settled t' j' :: t2) w'.
Proof.
  intros [Hs Ho Ha Hsp] Hj Hlen w' Hsafe Hh Hnew Hst Hacc Hsp'. rewrite Hj in Hs.
  apply Forall2_app_inv in Hs as [H1 H2]; [|done]. apply Forall2_cons in H2 as [_ H2].
  assert (∀ ts js, no_hold (t1 ++ t2) ∧ no_hold ts ∨ st !! K = store w !! K → Forall2 (λ t j, safe (returned j) t (code j) ∧ holds w t j) ts js →
          Forall2 (λ t j, safe (returned j) t (code j) ∧ holds w' t j) ts js) as Hkeep.
  { intros ts js Hts. induction 1 as [|a b ts js [Hsa Hhb] _ IH]; constructor.
    - split; [done|]. destruct Hts as [[_ Hts]|Heq]; [left; by apply Forall_cons in Hts as [? _]|].
      destruct Hhb as [?|(Hr & v & dl & Hd & Hstk & Hc)]; [by left|]. right. split; [done|]. exists v, dl. by rewrite <- Heq in Hstk.
    - apply IH. destruct Hts as [[Hn Hts]|]; [left|by right]. split; [done|]. by apply Forall_cons in Hts as [_ ?]. }
  split; [|eapply one_hold_replace; [exact Ho|]|done|done].
  - cbn. apply Forall2_app; [|constructor; [split; [by apply safe_settled|done]|]]; (apply Hkeep; [|done]);
      (destruct Hst as [Hn|]; [left; split; [done|]; by apply Forall_app in Hn as [? ?]|by right]).
  - unfold settled. by destruct (running j').
Qed.

(** Nothing changes but the code of the job, and perhaps other keys. *)
Lemma inv_same t1 t t2 l1 j l2 w j' st :
  inv (t1 ++ t :: t2) w → jobs w = l1 ++ j :: l2 → length t1 = length l1 → holds w t j →
  safe (returned j') t (code j') → (t = Free ∨ deadline j' = deadline j) → st !! K = store w !! K →
  inv (t1 ++ settled t j' :: t2) {| clock := clock w; store := st; jobs := l1 ++ j' :: l2; successes := successes w |}.
Proof.
  intros Hi Hj Hlen Hh Hsafe Hd Hst. eapply reservation_advance; [exact Hi|exact Hj|done|done| |by left|by right| |apply (inv_spaced _ _ Hi)].
  - unfold settled. destruct (running j') eqn:Hr; [|by left]. destruct Hh as [->|(_ & v & dl & Hdl & Hk & Hc)]; [by left|].
    destruct Hd as [->|Hd]; [by left|]. right. split; [done|]. exists v, dl. cbn. by rewrite Hd, Hst.
  - intros s Hs. destruct (inv_accounted _ _ Hi s Hs) as [?|[[Hsc Hran]|(Hn & v & ex & Hk & Hex)]]; [by left|right; left|right; right].
    + split; [done|]. rewrite elem_of_middle in *. destruct Hran as [<-|]; [left|by right]. unfold settled. by rewrite safe_Ran_running.
    + apply no_hold_middle in Hn as [-> Hn]. split; [|exists v, ex; cbn [store]; by rewrite Hst]. apply no_hold_middle. split; [|done].
      unfold settled. by destruct (running j').
Qed.

(** Splitting the holds like the jobs *)
Lemma inv_split toks w l1 j l2 :
  inv toks w → jobs w = l1 ++ j :: l2 →
  ∃ t1 t t2, toks = t1 ++ t :: t2 ∧ length t1 = length l1 ∧ safe (returned j) t (code j) ∧ holds w t j.
Proof.
  intros Hi Hj. pose proof (inv_safe _ _ Hi) as Hs. rewrite Hj in Hs.
  apply Forall2_app_inv_r in Hs as (t1 & t2' & H1 & H2 & ->). apply Forall2_cons_inv_r in H2 as (t & t2 & [Hsafe Hh] & _ & ->).
  exists t1, t, t2. split; [done|]. split; [by eapply Forall2_length|done].
Qed.

(** While one job holds [K], every earlier success is a day old unless that job is the one that succeeded. *)
Lemma accounted_holder t1 t t2 w s :
  inv (t1 ++ t :: t2) w → t ≠ Free → s ∈ times (successes w) →
  s + IDEMPOTENCY_TTL ≤ clock w ∨ (s ≤ clock w ∧ t = Ran).
Proof.
  intros Hi Ht Hs. assert (no_hold (t1 ++ t2)) as Hn by (eapply one_hold_split; [apply (inv_one _ _ Hi)|done]).
  destruct (inv_accounted _ _ Hi s Hs) as [?|[[Hsc Hran]|(Hno & _)]]; [by left| |by apply no_hold_middle in Hno as [? _]].
  apply elem_of_middle in Hran as [<-|Hran]; [by right|]. by apply no_hold_not_Ran in Hran.
Qed.

Lemma unreserved_no_hold t1 t2 w :
  inv (t1 ++ Free :: t2) w → lookup_live (clock w) (store w) K = None → no_hold (t1 ++ t2).
Proof.
  intros Hi Hl. apply Forall_forall. intros x Hx. destruct (decide (x = Free)) as [|Hxne]; [done|]. exfalso.
  assert (x ∈ t1 ++ Free :: t2) as Hx' by (apply elem_of_middle; by right). apply list_elem_of_lookup in Hx' as [i Hxi].
  destruct (Forall2_lookup_l _ _ _ _ _ (inv_safe _ _ Hi) Hxi) as (j & _ & _ & [?|(_ & v' & dl' & _ & Hk & Hc)]); [done|].
  unfold lookup_live in Hl. rewrite Hk in Hl. apply Z.ltb_lt in Hc. by rewrite Hc in Hl.
Qed.

(** A job reserves [K]. *)
Lemma inv_reserve t1 t2 w l1 l2 j j' v :
  inv (t1 ++ Free :: t2) w → jobs w = l1 ++ j :: l2 → length t1 = length l1 → lookup_live (clock w) (store w) K = None →
  safe (returned j') Held (code j') → deadline j' = Some (clock w + RESERVATION_TTL) →
  inv (t1 ++ settled Held j' :: t2)
      {| clock := clock w; store := <[K := (v, clock w + RESERVATION_TTL)]> (store w); jobs := l1 ++ j' :: l2; successes := successes w |}.
Proof.
  intros Hi Hj Hlen Hl Hsafe Hd. pose proof (unreserved_no_hold _ _ _ Hi Hl) as Hn.
  eapply (reservation_advance t1 Free t2 l1 j l2); [exact Hi|exact Hj|done|done| |by right|by left| |apply (inv_spaced _ _ Hi)].
  - unfold settled. destruct (running j') eqn:Hr; [|by left]. right. split; [done|]. exists v, (clock w + RESERVATION_TTL).
    split; [done|]. split; [apply lookup_insert_eq|]. cbn [clock]. unfold RESERVATION_TTL. lia.
  - intros s Hs. left. destruct (inv_accounted _ _ Hi s Hs) as [?|[[Hsc Hran]|(_ & v' & ex & Hk & Hex)]]; [done| |].
    + exfalso. apply (no_hold_not_Ran (t1 ++ Free :: t2)); [by apply no_hold_middle|done].
    + unfold lookup_live in Hl. rewrite Hk in Hl. cbn [clock]. destruct (Z.ltb_spec (clock w) ex); [done|lia].
Qed.

(** The holder drops its reservation. *)
Lemma inv_drop t1 t2 w l1 l2 j j' :
  inv (t1 ++ Held :: t2) w → jobs w = l1 ++ j :: l2 → length t1 = length l1 → safe (returned j') Free (code j') →
  inv (t1 ++ settled Free j' :: t2) {| clock := clock w; store := delete K (store w); jobs := l1 ++ j' :: l2; successes := successes w |}.
Proof.
  intros Hi Hj Hlen Hsafe. assert (no_hold (t1 ++ t2)) as Hn by (eapply one_hold_split; [apply (inv_one _ _ Hi)|done]).
  eapply (reservation_advance t1 Held t2 l1 j l2); [exact Hi|exact Hj|done|done| |done|by left| |apply (inv_spaced _ _ Hi)].
  - left. unfold settled. by destruct (running j').
  - intros s Hs. left. by destruct (accounted_holder t1 Held t2 w s Hi) as [?|[_ ?]].
Qed.

(** The holder stores the result. *)
Lemma inv_store t1 t2 w l1 l2 j j' v :
  inv (t1 ++ Ran :: t2) w → jobs w = l1 ++ j :: l2 → length t1 = length l1 → safe (returned j') Free (code j') →
  inv (t1 ++ settled Free j' :: t2)
      {| clock := clock w; store := <[K := (v, clock w + IDEMPOTENCY_TTL)]> (store w); jobs := l1 ++ j' :: l2; successes := successes w |}.
Proof.
  intros Hi Hj Hlen Hsafe. assert (no_hold (t1 ++ t2)) as Hn by (eapply one_hold_split; [apply (inv_one _ _ Hi)|done]).
  eapply (reservation_advance t1 Ran t2 l1 j l2); [exact Hi|exact Hj|done|done| |done|by left| |apply (inv_spaced _ _ Hi)].
  - left. unfold settled. by destruct (running j').
  - intros s Hs. destruct (accounted_holder t1 Ran t2 w s Hi) as [?|[Hsc _]]; [done|done|by left|]. right. right. split.
    + apply no_hold_middle. split; [|done]. unfold settled. by destruct (running j').
    + exists v, (clock w + IDEMPOTENCY_TTL). split; [apply lookup_insert_eq|lia].
Qed.

Lemma inv_redis toks w l1 l2 X (op : redis_op X) k ret dl :
  inv toks w → jobs w = l1 ++ {| code := Redis op k; returned := ret; deadline := dl |} :: l2 →
  ∃ toks', inv toks' {| clock := clock w; store := fst (redis_exec (clock w) (store w) op); successes := successes w;
    jobs := l1 ++ {| code := k (Ok (snd (redis_exec (clock w) (store w) op))); returned := ret;
                     deadline := deadline_after (clock w) op dl (snd (redis_exec (clock w) (store w) op)) |} :: l2 |}.
Proof.
  intros Hi Hj. destruct (inv_split _ _ _ _ _ Hi Hj) as (t1 & t & t2 & -> & Hlen & Hsafe & Hh).
  destruct (Hsafe (Ok (snd (redis_exec (clock w) (store w) op))) ltac:(done)) as (t' & Hafter & Hsafe'). clear Hsafe.
  set (j' := {| code := k _; returned := _; deadline := _ |}). exists (t1 ++ settled t' j' :: t2).
  change (safe (returned j') t' (code j')) in Hsafe'.
  destruct op as [key v ex|key|key|key ex v]; cbn [redis_exec deadline_after after fst snd] in *.
  - destruct (decide (t = Free ∧ ex = RESERVATION_TTL)) as [[-> ->]|]; [|done].
    destruct (lookup_live (clock w) (store w) key) eqn:Hl; cbn [fst snd] in *; simplify_eq.
    { eapply inv_same; [exact Hi|exact Hj|done|done|done|by left|done]. }
    unfold held in *. destruct (decide (key = K)) as [->|Hne]; [by eapply inv_reserve|].
    eapply inv_same; [exact Hi|exact Hj|done|done|done|by left|by apply lookup_insert_ne].
  - simplify_eq. eapply inv_same; [exact Hi|exact Hj|done|done|done|by right|done].
  - destruct (decide (key = K)) as [->|Hne].
    + destruct (decide (t = Held)) as [->|]; [|done]. cbn in Hafter. simplify_eq. by eapply inv_drop.
    + destruct (decide (t = Free)) as [->|]; [|done]. simplify_eq.
      eapply inv_same; [exact Hi|exact Hj|done|done|done|by left|by apply lookup_delete_ne].
  - destruct (decide (key = K)) as [->|Hne].
    + destruct (decide (t = Ran ∧ ex = IDEMPOTENCY_TTL)) as [[-> ->]|]; [|done]. cbn in Hafter. simplify_eq. by eapply inv_store.
    + destruct (decide (t = Free)) as [->|]; [|done]. simplify_eq.
      eapply inv_same; [exact Hi|exact Hj|done|done|done|by left|by apply lookup_insert_ne].
Qed.

(** A tool returns. *)
Lemma inv_dispatch toks w l1 l2 key tool params k ret dl a :
  inv toks w → jobs w = l1 ++ {| code := Dispatch key tool params k; returned := ret; deadline := dl |} :: l2 →
  ∃ toks', inv toks' {| clock := clock w; store := store w;
    successes := successes w ++ match success key a with Some key => [(key, clock w)] | None => [] end;
    jobs := l1 ++ {| code := k a; returned := ret || is_ok a; deadline := dl |} :: l2 |}.
Proof.
  intros Hi Hj. destruct (inv_split _ _ _ _ _ Hi Hj) as (t1 & t & t2 & -> & Hlen & [Ht Hsafe] & Hh). specialize (Hsafe a).
  set (j' := {| code := k a; returned := _; deadline := dl |}). fold (returned j') (code j') in Hsafe.
  assert (∀ l, times (successes w ++ l) = times (successes w) ++ times l) as Htimes.
  { intros l. unfold times. by rewrite List.filter_app, fmap_app. }
  destruct (decide (success key a = Some K)) as [Hs|Hs].
  - rewrite Hs. assert (key = Some K) as -> by (destruct a as [res|]; [|done]; cbn in Hs; by destruct (is_error res)).
    unfold held in Ht. rewrite decide_True in Ht by done. subst t.
    exists (t1 ++ settled Ran j' :: t2). assert (running j' = true) as Hr by by apply safe_Ran_running.
    assert (times [(K, clock w)] = [clock w]) as Hone by (unfold times; cbn; by rewrite String.eqb_refl).
    eapply reservation_advance; [exact Hi|exact Hj|done|done| |by left|by right| |].
    + unfold settled. rewrite Hr. destruct Hh as [?|(_ & Hh)]; [done|]. right. by split.
    + intros s. cbn [successes clock]. rewrite Htimes, Hone. intros [Hin|Hin%list_elem_of_singleton]%elem_of_app.
      * left. by destruct (accounted_holder t1 Held t2 w s Hi) as [?|[_ ?]].
      * subst s. right. left. split; [done|]. apply elem_of_middle. left. unfold settled. by rewrite Hr.
    + rewrite Htimes, Hone. intros i m x y Hlt Hx Hy. apply lookup_app_Some in Hy as [Hy|[Hge Hy]].
      * apply lookup_lt_Some in Hy as Hm. rewrite lookup_app_l in Hx by lia. by apply (inv_spaced _ _ Hi i m).
      * apply list_lookup_singleton_Some in Hy as [Hm <-]. rewrite lookup_app_l in Hx by lia. apply list_elem_of_lookup_2 in Hx.
        by destruct (accounted_holder t1 Held t2 w x Hi) as [?|[_ ?]].
  - exists (t1 ++ settled t j' :: t2).
    assert (times (successes w ++ match success key a with Some key => [(key, clock w)] | None => [] end) = times (successes w)) as Hsame.
    { rewrite Htimes. destruct (success key a) as [key'|]; [|apply app_nil_r]. unfold times at 2. cbn.
      destruct (String.eqb_spec key' K); [congruence|]. apply app_nil_r. }
    pose proof (inv_same t1 t t2 l1 _ l2 w j' (store w) Hi Hj Hlen Hh Hsafe (or_intror eq_refl) eq_refl) as [Hs1 Hs2 Hs3 Hs4].
    split; [exact Hs1|done| |cbn [successes]; by rewrite Hsame]. intros s. cbn [successes]. rewrite Hsame. apply Hs3.
Qed.

Lemma reservation_step json_copy g toks w w' : inv toks w → step json_copy g true w w' → ∃ toks', inv toks' w'.
Proof.
  intros Hi Hs. destruct Hs as [w c|w l1 l2 X q k ret dl a Hj Ho|w l1 l2 X op k ret dl Hj|w l1 l2 X op k ret dl e Hj Ho
    |w l1 l2 key tool params k ret dl a Hj|w now Hle Ho].
  - exists (toks ++ [Free]). destruct Hi as [H1 H2 H3 H4]. split; [| | |done].
    + apply Forall2_app; [done|]. repeat constructor. apply safe_gateway.
    + eapply (one_hold_snoc toks); done.
    + intros s Hs. destruct (H3 s Hs) as [?|[[? ?]|(Hn & ?)]]; [by left|right; left; set_solver|right; right].
      split; [|done]. apply Forall_app. split; [done|by repeat constructor].
  - destruct (inv_split _ _ _ _ _ Hi Hj) as (t1 & t & t2 & -> & Hlen & Hsafe & Hh). eexists.
    eapply inv_same; [exact Hi|exact Hj|done|done|cbn; by apply Hsafe, Ho|by right|done].
  - by eapply inv_redis.
  - destruct (inv_split _ _ _ _ _ Hi Hj) as (t1 & t & t2 & -> & Hlen & Hsafe & Hh).
    destruct (Hsafe (Err e)) as (t' & Hafter & Hsafe'); [by rewrite Ho|].
    assert (t' = t) as ->.
    { destruct op; cbn in Hafter; repeat case_decide; simplify_eq; by destruct_and?. }
    eexists. eapply inv_same; [exact Hi|exact Hj|done|done|exact Hsafe'|by right|done].
  - by eapply inv_dispatch.
  - exists toks. destruct Hi as [H1 H2 H3 H4]. split; [|done| |done].
    + apply Forall2_same_length_lookup_2; [by eapply Forall2_length|]. intros i t j Ht Hj. cbn [jobs] in Hj.
      destruct (Forall2_lookup_lr _ _ _ _ _ _ H1 Ht Hj) as [Hsafe Hh]. split; [done|].
      destruct Hh as [?|(Hr & v & dl & Hd & Hk & Hc)]; [by left|]. right. split; [done|]. exists v, dl. repeat split; [done|done|].
      apply (Ho eq_refl j dl); [by eapply list_elem_of_lookup_2|done|done].
    + intros s Hs. cbn [clock]. destruct (H3 s Hs) as [?|[[? ?]|?]]; [left; lia|right; left; split; [lia|done]|by right; right].
Qed.
End discipline.

(** * Properties *)

(** C11. While no running call outlives the reservation it made, and nothing raises once its tool has returned (the masking
    of its data, storing the result, the audit entry), however calls interleave, the tool succeeds under one idempotency key at
    most once in the day the result is kept: two successes under a key are at least [IDEMPOTENCY_TTL]
    apart. *)
Theorem tool_succeeds_once_per_key json_copy g K w :
  reachable json_copy g true w → ∀ i j a b, (i < j)%nat →
  times K (successes w) !! i = Some a → times K (successes w) !! j = Some b → a + IDEMPOTENCY_TTL ≤ b.
Proof.
  intros (w0 & (Hst & Hj & Hs) & Hrtc). assert (∃ toks, inv K toks w) as [toks Hi]; [|apply (inv_spaced _ _ _ Hi)].
  assert (∃ toks, inv K toks w0) as Hinv.
  { exists []. split.
    - rewrite Hj. apply Forall2_nil. done.
    - intros i j a b Hi. by rewrite lookup_nil in Hi.
    - intros s. rewrite Hs. intros []%not_elem_of_nil.
    - intros i j a b _ Hi. rewrite Hs in Hi. cbn in Hi. by rewrite lookup_nil in Hi. }
  clear Hst Hj Hs. induction Hrtc as [|w1 w2 w3 Hstep _ IH]; [done|]. apply IH. destruct Hinv as [toks Hinv]. by eapply reservation_step.
Qed.

(** ** Schedules *)

Inductive choice :=
| Start (c : call)
| Reply (i : nat) (answers : ∀ X, question X → result string X)
| Command (i : nat)
| Tool (i : nat) (a : result string pyval).

Definition take_step (json_copy : pyval → pyval) (g : Gateway) (w : world) (ch : choice) : option world :=
  let moved i j := take i (jobs w) ++ j :: drop (S i) (jobs w) in
  match ch with
  | Start c =>
      Some {| clock := clock w; store := store w; successes := successes w;
              jobs := jobs w ++ [{| code := execute json_copy g c; returned := false; deadline := None |}] |}
  | Reply i answers =>
      match jobs w !! i with
      | Some {| code := Ask q k; returned := ret; deadline := dl |} =>
          Some {| clock := clock w; store := store w; successes := successes w;
                  jobs := moved i {| code := k (answers _ q); returned := ret; deadline := dl |} |}
      | _ => None
      end
  | Command i =>
      match jobs w !! i with
      | Some {| code := Redis op k; returned := ret; deadline := dl |} =>
          Some {| clock := clock w; store := fst (redis_exec (clock w) (store w) op); successes := successes w;
                  jobs := moved i {| code := k (Ok (snd (redis_exec (clock w) (store w) op))); returned := ret;
                                     deadline := deadline_after (clock w) op dl (snd (redis_exec (clock w) (store w) op)) |} |}
      | _ => None
      end
  | Tool i a =>
      match jobs w !! i with
      | Some {| code := Dispatch key _ _ k; returned := ret; deadline := dl |} =>
          Some {| clock := clock w; store := store w;
                  successes := successes w ++ match success key a with Some key => [(key, clock w)] | None => [] end;
                  jobs := moved i {| code := k a; returned := ret || is_ok a; deadline := dl |} |}
      | _ => None
      end
  end.

Fixpoint follow (json_copy : pyval → pyval) (g : Gateway) (w : world) (l : list choice) : option world :=
  match l with [] => Some w | ch :: l' => match take_step json_copy g w ch with Some w' => follow json_copy g w' l' | None => None end end.

(** Replies that raise are for a system that need not be orderly. *)
Definition calm (orderly : bool) (ch : choice) : Prop :=
  match ch with Reply _ answers => orderly = true → ∀ X (q : question X), is_ok (answers X q) = true | _ => True end.

Lemma call_step_sound json_copy g orderly w ch w' :
  calm orderly ch → take_step json_copy g w ch = Some w' → step json_copy g orderly w w'.
Proof.
  intros Hc. destruct ch as [c|i answers|i|i a]; cbn; [intros [= <-]; constructor|..];
    destruct (jobs w !! i) as [[cd ret dl]|] eqn:Hj; try done; pose proof (take_drop_middle _ _ _ Hj) as Hsplit; symmetry in Hsplit;
    destruct cd; try done; intros [= <-].
  - eapply step_ask; [exact Hsplit|]. intros Ho _. by apply Hc.
  - by eapply step_redis.
  - by eapply step_dispatch.
Qed.

Definition empty_world : world := {| clock := 0; store := ∅; jobs := []; successes := [] |}.

Lemma calls_reachable json_copy g orderly l :
  Forall (calm orderly) l → match follow json_copy g empty_world l with Some _ => true | None => false end = true →
  reachable json_copy g orderly (default empty_world (follow json_copy g empty_world l)).
Proof.
  intros Hl Hf. exists empty_world. split; [done|]. destruct (follow json_copy g empty_world l) as [w'|] eqn:Hw; [|done].
  cbn. clear Hf. revert Hw. generalize empty_world. induction Hl as [|ch l Hch _ IH]; intros w; cbn; [by intros [= <-]|].
  destruct (take_step json_copy g w ch) as [w1|] eqn:Hs; [|done]. intros Hw. eapply rtc_l; [|by apply IH]. by eapply call_step_sound.
Qed.

(** A legacy caller charges a card, with an idempotency key. *)
Definition example_gateway : Gateway := {| rate_limiter := false; idempotency := true; audit := true; strict_env := false |}.

Definition example_call : call :=
  {| c_tenant_id := "t1"; c_agent_scopes := ["tool:stripe:write:charge"]; c_connector := "stripe"; c_tool := "create_charge";
     c_params := VMap [("amount", VInt 100)]; c_idempotency_key := Some "k1"; c_amount := None; c_effective_token := None;
     c_company_id := None; c_domain := false; c_run_grant := None; c_pseudonymiser := false |}.

Definition usual (X : Type) (q : question X) : result string X :=
  match q in question X return result string X with
  | Restore_arguments p => Ok (inr p)
  | Pseudonymise v | Mask_pii v => Ok v
  | Check_operator_override => Ok None
  | Authorized_descriptor => Ok None
  | Tool_authorized => Ok true
  | Guard_action _ => Ok None
  | Remote_descriptor => Ok (inr true)
  | Evaluate_remote _ => Ok (inr (true, VNone))
  | Remote_credentials => Ok (inr tt)
  | Remote_rate_limit => Ok (inr (true, VNone))
  | Remote_audit => Ok (inr tt)
  | Remote_handled _ => Ok None
  | Enveloped _ => Ok VNone
  | Evaluate_action => Ok (true, true, EmptyString, VNone)
  | Check_run_grant => Ok None
  | Enforce_connector_grant _ => Ok (true, EmptyString)
  | Rate_limit => Ok (true, VNone)
  | Screen_call _ => Ok None
  | Resolve_connector => Ok true
  | Hashes _ _ => Ok (EmptyString, EmptyString)
  | Audit_log _ _ _ => Ok tt
  end.

(** The text of the masked result cannot be encoded. *)
Definition unencodable (X : Type) (q : question X) : result string X :=
  match q in question X return result string X with
  | Hashes _ _ => Err "UnicodeEncodeError"
  | q => usual _ q
  end.

Definition charge (i : nat) : list choice :=
  [Start example_call; Reply i usual; Command i; Reply i usual; Reply i usual; Tool i (Ok (VMap [("id", VStr "ch_1")]));
   Reply i usual; Reply i usual; Command i].

Definition failing_schedule : list choice := charge 0 ++ [Reply 0 unencodable; Command 0; Reply 0 usual] ++ charge 1.

Definition failing_world : world := default empty_world (follow id example_gateway empty_world failing_schedule).

(** When something raises after the tool has succeeded and its result is stored (hashing or
    auditing the outcome), the gateway treats the call as failed: it deletes the stored result and
    answers with an error, and a retry with the same idempotency key runs the tool again. *)
Theorem late_failure_repeats_the_tool :
  ∃ w, reachable id example_gateway false w ∧ times (_key "t1" "_global:k1") (successes w) = [0; 0] ∧
    ∃ j, jobs w !! 0%nat = Some j ∧ code j = Ret (Error "E1001" "UnicodeEncodeError" []).
Proof.
  exists failing_world. split.
  - apply calls_reachable; [|vm_compute; reflexivity]. repeat constructor; done.
  - split; [vm_compute; reflexivity|]. eexists. split; vm_compute; reflexivity.
Qed.

(** One call succeeds, the second with its key is answered from the store. *)
Definition replay_schedule : list choice :=
  charge 0 ++ [Reply 0 usual; Reply 0 usual; Start example_call; Reply 1 usual; Command 1; Command 1].

Definition replay_world : world := default empty_world (follow id example_gateway empty_world replay_schedule).

Lemma tool_succeeds_once_per_key_witness :
  (times (_key "t1" "_global:k1") (successes replay_world) = [0] ∧
   match jobs replay_world !! 1%nat with Some j => match code j with Ret (Value v) => is_error v | _ => true end | None => true end = false) ∧
  ∀ i j a b, (i < j)%nat → times (_key "t1" "_global:k1") (successes replay_world) !! i = Some a →
  times (_key "t1" "_global:k1") (successes replay_world) !! j = Some b → a + IDEMPOTENCY_TTL ≤ b.
Proof.
  split; [split; vm_compute; reflexivity|].
  apply (tool_succeeds_once_per_key id example_gateway (_key "t1" "_global:k1") replay_world).
  apply calls_reachable; [|vm_compute; reflexivity].
  repeat constructor; intros _ X q; destruct q; reflexivity.
Defined.
