(* ===== verification/GatewayGuards.v ===== *)
(** The tool gateway with its guards in place: [ToolGateway.execute] asks, and the questions about the
    operator override, the action policy and the grant of the run are answered by their models. *)

From S2P Require Import Prelude PyVal PyText FeatureFlags ActionPolicy GrantEnforcement RunGrants OperatorOverride ToolGateway.

Local Open Scope Z_scope.

(** * Runs up to a dispatch *)

(** The program reaches the dispatch of the tool after the answers of the trace. *)
Inductive reaches : prog answer → list obs → option string → Prop :=
| reach_dispatch key tool params k : reaches (Dispatch key tool params k) [] key
| reach_ask {X} (q : question X) a k tr key : reaches (k a) tr key → reaches (Ask q k) (Asked q a :: tr) key
| reach_redis {X} (op : redis_op X) a k tr key : reaches (k a) tr key → reaches (Redis op k) (Commanded op a :: tr) key.

Lemma guarded_reaches P tr0 p tr key : guarded P tr0 p → reaches p tr key → P (tr0 ++ tr) key.
Proof.
  intros Hg Hr. revert tr0 Hg. induction Hr as [key tool params k|X q a k tr key _ IH|X op a k tr key _ IH]; cbn; intros tr0 Hg.
  - rewrite app_nil_r. apply Hg.
  - specialize (IH _ (Hg a)). by rewrite <- app_assoc in IH.
  - specialize (IH _ (Hg a)). by rewrite <- app_assoc in IH.
Qed.

(** * The guards *)

Section guards.
Context `{UuidText} (before : string → string → bool) (str_limit : option Z → string).
Context (D : Z) (t0 : Z) (c : call).

(** What the guards of one call consult *)
Record surroundings := {
  env : string;
  company : ident;
  dom : option string;
  authorization : option CapabilityAuthorization;
  flags : resolver;
  agent : option string;
  overrides : system;
  control : option bool;
  override_redis : option override_cache;
  override_table : option (list OverrideRow);
  counter_redis : Override → redis_state;
  counter_state : rate_state;
  app : settings;
  registry : ConnectorRegistry;
  client : result string Client;
  grant : option RunGrant;
}.
Context (w : surroundings).

Definition action_decision : ActionDecision :=
  evaluate_action before (c_connector c +:+ ":" +:+ c_tool c)
    {| ActionPolicy.tenant_id := IdText (c_tenant_id c); company_id := company w; domain := dom w; runtime_env := Some (env w) |}
    (authorization w) (Some (flags w)).

Definition override_answer : result string OverrideDecision :=
  fst (check str_limit (is_strict_runtime_env (Some (env w))) false (IdText (c_tenant_id c)) (control w)
    (fst (active_overrides (default EmptyString (_as_uuid (IdText (c_tenant_id c)))) (override_redis w) (override_table w) (clock (overrides w))))
    (counter_redis w) (Some "tool") (context_of None None (agent w) None (Some (c_connector c)) (Some (c_tool c))) (clock (overrides w)) (counter_state w)).

Definition grant_answer (g : RunGrant) : result string (list denial_event * GrantCheck) :=
  check_run_grant (app w) (registry w) (client w) g (c_connector c) (c_tool c) (source g) (c_amount c).

(** [if not check.dispatch_allowed and check.denial is not None] *)
Definition denied (chk : GrantCheck) : option string :=
  if negb (GrantEnforcement.dispatch_allowed chk) then (λ d, reason_value (denial_reason d)) <$> denial chk else None.

(** An answer the guards give; the other questions are answered in any way. *)
Definition guard_answer {X} (q : question X) : result string X → Prop :=
  match q in question X return result string X → Prop with
  | Check_operator_override => λ a, match override_answer with
      | Err e => a = Err e
      | Ok d => if blocked d then ∃ v, a = Ok (Some v) else a = Ok None
      end
  | Evaluate_action => λ a, ∃ details,
      a = Ok (ActionPolicy.dispatch_allowed action_decision, bool_decide (risk action_decision = Some READ), ActionPolicy.reason action_decision, details)
  | Check_run_grant => λ a, match grant w with
      | None => False
      | Some g => match grant_answer g with
          | Err e => a = Err e
          | Ok (_, chk) => match denied chk with Some why => ∃ details, a = Ok (Some (why, details)) | None => a = Ok None end
          end
      end
  | _ => λ _, True
  end.

Definition answered (o : obs) : Prop := match o with Asked q a => guard_answer q a | Commanded _ _ => True end.

(** The gateway of this call runs in the environment of the guards and with their grant. *)
Definition in_surroundings (g : Gateway) : Prop :=
  strict_env g = is_strict_runtime_env (Some (env w)) ∧ c_run_grant c = RunGrants.mode <$> grant w.

Lemma answer_of {X} (q : question X) a tr : Forall answered tr → Asked q a ∈ tr → guard_answer q a.
Proof. intros Ht Hin. rewrite Forall_forall in Ht. exact (Ht _ Hin). Qed.
End guards.

(** No halt on the call has had time to take hold. *)
Definition no_settled_halt `{UuidText} (D : Z) (c : call) (w : surroundings) : Prop :=
  ∀ h, h ∈ table (overrides w) → row_mode h = "halt" → released_at h = None → unexpired (clock (overrides w)) h = true →
    created_at h + D + CACHE_TTL_SECONDS * SECOND ≤ clock (overrides w) → _as_uuid (IdText (c_tenant_id c)) = Some (row_tenant h) →
    _matches (override_of h) (context_of None None (agent w) None (Some (c_connector c)) (Some (c_tool c))) = false.

Section dispatch.
Context `{UuidText} (before : string → string → bool) (str_limit : option Z → string) (json_copy : pyval → pyval).
Context (g : Gateway) (c : call) (w : surroundings) (tr : list obs) (key : option string).
Hypothesis Hlocal : starts_with "mcp_" (c_connector c) = false.
Hypothesis Hin : in_surroundings c w g.
Hypothesis Hreach : reaches (execute json_copy g c) tr key.
Hypothesis Hans : Forall (answered before str_limit c w) tr.

Lemma dispatch_cleared : cleared g c tr key.
Proof. exact (guarded_reaches _ [] _ _ _ (execute_cleared json_copy g c) Hreach). Qed.

Lemma dispatched_action : is_strict_runtime_env (Some (env w)) = true →
  risk (action_decision before c w) = Some READ ∨ risk (action_decision before c w) = Some DRAFT.
Proof.
  intros Hs. destruct dispatch_cleared as [_ Hc]. rewrite Hlocal in Hc. destruct Hc as (Hp & _). destruct Hin as [He _].
  destruct (Hp ltac:(unfold needs_governance; by rewrite He, Hs)) as (reads & why & details & Ha).
  destruct (answer_of before str_limit c w Evaluate_action _ _ Hans Ha) as (details' & Hd). injection Hd as Hd _ _ _.
  symmetry in Hd. apply dispatch_spec in Hd as (tenant & co & canonical & d & r & _ & Hr & [->|[->|[Hf _]]]); [by left|by right|].
  cbn in Hf. congruence.
Qed.

Lemma dispatched_grant rg : grant w = Some rg → RunGrants.mode rg ≠ OFF →
  caller_allows (app w) (registry w) (client w) rg (c_connector c) (c_tool c) (c_amount c) ∧
  (call_mode rg = WARN ∨ scope_allows rg (c_connector c) (c_tool c) ∧ covered (app w) (registry w) (client w) (token rg) (c_connector c) (c_tool c) (c_amount c)).
Proof.
  intros Hg Hm. destruct dispatch_cleared as [_ Hc]. rewrite Hlocal in Hc. destruct Hc as (_ & Hr & _). destruct Hin as [_ He].
  assert (grant_enforced c = true) as Hge by (unfold grant_enforced; rewrite He, Hg; cbn; by destruct (RunGrants.mode rg)).
  pose proof (answer_of before str_limit c w Check_run_grant _ _ Hans (Hr Hge)) as Ha. cbn in Ha. rewrite Hg in Ha. unfold grant_answer in Ha.
  assert (call_mode rg ≠ OFF) as Hcm by (unfold call_mode; by destruct (_ && _)).
  destruct (tool_call_spec (app w) (registry w) (client w) rg (c_connector c) (c_tool c) (source rg) (c_amount c) Hcm) as (evs & chk & E & Hspec & _).
  rewrite E in Ha. apply Hspec. destruct (GrantEnforcement.dispatch_allowed chk) eqn:Ed; [done|exfalso].
  destruct (refused_has_denial _ _ _ _ _ _ _ _ _ _ E Ed) as [d Hd]. unfold denied in Ha. rewrite Ed, Hd in Ha. cbn in Ha. by destruct Ha.
Qed.

Lemma dispatched_not_halted D t : 0 ≤ D → rtc (step D) (initial t) (overrides w) → is_strict_runtime_env (Some (env w)) = true → control w ≠ Some false →
  override_redis w = None ∨ override_redis w = Some (cached (overrides w)) → override_table w = None ∨ override_table w = Some (table (overrides w)) →
  no_settled_halt D c w.
Proof.
  intros HD Hs Hst Hon Hrd Htb h Hh Hm Hr Hu Hold Ht. destruct (_matches (override_of h) _) eqn:Hma; [exfalso|done].
  destruct dispatch_cleared as [Ho _]. pose proof (answer_of before str_limit c w Check_operator_override _ _ Hans Ho) as Ha. cbn in Ha.
  destruct (halt_blocks_call str_limit false (IdText (c_tenant_id c)) D t (overrides w) h (control w) (override_redis w) (override_table w)
    (counter_redis w) (Some "tool") _ (counter_state w) HD Hs Hh Hm Hr Hu Hold Ht Hma Hon Hrd Htb) as (d & Hd & Hb).
  unfold override_answer in Ha. rewrite Hst, Ht in Ha. cbn [default from_option] in Ha. change (Datatypes.id (row_tenant h)) with (row_tenant h) in Ha.
  rewrite Hd, Hb in Ha. by destruct Ha.
Qed.
End dispatch.

(** C17. The guards of the gateway hold together. Whenever, in a strict runtime, the gateway comes to
    dispatch a tool that is not remote, with the questions it asked answered by the action policy,
    the operator overrides and the check of the run's grant: the action is a read or a draft; unless the control of
    overrides is switched off, no halt that has had time to take hold matches the call; and a run whose grant is enforced holds a grant
    that covers the tool, as does the token of its caller. *)
Theorem strict_gateway_is_contained `{UuidText} before str_limit json_copy D t g c w tr key :
  starts_with "mcp_" (c_connector c) = false → in_surroundings c w g → is_strict_runtime_env (Some (env w)) = true →
  0 ≤ D → rtc (step D) (initial t) (overrides w) →
  override_redis w = None ∨ override_redis w = Some (cached (overrides w)) → override_table w = None ∨ override_table w = Some (table (overrides w)) →
  reaches (execute json_copy g c) tr key → Forall (answered before str_limit c w) tr →
  (risk (action_decision before c w) = Some READ ∨ risk (action_decision before c w) = Some DRAFT) ∧
  (control w ≠ Some false → no_settled_halt D c w) ∧
  ∀ rg, grant w = Some rg → RunGrants.mode rg ≠ OFF →
    caller_allows (app w) (registry w) (client w) rg (c_connector c) (c_tool c) (c_amount c) ∧
    (call_mode rg = WARN ∨ scope_allows rg (c_connector c) (c_tool c) ∧ covered (app w) (registry w) (client w) (token rg) (c_connector c) (c_tool c) (c_amount c)).
Proof.
  intros Hl Hi Hs HD Hov Hrd Htb Hr Ha. split_and!.
  - by eapply dispatched_action.
  - intros Hon. by eapply dispatched_not_halted.
  - intros rg Hg Hm. by eapply dispatched_grant.
Qed.

Module GuardExample.
#[export] Instance known_uuid : UuidText := λ s, Some s.

Definition reader : RunGrant := plain_grant DENY "token-1" "supplied" EmptyString.

(** The SDK lets the token read records. *)
Definition sdk : Client :=
  {| is_grantex := true;
     enforce := λ connector req, Ok {| allowed := String.eqb connector "crm" && String.eqb (req_tool req) "get_record"; reason_code := None; sub_reason := EmptyString;
       GrantEnforcement.reason := EmptyString; grant_id := "g1"; scopes := [] |};
     enforce_isolated := λ _ _, Err "RuntimeError"; covers := String.eqb |}.

Definition read_call : call :=
  {| c_tenant_id := "t1"; c_agent_scopes := ["tool:crm:read:record"]; c_connector := "crm"; c_tool := "get_record"; c_params := VNone; c_idempotency_key := None;
     c_amount := None; c_effective_token := None; c_company_id := Some "c1"; c_domain := true; c_run_grant := Some DENY; c_pseudonymiser := false |}.

Definition bare : Gateway := {| rate_limiter := false; idempotency := false; audit := false; strict_env := true |}.

(** In production, with agent [a1] halted and [a2] calling, and Redis down *)
Definition around : surroundings :=
  {| env := "production"; company := Uuid "c1"; dom := Some "operations"; authorization := None; flags := λ _ _ _ _, None; agent := Some "a2";
     overrides := HaltExample.after (7 * SECOND); control := Some true; override_redis := None; override_table := Some [HaltExample.halt];
     counter_redis := λ _, Unconnected "ConnectionError"; counter_state := HaltExample.no_counters;
     app := RunGrantExample.plain; registry := RunGrantExample.registry; client := Ok sdk; grant := Some reader |}.

Definition before (_ _ : string) : bool := true.
Definition str_limit (_ : option Z) : string := EmptyString.

Definition trace : list obs :=
  [Asked Check_operator_override (Ok None); Asked Evaluate_action (Ok (true, true, "read_action_allowed", VNone)); Asked Check_run_grant (Ok None);
   Asked (Screen_call VNone) (Ok None); Asked Resolve_connector (Ok true)].
End GuardExample.
Import GuardExample.

Lemma strict_gateway_is_contained_witness :
  (risk (action_decision before read_call around) = Some READ ∨ risk (action_decision before read_call around) = Some DRAFT) ∧
  (control around ≠ Some false → no_settled_halt SECOND read_call around) ∧
  ∀ rg, grant around = Some rg → RunGrants.mode rg ≠ OFF →
    caller_allows (app around) (registry around) (client around) rg "crm" "get_record" None ∧
    (call_mode rg = WARN ∨ scope_allows rg "crm" "get_record" ∧ covered (app around) (registry around) (client around) (token rg) "crm" "get_record" None).
Proof.
  refine (strict_gateway_is_contained before str_limit (λ v, v) SECOND 0 bare read_call around trace None _ _ _ _ _ _ _ _ _).
  - vm_compute. reflexivity.
  - split; vm_compute; reflexivity.
  - vm_compute. reflexivity.
  - vm_compute. discriminate.
  - apply HaltExample.after_reachable. vm_compute. discriminate.
  - by left.
  - by right.
  - repeat constructor.
  - apply Forall_cons_2; [vm_compute; reflexivity|]. apply Forall_cons_2; [exists VNone; vm_compute; reflexivity|].
    apply Forall_cons_2; [vm_compute; reflexivity|]. do 2 (apply Forall_cons_2; [exact I|]). constructor.
Defined.
