(* ===== verification/Cron.v ===== *)
(** Workflow triggers: src/workflows/trigger.py.

    Texts are sequences of code points below 256. [datetime.fromisoformat] is an argument. *)

From Stdlib Require Import Ascii.
From S2P Require Import Prelude PyVal PyText.

Local Open Scope Z_scope.

(** [ValueError], or the error of using a value of another type *)
Inductive trigger_error := ValueError | TypeError.

(** * Texts and numbers *)

(** [int(text)]: surrounding space, a sign, digits with single underscores between them *)
Fixpoint digits_of (l : list ascii) : option (list ascii) :=
  match l with
  | [] => Some []
  | c :: l' =>
      if is_digit c then
        match l' with
        | u :: ((d :: _) as l'') => if is_underscore u && is_digit d then (c ::.) <$> digits_of l'' else (c ::.) <$> digits_of l'
        | _ => (c ::.) <$> digits_of l'
        end
      else None
  end.

Definition py_int_text (s : string) : option Z :=
  let '(sign, body) := match chars (strip s) with
                       | "-"%char :: l => (-1, l)
                       | "+"%char :: l => (1, l)
                       | l => (1, l)
                       end in
  match body with [] => None | _ => (λ ds, sign * int_of_digits ds) <$> digits_of body end.

Definition int_of (s : string) : result trigger_error Z := of_option ValueError (py_int_text s).

(** [text.split(sep, 1)], when the separator is there *)
Fixpoint cut (sep : ascii) (l : list ascii) : option (list ascii * list ascii) :=
  match l with
  | [] => None
  | c :: l' => if Ascii.eqb c sep then Some ([], l') else (λ ab, (c :: fst ab, snd ab)) <$> cut sep l'
  end.
Definition split_once (sep : ascii) (s : string) : option (string * string) :=
  (λ ab, (of_chars (fst ab), of_chars (snd ab))) <$> cut sep (chars s).

(** [text.split()] *)
Fixpoint words_of (cur : list ascii) (l : list ascii) : list (list ascii) :=
  match l with
  | [] => match cur with [] => [] | _ => [reverse cur] end
  | c :: l' => if is_space c then match cur with [] => words_of [] l' | _ => reverse cur :: words_of [] l' end
               else words_of (c :: cur) l'
  end.
Definition words (s : string) : list string := of_chars <$> words_of [] (chars s).

Definition is_word_char (c : ascii) : bool := is_alnum c || is_underscore c.

(** [re.sub(rf"\b{name}\b", num, text, flags=re.IGNORECASE)] for a word of letters; [before] says whether the
    character before is of a word. *)
Fixpoint sub_word (fuel : nat) (name num : list ascii) (before : bool) (l : list ascii) : list ascii :=
  match fuel, l with
  | S fuel', c :: l' =>
      if negb before && bool_decide (lower_char <$> take (length name) l = name) &&
         match drop (length name) l with d :: _ => negb (is_word_char d) | [] => true end
      then num ++ sub_word fuel' name num true (drop (length name) l)
      else c :: sub_word fuel' name num (is_word_char c) l'
  | _, _ => l
  end.

Definition DOW_NAMES : list (string * Z) := [("sun", 0); ("mon", 1); ("tue", 2); ("wed", 3); ("thu", 4); ("fri", 5); ("sat", 6)].
Definition MONTH_NAMES : list (string * Z) :=
  [("jan", 1); ("feb", 2); ("mar", 3); ("apr", 4); ("may", 5); ("jun", 6); ("jul", 7); ("aug", 8); ("sep", 9); ("oct", 10); ("nov", 11); ("dec", 12)].

Definition _replace_names (field : string) (mapping : list (string * Z)) : string :=
  foldl (λ f nv, of_chars (sub_word (length (chars f)) (chars (fst nv)) (chars (pretty (snd nv))) false (chars f))) field mapping.

(** * Matching *)

(** [value in range(start, stop, step)]; [range] raises on a zero step. *)
Definition in_py_range (value start stop step : Z) : result trigger_error bool :=
  if step =? 0 then Err ValueError
  else if 0 <? step then Ok ((start <=? value) && (value <? stop) && ((value - start) mod step =? 0))
  else Ok ((stop <? value) && (value <=? start) && ((start - value) mod (- step) =? 0)).

(** One part of a field: whether it matches, or the error it raises *)
Definition part_matches (part : string) (value min_val max_val : Z) : result trigger_error bool :=
  match split_once "/" part with
  | Some (range_part, step_str) =>
      step ← int_of step_str;
      bounds ← (if String.eqb range_part "*" then Ok (min_val, max_val)
                else match split_once "-" range_part with
                | Some (a, b) => r_start ← int_of a; r_end ← int_of b; Ok (r_start, r_end)
                | None => r_start ← int_of range_part; Ok (r_start, max_val)
                end);
      in_py_range value (fst bounds) (snd bounds + 1) step
  | None =>
      match split_once "-" part with
      | Some (a, b) => r_start ← int_of a; r_end ← int_of b; Ok ((r_start <=? value) && (value <=? r_end))
      | None => n ← int_of part; Ok (n =? value)
      end
  end.

Fixpoint parts_match (parts : list string) (value min_val max_val : Z) : result trigger_error bool :=
  match parts with
  | [] => Ok false
  | part :: parts' =>
      let part := strip part in
      if String.eqb part "*" then Ok true
      else
        b ← part_matches part value min_val max_val;
        if b : bool then Ok true else parts_match parts' value min_val max_val
  end.

Definition _field_matches (field_expr : string) (value min_val max_val : Z) : result trigger_error bool :=
  parts_match (split "," field_expr) value min_val max_val.

(** The fields of the wall clock *)
Definition minute (d : datetime) : Z := wall d / 60000000 mod 60.
Definition hour (d : datetime) : Z := wall d / 3600000000 mod 24.
Definition day (d : datetime) : Z := let '(_, _, x) := civil_from_days (wall d / 86400000000) in x.
Definition month (d : datetime) : Z := let '(_, m, _) := civil_from_days (wall d / 86400000000) in m.
(** 1970-01-01 was a Thursday. *)
Definition isoweekday (d : datetime) : Z := (wall d / 86400000000 + 3) mod 7 + 1.

(** [a and b], where [b] may raise but is only evaluated when [a] holds *)
Definition and_then (a b : result trigger_error bool) : result trigger_error bool := x ← a; if x : bool then b else Ok false.

Definition cron_matches (expression : string) (dt : datetime) : result trigger_error bool :=
  match words (strip expression) with
  | [minute_f; hour_f; dom_f; month_f; dow_f] =>
      let month_f := _replace_names month_f MONTH_NAMES in
      let dow_f := _replace_names dow_f DOW_NAMES in
      and_then (_field_matches minute_f (minute dt) 0 59)
        (and_then (_field_matches hour_f (hour dt) 0 23)
          (and_then (_field_matches dom_f (day dt) 1 31)
            (and_then (_field_matches month_f (month dt) 1 12)
              (_field_matches dow_f (isoweekday dt mod 7) 0 6))))
  | _ => Err ValueError
  end.

(** * Triggers *)

Section trigger.
Context (fromisoformat : string → option datetime).

(** [replace(tzinfo=UTC)] *)
Definition as_aware (d : datetime) : datetime := match utcoffset d with None => {| wall := wall d; utcoffset := Some 0 |} | Some _ => d end.

Definition _matches_schedule (config event : list (string * pyval)) (now : datetime) : result trigger_error bool :=
  let cron_expr := get_val config "cron" in
  if negb (truthy cron_expr) then Ok false
  else
    let raw := get_val event "check_time" in
    let check_time :=
      if truthy raw then match raw with VStr s => match fromisoformat s with Some d => as_aware d | None => now end | _ => now end else now in
    match cron_expr with
    | VStr e => match cron_matches e check_time with Err ValueError => Ok false | r => r end
    | _ => Err TypeError
    end.

(** [any(f.lower() in subject.lower() for f in filters)] *)
Fixpoint any_contained (filters : list pyval) (subject : pyval) : result trigger_error bool :=
  match filters with
  | [] => Ok false
  | f :: l =>
      match f, subject with
      | VStr f, VStr s => if contains_text (lower f) (lower s) then Ok true else any_contained l subject
      | _, _ => Err TypeError
      end
  end.

Definition matches (trigger_type : string) (config event : list (string * pyval)) (now : datetime) : result trigger_error bool :=
  if String.eqb trigger_type "manual" then Ok true
  else if String.eqb trigger_type "webhook" then Ok true
  else if String.eqb trigger_type "email_received" then
    let subject := match assoc "subject" event with Some v => v | None => VStr EmptyString end in
    match match assoc "filter" config with Some v => v | None => VMap [] end with
    | VMap f =>
        match match assoc "subject_contains" f with Some v => v | None => VList [] end with
        | VList filters => any_contained filters subject
        | VStr s => any_contained ((λ c, VStr (of_chars [c])) <$> chars s) subject
        | VMap kvs => any_contained (VStr <$> kvs.*1) subject
        | _ => Err TypeError
        end
    | _ => Err TypeError
    end
  else if String.eqb trigger_type "api_event" then Ok (scalar_eqb (get_val event "event_type") (get_val config "event_type"))
  else if String.eqb trigger_type "schedule" then _matches_schedule config event now
  else Ok false.
End trigger.

Example every_weekday_morning :
  cron_matches "0 9 * JAN-mar MON-fri" {| wall := 1709283600000000; utcoffset := Some 0 |} = Ok true.
Proof. vm_compute. reflexivity. Qed.

(** * Expressions as they are written

    Numbers are non-empty lists of digits. *)

Inductive base := All | From (n : list ascii) | Between (a b : list ascii).

Inductive item :=
| Star
| Num (n : list ascii)
| Range (a b : list ascii)
| Step (b : base) (s : list ascii).

Definition base_chars (b : base) : list ascii :=
  match b with All => ["*"%char] | From n => n | Between a b => a ++ "-"%char :: b end.

Definition item_chars (i : item) : list ascii :=
  match i with Star => ["*"%char] | Num n => n | Range a b => a ++ "-"%char :: b | Step b s => base_chars b ++ "/"%char :: s end.

Definition number (ds : list ascii) : Prop := ds ≠ [] ∧ forallb is_digit ds = true.

Definition base_ok (b : base) : Prop := match b with All => True | From n => number n | Between a b => number a ∧ number b end.

Definition item_ok (i : item) : Prop :=
  match i with
  | Star => True | Num n => number n | Range a b => number a ∧ number b
  | Step b s => base_ok b ∧ number s ∧ int_of_digits s ≠ 0
  end.

(** The values an item stands for, of a field that goes from [lo] to [hi] *)
Definition covers (lo hi v : Z) (i : item) : bool :=
  let stepped a b s := (a <=? v) && (v <=? b) && ((v - a) mod s =? 0) in
  match i with
  | Star => true
  | Num n => int_of_digits n =? v
  | Range a b => (int_of_digits a <=? v) && (v <=? int_of_digits b)
  | Step All s => stepped lo hi (int_of_digits s)
  | Step (From n) s => stepped (int_of_digits n) hi (int_of_digits s)
  | Step (Between a b) s => stepped (int_of_digits a) (int_of_digits b) (int_of_digits s)
  end.

(** [sep.join(parts)] *)
Fixpoint joined (sep : ascii) (parts : list (list ascii)) : list ascii :=
  match parts with [] => [] | [p] => p | p :: parts' => p ++ sep :: joined sep parts' end.

Definition field_text (l : list item) : string := of_chars (joined "," (item_chars <$> l)).

(** ** Characters *)

Definition free_of (c : ascii) (l : list ascii) : Prop := forallb (λ x, negb (Ascii.eqb x c)) l = true.

Lemma free_of_app c l k : free_of c (l ++ k) ↔ free_of c l ∧ free_of c k.
Proof. unfold free_of. by rewrite forallb_app, andb_true_iff. Qed.

Lemma free_of_cons c x l : free_of c (x :: l) ↔ x ≠ c ∧ free_of c l.
Proof. unfold free_of. cbn. by rewrite andb_true_iff, negb_true_iff, Ascii.eqb_neq. Qed.

Lemma forallb_impl {A} (p q : A → bool) l : (∀ x, p x = true → q x = true) → forallb p l = true → forallb q l = true.
Proof. intros Hpq. induction l as [|x l IH]; cbn; [done|]. rewrite !andb_true_iff. naive_solver. Qed.

Lemma digit_cases c : is_digit c = true →
  is_space c = false ∧ is_underscore c = false ∧ c ≠ "-"%char ∧ c ≠ "+"%char ∧ c ≠ "/"%char ∧ c ≠ ","%char ∧ c ≠ "*"%char.
Proof. destruct c as [[] [] [] [] [] [] [] []]; vm_compute; intros Hd; try discriminate Hd; repeat split; discriminate. Qed.

Lemma number_free c ds : number ds → is_digit c = false → free_of c ds.
Proof.
  intros [_ Hd] Hc. revert Hd. apply forallb_impl. intros x Hx. apply negb_true_iff, Ascii.eqb_neq. intros ->. congruence.
Qed.

Lemma cut_free sep l k : free_of sep l → cut sep (l ++ sep :: k) = Some (l, k).
Proof.
  induction l as [|c l IH]; cbn; [by rewrite Ascii.eqb_refl|]. rewrite free_of_cons. intros [Hc Hl].
  apply Ascii.eqb_neq in Hc. rewrite Hc, IH by done. done.
Qed.

Lemma cut_none sep l : free_of sep l → cut sep l = None.
Proof.
  induction l as [|c l IH]; cbn; [done|]. rewrite free_of_cons. intros [Hc Hl]. apply Ascii.eqb_neq in Hc. by rewrite Hc, IH.
Qed.

Lemma split_once_free sep l k : free_of sep l → split_once sep (of_chars (l ++ sep :: k)) = Some (of_chars l, of_chars k).
Proof. intros Hl. unfold split_once. by rewrite chars_of_chars, cut_free. Qed.

Lemma split_once_none sep l : free_of sep l → split_once sep (of_chars l) = None.
Proof. intros Hl. unfold split_once. by rewrite chars_of_chars, cut_none. Qed.

Lemma number_strip ds : number ds → strip (of_chars ds) = of_chars ds.
Proof.
  intros [_ Hd]. apply strip_of_chars. revert Hd. apply forallb_impl. intros c Hc. apply digit_cases in Hc as [Hc _]. by rewrite Hc.
Qed.

Lemma digits_of_number ds : forallb is_digit ds = true → digits_of ds = Some ds.
Proof.
  induction ds as [|c ds IH]; [done|]. intros Hd. cbn in Hd. apply andb_true_iff in Hd as [Hc Hd]. specialize (IH Hd). cbn [digits_of]. rewrite Hc.
  destruct ds as [|u ds]; [done|]. cbn in Hd. apply andb_true_iff in Hd as [Hu _]. apply digit_cases in Hu as (_ & Hu & _).
  rewrite Hu. destruct ds; cbn [andb]; by rewrite IH.
Qed.

Lemma int_of_number ds : number ds → int_of (of_chars ds) = Ok (int_of_digits ds).
Proof.
  intros Hn. unfold int_of, py_int_text. rewrite number_strip, chars_of_chars by done. destruct Hn as [Hne Hd].
  destruct ds as [|c ds]; [done|]. pose proof Hd as Hc. cbn in Hc. apply andb_true_iff in Hc as [Hc _].
  apply digit_cases in Hc as (_ & _ & Hm & Hp & _).
  assert (match c :: ds with "-"%char :: l => (-1, l) | "+"%char :: l => (1, l) | l => (1, l) end = (1, c :: ds)) as ->.
  { destruct c as [[] [] [] [] [] [] [] []]; try done. }
  rewrite digits_of_number by done. cbn [fmap option_fmap option_map of_option]. f_equal. lia.
Qed.

(** ** Items, fields and expressions *)

Lemma in_py_range_step a b s v : 0 < s → in_py_range v a (b + 1) s = Ok ((a <=? v) && (v <=? b) && ((v - a) mod s =? 0)).
Proof.
  intros Hs. unfold in_py_range. destruct (Z.eqb_spec s 0); [lia|]. destruct (Z.ltb_spec 0 s); [|lia]. do 3 f_equal.
  apply eq_true_iff_eq. rewrite Z.ltb_lt, Z.leb_le. lia.
Qed.

Lemma int_of_digits_nonneg ds : forallb is_digit ds = true → 0 ≤ int_of_digits ds.
Proof.
  assert (∀ z, 0 ≤ z → forallb is_digit ds = true → 0 ≤ foldl (λ acc d, acc * 10 + (Z.of_nat (nat_of_ascii d) - 48)) z ds) as Hgen; [|intros Hd; by apply Hgen].
  induction ds as [|c ds IH]; intros z Hz; cbn [foldl forallb]; [done|]. rewrite andb_true_iff. intros [Hc Hd]. apply IH; [|done].
  unfold is_digit, in_range in Hc. apply andb_true_iff in Hc as [Hc _]. apply Nat.leb_le in Hc. lia.
Qed.

Lemma part_matches_item i v lo hi :
  item_ok i → i ≠ Star → part_matches (of_chars (item_chars i)) v lo hi = Ok (covers lo hi v i).
Proof.
  intros Hok Hne. unfold part_matches. destruct i as [|n|a b|bs s]; [done| | |]; cbn [item_chars item_ok] in *.
  - rewrite !split_once_none, int_of_number by (done || by apply number_free). done.
  - destruct Hok as [Ha Hb]. rewrite split_once_none.
    + rewrite split_once_free, !int_of_number by (done || by apply number_free). done.
    + apply free_of_app. split; [by apply number_free|]. apply free_of_cons. split; [done|by apply number_free].
  - destruct Hok as (Hbs & Hs & Hs0).
    assert (0 < int_of_digits s) as Hpos by (pose proof (int_of_digits_nonneg s (proj2 Hs)); lia).
    assert (free_of "/" (base_chars bs)) as Hfree.
    { destruct bs as [|n|a b]; cbn [base_chars base_ok] in *; [by apply free_of_cons|by apply number_free|]. destruct Hbs as [Ha Hb].
      apply free_of_app. split; [by apply number_free|]. apply free_of_cons. split; [done|by apply number_free]. }
    rewrite split_once_free, (int_of_number s) by done. cbv [mbind result_bind].
    destruct bs as [|n|a b]; cbn [base_chars base_ok covers] in *.
    + change (String.eqb (of_chars ["*"%char]) "*") with true. cbn [fst snd]. by rewrite in_py_range_step.
    + destruct (String.eqb_spec (of_chars n) "*") as [He|_].
      { exfalso. apply (f_equal chars) in He. rewrite chars_of_chars in He. subst n. by destruct Hbs as [_ Hd]. }
      rewrite split_once_none, int_of_number by (done || by apply number_free). cbn [fst snd]. by rewrite in_py_range_step.
    + destruct Hbs as [Ha Hb]. destruct (String.eqb_spec (of_chars (a ++ "-"%char :: b)) "*") as [He|_].
      { exfalso. apply (f_equal chars) in He. rewrite chars_of_chars in He. destruct a as [|c a]; [by destruct Ha|]. by destruct a. }
      rewrite split_once_free, !int_of_number by (done || by apply number_free). cbn [fst snd]. by rewrite in_py_range_step.
Qed.

(** Every character of an item is a digit or one of [*], [-] and [/]. *)
Definition item_char (c : ascii) : bool := is_digit c || existsb (Ascii.eqb c) ["*"; "-"; "/"]%char.

Lemma number_item_chars ds : number ds → forallb item_char ds = true.
Proof. intros [_ Hd]. revert Hd. apply forallb_impl. intros c Hc. unfold item_char. by rewrite Hc. Qed.

Lemma base_item_chars b : base_ok b → forallb item_char (base_chars b) = true.
Proof.
  destruct b as [|n|a b]; cbn [base_ok base_chars]; [done|apply number_item_chars|]. intros [Ha Hb].
  rewrite forallb_app. cbn [forallb]. by rewrite !number_item_chars.
Qed.

Lemma item_chars_plain i : item_ok i → forallb item_char (item_chars i) = true ∧ item_chars i ≠ [].
Proof.
  destruct i as [|n|a b|b s]; cbn [item_ok item_chars]; [done|..].
  - intros Hn. split; [by apply number_item_chars|by destruct Hn].
  - intros [Ha Hb]. rewrite forallb_app. cbn [forallb]. rewrite !number_item_chars by done. split; [done|by destruct a].
  - intros (Hb & Hs & _). rewrite forallb_app. cbn [forallb]. rewrite base_item_chars, number_item_chars by done. split; [done|by destruct (base_chars b)].
Qed.

Lemma item_char_cases c : item_char c = true → is_space c = false ∧ c ≠ ","%char ∧ (in_range c 97 122 || in_range (lower_char c) 97 122) = false.
Proof. destruct c as [[] [] [] [] [] [] [] []]; vm_compute; intros Hc; try discriminate Hc; repeat split; discriminate. Qed.

Lemma split_chars_joined sep parts cur :
  parts ≠ [] → Forall (free_of sep) parts →
  split_chars sep cur (joined sep parts) = match parts with p :: ps => (reverse cur ++ p) :: ps | [] => [] end.
Proof.
  intros Hne Hf. revert cur Hne. induction Hf as [|p ps Hp _ IH]; intros cur Hne; [done|].
  assert (∀ l cur, free_of sep p → split_chars sep cur (p ++ sep :: l) = (reverse cur ++ p) :: split_chars sep [] l) as Hhead.
  { clear. intros l. induction p as [|c p IH]; intros cur; cbn; [rewrite Ascii.eqb_refl, app_nil_r; done|].
    rewrite free_of_cons. intros [Hc Hp]. apply Ascii.eqb_neq in Hc. rewrite Hc, IH by done. by rewrite reverse_cons, <- app_assoc. }
  destruct ps as [|q ps]; cbn [joined].
  - clear IH Hhead Hne. revert cur Hp. induction p as [|c p IHp]; intros cur; cbn; [by rewrite app_nil_r|].
    rewrite free_of_cons. intros [Hc Hp]. apply Ascii.eqb_neq in Hc. rewrite Hc, IHp by done. by rewrite reverse_cons, <- app_assoc.
  - rewrite Hhead, IH by done. done.
Qed.

Lemma parts_match_items l v lo hi :
  Forall item_ok l → parts_match (of_chars <$> (item_chars <$> l)) v lo hi = Ok (existsb (covers lo hi v) l).
Proof.
  induction 1 as [|i l Hi _ IH]; [done|]. cbn [fmap list_fmap parts_match existsb].
  destruct (item_chars_plain i Hi) as [Hp _].
  rewrite strip_of_chars by (revert Hp; apply forallb_impl; intros c Hc; apply item_char_cases in Hc as [Hc _]; by rewrite Hc).
  destruct (String.eqb_spec (of_chars (item_chars i)) "*") as [He|He].
  - apply (f_equal chars) in He. rewrite chars_of_chars in He. destruct i as [|n|a b|b s]; [done| | |]; exfalso; cbn in He.
    + subst n. by destruct Hi.
    + destruct a as [|c a]; [by destruct Hi as [[? _] _]|by destruct a].
    + destruct (base_chars b) as [|c [|]] eqn:E; [|done..]. by destruct b as [|n|[|] ?]; cbn in *; subst; destruct Hi as [Hb _]; destruct_and?; try destruct Hb.
  - assert (i ≠ Star) by by intros ->. rewrite part_matches_item by done. cbv [mbind result_bind]. rewrite IH. by destruct (covers lo hi v i).
Qed.

(** What a field says it matches *)
Lemma field_matches_items l v lo hi :
  l ≠ [] → Forall item_ok l → _field_matches (field_text l) v lo hi = Ok (existsb (covers lo hi v) l).
Proof.
  intros Hne Hl. unfold _field_matches, split, field_text. rewrite chars_of_chars, split_chars_joined.
  - rewrite <- (parts_match_items l v lo hi) by done. by destruct l.
  - by destruct l.
  - apply Forall_fmap. eapply Forall_impl; [exact Hl|]. intros i Hi. destruct (item_chars_plain i Hi) as [Hp _]. cbn. revert Hp.
    apply forallb_impl. intros c Hc. apply item_char_cases in Hc as (_ & Hc & _). by apply negb_true_iff, Ascii.eqb_neq.
Qed.

(** ** Names and words *)

Definition field_char (c : ascii) : bool := item_char c || Ascii.eqb c ",".

Lemma field_text_chars l : l ≠ [] → Forall item_ok l → forallb field_char (chars (field_text l)) = true ∧ chars (field_text l) ≠ [].
Proof.
  intros Hne Hl. unfold field_text. rewrite chars_of_chars. induction Hl as [|i l Hi _ IH]; [done|].
  destruct (item_chars_plain i Hi) as [Hp Hn].
  assert (forallb field_char (item_chars i) = true) as Hp' by (revert Hp; apply forallb_impl; intros c Hc; unfold field_char; by rewrite Hc).
  destruct l as [|i' l]; cbn [fmap list_fmap joined] in *; [done|]. destruct IH as [IH _]; [done|]. rewrite forallb_app. cbn [forallb].
  rewrite Hp', IH. split; [done|by destruct (item_chars i)].
Qed.

Lemma field_char_cases c : field_char c = true → is_space c = false ∧ in_range (lower_char c) 97 122 = false.
Proof. destruct c as [[] [] [] [] [] [] [] []]; vm_compute; intros Hc; try discriminate Hc; repeat split. Qed.

Lemma sub_word_plain fuel x name num before l :
  in_range x 97 122 = true → forallb field_char l = true → sub_word fuel (x :: name) num before l = l.
Proof.
  intros Hx. revert before l. induction fuel as [|fuel IH]; intros before l Hl; [done|]. destruct l as [|c l]; [done|].
  cbn in Hl. apply andb_true_iff in Hl as [Hc Hl]. cbn [sub_word].
  assert (bool_decide (lower_char <$> take (length (x :: name)) (c :: l) = x :: name) = false) as ->.
  { apply bool_decide_eq_false. cbn. intros [= He _]. apply field_char_cases in Hc as [_ Hc]. congruence. }
  rewrite andb_false_r. cbn [andb]. by rewrite IH.
Qed.

Lemma replace_names_plain f mapping :
  forallb field_char (chars f) = true → Forall (λ nv, ∃ x name, chars (fst nv) = x :: name ∧ in_range x 97 122 = true) mapping →
  _replace_names f mapping = f.
Proof.
  intros Hf Hm. unfold _replace_names. induction Hm as [|nv mapping (x & name & Hn & Hx) _ IH]; [done|]. cbn.
  rewrite Hn, sub_word_plain, of_chars_chars by done. done.
Qed.

Lemma words_of_nospace cur l : forallb (λ c, negb (is_space c)) l = true → words_of cur l = match reverse cur ++ l with [] => [] | w => [w] end.
Proof.
  revert cur. induction l as [|c l IH]; intros cur Hl; cbn [words_of].
  - rewrite app_nil_r. destruct cur as [|c cur]; [done|]. rewrite reverse_cons. by destruct (reverse cur).
  - cbn in Hl. apply andb_true_iff in Hl as [Hc Hl]. apply negb_true_iff in Hc. rewrite Hc, IH by done. by rewrite reverse_cons, <- app_assoc.
Qed.

Lemma words_of_space cur w l :
  forallb (λ c, negb (is_space c)) w = true → reverse cur ++ w ≠ [] → words_of cur (w ++ " "%char :: l) = (reverse cur ++ w) :: words_of [] l.
Proof.
  revert cur. induction w as [|c w IH]; intros cur Hw Hne; cbn [app words_of].
  - rewrite app_nil_r in *. change (is_space " ") with true. cbn. by destruct cur.
  - cbn in Hw. apply andb_true_iff in Hw as [Hc Hw]. apply negb_true_iff in Hc. rewrite Hc, IH; [|done|].
    + by rewrite reverse_cons, <- app_assoc.
    + rewrite reverse_cons, <- app_assoc. by destruct (reverse cur).
Qed.

Lemma words_joined ws :
  Forall (λ w, forallb (λ c, negb (is_space c)) w = true ∧ w ≠ []) ws → words_of [] (joined " " ws) = ws.
Proof.
  induction 1 as [|w ws [Hw Hne] Hws IH]; [done|]. destruct ws as [|w' ws].
  - cbn [joined]. rewrite words_of_nospace by done. by destruct w.
  - change (joined " " (w :: w' :: ws)) with (w ++ " "%char :: joined " " (w' :: ws)). rewrite words_of_space by done. by rewrite IH.
Qed.

(** ** Expressions *)

Record expression := { e_minute : list item; e_hour : list item; e_dom : list item; e_month : list item; e_dow : list item }.

Definition fields (e : expression) : list (list item) := [e_minute e; e_hour e; e_dom e; e_month e; e_dow e].

Definition expression_text (e : expression) : string := of_chars (joined " " ((λ l, chars (field_text l)) <$> fields e)).

Definition expression_ok (e : expression) : Prop := Forall (λ l, l ≠ [] ∧ Forall item_ok l) (fields e).

Lemma expression_words e : expression_ok e → words (strip (expression_text e)) = field_text <$> fields e.
Proof.
  intros He. assert (Forall (λ w, forallb (λ c, negb (is_space c)) w = true ∧ w ≠ []) ((λ l, chars (field_text l)) <$> fields e)) as Hw.
  { apply Forall_fmap. eapply Forall_impl; [exact He|]. intros l [Hne Hl]. destruct (field_text_chars l Hne Hl) as [Hc Hn]. cbn. split; [|done].
    revert Hc. apply forallb_impl. intros c Hc. apply field_char_cases in Hc as [Hc _]. by rewrite Hc. }
  assert (strip (expression_text e) = expression_text e) as ->.
  { unfold expression_text, fields in *. cbn [fmap list_fmap] in *.
    apply Forall_cons in Hw as [[H1 N1] Hw]. do 3 apply Forall_cons in Hw as [_ Hw]. apply Forall_cons in Hw as [[H5 N5] _].
    cbn [joined]. set (a := chars (field_text (e_minute e))) in *. set (b := chars (field_text (e_dow e))) in *.
    match goal with |- strip (of_chars (a ++ " "%char :: ?f2 ++ " "%char :: ?f3 ++ " "%char :: ?f4 ++ " "%char :: b)) = _ =>
      replace (a ++ " "%char :: f2 ++ " "%char :: f3 ++ " "%char :: f4 ++ " "%char :: b)
        with (a ++ (" "%char :: f2 ++ " "%char :: f3 ++ " "%char :: f4 ++ [" "%char]) ++ b)
        by (cbn; by repeat (rewrite <- ?app_assoc; cbn)) end.
    by apply strip_ends. }
  unfold words, expression_text. rewrite chars_of_chars, words_joined by done. rewrite <- list_fmap_compose.
  apply list_fmap_ext. intros i l _. apply of_chars_chars.
Qed.

Lemma and_then_Ok a b : and_then (Ok a) (Ok b) = Ok (a && b).
Proof. by destruct a. Qed.

Lemma cron_matches_fields e dt :
  expression_ok e →
  cron_matches (expression_text e) dt =
  Ok (existsb (covers 0 59 (minute dt)) (e_minute e) && (existsb (covers 0 23 (hour dt)) (e_hour e) &&
      (existsb (covers 1 31 (day dt)) (e_dom e) && (existsb (covers 1 12 (month dt)) (e_month e) &&
       existsb (covers 0 6 (isoweekday dt mod 7)) (e_dow e))))).
Proof.
  intros He. unfold cron_matches. rewrite expression_words by done. unfold expression_ok, fields in *. cbn [fmap list_fmap].
  repeat match goal with H : Forall _ (_ :: _) |- _ => apply Forall_cons in H as [[? ?] ?] end.
  assert (∀ l mapping, l ≠ [] → Forall item_ok l → Forall (λ nv, ∃ x name, chars (fst nv) = x :: name ∧ in_range x 97 122 = true) mapping →
            _replace_names (field_text l) mapping = field_text l) as Hplain.
  { intros l mapping Hne Hl Hm. apply replace_names_plain; [|done]. by apply field_text_chars. }
  rewrite !Hplain by (done || (repeat constructor; do 2 eexists; split; reflexivity)).
  rewrite !field_matches_items by done. by rewrite !and_then_Ok.
Qed.

(** A written expression (five fields of comma-separated stars, numbers, ranges and steps) matches a
    moment exactly when each field lists the minute, hour, day of the month, month and day of the week,
    Sunday being 0, of the moment's own wall clock; no such expression raises. *)
Theorem cron_expression_means_its_fields e dt :
  expression_ok e →
  cron_matches (expression_text e) dt =
  Ok (existsb (covers 0 59 (minute dt)) (e_minute e) && (existsb (covers 0 23 (hour dt)) (e_hour e) &&
      (existsb (covers 1 31 (day dt)) (e_dom e) && (existsb (covers 1 12 (month dt)) (e_month e) &&
       existsb (covers 0 6 (isoweekday dt mod 7)) (e_dow e))))).
Proof. apply cron_matches_fields. Qed.

(** Day 7 of the week, documented as another name of Sunday, is no day at all: an expression whose
    last field is [7] never matches. *)
Theorem day_seven_never_matches m h d mo dt :
  Forall (λ l, l ≠ [] ∧ Forall item_ok l) [m; h; d; mo] →
  cron_matches (expression_text {| e_minute := m; e_hour := h; e_dom := d; e_month := mo; e_dow := [Num ["7"%char]] |}) dt = Ok false.
Proof.
  intros Hf. rewrite cron_matches_fields.
  - cbn [e_dow existsb covers]. change (int_of_digits ["7"%char]) with 7.
    pose proof (Z.mod_pos_bound (isoweekday dt) 7 ltac:(lia)). destruct (Z.eqb_spec 7 (isoweekday dt mod 7)); [lia|].
    by rewrite !andb_false_r.
  - unfold expression_ok, fields. cbn. change [m; h; d; mo; [Num ["7"%char]]] with ([m; h; d; mo] ++ [[Num ["7"%char]]]).
    apply Forall_app. split; [done|]. by repeat constructor.
Qed.

(** Nine in the morning on weekdays, every quarter of an hour *)
Definition example_expression : expression :=
  {| e_minute := [Step All ["1"; "5"]%char]; e_hour := [Num ["9"%char]]; e_dom := [Star]; e_month := [Range ["1"%char] ["6"%char]; Num ["1"; "2"]%char];
     e_dow := [Range ["1"%char] ["5"%char]] |}.

Lemma example_expression_ok : expression_ok example_expression.
Proof. unfold expression_ok, fields. cbn. repeat constructor; try discriminate. Qed.

Lemma cron_expression_means_its_fields_witness :
  expression_text example_expression = "*/15 9 * 1-6,12 1-5" ∧
  cron_matches (expression_text example_expression) {| wall := 1709284500000000; utcoffset := Some 0 |} = Ok true.
Proof.
  split; [vm_compute; reflexivity|].
  refine (eq_trans (cron_expression_means_its_fields example_expression {| wall := 1709284500000000; utcoffset := Some 0 |} example_expression_ok) _).
  vm_compute. reflexivity.
Defined.

(** A Sunday *)
Lemma day_seven_never_matches_witness :
  isoweekday {| wall := 1709424000000000; utcoffset := Some 0 |} = 7 ∧
  cron_matches (expression_text {| e_minute := [Star]; e_hour := [Star]; e_dom := [Star]; e_month := [Star]; e_dow := [Num ["7"%char]] |})
    {| wall := 1709424000000000; utcoffset := Some 0 |} = Ok false.
Proof.
  split; [vm_compute; reflexivity|].
  apply (day_seven_never_matches [Star] [Star] [Star] [Star] {| wall := 1709424000000000; utcoffset := Some 0 |}).
  repeat constructor; discriminate.
Defined.
