(* ===== verification/UcpQuantity.v ===== *)
(** Quantities of checkout lines: src/core/commerce/ucp/quantity.py.

    A quantity counts steps of [10^-scale] of a unit; amounts are exact integers. An error is its UCP
    message code; the human-readable texts are left out. *)

From Stdlib Require Import Ascii.
From S2P Require Import Prelude PyVal PyText.

Local Open Scope Z_scope.

Definition MAX_QUANTITY : Z := 2 ^ 53 - 1.
Definition MAX_SCALE : Z := 15.
Definition EACH : string := "C62".

(** [X] and two digits or capitals *)
Definition package_char (c : ascii) : bool := is_digit c || is_upper_az c.
Definition _REC21_PACKAGE (unit_ : string) : bool :=
  match chars unit_ with [x; a; b] => Ascii.eqb x "X" && package_char a && package_char b | _ => false end.

Record QuantityUnit := { unit_code : string; scale : Z; display_text : string; increment : Z }.

#[global] Instance QuantityUnit_eq_dec : EqDecision QuantityUnit.
Proof. solve_decision. Defined.

Definition EACH_UNIT : QuantityUnit := {| unit_code := EACH; scale := 0; display_text := "each"; increment := 1 |}.

Definition identity (u : QuantityUnit) : string * Z := (unit_code u, scale u).
Definition is_each (u : QuantityUnit) : bool := String.eqb (unit_code u) EACH && (scale u =? 0).

(** [value.get(key, default)] *)
Definition get_default (d : list (string * pyval)) (k : string) (dflt : pyval) : pyval := default dflt (assoc k d).

(** An integer that is not a boolean, in a range *)
Definition int_within (v : pyval) (lo hi : Z) : option Z :=
  match v with VInt z => if (lo <=? z) && (z <=? hi) then Some z else None | _ => None end.

Definition text_given (v : pyval) : option string := match v with VStr s => if blank s then None else Some (strip s) | _ => None end.

Definition parse_quantity_unit (value : pyval) : result string QuantityUnit :=
  let bad := "invalid_quantity_unit" in
  match value with
  | VMap d =>
      unit_ ← of_option bad (text_given (get_default d "unit" VNone));
      _ ← raise_if (_REC21_PACKAGE unit_) bad;
      sc ← of_option bad (int_within (get_default d "scale" (VInt 0)) 0 MAX_SCALE);
      _ ← raise_if (String.eqb unit_ EACH && negb (sc =? 0)) bad;
      inc ← of_option bad (int_within (get_default d "increment" (VInt 1)) 1 MAX_QUANTITY);
      disp ← of_option bad (text_given (get_default d "display_text" VNone));
      Ok {| unit_code := unit_; scale := sc; display_text := disp; increment := inc |}
  | _ => Err bad
  end.

Definition parse_quantity (value : pyval) : result string Z := of_option "invalid_quantity" (int_within value 1 MAX_QUANTITY).

Definition line_amount (unit_price_minor quantity sc : Z) : Z :=
  let numerator := unit_price_minor * quantity in
  let denominator := 10 ^ sc in
  let quotient := numerator / denominator in
  let twice := (numerator mod denominator) * 2 in
  if (denominator <? twice) || ((twice =? denominator) && (quotient mod 2 =? 1)) then quotient + 1 else quotient.

(** The quantity, and whether a conversion warning goes with it *)
Record Reconciled := { quantity : Z; converted : bool }.

Definition reconcile (asserted : option QuantityUnit) (authoritative : QuantityUnit) (q : Z) : result string Reconciled :=
  match asserted with
  | None => Ok {| quantity := q; converted := false |}
  | Some a =>
      if bool_decide (identity a = identity authoritative) then Ok {| quantity := q; converted := false |}
      else
        _ ← raise_if (negb (String.eqb (unit_code a) (unit_code authoritative))) "quantity_unit_mismatch";
        let shift := scale authoritative - scale a in
        c ← (if 0 <=? shift then Ok (q * 10 ^ shift)
             else if negb (q mod 10 ^ (- shift) =? 0) then Err "quantity_unit_mismatch" else Ok (q / 10 ^ (- shift)));
        c' ← parse_quantity (VInt c);
        Ok {| quantity := c'; converted := true |}
  end.

Definition to_dict (u : QuantityUnit) : list (string * pyval) :=
  [("unit", VStr (unit_code u)); ("display_text", VStr (display_text u))] ++ (if scale u =? 0 then [] else [("scale", VInt (scale u))]) ++
  (if increment u =? 1 then [] else [("increment", VInt (increment u))]).

Definition increment_warning (u : QuantityUnit) (q : Z) : bool := (1 <? increment u) && negb (q mod increment u =? 0).

(** * Units *)

(** What a parsed unit satisfies *)
Definition unit_ok (u : QuantityUnit) : Prop :=
  unit_code u ≠ EmptyString ∧ _REC21_PACKAGE (unit_code u) = false ∧ 0 ≤ scale u ≤ MAX_SCALE ∧ (unit_code u = EACH → scale u = 0) ∧
  1 ≤ increment u ≤ MAX_QUANTITY.

Lemma int_within_Some v lo hi z : int_within v lo hi = Some z ↔ v = VInt z ∧ lo ≤ z ≤ hi.
Proof.
  destruct v; cbn; try naive_solver. destruct ((lo <=? z0) && (z0 <=? hi)) eqn:E.
  - apply andb_true_iff in E as [?%Z.leb_le ?%Z.leb_le]. naive_solver.
  - split; [done|]. intros [[= ->] [?%Z.leb_le ?%Z.leb_le]]. rewrite andb_false_iff in E. destruct E; congruence.
Qed.

Lemma strip_blank s : blank s = false → strip s ≠ EmptyString.
Proof.
  unfold blank, strip. intros Hb He. apply (f_equal chars) in He. rewrite chars_of_chars in He. cbn in He.
  set (a := drop_while is_space (chars s)) in *. destruct (drop_while_suffix is_space (reverse a)) as [k Hk].
  apply (f_equal reverse) in He. rewrite reverse_involutive in He. cbn in He. rewrite He, app_nil_r in Hk.
  assert (forallb is_space a = true) as Ha.
  { rewrite <- forallb_reverse. clear -He. induction (reverse a) as [|c l IH]; [done|]. cbn in *. destruct (is_space c); [auto|done]. }
  assert (a = []) as Ha'.
  { unfold a in *. clear -Ha. induction (chars s) as [|c l IH]; [done|]. cbn in *. destruct (is_space c) eqn:E; [auto|]. cbn in Ha. by rewrite E in Ha. }
  assert (forallb is_space (chars s) = true); [|congruence]. unfold a in Ha'. clear -Ha'. induction (chars s) as [|c l IH]; [done|]. cbn in *.
  by destruct (is_space c); [apply IH|].
Qed.

Lemma parse_quantity_unit_ok v u : parse_quantity_unit v = Ok u → unit_ok u.
Proof.
  destruct v as [| | | | | |d| |]; try done. unfold parse_quantity_unit. intros Hu.
  inv_ok. unfold text_given in *. repeat match goal with H : match ?x with _ => _ end = Some _ |- _ => destruct x eqn:?; try discriminate end. simplify_eq.
  repeat match goal with H : int_within _ _ _ = Some _ |- _ => apply int_within_Some in H as [_ H] end.
  unfold unit_ok. cbn. split_and!; try done; try lia; [by apply strip_blank|].
  intros He. rewrite He in *. cbn in *. match goal with H : negb (_ =? 0) = false |- _ => apply negb_false_iff, Z.eqb_eq in H; done end.
Qed.

Lemma blank_strip s : blank s = true → strip s = EmptyString.
Proof.
  unfold blank, strip. intros Hb. assert (drop_while is_space (chars s) = []) as ->; [|done].
  induction (chars s) as [|c l IH]; [done|]. cbn in *. by apply andb_true_iff in Hb as [-> ?%IH].
Qed.

Lemma text_given_strip s : blank s = false → text_given (VStr (strip s)) = Some (strip s).
Proof.
  intros Hb. cbn. rewrite strip_idem. destruct (blank (strip s)) eqn:E; [|done].
  apply blank_strip in E. rewrite strip_idem in E. by apply strip_blank in Hb.
Qed.

Lemma to_dict_get u :
  get_default (to_dict u) "unit" VNone = VStr (unit_code u) ∧ get_default (to_dict u) "display_text" VNone = VStr (display_text u) ∧
  get_default (to_dict u) "scale" (VInt 0) = VInt (scale u) ∧ get_default (to_dict u) "increment" (VInt 1) = VInt (increment u).
Proof.
  unfold to_dict, get_default. destruct (Z.eqb_spec (scale u) 0) as [->|]; destruct (Z.eqb_spec (increment u) 1) as [->|]; done.
Qed.

(** A parsed unit survives being rendered and parsed again. *)
Lemma to_dict_parse v u : parse_quantity_unit v = Ok u → parse_quantity_unit (VMap (to_dict u)) = Ok u.
Proof.
  destruct v as [| | | | | |d| |]; try done. unfold parse_quantity_unit. intros Hu. destruct (to_dict_get u) as (-> & -> & -> & ->).
  assert (∀ v s, text_given v = Some s → text_given (VStr s) = Some s) as Ht.
  { intros [] t Ht; try done. unfold text_given in Ht. destruct (blank s) eqn:E; [done|]. injection Ht as <-. by apply text_given_strip. }
  assert (∀ v lo hi z, int_within v lo hi = Some z → int_within (VInt z) lo hi = Some z) as Hi.
  { intros v lo hi z [_ Hz]%int_within_Some. by apply int_within_Some. }
  inv_ok. cbn [unit_code scale display_text increment].
  repeat match goal with
  | H : text_given _ = Some _ |- _ => apply Ht in H; rewrite H; clear H
  | H : int_within _ _ _ = Some _ |- _ => apply Hi in H; rewrite H; clear H
  | H : ?b = false |- context[raise_if ?b] => rewrite H; clear H
  | _ => progress cbn [of_option mbind result_bind raise_if]
  end. done.
Qed.

(** * Amounts *)

(** The nearest integer to the exact amount, the even one of two *)
Definition nearest_even (num den r : Z) : Prop := Z.abs (2 * (r * den - num)) ≤ den ∧ (Z.abs (2 * (r * den - num)) = den → Z.even r = true).

Lemma half_even num den : 0 < den →
  let q := num / den in let twice := (num mod den) * 2 in
  nearest_even num den (if (den <? twice) || ((twice =? den) && (q mod 2 =? 1)) then q + 1 else q).
Proof.
  intros Hd. cbn zeta. pose proof (Z.div_mod num den ltac:(lia)). pose proof (Z.mod_pos_bound num den Hd). set (q := num / den) in *. set (m := num mod den) in *.
  assert (q * den = num - m) as Hq by lia. unfold nearest_even.
  destruct (Z.ltb_spec den (m * 2)); cbn [orb]; [split; [|intros]; nia|]. destruct (Z.eqb_spec (m * 2) den); cbn [andb].
  - destruct (Z.eqb_spec (q mod 2) 1).
    + split; [nia|]. intros _. rewrite Z.even_add. rewrite Zmod_odd in e0. destruct (Z.odd q) eqn:Eo; [|done]. by rewrite <- Z.negb_odd, Eo.
    + split; [nia|]. intros _. rewrite Zmod_odd in n. rewrite <- Z.negb_odd. by destruct (Z.odd q).
  - split; [nia|]. intros Ha. exfalso. nia.
Qed.

Lemma nearest_even_unique num den r r' : 0 < den → nearest_even num den r → nearest_even num den r' → r = r'.
Proof.
  intros Hd [H1 H2] [H1' H2']. destruct (Z.lt_trichotomy r r') as [Hr|[Hr|Hr]]; [|done|].
  - assert (r' = r + 1) as -> by nia. assert (Z.abs (2 * (r * den - num)) = den ∧ Z.abs (2 * ((r + 1) * den - num)) = den) as [E E'] by nia.
    specialize (H2 E). specialize (H2' E'). rewrite Z.even_add, H2 in H2'. done.
  - assert (r = r' + 1) as -> by nia. assert (Z.abs (2 * (r' * den - num)) = den ∧ Z.abs (2 * ((r' + 1) * den - num)) = den) as [E E'] by nia.
    specialize (H2' E). specialize (H2 E'). rewrite Z.even_add, H2' in H2. done.
Qed.

Lemma nearest_even_scale num den k r : 0 < k → nearest_even (num * k) (den * k) r ↔ nearest_even num den r.
Proof.
  intros Hk. unfold nearest_even. replace (2 * (r * (den * k) - num * k)) with (2 * (r * den - num) * k) by ring. rewrite Z.abs_mul, (Z.abs_eq k) by lia.
  split; intros [H1 H2]; (split; [nia|intros; apply H2; nia]).
Qed.

Lemma line_amount_nearest p q s : 0 ≤ s → nearest_even (p * q) (10 ^ s) (line_amount p q s).
Proof. intros Hs. apply half_even. lia. Qed.

(** * Conversions *)

(** The same quantity at two scales *)
Definition same_measure (a u : QuantityUnit) (q q' : Z) : Prop := unit_code a = unit_code u ∧ q' * 10 ^ scale a = q * 10 ^ scale u.

Lemma reconcile_spec a u q r : 0 ≤ scale a → 0 ≤ scale u → identity a ≠ identity u →
  reconcile (Some a) u q = Ok r ↔ same_measure a u q (quantity r) ∧ 1 ≤ quantity r ≤ MAX_QUANTITY ∧ converted r = true.
Proof.
  intros Ha Hu Hid. unfold reconcile. rewrite bool_decide_false by done. unfold same_measure.
  destruct (String.eqb_spec (unit_code a) (unit_code u)) as [He|He]; cbn [negb raise_if mbind result_bind]; [|split; [done|intros [[? _] _]; done]].
  assert (∀ c, (c' ← parse_quantity (VInt c); Ok {| quantity := c'; converted := true |}) = Ok r ↔ quantity r = c ∧ 1 ≤ quantity r ≤ MAX_QUANTITY ∧ converted r = true) as Hp.
  { intros c. unfold parse_quantity. destruct (int_within (VInt c) 1 MAX_QUANTITY) as [z|] eqn:E; cbn.
    - apply int_within_Some in E as [[= ->] ?]. destruct r; cbn. naive_solver.
    - split; [done|]. intros (<- & Hb & _). assert (int_within (VInt (quantity r)) 1 MAX_QUANTITY = Some (quantity r)) by (by apply int_within_Some). congruence. }
  destruct (Z.leb_spec 0 (scale u - scale a)) as [Hs|Hs]; cbn [mbind result_bind].
  - assert (10 ^ scale u = 10 ^ (scale u - scale a) * 10 ^ scale a) as -> by (rewrite <- Z.pow_add_r by lia; f_equal; lia).
    rewrite Hp. assert (0 < 10 ^ scale a) by lia. set (k := 10 ^ (scale u - scale a)).
    split; [intros (-> & ? & ?); split_and!; try done; nia|intros ((_ & E) & ? & ?); split_and!; try done; nia].
  - assert (10 ^ scale a = 10 ^ (- (scale u - scale a)) * 10 ^ scale u) as -> by (rewrite <- Z.pow_add_r by lia; f_equal; lia).
    set (k := 10 ^ (- (scale u - scale a))). assert (0 < k) by (unfold k; lia). assert (0 < 10 ^ scale u) by lia.
    destruct (Z.eqb_spec (q mod k) 0) as [Hm|Hm]; cbn [negb mbind result_bind].
    + rewrite Hp. pose proof (Z.div_mod q k ltac:(lia)). split; [intros (-> & ? & ?); split_and!; try done; nia|].
      intros ((_ & E) & [? ?] & ?). split_and!; try done. assert (quantity r * k = q) by nia. nia.
    + split; [done|]. intros ((_ & E) & _). exfalso. apply Hm. assert (q = quantity r * k) as -> by nia. by apply Z.mod_mul; lia.
Qed.

(** Quantities are converted exactly or not at all. When the platform asserts another scale of the
    item's unit, the quantity is accepted exactly when the same measure is a whole number of the
    item's steps in range, and then the line costs what the asserted quantity of the asserted unit
    costs, rounded once, half to even; another unit is refused. *)
Theorem conversion_is_exact a u q r price : unit_ok a → unit_ok u → identity a ≠ identity u →
  (reconcile (Some a) u q = Ok r ↔ same_measure a u q (quantity r) ∧ 1 ≤ quantity r ≤ MAX_QUANTITY ∧ converted r = true) ∧
  (reconcile (Some a) u q = Ok r → line_amount price (quantity r) (scale u) = line_amount price q (scale a) ∧
     nearest_even (price * q) (10 ^ scale a) (line_amount price (quantity r) (scale u))).
Proof.
  intros (_ & _ & [Ha _] & _) (_ & _ & [Hu _] & _) Hid. pose proof (reconcile_spec a u q r Ha Hu Hid) as Hspec. split; [done|].
  rewrite Hspec. intros ((_ & E) & _ & _). assert (nearest_even (price * q) (10 ^ scale a) (line_amount price (quantity r) (scale u))) as Hn.
  { apply (nearest_even_scale _ _ (10 ^ scale u)); [lia|]. assert (price * q * 10 ^ scale u = price * quantity r * 10 ^ scale a) as -> by (rewrite <- !Z.mul_assoc; by rewrite E).
    rewrite (Z.mul_comm (10 ^ scale a)). apply nearest_even_scale; [lia|]. by apply line_amount_nearest. }
  split; [|done]. eapply nearest_even_unique; [|exact Hn|by apply line_amount_nearest]. lia.
Qed.

Module QuantityExample.
Definition grams : QuantityUnit := {| unit_code := "KGM"; scale := 3; display_text := "kg"; increment := 1 |}.
Definition hundred_grams : QuantityUnit := {| unit_code := "KGM"; scale := 1; display_text := "kg"; increment := 1 |}.
Example grams_ok : unit_ok grams.
Proof. unfold unit_ok. cbn. split_and!; try done; vm_compute; discriminate. Qed.
Example hundred_grams_ok : unit_ok hundred_grams.
Proof. unfold unit_ok. cbn. split_and!; try done; vm_compute; discriminate. Qed.
End QuantityExample.
Import QuantityExample.

Lemma conversion_is_exact_witness :
  line_amount 999 15 1 = line_amount 999 1500 3 ∧ nearest_even (999 * 1500) (10 ^ 3) (line_amount 999 15 1).
Proof.
  refine (proj2 (conversion_is_exact grams hundred_grams 1500 {| quantity := 15; converted := true |} 999 grams_ok hundred_grams_ok _) _); [discriminate|reflexivity].
Defined.

(** The unit is described as a UN/CEFACT Recommendation 20 code; any text that is not a package code is accepted. *)
Theorem any_text_is_a_unit :
  parse_quantity_unit (VMap [("unit", VStr "half a dozen"); ("display_text", VStr "x")]) =
  Ok {| unit_code := "half a dozen"; scale := 0; display_text := "x"; increment := 1 |}.
Proof. reflexivity. Qed.
