(* ===== verification/UcpDelivery.v ===== *)
(** Where a shop delivers: the local delivery area of src/core/commerce/ucp/delivery_area.py and the
    zones of shipping rates ([DeliveryRate] of src/core/commerce/ucp/shopify_reads.py).

    Postal codes are text of 256 characters; keys of regions go through the compatibility
    decomposition of those characters. *)

From Stdlib Require Import Ascii.
From S2P Require Import Prelude PyVal PyText.

Local Open Scope Z_scope.

Definition MAX_POSTAL_PREFIXES : nat := 50.
Definition MAX_PREFIX_CHARS : nat := 10.

Definition AZ09 (c : ascii) : bool := is_upper_az c || is_digit c.
Definition is_separator (c : ascii) : bool := is_space c || Ascii.eqb c "-".

(** Of a value that is neither text nor a whole number, nothing *)
Definition compact_postal_code (value : pyval) : string :=
  let compact s := upper (of_chars (List.filter (λ c, negb (is_separator c)) (chars s))) in
  match value with VStr s => compact s | VInt z => compact (pretty z) | _ => EmptyString end.

Definition _PREFIX (s : string) : bool :=
  forallb AZ09 (chars s) && (1 <=? length (chars s))%nat && (length (chars s) <=? MAX_PREFIX_CHARS)%nat.

(** One or two letters, a digit and at most one more digit or letter *)
Definition uk_district (l : list ascii) : bool :=
  match l with
  | [a; d] => is_upper_az a && is_digit d
  | [a; b; c] => is_upper_az a && ((is_upper_az b && is_digit c) || (is_digit b && AZ09 c))
  | [a; b; d; x] => is_upper_az a && is_upper_az b && is_digit d && AZ09 x
  | _ => false
  end.
Definition _UK_DISTRICT_PREFIX (s : string) : bool := uk_district (chars s).

(** The outward code of a full postcode: what comes before a digit and two letters *)
Definition _UK_POSTCODE (s : string) : option (list ascii) :=
  match reverse (chars s) with
  | z :: y :: d :: r => if is_digit d && is_upper_az y && is_upper_az z && uk_district (reverse r) then Some (reverse r) else None
  | _ => None
  end.

Inductive DeliveryAreaError := BadPrefix | TooManyPrefixes.

Definition normalize_step (out : list string) (raw : pyval) : result DeliveryAreaError (list string) :=
  let prefix := compact_postal_code raw in
  if String.eqb prefix EmptyString then Ok out
  else _ ← raise_if (negb (_PREFIX prefix)) BadPrefix; Ok (if bool_decide (prefix ∈ out) then out else out ++ [prefix]).

Definition normalize_postal_prefixes (values : list pyval) : result DeliveryAreaError (list string) :=
  out ← fold_res normalize_step [] values;
  _ ← raise_if (MAX_POSTAL_PREFIXES <? length out)%nat TooManyPrefixes; Ok out.

Definition stored_step (out : list string) (raw : pyval) : list string :=
  let prefix := compact_postal_code raw in
  if negb (String.eqb prefix EmptyString) && _PREFIX prefix && bool_decide (prefix ∉ out) then out ++ [prefix] else out.

Definition stored_postal_prefixes (value : pyval) : list string :=
  match value with VList l => take MAX_POSTAL_PREFIXES (foldl stored_step [] l) | _ => [] end.

Definition outward_of (code : string) : option (list ascii) :=
  match _UK_POSTCODE code with Some o => Some o | None => if _UK_DISTRICT_PREFIX code then Some (chars code) else None end.

Definition _matches (code prefix : string) : bool :=
  starts_with prefix code &&
  (negb (_UK_DISTRICT_PREFIX prefix) ||
   match outward_of code with
   | None => true
   | Some outward =>
       (length (chars prefix) <=? length outward)%nat &&
       match drop (length (chars prefix)) outward with [] => true | c :: _ => negb (is_digit c) end
   end).

Definition in_area (postal_code : pyval) (prefixes : list string) : bool :=
  match prefixes with
  | [] => true
  | _ => let code := compact_postal_code postal_code in negb (String.eqb code EmptyString) && existsb (_matches code) prefixes
  end.

(** * Shipping rates *)

(** A character of a name, decomposed, without marks, folded, and only if a digit or a letter *)
Definition region_char (c : ascii) : list ascii :=
  let n := nat_of_ascii c in
  let base : list ascii := (if in_range c 192 197 || in_range c 224 229 || (n =? 170)%nat then ["a"]
              else if (n =? 199)%nat || (n =? 231)%nat then ["c"]
              else if in_range c 200 203 || in_range c 232 235 then ["e"]
              else if in_range c 204 207 || in_range c 236 239 then ["i"]
              else if (n =? 209)%nat || (n =? 241)%nat then ["n"]
              else if in_range c 210 214 || in_range c 242 246 || (n =? 186)%nat then ["o"]
              else if in_range c 217 220 || in_range c 249 252 then ["u"]
              else if (n =? 221)%nat || (n =? 253)%nat || (n =? 255)%nat then ["y"]
              else if (n =? 178)%nat then ["2"] else if (n =? 179)%nat then ["3"] else if (n =? 185)%nat then ["1"]
              else if (n =? 188)%nat then ["1"; "4"] else if (n =? 189)%nat then ["1"; "2"] else if (n =? 190)%nat then ["3"; "4"]
              else casefold_char c)%char in
  List.filter (λ c, is_digit c || is_lower_az c) base.

Definition _region_key (s : string) : string := of_chars (chars s ≫= region_char).

Record DeliveryRate := {
  rate_id : string; rate_title : string; rate_description : option string; amount_minor_units : Z; rate_currency : string;
  countries : list string; rest_of_world : bool; provinces : list (string * string * string) }.

Definition needs_region (r : DeliveryRate) (country : option string) : bool :=
  let wanted := upper (default EmptyString country) in
  negb (String.eqb wanted EmptyString) && existsb (λ e, String.eqb e.1.1 wanted) (provinces r).

(** What follows the first hyphen *)
Fixpoint after_hyphen (l : list ascii) : option (list ascii) :=
  match l with [] => None | c :: l' => if Ascii.eqb c "-" then Some l' else after_hyphen l' end.

Definition serves (r : DeliveryRate) (country region : option string) : bool :=
  if rest_of_world r then true
  else match country with
  | None => false
  | Some c =>
      if bool_decide (upper c ∉ countries r) then false
      else if negb (needs_region r country) then true
      else
        let wanted := _region_key (default EmptyString region) in
        if String.eqb wanted EmptyString then false
        else
          let code_only := match after_hyphen (chars (default EmptyString region)) with Some t => _region_key (of_chars t) | None => wanted end in
          existsb (λ e, String.eqb e.1.1 (upper c) &&
                        (String.eqb wanted (_region_key e.1.2) || String.eqb wanted (_region_key e.2) ||
                         String.eqb code_only (_region_key e.1.2))) (provinces r)
  end.

(** * The delivery area *)

Lemma starts_with_app p s : starts_with p s = true ↔ ∃ r, chars s = chars p ++ r.
Proof.
  unfold starts_with. rewrite bool_decide_eq_true. split.
  - intros [r Hr]. exists r. by apply strip_prefix_app.
  - intros [r Hr]. exists r. by apply strip_prefix_app.
Qed.

Lemma _UK_POSTCODE_Some s o : _UK_POSTCODE s = Some o →
  uk_district o = true ∧ ∃ d y z, chars s = o ++ [d; y; z] ∧ is_digit d = true.
Proof.
  unfold _UK_POSTCODE. destruct (reverse (chars s)) as [|z [|y [|d r]]] eqn:E; try done.
  destruct (_ && _) eqn:Hb; [|done]. intros [= <-]. rewrite !andb_true_iff in Hb. destruct Hb as [[[? ?] ?] ?]. split; [done|].
  exists d, y, z. split; [|done]. apply (f_equal reverse) in E. rewrite reverse_involutive in E. by rewrite E, !reverse_cons, <- !app_assoc.
Qed.

Lemma letter_not_digit c : is_upper_az c = true → is_digit c = true → False.
Proof. unfold is_upper_az, is_digit, in_range. rewrite !andb_true_iff, !Nat.leb_le. lia. Qed.

(** A district inside another one adds at most a digit or a letter *)
Lemma uk_district_extends p r : uk_district p = true → uk_district (p ++ r) = true → r = [] ∨ ∃ c, r = [c] ∧ AZ09 c = true.
Proof.
  destruct r as [|x r]; [auto|]. pose proof letter_not_digit as Hld.
  destruct p as [|a [|b [|c [|d [|e p]]]]]; try done; destruct r as [|y [|z r]]; cbn [uk_district app];
    rewrite ?andb_true_iff, ?orb_true_iff, ?andb_true_iff; intros Hp Hq; destruct_and?; destruct_or?; destruct_and?; try done;
    solve [right; exists x; done | exfalso; eauto].
Qed.

(** A district names itself and its lettered parts: never a district with one more digit. *)
Lemma district_is_whole prefix code o : _UK_DISTRICT_PREFIX prefix = true → _UK_POSTCODE code = Some o →
  _matches code prefix = true ↔ o = chars prefix ∨ ∃ c, is_upper_az c = true ∧ o = chars prefix ++ [c].
Proof.
  intros Hp Ho. unfold _matches, outward_of. rewrite Hp, Ho. cbn [negb orb]. destruct (_UK_POSTCODE_Some _ _ Ho) as (Hd & d & y & z & Hc & Hdd).
  rewrite !andb_true_iff, Nat.leb_le, starts_with_app, Hc. split.
  - intros [[r Hr] [Hl Hnd]]. assert (∃ k, o = chars prefix ++ k) as [k ->].
    { exists (drop (length (chars prefix)) o). rewrite <- (take_drop (length (chars prefix)) o) at 1. f_equal.
      apply (f_equal (take (length (chars prefix)))) in Hr. by rewrite take_app_le, take_app_length in Hr by done. }
    rewrite drop_app_length in Hnd. unfold _UK_DISTRICT_PREFIX in Hp. destruct (uk_district_extends _ _ Hp Hd) as [->|(c & -> & Hcc)].
    + left. by rewrite app_nil_r.
    + right. exists c. split; [|done]. unfold AZ09 in Hcc. apply negb_true_iff in Hnd. by rewrite Hnd, orb_false_r in Hcc.
  - intros [->|(c & Hcu & ->)].
    + split; [by eexists|]. split; [lia|]. by rewrite drop_all.
    + split; [exists ([c] ++ [d; y; z]); by rewrite <- app_assoc|]. split; [rewrite length_app; lia|]. rewrite drop_app_length.
      apply negb_true_iff. destruct (is_digit c) eqn:E; [|done]. by destruct (letter_not_digit c).
Qed.

Lemma AZ09_plain c : AZ09 c = true → is_separator c = false ∧ upper_char c = [c].
Proof. destruct c as [[] [] [] [] [] [] [] []]; vm_compute; done. Qed.

Lemma compact_prefix p : _PREFIX p = true → compact_postal_code (VStr p) = p.
Proof.
  unfold _PREFIX. rewrite !andb_true_iff. intros [[Hp _] _]. cbn. rewrite <- (of_chars_chars p) at 2. unfold upper. f_equal. rewrite chars_of_chars.
  induction (chars p) as [|c l IH]; [done|]. cbn in Hp. apply andb_true_iff in Hp as [[Hs Hu]%AZ09_plain Hl]. cbn [List.filter]. rewrite Hs. cbn. rewrite Hu, IH by done. done.
Qed.

(** What the setup flow accepts: distinct well-formed prefixes *)
Definition prefixes_ok (l : list string) : Prop := NoDup l ∧ Forall (λ p, _PREFIX p = true) l.

Lemma normalize_step_ok out raw out' : prefixes_ok out → normalize_step out raw = Ok out' → prefixes_ok out'.
Proof.
  intros [Hn Hf]. unfold normalize_step. destruct (String.eqb _ _); [by intros [= <-]|]. intros Hs. inv_ok. apply negb_false_iff in H.
  case_bool_decide; [done|]. split.
  - rewrite NoDup_app. split_and!; [done| |apply NoDup_singleton]. intros y Hy ->%list_elem_of_singleton. done.
  - apply Forall_app. auto.
Qed.

Lemma normalize_ok vs out : normalize_postal_prefixes vs = Ok out → prefixes_ok out ∧ (length out ≤ MAX_POSTAL_PREFIXES)%nat.
Proof.
  unfold normalize_postal_prefixes. intros H. inv_ok. split.
  - eapply (fold_res_inv prefixes_ok); [|by intros; eapply normalize_step_ok|done]. split; constructor.
  - by apply Nat.ltb_ge.
Qed.

Lemma stored_steps out l : prefixes_ok (out ++ l) → foldl stored_step out (VStr <$> l) = out ++ l.
Proof.
  revert out. induction l as [|p l IH]; intros out [Hn Hf]; cbn -[stored_step]; [by rewrite app_nil_r|].
  assert (stored_step out (VStr p) = out ++ [p]) as ->.
  { unfold stored_step. assert (_PREFIX p = true) as Hp by (rewrite Forall_app, Forall_cons in Hf; tauto). rewrite compact_prefix, Hp by done.
    rewrite NoDup_app in Hn. destruct Hn as (_ & Hn & _). rewrite bool_decide_true by (intros Hin; apply (Hn p Hin); by constructor).
    destruct (String.eqb_spec p EmptyString) as [->|]; done. }
  rewrite IH; rewrite <- app_assoc; done.
Qed.

(** What the setup flow stored is read back unchanged. *)
Lemma stored_normalized vs out : normalize_postal_prefixes vs = Ok out → stored_postal_prefixes (VList (VStr <$> out)) = out.
Proof. intros [Hok Hl]%normalize_ok. cbn -[take]. rewrite stored_steps by done. by apply take_ge. Qed.

Lemma in_area_spec v prefixes : in_area v prefixes = true ↔
  prefixes = [] ∨ compact_postal_code v ≠ EmptyString ∧ ∃ p, p ∈ prefixes ∧ _matches (compact_postal_code v) p = true.
Proof.
  unfold in_area. destruct prefixes as [|p l]; [naive_solver|]. rewrite andb_true_iff, negb_true_iff, String.eqb_neq, existsb_exists.
  setoid_rewrite list_elem_of_In. naive_solver.
Qed.
