(* ===== verification/UcpMessages.v ===== *)
(** Messages of UCP responses: src/core/commerce/ucp/messages.py, and the releases of
    src/core/commerce/ucp/releases.py. The human-readable content of a message is left out. *)

From S2P Require Import Prelude PyVal PyText.

Local Open Scope Z_scope.

Definition V2026_04_08 : string := "2026-04-08".
Definition V2026_08_25 : string := "2026-08-25".

(** [version >= V2026_08_25], in the order of strings *)
Definition since_2026_08_25 (version : string) : bool := String.leb V2026_08_25 version.

Definition SEVERITIES : list string := ["recoverable"; "requires_buyer_input"; "requires_buyer_review"; "unrecoverable"].
Definition ESCALATING : list string := ["requires_buyer_input"; "requires_buyer_review"].

Inductive message :=
| MError (code severity path : string)
| MWarning (code path : string)
| MInfo (code path : string).

#[global] Instance message_eq_dec : EqDecision message.
Proof. solve_decision. Defined.

(** [ValueError]: an unknown severity *)
Definition error (code severity path : string) : result value_error message :=
  if bool_decide (severity ∈ SEVERITIES) then Ok (MError code severity path) else Err BadType.

(** [error(code, ..., path=path)] with the default severity *)
Definition recoverable (code path : string) : message := MError code "recoverable" path.
Definition warning (code path : string) : message := MWarning code path.
Definition info (code path : string) : message := MInfo code path.

Definition is_error (m : message) : bool := match m with MError _ _ _ => true | _ => false end.
Definition has_errors (messages : list message) : bool := existsb is_error messages.
Definition escalates (messages : list message) : bool :=
  existsb (λ m, match m with MError _ s _ => bool_decide (s ∈ ESCALATING) | _ => false end) messages.

Lemma has_errors_app a b : has_errors (a ++ b) = has_errors a || has_errors b.
Proof. apply existsb_app. Qed.

Lemma has_errors_false ms : has_errors ms = false ↔ Forall (λ m, is_error m = false) ms.
Proof. induction ms as [|m ms IH]; cbn; [by split; [constructor|]|]. rewrite orb_false_iff, Forall_cons. by rewrite <- IH. Qed.

Lemma escalates_has_errors ms : escalates ms = true → has_errors ms = true.
Proof.
  unfold escalates, has_errors. rewrite !existsb_exists. intros (m & Hm & He). exists m. split; [done|]. by destruct m.
Qed.

Lemma no_errors_nil ms : Forall (λ m, is_error m = true) ms → has_errors ms = false → ms = [].
Proof. destruct ms as [|m ms]; [done|]. intros [Hm _]%Forall_cons. cbn. by rewrite Hm. Qed.
