(* ===== verification/UcpFulfillment.v ===== *)
(** How a checkout is fulfilled: src/core/commerce/ucp/fulfillment.py.

    The request is a parsed document; the stored methods of the session are records. The rates are
    read at most once, when the first shipping destination needs them. *)

From S2P Require Import Prelude PyVal PyText UcpMessages UcpDelivery.

Local Open Scope Z_scope.

(** A malformed request, a value that cannot be hashed, and what reading the rates raised *)
Inductive fulfillment_error := FulfillmentRequestError | Unhashable | RatesError.

Record FulfillmentSettings := {
  shipping : bool; pickup : bool; multi_destination : list string; method_combinations : list (list string);
  free_shipping_min_subtotal_minor_units : option Z; postal_code_prefixes : list string }.

Record Location := { loc_id : string; loc_name : string; loc_address : list (string * string) }.

(** The settings of a merchant this component reads *)
Record Merchant := { fulfillment : FulfillmentSettings; pickup_locations : list Location }.

(** A destination; only locations have a name. *)
Record Destination := { dest_id : string; kind : string; dest_name : string; address : list (string * string) }.
Record Option_ := { option_id : string; option_title : string; option_description : option string; amount : Z }.
Record Group := { group_id : string; group_lines : list string; options : list Option_; selected_option_id : option string }.
Record Method := {
  method_id : string; method_type : string; line_item_ids : list string; destinations : list Destination;
  selected_destination_id : option string; groups : list Group }.

Record FulfillmentResult := {
  methods : list Method; available_methods : list string; messages : list message; fulfillment_amount : Z; ready : bool }.

Definition ADDRESS_FIELDS : list string :=
  ["extended_address"; "street_address"; "address_locality"; "address_region"; "address_country"; "postal_code";
   "first_name"; "last_name"; "phone_number"].
Definition METHOD_TYPES : list string := ["shipping"; "pickup"].

Definition aliases : list (string * string) := [("locality", "address_locality"); ("region", "address_region"); ("country", "address_country")].

(** [str(value)] of a text or a whole number; a boolean is a whole number *)
Definition scalar_text (v : pyval) : option string :=
  match v with VStr s => Some s | VInt z => Some (pretty z) | VBool b => Some (if b then "True" else "False") | _ => None end.

(** [text[:n]] *)
Definition cut (n : nat) (s : string) : string := of_chars (take n (chars s)).

Definition address_step (out : list (string * string)) (kv : string * pyval) : list (string * string) :=
  let name := default kv.1 (assoc kv.1 aliases) in
  match scalar_text kv.2 with
  | Some t => if bool_decide (name ∈ ADDRESS_FIELDS) && negb (blank t) then dict_set name (cut 200 (strip t)) out else out
  | None => out
  end.

Definition _address (raw : list (string * pyval)) : list (string * string) :=
  let out := foldl address_step [] raw in
  match assoc "address_country" out with Some c => dict_set "address_country" (upper c) out | None => out end.

Definition _match_previous (previous : list Method) (raw : list (string * pyval)) (index : nat) : option Method :=
  match (if truthy (get_val raw "id") then List.find (λ m, scalar_eqb (VStr (method_id m)) (get_val raw "id")) previous else None) with
  | Some m => Some m
  | None =>
      match previous !! index with
      | Some m => if negb (truthy (get_val raw "type")) || scalar_eqb (VStr (method_type m)) (get_val raw "type") then Some m else None
      | None => None
      end
  end.

Definition _first_group (v : pyval) : option (list (string * pyval)) := match v with VList (VMap g :: _) => Some g | _ => None end.

Section fulfillment.
Context `{PyStr}.

Definition destination_of (position : nat) (raw : pyval) : result fulfillment_error Destination :=
  match raw with
  | VMap d =>
      let address := _address d in
      _ ← raise_if (negb (given (assoc "address_country" address))) FulfillmentRequestError;
      let id := if truthy (get_val d "id") then py_str (get_val d "id") else "dest_" +:+ pretty (position + 1)%nat in
      Ok {| dest_id := cut 80 id; kind := "shipping_address"; dest_name := EmptyString; address := address |}
  | _ => Err FulfillmentRequestError
  end.

Definition _shipping_destinations (requested : pyval) (prior : list Destination) : result fulfillment_error (list Destination) :=
  match requested with
  | VNone => Ok prior
  | VList l => map_res destination_of 0 l
  | _ => Err FulfillmentRequestError
  end.

Definition _area_problem (prefixes : list string) (destination : Destination) (path : string) : option message :=
  match prefixes with
  | [] => None
  | _ =>
      let postal_code := assoc "postal_code" (address destination) in
      if negb (given postal_code) then Some (recoverable "missing" (path +:+ ".destinations"))
      else if in_area (opt_val postal_code) prefixes then None
      else Some (recoverable "address_undeliverable" (path +:+ ".selected_destination_id"))
  end.

(** [not currency or rate.currency == currency] *)
Definition currency_fits (currency : option string) (r : DeliveryRate) : bool :=
  negb (given currency) || bool_decide (Some (rate_currency r) = currency).

Definition _no_option_message (rates : list DeliveryRate) (destination : Destination) (currency : option string) (path : string) : message :=
  let country := assoc "address_country" (address destination) in
  if negb (given (assoc "address_region" (address destination))) && existsb (λ r, needs_region r country && currency_fits currency r) rates
  then recoverable "missing" (path +:+ ".destinations")
  else recoverable "address_undeliverable" (path +:+ ".selected_destination_id").

Definition is_free (subtotal : Z) (free_threshold : option Z) : bool :=
  match free_threshold with Some t => t <=? subtotal | None => false end.

Definition _shipping_options (rates : list DeliveryRate) (destination : Destination) (currency : option string) (subtotal : Z) (free_threshold : option Z) :
    list Option_ :=
  let country := assoc "address_country" (address destination) in
  let region := assoc "address_region" (address destination) in
  let free := is_free subtotal free_threshold in
  (λ r, {| option_id := rate_id r; option_title := rate_title r;
           option_description := if free then Some "Free shipping on this order." else if given (rate_description r) then rate_description r else None;
           amount := if free then 0 else amount_minor_units r |}) <$>
  List.filter (λ r, serves r country region && currency_fits currency r) rates.

(** [by_type]: how many methods of each type, in the order of appearance *)
Definition count_type (by_type : list (string * Z)) (m : Method) : list (string * Z) :=
  dict_set (method_type m) (default 0 (assoc (method_type m) by_type) + 1) by_type.

Definition _combination_messages (settings : FulfillmentSettings) (ms : list Method) : list message :=
  let by_type := foldl count_type [] ms in
  let types : gset string := list_to_set by_type.*1 in
  (_ ← List.filter (λ kv, (1 <? kv.2) && bool_decide (kv.1 ∉ multi_destination settings)) by_type;
   [recoverable "multi_destination_unsupported" "$.fulfillment.methods"]) ++
  (if (1 <? size types)%nat && negb (existsb (λ combo, bool_decide (list_to_set combo = types)) (method_combinations settings))
   then [recoverable "method_combination_unsupported" "$.fulfillment.methods"] else []).

(** * The loop over the requested methods *)

Record loop := {
  l_messages : list message; l_methods : list Method; l_rates : option (list DeliveryRate); l_total : Z; l_ready : bool;
  l_covered : list (string * Z) }.

Section build.
Context (merchant : Merchant) (previous : list Method) (line_ids : list string) (currency : option string) (subtotal : Z).
Context (rates_source : option (result fulfillment_error (list DeliveryRate))).

Definition allowed : list string :=
  (if shipping (fulfillment merchant) then ["shipping"] else []) ++ (if pickup (fulfillment merchant) then ["pickup"] else []).

(** [str(raw.get("type") or prior["type"] or "")]; the text of a value that is no text is no type *)
Definition requested_type (raw : list (string * pyval)) (prior : option Method) : result fulfillment_error string :=
  let t := if truthy (get_val raw "type") then py_str (get_val raw "type") else from_option method_type EmptyString prior in
  if bool_decide (t ∈ METHOD_TYPES) then Ok t else Err FulfillmentRequestError.

Definition strings_of (v : pyval) : result fulfillment_error (list string) :=
  match v with
  | VList l => map_res (λ _ x, match x with VStr s => Ok s | _ => Err FulfillmentRequestError end) 0 l
  | _ => Err FulfillmentRequestError
  end.

(** [xs or list(line_item_ids)] *)
Definition or_all (ids : list string) : list string := match ids with [] => line_ids | _ => ids end.

Definition requested_lines (raw : list (string * pyval)) (prior : option Method) : result fulfillment_error (list string) :=
  ids ← match get_val raw "line_item_ids" with VNone => Ok (or_all (from_option line_item_ids [] prior)) | v => strings_of v end;
  Ok (or_all (List.filter (λ i, bool_decide (i ∈ line_ids)) ids)).

(** [raw.get(key, prior)] as one of the ids of a set: an unhashable value raises *)
Definition chosen (raw : list (string * pyval)) (key : string) (prior : option string) : result fulfillment_error (option pyval) :=
  match assoc key raw with
  | None => Ok (VStr <$> prior)
  | Some VNone => Ok None
  | Some (VList _ | VMap _) => Err Unhashable
  | Some v => Ok (Some v)
  end.

Definition pick (ids : list string) (v : option pyval) : option string :=
  match v with Some (VStr s) => if bool_decide (s ∈ ids) then Some s else None | _ => None end.

Definition cover (covered : list (string * Z)) (i : string) : list (string * Z) := dict_set i (default 0 (assoc i covered) + 1) covered.

Definition location_destination (l : Location) : Destination :=
  {| dest_id := loc_id l; kind := "business_location"; dest_name := loc_name l; address := loc_address l |}.

(** The options of a selected destination, the rates read so far and the messages *)
Definition destination_options (rates : option (list DeliveryRate)) (t : string) (d : Destination) (path : string) :
    result fulfillment_error (list Option_ * option (list DeliveryRate) * list message) :=
  if String.eqb t "pickup" then
    Ok ([{| option_id := "pickup-" +:+ dest_id d; option_title := "Pick up at " +:+ dest_name d; option_description := None; amount := 0 |}], rates, [])
  else
    match _area_problem (postal_code_prefixes (fulfillment merchant)) d path with
    | Some problem => Ok ([], rates, [problem])
    | None =>
        rs ← match rates with Some rs => Ok rs | None => default (Ok []) rates_source end;
        let opts := _shipping_options rs d currency subtotal (free_shipping_min_subtotal_minor_units (fulfillment merchant)) in
        Ok (opts, Some rs, match opts with [] => [_no_option_message rs d currency path] | _ => [] end)
    end.

(** What choosing an option adds: the selection, its amount and the messages *)
Definition choose_option (opts : list Option_) (wanted : option pyval) (path : string) : option string * Z * list message :=
  match pick (option_id <$> opts) wanted with
  | Some o => (Some o, from_option amount 0 (List.find (λ x, String.eqb (option_id x) o) opts), [])
  | None =>
      (None, 0, match opts with
                | [] => []
                | _ => [recoverable (match wanted with Some _ => "invalid_option" | None => "missing" end) (path +:+ ".groups[0].selected_option_id")]
                end)
  end.

Definition method_step (s : loop) (index : nat) (raw : pyval) : result fulfillment_error loop :=
  match raw with
  | VMap d =>
      let prior := _match_previous previous d index in
      let path := "$.fulfillment.methods[" +:+ pretty index +:+ "]" in
      t ← requested_type d prior;
      let id := match prior with
                | Some m => if String.eqb (method_id m) EmptyString then if truthy (get_val d "id") then py_str (get_val d "id") else "fm_" +:+ pretty (index + 1)%nat
                            else method_id m
                | None => if truthy (get_val d "id") then py_str (get_val d "id") else "fm_" +:+ pretty (index + 1)%nat
                end in
      let offered := bool_decide (t ∈ allowed) in
      ids ← requested_lines d prior;
      dests ← (if String.eqb t "pickup" then Ok (location_destination <$> pickup_locations merchant)
               else _shipping_destinations (get_val d "destinations") (from_option destinations [] prior));
      wanted ← chosen d "selected_destination_id" (prior ≫= selected_destination_id);
      let selected := pick (dest_id <$> dests) wanted in
      let group sel opts := {| group_id := "fg_" +:+ pretty (index + 1)%nat; group_lines := ids; options := opts; selected_option_id := sel |} in
      let m g := {| method_id := id; method_type := t; line_item_ids := ids; destinations := dests; selected_destination_id := selected; groups := [g] |} in
      let unoffered := if offered then [] else [recoverable "unsupported_fulfillment_method" (path +:+ ".type")] in
      let invalid := match wanted, selected with Some _, None => [recoverable "invalid_destination" (path +:+ ".selected_destination_id")] | _, _ => [] end in
      match selected ≫= λ x, List.find (λ y, String.eqb (dest_id y) x) dests with
      | None =>
          Ok {| l_messages := l_messages s ++ unoffered ++ invalid ++ [recoverable "missing" (path +:+ ".selected_destination_id")];
                l_methods := l_methods s ++ [m (group None [])]; l_rates := l_rates s; l_total := l_total s; l_ready := false;
                l_covered := foldl cover (l_covered s) ids |}
      | Some dest =>
          '(opts, rates, problems) ← destination_options (l_rates s) t dest path;
          want ← chosen (default [] (_first_group (get_val d "groups"))) "selected_option_id" (prior ≫= λ p, head (groups p) ≫= selected_option_id);
          let '(sel, charge, msgs) := choose_option opts want path in
          Ok {| l_messages := l_messages s ++ unoffered ++ invalid ++ problems ++ msgs; l_methods := l_methods s ++ [m (group sel opts)];
                l_rates := rates; l_total := l_total s + charge;
                l_ready := l_ready s && offered && match problems ++ msgs with [] => true | _ => false end;
                l_covered := foldl cover (l_covered s) ids |}
      end
  | _ => Err FulfillmentRequestError
  end.

Fixpoint method_loop (s : loop) (index : nat) (raws : list pyval) : result fulfillment_error loop :=
  match raws with [] => Ok s | raw :: rest => s' ← method_step s index raw; method_loop s' (S index) rest end.

Definition build_fulfillment (request : pyval) : result fulfillment_error FulfillmentResult :=
  match request with
  | VNone => Ok {| methods := []; available_methods := allowed; messages := match line_ids with [] => [] | _ => [recoverable "missing" "$.fulfillment"] end;
                   fulfillment_amount := 0; ready := false |}
  | VMap d =>
      raws ← match assoc "methods" d with None => Ok [] | Some (VList l) => Ok l | Some _ => Err FulfillmentRequestError end;
      s ← method_loop {| l_messages := []; l_methods := []; l_rates := None; l_total := 0; l_ready := true; l_covered := [] |} 0 raws;
      let uncovered := existsb (λ i, default 0 (assoc i (l_covered s)) =? 0) line_ids || match l_methods s with [] => true | _ => false end in
      let twice := existsb (λ kv, 1 <? kv.2) (l_covered s) in
      let msgs := l_messages s ++ _combination_messages (fulfillment merchant) (l_methods s) ++
                  (if uncovered then [recoverable "missing" "$.fulfillment"] else []) ++
                  (if twice then [recoverable "invalid_fulfillment" "$.fulfillment"] else []) in
      Ok {| methods := l_methods s; available_methods := allowed; messages := msgs; fulfillment_amount := l_total s;
            ready := l_ready s && negb uncovered && negb twice && negb (has_errors msgs) |}
  | _ => Err FulfillmentRequestError
  end.
End build.
End fulfillment.

(** * What a fulfilment without errors guarantees *)

Section facts.
Context `{PyStr} (merchant : Merchant) (previous : list Method) (line_ids : list string) (currency : option string) (subtotal : Z).
Context (rates_source : option (result fulfillment_error (list DeliveryRate))).

Let settings := fulfillment merchant.

(** The rates, when they can be read *)
Definition rates_read : list DeliveryRate := match rates_source with Some (Ok rs) => rs | _ => [] end.

(** An option that may be chosen at a destination *)
Definition offered_at (t : string) (d : Destination) (o : Option_) : Prop :=
  if String.eqb t "pickup" then option_id o = "pickup-" +:+ dest_id d ∧ amount o = 0 ∧ d ∈ location_destination <$> pickup_locations merchant
  else (postal_code_prefixes settings = [] ∨ in_area (opt_val (assoc "postal_code" (address d))) (postal_code_prefixes settings) = true) ∧
       ∃ r, r ∈ rates_read ∧ serves r (assoc "address_country" (address d)) (assoc "address_region" (address d)) = true ∧
            currency_fits currency r = true ∧ option_id o = rate_id r ∧
            amount o = if is_free subtotal (free_shipping_min_subtotal_minor_units settings) then 0 else amount_minor_units r.

Definition group_charge (g : Group) : Z :=
  match selected_option_id g with
  | Some o => from_option amount 0 (List.find (λ x, String.eqb (option_id x) o) (options g))
  | None => 0
  end.
Definition method_charge (m : Method) : Z := foldr Z.add 0 (group_charge <$> groups m).
Definition total_charge (ms : list Method) : Z := foldr Z.add 0 (method_charge <$> ms).

(** Offered by the merchant, with a destination of its own and an option offered there, which is charged *)
Definition method_settled (m : Method) : Prop :=
  method_type m ∈ allowed merchant ∧
  ∃ d g o, d ∈ destinations m ∧ selected_destination_id m = Some (dest_id d) ∧ groups m = [g] ∧ group_lines g = line_item_ids m ∧
           o ∈ options g ∧ selected_option_id g = Some (option_id o) ∧ group_charge g = amount o ∧ offered_at (method_type m) d o.

Definition count (i : string) (ms : list Method) : nat := count_occ String.string_dec (concat (line_item_ids <$> ms)) i.

Lemma pick_Some ids v s : pick ids v = Some s ↔ v = Some (VStr s) ∧ s ∈ ids.
Proof. unfold pick. destruct v as [[]|]; try naive_solver. case_bool_decide; naive_solver. Qed.

Lemma find_id {A} (key : A → string) (l : list A) s : s ∈ key <$> l → ∃ x, List.find (λ y, String.eqb (key y) s) l = Some x ∧ x ∈ l ∧ key x = s.
Proof.
  intros (y & -> & Hy)%list_elem_of_fmap. destruct (List.find _ l) as [x|] eqn:E.
  - apply find_some in E as [? ?%String.eqb_eq]. exists x. rewrite list_elem_of_In. done.
  - apply list_elem_of_In in Hy. eapply find_none in E; [|done]. by rewrite String.eqb_refl in E.
Qed.

Lemma destination_options_spec rates t d path opts rates' problems : rates = None ∨ rates = Some rates_read →
  destination_options merchant currency subtotal rates_source rates t d path = Ok (opts, rates', problems) →
  (rates' = None ∨ rates' = Some rates_read) ∧ Forall (λ m, is_error m = true) problems ∧
  (problems = [] → (t = "pickup" → d ∈ location_destination <$> pickup_locations merchant) → opts ≠ [] ∧ Forall (offered_at t d) opts).
Proof.
  intros Hr. unfold destination_options, offered_at. destruct (String.eqb_spec t "pickup") as [->|Ht].
  { intros [= <- <- <-]. split_and!; [done|constructor|]. intros _ Hd. split; [done|]. repeat constructor; cbn; auto. }
  destruct (_area_problem _ d path) as [p|] eqn:Ea.
  { intros [= <- <- <-]. split_and!; [done| |done]. constructor; [|constructor]. unfold _area_problem in Ea.
    repeat case_match; simplify_eq; done. }
  intros Hb. apply bind_Ok in Hb as (rs & Hrs & Hb). injection Hb as <- <- <-.
  assert (rs = rates_read) as ->.
  { destruct Hr as [->| ->]; [|by injection Hrs]. unfold rates_read. destruct rates_source as [[]|]; cbn in Hrs; by simplify_eq. }
  split_and!; [by right| |].
  - destruct (_shipping_options _ _ _ _ _); [|constructor]. constructor; [|constructor]. unfold _no_option_message. cbn zeta. by destruct (_ && _).
  - intros Hp _. split; [by intros E; rewrite E in Hp|]. apply Forall_forall. intros o (r & -> & Hr')%list_elem_of_fmap.
    apply list_elem_of_In, filter_In in Hr' as [Hin [Hs Hc]%andb_true_iff]. split.
    + unfold _area_problem in Ea. fold settings in Ea. destruct (postal_code_prefixes settings); [by left|]. right. cbn zeta in Ea. repeat case_match; done.
    + exists r. rewrite list_elem_of_In. done.
Qed.

Lemma choose_option_spec opts want path sel charge msgs : choose_option opts want path = (sel, charge, msgs) →
  Forall (λ m, is_error m = true) msgs ∧
  charge = match sel with Some o => from_option amount 0 (List.find (λ x, String.eqb (option_id x) o) opts) | None => 0 end ∧
  (opts ≠ [] → msgs = [] → ∃ o, o ∈ opts ∧ sel = Some (option_id o) ∧ charge = amount o).
Proof.
  unfold choose_option. destruct (pick _ want) as [s|] eqn:E.
  - intros [= <- <- <-]. split_and!; [constructor|done|]. intros _ _. apply pick_Some in E as [_ Hs].
    destruct (find_id option_id opts s Hs) as (x & -> & Hx & Hk). exists x. subst s. done.
  - intros [= <- <- <-]. destruct opts; split_and!; try done; repeat constructor.
Qed.

(** ** Lines covered *)

Lemma cover_spec covered ids i : default 0 (assoc i (foldl cover covered ids)) = default 0 (assoc i covered) + Z.of_nat (count_occ String.string_dec ids i).
Proof.
  revert covered. induction ids as [|j ids IH]; intros covered; cbn -[cover Z.of_nat]; [lia|]. rewrite IH. unfold cover. rewrite assoc_dict_set.
  destruct (String.string_dec j i) as [->|]; [rewrite String.eqb_refl; cbn -[Z.of_nat]; lia|]. destruct (String.eqb_spec i j); [congruence|done].
Qed.

Lemma cover_NoDup covered ids : NoDup covered.*1 → NoDup (foldl cover covered ids).*1.
Proof. revert covered. induction ids as [|j ids IH]; intros covered Hn; [done|]. cbn. apply IH. by apply dict_set_NoDup. Qed.

Lemma requested_lines_sub raw prior ids : requested_lines line_ids raw prior = Ok ids → ∀ i, i ∈ ids → i ∈ line_ids.
Proof.
  unfold requested_lines. intros Hb i. inv_ok. destruct (List.filter _ x) as [|j l] eqn:E; cbn; [done|]. rewrite <- E.
  intros [_ Hi]%list_elem_of_In%filter_In. by apply bool_decide_eq_true in Hi.
Qed.

(** ** The loop *)

Record loop_inv (s : loop) : Prop := {
  inv_rates : l_rates s = None ∨ l_rates s = Some rates_read;
  inv_errors : Forall (λ m, is_error m = true) (l_messages s);
  inv_settled : l_messages s = [] → l_ready s = true ∧ Forall method_settled (l_methods s);
  inv_total : l_total s = total_charge (l_methods s);
  inv_covered : ∀ i, default 0 (assoc i (l_covered s)) = Z.of_nat (count i (l_methods s));
  inv_keys : NoDup (l_covered s).*1;
  inv_lines : Forall (λ m, ∀ i, i ∈ line_item_ids m → i ∈ line_ids) (l_methods s) }.

Lemma total_charge_snoc ms m : total_charge (ms ++ [m]) = total_charge ms + method_charge m.
Proof. unfold total_charge. rewrite fmap_app, foldr_app. cbn. induction ms as [|a ms IH]; cbn in *; lia. Qed.

Lemma count_snoc i ms m : count i (ms ++ [m]) = (count i ms + count_occ String.string_dec (line_item_ids m) i)%nat.
Proof. unfold count. rewrite fmap_app, concat_app, count_occ_app. cbn. by rewrite app_nil_r. Qed.

(** A method added to the loop, with the messages and the charge it brings *)
Lemma loop_inv_add s msgs m rates charge rdy ids : loop_inv s → line_item_ids m = ids → (rates = None ∨ rates = Some rates_read) → Forall (λ x, is_error x = true) msgs →
  (l_ready s = true → msgs = [] → rdy = true ∧ method_settled m) → charge = method_charge m → (∀ i, i ∈ ids → i ∈ line_ids) →
  loop_inv {| l_messages := l_messages s ++ msgs; l_methods := l_methods s ++ [m]; l_rates := rates; l_total := l_total s + charge; l_ready := rdy;
              l_covered := foldl cover (l_covered s) ids |}.
Proof.
  intros [] <- Hr Hm Hs -> Hl. split; cbn -[total_charge count]; [done| | | | | |].
  - by apply Forall_app.
  - intros [Hn ->]%app_eq_nil. destruct (inv_settled0 Hn) as [Hrs Hf]. destruct (Hs Hrs eq_refl). split; [done|]. apply Forall_app. auto.
  - by rewrite total_charge_snoc, inv_total0.
  - intros i. rewrite cover_spec, inv_covered0, count_snoc. lia.
  - by apply cover_NoDup.
  - apply Forall_app. auto.
Qed.

Lemma method_step_inv s index raw s' : loop_inv s →
  method_step merchant previous line_ids currency subtotal rates_source s index raw = Ok s' → loop_inv s'.
Proof.
  intros Hi. destruct raw as [| | | | | |d| |]; try done. unfold method_step. set (prior := _match_previous previous d index).
  set (path := "$.fulfillment.methods[" +:+ _). cbn zeta. intros Hb. apply bind_Ok in Hb as (t & Ht & Hb). apply bind_Ok in Hb as (ids & Hids & Hb).
  apply bind_Ok in Hb as (dests & Hd & Hb). apply bind_Ok in Hb as (wanted & Hw & Hb). pose proof (requested_lines_sub _ _ _ Hids) as Hsub.
  set (unoffered := if bool_decide (t ∈ allowed merchant) then [] else _) in *.
  assert (Forall (λ x, is_error x = true) unoffered ∧ (unoffered = [] → bool_decide (t ∈ allowed merchant) = true)) as [Hu1 Hu2].
  { unfold unoffered. case_bool_decide; split; try done; repeat constructor. }
  set (invalid := match wanted with Some _ => _ | None => _ end) in *.
  assert (Forall (λ x, is_error x = true) invalid) as Hv by (unfold invalid; repeat case_match; repeat constructor).
  destruct (pick (dest_id <$> dests) wanted) as [x|] eqn:Ep; cbn [mbind option_bind] in Hb.
  2:{ injection Hb as <-. rewrite <- (Z.add_0_r (l_total s)). apply (loop_inv_add s _ _ (l_rates s) 0 false ids); try done; [apply Hi| |].
      - repeat (apply Forall_app; split); try done. repeat constructor.
      - intros _ Hn. apply app_eq_nil in Hn as [_ [_ ?]%app_eq_nil]. done. }
  apply pick_Some in Ep as [_ Hx]. destruct (find_id dest_id dests x Hx) as (dest & Hf & Hdin & Hdid). rewrite Hf in Hb.
  apply bind_Ok in Hb as ([[opts rates] problems] & Ho & Hb). apply bind_Ok in Hb as (want & Hwant & Hb).
  destruct (choose_option opts want path) as [[sel charge] msgs] eqn:Ec. injection Hb as <-.
  destruct (choose_option_spec _ _ _ _ _ _ Ec) as (Hm1 & Hcharge & Hm2). apply destination_options_spec in Ho as (Hrs & Hp1 & Hp2); [|apply Hi].
  apply loop_inv_add; try done.
  - repeat (apply Forall_app; split); done.
  - intros Hrd Hn. apply app_eq_nil in Hn as [Hn1 [_ [-> ->]%app_eq_nil]%app_eq_nil]. rewrite Hrd, (Hu2 Hn1). split; [done|].
    destruct Hp2 as [Hne Hoff]; [done| |]. { intros ->. cbn in Hd. injection Hd as <-. done. }
    destruct (Hm2 Hne eq_refl) as (o & Hoin & -> & Hco). split; [exact (proj1 (bool_decide_eq_true _) (Hu2 Hn1))|].
    eexists dest, _, o. split_and!; try done; [by rewrite Hdid|unfold group_charge; cbn; congruence|]. by eapply Forall_forall in Hoff.
  - unfold method_charge, group_charge. cbn. rewrite Hcharge. by rewrite Z.add_0_r.
Qed.

Lemma method_loop_inv s index raws s' : loop_inv s → method_loop merchant previous line_ids currency subtotal rates_source s index raws = Ok s' → loop_inv s'.
Proof.
  revert s index. induction raws as [|raw raws IH]; intros s index Hi; cbn -[method_step]; [by intros [= <-]|].
  intros Hb. apply bind_Ok in Hb as (s1 & H1 & Hb). eapply IH; [|exact Hb]. by eapply method_step_inv.
Qed.

(** ** The result *)

Lemma count_types ms d : foldl count_type d ms = foldl cover d (method_type <$> ms).
Proof. revert d. induction ms as [|m ms IH]; intros d; cbn; [done|]. by rewrite IH. Qed.

(** What the combination of methods needs: several methods of a type only where allowed, several types only as listed *)
Definition combination_ok (ms : list Method) : Prop :=
  (∀ t, (1 < count_occ String.string_dec (method_type <$> ms) t)%nat → t ∈ multi_destination settings) ∧
  ((∃ t1 t2, t1 ∈ method_type <$> ms ∧ t2 ∈ method_type <$> ms ∧ t1 ≠ t2) →
   ∃ combo, combo ∈ method_combinations settings ∧ ∀ t, t ∈ combo ↔ t ∈ method_type <$> ms).

Lemma cover_keys l i : i ∈ (foldl cover [] l).*1 ↔ i ∈ l.
Proof.
  rewrite <- assoc_is_Some. pose proof (cover_spec [] l i) as Hc. rewrite list_elem_of_In, (count_occ_In String.string_dec).
  assert (∀ d, (∀ v, assoc i d = Some v → 0 < v) → ∀ v, assoc i (foldl cover d l) = Some v → 0 < v) as Hpos.
  { clear. induction l as [|j l IH]; intros d Hd; cbn; [done|]. apply IH. intros v. unfold cover. rewrite assoc_dict_set. destruct (String.eqb_spec i j) as [<-|]; [|auto].
    intros [= <-]. destruct (assoc i d) eqn:E; cbn; [specialize (Hd _ eq_refl)|]; lia. }
  destruct (assoc i (foldl cover [] l)) as [v|] eqn:E; cbn in Hc.
  - apply Hpos in E; [|done]. split; [lia|by eexists].
  - split; [by intros []|lia].
Qed.

Lemma combination_messages_ok ms : _combination_messages settings ms = [] → combination_ok ms.
Proof.
  unfold _combination_messages. rewrite count_types. intros [Hf Ht]%app_eq_nil. split.
  - intros t Hc. destruct (decide (t ∈ multi_destination settings)) as [|Hn]; [done|]. exfalso.
    pose proof (cover_spec [] (method_type <$> ms) t) as Hs. cbn in Hs. destruct (assoc t (foldl cover [] (method_type <$> ms))) as [v|] eqn:E; cbn in Hs; [|lia].
    apply assoc_elem_of in E. destruct (List.filter _ _) eqn:Ef; [|done]. assert ((t, v) ∈ []) as []%not_elem_of_nil. rewrite <- Ef.
    apply list_elem_of_In, filter_In. rewrite <- list_elem_of_In. split; [done|]. cbn. rewrite bool_decide_true by done. rewrite andb_true_r. apply Z.ltb_lt. lia.
  - intros (t1 & t2 & H1 & H2 & Hne). set (types := list_to_set _) in Ht.
    assert (∀ t, t ∈ types ↔ t ∈ method_type <$> ms) as Hin by (intros t; unfold types; rewrite elem_of_list_to_set; apply cover_keys).
    destruct (Nat.ltb_spec 1 (size types)) as [|Hsz].
    + cbn [andb] in Ht. destruct (existsb _ _) eqn:Ex; [|done]. apply existsb_exists in Ex as (combo & Hcm & Hcd). exists combo. rewrite list_elem_of_In. split; [done|].
      intros t. apply bool_decide_eq_true in Hcd. rewrite <- Hin, <- Hcd. by rewrite elem_of_list_to_set.
    + exfalso. assert (({[t1; t2]} : gset string) ⊆ types) as Hs by (intros x [->%elem_of_singleton| ->%elem_of_singleton]%elem_of_union; by apply Hin).
      apply subseteq_size in Hs. rewrite size_union, !size_singleton in Hs by set_solver. lia.
Qed.

Lemma combination_messages_errors ms : Forall (λ m, is_error m = true) (_combination_messages settings ms).
Proof.
  unfold _combination_messages. apply Forall_app. split; [|destruct (_ && _); repeat constructor].
  apply Forall_forall. by intros x (? & ->%list_elem_of_singleton & _)%list_elem_of_bind.
Qed.

(** A checkout whose fulfilment is decided: every line goes by exactly one method, every method is settled
    and the combination is allowed. *)
Definition fulfilment_decided (ms : list Method) : Prop :=
  ms ≠ [] ∧ Forall method_settled ms ∧ combination_ok ms ∧
  (∀ i, i ∈ line_ids → count i ms = 1%nat) ∧ Forall (λ m, ∀ i, i ∈ line_item_ids m → i ∈ line_ids) ms.

Lemma build_fulfillment_spec request r : line_ids ≠ [] →
  build_fulfillment merchant previous line_ids currency subtotal rates_source request = Ok r →
  fulfillment_amount r = total_charge (methods r) ∧ (ready r = true ↔ has_errors (messages r) = false) ∧
  (has_errors (messages r) = false → fulfilment_decided (methods r)).
Proof.
  intros Hl. destruct request as [| | | | | |d| |]; try done; unfold build_fulfillment.
  { intros [= <-]. cbn. destruct line_ids; [done|]. split_and!; done. }
  intros Hb. apply bind_Ok in Hb as (raws & _ & Hb). apply bind_Ok in Hb as (s & Hs & Hb). injection Hb as <-. cbn [methods fulfillment_amount ready messages].
  apply method_loop_inv in Hs as [_ Herr Hset Htot Hcov Hkeys Hlines]; [|split; cbn; (by auto || by constructor)]. split; [done|].
  set (unc := _ || _). set (tw := existsb _ _). rewrite !has_errors_app. fold settings. split.
  - split; [by intros [_ ?%negb_true_iff]%andb_true_iff|]. rewrite !orb_false_iff. intros (H1 & H2 & H3 & H4).
    destruct (Hset (no_errors_nil _ Herr H1)) as [-> _]. destruct unc, tw; try done. cbn. by rewrite H1, H2.
  - rewrite !orb_false_iff. intros (H1 & H2 & H3 & H4). destruct unc eqn:Eu; [done|]. destruct tw eqn:Et; [done|]. apply orb_false_iff in Eu as [Eu Em]. destruct (Hset (no_errors_nil _ Herr H1)) as [_ Hf].
    split_and!; [by destruct (l_methods s)|done| | |done].
    + by apply combination_messages_ok, no_errors_nil; [apply combination_messages_errors|].
    + intros i Hi. assert (default 0 (assoc i (l_covered s)) ≠ 0) as H0.
      { intros E. assert (existsb (λ i, default 0 (assoc i (l_covered s)) =? 0) line_ids = true); [|congruence].
        apply existsb_exists. exists i. rewrite <- list_elem_of_In, Z.eqb_eq. done. }
      assert (default 0 (assoc i (l_covered s)) ≤ 1).
      { destruct (assoc i (l_covered s)) as [v|] eqn:E; cbn in *; [|lia]. destruct (Z.le_gt_cases v 1); [done|]. apply assoc_elem_of in E.
        assert (tw = true); [|congruence]. apply existsb_exists. exists (i, v). rewrite <- list_elem_of_In. cbn. by rewrite Z.ltb_lt. }
      rewrite Hcov in *. lia.
Qed.
End facts.
