(* ===== verification/UcpPayment.v ===== *)
(** Payment of a checkout: src/core/commerce/ucp/payment.py, the handlers of
    src/core/commerce/payment_handlers/__init__.py and the one of plural.py.

    A payment handler is a record of its operations for one merchant. The settings of split payments
    and terms are parsed documents, as the merchant wrote them. *)

From S2P Require Import Prelude PyVal PyText PyNumber Arbiter LedgerExport UcpMessages UcpFulfillment.

Local Open Scope Z_scope.

(** * Handlers *)

Record Allowance := { max_amount_minor_units : option Z; allowance_currency : option string }.

(** A UCP constraint expression *)
Inductive Constraint := {
  const : option pyval; enum : option (list pyval); required : option (list string);
  properties : option (list (string * Constraint)); anyOf : option (list Constraint) }.

Record PaymentHandlerEntry := { entry_id : string; available_instruments : list string }.

Record PaymentHandler := {
  handler_name : string;
  entries : string → list PaymentHandlerEntry;
  accepted_credentials : string → list string;
  allowance : Allowance;
  request_constraints : PaymentHandlerEntry → string → string → option Constraint }.

(** The handlers in the order of their registration *)
Definition register_payment_handler (h : PaymentHandler) (handlers : list (string * PaymentHandler)) : list (string * PaymentHandler) :=
  dict_set (handler_name h) h handlers.

Definition unregister_payment_handler (name : string) (handlers : list (string * PaymentHandler)) : list (string * PaymentHandler) :=
  List.filter (λ kv, negb (String.eqb kv.1 name)) handlers.

Fixpoint resolve_handler (handlers : list (string * PaymentHandler)) (version handler_id : string) : option (PaymentHandler * PaymentHandlerEntry) :=
  match handlers with
  | [] => None
  | (_, h) :: rest =>
      match List.find (λ e, String.eqb (entry_id e) handler_id) (entries h version) with
      | Some e => Some (h, e)
      | None => resolve_handler rest version handler_id
      end
  end.

(** [value == other] of values of a document *)
Fixpoint value_eqb (a b : pyval) : bool :=
  match a, b with
  | VNone, VNone => true
  | VList l, VList m => (fix go l m := match l, m with [], [] => true | x :: l, y :: m => value_eqb x y && go l m | _, _ => false end) l m
  | VMap d, VMap e =>
      (length d =? length e)%nat &&
      (fix go d := match d with [] => true | (k, x) :: d => match assoc k e with Some y => value_eqb x y | None => false end && go d end) d
  | _, _ => scalar_eqb a b
  end.

Fixpoint satisfies (value : pyval) (c : Constraint) {struct c} : bool :=
  match const c with Some v => value_eqb value v | None => true end &&
  match enum c with Some vs => existsb (value_eqb value) vs | None => true end &&
  match required c, properties c, anyOf c with
  | None, None, None => true
  | req, props, opts =>
      match value with
      | VMap d =>
          forallb (λ name, bool_decide (is_Some (assoc name d))) (default [] req) &&
          match props with
          | Some ps => (fix go ps := match ps with [] => true | (name, sub) :: ps => match assoc name d with Some v => satisfies v sub | None => true end && go ps end) ps
          | None => true
          end &&
          match opts with
          | Some (o :: os) => satisfies value o || (fix go os := match os with [] => false | o :: os => satisfies value o || go os end) os
          | _ => true
          end
      | _ => false
      end
  end.

(** * Instruments *)

(** [PaymentRequestError]: a malformed payment object *)
Inductive payment_error := PaymentRequestError.

Definition DISPLAY_FIELDS : list string := ["brand"; "last_digits"; "expiry_month"; "expiry_year"; "description"; "card_art"].

Record Instrument := {
  instrument_id : string; handler_id : string; type : string; credential : option (list (string * pyval));
  display : list (string * pyval); billing_address : option (list (string * pyval)); selected : option bool; amount : option Z }.

Section payment.
Context `{PyStr}.

Definition credential_type (i : Instrument) : option string :=
  match credential i with
  | Some c => if truthy (VMap c) && truthy (get_val c "type") then Some (py_str (get_val c "type")) else None
  | None => None
  end.

Definition is_pan (i : Instrument) : bool :=
  bool_decide (credential_type i = Some "pan") ||
  (bool_decide (credential_type i = Some "card") && scalar_eqb (get_val (default [] (credential i)) "card_number_type") (VStr "fpan")).

(** What the session keeps of an instrument: never the credential *)
Record StoredInstrument := {
  s_id : string; s_handler_id : string; s_type : string; s_display : list (string * pyval); s_billing_address : option (list (string * pyval));
  s_selected : option bool; s_amount : option Z; s_credential_type : option string; s_credential_sha256 : option string }.

Definition has_credential (i : Instrument) : bool := match credential i with Some (_ :: _) => true | _ => false end.

Definition stored `{PayloadHash} (i : Instrument) : StoredInstrument :=
  {| s_id := instrument_id i; s_handler_id := handler_id i; s_type := type i; s_display := display i;
     s_billing_address := match billing_address i with Some (_ :: _) => billing_address i | _ => None end;
     s_selected := selected i; s_amount := amount i; s_credential_type := if has_credential i then credential_type i else None;
     s_credential_sha256 := if has_credential i then (λ c, commerce_payload_hash (VMap c)) <$> credential i else None |}.

(** A member that must be a text that is not empty *)
Definition required_text (d : list (string * pyval)) (k : string) : result payment_error string :=
  match get_val d k with VStr s => if String.eqb s EmptyString then Err PaymentRequestError else Ok s | _ => Err PaymentRequestError end.

Definition parse_instrument (_ : nat) (item : pyval) : result payment_error Instrument :=
  match item with
  | VMap d =>
      i ← required_text d "id"; h ← required_text d "handler_id"; t ← required_text d "type";
      c ← match get_val d "credential" with
          | VNone => Ok None
          | VMap c => if truthy (get_val c "type") then Ok (Some c) else Err PaymentRequestError
          | _ => Err PaymentRequestError
          end;
      a ← match get_val d "amount" with VNone => Ok None | VInt z => if z <? 0 then Err PaymentRequestError else Ok (Some z) | _ => Err PaymentRequestError end;
      let disp := match get_val d "display" with VMap m => m | _ => [] end in
      Ok {| instrument_id := cut 120 i; handler_id := cut 120 h; type := cut 60 t; credential := c;
            display := omap (λ k, (k,.) <$> assoc k disp) DISPLAY_FIELDS;
            billing_address := match get_val d "billing_address" with VMap m => Some m | _ => None end;
            selected := match get_val d "selected" with VBool b => Some b | _ => None end; amount := a |}
  | _ => Err PaymentRequestError
  end.

Definition parse_payment (raw : pyval) : result payment_error (list Instrument * option string) :=
  match raw with
  | VNone => Ok ([], None)
  | VMap d =>
      items ← (if truthy (get_val d "instruments") then match get_val d "instruments" with VList l => Ok l | _ => Err PaymentRequestError end else Ok []);
      out ← map_res parse_instrument 0 items;
      Ok (out, match get_val d "selected_term_id" with VStr s => if String.eqb s EmptyString then None else Some s | _ => None end)
  | _ => Err PaymentRequestError
  end.

(** Whether a credential is malformed for its type; the reasons are left out *)
Definition credential_problem (c : list (string * pyval)) (version : string) : bool :=
  let kind := str_or_empty (get_val c "type") in
  let has k := truthy (get_val c k) in
  if String.eqb kind "pan" then negb (since_2026_08_25 version) || negb (has "number")
  else if String.eqb kind "network_token" then negb (since_2026_08_25 version) || negb (has "number" && has "cryptogram")
  else if String.eqb kind "card" then
    negb (existsb (λ t, scalar_eqb (get_val c "card_number_type") (VStr t)) ["fpan"; "network_token"; "dpan"]) || negb (has "number")
  else negb (has "token").

Definition instrument_path (index : nat) : string := "$.payment.instruments[" +:+ pretty index +:+ "]".

Section merchant.
Context `{PyInt} (handlers : list (string * PaymentHandler)) (version : string).
Context (split_payments : list (string * pyval)).

Definition validate_instruments (instruments : list Instrument) : list message :=
  concat (imap (λ index i, match resolve_handler handlers version (handler_id i) with
                           | None => [recoverable "payment_handler_unavailable" (instrument_path index +:+ ".handler_id")]
                           | Some _ => []
                           end) instruments).

Definition candidate (i : Instrument) (c : list (string * pyval)) : pyval :=
  VMap [("id", VStr (instrument_id i)); ("handler_id", VStr (handler_id i)); ("type", VStr (type i)); ("credential", VMap c)].

(** What an instrument is charged *)
Definition charge (split_active : bool) (total : Z) (i : Instrument) : Z :=
  match amount i with Some a => if split_active then a else total | None => total end.

Definition exceeds (a : Allowance) (currency : option string) (z : Z) : option string :=
  if given (allowance_currency a) && given currency && bool_decide (allowance_currency a ≠ currency) then Some "currency"
  else match max_amount_minor_units a with Some m => if m <? z then Some "amount" else None | None => None end.

(** The first reason an instrument cannot pay, as the member it is about *)
Definition instrument_problem (split_active : bool) (total : Z) (currency : option string) (i : Instrument) : option string :=
  match resolve_handler handlers version (handler_id i) with
  | None => Some ".handler_id"
  | Some (h, e) =>
      let offered := match available_instruments e with [] => [type i] | ts => ts end in
      if bool_decide (type i ∉ offered) then Some ".type"
      else match credential i with
      | None | Some [] => Some ".credential"
      | Some c =>
          if credential_problem c version then Some ".credential"
          else
            let accepted := accepted_credentials h version in
            if is_pan i && bool_decide ("pan" ∉ accepted) then Some ".credential"
            else if negb (existsb (λ t, bool_decide (credential_type i = Some t)) accepted) then Some ".credential.type"
            else if match request_constraints h e (type i) version with Some k => negb (satisfies (candidate i c) k) | None => false end then Some ".credential"
            else match exceeds (allowance h) currency (charge split_active total i) with Some _ => Some EmptyString | None => None end
      end
  end.

(** [int(group.get(key, default))] *)
Definition group_bound (g : list (string * pyval)) (key : string) (dflt : Z) : result value_error Z :=
  match assoc key g with None => Ok dflt | Some v => of_option BadType (py_int v) end.

(** Whether a type is in [set(group.get("types") or [])]; an unhashable item raises *)
Definition group_types (g : list (string * pyval)) : result value_error (list pyval) :=
  l ← or_items (get_val g "types");
  _ ← raise_if (existsb (λ v, match v with VList _ | VMap _ => true | _ => false end) l) BadType; Ok l.

Definition in_types (ts : list pyval) (t : string) : bool := existsb (λ v, scalar_eqb v (VStr t)) ts.

Fixpoint match_groups (combo : list pyval) (remaining : list string) : result value_error bool :=
  match combo with
  | [] => Ok (match remaining with [] => true | _ => false end)
  | VMap g :: rest =>
      ts ← group_types g;
      let n := Z.of_nat (length (List.filter (in_types ts) remaining)) in
      lo ← group_bound g "min" 0;
      if n <? lo then Ok false
      else
        hi ← group_bound g "max" 1;
        if hi <? n then Ok false else match_groups rest (List.filter (λ t, negb (in_types ts t)) remaining)
  | _ :: _ => Ok false
  end.

Definition _combination_matches (combo : pyval) (types : list string) : result value_error bool :=
  match combo with VList gs => match_groups gs types | _ => Ok false end.

Fixpoint any_combination (combos : list pyval) (types : list string) : result value_error bool :=
  match combos with
  | [] => Ok false
  | c :: rest => match _combination_matches c types with Ok true => Ok true | Ok false => any_combination rest types | Err e => Err e end
  end.

Definition sum_amounts (l : list Instrument) : Z := foldr Z.add 0 ((λ i, default 0 (amount i)) <$> l).

Definition split_failed : list message := [recoverable "payment_failed" "$.payment.instruments"].

Definition _split_messages (instruments : list Instrument) (total : Z) : result value_error (list message) :=
  if existsb (λ i, negb (bool_decide (is_Some (amount i)))) instruments then Ok split_failed
  else if negb (sum_amounts instruments =? total) then Ok split_failed
  else
    combos ← or_items (get_val split_payments "allowed_combinations");
    b ← any_combination combos (type <$> instruments); Ok (if (b : bool) then [] else split_failed).

Definition completion_messages (split_active : bool) (total : Z) (currency : option string) (instruments : list Instrument) :
    result value_error (list message) :=
  match instruments with
  | [] => Ok [recoverable "payment_failed" "$.payment"]
  | _ =>
      if (1 <? length instruments)%nat && negb split_active then Ok split_failed
      else
        let out := concat (imap (λ index i, match instrument_problem split_active total currency i with
                                            | Some member => [recoverable "payment_failed" (instrument_path index +:+ member)]
                                            | None => []
                                            end) instruments) in
        match out with
        | [] => if split_active && (1 <? length instruments)%nat then _split_messages instruments total else Ok []
        | _ => Ok out
        end
  end.
End merchant.

(** * Terms *)

Section terms.
Context `{PyInt}.

(** The amount of a schedule: the last share takes what is left *)
Definition schedule_amount (total allocated : Z) (is_last : bool) (schedule : list (string * pyval)) : result value_error Z :=
  match get_val schedule "share_bps" with
  | VInt share => Ok (if is_last then total - allocated else total * share / 10000)
  | _ => if truthy (get_val schedule "amount") then of_option BadType (py_int (get_val schedule "amount")) else Ok 0
  end.

Fixpoint schedule_amounts (total allocated : Z) (schedules : list (list (string * pyval))) : result value_error (list Z) :=
  match schedules with
  | [] => Ok []
  | s :: rest =>
      a ← schedule_amount total allocated (match rest with [] => true | _ => false end) s;
      amounts ← schedule_amounts total (allocated + a) rest; Ok (a :: amounts)
  end.

(** The mappings of [term.get("schedules") or []] *)
Definition raw_schedules (term : list (string * pyval)) : result value_error (list (list (string * pyval))) :=
  l ← or_items (get_val term "schedules"); Ok (omap (M := list) (λ v, match v with VMap d => Some d | _ => None end) l).

Record Schedule := { schedule_id : string; schedule_type : string; schedule_value : Z; due_in_days : option Z }.
Record Term := { term_id : string; term_title : string; schedules : list Schedule }.

Definition schedule_of (position : nat) (s : list (string * pyval)) (a : Z) : Schedule :=
  {| schedule_id := if truthy (get_val s "id") then py_str (get_val s "id") else "s" +:+ pretty (position + 1)%nat;
     schedule_type := if truthy (get_val s "type") then py_str (get_val s "type") else "installment"; schedule_value := a;
     due_in_days := match get_val s "due_in_days" with VInt z => Some z | _ => None end |}.

Definition payment_term (total : Z) (term : list (string * pyval)) : result value_error (option Term) :=
  ss ← raw_schedules term; amounts ← schedule_amounts total 0 ss;
  match ss with
  | [] => Ok None
  | _ =>
      id ← of_option BadType (py_str <$> assoc "id" term);
      Ok (Some {| term_id := id; term_title := if truthy (get_val term "title") then py_str (get_val term "title") else id;
                  schedules := imap (λ n sa, schedule_of n sa.1 sa.2) (zip ss amounts) |})
  end.

Fixpoint payment_terms (total : Z) (terms : list (list (string * pyval))) : result value_error (list Term) :=
  match terms with
  | [] => Ok []
  | t :: rest => o ← payment_term total t; l ← payment_terms total rest; Ok (match o with Some x => x :: l | None => l end)
  end.
End terms.

Definition token_binding (version checkout_id : string) : list (string * string) :=
  if since_2026_08_25 version then [("type", "dev.ucp.shopping.checkout"); ("id", checkout_id)] else [("checkout_id", checkout_id)].
End payment.

(** * The tokenised Plural handler *)

Record MandateCapability := { mandate_max : option Z; mandate_currency : option string; instrument_types : list string }.
Record Provider := { provider_type : string; enabled : bool }.

Definition HANDLER_NAME : string := "ai.agenticorg.payment.plural_tokenized".
Definition HANDLER_ID : string := "plural_tokenized".
Definition TOKEN_CREDENTIAL : string := "plural_pine_token".

(** A mapping whose [type] is a constant and which has a member *)
Definition token_form (kind member : string) : Constraint :=
  {| const := None; enum := None; required := Some [member]; anyOf := None;
     properties := Some [("type", {| const := Some (VStr kind); enum := None; required := None; properties := None; anyOf := None |})] |}.

Definition PluralTokenizedInstrumentHandler (capability : option MandateCapability) (providers : list Provider) : PaymentHandler :=
  {| handler_name := HANDLER_NAME;
     entries := λ _,
       match List.find (λ p, String.eqb (provider_type p) "plural_pine" && enabled p) providers, capability with
       | Some _, Some c => [{| entry_id := HANDLER_ID; available_instruments := match instrument_types c with [] => ["card"] | ts => ts end |}]
       | _, _ => []
       end;
     accepted_credentials := λ version, if since_2026_08_25 version then ["network_token"; TOKEN_CREDENTIAL] else ["card"; TOKEN_CREDENTIAL];
     allowance := {| max_amount_minor_units := capability ≫= mandate_max; allowance_currency := capability ≫= mandate_currency |};
     request_constraints := λ _ _ version,
       if since_2026_08_25 version then
         Some {| const := None; enum := None; required := Some ["credential"]; anyOf := None;
                 properties := Some [("credential", {| const := None; enum := None; required := None; properties := None;
                                                       anyOf := Some [token_form "network_token" "cryptogram"; token_form TOKEN_CREDENTIAL "token"] |})] |}
       else None |}.

(** * What an accepted payment satisfies *)

Section facts.
Context `{PyStr} `{PyInt} (handlers : list (string * PaymentHandler)) (version : string) (split_payments : list (string * pyval)).

Lemma resolve_handler_Some id h e : resolve_handler handlers version id = Some (h, e) →
  h ∈ handlers.*2 ∧ e ∈ entries h version ∧ entry_id e = id.
Proof.
  induction handlers as [|[n h'] rest IH]; cbn; [done|]. destruct (List.find _ _) as [e'|] eqn:E.
  - intros [= <- <-]. apply find_some in E as [? ?%String.eqb_eq]. split_and!; [by constructor|by apply list_elem_of_In|done].
  - intros (? & ? & ?)%IH. split_and!; try done. by constructor.
Qed.

(** The instrument is one its handler takes, with a well-formed credential the handler accepts, a card
    number only where card numbers are taken, and a charge within the handler's allowance. *)
Definition instrument_accepted (split_active : bool) (total : Z) (currency : option string) (i : Instrument) : Prop :=
  ∃ h e c, h ∈ handlers.*2 ∧ e ∈ entries h version ∧ entry_id e = handler_id i ∧
    (available_instruments e = [] ∨ type i ∈ available_instruments e) ∧ credential i = Some c ∧ c ≠ [] ∧ credential_problem c version = false ∧
    (is_pan i = true → "pan" ∈ accepted_credentials h version) ∧ (∃ t, credential_type i = Some t ∧ t ∈ accepted_credentials h version) ∧
    (∀ k, request_constraints h e (type i) version = Some k → satisfies (candidate i c) k = true) ∧
    (∀ a cur, allowance_currency (allowance h) = Some a → a ≠ EmptyString → currency = Some cur → cur ≠ EmptyString → a = cur) ∧
    (∀ m, max_amount_minor_units (allowance h) = Some m → charge split_active total i ≤ m).

Lemma exceeds_None a currency z : exceeds a currency z = None →
  (∀ x cur, allowance_currency a = Some x → x ≠ EmptyString → currency = Some cur → cur ≠ EmptyString → x = cur) ∧
  (∀ m, max_amount_minor_units a = Some m → z ≤ m).
Proof.
  unfold exceeds. destruct (_ && _) eqn:E; [done|]. intros Hm. split.
  - intros x cur Hx Hxe Hc Hce. rewrite Hx, Hc in E. cbn in E. destruct (String.eqb_spec x EmptyString), (String.eqb_spec cur EmptyString); try done.
    cbn in E. apply bool_decide_eq_false in E. destruct (decide (x = cur)); [done|]. destruct E. congruence.
  - intros m Hx. rewrite Hx in Hm. by destruct (Z.ltb_spec m z).
Qed.

Lemma instrument_problem_None split_active total currency i :
  instrument_problem handlers version split_active total currency i = None → instrument_accepted split_active total currency i.
Proof.
  unfold instrument_problem. destruct (resolve_handler _ _ _) as [[h e]|] eqn:Er; [|done]. apply resolve_handler_Some in Er as (Hh & He & Hid).
  cbn zeta. case_bool_decide as Ht; [done|]. destruct (credential i) as [[|kv c]|] eqn:Ec; try done. destruct (credential_problem _ _) eqn:Ecp; [done|].
  destruct (is_pan i && _) eqn:Epan; [done|]. destruct (negb (existsb _ _)) eqn:Eacc; [done|]. set (broken := match request_constraints h e (type i) version with Some k => _ | None => _ end). destruct broken eqn:Ek; [done|]. unfold broken in Ek.
  destruct (exceeds _ _ _) eqn:Ex; [done|]. intros _. apply exceeds_None in Ex as [Hcur Hmax]. exists h, e, (kv :: c). split_and!; try done.
  - destruct (available_instruments e) as [|t ts]; [by left|]. by right.
  - intros Hp. rewrite Hp in Epan. cbn in Epan. apply bool_decide_eq_false in Epan. by apply dec_stable.
  - apply negb_false_iff, existsb_exists in Eacc as (t & Hin & ->%bool_decide_eq_true). exists t. by rewrite list_elem_of_In.
  - intros k Hk. rewrite Hk in Ek. by apply negb_false_iff.
Qed.

(** ** Combinations *)

(** A group of a combination, read from the merchant's settings *)
Definition reads_group (v : pyval) (ts : list pyval) (lo hi : Z) : Prop :=
  ∃ g, v = VMap g ∧ group_types g = Ok ts ∧ group_bound g "min" 0 = Ok lo ∧ group_bound g "max" 1 = Ok hi.

(** Every type has a group, the first that lists it, and every group has as many as it allows. *)
Fixpoint fits (groups : list (list pyval * Z * Z)) (types : list string) : Prop :=
  match groups with
  | [] => types = []
  | (ts, lo, hi) :: rest =>
      lo ≤ Z.of_nat (length (List.filter (in_types ts) types)) ≤ hi ∧ fits rest (List.filter (λ t, negb (in_types ts t)) types)
  end.

Lemma match_groups_fits combo types : match_groups combo types = Ok true →
  ∃ groups, Forall2 (λ v g, reads_group v g.1.1 g.1.2 g.2) combo groups ∧ fits groups types.
Proof.
  revert types. induction combo as [|v combo IH]; intros types; cbn [match_groups].
  - intros [= Hr]. exists []. split; [constructor|]. by destruct types.
  - destruct v as [| | | | | |g| |]; try done. intros Hb. apply bind_Ok in Hb as (ts & Hts & Hb). apply bind_Ok in Hb as (lo & Hlo & Hb).
    destruct (Z.ltb_spec (Z.of_nat (length (List.filter (in_types ts) types))) lo); [done|]. apply bind_Ok in Hb as (hi & Hhi & Hb).
    destruct (Z.ltb_spec hi (Z.of_nat (length (List.filter (in_types ts) types)))); [done|]. apply IH in Hb as (groups & Hf & Hg).
    exists ((ts, lo, hi) :: groups). split; [constructor; [by exists g|done]|done].
Qed.

(** The group an instrument type belongs to *)
Fixpoint first_group (groups : list (list pyval * Z * Z)) (t : string) : option nat :=
  match groups with [] => None | (ts, _, _) :: rest => if in_types ts t then Some 0%nat else S <$> first_group rest t end.

Definition group_size (groups : list (list pyval * Z * Z)) (types : list string) (k : nat) : Z :=
  Z.of_nat (length (List.filter (λ t, bool_decide (first_group groups t = Some k)) types)).

Lemma group_size_0 ts lo hi groups types : group_size ((ts, lo, hi) :: groups) types 0 = Z.of_nat (length (List.filter (in_types ts) types)).
Proof.
  unfold group_size. do 2 f_equal. apply filter_ext. intros t. cbn. destruct (in_types ts t); [by rewrite bool_decide_true|].
  rewrite bool_decide_false; [done|]. by destruct (first_group groups t).
Qed.

Lemma filter_filter_andb {A} (f g : A → bool) l : List.filter f (List.filter g l) = List.filter (λ x, g x && f x) l.
Proof. induction l as [|x l IH]; [done|]. cbn. destruct (g x); cbn; by rewrite IH. Qed.

Lemma group_size_S ts lo hi groups types k :
  group_size ((ts, lo, hi) :: groups) types (S k) = group_size groups (List.filter (λ t, negb (in_types ts t)) types) k.
Proof.
  unfold group_size. do 2 f_equal. rewrite filter_filter_andb. apply filter_ext. intros t. cbn. destruct (in_types ts t); cbn [negb andb].
  - by rewrite bool_decide_false.
  - apply bool_decide_ext. destruct (first_group groups t); cbn; split; congruence.
Qed.

Lemma fits_spec groups types : fits groups types ↔
  (∀ t, t ∈ types → is_Some (first_group groups t)) ∧ ∀ k ts lo hi, groups !! k = Some (ts, lo, hi) → lo ≤ group_size groups types k ≤ hi.
Proof.
  revert types. induction groups as [|[[ts lo] hi] groups IH]; intros types; cbn [fits].
  { split; [intros ->; split; [by intros t ?%not_elem_of_nil|by intros]|]. intros [Hn _]. destruct types as [|t ?]; [done|]. by destruct (Hn t ltac:(constructor)). }
  rewrite IH, <- (group_size_0 ts lo hi groups). setoid_rewrite <- (group_size_S ts lo hi groups). split.
  - intros [Hb [Hg Hk]]. split.
    + intros t Ht. cbn. destruct (in_types ts t) eqn:E; [by eexists|]. apply fmap_is_Some, Hg. apply list_elem_of_In, filter_In. rewrite E. by apply list_elem_of_In in Ht.
    + intros [|k] ts' lo' hi' Hl; [by injection Hl as <- <- <-|]. by apply (Hk k ts').
  - intros [Hg Hk]. split; [by apply (Hk 0%nat ts)|]. split; [|intros k ts' lo' hi' Hl; by apply (Hk (S k) ts')].
    intros t [Ht Hn]%list_elem_of_In%filter_In. apply negb_true_iff in Hn. specialize (Hg t ltac:(by apply list_elem_of_In)). cbn in Hg. rewrite Hn in Hg. by apply fmap_is_Some in Hg.
Qed.

(** A combination of the merchant in which every instrument has its group *)
Definition combination_allowed (types : list string) : Prop :=
  ∃ combos combo groups, or_items (get_val split_payments "allowed_combinations") = Ok combos ∧ VList combo ∈ combos ∧
    Forall2 (λ v g, reads_group v g.1.1 g.1.2 g.2) combo groups ∧ (∀ t, t ∈ types → is_Some (first_group groups t)) ∧
    ∀ k ts lo hi, groups !! k = Some (ts, lo, hi) → lo ≤ group_size groups types k ≤ hi.

Lemma any_combination_true combos types : any_combination combos types = Ok true → ∃ combo, VList combo ∈ combos ∧ match_groups combo types = Ok true.
Proof.
  induction combos as [|c combos IH]; cbn; [done|]. destruct (_combination_matches c types) as [[]|] eqn:E; try done.
  - intros _. destruct c; try done. eexists. split; [constructor|done].
  - intros (combo & ? & ?)%IH. exists combo. split; [by constructor|done].
Qed.

Lemma split_messages_nil instruments total : _split_messages split_payments instruments total = Ok [] →
  Forall (λ i, is_Some (amount i)) instruments ∧ sum_amounts instruments = total ∧ combination_allowed (type <$> instruments).
Proof.
  unfold _split_messages. destruct (existsb _ _) eqn:E; [done|]. destruct (Z.eqb_spec (sum_amounts instruments) total) as [Hs|]; [|done]. cbn [negb].
  intros Hb. apply bind_Ok in Hb as (combos & Hc & Hb). apply bind_Ok in Hb as (b & Hb & Hr). destruct b; [|done]. split_and!; [|done|].
  - apply Forall_forall. intros i Hi. destruct (amount i) eqn:Ea; [by eexists|]. assert (existsb (λ i, negb (bool_decide (is_Some (amount i)))) instruments = true); [|congruence].
    apply existsb_exists. exists i. rewrite <- list_elem_of_In, Ea. done.
  - apply any_combination_true in Hb as (combo & Hin & (groups & Hf & [Hg Hk]%fits_spec)%match_groups_fits). by exists combos, combo, groups.
Qed.

Lemma concat_imap_nil {A B} (f : nat → A → list B) (l : list A) : concat (imap f l) = [] → ∀ n x, l !! n = Some x → f n x = [].
Proof.
  revert f. induction l as [|a l IH]; intros f Hc [|n] x Hx; try done; cbn in Hc, Hx; apply app_eq_nil in Hc as [Hc1 Hc2]; [by simplify_eq|].
  by apply (IH (f ∘ S) Hc2).
Qed.

(** What a payment without messages guarantees *)
Definition payment_settled (split_active : bool) (total : Z) (currency : option string) (instruments : list Instrument) : Prop :=
  Forall (instrument_accepted split_active total currency) instruments ∧
  ((∃ i, instruments = [i]) ∨
   split_active = true ∧ Forall (λ i, is_Some (amount i)) instruments ∧ sum_amounts instruments = total ∧ combination_allowed (type <$> instruments)).

Lemma completion_messages_nil split_active total currency instruments :
  completion_messages handlers version split_payments split_active total currency instruments = Ok [] → payment_settled split_active total currency instruments.
Proof.
  unfold completion_messages. destruct instruments as [|i0 rest] eqn:Ei; [done|]. rewrite <- Ei. destruct (_ && negb _) eqn:Em; [done|].
  destruct (concat _) as [|m ms] eqn:Ec; [|done]. intros Hs. split.
  - apply Forall_lookup. intros n i Hn. apply instrument_problem_None.
    pose proof (concat_imap_nil _ _ Ec n i Hn) as Hp. cbn in Hp. by destruct (instrument_problem _ _ _ _ _ _).
  - destruct rest as [|i1 rest]; [left; by exists i0|]. right. rewrite Ei in Em. cbn in Em. apply negb_false_iff in Em as ->. rewrite Ei in Hs at 1. cbn [length Nat.ltb Nat.leb andb] in Hs.
    by apply split_messages_nil in Hs as (? & ? & ?).
Qed.
End facts.

(** * Card numbers and the Plural handler *)

Lemma plural_refuses_pan `{PyStr} capability providers version split_active total currency i : is_pan i = true →
  ¬ instrument_accepted [(HANDLER_NAME, PluralTokenizedInstrumentHandler capability providers)] version split_active total currency i.
Proof.
  intros Hp (h & e & c & Hh & _ & _ & _ & _ & _ & _ & Hpan & _). apply list_elem_of_singleton in Hh as ->. specialize (Hpan Hp). cbn in Hpan.
  destruct (since_2026_08_25 version); set_solver.
Qed.

(** * Terms *)

Section term_facts.
Context `{PyInt}.

Definition sum (l : list Z) : Z := foldr Z.add 0 l.

Definition share_of (s : list (string * pyval)) : option Z := match get_val s "share_bps" with VInt z => Some z | _ => None end.

(** The schedules of a term that ends with a share add up to the total, whatever the other shares are. *)
Lemma schedule_amounts_sum total allocated ss amounts : schedule_amounts total allocated ss = Ok amounts →
  (∃ s share, last ss = Some s ∧ share_of s = Some share) → allocated + sum amounts = total.
Proof.
  revert allocated amounts. induction ss as [|s ss IH]; intros allocated amounts Ha (l & share & Hl & Hs); [done|]. cbn in Ha.
  apply bind_Ok in Ha as (a & Hsa & Ha). apply bind_Ok in Ha as (rest & Hrest & Ha). injection Ha as <-. cbn.
  destruct ss as [|s' ss].
  - cbn in Hl. injection Hl as <-. cbn in Hrest. injection Hrest as <-. unfold schedule_amount in Hsa. unfold share_of in Hs.
    destruct (get_val s "share_bps"); try done. injection Hsa as <-. cbn. lia.
  - rewrite <- (IH _ _ Hrest); [fold (sum rest); lia|]. exists l, share. by rewrite last_cons_cons in Hl.
Qed.

(** Shares that do not exceed the whole leave no negative schedule. *)
Lemma schedule_amounts_nonneg total allocated used ss shares amounts : 0 ≤ total → 0 ≤ used → allocated * 10000 ≤ total * used →
  Forall2 (λ s z, share_of s = Some z ∧ 0 ≤ z) ss shares → used + sum shares ≤ 10000 →
  schedule_amounts total allocated ss = Ok amounts → Forall (λ a, 0 ≤ a) amounts.
Proof.
  intros Ht. revert allocated used shares amounts. induction ss as [|s ss IH]; intros allocated used shares amounts Hu Hal Hf Hs Ha; cbn in Ha.
  { injection Ha as <-. constructor. }
  inversion Hf as [|? z ? zs [Hz Hz0] Hf']; subst. apply bind_Ok in Ha as (a & Hsa & Ha). apply bind_Ok in Ha as (rest & Hrest & Ha). injection Ha as <-.
  unfold schedule_amount in Hsa. unfold share_of in Hz. destruct (get_val s "share_bps"); try done. injection Hz as ->. injection Hsa as <-. cbn in Hs.
  assert (0 ≤ sum zs) as Hzs. { clear -Hf'. induction Hf' as [|? ? ? ? [_ ?]]; cbn; [lia|]. fold (sum l'). lia. }
  destruct ss as [|s' ss].
  - cbn in Hrest. injection Hrest as <-. constructor; [|constructor]. fold (sum zs) in Hs. nia.
  - assert (0 ≤ total * z / 10000) as H0 by (apply Z.div_pos; nia). constructor; [done|]. apply (IH (allocated + total * z / 10000) (used + z) zs); try done; try lia.
    + pose proof (Z.mul_div_le (total * z) 10000 ltac:(lia)). lia.
    + fold (sum zs) in Hs. lia.
Qed.
End term_facts.
