(* ===== verification/UcpCheckout.v ===== *)
(** The checkout engine: src/core/commerce/ucp/checkout.py, with the buyer's consent
    (src/core/commerce/ucp/consent.py).

    A create or update request is a parsed document; the state built from it is a record. The
    catalogue, the rates and the payment handlers are arguments. Left out of the state: the digest of
    the risk signals, the loyalty view and the permalink, on which neither the status nor the total depends. *)

From Stdlib Require Import Ascii.
From S2P Require Import Prelude PyVal PyText Arbiter LedgerExport UcpQuantity UcpMessages UcpDelivery UcpFulfillment UcpPayment.

Local Open Scope Z_scope.

(** * Status *)

Inductive Status := incomplete | requires_escalation | ready_for_complete | complete_in_progress | completed | canceled.

#[global] Instance Status_eq_dec : EqDecision Status.
Proof. solve_decision. Defined.

Definition TERMINAL : list Status := [completed; canceled].
Definition FROZEN : list Status := [complete_in_progress; completed; canceled].
Definition MAX_LINE_ITEMS : nat := 100.

Definition status_for (messages : list message) (continue_url : option string) : Status :=
  if escalates messages && given continue_url then requires_escalation
  else if has_errors messages then incomplete else ready_for_complete.

(** A malformed request (400), a value of the wrong type, and rates that could not be read *)
Inductive request_error := RequestError | TypeFailure | RatesUnavailable.

(** * Line items *)

Record CatalogItem := {
  title : string; price_minor_units : Z; item_currency : string; inventory : option Z; image_url : option string;
  quantity_unit : QuantityUnit; storefront_variant_token : option string }.

Record Line := {
  line_id : string; line_quantity : Z; parent_id : option string; item_id : string; item_title : string; item_price : Z;
  item_image : option string; item_unit : option QuantityUnit; line_total : Z; storefront_variant : option string }.

Record ParsedLine := { p_id : option string; p_item : string; p_quantity : Z; p_asserted : pyval; p_parent : option string }.

Definition as_text (v : pyval) : option string := match v with VStr s => Some s | _ => None end.

Definition parse_line (version : string) (_ : nat) (raw : pyval) : result request_error ParsedLine :=
  match raw with
  | VMap d =>
      match get_val d "item" with
      | VMap item =>
          id ← match get_val item "id" with
               | VStr s => if String.eqb s EmptyString || (200 <? String.length s)%nat then Err RequestError else Ok s
               | _ => Err RequestError
               end;
          q ← match parse_quantity (get_val d "quantity") with Ok q => Ok q | Err _ => Err RequestError end;
          Ok {| p_id := as_text (get_val d "id"); p_item := id; p_quantity := q;
                p_asserted := if since_2026_08_25 version then get_val item "quantity_unit" else VNone; p_parent := as_text (get_val d "parent_id") |}
      | _ => Err RequestError
      end
  | _ => Err RequestError
  end.

Record lines_state := {
  s_next : Z; s_used : list string; s_items : list Line; s_messages : list message; s_currency : option string; s_subtotal : Z }.

(** Units to take from the shelf: the quantity in whole units, rounded up *)
Definition whole_units (quantity : Z) (u : QuantityUnit) : Z := - ((- quantity) / 10 ^ scale u).

(** The quantity of a line in the item's unit, and the messages of the conversion *)
Definition line_quantity_of (asserted : pyval) (u : QuantityUnit) (q : Z) (path : string) : Z * list message :=
  match asserted with
  | VNone => (q, [])
  | _ =>
      match (a ← parse_quantity_unit asserted; reconcile (Some a) u q) with
      | Ok r => (quantity r, if converted r then [warning "quantity_converted" (path +:+ ".quantity")] else [])
      | Err code => (q, [recoverable code (path +:+ ".item.quantity_unit")])
      end
  end.

Definition line_path (index : nat) : string := "$.line_items[" +:+ pretty index +:+ "]".

Definition line_step (previous_ids : list string) (found : list (string * CatalogItem)) (s : lines_state) (index : nat) (p : ParsedLine) : lines_state :=
  let path := line_path index in
  let kept := match p_id p with
              | Some i => if negb (String.eqb i EmptyString) && bool_decide (i ∈ previous_ids) && bool_decide (i ∉ s_used s) then Some i else None
              | None => None
              end in
  let id := default ("li_" +:+ pretty (s_next s)) kept in
  let next := match kept with Some _ => s_next s | None => s_next s + 1 end in
  let parent := match p_parent p with Some x => if negb (String.eqb x EmptyString) && bool_decide (x ∈ previous_ids) then Some x else None | None => None end in
  match assoc (p_item p) found with
  | None =>
      {| s_next := next; s_used := id :: s_used s; s_currency := s_currency s; s_subtotal := s_subtotal s;
         s_messages := s_messages s ++ [recoverable "not_found" path];
         s_items := s_items s ++ [{| line_id := id; line_quantity := p_quantity p; parent_id := parent; item_id := p_item p; item_title := p_item p; item_price := 0;
                                     item_image := None; item_unit := None; line_total := 0; storefront_variant := None |}] |}
  | Some item =>
      let currency_msgs := match s_currency s with
                           | Some c => if String.eqb (item_currency item) c then [] else [recoverable "item_unavailable" path]
                           | None => []
                           end in
      let '(q, unit_msgs) := line_quantity_of (p_asserted p) (quantity_unit item) (p_quantity p) path in
      let step_msgs := if increment_warning (quantity_unit item) q then [warning "quantity_increment" (path +:+ ".quantity")] else [] in
      let stock_msgs := match inventory item with
                        | Some n => if n <? whole_units q (quantity_unit item) then [recoverable "out_of_stock" path] else []
                        | None => []
                        end in
      let amount := line_amount (price_minor_units item) q (scale (quantity_unit item)) in
      {| s_next := next; s_used := id :: s_used s;
         s_currency := Some (default (item_currency item) (s_currency s)); s_subtotal := s_subtotal s + amount;
         s_messages := s_messages s ++ currency_msgs ++ unit_msgs ++ step_msgs ++ stock_msgs;
         s_items := s_items s ++ [{| line_id := id; line_quantity := q; parent_id := parent; item_id := p_item p; item_title := title item;
                                     item_price := price_minor_units item; item_image := if given (image_url item) then image_url item else None;
                                     item_unit := if is_each (quantity_unit item) then None else Some (quantity_unit item); line_total := amount;
                                     storefront_variant := if given (storefront_variant_token item) then storefront_variant_token item else None |}] |}
  end.

Fixpoint line_loop (previous_ids : list string) (found : list (string * CatalogItem)) (s : lines_state) (index : nat) (ps : list ParsedLine) : lines_state :=
  match ps with [] => s | p :: rest => line_loop previous_ids found (line_step previous_ids found s index p) (S index) rest end.

Definition _require_list (body : list (string * pyval)) (name : string) : result request_error (list pyval) :=
  match get_val body name with
  | VList (x :: l) => if (MAX_LINE_ITEMS <? length (x :: l))%nat then Err RequestError else Ok (x :: l)
  | _ => Err RequestError
  end.

Definition build_line_items (lookup : list string → list (string * CatalogItem)) (version : string) (previous : list Line) (next_seq : Z) (raw_items : list pyval) :
    result request_error lines_state :=
  parsed ← map_res (parse_line version) 0 raw_items;
  Ok (line_loop (line_id <$> previous) (lookup (p_item <$> parsed))
        {| s_next := next_seq; s_used := []; s_items := []; s_messages := []; s_currency := None; s_subtotal := 0 |} 0 parsed).

(** * Totals *)

Inductive total_type := subtotal_t | fulfillment_t | total_t.

#[global] Instance total_type_eq_dec : EqDecision total_type.
Proof. solve_decision. Defined.

Definition compute_totals (subtotal : Z) (fulfillment_amount : option Z) : list (total_type * Z) :=
  [(subtotal_t, subtotal)] ++ match fulfillment_amount with Some a => [(fulfillment_t, a)] | None => [] end ++
  [(total_t, subtotal + default 0 fulfillment_amount)].

(** The first entry of type [total]; [StopIteration] without one *)
Definition total_of (totals : list (total_type * Z)) : option Z := snd <$> List.find (λ t, bool_decide (t.1 = total_t)) totals.

(** * The buyer, the context and the consent *)

Definition BUYER_FIELDS : list string := ["first_name"; "last_name"; "email"; "phone_number"].

(** A lower-case letter, then letters and digits; a later segment may have underscores *)
Definition dns_segment (underscore : bool) (s : string) : bool :=
  match chars s with
  | c :: l => is_lower_az c && forallb (λ c, is_lower_az c || is_digit c || (underscore && is_underscore c)) l
  | [] => false
  end.
Definition _REVERSE_DNS (s : string) : bool :=
  match split dot (of_chars (drop_final_newline (chars s))) with
  | first :: second :: rest => dns_segment false first && forallb (dns_segment true) (second :: rest)
  | _ => false
  end.

Record ConsentEntry := { granted : bool; source : string; segments : option (list (string * (bool * string))) }.

Definition R08_KEYS : list (string * string) :=
  [("analytics", "dev.ucp.consent.analytics"); ("preferences", "dev.ucp.consent.preferences"); ("marketing", "dev.ucp.consent.marketing");
   ("sale_of_data", "dev.ucp.consent.sale_or_sharing")].

(** The granted flag of an entry; whatever the platform claims, it is the source. An unhashable
    source is compared with the members of a tuple, which never raises. *)
Definition entry_granted (d : list (string * pyval)) : result request_error bool :=
  match get_val d "granted" with VBool b => Ok b | _ => Err RequestError end.

(** The inner segments of a segment are checked and dropped. *)
Fixpoint check_entry (v : pyval) {struct v} : result request_error unit :=
  match v with
  | VMap d =>
      _ ← entry_granted d;
      (fix find_segments (kvs : list (string * pyval)) : result request_error unit :=
         match kvs with
         | [] => Ok tt
         | (k, x) :: rest =>
             if String.eqb k "segments" then
               match x with
               | VMap segs =>
                   (fix go (segs : list (string * pyval)) : result request_error unit :=
                      match segs with
                      | [] => Ok tt
                      | (key, seg) :: segs => _ ← raise_if (negb (_REVERSE_DNS key)) RequestError; _ ← check_entry seg; go segs
                      end) segs
               | _ => Ok tt
               end
             else find_segments rest
         end) d
  | _ => Err RequestError
  end.

Definition _purpose_entry (v : pyval) : result request_error ConsentEntry :=
  _ ← check_entry v;
  match v with
  | VMap d =>
      g ← entry_granted d;
      segs ← match get_val d "segments" with
             | VMap segs => l ← map_res (λ _ kv, match kv.2 with VMap s => b ← entry_granted s; Ok (kv.1, (b, "platform")) | _ => Err RequestError end) 0 segs; Ok (Some l)
             | _ => Ok None
             end;
      Ok {| granted := g; source := "platform"; segments := segs |}
  | _ => Err RequestError
  end.

Definition parse_consent (raw : pyval) (version : string) : result request_error (option (list (string * ConsentEntry))) :=
  match raw with
  | VNone => Ok None
  | VMap d =>
      out ← map_res (λ _ kv,
        if since_2026_08_25 version then _ ← raise_if (negb (_REVERSE_DNS kv.1)) RequestError; e ← _purpose_entry kv.2; Ok (kv.1, e)
        else
          purpose ← of_option RequestError (assoc kv.1 R08_KEYS);
          match kv.2 with VBool b => Ok (purpose, {| granted := b; source := "platform"; segments := None |}) | _ => Err RequestError end) 0 d;
      Ok (Some out)
  | _ => Err RequestError
  end.

Definition parse_buyer (raw : pyval) (version : string) : result request_error (option (list (string * string)) * option (list (string * ConsentEntry))) :=
  match raw with
  | VNone => Ok (None, None)
  | VMap d =>
      consent ← parse_consent (get_val d "consent") version;
      Ok (Some (omap (M := list) (λ k, match get_val d k with VStr s => if String.eqb s EmptyString then None else Some (k, cut 320 s) | _ => None end) BUYER_FIELDS), consent)
  | _ => Err RequestError
  end.

Record BuyerContext := {
  texts : list (string * string); eligibility : option (list string); payment_hints : option (list (string * list string)) }.

(** The types of a payment hint: [p.get("types") or []] must be iterable *)
Definition hint_types (v : pyval) : result request_error (list string) :=
  match or_items v with Ok l => Ok (omap (M := list) as_text l) | Err _ => Err TypeFailure end.

Definition parse_context (raw : pyval) : result request_error (option BuyerContext) :=
  match raw with
  | VNone => Ok None
  | VMap d =>
      hints ← match get_val d "payment" with
              | VList ps =>
                  l ← map_res (λ _ x, match x with (h, ts) => l ← hint_types ts; Ok (h, l) end) 0
                        (omap (M := list) (λ p, match p with VMap m => match get_val m "handler" with VStr h => Some (h, get_val m "types") | _ => None end | _ => None end) ps);
                  Ok (Some l)
              | _ => Ok None
              end;
      Ok (Some {| texts := omap (M := list) (λ k, match get_val d k with VStr s => Some (k, cut 200 s) | _ => None end)
                             ["address_country"; "address_region"; "postal_code"; "intent"; "language"; "currency"];
                  eligibility := match get_val d "eligibility" with
                                 | VList es => Some (sorted_strings (list_to_set (omap (M := list) (λ e, match e with VStr s => if _REVERSE_DNS s then Some s else None | _ => None end) es)))
                                 | _ => None
                                 end;
                  payment_hints := hints |})
  | _ => Err RequestError
  end.

Definition parse_attribution (raw : pyval) : result request_error (option (list (string * string))) :=
  match raw with
  | VNone => Ok None
  | VMap d =>
      l ← map_res (λ _ kv, match kv.2 with VStr s => Ok (kv.1, s) | _ => Err RequestError end) 0 d;
      Ok (Some (foldl (λ out kv, dict_set (cut 120 kv.1) (cut 500 kv.2) out) [] (take 50 l)))
  | _ => Err RequestError
  end.

(** * Evaluation *)

Record Negotiated := { version : string; active : list string }.
Definition has (n : Negotiated) (capability : string) : bool := bool_decide (capability ∈ active n).

Definition FULFILLMENT : string := "dev.ucp.shopping.fulfillment".
Definition BUYER_CONSENT : string := "dev.ucp.shopping.buyer_consent".
Definition PAYMENT_TERMS : string := "dev.ucp.common.payment.terms".

Record State := {
  line_items : list Line; next_line_seq : Z; buyer : option (list (string * string)); consent : option (list (string * ConsentEntry));
  context : option BuyerContext; attribution : option (list (string * string)); currency : option string; capabilities : list string; ucp_version : string;
  fulfillment_methods : option (list Method); instruments : list StoredInstrument; selected_term_id : option string;
  totals : list (total_type * Z); payment_terms_ : option (list Term); state_messages : list message }.

Record Evaluation := { state : State; status : Status; total_minor_units : Z }.

Definition lift {E A} (f : E → request_error) (r : result E A) : result request_error A := match r with Ok a => Ok a | Err e => Err (f e) end.
Definition of_fulfillment_error (e : fulfillment_error) : request_error :=
  match e with FulfillmentRequestError => RequestError | Unhashable => TypeFailure | RatesError => RatesUnavailable end.

Section evaluate.
Context `{PyStr} `{PyInt} `{PayloadHash}.
(** The merchant: its fulfilment settings, its payment terms and the handlers offered to it *)
Context (merchant : Merchant) (terms : list (list (string * pyval))) (handlers : list (string * PaymentHandler)).
Context (lookup : list string → list (string * CatalogItem)) (rates_source : option (result fulfillment_error (list DeliveryRate))).

(** [fulfillment_amount]: the charge, when any option is selected *)
Definition charged (ms : list Method) (amount : Z) : option Z :=
  if existsb (λ m, existsb (λ g, given (selected_option_id g)) (groups m)) ms then Some amount else None.

Definition evaluate (is_checkout : bool) (n : Negotiated) (body : list (string * pyval)) (previous : option State) : result request_error Evaluation :=
  raw_items ← _require_list body "line_items";
  li ← build_line_items lookup (version n) (from_option line_items [] previous) (match from_option next_line_seq 0 previous with 0 => 1 | z => z end) raw_items;
  bc ← parse_buyer (get_val body "buyer") (version n);
  ctx ← parse_context (get_val body "context");
  att ← parse_attribution (get_val body "attribution");
  _ ← match get_val body "signals" with VNone | VMap _ => Ok tt | _ => Err RequestError end;
  fr ← (if is_checkout && has n FULFILLMENT then
          r ← lift of_fulfillment_error (build_fulfillment merchant (default [] (previous ≫= fulfillment_methods)) (line_id <$> s_items li) (s_currency li) (s_subtotal li)
                                           rates_source (get_val body "fulfillment"));
          Ok (Some r)
        else Ok None);
  let fulfillment_msgs := from_option messages [] fr in
  let amount := fr ≫= λ r, charged (methods r) (fulfillment_amount r) in
  pay ← (if is_checkout then p ← lift (λ _, RequestError) (parse_payment (get_val body "payment")); Ok (Some p) else Ok None);
  let insts := from_option fst [] pay in
  let payment_msgs := validate_instruments handlers (version n) insts in
  let wants := pay ≫= snd in
  let known t := existsb (λ term, String.eqb (py_str (get_val term "id")) t) terms in
  let term_active := is_checkout && has n PAYMENT_TERMS in
  let term_msgs := match wants with Some t => if term_active && negb (known t) then [recoverable "invalid_payment_term" "$.payment"] else [] | None => [] end in
  let totals := compute_totals (s_subtotal li) amount in
  total ← of_option TypeFailure (total_of totals);
  ts ← (if term_active then l ← lift (λ _, TypeFailure) (payment_terms total terms); Ok (Some l) else Ok None);
  let msgs := s_messages li ++ fulfillment_msgs ++ payment_msgs ++ term_msgs in
  Ok {| state := {| line_items := s_items li; next_line_seq := s_next li; buyer := fst bc; consent := if has n BUYER_CONSENT then snd bc else None; context := ctx;
                    attribution := att; currency := s_currency li; capabilities := sort_by String.leb (active n); ucp_version := version n;
                    fulfillment_methods := methods <$> fr; instruments := stored <$> insts;
                    selected_term_id := match wants with Some t => if term_active && known t then Some t else None | None => None end;
                    totals := totals; payment_terms_ := ts; state_messages := msgs |};
        status := status_for msgs None; total_minor_units := total |}.
End evaluate.

(** * Line items: identities, prices and stock *)

(** Ids of lines: distinct, from the counter *)
Definition generated (next : Z) (i : string) : Prop := ∃ k, 1 ≤ k < next ∧ i = "li_" +:+ pretty k.
Definition ids_ok (ids : list string) (next : Z) : Prop := NoDup ids ∧ 1 ≤ next ∧ ∀ i, i ∈ ids → generated next i.

(** A line sold as the catalogue has it: priced, in its currency, in whole steps and in stock *)
Definition line_ok (found : list (string * CatalogItem)) (cur : option string) (l : Line) : Prop :=
  ∃ item, assoc (item_id l) found = Some item ∧ cur = Some (item_currency item) ∧ item_price l = price_minor_units item ∧
          1 ≤ line_quantity l ≤ MAX_QUANTITY ∧ line_total l = line_amount (item_price l) (line_quantity l) (scale (quantity_unit item)) ∧
          ∀ n, inventory item = Some n → whole_units (line_quantity l) (quantity_unit item) ≤ n.

Definition sum_totals (ls : list Line) : Z := foldr Z.add 0 (line_total <$> ls).

Record lines_inv (found : list (string * CatalogItem)) (s : lines_state) : Prop := {
  inv_used : s_used s = reverse (line_id <$> s_items s);
  inv_ids : ids_ok (s_used s) (s_next s);
  inv_subtotal : s_subtotal s = sum_totals (s_items s);
  inv_lines : has_errors (s_messages s) = false → Forall (line_ok found (s_currency s)) (s_items s) }.

Lemma li_inj (a b : Z) : "li_" +:+ pretty a = "li_" +:+ pretty b → a = b.
Proof. intros E%(inj (String.app "li_")). by apply (inj (pretty (A := Z))). Qed.

Lemma generated_mono next next' i : next ≤ next' → generated next i → generated next' i.
Proof. intros Hn (k & ? & ->). exists k. split; [lia|done]. Qed.

Lemma sum_totals_snoc ls l : sum_totals (ls ++ [l]) = sum_totals ls + line_total l.
Proof. unfold sum_totals. rewrite fmap_app, foldr_app. cbn. induction ls as [|a ls IH]; cbn in *; lia. Qed.

Lemma line_quantity_of_spec asserted u q path q' msgs : 1 ≤ q ≤ MAX_QUANTITY → line_quantity_of asserted u q path = (q', msgs) → 1 ≤ q' ≤ MAX_QUANTITY.
Proof.
  intros Hq. unfold line_quantity_of. destruct (match asserted with VNone => true | _ => false end) eqn:E; [destruct asserted; try done; by intros [= <- <-]|].
  destruct (parse_quantity_unit asserted ≫= _) as [r|c] eqn:Er; [|intros H; destruct asserted; by simplify_eq].
  apply bind_Ok in Er as (a & _ & Hr). assert (1 ≤ quantity r ≤ MAX_QUANTITY) as Hb.
  { unfold reconcile in Hr. case_bool_decide; [by injection Hr as <-|]. inv_ok. unfold parse_quantity in *. inv_ok.
    match goal with H : int_within _ _ _ = Some _ |- _ => by apply int_within_Some in H as [_ ?] end. }
  intros H. destruct asserted; by simplify_eq.
Qed.

(** The id of the next line is new, and is from the counter *)
Lemma next_id_ok previous next next0 used kept : ids_ok previous next0 → next0 ≤ next → ids_ok used next →
  (∀ i, kept = Some i → i ∈ previous ∧ i ∉ used) →
  let id := default ("li_" +:+ pretty next) kept in
  let next' := match kept with Some _ => next | None => next + 1 end in
  ids_ok (id :: used) next' ∧ next ≤ next'.
Proof.
  intros (_ & _ & Hp) Hle (Hn & H1 & Hu) Hk. cbn zeta. destruct kept as [i|]; cbn [default from_option].
  - destruct (Hk i eq_refl) as [Hin Hnu]. split; [|lia]. split_and!; [by constructor|done|]. intros j [->|Hj]%elem_of_cons; [|by apply Hu].
    apply (generated_mono next0); [done|]. by apply Hp.
  - split; [|lia]. split_and!; [|lia|].
    + constructor; [|done]. intros Hin. destruct (Hu _ Hin) as (k & Hk2 & E). apply li_inj in E. lia.
    + intros j [->|Hj]%elem_of_cons; [exists next; split; [lia|done]|]. apply (generated_mono next); [lia|]. by apply Hu.
Qed.

Lemma line_ok_currency found cur cur' l : (∀ c, cur = Some c → cur' = Some c) → line_ok found cur l → line_ok found cur' l.
Proof. intros Hc (item & ? & Hcur & ?). exists item. split; [done|]. split; [by apply Hc|done]. Qed.

Section line_facts.
Context (previous : list string) (found : list (string * CatalogItem)) (next0 : Z) (Hprev : ids_ok previous next0).

Lemma line_step_inv s index p : lines_inv found s → next0 ≤ s_next s → 1 ≤ p_quantity p ≤ MAX_QUANTITY →
  lines_inv found (line_step previous found s index p) ∧ next0 ≤ s_next (line_step previous found s index p).
Proof.
  intros [Hu Hi Hs Hl] Hn Hq. unfold line_step. set (path := line_path index). set (kept := match p_id p with Some _ => _ | None => None end).
  assert (∀ i, kept = Some i → i ∈ previous ∧ i ∉ s_used s) as Hk.
  { unfold kept. intros i. destruct (p_id p) as [x|]; [|done]. destruct (_ && _) eqn:E; [|done]. intros [= <-]. rewrite !andb_true_iff in E.
    destruct E as [[_ ?%bool_decide_eq_true] ?%bool_decide_eq_true]. done. }
  destruct (next_id_ok _ _ _ _ _ Hprev Hn Hi Hk) as [Hids Hnext]. cbn zeta in *. set (id := default _ kept) in *. set (next := match kept with Some _ => _ | None => _ end) in *.
  destruct (assoc (p_item p) found) as [item|] eqn:Ef.
  - destruct (line_quantity_of _ _ _ _) as [q unit_msgs] eqn:Eq. apply line_quantity_of_spec in Eq as Hq'; [|done]. split; [|cbn; lia].
    split; cbn [s_used s_items s_next s_subtotal s_messages s_currency]; [by rewrite fmap_app, reverse_app, Hu|done|by rewrite sum_totals_snoc, Hs|].
    rewrite !has_errors_app, !orb_false_iff. intros (Hm & Hc & _ & _ & Hst). specialize (Hl Hm). apply Forall_app. split.
    + eapply Forall_impl; [exact Hl|]. intros l. apply line_ok_currency. intros c ->. done.
    + constructor; [|constructor]. exists item. cbn [item_id item_price line_quantity line_total]. split_and!; try done; try lia.
      * destruct (s_currency s) as [c|]; [|done]. cbn. destruct (String.eqb_spec (item_currency item) c) as [->|]; done.
      * intros n Hinv. rewrite Hinv in Hst. destruct (Z.ltb_spec n (whole_units q (quantity_unit item))); [done|lia].
  - split; [|cbn; lia]. split; cbn [s_used s_items s_next s_subtotal s_messages s_currency]; [by rewrite fmap_app, reverse_app, Hu|done|rewrite sum_totals_snoc, Hs; cbn; lia|].
    by rewrite has_errors_app, orb_false_iff; intros [_ ?].
Qed.

Lemma line_loop_inv ps : ∀ s index, lines_inv found s → next0 ≤ s_next s → Forall (λ p, 1 ≤ p_quantity p ≤ MAX_QUANTITY) ps →
  lines_inv found (line_loop previous found s index ps) ∧ next0 ≤ s_next (line_loop previous found s index ps) ∧
  length (s_items (line_loop previous found s index ps)) = (length (s_items s) + length ps)%nat.
Proof.
  induction ps as [|p ps IH]; intros s index Hi Hn Hf; cbn [line_loop]; [rewrite Nat.add_0_r; done|]. apply Forall_cons in Hf as [Hp Hf].
  destruct (line_step_inv s index p Hi Hn Hp) as [Hi' Hn']. destruct (IH _ (S index) Hi' Hn' Hf) as (? & ? & Hlen). split_and!; try done. rewrite Hlen.
  assert (length (s_items (line_step previous found s index p)) = S (length (s_items s))) as ->; [|cbn; lia].
  unfold line_step. destruct (assoc _ _); [destruct (line_quantity_of _ _ _ _)|]; cbn; rewrite length_app; cbn; lia.
Qed.
End line_facts.

Lemma parse_line_quantity version index raw p : parse_line version index raw = Ok p → 1 ≤ p_quantity p ≤ MAX_QUANTITY.
Proof.
  destruct raw as [| | | | | |d| |]; try done. unfold parse_line. destruct (get_val d "item"); try done. intros H. inv_ok.
  cbn. unfold parse_quantity, of_option in *. destruct (int_within _ _ _) as [z|] eqn:E; [|done]. apply int_within_Some in E as [_ ?]. by simplify_eq.
Qed.

(** What building the line items gives, whatever the request *)
Lemma build_line_items_spec lookup version previous next raws s : ids_ok (line_id <$> previous) next →
  build_line_items lookup version previous next raws = Ok s → ∃ ids,
  ids_ok (line_id <$> s_items s) (s_next s) ∧ length (s_items s) = length raws ∧ s_subtotal s = sum_totals (s_items s) ∧
  (has_errors (s_messages s) = false → Forall (line_ok (lookup ids) (s_currency s)) (s_items s)).
Proof.
  intros Hp Hb. unfold build_line_items in Hb. apply bind_Ok in Hb as (parsed & Hps & [= <-]). exists (p_item <$> parsed).
  assert (Forall (λ p, 1 ≤ p_quantity p ≤ MAX_QUANTITY) parsed) as Hf by (eapply map_res_Forall; [exact Hps|]; intros; by eapply parse_line_quantity).
  apply map_res_Forall2 in Hps as [Hlen _]. set (s0 := {| s_next := next |}).
  assert (lines_inv (lookup (p_item <$> parsed)) s0) as H0. { split; cbn; try done. split_and!; [constructor|apply Hp|]. by intros i ?%not_elem_of_nil. }
  destruct (line_loop_inv _ (lookup (p_item <$> parsed)) next Hp parsed s0 0%nat H0 ltac:(cbn; lia) Hf) as ([Hu (Hn & H1 & Hg) Hs Hl] & _ & Hlen').
  split; [|split_and!; [cbn in Hlen'; lia|done|done]]. rewrite Hu in Hn, Hg. split_and!; [|done|].
  - by rewrite reverse_Permutation in Hn.
  - intros i Hi. apply Hg. by rewrite elem_of_reverse.
Qed.

(** * What a ready checkout guarantees *)

Lemma total_of_compute_totals s a : total_of (compute_totals s a) = Some (s + default 0 a).
Proof. by destruct a. Qed.

Lemma status_for_ready ms url : status_for ms url = ready_for_complete ↔ has_errors ms = false.
Proof.
  unfold status_for. destruct (escalates ms) eqn:E; cbn.
  - rewrite (escalates_has_errors _ E). destruct (given url); done.
  - by destruct (has_errors ms).
Qed.

Definition state_ids_ok (st : State) : Prop := ids_ok (line_id <$> line_items st) (next_line_seq st).

Section ready.
Context `{PyStr} `{PyInt} `{PayloadHash}.
Context (merchant : Merchant) (terms : list (list (string * pyval))) (handlers : list (string * PaymentHandler)).
Context (lookup : list string → list (string * CatalogItem)) (rates_source : option (result fulfillment_error (list DeliveryRate))).

Lemma validate_instruments_ok v l : has_errors (validate_instruments handlers v l) = false →
  Forall (λ i, is_Some (resolve_handler handlers v (handler_id i))) l.
Proof.
  intros Hn. assert (validate_instruments handlers v l = []) as Hnil.
  { apply no_errors_nil; [|done]. unfold validate_instruments. apply Forall_concat. apply Forall_lookup. intros k ms Hk. rewrite list_lookup_imap in Hk.
    destruct (l !! k); [|done]. cbn in Hk. injection Hk as <-. destruct (resolve_handler _ _ _); repeat constructor. }
  apply Forall_lookup. intros k i Hk. destruct (resolve_handler handlers v (handler_id i)) eqn:E; [by eexists|].
  pose proof (concat_imap_nil _ _ Hnil k i Hk) as Hc. cbn in Hc. by rewrite E in Hc.
Qed.

(** A selected option is counted: pickups have ids, and rates do too. *)
Lemma charged_settled line_ids cur subtotal ms a : Forall (λ r, rate_id r ≠ EmptyString) (rates_read rates_source) →
  fulfilment_decided merchant line_ids cur subtotal rates_source ms → charged ms a = Some a.
Proof.
  intros Hr (Hne & Hs & _). destruct ms as [|m ms]; [done|]. apply Forall_cons in Hs as [(_ & d & g & o & _ & _ & Hg & _ & Ho & Hsel & _ & Hoff) _].
  unfold charged. cbn [existsb]. rewrite Hg. cbn [existsb]. rewrite Hsel. cbn [given].
  assert (option_id o ≠ EmptyString) as Hid%String.eqb_neq; [|by rewrite Hid]. unfold offered_at in Hoff. destruct (String.eqb _ _).
  - destruct Hoff as [-> _]. done.
  - destruct Hoff as (_ & r & Hin & _ & _ & -> & _). by eapply Forall_forall in Hr.
Qed.

(** What is known of a checkout whose evaluation found no error *)
Record ready_state (n : Negotiated) (e : Evaluation) : Prop := {
  ready_messages : ∀ code severity path, MError code severity path ∉ state_messages (state e);
  ready_lines : line_items (state e) ≠ [];
  ready_priced : ∃ ids, Forall (line_ok (lookup ids) (currency (state e))) (line_items (state e));
  ready_total : total_minor_units e = sum_totals (line_items (state e)) + total_charge (default [] (fulfillment_methods (state e)));
  ready_fulfilment : has n FULFILLMENT = true →
    ∃ ms, fulfillment_methods (state e) = Some ms ∧
          fulfilment_decided merchant (line_id <$> line_items (state e)) (currency (state e)) (sum_totals (line_items (state e))) rates_source ms;
  ready_handlers : Forall (λ i, is_Some (resolve_handler handlers (version n) (s_handler_id i))) (instruments (state e)) }.

Lemma evaluate_spec n body previous e : Forall (λ r, rate_id r ≠ EmptyString) (rates_read rates_source) →
  (∀ st, previous = Some st → state_ids_ok st) →
  evaluate merchant terms handlers lookup rates_source true n body previous = Ok e →
  state_ids_ok (state e) ∧ total_of (totals (state e)) = Some (total_minor_units e) ∧ status e = status_for (state_messages (state e)) None ∧
  (status e = ready_for_complete → ready_state n e).
Proof.
  intros Hrates Hprev. unfold evaluate. intros Hb. apply bind_Ok in Hb as (raws & Hraws & Hb). apply bind_Ok in Hb as (li & Hli & Hb).
  apply bind_Ok in Hb as (bc & _ & Hb). apply bind_Ok in Hb as (ctx & _ & Hb). apply bind_Ok in Hb as (att & _ & Hb). apply bind_Ok in Hb as (u & _ & Hb).
  apply bind_Ok in Hb as (fr & Hfr & Hb). cbn zeta in Hb. apply bind_Ok in Hb as (pay & Hpay & Hb).
  set (amount := fr ≫= λ r, charged (methods r) (fulfillment_amount r)) in *. rewrite total_of_compute_totals in Hb. cbn [of_option mbind result_bind] in Hb.
  apply bind_Ok in Hb as (ts & _ & Hb). injection Hb as <-.
  assert (ids_ok (line_id <$> from_option line_items [] previous) (match from_option next_line_seq 0 previous with 0 => 1 | z => z end)) as Hids.
  { destruct previous as [st|]; cbn; [|split_and!; [constructor|done|by intros i ?%not_elem_of_nil]]. pose proof (Hprev st eq_refl) as Hst.
    assert (match next_line_seq st with 0 => 1 | z => z end = next_line_seq st) as ->; [|exact Hst]. destruct Hst as (_ & Hn1 & _). by destruct (next_line_seq st). }
  destruct (build_line_items_spec _ _ _ _ _ _ Hids Hli) as (ids & Hids' & Hlen & Hsub & Hlines).
  split; [exact Hids'|]. cbn [state totals total_minor_units status state_messages]. split; [by rewrite total_of_compute_totals|]. split; [done|].
  rewrite status_for_ready. intros He. pose proof He as He'. revert He'. rewrite !has_errors_app, !orb_false_iff. intros (He1 & He2 & He3 & _).
  assert (s_items li ≠ []) as Hne. { intros E. rewrite E in Hlen. unfold _require_list in Hraws. destruct (get_val body "line_items"); try done. destruct l; try done. destruct (MAX_LINE_ITEMS <? _)%nat; [done|]. by injection Hraws as <-. }
  assert (match fr with
          | Some r => fulfilment_decided merchant (line_id <$> s_items li) (s_currency li) (sum_totals (s_items li)) rates_source (methods r) ∧
                      amount = Some (total_charge (methods r))
          | None => has n FULFILLMENT = false ∧ amount = None
          end) as Hful.
  { destruct (has n FULFILLMENT); cbn [andb] in Hfr; [|by injection Hfr as <-]. apply bind_Ok in Hfr as (r & Hr & [= <-]). cbn [from_option] in He2.
    unfold lift in Hr. destruct (build_fulfillment _ _ _ _ _ _ _) as [r'|] eqn:Ebf; [|done]. injection Hr as ->.
    assert (line_id <$> s_items li ≠ []) as Hne' by (by intros ?%fmap_nil_inv).
    destruct (build_fulfillment_spec _ _ _ _ _ _ _ _ Hne' Ebf) as (Ham & _ & Hdec). specialize (Hdec He2). rewrite <- Hsub. split; [done|].
    unfold amount. cbn. rewrite <- Ham. by eapply charged_settled. }
  split; cbn [state line_items currency fulfillment_methods instruments total_minor_units state_messages]; [|done|by exists ids; apply Hlines| | |].
  - intros code severity path Hin. apply has_errors_false in He. by eapply Forall_forall in He; [|exact Hin].
  - rewrite <- Hsub. destruct fr as [r|]; destruct Hful as [_ ->]; cbn; [done|lia].
  - intros Hcap. destruct fr as [r|]; [exists (methods r); split; [done|apply Hful]|]. destruct Hful as [Hf _]. congruence.
  - apply Forall_fmap. eapply Forall_impl; [by apply validate_instruments_ok|]. done.
Qed.
End ready.

(** C22. A checkout is ready to complete only when it adds up. No message is an error. Its lines have
    distinct ids; each is an item of the catalogue at its price, in one currency, in a quantity in range
    that the item's stock covers; the total is the sum of the exact line amounts and of the charges of the
    selected options; every payment instrument names an offered handler. When fulfilment was negotiated,
    every line goes by exactly one fulfilment method the merchant offers, with a destination of its delivery
    area and an option that reaches it; without it nothing is said of delivery. The delivery rates are
    assumed to have ids, and a stored state the line ids a previous evaluation gave it. *)
Theorem ready_checkout_adds_up `{PyStr} `{PyInt} `{PayloadHash} merchant terms handlers lookup rates_source n body previous e :
  Forall (λ r, rate_id r ≠ EmptyString) (rates_read rates_source) → (∀ st, previous = Some st → state_ids_ok st) →
  evaluate merchant terms handlers lookup rates_source true n body previous = Ok e → status e = ready_for_complete →
  state_ids_ok (state e) ∧ total_of (totals (state e)) = Some (total_minor_units e) ∧ ready_state merchant handlers lookup rates_source n e.
Proof. intros Hr Hp He Hs. destruct (evaluate_spec _ _ _ _ _ _ _ _ _ Hr Hp He) as (? & ? & _ & Hready). auto. Qed.

Module CheckoutExample.
#[local] Instance text : PyStr := {| py_str v := match v with VStr s => s | _ => "?" end; py_str_VStr := λ s, eq_refl |}.
#[local] Instance int : PyInt := {| py_int v := match v with VInt z => Some z | _ => None end; py_int_VInt := λ z, eq_refl |}.
#[local] Instance hash : PayloadHash := λ _, "sha256".

Definition shop : Merchant :=
  {| fulfillment := {| shipping := true; pickup := false; multi_destination := []; method_combinations := []; free_shipping_min_subtotal_minor_units := None;
                       postal_code_prefixes := ["5600"] |}; pickup_locations := [] |}.
Definition rate : DeliveryRate :=
  {| rate_id := "std"; rate_title := "Standard"; rate_description := None; amount_minor_units := 5000; rate_currency := "INR"; countries := ["IN"];
     rest_of_world := false; provinces := [] |}.
Definition mug (stock : Z) : CatalogItem :=
  {| title := "Mug"; price_minor_units := 39900; item_currency := "INR"; inventory := Some stock; image_url := None; quantity_unit := EACH_UNIT; storefront_variant_token := None |}.
Definition line (q : Z) : pyval := VMap [("item", VMap [("id", VStr "mug")]); ("quantity", VInt q)].
Definition delivery : pyval :=
  VMap [("methods", VList [VMap [("type", VStr "shipping"); ("selected_destination_id", VStr "dest_1");
    ("destinations", VList [VMap [("country", VStr "in"); ("postal_code", VStr "560 001")]]); ("groups", VList [VMap [("selected_option_id", VStr "std")]])]])].
Definition body (lines : list pyval) : list (string * pyval) := [("line_items", VList lines); ("fulfillment", delivery)].
Definition negotiated : Negotiated := {| version := V2026_08_25; active := [FULFILLMENT] |}.
Definition run (stock : Z) (lines : list pyval) : result request_error Evaluation :=
  evaluate shop [] [] (λ _, [("mug", mug stock)]) (Some (Ok [rate])) true negotiated (body lines) None.
End CheckoutExample.
Import CheckoutExample.

Lemma ready_checkout_adds_up_witness : ∃ e, run 5 [line 2] = Ok e ∧ status e = ready_for_complete ∧ total_minor_units e = 84800 ∧ state_ids_ok (state e).
Proof.
  eexists. split; [vm_compute; reflexivity|]. split; [reflexivity|]. split; [reflexivity|].
  refine (proj1 (@ready_checkout_adds_up text int hash shop [] [] (λ _, [("mug", mug 5)]) (Some (Ok [rate])) negotiated (body [line 2]) None _ _ _ _ _)).
  - by apply Forall_singleton.
  - discriminate.
  - vm_compute. reflexivity.
  - reflexivity.
Defined.

(** Stock is checked line by line: two lines of one item pass although together they exceed it. *)
Theorem split_lines_oversell : ∃ e, run 3 [line 2; line 2] = Ok e ∧ status e = ready_for_complete ∧
  (∃ m, run 3 [line 4] = Ok m ∧ status m = incomplete) ∧ inventory (mug 3) = Some 3 ∧ foldr Z.add 0 (line_quantity <$> line_items (state e)) = 4.
Proof. eexists. split; [vm_compute; reflexivity|]. split; [reflexivity|]. split; [eexists; split; [vm_compute; reflexivity|reflexivity]|]. done. Qed.
