(* ===== verification/UcpOrders.v ===== *)
(** Orders: src/core/commerce/ucp/orders.py and the order operations of
    src/core/commerce/ucp/handlers.py ([apply_order_change], [set_order_adjustment_status]).

    A snapshot is a record; its lines are shared by the dictionary the code builds over them, so a change
    through the dictionary changes the last line with that id. Ids drawn at random and the time an event
    occurred, as [parse_time] reads it, are arguments. *)

From S2P Require Import Prelude PyVal PyText LedgerExport UcpMessages UcpFulfillment UcpCheckout.

Local Open Scope Z_scope.

Inductive LineStatus := processing | partial | fulfilled_line | removed.

#[global] Instance LineStatus_eq_dec : EqDecision LineStatus.
Proof. solve_decision. Defined.

Record Quantity := { original : Z; total : Z; fulfilled : Z }.
Record OrderLine := { ol_id : string; ol_item : string; ol_price : Z; ol_quantity : Quantity; ol_total : Z; ol_status : LineStatus }.
Record Ref := { ref_id : string; ref_quantity : Z }.
Record Expectation := { exp_id : string; exp_description : option string; exp_lines : list Ref; exp_method : string; exp_destination : list (string * string) }.
Record Event := { ev_id : string; occurred_at : datetime; ev_type : string; ev_lines : list Ref; ev_texts : list (string * string) }.
Inductive AdjustmentStatus := pending_adj | completed_adj | failed_adj.
Record Adjustment := {
  adj_id : string; adj_type : string; adj_status : AdjustmentStatus; adj_lines : option (list Ref); adj_totals : option (list (string * Z)); adj_description : option string }.

Record Snapshot := {
  order_id : string; checkout_id : string; order_lines : list OrderLine; expectations : list Expectation; events : list Event; adjustments : list Adjustment;
  order_currency : option string; order_totals : list (total_type * Z) }.

#[global] Instance AdjustmentStatus_eq_dec : EqDecision AdjustmentStatus.
Proof. solve_decision. Defined.

Definition FULFILLING_EVENTS : list string := ["shipped"; "picked_up"; "fulfilled"].
Definition REDUCING_ADJUSTMENTS : list string := ["cancellation"; "return"].

(** A change that does not apply, a repeated event, and an id that cannot be looked up *)
Inductive order_error := OrderUpdateError | DuplicateOrderEventError | UnhashableId.

Definition line_status (q : Quantity) : LineStatus :=
  if total q =? 0 then removed else if fulfilled q =? 0 then processing else if total q <=? fulfilled q then fulfilled_line else partial.

Definition order_line (l : Line) : OrderLine :=
  let q := {| original := line_quantity l; total := line_quantity l; fulfilled := 0 |} in
  {| ol_id := line_id l; ol_item := item_id l; ol_price := item_price l; ol_quantity := q; ol_total := line_total l; ol_status := line_status q |}.

(** [quantities]: of lines with one id, the last *)
Definition quantity_of (lines : list OrderLine) (i : string) : option Z :=
  (λ l, total (ol_quantity l)) <$> List.find (λ l, String.eqb (ol_id l) i) (reverse lines).

Definition expectation_of (lines : list OrderLine) (m : Method) : option Expectation :=
  d ← selected_destination_id m ≫= λ x, List.find (λ d, String.eqb (dest_id d) x) (destinations m);
  let titles := g ← groups m; o ← options g; if bool_decide (Some (option_id o) = selected_option_id g) then [option_title o] else [] in
  Some {| exp_id := "exp_" +:+ method_id m; exp_description := head titles;
          exp_lines := omap (M := list) (λ i, (λ q, {| ref_id := i; ref_quantity := q |}) <$> quantity_of lines i) (line_item_ids m);
          exp_method := method_type m; exp_destination := address d |}.

(** Left out: the permalink, the attribution and the accepted payment term *)
Definition build_order_snapshot (new_id checkout : string) (st : State) : Snapshot :=
  let lines := order_line <$> line_items st in
  {| order_id := new_id; checkout_id := checkout; order_lines := lines; events := []; adjustments := [];
     expectations := omap (M := list) (expectation_of lines) (default [] (fulfillment_methods st)); order_currency := currency st; order_totals := totals st |}.

(** * Changes *)

Definition ref_of (lines : list OrderLine) (signed : bool) (_ : nat) (v : pyval) : result order_error Ref :=
  match v with
  | VMap d =>
      match get_val d "id", get_val d "quantity" with
      | (VList _ | VMap _), _ => Err UnhashableId
      | VStr i, VInt q =>
          _ ← raise_if (negb (existsb (λ l, String.eqb (ol_id l) i) lines)) OrderUpdateError;
          _ ← raise_if (((q <? 1) && negb signed) || (q =? 0)) OrderUpdateError; Ok {| ref_id := i; ref_quantity := q |}
      | _, _ => Err OrderUpdateError
      end
  | _ => Err OrderUpdateError
  end.

Definition _line_refs (raw : pyval) (lines : list OrderLine) (signed : bool) : result order_error (list Ref) :=
  match raw with VList (x :: l) => map_res (ref_of lines signed) 0 (x :: l) | _ => Err OrderUpdateError end.

(** [lines[id]["quantity"]] is changed in place: the last line with that id *)
Fixpoint update_first (p : OrderLine → bool) (f : OrderLine → OrderLine) (ls : list OrderLine) : list OrderLine :=
  match ls with [] => [] | l :: ls' => if p l then f l :: ls' else l :: update_first p f ls' end.
Definition update_line (i : string) (f : Quantity → Quantity) (ls : list OrderLine) : list OrderLine :=
  reverse (update_first (λ l, String.eqb (ol_id l) i)
             (λ l, {| ol_id := ol_id l; ol_item := ol_item l; ol_price := ol_price l; ol_quantity := f (ol_quantity l); ol_total := ol_total l; ol_status := ol_status l |}) (reverse ls)).

Definition refresh_status (l : OrderLine) : OrderLine :=
  {| ol_id := ol_id l; ol_item := ol_item l; ol_price := ol_price l; ol_quantity := ol_quantity l; ol_total := ol_total l; ol_status := line_status (ol_quantity l) |}.

Definition advance (n : Z) (q : Quantity) : Quantity :=
  {| original := original q; total := total q; fulfilled := Z.min (total q) (fulfilled q + n) |}.
Definition reduce (n : Z) (q : Quantity) : Quantity :=
  if n <? 0 then let t := Z.max 0 (total q + n) in {| original := original q; total := t; fulfilled := Z.min (fulfilled q) t |} else q.

Definition with_lines (s : Snapshot) (ls : list OrderLine) : Snapshot :=
  {| order_id := order_id s; checkout_id := checkout_id s; order_lines := refresh_status <$> ls; expectations := expectations s; events := events s;
     adjustments := adjustments s; order_currency := order_currency s; order_totals := order_totals s |}.
Definition add_event (s : Snapshot) (e : Event) : Snapshot :=
  {| order_id := order_id s; checkout_id := checkout_id s; order_lines := order_lines s; expectations := expectations s; events := events s ++ [e];
     adjustments := adjustments s; order_currency := order_currency s; order_totals := order_totals s |}.
Definition set_adjustments (s : Snapshot) (l : list Adjustment) : Snapshot :=
  {| order_id := order_id s; checkout_id := checkout_id s; order_lines := order_lines s; expectations := expectations s; events := events s;
     adjustments := l; order_currency := order_currency s; order_totals := order_totals s |}.

Section changes.
Context `{PyStr}.

Definition event_texts (event : list (string * pyval)) : list (string * string) :=
  omap (M := list) (λ k, match get_val event k with VStr s => if String.eqb s EmptyString then None else Some (k, cut 500 s) | _ => None end)
    ["tracking_number"; "carrier"; "description"] ++
  match get_val event "tracking_url" with VStr s => if starts_with "https://" s then [("tracking_url", s)] else [] | _ => [] end.

Definition apply_fulfillment_event (s : Snapshot) (event : list (string * pyval)) (now : datetime) (occurred : option datetime) (event_id : option string) (fresh : string) :
    result order_error Snapshot :=
  let event_type := str_or_empty (get_val event "type") in
  _ ← raise_if (String.eqb event_type EmptyString) OrderUpdateError;
  _ ← raise_if (match event_id with Some i => existsb (λ e, String.eqb (ev_id e) i) (events s) | None => false end) DuplicateOrderEventError;
  refs ← _line_refs (get_val event "line_items") (order_lines s) false;
  let at_ := match event_id with Some _ => default now occurred | None => now end in
  let entry := {| ev_id := match event_id with Some i => if String.eqb i EmptyString then "evt_" +:+ fresh else i | None => "evt_" +:+ fresh end;
                  occurred_at := to_utc at_; ev_type := event_type; ev_lines := refs; ev_texts := event_texts event |} in
  let ls := if bool_decide (event_type ∈ FULFILLING_EVENTS) then foldl (λ ls r, update_line (ref_id r) (advance (ref_quantity r)) ls) (order_lines s) refs else order_lines s in
  Ok (with_lines (add_event s entry) ls).

Definition adjustment_status_of (s : string) : option AdjustmentStatus :=
  if String.eqb s "pending" then Some pending_adj else if String.eqb s "completed" then Some completed_adj else if String.eqb s "failed" then Some failed_adj else None.

Definition clean_total (_ : nat) (v : pyval) : result order_error (string * Z) :=
  match v with
  | VMap d => match get_val d "type", get_val d "amount" with VStr t, VInt z => Ok (t, z) | _, _ => Err OrderUpdateError end
  | _ => Err OrderUpdateError
  end.

Definition apply_adjustment (s : Snapshot) (adjustment : list (string * pyval)) (entry_id : option string) (fresh : string) : result order_error Snapshot :=
  let t := str_or_empty (get_val adjustment "type") in
  _ ← raise_if (String.eqb t EmptyString) OrderUpdateError;
  st ← of_option OrderUpdateError (adjustment_status_of (str_or_empty (get_val adjustment "status")));
  refs ← match get_val adjustment "line_items" with VNone => Ok None | v => l ← _line_refs v (order_lines s) true; Ok (Some l) end;
  ts ← match get_val adjustment "totals" with VList l => ts ← map_res clean_total 0 l; Ok (Some ts) | _ => Ok None end;
  let entry := {| adj_id := match entry_id with Some i => if String.eqb i EmptyString then "adj_" +:+ fresh else i | None => "adj_" +:+ fresh end;
                  adj_type := t; adj_status := st; adj_lines := refs; adj_totals := ts;
                  adj_description := match get_val adjustment "description" with VStr d => Some (cut 500 d) | _ => None end |} in
  let ls := if bool_decide (t ∈ REDUCING_ADJUSTMENTS) && bool_decide (st = completed_adj)
            then foldl (λ ls r, update_line (ref_id r) (reduce (ref_quantity r)) ls) (order_lines s) (default [] refs) else order_lines s in
  Ok (with_lines (set_adjustments s (adjustments s ++ [entry])) ls).

(** * The stored order *)

Record OrderRow := { snapshot : Snapshot; revision : Z }.

(** 404, 422, 409, and an exception that is not one of them *)
Inductive OrderChangeError := NotFound | DoesNotApply | AlreadyRecorded | Uncaught.

Definition apply_order_change (row : option OrderRow) (fulfillment_event adjustment : option (list (string * pyval))) (now : datetime) (occurred : option datetime)
    (event_id adjustment_id : option string) (fresh : string) : result OrderChangeError OrderRow :=
  _ ← raise_if (bool_decide (fulfillment_event = None ↔ adjustment = None)) DoesNotApply;
  r ← of_option NotFound row;
  if match adjustment_id with Some i => existsb (λ a, String.eqb (adj_id a) i) (adjustments (snapshot r)) | None => false end then Ok r
  else
    match (match fulfillment_event with
           | Some e => apply_fulfillment_event (snapshot r) e now occurred event_id fresh
           | None => apply_adjustment (snapshot r) (default [] adjustment) adjustment_id fresh
           end) with
    | Ok s => Ok {| snapshot := s; revision := revision r + 1 |}
    | Err DuplicateOrderEventError => Err AlreadyRecorded
    | Err OrderUpdateError => Err DoesNotApply
    | Err UnhashableId => Err Uncaught
    end.

Definition with_status (st : AdjustmentStatus) (a : Adjustment) : Adjustment :=
  {| adj_id := adj_id a; adj_type := adj_type a; adj_status := st; adj_lines := adj_lines a; adj_totals := adj_totals a; adj_description := adj_description a |}.

Fixpoint set_first (i : string) (st : AdjustmentStatus) (l : list Adjustment) : list Adjustment :=
  match l with [] => [] | a :: l' => if String.eqb (adj_id a) i then with_status st a :: l' else a :: set_first i st l' end.

(** [None]: nothing changed *)
Definition set_order_adjustment_status (row : option OrderRow) (adjustment_id : string) (st : AdjustmentStatus) : option OrderRow :=
  r ← row;
  entry ← List.find (λ a, String.eqb (adj_id a) adjustment_id) (adjustments (snapshot r));
  if bool_decide (adj_status entry = st) then None
  else Some {| snapshot := with_lines (set_adjustments (snapshot r) (set_first adjustment_id st (adjustments (snapshot r)))) (order_lines (snapshot r)); revision := revision r + 1 |}.
End changes.

(** * Quantities *)

(** Fulfilled at most what is left, left at most what was ordered, and the status says so *)
Definition line_inv (l : OrderLine) : Prop :=
  let q := ol_quantity l in 0 ≤ fulfilled q ≤ total q ∧ total q ≤ original q ∧ ol_status l = line_status q.
Definition quantity_inv (q : Quantity) : Prop := 0 ≤ fulfilled q ≤ total q ∧ total q ≤ original q.

(** The same line, later: no more is left than before *)
Definition line_later (l l' : OrderLine) : Prop :=
  ol_id l' = ol_id l ∧ ol_item l' = ol_item l ∧ ol_price l' = ol_price l ∧ ol_total l' = ol_total l ∧
  original (ol_quantity l') = original (ol_quantity l) ∧ total (ol_quantity l') ≤ total (ol_quantity l).

#[global] Instance line_later_preorder : PreOrder line_later.
Proof.
  split; [intros l; unfold line_later; split_and!; lia || done|]. intros a b c (? & ? & ? & ? & ? & ?) (? & ? & ? & ? & ? & ?). unfold line_later. split_and!; congruence || lia.
Qed.

Definition keeps (f : Quantity → Quantity) : Prop := ∀ q, quantity_inv q → quantity_inv (f q) ∧ original (f q) = original q ∧ total (f q) ≤ total q.

Lemma advance_keeps n : 0 ≤ n → keeps (advance n).
Proof. intros Hn q [? ?]. unfold quantity_inv, advance. cbn. lia. Qed.

Lemma reduce_keeps n : keeps (reduce n).
Proof. intros q [? ?]. unfold quantity_inv, reduce. destruct (Z.ltb_spec n 0); cbn; lia. Qed.

Lemma update_first_keeps p f ls : keeps f → Forall (λ l, quantity_inv (ol_quantity l)) ls →
  let g l := {| ol_id := ol_id l; ol_item := ol_item l; ol_price := ol_price l; ol_quantity := f (ol_quantity l); ol_total := ol_total l; ol_status := ol_status l |} in
  Forall (λ l, quantity_inv (ol_quantity l)) (update_first p g ls) ∧ Forall2 line_later ls (update_first p g ls).
Proof.
  intros Hf. cbn zeta. induction ls as [|l ls IH]; cbn; [done|]. intros [Hl Hls]%Forall_cons. destruct (Hf _ Hl) as (? & ? & ?). destruct (p l).
  - split; by constructor.
  - destruct (IH Hls). split; constructor; done.
Qed.

Lemma update_line_keeps i f ls : keeps f → Forall (λ l, quantity_inv (ol_quantity l)) ls →
  Forall (λ l, quantity_inv (ol_quantity l)) (update_line i f ls) ∧ Forall2 line_later ls (update_line i f ls).
Proof.
  intros Hf Hls. unfold update_line. destruct (update_first_keeps (λ l, String.eqb (ol_id l) i) f (reverse ls) Hf) as [H1 H2]; [by apply Forall_reverse|].
  split; [by apply Forall_reverse|]. apply Forall2_reverse in H2. by rewrite reverse_involutive in H2.
Qed.

Lemma update_lines_keeps (g : Z → Quantity → Quantity) refs : ∀ ls, Forall (λ r, keeps (g (ref_quantity r))) refs → Forall (λ l, quantity_inv (ol_quantity l)) ls →
  let ls' := foldl (λ ls r, update_line (ref_id r) (g (ref_quantity r)) ls) ls refs in
  Forall (λ l, quantity_inv (ol_quantity l)) ls' ∧ Forall2 line_later ls ls'.
Proof.
  cbn zeta. induction refs as [|r refs IH]; intros ls Hr Hls; cbn [foldl]; [split; [done|reflexivity]|]. apply Forall_cons in Hr as [Hr0 Hr].
  destruct (update_line_keeps (ref_id r) _ ls Hr0 Hls) as [H1 H2]. destruct (IH _ Hr H1) as [H3 H4]. split; [done|]. by etrans.
Qed.

Lemma refresh_lines ls ls' : Forall (λ l, quantity_inv (ol_quantity l)) ls' → Forall2 line_later ls ls' →
  Forall line_inv (refresh_status <$> ls') ∧ Forall2 line_later ls (refresh_status <$> ls').
Proof.
  intros H1 H2. split; [apply Forall_fmap; eapply Forall_impl; [exact H1|]; intros l [? ?]; by split_and?|]. apply Forall2_fmap_r.
  eapply Forall2_impl; [exact H2|]. intros a b (? & ? & ? & ? & ? & ?). by split_and?.
Qed.

Definition order_ok (s : Snapshot) : Prop := Forall line_inv (order_lines s).

Lemma order_ok_quantities s : order_ok s → Forall (λ l, quantity_inv (ol_quantity l)) (order_lines s).
Proof. intros Hs. eapply Forall_impl; [exact Hs|]. intros l (? & ? & _). done. Qed.

(** The history of an order only grows; of an adjustment, only the status changes. *)
Definition order_later (s s' : Snapshot) : Prop :=
  order_id s' = order_id s ∧ checkout_id s' = checkout_id s ∧ Forall2 line_later (order_lines s) (order_lines s') ∧
  events s `prefix_of` events s' ∧ (adj_id <$> adjustments s) `prefix_of` (adj_id <$> adjustments s').

#[global] Instance order_later_preorder : PreOrder order_later.
Proof.
  split; [intros s; unfold order_later; split_and!; done|]. intros a b c (? & ? & Hl1 & ? & ?) (? & ? & Hl2 & ? & ?). unfold order_later.
  split_and!; [congruence..| | |]; by etrans.
Qed.

Section order_facts.
Context `{PyStr}.

Lemma map_res_refs lines signed raw refs : _line_refs raw lines signed = Ok refs →
  Forall (λ r, ref_quantity r ≠ 0 ∧ (signed = false → 0 ≤ ref_quantity r)) refs.
Proof.
  unfold _line_refs. destruct raw; try done. destruct l; try done. intros Hm. eapply map_res_Forall; [exact Hm|]. intros j x r Hr.
  destruct x as [| | | | | |d| |]; try done. unfold ref_of in Hr. destruct (get_val d "id"), (get_val d "quantity"); try done. inv_ok. cbn.
  match goal with Hq : _ || (_ =? 0) = false |- _ => apply orb_false_iff in Hq as [Hq ?%Z.eqb_neq]; split; [done|]; intros ->; apply andb_false_iff in Hq as [?%Z.ltb_ge|?]; [lia|done] end.
Qed.

Lemma apply_fulfillment_event_ok s event now occurred event_id fresh s' : order_ok s →
  apply_fulfillment_event s event now occurred event_id fresh = Ok s' → order_ok s' ∧ order_later s s'.
Proof.
  intros Hs. unfold apply_fulfillment_event. intros Hb. inv_ok. match goal with Hm : _line_refs _ _ _ = Ok _ |- _ => apply map_res_refs in Hm as Hrefs end.
  set (ls := if bool_decide _ then _ else _). assert (Forall (λ l, quantity_inv (ol_quantity l)) ls ∧ Forall2 line_later (order_lines s) ls) as [Hq Hlater].
  { unfold ls. case_bool_decide; [|split; [by apply order_ok_quantities|reflexivity]]. apply (update_lines_keeps advance); [|by apply order_ok_quantities].
    eapply Forall_impl; [exact Hrefs|]. intros r [_ ?]. apply advance_keeps. auto. }
  destruct (refresh_lines _ _ Hq Hlater). split; [done|]. split_and!; try done. cbn. by apply prefix_app_r.
Qed.

Lemma apply_adjustment_ok s adjustment entry_id fresh s' : order_ok s → apply_adjustment s adjustment entry_id fresh = Ok s' → order_ok s' ∧ order_later s s'.
Proof.
  intros Hs. unfold apply_adjustment. intros Hb. inv_ok.
  match goal with |- order_ok (with_lines _ ?l) ∧ _ => set (ls := l) end.
  assert (Forall (λ l, quantity_inv (ol_quantity l)) ls ∧ Forall2 line_later (order_lines s) ls) as [Hq Hlater].
  { unfold ls. destruct (_ && _); [|split; [by apply order_ok_quantities|reflexivity]]. apply (update_lines_keeps reduce); [|by apply order_ok_quantities].
    apply Forall_true. intros r. apply reduce_keeps. }
  destruct (refresh_lines _ _ Hq Hlater). split; [done|]. split_and!; try done. cbn. rewrite fmap_app. by apply prefix_app_r.
Qed.

Lemma set_first_ids i st l : adj_id <$> set_first i st l = adj_id <$> l.
Proof. induction l as [|a l IH]; cbn; [done|]. destruct (String.eqb _ _); cbn; [done|]. by rewrite IH. Qed.

Lemma set_status_ok row i st r' r : row = Some r → order_ok (snapshot r) → set_order_adjustment_status row i st = Some r' →
  order_ok (snapshot r') ∧ order_later (snapshot r) (snapshot r').
Proof.
  intros -> Hs. unfold set_order_adjustment_status. cbn [mbind option_bind]. destruct (List.find _ _) as [entry|]; cbn; [|done]. case_bool_decide; [done|]. intros [= <-]. cbn [snapshot].
  destruct (refresh_lines (order_lines (snapshot r)) (order_lines (snapshot r))) as [? ?]; [by apply order_ok_quantities|reflexivity|]. split; [done|].
  split_and!; try done. cbn. by rewrite set_first_ids.
Qed.
End order_facts.

(** * Any sequence of changes *)

Inductive order_op :=
| Change (fulfillment_event adjustment : option (list (string * pyval))) (now : datetime) (occurred : option datetime) (event_id adjustment_id : option string) (fresh : string)
| SetStatus (adjustment_id : string) (st : AdjustmentStatus).

(** A change that raises leaves the stored order as it was. *)
Definition order_exec `{PyStr} (r : OrderRow) (op : order_op) : OrderRow :=
  match op with
  | Change fe adj now occurred eid aid fresh => match apply_order_change (Some r) fe adj now occurred eid aid fresh with Ok r' => r' | Err _ => r end
  | SetStatus aid st => default r (set_order_adjustment_status (Some r) aid st)
  end.

Definition first_order (new_id checkout : string) (st : State) : OrderRow := {| snapshot := build_order_snapshot new_id checkout st; revision := 1 |}.

Lemma first_order_ok new_id checkout st : Forall (λ l, 0 ≤ line_quantity l) (line_items st) → order_ok (snapshot (first_order new_id checkout st)).
Proof. intros Hl. apply Forall_fmap. eapply Forall_impl; [exact Hl|]. intros l Hq. unfold line_inv. cbn. split_and!; lia || done. Qed.

Lemma apply_order_change_ok `{PyStr} r fe adj now occurred eid aid fresh r' : order_ok (snapshot r) →
  apply_order_change (Some r) fe adj now occurred eid aid fresh = Ok r' → order_ok (snapshot r') ∧ order_later (snapshot r) (snapshot r') ∧ revision r ≤ revision r'.
Proof.
  intros Hs. unfold apply_order_change. intros Hb. apply bind_Ok in Hb as (_ & _ & Hb). cbn [of_option mbind result_bind] in Hb. destruct (match aid with Some _ => _ | None => _ end).
  { injection Hb as <-. split_and!; [done|reflexivity|done]. }
  destruct (match fe with Some _ => _ | None => _ end) as [s|[]] eqn:E; try done. injection Hb as <-. cbn. destruct fe.
  - apply apply_fulfillment_event_ok in E as [? ?]; [|done]. split_and!; [done..|lia].
  - apply apply_adjustment_ok in E as [? ?]; [|done]. split_and!; [done..|lia].
Qed.

Lemma order_exec_ok `{PyStr} r op : order_ok (snapshot r) → order_ok (snapshot (order_exec r op)) ∧ order_later (snapshot r) (snapshot (order_exec r op)) ∧ revision r ≤ revision (order_exec r op).
Proof.
  intros Hs. destruct op as [fe adj now occurred eid aid fresh|aid st]; cbn [order_exec].
  - destruct (apply_order_change _ _ _ _ _ _ _ _) as [r'|] eqn:E; [by eapply apply_order_change_ok|]. split_and!; [done|reflexivity|done].
  - destruct (set_order_adjustment_status (Some r) aid st) as [r'|] eqn:E; cbn; [|split_and!; [done|reflexivity|done]].
    apply (set_status_ok _ _ _ _ r) in E as Hok; [|done..]. destruct Hok. split_and!; [done..|].
    unfold set_order_adjustment_status in E. cbn in E. destruct (List.find _ _); [|done]. cbn in E. case_bool_decide; [done|]. injection E as <-. cbn. lia.
Qed.

(** C23. An order stays consistent. Whatever fulfilment events, adjustments and changes of status follow,
    accepted or refused, of every line at most what is left is fulfilled, what is left never grows and
    never exceeds what was ordered, the status of the line is the one its quantities say, and ids,
    prices, recorded events and adjustments are never lost. *)
Theorem order_stays_consistent `{PyStr} new_id checkout st ops : Forall (λ l, 0 ≤ line_quantity l) (line_items st) →
  let first := first_order new_id checkout st in let last := foldl order_exec first ops in
  order_ok (snapshot last) ∧ order_later (snapshot first) (snapshot last) ∧ revision first ≤ revision last.
Proof.
  intros Hl. cbn zeta. apply first_order_ok with (new_id := new_id) (checkout := checkout) in Hl. generalize dependent (first_order new_id checkout st).
  intros r. revert r. induction ops as [|op ops IH]; intros r Hr; cbn [foldl]; [split_and!; [done|reflexivity|done]|].
  destruct (order_exec_ok r op Hr) as (H1 & H2 & H3). destruct (IH _ H1) as (? & ? & ?). split_and!; [done|by etrans|lia].
Qed.

(** A source event is recorded once: its redelivery, at any later time, is refused and changes nothing. *)
Lemma redelivery_refused `{PyStr} s event now occurred i fresh s' s'' event' now' occurred' fresh' : i ≠ EmptyString →
  apply_fulfillment_event s event now occurred (Some i) fresh = Ok s' → order_later s' s'' → str_or_empty (get_val event' "type") ≠ EmptyString →
  apply_fulfillment_event s'' event' now' occurred' (Some i) fresh' = Err DuplicateOrderEventError.
Proof.
  intros Hi. unfold apply_fulfillment_event. intros Hb (_ & _ & _ & [k Hk] & _) Ht. inv_ok. apply String.eqb_neq in Ht as ->. cbn [raise_if mbind result_bind].
  assert (existsb (λ e, String.eqb (ev_id e) i) (events s'') = true) as ->; [|done]. apply existsb_exists. cbn [events with_lines add_event] in Hk. rewrite Hk.
  eexists. split; [apply list_elem_of_In, elem_of_app; left; apply elem_of_app; right; constructor|]. cbn. apply String.eqb_neq in Hi as ->. apply String.eqb_refl.
Qed.

Module OrderExample.
#[local] Instance text : PyStr := {| py_str v := match v with VStr s => s | _ => "?" end; py_str_VStr := λ s, eq_refl |}.
Definition mugs : Line :=
  {| line_id := "li_1"; line_quantity := 3; parent_id := None; item_id := "mug"; item_title := "Mug"; item_price := 39900; item_image := None; item_unit := None;
     line_total := 119700; storefront_variant := None |}.
Definition paid : State :=
  {| line_items := [mugs]; next_line_seq := 2; buyer := None; consent := None; context := None; attribution := None; currency := Some "INR"; capabilities := [];
     ucp_version := "2026-08-25"; fulfillment_methods := None; instruments := []; selected_term_id := None; totals := compute_totals 119700 None;
     payment_terms_ := None; state_messages := [] |}.
Definition epoch : datetime := {| wall := 0; utcoffset := Some 0 |}.
Definition refs (q : Z) : pyval := VList [VMap [("id", VStr "li_1"); ("quantity", VInt q)]].
(** Two are shipped, the event is delivered again, two are cancelled *)
Definition history : list order_op :=
  [Change (Some [("type", VStr "shipped"); ("line_items", refs 2)]) None epoch None (Some "f1") None "a";
   Change (Some [("type", VStr "shipped"); ("line_items", refs 2)]) None epoch None (Some "f1") None "b";
   Change None (Some [("type", VStr "cancellation"); ("status", VStr "completed"); ("line_items", refs (-2))]) epoch None None None "c"].
Example history_result : ol_quantity <$> order_lines (snapshot (foldl order_exec (first_order "ord_1" "chk_1" paid) history)) = [{| original := 3; total := 1; fulfilled := 1 |}].
Proof. vm_compute. reflexivity. Qed.
End OrderExample.

Lemma order_stays_consistent_witness :
  order_ok (snapshot (foldl (@order_exec OrderExample.text) (first_order "ord_1" "chk_1" OrderExample.paid) OrderExample.history)).
Proof.
  refine (proj1 (@order_stays_consistent OrderExample.text "ord_1" "chk_1" OrderExample.paid OrderExample.history _)). vm_compute. repeat constructor; discriminate.
Defined.
