(* ===== verification/UcpHandoff.v ===== *)
(** The payment hand-off: the state functions of src/core/commerce/payment_handoff.py.

    A hand-off gives the buyer a link to pay on the merchant's own page. Times are instants in
    microseconds; the members a record may lack are options. *)

From S2P Require Import Prelude PyVal PyText Arbiter LedgerExport UcpMessages UcpFulfillment UcpCheckout.

Local Open Scope Z_scope.

Inductive Mode := shopify_cart | plural_hosted.
Inductive LinkStatus := creating | issued | expired | failed | paid.

#[global] Instance Mode_eq_dec : EqDecision Mode.
Proof. solve_decision. Defined.
#[global] Instance LinkStatus_eq_dec : EqDecision LinkStatus.
Proof. solve_decision. Defined.

Definition MESSAGE_CODE : string := "payment_handoff".
Definition PLURAL_LINK_TTL : Z := 30 * 60 * 1000000.
Definition MAX_REFERENCES : nat := 10.
Definition MAX_SEEN_EVENTS : nat := 20.

(** The members of a link that a record keeps *)
Record LinkFields := {
  continue_url : option string; issued_at : option Z; expires_at : option Z; provider_order_id : option string; decision_id : option string; credential_ref : option string }.

Record Handoff := { mode : Mode; handoff_status : LinkStatus; link : LinkFields; reference : option string }.

(** What is remembered of a reference: what it asks for, and its link once it has one *)
Record LinkRecord := {
  rec_amount : option Z; rec_currency : option string; rec_cart_hash : option string; rec_link : LinkFields; rec_status : option LinkStatus }.

Record HandoffState := {
  cart : State; hs_messages : list message; hs_continue_url : option string; handoff : option Handoff; handoff_refs : list string;
  handoff_orders : list (string * LinkRecord); handoff_events : list string; handoff_unmatched_notified : list string }.

Definition empty_link : LinkFields :=
  {| continue_url := None; issued_at := None; expires_at := None; provider_order_id := None; decision_id := None; credential_ref := None |}.
Definition empty_record : LinkRecord := {| rec_amount := None; rec_currency := None; rec_cart_hash := None; rec_link := empty_link; rec_status := None |}.

(** [{**a, **b}], member by member *)
Definition over {A} (a b : option A) : option A := match b with Some _ => b | None => a end.
Definition over_link (a b : LinkFields) : LinkFields :=
  {| continue_url := over (continue_url a) (continue_url b); issued_at := over (issued_at a) (issued_at b); expires_at := over (expires_at a) (expires_at b);
     provider_order_id := over (provider_order_id a) (provider_order_id b); decision_id := over (decision_id a) (decision_id b);
     credential_ref := over (credential_ref a) (credential_ref b) |}.
Definition over_record (a b : LinkRecord) : LinkRecord :=
  {| rec_amount := over (rec_amount a) (rec_amount b); rec_currency := over (rec_currency a) (rec_currency b); rec_cart_hash := over (rec_cart_hash a) (rec_cart_hash b);
     rec_link := over_link (rec_link a) (rec_link b); rec_status := over (rec_status a) (rec_status b) |}.

Definition with_messages (s : HandoffState) (ms : list message) (url : option string) (h : option Handoff) : HandoffState :=
  {| cart := cart s; hs_messages := ms; hs_continue_url := url; handoff := h; handoff_refs := handoff_refs s; handoff_orders := handoff_orders s;
     handoff_events := handoff_events s; handoff_unmatched_notified := handoff_unmatched_notified s |}.
Definition with_orders (s : HandoffState) (refs : list string) (orders : list (string * LinkRecord)) : HandoffState :=
  {| cart := cart s; hs_messages := hs_messages s; hs_continue_url := hs_continue_url s; handoff := handoff s; handoff_refs := refs; handoff_orders := orders;
     handoff_events := handoff_events s; handoff_unmatched_notified := handoff_unmatched_notified s |}.

Definition code (m : message) : string := match m with MError c _ _ | MWarning c _ | MInfo c _ => c end.
Definition without_handoff (ms : list message) : list message := List.filter (λ m, negb (String.eqb (code m) MESSAGE_CODE)) ms.
Definition buyer_message : message := MError MESSAGE_CODE "requires_buyer_input" "$.payment".

Definition payable (r : option LinkRecord) : bool := match r with Some r => bool_decide (rec_status r = Some issued) | None => false end.

(** The issued hand-off whose link is still valid *)
Definition active_handoff (s : HandoffState) (now : Z) : option Handoff :=
  match handoff s with
  | Some h =>
      if bool_decide (handoff_status h = issued) && given (continue_url (link h)) then
        match expires_at (link h) with Some e => if now <? e then Some h else None | None => None end
      else None
  | None => None
  end.

Definition link_open (l : LinkFields) (now day_start : Z) : bool :=
  match expires_at l with Some e => now <? e | None => false end || match issued_at l with Some i => day_start <=? i | None => false end.

Definition holds_daily_cap (s : HandoffState) (now day_start : Z) : bool :=
  match handoff s with
  | Some h => bool_decide (handoff_status h = creating) || (bool_decide (handoff_status h = issued) && link_open (link h) now day_start)
  | None => false
  end ||
  existsb (λ kv, bool_decide (rec_status kv.2 = Some issued) && link_open (rec_link kv.2) now day_start) (handoff_orders s).

(** The later of two times *)
Definition later_of (latest : option Z) (t : Z) : option Z := match latest with Some l => if l <? t then Some t else latest | None => Some t end.

Definition held_until (s : HandoffState) (now : Z) : option Z :=
  let start := match handoff s with
               | Some h => if bool_decide (handoff_status h = creating) && bool_decide (mode h = plural_hosted) then Some (now + PLURAL_LINK_TTL) else None
               | None => None
               end in
  foldl (λ latest kv, if payable (Some kv.2) then match expires_at (rec_link kv.2) with Some e => if now <? e then later_of latest e else latest | None => latest end else latest)
    start (handoff_orders s).

Definition link_record (h : Handoff) : LinkRecord := {| rec_amount := None; rec_currency := None; rec_cart_hash := None; rec_link := link h; rec_status := Some issued |}.

Definition remember_link (s : HandoffState) (h : Handoff) : HandoffState :=
  let ref := default EmptyString (reference h) in
  if bool_decide (ref ∈ handoff_refs s)
  then with_orders s (handoff_refs s) (dict_set ref (over_record (default empty_record (assoc ref (handoff_orders s))) (link_record h)) (handoff_orders s))
  else s.

Definition set_status (st : LinkStatus) (r : LinkRecord) : LinkRecord :=
  {| rec_amount := rec_amount r; rec_currency := rec_currency r; rec_cart_hash := rec_cart_hash r; rec_link := rec_link r; rec_status := Some st |}.

Definition set_reference_status (s : HandoffState) (ref : string) (st : LinkStatus) : HandoffState :=
  match assoc ref (handoff_orders s) with
  | Some r => with_orders s (handoff_refs s) (dict_set ref (set_status st r) (handoff_orders s))
  | None => s
  end.

Definition clear_handoff (s : HandoffState) (st : LinkStatus) : HandoffState :=
  with_messages s (without_handoff (hs_messages s)) None
    ((λ h, {| mode := mode h; handoff_status := st; link := link h; reference := reference h |}) <$> handoff s).

Definition newest_link_failed (s : HandoffState) : bool :=
  let records := List.filter (λ r, match issued_at (rec_link r) with Some _ => true | None => false end) (omap (M := list) (λ r, assoc r (handoff_orders s)) (handoff_refs s)) in
  match last records with Some r => bool_decide (rec_status r = Some failed) | None => false end.

(** The status that follows: the latest other link that can still be paid comes back *)
Definition retire_failed (s : HandoffState) : HandoffState * Status :=
  let s1 := match handoff s with
            | Some h => match reference h with Some r => if String.eqb r EmptyString then s else set_reference_status s r failed | None => s end
            | None => s
            end in
  let s2 := clear_handoff s1 failed in
  match last (List.filter (λ r, payable (assoc r (handoff_orders s2))) (handoff_refs s2)) with
  | None => (s2, ready_for_complete)
  | Some ref =>
      let l := rec_link (default empty_record (assoc ref (handoff_orders s2))) in
      (with_messages s2 (hs_messages s2 ++ [buyer_message]) (continue_url l)
         (Some {| mode := plural_hosted; handoff_status := issued; link := l; reference := Some ref |}), requires_escalation)
  end.

Definition issue (s : HandoffState) (m : Mode) (url decision : string) (now expires : Z) (order : option string) : HandoffState :=
  let kept := match handoff s with Some h => if bool_decide (decision_id (link h) = Some decision) then Some h else None | None => None end in
  let l := over_link (from_option link empty_link kept)
             {| continue_url := Some url; issued_at := Some now; expires_at := Some expires; provider_order_id := order; decision_id := Some decision; credential_ref := None |} in
  with_messages s (without_handoff (hs_messages s) ++ [buyer_message]) (Some url)
    (Some {| mode := m; handoff_status := issued; link := l; reference := kept ≫= reference |}).

(** Remove the first occurrence *)
Fixpoint remove_first (r : string) (l : list string) : list string :=
  match l with [] => [] | x :: l' => if String.eqb x r then l' else x :: remove_first r l' end.

Definition drop_stale (p : list string * list (string * LinkRecord)) (stale : string) : list string * list (string * LinkRecord) :=
  (remove_first stale p.1, List.filter (λ kv, negb (String.eqb kv.1 stale)) p.2).

Definition remember_reference (s : HandoffState) (ref : string) (record : LinkRecord) : HandoffState :=
  let older := List.filter (λ r, negb (String.eqb r ref)) (handoff_refs s) in
  let refs := older ++ [ref] in
  let orders := dict_set ref (over_record (default empty_record (assoc ref (handoff_orders s))) record) (handoff_orders s) in
  let droppable := List.filter (λ r, negb (payable (assoc r orders))) older in
  let p := foldl drop_stale (refs, orders) (take (length refs - MAX_REFERENCES) droppable) in
  with_orders s p.1 p.2.

(** Whether the event was applied before; otherwise it is remembered *)
Definition seen_event (s : HandoffState) (event : option string) : bool * HandoffState :=
  match event with
  | Some e =>
      if String.eqb e EmptyString then (false, s)
      else if bool_decide (e ∈ handoff_events s) then (true, s)
      else
        let seen := handoff_events s ++ [e] in
        (false, {| cart := cart s; hs_messages := hs_messages s; hs_continue_url := hs_continue_url s; handoff := handoff s; handoff_refs := handoff_refs s;
                   handoff_orders := handoff_orders s; handoff_events := drop (length seen - MAX_SEEN_EVENTS) seen;
                   handoff_unmatched_notified := handoff_unmatched_notified s |})
  | None => (false, s)
  end.

Inductive Payment := is_paid | is_failed | is_pending.

#[global] Instance Payment_eq_dec : EqDecision Payment.
Proof. solve_decision. Defined.

Definition PAID : list string := ["PROCESSED"; "CAPTURED"; "SETTLED"].
Definition FAILED : list string := ["FAILED"; "CANCELLED"; "DECLINED"; "REJECTED"; "EXPIRED"; "ATTEMPTED_FAILED"].

Definition payment_state (status : option string) : Payment :=
  let value := upper (default EmptyString status) in
  if bool_decide (value ∈ PAID) then is_paid else if bool_decide (value ∈ FAILED) then is_failed else is_pending.

(** [_payment_link_outstanding] of src/core/commerce/ucp/handlers.py *)
Definition _payment_link_outstanding (row_status : Status) (s : HandoffState) : bool :=
  let from_orders := existsb (λ kv, payable (Some kv.2)) (handoff_orders s) in
  match handoff s with
  | Some h =>
      match mode h with
      | shopify_cart => bool_decide (handoff_status h = issued) && bool_decide (row_status = requires_escalation)
      | plural_hosted =>
          (bool_decide (handoff_status h ∈ [creating; issued]) && bool_decide (row_status ∈ [requires_escalation; complete_in_progress])) || from_orders
      end
  | None => from_orders
  end.

(** What the buyer pays for: the lines, the totals, the currency and the selected fulfilment *)
Definition opt_text (o : option string) : pyval := match o with Some s => VStr s | None => VNone end.
Definition total_name (t : total_type) : string := match t with subtotal_t => "subtotal" | fulfillment_t => "fulfillment" | total_t => "total" end.
Definition cart_value (st : State) : pyval :=
  VMap [("currency", opt_text (currency st));
        ("totals", VList ((λ t, VMap [("type", VStr (total_name t.1)); ("amount", VInt t.2)]) <$> totals st));
        ("line_items", VList ((λ l, VMap [("item_id", VStr (item_id l)); ("quantity", VInt (line_quantity l)); ("price", VInt (item_price l))]) <$> line_items st));
        ("fulfillment", VList ((λ m, VMap [("type", VStr (method_type m)); ("destination", opt_text (selected_destination_id m));
                                           ("options", VList ((λ g, opt_text (selected_option_id g)) <$> groups m))]) <$> default [] (fulfillment_methods st)))].
Definition cart_hash `{PayloadHash} (st : State) : string := commerce_payload_hash (cart_value st).

(** * References *)

(** Every reference has one record, and every record its reference. *)
Definition refs_ok (s : HandoffState) : Prop := NoDup (handoff_refs s) ∧ NoDup (handoff_orders s).*1 ∧ ∀ r, r ∈ handoff_refs s ↔ r ∈ (handoff_orders s).*1.

Lemma remove_first_other r x l : x ≠ r → x ∈ remove_first r l ↔ x ∈ l.
Proof.
  intros Hne. induction l as [|y l IH]; cbn; [done|]. destruct (String.eqb_spec y r) as [->|].
  - split; [by constructor|]. by intros [->|?]%elem_of_cons.
  - rewrite !elem_of_cons. by rewrite IH.
Qed.

Lemma remove_first_sub r x l : x ∈ remove_first r l → x ∈ l.
Proof. induction l as [|y l IH]; cbn; [done|]. destruct (String.eqb y r); rewrite !elem_of_cons; naive_solver. Qed.

Lemma remove_first_NoDup r l : NoDup l → NoDup (remove_first r l) ∧ r ∉ remove_first r l.
Proof.
  induction 1 as [|y l Hy Hl [IH1 IH2]]; cbn; [split; [constructor|apply not_elem_of_nil]|]. destruct (String.eqb_spec y r) as [->|Hne]; [done|]. split.
  - constructor; [|done]. by intros ?%remove_first_sub.
  - by intros [?|?]%elem_of_cons.
Qed.

Lemma assoc_filter_ne (k j : string) (d : list (string * LinkRecord)) : j ≠ k → assoc j (List.filter (λ kv, negb (String.eqb kv.1 k)) d) = assoc j d.
Proof.
  intros Hne. induction d as [|[x v] d IH]; cbn; [done|]. destruct (String.eqb_spec x k) as [->|]; cbn.
  - destruct (String.eqb_spec j k); [done|]. apply IH.
  - by rewrite IH.
Qed.

Lemma keys_filter (k j : string) (d : list (string * LinkRecord)) : j ∈ (List.filter (λ kv, negb (String.eqb kv.1 k)) d).*1 ↔ j ≠ k ∧ j ∈ d.*1.
Proof.
  rewrite !list_elem_of_fmap. setoid_rewrite list_elem_of_In. setoid_rewrite filter_In. split.
  - intros ([x v] & -> & [Hin Hn]). cbn in *. apply negb_true_iff, String.eqb_neq in Hn. split; [done|]. by exists (x, v).
  - intros (Hne & [x v] & -> & Hin). exists (x, v). split_and!; try done. cbn in *. by apply negb_true_iff, String.eqb_neq.
Qed.

Lemma NoDup_keys_filter (p : string * LinkRecord → bool) d : NoDup d.*1 → NoDup (List.filter p d).*1.
Proof.
  induction d as [|kv d IH]; cbn; [done|]. intros [Hn Hd]%NoDup_cons. destruct (p kv); cbn; [|auto]. apply NoDup_cons. split; [|auto].
  intros ([x v] & Hx & Hin)%list_elem_of_fmap. apply Hn, list_elem_of_fmap. exists (x, v). apply list_elem_of_In, filter_In in Hin as [? _]. by rewrite list_elem_of_In.
Qed.

Section stale.
Context (refs : list string) (orders : list (string * LinkRecord)).
Context (Hnr : NoDup refs) (Hno : NoDup orders.*1) (Heq : ∀ r, r ∈ refs ↔ r ∈ orders.*1).

(** Dropping stale references keeps the others and their records. *)
Lemma drop_stale_spec : ∀ stale (p : list string * list (string * LinkRecord)), p = foldl drop_stale (refs, orders) stale →
  NoDup p.1 ∧ NoDup p.2.*1 ∧ (∀ r, r ∈ p.1 ↔ r ∈ p.2.*1) ∧ (∀ r, r ∈ p.1 → r ∈ refs ∧ r ∉ stale) ∧ ∀ r, r ∉ stale → (r ∈ p.1 ↔ r ∈ refs) ∧ assoc r p.2 = assoc r orders.
Proof.
  induction stale as [|x stale IH] using rev_ind; intros p ->; [cbn; split_and!; try done; intros r Hr; split; [done|apply not_elem_of_nil]|]. rewrite foldl_app. destruct (IH _ eq_refl) as (H1 & H2 & H3 & H4 & H5). set (q := foldl _ _ stale) in *. cbn.
  destruct (remove_first_NoDup x q.1 H1) as [Hn Hnx]. split_and!; [done|by apply NoDup_keys_filter| | |].
  - intros r. rewrite keys_filter. destruct (decide (r = x)) as [->|Hne]; [naive_solver|]. rewrite remove_first_other by done. naive_solver.
  - intros r Hr. assert (r ≠ x) by (by intros ->). apply remove_first_sub, H4 in Hr as [? ?]. split; [done|]. rewrite not_elem_of_app, not_elem_of_cons. split_and!; [done..|apply not_elem_of_nil].
  - intros r [Hr Hx]%not_elem_of_app. assert (r ≠ x) as Hne by set_solver. destruct (H5 r Hr) as [? ?]. split; [by rewrite remove_first_other|]. by rewrite assoc_filter_ne.
Qed.
End stale.

(** A reference whose link can still be paid is never forgotten. *)
Lemma remember_reference_spec s ref record s' : refs_ok s → s' = remember_reference s ref record →
  refs_ok s' ∧ ref ∈ handoff_refs s' ∧
  assoc ref (handoff_orders s') = Some (over_record (default empty_record (assoc ref (handoff_orders s))) record) ∧
  (∀ r, r ≠ ref → payable (assoc r (handoff_orders s)) = true → r ∈ handoff_refs s' ∧ assoc r (handoff_orders s') = assoc r (handoff_orders s)) ∧
  (∀ r, r ∈ handoff_refs s' → r = ref ∨ r ∈ handoff_refs s ∧ assoc r (handoff_orders s') = assoc r (handoff_orders s)).
Proof.
  intros (Hn & Ho & Heq) ->. unfold remember_reference. set (older := List.filter _ (handoff_refs s)). set (orders := dict_set _ _ _). set (stale := take _ _).
  assert (∀ r, r ∈ older ↔ r ≠ ref ∧ r ∈ handoff_refs s) as Holder.
  { intros r. unfold older. rewrite !list_elem_of_In, filter_In, negb_true_iff, String.eqb_neq. naive_solver. }
  assert (NoDup (older ++ [ref])) as H1.
  { apply NoDup_app. split_and!; [by apply NoDup_ListNoDup, List.NoDup_filter, NoDup_ListNoDup| |apply NoDup_singleton]. intros r [? _]%Holder ->%list_elem_of_singleton. done. }
  assert (NoDup orders.*1) as H2 by by apply dict_set_NoDup.
  assert (∀ r, r ∈ older ++ [ref] ↔ r ∈ orders.*1) as H3.
  { intros r. unfold orders. rewrite dict_set_keys, elem_of_app, list_elem_of_singleton, Holder, Heq. destruct (decide (r = ref)); naive_solver. }
  assert (∀ r, r ∈ stale → r ∈ older ∧ payable (assoc r orders) = false) as Hst.
  { intros r Hr. apply elem_of_take in Hr as (k & Hk & _). apply list_elem_of_lookup_2 in Hk. apply list_elem_of_In, filter_In in Hk as [? ?%negb_true_iff]. by rewrite list_elem_of_In. }
  assert (ref ∉ stale) as Hrs by (intros [[? _]%Holder _]%Hst; done).
  destruct (drop_stale_spec _ _ H1 H2 H3 stale _ eq_refl) as (D1 & D2 & D3 & D4 & D5). destruct (D5 ref Hrs) as [Dr Da].
  split; [done|]. split; [apply Dr, elem_of_app; right; by apply list_elem_of_singleton|]. cbn [handoff_orders with_orders handoff_refs].
  split; [rewrite Da; unfold orders; apply assoc_dict_set_eq|]. assert (∀ r, r ≠ ref → assoc r orders = assoc r (handoff_orders s)) as Hne by (intros; by apply assoc_dict_set_ne).
  split.
  - intros r Hr Hp. assert (r ∉ stale) as Hrn. { intros [_ Hf]%Hst. rewrite Hne in Hf by done. congruence. } destruct (D5 r Hrn) as [Dr' Da']. rewrite Da', Hne by done. split; [|done].
    apply Dr', elem_of_app. left. apply Holder. split; [done|]. apply Heq, assoc_is_Some. destruct (assoc r (handoff_orders s)); [by eexists|done].
  - intros r Hr. destruct (decide (r = ref)) as [->|Hrne]; [by left|]. right. destruct (D4 r Hr) as [Hin Hrn]. apply elem_of_app in Hin as [[_ Hin]%Holder|?%list_elem_of_singleton]; [|done].
    split; [done|]. by rewrite (proj2 (D5 r Hrn)), Hne.
Qed.

(** * What a reference asks for *)

Section asks.
Context `{PayloadHash}.

(** A record that names a cart and an amount names the amount of that cart. *)
Definition record_ok (r : LinkRecord) : Prop :=
  ∀ h a, rec_cart_hash r = Some h → rec_amount r = Some a → ∃ st, cart_hash st = h ∧ total_of (totals st) = Some a.
Definition records_ok (s : HandoffState) : Prop := ∀ ref r, assoc ref (handoff_orders s) = Some r → record_ok r.

(** A change that brings neither, or both *)
Definition whole (r : LinkRecord) : Prop := (rec_cart_hash r = None ∧ rec_amount r = None) ∨ (is_Some (rec_cart_hash r) ∧ is_Some (rec_amount r) ∧ record_ok r).

Lemma over_record_ok a b : record_ok a → whole b → record_ok (over_record a b).
Proof.
  intros Ha [[Hh Hm]|([h Hh] & [m Hm] & Hb)]; intros h' a'; cbn; rewrite Hh, Hm; cbn; [apply Ha|]. intros [= <-] [= <-]. by apply Hb.
Qed.

Lemma empty_record_ok : record_ok empty_record.
Proof. done. Qed.

Lemma link_record_whole h : whole (link_record h).
Proof. by left. Qed.

Lemma records_ok_set s refs ref r : records_ok s → record_ok r → records_ok (with_orders s refs (dict_set ref r (handoff_orders s))).
Proof. intros Hs Hr k x. cbn. rewrite assoc_dict_set. destruct (String.eqb k ref); [by intros [= <-]|apply Hs]. Qed.

Lemma default_record_ok s ref : records_ok s → record_ok (default empty_record (assoc ref (handoff_orders s))).
Proof. intros Hs. destruct (assoc ref (handoff_orders s)) eqn:E; cbn; [by eapply Hs|apply empty_record_ok]. Qed.

Lemma records_ok_remember_link s h : records_ok s → records_ok (remember_link s h).
Proof.
  intros Hs. unfold remember_link. case_bool_decide; [|done]. apply records_ok_set; [done|]. apply over_record_ok; [by apply default_record_ok|apply link_record_whole].
Qed.

Lemma records_ok_set_status s ref st : records_ok s → records_ok (set_reference_status s ref st).
Proof.
  intros Hs. unfold set_reference_status. destruct (assoc ref (handoff_orders s)) as [r|] eqn:E; [|done]. apply records_ok_set; [done|]. exact (Hs ref r E).
Qed.

Lemma records_ok_retire s : records_ok s → records_ok (retire_failed s).1.
Proof.
  intros Hs. unfold retire_failed. set (s1 := match UcpHandoff.handoff s with Some _ => _ | None => s end).
  assert (records_ok s1) as H1. { unfold s1. destruct (UcpHandoff.handoff s) as [h|]; [|done]. destruct (reference h) as [r|]; [|done]. destruct (String.eqb _ _); [done|]. by apply records_ok_set_status. }
  by destruct (last _).
Qed.

Lemma records_ok_remember s ref r : refs_ok s → records_ok s → whole r → records_ok (remember_reference s ref r).
Proof.
  intros Hrefs Hs Hw. destruct (remember_reference_spec s ref r _ Hrefs eq_refl) as ((_ & _ & Heq) & _ & Hr & _ & Hold). intros k x Hk.
  assert (k ∈ handoff_refs (remember_reference s ref r)) as Hin by (apply Heq, assoc_is_Some; by eexists).
  destruct (Hold k Hin) as [->|[_ E]].
  - rewrite Hr in Hk. injection Hk as <-. apply over_record_ok; [by apply default_record_ok|done].
  - rewrite E in Hk. by eapply Hs.
Qed.

(** The functions that keep the references *)
Lemma refs_ok_set s ref r : refs_ok s → ref ∈ (handoff_orders s).*1 → refs_ok (with_orders s (handoff_refs s) (dict_set ref r (handoff_orders s))).
Proof.
  intros (H1 & H2 & H3) Hin. split_and!; [done|by apply dict_set_NoDup|]. intros k. cbn. rewrite dict_set_keys, H3. naive_solver.
Qed.

Lemma refs_ok_set_status s ref st : refs_ok s → refs_ok (set_reference_status s ref st).
Proof.
  intros Hs. unfold set_reference_status. destruct (assoc ref (handoff_orders s)) as [r|] eqn:E; [|done]. apply refs_ok_set; [done|]. apply assoc_is_Some. by eexists.
Qed.

Lemma refs_ok_remember_link s h : refs_ok s → refs_ok (remember_link s h).
Proof. intros Hs. unfold remember_link. case_bool_decide as Hin; [|done]. apply refs_ok_set; [done|]. by apply Hs. Qed.

Lemma refs_ok_retire s : refs_ok s → refs_ok (retire_failed s).1.
Proof.
  intros Hs. unfold retire_failed. set (s1 := match UcpHandoff.handoff s with Some _ => _ | None => s end).
  assert (refs_ok s1) as H1. { unfold s1. destruct (UcpHandoff.handoff s) as [h|]; [|done]. destruct (reference h) as [r|]; [|done]. destruct (String.eqb _ _); [done|]. by apply refs_ok_set_status. }
  by destruct (last _).
Qed.

(** Both together: what every stored state satisfies *)
Definition state_ok (s : HandoffState) : Prop := refs_ok s ∧ records_ok s.

Lemma state_ok_retire s : state_ok s → state_ok (retire_failed s).1.
Proof. intros []. split; [by apply refs_ok_retire|by apply records_ok_retire]. Qed.
Lemma state_ok_set_status s ref st : state_ok s → state_ok (set_reference_status s ref st).
Proof. intros []. split; [by apply refs_ok_set_status|by apply records_ok_set_status]. Qed.
Lemma state_ok_remember_link s h : state_ok s → state_ok (remember_link s h).
Proof. intros []. split; [by apply refs_ok_remember_link|by apply records_ok_remember_link]. Qed.
Lemma state_ok_remember s ref r : state_ok s → whole r → state_ok (remember_reference s ref r).
Proof. intros [Hr Ho] Hw. split; [by eapply remember_reference_spec|by apply records_ok_remember]. Qed.
Lemma state_ok_same s s' : state_ok s → handoff_refs s' = handoff_refs s → handoff_orders s' = handoff_orders s → state_ok s'.
Proof. intros [H1 H2] E1 E2. unfold state_ok, refs_ok, records_ok. by rewrite E1, E2. Qed.
End asks.
