(* ===== verification/UcpSession.v ===== *)
(** Checkout sessions: the transactions of src/core/commerce/ucp/handlers.py.

    A request runs as one or more transactions, each under the lock of the session's row; between
    them others run. Every transaction is a function of the stored rows, orders and payments that
    need attention. What it takes from outside (the evaluation of the request, the decision of the
    arbiter, the answer of the executor or of the payment provider, the stock) is an argument. The
    check and unique constraints of the tables are applied when a row is written; a violation raises
    and leaves everything as it was. *)

From S2P Require Import Prelude PyVal PyText Arbiter LedgerExport UcpMessages UcpFulfillment UcpPayment UcpCheckout UcpOrders UcpHandoff.

Local Open Scope Z_scope.

(** * Rows *)

Record Row := {
  r_status : Status; r_state : HandoffState; r_currency : option string; r_cart : option string; r_order : option string; r_decision : option string;
  r_revision : Z; r_expires : Z; r_canceled_at : option Z; r_completed_at : option Z; r_updated : Z }.

(** An order: its id, the decision it was paid under, and its entity *)
Record Order := { o_id : string; o_decision : string; o_total : Z; o_row : OrderRow }.

Inductive Attention_reason := amount_mismatch | paid_after_cancel | checkout_changed | order_mismatch | paid_twice | out_of_stock_at_payment.

(** A payment the merchant must act on, keyed by the provider's order *)
Record Attention := { a_key : string; a_session : string; a_reference : string; a_reason : Attention_reason; a_amount : option Z; a_order : option string }.

(** What the executor is asked to charge *)
Record Execution := { x_session : string; x_decision : string; x_total : Z; x_currency : option string; x_instruments : list Instrument }.

Record world := {
  rows : gmap string Row; orders : gmap string Order; attention : list Attention; consumed : list string; executions : list Execution }.

(** A violated constraint, a state without a total, a value of the wrong type, a malformed request *)
Inductive session_error := IntegrityError | NoTotal | BadValue | Malformed.

(** 404, 409, a business outcome with its messages, and the session as it is *)
Inductive response := not_found | invalid_state | blocked (messages : list message) | rendered | existing (id : string).

Definition with_row (w : world) (id : string) (r : Row) : world :=
  {| rows := <[id := r]> (rows w); orders := orders w; attention := attention w; consumed := consumed w; executions := executions w |}.

Definition is_open (r : Row) : bool := bool_decide (r_status r ∉ TERMINAL).

(** [uq_commerce_checkout_sessions_open_cart]: another open session of the cart *)
Definition other_open (w : world) (id : string) (r : Row) : bool :=
  match r_cart r with
  | Some c => is_open r && existsb (λ kr, negb (String.eqb kr.1 id) && bool_decide (r_cart kr.2 = Some c) && is_open kr.2) (map_to_list (rows w))
  | None => false
  end.

Definition commit (w : world) (id : string) (r : Row) : result session_error world :=
  _ ← raise_if (negb (bool_decide (r_status r = completed ↔ is_Some (r_order r)))) IntegrityError;
  _ ← raise_if (other_open w id r) IntegrityError;
  Ok (with_row w id r).

(** * Creating, updating and cancelling *)

Definition lapsed (r : Row) (now : Z) : bool := is_open r && (r_expires r <=? now).
Definition effective_status (r : Row) (now : Z) : Status := if lapsed r now then canceled else r_status r.
Definition _frozen_error (r : Row) (now : Z) : bool := bool_decide (effective_status r now ∈ FROZEN).

Definition fresh_state (st : State) : HandoffState :=
  {| cart := st; hs_messages := state_messages st; hs_continue_url := None; UcpHandoff.handoff := None; handoff_refs := []; handoff_orders := []; handoff_events := [];
     handoff_unmatched_notified := [] |}.

(** A new status for a row at [now] *)
Definition set_row (r : Row) (st : Status) (s : HandoffState) (now : Z) : Row :=
  {| r_status := st; r_state := s; r_currency := r_currency r; r_cart := r_cart r; r_order := r_order r; r_decision := r_decision r; r_revision := r_revision r + 1;
     r_expires := r_expires r; r_canceled_at := r_canceled_at r; r_completed_at := r_completed_at r; r_updated := now |}.

Definition cancel_row (r : Row) (now : Z) : Row :=
  {| r_status := canceled; r_state := r_state r; r_currency := r_currency r; r_cart := r_cart r; r_order := r_order r; r_decision := r_decision r;
     r_revision := r_revision r + 1; r_expires := r_expires r; r_canceled_at := Some now; r_completed_at := r_completed_at r; r_updated := now |}.

Definition open_session_of (w : world) (c : string) : option (string * Row) :=
  List.find (λ kr, bool_decide (r_cart kr.2 = Some c) && is_open kr.2) (map_to_list (rows w)).

Definition lift_request (ev : result request_error Evaluation) : result session_error Evaluation := match ev with Ok e => Ok e | Err _ => Err Malformed end.

(** Inserting the row: an id or a cart already taken answers 409 and rolls everything back to [w0]. *)
Definition insert_new (w0 w : world) (id : string) (cart : option string) (now ttl : Z) (e : Evaluation) : result session_error (response * world) :=
  let r := {| r_status := status e; r_state := fresh_state (state e); r_currency := currency (state e); r_cart := cart; r_order := None; r_decision := None; r_revision := 1;
              r_expires := now + ttl; r_canceled_at := None; r_completed_at := None; r_updated := now |} in
  match rows w !! id with
  | Some _ => Ok (invalid_state, w0)
  | None => match commit w id r with Ok w' => Ok (rendered, w') | Err _ => Ok (invalid_state, w0) end
  end.

(** [cart]: the cart checked out, if any; [ev]: the evaluation of the request. The source reads the open
    session of the cart without its lock; the check constraint on completed rows and the unique index on
    open carts refuse what a stale read would write, so that such a transaction changes nothing. *)
Definition create_checkout (w : world) (id : string) (cart : option string) (now ttl : Z) (ev : result request_error Evaluation) : result session_error (response * world) :=
  match cart ≫= open_session_of w with
  | Some (k, r) =>
      if now <? r_expires r then Ok (existing k, w)
      else w' ← commit w k (cancel_row r now); e ← lift_request ev; insert_new w w' id cart now ttl e
  | None => e ← lift_request ev; insert_new w w id cart now ttl e
  end.

Definition update_checkout (w : world) (id : string) (now : Z) (eval : option State → result request_error Evaluation) : result session_error (response * world) :=
  match rows w !! id with
  | None => Ok (not_found, w)
  | Some r =>
      if _frozen_error r now || _payment_link_outstanding (r_status r) (r_state r) then Ok (invalid_state, w)
      else
        e ← lift_request (eval (Some (UcpHandoff.cart (r_state r))));
        let s := {| UcpHandoff.cart := state e; hs_messages := state_messages (state e); hs_continue_url := None; UcpHandoff.handoff := None;
                    handoff_refs := handoff_refs (r_state r); handoff_orders := handoff_orders (r_state r); handoff_events := handoff_events (r_state r);
                    handoff_unmatched_notified := handoff_unmatched_notified (r_state r) |} in
        let r' := {| r_status := status e; r_state := s; r_currency := currency (state e); r_cart := r_cart r; r_order := r_order r; r_decision := r_decision r;
                     r_revision := r_revision r + 1; r_expires := r_expires r; r_canceled_at := r_canceled_at r; r_completed_at := r_completed_at r; r_updated := now |} in
        w' ← commit w id r'; Ok (rendered, w')
  end.

Definition cancel_checkout (w : world) (id : string) (now : Z) : result session_error (response * world) :=
  match rows w !! id with
  | None => Ok (not_found, w)
  | Some r =>
      if bool_decide (r_status r ∈ TERMINAL) || bool_decide (r_status r = complete_in_progress) then Ok (invalid_state, w)
      else w' ← commit w id (cancel_row r now); Ok (rendered, w')
  end.

(** * Completing with an executor *)

(** What the catalogue says at completion: nothing changed, or the state and status that replace the stored ones *)
Definition recheck := option (State * Status * option string).

(** The total of a stored state *)
Definition total_in (st : State) : result session_error Z := of_option NoTotal (total_of (totals st)).

(** [_catalog_recheck] while no earlier link can be paid *)
Definition _catalog_recheck (r : Row) (now : Z) (found : recheck) : option Row :=
  if existsb (λ kv, payable (Some kv.2)) (handoff_orders (r_state r)) then None
  else match found with
  | None => None
  | Some (st, status, cur) =>
      let s := {| UcpHandoff.cart := st; hs_messages := state_messages st; hs_continue_url := hs_continue_url (r_state r); UcpHandoff.handoff := UcpHandoff.handoff (r_state r);
                  handoff_refs := handoff_refs (r_state r); handoff_orders := handoff_orders (r_state r); handoff_events := handoff_events (r_state r);
                  handoff_unmatched_notified := handoff_unmatched_notified (r_state r) |} in
      Some {| r_status := status; r_state := s; r_currency := match cur with Some _ => cur | None => r_currency r end; r_cart := r_cart r; r_order := r_order r;
              r_decision := r_decision r; r_revision := r_revision r + 1; r_expires := r_expires r; r_canceled_at := r_canceled_at r; r_completed_at := r_completed_at r; r_updated := now |}
  end.

(** What follows the checks of a completion: it is refused, the buyer is sent to authenticate (by an
    action or at an address), a decision is sealed, or the one presented is used. *)
Inductive verdict := Refuse (ms : list message) | AfaAction (ms : list message) | AfaLink (url : string) (m : message) | Sealed (decision : string) | Presented (decision : string).

Inductive decide_result := Answered (resp : response) | Decided (decision : string) (revision total : Z) | ToConsume (decision : string) (total : Z).

Section complete.
Context `{PyStr} `{PyInt}.
Context (handlers : list (string * PaymentHandler)) (version : string) (split_payments : list (string * pyval)) (split_active : bool).

(** The first transaction of [complete_checkout], up to the decision *)
Definition complete_decide (w : world) (id : string) (now : Z) (found : recheck) (instruments : list Instrument) (v : verdict) : result session_error (decide_result * world) :=
  match rows w !! id with
  | None => Ok (Answered not_found, w)
  | Some r =>
      if _frozen_error r now then Ok (Answered invalid_state, w)
      else if bool_decide (r_status r ≠ ready_for_complete) then Ok (Answered (blocked [recoverable "missing" "$.status"]), w)
      else match _catalog_recheck r now found with
      | Some r' => w' ← commit w id r'; Ok (Answered (blocked [MInfo "catalog_changed" EmptyString]), w')
      | None =>
          total ← total_in (UcpHandoff.cart (r_state r));
          match completion_messages handlers version split_payments split_active total (r_currency r) instruments with
          | Err _ => Err BadValue
          | Ok (m :: ms) => Ok (Answered (blocked (m :: ms)), w)
          | Ok [] =>
              match v with
              | Refuse ms => Ok (Answered (blocked ms), w)
              | AfaAction ms =>
                  let s := r_state r in
                  w' ← commit w id (set_row r incomplete (with_messages s (hs_messages s ++ ms) (hs_continue_url s) (UcpHandoff.handoff s)) now);
                  Ok (Answered rendered, w')
              | AfaLink url m =>
                  let s := r_state r in let ms := hs_messages s ++ [m] in
                  w' ← commit w id (set_row r (status_for ms (Some url)) (with_messages s ms (Some url) (UcpHandoff.handoff s)) now);
                  Ok (Answered rendered, w')
              | Sealed d => Ok (Decided d (r_revision r) total, w)
              | Presented d => Ok (ToConsume d total, w)
              end
          end
      end
  end.
End complete.

(** [_consume_and_prepare]: consuming the allow for this payload, once, and starting the execution;
    [allowed]: what the arbiter's store answers for a decision not consumed yet *)
Definition _consume_and_prepare (w : world) (id : string) (r : Row) (now : Z) (d : string) (allowed : bool) (total : Z) (instruments : list Instrument) :
    result session_error (response * world) :=
  if bool_decide (d ∈ consumed w) || negb allowed then Ok (blocked [recoverable "decision_refused" "$"], w)
  else
    let r' := {| r_status := complete_in_progress; r_state := r_state r; r_currency := r_currency r; r_cart := r_cart r; r_order := r_order r; r_decision := Some d;
                 r_revision := r_revision r + 1; r_expires := r_expires r; r_canceled_at := r_canceled_at r; r_completed_at := r_completed_at r; r_updated := now |} in
    w' ← commit w id r';
    Ok (rendered, {| rows := rows w'; orders := orders w'; attention := attention w'; consumed := d :: consumed w';
                     executions := {| x_session := id; x_decision := d; x_total := total; x_currency := r_currency r; x_instruments := instruments |} :: executions w' |}).

(** The second transaction, after a decision of the first *)
Definition complete_consume (w : world) (id : string) (now : Z) (d : string) (decided_revision total : Z) (allowed : bool) (instruments : list Instrument) :
    result session_error (response * world) :=
  match rows w !! id with
  | None => Ok (not_found, w)
  | Some r =>
      if _frozen_error r now then Ok (invalid_state, w)
      else if bool_decide (r_status r ≠ ready_for_complete) || negb (r_revision r =? decided_revision) then Ok (blocked [recoverable "decision_payload_mismatch" "$"], w)
      else _consume_and_prepare w id r now d allowed total instruments
  end.

(** * The outcome of an execution *)

(** [uq_commerce_orders_session]: one order per session. The row is completed with it. *)
Definition _complete_into_order (w : world) (id : string) (r : Row) (s : HandoffState) (decision order : string) (now : Z) : result session_error (Row * world) :=
  total ← total_in (UcpHandoff.cart s);
  _ ← raise_if (bool_decide (is_Some (orders w !! id))) IntegrityError;
  let o := {| o_id := order; o_decision := decision; o_total := total; o_row := first_order order id (UcpHandoff.cart s) |} in
  let r' := {| r_status := completed; r_state := s; r_currency := r_currency r; r_cart := r_cart r; r_order := Some order; r_decision := r_decision r;
               r_revision := r_revision r; r_expires := r_expires r; r_canceled_at := r_canceled_at r; r_completed_at := Some now; r_updated := r_updated r |} in
  Ok (r', {| rows := rows w; orders := <[id := o]> (orders w); attention := attention w; consumed := consumed w; executions := executions w |}).

(** The same row with another state, not written yet *)
Definition with_state (r : Row) (s : HandoffState) : Row :=
  {| r_status := r_status r; r_state := s; r_currency := r_currency r; r_cart := r_cart r; r_order := r_order r; r_decision := r_decision r; r_revision := r_revision r;
     r_expires := r_expires r; r_canceled_at := r_canceled_at r; r_completed_at := r_completed_at r; r_updated := r_updated r |}.

(** The next revision of a row *)
Definition bump (r : Row) (now : Z) : Row := set_row r (r_status r) (r_state r) now.

Inductive ExecutionResult := Completed_ (order : string) | ActionRequired (usable_actions : option bool) (escalation_url : option string) | Failed_.

(** [usable_actions]: with the authentication extension and actions, whether one passed the checks *)
Definition _apply_execution (w : world) (id : string) (now : Z) (d : string) (res : ExecutionResult) : result session_error (response * world) :=
  match rows w !! id with
  | None => Ok (not_found, w)
  | Some r =>
      let s := r_state r in
      match res with
      | Completed_ order =>
          '(r', w1) ← _complete_into_order w id r s d order now; w' ← commit w1 id (bump r' now); Ok (rendered, w')
      | ActionRequired (Some usable) _ =>
          w' ← commit w id (set_row r (if usable then complete_in_progress else ready_for_complete) s now); Ok (rendered, w')
      | ActionRequired None url =>
          match url with
          | Some u =>
              if starts_with "https://" u then
                let ms := hs_messages s ++ [MError "requires_3ds" "requires_buyer_input" "$.payment"] in
                w' ← commit w id (set_row r (status_for ms (Some u)) (with_messages s ms (Some u) (UcpHandoff.handoff s)) now); Ok (rendered, w')
              else w' ← commit w id (set_row r ready_for_complete s now); Ok (rendered, w')
          | None => w' ← commit w id (set_row r ready_for_complete s now); Ok (rendered, w')
          end
      | Failed_ => w' ← commit w id (set_row r ready_for_complete s now); Ok (rendered, w')
      end
  end.

Inductive reconciled := r_completed | r_already_completed | r_returned_to_ready | r_not_applicable | r_unknown_session.
Inductive outcome := captured | failed_outcome | other_outcome.

Definition reconcile_execution (w : world) (id : string) (now : Z) (d order : string) (out : outcome) : result session_error (reconciled * world) :=
  match rows w !! id with
  | None => Ok (r_unknown_session, w)
  | Some r =>
      if bool_decide (r_status r = completed) then Ok (r_already_completed, w)
      else if bool_decide (r_decision r ≠ Some d) || bool_decide (r_status r = canceled) then Ok (r_not_applicable, w)
      else
        let s := r_state r in
        match out with
        | captured => '(r', w1) ← _complete_into_order w id r s d order now; w' ← commit w1 id (bump r' now); Ok (r_completed, w')
        | failed_outcome =>
            let url := if bool_decide (r_status r = requires_escalation) then None else hs_continue_url s in
            let ms := List.filter (λ m, negb (String.eqb (code m) "requires_3ds")) (hs_messages s) in
            w' ← commit w id (set_row r ready_for_complete (with_messages s ms url (UcpHandoff.handoff s)) now); Ok (r_returned_to_ready, w')
        | other_outcome => Ok (r_not_applicable, w)
        end
  end.

(** * Completing with a payment link *)

Inductive handoff_answer := HAnswered (resp : response) | HDecided (decision : string) (revision : Z).

(** The first transaction of [_complete_with_handoff]: [settings], how the merchant is paid, [target_ok],
    whether the payment page is set up, [cart_url], the cart link where the items have one, and [decision],
    the arbiter's allow. *)
Definition handoff_decide (w : world) (id : string) (now : Z) (settings : option Mode) (target_ok : bool) (cart_url : option string) (found : recheck) (decision : option string) :
    result session_error (handoff_answer * world) :=
  match rows w !! id with
  | None => Ok (HAnswered not_found, w)
  | Some r =>
      if _frozen_error r now then Ok (HAnswered invalid_state, w)
      else
        let s := r_state r in
        match (if bool_decide (r_status r = requires_escalation) then active_handoff s now else None) with
        | Some _ => Ok (HAnswered rendered, w)
        | None =>
            match settings with
            | None => Ok (HAnswered (blocked [MError "payment_handoff_unavailable" "unrecoverable" EmptyString]), w)
            | Some m =>
                let reissue := bool_decide (r_status r = requires_escalation) && bool_decide (is_Some (UcpHandoff.handoff s)) in
                if bool_decide (r_status r ≠ ready_for_complete) && negb reissue then Ok (HAnswered (blocked [recoverable "missing" "$.status"]), w)
                else
                  let s1 := if reissue then clear_handoff s expired else s in
                  if reissue && has_errors (hs_messages s1) then Ok (HAnswered (blocked [recoverable "missing" "$.status"]), w)
                  else if negb target_ok then Ok (HAnswered (blocked [MError "payment_setup_incomplete" "unrecoverable" EmptyString]), w)
                  else match _catalog_recheck (with_state r s1) now found with
                  | Some r' => w' ← commit w id r'; Ok (HAnswered (blocked [MInfo "catalog_changed" EmptyString]), w')
                  | None =>
                      if bool_decide (m = shopify_cart) && bool_decide (cart_url = None) then Ok (HAnswered (blocked [MError "payment_handoff_unavailable" "unrecoverable" EmptyString]), w)
                      else
                        _ ← total_in (UcpHandoff.cart s);
                        match decision with
                        | None => Ok (HAnswered (blocked [recoverable "arbiter_refused" "$"]), w)
                        | Some d => Ok (HDecided d (r_revision r), w)
                        end
                  end
            end
        end
  end.

(** A replaced Plural link that can still be paid stays on its record; the hand-off itself is retired. *)
Definition replace_handoff (r : Row) (s : HandoffState) : HandoffState :=
  if bool_decide (r_status r = requires_escalation) then
    match UcpHandoff.handoff s with
    | Some h =>
        let s1 := if bool_decide (mode h = plural_hosted) && bool_decide (handoff_status h = issued) then remember_link s h else s in
        clear_handoff s1 expired
    | None => s
    end
  else s.

Section links.
(** [sha256]: the hexadecimal digest of a text *)
Context `{PayloadHash} (sha256 : string → string).

Definition handoff_reference (id d : string) : string := "aoh-" +:+ cut 44 (sha256 (id +:+ "|" +:+ d)).

(** What the new link asks for *)
Definition asked (s : HandoffState) (d : string) (total : Z) (cur cred : option string) : LinkRecord :=
  {| rec_amount := Some total; rec_currency := Some (upper (default EmptyString cur)); rec_cart_hash := Some (cart_hash (UcpHandoff.cart s));
     rec_link := {| continue_url := None; issued_at := None; expires_at := None; provider_order_id := None; decision_id := Some d; credential_ref := cred |}; rec_status := None |}.

(** The second transaction: [cart_url] issues the cart link; otherwise the stock is checked under the
    merchant's lock ([held], the messages) and the session waits for the provider's order. *)
Definition handoff_reserve (w : world) (id : string) (now : Z) (d : string) (decided_revision : Z) (allowed : bool) (cart_url cred : option string) (held : list message) :
    result session_error (response * world) :=
  match rows w !! id with
  | None => Ok (not_found, w)
  | Some r =>
      if _frozen_error r now then Ok (invalid_state, w)
      else if negb (r_revision r =? decided_revision) || bool_decide (r_status r ∉ [ready_for_complete; requires_escalation])
      then Ok (blocked [recoverable "decision_payload_mismatch" "$"], w)
      else if bool_decide (cart_url = None) && bool_decide (held ≠ []) then Ok (blocked held, w)
      else if bool_decide (d ∈ consumed w) || negb allowed then Ok (blocked [recoverable "decision_refused" "$"], w)
      else
        let s := replace_handoff r (r_state r) in
        let row st s' := {| r_status := st; r_state := s'; r_currency := r_currency r; r_cart := r_cart r; r_order := r_order r; r_decision := Some d; r_revision := r_revision r + 1;
                            r_expires := r_expires r; r_canceled_at := r_canceled_at r; r_completed_at := r_completed_at r; r_updated := now |} in
        r' ← match cart_url with
             | Some u =>
                 let s' := issue s shopify_cart u d now (r_expires r) None in Ok (row (status_for (hs_messages s') (hs_continue_url s')) s')
             | None =>
                 total ← total_in (UcpHandoff.cart s);
                 let ref := handoff_reference id d in
                 let s1 := with_messages s (hs_messages s) (hs_continue_url s)
                             (Some {| mode := plural_hosted; handoff_status := creating; reference := Some ref;
                                      link := {| continue_url := None; issued_at := None; expires_at := None; provider_order_id := None; decision_id := Some d; credential_ref := cred |} |}) in
                 Ok (row complete_in_progress (remember_reference s1 ref (asked s1 d total (r_currency r) cred)))
             end;
        w' ← commit w id r';
        Ok (rendered, {| rows := rows w'; orders := orders w'; attention := attention w'; consumed := d :: consumed w'; executions := executions w' |})
  end.

(** The third transaction: the provider's order, or the reservation given back *)
Definition handoff_record (w : world) (id : string) (later : Z) (d ref : string) (created : option (string * string)) (expires : Z) : result session_error (response * world) :=
  match rows w !! id with
  | None => Ok (not_found, w)
  | Some r =>
      let s := r_state r in
      if bool_decide ((UcpHandoff.handoff s ≫= reference) ≠ Some ref) || bool_decide (r_status r ≠ complete_in_progress) then Ok (rendered, w)
      else
        let '(s', st) := match created with
                         | Some (url, order) =>
                             let s1 := issue s plural_hosted url d later (Z.min (later + PLURAL_LINK_TTL) expires) (Some order) in
                             let s2 := match UcpHandoff.handoff s1 with Some h => remember_reference s1 ref (link_record h) | None => s1 end in
                             (s2, status_for (hs_messages s2) (hs_continue_url s2))
                         | None => retire_failed s
                         end in
        w' ← commit w id (set_row r st s' later); Ok (rendered, w')
  end.
End links.

(** * Confirming a payment *)

Inductive confirmed :=
| c_completed | c_already_completed | c_pending | c_link_retired | c_unknown_reference | c_duplicate_event | c_not_applicable | c_attention (reason : Attention_reason).

Definition UNREPORTED_PREFIX : string := "unreported:".

Definition add_notified (s : HandoffState) (ref : string) : HandoffState :=
  let l := handoff_unmatched_notified s ++ [ref] in
  {| UcpHandoff.cart := UcpHandoff.cart s; hs_messages := hs_messages s; hs_continue_url := hs_continue_url s; UcpHandoff.handoff := UcpHandoff.handoff s;
     handoff_refs := handoff_refs s; handoff_orders := handoff_orders s; handoff_events := handoff_events s; handoff_unmatched_notified := drop (length l - 20) l |}.

(** The key of a payment: the provider's order, or the reference when the order was not reported *)
Definition attention_key (provider_order ref : string) : string :=
  cut 120 (if String.eqb provider_order EmptyString then UNREPORTED_PREFIX +:+ ref else provider_order).

(** [on conflict do nothing] on the provider's order *)
Definition _record_payment_attention (w : world) (a : Attention) : world :=
  if existsb (λ b, String.eqb (a_key b) (a_key a)) (attention w) then w
  else {| rows := rows w; orders := orders w; attention := a :: attention w; consumed := consumed w; executions := executions w |}.

Section confirm.
Context `{PayloadHash}.

(** What the confirmation decides for an open session: the result, the state, the status, and whether an
    order is created *)
Definition confirm_decide (r : Row) (s : HandoffState) (ref provider_order : string) (pay : Payment) (amount : option Z) (cur : option string) :
    confirmed * HandoffState * Status * bool :=
  let record := assoc ref (handoff_orders s) in
  let rec := default empty_record record in
  let keep c := (c, s, r_status r, false) in
  if given (provider_order_id (rec_link rec)) && bool_decide (provider_order_id (rec_link rec) ≠ Some provider_order) then keep (c_attention order_mismatch)
  else if bool_decide (r_status r = completed) then
    match pay, record with
    | is_paid, Some rc => if bool_decide (rec_status rc = Some paid) then keep c_already_completed else (c_attention paid_twice, set_reference_status s ref paid, r_status r, false)
    | _, _ => keep c_already_completed
    end
  else
    match pay with
    | is_failed =>
        let current := bool_decide ((UcpHandoff.handoff s ≫= reference) = Some ref) in
        if current && bool_decide (r_status r ∈ [requires_escalation; complete_in_progress]) then let '(s', st) := retire_failed s in (c_link_retired, s', st, false)
        else if current && bool_decide (r_status r = canceled) then (c_link_retired, clear_handoff (set_reference_status s ref failed) failed, r_status r, false)
        else if payable record then (c_link_retired, set_reference_status s ref failed, r_status r, false)
        else keep c_not_applicable
    | _ =>
        if bool_decide (amount = None) || bool_decide (amount ≠ rec_amount rec) || negb (String.eqb (upper (default EmptyString cur)) (default EmptyString (rec_currency rec)))
        then keep (c_attention amount_mismatch)
        else if bool_decide (r_status r = canceled) || bool_decide (is_Some (r_canceled_at r)) then keep (c_attention paid_after_cancel)
        else if bool_decide (Some (cart_hash (UcpHandoff.cart s)) ≠ rec_cart_hash rec) then keep (c_attention checkout_changed)
        else (c_completed, clear_handoff (set_reference_status s ref paid) paid, completed, true)
    end.

(** [confirm_handoff_payment] for the session [id] found by the reference; [short]: whether the stock no
    longer covers the lines; [fresh]: the id of a new order *)
Definition confirm_handoff_payment (w : world) (id : string) (now : Z) (ref provider_order : string) (st : option string) (amount : option Z) (cur : option string)
    (event : option string) (short : bool) (fresh : string) : result session_error (confirmed * option string * world) :=
  match rows w !! id with
  | None => Ok (c_unknown_reference, None, w)
  | Some r =>
      let pay := payment_state st in
      if bool_decide (pay = is_pending) && bool_decide (r_status r ≠ completed) then Ok (c_pending, None, w)
      else
        let '(seen, s) := seen_event (r_state r) event in
        if seen then Ok (c_duplicate_event, r_order r, w)
        else
          let rec := default empty_record (assoc ref (handoff_orders s)) in
          let '(result, s', status', creates) := confirm_decide r s ref provider_order pay amount cur in
          '(r1, w1) ← (if creates : bool then _complete_into_order w id r s' (default (default EmptyString (r_decision r)) (decision_id (rec_link rec))) fresh now
                       else Ok (with_state r s', w));
          let attention_ := match result with c_attention reason => Some reason | c_completed => if short then Some out_of_stock_at_payment else None | _ => None end in
          let s2 := match attention_ with Some _ => if bool_decide (ref ∈ handoff_unmatched_notified s') then s' else add_notified s' ref | None => s' end in
          let w2 := match attention_ with
                    | Some reason =>
                        if bool_decide (ref ∈ handoff_unmatched_notified s') then w1
                        else _record_payment_attention w1
                               {| a_key := attention_key provider_order ref; a_session := id; a_reference := cut 64 ref; a_reason := reason; a_amount := amount;
                                  a_order := match reason with out_of_stock_at_payment => Some fresh | _ => None end |}
                    | None => w1
                    end in
          w3 ← commit w2 id (set_row r1 (if creates then completed else status') s2 now);
          Ok (result, match result with c_completed => Some fresh | c_already_completed => r_order r | c_attention paid_twice => r_order r | _ => None end, w3)
  end.
End confirm.
