(* ===== verification/UcpSystem.v ===== *)
(** Checkout sessions as a system: requests, executors, payment providers and reconciliation interleave
    one transaction at a time.

    Requests that decided and have not consumed their decision yet are kept beside the tables. *)

From S2P Require Import Prelude PyVal PyText Arbiter LedgerExport UcpMessages UcpFulfillment UcpPayment UcpCheckout UcpOrders UcpHandoff UcpSession.

Local Open Scope Z_scope.

Section system.
Context `{PayloadHash}.

(** * What a transaction may write *)

(** One row is written, at its next revision, as the constraints allow; an order comes with the completion
    of its session, for the total of the session's state. *)
Record write1 (w w' : world) : Prop := {
  write_row : ∃ id r', rows w' = <[id := r']> (rows w) ∧ ((r_status r' = completed ↔ is_Some (r_order r')) ∧ other_open w id r' = false) ∧
    match rows w !! id with
    | Some r => r_revision r' = r_revision r + 1 ∧ (state_ok (r_state r) → state_ok (r_state r'))
    | None => r_order r' = None ∧ state_ok (r_state r')
    end ∧
    ((orders w' = orders w ∧ ∀ r, rows w !! id = Some r → r_order r' = r_order r) ∨
     ∃ o, orders w !! id = None ∧ is_Some (rows w !! id) ∧ orders w' = <[id := o]> (orders w) ∧ r_order r' = Some (o_id o) ∧
          total_of (totals (UcpHandoff.cart (r_state r'))) = Some (o_total o));
  write_quiet : executions w' = executions w ∧ ∀ d, d ∈ consumed w → d ∈ consumed w' }.

Lemma other_open_false w id r : other_open w id r = false ↔
  ∀ j r' c, rows w !! j = Some r' → j ≠ id → r_cart r = Some c → r_cart r' = Some c → is_open r = true → is_open r' = false.
Proof.
  unfold other_open. destruct (r_cart r) as [c|]; [|by split]. destruct (is_open r); cbn; [|by split]. rewrite <- not_true_iff_false, existsb_exists. split.
  - intros Hall j r' c' Hj Hne [= <-] Hc _. apply not_true_iff_false. intros Ho. apply Hall. exists (j, r'). rewrite <- list_elem_of_In, elem_of_map_to_list. cbn.
    rewrite bool_decide_true, Ho by done. by destruct (String.eqb_spec j id).
  - intros Hall ([j r'] & Hj & Hb). rewrite <- list_elem_of_In, elem_of_map_to_list in Hj. cbn in Hb. apply andb_true_iff in Hb as [[Hne Hc%bool_decide_eq_true]%andb_true_iff Ho].
    destruct (String.eqb_spec j id) as [->|Hn]; [done|]. by rewrite (Hall j r' c) in Ho.
Qed.

(** What the tables satisfy: completed sessions and orders belong together, and a cart has one open session. *)
Record world_ok (w : world) : Prop := {
  ok_completed : ∀ id r, rows w !! id = Some r → (r_status r = completed ↔ is_Some (r_order r));
  ok_row_order : ∀ id r o, rows w !! id = Some r → r_order r = Some o → ∃ ord, orders w !! id = Some ord ∧ o_id ord = o;
  ok_order_row : ∀ id ord, orders w !! id = Some ord → ∃ r, rows w !! id = Some r ∧ r_order r = Some (o_id ord);
  ok_states : ∀ id r, rows w !! id = Some r → state_ok (r_state r);
  ok_open : ∀ id r, rows w !! id = Some r → other_open w id r = false }.

Lemma write1_ok w w' : world_ok w → write1 w w' → world_ok w'.
Proof.
  intros [C1 C2 C3 C4 C5] [(id & r' & Hrows & [Hc Hopen] & Hprev & Hord) _]. split; intros k r; rewrite Hrows.
  - rewrite lookup_insert_Some. intros [[<- <-]|[_ Hk]]; [done|]. by apply (C1 k).
  - intros o Hk Ho. apply lookup_insert_Some in Hk as [[<- <-]|[Hne Hk]].
    + destruct Hord as [[-> Hsame]|(o' & _ & _ & -> & Ho' & _)]; [|exists o'; rewrite lookup_insert_eq; split; [done|congruence]].
      destruct (rows w !! id) as [r0|] eqn:E; [|destruct Hprev; congruence]. rewrite (Hsame r0 eq_refl) in Ho. by apply (C2 id r0).
    + destruct (C2 k r o Hk Ho) as (ord & Ho1 & Ho2). destruct Hord as [[-> _]|(o' & _ & _ & -> & _)]; exists ord; [done|]. by rewrite lookup_insert_ne.
  - destruct Hord as [[-> Hsame]|(o' & Hnone & [r0 Hr0] & -> & Ho' & _)].
    + intros (r0 & Hr0 & Ho)%C3. destruct (decide (k = id)) as [->|Hne]; [|exists r0; by rewrite lookup_insert_ne].
      exists r'. rewrite lookup_insert_eq. split; [done|]. by rewrite (Hsame r0 Hr0).
    + rewrite lookup_insert_Some. intros [[<- <-]|[Hne Hk]]; [exists r'; by rewrite lookup_insert_eq|]. destruct (C3 k r Hk) as (r1 & ? & ?). exists r1. by rewrite lookup_insert_ne.
  - rewrite lookup_insert_Some. intros [[<- <-]|[_ Hk]]; [|by eapply C4]. destruct (rows w !! id) as [r0|] eqn:E; [|apply Hprev]. apply Hprev. by eapply C4.
  - rewrite lookup_insert_Some. rewrite !other_open_false in *. intros Hk j rj c Hj Hne Hc1 Hc2 Ho. rewrite Hrows, lookup_insert_Some in Hj.
    destruct Hk as [[<- <-]|[Hki Hk]], Hj as [[<- <-]|[Hji Hj]]; [done|by apply (Hopen j rj c)| |by apply (proj1 (other_open_false w k r) (C5 k r Hk) j rj c)].
    destruct (is_open r') eqn:E; [|done]. rewrite (Hopen k r c) in Ho; done.
Qed.

(** ** Completed sessions are final *)

Lemma write1_final w w' id r o : world_ok w → write1 w w' → rows w !! id = Some r → r_order r = Some o →
  ∃ r', rows w' !! id = Some r' ∧ r_status r' = completed ∧ r_order r' = Some o ∧ orders w' !! id = orders w !! id.
Proof.
  intros Hw [(k & r' & Hrows & [Hc _] & _ & Hord) _] Hr Ho. destruct (ok_row_order w Hw id r o Hr Ho) as (ord & Hord1 & _). rewrite Hrows. destruct (decide (k = id)) as [->|Hne].
  - destruct Hord as [[-> Hsame]|(o' & Hnone & _)]; [|congruence]. exists r'. rewrite lookup_insert_eq. rewrite (Hsame r Hr), Ho in Hc. split_and!; [done|by apply Hc|by rewrite (Hsame r Hr)|done].
  - exists r. rewrite lookup_insert_ne by done. split_and!; [done|apply (ok_completed w Hw id r Hr); by eexists|done|].
    destruct Hord as [[-> _]|(o' & _ & _ & -> & _)]; [done|]. by rewrite lookup_insert_ne.
Qed.

(** The revision of a row only grows, and a row that keeps its revision is the same row. *)
Definition later (w w' : world) : Prop := ∀ id r, rows w !! id = Some r → ∃ r', rows w' !! id = Some r' ∧ (r_revision r < r_revision r' ∨ r' = r).

#[export] Instance later_preorder : PreOrder later.
Proof.
  split; [intros w id r Hr; exists r; auto|]. intros a b c Hab Hbc id r Hr. destruct (Hab id r Hr) as (r1 & H1 & H2). destruct (Hbc id r1 H1) as (r2 & H3 & H4).
  exists r2. split; [done|]. destruct H2 as [?| ->], H4 as [?| ->]; auto; left; lia.
Qed.

Lemma write1_later w w' : write1 w w' → later w w'.
Proof.
  intros [(k & r' & Hrows & _ & Hprev & _) _] id r Hr. rewrite Hrows. destruct (decide (k = id)) as [->|Hne].
  - exists r'. rewrite lookup_insert_eq. rewrite Hr in Hprev. split; [done|]. left. lia.
  - exists r. rewrite lookup_insert_ne by done. auto.
Qed.

(** ** The transactions *)

Lemma commit_Ok w id r w' : commit w id r = Ok w' → w' = with_row w id r ∧ (r_status r = completed ↔ is_Some (r_order r)).
Proof. unfold commit. intros Hc. inv_ok. apply negb_false_iff, bool_decide_eq_true in H0. done. Qed.

Lemma commit_open w id r w' : commit w id r = Ok w' → other_open w id r = false.
Proof. unfold commit. intros Hc. by inv_ok. Qed.

Lemma commit_total w id r : (r_status r = completed ↔ is_Some (r_order r)) → other_open w id r = false → commit w id r = Ok (with_row w id r).
Proof. intros Hc Ho. unfold commit. by rewrite bool_decide_true, Ho by done. Qed.

(** A row rewritten with the same order *)
Lemma commit_write w id r r' w' : rows w !! id = Some r → commit w id r' = Ok w' → r_revision r' = r_revision r + 1 → r_order r' = r_order r →
  (state_ok (r_state r) → state_ok (r_state r')) → write1 w w'.
Proof.
  intros Hr Hcm Hrev Ho Hs. pose proof (commit_open _ _ _ _ Hcm) as Hopen. apply commit_Ok in Hcm as [-> Hc]. split; [|done]. exists id, r'. split; [done|]. split; [done|]. rewrite Hr. split; [done|]. left. split; [done|]. intros r0 [= <-]. done.
Qed.

(** A session completed with a new order *)
Lemma complete_write w id r s d order now r' w1 r'' w' : rows w !! id = Some r → _complete_into_order w id r s d order now = Ok (r', w1) →
  commit w1 id r'' = Ok w' → r_revision r'' = r_revision r' + 1 → r_order r'' = r_order r' → UcpHandoff.cart (r_state r'') = UcpHandoff.cart s →
  (state_ok (r_state r) → state_ok (r_state r'')) → write1 w w'.
Proof.
  intros Hr Hc Hcm Hrev Ho Hcart Hs. pose proof (commit_open _ _ _ _ Hcm) as Hopen. apply commit_Ok in Hcm as [-> Hcc]. unfold _complete_into_order in Hc. inv_ok. unfold total_in in *. inv_ok. case_bool_decide; [done|].
  split; [|done]. exists id, r''. cbn in *. split; [done|]. split; [done|]. rewrite Hr. split; [split; [lia|done]|]. right. eexists. split_and!; [|by eexists|done|done|cbn; by rewrite Hcart].
  destruct (orders w !! id); [|done]. destruct H2. by eexists.
Qed.

(** The last write of a transaction may also note a consumed decision and a payment that needs attention. *)
Lemma write1_rest w w1 w' : write1 w w1 → rows w' = rows w1 → orders w' = orders w1 → executions w' = executions w → (∀ d, d ∈ consumed w → d ∈ consumed w') → write1 w w'.
Proof. intros [Hw _] Hr Ho He Hc. split; [|done]. by rewrite Hr, Ho. Qed.

Ltac writes := first [by apply rtc_refl | apply rtc_once].
Ltac written Hc := apply rtc_once; eapply commit_write; [done|exact Hc|done|done|]; first [done | intros ?; by eapply state_ok_same].

Lemma fresh_state_ok st : state_ok (fresh_state st).
Proof. split; [|by intros ? ?]. split_and!; [constructor..|]. intros r. by rewrite !elem_of_nil. Qed.

Lemma insert_new_writes w0 w id cart now ttl e resp w' : insert_new w0 w id cart now ttl e = Ok (resp, w') → w' = w0 ∨ write1 w w'.
Proof.
  unfold insert_new. destruct (rows w !! id) eqn:E; [by intros [= _ <-]; left|]. destruct (commit w id _) as [w1|] eqn:Ec; [|by intros [= _ <-]; left].
  intros [= _ <-]. right. pose proof (commit_open _ _ _ _ Ec) as Hopen. apply commit_Ok in Ec as [-> Hc]. split; [|done]. eexists id, _. split; [done|]. split; [done|]. rewrite E. split; [split; [done|apply fresh_state_ok]|].
  left. split; [done|]. by intros r.
Qed.

Lemma open_session_of_Some w c k r : open_session_of w c = Some (k, r) → rows w !! k = Some r ∧ r_status r ∉ TERMINAL.
Proof.
  unfold open_session_of. intros [Hin Hb]%find_some. apply list_elem_of_In, elem_of_map_to_list in Hin. apply andb_true_iff in Hb as [_ Hb]. split; [done|]. by apply bool_decide_eq_true in Hb.
Qed.

Lemma create_writes w id cart now ttl ev resp w' : create_checkout w id cart now ttl ev = Ok (resp, w') → rtc write1 w w'.
Proof.
  unfold create_checkout. destruct (cart ≫= open_session_of w) as [[k r]|] eqn:Eo.
  - destruct cart as [c|]; [|done]. cbn in Eo. apply open_session_of_Some in Eo as [Hr _]. destruct (now <? r_expires r); [intros [= _ <-]; writes|].
    intros Hb. apply bind_Ok in Hb as (w1 & Hc & Hb). apply bind_Ok in Hb as (e & _ & Hb). apply (commit_write _ _ r) in Hc as Hw; [|done..].
    apply insert_new_writes in Hb as [->|Hw2]; [writes|]. by eapply rtc_l, rtc_once.
  - intros Hb. apply bind_Ok in Hb as (e & _ & Hb). apply insert_new_writes in Hb as [->|Hw]; by writes.
Qed.

Lemma update_writes w id now eval resp w' : update_checkout w id now eval = Ok (resp, w') → rtc write1 w w'.
Proof.
  unfold update_checkout. destruct (rows w !! id) as [r|] eqn:Er; [|intros [= _ <-]; writes]. destruct (_ || _); [intros [= _ <-]; writes|].
  intros Hb. apply bind_Ok in Hb as (e & _ & Hb). apply bind_Ok in Hb as (w1 & Hc & [= _ <-]). written Hc.
Qed.

Lemma cancel_writes w id now resp w' : cancel_checkout w id now = Ok (resp, w') → rtc write1 w w'.
Proof.
  unfold cancel_checkout. destruct (rows w !! id) as [r|] eqn:Er; [|intros [= _ <-]; writes]. destruct (_ || _); [intros [= _ <-]; writes|].
  intros Hb. apply bind_Ok in Hb as (w1 & Hc & [= _ <-]). writes. by eapply commit_write.
Qed.

Lemma recheck_row r now found r' : _catalog_recheck r now found = Some r' →
  r_revision r' = r_revision r + 1 ∧ r_order r' = r_order r ∧ (state_ok (r_state r) → state_ok (r_state r')).
Proof.
  unfold _catalog_recheck. destruct (existsb _ _); [done|]. destruct found as [[[st status] cur]|]; [|done]. intros [= <-]. by split_and!.
Qed.

Lemma decide_writes `{PyStr} `{PyInt} handlers version split_payments split_active w id now found instruments v res w' :
  complete_decide handlers version split_payments split_active w id now found instruments v = Ok (res, w') → rtc write1 w w'.
Proof.
  unfold complete_decide. destruct (rows w !! id) as [r|] eqn:Er; [|intros [= _ <-]; writes]. destruct (_frozen_error r now); [intros [= _ <-]; writes|].
  case_bool_decide; [intros [= _ <-]; writes|]. destruct (_catalog_recheck r now found) as [r'|] eqn:Erc.
  { intros Hb. apply bind_Ok in Hb as (w1 & Hc & [= _ <-]). apply recheck_row in Erc as (? & ? & ?). writes. by eapply commit_write. }
  intros Hb. apply bind_Ok in Hb as (total & _ & Hb). destruct (completion_messages _ _ _ _ _ _ _) as [[|m ms]|]; [|intros; simplify_eq; writes|done].
  destruct v; try (injection Hb as _ <-; writes); apply bind_Ok in Hb as (w1 & Hc & [= _ <-]); written Hc.
Qed.

(** An execution starts: with its write the decision is consumed, for the first time. *)
Record starts (w w' : world) (id : string) (r : Row) (x : Execution) : Prop := {
  start_write : ∃ w1, write1 w w1 ∧ rows w' = rows w1 ∧ orders w' = orders w1;
  start_new : x_decision x ∉ consumed w;
  start_executions : executions w' = x :: executions w;
  start_consumed : consumed w' = x_decision x :: consumed w;
  start_row : rows w !! id = Some r ∧ x_session x = id ∧ x_currency x = r_currency r }.

Lemma prepare_starts w id r now d allowed total instruments resp w' : rows w !! id = Some r →
  _consume_and_prepare w id r now d allowed total instruments = Ok (resp, w') →
  w' = w ∨ ∃ x, starts w w' id r x ∧ x_decision x = d ∧ x_total x = total ∧ x_instruments x = instruments.
Proof.
  intros Hr. unfold _consume_and_prepare. destruct (_ || _) eqn:E; [intros [= _ <-]; by left|]. apply orb_false_iff in E as [E%bool_decide_eq_false _].
  intros Hb. apply bind_Ok in Hb as (w1 & Hc & [= _ <-]). right.
  exists {| x_session := id; x_decision := d; x_total := total; x_currency := r_currency r; x_instruments := instruments |}. split; [|done].
  apply commit_Ok in Hc as Hw1. destruct Hw1 as [Hw1 _]. split; cbn; try done; [|by rewrite Hw1..].
  exists w1. split; [|done]. eapply commit_write; [exact Hr|exact Hc|done..].
Qed.

Lemma consume_starts w id now d rev total allowed instruments resp w' : complete_consume w id now d rev total allowed instruments = Ok (resp, w') →
  w' = w ∨ ∃ r x, r_revision r = rev ∧ starts w w' id r x ∧ x_decision x = d ∧ x_total x = total ∧ x_instruments x = instruments.
Proof.
  unfold complete_consume. destruct (rows w !! id) as [r|] eqn:Er; [|intros [= _ <-]; by left]. destruct (_frozen_error r now); [intros [= _ <-]; by left|].
  destruct (_ || _) eqn:E; [intros [= _ <-]; by left|]. apply orb_false_iff in E as [_ E%negb_false_iff%Z.eqb_eq]. intros Hp.
  destruct (prepare_starts _ _ _ _ _ _ _ _ _ _ Er Hp) as [->|(x & ? & ? & ? & ?)]; [by left|]. right. by exists r, x.
Qed.

Lemma apply_writes w id now d res resp w' : _apply_execution w id now d res = Ok (resp, w') → rtc write1 w w'.
Proof.
  unfold _apply_execution. destruct (rows w !! id) as [r|] eqn:Er; [|intros [= _ <-]; writes].
  destruct res as [order|[usable|] url|].
  - intros Hb. apply bind_Ok in Hb as ([r' w1] & Hc & Hb). apply bind_Ok in Hb as (w2 & Hc2 & [= _ <-]). writes. eapply complete_write; [done|exact Hc|exact Hc2|done|done| |].
    + unfold _complete_into_order in Hc. inv_ok. done.
    + intros Hs. unfold _complete_into_order in Hc. inv_ok. done.
  - intros Hb. apply bind_Ok in Hb as (w1 & Hc & [= _ <-]). written Hc.
  - destruct url as [u|]; [destruct (starts_with _ _)|]; intros Hb; apply bind_Ok in Hb as (w1 & Hc & [= _ <-]); written Hc.
  - intros Hb. apply bind_Ok in Hb as (w1 & Hc & [= _ <-]). written Hc.
Qed.

Lemma complete_into_row w id r s d order now r' w1 : _complete_into_order w id r s d order now = Ok (r', w1) →
  r_state r' = s ∧ r_revision r' = r_revision r ∧ r_order r' = Some order ∧ r_status r' = completed.
Proof. unfold _complete_into_order. intros Hc. by inv_ok. Qed.

Lemma reconcile_writes w id now d order out res w' : reconcile_execution w id now d order out = Ok (res, w') → rtc write1 w w'.
Proof.
  unfold reconcile_execution. destruct (rows w !! id) as [r|] eqn:Er; [|intros [= _ <-]; writes]. case_bool_decide; [intros [= _ <-]; writes|].
  destruct (_ || _); [intros [= _ <-]; writes|]. destruct out; [| |intros [= _ <-]; writes].
  - intros Hb. apply bind_Ok in Hb as ([r' w1] & Hc & Hb). apply bind_Ok in Hb as (w2 & Hc2 & [= _ <-]). writes.
    pose proof (complete_into_row _ _ _ _ _ _ _ _ _ Hc) as (Hst & _). eapply complete_write; [done|exact Hc|exact Hc2|done|done| |]; cbn; by rewrite Hst.
  - intros Hb. apply bind_Ok in Hb as (w1 & Hc & [= _ <-]). written Hc.
Qed.

Lemma handoff_decide_writes w id now settings target_ok cart_url found decision res w' :
  handoff_decide w id now settings target_ok cart_url found decision = Ok (res, w') → rtc write1 w w'.
Proof.
  unfold handoff_decide. destruct (rows w !! id) as [r|] eqn:Er; [|intros [= _ <-]; writes]. destruct (_frozen_error r now); [intros [= _ <-]; writes|].
  destruct (if bool_decide (r_status r = requires_escalation) then _ else _); [intros [= _ <-]; writes|]. destruct settings as [m|]; [|intros [= _ <-]; writes].
  set (reissue := bool_decide (r_status r = requires_escalation) && bool_decide (is_Some (UcpHandoff.handoff (r_state r)))).
  destruct (bool_decide (r_status r ≠ ready_for_complete) && negb reissue); [intros [= _ <-]; writes|]. set (s1 := if reissue then _ else _).
  destruct (reissue && _); [intros [= _ <-]; writes|]. destruct (negb target_ok); [intros [= _ <-]; writes|].
  destruct (_catalog_recheck _ now found) as [r'|] eqn:Erc.
  - apply recheck_row in Erc as (? & ? & Hs). intros Hb. apply bind_Ok in Hb as (w1 & Hc & [= _ <-]). writes. eapply commit_write; [done|exact Hc|done|done|].
    intros Hok. apply Hs. cbn. unfold s1. by destruct reissue.
  - destruct (bool_decide (m = shopify_cart) && _); intros Hb; [by simplify_eq; writes|]. apply bind_Ok in Hb as (t & _ & Hb). destruct decision; simplify_eq; writes.
Qed.

Lemma replace_handoff_ok r s : state_ok s → state_ok (replace_handoff r s) ∧ UcpHandoff.cart (replace_handoff r s) = UcpHandoff.cart s.
Proof.
  intros Hs. unfold replace_handoff. case_bool_decide; [|done]. destruct (UcpHandoff.handoff s) as [h|]; [|done]. destruct (_ && _); [|done].
  split; [eapply state_ok_same; [by apply (state_ok_remember_link s h)|done|done]|]. cbn. unfold remember_link. by case_bool_decide.
Qed.

Lemma asked_whole s d total cur cred : total_of (totals (UcpHandoff.cart s)) = Some total → whole (asked s d total cur cred).
Proof. intros Ht. right. split_and!; [by eexists..|]. intros h a. cbn. intros [= <-] [= <-]. by exists (UcpHandoff.cart s). Qed.

Lemma reserve_writes sha256 w id now d rev allowed cart_url cred held resp w' :
  handoff_reserve sha256 w id now d rev allowed cart_url cred held = Ok (resp, w') → rtc write1 w w'.
Proof.
  unfold handoff_reserve. destruct (rows w !! id) as [r|] eqn:Er; [|intros [= _ <-]; writes]. destruct (_frozen_error r now); [intros [= _ <-]; writes|].
  destruct (negb _ || _); [intros [= _ <-]; writes|]. destruct (_ && _); [intros [= _ <-]; writes|]. destruct (_ || _); [intros [= _ <-]; writes|].
  intros Hb. apply bind_Ok in Hb as (r' & Hr' & Hb). apply bind_Ok in Hb as (w1 & Hc & [= _ <-]). apply commit_Ok in Hc as Hw1. destruct Hw1 as [Hw1 _]. writes.
  apply (write1_rest w w1); [|done|done|by rewrite Hw1|rewrite Hw1; by constructor].
  destruct cart_url as [u|].
  - injection Hr' as <-. eapply commit_write; [done|exact Hc|done|done|]. intros Hs. destruct (replace_handoff_ok r _ Hs). by eapply state_ok_same.
  - apply bind_Ok in Hr' as (total & Ht & Hr'). injection Hr' as <-. eapply commit_write; [done|exact Hc|done|done|]. intros Hs. destruct (replace_handoff_ok r _ Hs) as [Hs' Hcart].
    unfold total_in in Ht. inv_ok. apply state_ok_remember; [by eapply state_ok_same|]. by apply asked_whole.
Qed.

Lemma record_writes w id later_ d ref created expires resp w' : handoff_record w id later_ d ref created expires = Ok (resp, w') → rtc write1 w w'.
Proof.
  unfold handoff_record. destruct (rows w !! id) as [r|] eqn:Er; [|intros [= _ <-]; writes]. destruct (_ || _); [intros [= _ <-]; writes|].
  destruct created as [[url order]|].
  - intros Hb. apply bind_Ok in Hb as (w1 & Hc & [= _ <-]). writes. eapply commit_write; [done|exact Hc|done|done|]. intros Hs. apply state_ok_remember; [by eapply state_ok_same|apply link_record_whole].
  - destruct (retire_failed (r_state r)) as [s st] eqn:Ert. intros Hb. apply bind_Ok in Hb as (w1 & Hc & [= _ <-]). writes. eapply commit_write; [done|exact Hc|done|done|].
    intros Hs. apply state_ok_retire in Hs. by rewrite Ert in Hs.
Qed.

Lemma seen_event_ok s event b s' : seen_event s event = (b, s') → (state_ok s → state_ok s') ∧ UcpHandoff.cart s' = UcpHandoff.cart s ∧ handoff_orders s' = handoff_orders s ∧
  handoff_unmatched_notified s' = handoff_unmatched_notified s.
Proof.
  unfold seen_event. destruct event as [e|]; [|by intros [= <- <-]]. destruct (String.eqb _ _); [by intros [= <- <-]|]. case_bool_decide; by intros [= <- <-].
Qed.

Lemma confirm_decide_ok r s ref provider_order pay amount cur c s' st creates : confirm_decide r s ref provider_order pay amount cur = (c, s', st, creates) →
  (state_ok s → state_ok s') ∧ UcpHandoff.cart s' = UcpHandoff.cart s ∧ handoff_unmatched_notified s' = handoff_unmatched_notified s.
Proof.
  assert (∀ x, UcpHandoff.cart (set_reference_status s ref x) = UcpHandoff.cart s ∧
               handoff_unmatched_notified (set_reference_status s ref x) = handoff_unmatched_notified s) as Hset by (intros x; unfold set_reference_status; by destruct (assoc _ _)).
  assert (∀ x, state_ok s → state_ok (set_reference_status s ref x)) as Hok by (intros; by apply state_ok_set_status).
  assert (UcpHandoff.cart (retire_failed s).1 = UcpHandoff.cart s ∧ handoff_unmatched_notified (retire_failed s).1 = handoff_unmatched_notified s) as Hret.
  { unfold retire_failed. set (s1 := match UcpHandoff.handoff s with Some _ => _ | None => s end).
    assert (UcpHandoff.cart s1 = UcpHandoff.cart s ∧ handoff_unmatched_notified s1 = handoff_unmatched_notified s) as H1; [|by destruct (last _)].
    unfold s1, set_reference_status. repeat case_match; done. }
  assert (∀ c0 st0 b, (c0, s, st0, b) = (c, s', st, creates) → (state_ok s → state_ok s') ∧ UcpHandoff.cart s' = UcpHandoff.cart s ∧ handoff_unmatched_notified s' = handoff_unmatched_notified s) as Hkeep
    by (intros; by simplify_eq).
  assert (∀ c0 st0 b x, (c0, set_reference_status s ref x, st0, b) = (c, s', st, creates) →
    (state_ok s → state_ok s') ∧ UcpHandoff.cart s' = UcpHandoff.cart s ∧ handoff_unmatched_notified s' = handoff_unmatched_notified s) as Hset'
    by (intros; simplify_eq; split; [apply Hok|apply Hset]).
  assert (∀ c0 st0 b x y, (c0, clear_handoff (set_reference_status s ref x) y, st0, b) = (c, s', st, creates) →
    (state_ok s → state_ok s') ∧ UcpHandoff.cart s' = UcpHandoff.cart s ∧ handoff_unmatched_notified s' = handoff_unmatched_notified s) as Hclear
    by (intros; simplify_eq; split; [intros Hs; exact (Hok x Hs)|apply Hset]).
  unfold confirm_decide. destruct (given _ && _); [apply Hkeep|]. case_bool_decide.
  { destruct pay; [|apply Hkeep..]. destruct (assoc ref (handoff_orders s)); [|apply Hkeep]. case_bool_decide; [apply Hkeep|apply Hset']. }
  destruct pay.
  - destruct (_ || _); [apply Hkeep|]. destruct (_ || _); [apply Hkeep|]. case_bool_decide; [apply Hkeep|apply Hclear].
  - destruct (_ && _); [destruct (retire_failed s) as [s1 st1] eqn:E; intros; simplify_eq; split; [intros Hs; apply state_ok_retire in Hs; by rewrite E in Hs|apply Hret]|].
    destruct (_ && _); [apply Hclear|]. destruct (payable _); [apply Hset'|apply Hkeep].
  - destruct (_ || _); [apply Hkeep|]. destruct (_ || _); [apply Hkeep|]. case_bool_decide; [apply Hkeep|apply Hclear].
Qed.

Lemma record_attention_rows w a : rows (_record_payment_attention w a) = rows w ∧ orders (_record_payment_attention w a) = orders w.
Proof. unfold _record_payment_attention. by destruct (existsb _ _). Qed.

Lemma record_attention_rest w a : executions (_record_payment_attention w a) = executions w ∧ consumed (_record_payment_attention w a) = consumed w.
Proof. unfold _record_payment_attention. by destruct (existsb _ _). Qed.

Lemma commit_rest w1 w2 id r w3 : rows w2 = rows w1 → orders w2 = orders w1 → commit w2 id r = Ok w3 →
  ∃ w3', commit w1 id r = Ok w3' ∧ rows w3 = rows w3' ∧ orders w3 = orders w3'.
Proof.
  intros Hr Ho. unfold commit, other_open. rewrite Hr. destruct (raise_if (negb _) _); [|done]. cbn. destruct (raise_if _ _); [|done]. cbn. intros [= <-]. eexists. split; [done|].
  cbn. by rewrite Hr, Ho.
Qed.

(** What a confirmation of a known session did *)
Record confirm_effect (w : world) (id : string) (r : Row) (now : Z) (ref provider_order : string) (st : option string) (amount : option Z) (cur event : option string)
    (short : bool) (fresh : string) (res : confirmed) (w' : world) : Prop := {
  eff_state : ∃ s s' status' creates w2 r1, seen_event (r_state r) event = (false, s) ∧ confirm_decide r s ref provider_order (payment_state st) amount cur = (res, s', status', creates) ∧
    executions w2 = executions w ∧ consumed w2 = consumed w ∧
    (if creates : bool then ∃ w1, _complete_into_order w id r s' (default (default EmptyString (r_decision r)) (decision_id (rec_link (default empty_record (assoc ref (handoff_orders s)))))) fresh now = Ok (r1, w1) ∧
                                  rows w2 = rows w1 ∧ orders w2 = orders w1
     else r1 = with_state r s' ∧ rows w2 = rows w ∧ orders w2 = orders w) ∧
    ∃ s2, (s2 = s' ∨ s2 = add_notified s' ref) ∧ commit w2 id (set_row r1 (if creates then completed else status') s2 now) = Ok w' ∧
    (∀ reason, res = c_attention reason ∨ res = c_completed ∧ short = true ∧ reason = out_of_stock_at_payment →
       ref ∈ handoff_unmatched_notified (r_state r) ∨ ∃ a, a ∈ attention w' ∧ a_key a = attention_key provider_order ref) }.

Lemma record_attention_in w a : ∃ b, b ∈ attention (_record_payment_attention w a) ∧ a_key b = a_key a.
Proof.
  unfold _record_payment_attention. destruct (existsb _ _) eqn:E; [|exists a; split; [constructor|done]].
  apply existsb_exists in E as (b & Hb & ?%String.eqb_eq). exists b. by rewrite list_elem_of_In.
Qed.

Lemma confirm_inv w id r now ref provider_order st amount cur event short fresh res o w' : rows w !! id = Some r →
  confirm_handoff_payment w id now ref provider_order st amount cur event short fresh = Ok (res, o, w') →
  (res = c_pending ∨ res = c_duplicate_event) ∧ w' = w ∨ confirm_effect w id r now ref provider_order st amount cur event short fresh res w'.
Proof.
  intros Hr. unfold confirm_handoff_payment. rewrite Hr. destruct (_ && _); [intros; simplify_eq; auto|]. destruct (seen_event (r_state r) event) as [[] s] eqn:Es; [intros; simplify_eq; auto|].
  destruct (confirm_decide r s ref provider_order (payment_state st) amount cur) as [[[result s'] status'] creates] eqn:Ed. intros Hb. apply bind_Ok in Hb as ([r1 w1] & H1 & Hb).
  set (att := match result with c_attention reason => Some reason | c_completed => _ | _ => None end) in Hb. cbn zeta in Hb. apply bind_Ok in Hb as (w3 & Hc & Hb). simplify_eq. right. split.
  destruct (seen_event_ok _ _ _ _ Es) as (_ & _ & _ & Hn1). destruct (confirm_decide_ok _ _ _ _ _ _ _ _ _ _ _ Ed) as (_ & _ & Hn2).
  assert (executions w1 = executions w ∧ consumed w1 = consumed w) as [He Hcs] by (destruct creates; [unfold _complete_into_order in H1; by inv_ok|by simplify_eq]).
  eexists s, s', status', creates, _, r1. split; [done|]. split; [done|]. split; [|split; [|split; [|eexists; split; [|split; [exact Hc|]]]]].
  - destruct att; [case_bool_decide; [done|]|done]. by rewrite (proj1 (record_attention_rest _ _)).
  - destruct att; [case_bool_decide; [done|]|done]. by rewrite (proj2 (record_attention_rest _ _)).
  - destruct creates; [exists w1; split; [done|]|simplify_eq; split; [done|]]; destruct att; try done; case_bool_decide; done || apply record_attention_rows.
  - destruct att; [|by left]. case_bool_decide; auto.
  - intros reason Hreason. assert (att = Some reason) as Hatt. { unfold att. destruct Hreason as [->|(-> & -> & ->)]; done. } clearbody att. subst att. rewrite <- Hn1, <- Hn2.
    case_bool_decide as Hin; [by left|]. right. apply commit_Ok in Hc as [-> _]. apply record_attention_in.
Qed.

Lemma confirm_writes w id now ref provider_order st amount cur event short fresh res o w' :
  confirm_handoff_payment w id now ref provider_order st amount cur event short fresh = Ok (res, o, w') → rtc write1 w w'.
Proof.
  intros Hb. destruct (rows w !! id) as [r|] eqn:Er; [|unfold confirm_handoff_payment in Hb; rewrite Er in Hb; simplify_eq; writes].
  destruct (confirm_inv _ _ _ _ _ _ _ _ _ _ _ _ _ _ _ Er Hb) as [[_ ->]|[(s & s' & status' & creates & w2 & r1 & Hs & Hd & Hex & Hcons & Hcr & s2 & Hs2 & Hc & _)]]; [writes|].
  destruct (seen_event_ok _ _ _ _ Hs) as (Hok1 & Hc1 & _). destruct (confirm_decide_ok _ _ _ _ _ _ _ _ _ _ _ Hd) as (Hok2 & Hc2 & _).
  assert (state_ok (r_state r) → state_ok s2) as Hok. { intros Hok. destruct Hs2 as [->| ->]; [auto|]. eapply state_ok_same; [by apply Hok2, Hok1|done|done]. }
  assert (UcpHandoff.cart s2 = UcpHandoff.cart s') as Hcart by (by destruct Hs2 as [->| ->]).
  assert (executions w' = executions w ∧ ∀ d, d ∈ consumed w → d ∈ consumed w') as [He' Hc'']. { apply commit_Ok in Hc as [-> _]. cbn. by rewrite Hex, Hcons. }
  writes. destruct creates.
  - destruct Hcr as (w1 & Hco & Hr2 & Ho2). destruct (commit_rest _ _ _ _ _ Hr2 Ho2 Hc) as (w3' & Hc' & Hr3 & Ho3). eapply write1_rest; [|exact Hr3|exact Ho3|done|done].
    destruct (complete_into_row _ _ _ _ _ _ _ _ _ Hco) as (_ & Hrev & Hord & _). eapply complete_write; [done|exact Hco|exact Hc'|done|done|done|done].
  - destruct Hcr as (-> & Hr2 & Ho2). destruct (commit_rest _ _ _ _ _ Hr2 Ho2 Hc) as (w3' & Hc' & Hr3 & Ho3). eapply write1_rest; [|exact Hr3|exact Ho3|done|done].
    eapply commit_write; [done|exact Hc'|done|done|done].
Qed.
End system.

(** * The system *)

(** How a merchant is paid: its handlers, the release, and its split payments *)
Record payment_config := { cfg_handlers : list (string * PaymentHandler); cfg_version : string; cfg_split : list (string * pyval); cfg_split_active : bool }.

(** A request that sealed a decision and is about to consume it *)
Record pending := { pd_config : payment_config; pd_session : string; pd_decision : string; pd_revision : Z; pd_total : Z; pd_instruments : list Instrument }.

(** A charge that was started: under which configuration, and for which session as it stood *)
Record charge_start := { cs_config : payment_config; cs_row : Row; cs_execution : Execution }.

(** [charges] is a record of the past that no transaction reads. *)
Record sys := { tables : world; deciding : list pending; charges : list charge_start }.

Definition init : sys := {| tables := {| rows := ∅; orders := ∅; attention := []; consumed := []; executions := [] |}; deciding := []; charges := [] |}.

(** The charge a transaction on [id] started, if it did *)
Definition starting (c : payment_config) (w : world) (id : string) (w' : world) : list charge_start :=
  match rows w !! id, executions w' with
  | Some r, x :: _ => if (length (executions w) <? length (executions w'))%nat then [{| cs_config := c; cs_row := r; cs_execution := x |}] else []
  | _, _ => []
  end.

Section steps.
Context `{PayloadHash} `{PyStr} `{PyInt} (sha256 : string → string).

Definition decides (c : payment_config) := complete_decide (cfg_handlers c) (cfg_version c) (cfg_split c) (cfg_split_active c).
Definition settles (c : payment_config) := payment_settled (cfg_handlers c) (cfg_version c) (cfg_split c) (cfg_split_active c).

(** What a request keeps after its first transaction *)
Definition now_deciding (c : payment_config) (id : string) (instruments : list Instrument) (res : decide_result) : list pending :=
  match res with
  | Decided d rev total => [{| pd_config := c; pd_session := id; pd_decision := d; pd_revision := rev; pd_total := total; pd_instruments := instruments |}]
  | _ => []
  end.

(** A transaction that raises changes nothing and is no step. *)
Inductive step : sys → sys → Prop :=
| step_create w ds cs id cart now ttl ev resp w' : create_checkout w id cart now ttl ev = Ok (resp, w') → step {| tables := w; deciding := ds; charges := cs |} {| tables := w'; deciding := ds; charges := cs |}
| step_update w ds cs id now eval resp w' : update_checkout w id now eval = Ok (resp, w') → step {| tables := w; deciding := ds; charges := cs |} {| tables := w'; deciding := ds; charges := cs |}
| step_cancel w ds cs id now resp w' : cancel_checkout w id now = Ok (resp, w') → step {| tables := w; deciding := ds; charges := cs |} {| tables := w'; deciding := ds; charges := cs |}
| step_decide w ds cs c id now found instruments v res w' : decides c w id now found instruments v = Ok (res, w') →
    step {| tables := w; deciding := ds; charges := cs |} {| tables := w'; deciding := now_deciding c id instruments res ++ ds; charges := cs |}
| step_present w ds cs c id now found instruments d total r allowed resp w' : decides c w id now found instruments (Presented d) = Ok (ToConsume d total, w) →
    rows w !! id = Some r → _consume_and_prepare w id r now d allowed total instruments = Ok (resp, w') → step {| tables := w; deciding := ds; charges := cs |} {| tables := w'; deciding := ds; charges := starting c w id w' ++ cs |}
| step_consume w ds cs p now allowed resp w' : p ∈ ds → complete_consume w (pd_session p) now (pd_decision p) (pd_revision p) (pd_total p) allowed (pd_instruments p) = Ok (resp, w') →
    step {| tables := w; deciding := ds; charges := cs |} {| tables := w'; deciding := ds; charges := starting (pd_config p) w (pd_session p) w' ++ cs |}
| step_apply w ds cs x now res resp w' : x ∈ executions w → _apply_execution w (x_session x) now (x_decision x) res = Ok (resp, w') → step {| tables := w; deciding := ds; charges := cs |} {| tables := w'; deciding := ds; charges := cs |}
| step_reconcile w ds cs id now d order out res w' : reconcile_execution w id now d order out = Ok (res, w') → step {| tables := w; deciding := ds; charges := cs |} {| tables := w'; deciding := ds; charges := cs |}
| step_handoff w ds cs id now settings target_ok cart_url found decision res w' : handoff_decide w id now settings target_ok cart_url found decision = Ok (res, w') →
    step {| tables := w; deciding := ds; charges := cs |} {| tables := w'; deciding := ds; charges := cs |}
| step_reserve w ds cs id now d rev allowed cart_url cred held resp w' : handoff_reserve sha256 w id now d rev allowed cart_url cred held = Ok (resp, w') →
    step {| tables := w; deciding := ds; charges := cs |} {| tables := w'; deciding := ds; charges := cs |}
| step_record w ds cs id now d ref created expires resp w' : handoff_record w id now d ref created expires = Ok (resp, w') →
    step {| tables := w; deciding := ds; charges := cs |} {| tables := w'; deciding := ds; charges := cs |}
| step_confirm w ds cs id now ref provider_order st amount cur event short fresh res o w' :
    confirm_handoff_payment w id now ref provider_order st amount cur event short fresh = Ok (res, o, w') →
    step {| tables := w; deciding := ds; charges := cs |} {| tables := w'; deciding := ds; charges := cs |}.

(** What a sealed decision is good for: the session at that revision, its total and a payment that settles it *)
Definition settled_for (w : world) (p : pending) : Prop :=
  ∃ r, rows w !! pd_session p = Some r ∧ pd_revision p ≤ r_revision r ∧
       (r_revision r = pd_revision p → total_of (totals (UcpHandoff.cart (r_state r))) = Some (pd_total p) ∧
                                       settles (pd_config p) (pd_total p) (r_currency r) (pd_instruments p)).

(** A charge is for the total and in the currency of its session as it stood, and its instruments settle
    that total under the merchant's configuration the request was checked against. *)
Definition execution_settled (k : charge_start) : Prop :=
  let x := cs_execution k in
  total_of (totals (UcpHandoff.cart (r_state (cs_row k)))) = Some (x_total x) ∧ x_currency x = r_currency (cs_row k) ∧
  settles (cs_config k) (x_total x) (x_currency x) (x_instruments x).

Record sys_ok (s : sys) : Prop := {
  sys_world : world_ok (tables s);
  sys_pending : Forall (settled_for (tables s)) (deciding s);
  sys_executions : Forall execution_settled (charges s);
  sys_charges : cs_execution <$> charges s = executions (tables s);
  sys_once : NoDup (x_decision <$> executions (tables s));
  sys_consumed : ∀ x, x ∈ executions (tables s) → x_decision x ∈ consumed (tables s) }.

Lemma decide_settled c w id now found instruments v res w' : decides c w id now found instruments v = Ok (res, w') →
  match res with
  | Decided _ _ total | ToConsume _ total =>
      w' = w ∧ ∃ r, rows w !! id = Some r ∧ total_of (totals (UcpHandoff.cart (r_state r))) = Some total ∧ settles c total (r_currency r) instruments
  | Answered _ => True
  end ∧ match res with Decided _ rev _ => ∃ r, rows w !! id = Some r ∧ r_revision r = rev | _ => True end.
Proof.
  unfold decides, complete_decide. destruct (rows w !! id) as [r|] eqn:Er; [|by intros [= <- <-]]. destruct (_frozen_error r now); [by intros [= <- <-]|].
  case_bool_decide; [by intros [= <- <-]|]. destruct (_catalog_recheck r now found) as [r'|]; [intros Hb; apply bind_Ok in Hb as (w1 & _ & Hb); by simplify_eq|].
  intros Hb. apply bind_Ok in Hb as (total & Ht & Hb). unfold total_in in Ht. inv_ok.
  destruct (completion_messages _ _ _ _ _ _ _) as [[|m ms]|] eqn:Ec; [|by simplify_eq|done]. apply completion_messages_nil in Ec.
  destruct v; try (apply bind_Ok in Hb as (w1 & _ & Hb)); simplify_eq; (split; [|try done; by eexists]); try done; (split; [done|]); by eexists.
Qed.

Lemma starting_none c w id w' : executions w' = executions w → starting c w id w' = [].
Proof. intros E. unfold starting. rewrite E. destruct (rows w !! id); [|done]. destruct (executions w) eqn:Ex; [done|]. by rewrite <- Ex, Nat.ltb_irrefl. Qed.

Lemma starting_one c w id w' r x : starts w w' id r x → starting c w id w' = [{| cs_config := c; cs_row := r; cs_execution := x |}].
Proof. intros [_ _ E _ (Hr & _)]. unfold starting. rewrite Hr, E. cbn [length]. by rewrite (proj2 (Nat.ltb_lt _ _) (Nat.lt_succ_diag_r _)). Qed.

(** Every step only writes, or starts one execution. *)
Lemma step_inv s s' : step s s' →
  (rtc write1 (tables s) (tables s') ∧ charges s' = charges s ∨
   ∃ id r x c, starts (tables s) (tables s') id r x ∧ charges s' = {| cs_config := c; cs_row := r; cs_execution := x |} :: charges s ∧
     ((∃ p, p ∈ deciding s ∧ pd_session p = id ∧ pd_revision p = r_revision r ∧ x_total x = pd_total p ∧ x_instruments x = pd_instruments p ∧ c = pd_config p) ∨
      settles c (x_total x) (r_currency r) (x_instruments x) ∧ total_of (totals (UcpHandoff.cart (r_state r))) = Some (x_total x))) ∧
  (deciding s' = deciding s ∨ ∃ p, deciding s' = p :: deciding s ∧ tables s' = tables s ∧ settled_for (tables s) p).
Proof.
  destruct 1; cbn [tables deciding charges].
  1-3,7-12: split; [left; split; [|done]; first [by eapply create_writes|by eapply update_writes|by eapply cancel_writes|by eapply apply_writes|by eapply reconcile_writes
                                |by eapply handoff_decide_writes|by eapply reserve_writes|by eapply record_writes|by eapply confirm_writes]|by left].
  - split; [left; split; [by eapply decide_writes|done]|]. apply decide_settled in H2 as [Hs Hr]. destruct res; cbn; [by left| |by left].
    destruct Hs as (-> & r & Hr1 & Ht & Hst), Hr as (r2 & Hr2 & <-). right. eexists. split; [done|]. split; [done|]. simplify_eq. exists r. split; [done|]. cbn. split; [lia|done].
  - split; [|by left]. apply decide_settled in H2 as [(_ & r0 & Hr0 & Ht & Hst) _]. simplify_eq. destruct (prepare_starts _ _ _ _ _ _ _ _ _ _ Hr0 H4) as [->|(x & Hx & _ & <- & <-)]; [left; by rewrite starting_none|].
    right. exists id, r0, x, c. split; [done|]. rewrite (starting_one _ _ _ _ _ _ Hx). split; [done|]. by right.
  - split; [|by left]. destruct (consume_starts _ _ _ _ _ _ _ _ _ _ H3) as [->|(r & x & Hrev & Hx & _ & Ht & Hi)]; [left; by rewrite starting_none|].
    right. exists (pd_session p), r, x, (pd_config p). split; [done|]. rewrite (starting_one _ _ _ _ _ _ Hx). split; [done|]. left. by exists p.
Qed.

Lemma rtc_write_ok w w' : world_ok w → rtc write1 w w' → world_ok w'.
Proof. intros Hw. induction 1 as [|a b c Hab _ IH]; [done|]. apply IH. by eapply write1_ok. Qed.
Lemma rtc_write_later w w' : rtc write1 w w' → later w w'.
Proof. induction 1 as [|a b c Hab _ IH]; [reflexivity|]. etrans; [by apply write1_later|done]. Qed.
Lemma rtc_write_quiet w w' : rtc write1 w w' → executions w' = executions w ∧ ∀ d, d ∈ consumed w → d ∈ consumed w'.
Proof. induction 1 as [|a b c [_ [Ha Hb]] _ [IH1 IH2]]; [done|]. rewrite IH1. auto. Qed.

Lemma world_ok_same w w' : rows w' = rows w → orders w' = orders w → world_ok w → world_ok w'.
Proof. intros Hr Ho []. split; unfold other_open; rewrite ?Hr, ?Ho; done. Qed.

Lemma settled_for_later w w' p : later w w' → settled_for w p → settled_for w' p.
Proof.
  intros Hl (r & Hr & Hle & Hs). destruct (Hl _ _ Hr) as (r' & Hr' & Hcase). exists r'. split; [done|]. destruct Hcase as [?| ->]; [|done]. split; [lia|]. intros. lia.
Qed.

Lemma step_ok s s' : sys_ok s → step s s' → sys_ok s'.
Proof.
  intros [Hw Hp Hx He Hn Hc] Hstep. destruct (step_inv _ _ Hstep) as [Heff Hds].
  assert (world_ok (tables s') ∧ later (tables s) (tables s')) as [Hw' Hl].
  { destruct Heff as [[Hr _]|(id & r & x & c & [(w1 & Hw1 & Hrows & Hords) _ _ _ _] & _)]; [split; [by eapply rtc_write_ok|by apply rtc_write_later]|].
    split; [eapply world_ok_same; [exact Hrows|exact Hords|by eapply write1_ok]|]. apply write1_later in Hw1. intros k r0 Hk. rewrite Hrows. by apply Hw1. }
  assert (Forall (settled_for (tables s')) (deciding s')) as Hp'.
  { assert (Forall (settled_for (tables s')) (deciding s)) as Hold by (eapply Forall_impl; [exact Hp|]; intros; by eapply settled_for_later).
    destruct Hds as [->|(p & -> & Hsame & Hset)]; [done|]. constructor; [|done]. by rewrite Hsame. }
  destruct Heff as [[Hr Hch]|(id & r & x & c & [_ Hnew Hex Hcons (Hrow & Hid & Hcur)] & Hch & Hwhy)].
  { apply rtc_write_quiet in Hr as [Hex Hcs]. split; [done|done|by rewrite Hch|by rewrite Hch, Hex|by rewrite Hex|]. intros y. rewrite Hex. auto. }
  assert (execution_settled {| cs_config := c; cs_row := r; cs_execution := x |}) as Hset.
  { destruct Hwhy as [(p & Hpin & Hps & Hrev & Ht & Hi & ->)|[Hs Ht]]; unfold execution_settled; cbn [cs_config cs_row cs_execution]; rewrite Hcur; [|done].
    eapply Forall_forall in Hp as (r0 & Hr0 & _ & Hs); [|exact Hpin]. rewrite Hps, Hrow in Hr0. injection Hr0 as <-.
    destruct (Hs (eq_sym Hrev)) as [Htot Hsettles]. by rewrite Ht, Hi. }
  split; [done|done|rewrite Hch; by constructor|rewrite Hch, Hex; cbn; by rewrite He| |]; rewrite Hex.
  - cbn. constructor; [|done]. intros (y & Hy & Hyin)%list_elem_of_fmap. apply Hnew. rewrite Hy. by apply Hc.
  - intros y [->|Hy]%elem_of_cons; rewrite Hcons; [by constructor|]. constructor. by apply Hc.
Qed.

Lemma init_ok : sys_ok init.
Proof. split; cbn; [split; cbn; intros *; by rewrite lookup_empty|constructor|constructor|done|constructor|]. by intros x ?%not_elem_of_nil. Qed.

Definition reachable (s : sys) : Prop := rtc step init s.

Lemma reachable_sys_ok s : reachable s → sys_ok s.
Proof. intros Hr. unfold reachable in Hr. apply rtc_ind_r with (P := sys_ok) in Hr; [done|apply init_ok|]. intros y z _ Hy Hok. by eapply step_ok. Qed.
End steps.
