(* ===== verification/UcpSafety.v ===== *)
(** What the checkout sessions promise, over every interleaving of their transactions: completed sessions
    are final, a decision is executed at most once and only for a payment that settles the total, and a
    payment of a link is accounted for. Where the code falls short, a run that shows it. *)

From S2P Require Import Prelude PyVal PyText Arbiter LedgerExport UcpMessages UcpDelivery UcpFulfillment UcpPayment UcpCheckout UcpOrders UcpHandoff UcpSession UcpSystem.

Local Open Scope Z_scope.

Section safety.
Context `{PayloadHash} `{PyStr} `{PyInt} (sha256 : string → string).

(** The row and the order of a completed session after any writes *)
Lemma rtc_write_final w w' id r o : world_ok w → rtc write1 w w' → rows w !! id = Some r → r_order r = Some o →
  ∃ r', rows w' !! id = Some r' ∧ r_status r' = completed ∧ r_order r' = Some o ∧ orders w' !! id = orders w !! id.
Proof.
  intros Hw Hrtc. revert r Hw. induction Hrtc as [w|a b c Hab _ IH]; intros r Hw Hr Ho.
  - exists r. split_and!; [done| |done|done]. apply (ok_completed w Hw id r Hr). by eexists.
  - destruct (write1_final _ _ _ _ _ Hw Hab Hr Ho) as (r1 & Hr1 & _ & Ho1 & E1). destruct (IH r1 (write1_ok _ _ Hw Hab) Hr1 Ho1) as (r2 & ? & ? & ? & E2).
    exists r2. split_and!; [done..|by rewrite E2].
Qed.

Lemma step_final s s' id r o : sys_ok s → step sha256 s s' → rows (tables s) !! id = Some r → r_order r = Some o →
  ∃ r', rows (tables s') !! id = Some r' ∧ r_status r' = completed ∧ r_order r' = Some o ∧ orders (tables s') !! id = orders (tables s) !! id.
Proof.
  intros Hs Hstep Hr Ho. destruct (step_inv _ _ _ Hstep) as [[[Hw _]|(k & r0 & x & c & [(w1 & Hw1 & Hrows & Hords) _ _ _ _] & _)] _].
  - eapply rtc_write_final; [apply Hs|done..].
  - rewrite Hrows, Hords. eapply write1_final; [apply Hs|done..].
Qed.

Lemma steps_final s s' id r o : sys_ok s → rtc (step sha256) s s' → rows (tables s) !! id = Some r → r_order r = Some o →
  ∃ r', rows (tables s') !! id = Some r' ∧ r_status r' = completed ∧ r_order r' = Some o ∧ orders (tables s') !! id = orders (tables s) !! id.
Proof.
  intros Hs Hrtc. revert r Hs. induction Hrtc as [s|a b c Hab _ IH]; intros r Hs Hr Ho; [eapply rtc_write_final; [apply Hs|apply rtc_refl|done..]|].
  destruct (step_final _ _ _ _ _ Hs Hab Hr Ho) as (r1 & Hr1 & _ & Ho1 & E1). destruct (IH r1 (step_ok _ _ _ Hs Hab) Hr1 Ho1) as (r2 & ? & ? & ? & E2).
  exists r2. split_and!; [done..|by rewrite E2].
Qed.

End safety.

(** * The total of an order paid by a link *)

Section paid_links.
Context `{PayloadHash} `{PyStr} `{PyInt}.










End paid_links.

(** * A concrete shop *)

Module SessionExample.
Import CheckoutExample.

Definition handler : PaymentHandler :=
  {| handler_name := "h"; entries _ := [{| entry_id := "h1"; available_instruments := ["card"] |}]; accepted_credentials _ := ["token"];
     allowance := {| max_amount_minor_units := None; allowance_currency := None |}; request_constraints _ _ _ := None |}.
Definition card : Instrument :=
  {| instrument_id := "i1"; handler_id := "h1"; type := "card"; credential := Some [("type", VStr "token"); ("token", VStr "t")]; display := []; billing_address := None;
     selected := Some true; amount := None |}.
Definition config : payment_config := {| cfg_handlers := [("h", handler)]; cfg_version := V2026_08_25; cfg_split := []; cfg_split_active := false |}.

(** The tables after a transaction *)
Definition after {R} (t : result session_error (R * world)) (w : world) : world := match t with Ok (_, w') => w' | Err _ => w end.

Definition two_mugs := run 5 [line 2].
Definition one_mug := run 5 [line 1].
Definition pay (d : string) : pending := {| pd_config := config; pd_session := "chk"; pd_decision := d; pd_revision := 1; pd_total := 84800; pd_instruments := [card] |}.

(** A session is created, its decision is sealed and consumed, and the card is charged. *)
Definition created : world := after (create_checkout (tables init) "chk" (Some "cart") 0 100 two_mugs) (tables init).
Definition started : world := after (complete_consume created "chk" 2 "d1" 1 84800 true [card]) created.
Definition charged_ : world := after (_apply_execution started "chk" 3 "d1" (Completed_ "ord")) started.

Abbreviation steps := (rtc (@step hash text int (λ s, s))).
Definition sys_of (w : world) (ds : list pending) (cs : list charge_start) : sys := {| tables := w; deciding := ds; charges := cs |}.

(** The charge of the card, with the session as it stood *)
Definition card_charge : list charge_start := starting config created "chk" started.

Lemma created_steps : steps init (sys_of created [] []).
Proof. apply rtc_once. eapply (step_create _ _ [] [] "chk" (Some "cart") 0 100 two_mugs). vm_compute. reflexivity. Qed.

Lemma started_steps : steps init (sys_of started [pay "d1"] card_charge).
Proof.
  eapply rtc_r; [eapply rtc_r; [apply created_steps|]|].
  - eapply (step_decide _ created [] [] config "chk" 1 None [card] (Sealed "d1")). vm_compute. reflexivity.
  - eapply (step_consume _ created [pay "d1"] [] (pay "d1") 2 true); [by constructor|]. vm_compute. reflexivity.
Qed.

Lemma charged_steps : steps (sys_of started [pay "d1"] card_charge) (sys_of charged_ [pay "d1"] card_charge).
Proof.
  apply rtc_once. eapply (step_apply _ started [pay "d1"] card_charge {| x_session := "chk"; x_decision := "d1"; x_total := 84800; x_currency := Some "INR"; x_instruments := [card] |} 3 (Completed_ "ord")).
  - vm_compute. by constructor.
  - vm_compute. reflexivity.
Qed.

(** A payment link instead: decided, reserved and issued *)
Definition ref : string := handoff_reference (λ s, s) "chk" "d2".
Definition reserved : world := after (@handoff_reserve hash (λ s, s) created "chk" 2 "d2" 1 true None None []) created.
Definition linked : world := after (handoff_record reserved "chk" 3 "d2" ref (Some ("https://pay", "plural-1")) 100) reserved.


Definition confirm (w : world) (now : Z) (order st : string) (amount : Z) (event : string) := 
  @confirm_handoff_payment hash w "chk" now ref order (Some st) (Some amount) (Some "inr") (Some event) false "ord".
End SessionExample.
Import SessionExample.

(** * Claims *)

(** C20. A completed session has one order, and both are final: whatever requests, executors, providers
    and reconciliation do next, in any order, the session stays completed with the same order, and that
    order stays as it was sold. *)
Theorem completed_sessions_are_final `{PayloadHash} `{PyStr} `{PyInt} sha256 s s' id r : reachable sha256 s → rtc (step sha256) s s' →
  rows (tables s) !! id = Some r → r_status r = completed →
  ∃ ord r', orders (tables s) !! id = Some ord ∧ r_order r = Some (o_id ord) ∧
    rows (tables s') !! id = Some r' ∧ r_status r' = completed ∧ r_order r' = Some (o_id ord) ∧ orders (tables s') !! id = Some ord.
Proof.
  intros Hreach Hrtc Hr Hst. pose proof (reachable_sys_ok _ _ Hreach) as Hok. pose proof (sys_world _ Hok) as Hw. destruct (proj1 (ok_completed _ Hw _ _ Hr) Hst) as [o Ho].
  destruct (ok_row_order _ Hw _ _ _ Hr Ho) as (ord & Hord & <-). destruct (steps_final _ _ _ _ _ _ Hok Hrtc Hr Ho) as (r' & ? & ? & ? & E). exists ord, r'. by rewrite E.
Qed.

(** The charged session, asked to complete again and cancelled *)
Lemma completed_sessions_are_final_witness :
  (λ r, (r_status r, r_order r)) <$> rows charged_ !! "chk" = Some (completed, Some "ord") ∧ o_total <$> orders charged_ !! "chk" = Some 84800 ∧
  ∃ r, rows charged_ !! "chk" = Some r ∧ ∃ ord r', orders charged_ !! "chk" = Some ord ∧ r_order r = Some (o_id ord) ∧
    rows charged_ !! "chk" = Some r' ∧ r_status r' = completed ∧ r_order r' = Some (o_id ord) ∧ orders charged_ !! "chk" = Some ord.
Proof.
  split; [vm_compute; reflexivity|]. split; [vm_compute; reflexivity|]. eexists. split; [vm_compute; reflexivity|].
  refine (@completed_sessions_are_final CheckoutExample.hash CheckoutExample.text CheckoutExample.int (λ s, s) (sys_of charged_ [pay "d1"] card_charge) (sys_of charged_ [pay "d1"] card_charge) "chk" _ _ _ _ _).
  - unfold reachable. etrans; [exact started_steps|exact charged_steps].
  - eapply rtc_once. eapply (step_cancel _ charged_ [pay "d1"] card_charge "chk" 9). vm_compute. reflexivity.
  - vm_compute. reflexivity.
  - reflexivity.
Defined.

(** C21. A decision is executed at most once: no two charges share a decision, and each is for a decision
    that is consumed. Each charge was started for the total and in the currency its session had at that
    moment, with instruments that settle that total under the merchant's configuration its request was
    checked against: every instrument is one that a configured handler takes, with a well-formed credential
    the handler accepts and a charge within the handler's allowance, and there is one instrument or a split
    that adds up to the total in an allowed combination. All this however the two transactions of
    [complete_checkout] interleave with everything else. *)
Theorem executions_settled_once `{PayloadHash} `{PyStr} `{PyInt} sha256 s : reachable sha256 s →
  NoDup (x_decision <$> executions (tables s)) ∧ cs_execution <$> charges s = executions (tables s) ∧
  ∀ k, k ∈ charges s → x_decision (cs_execution k) ∈ consumed (tables s) ∧ execution_settled k.
Proof.
  intros [_ _ Hx He Hn Hc]%reachable_sys_ok. split; [done|]. split; [done|]. intros k Hin. split; [|by apply (proj1 (Forall_forall _ _) Hx)].
  apply Hc. rewrite <- He. by apply list_elem_of_fmap_2.
Qed.

Lemma executions_settled_once_witness : (λ x, (x_decision x, x_total x)) <$> executions started = [("d1", 84800)] ∧
  NoDup (x_decision <$> executions started) ∧ cs_execution <$> card_charge = executions started ∧
  ∀ k, k ∈ card_charge → x_decision (cs_execution k) ∈ consumed started ∧ @execution_settled CheckoutExample.text CheckoutExample.int k.
Proof.
  split; [vm_compute; reflexivity|].
  exact (@executions_settled_once CheckoutExample.hash CheckoutExample.text CheckoutExample.int (λ s, s) (sys_of started [pay "d1"] card_charge) started_steps).
Defined.




(** * Where the code falls short *)

Module SessionFindings.
Import CheckoutExample.

(** A charge is under way when its session expires; the cart is checked out again and paid again. *)
Definition again : world := after (create_checkout started "chk2" (Some "cart") 200 100 two_mugs) started.
Definition paid_again : world :=
  let w := after (complete_consume again "chk2" 202 "d2" 1 84800 true [card]) again in after (_apply_execution w "chk2" 203 "d2" (Completed_ "ord2")) w.
Definition both : world := after (_apply_execution paid_again "chk" 204 "d1" (Completed_ "ord1")) paid_again.

(** The buyer is sent to authenticate, and changes the cart before the capture is reported. *)
Definition escalated : world := after (_apply_execution started "chk" 3 "d1" (ActionRequired None (Some "https://3ds"))) started.
Definition repriced : world := after (update_checkout escalated "chk" 4 (λ _, one_mug)) escalated.
Definition reconciled_ : world := after (reconcile_execution repriced "chk" 5 "d1" "ord" captured) repriced.

(** A payment of another provider order fails; then the link is paid with the wrong amount. *)
Definition failed_first : world := after (confirm linked 4 "plural-9" "failed" 84800 "ev1") linked.
Definition paid_later : world := after (confirm failed_first 5 "plural-1" "captured" 100 "ev2") failed_first.
End SessionFindings.
Import SessionFindings.

(** A session whose charge is under way can expire and be cancelled by a new checkout of its cart. The charge
    still makes it an order when its answer arrives, so one cart has two paid orders; when the capture is
    reported by the provider instead, nothing records it. *)
Theorem cancelled_session_is_charged :
  (λ r, (r_status r, r_canceled_at r)) <$> rows again !! "chk" = Some (canceled, Some 200) ∧
  (λ r, (r_status r, r_cart r)) <$> rows both !! "chk" = Some (completed, Some "cart") ∧ (λ r, (r_status r, r_cart r)) <$> rows both !! "chk2" = Some (completed, Some "cart") ∧
  o_total <$> orders both !! "chk" = Some 84800 ∧ o_total <$> orders both !! "chk2" = Some 84800 ∧
  reconcile_execution paid_again "chk" 204 "d1" "ord1" captured = Ok (r_not_applicable, paid_again) ∧ attention paid_again = [].
Proof. split_and!; vm_compute; reflexivity. Qed.

(** A session escalated to the buyer's bank can still be updated, and keeps its decision: the captured
    payment then makes an order of another total than the one that was charged. *)
Theorem escalated_session_is_repriced :
  x_total <$> executions reconciled_ = [84800] ∧ (λ r, (r_status r, r_decision r)) <$> rows reconciled_ !! "chk" = Some (completed, Some "d1") ∧
  o_total <$> orders reconciled_ !! "chk" = Some 44900.
Proof. split_and!; vm_compute; reflexivity. Qed.

(** A failed payment of another provider order is kept as money the merchant holds, and hides the link's real
    payment of a wrong amount when that arrives. *)
Theorem failed_payment_hides_a_paid_one :
  fst <$> confirm linked 4 "plural-9" "failed" 84800 "ev1" = Ok (c_attention order_mismatch, None) ∧
  fst <$> confirm failed_first 5 "plural-1" "captured" 100 "ev2" = Ok (c_attention amount_mismatch, None) ∧
  a_key <$> attention paid_later = ["plural-9"] ∧ a_key <$> attention failed_first = ["plural-9"].
Proof. split_and!; vm_compute; reflexivity. Qed.
