(* ===== verification/UcpIdempotency.v ===== *)
(** Idempotency keys of checkout writes: src/core/commerce/ucp/idempotency.py, and [run] of
    src/core/commerce/ucp/handlers.py, which claims a key, runs the operation and stores the answer.

    A claim is an insert that does nothing on conflict, then, after a conflict, a locked read of the
    row; between the two another request may change the row. *)

From Stdlib Require Import Ascii.
From S2P Require Import Prelude PyVal PyText.

Local Open Scope Z_scope.

(** * Records *)

Definition RETENTION : Z := 48 * 3600 * 1000000.
Definition MAX_KEY_LENGTH : nat := 255.

(** Keys are scoped to the tenant and the merchant. *)
Record Key := { k_tenant : string; k_merchant : string; k_key : string }.

#[global] Instance Key_eq_dec : EqDecision Key.
Proof. solve_decision. Defined.
#[global] Instance Key_countable : Countable Key.
Proof.
  apply (inj_countable' (λ k, (k_tenant k, k_merchant k, k_key k)) (λ p, {| k_tenant := p.1.1; k_merchant := p.1.2; k_key := p.2 |})). by intros [].
Defined.

(** [status]: pending, or complete with the response the check constraint demands *)
Inductive KeyStatus := pending | complete (response_status : Z) (response_body : pyval).
Record KeyRow := { operation : string; body_sha256 : string; status : KeyStatus; created_at : Z; expires_at : Z }.
Abbreviation store_ := (gmap Key KeyRow).

(** Letters, digits, punctuation and the space *)
Definition printable (c : ascii) : bool := (32 <=? Z.of_nat (nat_of_ascii c)) && (Z.of_nat (nat_of_ascii c) <=? 126).
Definition valid_key (key : string) : bool :=
  negb (String.eqb key EmptyString) && (String.length key <=? MAX_KEY_LENGTH)%nat && forallb printable (chars key).

(** * Claiming and storing *)

Inductive Claim := Claimed | Replay (response_status : Z) (response_body : pyval) | ConflictReused | ConflictInProgress.

Definition new_row (op digest : string) (now : Z) : KeyRow :=
  {| operation := op; body_sha256 := digest; status := pending; created_at := now; expires_at := now + RETENTION |}.

(** The insert; [None]: a row is there *)
Definition claim_insert (st : store_) (k : Key) (op digest : string) (now : Z) : option store_ :=
  match st !! k with Some _ => None | None => Some (<[k := new_row op digest now]> st) end.

(** The locked read after a conflict; [None]: the row is gone, the store is unavailable *)
Definition claim_read (st : store_) (k : Key) (op digest : string) (now : Z) : option (Claim * store_) :=
  match st !! k with
  | None => None
  | Some row =>
      if expires_at row <=? now then Some (Claimed, <[k := new_row op digest now]> st)
      else if negb (String.eqb (operation row) op) || negb (String.eqb (body_sha256 row) digest) then Some (ConflictReused, st)
      else match status row with
      | pending => Some (ConflictInProgress, st)
      | complete code body => Some (Replay code body, st)
      end
  end.

(** A claim nothing interrupts *)
Definition claim (st : store_) (k : Key) (op digest : string) (now : Z) : option (Claim * store_) :=
  match claim_insert st k op digest now with Some st' => Some (Claimed, st') | None => claim_read st k op digest now end.

Definition complete_row (code : Z) (body : pyval) (r : KeyRow) : KeyRow :=
  {| operation := operation r; body_sha256 := body_sha256 r; status := complete code body; created_at := created_at r; expires_at := expires_at r |}.

Definition store (st : store_) (k : Key) (code : Z) (body : pyval) : store_ :=
  if 500 <=? code then delete k st else alter (complete_row code body) k st.

Definition prune_expired (st : store_) (now : Z) : store_ := filter (λ kr, now < expires_at kr.2) st.

(** * Requests *)

(** What [run] does for a write with a key, one transaction at a time. [Conflicted]: the insert found a
    row; [Running]: the key is claimed; [Answering]: the operation answered and the answer is about to be
    stored. A request that ran and was not refused keeps the time of its claim. *)
Inductive outcome := Ran (at_ code : Z) (body : pyval) | Crashed (at_ : Z) | Replayed (code : Z) (body : pyval) | Refused (code : Claim) | Unavailable.
Inductive phase := Conflicted | Running (at_ : Z) | Answering (at_ code : Z) (body : pyval) | Finished (o : outcome).

Record Request := { q_key : Key; q_operation : string; q_digest : string }.
Record keys := { table : store_; clock : Z; phases : gmap nat phase }.

Definition after_claim (now : Z) (c : Claim) : phase :=
  match c with Claimed => Running now | Replay code body => Finished (Replayed code body) | c => Finished (Refused c) end.

Section run.
(** The requests, by number, and the longest a request is worked on before its server gives it up *)
Context (req : nat → Request) (timeout : Z).

Abbreviation key i := (q_key (req i)).

Inductive step : keys → keys → Prop :=
| step_tick st now now' ps : now ≤ now' → step {| table := st; clock := now; phases := ps |} {| table := st; clock := now'; phases := ps |}
| step_prune st now ps : step {| table := st; clock := now; phases := ps |} {| table := prune_expired st now; clock := now; phases := ps |}
| step_insert st now ps i : ps !! i = None →
    step {| table := st; clock := now; phases := ps |}
         match claim_insert st (key i) (q_operation (req i)) (q_digest (req i)) now with
         | Some st' => {| table := st'; clock := now; phases := <[i := Running now]> ps |}
         | None => {| table := st; clock := now; phases := <[i := Conflicted]> ps |}
         end
| step_read st now ps i : ps !! i = Some Conflicted →
    step {| table := st; clock := now; phases := ps |}
         match claim_read st (key i) (q_operation (req i)) (q_digest (req i)) now with
         | Some (c, st') => {| table := st'; clock := now; phases := <[i := after_claim now c]> ps |}
         | None => {| table := st; clock := now; phases := <[i := Finished Unavailable]> ps |}
         end
| step_unavailable st now ps i : ps !! i = None ∨ ps !! i = Some Conflicted →
    step {| table := st; clock := now; phases := ps |} {| table := st; clock := now; phases := <[i := Finished Unavailable]> ps |}
| step_answer st now ps i t code body : ps !! i = Some (Running t) →
    step {| table := st; clock := now; phases := ps |} {| table := st; clock := now; phases := <[i := Answering t code body]> ps |}
| step_crash st now ps i t : ps !! i = Some (Running t) →
    step {| table := st; clock := now; phases := ps |} {| table := st; clock := now; phases := <[i := Finished (Crashed t)]> ps |}
| step_store st now ps i t code body : ps !! i = Some (Answering t code body) → now < t + timeout →
    step {| table := st; clock := now; phases := ps |} {| table := store st (key i) code body; clock := now; phases := <[i := Finished (Ran t code body)]> ps |}
| step_store_fails st now ps i t code body : ps !! i = Some (Answering t code body) →
    step {| table := st; clock := now; phases := ps |} {| table := st; clock := now; phases := <[i := Finished (Ran t code body)]> ps |}.

Definition start (now : Z) : keys := {| table := ∅; clock := now; phases := ∅ |}.
Definition reachable (s : keys) : Prop := ∃ now, rtc step (start now) s.

(** When a request claimed its key, and whether it answered that it failed *)
Definition claimed_at (p : phase) : option Z :=
  match p with Running t | Answering t _ _ | Finished (Ran t _ _) | Finished (Crashed t) => Some t | _ => None end.
Definition failed (p : phase) : bool := match p with Finished (Ran _ code _) => 500 <=? code | _ => false end.

(** * What the records promise *)

(** The row of a request that claimed its key and did not fail, until the record expires *)
Definition holds (s : keys) (i : nat) (t : Z) : Prop :=
  ∃ row, table s !! key i = Some row ∧ expires_at row = t + RETENTION ∧ operation row = q_operation (req i) ∧ body_sha256 row = q_digest (req i).

(** Who answered [code] and [body] under a key, an operation and a body, claimed at [t] *)
Definition answered (s : keys) (k : Key) (op digest : string) (t code : Z) (body : pyval) : Prop :=
  ∃ j, phases s !! j = Some (Finished (Ran t code body)) ∧ key j = k ∧ q_operation (req j) = op ∧ q_digest (req j) = digest ∧ code < 500.

Record keys_ok (s : keys) : Prop := {
  ok_past : ∀ i p t, phases s !! i = Some p → claimed_at p = Some t → t ≤ clock s;
  ok_holds : ∀ i p t, phases s !! i = Some p → claimed_at p = Some t → failed p = false → clock s < t + RETENTION → holds s i t;
  ok_apart : ∀ i j p p' t t', i ≠ j → key i = key j → phases s !! i = Some p → phases s !! j = Some p' → claimed_at p = Some t → claimed_at p' = Some t' →
    failed p = false → failed p' = false → t + RETENTION ≤ t' ∨ t' + RETENTION ≤ t;
  ok_complete : ∀ k row code body, table s !! k = Some row → status row = complete code body →
    answered s k (operation row) (body_sha256 row) (expires_at row - RETENTION) code body;
  ok_replayed : ∀ i code body, phases s !! i = Some (Finished (Replayed code body)) → ∃ t, answered s (key i) (q_operation (req i)) (q_digest (req i)) t code body }.

(** Phases move on without touching who answered. *)
Lemma answered_kept st now ps i p st' now' : match ps !! i with Some (Finished _) => False | _ => True end → ∀ k op digest t code body,
  answered {| table := st; clock := now; phases := ps |} k op digest t code body → answered {| table := st'; clock := now'; phases := <[i := p]> ps |} k op digest t code body.
Proof.
  intros Hi k op digest t code body (j & Hj & Hrest). exists j. split; [|done]. cbn in *. rewrite lookup_insert_ne; [done|]. intros ->. by rewrite Hj in Hi.
Qed.

(** A claim at [now]: whoever held the key before has expired. *)
Lemma claim_ok st now ps i : match ps !! i with Some (Finished _) => False | _ => True end →
  keys_ok {| table := st; clock := now; phases := ps |} → (∀ row, st !! key i = Some row → expires_at row ≤ now) →
  keys_ok {| table := <[key i := new_row (q_operation (req i)) (q_digest (req i)) now]> st; clock := now; phases := <[i := Running now]> ps |}.
Proof.
  intros Hi [H1 H2 H3 H4 H5] Hexp. cbn in *.
  assert (∀ j p t, ps !! j = Some p → claimed_at p = Some t → failed p = false → key j = key i → t + RETENTION ≤ now) as Hold.
  { intros j p t Hj Ht Hf Hk. destruct (decide (now < t + RETENTION)) as [Hlt|]; [|lia]. destruct (H2 j p t Hj Ht Hf Hlt) as (row & Hrow & He & _). cbn in Hrow. rewrite Hk in Hrow.
    apply Hexp in Hrow. lia. }
  assert (∀ k op digest t code body, answered {| table := st; clock := now; phases := ps |} k op digest t code body → answered {| table := <[key i := new_row (q_operation (req i)) (q_digest (req i)) now]> st; clock := now; phases := <[i := Running now]> ps |} k op digest t code body) as Hkeep
    by (by apply answered_kept).
  split; cbn.
  - intros j p t [[<- <-]|[_ Hj]]%lookup_insert_Some; [by intros [= <-]|by eapply H1].
  - intros j p t [[<- <-]|[Hne Hj]]%lookup_insert_Some.
    + intros [= <-] _ _. eexists. cbn. rewrite lookup_insert_eq. done.
    + intros Ht Hf Hlt. destruct (decide (key j = key i)) as [Hk|Hk]; [specialize (Hold j p t Hj Ht Hf Hk); lia|]. destruct (H2 j p t Hj Ht Hf Hlt) as (row & Hrow & Hrest).
      exists row. cbn. by rewrite lookup_insert_ne by congruence.
  - intros j l p p' t t' Hne Hk [[<- <-]|[Hj1 Hj]]%lookup_insert_Some [[<- <-]|[Hl1 Hl]]%lookup_insert_Some; [done|..].
    + intros [= <-] Ht' _ Hf'. right. by eapply Hold.
    + intros Ht [= <-] Hf _. left. by eapply Hold.
    + by apply (H3 j l).
  - intros k row code body [[<- <-]|[_ Hrow]]%lookup_insert_Some; [done|]. intros. by apply Hkeep, H4.
  - intros j code body [[<- ?]|[_ Hj]]%lookup_insert_Some; [done|]. destruct (H5 j code body Hj) as (t & Ht). exists t. by apply Hkeep.
Qed.

(** A request moves on and keeps its claim, if it has one. *)
Lemma move_ok st now ps i p : match ps !! i with Some (Finished _) => False | _ => True end →
  (∀ t, claimed_at p = Some t → ∃ p0, ps !! i = Some p0 ∧ claimed_at p0 = Some t ∧ failed p0 = false) →
  (∀ code body, p = Finished (Replayed code body) → ∃ t, answered {| table := st; clock := now; phases := ps |} (key i) (q_operation (req i)) (q_digest (req i)) t code body) →
  keys_ok {| table := st; clock := now; phases := ps |} → keys_ok {| table := st; clock := now; phases := <[i := p]> ps |}.
Proof.
  intros Hi Hsame Hrep [H1 H2 H3 H4 H5]. pose proof (answered_kept st now ps i p st now Hi) as Hkeep.
  assert (∀ j q t, <[i := p]> ps !! j = Some q → claimed_at q = Some t → failed q = false → ∃ q0, ps !! j = Some q0 ∧ claimed_at q0 = Some t ∧ failed q0 = false) as Hbefore.
  { intros j q t [[<- <-]|[_ Hj]]%lookup_insert_Some Ht Hf; [by apply Hsame|by exists q]. }
  split; cbn.
  - intros j q t [[<- <-]|[_ Hj]]%lookup_insert_Some Ht; [|by eapply H1]. destruct (Hsame t Ht) as (p0 & ? & ? & _). by eapply H1.
  - intros j q t Hj Ht Hf. destruct (Hbefore j q t Hj Ht Hf) as (q0 & Hq & Hqt & Hqf). by apply (H2 j q0).
  - intros j l q q' t t' Hne Hk Hj Hl Ht Ht' Hf Hf'. destruct (Hbefore j q t Hj Ht Hf) as (q0 & ? & ? & ?). destruct (Hbefore l q' t' Hl Ht' Hf') as (q1 & ? & ? & ?). by apply (H3 j l q0 q1).
  - intros k row code body Hrow Hst. by apply Hkeep, H4.
  - intros j code body [[<- Hp]|[_ Hj]]%lookup_insert_Some; [destruct (Hrep code body Hp) as (t & ?)|destruct (H5 j code body Hj) as (t & ?)]; exists t; by apply Hkeep.
Qed.

(** The answer is stored in the row of the claim, or takes the row away. *)
Lemma store_ok st now ps i t code body : ps !! i = Some (Answering t code body) → now < t + RETENTION →
  keys_ok {| table := st; clock := now; phases := ps |} → keys_ok {| table := store st (key i) code body; clock := now; phases := <[i := Finished (Ran t code body)]> ps |}.
Proof.
  intros Hi Hlt Hok. assert (keys_ok {| table := st; clock := now; phases := <[i := Finished (Ran t code body)]> ps |}) as [H1 H2 H3 H4 H5].
  { apply move_ok; [by rewrite Hi| |done|done]. intros t' [= <-]. by exists (Answering t code body). }
  destruct (ok_holds _ Hok i _ t Hi eq_refl eq_refl Hlt) as (row & Hrow & He & Hop & Hd). cbn in *. unfold store. destruct (Z.leb_spec 500 code) as [Hc|Hc].
  - split; [done| |done| |done]; cbn.
    + intros j p t' Hj Ht' Hf Hlt'. destruct (decide (key j = key i)) as [Hk|Hk].
      * apply lookup_insert_Some in Hj as [[<- <-]|[Hne Hj]]; [cbn in Hf; lia|]. pose proof (ok_past _ Hok j p t' Hj Ht'). cbn in *.
        destruct (ok_apart _ Hok j i p _ t' t (not_eq_sym Hne) Hk Hj Hi Ht' eq_refl Hf eq_refl); pose proof (ok_past _ Hok i _ t Hi eq_refl); cbn in *; lia.
      * destruct (H2 j p t' Hj Ht' Hf Hlt') as (row' & Hrow' & Hrest). exists row'. cbn. by rewrite lookup_delete_ne by congruence.
    + intros k row' code' body' [_ Hrow']%lookup_delete_Some Hst. by apply H4.
  - split; [done| |done| |done]; cbn.
    + intros j p t' Hj Ht' Hf Hlt'. destruct (H2 j p t' Hj Ht' Hf Hlt') as (row' & Hrow' & Hrest). cbn in Hrow'. destruct (decide (key j = key i)) as [Hk|Hk].
      * exists (complete_row code body row'). cbn. rewrite Hk in *. rewrite lookup_alter_eq, Hrow'. done.
      * exists row'. cbn. by rewrite lookup_alter_ne by congruence.
    + intros k row' code' body' Hrow' Hst. destruct (decide (k = key i)) as [->|Hk].
      * rewrite lookup_alter_eq, Hrow in Hrow'. injection Hrow' as <-. cbn in *. injection Hst as <- <-. exists i. cbn. rewrite lookup_insert_eq. split_and!; [|done..|done].
        do 3 f_equal. lia.
      * rewrite lookup_alter_ne in Hrow' by done. by apply H4.
Qed.

Lemma step_keys_ok s s' : timeout ≤ RETENTION → keys_ok s → step s s' → keys_ok s'.
Proof.
  intros Htime Hok Hstep. destruct Hstep as [st now now' ps Hle|st now ps|st now ps i Hi|st now ps i Hi|st now ps i Hi|st now ps i t code body Hi|st now ps i t Hi|st now ps i t code body Hi Hlt|st now ps i t code body Hi].
  - destruct Hok as [H1 H2 H3 H4 H5]. split; cbn in *; [|intros; eapply H2; [done..|lia]|done..]. intros i p t Hi Ht. specialize (H1 i p t Hi Ht). lia.
  - destruct Hok as [H1 H2 H3 H4 H5]. split; cbn in *; [done| |done| |done].
    + intros i p t Hi Ht Hf Hlt. destruct (H2 i p t Hi Ht Hf Hlt) as (row & Hrow & He & Hrest). exists row. split; [|done]. apply map_lookup_filter_Some. cbn in *. split; [done|lia].
    + intros k row code body [Hrow _]%map_lookup_filter_Some Hst. by apply H4.
  - unfold claim_insert. destruct (st !! key i) as [row|] eqn:Erow.
    + apply move_ok; [by rewrite Hi|done|done|done].
    + apply claim_ok; [by rewrite Hi|done|]. by rewrite Erow.
  - unfold claim_read. destruct (st !! key i) as [row|] eqn:Erow; [|by apply move_ok; [rewrite Hi|..]]. destruct (Z.leb_spec (expires_at row) now) as [He|He].
    { apply claim_ok; [by rewrite Hi|done|]. rewrite Erow. by intros ? [= <-]. }
    destruct (negb _ || negb _) eqn:Eb; [by apply move_ok; [rewrite Hi|..]|]. apply orb_false_iff in Eb as [?%negb_false_iff%String.eqb_eq ?%negb_false_iff%String.eqb_eq].
    destruct (status row) as [|code body] eqn:Est; apply move_ok; [by rewrite Hi|done|done|done|by rewrite Hi|done| |done].
    intros ? ? [= <- <-]. pose proof (ok_complete _ Hok (key i) row code body Erow Est) as Ha. eexists. by rewrite <- H, <- H0.
  - apply move_ok; [by destruct Hi as [-> | ->]|done|done|done].
  - apply move_ok; [by rewrite Hi| |done|done]. intros t' [= <-]. by eexists.
  - apply move_ok; [by rewrite Hi| |done|done]. intros t' [= <-]. by eexists.
  - apply store_ok; [done|lia|done].
  - apply move_ok; [by rewrite Hi| |done|done]. intros t' [= <-]. by eexists.
Qed.

Lemma reachable_keys_ok s : timeout ≤ RETENTION → reachable s → keys_ok s.
Proof.
  intros Htime (now & Hrtc). assert (keys_ok (start now)) as Hstart.
  { split; cbn; intros *; rewrite ?lookup_empty; done. }
  clear -Htime Hrtc Hstart. remember (start now) as s0 eqn:E. clear E. induction Hrtc as [|a b c Hab _ IH]; [done|]. apply IH. by eapply step_keys_ok.
Qed.
End run.

(** C24. A write runs once per key. Of two requests with one key, whatever else runs in between, crashes
    or fails to be stored, at most one runs the operation within the 48 hours of a claim, unless one of
    them answered 500 or above; a replayed answer is the answer of another request that ran the same
    operation with the same body under the key, and no failure. *)
Theorem write_runs_once req timeout s : timeout ≤ RETENTION → reachable req timeout s →
  (∀ i j p p' t t', i ≠ j → q_key (req i) = q_key (req j) → phases s !! i = Some p → phases s !! j = Some p' → claimed_at p = Some t → claimed_at p' = Some t' →
     failed p = false → failed p' = false → t + RETENTION ≤ t' ∨ t' + RETENTION ≤ t) ∧
  (∀ i code body, phases s !! i = Some (Finished (Replayed code body)) →
     ∃ j t, i ≠ j ∧ phases s !! j = Some (Finished (Ran t code body)) ∧ q_key (req j) = q_key (req i) ∧ q_operation (req j) = q_operation (req i) ∧
       q_digest (req j) = q_digest (req i) ∧ code < 500).
Proof.
  intros Htime Hreach. destruct (reachable_keys_ok _ _ _ Htime Hreach) as [_ _ H3 _ H5]. split; [exact H3|].
  intros i code body Hi. destruct (H5 i code body Hi) as (t & j & Hj & Hrest). exists j, t. split; [|done]. intros ->. congruence.
Qed.

Module KeyExample.
Definition k : Key := {| k_tenant := "t"; k_merchant := "m"; k_key := "abc" |}.
Definition same (_ : nat) : Request := {| q_key := k; q_operation := "create_checkout:"; q_digest := "d" |}.
Definition hour : Z := 3600 * 1000000.

(** Three requests with one key: the first runs, the second comes meanwhile, the third afterwards. *)
Definition last : keys :=
  {| table := {[ k := complete_row 201 VNone (new_row "create_checkout:" "d" 0) ]}; clock := 2;
     phases := <[0%nat := Finished (Ran 0 201 VNone)]> (<[1%nat := Finished (Refused ConflictInProgress)]> {[ 2%nat := Finished (Replayed 201 VNone) ]}) |}.

Ltac go := eapply rtc_l; [|].
Lemma last_reachable : reachable same hour last.
Proof.
  exists 0. go; [by apply (step_insert _ _ ∅ 0 ∅ 0)|]. go; [by apply (step_insert _ _ _ _ _ 1)|]. go; [by apply (step_read _ _ _ _ _ 1)|].
  go; [by apply (step_answer _ _ _ _ _ 0 0 201 VNone)|]. go; [by apply (step_store _ _ _ _ _ 0 0 201 VNone)|]. go; [by apply (step_tick _ _ _ _ 2)|].
  go; [by apply (step_insert _ _ _ _ _ 2)|]. go; [by apply (step_read _ _ _ _ _ 2)|]. vm_compute. apply rtc_refl.
Qed.
End KeyExample.
Import KeyExample.

Lemma write_runs_once_witness : ∃ j t, (2 ≠ j)%nat ∧ phases last !! j = Some (Finished (Ran t 201 VNone)) ∧ q_digest (same j) = "d" ∧ 201 < 500.
Proof.
  destruct (write_runs_once same hour last ltac:(vm_compute; discriminate) last_reachable) as [_ H].
  destruct (H 2%nat 201 VNone eq_refl) as (j & t & Hne & Hj & _ & _ & Hd & Hc). exists j, t. split; [exact Hne|]. split; [exact Hj|]. split; [exact Hd|exact Hc].
Defined.

(** The module says a response of 500 or above releases the key so that the client can retry. A request that
    raises instead of answering (its client sees a 500 all the same) leaves its claim: every retry within
    48 hours is told that it is still in progress. *)
Theorem raised_request_keeps_its_key st k op digest now later_ : st !! k = None → now ≤ later_ < now + RETENTION →
  ∃ st', claim st k op digest now = Some (Claimed, st') ∧ claim st' k op digest later_ = Some (ConflictInProgress, st').
Proof.
  intros Hk [Hle Hlt]. unfold claim at 1, claim_insert. rewrite Hk. eexists. split; [done|]. unfold claim, claim_insert, claim_read. rewrite lookup_insert_eq. cbn.
  destruct (Z.leb_spec (now + RETENTION) later_); [lia|]. by rewrite !String.eqb_refl.
Qed.
