(* ===== verification/UcpStock.v ===== *)
(** Stock at completion: src/core/commerce/ucp/catalog_recheck.py, and [held_stock], [sold_since_sync],
    [_held_stock_messages] and [_stock_short_at_payment] of src/core/commerce/ucp/handlers.py.

    The shop's catalogue is an argument. Messages carry their code and path; their texts, which name
    how many are left and until when, are left out. *)

From S2P Require Import Prelude PyVal PyText Arbiter LedgerExport UcpMessages UcpQuantity UcpFulfillment UcpPayment UcpCheckout UcpOrders UcpHandoff UcpSession UcpSystem UcpSafety.

Local Open Scope Z_scope.

(** * The catalogue as it is now *)

Definition priced_as (l : Line) (cur : option string) (item : CatalogItem) : bool :=
  (price_minor_units item =? item_price l) && (negb (given cur) || bool_decide (cur = Some (item_currency item))).

Definition line_changes (found : list (string * CatalogItem)) (cur : option string) (index : nat) (l : Line) : list message :=
  match assoc (item_id l) found with
  | None => [recoverable "item_unavailable" (line_path index)]
  | Some item =>
      (if priced_as l cur item then [] else [recoverable "price_changed" (line_path index)]) ++
      match inventory item with
      | Some n => if n <? whole_units (line_quantity l) (quantity_unit item) then [recoverable "out_of_stock" (line_path index)] else []
      | None => []
      end
  end.

Definition changes (lines : list Line) (found : list (string * CatalogItem)) (cur : option string) : list message := concat (imap (line_changes found cur) lines).

Definition catalog_changes (lookup : list string → list (string * CatalogItem)) (st : State) : list message :=
  match line_items st with
  | [] => []
  | ls => changes ls (lookup (List.filter (λ i, negb (String.eqb i EmptyString)) (item_id <$> ls))) (currency st)
  end.

Definition message_path (m : message) : string := match m with MError _ _ p | MWarning _ p | MInfo _ p => p end.

(** What the re-priced checkout does not already say of a line *)
Definition not_repeated (found kept : list message) : list message :=
  let stated := message_path <$> List.filter is_error kept in
  match List.filter (λ m, String.eqb (code m) "price_changed" || negb (bool_decide (message_path m ∈ stated))) found with
  | [] => [MInfo "catalog_changed" EmptyString]
  | out => out
  end.

(** * Stock that is held or sold *)

Definition HELD_STOCK_SCAN_LIMIT : nat := 500.
Definition SOLD_SINCE_SYNC_SCAN_LIMIT : nat := 500.

(** A hold: the item, the quantity and until when. The holds of an item, in the order they were read *)
Definition hold := (string * (Z * Z))%type.
Definition held_of (holds : list hold) (i : string) : list (Z * Z) := snd <$> List.filter (λ h, String.eqb h.1 i) holds.

Record HeldStock := { holds : list hold; truncated : bool }.

(** A session that may hold stock for someone else *)
Definition may_hold (exclude : string) (now : Z) (kr : string * Row) : bool :=
  bool_decide (r_status kr.2 ∈ [requires_escalation; complete_in_progress]) && (now <? r_expires kr.2) && (now - PLURAL_LINK_TTL <=? r_updated kr.2) &&
  negb (String.eqb kr.1 exclude).

Definition holds_of (item_ids : list string) (now : Z) (st : HandoffState) : list hold :=
  match held_until st now with
  | None => []
  | Some until => (λ l, (item_id l, (line_quantity l, until))) <$> List.filter (λ l, bool_decide (item_id l ∈ item_ids) && (0 <? line_quantity l)) (line_items (UcpHandoff.cart st))
  end.

Definition held_stock (w : world) (exclude : string) (item_ids : list string) (now : Z) : HeldStock :=
  let found := sort_by (λ a b, r_updated b.2 <=? r_updated a.2) (List.filter (may_hold exclude now) (map_to_list (rows w))) in
  {| holds := kr ← take HELD_STOCK_SCAN_LIMIT found; holds_of item_ids now (r_state kr.2); truncated := (HELD_STOCK_SCAN_LIMIT <? length found)%nat |}.

(** [synced]: when the catalogue was last read; [orders]: the merchant's orders, newest first, with the time each was created *)
Definition sold_lines (item_ids : list string) (s : Snapshot) : list (string * Z) :=
  (λ l, (ol_item l, total (ol_quantity l))) <$> List.filter (λ l, bool_decide (ol_item l ∈ item_ids) && (0 <? total (ol_quantity l))) (order_lines s).
Definition sold_of (sold : list (string * Z)) (i : string) : Z := foldr Z.add 0 (snd <$> List.filter (λ x, String.eqb x.1 i) sold).

Definition sold_since_sync (synced : option Z) (orders : list (Z * Snapshot)) (item_ids : list string) : list (string * Z) * bool :=
  match synced, item_ids with
  | None, _ | _, [] => ([], false)
  | Some t, _ =>
      let found := List.filter (λ o, t <? o.1) orders in
      (o ← take SOLD_SINCE_SYNC_SCAN_LIMIT found; sold_lines item_ids o.2, (SOLD_SINCE_SYNC_SCAN_LIMIT <? length found)%nat)
  end.

Definition held_units (item : CatalogItem) (l : list (Z * Z)) : Z := foldr Z.add 0 ((λ h, whole_units h.1 (quantity_unit item)) <$> l).

Definition held_stock_line (found : list (string * CatalogItem)) (held : list hold) (sold : list (string * Z)) (index : nat) (l : Line) : list message :=
  match assoc (item_id l) found with
  | None => []
  | Some item =>
      match inventory item with
      | None => []
      | Some n =>
          let hs := held_of held (item_id l) in
          let sold_units := sold_of sold (item_id l) in
          if bool_decide (hs = []) && (sold_units =? 0) then []
          else if whole_units (line_quantity l) (quantity_unit item) <=? n - sold_units - held_units item hs then []
          else [recoverable "out_of_stock" (line_path index)]
      end
  end.

Definition held_stock_changes (lines : list Line) (found : list (string * CatalogItem)) (held : list hold) (sold : list (string * Z)) : list message :=
  concat (imap (held_stock_line found held sold) lines).

Definition stock_unconfirmed (lines : list Line) (tracked : list string) : list message :=
  concat (imap (λ index l, if bool_decide (item_id l ∈ tracked) then [recoverable "out_of_stock" (line_path index)] else []) lines).

Definition tracked_ids (found : list (string * CatalogItem)) : list string := fst <$> List.filter (λ kv, bool_decide (is_Some (inventory kv.2))) found.

(** The items of the lines, as the catalogue has them *)
Definition stock_ids (ls : list Line) : list string := List.filter (λ i, negb (String.eqb i EmptyString)) (remove_dups (item_id <$> ls)).
Definition stock_items (lookup : list string → list (string * CatalogItem)) (ls : list Line) : list (string * CatalogItem) :=
  match stock_ids ls with [] => [] | ids => lookup (sort_by String.leb ids) end.

Definition _held_stock_messages (lookup : list string → list (string * CatalogItem)) (synced : option Z) (orders : list (Z * Snapshot)) (w : world) (id : string) (st : State) (now : Z) : list message :=
  let ls := line_items st in
  let found := stock_items lookup ls in
  let tracked := tracked_ids found in
  if bool_decide (tracked = []) then []
  else
    let held := held_stock w id tracked now in
    let '(sold, sold_truncated) := sold_since_sync synced orders tracked in
    if truncated held || sold_truncated then stock_unconfirmed ls tracked else held_stock_changes ls found (holds held) sold.

(** ** At payment *)

Definition less_sold (sold : list (string * Z)) (kv : string * CatalogItem) : string * CatalogItem :=
  let item := kv.2 in
  (kv.1, match inventory item with
         | Some n => {| title := title item; price_minor_units := price_minor_units item; item_currency := item_currency item; inventory := Some (n - sold_of sold kv.1);
                        image_url := image_url item; quantity_unit := quantity_unit item; storefront_variant_token := storefront_variant_token item |}
         | None => item
         end).

(** The lines, by position, the stock no longer covers *)
Definition stock_short_lines (lookup : list string → list (string * CatalogItem)) (st : State) (sold : list (string * Z)) : list (nat * Line) :=
  match line_items st with
  | [] => []
  | ls =>
      let found := less_sold sold <$> lookup (List.filter (λ i, negb (String.eqb i EmptyString)) (item_id <$> ls)) in
      List.filter (λ il, existsb (λ m, String.eqb (code m) "out_of_stock") (line_changes found (currency st) il.1 il.2)) (imap pair ls)
  end.

(** * Links never promise more than the stock *)

Definition zsum (l : list Z) : Z := foldr Z.add 0 l.

Lemma zsum_app a b : zsum (a ++ b) = zsum a + zsum b.
Proof. unfold zsum. induction a as [|x a IH]; cbn; [done|]. lia. Qed.

#[global] Instance zsum_Permutation : Proper ((≡ₚ) ==> (=)) zsum.
Proof. unfold zsum. induction 1; cbn; lia. Qed.

Lemma zsum_filter {A} (p : A → bool) (f : A → Z) l : zsum (f <$> List.filter p l) = zsum ((λ x, if p x then f x else 0) <$> l).
Proof. unfold zsum. induction l as [|x l IH]; cbn; [done|]. destruct (p x); cbn; lia. Qed.

(** What a session holds of an item while it may be paid for *)
Definition holding (now : Z) (r : Row) : bool :=
  bool_decide (r_status r ∈ [requires_escalation; complete_in_progress]) && (now <? r_expires r) && (now - PLURAL_LINK_TTL <=? r_updated r).
Definition lines_units (i : string) (item : CatalogItem) (ls : list Line) : Z :=
  zsum ((λ l, whole_units (line_quantity l) (quantity_unit item)) <$> List.filter (λ l, String.eqb (item_id l) i && (0 <? line_quantity l)) ls).
Definition row_units (i : string) (item : CatalogItem) (now : Z) (st : HandoffState) : Z :=
  match held_until st now with None => 0 | Some _ => lines_units i item (line_items (UcpHandoff.cart st)) end.

(** The units of an item promised to the buyers of all sessions *)
Definition promised (i : string) (item : CatalogItem) (now : Z) (rs : gmap string Row) : Z :=
  zsum ((λ kr, if holding now kr.2 then row_units i item now (r_state kr.2) else 0) <$> map_to_list rs).

Lemma held_of_app a b i : held_of (a ++ b) i = held_of a i ++ held_of b i.
Proof. unfold held_of. by rewrite List.filter_app, fmap_app. Qed.
Lemma held_units_app item a b : held_units item (a ++ b) = held_units item a + held_units item b.
Proof. unfold held_units. rewrite fmap_app. apply zsum_app. Qed.

Lemma holds_of_units ids i item now st : i ∈ ids → held_units item (held_of (holds_of ids now st) i) = row_units i item now st.
Proof.
  intros Hi. unfold row_units, holds_of. destruct (held_until st now) as [u|]; [|done]. unfold lines_units, held_units, held_of. fold (zsum).
  induction (line_items (UcpHandoff.cart st)) as [|l ls IH]; [done|]. cbn [List.filter]. destruct (String.eqb_spec (item_id l) i) as [E|Hne]; cbn [andb].
  - rewrite bool_decide_true by (by rewrite E). cbn [andb]. destruct (0 <? line_quantity l); [|exact IH]. cbn. rewrite (proj2 (String.eqb_eq _ _) E). cbn. by rewrite IH.
  - destruct (bool_decide _ && _); [|exact IH]. cbn. destruct (String.eqb_spec (item_id l) i); [done|]. exact IH.
Qed.

Lemma holds_units ids i item now (l : list (string * Row)) : i ∈ ids →
  held_units item (held_of (l ≫= λ kr, holds_of ids now (r_state kr.2)) i) = zsum ((λ kr, row_units i item now (r_state kr.2)) <$> l).
Proof.
  intros Hi. induction l as [|kr l IH]; [done|]. rewrite bind_cons, held_of_app, held_units_app, holds_of_units, IH by done. done.
Qed.

(** What others hold, when the scan was not cut short *)
Lemma held_stock_units w id r ids i item now : rows w !! id = Some r → i ∈ ids → truncated (held_stock w id ids now) = false →
  held_units item (held_of (holds (held_stock w id ids now)) i) = promised i item now (delete id (rows w)).
Proof.
  intros Hr Hi. unfold held_stock. cbn [truncated holds]. intros Ht. apply Nat.ltb_ge in Ht. rewrite take_ge by done. rewrite holds_units by done.
  rewrite sort_by_Permutation, zsum_filter. unfold promised. rewrite <- (insert_delete_id (rows w) id r Hr) at 1. rewrite map_to_list_insert by apply lookup_delete_eq. cbn.
  unfold may_hold at 1. cbn. rewrite String.eqb_refl. cbn. rewrite andb_false_r. rewrite Z.add_0_l. unfold zsum. f_equal. apply list_fmap_ext. intros n [k r'] Hk.
  assert (k ≠ id) as Hne. { apply list_elem_of_lookup_2, elem_of_map_to_list in Hk. intros ->. by rewrite lookup_delete_eq in Hk. }
  unfold may_hold, holding. cbn. destruct (String.eqb_spec k id); [done|]. cbn. by rewrite andb_true_r.
Qed.

Lemma promised_insert w id r' i item now :
  promised i item now (<[id := r']> (rows w)) = (if holding now r' then row_units i item now (r_state r') else 0) + promised i item now (delete id (rows w)).
Proof. unfold promised. rewrite <- insert_delete_eq, map_to_list_insert by apply lookup_delete_eq. done. Qed.

Lemma held_until_creating s now h : UcpHandoff.handoff s = Some h → handoff_status h = creating → mode h = plural_hosted → is_Some (held_until s now).
Proof.
  intros Hh Hc Hm. unfold held_until. rewrite Hh, Hc, Hm. rewrite !bool_decide_true by done. cbn [andb]. generalize (now + PLURAL_LINK_TTL).
  induction (handoff_orders s) as [|kv l IH]; intros z; [by eexists|]. cbn [foldl]. destruct (payable _); [|apply IH]. destruct (expires_at _) as [e|]; [|apply IH].
  destruct (now <? e); [|apply IH]. unfold later_of. destruct (z <? e); apply IH.
Qed.

(** A link is reserved only when no message speaks against it; the session then holds its lines. *)
Lemma reserve_holds `{PayloadHash} sha256 w id r now d rev allowed cred held w' : rows w !! id = Some r →
  handoff_reserve sha256 w id now d rev allowed None cred held = Ok (rendered, w') →
  held = [] ∧ ∃ r', rows w' = <[id := r']> (rows w) ∧ holding now r' = true ∧ UcpHandoff.cart (r_state r') = UcpHandoff.cart (r_state r) ∧ is_Some (held_until (r_state r') now).
Proof.
  intros Hr. unfold handoff_reserve. rewrite Hr. destruct (_frozen_error r now) eqn:Ef; [done|]. destruct (negb _ || _) eqn:Es; [done|].
  apply orb_false_iff in Es as [_ Es%bool_decide_eq_false]. destruct (bool_decide (_ = None) && _) eqn:Eh; [done|]. destruct (_ || _); [done|].
  intros Hb. apply bind_Ok in Hb as (r' & Hr' & Hb). apply bind_Ok in Hb as (w1 & Hc & [= <-]). apply bind_Ok in Hr' as (total & _ & [= <-]).
  unfold commit in Hc. inv_ok. split; [by destruct held|]. eexists. split; [done|]. split; [|split].
  - unfold holding. cbn. apply bool_decide_eq_false in Ef. unfold effective_status, lapsed, is_open in Ef. destruct (Z.leb_spec (r_expires r) now) as [Hle|Hlt].
    + exfalso. apply dec_stable in Es. rewrite bool_decide_true in Ef; [cbn in Ef; apply Ef; unfold FROZEN; set_solver|]. unfold TERMINAL.
      rewrite !elem_of_cons, !elem_of_nil in *. intros Ht. destruct (r_status r); naive_solver.
    + rewrite !andb_true_iff. split_and!; [done|lia|]. unfold PLURAL_LINK_TTL. lia.
  - cbn. unfold replace_handoff. destruct (bool_decide (r_status r = requires_escalation)); [|done]. destruct (UcpHandoff.handoff (r_state r)) as [h|]; [|done].
    destruct (bool_decide (mode h = _) && _); [|done]. cbn. unfold remember_link. by case_match.
  - by eapply held_until_creating.
Qed.

(** What no message about held stock means for a line of a tracked item *)
Lemma held_stock_messages_nil lookup synced orders w id r st now n l item inv : rows w !! id = Some r → line_items st !! n = Some l →
  let found := stock_items lookup (line_items st) in
  _held_stock_messages lookup synced orders w id st now = [] → changes (line_items st) found (currency st) = [] →
  assoc (item_id l) found = Some item → inventory item = Some inv →
  whole_units (line_quantity l) (quantity_unit item) + promised (item_id l) item now (delete id (rows w)) +
    sold_of (sold_since_sync synced orders (tracked_ids found)).1 (item_id l) ≤ inv.
Proof.
  intros Hr Hl found Hm Hch Ha Hinv.
  assert (item_id l ∈ tracked_ids found) as Htr.
  { apply assoc_elem_of in Ha as Hel. apply list_elem_of_fmap. exists (item_id l, item). split; [done|]. apply list_elem_of_In, filter_In. rewrite <- list_elem_of_In. split; [done|]. apply bool_decide_eq_true. by eexists. }
  unfold _held_stock_messages in Hm. fold found in Hm. rewrite bool_decide_false in Hm by (intros E; rewrite E in Htr; by apply elem_of_nil in Htr).
  destruct (sold_since_sync synced orders (tracked_ids found)) as [sold strunc]. cbn [fst]. destruct (truncated _ || strunc) eqn:Et.
  { pose proof (concat_imap_nil _ _ Hm n l Hl) as Hn. cbn in Hn. by rewrite bool_decide_true in Hn. }
  apply orb_false_iff in Et as [Et _]. rewrite <- (held_stock_units w id r (tracked_ids found) (item_id l) item now Hr Htr Et).
  pose proof (concat_imap_nil _ _ Hm n l Hl) as Hn. pose proof (concat_imap_nil _ _ Hch n l Hl) as Hc. unfold held_stock_line in Hn. unfold line_changes in Hc. rewrite Ha, Hinv in Hn, Hc.
  apply app_nil in Hc as [_ Hc]. destruct (Z.ltb_spec inv (whole_units (line_quantity l) (quantity_unit item))); [done|].
  destruct (bool_decide (_ = []) && _) eqn:Eb.
  - apply andb_true_iff in Eb as [Eb%bool_decide_eq_true Es%Z.eqb_eq]. rewrite Eb, Es. cbn. lia.
  - destruct (Z.leb_spec (whole_units (line_quantity l) (quantity_unit item)) (inv - sold_of sold (item_id l) - held_units item (held_of (holds (held_stock w id (tracked_ids found) now)) (item_id l)))); [lia|done].
Qed.

Lemma lines_units_absent i item ls : i ∉ item_id <$> ls → lines_units i item ls = 0.
Proof.
  unfold lines_units. induction ls as [|l ls IH]; [done|]. cbn [fmap list_fmap List.filter]. rewrite not_elem_of_cons. intros [Hne Hls].
  rewrite (proj2 (String.eqb_neq _ _)) by congruence. cbn [andb]. by apply IH.
Qed.

Lemma lines_units_once item ls n l : NoDup (item_id <$> ls) → ls !! n = Some l → 0 < line_quantity l →
  lines_units (item_id l) item ls = whole_units (line_quantity l) (quantity_unit item).
Proof.
  intros Hnd Hl Hq. revert n Hl. induction ls as [|x ls IH]; intros [|n] Hl; [done..| |]; cbn in Hnd; apply NoDup_cons in Hnd as [Hx Hnd]; cbn in Hl.
  - injection Hl as ->. pose proof (lines_units_absent (item_id l) item ls Hx) as Habs. unfold lines_units in *. cbn [List.filter]. rewrite String.eqb_refl. destruct (Z.ltb_spec 0 (line_quantity l)); [|lia].
    cbn [andb]. rewrite fmap_cons. change (zsum (?a :: ?b)) with (a + zsum b). rewrite Habs. lia.
  - rewrite <- (IH Hnd n Hl). unfold lines_units. cbn [List.filter]. destruct (String.eqb_spec (item_id x) (item_id l)) as [E|]; [|done].
    destruct Hx. rewrite E. apply list_elem_of_fmap. exists l. split; [done|]. by eapply list_elem_of_lookup_2.
Qed.

(** C25. A reserved payment link is within the stock. Suppose a link is reserved for a checkout that names each
    item id on at most one line, and the catalogue, read again in that transaction, reports no change of
    any line ([changes] is empty: same prices, each line alone within the stock). Then for the item id of
    each of its lines whose stock is tracked, the units that all open links of the shop now hold under that
    id, rounded up to whole units session by session, plus the number the code counts as sold since the
    catalogue was read, are at most the stock. Two lines of one item ([split_lines_oversell]) and two ids of
    one item ([second_id_oversells]) are not covered, and what is counted as sold is in steps of the unit
    ([sold_counted_in_steps]). *)
Theorem reserved_stock_is_covered `{PayloadHash} sha256 lookup synced orders w id r now d rev allowed cred w' n l item inv : rows w !! id = Some r →
  let st := UcpHandoff.cart (r_state r) in let found := stock_items lookup (line_items st) in
  changes (line_items st) found (currency st) = [] →
  handoff_reserve sha256 w id now d rev allowed None cred (_held_stock_messages lookup synced orders w id st now) = Ok (rendered, w') →
  NoDup (item_id <$> line_items st) → line_items st !! n = Some l → 0 < line_quantity l → assoc (item_id l) found = Some item → inventory item = Some inv →
  promised (item_id l) item now (rows w') + sold_of (sold_since_sync synced orders (tracked_ids found)).1 (item_id l) ≤ inv.
Proof.
  intros Hr st found Hch Hres Hnd Hl Hq Ha Hinv. destruct (reserve_holds _ _ _ _ _ _ _ _ _ _ _ Hr Hres) as (Hm & r' & Hrows & Hhold & Hcart & [u Hu]).
  pose proof (held_stock_messages_nil _ _ _ _ _ _ _ _ _ _ _ _ Hr Hl Hm Hch Ha Hinv) as Hle. fold found in Hle. rewrite Hrows, promised_insert, Hhold. unfold row_units. rewrite Hu, Hcart.
  fold st. rewrite (lines_units_once item _ n l Hnd Hl Hq). lia.
Qed.

Module StockExample.
Import CheckoutExample SessionExample.

(** Two checkouts of two mugs each; [alias]: the second names the mug by another id of the catalogue. *)
Definition catalogue (stock : Z) (ids : list string) : list (string * CatalogItem) := (λ i, (i, mug stock)) <$> ids.
Definition order_of (i : string) : result request_error Evaluation :=
  @evaluate text int hash shop [] [] (catalogue 9) (Some (Ok [rate])) true negotiated (body [VMap [("item", VMap [("id", VStr i)]); ("quantity", VInt 2)]]) None.
Definition two_sessions (i : string) : world := after (create_checkout (tables init) "other" None 0 100 (order_of i)) (tables init).
Definition shop_with (i : string) : world := after (create_checkout (two_sessions i) "chk" None 0 100 (order_of "mug")) (two_sessions i).

Definition reserve (stock : Z) (w : world) (id d : string) : result session_error (response * world) :=
  match rows w !! id with
  | Some r => @handoff_reserve hash (λ s, s) w id 2 d 1 true None None (_held_stock_messages (catalogue stock) None [] w id (UcpHandoff.cart (r_state r)) 2)
  | None => Ok (not_found, w)
  end.
Definition first_held (stock : Z) (i : string) : world := after (reserve stock (shop_with i) "other" "d1") (shop_with i).
Definition both_held (stock : Z) (i : string) : world := after (reserve stock (first_held stock i) "chk" "d2") (first_held stock i).
End StockExample.
Import StockExample.

Lemma reserved_stock_is_covered_witness :
  fst <$> reserve 3 (first_held 3 "mug") "chk" "d2" = Ok (blocked [recoverable "out_of_stock" "$.line_items[0]"]) ∧
  fst <$> reserve 4 (first_held 4 "mug") "chk" "d2" = Ok rendered ∧
  promised "mug" (CheckoutExample.mug 4) 2 (rows (both_held 4 "mug")) = 4 ∧
  ∃ r l, rows (first_held 4 "mug") !! "chk" = Some r ∧ line_items (UcpHandoff.cart (r_state r)) !! 0%nat = Some l ∧
    promised (item_id l) (CheckoutExample.mug 4) 2 (rows (both_held 4 "mug")) +
      sold_of (sold_since_sync None [] (tracked_ids (stock_items (catalogue 4) (line_items (UcpHandoff.cart (r_state r)))))).1 (item_id l) ≤ 4.
Proof.
  split; [vm_compute; reflexivity|]. split; [vm_compute; reflexivity|]. split; [vm_compute; reflexivity|].
  eexists _, _. split; [vm_compute; reflexivity|]. split; [cbn; reflexivity|].
  refine (@reserved_stock_is_covered CheckoutExample.hash (λ s, s) (catalogue 4) None [] (first_held 4 "mug") "chk" _ 2 "d2" 1 true None (both_held 4 "mug") 0 _ (CheckoutExample.mug 4) 4 _ _ _ _ _ _ _ _).
  - vm_compute. reflexivity.
  - vm_compute. reflexivity.
  - vm_compute. reflexivity.
  - vm_compute. repeat constructor. by intros ?%elem_of_nil.
  - reflexivity.
  - reflexivity.
  - vm_compute. reflexivity.
  - reflexivity.
Defined.

(** * Where the code falls short *)

Module StockFindings.
Import CheckoutExample StockExample.

(** Flour by the gram: a kilogram is the unit of the stock. *)
Definition flour : CatalogItem :=
  {| title := "Flour"; price_minor_units := 9900; item_currency := "INR"; inventory := Some 50; image_url := None;
     quantity_unit := {| unit_code := "KGM"; scale := 3; display_text := "kg"; increment := 1 |}; storefront_variant_token := None |}.
Definition flour_line (grams : Z) : Line :=
  {| line_id := "li_1"; line_quantity := grams; parent_id := None; item_id := "flour"; item_title := "Flour"; item_price := 9900; item_image := None;
     item_unit := Some (quantity_unit flour); line_total := 0; storefront_variant := None |}.
Definition sold_flour (grams : Z) : Snapshot :=
  {| order_id := "ord"; checkout_id := "chk"; order_lines := [order_line (flour_line grams)]; expectations := []; events := []; adjustments := []; order_currency := Some "INR"; order_totals := [] |}.
End StockFindings.
Import StockFindings.

(** The units sold since the catalogue was read are documented as whole units and are counted in steps: an order of
    100 grams of flour makes a checkout of one kilogram short although 50 kilograms were in stock. *)
Theorem sold_counted_in_steps :
  let sold := (sold_since_sync (Some 0) [(1, sold_flour 100)] ["flour"]).1 in
  sold_of sold "flour" = 100 ∧ whole_units 100 (quantity_unit flour) = 1 ∧
  held_stock_changes [flour_line 1000] [("flour", flour)] [] sold = [recoverable "out_of_stock" "$.line_items[0]"] ∧
  changes [flour_line 1000] [("flour", flour)] (Some "INR") = [].
Proof. split_and!; vm_compute; reflexivity. Qed.

(** Holds are counted by the id the buyer used. An item with two ids in the catalogue can be promised twice. *)
Theorem second_id_oversells :
  fst <$> reserve 3 (first_held 3 "mug-sku") "chk" "d2" = Ok rendered ∧
  promised "mug" (CheckoutExample.mug 3) 2 (rows (both_held 3 "mug-sku")) + promised "mug-sku" (CheckoutExample.mug 3) 2 (rows (both_held 3 "mug-sku")) = 4.
Proof. split; vm_compute; reflexivity. Qed.
