(* ===== verification/Outbox.v ===== *)
(** Delivery of queued events: what the dispatchers of src/core/cases/push.py and
    src/core/commerce/ucp/webhooks.py share.

    A worker leases due rows in one transaction, posts them one after the other, and records the
    answers in another transaction. Other workers run meanwhile, a worker may crash at any point, and
    rows may be queued, replayed or given up. Times are microseconds. *)

From S2P Require Import Prelude PyVal PyText.

Local Open Scope Z_scope.

(** * Settings and backoff *)

Record PushSettings := { max_attempts : Z; base_delay : Z; max_delay : Z; timeout : Z; lease : Z; batch_size : nat }.
Definition seconds (n : Z) : Z := n * 1000000.
Definition default_settings : PushSettings :=
  {| max_attempts := 10; base_delay := seconds 2; max_delay := seconds 900; timeout := seconds 10; lease := seconds 120; batch_size := 50 |}.

Definition RETRYABLE_STATUS : list Z := [408; 425; 429].

(** [draw]: the first four bytes of the digest of the event and the attempt, as a number *)
Definition retry_delay (s : PushSettings) (attempt draw : Z) : Z :=
  let base := Z.min (base_delay s * 2 ^ Z.max 0 (attempt - 1)) (max_delay s) in
  base * (8 * 2 ^ 32 + 4 * draw) / (10 * 2 ^ 32).

(** * Rows *)

Inductive DeliveryStatus := pending | delivered | dead_lettered.

#[global] Instance DeliveryStatus_eq_dec : EqDecision DeliveryStatus.
Proof. solve_decision. Defined.

Record Delivery := {
  status : DeliveryStatus; attempts : Z; next_attempt_at : Z; last_error : option string; last_status_code : option Z;
  delivered_at : option Z; dead_lettered_at : option Z }.

Definition fresh (now : Z) : Delivery :=
  {| status := pending; attempts := 0; next_attempt_at := now; last_error := None; last_status_code := None; delivered_at := None; dead_lettered_at := None |}.

(** A row whose payload does not satisfy its schema: a dead letter from the start *)
Definition unsendable (now : Z) : Delivery :=
  {| status := dead_lettered; attempts := 0; next_attempt_at := now; last_error := Some "payload_invalid"; last_status_code := None; delivered_at := None; dead_lettered_at := Some now |}.

Definition due (now : Z) (d : Delivery) : bool := bool_decide (status d = pending) && (next_attempt_at d <=? now).

Definition lease_row (s : PushSettings) (now : Z) (d : Delivery) : Delivery :=
  {| status := status d; attempts := attempts d + 1; next_attempt_at := now + lease s; last_error := last_error d; last_status_code := last_status_code d;
     delivered_at := delivered_at d; dead_lettered_at := dead_lettered_at d |}.

(** What became of a post: an answer, or none *)
Inductive Answer := Http (code : Z) | TimedOut | Transport (kind : string) | Unsigned.

#[global] Instance Answer_eq_dec : EqDecision Answer.
Proof. solve_decision. Defined.

Definition code_of (a : Answer) : option Z := match a with Http c => Some c | _ => None end.
Definition accepted (a : Answer) : bool := match a with Http c => (200 <=? c) && (c <? 300) | _ => false end.
Definition error_of (a : Answer) : string :=
  match a with Http c => "http_" +:+ pretty c | TimedOut => "timeout" | Transport k => "transport_" +:+ k | Unsigned => "signing_key_unavailable" end.
Definition retryable (a : Answer) : bool := match code_of a with None => true | Some c => bool_decide (c ∈ RETRYABLE_STATUS) || (500 <=? c) end.

Definition first64 (s : string) : string := of_chars (take 64 (chars s)).

(** Recording an answer: [attempt] is the count of the lease, whatever the row says now *)
Definition record_answer (s : PushSettings) (now attempt draw : Z) (a : Answer) (d : Delivery) : Delivery :=
  if accepted a then
    {| status := delivered; attempts := attempts d; next_attempt_at := next_attempt_at d; last_error := None; last_status_code := code_of a; delivered_at := Some now;
       dead_lettered_at := dead_lettered_at d |}
  else if retryable a && (attempt <? max_attempts s) then
    {| status := status d; attempts := attempts d; next_attempt_at := now + retry_delay s attempt draw; last_error := Some (first64 (error_of a)); last_status_code := code_of a;
       delivered_at := delivered_at d; dead_lettered_at := dead_lettered_at d |}
  else
    {| status := dead_lettered; attempts := attempts d; next_attempt_at := next_attempt_at d;
       last_error := Some (first64 ((if retryable a then "max_attempts_exceeded" else "endpoint_rejected") +:+ ":" +:+ error_of a)); last_status_code := code_of a;
       delivered_at := delivered_at d; dead_lettered_at := Some now |}.

(** [replay_dead_letter]: the same event again *)
Definition replay (now : Z) (d : Delivery) : option Delivery :=
  if bool_decide (status d = dead_lettered)
  then Some {| status := pending; attempts := 0; next_attempt_at := now; last_error := None; last_status_code := None; delivered_at := delivered_at d; dead_lettered_at := None |}
  else None.

(** A leased row nobody listens to any more *)
Definition abandon (s : PushSettings) (now : Z) (d : Delivery) : Delivery :=
  let d' := lease_row s now d in
  {| status := dead_lettered; attempts := attempts d'; next_attempt_at := next_attempt_at d'; last_error := Some "subscription_disabled"; last_status_code := last_status_code d';
     delivered_at := delivered_at d'; dead_lettered_at := Some now |}.

Lemma retry_delay_max s a draw : 0 ≤ base_delay s → 0 ≤ max_delay s → 0 ≤ draw < 2 ^ 32 → retry_delay s a draw ≤ 12 * max_delay s / 10.
Proof.
  intros Hbase Hmax Hdraw. unfold retry_delay. set (b := Z.min _ _). assert (0 ≤ b ≤ max_delay s) as Hb.
  { split; [|apply Z.le_min_r]. apply Z.min_glb; [|lia]. apply Z.mul_nonneg_nonneg; [lia|]. apply Z.pow_nonneg. lia. }
  rewrite <- (Z.div_mul_cancel_r (12 * max_delay s) 10 (2 ^ 32)) by lia. apply Z.div_le_mono; [lia|]. nia.
Qed.

(** * Workers *)

(** A lease: the event and its count of attempts. What a worker has still to post, and what it has to record *)
Record Work := { started : Z; leased : list (string * Z); results : list (string * Z * Answer) }.
(** Why an event is given up without a post *)
Inductive Reason := payload_invalid | nobody_listens.

(** [sent]: every post with its answer, and [dropped]: the events given up without one; both only grow. *)
Record outbox := { deliveries : gmap string Delivery; workers : gmap nat Work; sent : list (string * Z * Answer); dropped : list (string * Reason); clock : Z }.

Definition lease_rows (s : PushSettings) (now : Z) (ids : list string) (ds : gmap string Delivery) : gmap string Delivery := foldr (λ i, alter (lease_row s now) i) ds ids.
Definition leases (ids : list string) (ds : gmap string Delivery) : list (string * Z) := (λ i, (i, from_option attempts 0 (ds !! i))) <$> ids.

Section dispatch.
(** [batch_time]: how long a worker may take for its batch, when that is bounded; [draw]: the jitter of an event and attempt *)
Context (s : PushSettings) (batch_time : option Z) (draw : string → Z → Z).

Definition record_rows (now : Z) (rs : list (string * Z * Answer)) (ds : gmap string Delivery) : gmap string Delivery :=
  foldl (λ ds r, alter (record_answer s now r.1.2 (draw r.1.1 r.1.2) r.2) r.1.1 ds) ds rs.

Definition in_time (w : Work) (now : Z) : Prop := match batch_time with Some b => now ≤ started w + b | None => True end.

Inductive step : outbox → outbox → Prop :=
| step_tick ds ws l g now now' : now ≤ now' → step {| deliveries := ds; workers := ws; sent := l; dropped := g; clock := now |} {| deliveries := ds; workers := ws; sent := l; dropped := g; clock := now' |}
| step_enqueue ds ws l g now i : ds !! i = None →
    step {| deliveries := ds; workers := ws; sent := l; dropped := g; clock := now |} {| deliveries := <[i := fresh now]> ds; workers := ws; sent := l; dropped := g; clock := now |}
| step_unsendable ds ws l g now i : ds !! i = None →
    step {| deliveries := ds; workers := ws; sent := l; dropped := g; clock := now |}
         {| deliveries := <[i := unsendable now]> ds; workers := ws; sent := l; dropped := (i, payload_invalid) :: g; clock := now |}
| step_lease ds ws l g now k ids : ws !! k = None → NoDup ids → (length ids ≤ batch_size s)%nat → Forall (λ i, ∃ d, ds !! i = Some d ∧ due now d = true) ids →
    step {| deliveries := ds; workers := ws; sent := l; dropped := g; clock := now |}
         {| deliveries := lease_rows s now ids ds; workers := <[k := {| started := now; leased := leases ids (lease_rows s now ids ds); results := [] |}]> ws; sent := l; dropped := g; clock := now |}
| step_abandon ds ws l g now i d : ds !! i = Some d → due now d = true →
    step {| deliveries := ds; workers := ws; sent := l; dropped := g; clock := now |} {| deliveries := <[i := abandon s now d]> ds; workers := ws; sent := l; dropped := (i, nobody_listens) :: g; clock := now |}
| step_post ds ws l g now k w i a rest ans : ws !! k = Some w → leased w = (i, a) :: rest → in_time w now →
    step {| deliveries := ds; workers := ws; sent := l; dropped := g; clock := now |}
         {| deliveries := ds; workers := <[k := {| started := started w; leased := rest; results := results w ++ [(i, a, ans)] |}]> ws; sent := (i, a, ans) :: l; dropped := g; clock := now |}
| step_record ds ws l g now k w : ws !! k = Some w → leased w = [] → in_time w now →
    step {| deliveries := ds; workers := ws; sent := l; dropped := g; clock := now |} {| deliveries := record_rows now (results w) ds; workers := delete k ws; sent := l; dropped := g; clock := now |}
| step_crash ds ws l g now k : step {| deliveries := ds; workers := ws; sent := l; dropped := g; clock := now |} {| deliveries := ds; workers := delete k ws; sent := l; dropped := g; clock := now |}
| step_replay ds ws l g now i d d' : ds !! i = Some d → replay now d = Some d' →
    step {| deliveries := ds; workers := ws; sent := l; dropped := g; clock := now |} {| deliveries := <[i := d']> ds; workers := ws; sent := l; dropped := g; clock := now |}.

Definition start (now : Z) : outbox := {| deliveries := ∅; workers := ∅; sent := []; dropped := []; clock := now |}.
Definition reachable (o : outbox) : Prop := ∃ now, rtc step (start now) o.

(** * What a row says is true *)

Definition horizon : Z := Z.max (lease s) (12 * max_delay s / 10).

Record row_ok (o : outbox) (i : string) (d : Delivery) : Prop := {
  row_delivered : status d = delivered → ∃ a ans, (i, a, ans) ∈ sent o ∧ accepted ans = true;
  row_dead : status d = dead_lettered → (∃ why, (i, why) ∈ dropped o) ∨ ∃ a ans, (i, a, ans) ∈ sent o ∧ accepted ans = false ∧ (retryable ans = false ∨ max_attempts s ≤ a);
  row_pending : status d = pending → next_attempt_at d ≤ clock o + horizon }.

Record outbox_ok (o : outbox) : Prop := {
  ok_rows : map_Forall (row_ok o) (deliveries o);
  ok_results : ∀ k w r, workers o !! k = Some w → r ∈ results w → r ∈ sent o }.

Context (draw_range : ∀ i a, 0 ≤ draw i a < 2 ^ 32) (delays : 0 ≤ base_delay s ∧ 0 ≤ max_delay s ∧ 0 ≤ lease s).

Lemma retry_delay_le a i : retry_delay s a (draw i a) ≤ 12 * max_delay s / 10.
Proof. destruct delays as (? & ? & _). by apply retry_delay_max. Qed.

(** Time passes and more is sent; the row stays as good as it was. *)
Lemma row_ok_later o o' i d : (∀ x, x ∈ sent o → x ∈ sent o') → (∀ x, x ∈ dropped o → x ∈ dropped o') → clock o ≤ clock o' → row_ok o i d → row_ok o' i d.
Proof.
  intros Hs Hd Hc [H1 H2 H3]. split.
  - intros (a & ans & ? & ?)%H1. eauto.
  - intros [(why & ?)|(a & ans & ? & ?)]%H2; [left; eauto|]. right. eauto.
  - intros ?%H3. lia.
Qed.

Lemma row_ok_same o i d d' : status d' = status d → next_attempt_at d' ≤ clock o + horizon → row_ok o i d → row_ok o i d'.
Proof. intros Hst Hn [H1 H2 _]. split; rewrite Hst; auto. Qed.

Lemma record_answer_ok o i a ans d : (i, a, ans) ∈ sent o → row_ok o i d → row_ok o i (record_answer s (clock o) a (draw i a) ans d).
Proof.
  intros Hin Hd. unfold record_answer. destruct (accepted ans) eqn:Ea; [split; [|done|done]; intros _; by exists a, ans|].
  destruct (retryable ans) eqn:Er; cbn [andb]; [destruct (Z.ltb_spec a (max_attempts s))|].
  - apply (row_ok_same _ _ d); [done| |done]. cbn. pose proof (retry_delay_le a i). unfold horizon. lia.
  - split; [done| |done]. intros _. right. exists a, ans. auto.
  - split; [done| |done]. intros _. right. exists a, ans. auto.
Qed.

Lemma record_rows_ok o rs ds : (∀ r, r ∈ rs → r ∈ sent o) → map_Forall (row_ok o) ds → map_Forall (row_ok o) (record_rows (clock o) rs ds).
Proof.
  revert ds. induction rs as [|[[i a] ans] rs IH]; intros ds Hrs Hds; [done|]. apply IH; [intros r Hr; apply Hrs; by constructor|]. cbn.
  intros j d. rewrite lookup_alter_Some. intros [(<- & d0 & Hd0 & ->)|[_ Hj]]; [|by apply Hds]. apply record_answer_ok; [apply Hrs; by constructor|by apply Hds].
Qed.

Lemma lease_rows_ok o ids ds : map_Forall (row_ok o) ds → map_Forall (row_ok o) (lease_rows s (clock o) ids ds).
Proof.
  intros Hds. unfold lease_rows. induction ids as [|i ids IH]; [done|]. cbn. intros j d. rewrite lookup_alter_Some. intros [(<- & d0 & Hd0 & ->)|[_ Hj]]; [|by apply IH].
  apply (row_ok_same _ _ d0); [done| |by apply IH]. cbn. unfold horizon. lia.
Qed.

Lemma row_ok_view o o' i d : sent o = sent o' → dropped o = dropped o' → clock o = clock o' → row_ok o i d → row_ok o' i d.
Proof. intros Hs Hd Hc. apply row_ok_later; by rewrite ?Hs, ?Hd, ?Hc. Qed.

Lemma step_outbox_ok o o' : outbox_ok o → step o o' → outbox_ok o'.
Proof.
  intros [Hr Hw] Hstep. destruct Hstep as [ds ws l g now now' Hle|ds ws l g now i Hi|ds ws l g now i Hi|ds ws l g now k ids Hk Hnd Hlen Hdue|ds ws l g now i d Hi Hdue|ds ws l g now k w i a rest ans Hk Hl Ht|ds ws l g now k w Hk Hl Ht|ds ws l g now k|ds ws l g now i d d' Hi Hrep];
    cbn in *; split; cbn.
  - intros i d Hi. eapply row_ok_later; [| | |by apply Hr]; done.
  - exact Hw.
  - apply map_Forall_insert_2; [|intros j d Hj; eapply row_ok_view; [..|by apply Hr]; done]. split; [done..|]. cbn. unfold horizon. lia.
  - exact Hw.
  - apply map_Forall_insert_2; [split; [done| |done]; cbn; intros _; left; eexists; by constructor|]. intros j d Hj. eapply row_ok_later; [..|by apply Hr]; cbn; [done|by constructor|done].
  - exact Hw.
  - intros j d Hj. pose proof (lease_rows_ok _ ids ds Hr) as Hok. eapply row_ok_view; [..|by apply Hok]; done.
  - intros k' w r. rewrite lookup_insert_Some. intros [[<- <-]|[_ Hw']] Hin; [by apply elem_of_nil in Hin|]. by eapply Hw.
  - apply map_Forall_insert_2; [split; [done| |done]; cbn; intros _; left; eexists; by constructor|]. intros j d' Hj. eapply row_ok_later; [..|by apply Hr]; cbn; [done|by constructor|done].
  - exact Hw.
  - intros j d Hj. eapply row_ok_later; [..|by apply Hr]; cbn; [by constructor|done|done].
  - intros k' w' r. rewrite lookup_insert_Some. intros [[<- <-]|[_ Hw']] Hin; cbn in *; [|constructor; by eapply Hw]. apply elem_of_app in Hin as [Hin|Hin%list_elem_of_singleton]; [constructor; by eapply Hw|subst; by constructor].
  - intros j d Hj. pose proof (record_rows_ok {| deliveries := ds; workers := ws; sent := l; dropped := g; clock := now |} (results w) ds (λ r, Hw k w r Hk) Hr) as Hok. eapply row_ok_view; [..|by apply Hok]; done.
  - intros k' w' r [_ Hw']%lookup_delete_Some. by eapply Hw.
  - intros j d Hj. eapply row_ok_view; [..|by apply Hr]; done.
  - intros k' w' r [_ Hw']%lookup_delete_Some. by eapply Hw.
  - apply map_Forall_insert_2; [|intros j d0 Hj; eapply row_ok_view; [..|by apply Hr]; done]. unfold replay in Hrep. case_bool_decide; [|done]. injection Hrep as <-. split; [done..|]. cbn. unfold horizon. lia.
  - exact Hw.
Qed.

Lemma reachable_outbox_ok o : reachable o → outbox_ok o.
Proof.
  intros (now & Hrtc). assert (outbox_ok (start now)) as Hstart by (split; cbn; [apply map_Forall_empty|]; intros k w r; by rewrite lookup_empty).
  revert Hstart. induction Hrtc as [|a b c Hab _ IH]; [done|]. intros Ha. apply IH. by eapply step_outbox_ok.
Qed.

(** Rows are never removed. *)
Lemma step_kept o o' i : step o o' → is_Some (deliveries o !! i) → is_Some (deliveries o' !! i).
Proof.
  assert (∀ ids now ds, is_Some (ds !! i) → is_Some (lease_rows s now ids ds !! i)) as Hl.
  { intros ids now ds Hd. unfold lease_rows. induction ids as [|j ids IH]; [done|]. cbn. by apply lookup_alter_is_Some. }
  assert (∀ rs now ds, is_Some (ds !! i) → is_Some (record_rows now rs ds !! i)) as Hr.
  { intros rs now. induction rs as [|r rs IH]; intros ds Hd; [done|]. apply IH. by apply lookup_alter_is_Some. }
  destruct 1; cbn; try done; try (intros; by apply lookup_insert_is_Some'; right); auto.
Qed.

(** * Workers that are done before their lease *)

Definition held (w : Work) : list string := (leased w).*1 ++ (results w).*1.*1.

Record prompt_ok (o : outbox) : Prop := {
  prompt_row : ∀ k w i, workers o !! k = Some w → in_time w (clock o) → i ∈ held w → ∃ d, deliveries o !! i = Some d ∧ status d = pending ∧ next_attempt_at d = started w + lease s;
  prompt_alone : ∀ k k' w w' i, workers o !! k = Some w → workers o !! k' = Some w' → in_time w (clock o) → in_time w' (clock o) → i ∈ held w → i ∈ held w' → k = k' }.

Lemma lookup_lease_rows_ne ids now ds i : i ∉ ids → lease_rows s now ids ds !! i = ds !! i.
Proof. unfold lease_rows. induction ids as [|j ids IH]; [done|]. cbn. rewrite not_elem_of_cons. intros [? ?]. rewrite lookup_alter_ne by done. auto. Qed.
Lemma lookup_lease_rows_eq ids now ds i : NoDup ids → i ∈ ids → lease_rows s now ids ds !! i = lease_row s now <$> ds !! i.
Proof.
  unfold lease_rows. induction 1 as [|j ids Hj Hnd IH]; [by intros ?%elem_of_nil|]. cbn. intros [->|Hi]%elem_of_cons.
  - rewrite lookup_alter_eq. f_equal. by apply lookup_lease_rows_ne.
  - rewrite lookup_alter_ne by (intros ->; done). auto.
Qed.
Lemma lookup_record_rows_ne now rs ds i : i ∉ rs.*1.*1 → record_rows now rs ds !! i = ds !! i.
Proof.
  unfold record_rows. revert ds. induction rs as [|r rs IH]; intros ds; [done|]. cbn. rewrite not_elem_of_cons. intros [? ?]. rewrite IH by done. by rewrite lookup_alter_ne.
Qed.
Lemma leases_ids ids ds : (leases ids ds).*1 = ids.
Proof. unfold leases. rewrite <- list_fmap_compose. by apply list_fmap_id. Qed.

Context (prompt : ∃ b, batch_time = Some b ∧ b < lease s).

(** What a worker in time holds is not due. *)
Lemma held_not_due o k w i d : prompt_ok o → workers o !! k = Some w → in_time w (clock o) → i ∈ held w → deliveries o !! i = Some d → due (clock o) d = false.
Proof.
  intros [Hrow _] Hk Ht Hi Hd. destruct (Hrow k w i Hk Ht Hi) as (d' & Hd' & Hst & Hn). rewrite Hd in Hd'. injection Hd' as <-. unfold due. rewrite Hn.
  destruct prompt as (b & Hb & Hlt). unfold in_time in Ht. rewrite Hb in Ht. destruct (Z.leb_spec (started w + lease s) (clock o)); [lia|]. apply andb_false_r.
Qed.

(** Rows no worker in time holds may change. *)
Lemma prompt_ok_rows ds ws l g now ds' l' g' : (∀ k w i, ws !! k = Some w → in_time w now → i ∈ held w → ds' !! i = ds !! i) →
  prompt_ok {| deliveries := ds; workers := ws; sent := l; dropped := g; clock := now |} → prompt_ok {| deliveries := ds'; workers := ws; sent := l'; dropped := g'; clock := now |}.
Proof. intros Hsame [H1 H2]. split; cbn in *; [|exact H2]. intros k w i Hk Ht Hi. rewrite (Hsame k w i Hk Ht Hi). eauto. Qed.

Lemma step_prompt_ok o o' : prompt_ok o → step o o' → prompt_ok o'.
Proof.
  intros Hok Hstep. pose proof (λ k w i d, held_not_due o k w i d Hok) as Hnd.
  destruct Hstep as [ds ws l g now now' Hle|ds ws l g now i Hi|ds ws l g now i Hi|ds ws l g now k ids Hk Hids Hlen Hdue|ds ws l g now i d Hi Hdue|ds ws l g now k w i a rest ans Hk Hl Ht|ds ws l g now k w Hk Hl Ht|ds ws l g now k|ds ws l g now i d d' Hi Hrep]; cbn in *.
  - assert (∀ w, in_time w now' → in_time w now) as Hin by (intros w; unfold in_time; destruct batch_time; [lia|done]). destruct Hok as [H1 H2]. split; cbn in *; eauto.
  - eapply prompt_ok_rows; [|exact Hok]. intros k w j Hk Ht Hj. destruct (prompt_row _ Hok k w j Hk Ht Hj) as (d & Hd & _). cbn in Hd. rewrite lookup_insert_ne; [done|]. intros ->. congruence.
  - eapply prompt_ok_rows; [|exact Hok]. intros k w j Hk Ht Hj. destruct (prompt_row _ Hok k w j Hk Ht Hj) as (d & Hd & _). cbn in Hd. rewrite lookup_insert_ne; [done|]. intros ->. congruence.
  - assert (∀ k' w' j, ws !! k' = Some w' → in_time w' now → j ∈ held w' → j ∉ ids) as Hfree.
    { intros k' w' j Hk' Ht' Hj Hin. rewrite Forall_forall in Hdue. destruct (Hdue j Hin) as (d & Hd & Hdd). by rewrite (Hnd k' w' j d Hk' Ht' Hj Hd) in Hdd. }
    assert (∀ j, j ∈ held {| started := now; leased := leases ids (lease_rows s now ids ds); results := [] |} ↔ j ∈ ids) as Hheld by (intros j; unfold held; cbn; by rewrite app_nil_r, leases_ids).
    split; cbn.
    + intros k' w' j. rewrite lookup_insert_Some. intros [[<- <-]|[_ Hk']] Ht' Hj.
      * apply Hheld in Hj. rewrite Forall_forall in Hdue. destruct (Hdue j Hj) as (d & Hd & Hdd). rewrite lookup_lease_rows_eq, Hd by done. eexists. split; [done|]. cbn. split; [|done].
        unfold due in Hdd. by apply andb_true_iff in Hdd as [?%bool_decide_eq_true _].
      * rewrite lookup_lease_rows_ne by eauto. by eapply (prompt_row _ Hok).
    + intros k1 k2 w1 w2 j. rewrite !lookup_insert_Some. intros [[<- <-]|[_ Hk1]] [[<- <-]|[_ Hk2]] Ht1 Ht2 Hj1 Hj2; [done|..].
      * apply Hheld in Hj1. exfalso. by eapply Hfree.
      * apply Hheld in Hj2. exfalso. by eapply Hfree.
      * by eapply (prompt_alone _ Hok).
  - eapply prompt_ok_rows; [|exact Hok]. intros k w j Hk Ht Hj. rewrite lookup_insert_ne; [done|]. intros ->. by rewrite (Hnd k w j d Hk Ht Hj Hi) in Hdue.
  - assert (∀ j, j ∈ held {| started := started w; leased := rest; results := results w ++ [(i, a, ans)] |} ↔ j ∈ held w) as Hheld.
    { intros j. unfold held. rewrite Hl. cbn. rewrite !fmap_app. cbn. rewrite elem_of_cons, !elem_of_app, list_elem_of_singleton. naive_solver. }
    destruct Hok as [H1 H2]. split; cbn in *.
    + intros k' w' j. rewrite lookup_insert_Some. intros [[<- <-]|[_ Hk']] Ht' Hj; [|by eapply H1]. apply Hheld in Hj. by apply (H1 k w j).
    + intros k1 k2 w1 w2 j. rewrite !lookup_insert_Some. intros [[<- <-]|[_ Hk1]] [[<- <-]|[_ Hk2]] Ht1 Ht2 Hj1 Hj2; [done|..]; rewrite ?Hheld in *; eauto.
  - assert (prompt_ok {| deliveries := ds; workers := delete k ws; sent := l; dropped := g; clock := now |}) as Hok'.
    { destruct Hok as [H1 H2]. split; cbn in *; [intros k' w' j [_ Hk']%lookup_delete_Some; eauto|]. intros k1 k2 w1 w2 j [_ ?]%lookup_delete_Some [_ ?]%lookup_delete_Some. eauto. }
    eapply prompt_ok_rows; [|exact Hok']. intros k' w' j [Hne Hk']%lookup_delete_Some Ht' Hj. apply lookup_record_rows_ne. intros Hin. apply Hne.
    eapply (prompt_alone _ Hok k k' w w' j Hk Hk' Ht Ht'); [|done]. unfold held. rewrite elem_of_app. by right.
  - destruct Hok as [H1 H2]. split; cbn in *; [intros k' w' j [_ Hk']%lookup_delete_Some; eauto|]. intros k1 k2 w1 w2 j [_ ?]%lookup_delete_Some [_ ?]%lookup_delete_Some. eauto.
  - eapply prompt_ok_rows; [|exact Hok]. intros k w j Hk Ht Hj. destruct (prompt_row _ Hok k w j Hk Ht Hj) as (d0 & Hd0 & Hst & _). cbn in Hd0. rewrite lookup_insert_ne; [done|].
    intros ->. rewrite Hi in Hd0. injection Hd0 as <-. unfold replay in Hrep. case_bool_decide; [congruence|done].
Qed.

(** A delivered row is not touched again. *)
Lemma step_delivered o o' i d : prompt_ok o → step o o' → deliveries o !! i = Some d → status d = delivered → deliveries o' !! i = Some d.
Proof.
  intros Hok Hstep Hd Hst. assert (∀ now, due now d = false) as Hnd by (intros now; unfold due; by rewrite Hst).
  destruct Hstep as [| ds ws l g now j Hj| ds ws l g now j Hj|ds ws l g now k ids Hk Hids Hlen Hdue|ds ws l g now j d' Hj Hdue| |ds ws l g now k w Hk Hl Ht| |ds ws l g now j d1 d2 Hj Hrep]; cbn in *; try done.
  - rewrite lookup_insert_ne; [done|]. congruence.
  - rewrite lookup_insert_ne; [done|]. congruence.
  - rewrite lookup_lease_rows_ne; [done|]. intros Hin. rewrite Forall_forall in Hdue. destruct (Hdue i Hin) as (d' & Hd' & Hdd). rewrite Hd in Hd'. injection Hd' as <-. by rewrite Hnd in Hdd.
  - rewrite lookup_insert_ne; [done|]. intros ->. rewrite Hd in Hj. injection Hj as <-. by rewrite Hnd in Hdue.
  - rewrite lookup_record_rows_ne; [done|]. intros Hin. destruct (prompt_row _ Hok k w i Hk Ht) as (d' & Hd' & Hp & _); [unfold held; rewrite elem_of_app; by right|]. cbn in Hd'. congruence.
  - rewrite lookup_insert_ne; [done|]. intros ->. rewrite Hd in Hj. injection Hj as <-. unfold replay in Hrep. case_bool_decide; [congruence|done].
Qed.

Lemma reachable_prompt_ok o : reachable o → prompt_ok o.
Proof.
  intros (now & Hrtc). assert (prompt_ok (start now)) as Hstart by (split; cbn; intros *; by rewrite lookup_empty).
  revert Hstart. induction Hrtc as [|a b c Hab _ IH]; [done|]. intros Ha. apply IH. by eapply step_prompt_ok.
Qed.
End dispatch.

(** * Claims *)

(** C26. Deliveries are what their rows say. However workers interleave and crash, a row is delivered only
    when the receiver accepted a post of it; it is dead-lettered only when a post was refused for good, when
    the attempts were used up, or when the event was given up without a post because its payload was invalid
    when it was queued or nobody listens; and a pending row is due again within the lease or the longest
    backoff. Rows are never removed. When every worker is done with its batch before its lease ends (which
    the default settings do not ensure, see [late_answer_buries_a_delivery]), no two workers hold one event
    at a time and a delivered row is final. *)
Theorem deliveries_are_honest s batch_time draw o : (∀ i a, 0 ≤ draw i a < 2 ^ 32) → 0 ≤ base_delay s ∧ 0 ≤ max_delay s ∧ 0 ≤ lease s → reachable s batch_time draw o →
  map_Forall (row_ok s o) (deliveries o) ∧
  (∀ i o', rtc (step s batch_time draw) o o' → is_Some (deliveries o !! i) → is_Some (deliveries o' !! i)) ∧
  ((∃ b, batch_time = Some b ∧ b < lease s) →
     (∀ k k' w w' i, workers o !! k = Some w → workers o !! k' = Some w' → in_time batch_time w (clock o) → in_time batch_time w' (clock o) → i ∈ held w → i ∈ held w' → k = k') ∧
     (∀ i d o', deliveries o !! i = Some d → status d = delivered → rtc (step s batch_time draw) o o' → deliveries o' !! i = Some d)).
Proof.
  intros Hdraw Hs Hreach. split; [by apply (ok_rows _ _ (reachable_outbox_ok s batch_time draw Hdraw Hs o Hreach))|]. split.
  - intros i o' Hrtc. induction Hrtc as [|a b c Hab _ IH]; [done|]. intros Ha. apply IH; [|by eapply step_kept]. destruct Hreach as (now & Hr). exists now. by eapply rtc_r.
  - intros Hp. pose proof (reachable_prompt_ok s batch_time draw Hdraw Hs Hp o Hreach) as Hok. split; [exact (prompt_alone _ _ _ Hok)|].
    intros i d o' Hd Hst Hrtc. clear Hreach. induction Hrtc as [|a b c Hab _ IH]; [done|]. apply IH; [by eapply step_prompt_ok|by eapply step_delivered].
Qed.

Module OutboxExample.
Definition no_jitter (_ : string) (_ : Z) : Z := 0.
Definition minute : option Z := Some (seconds 60).

(** An event is refused once, and accepted at its second attempt. *)
Definition refused_once : Delivery :=
  {| status := pending; attempts := 1; next_attempt_at := 1600000; last_error := Some "http_503"; last_status_code := Some 503; delivered_at := None; dead_lettered_at := None |}.
Definition done_ : Delivery :=
  {| status := delivered; attempts := 2; next_attempt_at := 121600000; last_error := None; last_status_code := Some 200; delivered_at := Some 1600000; dead_lettered_at := None |}.
Definition final : outbox := {| deliveries := {[ "ev" := done_ ]}; workers := ∅; sent := [("ev", 2, Http 200); ("ev", 1, Http 503)]; dropped := []; clock := 1600000 |}.

Ltac go := eapply rtc_l; [|].
Ltac due_now := constructor; [eexists; split; [reflexivity|vm_compute; reflexivity]|constructor].
Lemma final_reachable : reachable default_settings minute no_jitter final.
Proof.
  exists 0. go; [by apply (step_enqueue _ _ _ ∅ ∅ [] [] 0 "ev")|]. go; [apply (step_lease _ _ _ _ _ _ _ _ 0 ["ev"]); [done|apply NoDup_singleton|cbn; lia|due_now]|].
  go; [by apply (step_post _ _ _ _ _ _ _ _ 0 {| started := 0; leased := [("ev", 1)]; results := [] |} "ev" 1 [] (Http 503))|].
  go; [by apply (step_record _ _ _ _ _ _ _ _ 0 {| started := 0; leased := []; results := [("ev", 1, Http 503)] |})|]. go; [by apply (step_tick _ _ _ _ _ _ _ _ 1600000)|].
  go; [apply (step_lease _ _ _ _ _ _ _ _ 1 ["ev"]); [done|apply NoDup_singleton|cbn; lia|due_now]|].
  go; [by apply (step_post _ _ _ _ _ _ _ _ 1 {| started := 1600000; leased := [("ev", 2)]; results := [] |} "ev" 2 [] (Http 200))|].
  go; [by apply (step_record _ _ _ _ _ _ _ _ 1 {| started := 1600000; leased := []; results := [("ev", 2, Http 200)] |})|]. vm_compute. apply rtc_refl.
Qed.
End OutboxExample.
Import OutboxExample.

Lemma deliveries_are_honest_witness : reachable default_settings minute no_jitter final ∧ ∃ a ans, ("ev", a, ans) ∈ sent final ∧ accepted ans = true.
Proof.
  split; [exact final_reachable|].
  destruct (deliveries_are_honest default_settings minute no_jitter final ltac:(intros; unfold no_jitter; lia) ltac:(vm_compute; repeat split; discriminate) final_reachable) as [Hrows _].
  exact (row_delivered _ _ _ _ (Hrows "ev" done_ eq_refl) eq_refl).
Defined.

(** The default settings let a batch take longer than its lease (50 posts of up to 10 seconds against 120 seconds). A
    worker that comes back late buries a delivery another worker completed: the row of an accepted event is
    dead-lettered, and an event is tried more often than the maximum. *)
Theorem late_answer_buries_a_delivery :
  let s := default_settings in
  let d := {| status := pending; attempts := 9; next_attempt_at := 0; last_error := None; last_status_code := None; delivered_at := None; dead_lettered_at := None |} in
  let first := lease_row s 0 d in let second := lease_row s (seconds 121) first in let accepted_ := record_answer s (seconds 122) (attempts second) 0 (Http 200) second in
  let late := record_answer s (seconds 500) (attempts first) 0 TimedOut accepted_ in
  lease s < Z.of_nat (batch_size s) * timeout s ∧ due (seconds 121) first = true ∧ status accepted_ = delivered ∧ status late = dead_lettered ∧ delivered_at late = Some (seconds 122) ∧
  max_attempts s < attempts late.
Proof. vm_compute. done. Qed.

(** * The rows of one endpoint under one worker *)

(** The receiver as a sweep finds it: the tenant has no endpoint, it is disabled, its keys cannot be read
    (the sweep raises and is rolled back), or it is served. *)
Inductive Receiver := absent | disabled | unreadable | served.

(** A sweep: it starts at [began], leases the rows [picked], posts them and records the answers at [ended] *)
Record Sweep := { began : Z; ended : Z; receiver : Receiver; picked : list string; answer : string → Answer }.

Definition due_rows (now : Z) (ds : gmap string Delivery) : gset string := dom (filter (λ kd, due now kd.2 = true) ds).

(** What the query may return: due rows, the oldest first, at most the batch, and all of them when they fit *)
Record picks (s : PushSettings) (ds : gmap string Delivery) (w : Sweep) : Prop := {
  picks_once : NoDup (picked w);
  picks_due : ∀ i, i ∈ picked w → i ∈ due_rows (began w) ds;
  picks_size : (length (picked w) ≤ batch_size s)%nat;
  picks_rest : ∀ j, j ∈ due_rows (began w) ds → j ∉ picked w → length (picked w) = batch_size s ∧
    ∀ i di dj, i ∈ picked w → ds !! i = Some di → ds !! j = Some dj → next_attempt_at di ≤ next_attempt_at dj }.

(** Between sweeps other events are queued. *)
Inductive Happening := Swept (w : Sweep) | Queued (i : string) (now : Z).

(** What [max] attempts come to, the next one being number [n]: accepted, refused for good, or used up *)
Fixpoint verdict (max n : Z) (answers : list Answer) : DeliveryStatus :=
  match answers with
  | [] => pending
  | a :: answers => if accepted a then delivered else if retryable a && (n <? max) then verdict max (n + 1) answers else dead_lettered
  end.

Section sweeps.
Context (s : PushSettings) (draw : string → Z → Z).

Definition sweep (ds : gmap string Delivery) (w : Sweep) : gmap string Delivery :=
  match receiver w with
  | served => let ds' := lease_rows s (began w) (picked w) ds in record_rows s draw (ended w) ((λ l, (l, answer w l.1)) <$> leases (picked w) ds') ds'
  | _ => ds
  end.

Definition happen (ds : gmap string Delivery) (h : Happening) : gmap string Delivery :=
  match h with Swept w => sweep ds w | Queued i now => match ds !! i with Some _ => ds | None => <[i := fresh now]> ds end end.

(** The sweeps find the receiver served and no more rows due than fit their batch, and follow each other at
    least the longest backoff apart, the first one after [from]. *)
Fixpoint calm (from : Z) (ds : gmap string Delivery) (hs : list Happening) : Prop :=
  match hs with
  | [] => True
  | Queued i now :: hs => calm from (happen ds (Queued i now)) hs
  | Swept w :: hs => from ≤ began w ∧ began w ≤ ended w ∧ receiver w = served ∧ picks s ds w ∧ (size (due_rows (began w) ds) ≤ batch_size s)%nat ∧
                     calm (ended w + 12 * max_delay s / 10) (sweep ds w) hs
  end.

(** The answers of the sweeps to an event *)
Definition answers (i : string) (hs : list Happening) : list Answer := omap (λ h, match h with Swept w => Some (answer w i) | Queued _ _ => None end) hs.

Lemma elem_of_due_rows now ds i : i ∈ due_rows now ds ↔ ∃ d, ds !! i = Some d ∧ due now d = true.
Proof. unfold due_rows. rewrite elem_of_dom. unfold is_Some. setoid_rewrite map_lookup_filter_Some. done. Qed.

(** When all the due rows fit the batch, all of them are leased. *)
Lemma picks_all ds w i : picks s ds w → (size (due_rows (began w) ds) ≤ batch_size s)%nat → i ∈ due_rows (began w) ds → i ∈ picked w.
Proof.
  intros [Hnd Hdue _ Hrest] Hsize Hi. destruct (decide (i ∈ picked w)) as [?|Hni]; [done|]. destruct (Hrest i Hi Hni) as [Hlen _].
  assert (size (list_to_set (i :: picked w) : gset string) ≤ size (due_rows (began w) ds))%nat as Hle.
  { apply subseteq_size. intros j. rewrite elem_of_list_to_set, elem_of_cons. intros [->|?]; auto. }
  rewrite size_list_to_set in Hle by (by constructor). cbn in Hle. lia.
Qed.

Lemma lookup_record_rows_eq now rs ds i a ans : NoDup rs.*1.*1 → (i, a, ans) ∈ rs → record_rows s draw now rs ds !! i = record_answer s now a (draw i a) ans <$> ds !! i.
Proof.
  revert ds. induction rs as [|[[j b] bns] rs IH]; intros ds Hnd; [by intros ?%elem_of_nil|]. cbn in Hnd. apply NoDup_cons in Hnd as [Hj Hnd]. intros [[= <- <- <-]|Hin]%elem_of_cons.
  - change (record_rows s draw now ((i, a, ans) :: rs) ds) with (record_rows s draw now rs (alter (record_answer s now a (draw i a) ans) i ds)). by rewrite lookup_record_rows_ne, lookup_alter_eq.
  - change (record_rows s draw now ((j, b, bns) :: rs) ds) with (record_rows s draw now rs (alter (record_answer s now b (draw j b) bns) j ds)). rewrite (IH _ Hnd Hin), lookup_alter_ne; [done|].
    intros ->. apply Hj, list_elem_of_fmap. exists (i, a). split; [done|]. apply list_elem_of_fmap. by exists (i, a, ans).
Qed.

(** What a sweep makes of a row that is due, and of one that is not *)
Lemma sweep_lookup ds w i d : receiver w = served → picks s ds w → (size (due_rows (began w) ds) ≤ batch_size s)%nat → ds !! i = Some d →
  sweep ds w !! i = Some (if due (began w) d
    then record_answer s (ended w) (attempts d + 1) (draw i (attempts d + 1)) (answer w i) (lease_row s (began w) d) else d).
Proof.
  intros Hserved Hp Hsize Hi. unfold sweep. rewrite Hserved. set (ds' := lease_rows s (began w) (picked w) ds). set (rs := (λ l, (l, answer w l.1)) <$> leases (picked w) ds').
  assert (rs.*1.*1 = picked w) as Hids. { unfold rs. rewrite <- (leases_ids (picked w) ds') at 2. rewrite <- !list_fmap_compose. by apply list_fmap_ext. }
  destruct (due (began w) d) eqn:Ed.
  - assert (i ∈ picked w) as Hin by (apply (picks_all ds w i Hp Hsize), elem_of_due_rows; eauto).
    assert (ds' !! i = Some (lease_row s (began w) d)) as Hd' by (unfold ds'; rewrite (lookup_lease_rows_eq _ _ _ _ _ (picks_once _ _ _ Hp) Hin), Hi; done).
    rewrite (lookup_record_rows_eq _ _ _ i (attempts d + 1) (answer w i)); [by rewrite Hd'|by rewrite Hids; apply Hp|].
    apply list_elem_of_fmap. exists (i, attempts d + 1). split; [done|]. apply list_elem_of_fmap. exists i. by rewrite Hd'.
  - assert (i ∉ picked w) as Hni. { intros Hin%(picks_due _ _ _ Hp). apply elem_of_due_rows in Hin as (d0 & Hd0 & Hdue). congruence. }
    rewrite lookup_record_rows_ne by (by rewrite Hids). unfold ds'. by rewrite lookup_lease_rows_ne.
Qed.

Lemma queued_lookup ds j now i d : ds !! i = Some d → happen ds (Queued j now) !! i = Some d.
Proof. intros Hi. cbn. destruct (ds !! j) eqn:E; [done|]. rewrite lookup_insert_ne; [done|]. congruence. Qed.

Lemma settled_stays hs : ∀ from ds i d, calm from ds hs → ds !! i = Some d → status d ≠ pending → foldl happen ds hs !! i = Some d.
Proof.
  induction hs as [|[w|j now] hs IH]; intros from ds i d Hc Hi Hd; [done| |by eapply IH; [exact Hc|apply queued_lookup|]]. destruct Hc as (_ & _ & Hs & Hp & Hsize & Hc).
  cbn [foldl happen]. eapply IH; [exact Hc| |done]. rewrite (sweep_lookup _ _ _ _ Hs Hp Hsize Hi). unfold due. by rewrite bool_decide_false.
Qed.

Context (draw_range : ∀ i a, 0 ≤ draw i a < 2 ^ 32) (base_pos : 0 ≤ base_delay s) (max_pos : 0 ≤ max_delay s).

Lemma calm_verdict hs : ∀ from ds i d, calm from ds hs → ds !! i = Some d → status d = pending → next_attempt_at d ≤ from →
  ∃ d', foldl happen ds hs !! i = Some d' ∧ status d' = verdict (max_attempts s) (attempts d + 1) (answers i hs).
Proof.
  induction hs as [|[w|j now] hs IH]; intros from ds i d Hc Hi Hd Hn; [by exists d| |by eapply IH; [exact Hc|apply queued_lookup|..]].
  destruct Hc as (Hfrom & Hlen & Hs & Hp & Hsize & Hc). cbn [foldl happen answers omap list_omap verdict]. fold (answers i hs).
  assert (due (began w) d = true) as Hdue by (unfold due; rewrite bool_decide_true by done; apply Z.leb_le; lia).
  pose proof (sweep_lookup _ _ _ _ Hs Hp Hsize Hi) as Hl. rewrite Hdue in Hl. unfold record_answer in Hl.
  destruct (accepted (answer w i)); [eexists; split; [by eapply settled_stays; [exact Hc|exact Hl|]|done]|].
  destruct (retryable (answer w i) && _); [|eexists; split; [by eapply settled_stays; [exact Hc|exact Hl|]|done]].
  destruct (IH _ _ _ _ Hc Hl) as (d' & Hd' & Hv); [done| |by exists d'].
  cbn [next_attempt_at]. pose proof (retry_delay_max s (attempts d + 1) (draw i (attempts d + 1)) base_pos max_pos (draw_range _ _)). lia.
Qed.
End sweeps.

Lemma verdict_settles max n answers : max < n + Z.of_nat (length answers) → answers ≠ [] → verdict max n answers ≠ pending.
Proof.
  revert n. induction answers as [|a answers IH]; intros n Hlen Hne; [done|]. cbn. destruct (accepted a); [done|]. destruct (retryable a); cbn; [|done]. destruct (Z.ltb_spec n max); [|done].
  cbn [length] in Hlen. apply IH; [lia|]. destruct answers; [cbn in Hlen; lia|done].
Qed.

(** C27. Every event is settled, as long as its receiver is served. Take [max_attempts] sweeps of one worker
    that are a backoff apart and each find the endpoint enabled, its keys readable, and no more rows due than
    fit a batch, with other events being queued meanwhile. After them a queued row is no longer pending, and
    what it came to is what the answers say: delivered at the first acceptance, dead-lettered at the first
    refusal for good or when the attempts are used up. A dead letter that is replayed settles in the same
    way. A sweep that finds the endpoint absent, disabled or with unreadable keys changes nothing. *)
Theorem every_event_settles s draw now ds i d hs : (∀ i a, 0 ≤ draw i a < 2 ^ 32) → 0 ≤ base_delay s → 0 ≤ max_delay s → 1 ≤ max_attempts s →
  ds !! i = Some d → (d = fresh now ∨ ∃ d0, replay now d0 = Some d) → calm s draw now ds hs → max_attempts s ≤ Z.of_nat (length (answers i hs)) →
  ∃ d', foldl (happen s draw) ds hs !! i = Some d' ∧ status d' = verdict (max_attempts s) 1 (answers i hs) ∧ status d' ≠ pending.
Proof.
  intros Hdraw Hb Hm Hmax Hi Hd Hc Hlen. assert (status d = pending ∧ next_attempt_at d = now ∧ attempts d = 0) as (H1 & H2 & H3).
  { destruct Hd as [->|(d0 & Hr)]; [done|]. unfold replay in Hr. case_bool_decide; by simplify_eq/=. }
  destruct (calm_verdict s draw Hdraw Hb Hm hs now ds i d Hc Hi H1) as (d' & Hd' & Hv); [lia|]. rewrite H3 in Hv. exists d'. split_and!; [done|done|]. rewrite Hv.
  apply verdict_settles; [lia|]. intros E. rewrite E in Hlen. cbn in Hlen. lia.
Qed.

(** An endpoint that answers 503 and then not at all *)
Module SweepExample.
Definition twice : PushSettings := {| max_attempts := 2; base_delay := seconds 2; max_delay := seconds 900; timeout := seconds 10; lease := seconds 120; batch_size := 50 |}.
Definition busy : Sweep := {| began := 0; ended := 1; receiver := served; picked := ["ev"]; answer _ := Http 503 |}.
Definition silent : Sweep := {| began := seconds 1081; ended := seconds 1082; receiver := served; picked := ["ev"]; answer _ := TimedOut |}.

Lemma picks_only (w : Sweep) (ds : gmap string Delivery) : picked w = ["ev"] → due_rows (began w) ds = {["ev"]} → picks twice ds w.
Proof.
  intros Hp Hd. split; rewrite Hp, ?Hd; [apply NoDup_singleton|set_solver|cbn; lia|]. intros j ->%elem_of_singleton Hn. destruct Hn. by constructor.
Qed.

Lemma calm_twice : calm twice no_jitter 0 {["ev" := fresh 0]} [Swept busy; Swept silent].
Proof.
  split_and!; [done|done|done|apply picks_only; [done|vm_compute; reflexivity]|vm_compute; repeat constructor|].
  split_and!; [vm_compute; discriminate|vm_compute; discriminate|done|apply picks_only; [done|vm_compute; reflexivity]|vm_compute; repeat constructor|done].
Qed.
End SweepExample.
Import SweepExample.

Lemma every_event_settles_witness :
  ∃ d', foldl (happen twice no_jitter) {["ev" := fresh 0]} [Swept busy; Swept silent] !! "ev" = Some d' ∧ status d' = dead_lettered.
Proof.
  destruct (every_event_settles twice no_jitter 0 {["ev" := fresh 0]} "ev" (fresh 0) [Swept busy; Swept silent]) as (d' & Hd' & Hv & _);
    [intros; unfold no_jitter; lia|vm_compute; discriminate..|reflexivity|by left|exact calm_twice|vm_compute; discriminate|].
  exists d'. split; [exact Hd'|]. rewrite Hv. reflexivity.
Defined.
