(* ===== verification/CasePush.v ===== *)
(** The hand-off of cases: src/core/cases/push.py. Signatures and their verification by a receiver, the
    endpoint and its keys, and the outbox rows of case events, delivered as [Outbox] says.

    Payload bytes are an argument; the check of a payload against its schema answers yes or no. *)

From Stdlib Require Import Ascii.
From S2P Require Import Prelude PyVal PyText Digest AuditLink Cron Outbox.

Local Open Scope Z_scope.

(** * Signing *)

Definition EVENT_ID_HEADER : string := "AgenticOrg-Event-Id".
Definition EVENT_TYPE_HEADER : string := "AgenticOrg-Event-Type".
Definition TIMESTAMP_HEADER : string := "AgenticOrg-Timestamp".
Definition SIGNATURE_HEADER : string := "AgenticOrg-Signature".
Definition SIGNATURE_SCHEME : string := "v1".
Definition DEFAULT_TOLERANCE_SECONDS : Z := 300.
Definition MAX_KEYS : nat := 2.

Record SigningKey := { key_id : string; secret : string }.

#[global] Instance SigningKey_eq_dec : EqDecision SigningKey.
Proof. solve_decision. Defined.

Definition _digest (secret event_id : string) (timestamp : Z) (body : string) : string :=
  hmac_sha256_hexdigest secret (event_id +:+ "." +:+ pretty timestamp +:+ "." +:+ body).

Definition signature (event_id : string) (timestamp : Z) (body : string) (k : SigningKey) : string :=
  SIGNATURE_SCHEME +:+ "=" +:+ key_id k +:+ ":" +:+ _digest (secret k) event_id timestamp body.

(** [None]: no key *)
Definition sign (body event_id event_type : string) (timestamp : Z) (keys : list SigningKey) : option (list (string * string)) :=
  match keys with
  | [] => None
  | _ => Some [(EVENT_ID_HEADER, event_id); (EVENT_TYPE_HEADER, event_type); (TIMESTAMP_HEADER, pretty timestamp);
               (SIGNATURE_HEADER, join ", " (signature event_id timestamp body <$> keys)); ("Content-Type", "application/json")]
  end.

(** [text.partition(sep)] without the separator *)
Definition partition (sep : ascii) (l : list ascii) : list ascii * list ascii := default (l, []) (cut sep l).

(** One part of the signature header *)
Definition part_ok (keys : list (string * string)) (event_id : string) (timestamp : Z) (body part : string) : bool :=
  let '(scheme, rest) := partition "=" (chars (strip part)) in
  let '(kid, offered) := partition ":" rest in
  match assoc (of_chars kid) keys with
  | Some s => String.eqb (of_chars scheme) SIGNATURE_SCHEME && negb (String.eqb s EmptyString) && negb (bool_decide (offered = [])) &&
              String.eqb (of_chars offered) (_digest s event_id timestamp body)
  | None => false
  end.

Definition lowered (headers : list (string * string)) : list (string * string) := foldl (λ d kv, dict_set (lower kv.1) kv.2 d) [] headers.

(** The reason a delivery is refused; the empty text: it is valid *)
Definition verify_signature (headers : list (string * string)) (body : string) (keys : list (string * string)) (now tolerance : Z) : string :=
  let get k := default EmptyString (assoc (lower k) (lowered headers)) in
  let event_id := get EVENT_ID_HEADER in
  let raw_timestamp := get TIMESTAMP_HEADER in
  let raw_signature := get SIGNATURE_HEADER in
  if String.eqb event_id EmptyString || String.eqb raw_signature EmptyString then "signature_missing"
  else if negb (negb (String.eqb raw_timestamp EmptyString) && forallb is_digit (chars raw_timestamp)) || (12 <? length (chars raw_timestamp))%nat then "timestamp_invalid"
  else
    let timestamp := int_of_digits (chars raw_timestamp) in
    if tolerance <? Z.abs (now - timestamp) then "timestamp_outside_tolerance"
    else if existsb (part_ok keys event_id timestamp body) (split "," raw_signature) then EmptyString else "signature_mismatch".

(** * The endpoint of a tenant *)

(** [keys]: newest first; [None]: they cannot be decrypted *)
Record CasePushEndpoint := { url : string; enabled : bool; keys : option (list SigningKey); active_key_id : string }.

Inductive push_error := endpoint_url_invalid | endpoint_not_configured | signing_keys_unreadable | dead_letter_not_found | dead_letter_not_replayable | payload_invalid.

Definition decrypt_keys (e : CasePushEndpoint) : result push_error (list SigningKey) :=
  match keys e with Some (k :: ks) => Ok (k :: ks) | _ => Err signing_keys_unreadable end.

(** [checked]: the url as validated; [new]: the key drawn *)
Definition configure_endpoint (e : option CasePushEndpoint) (checked : option string) (on : bool) (new : SigningKey) : result push_error (CasePushEndpoint * option SigningKey) :=
  u ← of_option endpoint_url_invalid checked;
  match e with
  | Some e => Ok ({| url := u; enabled := on; keys := keys e; active_key_id := active_key_id e |}, None)
  | None => Ok ({| url := u; enabled := on; keys := Some [new]; active_key_id := key_id new |}, Some new)
  end.

Definition rotate_signing_key (e : option CasePushEndpoint) (new : SigningKey) : result push_error CasePushEndpoint :=
  e ← of_option endpoint_not_configured e;
  ks ← decrypt_keys e;
  Ok {| url := url e; enabled := enabled e; keys := Some (take MAX_KEYS (new :: ks)); active_key_id := key_id new |}.

Definition retire_previous_keys (e : option CasePushEndpoint) : result push_error CasePushEndpoint :=
  e ← of_option endpoint_not_configured e;
  ks ← decrypt_keys e;
  match List.filter (λ k, String.eqb (key_id k) (active_key_id e)) ks with
  | [] => Err signing_keys_unreadable
  | left_ => Ok {| url := url e; enabled := enabled e; keys := Some left_; active_key_id := active_key_id e |}
  end.

(** The keys a delivery is signed with: the active one first *)
Definition signing_keys (e : CasePushEndpoint) : result push_error (list SigningKey) :=
  ks ← decrypt_keys e; Ok (sort_by (λ a b, String.eqb (key_id a) (active_key_id e) || negb (String.eqb (key_id b) (active_key_id e))) ks).

(** * The outbox *)

(** [valid]: whether the payload passes its schema *)
Definition enqueue_row (valid : bool) (now : Z) : Delivery :=
  if valid then fresh now
  else {| status := dead_lettered; attempts := 0; next_attempt_at := now; last_error := Some "payload_invalid"; last_status_code := None; delivered_at := None; dead_lettered_at := Some now |}.

(** [rebuilt]: whether the payload, built again from the case as it is now, passes its schema *)
Definition replay_dead_letter (d : option Delivery) (rebuilt : bool) (now : Z) : result push_error Delivery :=
  d ← of_option dead_letter_not_found d;
  d' ← of_option dead_letter_not_replayable (replay now d);
  if bool_decide (last_error d = Some "payload_invalid") && negb rebuilt then Err payload_invalid else Ok d'.

(** The rows [_dispatch_tenant] leases: due, the longest due first; [locked]: rows another transaction holds *)
Definition due_rows (s : PushSettings) (now : Z) (locked : list string) (ds : gmap string Delivery) : list string :=
  take (batch_size s) (fst <$> sort_by (λ a b, next_attempt_at a.2 <=? next_attempt_at b.2)
    (List.filter (λ kd, due now kd.2 && negb (bool_decide (kd.1 ∈ locked))) (map_to_list ds))).

(** The first transaction of [_dispatch_tenant]: nothing without an enabled endpoint *)
Definition dispatch_lease (s : PushSettings) (now : Z) (e : option CasePushEndpoint) (locked : list string) (ds : gmap string Delivery) :
    result push_error (gmap string Delivery * list (string * Z) * list SigningKey) :=
  match e with
  | Some e =>
      if enabled e then
        ks ← signing_keys e;
        let ids := due_rows s now locked ds in let ds' := lease_rows s now ids ds in Ok (ds', leases ids ds', ks)
      else Ok (ds, [], [])
  | None => Ok (ds, [], [])
  end.

(** * Texts *)

(** The digits of [x] in front of [s] *)
Lemma pretty_N_go_chars x s : ∃ ds, chars (pretty_N_go x s) = ds ++ chars s ∧ forallb is_digit ds = true ∧ int_of_digits ds = Z.of_N x ∧
  (∀ n, (x < 10 ^ N.of_nat n)%N → (length ds ≤ n)%nat) ∧ (x ≠ 0%N → ds ≠ []).
Proof.
  revert s. induction (N.lt_wf_0 x) as [x _ IH]; intros s. destruct (decide (0 < x)%N) as [Hx|Hx]; [|assert (x = 0%N) as -> by lia; exists []; rewrite pretty_N_go_0; split_and!; try done; intros; cbn; lia].
  rewrite pretty_N_go_step by done. destruct (IH (x `div` 10)%N (N.div_lt x 10 Hx ltac:(lia)) (String (pretty_N_char (x `mod` 10)) s)) as (ds & Hc & Hd & Hi & Hl & _).
  exists (ds ++ [pretty_N_char (x `mod` 10)]). rewrite Hc. cbn [chars String.list_ascii_of_string]. rewrite <- app_assoc. split; [done|].
  assert (is_digit (pretty_N_char (x `mod` 10)) = true ∧ Z.of_nat (nat_of_ascii (pretty_N_char (x `mod` 10))) - 48 = Z.of_N (x `mod` 10)) as [Hdig Hval].
  { pose proof (N.mod_lt x 10 ltac:(lia)) as Hlt. revert Hlt. generalize (x `mod` 10)%N. intros m Hm.
    assert (m ∈ N.of_nat <$> seq 0 10) as Hin. { apply list_elem_of_fmap. exists (N.to_nat m). rewrite N2Nat.id, elem_of_seq. split; [done|lia]. }
    clear Hm. revert m Hin. apply Forall_forall. vm_compute. repeat constructor. }
  split_and!.
  - by rewrite forallb_app, Hd; cbn; rewrite Hdig.
  - unfold int_of_digits in *. rewrite foldl_app, Hi. cbn [foldl]. rewrite Hval. rewrite (N.div_mod x 10) at 3 by lia. lia.
  - intros n Hn. rewrite length_app. cbn. destruct n as [|n]; [cbn in Hn; lia|]. assert (length ds ≤ n)%nat; [|lia]. apply Hl. apply N.Div0.div_lt_upper_bound. rewrite Nat2N.inj_succ, N.pow_succ_r' in Hn. lia.
  - intros _. by destruct ds.
Qed.

Lemma pretty_digits (z : Z) : 0 ≤ z → ∃ ds, chars (pretty z) = ds ∧ ds ≠ [] ∧ forallb is_digit ds = true ∧ int_of_digits ds = z ∧ (z < 10 ^ 12 → (length ds ≤ 12)%nat).
Proof.
  intros Hz. destruct z as [|p|p]; [|..]; [exists ["0"%char]; split_and!; try done; cbn; lia| |lia]. destruct (pretty_N_go_chars (N.pos p) EmptyString) as (ds & Hc & Hd & Hi & Hl & Hne).
  exists ds. cbn in Hc. rewrite app_nil_r in Hc. split; [exact Hc|]. split_and!; [by apply Hne|done|done|]. intros Hlt. apply Hl. change (N.of_nat 12) with 12%N. lia.
Qed.

Lemma split_chars_sep sep cur l k : free_of sep l → split_chars sep cur (l ++ sep :: k) = (reverse cur ++ l) :: split_chars sep [] k.
Proof.
  revert cur. induction l as [|c l IH]; intros cur; cbn; [intros _; rewrite Ascii.eqb_refl; by rewrite app_nil_r|]. rewrite free_of_cons. intros [Hc Hl]. apply Ascii.eqb_neq in Hc. rewrite Hc, IH by done.
  by rewrite reverse_cons, <- app_assoc.
Qed.
Lemma split_chars_free sep cur l : free_of sep l → split_chars sep cur l = [reverse cur ++ l].
Proof.
  revert cur. induction l as [|c l IH]; intros cur; cbn; [by rewrite app_nil_r|]. rewrite free_of_cons. intros [Hc Hl]. apply Ascii.eqb_neq in Hc. rewrite Hc, IH by done. by rewrite reverse_cons, <- app_assoc.
Qed.

(** A list joined with a comma and a space, split at the commas *)
Lemma chars_join p ps : chars (join ", " (p :: ps)) = chars p ++ concat ((λ q, [","; " "]%char ++ chars q) <$> ps).
Proof.
  cbn. revert p. induction ps as [|q ps IH]; intros p; cbn [foldl fmap list_fmap concat]; [by rewrite app_nil_r|]. rewrite IH, !chars_app. cbn. by rewrite <- app_assoc.
Qed.

Lemma split_join_comma p ps : Forall (λ q, free_of "," (chars q)) (p :: ps) → split "," (join ", " (p :: ps)) = p :: ((λ q, " " +:+ q) <$> ps).
Proof.
  intros Hall. unfold split. rewrite chars_join. revert p Hall. induction ps as [|q ps IH]; intros p Hall; apply Forall_cons in Hall as [Hp Hall].
  - cbn. rewrite app_nil_r, split_chars_free by done. cbn. by rewrite of_chars_chars.
  - rewrite fmap_cons. cbn [concat app]. rewrite split_chars_sep by done. rewrite fmap_cons. cbn [reverse rev_append app]. rewrite of_chars_chars, fmap_cons. f_equal.
    apply Forall_cons in Hall as [Hq Hall]. apply (IH (" " +:+ q)). constructor; [|done]. change (chars (" " +:+ q)) with (" "%char :: chars q). by rewrite free_of_cons.
Qed.

(** * What a receiver checks *)

Definition plain (c : ascii) : bool := negb (is_space c) && negb (Ascii.eqb c ",") && negb (Ascii.eqb c ":").

Lemma hex_digit_plain b : 0 ≤ b < 16 → plain (hex_digit b) = true.
Proof.
  intros Hb. assert (Hin : Z.to_nat b ∈ seq 0 16) by (apply elem_of_seq; lia).
  unfold hex_digit. revert Hin. generalize (Z.to_nat b). apply Forall_forall. vm_compute. repeat constructor.
Qed.

Lemma digest_plain s event ts body : forallb plain (chars (_digest s event ts body)) = true.
Proof.
  unfold _digest, hmac_sha256_hexdigest. rewrite chars_of_chars. unfold hex_bytes.
  match goal with |- context [?l ≫= _] => assert (Forall (λ b, 0 ≤ b < 256) l) as H by (apply Forall_bind, Forall_true; intros w; apply be_bytes_range); revert H; generalize l end.
  intros l. induction 1 as [|b l Hb Hl IH]; [done|]. rewrite bind_cons, forallb_app, IH. cbn [forallb]. rewrite !hex_digit_plain; [done|by apply Z.mod_pos_bound|].
  split; [apply Z.div_pos; lia|apply Z.div_lt_upper_bound; lia].
Qed.

Lemma plain_free c l : forallb plain l = true → plain c = false → free_of c l.
Proof.
  intros Hl Hc. unfold free_of. apply forallb_forall. intros x Hx. apply negb_true_iff, Ascii.eqb_neq. intros ->. rewrite forallb_forall in Hl. rewrite (Hl _ Hx) in Hc. done.
Qed.

Lemma plain_nospace l : forallb plain l = true → forallb (λ c, negb (is_space c)) l = true.
Proof. intros Hl. apply forallb_forall. intros x Hx. rewrite forallb_forall in Hl. specialize (Hl _ Hx). unfold plain in Hl. by destruct (is_space x). Qed.

Lemma chars_signature event ts body k : chars (signature event ts body k) = chars "v1" ++ "="%char :: (chars (key_id k) ++ ":"%char :: chars (_digest (secret k) event ts body)).
Proof. unfold signature. rewrite !chars_app. reflexivity. Qed.

Lemma signature_comma event ts body k : forallb plain (chars (key_id k)) = true → free_of "," (chars (signature event ts body k)).
Proof.
  intros Hk. rewrite chars_signature. apply free_of_app. split; [done|]. apply free_of_cons. split; [done|]. apply free_of_app. split; [by apply plain_free|]. apply free_of_cons. split; [done|].
  apply plain_free; [apply digest_plain|done].
Qed.

Lemma signature_strip event ts body k : forallb plain (chars (key_id k)) = true → strip (signature event ts body k) = signature event ts body k.
Proof.
  intros Hk. rewrite <- (of_chars_chars (signature event ts body k)). apply strip_of_chars. rewrite chars_signature, forallb_app. cbn [forallb]. rewrite forallb_app. cbn [forallb].
  by rewrite !plain_nospace by (done || apply digest_plain).
Qed.

Lemma strip_space s : strip (" " +:+ s) = strip s.
Proof. reflexivity. Qed.

Lemma partition_free sep l k : free_of sep l → partition sep (l ++ sep :: k) = (l, k).
Proof. intros Hl. unfold partition. by rewrite cut_free. Qed.

Lemma signature_accepted rk event ts body k part :
  forallb plain (chars (key_id k)) = true → assoc (key_id k) rk = Some (secret k) → secret k ≠ EmptyString → strip part = signature event ts body k → part_ok rk event ts body part = true.
Proof.
  intros Hk Hr Hs Hp. unfold part_ok. rewrite Hp, chars_signature, partition_free by done. rewrite partition_free by by apply plain_free. rewrite !of_chars_chars, Hr, (proj2 (String.eqb_neq _ _) Hs).
  change (String.eqb "v1" SIGNATURE_SCHEME) with true. rewrite String.eqb_refl, bool_decide_false; [done|]. intros E. apply (hmac_hexdigest_nonempty (secret k) (event +:+ "." +:+ pretty ts +:+ "." +:+ body)).
  change (hmac_sha256_hexdigest _ _) with (_digest (secret k) event ts body). rewrite <- (of_chars_chars (_digest _ _ _ _)), E. done.
Qed.

Lemma cut_some sep l a b : cut sep l = Some (a, b) → l = a ++ sep :: b.
Proof.
  revert a b. induction l as [|c l IH]; intros a b; cbn; [done|]. destruct (Ascii.eqb_spec c sep) as [->|Hc]; [by intros [= <- <-]|]. destruct (cut sep l) as [[x y]|]; cbn; [|done]. intros [= <- <-]. cbn. f_equal. by apply IH.
Qed.

Lemma no_signature_refused rk kid b (f : string → bool) (P : Prop) :
  match assoc kid rk with Some s => b && negb (String.eqb s EmptyString) && negb (bool_decide (@nil ascii = [])) && f s | None => false end = true → P.
Proof. destruct (assoc kid rk) as [s|]; [|done]. rewrite bool_decide_true by done. by rewrite andb_false_r. Qed.

(** An accepted part is the signature, under a secret of the receiver, of this event, time and body *)
Lemma accepted_is_signature rk event ts body part :
  part_ok rk event ts body part = true → ∃ k, assoc (key_id k) rk = Some (secret k) ∧ secret k ≠ EmptyString ∧ strip part = signature event ts body k.
Proof.
  unfold part_ok, partition. destruct (cut "=" (chars (strip part))) as [[scheme rest]|] eqn:E1; cbn [default].
  2:{ cbn [cut default id]. apply no_signature_refused. }
  destruct (cut ":" rest) as [[kid offered]|] eqn:E2; cbn [default id].
  2:{ rewrite E2. cbn [default id]. apply no_signature_refused. }
  rewrite ?E2. cbn [default id]. destruct (assoc (of_chars kid) rk) as [s|] eqn:E3; [|done]. rewrite !andb_true_iff, negb_true_iff, !String.eqb_eq, String.eqb_neq. intros [[[Hsch Hs] _] Hoff].
  exists {| key_id := of_chars kid; secret := s |}. split_and!; [done..|]. apply cut_some in E1, E2. rewrite <- (of_chars_chars (strip part)), E1, E2, <- (of_chars_chars (signature _ _ _ _)), chars_signature. f_equal.
  rewrite <- (chars_of_chars scheme), Hsch. cbn [key_id secret]. by rewrite <- Hoff, !chars_of_chars.
Qed.

Lemma existsb_in {A} (p : A → bool) l x : x ∈ l → p x = true → existsb p l = true.
Proof. intros Hx Hp. apply existsb_exists. exists x. by rewrite <- list_elem_of_In. Qed.

Lemma sign_parts event ts body k ks :
  Forall (λ k, forallb plain (chars (key_id k)) = true) ks → k ∈ ks →
  ∃ part, part ∈ split "," (join ", " (signature event ts body <$> ks)) ∧ strip part = signature event ts body k.
Proof.
  intros Hall Hk. destruct ks as [|k0 ks]; [by apply not_elem_of_nil in Hk|]. rewrite fmap_cons, split_join_comma.
  2:{ rewrite <- fmap_cons. apply Forall_fmap. eapply Forall_impl; [exact Hall|]. intros x Hx. by apply signature_comma. }
  assert (forallb plain (chars (key_id k)) = true) as Hp by by apply (proj1 (Forall_forall _ _) Hall). apply elem_of_cons in Hk as [->|Hk].
  - exists (signature event ts body k0). split; [left|by apply signature_strip].
  - exists (" " +:+ signature event ts body k). split; [|rewrite strip_space; by apply signature_strip]. right. apply list_elem_of_fmap. exists (signature event ts body k). split; [done|]. by apply list_elem_of_fmap_2.
Qed.

Lemma joined_nonempty event ts body ks : ks ≠ [] → join ", " (signature event ts body <$> ks) ≠ EmptyString.
Proof. destruct ks as [|k ks]; [done|]. intros _ E. apply (f_equal chars) in E. rewrite fmap_cons, chars_join, chars_signature in E. done. Qed.

(** A delivery verifies for whoever holds the secret of one of its keys *)
Lemma sign_verifies body event etype ts ks rk now tol h k :
  event ≠ EmptyString → 0 ≤ ts < 10 ^ 12 → Forall (λ k, forallb plain (chars (key_id k)) = true) ks → k ∈ ks → assoc (key_id k) rk = Some (secret k) → secret k ≠ EmptyString →
  Z.abs (now - ts) ≤ tol → sign body event etype ts ks = Some h → verify_signature h body rk now tol = EmptyString.
Proof.
  intros Hev Hts Hall Hk Hr Hs Htol Hsign. assert (ks ≠ []) as Hne by (intros ->; by apply not_elem_of_nil in Hk).
  destruct (sign_parts event ts body k ks Hall Hk) as (part & Hin & Hstrip). pose proof (joined_nonempty event ts body ks Hne) as Hj. revert Hin Hj. unfold sign in Hsign. destruct ks as [|k0 ks]; [done|]. revert Hsign.
  generalize (join ", " (signature event ts body <$> k0 :: ks)). intros sig [= <-] Hin Hj. destruct (pretty_digits ts ltac:(lia)) as (ds & Hc & Hds & Hdig & Hint & Hlen). specialize (Hlen ltac:(lia)).
  unfold verify_signature. assert (lowered [(EVENT_ID_HEADER, event); (EVENT_TYPE_HEADER, etype); (TIMESTAMP_HEADER, pretty ts); (SIGNATURE_HEADER, sig); ("Content-Type", "application/json")] =
    [("agenticorg-event-id", event); ("agenticorg-event-type", etype); ("agenticorg-timestamp", pretty ts); ("agenticorg-signature", sig); ("content-type", "application/json")]) as -> by reflexivity.
  change (assoc (lower EVENT_ID_HEADER) _) with (Some event). change (assoc (lower TIMESTAMP_HEADER) _) with (Some (pretty ts)). change (assoc (lower SIGNATURE_HEADER) _) with (Some sig). cbn [default id].
  rewrite (proj2 (String.eqb_neq _ _) Hev), (proj2 (String.eqb_neq _ _) Hj), Hc, Hdig, Hint. cbn [orb]. rewrite (proj2 (String.eqb_neq (pretty ts) EmptyString)) by (intros E; rewrite E in Hc; by subst ds).
  rewrite (proj2 (Nat.ltb_ge _ _) Hlen), (proj2 (Z.ltb_ge _ _) Htol). cbn [negb orb andb]. rewrite (existsb_in _ _ part Hin); [done|]. eapply signature_accepted; [|done..]. by apply (proj1 (Forall_forall _ _) Hall).
Qed.

(** A delivery that verifies carries a fresh time and a signature of its event, time and body under a secret of the receiver *)
Lemma verified_is_signed h body rk now tol :
  verify_signature h body rk now tol = EmptyString →
  ∃ event time sig part k, assoc (lower EVENT_ID_HEADER) (lowered h) = Some event ∧ assoc (lower TIMESTAMP_HEADER) (lowered h) = Some time ∧ assoc (lower SIGNATURE_HEADER) (lowered h) = Some sig ∧
    event ≠ EmptyString ∧ forallb is_digit (chars time) = true ∧ Z.abs (now - int_of_digits (chars time)) ≤ tol ∧
    part ∈ split "," sig ∧ assoc (key_id k) rk = Some (secret k) ∧ secret k ≠ EmptyString ∧ strip part = signature event (int_of_digits (chars time)) body k.
Proof.
  unfold verify_signature. destruct (assoc (lower EVENT_ID_HEADER) _) as [event|]; [|by cbn]. destruct (assoc (lower SIGNATURE_HEADER) _) as [sig|]; cbn [default id]; [|by rewrite orb_true_r].
  destruct (String.eqb_spec event EmptyString) as [|Hev]; [done|]. destruct (String.eqb sig EmptyString); [done|]. cbn [orb].
  destruct (assoc (lower TIMESTAMP_HEADER) _) as [time|]; cbn [default id]; [|done]. destruct (forallb is_digit (chars time)) eqn:Hd; [|by rewrite andb_false_r].
  destruct (negb _ || _); [done|]. destruct (Z.ltb_spec tol (Z.abs (now - int_of_digits (chars time)))) as [|Htol]; [done|]. destruct (existsb _ _) eqn:Hex; [|done]. intros _.
  apply existsb_exists in Hex as (part & Hin & Hok). apply list_elem_of_In in Hin. apply accepted_is_signature in Hok as (k & Hr & Hs & Hstrip). by exists event, time, sig, part, k.
Qed.

(** * The keys of an endpoint *)

Lemma signing_keys_elem e ks k : signing_keys e = Ok ks → k ∈ ks ↔ k ∈ default [] (keys e).
Proof.
  unfold signing_keys, decrypt_keys. destruct (keys e) as [[|k0 ks0]|]; cbn; [done| |done]. intros [= <-]. apply (elem_of_sort_by _ k (k0 :: ks0)).
Qed.

(** After a rotation the new key and the newest of the old ones sign *)
Lemma rotate_exists e new k0 rest : keys e = Some (k0 :: rest) → rotate_signing_key (Some e) new = Ok {| url := url e; enabled := enabled e; keys := Some [new; k0]; active_key_id := key_id new |}.
Proof. intros He. unfold rotate_signing_key, decrypt_keys. cbn. rewrite He. cbn. by destruct rest. Qed.

Lemma endpoint_verifies e k body event etype ts rk now tol :
  event ≠ EmptyString → 0 ≤ ts < 10 ^ 12 → Z.abs (now - ts) ≤ tol → Forall (λ k, forallb plain (chars (key_id k)) = true) (default [] (keys e)) → k ∈ default [] (keys e) →
  assoc (key_id k) rk = Some (secret k) → secret k ≠ EmptyString →
  ∃ ks h, signing_keys e = Ok ks ∧ sign body event etype ts ks = Some h ∧ verify_signature h body rk now tol = EmptyString.
Proof.
  intros Hev Hts Htol Hall Hk Hr Hs. destruct (signing_keys e) as [ks|err] eqn:Hks.
  2:{ unfold signing_keys, decrypt_keys in Hks. destruct (keys e) as [[|? ?]|]; cbn in *; [|done|]; by apply not_elem_of_nil in Hk. }
  pose proof (proj2 (signing_keys_elem e ks k Hks) Hk) as Hin. destruct ks as [|k0 ks]; [by apply not_elem_of_nil in Hin|]. eexists _, _. split; [done|]. split; [reflexivity|].
  eapply (sign_verifies body event etype ts (k0 :: ks)); try done. apply Forall_forall. intros x Hx. apply (proj1 (Forall_forall _ _) Hall). by apply (signing_keys_elem e _ x Hks).
Qed.

(** The rows a dispatcher leases are a step of the outbox *)
Lemma dispatch_is_lease s b dr now e locked ds ds' ws l g w ls ks :
  ws !! w = None → dispatch_lease s now (Some e) locked ds = Ok (ds', ls, ks) → enabled e = true →
  Outbox.step s b dr {| deliveries := ds; workers := ws; sent := l; dropped := g; clock := now |}
    {| deliveries := ds'; workers := <[w := {| started := now; leased := ls; results := [] |}]> ws; sent := l; dropped := g; clock := now |}.
Proof.
  intros Hw Hd He. unfold dispatch_lease in Hd. rewrite He in Hd. destruct (signing_keys e); cbn in Hd; [|done]. simplify_eq. apply step_lease; [done|..].
  - unfold due_rows. eapply sublist_NoDup; [|apply sublist_take]. rewrite sort_by_Permutation.
    eapply sublist_NoDup; [apply (NoDup_fst_map_to_list ds)|]. clear. induction (map_to_list ds) as [|x xs IH]; cbn; [constructor|]. destruct (due _ _ && _); cbn; by constructor.
  - unfold due_rows. rewrite length_take. lia.
  - apply Forall_forall. intros i Hi. unfold due_rows in Hi. apply elem_of_take in Hi as (n & Hi & _). apply list_elem_of_lookup_2 in Hi. apply list_elem_of_fmap in Hi as ([i' d] & -> & Hi).
    rewrite elem_of_sort_by in Hi. apply list_elem_of_In, filter_In in Hi as [Hi Hdue]. apply list_elem_of_In, elem_of_map_to_list in Hi. exists d. split; [done|]. cbn in Hdue. by destruct (due now d).
Qed.

(** * Claim *)

(** C28. What an endpoint signs verifies, and what verifies was signed. A delivery signed with the keys of an
    endpoint (key ids without separators, a non-empty event id, a time below 10^12 seconds) and received
    within the tolerance verifies for a receiver that holds one of those keys with a non-empty secret; when
    the keys are rotated before it is signed, it verifies for a receiver that holds only the key that was
    the newest before the rotation (the rotation keeps that one and drops any older key). And
    whatever verifies is within the tolerance and carries a signature of its event, its time and its body
    under a secret of the receiver. *)
Theorem push_signature_exact (e : CasePushEndpoint) (body event etype : string) (ts now tol : Z) (rk : list (string * string)) (k new : SigningKey) :
  event ≠ EmptyString → 0 ≤ ts < 10 ^ 12 → Z.abs (now - ts) ≤ tol → Forall (λ k, forallb plain (chars (key_id k)) = true) (new :: default [] (keys e)) →
  assoc (key_id k) rk = Some (secret k) → secret k ≠ EmptyString →
  (k ∈ default [] (keys e) → ∃ ks h, signing_keys e = Ok ks ∧ sign body event etype ts ks = Some h ∧ verify_signature h body rk now tol = EmptyString) ∧
  (head (default [] (keys e)) = Some k → ∃ e' ks h, rotate_signing_key (Some e) new = Ok e' ∧ signing_keys e' = Ok ks ∧ sign body event etype ts ks = Some h ∧ verify_signature h body rk now tol = EmptyString) ∧
  (∀ h body, verify_signature h body rk now tol = EmptyString →
     ∃ event time sig part k, assoc (lower EVENT_ID_HEADER) (lowered h) = Some event ∧ assoc (lower TIMESTAMP_HEADER) (lowered h) = Some time ∧ assoc (lower SIGNATURE_HEADER) (lowered h) = Some sig ∧
       Z.abs (now - int_of_digits (chars time)) ≤ tol ∧ part ∈ split "," sig ∧ assoc (key_id k) rk = Some (secret k) ∧ secret k ≠ EmptyString ∧
       strip part = signature event (int_of_digits (chars time)) body k).
Proof.
  intros Hev Hts Htol Hall Hr Hs. apply Forall_cons in Hall as [Hnew Hall]. split_and!.
  - intros Hk. by apply (endpoint_verifies e k).
  - intros Hk. destruct (keys e) as [[|k0 rest]|] eqn:Ek; try done. cbn in Hk. injection Hk as ->. eexists. rewrite rotate_exists with (k0 := k) (rest := rest) by done.
    destruct (endpoint_verifies {| url := url e; enabled := enabled e; keys := Some [new; k]; active_key_id := key_id new |} k body event etype ts rk now tol) as (ks & h & H1 & H2 & H3); try done.
    + cbn. constructor; [done|]. cbn in Hall. apply Forall_cons in Hall as [? _]. by constructor.
    + cbn. right. left.
    + by exists ks, h.
  - intros h body' Hv. destruct (verified_is_signed h body' rk now tol Hv) as (ev & time & sig & part & k' & H). exists ev, time, sig, part, k'. naive_solver.
Qed.

Module CasePushExample.
Definition old : SigningKey := {| key_id := "k_01"; secret := "first" |}.
Definition new : SigningKey := {| key_id := "k_02"; secret := "second" |}.
Definition endpoint : CasePushEndpoint := {| url := "https://cases.example/in"; enabled := true; keys := Some [old]; active_key_id := "k_01" |}.
End CasePushExample.

(** A receiver that was not told of the new key yet *)
Lemma push_signature_exact_witness :
  ∃ e' ks h, rotate_signing_key (Some CasePushExample.endpoint) CasePushExample.new = Ok e' ∧ signing_keys e' = Ok ks ∧
    sign "{}" "ev-1" "case.decided" 1700000000 ks = Some h ∧ verify_signature h "{}" [("k_01", "first")] 1700000100 DEFAULT_TOLERANCE_SECONDS = EmptyString.
Proof.
  destruct (push_signature_exact CasePushExample.endpoint "{}" "ev-1" "case.decided" 1700000000 1700000100 DEFAULT_TOLERANCE_SECONDS [("k_01", "first")] CasePushExample.old CasePushExample.new)
    as (_ & H & _); [done|lia|vm_compute; discriminate|by repeat constructor|done|done|]. by apply H.
Defined.
