(* ===== verification/UcpWebhooks.v ===== *)
(** Order webhooks: src/core/commerce/ucp/webhooks.py, the routes that manage subscriptions in
    src/api/v1/commerce_ucp.py, and their tables in src/core/models/commerce_ucp.py, for one tenant.

    Rows are retried and dead-lettered as [Outbox] says. The renderers of payloads are pluggable, so the
    body of an event under a scheme is an argument; so is the result of signing a UCP request, which
    needs the merchant's key store. *)

From S2P Require Import Prelude PyVal PyText Digest AuditLink Outbox CasePush.

Local Open Scope Z_scope.

Inductive Scheme := ucp | acp_hmac.
Inductive Source := platform_profile | by_merchant.

#[global] Instance Scheme_eq_dec : EqDecision Scheme.
Proof. solve_decision. Defined.
#[global] Instance Source_eq_dec : EqDecision Source.
Proof. solve_decision. Defined.

(** [sub_keys]: [None] when they cannot be decrypted *)
Record Subscription := {
  sub_merchant : string; sub_url : string; scheme : Scheme; source : Source; platform_profile_url : option string; sub_enabled : bool;
  sub_keys : option (list SigningKey); sub_active_key : option string }.

(** The unique constraint of the table *)
Definition same_target (m u : string) (sc : Scheme) (s : Subscription) : bool := bool_decide (sub_merchant s = m ∧ sub_url s = u ∧ scheme s = sc).

Abbreviation Subscriptions := (gmap string Subscription).

Definition find_target (m u : string) (sc : Scheme) (subs : Subscriptions) : option (string * Subscription) :=
  head (List.filter (λ kv, same_target m u sc kv.2) (map_to_list subs)).

Inductive webhook_error := platform_required | platform_invalid | webhook_url_invalid | subscription_exists | scheme_invalid | subscription_not_found | keys_unreadable.


Definition receives_order (s : Subscription) (order_platform : option string) : bool :=
  if bool_decide (source s = platform_profile) || bool_decide (scheme s = acp_hmac)
  then match platform_profile_url s with Some p => bool_decide (order_platform = Some p) | None => false end
  else true.


Definition sub_decrypt_keys (s : Subscription) : result webhook_error (list SigningKey) :=
  match sub_keys s with Some (k :: ks) => Ok (k :: ks) | _ => Err keys_unreadable end.




(** The subscription of a platform's profile; an unusable url or one that belongs to somebody else changes nothing *)
Definition ensure_platform_subscription (subs : Subscriptions) (id m : string) (checked : option string) (platform : string) : Subscriptions * option string :=
  match checked with
  | None => (subs, None)
  | Some target =>
      match find_target m target ucp subs with
      | Some (i, s) => (subs, if bool_decide (source s = platform_profile ∧ platform_profile_url s = Some platform) then Some i else None)
      | None => (<[id := {| sub_merchant := m; sub_url := target; scheme := ucp; source := platform_profile; platform_profile_url := Some platform; sub_enabled := true;
                            sub_keys := None; sub_active_key := None |}]> subs, Some id)
      end
  end.

(** * The outbox *)

Inductive EventType := order_created | order_updated.

Record OrderEvent := { event_type : EventType; ev_merchant : string; ev_order : string; ev_revision : Z; render : Scheme → string }.

Record Hook := { hook_merchant : string; hook_event : EventType; payload : string; created_at : Z; row : Delivery }.
(** Keyed by the subscription, the order and its revision: the unique constraint of the table *)
Abbreviation Hooks := (gmap (string * string * Z) Hook).

(** What a delivery is identified by: [uuid5] of this text *)
Definition webhook_name (k : string * string * Z) : string := k.1.1 +:+ ":" +:+ k.1.2 +:+ ":" +:+ pretty k.2.

Definition enqueue_one (e : OrderEvent) (platform : option string) (now : Z) (id : string) (s : Subscription) (hs : Hooks) : Hooks :=
  if bool_decide (sub_merchant s = ev_merchant e) && sub_enabled s && receives_order s platform
  then match hs !! (id, ev_order e, ev_revision e) with
       | Some _ => hs
       | None => <[(id, ev_order e, ev_revision e) := {| hook_merchant := ev_merchant e; hook_event := event_type e; payload := render e (scheme s); created_at := now; row := fresh now |}]> hs
       end
  else hs.

Definition enqueue_order_deliveries (subs : Subscriptions) (e : OrderEvent) (platform : option string) (now : Z) (hs : Hooks) : Hooks := map_fold (enqueue_one e platform now) hs subs.

(** * Orders *)

Record Order := { order_merchant : string; order_platform : option string; revision : Z }.
Record tenant := { subscriptions : Subscriptions; orders : gmap string Order; hooks : Hooks }.

(** The end of [_complete_into_order]: [hook_url] is what the platform's profile names, as validated, and [sid] an id drawn *)
Definition place_order (t : tenant) (sid oid m : string) (platform : option string) (hook_url : option (option string)) (body : Scheme → string) (now : Z) : tenant :=
  let subs := match hook_url, platform with Some checked, Some p => fst (ensure_platform_subscription (subscriptions t) sid m checked p) | _, _ => subscriptions t end in
  let e := {| event_type := order_created; ev_merchant := m; ev_order := oid; ev_revision := 1; render := body |} in
  {| subscriptions := subs; orders := <[oid := {| order_merchant := m; order_platform := platform; revision := 1 |}]> (orders t);
     hooks := enqueue_order_deliveries subs e platform now (hooks t) |}.


(** * The dispatcher *)

Record Item := {
  item_id : string * string * Z; item_payload : string; item_attempts : Z; item_url : string; item_scheme : Scheme; item_keys : list SigningKey; item_merchant : string;
  event_timestamp : Z }.

Definition hook_with (h : Hook) (d : Delivery) : Hook := {| hook_merchant := hook_merchant h; hook_event := hook_event h; payload := payload h; created_at := created_at h; row := d |}.

Definition item_keys_of (s : Subscription) : result webhook_error (list SigningKey) :=
  if bool_decide (scheme s = acp_hmac)
  then ks ← sub_decrypt_keys s; Ok (sort_by (λ a b, bool_decide (Some (key_id a) = sub_active_key s) || negb (bool_decide (Some (key_id b) = sub_active_key s))) ks)
  else Ok [].

(** One due row: given up, or leased with what is to be sent *)
Definition lease_one (s : PushSettings) (t : tenant) (now : Z) (acc : Hooks * list Item) (k : string * string * Z) : result webhook_error (Hooks * list Item) :=
  match acc.1 !! k with
  | None => Ok acc
  | Some h =>
      match subscriptions t !! k.1.1, orders t !! k.1.2 with
      | Some sub, Some _ =>
          if sub_enabled sub then
            ks ← item_keys_of sub;
            let d := lease_row s now (row h) in
            Ok (<[k := hook_with h d]> acc.1,
                acc.2 ++ [{| item_id := k; item_payload := payload h; item_attempts := attempts d; item_url := sub_url sub; item_scheme := scheme sub; item_keys := ks; item_merchant := hook_merchant h;
                             event_timestamp := created_at h `div` 1000000 |}])
          else Ok (<[k := hook_with h (abandon s now (row h))]> acc.1, acc.2)
      | _, _ => Ok (<[k := hook_with h (abandon s now (row h))]> acc.1, acc.2)
      end
  end.

(** [locked]: the rows other transactions hold *)
Definition due_hooks (s : PushSettings) (now : Z) (locked : list (string * string * Z)) (hs : Hooks) : list (string * string * Z) :=
  take (batch_size s) (fst <$> sort_by (λ a b, next_attempt_at (row a.2) <=? next_attempt_at (row b.2))
    (List.filter (λ kh, due now (row kh.2) && negb (bool_decide (kh.1 ∈ locked))) (map_to_list hs))).

Fixpoint lease_all (s : PushSettings) (t : tenant) (now : Z) (acc : Hooks * list Item) (ks : list (string * string * Z)) : result webhook_error (Hooks * list Item) :=
  match ks with [] => Ok acc | k :: ks => acc ← lease_one s t now acc k; lease_all s t now acc ks end.

(** The first transaction of [dispatch_tenant]: an error undoes all of it *)
Definition dispatch_tenant_lease (s : PushSettings) (now : Z) (locked : list (string * string * Z)) (t : tenant) : result webhook_error (tenant * list Item) :=
  acc ← lease_all s t now (hooks t, []) (due_hooks s now locked (hooks t));
  Ok ({| subscriptions := subscriptions t; orders := orders t; hooks := acc.1 |}, acc.2).




(** * Every run *)


Section runs.
Context (s : PushSettings).


Definition empty_tenant : tenant := {| subscriptions := ∅; orders := ∅; hooks := ∅ |}.
End runs.

(** * Who receives what *)




































(** * Claims *)


Module WebhookExample.
Definition body (sc : Scheme) : string := match sc with ucp => "{order}" | acp_hmac => "{event}" end.
Definition placed : tenant := place_order empty_tenant "s1" "o1" "m1" (Some "https://agent.example/profile") (Some (Some "https://agent.example/hook")) body 0.


(** A tenant with a second subscriber whose keys cannot be read any more *)
Definition unreadable : Subscription :=
  {| sub_merchant := "m1"; sub_url := "https://acp.example/hook"; scheme := acp_hmac; source := by_merchant; platform_profile_url := Some "acp:api_key:1"; sub_enabled := true; sub_keys := None;
     sub_active_key := Some "k_1" |}.
Definition two_orders : tenant :=
  {| subscriptions := <["s2" := unreadable]> (subscriptions placed); orders := <["o2" := {| order_merchant := "m1"; order_platform := Some "acp:api_key:1"; revision := 1 |}]> (orders placed);
     hooks := <[("s2", "o2", 1) := {| hook_merchant := "m1"; hook_event := order_created; payload := "{event}"; created_at := 0; row := fresh 0 |}]> (hooks placed) |}.
End WebhookExample.


(** One subscription with unreadable keys stops every delivery of its tenant, those of other subscribers included: its error undoes the
    leases of all, and since no attempt is counted the same rows are due at the next sweep. *)
Theorem unreadable_key_stops_tenant :
  due_hooks default_settings 0 [] (hooks WebhookExample.two_orders) ≡ₚ [("s1", "o1", 1); ("s2", "o2", 1)] ∧ item_keys_of WebhookExample.unreadable = Err keys_unreadable ∧
  dispatch_tenant_lease default_settings 0 [] WebhookExample.two_orders = Err keys_unreadable ∧ dispatch_tenant_lease default_settings (seconds 1000000) [] WebhookExample.two_orders = Err keys_unreadable.
Proof. split_and!; [|reflexivity|vm_compute; reflexivity|vm_compute; reflexivity]. vm_compute. first [reflexivity|apply Permutation_swap]. Qed.
