(* ===== verification/SpendDecimal.v ===== *)
(** Finite decimals of Python's [decimal] as the spend components use them: values are exact rationals, and
    an operation in a context of precision [p] rounds its exact result to [p] significant digits, half to
    even. Exponents stay far inside the limits of a context, so only [quantize] can raise: when the result needs more digits
    than the precision. *)

From Stdlib Require Import QArith Qabs Lqa.
From S2P Require Import Prelude PyNumber UcpQuantity.

Local Open Scope Z_scope.

(** * Rounding *)

(** [q * 10 ^ k] to the nearest integer; [k] may be negative *)
Definition round_at (k : Z) (q : Q) : Z := round_div (Qnum q * 10 ^ Z.max 0 k) (Zpos (Qden q) * 10 ^ Z.max 0 (- k)).

(** [z * 10 ^ - k] *)
Definition scaled (z k : Z) : Q := Qmake (z * 10 ^ Z.max 0 (- k)) (Z.to_pos (10 ^ Z.max 0 k)).

(** The number of decimal digits of a positive number *)
Fixpoint digits_loop (fuel : nat) (n : Z) : Z := match fuel with O => 0 | S fuel => if n <=? 0 then 0 else 1 + digits_loop fuel (n / 10) end.
Definition digits (n : Z) : Z := digits_loop (S (Z.to_nat (Z.log2 n))) n.

(** The power of ten of the leading digit of [num / den] *)
Definition leading (num den : Z) : Z :=
  let e := digits num - digits den in if num * 10 ^ Z.max 0 (- e) <? den * 10 ^ Z.max 0 e then e - 1 else e.

Definition round_sig (p : Z) (q : Q) : Q :=
  let q := Qred q in
  if Qnum q =? 0 then 0%Q else let k := p - 1 - leading (Z.abs (Qnum q)) (Zpos (Qden q)) in Qred (scaled (round_at k q) k).

(** Arithmetic in a context of precision [p] *)
Definition dadd (p : Z) (a b : Q) : Q := round_sig p (a + b).
Definition dsub (p : Z) (a b : Q) : Q := round_sig p (a - b).
Definition dmul (p : Z) (a b : Q) : Q := round_sig p (a * b).
Definition ddiv (p : Z) (a b : Q) : Q := round_sig p (a / b).

(** [value.quantize(Decimal(10) ** -places)]; [None]: [InvalidOperation] *)
Definition quantize (p places : Z) (q : Q) : option Q :=
  let r := round_at places (Qred q) in if Z.abs r <? 10 ^ p then Some (Qred (scaled r places)) else None.

Definition dec_max (a b : Q) : Q := if Qle_bool a b then b else a.
Definition dec_min (a b : Q) : Q := if Qle_bool a b then a else b.

(** The precision of the default context, and of [Context(prec=38)] *)
Definition DEFAULT_PREC : Z := 28.
Definition MONEY_PREC : Z := 38.

(** * Digits *)

Lemma digits_loop_spec fuel n : 0 < n → Z.log2 n < Z.of_nat fuel → 1 ≤ digits_loop fuel n ∧ 10 ^ (digits_loop fuel n - 1) ≤ n < 10 ^ digits_loop fuel n.
Proof.
  revert n. induction fuel as [|fuel IH]; intros n Hn Hf; [pose proof (Z.log2_nonneg n); lia|]. cbn [digits_loop]. rewrite (proj2 (Z.leb_gt _ _)) by lia.
  destruct (Z_lt_le_dec n 10) as [Hs|Hb].
  - rewrite Z.div_small by lia. assert (digits_loop fuel 0 = 0) as -> by by destruct fuel. cbn. lia.
  - assert (0 < n / 10) as Hd by (apply Z.div_str_pos; lia). assert (Z.log2 (n / 10) < Z.of_nat fuel) as Hl.
    { assert (Z.log2 (n / 10) ≤ Z.log2 (n / 2 ^ 1)) by (apply Z.log2_le_mono, Z.div_le_compat_l; lia).
      rewrite <- Z.shiftr_div_pow2, Z.log2_shiftr in H by lia. assert (1 ≤ Z.log2 n) by (change 1 with (Z.log2 2); apply Z.log2_le_mono; lia). lia. }
    destruct (IH _ Hd Hl) as (H1 & H2 & H3). set (k := digits_loop fuel (n / 10)) in *. replace (1 + k - 1) with (Z.succ (k - 1)) by lia. rewrite Z.pow_succ_r by lia.
    replace (1 + k) with (Z.succ k) by lia. rewrite Z.pow_succ_r by lia. pose proof (Z.div_mod n 10 ltac:(lia)). pose proof (Z.mod_pos_bound n 10 ltac:(lia)). lia.
Qed.

Lemma digits_spec n : 0 < n → 1 ≤ digits n ∧ 10 ^ (digits n - 1) ≤ n < 10 ^ digits n.
Proof. intros Hn. apply digits_loop_spec; [done|]. rewrite Nat2Z.inj_succ, Z2Nat.id by apply Z.log2_nonneg. lia. Qed.

Lemma leading_lower a d : 0 < a → 0 < d → let e := leading a d in d * 10 ^ Z.max 0 e ≤ a * 10 ^ Z.max 0 (- e).
Proof.
  intros Ha Hd. cbn zeta. unfold leading. destruct (digits_spec a Ha) as (Hda & Ha1 & _), (digits_spec d Hd) as (Hdd & _ & Hd2). set (e := digits a - digits d).
  destruct (Z.ltb_spec (a * 10 ^ Z.max 0 (- e)) (d * 10 ^ Z.max 0 e)) as [Hlt|]; [|lia]. destruct (Z_le_gt_dec 1 e) as [He|He].
  - rewrite (Z.max_r 0 (e - 1)), (Z.max_l 0 (- (e - 1))) by lia. assert (10 ^ (digits a - 1) = 10 ^ digits d * 10 ^ (e - 1)) as E by (rewrite <- Z.pow_add_r by lia; f_equal; lia). nia.
  - rewrite (Z.max_l 0 (e - 1)), (Z.max_r 0 (- (e - 1))) by lia. assert (10 ^ digits d = 10 ^ (digits a - 1) * 10 ^ (- (e - 1))) as E by (rewrite <- Z.pow_add_r by lia; f_equal; lia). nia.
Qed.

(** [q] is [z] at [k] decimal places *)
Definition at_places (k : Z) (q : Q) (z : Z) : Prop := 0 ≤ k ∧ Qnum q * 10 ^ k = z * Zpos (Qden q).

Lemma at_places_scaled k z : 0 ≤ k → at_places k (scaled z k) z.
Proof. intros Hk. split; [done|]. unfold scaled. cbn [Qnum Qden]. rewrite (Z.max_l 0 (- k)), (Z.max_r 0 k), Z2Pos.id by lia. lia. Qed.

Lemma at_places_Qeq k q q' z : q == q' → at_places k q z → at_places k q' z.
Proof. unfold Qeq, at_places. intros E [Hk H]. split; [done|]. nia. Qed.

Lemma at_places_unique k q q' z : at_places k q z → at_places k q' z → q == q'.
Proof. unfold Qeq, at_places. intros [Hk H] [_ H']. assert (0 < 10 ^ k) by lia. nia. Qed.

Lemma at_places_more k k' q z : k ≤ k' → at_places k q z → at_places k' q (z * 10 ^ (k' - k)).
Proof. intros Hk [H0 H]. split; [lia|]. replace (10 ^ k') with (10 ^ k * 10 ^ (k' - k)) by (rewrite <- Z.pow_add_r by lia; f_equal; lia). nia. Qed.

Lemma at_places_add k a b x y : at_places k a x → at_places k b y → at_places k (a + b) (x + y).
Proof. unfold at_places. cbn [Qplus Qnum Qden]. intros [Hk Ha] [_ Hb]. split; [done|]. rewrite Pos2Z.inj_mul.
  transitivity (Qnum a * 10 ^ k * Zpos (Qden b) + Qnum b * 10 ^ k * Zpos (Qden a)); [ring|]. rewrite Ha, Hb. ring.
Qed.

Lemma at_places_sub k a b x y : at_places k a x → at_places k b y → at_places k (a - b) (x - y).
Proof. intros Ha Hb. unfold Qminus. apply (at_places_add k a (- b) x (- y)); [done|]. destruct Hb as [Hk Hb]. split; [done|]. cbn [Qopp Qnum Qden]. by rewrite !Z.mul_opp_l, Hb. Qed.

Lemma at_places_mul k k' a b x y : at_places k a x → at_places k' b y → at_places (k + k') (a * b) (x * y).
Proof. unfold at_places. cbn [Qmult Qnum Qden]. intros [Hk Ha] [Hk' Hb]. split; [lia|]. rewrite Pos2Z.inj_mul, Z.pow_add_r by lia.
  transitivity (Qnum a * 10 ^ k * (Qnum b * 10 ^ k')); [ring|]. rewrite Ha, Hb. ring.
Qed.

Lemma at_places_Z z : at_places 0 (inject_Z z) z.
Proof. split; [done|]. cbn. lia. Qed.

Lemma at_places_le k a b x y : at_places k a x → at_places k b y → (a <= b)%Q ↔ x ≤ y.
Proof.
  unfold at_places, Qle. intros [Hk Ha] [_ Hb]. rewrite (Z.mul_le_mono_pos_r _ _ (10 ^ k)) by lia. rewrite (Z.mul_le_mono_pos_r x y (Zpos (Qden a) * Zpos (Qden b))) by lia.
  replace (Qnum a * Zpos (Qden b) * 10 ^ k) with (Qnum a * 10 ^ k * Zpos (Qden b)) by ring. replace (Qnum b * Zpos (Qden a) * 10 ^ k) with (Qnum b * 10 ^ k * Zpos (Qden a)) by ring.
  rewrite Ha, Hb. replace (x * Zpos (Qden a) * Zpos (Qden b)) with (x * (Zpos (Qden a) * Zpos (Qden b))) by ring. by replace (y * Zpos (Qden b) * Zpos (Qden a)) with (y * (Zpos (Qden a) * Zpos (Qden b))) by ring.
Qed.

(** A result that needs no more digits than the precision is exact *)
Lemma round_sig_exact p k q z : 1 ≤ p → at_places k q z → Z.abs z < 10 ^ p → round_sig p q == q.
Proof.
  intros Hp Hz Hlt. unfold round_sig. apply (at_places_Qeq k q (Qred q)) in Hz; [|symmetry; apply Qred_correct]. transitivity (Qred q); [|apply Qred_correct]. generalize dependent (Qred q). intros [n d] [Hk Hz]. cbn [Qnum Qden] in *.
  destruct (Z.eqb_spec n 0) as [->|Hn]; [done|]. rewrite Qred_correct. pose proof (leading_lower (Z.abs n) (Zpos d) ltac:(lia) ltac:(lia)) as Hlead. cbn zeta in Hlead. set (e := leading _ _) in *.
  assert (Z.abs z * Zpos d = Z.abs n * 10 ^ k) as Habs by (rewrite <- (Z.abs_eq (Zpos d)), <- Z.abs_mul, <- Hz, Z.abs_mul, (Z.abs_eq (10 ^ k)) by lia; done).
  assert (k ≤ p - 1 - e) as Hle.
  { destruct (Z_le_gt_dec k (p - 1 - e)) as [|Hgt]; [done|exfalso]. assert (0 < 10 ^ k) by lia. destruct (Z_le_gt_dec 0 e) as [He|He].
    - rewrite (Z.max_r 0 e), (Z.max_l 0 (- e)) in Hlead by lia. assert (10 ^ p ≤ 10 ^ e * 10 ^ k) by (rewrite <- Z.pow_add_r by lia; apply Z.pow_le_mono_r; lia). nia.
    - rewrite (Z.max_l 0 e), (Z.max_r 0 (- e)) in Hlead by lia. assert (10 ^ k = 10 ^ (k + e) * 10 ^ (- e)) as E by (rewrite <- Z.pow_add_r by lia; f_equal; lia).
      assert (10 ^ p ≤ 10 ^ (k + e)) by (apply Z.pow_le_mono_r; lia). assert (0 < 10 ^ (- e)) by lia. assert (10 ^ k ≤ Z.abs z * 10 ^ (- e)) by nia. nia. }
  set (K := p - 1 - e) in *. apply (at_places_unique K _ _ (z * 10 ^ (K - k))); [|apply (at_places_more k); done].
  assert (round_at K (n # d) = z * 10 ^ (K - k)) as ->; [|apply at_places_scaled; lia].
  unfold round_at. cbn [Qnum Qden]. rewrite (Z.max_r 0 K), (Z.max_l 0 (- K)) by lia. replace (n * 10 ^ K) with (z * 10 ^ (K - k) * (Zpos d * 10 ^ 0)); [apply round_div_exact; lia|].
  replace (10 ^ K) with (10 ^ k * 10 ^ (K - k)) by (rewrite <- Z.pow_add_r by lia; f_equal; lia). nia.
Qed.

#[global] Instance round_sig_Proper p : Proper (Qeq ==> eq) (round_sig p).
Proof. intros a b E. unfold round_sig. by rewrite (Qred_complete a b E). Qed.

#[global] Instance quantize_Proper p k : Proper (Qeq ==> eq) (quantize p k).
Proof. intros a b E. unfold quantize. by rewrite (Qred_complete a b E). Qed.

Lemma quantize_exact p k q z : at_places k q z → Z.abs z < 10 ^ p → ∃ r, quantize p k q = Some r ∧ r == q.
Proof.
  intros Hz Hlt. unfold quantize. pose proof Hz as Hz'. apply (at_places_Qeq k q (Qred q)) in Hz; [|symmetry; apply Qred_correct]. destruct Hz as [Hk Hz].
  assert (round_at k (Qred q) = z) as ->. { unfold round_at. rewrite (Z.max_r 0 k), (Z.max_l 0 (- k)) by lia. rewrite Hz. replace (Zpos (Qden (Qred q)) * 10 ^ 0) with (Zpos (Qden (Qred q))) by lia. apply round_div_exact. lia. }
  rewrite (proj2 (Z.ltb_lt _ _) Hlt). eexists. split; [done|]. rewrite Qred_correct. eapply at_places_unique; [by apply at_places_scaled|done].
Qed.
