(* ===== verification/SpendPricing.v ===== *)
(** The pricing engine of spend: src/core/spend/pricing.py, with the tables of src/core/spend/vocab.py it reads.

    Dates are day numbers. The list prices of the deployment ([core.governance.model_pricing.price_for])
    are an argument. Amounts are decimals ([SpendDecimal]); [None] of a priced usage is the exception of [quantize]. *)

From Stdlib Require Import Ascii QArith Qabs Lqa.
From S2P Require Import Prelude PyVal PyText PyNumber UcpQuantity SpendDecimal.

Local Open Scope Z_scope.

(** * Tables *)

Inductive Divisor := Per (n : Z) | Month.

Definition PRICE_PATHS (unit : string) : list (string * string * Divisor) :=
  if String.eqb unit "input_token" then [("1m_input_tokens", "unit_price", Per 1000000)]
  else if String.eqb unit "output_token" then [("1m_output_tokens", "unit_price", Per 1000000)]
  else if String.eqb unit "cached_input_token" then
    [("1m_cached_input_tokens", "unit_price", Per 1000000); ("1m_input_tokens", "cached_unit_price", Per 1000000); ("1m_input_tokens", "unit_price", Per 1000000)]
  else if String.eqb unit "token" then [("1m_tokens", "unit_price", Per 1000000); ("blend", EmptyString, Per 1000000)]
  else if String.eqb unit "embedding_token" then [("1m_embedding_tokens", "unit_price", Per 1000000)]
  else if String.eqb unit "ocr_page" then [("ocr_page", "unit_price", Per 1)]
  else if String.eqb unit "audio_minute" then [("audio_minute", "unit_price", Per 1)]
  else if String.eqb unit "call" then [("call", "unit_price", Per 1)]
  else if String.eqb unit "gb_day" then [("gb_day", "unit_price", Per 1); ("gb_month", "unit_price", Month)]
  else if String.eqb unit "gpu_node_hour" then [("gpu_node_hour", "unit_price", Per 1)]
  else [].

Definition NO_DISCOUNT_PATHS (unit : string) : list nat := if String.eqb unit "cached_input_token" then [2%nat] else [].

Definition CANONICAL_UNIT (unit : string) : option string :=
  assoc unit [("input_token", "1m_input_tokens"); ("cached_input_token", "1m_cached_input_tokens"); ("output_token", "1m_output_tokens"); ("token", "1m_tokens");
              ("embedding_token", "1m_embedding_tokens"); ("ocr_page", "ocr_page"); ("audio_minute", "audio_minute"); ("call", "call"); ("gb_day", "gb_day"); ("gpu_node_hour", "gpu_node_hour")].

Definition CANONICAL_DIVISOR (unit : string) : option Z :=
  assoc unit [("1m_input_tokens", 1000000); ("1m_output_tokens", 1000000); ("1m_cached_input_tokens", 1000000); ("1m_tokens", 1000000); ("1m_embedding_tokens", 1000000);
              ("ocr_page", 1); ("audio_minute", 1); ("call", 1); ("gb_day", 1); ("gpu_node_hour", 1)].

Definition IN_HOUSE_PROVIDERS : list string := ["ollama"; "vllm"; "local_embeddings"; "tei"; "tesseract"; "faster_whisper"].
Definition ZERO_PRICED_IN_HOUSE : list string := ["llm_tokens"; "embedding_tokens"; "ocr_pages"; "speech_minutes"].
Definition REPORTING_CURRENCY : string := "INR".
Definition AMOUNT_PLACES : Z := 10.
Definition QTY_PLACES : Z := 6.

(** [calendar.monthrange(year, month)[1]] of a day *)
Definition days_in_month (day : Z) : Z :=
  let '(y, m, _) := civil_from_days day in
  if m =? 2 then (if (y mod 4 =? 0) && (negb (y mod 100 =? 0) || (y mod 400 =? 0)) then 29 else 28)
  else if bool_decide (m ∈ [4; 6; 9; 11]) then 30 else 31.

(** * Data *)

Record Tier := { from_quantity : Q; tier_price : Q }.
Record Card := {
  card_id : string; provider : string; usage_type : string; model_sku : string; unit : string; unit_price : Q; currency : string; cached_unit_price : option Q; batch_discount_pct : Q;
  volume_tiers : list Tier; tier_mode : string; effective_from : Z; effective_to : option Z; source : string; card_status : string }.
Record FxRate := { rate_date : Z; rate_to_inr : Q }.
Record Usage := {
  u_provider : string; u_usage_type : string; u_unit : string; quantity : Q; model : string; on_ : Z; fx_on : Z; batch : bool; called_model : string }.
Record Selection := {
  sel_card : option Card; blend_card : option Card; sel_price : Q; divisor : Z; sel_source : string; path_index : nat; card_unit : string; estimated : bool; sel_currency : string }.
Record Priced := {
  amount : option Q; p_currency : option string; p_unit_price : option Q; amount_inr : option Q; fx_rate : option Q; fx_rate_date : option Z; rate_card_id : option string;
  blend_card_id : option string; p_card_unit : option string; price_source : string; is_unpriced : bool; fx_estimated : bool; unconverted : bool; price_estimated : bool }.

Definition INPUT_SHARE : Q := 3 # 4.
Definition OUTPUT_SHARE : Q := 1 # 4.

(** * Which card prices a usage *)

Definition in_force (c : Card) (on : Z) : bool := (effective_from c <=? on) && match effective_to c with None => true | Some e => on <? e end.

(** A rank with the ids that break ties: the lowest wins *)
Definition rank := (Z * (Z * (Z * (Z * (Z * (string * string))))))%type.

(** Tuples are compared at the first place they differ *)
Definition lex {A B} (la : A → A → bool) (lb : B → B → bool) (a b : A * B) : bool := la (fst a) (fst b) && (negb (la (fst b) (fst a)) || lb (snd a) (snd b)).
Definition rank_leb : rank → rank → bool := lex Z.leb (lex Z.leb (lex Z.leb (lex Z.leb (lex Z.leb (lex String.leb String.leb))))).

Definition rank_key (specific : bool) (index : nat) (u source : string) (start : Z) (ids : string * string) : rank :=
  (if specific then 0 else 1, (if bool_decide (index ∈ NO_DISCOUNT_PATHS u) then 1 else 0, (if String.eqb source "contract" then 0 else 1, (Z.of_nat index, (- start, ids))))).

Definition _divisor (d : Divisor) (on : Z) : Z := match d with Month => days_in_month on | Per n => n end.

Definition candidate_of (u : Usage) (cu : string) (c : Card) : option (bool * Card) :=
  if String.eqb (card_status c) "active" && String.eqb (unit c) cu && in_force c (on_ u) && String.eqb (provider c) (u_provider u) && String.eqb (usage_type c) (u_usage_type u)
  then if negb (String.eqb (model_sku c) EmptyString) && String.eqb (model_sku c) (model u) then Some (true, c)
       else if String.eqb (model_sku c) EmptyString then Some (false, c) else None
  else None.

Definition _candidates_for (u : Usage) (cards : list Card) (cu : string) : list (bool * Card) := omap (M := list) (candidate_of u cu) cards.

Definition blend_entry (u : Usage) (index : nat) (d : Divisor) (i o : bool * Card) : option (rank * Selection) :=
  if negb (Bool.eqb (fst i) (fst o)) || negb (String.eqb (currency (snd i)) (currency (snd o))) then None
  else
    let src := if String.eqb (source (snd i)) (source (snd o)) && String.eqb (source (snd o)) "contract" then "contract" else "list" in
    let started := Z.max (effective_from (snd i)) (effective_from (snd o)) in
    Some (rank_key (fst i) index (u_unit u) src started (card_id (snd i), card_id (snd o)),
          {| sel_card := Some (snd i); blend_card := Some (snd o);
             sel_price := dadd MONEY_PREC (dmul MONEY_PREC (unit_price (snd i)) INPUT_SHARE) (dmul MONEY_PREC (unit_price (snd o)) OUTPUT_SHARE);
             divisor := _divisor d (on_ u); sel_source := src; path_index := index; card_unit := "blend"; estimated := true; sel_currency := currency (snd i) |}).

Definition direct_entry (u : Usage) (index : nat) (cu field : string) (d : Divisor) (sc : bool * Card) : option (rank * Selection) :=
  let c := snd sc in
  price ← (if String.eqb field "cached_unit_price" then cached_unit_price c else Some (unit_price c));
  Some (rank_key (fst sc) index (u_unit u) (source c) (effective_from c) (card_id c, EmptyString),
        {| sel_card := Some c; blend_card := None; sel_price := price; divisor := _divisor d (on_ u); sel_source := source c; path_index := index; card_unit := cu; estimated := false;
           sel_currency := currency c |}).

Definition path_entries (u : Usage) (cards : list Card) (index : nat) (path : string * string * Divisor) : list (rank * Selection) :=
  let '(cu, field, d) := path in
  if String.eqb cu "blend"
  then i ← _candidates_for u cards "1m_input_tokens"; omap (M := list) (blend_entry u index d i) (_candidates_for u cards "1m_output_tokens")
  else omap (M := list) (direct_entry u index cu field d) (_candidates_for u cards cu).

Definition ranked (u : Usage) (cards : list Card) : list (rank * Selection) := concat (imap (path_entries u cards) (PRICE_PATHS (u_unit u))).

Definition select_price (u : Usage) (cards : list Card) : option Selection := snd <$> head (sort_by (λ a b, rank_leb (fst a) (fst b)) (ranked u cards)).

(** * Prices without a card *)

Inductive ListSource := from_override | from_list | from_local | from_elsewhere.
Record ModelPrice := { list_source : ListSource; input_per_million : Q; output_per_million : Q }.

Definition _in_house_selection (u : Usage) : Selection :=
  {| sel_card := None; blend_card := None; sel_price := 0%Q; divisor := 1; sel_source := "in_house"; path_index := 0; card_unit := default (u_unit u) (CANONICAL_UNIT (u_unit u)); estimated := false;
     sel_currency := REPORTING_CURRENCY |}.

Definition list_selection (u : Usage) (src : string) (price : Q) (est : bool) : Selection :=
  {| sel_card := None; blend_card := None; sel_price := price; divisor := 1000000; sel_source := src; path_index := 0; card_unit := default EmptyString (CANONICAL_UNIT (u_unit u)); estimated := est;
     sel_currency := "USD" |}.

Section deployment.
(** What the deployment lists for a provider and a model *)
Context (price_for : string → string → option ModelPrice).

Definition fallback_price (u : Usage) : option Selection :=
  if negb (String.eqb (u_usage_type u) "llm_tokens") then None
  else
    let price := match price_for (u_provider u) (model u) with
                 | None => if negb (String.eqb (called_model u) EmptyString) && negb (String.eqb (called_model u) (model u)) then price_for (u_provider u) (called_model u) else None
                 | p => p
                 end in
    p ← price;
    match list_source p with
    | from_elsewhere => None
    | from_local => Some (_in_house_selection u)
    | src =>
        let name := match src with from_override => "fallback_override" | _ => "fallback_list" end in
        if bool_decide (u_unit u ∈ ["input_token"; "cached_input_token"]) then Some (list_selection u name (input_per_million p) false)
        else if String.eqb (u_unit u) "output_token" then Some (list_selection u name (output_per_million p) false)
        else if String.eqb (u_unit u) "token" then
          Some (list_selection u name (dadd MONEY_PREC (dmul MONEY_PREC (input_per_million p) INPUT_SHARE) (dmul MONEY_PREC (output_per_million p) OUTPUT_SHARE)) true)
        else None
    end.

Definition in_house_price (u : Usage) : option Selection :=
  if bool_decide (u_provider u ∈ IN_HOUSE_PROVIDERS) && bool_decide (u_usage_type u ∈ ZERO_PRICED_IN_HOUSE) then Some (_in_house_selection u) else None.

Definition _selection (u : Usage) (cards : list Card) : option Selection :=
  match select_price u cards with Some s => Some s | None => match fallback_price u with Some s => Some s | None => in_house_price u end end.

(** * Money *)

Definition _discounted (price : Q) (c : Card) : Q :=
  if Qeq_bool (batch_discount_pct c) 0 then price
  else dmul MONEY_PREC price (dsub MONEY_PREC 1 (ddiv MONEY_PREC (batch_discount_pct c) (inject_Z 100))).

Definition _charged_unit_price (u : Usage) (s : Selection) : Q :=
  match batch u, sel_card s with
  | true, Some c =>
      match blend_card s with
      | Some b => dadd MONEY_PREC (dmul MONEY_PREC (_discounted (unit_price c) c) INPUT_SHARE) (dmul MONEY_PREC (_discounted (unit_price b) b) OUTPUT_SHARE)
      | None => _discounted (sel_price s) c
      end
  | _, _ => sel_price s
  end.

Record Converted := { inr : option Q; used_rate : option Q; used_date : option Z; is_estimated : bool; is_unconverted : bool }.

Definition convert (a : Q) (cur : string) (on : Z) (rate : option FxRate) : option Converted :=
  if String.eqb cur REPORTING_CURRENCY then Some {| inr := Some a; used_rate := Some 1%Q; used_date := Some on; is_estimated := false; is_unconverted := false |}
  else if Qeq_bool a 0 then Some {| inr := Some 0%Q; used_rate := None; used_date := None; is_estimated := false; is_unconverted := false |}
  else match rate with
  | Some r =>
      if on <? rate_date r then Some {| inr := None; used_rate := None; used_date := None; is_estimated := false; is_unconverted := true |}
      else i ← quantize MONEY_PREC AMOUNT_PLACES (dmul MONEY_PREC a (rate_to_inr r));
           Some {| inr := Some i; used_rate := Some (rate_to_inr r); used_date := Some (rate_date r); is_estimated := negb (rate_date r =? on); is_unconverted := false |}
  | None => Some {| inr := None; used_rate := None; used_date := None; is_estimated := false; is_unconverted := true |}
  end.

Definition unpriced : Priced :=
  {| amount := None; p_currency := None; p_unit_price := None; amount_inr := None; fx_rate := None; fx_rate_date := None; rate_card_id := None; blend_card_id := None; p_card_unit := None;
     price_source := "none"; is_unpriced := true; fx_estimated := false; unconverted := false; price_estimated := false |}.

Definition raw_amount (u : Usage) (s : Selection) : Q := dmul MONEY_PREC (ddiv MONEY_PREC (quantity u) (inject_Z (divisor s))) (_charged_unit_price u s).

Definition price_with (u : Usage) (cards : list Card) (rate_for : string → option FxRate) : option Priced :=
  match _selection u cards with
  | None => Some unpriced
  | Some s =>
      a ← quantize MONEY_PREC AMOUNT_PLACES (raw_amount u s);
      let needs_rate := negb (String.eqb (sel_currency s) REPORTING_CURRENCY) && negb (Qeq_bool a 0) in
      c ← convert a (sel_currency s) (fx_on u) (if needs_rate then rate_for (sel_currency s) else None);
      Some {| amount := Some a; p_currency := Some (sel_currency s); p_unit_price := Some (sel_price s); amount_inr := inr c; fx_rate := used_rate c; fx_rate_date := used_date c;
              rate_card_id := card_id <$> sel_card s; blend_card_id := card_id <$> blend_card s; p_card_unit := Some (card_unit s); price_source := sel_source s; is_unpriced := false;
              fx_estimated := is_estimated c; unconverted := is_unconverted c; price_estimated := estimated s |}
  end.
End deployment.

(** * Volume tiers *)

Definition tier_leb (a b : Tier) : bool := Qle_bool (from_quantity a) (from_quantity b).

Definition reached_tier (first : Tier) (ordered : list Tier) (e : Q) : Tier := foldl (λ r t, if negb (Qle_bool e (from_quantity t)) then t else r) first ordered.

(** The loop over the tiers, each with the start of the next *)
Fixpoint graduated_total (start e total : Q) (ordered : list Tier) : Q :=
  match ordered with
  | [] => total
  | t :: rest =>
      let low := dec_max start (from_quantity t) in
      let high := match rest with [] => e | next :: _ => dec_min e (from_quantity next) end in
      graduated_total start e (if negb (Qle_bool high low) then dadd MONEY_PREC total (dmul MONEY_PREC (dsub MONEY_PREC high low) (tier_price t)) else total) rest
  end.

Definition tiered_amount (tiers : list Tier) (mode : string) (start q : Q) : option Q :=
  match sort_by tier_leb tiers with
  | [] => Some 0%Q
  | first :: rest =>
      if Qle_bool q 0 then Some 0%Q
      else
        let e := dadd DEFAULT_PREC start q in
        if String.eqb mode "all_units" then quantize MONEY_PREC AMOUNT_PLACES (dmul MONEY_PREC q (tier_price (reached_tier first (first :: rest) e)))
        else quantize MONEY_PREC AMOUNT_PLACES (graduated_total start e 0%Q (first :: rest))
  end.

(** * Aliases *)

Definition sku_char (c : Ascii.ascii) : bool := is_upper_az c || is_lower_az c || is_digit c || bool_decide (c ∈ [" "; "."; "_"; ":"; "/"; "@"; "-"]%char).
Definition sku_ok (s : string) : bool :=
  match chars s with c :: l => (is_upper_az c || is_lower_az c || is_digit c) && forallb sku_char l && (length l <=? 127)%nat | [] => false end.

(** [name] is the model as called; an unusable name is kept, lower-cased and cut *)
Definition canonical_model (p name : string) (aliases : list (string * string * string)) : string :=
  let n := strip name in
  if String.eqb n EmptyString then EmptyString
  else if negb (sku_ok n) then of_chars (take 128 (chars (lower n)))
  else
    let sku := lower n in
    if bool_decide (p ∈ IN_HOUSE_PROVIDERS) then sku
    else match find (λ a, String.eqb (fst (fst a)) p && String.eqb (snd (fst a)) sku) aliases with Some a => snd a | None => sku end.

Definition _through_aliases (u : Usage) (aliases : list (string * string * string)) : Usage :=
  let called := canonical_model (u_provider u) (model u) [] in
  let m := canonical_model (u_provider u) (model u) aliases in
  {| u_provider := u_provider u; u_usage_type := u_usage_type u; u_unit := u_unit u; quantity := quantity u; model := m; on_ := on_ u; fx_on := fx_on u; batch := batch u;
     called_model := if negb (String.eqb (called_model u) EmptyString) then called_model u else if String.eqb called m then EmptyString else called |}.

(** * The best candidate *)

Record linear {A} (leb : A → A → bool) : Prop := {
  linear_total : ∀ a b, leb a b = true ∨ leb b a = true;
  linear_trans : ∀ a b c, leb a b = true → leb b c = true → leb a c = true;
  linear_anti : ∀ a b, leb a b = true → leb b a = true → a = b }.

Lemma lex_linear {A B} (la : A → A → bool) (lb : B → B → bool) : linear la → linear lb → linear (lex la lb).
Proof.
  intros [T1 R1 E1] [T2 R2 E2]. split; unfold lex.
  - intros [a x] [b y]. cbn. destruct (la a b) eqn:E, (la b a) eqn:E'; cbn; [apply T2|by left|by right|destruct (T1 a b); congruence].
  - intros [a x] [b y] [c z]. cbn. rewrite !andb_true_iff, !orb_true_iff, !negb_true_iff. intros [H1 H2] [H3 H4]. split; [by eapply R1|]. destruct (la c a) eqn:Hca; [right|by left].
    assert (la b a = true) by by eapply R1. assert (la c b = true) by by eapply R1. destruct H2; [congruence|]. destruct H4; [congruence|]. by eapply R2.
  - intros [a x] [b y]. cbn. rewrite !andb_true_iff, !orb_true_iff, !negb_true_iff. intros [H1 H2] [H3 H4]. destruct H2, H4; try congruence. f_equal; [by apply E1|by apply E2].
Qed.

Lemma Zleb_linear : linear Z.leb.
Proof. split; intros *; rewrite ?Z.leb_le; lia. Qed.

Lemma Stringleb_linear : linear String.leb.
Proof.
  split; [apply string_leb_total|apply string_leb_trans|]. intros a b. unfold String.leb. rewrite (String.compare_antisym b a). destruct (String.compare a b) eqn:E; cbn; try done. intros _ _. by apply String.compare_eq_iff.
Qed.

Lemma rank_linear : linear rank_leb.
Proof. unfold rank_leb. repeat apply lex_linear; (apply Zleb_linear || apply Stringleb_linear). Qed.

(** What may price a usage: a card of the usage's provider, type and unit that is active and in force, for its model or for
    every model; or an input and an output card together *)
Definition applies (u : Usage) (cu : string) (c : Card) (specific : bool) : Prop :=
  card_status c = "active" ∧ unit c = cu ∧ effective_from c ≤ on_ u ∧ (∀ e, effective_to c = Some e → on_ u < e) ∧ provider c = u_provider u ∧ usage_type c = u_usage_type u ∧
  if specific then model_sku c = model u ∧ model_sku c ≠ EmptyString else model_sku c = EmptyString.

Inductive candidate (u : Usage) (cards : list Card) : rank → Selection → Prop :=
| candidate_direct index cu field d c specific price : PRICE_PATHS (u_unit u) !! index = Some (cu, field, d) → cu ≠ "blend" → c ∈ cards → applies u cu c specific →
    (if String.eqb field "cached_unit_price" then cached_unit_price c else Some (unit_price c)) = Some price →
    candidate u cards (rank_key specific index (u_unit u) (source c) (effective_from c) (card_id c, EmptyString))
      {| sel_card := Some c; blend_card := None; sel_price := price; divisor := _divisor d (on_ u); sel_source := source c; path_index := index; card_unit := cu; estimated := false; sel_currency := currency c |}
| candidate_blend index field d i o specific k s : PRICE_PATHS (u_unit u) !! index = Some ("blend", field, d) → i ∈ cards → o ∈ cards → applies u "1m_input_tokens" i specific →
    applies u "1m_output_tokens" o specific → blend_entry u index d (specific, i) (specific, o) = Some (k, s) → candidate u cards k s.

Lemma candidate_of_spec u cu c b c' : candidate_of u cu c = Some (b, c') ↔ c' = c ∧ applies u cu c b.
Proof.
  unfold candidate_of, applies, in_force. destruct (String.eqb_spec (card_status c) "active") as [H1|H1]; cbn [andb]; [|naive_solver]. destruct (String.eqb_spec (unit c) cu) as [H2|H2]; cbn [andb]; [|naive_solver].
  destruct (Z.leb_spec (effective_from c) (on_ u)) as [H3|H3]; cbn [andb]; [|split; [done|]; intros (_ & _ & _ & H & _); lia].
  assert (match effective_to c with None => true | Some e => on_ u <? e end = true ↔ ∀ e, effective_to c = Some e → on_ u < e) as H4.
  { destruct (effective_to c) as [e|]; [|naive_solver]. rewrite Z.ltb_lt. naive_solver. }
  destruct (match effective_to c with None => true | Some e => on_ u <? e end); cbn [andb]; [|split; [done|]; intros (_ & _ & _ & _ & H & _); apply H4 in H; done].
  destruct (String.eqb_spec (provider c) (u_provider u)) as [H5|H5]; cbn [andb]; [|naive_solver]. destruct (String.eqb_spec (usage_type c) (u_usage_type u)) as [H6|H6]; cbn [andb]; [|naive_solver].
  destruct (String.eqb_spec (model_sku c) EmptyString) as [H7|H7]; cbn [negb andb]; [split; [intros [= <- <-]; naive_solver|intros (-> & _ & _ & _ & _ & _ & _ & Hb); destruct b; [naive_solver|done]]|].
  destruct (String.eqb_spec (model_sku c) (model u)) as [H8|H8]; [split; [intros [= <- <-]; naive_solver|intros (-> & _ & _ & _ & _ & _ & _ & Hb); by destruct b]|].
  split; [done|]. intros (_ & _ & _ & _ & _ & _ & _ & Hb). destruct b; naive_solver.
Qed.

Lemma candidates_for_spec u cards cu b c : (b, c) ∈ _candidates_for u cards cu ↔ c ∈ cards ∧ applies u cu c b.
Proof.
  unfold _candidates_for. rewrite list_elem_of_omap. split.
  - intros (c0 & Hc & H). apply candidate_of_spec in H as [-> H]. done.
  - intros [Hc H]. exists c. split; [done|]. by apply candidate_of_spec.
Qed.

Lemma elem_of_concat_imap {A B} (f : nat → A → list B) l x : x ∈ concat (imap f l) ↔ ∃ i a, l !! i = Some a ∧ x ∈ f i a.
Proof.
  rewrite list_elem_of_In, in_concat. setoid_rewrite <- list_elem_of_In. split.
  - intros (y & Hy & Hx). apply elem_of_lookup_imap in Hy as (i & a & -> & Ha). by exists i, a.
  - intros (i & a & Ha & Hx). exists (f i a). split; [|done]. apply elem_of_lookup_imap. by exists i, a.
Qed.

Lemma ranked_spec u cards k s : (k, s) ∈ ranked u cards ↔ candidate u cards k s.
Proof.
  unfold ranked. rewrite elem_of_concat_imap. split.
  - intros (index & [[cu field] d] & Hp & H). unfold path_entries in H. destruct (String.eqb_spec cu "blend") as [->|Hcu].
    + apply list_elem_of_bind in H as ([bi ci] & H & Hi). apply list_elem_of_omap in H as ([bo co] & Ho & H). apply candidates_for_spec in Hi as [Hi Hai], Ho as [Ho Hao].
      assert (bi = bo) as ->; [|by apply (candidate_blend u cards index field d ci co bo)]. unfold blend_entry in H. cbn [fst] in H. destruct (Bool.eqb bi bo) eqn:E; [by apply eqb_prop in E|discriminate H].
    + apply list_elem_of_omap in H as ([b c] & Hc & H). apply candidates_for_spec in Hc as [Hc Ha]. unfold direct_entry in H. cbn [fst snd] in H.
      destruct (if String.eqb field "cached_unit_price" then _ else _) as [price|] eqn:Ep; cbn in H; [|done]. injection H as <- <-. by eapply candidate_direct.
  - intros H. destruct H as [index cu field d c specific price Hp Hcu Hc Ha Hpr|index field d i o specific k s Hp Hi Ho Hai Hao He]; eexists index, _; (split; [exact Hp|]); unfold path_entries.
    + rewrite (proj2 (String.eqb_neq _ _) Hcu). apply list_elem_of_omap. exists (specific, c). split; [by apply candidates_for_spec|]. unfold direct_entry. cbn [fst snd]. by rewrite Hpr.
    + cbn. apply list_elem_of_bind. exists (specific, i). split; [|by apply candidates_for_spec]. apply list_elem_of_omap. exists (specific, o). split; [by apply candidates_for_spec|done].
Qed.

Lemma head_sort_min {A} (leb : A → A → bool) l x : (∀ a b, leb a b = true ∨ leb b a = true) → (∀ a b c, leb a b = true → leb b c = true → leb a c = true) →
  head (sort_by leb l) = Some x → x ∈ l ∧ ∀ y, y ∈ l → leb x y = true.
Proof.
  intros Ht Hr Hx. pose proof (sort_by_sorted leb Ht Hr l) as Hs. assert (∀ y, y ∈ l ↔ y ∈ sort_by leb l) as Hin by (intros y; by rewrite elem_of_sort_by). destruct (sort_by leb l) as [|z zs]; [done|]. injection Hx as ->.
  apply StronglySorted_inv in Hs as [_ Hs]. split; [apply Hin; left|]. intros y Hy. apply Hin, elem_of_cons in Hy as [->|Hy]; [by destruct (Ht x x)|]. apply (proj1 (Forall_forall _ _) Hs) in Hy. by apply Is_true_true.
Qed.

Definition best (u : Usage) (cards : list Card) (s : Selection) : Prop := ∃ k, candidate u cards k s ∧ ∀ k' s', candidate u cards k' s' → rank_leb k k' = true.

Lemma select_price_best u cards s : select_price u cards = Some s → best u cards s.
Proof.
  unfold select_price. intros H. apply fmap_Some in H as ([k s'] & Hh & ->). destruct rank_linear as [Ht Hr _]. apply head_sort_min in Hh as [Hin Hmin]; [|intros; apply Ht|intros; by eapply Hr].
  exists k. split; [by apply ranked_spec|]. intros k' s'' Hc. apply ranked_spec in Hc. by apply (Hmin (k', s'')).
Qed.

Lemma select_price_none u cards : select_price u cards = None ↔ ∀ k s, ¬ candidate u cards k s.
Proof.
  unfold select_price. rewrite fmap_None. split.
  - intros H k s Hc. apply ranked_spec in Hc. assert ((k, s) ∈ sort_by (λ a b, rank_leb a.1 b.1) (ranked u cards)) as Hin by by rewrite elem_of_sort_by. destruct (sort_by _ _); [by apply not_elem_of_nil in Hin|done].
  - intros H. destruct (head (sort_by _ _)) as [[k s]|] eqn:E; [exfalso|done]. destruct rank_linear as [Ht Hr _]. apply head_sort_min in E as [Hin _]; [|intros; apply Ht|intros; by eapply Hr]. apply ranked_spec in Hin. by eapply H.
Qed.

Lemma same_card (cards : list Card) c c' : NoDup (card_id <$> cards) → c ∈ cards → c' ∈ cards → card_id c = card_id c' → c = c'.
Proof.
  intros Hn Hc Hc' E. apply list_elem_of_lookup in Hc as [i Hi], Hc' as [j Hj]. assert (i = j) as <-; [|congruence].
  eapply (NoDup_lookup _ _ _ (card_id c) Hn); rewrite list_lookup_fmap, ?Hi, ?Hj; cbn; congruence.
Qed.

Lemma rank_key_inj b i u src st ids b' i' u' src' st' ids' : rank_key b i u src st ids = rank_key b' i' u' src' st' ids' → i = i' ∧ ids = ids'.
Proof. intros E. apply (f_equal (λ r, (r.2.2.2.1, r.2.2.2.2.2))) in E. cbn in E. injection E as Ei Eids. split; [lia|done]. Qed.

Lemma blend_entry_rank u index d i o k s : blend_entry u index d i o = Some (k, s) → ∃ b src st, k = rank_key b index (u_unit u) src st (card_id i.2, card_id o.2).
Proof. unfold blend_entry. destruct (_ || _); [done|]. intros [= <- _]. by eexists _, _, _. Qed.

(** A rank names its selection *)
Lemma rank_names u cards k k' s s' : NoDup (card_id <$> cards) → candidate u cards k s → candidate u cards k' s' → k = k' → s = s'.
Proof.
  intros Hn H H'. destruct H as [index cu field d c specific price Hp Hcu Hc Ha Hpr|index field d i o specific k s Hp Hi Ho Hai Hao He];
    destruct H' as [index' cu' field' d' c' specific' price' Hp' Hcu' Hc' Ha' Hpr'|index' field' d' i' o' specific' k' s' Hp' Hi' Ho' Hai' Hao' He'].
  - intros [-> [= E]]%rank_key_inj. assert (c = c') as <- by by apply (same_card cards). rewrite Hp in Hp'. injection Hp' as -> -> ->. rewrite Hpr in Hpr'. by injection Hpr' as ->.
  - apply blend_entry_rank in He' as (? & ? & ? & ->). intros [-> _]%rank_key_inj. rewrite Hp in Hp'. by injection Hp' as ->.
  - apply blend_entry_rank in He as (? & ? & ? & ->). intros [-> _]%rank_key_inj. rewrite Hp in Hp'. by injection Hp' as <-.
  - intros <-. pose proof He as Hr. pose proof He' as Hr'. apply blend_entry_rank in Hr as (? & ? & ? & ->), Hr' as (? & ? & ? & [-> [= E1 E2]]%rank_key_inj).
    assert (i = i') as <- by by apply (same_card cards). assert (o = o') as <- by by apply (same_card cards). rewrite Hp in Hp'. injection Hp' as <- <-.
    assert (specific = specific') as <-; [|rewrite He in He'; by injection He']. destruct Hai as (_ & _ & _ & _ & _ & _ & Hs), Hai' as (_ & _ & _ & _ & _ & _ & Hs'). destruct specific, specific'; naive_solver.
Qed.

Lemma best_unique u cards s s' : NoDup (card_id <$> cards) → best u cards s → best u cards s' → s = s'.
Proof. intros Hn (k & Hk & Hmin) (k' & Hk' & Hmin'). eapply rank_names; [done..|]. apply (linear_anti _ rank_linear); eauto. Qed.

Lemma candidate_perm u cards cards' k s : cards ≡ₚ cards' → candidate u cards k s → candidate u cards' k s.
Proof. intros Hp H. destruct H; econstructor; eauto; by rewrite <- Hp. Qed.

Lemma select_price_perm u cards cards' : NoDup (card_id <$> cards) → cards ≡ₚ cards' → select_price u cards = select_price u cards'.
Proof.
  intros Hn Hp. destruct (select_price u cards) as [s|] eqn:E, (select_price u cards') as [s'|] eqn:E'; try done.
  - apply select_price_best in E, E'. f_equal. apply (best_unique u cards); [done|done|]. destruct E' as (k & Hk & Hmin). exists k. split; [by apply (candidate_perm u cards')|]. intros k' s'' H. eapply Hmin, candidate_perm; [exact Hp|exact H].
  - apply select_price_best in E as (k & Hk & _). apply (candidate_perm _ _ cards') in Hk; [|done]. exfalso. by eapply (proj1 (select_price_none _ _) E').
  - apply select_price_best in E' as (k & Hk & _). apply (candidate_perm _ _ cards) in Hk; [|done]. exfalso. by eapply (proj1 (select_price_none _ _) E).
Qed.

(** ** Which offer is preferred *)

(** A price some cards offer for a usage, as far as preferring one offer to another goes: whether it is for the
    usage's own model, whether it charges cached tokens the full price, whether every card of it is a contract,
    which of the paths to a price it takes, and the day its latest card starts *)
Record Offer := { for_model : bool; full_price_cached : bool; by_contract : bool; path : nat; since : Z; card_ids : string * string }.

(** The offers of the cards: one card at its price (or its price for cached tokens), or an input card and an
    output card of one currency, blended three to one *)
Inductive offers (u : Usage) (cards : list Card) : Offer → Selection → Prop :=
| offer_direct index cu field d c specific price : PRICE_PATHS (u_unit u) !! index = Some (cu, field, d) → cu ≠ "blend" → c ∈ cards → applies u cu c specific →
    (if String.eqb field "cached_unit_price" then cached_unit_price c else Some (unit_price c)) = Some price →
    offers u cards
      {| for_model := specific; full_price_cached := String.eqb (u_unit u) "cached_input_token" && String.eqb cu "1m_input_tokens" && String.eqb field "unit_price";
         by_contract := String.eqb (source c) "contract"; path := index; since := effective_from c; card_ids := (card_id c, EmptyString) |}
      {| sel_card := Some c; blend_card := None; sel_price := price; divisor := _divisor d (on_ u); sel_source := source c; path_index := index; card_unit := cu; estimated := false; sel_currency := currency c |}
| offer_blend index field d i o specific : PRICE_PATHS (u_unit u) !! index = Some ("blend", field, d) → i ∈ cards → o ∈ cards → applies u "1m_input_tokens" i specific →
    applies u "1m_output_tokens" o specific → currency i = currency o →
    offers u cards
      {| for_model := specific; full_price_cached := false; by_contract := String.eqb (source i) "contract" && String.eqb (source o) "contract"; path := index;
         since := Z.max (effective_from i) (effective_from o); card_ids := (card_id i, card_id o) |}
      {| sel_card := Some i; blend_card := Some o; sel_price := dadd MONEY_PREC (dmul MONEY_PREC (unit_price i) INPUT_SHARE) (dmul MONEY_PREC (unit_price o) OUTPUT_SHARE);
         divisor := _divisor d (on_ u); sel_source := if String.eqb (source i) "contract" && String.eqb (source o) "contract" then "contract" else "list"; path_index := index;
         card_unit := "blend"; estimated := true; sel_currency := currency i |}.

(** [a] is at least as good as [b]: for the model before for every model; then without the full price for cached
    tokens; then by contract; then by the earlier path; then with the later start; then by the ids *)
Definition preferred (a b : Offer) : Prop :=
  for_model a = true ∧ for_model b = false ∨ for_model a = for_model b ∧
  (full_price_cached a = false ∧ full_price_cached b = true ∨ full_price_cached a = full_price_cached b ∧
  (by_contract a = true ∧ by_contract b = false ∨ by_contract a = by_contract b ∧
  ((path a < path b)%nat ∨ path a = path b ∧
  (since b < since a ∨ since a = since b ∧
   lex String.leb String.leb (card_ids a) (card_ids b) = true)))).

(** The rank the code gives an offer *)
Definition rank_of (u : Usage) (o : Offer) : rank := rank_key (for_model o) (path o) (u_unit u) (if by_contract o then "contract" else "list") (since o) (card_ids o).

Lemma rank_source b i u src st ids : rank_key b i u src st ids = rank_key b i u (if String.eqb src "contract" then "contract" else "list") st ids.
Proof. unfold rank_key. by destruct (String.eqb_spec src "contract") as [->|]. Qed.

Lemma candidate_offers u cards k s : candidate u cards k s ↔ ∃ o, offers u cards o s ∧ k = rank_of u o.
Proof.
  split.
  - intros H. destruct H as [index cu field d c specific price Hp Hcu Hc Ha Hpr|index field d i o specific k s Hp Hi Ho Hai Hao He].
    + eexists. split; [by eapply offer_direct|]. unfold rank_of. cbn. apply rank_source.
    + unfold blend_entry in He. cbn [fst snd] in He. rewrite eqb_reflx in He. cbn [negb orb] in He. destruct (String.eqb_spec (currency i) (currency o)) as [Ecur|]; [|done]. cbn [negb] in He. injection He as <- <-.
      pose proof (offer_blend u cards index field d i o specific Hp Hi Ho Hai Hao Ecur) as Hof. set (both := String.eqb (source i) "contract" && String.eqb (source o) "contract") in Hof.
      assert (String.eqb (source i) (source o) && String.eqb (source o) "contract" = both) as Eb.
      { unfold both. destruct (String.eqb_spec (source o) "contract") as [->|]; [by rewrite !andb_true_r|by rewrite !andb_false_r]. }
      rewrite Eb. eexists. split; [exact Hof|]. unfold rank_of. cbn. done.
  - intros (o & H & ->). destruct H as [index cu field d c specific price Hp Hcu Hc Ha Hpr|index field d i o specific Hp Hi Ho Hai Hao Ecur].
    + unfold rank_of. cbn. rewrite <- rank_source. by eapply candidate_direct.
    + eapply candidate_blend; [exact Hp|exact Hi|exact Ho|exact Hai|exact Hao|]. unfold blend_entry. cbn [fst snd]. rewrite eqb_reflx, Ecur, String.eqb_refl. cbn [negb orb].
      assert (String.eqb (source i) (source o) && String.eqb (source o) "contract" = String.eqb (source i) "contract" && String.eqb (source o) "contract") as ->; [|done].
      destruct (String.eqb_spec (source o) "contract") as [->|]; [by rewrite !andb_true_r|by rewrite !andb_false_r].
Qed.

(** The paths without a discount are those that charge cached tokens the full price. *)
Lemma full_price_paths u cards o s : offers u cards o s → full_price_cached o = bool_decide (path o ∈ NO_DISCOUNT_PATHS (u_unit u)).
Proof.
  unfold NO_DISCOUNT_PATHS. intros H. destruct (String.eqb_spec (u_unit u) "cached_input_token") as [Eu|Hu].
  - destruct H as [index cu field d c specific price Hp _ _ _ _|index field d i o specific Hp _ _ _ _ _]; cbn [full_price_cached path]; rewrite Eu in *;
      destruct index as [|[|[|index]]]; cbn in Hp; try done; injection Hp as <- <- <-; done.
  - rewrite bool_decide_false by apply not_elem_of_nil. destruct H; cbn; [|done]. by rewrite (proj2 (String.eqb_neq _ _) Hu).
Qed.

Lemma lex_spec {A B} (la : A → A → bool) (lb : B → B → bool) a b : lex la lb a b = true ↔ la a.1 b.1 = true ∧ (la b.1 a.1 = false ∨ lb a.2 b.2 = true).
Proof. unfold lex. by rewrite andb_true_iff, orb_true_iff, negb_true_iff. Qed.

Lemma first_true (a b : bool) (P Q : Prop) : (P → Q) →
  (if a then 0 else 1) ≤ (if b then 0 else 1) ∧ ((if a then 0 else 1) < (if b then 0 else 1) ∨ P) → a = true ∧ b = false ∨ a = b ∧ Q.
Proof. intros HPQ [H1 H2]. destruct a, b; [right; split; [done|]; apply HPQ; destruct H2; [lia|done]|by left|lia|right; split; [done|]; apply HPQ; destruct H2; [lia|done]]. Qed.

Lemma first_false (a b : bool) (P Q : Prop) : (P → Q) →
  (if a then 1 else 0) ≤ (if b then 1 else 0) ∧ ((if a then 1 else 0) < (if b then 1 else 0) ∨ P) → a = false ∧ b = true ∨ a = b ∧ Q.
Proof. intros HPQ [H1 H2]. destruct a, b; [right; split; [done|]; apply HPQ; destruct H2; [lia|done]|lia|by left|right; split; [done|]; apply HPQ; destruct H2; [lia|done]]. Qed.

(** The lowest rank is the preferred offer. *)
Lemma rank_preferred u cards o o' s s' : offers u cards o s → offers u cards o' s' → rank_leb (rank_of u o) (rank_of u o') = true → preferred o o'.
Proof.
  intros Ho Ho'. unfold rank_leb, rank_of, rank_key. rewrite <- (full_price_paths _ _ _ _ Ho), <- (full_price_paths _ _ _ _ Ho'). unfold preferred.
  assert (∀ b : bool, String.eqb (if b then "contract" else "list") "contract" = b) as Hc by by intros []. rewrite !Hc.
  do 5 (rewrite (lex_spec Z.leb); cbn [fst snd]). rewrite !Z.leb_le, !Z.leb_gt.
  apply first_true. apply first_false. apply first_true. intros [H4 H4']. destruct (decide (path o < path o')%nat) as [?|?]; [by left|right]. split; [lia|].
  destruct H4' as [?|[H5 H5']]; [lia|]. destruct (decide (since o' < since o)) as [?|?]; [by left|right]. split; [lia|]. destruct H5' as [?|?]; [lia|done].
Qed.

(** No other offer is preferred to the one of [s]. *)
Definition most_preferred (u : Usage) (cards : list Card) (s : Selection) : Prop := ∃ o, offers u cards o s ∧ ∀ o' s', offers u cards o' s' → preferred o o'.

Lemma best_most_preferred u cards s : best u cards s → most_preferred u cards s.
Proof.
  intros (k & Hk & Hmin). apply candidate_offers in Hk as (o & Ho & ->). exists o. split; [done|]. intros o' s' Ho'. apply (rank_preferred u cards o o' s s' Ho Ho'). eapply Hmin, candidate_offers. by exists o'.
Qed.

Lemma offers_card u cards o s : offers u cards o s → is_Some (sel_card s).
Proof. intros []; by eexists. Qed.

(** * Amounts *)

Lemma round_div_nearest num den : 0 < den → nearest_even num den (round_div num den).
Proof.
  intros Hd. unfold nearest_even, round_div. pose proof (Z.div_mod num den ltac:(lia)) as E. pose proof (Z.mod_pos_bound num den Hd) as Hm. set (q := num / den) in *. set (m := num mod den) in *. cbn zeta.
  destruct (Z.compare_spec (2 * m) den) as [He|Hlt|Hgt]; [destruct (Z.even q) eqn:Ev| |]; (split; [lia|intros Ha]).
  - done.
  - rewrite Z.even_add, Ev. done.
  - exfalso. lia.
  - exfalso. lia.
Qed.

Lemma quantize_nearest p k q r : 0 ≤ k → quantize p k q = Some r → ∃ z, at_places k r z ∧ nearest_even (Qnum q * 10 ^ k) (Zpos (Qden q)) z.
Proof.
  intros Hk. unfold quantize. destruct (Z.abs _ <? _); [|done]. intros [= <-]. exists (round_at k (Qred q)). split; [eapply at_places_Qeq; [symmetry; apply Qred_correct|by apply at_places_scaled]|].
  unfold round_at. rewrite (Z.max_r 0 k), (Z.max_l 0 (- k)) by lia. change (10 ^ 0) with 1. rewrite Z.mul_1_r. pose proof (round_div_nearest (Qnum (Qred q) * 10 ^ k) (Zpos (Qden (Qred q))) ltac:(lia)) as H. revert H.
  generalize (round_div (Qnum (Qred q) * 10 ^ k) (Zpos (Qden (Qred q)))). intros z H. pose proof (Qred_correct q) as E. unfold Qeq in E. apply (nearest_even_scale _ _ (Zpos (Qden (Qred q)))); [lia|].
  apply (nearest_even_scale _ _ (Zpos (Qden q))) in H; [|lia]. replace (Qnum q * 10 ^ k * Zpos (Qden (Qred q))) with (Qnum (Qred q) * 10 ^ k * Zpos (Qden q)) by nia.
  by rewrite (Z.mul_comm (Zpos (Qden q))).
Qed.

(** [a] is [x] rounded half to even at the tenth decimal: a multiple of that unit, nearest to [x], and the even
    one of two that are equally near *)
Definition half_even (a x : Q) : Prop :=
  ∃ z, (a * inject_Z (10 ^ 10) == inject_Z z)%Q ∧ (Qabs (inject_Z z - x * inject_Z (10 ^ 10)) <= 1 # 2)%Q ∧
       ((Qabs (inject_Z z - x * inject_Z (10 ^ 10)) == 1 # 2)%Q → Z.even z = true).

#[global] Instance half_even_Proper : Proper (eq ==> Qeq ==> iff) half_even.
Proof. intros a ? <- x y E. unfold half_even. by setoid_rewrite E. Qed.

Lemma quantize_half_even p q r : quantize p AMOUNT_PLACES q = Some r → half_even r q.
Proof.
  intros (z & [_ Hz] & Hn & Hev)%quantize_nearest; [|unfold AMOUNT_PLACES; lia]. unfold AMOUNT_PLACES in *. exists z. unfold Qeq, Qle, Qabs, Qminus, Qplus, Qopp, Qmult, inject_Z. cbn [Qnum Qden].
  rewrite ?Pos.mul_1_r, ?Pos.mul_1_l, ?Z.mul_1_r, ?Z.mul_1_l. split; [done|]. rewrite Z.abs_mul in Hn, Hev. change (Z.abs 2) with 2 in Hn, Hev.
  replace (z * Z.pos (Qden q) + - (Qnum q * 10 ^ 10)) with (z * Z.pos (Qden q) - Qnum q * 10 ^ 10) by ring. split; [lia|]. intros E. apply Hev. lia.
Qed.

(** [q] is [z] at [k] places and below the precision by [n] digits *)
Lemma round_sig_fits p k q z : 1 ≤ p → at_places k q z → Z.abs z < 10 ^ p → at_places k (round_sig p q) z.
Proof. intros Hp Hz Hlt. eapply at_places_Qeq; [symmetry; by eapply round_sig_exact|done]. Qed.

Lemma per_million q z : at_places QTY_PLACES q z → at_places 12 (q / inject_Z 1000000) z.
Proof.
  intros Hz. assert (at_places 6 (1 # 1000000) 1) as H1 by (split; [lia|reflexivity]). pose proof (at_places_mul QTY_PLACES 6 q (1 # 1000000) z 1 Hz H1) as H. rewrite Z.mul_1_r in H. exact H.
Qed.

Lemma per_one q z : at_places QTY_PLACES q z → at_places 12 (q / inject_Z 1) (z * 10 ^ 6).
Proof. intros Hz. eapply at_places_Qeq; [|apply (at_places_more QTY_PLACES 12 q z); [unfold QTY_PLACES; lia|done]]. field. Qed.

Lemma raw_exact u s zq zp : batch u = false → at_places QTY_PLACES (quantity u) zq → at_places AMOUNT_PLACES (sel_price s) zp → (divisor s = 1 ∨ divisor s = 1000000) →
  Z.abs zq < 10 ^ 30 → Z.abs (zq * zp) < divisor s * 10 ^ 29 → raw_amount u s == quantity u / inject_Z (divisor s) * sel_price s ∧ ∃ z, at_places 22 (raw_amount u s) z ∧ Z.abs z < 10 ^ 35.
Proof.
  intros Hb Hq Hp Hd Hz1 Hz2. unfold raw_amount, _charged_unit_price. rewrite Hb. unfold dmul, ddiv, MONEY_PREC.
  assert (∃ z, at_places 12 (quantity u / inject_Z (divisor s)) z ∧ Z.abs z < 10 ^ 36 ∧ Z.abs (z * zp) < 10 ^ 35) as (z & Hz & Hs1 & Hs2).
  { destruct Hd as [Ed | Ed]; rewrite Ed in *; [exists (zq * 10 ^ 6)|exists zq]; (split; [by apply per_one || by apply per_million|]); [|lia]. split; [lia|]. replace (zq * 10 ^ 6 * zp) with (zq * zp * 10 ^ 6) by ring. lia. }
  pose proof (round_sig_exact 38 12 _ z ltac:(lia) Hz ltac:(lia)) as E1. pose proof (at_places_mul 12 AMOUNT_PLACES _ _ _ _ Hz Hp) as Hm. change (12 + AMOUNT_PLACES) with 22 in Hm.
  assert (round_sig 38 (round_sig 38 (quantity u / inject_Z (divisor s)) * sel_price s) == quantity u / inject_Z (divisor s) * sel_price s) as E.
  { rewrite E1. eapply round_sig_exact; [lia|exact Hm|lia]. }
  split; [exact E|]. exists (z * zp). split; [|done]. eapply at_places_Qeq; [symmetry; exact E|exact Hm].
Qed.

Lemma nearest_small n d r z : 0 < d → n * 10 ^ 22 = z * d → Z.abs (2 * (r * d - n * 10 ^ 10)) ≤ d → Z.abs r * 10 ^ 12 ≤ Z.abs z + 10 ^ 12.
Proof.
  intros Hd Hz Hn. assert ((r * 10 ^ 12 - z) * d = 10 ^ 12 * (r * d - n * 10 ^ 10)) as E by (rewrite Z.mul_sub_distr_r, <- Hz; ring).
  assert (2 * Z.abs (r * 10 ^ 12 - z) * d ≤ 10 ^ 12 * d) as Hle; [|apply Z.mul_le_mono_pos_r in Hle; lia].
  replace (2 * Z.abs (r * 10 ^ 12 - z) * d) with (2 * Z.abs ((r * 10 ^ 12 - z) * d)) by (rewrite Z.abs_mul, (Z.abs_eq d) by lia; ring). rewrite E, Z.abs_mul. rewrite Z.abs_mul in Hn.
  change (Z.abs 2) with 2 in Hn. change (Z.abs (10 ^ 12)) with (10 ^ 12). generalize dependent (Z.abs (r * d - n * 10 ^ 10)). intros A HA. lia.
Qed.

(** Rounding to ten places keeps the size *)
Lemma quantize_some q z : at_places 22 q z → Z.abs z < 10 ^ 35 → ∃ a y, quantize MONEY_PREC AMOUNT_PLACES q = Some a ∧ at_places AMOUNT_PLACES a y ∧ Z.abs y ≤ 10 ^ 23 + 1 ∧ half_even a q.
Proof.
  intros Hz Hlt. assert (∃ a, quantize MONEY_PREC AMOUNT_PLACES q = Some a) as [a Ha].
  { unfold quantize. apply (at_places_Qeq 22 q (Qred q)) in Hz; [|symmetry; apply Qred_correct]. destruct Hz as [_ Hz]. unfold round_at, AMOUNT_PLACES, MONEY_PREC. rewrite (Z.max_r 0 10), (Z.max_l 0 (Z.opp 10)) by lia. change (10 ^ 0) with 1. rewrite Z.mul_1_r.
    pose proof (round_div_nearest (Qnum (Qred q) * 10 ^ 10) (Zpos (Qden (Qred q))) ltac:(lia)) as [Hn _]. revert Hn. generalize (round_div (Qnum (Qred q) * 10 ^ 10) (Zpos (Qden (Qred q)))). intros r Hn. rewrite (proj2 (Z.ltb_lt _ _)); [by eexists|]. pose proof (nearest_small _ _ r z (Pos2Z.is_pos _) Hz Hn). lia. }
  destruct (quantize_nearest MONEY_PREC AMOUNT_PLACES q a ltac:(unfold AMOUNT_PLACES; lia) Ha) as (y & Hy & Hnear). exists a, y. split_and!; [done|done| |].
  - destruct Hnear as [Hn _]. destruct Hz as [_ Hz]. pose proof (nearest_small _ _ y z (Pos2Z.is_pos _) Hz Hn). lia.
  - by eapply quantize_half_even.
Qed.

(** The same from eighteen places *)
Lemma quantize_wide q z : at_places 18 q z → Z.abs z < 10 ^ 38 → ∃ a, quantize MONEY_PREC AMOUNT_PLACES q = Some a ∧ half_even a q.
Proof.
  intros Hz Hlt. assert (∃ a, quantize MONEY_PREC AMOUNT_PLACES q = Some a) as [a Ha].
  { unfold quantize. apply (at_places_Qeq 18 q (Qred q)), (at_places_more 18 22) in Hz; [|lia|symmetry; apply Qred_correct]. destruct Hz as [_ Hz]. unfold round_at, AMOUNT_PLACES, MONEY_PREC. rewrite (Z.max_r 0 10), (Z.max_l 0 (Z.opp 10)) by lia. change (10 ^ 0) with 1. rewrite Z.mul_1_r.
    pose proof (round_div_nearest (Qnum (Qred q) * 10 ^ 10) (Zpos (Qden (Qred q))) ltac:(lia)) as [Hn _]. revert Hn. generalize (round_div (Qnum (Qred q) * 10 ^ 10) (Zpos (Qden (Qred q)))). intros r Hn. rewrite (proj2 (Z.ltb_lt _ _)); [by eexists|].
    pose proof (nearest_small _ _ r _ (Pos2Z.is_pos _) Hz Hn). change (10 ^ (22 - 18)) with (10 ^ 4) in *. lia. }
  exists a. split; [done|]. by eapply quantize_half_even.
Qed.

(** A usage is priced by a selection: its price, currency, cards and source *)
Record priced_by (p : Priced) (s : Selection) : Prop := {
  by_price : p_unit_price p = Some (sel_price s); by_currency : p_currency p = Some (sel_currency s); by_card : rate_card_id p = card_id <$> sel_card s;
  by_blend : blend_card_id p = card_id <$> blend_card s; by_unit : p_card_unit p = Some (card_unit s); by_source : price_source p = sel_source s;
  by_estimate : price_estimated p = estimated s; by_amount : is_unpriced p = false ∧ is_Some (amount p) }.

Lemma price_with_by price_for u cards rate p : price_with price_for u cards rate = Some p →
  match _selection price_for u cards with None => p = unpriced | Some s => priced_by p s end.
Proof.
  unfold price_with. destruct (_selection price_for u cards) as [s|]; [|by intros [= <-]]. destruct (quantize _ _ _) as [a|]; cbn [mbind option_bind]; [|done].
  destruct (convert _ _ _ _) as [c|] eqn:Ec; cbn [mbind option_bind]; [|done]. intros [= <-]. by split; [..|split; [|eexists]].
Qed.

Lemma converts a y cur on rate : at_places AMOUNT_PLACES a y → Z.abs y ≤ 10 ^ 23 + 1 → (∀ r, rate = Some r → ∃ zr, at_places 8 (rate_to_inr r) zr ∧ 0 ≤ zr ≤ 10 ^ 14) →
  ∃ c, convert a cur on rate = Some c ∧ (cur = REPORTING_CURRENCY → inr c = Some a) ∧
    (∀ i, inr c = Some i → cur ≠ REPORTING_CURRENCY → i == 0 ∧ a == 0 ∨ ∃ r, used_rate c = Some r ∧ half_even i (a * r)).
Proof.
  intros Hy Hsmall Hr. unfold convert. destruct (String.eqb_spec cur REPORTING_CURRENCY) as [E|E]; [by eexists|]. destruct (Qeq_bool a 0) eqn:Ea.
  { eexists. split; [done|]. split; [done|]. intros i [= <-] _. left. split; [done|]. by apply Qeq_bool_iff. }
  destruct rate as [r|]; [|by eexists]. destruct (on <? rate_date r); [by eexists|]. destruct (Hr r eq_refl) as (zr & Hzr & Hrange).
  pose proof (at_places_mul AMOUNT_PLACES 8 a (rate_to_inr r) y zr Hy Hzr) as Hm. change (AMOUNT_PLACES + 8) with 18 in Hm. assert (Z.abs (y * zr) ≤ 10 ^ 23 * 10 ^ 14 + 10 ^ 14) as Hb by (rewrite Z.abs_mul, (Z.abs_eq zr) by lia; nia).
  unfold dmul. pose proof (round_sig_exact 38 18 _ _ ltac:(lia) Hm ltac:(lia)) as Ex.
  change (round_sig MONEY_PREC (a * rate_to_inr r)) with (round_sig 38 (a * rate_to_inr r)). rewrite (quantize_Proper MONEY_PREC AMOUNT_PLACES _ _ Ex).
  destruct (quantize_wide (a * rate_to_inr r) (y * zr) Hm ltac:(lia)) as (i & -> & Herr). cbn. eexists. split; [done|]. split; [done|]. intros i' [= <-] _. right. by exists (rate_to_inr r).
Qed.

Lemma price_perm price_for u cards cards' rate : NoDup (card_id <$> cards) → cards ≡ₚ cards' → price_with price_for u cards rate = price_with price_for u cards' rate.
Proof. intros Hn Hp. unfold price_with, _selection. by rewrite (select_price_perm u cards cards'). Qed.

(** * Claims *)

(** C35. The most preferred card prices a usage. Whatever order the cards are read in, when some cards offer a
    price for a usage (active cards of its provider and type, in force on its billing date, for its model or
    for every model, of a unit that prices it), it is priced by the offer no other one is preferred to: first one
    for the model, then one that does not charge cached tokens the full price, then a contract, then the
    earlier price path, then the later start, then the lower ids. Without such an offer it is priced by the
    deployment's listed price, then by the in-house rule, and it is left without an amount exactly when
    there is neither. *)
Theorem best_card_prices price_for u cards cards' rate : NoDup (card_id <$> cards) → cards ≡ₚ cards' →
  price_with price_for u cards rate = price_with price_for u cards' rate ∧
  ∀ p, price_with price_for u cards rate = Some p →
    ((∃ o s, offers u cards o s) → ∃ s, most_preferred u cards s ∧ priced_by p s ∧ is_Some (rate_card_id p)) ∧
    ((∀ o s, ¬ offers u cards o s) →
       match fallback_price price_for u with Some s => priced_by p s | None => match in_house_price u with Some s => priced_by p s | None => p = unpriced end end).
Proof.
  intros Hn Hp. split; [by apply price_perm|]. intros p H. apply price_with_by in H. unfold _selection in H. split.
  - intros (o & s & Ho). destruct (select_price u cards) as [s'|] eqn:Es.
    + apply select_price_best, best_most_preferred in Es as Hm. exists s'. split_and!; [done|done|]. rewrite (by_card _ _ H). apply fmap_is_Some. destruct Hm as (o' & Ho' & _). by eapply offers_card.
    + exfalso. apply (proj1 (select_price_none u cards) Es (rank_of u o) s), candidate_offers. by exists o.
  - intros Hno. rewrite (proj2 (select_price_none u cards)) in H; [|intros k s (o & Ho & _)%candidate_offers; by eapply Hno].
    destruct (fallback_price price_for u); [done|]. by destruct (in_house_price u).
Qed.

(** C36. Amounts are rounded once. For a usage that is not a batch, priced per unit or per million units (so not
    storage by the month), with a quantity of six places below 10^24, a price of ten places, an exact amount
    below 10^13 and rates of eight places up to 10^6: pricing never fails; the amount is the quantity over the
    divisor times the price, rounded once, half to even, at ten decimals; and the rupee amount, where there is
    one, is the amount itself for rupees, zero for a zero amount, and otherwise the amount times the rate,
    rounded in the same way. *)
Theorem amounts_rounded_once price_for u cards rate s zq zp :
  _selection price_for u cards = Some s → batch u = false → at_places QTY_PLACES (quantity u) zq → at_places AMOUNT_PLACES (sel_price s) zp → (divisor s = 1 ∨ divisor s = 1000000) →
  Z.abs zq < 10 ^ 30 → Z.abs (zq * zp) < divisor s * 10 ^ 29 → (∀ c r, rate c = Some r → ∃ zr, at_places 8 (rate_to_inr r) zr ∧ 0 ≤ zr ≤ 10 ^ 14) →
  ∃ p a, price_with price_for u cards rate = Some p ∧ amount p = Some a ∧ half_even a (quantity u / inject_Z (divisor s) * sel_price s) ∧
    (sel_currency s = REPORTING_CURRENCY → amount_inr p = Some a) ∧
    (∀ i, amount_inr p = Some i → sel_currency s ≠ REPORTING_CURRENCY → i == 0 ∧ a == 0 ∨ ∃ r, fx_rate p = Some r ∧ half_even i (a * r)).
Proof.
  intros Hs Hb Hq Hp Hd Hz1 Hz2 Hr. destruct (raw_exact u s zq zp Hb Hq Hp Hd Hz1 Hz2) as (Eraw & z & Hz & Hlt). destruct (quantize_some _ z Hz Hlt) as (a & y & Ea & Hy & Hy2 & Herr).
  destruct (converts a y (sel_currency s) (fx_on u) (if negb (String.eqb (sel_currency s) REPORTING_CURRENCY) && negb (Qeq_bool a 0) then rate (sel_currency s) else None) Hy Hy2) as (c & Ec & Hinr & Hother).
  { intros r E. destruct (_ && _); [by eapply Hr|done]. }
  unfold price_with. rewrite Hs, Ea. cbn [mbind option_bind]. rewrite Ec. cbn [mbind option_bind]. eexists _, a. split; [reflexivity|]. cbn [amount amount_inr fx_rate]. split_and!; [done| |done|done]. by rewrite <- Eraw.
Qed.

Module PricingExample.
Definition card (id sku src : string) (price : Q) (start : Z) : Card :=
  {| card_id := id; provider := "openai"; usage_type := "llm_tokens"; model_sku := sku; unit := "1m_input_tokens"; unit_price := price; currency := "USD"; cached_unit_price := None;
     batch_discount_pct := 0%Q; volume_tiers := []; tier_mode := "graduated"; effective_from := start; effective_to := None; source := src; card_status := "active" |}.
Definition cards : list Card := [card "a" EmptyString "contract" (1 # 1) 0; card "b" "gpt" "list" (5 # 2) 0].
Definition usage : Usage :=
  {| u_provider := "openai"; u_usage_type := "llm_tokens"; u_unit := "input_token"; quantity := 1500 # 1; model := "gpt"; on_ := 20000; fx_on := 20000; batch := false; called_model := EmptyString |}.
Definition no_list (_ _ : string) : option ModelPrice := None.
Definition rates (_ : string) : option FxRate := Some {| rate_date := 19999; rate_to_inr := 83 # 1 |}.
Definition chosen : Selection := default (_in_house_selection usage) (_selection no_list usage cards).
End PricingExample.
Import PricingExample.

Lemma best_card_prices_witness : price_with no_list usage cards rates = price_with no_list usage (reverse cards) rates ∧ (rate_card_id <$> price_with no_list usage cards rates) = Some (Some "b").
Proof.
  destruct (best_card_prices no_list usage cards (reverse cards) rates) as [H _]; [by apply (bool_decide_eq_true_1 _); vm_compute|symmetry; apply reverse_Permutation|]. split; [exact H|vm_compute; reflexivity].
Defined.

Lemma amounts_rounded_once_witness : ∃ p a, price_with no_list usage cards rates = Some p ∧ amount p = Some a ∧
  half_even a (quantity usage / inject_Z (divisor chosen) * sel_price chosen).
Proof.
  destruct (amounts_rounded_once no_list usage cards rates chosen 1500000000 25000000000) as (p & a & Hp & Ha & Herr & _);
    [vm_compute; reflexivity|reflexivity|split; [discriminate|vm_compute; reflexivity]|split; [discriminate|vm_compute; reflexivity]|right; vm_compute; reflexivity|vm_compute; reflexivity|vm_compute; reflexivity|
     intros c r [= <-]; exists 8300000000; split; [split; [discriminate|vm_compute; reflexivity]|lia]|]. exists p, a. exact (conj Hp (conj Ha Herr)).
Defined.
