(* ===== verification/SpendRates.v ===== *)
(** Rate cards: the transactions of src/core/spend/rates.py on the cards of one tenant.

    Every writer holds the lock of the card's key, so a transaction on it is atomic. The fields of a body
    arrive as src/core/spend/vocab.py checked them. Of usage records and reconciliations only what [card_in_use]
    reads is kept. Days are numbers and instants microseconds; the zone a provider closes its day in is an
    argument. Audit rows and the jobs that restate records are left out. *)

From Stdlib Require Import QArith.
From S2P Require Import Prelude PyVal PyText SpendDecimal SpendPricing.

Local Open Scope Z_scope.

Inductive rate_error := invalid_period | rate_card_overlap | restate_required | in_use | not_found.

Definition CardKey := (string * string * string * string * string)%type.
Definition _key_of (c : Card) : CardKey := (provider c, usage_type c, model_sku c, unit c, source c).


(** Half-open ranges; [None] is open-ended *)
Definition overlaps (a_from : Z) (a_to : option Z) (b_from : Z) (b_to : option Z) : bool :=
  match b_to with None => true | Some e => a_from <? e end && match a_to with None => true | Some e => b_from <? e end.

Definition is_active (c : Card) : bool := String.eqb (card_status c) "active".

Definition _active_cards (st : gmap string Card) (key : CardKey) : list (string * Card) := List.filter (λ ic, is_active ic.2 && bool_decide (_key_of ic.2 = key)) (map_to_list st).

Definition check_overlap (st : gmap string Card) (key : CardKey) (eff_from : Z) (eff_to : option Z) (exclude_id : option string) : result rate_error () :=
  raise_if (existsb (λ ic, negb (bool_decide (exclude_id = Some ic.1)) && overlaps eff_from eff_to (effective_from ic.2) (effective_to ic.2)) (_active_cards st key)) rate_card_overlap.

Definition with_end (e : option Z) (c : Card) : Card :=
  {| card_id := card_id c; provider := provider c; usage_type := usage_type c; model_sku := model_sku c; unit := unit c; unit_price := unit_price c; currency := currency c;
     cached_unit_price := cached_unit_price c; batch_discount_pct := batch_discount_pct c; volume_tiers := volume_tiers c; tier_mode := tier_mode c; effective_from := effective_from c;
     effective_to := e; source := source c; card_status := card_status c |}.
Definition retired (c : Card) : Card :=
  {| card_id := card_id c; provider := provider c; usage_type := usage_type c; model_sku := model_sku c; unit := unit c; unit_price := unit_price c; currency := currency c;
     cached_unit_price := cached_unit_price c; batch_discount_pct := batch_discount_pct c; volume_tiers := volume_tiers c; tier_mode := tier_mode c; effective_from := effective_from c;
     effective_to := effective_to c; source := source c; card_status := "retired" |}.

Definition period_ok (eff_from : Z) (eff_to : option Z) : bool := match eff_to with Some e => eff_from <? e | None => true end.

(** * Transactions *)

(** ** What a card priced *)

(** What a usage record says of its price: the card, the output card of a blend, its unit, its time and its billing date *)
Record UsageRef := { ref_card : option string; ref_blend : option string; ref_unit : string; ref_time : Z; ref_date : Z }.

Record SpendReconciliation := { run_provider : string; run_period_start : Z; run_created_at : option Z; superseded : bool; card_ids : list string }.

Definition next_month (day : Z) : Z := let '(_, _, d) := civil_from_days day in day - d + 1 + days_in_month day.

Definition latest (l : list Z) : option Z := match l with [] => None | x :: l => Some (foldr Z.max x l) end.

Section transactions.
(** Of a provider's billing zone: when a day starts, and the day of an instant; and what was priced and compared so far *)
Context (day_start billing_date_of : string → Z → Z) (usage : list UsageRef) (runs : list SpendReconciliation).

Definition compared_through (p : string) (period_start : Z) (created_at : option Z) : Z :=
  let month_end := next_month period_start - 1 in
  match created_at with None => month_end | Some t => Z.min month_end (Z.max period_start (billing_date_of p t)) end.

Definition card_used_until (id : string) : option Z :=
  latest ((λ r, compared_through (run_provider r) (run_period_start r) (run_created_at r)) <$> List.filter (λ r, negb (superseded r) && bool_decide (id ∈ card_ids r)) runs).

(** Whether a record is a blend whose output card is this one, inside the card's dates as they are now *)
Definition blend_use (c : Card) (id : string) (r : UsageRef) : bool :=
  String.eqb (ref_unit r) "token" && bool_decide (ref_blend r = Some id) && (day_start (provider c) (effective_from c) <=? ref_time r) &&
  match effective_to c with None => true | Some e => ref_time r <? day_start (provider c) e end.

Definition card_in_use (st : gmap string Card) (id : string) : option Z :=
  let direct := latest (ref_date <$> List.filter (λ r, bool_decide (ref_card r = Some id)) usage) in
  let blend := c ← st !! id; latest (ref_date <$> List.filter (blend_use c id) usage) in
  latest (omap (λ x, x) [direct; blend; card_used_until id]).

(** Closing the open cards a new one replaces *)
Definition supersede_one (start : Z) (restate : bool) (st : gmap string Card) (ic : string * Card) : result rate_error (gmap string Card) :=
  if bool_decide (effective_to ic.2 ≠ None) || (start <=? effective_from ic.2) then Ok st
  else
    _ ← raise_if (match card_in_use st ic.1 with Some u => start <=? u | None => false end && negb restate) restate_required;
    Ok (<[ic.1 := with_end (Some start) ic.2]> st).

(** [c]: the card to be, with the id drawn for it *)
Definition create_card (st : gmap string Card) (c : Card) (supersede restate : bool) : result rate_error (gmap string Card) :=
  _ ← raise_if (negb (period_ok (effective_from c) (effective_to c))) invalid_period;
  st' ← (if supersede then fold_res (supersede_one (effective_from c) restate) st (_active_cards st (_key_of c)) else Ok st);
  _ ← check_overlap st' (_key_of c) (effective_from c) (effective_to c) None;
  Ok (<[card_id c := c]> st').

(** What a body changes: [None] where it says nothing *)
Record Patch := {
  p_unit_price : option Q; p_cached : option (option Q); p_discount : option Q; p_tiers : option (list Tier); p_tier_mode : option string; p_currency : option string; p_from : option Z;
  p_to : option (option Z); p_retire : bool }.

Definition tier_eqb (a b : Tier) : bool := Qeq_bool (from_quantity a) (from_quantity b) && Qeq_bool (tier_price a) (tier_price b).
Fixpoint tiers_eqb (a b : list Tier) : bool := match a, b with [], [] => true | x :: a, y :: b => tier_eqb x y && tiers_eqb a b | _, _ => false end.
Definition opt_q_eqb (a b : option Q) : bool := match a, b with Some x, Some y => Qeq_bool x y | None, None => true | _, _ => false end.

(** A value is taken over when it differs *)
Definition pick {A} (eqb : A → A → bool) (old : A) (new : option A) : A := match new with Some v => if eqb v old then old else v | None => old end.

Definition _patch_values (c : Card) (p : Patch) : Card :=
  {| card_id := card_id c; provider := provider c; usage_type := usage_type c; model_sku := model_sku c; unit := unit c; unit_price := pick Qeq_bool (unit_price c) (p_unit_price p);
     currency := pick String.eqb (currency c) (p_currency p); cached_unit_price := pick opt_q_eqb (cached_unit_price c) (p_cached p);
     batch_discount_pct := pick Qeq_bool (batch_discount_pct c) (p_discount p); volume_tiers := pick tiers_eqb (volume_tiers c) (p_tiers p);
     tier_mode := pick String.eqb (tier_mode c) (p_tier_mode p); effective_from := pick Z.eqb (effective_from c) (p_from p);
     effective_to := pick (λ a b, bool_decide (a = b)) (effective_to c) (p_to p); source := source c; card_status := if p_retire p then "retired" else card_status c |}.

(** Whether a field of PRICE_FIELDS is among the new values *)
Definition price_changed (c c' : Card) : bool :=
  negb (Qeq_bool (unit_price c') (unit_price c) && opt_q_eqb (cached_unit_price c') (cached_unit_price c) && Qeq_bool (batch_discount_pct c') (batch_discount_pct c) &&
        tiers_eqb (volume_tiers c') (volume_tiers c) && String.eqb (tier_mode c') (tier_mode c) && String.eqb (currency c') (currency c) && (effective_from c' =? effective_from c)).

Definition end_changed (c c' : Card) : bool := negb (bool_decide (effective_to c' = effective_to c)).

Definition update_card (st : gmap string Card) (id : string) (p : Patch) (restate : bool) (today : Z) : result rate_error (gmap string Card) :=
  c ← of_option not_found (st !! id);
  _ ← raise_if (negb (is_active c)) in_use;
  let c' := _patch_values c p in
  _ ← raise_if (negb (period_ok (effective_from c') (effective_to c'))) invalid_period;
  if negb (price_changed c c' || end_changed c c' || p_retire p) then Ok st
  else
    _ ← raise_if (price_changed c c' && (bool_decide (card_in_use st id ≠ None) || (effective_from c <=? today))) in_use;
    _ ← raise_if (p_retire p && bool_decide (card_in_use st id ≠ None)) in_use;
    _ ← raise_if (end_changed c c' && match effective_to c', card_in_use st id with Some e, Some u => (e <=? today) && (e <=? u) | _, _ => false end && negb restate) restate_required;
    _ ← (if is_active c' && (end_changed c c' || negb (effective_from c' =? effective_from c))
         then check_overlap st (_key_of c) (effective_from c') (effective_to c') (Some id) else Ok ());
    Ok (<[id := c']> st).

(** The days of which a change of a card's end restates the records: from the new end on, when the card, as it is
    after the change, was used since *)
Definition update_plan (st' : gmap string Card) (id : string) (previous_end : option Z) (restate : bool) (today : Z) : option (Z * Z) :=
  c ← st' !! id;
  e ← effective_to c;
  u ← card_in_use st' id;
  if restate && negb (bool_decide (effective_to c = previous_end)) && (e <=? today) && (e <=? u) then Some (e, today) else None.

(** [fields]: the replacement with the corrected prices, currency and tiers, for the key and the start of the old card; [new_end]: the end the body gives *)
Definition correct_card (st : gmap string Card) (id new_id : string) (fields : Card) (new_end : option (option Z)) : result rate_error (gmap string Card) :=
  c ← of_option not_found (st !! id);
  _ ← raise_if (negb (is_active c)) in_use;
  let e := default (effective_to c) new_end in
  _ ← raise_if (negb (period_ok (effective_from c) e)) invalid_period;
  let st' := <[id := retired c]> st in
  _ ← check_overlap st' (_key_of c) (effective_from c) e (Some id);
  Ok (<[new_id := {| card_id := new_id; provider := provider c; usage_type := usage_type c; model_sku := model_sku c; unit := unit c; unit_price := unit_price fields; currency := currency fields;
                     cached_unit_price := cached_unit_price fields; batch_discount_pct := batch_discount_pct fields; volume_tiers := volume_tiers fields; tier_mode := tier_mode fields;
                     effective_from := effective_from c; effective_to := e; source := source c; card_status := "active" |}]> st').

(** One row of an import: the card of that key and start is changed, or a card is created *)
Definition import_row (st : gmap string Card) (c : Card) (p : Patch) (supersede restate : bool) (today : Z) : result rate_error (gmap string Card) :=
  match List.filter (λ ic, effective_from ic.2 =? effective_from c) (_active_cards st (_key_of c)) with
  | ic :: _ => update_card st ic.1 p restate today
  | [] => create_card st c supersede restate
  end.

(** A row whose key and start an earlier row has is refused *)
Definition ImportRow := (Card * Patch * bool * bool)%type.
Definition same_slot (a b : ImportRow) : bool := bool_decide (_key_of a.1.1.1 = _key_of b.1.1.1) && (effective_from a.1.1.1 =? effective_from b.1.1.1).
Fixpoint unique_rows (seen rows : list ImportRow) : list ImportRow :=
  match rows with [] => [] | r :: rows => if existsb (same_slot r) seen then unique_rows seen rows else r :: unique_rows (r :: seen) rows end.

(** The rows of a file: a refused row changes nothing, and a dry run changes nothing at all *)
Definition import_step (today : Z) (st : gmap string Card) (r : ImportRow) : gmap string Card :=
  match import_row st r.1.1.1 r.1.1.2 r.1.2 r.2 today with Ok st' => st' | Err _ => st end.
Definition import_cards (st : gmap string Card) (rows : list ImportRow) (dry_run : bool) (today : Z) : gmap string Card :=
  if dry_run then st else foldl (import_step today) st (unique_rows [] rows).
End transactions.

(** * Every sequence of transactions *)

Section system.
Context (day_start billing_date_of : string → Z → Z).

Inductive step : gmap string Card → gmap string Card → Prop :=
| step_create usage runs st st' c supersede restate : st !! card_id c = None → is_active c = true → create_card day_start billing_date_of usage runs st c supersede restate = Ok st' → step st st'
| step_update usage runs st st' id p restate today : update_card day_start billing_date_of usage runs st id p restate today = Ok st' → step st st'
| step_correct st st' id new_id fields e : st !! new_id = None → correct_card st id new_id fields e = Ok st' → step st st'
| step_import usage runs st c p supersede restate today : st !! card_id c = None → is_active c = true → step st (import_step day_start billing_date_of usage runs today st (c, p, supersede, restate)).

Definition reachable (st : gmap string Card) : Prop := rtc step ∅ st.
End system.

(** * One card at a time *)

Record cards_ok (st : gmap string Card) : Prop := {
  ok_ids : ∀ i a, st !! i = Some a → card_id a = i;
  ok_periods : ∀ i a, st !! i = Some a → period_ok (effective_from a) (effective_to a) = true;
  ok_disjoint : ∀ i j a b, st !! i = Some a → st !! j = Some b → i ≠ j → is_active a = true → is_active b = true → _key_of a = _key_of b →
    overlaps (effective_from a) (effective_to a) (effective_from b) (effective_to b) = false }.

Lemma overlaps_sym a_from a_to b_from b_to : overlaps a_from a_to b_from b_to = overlaps b_from b_to a_from a_to.
Proof. unfold overlaps. apply andb_comm. Qed.

(** Two ranges that do not meet share no day *)
Lemma overlaps_day a_from a_to b_from b_to d : a_from ≤ d → b_from ≤ d → match a_to with Some e => d < e | None => True end → match b_to with Some e => d < e | None => True end → overlaps a_from a_to b_from b_to = true.
Proof. intros H1 H2 H3 H4. unfold overlaps. apply andb_true_iff. split; [destruct b_to|destruct a_to]; try done; apply Z.ltb_lt; lia. Qed.

Lemma active_cards_elem st key i a : (i, a) ∈ _active_cards st key ↔ st !! i = Some a ∧ is_active a = true ∧ _key_of a = key.
Proof.
  unfold _active_cards. rewrite list_elem_of_In, filter_In, <- list_elem_of_In, elem_of_map_to_list. cbn. rewrite andb_true_iff, bool_decide_eq_true. done.
Qed.

Lemma check_overlap_ok st key f t ex : check_overlap st key f t ex = Ok () → ∀ i a, st !! i = Some a → is_active a = true → _key_of a = key → ex ≠ Some i → overlaps f t (effective_from a) (effective_to a) = false.
Proof.
  unfold check_overlap. intros H i a Hi Ha Hk Hex. apply raise_if_Ok in H. destruct (overlaps f t _ _) eqn:E; [|done]. exfalso. assert ((i, a) ∈ _active_cards st key) as Hin by by apply active_cards_elem.
  apply list_elem_of_In in Hin. assert (existsb (λ ic, negb (bool_decide (ex = Some ic.1)) && overlaps f t (effective_from ic.2) (effective_to ic.2)) (_active_cards st key) = true); [|congruence].
  apply existsb_exists. exists (i, a). split; [done|]. cbn. by rewrite bool_decide_false, E.
Qed.

Lemma cards_ok_insert st id c : cards_ok st → card_id c = id → period_ok (effective_from c) (effective_to c) = true →
  (is_active c = true → ∀ j b, j ≠ id → st !! j = Some b → is_active b = true → _key_of b = _key_of c → overlaps (effective_from c) (effective_to c) (effective_from b) (effective_to b) = false) →
  cards_ok (<[id := c]> st).
Proof.
  intros [H1 H2 H3] Hid Hp Hc. split.
  - intros i a [[<- <-]|[_ Ha]]%lookup_insert_Some; [done|by apply H1].
  - intros i a [[<- <-]|[_ Ha]]%lookup_insert_Some; [done|by eapply H2].
  - intros i j a b Hi Hj Hne Ha Hb Hk. apply lookup_insert_Some in Hi as [[<- <-]|[? Hi]], Hj as [[<- <-]|[? Hj]]; [done|apply (Hc Ha j b); congruence| |by eapply (H3 i j)]. rewrite overlaps_sym. apply (Hc Hb i a); congruence.
Qed.

(** Ending a card earlier meets fewer cards *)
Lemma cards_ok_shorten st id c e : cards_ok st → st !! id = Some c → effective_to c = None → effective_from c < e → cards_ok (<[id := with_end (Some e) c]> st).
Proof.
  intros Hok Hc Hn He. apply cards_ok_insert; [done|exact (ok_ids st Hok id c Hc)|by apply Z.ltb_lt|]. cbn. intros Ha j b Hj Hb Hab Hk.
  pose proof (ok_disjoint st Hok id j c b Hc Hb ltac:(done) Ha Hab ltac:(done)) as H. unfold overlaps in *. rewrite Hn in H. cbn in H. rewrite andb_true_r in H. rewrite H. done.
Qed.

Lemma supersede_ok day_start billing_date_of usage runs start restate st l st' :
  cards_ok st → NoDup l.*1 → (∀ i a, (i, a) ∈ l → st !! i = Some a) → fold_res (supersede_one day_start billing_date_of usage runs start restate) st l = Ok st' →
  cards_ok st' ∧ (∀ i, st !! i = None → st' !! i = None) ∧
  (∀ i c, st !! i = Some c → st' !! i = Some c ∨ (effective_to c = None ∧ st' !! i = Some (with_end (Some start) c))).
Proof.
  revert st. induction l as [|[i a] l IH]; intros st Hok Hnd Hl; cbn [fold_res]; [intros [= <-]; naive_solver|]. intros H. apply bind_Ok in H as (st1 & H1 & H). apply NoDup_cons in Hnd as [Hni Hnd].
  unfold supersede_one in H1. cbn [fst snd] in H1. destruct (bool_decide (effective_to a ≠ None) || (start <=? effective_from a)) eqn:Ecase.
  { injection H1 as <-. apply IH; [done|done| |done]. intros j b Hj. apply Hl. by right. }
  apply orb_false_iff in Ecase as [En Es]. apply bool_decide_eq_false, dec_stable in En. apply Z.leb_gt in Es. apply bind_Ok in H1 as ([] & Hre & [= <-]). apply raise_if_Ok in Hre.
  assert (st !! i = Some a) as Hi by (apply Hl; left). destruct (IH (<[i := with_end (Some start) a]> st)) as (Hok' & Hfresh & Hkept); [by apply cards_ok_shorten|done| |done|].
  { intros j b Hj. rewrite lookup_insert_ne; [apply Hl; by right|]. intros ->. apply Hni. apply list_elem_of_fmap. by exists (j, b). }
  split_and!; [done| |].
  - intros j Hj. apply Hfresh. rewrite lookup_insert_ne; [done|congruence].
  - intros j c Hj. destruct (decide (j = i)) as [->|Hne]; [|apply Hkept; by rewrite lookup_insert_ne]. assert (c = a) as -> by congruence. right. split; [done|].
    destruct (Hkept i (with_end (Some start) a)) as [?|(? & _)]; [by rewrite lookup_insert_eq|done|done].
Qed.

(** What never changes of a card that priced something: its key, its start and every price *)
Definition same_price (a b : Card) : Prop :=
  _key_of b = _key_of a ∧ effective_from b = effective_from a ∧ unit_price b = unit_price a ∧ cached_unit_price b = cached_unit_price a ∧ batch_discount_pct b = batch_discount_pct a ∧
  volume_tiers b = volume_tiers a ∧ tier_mode b = tier_mode a ∧ currency b = currency a.

Lemma pick_same {A} (eqb : A → A → bool) old new : eqb (pick eqb old new) old = true → pick eqb old new = old.
Proof. unfold pick. destruct new as [v|]; [|done]. destruct (eqb v old) eqn:E; [done|]. congruence. Qed.

Lemma unchanged_price c p : price_changed c (_patch_values c p) = false → same_price c (_patch_values c p).
Proof.
  unfold price_changed. rewrite negb_false_iff, !andb_true_iff. intros ((((((H1 & H2) & H3) & H4) & H5) & H6) & H7). unfold same_price, _patch_values in *. cbn in *.
  by rewrite !pick_same by done.
Qed.

(** ** What holds of a card that is in use *)

Section in_use.
Context (day_start billing_date_of : string → Z → Z) (usage : list UsageRef) (runs : list SpendReconciliation).
Local Abbreviation card_in_use := (card_in_use day_start billing_date_of usage runs).

(** A record was priced with the card; a token record within the card's dates was blended with it as output
    card; or a reconciliation that still stands was compared with it. *)
Definition priced_with (i : string) (c : Card) : Prop :=
  (∃ r, r ∈ usage ∧ ref_card r = Some i) ∨
  (∃ r, r ∈ usage ∧ ref_unit r = "token" ∧ ref_blend r = Some i ∧ day_start (provider c) (effective_from c) ≤ ref_time r ∧ ∀ e, effective_to c = Some e → ref_time r < day_start (provider c) e) ∨
  (∃ r, r ∈ runs ∧ superseded r = false ∧ i ∈ card_ids r).

Lemma latest_Some {A} (f : A → Z) (g : A → bool) l : latest (f <$> List.filter g l) ≠ None ↔ ∃ r, r ∈ l ∧ g r = true.
Proof.
  destruct (List.filter g l) as [|x xs] eqn:E; cbn.
  - split; [done|]. intros (r & Hr & Hg) _. assert (r ∈ List.filter g l) as Hin by (apply list_elem_of_In, filter_In; by rewrite <- list_elem_of_In). rewrite E in Hin. by apply not_elem_of_nil in Hin.
  - split; [|done]. intros _. exists x. assert (x ∈ List.filter g l) as Hin by (rewrite E; left). by apply list_elem_of_In, filter_In in Hin as [?%list_elem_of_In ?].
Qed.

Lemma blend_use_spec i c r : blend_use day_start c i r = true ↔
  ref_unit r = "token" ∧ ref_blend r = Some i ∧ day_start (provider c) (effective_from c) ≤ ref_time r ∧ ∀ e, effective_to c = Some e → ref_time r < day_start (provider c) e.
Proof.
  unfold blend_use. rewrite !andb_true_iff, String.eqb_eq, bool_decide_eq_true, Z.leb_le. assert (match effective_to c with None => true | Some e => ref_time r <? day_start (provider c) e end = true ↔ ∀ e, effective_to c = Some e → ref_time r < day_start (provider c) e) as ->; [|tauto].
  destruct (effective_to c) as [e|]; [|by split]. rewrite Z.ltb_lt. split; [by intros ? ? [= <-]|auto].
Qed.

Lemma card_in_use_spec st i c : st !! i = Some c → card_in_use st i ≠ None ↔ priced_with i c.
Proof.
  intros Hi. unfold SpendRates.card_in_use. rewrite Hi. cbn [mbind option_bind]. set (direct := latest (ref_date <$> List.filter (λ r, bool_decide (ref_card r = Some i)) usage)). set (blend := latest (ref_date <$> List.filter (blend_use day_start c i) usage)). set (compared := card_used_until _ _ _).
  assert (latest (omap (λ x, x) [direct; blend; compared]) ≠ None ↔ direct ≠ None ∨ blend ≠ None ∨ compared ≠ None) as -> by (destruct direct, blend, compared; cbn; split; naive_solver).
  unfold direct, blend, compared, card_used_until, priced_with. rewrite !latest_Some. setoid_rewrite blend_use_spec. setoid_rewrite andb_true_iff. setoid_rewrite negb_true_iff. setoid_rewrite bool_decide_eq_true. naive_solver.
Qed.

Definition kept (st st' : gmap string Card) : Prop :=
  ∀ i c, st !! i = Some c → ∃ c', st' !! i = Some c' ∧ _key_of c' = _key_of c ∧
    (priced_with i c → same_price c c' ∧ (is_active c = true → is_active c' = true ∨ ∃ j r, st' !! j = Some r ∧ is_active r = true ∧ _key_of r = _key_of c ∧ effective_from r = effective_from c)).

Lemma same_price_refl c : same_price c c.
Proof. by unfold same_price. Qed.

Lemma kept_insert st id c : (∀ c0, st !! id = Some c0 → _key_of c = _key_of c0 ∧ (priced_with id c0 → same_price c0 c ∧ (is_active c0 = true → is_active c = true))) → kept st (<[id := c]> st).
Proof.
  intros H i c0 Hi. destruct (decide (i = id)) as [->|Hne]; [|exists c0; rewrite lookup_insert_ne by done; split_and!; [done|done|]; intros _; split; [apply same_price_refl|by left]].
  exists c. rewrite lookup_insert_eq. destruct (H c0 Hi) as [Hk Hu]. split_and!; [done|done|]. intros Hn. destruct (Hu Hn) as [Hs Ha]. split; [done|]. intros E. left. by apply Ha.
Qed.

Lemma create_ok st c supersede restate st' : cards_ok st → st !! card_id c = None → is_active c = true → create_card day_start billing_date_of usage runs st c supersede restate = Ok st' → cards_ok st' ∧ kept st st'.
Proof.
  intros Hok Hfresh Ha H. unfold create_card in H. apply bind_Ok in H as ([] & Hp & H). apply raise_if_Ok, negb_false_iff in Hp. apply bind_Ok in H as (st1 & H1 & H). apply bind_Ok in H as ([] & Hov & [= <-]).
  assert (cards_ok st1 ∧ st1 !! card_id c = None ∧ ∀ i c0, st !! i = Some c0 → ∃ c1, st1 !! i = Some c1 ∧ same_price c0 c1 ∧ is_active c1 = is_active c0) as (Hok1 & Hfresh1 & Hk1).
  { destruct supersede; [|injection H1 as <-; split_and!; [done|done|]; intros i c0 Hi; exists c0; split_and!; [done|apply same_price_refl|done]].
    apply supersede_ok in H1 as (Hok1 & Hf & Hk); [|done| |intros i a Hia; by apply active_cards_elem in Hia as (? & _)].
    - split_and!; [done|by apply Hf|]. intros i c0 Hi. destruct (Hk i c0 Hi) as [?|[_ ?]]; eexists; (split; [done|]); by split.
    - unfold _active_cards. eapply sublist_NoDup; [apply (NoDup_fst_map_to_list st)|]. clear. induction (map_to_list st) as [|x l IH]; cbn; [constructor|]. destruct (_ && _); cbn; by constructor. }
  split.
  - apply cards_ok_insert; [done|done|done|]. intros _ j b Hj Hb Hab Hk. by eapply (check_overlap_ok st1 _ _ _ None Hov j b).
  - intros i c0 Hi. destruct (Hk1 i c0 Hi) as (c1 & Hc1 & Hs & Hact). exists c1. rewrite lookup_insert_ne by congruence. split_and!; [done|apply Hs|]. intros _. split; [done|]. left. by rewrite Hact.
Qed.

Lemma update_ok st id p restate today st' : cards_ok st → update_card day_start billing_date_of usage runs st id p restate today = Ok st' → cards_ok st' ∧ kept st st'.
Proof.
  intros Hok H. unfold update_card in H. apply bind_Ok in H as (c & Hc & H). apply of_option_Ok in Hc. apply bind_Ok in H as ([] & Ha & H). apply raise_if_Ok, negb_false_iff in Ha. cbn zeta in H.
  apply bind_Ok in H as ([] & Hp & H). apply raise_if_Ok, negb_false_iff in Hp. assert (kept st st) as Hsame by (intros i c0 Hi; exists c0; split_and!; [done|done|]; intros _; split; [apply same_price_refl|by left]).
  destruct (negb _); [by injection H as <-|]. apply bind_Ok in H as ([] & Hpr & H). apply bind_Ok in H as ([] & Hret & H). apply bind_Ok in H as ([] & _ & H). apply bind_Ok in H as ([] & Hov & [= <-]). apply raise_if_Ok in Hpr, Hret. split.
  - apply cards_ok_insert; [done|exact (ok_ids st Hok id c Hc)|done|]. intros Ha' j b Hj Hb Hab Hk. rewrite Ha' in Hov. cbn [andb] in Hov.
    destruct (end_changed c (_patch_values c p) || _) eqn:E; [eapply (check_overlap_ok st _ _ _ (Some id) Hov j b); [done|done|done|congruence]|]. apply orb_false_iff in E as [E1 E2]. apply negb_false_iff in E1, E2. apply bool_decide_eq_true in E1. apply Z.eqb_eq in E2. rewrite E1, E2.
    by eapply (ok_disjoint st Hok id j c b).
  - apply kept_insert. intros c0 Hc0. assert (c0 = c) as -> by congruence. split; [done|]. intros Hu%(card_in_use_spec st id c Hc). rewrite bool_decide_true in Hpr, Hret by done. cbn in Hpr. rewrite andb_true_r in Hpr. rewrite andb_true_r in Hret.
    split; [by apply unchanged_price|]. intros _. unfold _patch_values, is_active. cbn. by rewrite Hret.
Qed.

Lemma correct_ok st id new_id fields e st' : cards_ok st → st !! new_id = None → correct_card st id new_id fields e = Ok st' → cards_ok st' ∧ kept st st'.
Proof.
  intros Hok Hfresh H. unfold correct_card in H. apply bind_Ok in H as (c & Hc & H). apply of_option_Ok in Hc. apply bind_Ok in H as ([] & Ha & H). apply raise_if_Ok, negb_false_iff in Ha. cbn zeta in H.
  apply bind_Ok in H as ([] & Hp & H). apply raise_if_Ok, negb_false_iff in Hp. apply bind_Ok in H as ([] & Hov & [= <-]). assert (new_id ≠ id) as Hne by congruence. split.
  - apply cards_ok_insert; [|done|done|].
    + apply cards_ok_insert; [done|exact (ok_ids st Hok id c Hc)|exact (ok_periods st Hok id c Hc)|done].
    + cbn. intros _ j b Hj Hb Hab Hk. assert (j ≠ id) as Hji by (intros ->; rewrite lookup_insert_eq in Hb; by injection Hb as <-).
      by apply (check_overlap_ok _ _ _ _ (Some id) Hov j b); [done|done|done|congruence].
  - intros i c0 Hi. assert (i ≠ new_id) as Hin by congruence. rewrite lookup_insert_ne by done. destruct (decide (i = id)) as [->|Hii].
    + assert (c0 = c) as -> by congruence. exists (retired c). rewrite lookup_insert_eq. split_and!; [done|done|]. intros _. split; [by unfold same_price|]. intros _. right. eexists new_id, _. rewrite lookup_insert_eq. by split_and!.
    + exists c0. rewrite lookup_insert_ne by done. split_and!; [done|done|]. intros _. split; [apply same_price_refl|by left].
Qed.

Lemma import_ok st r today : cards_ok st → st !! card_id r.1.1.1 = None → is_active r.1.1.1 = true → cards_ok (import_step day_start billing_date_of usage runs today st r) ∧ kept st (import_step day_start billing_date_of usage runs today st r).
Proof.
  intros Hok Hfresh Ha. assert (kept st st) as Hsame by (intros i c0 Hi; exists c0; split_and!; [done|done|]; intros _; split; [apply same_price_refl|by left]).
  unfold import_step, import_row. destruct (List.filter _ _) as [|ic l].
  - destruct (create_card _ _ _ _ _ _ _ _) as [st'|] eqn:E; [by eapply create_ok|done].
  - destruct (update_card _ _ _ _ _ _ _ _ _) as [st'|] eqn:E; [by eapply update_ok|done].
Qed.

End in_use.

Section reachable_cards.
Context (day_start billing_date_of : string → Z → Z).

Lemma rates_step_ok st st' : cards_ok st → step day_start billing_date_of st st' → cards_ok st'.
Proof.
  intros Hok H. destruct H as [usage runs st st' c sup re Hf Ha H|usage runs st st' id p re today H|st st' id new_id fields e Hf H|usage runs st c p sup re today Hf Ha].
  - by eapply create_ok.
  - by eapply update_ok.
  - by eapply (correct_ok day_start [] []).
  - by apply (import_ok day_start billing_date_of usage runs st (c, p, sup, re) today).
Qed.

Lemma reachable_cards_ok st : reachable day_start billing_date_of st → cards_ok st.
Proof.
  unfold reachable. assert (cards_ok ∅) as H0 by (split; intros *; by rewrite lookup_empty). revert H0. generalize (∅ : gmap string Card). intros s0 H0 Hr. induction Hr as [|a b c Hab _ IH]; [done|]. apply IH. by eapply rates_step_ok.
Qed.

End reachable_cards.

Lemma ids_distinct st : cards_ok st → NoDup (card_id <$> (map_to_list st).*2).
Proof.
  intros Hok. assert (card_id <$> (map_to_list st).*2 = (map_to_list st).*1) as ->; [|apply NoDup_fst_map_to_list]. rewrite <- list_fmap_compose. apply list_fmap_ext. intros k [i a] Hi. cbn.
  apply list_elem_of_lookup_2, elem_of_map_to_list in Hi. by apply (ok_ids st Hok).
Qed.

(** * Claim *)

(** C37. One rate at a time, and no rate in use rewritten. After any sequence of creations, changes, corrections and imports, at
    most one active card of a key is in force on a day, so the price of a usage does not depend on the order the cards are read in. No operation changes the prices,
    the key or the start of a card that is in use: one a usage record was priced with, one that a token record within the card's present dates was blended with as output
    card, or one a standing reconciliation was compared with; and such a card is retired only together with a
    replacement for the same key and start. (A blended record outside the card's present dates does not count as use: [shortened_output_card_is_forgotten].) *)
Theorem rates_are_consistent day_start billing_date_of st : reachable day_start billing_date_of st →
  (∀ i j a b day, st !! i = Some a → st !! j = Some b → is_active a = true → is_active b = true → _key_of a = _key_of b → in_force a day = true → in_force b day = true → i = j) ∧
  (∀ price_for u cards rate, cards ≡ₚ (map_to_list st).*2 → price_with price_for u cards rate = price_with price_for u (map_to_list st).*2 rate) ∧
  (∀ usage runs st', (∃ c supersede restate, st !! card_id c = None ∧ is_active c = true ∧ create_card day_start billing_date_of usage runs st c supersede restate = Ok st') ∨
     (∃ id p restate today, update_card day_start billing_date_of usage runs st id p restate today = Ok st') ∨ (∃ id new_id fields e, st !! new_id = None ∧ correct_card st id new_id fields e = Ok st') ∨
     (∃ r today, st !! card_id r.1.1.1 = None ∧ is_active r.1.1.1 = true ∧ st' = import_step day_start billing_date_of usage runs today st r) → kept day_start usage runs st st').
Proof.
  intros Hr. pose proof (reachable_cards_ok _ _ st Hr) as Hok. split_and!.
  - intros i j a b day Hi Hj Ha Hb Hk Hfa Hfb. destruct (decide (i = j)) as [|Hne]; [done|]. pose proof (ok_disjoint st Hok i j a b Hi Hj Hne Ha Hb Hk) as H. unfold in_force in Hfa, Hfb.
    apply andb_true_iff in Hfa as [Hfa1 Hfa2], Hfb as [Hfb1 Hfb2]. apply Z.leb_le in Hfa1, Hfb1. rewrite (overlaps_day _ _ _ _ day) in H; [done|done|done| |]; [destruct (effective_to a)|destruct (effective_to b)]; try done; by apply Z.ltb_lt.
  - intros price_for u cards rate Hp. apply price_perm; [|done]. rewrite Hp. by apply ids_distinct.
  - intros usage runs st' [(c & sup & re & Hf & Ha & H)|[(id & p & re & today & H)|[(id & new_id & fields & e & Hf & H)|(r & today & Hf & Ha & ->)]]].
    + by eapply create_ok.
    + by eapply update_ok.
    + by eapply correct_ok.
    + by apply import_ok.
Qed.

Module RatesExample.
Definition open_card (id u : string) (price : Q) (start : Z) : Card :=
  {| card_id := id; provider := "openai"; usage_type := "llm_tokens"; model_sku := "gpt"; unit := u; unit_price := price; currency := "USD"; cached_unit_price := None;
     batch_discount_pct := 0%Q; volume_tiers := []; tier_mode := "graduated"; effective_from := start; effective_to := None; source := "list"; card_status := "active" |}.
Definition utc_start (_ : string) (d : Z) : Z := d * 86400000000.
Definition utc_date (_ : string) (t : Z) : Z := t / 86400000000.
Definition in_card : Card := open_card "a" "1m_input_tokens" (1 # 1) 0.
Definition two : gmap string Card := {[ "a" := with_end (Some 30) in_card; "b" := open_card "b" "1m_input_tokens" (2 # 1) 30 ]}.

Lemma two_reachable : reachable utc_start utc_date two.
Proof.
  eapply rtc_l; [apply (step_create _ _ [] [] ∅ {[ "a" := in_card ]} in_card false false); [done|done|vm_compute; reflexivity]|].
  eapply rtc_l; [apply (step_create _ _ [] [] _ two (open_card "b" "1m_input_tokens" (2 # 1) 30) true false); [done|done|vm_compute; reflexivity]|]. apply rtc_refl.
Qed.

(** A record of the fiftieth day, priced by an input and an output card together *)
Definition out_card : Card := open_card "o" "1m_output_tokens" (3 # 1) 0.
Definition pair : gmap string Card := {[ "a" := in_card; "o" := out_card ]}.
Definition blended : UsageRef := {| ref_card := Some "a"; ref_blend := Some "o"; ref_unit := "token"; ref_time := utc_start "openai" 50; ref_date := 50 |}.
Definition patch (new_end : option (option Z)) (retire : bool) : Patch :=
  {| p_unit_price := None; p_cached := None; p_discount := None; p_tiers := None; p_tier_mode := None; p_currency := None; p_from := None; p_to := new_end; p_retire := retire |}.
Definition update (st : gmap string Card) (p : Patch) (restate : bool) := update_card utc_start utc_date [blended] [] st "o" p restate 60.
Definition ended : gmap string Card := <["o" := with_end (Some 30) out_card]> pair.
End RatesExample.
Import RatesExample.

Lemma rates_are_consistent_witness : reachable utc_start utc_date two ∧
  ∀ st', correct_card two "a" "c" (open_card "c" "1m_input_tokens" (3 # 1) 0) None = Ok st' → kept utc_start [{| ref_card := Some "a"; ref_blend := None; ref_unit := "input_token"; ref_time := 5; ref_date := 0 |}] [] two st'.
Proof.
  split; [exact two_reachable|]. destruct (rates_are_consistent utc_start utc_date two two_reachable) as (_ & _ & H). intros st' E. eapply H. right; right; left. eexists _, _, _, _. split; [|exact E]. reflexivity.
Defined.

(** An output card that priced blended records cannot be retired without a replacement, or end before them without
    [restate]. Ending it with [restate] forgets those records: after the change they are outside its dates, so the
    restatement that was asked for is not planned, and the card can be retired with no replacement while
    records still name it. *)
Theorem shortened_output_card_is_forgotten :
  card_in_use utc_start utc_date [blended] [] pair "o" = Some 50 ∧
  update pair (patch None true) true = Err in_use ∧ update pair (patch (Some (Some 30)) false) false = Err restate_required ∧
  update pair (patch (Some (Some 30)) false) true = Ok ended ∧
  card_in_use utc_start utc_date [blended] [] ended "o" = None ∧ update_plan utc_start utc_date [blended] [] ended "o" None true 60 = None ∧
  update ended (patch None true) false = Ok (<["o" := retired (with_end (Some 30) out_card)]> pair).
Proof. split_and!; vm_compute; reflexivity. Qed.
