(* ===== verification/SpendCommitments.v ===== *)
(** Commitments: committed volumes and the drawdown of one record, src/core/spend/commitments.py.

    Ids are numbers in the order of their text, dates are day numbers. A body arrives as
    src/core/spend/vocab.py parsed its fields; the shape checks are here. [rate_on] is the rate of a currency on
    a day ([fx.rate_on]). Audit rows and the queued job are left out. [None] of a draw is the exception of [quantize]. *)

From Stdlib Require Import QArith Qabs Lqa.
From S2P Require Import Prelude PyVal SpendDecimal SpendPricing.

Local Open Scope Z_scope.

(** * Data *)

Inductive Kind := by_quantity | by_money.
#[global] Instance Kind_eq_dec : EqDecision Kind.
Proof. solve_decision. Defined.

(** What a commitment says *)
Record Terms := {
  c_id : Z; c_active : bool; c_provider : string; kind : Kind; c_usage_type : option string; c_model_sku : string; c_unit : option string; committed_quantity : option Q;
  committed_amount : option Q; c_currency : option string; period_start : Z; period_end : Z; overage_unit_price : option Q; overage_currency : option string; reference : string }.

(** How far it is drawn *)
Record Drawn := { d_quantity : Q; d_amount : Q; undrawn : Z }.
Definition fresh_drawn : Drawn := {| d_quantity := 0; d_amount := 0; undrawn := 0 |}.

Record SpendCommitment := { terms : Terms; drawn : Drawn; recomputed_through : option Z; needs_full_recompute : bool }.

(** A usage record, as the drawdown reads and writes it *)
Definition Assignment := (option Z * bool * Q)%type.
Record SpendUsageRecord := {
  r_id : Z; event_time : Z; event_date : Z; billing_date : Z; r_provider : string; r_usage_type : string; r_unit : string; r_quantity : Q; r_model : string; r_amount : option Q;
  r_currency : option string; r_amount_inr : option Q; assignment : Assignment }.

Inductive commitment_error := invalid_period | invalid_unit | invalid_number | invalid_sku | invalid_currency | commitment_overlap | not_found.

(** * A commitment's fields *)

Definition CARD_UNITS (usage_type : string) : list string :=
  if String.eqb usage_type "llm_tokens" then ["1m_input_tokens"; "1m_output_tokens"; "1m_cached_input_tokens"; "1m_tokens"]
  else if String.eqb usage_type "embedding_tokens" then ["1m_embedding_tokens"] else if String.eqb usage_type "ocr_pages" then ["ocr_page"]
  else if String.eqb usage_type "speech_minutes" then ["audio_minute"] else if String.eqb usage_type "tool_calls" then ["call"]
  else if String.eqb usage_type "storage" then ["gb_month"; "gb_day"] else if String.eqb usage_type "gpu_hours" then ["gpu_node_hour"] else [].

(** The card units with a divisor are the values of CANONICAL_UNIT *)
Definition quantity_units (usage_type : string) : list string :=
  List.filter (λ u, bool_decide (CANONICAL_DIVISOR u ≠ None) && negb (String.eqb u "gb_month")) (CARD_UNITS usage_type).

Record Body := {
  b_provider : string; b_kind : Kind; b_usage_type : option string; b_model_sku : string; b_unit : option string; b_quantity : option Q; b_amount : option Q; b_currency : option string;
  b_start : Z; b_end : Z; b_overage : option Q; b_overage_currency : option string; b_reference : string }.

Definition given {A} (o : option A) : bool := match o with Some _ => true | None => false end.

Definition MAX_COMMITTED_QUANTITY : Q := inject_Z (10 ^ 15).
Definition MAX_COMMITTED_AMOUNT : Q := inject_Z (10 ^ 12).
Definition MAX_UNIT_PRICE : Q := inject_Z (10 ^ 9).
Definition QUANTITY_PLACES : Z := 6.
Definition PRICE_PLACES : Z := 10.

Definition has_places (places : Z) (q : Q) : bool := (Qnum q * 10 ^ places) mod Zpos (Qden q) =? 0.

(** A number within the bounds ([strict]: above the minimum) and with at most [places] decimals; [None]: not a number *)
Definition parse_decimal (minimum : Q) (strict : bool) (maximum : Q) (places : Z) (value : option Q) : result commitment_error Q :=
  q ← of_option invalid_number value;
  _ ← raise_if (negb (Qle_bool minimum q) || (strict && Qeq_bool q minimum)) invalid_number;
  _ ← raise_if (negb (Qle_bool q maximum)) invalid_number;
  _ ← raise_if (negb (has_places places q)) invalid_number;
  Ok q.

Definition check_commitment (id : Z) (b : Body) : result commitment_error Terms :=
  _ ← raise_if (b_end b <=? b_start b) invalid_period;
  match b_kind b with
  | by_quantity =>
      usage ← of_option invalid_unit (b_usage_type b);
      u ← of_option invalid_unit (b_unit b);
      _ ← raise_if (negb (existsb (String.eqb u) (quantity_units usage))) invalid_unit;
      _ ← raise_if (given (b_amount b) || given (b_currency b)) invalid_number;
      q ← parse_decimal 0 true MAX_COMMITTED_QUANTITY QUANTITY_PLACES (b_quantity b);
      _ ← raise_if (negb (Bool.eqb (given (b_overage b)) (given (b_overage_currency b)))) invalid_number;
      overage ← (if given (b_overage b) then p ← parse_decimal 0 false MAX_UNIT_PRICE PRICE_PLACES (b_overage b); Ok (Some p) else Ok None);
      Ok {| c_id := id; c_active := true; c_provider := b_provider b; kind := by_quantity; c_usage_type := Some usage; c_model_sku := b_model_sku b; c_unit := Some u;
            committed_quantity := Some q; committed_amount := None; c_currency := None; period_start := b_start b; period_end := b_end b; overage_unit_price := overage;
            overage_currency := b_overage_currency b; reference := b_reference b |}
  | by_money =>
      _ ← raise_if (given (b_unit b)) invalid_unit;
      _ ← raise_if (negb (String.eqb (b_model_sku b) EmptyString)) invalid_sku;
      _ ← raise_if (given (b_overage b) || given (b_overage_currency b)) invalid_number;
      _ ← raise_if (given (b_quantity b)) invalid_number;
      a ← parse_decimal 0 true MAX_COMMITTED_AMOUNT PRICE_PLACES (b_amount b);
      cur ← of_option invalid_currency (b_currency b);
      Ok {| c_id := id; c_active := true; c_provider := b_provider b; kind := by_money; c_usage_type := b_usage_type b; c_model_sku := EmptyString; c_unit := None;
            committed_quantity := None; committed_amount := Some a; c_currency := Some cur; period_start := b_start b; period_end := b_end b; overage_unit_price := None;
            overage_currency := None; reference := b_reference b |}
  end.

(** * Creating and changing commitments *)

Definition _periods_overlap (a_start a_end b_start b_end : Z) : bool := (a_start <? b_end) && (b_start <? a_end).

Definition same_key (a b : Terms) : bool :=
  String.eqb (c_provider a) (c_provider b) && bool_decide (kind a = kind b) && String.eqb (c_model_sku a) (c_model_sku b) && bool_decide (c_usage_type a = c_usage_type b) &&
  bool_decide (c_unit a = c_unit b).

(** [exclude] is the commitment itself on a change *)
Definition _check_overlap (cs : list SpendCommitment) (t : Terms) (exclude : option Z) : result commitment_error () :=
  raise_if (existsb (λ o, c_active (terms o) && same_key (terms o) t && negb (bool_decide (exclude = Some (c_id (terms o)))) &&
                          _periods_overlap (period_start t) (period_end t) (period_start (terms o)) (period_end (terms o))) cs) commitment_overlap.

(** [id] is the id drawn for it; rows are kept in the order of their ids *)
Fixpoint insert_commitment (c : SpendCommitment) (cs : list SpendCommitment) : list SpendCommitment :=
  match cs with [] => [c] | o :: cs => if c_id (terms c) <? c_id (terms o) then c :: o :: cs else o :: insert_commitment c cs end.

Definition create_commitment (cs : list SpendCommitment) (id : Z) (b : Body) : result commitment_error (list SpendCommitment) :=
  t ← check_commitment id b;
  _ ← _check_overlap cs t None;
  Ok (insert_commitment {| terms := t; drawn := fresh_drawn; recomputed_through := None; needs_full_recompute := true |} cs).

Definition find_commitment (cs : list SpendCommitment) (id : Z) : option SpendCommitment := List.find (λ c, c_id (terms c) =? id) cs.

Definition with_terms (t : Terms) (new_end : Z) (active : bool) (new_reference : string) : Terms :=
  {| c_id := c_id t; c_active := active; c_provider := c_provider t; kind := kind t; c_usage_type := c_usage_type t; c_model_sku := c_model_sku t; c_unit := c_unit t;
     committed_quantity := committed_quantity t; committed_amount := committed_amount t; c_currency := c_currency t; period_start := period_start t; period_end := new_end;
     overage_unit_price := overage_unit_price t; overage_currency := overage_currency t; reference := new_reference |}.

Definition update_commitment (cs : list SpendCommitment) (id : Z) (new_end : option Z) (close : bool) (new_reference : option string) : result commitment_error (list SpendCommitment) :=
  c ← of_option not_found (find_commitment cs id);
  let t := terms c in
  let e := default (period_end t) new_end in
  _ ← raise_if (given new_end && (e <=? period_start t)) invalid_period;
  let active := c_active t && negb close in
  let ref := default (reference t) new_reference in
  _ ← (if active && negb (e =? period_end t) then _check_overlap cs (with_terms t e active ref) (Some id) else Ok ());
  if (e =? period_end t) && Bool.eqb active (c_active t) && String.eqb ref (reference t) then Ok cs
  else Ok (map (λ o, if c_id (terms o) =? id
                     then {| terms := with_terms t e active ref; drawn := drawn o; recomputed_through := recomputed_through o; needs_full_recompute := true |} else o) cs).

(** Late records, restatements and settlements ask for a full replay (meter.py) *)
Definition to_mark (after : option Z) (only : option Kind) (c : SpendCommitment) : bool :=
  c_active (terms c) && match after, recomputed_through c with Some a, Some w => a <? w | _, _ => true end && match only with Some k => bool_decide (kind (terms c) = k) | None => true end.
Definition mark (c : SpendCommitment) : SpendCommitment := {| terms := terms c; drawn := drawn c; recomputed_through := recomputed_through c; needs_full_recompute := true |}.
Definition mark_commitments_for_replay (after : option Z) (only : option Kind) (cs : list SpendCommitment) : list SpendCommitment := map (λ c, if to_mark after only c then mark c else c) cs.

(** What is left of a commitment, in card units or money *)
Definition _remaining (c : SpendCommitment) : option Q :=
  match kind (terms c), committed_quantity (terms c), c_unit (terms c), committed_amount (terms c) with
  | by_quantity, Some q, Some u, _ => Some (dec_max 0 (dsub DEFAULT_PREC q (ddiv DEFAULT_PREC (d_quantity (drawn c)) (inject_Z (default 1 (CANONICAL_DIVISOR u))))))
  | by_money, _, _, Some a => Some (dec_max 0 (dsub DEFAULT_PREC a (d_amount (drawn c))))
  | _, _, _, _ => None
  end.

(** * The commitment a record draws from *)

Definition match_rank (r : SpendUsageRecord) (c : Terms) : option Z :=
  if negb (c_active c) || negb (String.eqb (c_provider c) (r_provider r)) then None
  else if negb ((period_start c <=? billing_date r) && (billing_date r <? period_end c)) then None
  else match kind c with
  | by_quantity =>
      if negb (bool_decide (c_usage_type c = Some (r_usage_type r))) then None
      else if negb (bool_decide (c_unit c = CANONICAL_UNIT (r_unit r))) then None
      else if negb (String.eqb (c_model_sku c) EmptyString) && negb (String.eqb (c_model_sku c) (strip (r_model r))) then None
      else Some (if String.eqb (c_model_sku c) EmptyString then 1 else 0)
  | by_money => match c_usage_type c with None => Some 3 | Some u => if String.eqb u (r_usage_type r) then Some 2 else None end
  end.

Definition choice_leb (a b : Z * Terms) : bool := lex Z.leb Z.leb (fst a, c_id (snd a)) (fst b, c_id (snd b)).
Definition best_commitment (r : SpendUsageRecord) (cs : list Terms) : option Terms :=
  snd <$> head (sort_by choice_leb (omap (M := list) (λ c, rank ← match_rank r c; Some (rank, c)) cs)).

(** * Drawing a record *)

Definition _overage (before used capacity : Q) : Q := dec_max 0 (dsub DEFAULT_PREC (dadd DEFAULT_PREC before used) (dec_max capacity before)).

Definition capacity_of (c : Terms) : Q := dmul DEFAULT_PREC (default 0%Q (committed_quantity c)) (inject_Z (default 1 (u ← c_unit c; CANONICAL_DIVISOR u))).

(** A record's amount in the currency of the commitment: [None] when it cannot be converted *)
Definition target_amount (r : SpendUsageRecord) (amount : Q) (cur target : string) (rate : option Q) : option (option Q) :=
  if String.eqb (strip cur) target then Some (Some amount)
  else match r_amount_inr r, rate with
  | Some inr, _ => if String.eqb target REPORTING_CURRENCY then Some (Some inr)
                   else match rate with Some k => if Qeq_bool k 0 then Some None else q ← quantize DEFAULT_PREC AMOUNT_PLACES (ddiv DEFAULT_PREC inr k); Some (Some q) | None => Some None end
  | None, _ => Some None
  end.

Definition draw (r : SpendUsageRecord) (c : Terms) (s : Drawn) (rate : option Q) : option (Drawn * Assignment) :=
  let q := r_quantity r in
  match kind c with
  | by_quantity =>
      let over := _overage (d_quantity s) q (capacity_of c) in
      shown ← quantize DEFAULT_PREC QTY_PLACES over;
      Some ({| d_quantity := dadd DEFAULT_PREC (d_quantity s) q; d_amount := d_amount s; undrawn := undrawn s |}, (Some (c_id c), negb (Qle_bool over 0), shown))
  | by_money =>
      match r_amount r, r_currency r with
      | Some a, Some cur =>
          converted ← target_amount r a cur (strip (default "None" (c_currency c))) rate;
          match converted with
          | None => Some ({| d_quantity := d_quantity s; d_amount := d_amount s; undrawn := undrawn s + 1 |}, (None, false, 0%Q))
          | Some a =>
              let over := _overage (d_amount s) a (default 0%Q (committed_amount c)) in
              let s' := {| d_quantity := d_quantity s; d_amount := dadd DEFAULT_PREC (d_amount s) a; undrawn := undrawn s |} in
              if Qle_bool over 0 || Qle_bool a 0 then Some (s', (Some (c_id c), false, 0%Q))
              else
                part ← quantize DEFAULT_PREC QTY_PLACES (ddiv DEFAULT_PREC (dmul DEFAULT_PREC q over) a);
                let share := dec_min q part in Some (s', (Some (c_id c), negb (Qle_bool share 0), share))
          end
      | _, _ => Some (s, (None, false, 0%Q))
      end
  end.

Definition assignment_eqb (a b : Assignment) : bool := bool_decide (a.1.1 = b.1.1) && Bool.eqb a.1.2 b.1.2 && Qeq_bool a.2 b.2.

Definition assign (a : Assignment) (r : SpendUsageRecord) : SpendUsageRecord :=
  {| r_id := r_id r; event_time := event_time r; event_date := event_date r; billing_date := billing_date r; r_provider := r_provider r; r_usage_type := r_usage_type r; r_unit := r_unit r;
     r_quantity := r_quantity r; r_model := r_model r; r_amount := r_amount r; r_currency := r_currency r; r_amount_inr := r_amount_inr r; assignment := a |}.

Definition unassigned : Assignment := (None, false, 0%Q).

Section drawing.
Context (rate_on : string → Z → option Q).

Definition money_rate (r : SpendUsageRecord) (c : Terms) : option Q :=
  let target := strip (default EmptyString (c_currency c)) in
  if bool_decide (kind c = by_money) && negb (String.eqb target EmptyString) && negb (String.eqb target REPORTING_CURRENCY) then rate_on target (event_date r) else None.

(** The body of the loop over a chunk: a record that is assigned already is left alone *)
Definition draw_record (cs : list Terms) (states : gmap Z Drawn) (r : SpendUsageRecord) : option (gmap Z Drawn * SpendUsageRecord) :=
  '(states, a) ← match best_commitment r cs with
                 | None => Some (states, unassigned)
                 | Some c => s ← states !! c_id c; '(s, a) ← draw r c s (money_rate r c); Some (<[c_id c := s]> states, a)
                 end;
  Some (states, if assignment_eqb (assignment r) a then r else assign a r).

Fixpoint draw_all (cs : list Terms) (states : gmap Z Drawn) (rows : list SpendUsageRecord) : option (gmap Z Drawn * list SpendUsageRecord) :=
  match rows with
  | [] => Some (states, [])
  | r :: rows => '(states, r) ← draw_record cs states r; '(states, rows) ← draw_all cs states rows; Some (states, r :: rows)
  end.
End drawing.

(** * Which commitments there can be *)

Inductive step : list SpendCommitment → list SpendCommitment → Prop :=
| step_create cs cs' id b : id ∉ (c_id ∘ terms) <$> cs → create_commitment cs id b = Ok cs' → step cs cs'
| step_update cs cs' id new_end close new_reference : update_commitment cs id new_end close new_reference = Ok cs' → step cs cs'
| step_mark cs after only : step cs (mark_commitments_for_replay after only cs).

Definition reachable (cs : list SpendCommitment) : Prop := rtc step [] cs.

(** The shape the table demands *)
Record shaped (t : Terms) : Prop := {
  shaped_period : period_start t < period_end t;
  shaped_kind : match kind t with
    | by_quantity => ∃ usage u q, c_usage_type t = Some usage ∧ c_unit t = Some u ∧ u ∈ quantity_units usage ∧ committed_quantity t = Some q ∧ (0 < q <= MAX_COMMITTED_QUANTITY)%Q ∧ has_places QUANTITY_PLACES q = true
    | by_money => c_model_sku t = EmptyString ∧ c_unit t = None ∧ ∃ a cur, committed_amount t = Some a ∧ c_currency t = Some cur ∧ (0 < a)%Q
    end }.

Record commitments_ok (cs : list SpendCommitment) : Prop := {
  ok_ids : NoDup ((c_id ∘ terms) <$> cs);
  ok_shape : ∀ c, c ∈ cs → shaped (terms c);
  ok_disjoint : ∀ a b, a ∈ cs → b ∈ cs → c_id (terms a) ≠ c_id (terms b) → c_active (terms a) = true → c_active (terms b) = true → same_key (terms a) (terms b) = true →
    _periods_overlap (period_start (terms a)) (period_end (terms a)) (period_start (terms b)) (period_end (terms b)) = false }.

Lemma periods_overlap_sym a b c d : _periods_overlap a b c d = _periods_overlap c d a b.
Proof. apply andb_comm. Qed.

Lemma same_key_spec a b : same_key a b = true ↔ c_provider a = c_provider b ∧ kind a = kind b ∧ c_model_sku a = c_model_sku b ∧ c_usage_type a = c_usage_type b ∧ c_unit a = c_unit b.
Proof. unfold same_key. rewrite !andb_true_iff, !bool_decide_eq_true, !String.eqb_eq. tauto. Qed.

Lemma same_key_sym a b : same_key a b = same_key b a.
Proof. apply eq_true_iff_eq. rewrite !same_key_spec. naive_solver. Qed.

Lemma insert_commitment_perm c cs : insert_commitment c cs ≡ₚ c :: cs.
Proof. induction cs as [|o cs IH]; cbn; [done|]. destruct (_ <? _); [done|]. rewrite IH. constructor. Qed.

Lemma parse_decimal_Ok lo s hi k o q : parse_decimal lo s hi k o = Ok q → o = Some q ∧ (lo <= q)%Q ∧ (s = true → ~ q == lo) ∧ (q <= hi)%Q ∧ has_places k q = true.
Proof.
  unfold parse_decimal. intros H. apply bind_Ok in H as (q' & Hq & H). apply of_option_Ok in Hq as ->. apply bind_Ok in H as ([] & H1 & H). apply bind_Ok in H as ([] & H2 & H). apply bind_Ok in H as ([] & H3 & [= <-]).
  apply raise_if_Ok in H1, H2, H3. apply orb_false_iff in H1 as [H1 H4]. apply negb_false_iff, Qle_bool_iff in H1, H2. apply negb_false_iff in H3. split_and!; try done.
  intros ->. cbn in H4. by apply Qeq_bool_neq.
Qed.

Lemma check_commitment_shaped id b t : check_commitment id b = Ok t → shaped t ∧ c_id t = id ∧ c_active t = true.
Proof.
  unfold check_commitment. intros H. apply bind_Ok in H as ([] & Hp & H). apply raise_if_Ok, Z.leb_gt in Hp. destruct (b_kind b).
  - apply bind_Ok in H as (usage & _ & H). apply bind_Ok in H as (u & _ & H). apply bind_Ok in H as ([] & Hu & H). apply bind_Ok in H as ([] & _ & H). apply bind_Ok in H as (q & Hq & H). apply bind_Ok in H as ([] & _ & H).
    apply bind_Ok in H as (ov & _ & [= <-]). apply parse_decimal_Ok in Hq as (_ & H1 & H2 & H3 & H4). apply raise_if_Ok, negb_false_iff in Hu. apply existsb_exists in Hu as (u' & Hu & Eu). apply String.eqb_eq in Eu as <-.
    split_and!; [|done|done]. split; [done|]. cbn. exists usage, u, q. split_and!; try done; [by apply list_elem_of_In|]. apply Qle_lteq in H1 as [|E]; [done|]. by destruct (H2 eq_refl).
  - apply bind_Ok in H as ([] & _ & H). apply bind_Ok in H as ([] & _ & H). apply bind_Ok in H as ([] & _ & H). apply bind_Ok in H as ([] & _ & H). apply bind_Ok in H as (a & Ha & H). apply bind_Ok in H as (cur & _ & [= <-]).
    apply parse_decimal_Ok in Ha as (_ & H1 & H2 & _). split_and!; [|done|done]. split; [done|]. cbn. split_and!; [done|done|]. exists a, cur. split_and!; try done. apply Qle_lteq in H1 as [|E]; [done|]. by destruct (H2 eq_refl).
Qed.

Lemma overlap_checked cs t ex : _check_overlap cs t ex = Ok () → ∀ o, o ∈ cs → c_active (terms o) = true → same_key (terms o) t = true → ex ≠ Some (c_id (terms o)) →
  _periods_overlap (period_start t) (period_end t) (period_start (terms o)) (period_end (terms o)) = false.
Proof.
  unfold _check_overlap. intros H o Ho Ha Hk Hex. apply raise_if_Ok in H. destruct (_periods_overlap _ _ _ _) eqn:E; [|done]. exfalso. apply not_true_iff_false in H. apply H. apply existsb_exists. exists o. split; [by apply list_elem_of_In|].
  by rewrite Ha, Hk, bool_decide_false, E.
Qed.

Lemma create_commitment_ok cs id b cs' : commitments_ok cs → id ∉ (c_id ∘ terms) <$> cs → create_commitment cs id b = Ok cs' → commitments_ok cs'.
Proof.
  intros [Hi Hs Hd] Hfresh H. unfold create_commitment in H. apply bind_Ok in H as (t & Ht & H). apply bind_Ok in H as ([] & Hov & [= <-]). apply check_commitment_shaped in Ht as (Hsh & Hid & _).
  pose proof (overlap_checked _ _ _ Hov) as Hno. set (c := {| terms := t; drawn := _; recomputed_through := _; needs_full_recompute := _ |}). assert (∀ x, x ∈ insert_commitment c cs ↔ x = c ∨ x ∈ cs) as Hin by (intros x; by rewrite insert_commitment_perm, elem_of_cons).
  split.
  - rewrite insert_commitment_perm. apply NoDup_cons. split; [|done]. cbn. by rewrite Hid.
  - intros x [->|Hx]%Hin; [done|by apply Hs].
  - intros x y [->|Hx]%Hin [->|Hy]%Hin Hne Hax Hay Hk; [done| | |by apply Hd].
    + apply Hno; [done|done|by rewrite same_key_sym|done].
    + rewrite periods_overlap_sym. by apply Hno.
Qed.

Lemma find_commitment_spec cs id c : find_commitment cs id = Some c → c ∈ cs ∧ c_id (terms c) = id.
Proof. intros H. apply find_some in H as [H1 H2]. split; [by apply list_elem_of_In|by apply Z.eqb_eq]. Qed.

(** A change keeps the ids, so it may be judged row by row *)
Lemma map_ok (f : SpendCommitment → SpendCommitment) cs : commitments_ok cs → (∀ c, c_id (terms (f c)) = c_id (terms c)) → (∀ c, c ∈ cs → shaped (terms (f c))) →
  (∀ a b, a ∈ cs → b ∈ cs → c_id (terms a) ≠ c_id (terms b) → c_active (terms (f a)) = true → c_active (terms (f b)) = true → same_key (terms (f a)) (terms (f b)) = true →
    _periods_overlap (period_start (terms (f a))) (period_end (terms (f a))) (period_start (terms (f b))) (period_end (terms (f b))) = false) → commitments_ok (map f cs).
Proof.
  intros [Hi Hs Hd] Hid Hsh Hdis. split.
  - replace ((c_id ∘ terms) <$> map f cs) with ((c_id ∘ terms) <$> cs); [done|]. clear -Hid. induction cs as [|c cs IH]; cbn; [done|]. by rewrite Hid, <- IH.
  - intros x Hx. apply list_elem_of_fmap in Hx as (c & -> & Hc). by apply Hsh.
  - intros x y Hx Hy Hne Hax Hay Hk. apply list_elem_of_fmap in Hx as (a & -> & Ha), Hy as (b & -> & Hb). rewrite !Hid in Hne. by apply Hdis.
Qed.

Lemma same_id cs a b : commitments_ok cs → a ∈ cs → b ∈ cs → c_id (terms a) = c_id (terms b) → a = b.
Proof.
  intros [Hi _ _] Ha Hb E. apply list_elem_of_lookup in Ha as (i & Ha), Hb as (j & Hb). assert (i = j) as ->; [|congruence]. eapply NoDup_lookup; [exact Hi| |]; rewrite list_lookup_fmap; [by rewrite Ha|rewrite Hb; cbn; by rewrite E].
Qed.

Lemma update_commitment_ok cs id e close ref cs' : commitments_ok cs → update_commitment cs id e close ref = Ok cs' → commitments_ok cs'.
Proof.
  intros Hok H. unfold update_commitment in H. apply bind_Ok in H as (c & Hc & H). apply of_option_Ok, find_commitment_spec in Hc as [Hc Hid]. cbn zeta in H. apply bind_Ok in H as ([] & Hp & H). apply bind_Ok in H as ([] & Hov & H).
  apply raise_if_Ok in Hp. set (e' := default (period_end (terms c)) e) in *. set (t' := with_terms _ _ _ _) in *. pose proof (ok_shape cs Hok c Hc) as Hsh. assert (period_start (terms c) < e') as He.
  { subst e'. destruct e as [e|]; cbn in *; [by apply Z.leb_gt|]. by destruct Hsh. }
  destruct ((e' =? period_end (terms c)) && _ && _); [by injection H as <-|]. injection H as <-.
  assert (∀ o, o ∈ cs → c_id (terms o) ≠ id → c_active (terms o) = true → c_active t' = true → same_key (terms o) t' = true →
    _periods_overlap (period_start t') (period_end t') (period_start (terms o)) (period_end (terms o)) = false) as Hno.
  { intros o Ho Hne Hao Hat Hk. cbn [c_active t' with_terms] in Hat. rewrite Hat in Hov. cbn [andb] in Hov. destruct (Z.eqb_spec e' (period_end (terms c))) as [Eq|Neq]; cbn [negb] in Hov.
    - subst t'. cbn. rewrite Eq. apply (ok_disjoint cs Hok c o); [done|done|congruence|by apply andb_true_iff in Hat as [? _]|done|by rewrite same_key_sym].
    - apply (overlap_checked _ _ _ Hov o); try done. congruence. }
  apply map_ok; [done| | |].
  - intros o. destruct (Z.eqb_spec (c_id (terms o)) id) as [E|]; [|done]. cbn. congruence.
  - intros o Ho. destruct (c_id (terms o) =? id); [|by apply (ok_shape cs Hok o)]. destruct Hsh as [_ Hk]. split; [done|]. exact Hk.
  - intros a b Ha Hb Hne Haa Hab Hk. destruct (Z.eqb_spec (c_id (terms a)) id) as [Ea|], (Z.eqb_spec (c_id (terms b)) id) as [Eb|]; [congruence| | |by apply (ok_disjoint cs Hok)].
    + apply Hno; try done. by rewrite same_key_sym.
    + rewrite periods_overlap_sym. by apply Hno.
Qed.

Lemma commitments_step_ok cs cs' : commitments_ok cs → step cs cs' → commitments_ok cs'.
Proof.
  intros Hok Hst. destruct Hst as [cs cs' id b Hf H|cs cs' id e close ref H|cs after only]; [by eapply create_commitment_ok|by eapply update_commitment_ok|].
  assert (∀ c, terms (if to_mark after only c then mark c else c) = terms c) as E by (intros c; by destruct (to_mark _ _ _)).
  apply map_ok; [done|intros c; by rewrite E|intros c Hc; rewrite E; by apply (ok_shape _ Hok)|]. intros a b Ha Hb. rewrite !E. by apply (ok_disjoint _ Hok).
Qed.

Lemma reachable_commitments_ok cs : reachable cs → commitments_ok cs.
Proof.
  unfold reachable. assert (commitments_ok []) as H0 by (split; [constructor|intros ? H; by apply not_elem_of_nil in H|intros ? ? H; by apply not_elem_of_nil in H]). revert H0. generalize ([] : list SpendCommitment). intros s0 H0 Hr.
  induction Hr as [|a b c Hab _ IH]; [done|]. apply IH. by eapply commitments_step_ok.
Qed.

Lemma match_rank_covers r c k : match_rank r c = Some k → c_active c = true ∧ c_provider c = r_provider r ∧ period_start c ≤ billing_date r < period_end c.
Proof.
  unfold match_rank. destruct (c_active c); [|done]. destruct (String.eqb_spec (c_provider c) (r_provider r)); [|done]. cbn [negb orb]. destruct (_ && _) eqn:E; [|done]. apply andb_true_iff in E as [E1 E2]. intros _. split_and!; [done|done|lia|lia].
Qed.

(** The rank tells the kind, the usage type, the unit and the model *)
Lemma match_rank_key r c k : shaped c → match_rank r c = Some k →
  match kind c with
  | by_quantity => k < 2 ∧ c_usage_type c = Some (r_usage_type r) ∧ c_unit c = CANONICAL_UNIT (r_unit r) ∧ c_model_sku c = if k =? 0 then strip (r_model r) else EmptyString
  | by_money => 2 ≤ k ∧ c_usage_type c = (if k =? 2 then Some (r_usage_type r) else None) ∧ c_unit c = None ∧ c_model_sku c = EmptyString
  end.
Proof.
  intros [_ Hs] H. unfold match_rank in H. destruct (negb (c_active c) || _); [done|]. destruct (negb (_ && _)); [done|]. destruct (kind c).
  - destruct (bool_decide_reflect (c_usage_type c = Some (r_usage_type r))); [|done]. destruct (bool_decide_reflect (c_unit c = CANONICAL_UNIT (r_unit r))); [|done]. cbn [negb] in H.
    destruct (String.eqb_spec (c_model_sku c) EmptyString) as [E|]; cbn [negb andb] in H; [injection H as <-; by split_and!|]. destruct (String.eqb_spec (c_model_sku c) (strip (r_model r))); [|done]. injection H as <-. by split_and!.
  - destruct Hs as (Hm & Hu & _). destruct (c_usage_type c) as [us|]; [destruct (String.eqb us (r_usage_type r)) eqn:Eu; [apply String.eqb_eq in Eu; subst us|done]|]; injection H as <-; by split_and!.
Qed.

Lemma match_rank_same_key r a b k : shaped a → shaped b → match_rank r a = Some k → match_rank r b = Some k → same_key a b = true.
Proof.
  intros Ha Hb H1 H2. pose proof (match_rank_covers _ _ _ H1) as (_ & P1 & _). pose proof (match_rank_covers _ _ _ H2) as (_ & P2 & _). apply match_rank_key in H1, H2; [|done..]. apply same_key_spec.
  destruct (kind a), (kind b); destruct H1 as (? & ? & ? & ?), H2 as (? & ? & ? & ?); split_and!; congruence || lia.
Qed.

Lemma one_per_rank cs r a b k : commitments_ok cs → a ∈ terms <$> cs → b ∈ terms <$> cs → match_rank r a = Some k → match_rank r b = Some k → a = b.
Proof.
  intros Hok Ha Hb H1 H2. apply list_elem_of_fmap in Ha as (ca & -> & Ha), Hb as (cb & -> & Hb). destruct (decide (c_id (terms ca) = c_id (terms cb))) as [E|Hne]; [by rewrite (same_id cs ca cb)|exfalso].
  pose proof (match_rank_covers _ _ _ H1) as (A1 & _ & D1). pose proof (match_rank_covers _ _ _ H2) as (A2 & _ & D2).
  pose proof (ok_disjoint cs Hok ca cb Ha Hb Hne A1 A2 (match_rank_same_key r _ _ k (ok_shape cs Hok ca Ha) (ok_shape cs Hok cb Hb) H1 H2)) as H. unfold _periods_overlap in H. lia.
Qed.

Lemma choice_total a b : choice_leb a b = true ∨ choice_leb b a = true.
Proof. destruct (lex_linear _ _ Zleb_linear Zleb_linear) as [H _ _]. apply H. Qed.
Lemma choice_trans a b c : choice_leb a b = true → choice_leb b c = true → choice_leb a c = true.
Proof. destruct (lex_linear _ _ Zleb_linear Zleb_linear) as [_ H _]. apply H. Qed.

Lemma choices_elem r cs k c : (k, c) ∈ omap (M := list) (λ c, rank ← match_rank r c; Some (rank, c)) cs ↔ c ∈ cs ∧ match_rank r c = Some k.
Proof. rewrite list_elem_of_omap. split; [intros (c' & Hc & H); destruct (match_rank r c') eqn:E; [|done]; by simplify_eq/=|intros [Hc E]; exists c; by rewrite E]. Qed.

(** What is chosen covers the record, and nothing that covers it has a lower rank *)
Lemma best_commitment_Some r cs c : best_commitment r cs = Some c → c ∈ cs ∧ ∃ k, match_rank r c = Some k ∧ ∀ o k', o ∈ cs → match_rank r o = Some k' → k ≤ k'.
Proof.
  unfold best_commitment. intros H. apply fmap_Some in H as ([k c'] & H & ->). apply head_sort_min in H as [Hin Hmin]; [|apply choice_total|apply choice_trans]. apply choices_elem in Hin as [Hc Hk]. split; [done|]. exists k. split; [done|].
  intros o k' Ho Hk'. specialize (Hmin (k', o)). rewrite choices_elem in Hmin. specialize (Hmin ltac:(done)). unfold choice_leb, lex in Hmin. cbn in Hmin. apply andb_true_iff in Hmin as [Hmin _]. by apply Z.leb_le.
Qed.

Lemma best_commitment_None r cs : best_commitment r cs = None ↔ ∀ c, c ∈ cs → match_rank r c = None.
Proof.
  unfold best_commitment. split.
  - intros H c Hc. destruct (match_rank r c) as [k|] eqn:E; [exfalso|done]. assert ((k, c) ∈ sort_by choice_leb (omap (M := list) (λ c, rank ← match_rank r c; Some (rank, c)) cs)) as Hin by by rewrite elem_of_sort_by, choices_elem.
    destruct (sort_by _ _); [by apply not_elem_of_nil in Hin|done].
  - intros H. destruct (head _) as [[k c]|] eqn:E; [exfalso|done]. apply head_sort_min in E as [Hin _]; [|apply choice_total|apply choice_trans]. apply choices_elem in Hin as [Hc Hk]. rewrite H in Hk; done.
Qed.

(** C34. A record draws from at most one commitment, and which one is not a matter of chance. After any creations, changes and
    marks, at most one commitment covers a record at each rank (quantity for the model, quantity for the usage, money for the
    usage, money for the provider), and the commitment drawn from is the one of strictly lowest rank; a record draws from none exactly when no
    commitment covers it. *)
Theorem record_draws_from_one cs r : reachable cs →
  (∀ a b k, a ∈ terms <$> cs → b ∈ terms <$> cs → match_rank r a = Some k → match_rank r b = Some k → a = b) ∧
  (∀ c, best_commitment r (terms <$> cs) = Some c ↔
    c ∈ terms <$> cs ∧ ∃ k, match_rank r c = Some k ∧ ∀ o k', o ∈ terms <$> cs → match_rank r o = Some k' → o ≠ c → k < k') ∧
  (best_commitment r (terms <$> cs) = None ↔ ∀ c, c ∈ terms <$> cs → match_rank r c = None).
Proof.
  intros Hr. apply reachable_commitments_ok in Hr as Hok. split_and!; [intros a b k; by apply one_per_rank| |apply best_commitment_None].
  intros c. split.
  - intros H. apply best_commitment_Some in H as (Hc & k & Hk & Hmin). split; [done|]. exists k. split; [done|]. intros o k' Ho Hk' Hne. specialize (Hmin o k' Ho Hk'). destruct (decide (k = k')) as [<-|]; [|lia]. by destruct Hne; eapply one_per_rank.
  - intros (Hc & k & Hk & Hmin). destruct (best_commitment r (terms <$> cs)) as [c'|] eqn:E.
    + apply best_commitment_Some in E as (Hc' & k' & Hk' & Hle). destruct (decide (k' = k)) as [->|Hne]; [f_equal; by eapply one_per_rank|]. specialize (Hmin c' k' Hc' Hk' ltac:(intros ->; congruence)). specialize (Hle c k Hc Hk). lia.
    + rewrite best_commitment_None in E. by rewrite E in Hk.
Qed.

(** * What is past the capacity *)

Lemma dec_max_places k a b x y : at_places k a x → at_places k b y → at_places k (dec_max a b) (Z.max x y).
Proof.
  intros Ha Hb. unfold dec_max. pose proof (at_places_le k a b x y Ha Hb) as H. destruct (Qle_bool a b) eqn:E.
  - apply Qle_bool_iff, H in E. by rewrite Z.max_r.
  - rewrite Z.max_l; [done|]. destruct (Z_le_gt_dec x y) as [Hle|]; [|lia]. apply H, Qle_bool_iff in Hle. congruence.
Qed.

Lemma overage_exact before used capacity zb zu zc : at_places QTY_PLACES before zb → at_places QTY_PLACES used zu → at_places QTY_PLACES capacity zc →
  0 ≤ zb → 0 ≤ zu → 0 ≤ zc < 10 ^ 28 → zb + zu < 10 ^ 28 → at_places QTY_PLACES (_overage before used capacity) (Z.max 0 (zb + zu - Z.max zc zb)).
Proof.
  intros Hb Hu Hc H1 H2 H3 H4. unfold _overage. apply (dec_max_places QTY_PLACES 0 _ 0); [by split|]. apply round_sig_fits; [done| |unfold DEFAULT_PREC; lia]. apply at_places_sub; [|by apply dec_max_places].
  apply round_sig_fits; [done|by apply at_places_add|]. unfold DEFAULT_PREC. lia.
Qed.

(** The rows drawn from a commitment, and what they add up to *)
Definition drawn_from (id : Z) (rows : list SpendUsageRecord) : list SpendUsageRecord := List.filter (λ r, bool_decide ((assignment r).1.1 = Some id)) rows.
Definition sum_of (f : SpendUsageRecord → Q) (rows : list SpendUsageRecord) : Q := foldr (λ r acc, (f r + acc)%Q) 0%Q rows.
Definition overage_of (r : SpendUsageRecord) : Q := (assignment r).2.

(** Quantities are kept at six decimals *)
Definition metered (r : SpendUsageRecord) : Prop := ∃ z, 0 ≤ z ∧ at_places QTY_PLACES (r_quantity r) z.

Section overage.
Context (rate_on : string → Z → option Q) (cs : list Terms) (c : Terms).
Context (Hids : NoDup (c_id <$> cs)) (Hc : c ∈ cs) (Hkind : kind c = by_quantity).

Lemma draw_record_id states r states' r' : draw_record rate_on cs states r = Some (states', r') → r_quantity r' = r_quantity r ∧
  (best_commitment r cs = Some c ∧ (∃ s s' a, states !! c_id c = Some s ∧ draw r c s None = Some (s', a) ∧ states' !! c_id c = Some s' ∧ (assignment r').1.1 = a.1.1 ∧ overage_of r' == a.2) ∨
   (assignment r').1.1 ≠ Some (c_id c) ∧ states' !! c_id c = states !! c_id c).
Proof.
  unfold draw_record. intros H. apply bind_Some in H as ([st a] & Hd & H). injection H as <- <-.
  assert (∀ P : SpendUsageRecord → Prop, (assignment_eqb (assignment r) a = true → P r) → P (assign a r) → P (if assignment_eqb (assignment r) a then r else assign a r)) as Hif by (intros P; destruct (assignment_eqb _ _); auto).
  split; [by apply Hif|]. assert (let r' := if assignment_eqb (assignment r) a then r else assign a r in (assignment r').1.1 = a.1.1 ∧ overage_of r' == a.2) as [E1 E2].
  { apply Hif; [|done]. unfold assignment_eqb. rewrite !andb_true_iff. intros [[E _] E']. apply bool_decide_eq_true in E. by apply Qeq_bool_iff in E'. }
  cbn zeta in E1, E2. destruct (best_commitment r cs) as [o|] eqn:Eb; [|injection Hd as <- <-; right; by rewrite E1]. apply bind_Some in Hd as (s & Hs & Hd). apply bind_Some in Hd as ([s' a'] & Hd & [= <- <-]).
  apply best_commitment_Some in Eb as [Ho _]. destruct (decide (c_id o = c_id c)) as [E|Hne].
  - assert (o = c) as ->. { apply list_elem_of_lookup in Ho as (i & Hi), Hc as (j & Hj). assert (i = j) as ->; [|congruence]. eapply NoDup_lookup; [exact Hids|by rewrite list_lookup_fmap, Hi|rewrite list_lookup_fmap, Hj; cbn; by rewrite E]. }
    left. split; [done|]. exists s, s', a'. rewrite lookup_insert_eq. unfold money_rate in Hd. rewrite Hkind, bool_decide_false in Hd by done. by split_and!.
  - right. rewrite lookup_insert_ne by done. split; [|done]. rewrite E1. clear -Hd Hne. unfold draw in Hd. intros Ea. destruct (kind o).
    + apply bind_Some in Hd as (? & _ & [= _ <-]). cbn in Ea. congruence.
    + destruct (r_amount r), (r_currency r); try (injection Hd as _ <-; done). apply bind_Some in Hd as ([?|] & _ & Hd); [|by injection Hd as _ <-]. destruct (_ || _); [injection Hd as _ <-; cbn in Ea; congruence|].
      apply bind_Some in Hd as (? & _ & [= _ <-]). cbn in Ea. congruence.
Qed.

Lemma draw_by_quantity r s s' a zs zq zc : draw r c s None = Some (s', a) → at_places QTY_PLACES (d_quantity s) zs → at_places QTY_PLACES (r_quantity r) zq → at_places QTY_PLACES (capacity_of c) zc →
  0 ≤ zs → 0 ≤ zq → 0 ≤ zc < 10 ^ 28 → zs + zq < 10 ^ 28 →
  a.1.1 = Some (c_id c) ∧ at_places QTY_PLACES (d_quantity s') (zs + zq) ∧ at_places QTY_PLACES a.2 (Z.max 0 (zs + zq - zc) - Z.max 0 (zs - zc)).
Proof.
  intros H Hs Hq Hcap H1 H2 H3 H4. unfold draw in H. rewrite Hkind in H. apply bind_Some in H as (shown & Hsh & [= <- <-]). cbn. pose proof (overage_exact _ _ _ _ _ _ Hs Hq Hcap H1 H2 H3 H4) as Ho. split_and!; [done| |].
  - apply round_sig_fits; [done|by apply at_places_add|unfold DEFAULT_PREC; lia].
  - destruct (quantize_exact DEFAULT_PREC QTY_PLACES _ _ Ho ltac:(unfold DEFAULT_PREC; lia)) as (q & Eq & Hqe). assert (q = shown) as -> by congruence. eapply at_places_Qeq; [symmetry; exact Hqe|]. replace (Z.max 0 (zs + zq - zc) - Z.max 0 (zs - zc)) with (Z.max 0 (zs + zq - Z.max zc zs)) by lia. done.
Qed.

Lemma draw_all_overage rows states states' rows' s zs zc : draw_all rate_on cs states rows = Some (states', rows') → states !! c_id c = Some s → at_places QTY_PLACES (d_quantity s) zs → 0 ≤ zs →
  at_places QTY_PLACES (capacity_of c) zc → 0 ≤ zc < 10 ^ 28 → Forall metered rows → (d_quantity s + sum_of r_quantity rows < inject_Z (10 ^ 22))%Q →
  ∃ s' z, states' !! c_id c = Some s' ∧ 0 ≤ z ∧ at_places QTY_PLACES (sum_of r_quantity (drawn_from (c_id c) rows')) z ∧ at_places QTY_PLACES (d_quantity s') (zs + z) ∧
    at_places QTY_PLACES (sum_of overage_of (drawn_from (c_id c) rows')) (Z.max 0 (zs + z - zc) - Z.max 0 (zs - zc)).
Proof.
  intros H Hs Hzs Hz Hcap Hcb Hm Hb. revert states states' rows' s zs H Hs Hzs Hz Hb. induction Hm as [|r rows [zq [Hq0 Hq]] Hm IH]; intros states states' rows' s zs H Hs Hzs Hz Hb; cbn in H.
  { injection H as <- <-. exists s, 0. cbn. split_and!; [done|done|by split|by rewrite Z.add_0_r|]. rewrite Z.add_0_r, Z.sub_diag. by split. }
  apply bind_Some in H as ([st1 r'] & H1 & H). apply bind_Some in H as ([st2 rs'] & H2 & [= <- <-]). apply draw_record_id in H1 as (Eq & H1). cbn [sum_of foldr] in Hb. fold (sum_of r_quantity rows) in Hb.
  assert (0 <= r_quantity r)%Q as Hrq. { change 0%Q with (0 # 1). by apply (at_places_le QTY_PLACES (0 # 1) _ 0 zq). }
  assert (0 <= sum_of r_quantity rows)%Q as Hsum. { clear -Hm. induction Hm as [|x rows [z [H0 Hz]] _ IH]; cbn; [done|]. assert (0 <= r_quantity x)%Q by by apply (at_places_le QTY_PLACES (0 # 1) _ 0 z). fold (sum_of r_quantity rows). lra. }
  destruct H1 as [(_ & s0 & s1 & a & Hs0 & Hd & Hs1 & Ea & Eo)|(Hne & Est)].
  - assert (s0 = s) as -> by congruence. assert (zs + zq < 10 ^ 28) as Hlt.
    { assert (at_places QTY_PLACES (d_quantity s + r_quantity r) (zs + zq)) as Hp by by apply at_places_add. assert (at_places QTY_PLACES (inject_Z (10 ^ 22)) (10 ^ 28)) as Hp' by (split; [done|reflexivity]).
      destruct (Z_lt_le_dec (zs + zq) (10 ^ 28)) as [|Hge]; [done|]. apply (at_places_le QTY_PLACES _ _ _ _ Hp' Hp) in Hge. lra. }
    destruct (draw_by_quantity r s s1 a zs zq zc Hd Hzs Hq Hcap Hz Hq0 Hcb Hlt) as (Ha1 & Hq1 & Ha2). assert (d_quantity s1 == d_quantity s + r_quantity r) as Eqs by (eapply at_places_unique; [exact Hq1|by apply at_places_add]).
    destruct (IH st1 st2 rs' s1 (zs + zq) H2 Hs1 Hq1 ltac:(lia) ltac:(lra)) as (s' & z & E1 & E2 & E3 & E4 & E5). exists s', (zq + z). cbn [drawn_from List.filter]. rewrite bool_decide_true by congruence. cbn [sum_of foldr]. rewrite Eq.
    fold (drawn_from (c_id c) rs') (sum_of r_quantity (drawn_from (c_id c) rs')) (sum_of overage_of (drawn_from (c_id c) rs')). split_and!; [done|lia|by apply at_places_add|by rewrite Z.add_assoc|].
    replace (Z.max 0 (zs + (zq + z) - zc) - Z.max 0 (zs - zc)) with (Z.max 0 (zs + zq - zc) - Z.max 0 (zs - zc) + (Z.max 0 (zs + zq + z - zc) - Z.max 0 (zs + zq - zc))) by lia. apply at_places_add; [|done]. by eapply at_places_Qeq; [symmetry|].
  - destruct (IH st1 st2 rs' s zs H2 ltac:(congruence) Hzs Hz ltac:(lra)) as (s' & z & E1 & E2 & E3 & E4 & E5). exists s', z. cbn [drawn_from List.filter]. by rewrite bool_decide_false.
Qed.
End overage.

(** [{c.id: Drawn() for c in active}] *)
Definition start_states (cs : list Terms) : gmap Z Drawn := list_to_map ((λ c, (c_id c, fresh_drawn)) <$> cs).

Lemma start_states_lookup cs c : c ∈ cs → start_states cs !! c_id c = Some fresh_drawn.
Proof.
  unfold start_states. intros Hc. destruct (list_to_map _ !! c_id c) as [s|] eqn:E.
  - apply elem_of_list_to_map_2, list_elem_of_fmap in E as (? & [= _ ->] & _). done.
  - apply not_elem_of_list_to_map_2 in E. exfalso. apply E. rewrite <- list_fmap_compose. apply list_elem_of_fmap. by exists c.
Qed.

Lemma divisor_cases u d : CANONICAL_DIVISOR u = Some d → d = 1 ∨ d = 1000000.
Proof. unfold CANONICAL_DIVISOR. cbn [assoc]. repeat (destruct (String.eqb _ _); [intros [= <-]; auto|]). done. Qed.

Lemma has_places_spec k q : 0 ≤ k → has_places k q = true → ∃ z, at_places k q z.
Proof. unfold has_places. intros Hk H. apply Z.eqb_eq in H. exists (Qnum q * 10 ^ k / Zpos (Qden q)). split; [done|]. pose proof (Z.div_mod (Qnum q * 10 ^ k) (Zpos (Qden q)) ltac:(lia)). lia. Qed.

Lemma capacity_exact c : shaped c → kind c = by_quantity →
  ∃ q u d zc, committed_quantity c = Some q ∧ c_unit c = Some u ∧ CANONICAL_DIVISOR u = Some d ∧ capacity_of c == q * inject_Z d ∧ at_places QTY_PLACES (capacity_of c) zc ∧ 0 ≤ zc < 10 ^ 28.
Proof.
  intros [_ Hs] Hk. rewrite Hk in Hs. destruct Hs as (usage & u & q & _ & Hu & Hin & Hq & [H0 H1] & Hp). apply list_elem_of_In, filter_In in Hin as [_ Hin]. apply andb_true_iff in Hin as [Hin _]. apply bool_decide_eq_true in Hin.
  destruct (CANONICAL_DIVISOR u) as [d|] eqn:Ed; [|done]. apply has_places_spec in Hp as [z Hz]; [|done]. assert (0 ≤ z) as Hz0 by (apply (at_places_le 6 (0 # 1) q 0 z); [by split|done|lra]).
  assert (z ≤ 10 ^ 21) as Hz1 by (apply (at_places_le 6 q (inject_Z (10 ^ 15)) z (10 ^ 21)); [done|by split|done]). assert (1 ≤ d ≤ 1000000) as Hd by (destruct (divisor_cases u d Ed); lia).
  assert (at_places QTY_PLACES (q * inject_Z d) (z * d)) as Hm by (apply (at_places_mul 6 0); [done|apply at_places_Z]). assert (0 ≤ z * d < 10 ^ 28) as Hb by (split; nia).
  assert (capacity_of c = round_sig DEFAULT_PREC (q * inject_Z d)) as -> by (unfold capacity_of; rewrite Hq, Hu; cbn [mbind option_bind]; by rewrite Ed). exists q, u, d, (z * d). assert (Z.abs (z * d) < 10 ^ DEFAULT_PREC) as Hbd by (unfold DEFAULT_PREC; lia).
  split_and!; try done; [by apply (round_sig_exact DEFAULT_PREC QTY_PLACES _ (z * d))|by apply round_sig_fits|lia|lia].
Qed.

(** C33. The overage is what exceeds the commitment, no more and no less. However many records a replay draws from a quantity
    commitment and whatever order their sizes come in, the overage quantities written on them add up to exactly the total drawn
    less the committed quantity in record units, or to nothing, and the drawn total kept is exactly the sum of their quantities: no
    record is rounded, as long as the total stays below ten to the twenty-second. *)
Theorem overage_is_the_excess rate_on cs c rows states' rows' :
  NoDup (c_id <$> cs) → c ∈ cs → kind c = by_quantity → shaped c → Forall metered rows → (sum_of r_quantity rows < inject_Z (10 ^ 22))%Q →
  draw_all rate_on cs (start_states cs) rows = Some (states', rows') →
  ∃ q u d s, committed_quantity c = Some q ∧ c_unit c = Some u ∧ CANONICAL_DIVISOR u = Some d ∧ states' !! c_id c = Some s ∧
    d_quantity s == sum_of r_quantity (drawn_from (c_id c) rows') ∧
    sum_of overage_of (drawn_from (c_id c) rows') == dec_max 0 (sum_of r_quantity (drawn_from (c_id c) rows') - q * inject_Z d).
Proof.
  intros Hids Hc Hk Hsh Hm Hlt H. destruct (capacity_exact c Hsh Hk) as (q & u & d & zc & Hq & Hu & Hd & Ecap & Hcap & Hzc).
  destruct (draw_all_overage rate_on cs c Hids Hc Hk rows _ _ _ fresh_drawn 0 zc H (start_states_lookup cs c Hc) ltac:(by split) ltac:(done) Hcap Hzc Hm) as (s & z & Hs & Hz & Hsum & Hsq & Hov).
  { change (d_quantity fresh_drawn) with 0%Q. lra. }
  exists q, u, d, s. split_and!; try done; [by eapply at_places_unique|]. assert (at_places QTY_PLACES (q * inject_Z d) zc) as Hqd by by eapply at_places_Qeq.
  eapply at_places_unique; [exact Hov|]. replace (Z.max 0 (0 + z - zc) - Z.max 0 (0 - zc)) with (Z.max 0 (z - zc)) by lia. apply dec_max_places; [by split|by apply at_places_sub].
Qed.

Module CommitmentExample.
Definition body (start stop : Z) (q : Q) : Body :=
  {| b_provider := "openai"; b_kind := by_quantity; b_usage_type := Some "llm_tokens"; b_model_sku := EmptyString; b_unit := Some "1m_input_tokens"; b_quantity := Some q; b_amount := None;
     b_currency := None; b_start := start; b_end := stop; b_overage := None; b_overage_currency := None; b_reference := EmptyString |}.
Definition usage (id time day : Z) (q : Q) : SpendUsageRecord :=
  {| r_id := id; event_time := time; event_date := day; billing_date := day; r_provider := "openai"; r_usage_type := "llm_tokens"; r_unit := "input_token"; r_quantity := q; r_model := "gpt";
     r_amount := None; r_currency := None; r_amount_inr := None; assignment := unassigned |}.
Definition no_rate (_ : string) (_ : Z) : option Q := None.
Definition volume : Terms :=
  {| c_id := 1; c_active := true; c_provider := "openai"; kind := by_quantity; c_usage_type := Some "llm_tokens"; c_model_sku := EmptyString; c_unit := Some "1m_input_tokens";
     committed_quantity := Some (1 # 1); committed_amount := None; c_currency := None; period_start := 0; period_end := 30; overage_unit_price := None; overage_currency := None;
     reference := EmptyString |}.
Definition table : list SpendCommitment := [{| terms := volume; drawn := fresh_drawn; recomputed_through := None; needs_full_recompute := true |}].
Definition rows : list SpendUsageRecord := [usage 1 10 1 (600000 # 1); usage 2 20 2 (700000 # 1); usage 3 30 40 (5 # 1)].
Definition drawn_rows : list SpendUsageRecord := [assign (Some 1, false, 0%Q) (usage 1 10 1 (600000 # 1)); assign (Some 1, true, 300000 # 1) (usage 2 20 2 (700000 # 1)); usage 3 30 40 (5 # 1)].

Lemma table_reachable : reachable table.
Proof. eapply rtc_once, (step_create [] table 1 (body 0 30 (1 # 1))); [apply not_elem_of_nil|vm_compute; reflexivity]. Qed.
End CommitmentExample.

Import CommitmentExample.

Lemma record_draws_from_one_witness : c_id <$> best_commitment (usage 1 10 1 (600000 # 1)) (terms <$> table) = Some 1 ∧ best_commitment (usage 3 30 40 (5 # 1)) (terms <$> table) = None.
Proof.
  destruct (record_draws_from_one table (usage 3 30 40 (5 # 1)) table_reachable) as (_ & _ & H). split; [vm_compute; reflexivity|]. apply H. intros c Hc. apply list_elem_of_singleton in Hc as ->. vm_compute. reflexivity.
Defined.

Lemma overage_is_the_excess_witness : ∃ st, draw_all no_rate [volume] (start_states [volume]) rows = Some (st, drawn_rows) ∧ sum_of overage_of (drawn_from 1 drawn_rows) == 300000 # 1.
Proof.
  assert (∃ st, draw_all no_rate [volume] (start_states [volume]) rows = Some (st, drawn_rows)) as [st E] by (eexists; vm_compute; reflexivity). exists st. split; [exact E|].
  assert (∀ id time day z, 0 ≤ z → metered (usage id time day (z # 1))) as Hm. { intros id time day z Hz. exists (z * 10 ^ 6). split; [lia|]. split; [done|]. cbn [usage r_quantity Qnum Qden]. unfold QTY_PLACES. lia. }
  destruct (overage_is_the_excess no_rate [volume] volume rows st drawn_rows) as (q & u & d & s & Hq & Hu & Hd & _ & _ & H); [apply NoDup_singleton|left|reflexivity| | |vm_compute; reflexivity|exact E|].
  - destruct (reachable_commitments_ok table table_reachable) as [_ Hs _]. apply (Hs (Build_SpendCommitment volume fresh_drawn None true)). left.
  - repeat constructor; by apply Hm.
  - injection Hq as <-. injection Hu as <-. injection Hd as <-. etransitivity; [exact H|]. vm_compute. reflexivity.
Defined.
