(* ===== verification/SpendReplay.v ===== *)
(** The recompute of a provider's commitments ([_recompute_provider] and [_replay_window] of
    src/core/spend/commitments.py), one transaction at a time, between the writers of usage records (src/core/spend/meter.py), of commitments and
    of restated prices (src/core/spend/maintenance.py).

    A ledger holds the commitments and the records of one provider. Instants are numbers of microseconds; a billing
    zone is its [billing_date_of] and the instant each of its days starts at ([day_bounds] of src/core/spend/clock.py). Rollups and audit rows are left out. One recompute runs
    at a time (the jobs of a kind run one by one). *)

From Stdlib Require Import QArith.
From S2P Require Import Prelude PyVal SpendDecimal SpendPricing SpendCommitments.

Local Open Scope Z_scope.

(** What zone data promises: days follow one another, and an instant is in the day it falls in *)
Class BillingZone (billing_date_of day_start : Z → Z) : Prop := {
  day_follows d : day_start d < day_start (d + 1);
  day_contains t d : billing_date_of t = d ↔ day_start d ≤ t < day_start (d + 1) }.

(** The zones at a fixed offset from UTC, such as Asia/Kolkata *)
Definition DAY : Z := 86400000000.
Definition billing_date_at (offset t : Z) : Z := (t + offset) / DAY.
Definition day_start_at (offset d : Z) : Z := d * DAY - offset.

#[global] Instance fixed_zone offset : BillingZone (billing_date_at offset) (day_start_at offset).
Proof.
  split; unfold billing_date_at, day_start_at, DAY; intros; [lia|]. pose proof (Z.div_mod (t + offset) 86400000000 ltac:(lia)). pose proof (Z.mod_pos_bound (t + offset) 86400000000 ltac:(lia)). split; [intros <-; lia|]. intros H1.
  symmetry. apply (Z.div_unique (t + offset) 86400000000 d (t + offset - d * 86400000000)); lia.
Qed.

Definition APPEND_GRACE : Z := 2 * 3600 * 1000000.
Definition RECOMPUTE_CHUNK : nat := 1000.

(** * State *)

(** A running recompute: what its first transaction read, and where its walk is ([run_days]: the day it is in and the days to come, [run_last]: the last record of its last page of that day) *)
Record Run := { run_full : bool; run_terms : list Terms; run_states : gmap Z Drawn; run_start : Z; run_through : Z; run_days : list Z; run_last : option (Z * Z) }.

(** Records are kept in the order of [(event_time, id)], the order every reader asks for *)
Record Ledger := { commitments : list SpendCommitment; records : list SpendUsageRecord; run : option Run; now : Z }.

Definition key (r : SpendUsageRecord) : Z * Z := (event_time r, r_id r).
Definition key_ltb (a b : Z * Z) : bool := (a.1 <? b.1) || ((a.1 =? b.1) && (a.2 <? b.2)).

Fixpoint insert_record (r : SpendUsageRecord) (l : list SpendUsageRecord) : list SpendUsageRecord :=
  match l with [] => [r] | x :: l => if key_ltb (key r) (key x) then r :: x :: l else x :: insert_record r l end.

Definition active (cs : list SpendCommitment) : list SpendCommitment := List.filter (λ c, c_active (terms c)) cs.
Definition flagged (cs : list SpendCommitment) : bool := existsb needs_full_recompute cs.
Definition minimum (l : list Z) : Z := match l with [] => 0 | x :: l => foldr Z.min x l end.
Definition maximum (l : list Z) : Z := match l with [] => 0 | x :: l => foldr Z.max x l end.

(** * Writers *)

(** [write_events]: a record older than the grace asks for a replay *)
Definition write_event (l : Ledger) (r : SpendUsageRecord) : Ledger :=
  {| commitments := if event_time r <? now l - APPEND_GRACE then mark_commitments_for_replay (Some (event_time r)) None (commitments l) else commitments l;
     records := insert_record r (records l); run := run l; now := now l |}.

Definition repriced (k : Z * Z) (amount : option Q) (cur : option string) (inr : option Q) (r : SpendUsageRecord) : SpendUsageRecord :=
  if bool_decide (key r = k)
  then {| r_id := r_id r; event_time := event_time r; event_date := event_date r; billing_date := billing_date r; r_provider := r_provider r; r_usage_type := r_usage_type r; r_unit := r_unit r;
          r_quantity := r_quantity r; r_model := r_model r; r_amount := amount; r_currency := cur; r_amount_inr := inr; assignment := assignment r |}
  else r.

(** A restatement of prices *)
Definition restate (l : Ledger) (k : Z * Z) (amount : option Q) (cur : option string) (inr : option Q) : Ledger :=
  {| commitments := mark_commitments_for_replay None None (commitments l); records := map (repriced k amount cur inr) (records l); run := run l; now := now l |}.

(** A settlement of exchange rates changes amounts in the reporting currency only *)
Definition settled_inr (k : Z * Z) (inr : option Q) (r : SpendUsageRecord) : SpendUsageRecord := repriced k (r_amount r) (r_currency r) inr r.
Definition settle_rates (l : Ledger) (k : Z * Z) (inr : option Q) : Ledger :=
  {| commitments := mark_commitments_for_replay None (Some by_money) (commitments l); records := map (settled_inr k inr) (records l); run := run l; now := now l |}.

Definition with_commitments (l : Ledger) (cs : list SpendCommitment) : Ledger := {| commitments := cs; records := records l; run := run l; now := now l |}.
Definition tick (l : Ledger) (t : Z) : Ledger := {| commitments := commitments l; records := records l; run := run l; now := t |}.

(** * The recompute *)

Section recompute.
Context (rate_on : string → Z → option Q) (billing_date_of day_start : Z → Z).

Definition _billing_days (start stop : Z) : list Z := let first := billing_date_of start in seqZ first (billing_date_of (stop - 1) - first + 1).

Definition cleared (c : SpendCommitment) : SpendCommitment :=
  {| terms := terms c; drawn := drawn c; recomputed_through := if c_active (terms c) then None else recomputed_through c; needs_full_recompute := false |}.

Definition stored_states (cs : list SpendCommitment) : gmap Z Drawn := list_to_map ((λ c, (c_id (terms c), drawn c)) <$> cs).

(** The first transaction; [None]: nothing to do *)
Definition begin_recompute (cs : list SpendCommitment) (now : Z) : option (list SpendCommitment * Run) :=
  let cutoff := now - APPEND_GRACE in
  let act := active cs in
  let full := flagged cs || existsb (λ c, negb (given (recomputed_through c))) act in
  let started (start stop : Z) (states : gmap Z Drawn) : Run :=
    let through := Z.max start stop in
    {| run_full := full; run_terms := terms <$> act; run_states := states; run_start := start; run_through := through; run_days := if through <=? start then [] else _billing_days start through; run_last := None |} in
  if negb (existsb (λ _, true) act) && negb (flagged cs) then None
  else if full
  then Some (map cleared cs, started (day_start (minimum (period_start ∘ terms <$> cs))) (Z.min cutoff (day_start (maximum (period_end ∘ terms <$> cs)))) (start_states (terms <$> act)))
  else Some (cs, started (minimum (omap recomputed_through act)) cutoff (stored_states act)).

Definition low (rn : Run) (d : Z) : Z := Z.max (day_start d) (run_start rn).
Definition high (rn : Run) (d : Z) : Z := Z.min (day_start (d + 1)) (run_through rn).

Definition in_page (lo hi : Z) (last : option (Z * Z)) (r : SpendUsageRecord) : bool :=
  (lo <=? event_time r) && (event_time r <? hi) && match last with None => true | Some k => key_ltb k (key r) end.
Definition page (lo hi : Z) (last : option (Z * Z)) (recs : list SpendUsageRecord) : list SpendUsageRecord := take RECOMPUTE_CHUNK (List.filter (in_page lo hi last) recs).

(** The rows of a page, written back *)
Definition store (rows recs : list SpendUsageRecord) : list SpendUsageRecord := map (λ r, default r (List.find (λ x, bool_decide (key x = key r)) rows)) recs.

Definition moved (rn : Run) (states : gmap Z Drawn) (days : list Z) (last : option (Z * Z)) : Run :=
  {| run_full := run_full rn; run_terms := run_terms rn; run_states := states; run_start := run_start rn; run_through := run_through rn; run_days := days; run_last := last |}.

(** One page of the walk of [_replay_window]; [None]: the draw raised *)
Definition replay_page (rn : Run) (recs : list SpendUsageRecord) : option (Run * list SpendUsageRecord) :=
  match run_days rn with
  | [] => Some (rn, recs)
  | d :: days =>
      if high rn d <=? low rn d then Some (moved rn (run_states rn) days None, recs)
      else
        let rows := page (low rn d) (high rn d) (run_last rn) recs in
        match last rows with
        | None => Some (moved rn (run_states rn) days None, recs)
        | Some final =>
            '(states, rows') ← draw_all rate_on (run_terms rn) (run_states rn) rows;
            Some (if (length rows <? RECOMPUTE_CHUNK)%nat then moved rn states days None else moved rn states (d :: days) (Some (key final)), store rows' recs)
        end
  end.

(** The last transaction *)
Definition finish_one (rn : Run) (c : SpendCommitment) : SpendCommitment :=
  match run_states rn !! c_id (terms c) with
  | Some s => {| terms := terms c; drawn := s; recomputed_through := Some (run_through rn); needs_full_recompute := needs_full_recompute c |}
  | None => c
  end.
Definition finish_recompute (cs : list SpendCommitment) (rn : Run) : list SpendCommitment := map (finish_one rn) cs.

(** A whole recompute with nothing in between; [None]: out of fuel, [Some None]: it raised *)
Fixpoint replay_window (fuel : nat) (rn : Run) (recs : list SpendUsageRecord) : option (option (Run * list SpendUsageRecord)) :=
  match run_days rn, fuel with
  | [], _ => Some (Some (rn, recs))
  | _, O => None
  | _, S fuel => match replay_page rn recs with None => Some None | Some (rn, recs) => replay_window fuel rn recs end
  end.

Definition recompute_provider (fuel : nat) (l : Ledger) : option (option Ledger) :=
  match begin_recompute (commitments l) (now l) with
  | None => Some (Some l)
  | Some (cs, rn) =>
      match replay_window fuel rn (records l) with
      | None => None
      | Some None => Some None
      | Some (Some (rn, recs)) => Some (Some {| commitments := finish_recompute cs rn; records := recs; run := None; now := now l |})
      end
  end.

(** * Every interleaving *)

(** The records a run has gone past *)
Definition passed (rn : Run) (r : SpendUsageRecord) : bool :=
  match run_days rn with
  | [] => event_time r <? run_through rn
  | d :: _ => (event_time r <? low rn d) || match run_last rn with None => false | Some k => negb (key_ltb k (key r)) end
  end.

(** A record that comes in behind an append pass, inside its window *)
Definition behind_append (l : Ledger) (r : SpendUsageRecord) : bool :=
  match run l with Some rn => negb (run_full rn) && (run_start rn <=? event_time r) && passed rn r | None => false end.

(** With [in_order], no record is written behind an append pass; without, any record may be written at any time. *)
Inductive step (in_order : bool) : Ledger → Ledger → Prop :=
| step_tick l t : now l ≤ t → step in_order l (tick l t)
| step_write l r : assignment r = unassigned → billing_date r = billing_date_of (event_time r) → key r ∉ key <$> records l → (in_order = true → behind_append l r = false) → step in_order l (write_event l r)
| step_create l id b cs : id ∉ (c_id ∘ terms) <$> commitments l → create_commitment (commitments l) id b = Ok cs → step in_order l (with_commitments l cs)
| step_update l id new_end close new_reference cs : update_commitment (commitments l) id new_end close new_reference = Ok cs → step in_order l (with_commitments l cs)
| step_restate l k amount cur inr : step in_order l (restate l k amount cur inr)
| step_settle l k inr : step in_order l (settle_rates l k inr)
| step_begin l cs rn : run l = None → begin_recompute (commitments l) (now l) = Some (cs, rn) → step in_order l {| commitments := cs; records := records l; run := Some rn; now := now l |}
| step_page l rn rn' recs : run l = Some rn → run_days rn ≠ [] → replay_page rn (records l) = Some (rn', recs) →
    step in_order l {| commitments := commitments l; records := recs; run := Some rn'; now := now l |}
| step_finish l rn : run l = Some rn → run_days rn = [] → step in_order l {| commitments := finish_recompute (commitments l) rn; records := records l; run := None; now := now l |}
| step_crash l : step in_order l {| commitments := commitments l; records := records l; run := None; now := now l |}.

Definition start_ledger (t : Z) : Ledger := {| commitments := []; records := []; run := None; now := t |}.
Definition reachable (in_order : bool) (l : Ledger) : Prop := ∃ t, rtc (step in_order) (start_ledger t) l.
End recompute.

(** * Orders of records *)

Definition key_lt (a b : SpendUsageRecord) : Prop := key_ltb (key a) (key b) = true.

Lemma key_ltb_spec a b : key_ltb a b = true ↔ a.1 < b.1 ∨ a.1 = b.1 ∧ a.2 < b.2.
Proof. unfold key_ltb. rewrite orb_true_iff, andb_true_iff, Z.ltb_lt, Z.eqb_eq, Z.ltb_lt. done. Qed.

Lemma key_ltb_false a b : key_ltb a b = false ↔ b.1 < a.1 ∨ b.1 = a.1 ∧ b.2 ≤ a.2.
Proof. rewrite <- not_true_iff_false, key_ltb_spec. lia. Qed.

(** A set of records that is closed towards the past *)
Definition past (P : SpendUsageRecord → bool) : Prop := ∀ a b, key_ltb (key b) (key a) = false → P b = true → P a = true.

Lemma past_before w : past (λ r, event_time r <? w).
Proof. intros a b H Hb. apply key_ltb_false in H. cbn in H. lia. Qed.

Definition split_at (P : SpendUsageRecord → bool) (recs A B : list SpendUsageRecord) : Prop := recs = A ++ B ∧ Forall (λ r, P r = true) A ∧ Forall (λ r, P r = false) B.

Lemma insert_low P r A B : past P → P r = true → Forall (λ x, P x = false) B → insert_record r (A ++ B) = insert_record r A ++ B.
Proof.
  intros HP Hr HB. induction A as [|a A IH]; cbn.
  - destruct HB as [|b B Hb _]; [done|]. cbn. destruct (key_ltb (key r) (key b)) eqn:E; [done|]. rewrite (HP b r E Hr) in Hb. done.
  - destruct (key_ltb _ _); [done|]. by rewrite IH.
Qed.

Lemma insert_high P r A B : past P → P r = false → Forall (λ x, P x = true) A → insert_record r (A ++ B) = A ++ insert_record r B.
Proof.
  intros HP Hr HA. induction HA as [|a A Ha _ IH]; cbn; [done|]. destruct (key_ltb (key r) (key a)) eqn:E; [|by rewrite IH]. exfalso. rewrite (HP r a) in Hr; [done| |done]. apply key_ltb_spec in E. apply key_ltb_false. lia.
Qed.

Lemma insert_record_perm r l : insert_record r l ≡ₚ r :: l.
Proof. induction l as [|x l IH]; cbn; [done|]. destruct (key_ltb _ _); [done|]. rewrite IH. constructor. Qed.

Lemma insert_sorted r l : StronglySorted key_lt l → key r ∉ key <$> l → StronglySorted key_lt (insert_record r l).
Proof.
  intros Hs Hr. induction Hs as [|x l Hs IH Hx]; cbn; [repeat constructor|]. cbn in Hr. apply not_elem_of_cons in Hr as [Hne Hr]. destruct (key_ltb (key r) (key x)) eqn:E.
  - constructor; [by constructor|]. constructor; [done|]. eapply Forall_impl; [exact Hx|]. cbn. unfold key_lt. intros y Hy. apply key_ltb_spec in E, Hy. apply key_ltb_spec. lia.
  - constructor; [by apply IH|]. apply Forall_forall. intros y Hy. rewrite insert_record_perm in Hy. apply elem_of_cons in Hy as [->|Hy]; [|by rewrite Forall_forall in Hx; apply Hx].
    apply key_ltb_false in E. apply key_ltb_spec. unfold key in *. cbn in *. assert (¬ (event_time r = event_time x ∧ r_id r = r_id x)) by (intros [E1 E2]; apply Hne; congruence). lia.
Qed.

Lemma Forall_insert (P : SpendUsageRecord → Prop) r l : P r → Forall P l → Forall P (insert_record r l).
Proof. intros Hr Hl. rewrite insert_record_perm. by constructor. Qed.

Lemma sorted_app_inv {A} (R : A → A → Prop) l1 l2 : StronglySorted R (l1 ++ l2) → StronglySorted R l1 ∧ StronglySorted R l2 ∧ ∀ x y, x ∈ l1 → y ∈ l2 → R x y.
Proof.
  induction l1 as [|a l1 IH]; cbn; intros H; [split_and!; [constructor|done|]; intros x y Hx; by apply not_elem_of_nil in Hx|]. apply StronglySorted_inv in H as [H Ha]. destruct (IH H) as (H1 & H2 & H3). rewrite Forall_forall in Ha. split_and!; [|done|].
  - constructor; [done|]. apply Forall_forall. intros x Hx. apply Ha. apply elem_of_app. by left.
  - intros x y [->|Hx]%elem_of_cons Hy; [|by apply H3]. apply Ha. apply elem_of_app. by right.
Qed.

(** What comes before a point of a sorted list is a prefix of it *)
Lemma sorted_prefix P l : past P → StronglySorted key_lt l → ∃ A B, split_at P l A B ∧ List.filter P l = A.
Proof.
  intros HP Hs. induction Hs as [|x l Hs (A & B & (E & HA & HB) & HF) Hx]; [exists [], []; by split|]. cbn. destruct (P x) eqn:Ex.
  - exists (x :: A), B. rewrite HF. split; [|done]. split_and!; [cbn; by rewrite E|by constructor|done].
  - exists [], (x :: l). assert (Forall (λ y, P y = false) l) as Hl.
    { eapply Forall_impl; [exact Hx|]. cbn. intros y Hy. destruct (P y) eqn:Ey; [|done]. rewrite (HP x y) in Ex; [done| |done]. apply key_ltb_spec in Hy. apply key_ltb_false. lia. }
    split; [split_and!; [done|constructor|by constructor]|]. rewrite HF. subst l. apply Forall_app in Hl as [Hl _]. destruct HA as [|a A Ha _]; [done|]. by inversion Hl; congruence.
Qed.

(** * Pages *)

Lemma store_app rows l1 l2 : store rows (l1 ++ l2) = store rows l1 ++ store rows l2.
Proof. apply map_app. Qed.

Lemma store_keys rows recs : key <$> store rows recs = key <$> recs.
Proof.
  unfold store. rewrite <- list_fmap_compose. apply list_fmap_ext. intros i r _. cbn. destruct (List.find _ _) as [x|] eqn:E; [|done]. apply find_some in E as [_ E]. by apply bool_decide_eq_true in E.
Qed.

Lemma store_other rows recs : (∀ x r, x ∈ rows → r ∈ recs → key x ≠ key r) → store rows recs = recs.
Proof.
  intros H. unfold store. transitivity (id <$> recs); [|apply list_fmap_id]. apply list_fmap_ext. intros i r Hr. apply list_elem_of_lookup_2 in Hr. destruct (List.find _ _) as [x|] eqn:E; [|done]. apply find_some in E as [Hx E].
  apply bool_decide_eq_true in E. apply list_elem_of_In in Hx. by destruct (H x r Hx Hr).
Qed.

Lemma sorted_keys_NoDup l : StronglySorted key_lt l → NoDup (key <$> l).
Proof.
  induction 1 as [|x l _ IH Hx]; cbn; constructor; [|done]. intros Hin. apply list_elem_of_fmap in Hin as (y & E & Hy). rewrite Forall_forall in Hx. specialize (Hx y Hy). unfold key_lt in Hx. rewrite E in Hx. apply key_ltb_spec in Hx. lia.
Qed.

Lemma store_same rows rows' : NoDup (key <$> rows) → key <$> rows' = key <$> rows → store rows' rows = rows'.
Proof.
  revert rows'. induction rows as [|r rows IH]; intros [|r' rows'] Hnd E; try done. cbn in E, Hnd. injection E as E1 E2 E3. apply NoDup_cons in Hnd as [Hr Hnd]. assert (key r' = key r) as Ek by (unfold key; congruence). cbn. rewrite bool_decide_true by done. cbn. f_equal.
  transitivity (store rows' rows); [|by apply IH]. apply list_fmap_ext. intros i x Hx. rewrite bool_decide_false; [done|]. rewrite Ek. intros E. apply Hr. rewrite E. apply list_elem_of_fmap. exists x. split; [done|]. by eapply list_elem_of_lookup_2.
Qed.

Lemma keys_sorted l l' : key <$> l' = key <$> l → StronglySorted key_lt l → StronglySorted key_lt l'.
Proof.
  revert l'. induction l as [|x l IH]; intros [|x' l'] E Hs; try done. cbn in E. injection E as E1 E2 E3. apply StronglySorted_inv in Hs as [Hs Hx]. assert (key x' = key x) as Ek by (unfold key; congruence). constructor; [by apply IH|].
  apply Forall_forall. intros y Hy. assert (key y ∈ key <$> l) as Hin by (rewrite <- E3; apply list_elem_of_fmap; by exists y). apply list_elem_of_fmap in Hin as (z & Ez & Hz). rewrite Forall_forall in Hx. specialize (Hx z Hz). unfold key_lt in *. by rewrite Ek, Ez.
Qed.

(** A property of keys holds of lists with the same keys *)
Lemma Forall_keys (P : Z * Z → Prop) l l' : key <$> l' = key <$> l → Forall (λ r, P (key r)) l → Forall (λ r, P (key r)) l'.
Proof. intros E H. change (Forall (P ∘ key) l'). apply Forall_fmap. rewrite E. by apply Forall_fmap. Qed.

(** * Drawing *)

Section drawing.
Context (rate_on : string → Z → option Q).

(** Everything but the assignment *)
Definition same_event (r r' : SpendUsageRecord) : Prop := assign unassigned r' = assign unassigned r.

Lemma same_event_assign a r : same_event r (assign a r).
Proof. done. Qed.

Lemma same_event_eq r r' : same_event r r' → r' = assign (assignment r') r.
Proof. destruct r, r'. unfold same_event, assign. cbn. intros [=]. by subst. Qed.

Lemma same_event_key r r' : same_event r r' → key r' = key r ∧ billing_date r' = billing_date r.
Proof. intros ->%same_event_eq. done. Qed.

Lemma match_rank_same r r' c : same_event r r' → match_rank r' c = match_rank r c.
Proof. intros ->%same_event_eq. done. Qed.

Lemma assignment_eqb_refl a : assignment_eqb a a = true.
Proof. unfold assignment_eqb. rewrite bool_decide_true, eqb_reflx by done. by apply Qeq_bool_iff. Qed.

Lemma draw_record_spec ts st r st' r' : draw_record rate_on ts st r = Some (st', r') → same_event r r' ∧ draw_record rate_on ts st r' = Some (st', r').
Proof.
  unfold draw_record. intros H. apply bind_Some in H as ([st1 a] & Hd & H). injection H as <- <-. destruct (assignment_eqb (assignment r) a) eqn:E; [split; [done|]; rewrite Hd; cbn; by rewrite E|]. split; [apply same_event_assign|].
  transitivity ('(states, a0) ← Some (st1, a); Some (states, if assignment_eqb a a0 then assign a r else assign a0 (assign a r))); [by rewrite <- Hd|]. cbn. by rewrite assignment_eqb_refl.
Qed.

Lemma draw_all_app ts st l1 l2 : draw_all rate_on ts st (l1 ++ l2) = '(st1, r1) ← draw_all rate_on ts st l1; '(st2, r2) ← draw_all rate_on ts st1 l2; Some (st2, r1 ++ r2).
Proof.
  revert st. induction l1 as [|r l1 IH]; intros st; cbn; [by destruct (draw_all _ _ _ _) as [[]|]|]. destruct (draw_record _ _ _ _) as [[st1 r']|]; [|done]. cbn. rewrite IH.
  destruct (draw_all rate_on ts st1 l1) as [[]|]; [|done]. cbn. by destruct (draw_all _ _ _ _) as [[]|].
Qed.

(** Drawing again changes nothing *)
Lemma draw_all_idem ts st l st' l' : draw_all rate_on ts st l = Some (st', l') → Forall2 same_event l l' ∧ draw_all rate_on ts st l' = Some (st', l').
Proof.
  revert st st' l'. induction l as [|r l IH]; intros st st' l' H; cbn in H; [injection H as <- <-; by repeat constructor|]. apply bind_Some in H as ([st1 r'] & H1 & H). apply bind_Some in H as ([st2 rs] & H2 & [= <- <-]).
  apply draw_record_spec in H1 as [Hs H1]. apply IH in H2 as [Hf H2]. split; [by constructor|]. cbn. rewrite H1. cbn. rewrite H2. done.
Qed.

Lemma draw_all_keys ts st l st' l' : draw_all rate_on ts st l = Some (st', l') → key <$> l' = key <$> l.
Proof. intros H. apply draw_all_idem in H as [H _]. induction H as [|r r' l l' Hr _ IH]; cbn; [done|]. rewrite IH. by rewrite (proj1 (same_event_key _ _ Hr)). Qed.

Lemma draw_record_dom ts st r st' r' : draw_record rate_on ts st r = Some (st', r') → ∀ i, is_Some (st' !! i) ↔ is_Some (st !! i).
Proof.
  unfold draw_record. intros H i. apply bind_Some in H as ([st1 a] & Hd & H). injection H as <- <-. destruct (best_commitment r ts) as [c|]; [|by injection Hd as <- <-]. apply bind_Some in Hd as (s & Hs & Hd). apply bind_Some in Hd as ([s' a'] & _ & [= <- <-]).
  destruct (decide (i = c_id c)) as [->|]; [rewrite lookup_insert_eq, Hs; done|by rewrite lookup_insert_ne].
Qed.

Lemma draw_all_dom ts st l st' l' : draw_all rate_on ts st l = Some (st', l') → ∀ i, is_Some (st' !! i) ↔ is_Some (st !! i).
Proof.
  revert st st' l'. induction l as [|r l IH]; intros st st' l' H i; cbn in H; [by injection H as <- <-|]. apply bind_Some in H as ([st1 r'] & H1 & H). apply bind_Some in H as ([st2 rs] & H2 & [= <- <-]). by rewrite (IH _ _ _ H2), (draw_record_dom _ _ _ _ _ H1).
Qed.

(** A record that no commitment covers *)
Lemma draw_record_inert ts st r : (∀ c, c ∈ ts → match_rank r c = None) → assignment_eqb (assignment r) unassigned = true → draw_record rate_on ts st r = Some (st, r).
Proof. intros H Ha. unfold draw_record. apply best_commitment_None in H as ->. cbn. by rewrite Ha. Qed.

Lemma draw_all_inert ts st l : Forall (λ r, (∀ c, c ∈ ts → match_rank r c = None) ∧ assignment_eqb (assignment r) unassigned = true) l → draw_all rate_on ts st l = Some (st, l).
Proof. induction 1 as [|r l [H1 H2] _ IH]; cbn; [done|]. rewrite draw_record_inert by done. cbn. by rewrite IH. Qed.

Lemma draw_all_insert ts st r l st' : (∀ c, c ∈ ts → match_rank r c = None) → assignment_eqb (assignment r) unassigned = true → draw_all rate_on ts st l = Some (st', l) →
  draw_all rate_on ts st (insert_record r l) = Some (st', insert_record r l).
Proof.
  intros H1 H2. revert st. induction l as [|x l IH]; intros st H; cbn [insert_record]; [injection H as <-; cbn; by rewrite draw_record_inert|]. destruct (key_ltb _ _).
  - change (r :: x :: l) with ([r] ++ x :: l). rewrite draw_all_app, draw_all_inert by by repeat constructor. cbn [mbind option_bind]. by rewrite H.
  - cbn in H |- *. apply bind_Some in H as ([st1 x'] & H & H'). apply bind_Some in H' as ([st2 rs] & H' & [= <- <- <-]). rewrite H. cbn. by rewrite (IH st1).
Qed.

(** The price of a record does not matter to commitments of quantities *)
Lemma draw_record_settled ts st k inr r st' : (∀ c, c ∈ ts → kind c = by_quantity) → draw_record rate_on ts st r = Some (st', r) → draw_record rate_on ts st (settled_inr k inr r) = Some (st', settled_inr k inr r).
Proof.
  intros Hq H. unfold settled_inr, repriced. destruct (bool_decide _); [|done]. set (r' := {| r_id := _ |}). unfold draw_record in *. change (best_commitment r' ts) with (best_commitment r ts). change (assignment r') with (assignment r).
  apply bind_Some in H as ([st1 a] & Hd & [= <- H]). assert (assignment_eqb (assignment r) a = true) as Ea.
  { destruct (assignment_eqb (assignment r) a) eqn:E; [done|]. assert (assignment (assign a r) = assignment r) as Hx by congruence. cbn in Hx. rewrite <- Hx, assignment_eqb_refl in E. done. }
  destruct (best_commitment r ts) as [c|] eqn:Eb; [|injection Hd as <- <-; cbn; by rewrite Ea]. apply best_commitment_Some in Eb as [Hc _]. specialize (Hq c Hc). apply bind_Some in Hd as (s & Hs & Hd). rewrite Hs. cbn [mbind option_bind].
  unfold draw in *. rewrite Hq in *. change (r_quantity r') with (r_quantity r). apply bind_Some in Hd as ([s' a'] & Hd & [= <- <-]). rewrite Hd. cbn. by rewrite Ea.
Qed.

Lemma draw_all_settled ts st k inr l st' : (∀ c, c ∈ ts → kind c = by_quantity) → draw_all rate_on ts st l = Some (st', l) → draw_all rate_on ts st (map (settled_inr k inr) l) = Some (st', map (settled_inr k inr) l).
Proof.
  intros Hq. revert st. induction l as [|r l IH]; intros st H; [done|]. cbn in H |- *. apply bind_Some in H as ([st1 x'] & H & H'). apply bind_Some in H' as ([st2 rs] & H' & [= -> -> ->]). rewrite (draw_record_settled ts st k inr r st1) by done. cbn. by rewrite (IH st1).
Qed.
End drawing.
