(* ===== verification/SpendDrawdown.v ===== *)
(** What holds of the recompute of commitments ([SpendReplay]): the invariant of its interleavings with every writer, that a settled
    provider is drawn as a replay from scratch draws it, that an uninterrupted recompute settles it, and the three ways in which records keep a wrong
    assignment. *)

From Stdlib Require Import QArith.
From S2P Require Import Prelude PyVal SpendDecimal SpendPricing SpendCommitments SpendReplay.

Local Open Scope Z_scope.

(** * The invariant *)

(** Commitments a recompute has nothing to do for, but to go on *)
Definition settled (cs : list SpendCommitment) : Prop := flagged cs = false ∧ active cs ≠ [] ∧ ∀ c, c ∈ active cs → recomputed_through c ≠ None.

Definition first_start (cs : list SpendCommitment) : Z := minimum (period_start ∘ terms <$> cs).

Section invariant.
Context (rate_on : string → Z → option Q) (billing_date_of day_start : Z → Z) `{Hzone : BillingZone billing_date_of day_start}.
Local Abbreviation low := (low day_start).
Local Abbreviation high := (high day_start).
Local Abbreviation passed := (passed day_start).

(** The records of [P] are assigned as drawing them from scratch assigns them, and leave the drawdown [st] *)
Definition drawn_upto (P : SpendUsageRecord → bool) (ts : list Terms) (recs : list SpendUsageRecord) (st : gmap Z Drawn) : Prop :=
  ∃ A B, split_at P recs A B ∧ draw_all rate_on ts (start_states ts) A = Some (st, A).

Definition horizon (l : Ledger) : Z := Z.max (now l - APPEND_GRACE) (day_start (first_start (commitments l))).

Record run_ok (l : Ledger) (rn : Run) : Prop := {
  ro_window : run_start rn ≤ run_through rn;
  ro_days : match run_days rn with
    | [] => True
    | d :: days => run_start rn < run_through rn ∧ billing_date_of (run_start rn) ≤ d ≤ billing_date_of (run_through rn - 1) ∧ days = seqZ (d + 1) (billing_date_of (run_through rn - 1) - d) ∧
        ∀ k, run_last rn = Some k → k.1 < high rn d
    end;
  ro_full : run_full rn = true → ∀ c, c ∈ active (commitments l) → recomputed_through c = None;
  ro_terms : ∀ t, t ∈ run_terms rn → ∃ c, c ∈ commitments l ∧ period_start (terms c) = period_start t;
  ro_clear : flagged (commitments l) = false → active (commitments l) ≠ [] →
    terms <$> active (commitments l) = run_terms rn ∧ drawn_upto (passed rn) (run_terms rn) (records l) (run_states rn) ∧ run_through rn ≤ horizon l ∧
    (run_full rn = false → ∀ c, c ∈ active (commitments l) → recomputed_through c = Some (run_start rn)) }.

Definition assigned_ok (cs : list SpendCommitment) (r : SpendUsageRecord) : Prop := assignment_eqb (assignment r) unassigned = true ∨ ∃ c, c ∈ cs ∧ period_start (terms c) ≤ billing_date r.

Record records_ok (l : Ledger) : Prop := {
  rec_sorted : StronglySorted key_lt (records l);
  rec_billed : ∀ r, r ∈ records l → billing_date r = billing_date_of (event_time r);
  rec_assigned : ∀ r, r ∈ records l → assigned_ok (commitments l) r }.

Record inv (l : Ledger) : Prop := {
  i_commitments : commitments_ok (commitments l);
  i_records : records_ok l;
  i_run : ∀ rn, run l = Some rn → run_ok l rn;
  i_settled : settled (commitments l) → ∃ w st, (∀ c, c ∈ active (commitments l) → recomputed_through c = Some w) ∧ w ≤ horizon l ∧
    drawn_upto (λ r, event_time r <? w) (terms <$> active (commitments l)) (records l) st ∧ ∀ c, c ∈ active (commitments l) → st !! c_id (terms c) = Some (drawn c) }.

(** ** Days *)

Lemma day_mono d d' : d ≤ d' → day_start d ≤ day_start d'.
Proof. intros H. replace d' with (d + Z.of_nat (Z.to_nat (d' - d))) by lia. induction (Z.to_nat (d' - d)) as [|n IH]; [by rewrite Z.add_0_r|]. rewrite Nat2Z.inj_succ. pose proof (day_follows (d + Z.of_nat n)). replace (d + Z.succ (Z.of_nat n)) with (d + Z.of_nat n + 1) by lia. lia. Qed.

Lemma date_bounds t : day_start (billing_date_of t) ≤ t < day_start (billing_date_of t + 1).
Proof. by apply day_contains. Qed.

Lemma before_day t d : t < day_start d ↔ billing_date_of t < d.
Proof.
  pose proof (date_bounds t) as [H1 H2]. split; intros H.
  - destruct (Z_lt_le_dec (billing_date_of t) d) as [|Hge]; [done|]. pose proof (day_mono d _ Hge). lia.
  - pose proof (day_mono (billing_date_of t + 1) d ltac:(lia)). lia.
Qed.

Lemma minimum_le l x : x ∈ l → minimum l ≤ x.
Proof.
  destruct l as [|y l]; [by intros H%not_elem_of_nil|]. cbn. intros H. assert (foldr Z.min y l ≤ y ∧ ∀ z, z ∈ l → foldr Z.min y l ≤ z) as [H1 H2].
  { clear. induction l as [|a l [IH1 IH2]]; cbn; [split; [done|]; by intros z H%not_elem_of_nil|]. split; [lia|]. intros z [->|Hz]%elem_of_cons; [lia|]. specialize (IH2 z Hz). lia. }
  apply elem_of_cons in H as [->|H]; auto.
Qed.

Lemma minimum_elem l : l ≠ [] → minimum l ∈ l.
Proof.
  destruct l as [|y l]; [done|]. intros _. cbn. induction l as [|a l IH]; cbn; [left|]. destruct (Z.min_spec a (foldr Z.min y l)) as [[_ ->]|[_ ->]]; [right; left|]. apply elem_of_cons in IH as [->|IH]; [left|right; by right].
Qed.

(** Nothing covers a record from before every period *)
Lemma early_inert cs r : billing_date r < first_start cs → ∀ t, t ∈ terms <$> active cs → match_rank r t = None.
Proof.
  intros Hr t Ht. apply list_elem_of_fmap in Ht as (c & -> & Hc). apply list_elem_of_In, filter_In in Hc as [Hc _]. apply list_elem_of_In in Hc. destruct (match_rank r (terms c)) as [k|] eqn:E; [|done]. apply match_rank_covers in E as (_ & _ & Hd).
  assert (first_start cs ≤ period_start (terms c)); [|lia]. apply minimum_le, list_elem_of_fmap. by exists c.
Qed.

Lemma early_unassigned cs r : billing_date r < first_start cs → assigned_ok cs r → assignment_eqb (assignment r) unassigned = true.
Proof. intros Hr [?|(c & Hc & Hp)]; [done|exfalso]. assert (first_start cs ≤ period_start (terms c)); [|lia]. apply minimum_le, list_elem_of_fmap. by exists c. Qed.

(** ** Walks *)

Lemma past_passed rn : past (passed rn).
Proof.
  intros a b H Hb. unfold passed in *. destruct (run_days rn) as [|d ds]; [by apply (past_before _ a b)|]. apply orb_true_iff in Hb as [Hb|Hb]; apply orb_true_iff; [left; by apply (past_before _ a b)|right].
  destruct (run_last rn) as [k|]; [|done]. apply negb_true_iff, key_ltb_false in Hb. apply negb_true_iff, key_ltb_false. apply key_ltb_false in H. lia.
Qed.

Lemma window_ok l rn d days : run_ok l rn → run_days rn = d :: days → run_start rn ≤ low rn d < high rn d ∧ high rn d ≤ run_through rn.
Proof.
  intros [_ H _ _ _] E. rewrite E in H. destruct H as (H1 & [H2 H3] & _). unfold SpendReplay.low, SpendReplay.high. pose proof (day_follows d). assert (day_start d < run_through rn). { pose proof (day_mono _ _ H3). pose proof (date_bounds (run_through rn - 1)). lia. }
  assert (run_start rn < day_start (d + 1)) by (apply before_day; lia). lia.
Qed.

Lemma passed_through l rn r : run_ok l rn → passed rn r = true → event_time r < run_through rn.
Proof.
  intros Hok H. unfold passed in H. destruct (run_days rn) as [|d days] eqn:E; [lia|]. destruct (window_ok l rn d days Hok E) as [[_ Hlt] Hle]. apply orb_true_iff in H as [H|H]; [lia|].
  destruct (run_last rn) as [k|] eqn:Ek; [|done]. apply negb_true_iff, key_ltb_false in H. cbn in H. destruct Hok as [_ Hd _ _ _]. rewrite E in Hd. destruct Hd as (_ & _ & _ & Hk). specialize (Hk k Ek). lia.
Qed.

(** Going to the next day passes exactly what is before the end of this one *)
Lemma next_day_passed l rn d days st r : run_ok l rn → run_days rn = d :: days → passed (moved rn st days None) r = (event_time r <? high rn d).
Proof.
  intros Hok E. pose proof (window_ok l rn d days Hok E) as [[_ Hlt] Hle]. destruct Hok as [_ Hd _ _ _]. rewrite E in Hd. destruct Hd as (H1 & [H2 H3] & -> & _). unfold passed, moved. cbn [run_days run_through run_last].
  assert (day_start (d + 1) > run_start rn) as Hs by (assert (run_start rn < day_start (d + 1)) by (apply before_day; lia); lia). destruct (Z_lt_le_dec d (billing_date_of (run_through rn - 1))) as [Hd|Hd].
  - rewrite (seqZ_cons (d + 1)) by lia. rewrite orb_false_r. unfold SpendReplay.low, SpendReplay.high. cbn [run_start run_through]. assert (day_start (d + 1) < run_through rn); [|f_equal; lia].
    pose proof (day_mono (d + 1) _ ltac:(apply Z.le_succ_l; exact Hd)). pose proof (date_bounds (run_through rn - 1)). lia.
  - rewrite seqZ_nil by lia. unfold SpendReplay.high. assert (run_through rn - 1 < day_start (d + 1)) by (apply before_day; lia). f_equal. lia.
Qed.

Lemma next_day_ok l rn d days st : run_ok l rn → run_days rn = d :: days →
  match days with
  | [] => True
  | e :: rest => run_start rn < run_through rn ∧ billing_date_of (run_start rn) ≤ e ≤ billing_date_of (run_through rn - 1) ∧ rest = seqZ (e + 1) (billing_date_of (run_through rn - 1) - e) ∧
      ∀ k : Z * Z, run_last (moved rn st days None) = Some k → k.1 < high (moved rn st days None) e
  end.
Proof.
  intros [_ Hd _ _ _] E. rewrite E in Hd. destruct Hd as (H1 & [H2 H3] & -> & _). destruct (Z_lt_le_dec d (billing_date_of (run_through rn - 1))) as [Hd|Hd]; [|by rewrite seqZ_nil by lia].
  rewrite (seqZ_cons (d + 1)) by lia. split_and!; [done|lia|lia| |done]. f_equal; lia.
Qed.

(** A page takes the records from where the walk is, in order, up to the end of the day *)
Lemma page_spec l rn d days A B : run_ok l rn → run_days rn = d :: days → StronglySorted key_lt (records l) → split_at (passed rn) (records l) A B →
  ∃ H T, split_at (λ r, event_time r <? high rn d) B H T ∧ page (low rn d) (high rn d) (run_last rn) (records l) = take RECOMPUTE_CHUNK H.
Proof.
  intros Hok E Hs (Er & HA & HB). rewrite Er in Hs. apply sorted_app_inv in Hs as (_ & Hs & _). destruct (sorted_prefix _ B (past_before (high rn d)) Hs) as (H & T & Hsp & HF). exists H, T. split; [done|].
  unfold page. rewrite Er, List.filter_app. assert (List.filter (in_page (low rn d) (high rn d) (run_last rn)) A = []) as ->.
  { clear -HA E. induction HA as [|a A Ha _ IH]; cbn; [done|]. destruct (in_page _ _ _ a) eqn:Ei; [exfalso|done]. unfold in_page in Ei. apply andb_true_iff in Ei as [Ei1 Ei2]. apply andb_true_iff in Ei1 as [Ei1 _].
    unfold SpendReplay.passed in Ha. rewrite E in Ha. apply orb_true_iff in Ha as [Ha|Ha]; [lia|]. destruct (run_last rn); [|done]. by rewrite Ei2 in Ha. }
  rewrite <- HF. cbn [app]. f_equal. clear -HB E. induction HB as [|b B Hb _ IH]; cbn; [done|]. unfold SpendReplay.passed in Hb. rewrite E in Hb. apply orb_false_iff in Hb as [Hb1 Hb2].
  assert (in_page (low rn d) (high rn d) (run_last rn) b = (event_time b <? high rn d)) as ->; [|by rewrite IH]. unfold in_page. rewrite (proj2 (Z.leb_le _ _)) by lia. destruct (run_last rn); [apply negb_false_iff in Hb2; rewrite Hb2|]; by rewrite andb_true_r.
Qed.

Lemma RECOMPUTE_CHUNK_pos : (0 < RECOMPUTE_CHUNK)%nat.
Proof. unfold RECOMPUTE_CHUNK. apply Nat.lt_0_succ. Qed.
#[local] Opaque RECOMPUTE_CHUNK.

Lemma split_app P A B H T : (∀ r, r ∈ A → P r = true) → split_at P B H T → split_at P (A ++ B) (A ++ H) T.
Proof. intros HA (-> & HH & HT). split_and!; [by rewrite app_assoc| |done]. apply Forall_app. split; [by apply Forall_forall|done]. Qed.

Lemma store_page A rows rest rows' : StronglySorted key_lt (A ++ rows ++ rest) → key <$> rows' = key <$> rows → store rows' (A ++ rows ++ rest) = A ++ rows' ++ rest.
Proof.
  intros Hs Hkeys. pose proof (sorted_app_inv _ _ _ Hs) as (_ & Hs2 & _). pose proof (sorted_app_inv _ _ _ Hs2) as (Hs4 & _ & _). rewrite !store_app, (store_same rows rows'); [|by apply sorted_keys_NoDup|done].
  pose proof (sorted_keys_NoDup _ Hs) as Hnd. rewrite !fmap_app in Hnd. apply NoDup_app in Hnd as (_ & Hd1 & Hnd). apply NoDup_app in Hnd as (_ & Hd2 & _).
  f_equal; [|f_equal]; apply store_other; intros x r Hx Hr Ek; assert (key x ∈ key <$> rows) as Hx' by (rewrite <- Hkeys; apply list_elem_of_fmap; by exists x); rewrite Ek in Hx'.
  - eapply (Hd1 (key r)); [apply list_elem_of_fmap; by exists r|]. apply elem_of_app. by left.
  - eapply (Hd2 (key r)); [done|]. apply list_elem_of_fmap. by exists r.
Qed.

Lemma passed_high l rn d days r : run_ok l rn → run_days rn = d :: days → passed rn r = true → event_time r < high rn d.
Proof.
  intros Hok E HA. pose proof (window_ok l rn d days Hok E) as [[_ Hw] _]. unfold SpendReplay.passed in HA. rewrite E in HA. apply orb_true_iff in HA as [HA|HA]; [lia|]. destruct (run_last rn) as [k|] eqn:Ek; [|done]. apply negb_true_iff, key_ltb_false in HA. cbn in HA.
  destruct Hok as [_ Hd _ _ _]. rewrite E in Hd. destruct Hd as (_ & _ & _ & Hk). specialize (Hk k Ek). lia.
Qed.

(** After the last page of a day *)
Lemma day_done l rn d days st A H H' T : run_ok l rn → run_days rn = d :: days → Forall (λ r, passed rn r = true) A → split_at (λ r, event_time r <? high rn d) (H ++ T) H T → key <$> H' = key <$> H →
  split_at (passed (moved rn st days None)) (A ++ H' ++ T) (A ++ H') T.
Proof.
  intros Hok E HA (_ & HH & HT) Hk. pose proof (next_day_passed l rn d days st) as Hn. rewrite Forall_forall in HA. apply split_app; [|split_and!; [done| |]].
  - intros r Hr. rewrite (Hn r Hok E). pose proof (passed_high l rn d days r Hok E (HA r Hr)). lia.
  - apply (Forall_keys (λ k, k.1 < high rn d)) in Hk; [|eapply Forall_impl; [exact HH|]; cbn; lia]. eapply Forall_impl; [exact Hk|]. intros r Hr. rewrite (Hn r Hok E). cbn in Hr. lia.
  - eapply Forall_impl; [exact HT|]. intros r Hr. by rewrite (Hn r Hok E).
Qed.

(** After a page that is not the last of its day *)
Lemma page_done rn d days st A init final rows' rest : StronglySorted key_lt (A ++ (init ++ [final]) ++ rest) → (∀ r, r ∈ rest → low rn d ≤ event_time r) → key <$> rows' = key <$> init ++ [final] →
  split_at (passed (moved rn st (d :: days) (Some (key final)))) (A ++ rows' ++ rest) (A ++ rows') rest.
Proof.
  intros Hs Hrest Hkeys. pose proof (sorted_app_inv _ _ _ Hs) as (_ & Hs2 & Hs3). pose proof (sorted_app_inv _ _ _ Hs2) as (Hs4 & _ & Hs5). assert (final ∈ init ++ [final]) as Hf by (apply elem_of_app; right; left).
  assert (∀ r, passed (moved rn st (d :: days) (Some (key final))) r = ((event_time r <? low rn d) || negb (key_ltb (key final) (key r)))) as Hpd by done.
  assert (Forall (λ r, key_ltb (key final) (key r) = false) (init ++ [final])) as Hle.
  { apply Forall_app. split; [|repeat constructor; apply key_ltb_false; lia]. apply sorted_app_inv in Hs4 as (_ & _ & Hs4). apply Forall_forall. intros x Hx. specialize (Hs4 x final Hx ltac:(left)). apply key_ltb_spec in Hs4. apply key_ltb_false. lia. }
  apply split_app; [|split_and!; [done| |]].
  - intros r Hr. rewrite Hpd. apply orb_true_iff. right. apply negb_true_iff. specialize (Hs3 r final Hr ltac:(rewrite elem_of_app; by left)). apply key_ltb_spec in Hs3. apply key_ltb_false. lia.
  - apply (Forall_keys (λ k, key_ltb (key final) k = false) _ rows' Hkeys) in Hle. eapply Forall_impl; [exact Hle|]. intros r Hr. rewrite Hpd. apply orb_true_iff. right. by rewrite Hr.
  - apply Forall_forall. intros r Hr. rewrite Hpd. apply orb_false_iff. split; [specialize (Hrest r Hr); lia|]. apply negb_false_iff. by apply Hs5.
Qed.

(** What one page does to the walk: [A] is behind it, [rows] are drawn, and [rows'] join what is behind *)
Lemma replay_page_spec l rn rn' recs d days A B : run_ok l rn → run_days rn = d :: days → StronglySorted key_lt (records l) → split_at (passed rn) (records l) A B → replay_page rate_on day_start rn (records l) = Some (rn', recs) →
  ∃ rows rest rows' st, B = rows ++ rest ∧ recs = A ++ rows' ++ rest ∧ draw_all rate_on (run_terms rn) (run_states rn) rows = Some (st, rows') ∧ (∀ r, r ∈ rows → low rn d ≤ event_time r) ∧
    split_at (passed rn') (A ++ rows' ++ rest) (A ++ rows') rest ∧
    (rn' = moved rn st days None ∨ ∃ k, rn' = moved rn st (d :: days) (Some k) ∧ k.1 < high rn d ∧ rows ≠ []).
Proof.
  intros Hok E Hs Hsp H. pose proof (window_ok l rn d days Hok E) as [[Hw1 Hw2] Hw3]. destruct (page_spec l rn d days A B Hok E Hs Hsp) as (HH & T & (EB & HHl & HTl) & Ep). destruct Hsp as (Er & HA & HB).
  assert (∀ r, r ∈ B → low rn d ≤ event_time r) as HBl. { intros r Hr. rewrite Forall_forall in HB. specialize (HB r Hr). unfold SpendReplay.passed in HB. rewrite E in HB. apply orb_false_iff in HB as [HB _]. lia. }
  assert (∀ st H', key <$> H' = key <$> HH → split_at (passed (moved rn st days None)) (A ++ H' ++ T) (A ++ H') T) as Hadv by (intros st H'; by apply (day_done l rn d)).
  unfold replay_page in H. rewrite E, (proj2 (Z.leb_gt _ _)), Ep in H by lia. destruct (last (take RECOMPUTE_CHUNK HH)) as [final|] eqn:El.
  2: { injection H as <- <-. apply last_None in El. assert (HH = []) as -> by (destruct HH; [done|]; pose proof RECOMPUTE_CHUNK_pos; destruct RECOMPUTE_CHUNK; [lia|done]).
       exists [], T, [], (run_states rn). cbn [app] in *. rewrite Er, EB. split_and!; [done|done|done|by intros r Hr%not_elem_of_nil|by apply (Hadv _ [])|by left]. }
  apply bind_Some in H as ([st rows'] & Hdr & H). injection H as <- <-. apply last_Some in El as (init & El). set (rows := take RECOMPUTE_CHUNK HH) in *. set (rest := drop RECOMPUTE_CHUNK HH ++ T).
  assert (B = rows ++ rest) as EB' by (subst rows rest; by rewrite app_assoc, take_drop). pose proof (draw_all_keys _ _ _ _ _ _ Hdr) as Hkeys. rewrite Er, EB' in Hs |- *. rewrite (store_page A rows rest rows' Hs Hkeys).
  exists rows, rest, rows', st. split_and!; [done|done|done|intros r Hr; apply HBl; rewrite EB'; apply elem_of_app; by left| |].
  - destruct (Nat.ltb_spec (length rows) RECOMPUTE_CHUNK) as [Hlen|Hlen].
    + assert (length HH ≤ RECOMPUTE_CHUNK)%nat as Hle by (subst rows; rewrite length_take in Hlen; lia). subst rest. rewrite (drop_ge HH) by done. cbn [app]. apply Hadv. rewrite Hkeys. subst rows. by rewrite take_ge.
    + rewrite El in Hs, Hkeys. eapply page_done; [exact Hs| |exact Hkeys]. intros r Hr. apply HBl. rewrite EB'. apply elem_of_app. by right.
  - destruct (Nat.ltb_spec (length rows) RECOMPUTE_CHUNK); [by left|right]. exists (key final). split_and!; [done| |rewrite El; by destruct init]. rewrite Forall_forall in HHl. assert (final ∈ HH) as Hf; [|specialize (HHl final Hf); cbn in *; lia].
    rewrite <- (take_drop RECOMPUTE_CHUNK HH). apply elem_of_app. left. fold rows. rewrite El. apply elem_of_app. right. left.
Qed.

Lemma split_unique P recs A B A' B' : split_at P recs A B → split_at P recs A' B' → A = A' ∧ B = B'.
Proof.
  assert (∀ A B, split_at P recs A B → A = List.filter P recs ∧ B = List.filter (λ r, negb (P r)) recs) as H; [|intros [-> ->]%H [-> ->]%H; done].
  intros A0 B0 (-> & HA & HB). rewrite !List.filter_app. split.
  - assert (List.filter P A0 = A0) as -> by (clear -HA; induction HA as [|x l Hx _ IH]; cbn; [done|by rewrite Hx, IH]). assert (List.filter P B0 = []) as -> by (clear -HB; induction HB as [|x l Hx _ IH]; cbn; [done|by rewrite Hx, IH]). by rewrite app_nil_r.
  - assert (List.filter (λ r, negb (P r)) A0 = []) as -> by (clear -HA; induction HA as [|x l Hx _ IH]; cbn; [done|by rewrite Hx, IH]). assert (List.filter (λ r, negb (P r)) B0 = B0) as -> by (clear -HB; induction HB as [|x l Hx _ IH]; cbn; [done|by rewrite Hx, IH]). done.
Qed.

Lemma draw_all_assigned ts st rows st' rows' : draw_all rate_on ts st rows = Some (st', rows') → ∀ r, r ∈ rows' → assignment_eqb (assignment r) unassigned = true ∨ ∃ t, t ∈ ts ∧ period_start t ≤ billing_date r.
Proof.
  revert st st' rows'. induction rows as [|x rows IH]; intros st st' rows' H r Hr; cbn in H; [injection H as <- <-; by apply not_elem_of_nil in Hr|]. apply bind_Some in H as ([st1 x'] & H1 & H). apply bind_Some in H as ([st2 rs] & H2 & [= <- <-]).
  apply elem_of_cons in Hr as [->|Hr]; [|by eapply IH]. pose proof (draw_record_spec _ _ _ _ _ _ H1) as [Hs _]. apply same_event_key in Hs as [_ Hb]. rewrite Hb. unfold draw_record in H1. destruct (best_commitment x ts) as [c|] eqn:Eb.
  - apply best_commitment_Some in Eb as (Hc & k & Hk & _). apply match_rank_covers in Hk as (_ & _ & Hk). right. exists c. split; [done|lia].
  - cbn in H1. injection H1 as _ <-. left. destruct (assignment_eqb (assignment x) unassigned) eqn:E; [done|apply assignment_eqb_refl].
Qed.

Lemma drawn_upto_page rn rn' recs recs' A rest rows rows' st :
  drawn_upto (passed rn) (run_terms rn) recs (run_states rn) → split_at (passed rn) recs A (rows ++ rest) → draw_all rate_on (run_terms rn) (run_states rn) rows = Some (st, rows') →
  split_at (passed rn') recs' (A ++ rows') rest → drawn_upto (passed rn') (run_terms rn) recs' st.
Proof.
  intros (A0 & B0 & Hsp0 & Hd0) Hsp Hdr Hsp'. destruct (split_unique _ _ _ _ _ _ Hsp0 Hsp) as [-> _]. exists (A ++ rows'), rest. split; [done|]. rewrite draw_all_app, Hd0. cbn [mbind option_bind]. apply draw_all_idem in Hdr as [_ ->]. done.
Qed.

(** Records before [w] do not change *)
Lemma drawn_upto_later w ts st A rows rows' rest : (∀ r, r ∈ rows → w ≤ event_time r) → key <$> rows' = key <$> rows → StronglySorted key_lt (A ++ rows ++ rest) →
  drawn_upto (λ r, event_time r <? w) ts (A ++ rows ++ rest) st → drawn_upto (λ r, event_time r <? w) ts (A ++ rows' ++ rest) st.
Proof.
  intros Hw Hkeys Hs (A0 & B0 & Hsp & Hd). assert (Forall (λ r, w ≤ event_time r) rows') as Hw' by (apply (Forall_keys (λ k, w ≤ k.1) rows rows' Hkeys); by apply Forall_forall).
  destruct rows as [|x rows]; [apply fmap_nil_inv in Hkeys as ->; exists A0, B0; split; [exact Hsp|exact Hd]|].
  apply sorted_app_inv in Hs as (HsA & Hs2 & Hs3). destruct (sorted_prefix _ A (past_before w) HsA) as (A1 & A2 & (EA & HA1 & HA2) & _). assert (Forall (λ r, (event_time r <? w) = false) ((x :: rows) ++ rest)) as Hrest.
  { apply StronglySorted_inv in Hs2 as [_ Hs2]. specialize (Hw x ltac:(left)). constructor; [lia|]. eapply Forall_impl; [exact Hs2|]. intros y Hy. apply key_ltb_spec in Hy. cbn in Hy. lia. }
  assert (split_at (λ r, event_time r <? w) (A ++ (x :: rows) ++ rest) A1 (A2 ++ (x :: rows) ++ rest)) as Hsp' by (split_and!; [by rewrite EA, <- app_assoc|done|by apply Forall_app]). destruct (split_unique _ _ _ _ _ _ Hsp Hsp') as [-> _].
  exists A1, (A2 ++ rows' ++ rest). split; [|done]. split_and!; [by rewrite EA, <- app_assoc|done|]. apply Forall_app. split; [done|]. apply Forall_app. split; [eapply Forall_impl; [exact Hw'|]; cbn; lia|by apply Forall_app in Hrest as [_ Hrest]].
Qed.

Lemma page_ok l rn rn' recs : inv l → run l = Some rn → run_days rn ≠ [] → replay_page rate_on day_start rn (records l) = Some (rn', recs) → inv {| commitments := commitments l; records := recs; run := Some rn'; now := now l |}.
Proof.
  intros [Hc [Hs Hbill Hasg] Hrun Hset] Er Hne H. pose proof (Hrun rn Er) as Hok. destruct (run_days rn) as [|d days] eqn:Ed; [done|]. destruct (sorted_prefix _ _ (past_passed rn) Hs) as (A & B & Hsp & _).
  destruct (replay_page_spec l rn rn' recs d days A B Hok Ed Hs Hsp H) as (rows & rest & rows' & st & EB & -> & Hdr & Hlow & Hsp' & Hrn). pose proof (draw_all_keys _ _ _ _ _ _ Hdr) as Hkeys. pose proof Hsp as (ER & HA & _). rewrite EB in ER, Hsp. pose proof (window_ok l rn d days Hok Ed) as [[Hw _] _].
  assert (run_terms rn' = run_terms rn ∧ run_full rn' = run_full rn ∧ run_start rn' = run_start rn ∧ run_through rn' = run_through rn ∧ run_states rn' = st) as (E1 & E2 & E3 & E4 & E5) by (destruct Hrn as [->|(k & -> & _)]; done).
  split; cbn; [done| | |].
  - pose proof (draw_all_assigned _ _ _ _ _ Hdr) as Hda. apply draw_all_idem in Hdr as [Hf _]. split; cbn.
    + apply (keys_sorted (records l)); [|done]. rewrite ER, !fmap_app. by rewrite Hkeys.
    + intros r Hr. rewrite !elem_of_app in Hr. destruct Hr as [Hr|[Hr|Hr]]; [apply Hbill; rewrite ER, !elem_of_app; by left| |apply Hbill; rewrite ER, !elem_of_app; by right; right].
      apply list_elem_of_lookup in Hr as (i & Hi). destruct (Forall2_lookup_r _ _ _ _ _ Hf Hi) as (x & Hx & Hxr). apply same_event_key in Hxr as [Hk Hb]. assert (billing_date x = billing_date_of (event_time x)) as Hx'; [|unfold key in Hk; congruence].
      apply Hbill. rewrite ER, !elem_of_app. right; left. by eapply list_elem_of_lookup_2.
    + intros r Hr. rewrite !elem_of_app in Hr. destruct Hr as [Hr|[Hr|Hr]]; [apply Hasg; rewrite ER, !elem_of_app; by left| |apply Hasg; rewrite ER, !elem_of_app; by right; right].
      destruct (Hda r Hr) as [?|(t & Ht & Hp)]; [by left|right]. destruct (ro_terms _ _ Hok t Ht) as (c & Hcin & Hcp). exists c. split; [done|lia].
  - intros rn0 [= <-]. pose proof Hok as [H1 H2 H3 H4 H5]. split; rewrite ?E1, ?E2, ?E3, ?E4; try done.
    + destruct Hrn as [->|(k & -> & Hk & _)]; [by apply (next_day_ok l rn d days st)|]. cbn. rewrite Ed in H2. destruct H2 as (? & ? & ? & _). split_and!; try done; [lia|lia|]. intros k' [= <-]. done.
    + intros Hcl Hact. destruct (H5 Hcl Hact) as (T1 & T2 & T3 & T4). split_and!; try done. rewrite E5. by eapply drawn_upto_page.
  - intros Hst. destruct (Hset Hst) as (w & st0 & Hw1 & Hw2 & Hw3 & Hw4). exists w, st0. split_and!; try done. destruct Hst as (Hcl & Hact & Hsome). rewrite ER in Hw3, Hs. apply drawn_upto_later with rows; [|done|done|done].
    destruct (run_full rn) eqn:Ef.
    + exfalso. destruct (active (commitments l)) as [|c cs0] eqn:Ea; [done|]. apply (Hsome c ltac:(left)). apply (ro_full _ _ Hok Ef). rewrite Ea. left.
    + destruct (ro_clear _ _ Hok Hcl Hact) as (_ & _ & _ & Hwm). intros r Hr. specialize (Hlow r Hr). destruct (active (commitments l)) as [|c cs0] eqn:Ea; [done|]. assert (recomputed_through c = Some (run_start rn)) as Hcw by (apply Hwm; [done|left]). rewrite (Hw1 c ltac:(left)) in Hcw. injection Hcw as ->. lia.
Qed.

Lemma elem_active cs c : c ∈ active cs ↔ c ∈ cs ∧ c_active (terms c) = true.
Proof. unfold active. by rewrite list_elem_of_In, filter_In, <- list_elem_of_In. Qed.

(** A change of commitments that leaves them flagged, or none of them active *)
Definition carried (cs cs' : list SpendCommitment) : Prop :=
  (∀ c, c ∈ cs → ∃ c', c' ∈ cs' ∧ period_start (terms c') = period_start (terms c)) ∧
  (∀ c', c' ∈ active cs' → recomputed_through c' = None ∨ ∃ c, c ∈ active cs ∧ recomputed_through c' = recomputed_through c).

Lemma inv_flagged l l' : inv l → commitments_ok (commitments l') → records_ok l' → run l' = run l → carried (commitments l) (commitments l') →
  flagged (commitments l') = true ∨ active (commitments l') = [] → inv l'.
Proof.
  intros [Hc Hr Hrun Hset] Hc' Hr' Erun [Hk1 Hk2] Hf. split; [done|done| |by intros (Hcl & Hact & _); destruct Hf; congruence].
  intros rn Ern. rewrite Erun in Ern. destruct (Hrun rn Ern) as [H1 H2 H3 H4 H5]. split; [done|done| | |by intros Hcl Hact; destruct Hf; congruence].
  - intros Hfull c' Hc1. destruct (Hk2 c' Hc1) as [?|(c & Hcin & ->)]; [done|by apply H3].
  - intros t Ht. destruct (H4 t Ht) as (c & Hcin & Ec). destruct (Hk1 c Hcin) as (c' & Hc1 & Ec'). exists c'. split; [done|congruence].
Qed.

Lemma assigned_carried cs cs' r : carried cs cs' → assigned_ok cs r → assigned_ok cs' r.
Proof. intros [Hk _] [?|(c & Hc & Hp)]; [by left|right]. destruct (Hk c Hc) as (c' & Hc' & E). exists c'. split; [done|lia]. Qed.

Lemma carried_refl cs : carried cs cs.
Proof. split; [intros c Hc; by exists c|]. intros c Hc. right. by exists c. Qed.

Lemma mark_terms after only cs : terms <$> mark_commitments_for_replay after only cs = terms <$> cs.
Proof. unfold mark_commitments_for_replay. induction cs as [|c cs IH]; cbn; [done|]. by destruct (to_mark _ _ c); cbn; f_equal. Qed.

Lemma mark_carried after only cs : carried cs (mark_commitments_for_replay after only cs).
Proof.
  split.
  - intros c Hc. exists (if to_mark after only c then mark c else c). split; [apply list_elem_of_fmap; by exists c|]. by destruct (to_mark _ _ _).
  - intros c' Hc'. apply elem_active in Hc' as [Hc' Ha]. apply list_elem_of_fmap in Hc' as (c & -> & Hc). right. exists c. rewrite elem_active. destruct (to_mark _ _ _); by split_and!.
Qed.

(** A mark either asks for a replay or finds nothing to mark *)
Lemma mark_cases after only cs : flagged (mark_commitments_for_replay after only cs) = true ∨ mark_commitments_for_replay after only cs = cs ∧ ∀ c, c ∈ cs → to_mark after only c = false.
Proof.
  unfold mark_commitments_for_replay. induction cs as [|c cs [IH|[IH1 IH2]]]; [right; split; [done|]; by intros c Hc%not_elem_of_nil| |].
  - left. cbn. apply orb_true_iff. by right.
  - cbn. destruct (to_mark after only c) eqn:E; [by left|]. right. rewrite IH1. split; [done|]. intros x [->|Hx]%elem_of_cons; auto.
Qed.

Lemma mark_ok after only cs : commitments_ok cs → commitments_ok (mark_commitments_for_replay after only cs).
Proof. intros H. by apply (commitments_step_ok cs), step_mark. Qed.

Lemma drawn_upto_insert P ts recs st r : past P → drawn_upto P ts recs st → (P r = true → (∀ t, t ∈ ts → match_rank r t = None) ∧ assignment_eqb (assignment r) unassigned = true) → drawn_upto P ts (insert_record r recs) st.
Proof.
  intros HP (A & B & (-> & HA & HB) & Hd) Hr. destruct (P r) eqn:E.
  - destruct (Hr eq_refl) as [H1 H2]. exists (insert_record r A), B. rewrite (insert_low P) by done. split; [split_and!; [done|by apply Forall_insert|done]|by apply draw_all_insert].
  - exists A, (insert_record r B). rewrite (insert_high P) by done. split; [split_and!; [done|done|by apply Forall_insert]|done].
Qed.

Lemma write_records_ok l r : records_ok l → assignment r = unassigned → billing_date r = billing_date_of (event_time r) → key r ∉ key <$> records l → records_ok (write_event l r).
Proof.
  intros [Hs Hb Ha] Hu Hbr Hk. split; cbn [write_event records commitments].
  - by apply insert_sorted.
  - intros x Hx. rewrite insert_record_perm in Hx. apply elem_of_cons in Hx as [->|Hx]; auto.
  - intros x Hx. rewrite insert_record_perm in Hx. apply elem_of_cons in Hx as [->|Hx]; [left; rewrite Hu; apply assignment_eqb_refl|]. destruct (_ <? _); [|by apply Ha]. eapply assigned_carried; [apply mark_carried|by apply Ha].
Qed.

(** A record that no mark answers for: it is ahead of every watermark and walk, or before every period *)
Lemma write_quiet l r : inv l → (∀ c, c ∈ commitments l → event_time r < now l - APPEND_GRACE → to_mark (Some (event_time r)) None c = false) → behind_append day_start l r = false →
  billing_date r = billing_date_of (event_time r) → flagged (commitments l) = false → active (commitments l) ≠ [] →
  (∀ rn, run l = Some rn → passed rn r = true → billing_date r < first_start (commitments l)) ∧
  (∀ w, (∀ c, c ∈ active (commitments l) → recomputed_through c = Some w) → w ≤ horizon l → event_time r < w → billing_date r < first_start (commitments l)).
Proof.
  intros Hinv Hmark Hbehind Hb Hcl Hact. destruct (active (commitments l)) as [|c cs0] eqn:Ea; [done|]. assert (c ∈ active (commitments l)) as Hc by (rewrite Ea; left). rewrite <- Ea in *. clear Ea. pose proof Hc as Hc'. apply elem_active in Hc' as [Hin Hca]. specialize (Hmark c Hin).
  unfold to_mark in Hmark. rewrite Hca in Hmark. cbn [andb] in Hmark. rewrite andb_true_r in Hmark. rewrite Hb. split.
  - intros rn Er Hp. pose proof (i_run l Hinv rn Er) as Hok. pose proof (passed_through l rn r Hok Hp) as Ht. destruct (ro_clear _ _ Hok Hcl Hact) as (_ & _ & Hh & Hw). apply before_day. unfold horizon in Hh.
    destruct (Z_lt_le_dec (event_time r) (now l - APPEND_GRACE)) as [Hlate|]; [exfalso|lia]. specialize (Hmark Hlate). unfold behind_append in Hbehind. rewrite Er, Hp, andb_true_r in Hbehind. destruct (run_full rn) eqn:Ef.
    + by rewrite (ro_full _ _ Hok Ef c Hc) in Hmark.
    + rewrite (Hw eq_refl c Hc) in Hmark. cbn in Hbehind. lia.
  - intros w Hw Hh Ht. apply before_day. unfold horizon in Hh. destruct (Z_lt_le_dec (event_time r) (now l - APPEND_GRACE)) as [Hlate|]; [exfalso|lia]. specialize (Hmark Hlate). rewrite (Hw c Hc) in Hmark. lia.
Qed.

Lemma write_ok l r : inv l → assignment r = unassigned → billing_date r = billing_date_of (event_time r) → key r ∉ key <$> records l → behind_append day_start l r = false → inv (write_event l r).
Proof.
  intros Hinv Hu Hb Hk Hbehind. pose proof (write_records_ok l r (i_records l Hinv) Hu Hb Hk) as Hr'. destruct (flagged (commitments (write_event l r))) eqn:Ef.
  { apply (inv_flagged l); try done; [| |by left]; cbn [write_event commitments]; destruct (_ <? _); [apply mark_ok, Hinv|apply Hinv|apply mark_carried|apply carried_refl]. }
  assert (commitments (write_event l r) = commitments l ∧ ∀ c, c ∈ commitments l → event_time r < now l - APPEND_GRACE → to_mark (Some (event_time r)) None c = false) as [Ec Hmark].
  { cbn [write_event commitments] in *. destruct (Z.ltb_spec (event_time r) (now l - APPEND_GRACE)); [|split; [done|lia]]. destruct (mark_cases (Some (event_time r)) None (commitments l)) as [?|[E1 E2]]; [congruence|]. split; [done|]. intros c Hc _. by apply E2. }
  rewrite Ec in Ef. pose proof (write_quiet l r Hinv Hmark Hbehind Hb Ef) as Hq. assert (horizon (write_event l r) = horizon l) as Eh by (unfold horizon; by rewrite Ec). destruct Hinv as [Hc Hr Hrun Hset]. split; rewrite ?Ec; [done|done| |].
  - intros rn Er. destruct (Hrun rn Er) as [H1 H2 H3 H4 H5]. split; rewrite ?Ec, ?Eh; try done. intros _ Hact. destruct (H5 Ef Hact) as (T1 & T2 & T3 & T4). split_and!; try done. apply drawn_upto_insert; [apply past_passed|done|]. intros Hp.
    split; [rewrite <- T1; apply early_inert; by eapply (proj1 (Hq Hact))|rewrite Hu; apply assignment_eqb_refl].
  - intros Hst. destruct (Hset Hst) as (w & st & W1 & W2 & W3 & W4). exists w, st. rewrite Eh. split_and!; try done. apply drawn_upto_insert; [apply past_before|done|]. cbn. intros Hp. destruct Hst as (_ & Hact & _).
    split; [apply early_inert; eapply (proj2 (Hq Hact)); [exact W1|exact W2|lia]|rewrite Hu; apply assignment_eqb_refl].
Qed.

(** ** Commitments and prices change *)

Lemma records_ok_carried l cs : records_ok l → carried (commitments l) cs → records_ok (with_commitments l cs).
Proof. intros [H1 H2 H3] Hk. split; [done|done|]. intros r Hr. eapply assigned_carried; [exact Hk|by apply H3]. Qed.

Lemma create_inv l id b cs : inv l → id ∉ (c_id ∘ terms) <$> commitments l → create_commitment (commitments l) id b = Ok cs → inv (with_commitments l cs).
Proof.
  intros Hinv Hid H. assert (commitments_ok cs) as Hok by (eapply create_commitment_ok; [apply Hinv|done|done]). unfold create_commitment in H. apply bind_Ok in H as (t & Ht & H). apply bind_Ok in H as ([] & _ & [= <-]). set (c := {| terms := t |}) in *.
  assert (∀ x, x ∈ insert_commitment c (commitments l) ↔ x = c ∨ x ∈ commitments l) as Hin by (intros x; by rewrite insert_commitment_perm, elem_of_cons). assert (carried (commitments l) (insert_commitment c (commitments l))) as Hk.
  { split; [intros x Hx; exists x; split; [apply Hin; by right|done]|]. intros x Hx. apply elem_active in Hx as [Hx Ha]. apply Hin in Hx as [->|Hx]; [by left|right]. exists x. by rewrite elem_active. }
  apply (inv_flagged l); [done|done|by apply records_ok_carried; [apply Hinv|]|done|done|left]. apply existsb_exists. exists c. split; [|done]. apply list_elem_of_In, Hin. by left.
Qed.

Lemma update_inv l id e close ref cs : inv l → update_commitment (commitments l) id e close ref = Ok cs → inv (with_commitments l cs).
Proof.
  intros Hinv H. assert (commitments_ok cs) as Hok by (eapply update_commitment_ok; [apply Hinv|done]). unfold update_commitment in H. apply bind_Ok in H as (c & Hc & H). apply of_option_Ok, find_commitment_spec in Hc as [Hc Hid]. cbn zeta in H.
  apply bind_Ok in H as ([] & _ & H). apply bind_Ok in H as ([] & _ & H). destruct (_ && _ && _); [injection H as <-; by destruct l|]. injection H as <-. set (t' := with_terms _ _ _ _) in *. set (f := λ o, if c_id (terms o) =? id then _ else o) in *.
  assert (∀ o, o ∈ commitments l → period_start (terms (f o)) = period_start (terms o) ∧ (c_active (terms (f o)) = true → c_active (terms o) = true) ∧ recomputed_through (f o) = recomputed_through o) as Hf.
  { intros o Ho. subst f. cbn beta. destruct (Z.eqb_spec (c_id (terms o)) id) as [E|]; [|done]. assert (o = c) as -> by (eapply same_id; [apply Hinv|done|done|congruence]). cbn. split_and!; [done| |done]. by intros [? _]%andb_true_iff. }
  assert (carried (commitments l) (map f (commitments l))) as Hk.
  { split; [intros x Hx; exists (f x); split; [apply list_elem_of_fmap; by exists x|by apply Hf]|]. intros x Hx. apply elem_active in Hx as [Hx Ha]. apply list_elem_of_fmap in Hx as (o & -> & Ho). right. exists o. rewrite elem_active. destruct (Hf o Ho) as (_ & ? & ?). auto. }
  apply (inv_flagged l); [done|done|by apply records_ok_carried; [apply Hinv|]|done|done|left]. apply existsb_exists. exists (f c). split; [apply in_map; by apply list_elem_of_In|]. subst f. cbn beta. by rewrite Hid, Z.eqb_refl.
Qed.

(** A change of prices keeps what places a record *)
Definition keeps_event (f : SpendUsageRecord → SpendUsageRecord) : Prop := ∀ r, key (f r) = key r ∧ billing_date (f r) = billing_date r ∧ assignment (f r) = assignment r.

Lemma repriced_keeps k a cur inr : keeps_event (repriced k a cur inr).
Proof. intros r. unfold repriced. by destruct (bool_decide _). Qed.
Lemma settled_keeps k inr : keeps_event (settled_inr k inr).
Proof. intros r. apply repriced_keeps. Qed.

Lemma map_keys f l : keeps_event f → key <$> map f l = key <$> l.
Proof. intros Hf. induction l as [|r l IH]; cbn; [done|]. rewrite IH. by rewrite (proj1 (Hf r)). Qed.

Lemma map_records_ok l f cs : keeps_event f → carried (commitments l) cs → records_ok l → records_ok {| commitments := cs; records := map f (records l); run := run l; now := now l |}.
Proof.
  intros Hf Hk [H1 H2 H3]. split; cbn.
  - apply (keys_sorted (records l)); [by apply map_keys|done].
  - intros x Hx. apply list_elem_of_fmap in Hx as (r & -> & Hr). destruct (Hf r) as (E1 & -> & _). rewrite (H2 r Hr). unfold key in E1. congruence.
  - intros x Hx. apply list_elem_of_fmap in Hx as (r & -> & Hr). eapply assigned_carried; [exact Hk|]. destruct (Hf r) as (_ & E2 & E3). destruct (H3 r Hr) as [H|(c & Hc & Hp)]; [left; by rewrite E3|right]. exists c. by rewrite E2.
Qed.

Lemma restate_inv l k a cur inr : inv l → inv (restate l k a cur inr).
Proof.
  intros Hinv. apply (inv_flagged l); [done|apply mark_ok, Hinv|apply map_records_ok; [apply repriced_keeps|apply mark_carried|apply Hinv]|done|apply mark_carried|]. cbn [restate commitments].
  destruct (mark_cases None None (commitments l)) as [?|[-> Hm]]; [by left|right]. destruct (active (commitments l)) as [|c cs] eqn:E; [done|]. assert (c ∈ active (commitments l)) as Hc by (rewrite E; left). apply elem_active in Hc as [Hc Ha]. specialize (Hm c Hc). unfold to_mark in Hm. by rewrite Ha in Hm.
Qed.

Lemma drawn_upto_settled P ts recs st k inr : (∀ t, t ∈ ts → kind t = by_quantity) → (∀ r r', key r = key r' → P r = P r') → drawn_upto P ts recs st → drawn_upto P ts (map (settled_inr k inr) recs) st.
Proof.
  intros Hq HP (A & B & (-> & HA & HB) & Hd). exists (map (settled_inr k inr) A), (map (settled_inr k inr) B). split; [|by apply draw_all_settled].
  split_and!; [apply map_app| |]; apply Forall_fmap; [eapply Forall_impl; [exact HA|]|eapply Forall_impl; [exact HB|]]; intros r Hr; cbn; rewrite (HP _ r); try done; apply settled_keeps.
Qed.

Lemma passed_key rn r r' : key r = key r' → passed rn r = passed rn r'.
Proof. intros E. unfold SpendReplay.passed. assert (event_time r = event_time r') as -> by (unfold key in E; congruence). by rewrite E. Qed.

Lemma settle_inv l k inr : inv l → inv (settle_rates l k inr).
Proof.
  intros Hinv. assert (records_ok (settle_rates l k inr)) as Hrec by (apply map_records_ok; [apply settled_keeps|apply mark_carried|apply Hinv]). destruct (flagged (commitments (settle_rates l k inr))) eqn:Ef; [apply (inv_flagged l); try done; [apply mark_ok, Hinv|apply mark_carried|by left]|].
  destruct (mark_cases None (Some by_money) (commitments l)) as [?|[Ec Hm]]; [cbn [settle_rates commitments] in Ef; congruence|]. assert (∀ t, t ∈ terms <$> active (commitments l) → kind t = by_quantity) as Hq.
  { intros t Ht. apply list_elem_of_fmap in Ht as (c & -> & Hc). apply elem_active in Hc as [Hc Ha]. specialize (Hm c Hc). unfold to_mark in Hm. rewrite Ha in Hm. cbn [andb] in Hm. apply bool_decide_eq_false in Hm. by destruct (kind (terms c)). }
  assert (commitments (settle_rates l k inr) = commitments l) as Ec' by done. assert (horizon (settle_rates l k inr) = horizon l) as Eh by (unfold horizon; by rewrite Ec'). destruct Hinv as [Hc Hr Hrun Hset]. split; rewrite ?Ec'; [done|done| |].
  - intros rn Er. destruct (Hrun rn Er) as [H1 H2 H3 H4 H5]. split; rewrite ?Ec', ?Eh; try done. intros Hcl Hact. destruct (H5 Hcl Hact) as (T1 & T2 & T3 & T4). split_and!; try done. apply drawn_upto_settled; [by rewrite <- T1|apply passed_key|done].
  - intros Hst. destruct (Hset Hst) as (w & st & W1 & W2 & W3 & W4). exists w, st. rewrite Eh. split_and!; try done. apply drawn_upto_settled; [done| |done]. intros r r' E. unfold key in E. cbn. by injection E as -> _.
Qed.

(** ** Beginning and ending *)

Lemma date_mono t t' : t ≤ t' → billing_date_of t ≤ billing_date_of t'.
Proof. intros H. destruct (Z_le_gt_dec (billing_date_of t) (billing_date_of t')) as [|Hgt]; [done|exfalso]. pose proof (proj2 (before_day t' (billing_date_of t)) ltac:(lia)). pose proof (date_bounds t). lia. Qed.

(** A new run has passed exactly what is before its window *)
Lemma begun_ok full ts st start through rn : start ≤ through →
  rn = {| run_full := full; run_terms := ts; run_states := st; run_start := start; run_through := through; run_days := if through <=? start then [] else _billing_days billing_date_of start through; run_last := None |} →
  match run_days rn with
  | [] => True
  | d :: days => run_start rn < run_through rn ∧ billing_date_of (run_start rn) ≤ d ≤ billing_date_of (run_through rn - 1) ∧ days = seqZ (d + 1) (billing_date_of (run_through rn - 1) - d) ∧
      ∀ k : Z * Z, run_last rn = Some k → k.1 < high rn d
  end ∧ ∀ r, passed rn r = (event_time r <? start).
Proof.
  intros Hle ->. unfold SpendReplay.passed, SpendReplay.low. cbn [run_days run_start run_through run_last]. destruct (Z.leb_spec through start) as [Hge|Hlt]; [split; [done|]; intros r; f_equal; lia|].
  unfold _billing_days. pose proof (date_mono start (through - 1) ltac:(lia)) as Hm. rewrite seqZ_cons by lia. split; [split_and!; [lia|lia|lia|f_equal; lia|done]|]. intros r. rewrite orb_false_r. pose proof (date_bounds start). f_equal. lia.
Qed.

Lemma drawn_upto_ext P P' ts recs st : (∀ r, P r = P' r) → drawn_upto P' ts recs st → drawn_upto P ts recs st.
Proof. intros E (A & B & (-> & HA & HB) & Hd). exists A, B. split; [|done]. split_and!; [done| |]; eapply Forall_impl; [exact HA| |exact HB|]; intros r Hr; cbn; by rewrite E. Qed.

Lemma cleared_active cs : active (map cleared cs) = map cleared (active cs).
Proof. unfold active. induction cs as [|c cs IH]; cbn; [done|]. change (c_active (terms (cleared c))) with (c_active (terms c)). destruct (c_active (terms c)); cbn; by rewrite IH. Qed.

Lemma cleared_terms cs : terms <$> map cleared cs = terms <$> cs.
Proof. induction cs as [|c cs IH]; cbn; [done|]. by rewrite IH. Qed.

(** Nothing is drawn before every period *)
Lemma nothing_drawn l : records_ok l → drawn_upto (λ r, event_time r <? day_start (first_start (commitments l))) (terms <$> active (commitments l)) (records l) (start_states (terms <$> active (commitments l))).
Proof.
  intros [Hs Hb Ha]. destruct (sorted_prefix _ _ (past_before (day_start (first_start (commitments l)))) Hs) as (A & B & Hsp & _). exists A, B. split; [done|]. apply draw_all_inert. destruct Hsp as (ER & HA & _). rewrite Forall_forall in HA |- *. intros r Hr. specialize (HA r Hr). cbn in HA.
  assert (r ∈ records l) as Hin by (rewrite ER; apply elem_of_app; by left). assert (billing_date r < first_start (commitments l)) as Hlt by (rewrite (Hb r Hin); apply before_day; lia). split; [by apply early_inert|by apply (early_unassigned (commitments l)); [|apply Ha]].
Qed.

Lemma full_inv l rn : inv l → run l = None → run_full rn = true → run_terms rn = terms <$> active (commitments l) → run_states rn = start_states (terms <$> active (commitments l)) →
  run_start rn ≤ run_through rn ≤ horizon l → run_start rn = day_start (first_start (commitments l)) → run_days rn = (if run_through rn <=? run_start rn then [] else _billing_days billing_date_of (run_start rn) (run_through rn)) → run_last rn = None →
  inv {| commitments := map cleared (commitments l); records := records l; run := Some rn; now := now l |}.
Proof.
  intros [Hc Hr Hrun Hset] _ Ef Et Est Hw Es Ed El. destruct (begun_ok (run_full rn) (run_terms rn) (run_states rn) (run_start rn) (run_through rn) rn ltac:(lia)) as [Hd Hp]; [destruct rn; cbn in *; by subst|].
  assert (∀ c, c ∈ active (map cleared (commitments l)) → recomputed_through c = None) as Hnone. { intros c Hc0. rewrite cleared_active in Hc0. apply list_elem_of_fmap in Hc0 as (o & -> & Ho). apply elem_active in Ho as [_ Ho]. cbn. by rewrite Ho. }
  assert (first_start (map cleared (commitments l)) = first_start (commitments l)) as Efs. { unfold first_start. rewrite !list_fmap_compose. by rewrite cleared_terms. }
  split; cbn [commitments records run now].
  - apply map_ok; [done|done|intros c Hin; exact (ok_shape _ Hc c Hin)|intros a b Ha Hb; exact (ok_disjoint _ Hc a b Ha Hb)].
  - destruct Hr as [R1 R2 R3]. split; cbn; [done|done|]. intros r Hr0. destruct (R3 r Hr0) as [?|(c & Hcin & Hcp)]; [by left|right]. exists (cleared c). split; [apply list_elem_of_fmap; by exists c|done].
  - intros rn0 [= <-]. split; cbn [commitments records now]; [lia|done|done| |].
    + intros t Ht. rewrite Et in Ht. apply list_elem_of_fmap in Ht as (c & -> & Hcin). apply elem_active in Hcin as [Hcin _]. exists (cleared c). split; [apply list_elem_of_fmap; by exists c|done].
    + intros _ _. rewrite cleared_active, cleared_terms. split_and!; [done| | |congruence]; [|unfold horizon in *; cbn [commitments now]; rewrite Efs; lia]. apply (drawn_upto_ext _ _ _ _ _ Hp). rewrite Et, Est, Es. by apply nothing_drawn.
  - intros (_ & Hact & Hsome). exfalso. destruct (active (map cleared (commitments l))) as [|c cs] eqn:E; [done|]. apply (Hsome c ltac:(left)). apply Hnone. left.
Qed.

Lemma stored_states_eq cs st : NoDup ((c_id ∘ terms) <$> cs) → (∀ i, is_Some (st !! i) ↔ is_Some (start_states (terms <$> cs) !! i)) → (∀ c, c ∈ cs → st !! c_id (terms c) = Some (drawn c)) → stored_states cs = st.
Proof.
  intros Hnd Hdom Hst. apply map_eq. intros i. destruct (st !! i) as [s|] eqn:E.
  - assert (is_Some (start_states (terms <$> cs) !! i)) as [s0 H0] by (apply Hdom; by rewrite E). apply elem_of_list_to_map_2, list_elem_of_fmap in H0 as (t & [= -> ->] & Ht). apply list_elem_of_fmap in Ht as (c & -> & Hc). rewrite (Hst c Hc) in E. injection E as <-.
    apply elem_of_list_to_map_1; [rewrite <- list_fmap_compose; exact Hnd|]. apply list_elem_of_fmap. by exists c.
  - apply not_elem_of_list_to_map_1. rewrite <- list_fmap_compose. intros Hin. apply list_elem_of_fmap in Hin as (c & -> & Hc). cbn in E. rewrite (Hst c Hc) in E. done.
Qed.

Lemma active_ids cs : NoDup ((c_id ∘ terms) <$> cs) → NoDup ((c_id ∘ terms) <$> active cs).
Proof. intros H. eapply sublist_NoDup; [exact H|]. unfold active. clear. induction cs as [|c cs IH]; cbn; [constructor|]. destruct (c_active _); cbn; by constructor. Qed.

Lemma append_watermark cs w : active cs ≠ [] → (∀ c, c ∈ active cs → recomputed_through c = Some w) → minimum (omap recomputed_through (active cs)) = w.
Proof.
  intros Hne Hw. assert (omap recomputed_through (active cs) ≠ []) as Hne'. { destruct (active cs) as [|c l]; [done|]. cbn. by rewrite (Hw c ltac:(left)). }
  apply minimum_elem, list_elem_of_omap in Hne' as (c & Hc & E). rewrite (Hw c Hc) in E. congruence.
Qed.

Lemma begin_inv l cs rn : inv l → run l = None → begin_recompute billing_date_of day_start (commitments l) (now l) = Some (cs, rn) → inv {| commitments := cs; records := records l; run := Some rn; now := now l |}.
Proof.
  intros Hinv Hno H. unfold begin_recompute in H. destruct (negb (existsb _ (active (commitments l))) && _) eqn:Enone; [done|]. destruct (flagged (commitments l) || _) eqn:Efull; injection H as <- <-.
  - apply full_inv; try done. cbn [run_start run_through]. unfold horizon, first_start. lia.
  - apply orb_false_iff in Efull as [Hcl Hall]. rewrite Hcl in Enone. cbn [negb] in Enone. rewrite andb_true_r in Enone. assert (active (commitments l) ≠ []) as Hact by (intros E; by rewrite E in Enone). pose proof Hinv as [Hc Hr Hrun Hset].
    assert (settled (commitments l)) as Hst. { split_and!; [done|done|]. intros c Hc0 E. apply not_true_iff_false in Hall. apply Hall. apply existsb_exists. exists c. split; [by apply list_elem_of_In|by rewrite E]. }
    destruct (Hset Hst) as (w & st & W1 & W2 & W3 & W4). rewrite (append_watermark _ w Hact W1). assert (stored_states (active (commitments l)) = st) as ->.
    { apply stored_states_eq; [apply active_ids, Hc| |done]. destruct W3 as (A & B & _ & Hd). exact (draw_all_dom _ _ _ _ _ _ Hd). }
    set (rn := {| run_full := false |}). destruct (begun_ok false (terms <$> active (commitments l)) st w (Z.max w (now l - APPEND_GRACE)) rn ltac:(lia) eq_refl) as [Hd Hp]. split; cbn [commitments records run now]; [done| | |done].
    + by destruct Hr.
    + intros rn0 [= <-]. split; cbn [commitments records now]; [cbn; lia|done|done| |].
      * intros t Ht. cbn in Ht. apply list_elem_of_fmap in Ht as (c & -> & Hcin). apply elem_active in Hcin as [Hcin _]. by exists c.
      * intros _ _. split_and!; [done|by apply (drawn_upto_ext _ _ _ _ _ Hp)| |by intros _]. cbn [rn run_through]. unfold horizon in *. cbn [commitments now]. lia.
Qed.

Lemma finish_one_terms rn c : terms (finish_one rn c) = terms c ∧ needs_full_recompute (finish_one rn c) = needs_full_recompute c.
Proof. unfold finish_one. by destruct (_ !! _). Qed.

Lemma finish_terms rn cs : terms <$> map (finish_one rn) cs = terms <$> cs.
Proof. induction cs as [|c cs IH]; cbn; [done|]. by rewrite (proj1 (finish_one_terms rn c)), IH. Qed.

Lemma finish_active rn cs : active (map (finish_one rn) cs) = map (finish_one rn) (active cs).
Proof. unfold active. induction cs as [|c cs IH]; cbn; [done|]. rewrite (proj1 (finish_one_terms rn c)). destruct (c_active (terms c)); cbn; by rewrite IH. Qed.

Lemma finish_flagged rn cs : flagged (map (finish_one rn) cs) = flagged cs.
Proof. unfold flagged. induction cs as [|c cs IH]; cbn; [done|]. by rewrite (proj2 (finish_one_terms rn c)), IH. Qed.

(** The walk of an unflagged provider has a drawdown for every active commitment *)
Lemma finish_one_active l rn c : inv l → run l = Some rn → flagged (commitments l) = false → c ∈ active (commitments l) →
  ∃ s, run_states rn !! c_id (terms c) = Some s ∧ finish_one rn c = {| terms := terms c; drawn := s; recomputed_through := Some (run_through rn); needs_full_recompute := needs_full_recompute c |}.
Proof.
  intros Hinv Er Hcl Hc. assert (active (commitments l) ≠ []) as Hact by (intros E; rewrite E in Hc; by apply not_elem_of_nil in Hc). destruct (ro_clear _ _ (i_run l Hinv rn Er) Hcl Hact) as (T1 & (A & B & _ & Hd) & _ & _).
  assert (is_Some (run_states rn !! c_id (terms c))) as [s Es]; [|exists s; split; [done|]; unfold finish_one; by rewrite Es]. apply (draw_all_dom _ _ _ _ _ _ Hd). rewrite start_states_lookup; [done|]. rewrite <- T1. apply list_elem_of_fmap. by exists c.
Qed.

Lemma finish_inv l rn : inv l → run l = Some rn → run_days rn = [] → inv {| commitments := finish_recompute (commitments l) rn; records := records l; run := None; now := now l |}.
Proof.
  intros Hinv Er Ed. pose proof Hinv as [Hc Hr Hrun Hset]. unfold finish_recompute. split; cbn [commitments records run now]; [| |done|].
  - apply map_ok; [done|intros c; by rewrite (proj1 (finish_one_terms rn c))|intros c Hcin; rewrite (proj1 (finish_one_terms rn c)); by apply (ok_shape _ Hc)|]. intros a b Ha Hb. rewrite !(proj1 (finish_one_terms rn _)). by apply (ok_disjoint _ Hc).
  - destruct Hr as [R1 R2 R3]. split; cbn; [done|done|]. intros r Hr0. destruct (R3 r Hr0) as [?|(c & Hcin & Hcp)]; [by left|right]. exists (finish_one rn c). split; [apply list_elem_of_fmap; by exists c|by rewrite (proj1 (finish_one_terms rn c))].
  - intros (Hcl & Hact & _). rewrite finish_flagged in Hcl. assert (active (commitments l) ≠ []) as Hact' by (intros E; rewrite finish_active, E in Hact; done). destruct (ro_clear _ _ (Hrun rn Er) Hcl Hact') as (T1 & T2 & T3 & _). rewrite finish_active, finish_terms, T1.
    exists (run_through rn), (run_states rn). split_and!.
    + intros c' Hc'. apply list_elem_of_fmap in Hc' as (c & -> & Hcin). by destruct (finish_one_active l rn c Hinv Er Hcl Hcin) as (s & _ & ->).
    + unfold horizon in *. cbn [commitments now]. assert (first_start (map (finish_one rn) (commitments l)) = first_start (commitments l)) as ->; [|done]. unfold first_start. rewrite !list_fmap_compose. by rewrite finish_terms.
    + eapply drawn_upto_ext; [|exact T2]. intros r. unfold SpendReplay.passed. by rewrite Ed.
    + intros c' Hc'. apply list_elem_of_fmap in Hc' as (c & -> & Hcin). by destruct (finish_one_active l rn c Hinv Er Hcl Hcin) as (s & Es & ->).
Qed.

Lemma tick_inv l t : inv l → now l ≤ t → inv (tick l t).
Proof.
  intros [Hc [R1 R2 R3] Hrun Hset] Ht. assert (horizon l ≤ horizon (tick l t)) as Hh by (unfold horizon; cbn; lia). split; [done|by split| |].
  - intros rn Er. destruct (Hrun rn Er) as [H1 H2 H3 H4 H5]. split; try done. intros Hcl Hact. destruct (H5 Hcl Hact) as (T1 & T2 & T3 & T4). split_and!; try done. lia.
  - intros Hst. destruct (Hset Hst) as (w & st & W1 & W2 & W3 & W4). exists w, st. split_and!; try done. lia.
Qed.

Lemma ledger_step_inv l l' : inv l → step rate_on billing_date_of day_start true l l' → inv l'.
Proof.
  intros Hinv Hst. destruct Hst as [l t Ht|l r Hu Hb Hk Hq|l id b cs Hid H|l id e close ref cs H|l k a cur inr|l k inr|l cs rn Hno H|l rn rn' recs Er Hne H|l rn Er Ed|l].
  - by apply tick_inv.
  - apply write_ok; auto.
  - by eapply create_inv.
  - by eapply update_inv.
  - by apply restate_inv.
  - by apply settle_inv.
  - by apply begin_inv.
  - by eapply page_ok.
  - by apply finish_inv.
  - destruct Hinv as [Hc [R1 R2 R3] Hrun Hset]. by split; [|split| |].
Qed.

Lemma start_inv t : inv (start_ledger t).
Proof.
  split; cbn; [split; [constructor|intros c Hc; by apply not_elem_of_nil in Hc|intros a b Ha; by apply not_elem_of_nil in Ha]|split; cbn; [constructor|intros r Hr; by apply not_elem_of_nil in Hr|intros r Hr; by apply not_elem_of_nil in Hr]|done|by intros (_ & ? & _)].
Qed.

Lemma ledger_reachable_inv l : reachable rate_on billing_date_of day_start true l → inv l.
Proof. intros [t Hr]. pose proof (start_inv t) as H0. induction Hr as [|a b c Hab _ IH]; [done|]. apply IH. by eapply ledger_step_inv. Qed.

(** ** A recompute that nothing interrupts *)

Lemma draw_record_event ts st r r2 st' r' : same_event r r2 → draw_record rate_on ts st r = Some (st', r') → ∃ r2', draw_record rate_on ts st r2 = Some (st', r2').
Proof.
  intros ->%same_event_eq H. unfold draw_record in *. apply bind_Some in H as ([st1 a] & Hd & [= <- _]). eexists. transitivity ('(states, a0) ← Some (st1, a); Some (states, if assignment_eqb (assignment r2) a0 then assign (assignment r2) r else assign a0 (assign (assignment r2) r))); [by rewrite <- Hd|]. done.
Qed.

(** Whether a draw succeeds, and where it ends, does not depend on the assignments *)
Lemma draw_all_event ts st l l2 st' l' : Forall2 same_event l l2 → draw_all rate_on ts st l = Some (st', l') → ∃ l2', draw_all rate_on ts st l2 = Some (st', l2').
Proof.
  intros Hf. revert st st' l'. induction Hf as [|r r2 l l2 Hr _ IH]; intros st st' l' H; cbn in H; [injection H as <- <-; by exists []|]. apply bind_Some in H as ([st1 r'] & H1 & H). apply bind_Some in H as ([st2 rs] & H2 & [= <- <-]).
  destruct (draw_record_event _ _ _ _ _ _ Hr H1) as (r2' & E1). destruct (IH _ _ _ H2) as (l2' & E2). exists (r2' :: l2'). cbn. rewrite E1. cbn. by rewrite E2.
Qed.

Lemma same_event_refl l : Forall2 same_event l l.
Proof. induction l; constructor; done. Qed.

Definition drawable (ts : list Terms) (recs : list SpendUsageRecord) : Prop := draw_all rate_on ts (start_states ts) recs ≠ None.

Lemma drawable_page rn recs A rows rest : drawn_upto (passed rn) (run_terms rn) recs (run_states rn) → split_at (passed rn) recs A (rows ++ rest) → drawable (run_terms rn) recs → draw_all rate_on (run_terms rn) (run_states rn) rows ≠ None.
Proof.
  intros (A0 & B0 & Hsp0 & Hd0) Hsp Hall. destruct (split_unique _ _ _ _ _ _ Hsp0 Hsp) as [-> _]. destruct Hsp as (-> & _ & _). unfold drawable in Hall. rewrite draw_all_app, Hd0 in Hall. cbn [mbind option_bind] in Hall. rewrite draw_all_app in Hall. by destruct (draw_all rate_on _ _ rows).
Qed.

Lemma replay_window_ends fuel l rn A B : inv l → run l = Some rn → flagged (commitments l) = false → active (commitments l) ≠ [] → split_at (passed rn) (records l) A B → drawable (run_terms rn) (records l) →
  (length (run_days rn) + length B ≤ fuel)%nat →
  ∃ rn' recs, replay_window rate_on day_start fuel rn (records l) = Some (Some (rn', recs)) ∧ run_days rn' = [] ∧ run_through rn' = run_through rn ∧
    inv {| commitments := commitments l; records := recs; run := Some rn'; now := now l |}.
Proof.
  revert l rn A B. induction fuel as [|fuel IH]; intros l rn A B Hinv Er Hcl Hact Hsp Hdr Hfuel.
  { destruct (run_days rn) as [|d days] eqn:Ed; [|cbn in Hfuel; lia]. exists rn, (records l). cbn. rewrite Ed. split_and!; [done|done|done|]. rewrite <- Er. by destruct l. }
  cbn [replay_window]. destruct (run_days rn) as [|d days] eqn:Ed; [exists rn, (records l); split_and!; [done|done|done|]; rewrite <- Er; by destruct l|]. pose proof (i_run l Hinv rn Er) as Hok. pose proof (rec_sorted l (i_records l Hinv)) as Hs.
  destruct (ro_clear _ _ Hok Hcl Hact) as (_ & Hup & _ & _). destruct (replay_page rate_on day_start rn (records l)) as [[rn1 recs1]|] eqn:Ep.
  - pose proof (page_ok l rn rn1 recs1 Hinv Er ltac:(by rewrite Ed) Ep) as Hinv1. destruct (replay_page_spec l rn rn1 recs1 d days A B Hok Ed Hs Hsp Ep) as (rows & rest & rows' & st & -> & -> & Hdraw & _ & Hsp' & Hrn).
    assert (run_terms rn1 = run_terms rn ∧ run_through rn1 = run_through rn) as [E1 E2] by (destruct Hrn as [->|(k & -> & _)]; done).
    destruct (IH {| commitments := commitments l; records := A ++ rows' ++ rest; run := Some rn1; now := now l |} rn1 (A ++ rows') rest Hinv1 eq_refl Hcl Hact Hsp') as (rn' & recs & H1 & H2 & H3 & H4); cbn [records].
    + rewrite E1. unfold drawable in *. destruct Hsp as (ER & _ & _). rewrite ER in Hdr. destruct (draw_all rate_on (run_terms rn) (start_states (run_terms rn)) (A ++ rows ++ rest)) as [[s0 l0]|] eqn:E0; [|done].
      apply draw_all_idem in Hdraw as [Hf _]. destruct (draw_all_event _ _ _ (A ++ rows' ++ rest) _ _ ltac:(repeat apply Forall2_app; [apply same_event_refl|exact Hf|apply same_event_refl]) E0) as (? & ->). done.
    + rewrite length_app in Hfuel. destruct Hrn as [->|(k & -> & _ & Hne)]; cbn [moved run_days]; cbn [length] in Hfuel |- *; [lia|]. destruct rows; [done|]. cbn in Hfuel. lia.
    + exists rn', recs. split_and!; [done|done|congruence|done].
  - exfalso. unfold replay_page in Ep. rewrite Ed in Ep. destruct (_ <=? _); [done|]. destruct (page_spec l rn d days A B Hok Ed Hs Hsp) as (HH & T & (EB & _ & _) & Epg). rewrite Epg in Ep. destruct (last _); [|done].
    assert (draw_all rate_on (run_terms rn) (run_states rn) (take RECOMPUTE_CHUNK HH) ≠ None) as Hnn; [|by destruct (draw_all rate_on _ _ (take RECOMPUTE_CHUNK HH)) as [[? ?]|]].
    eapply drawable_page; [exact Hup| |exact Hdr]. instantiate (1 := drop RECOMPUTE_CHUNK HH ++ T). instantiate (1 := A). by rewrite app_assoc, take_drop, <- EB.
Qed.

Lemma begin_clear l cs rn : active (commitments l) ≠ [] → begin_recompute billing_date_of day_start (commitments l) (now l) = Some (cs, rn) →
  flagged cs = false ∧ active cs ≠ [] ∧ run_terms rn = terms <$> active (commitments l) ∧ Z.min (now l - APPEND_GRACE) (day_start (maximum (period_end ∘ terms <$> commitments l))) ≤ run_through rn.
Proof.
  intros Hact H. unfold begin_recompute in H. destruct (negb _ && _); [done|]. destruct (flagged (commitments l) || _) eqn:Efull; injection H as <- <-; cbn [run_terms run_through].
  - split_and!; [|rewrite cleared_active; by destruct (active (commitments l))|done|lia]. unfold flagged. clear. induction (commitments l) as [|c cs IH]; cbn; done.
  - apply orb_false_iff in Efull as [Hcl _]. split_and!; [done|done|done|lia].
Qed.

Lemma begin_days cs0 t cs rn : begin_recompute billing_date_of day_start cs0 t = Some (cs, rn) →
  Z.of_nat (length (run_days rn)) ≤ Z.max 0 (billing_date_of (run_through rn - 1) - billing_date_of (run_start rn) + 1).
Proof.
  unfold begin_recompute. destruct (negb _ && _); [done|]. destruct (flagged cs0 || _); intros [= <- <-]; cbn [run_days run_start run_through]; (destruct (_ <=? _); [cbn; lia|]); unfold _billing_days; rewrite length_seqZ; lia.
Qed.

Lemma begin_some l : active (commitments l) ≠ [] → ∃ cs rn, begin_recompute billing_date_of day_start (commitments l) (now l) = Some (cs, rn).
Proof. intros Hact. unfold begin_recompute. destruct (active (commitments l)) as [|c cs]; [done|]. cbn [existsb negb andb orb]. destruct (_ || _); eauto. Qed.

Lemma finished_watermarks l rn : inv l → run l = Some rn → flagged (commitments l) = false → active (commitments l) ≠ [] →
  settled (finish_recompute (commitments l) rn) ∧ ∀ c, c ∈ active (finish_recompute (commitments l) rn) → recomputed_through c = Some (run_through rn).
Proof.
  intros Hinv Er Hcl Hact. unfold finish_recompute. assert (∀ c, c ∈ active (map (finish_one rn) (commitments l)) → recomputed_through c = Some (run_through rn)) as Hw.
  { intros c' Hc'. rewrite finish_active in Hc'. apply list_elem_of_fmap in Hc' as (c & -> & Hcin). by destruct (finish_one_active l rn c Hinv Er Hcl Hcin) as (s & _ & ->). }
  split; [|done]. split_and!; [by rewrite finish_flagged|rewrite finish_active; by destruct (active (commitments l))|intros c Hc; by rewrite (Hw c Hc)].
Qed.
End invariant.

(** * Claims *)

(** C30. Drawdown is what a replay from scratch gives, as long as no record is written behind an append pass inside its window (such a record is lost, see
    [late_record_is_lost]). Whatever other records arrive, late ones included, whatever commitments and prices change, and wherever a recompute
    is interrupted, as soon as no commitment asks for a full replay and every active one has a watermark, they share it, every record before it is assigned exactly as
    drawing all records from scratch in the order of their times assigns it, and the drawdown kept is the one that leaves. *)
Theorem drawdown_is_a_replay rate_on billing_date_of day_start l : BillingZone billing_date_of day_start → reachable rate_on billing_date_of day_start true l → settled (commitments l) →
  ∃ w before after st, records l = before ++ after ∧ (∀ r, r ∈ before → event_time r < w) ∧ (∀ r, r ∈ after → w ≤ event_time r) ∧ (∀ c, c ∈ active (commitments l) → recomputed_through c = Some w) ∧
    draw_all rate_on (terms <$> active (commitments l)) (start_states (terms <$> active (commitments l))) before = Some (st, before) ∧ (∀ c, c ∈ active (commitments l) → st !! c_id (terms c) = Some (drawn c)).
Proof.
  intros Hz Hr Hst. destruct (i_settled _ _ _ l (ledger_reachable_inv _ _ _ l Hr) Hst) as (w & st & W1 & W2 & (A & B & (E & HA & HB) & Hd) & W4). rewrite Forall_forall in HA, HB. exists w, A, B, st.
  split_and!; try done; [intros r Hr0; specialize (HA r Hr0); cbn in HA; lia|intros r Hr0; specialize (HB r Hr0); cbn in HB; lia].
Qed.

(** C31. A recompute that nothing interrupts ends, and settles every active commitment. Suppose no record was written behind an append pass, no recompute is running, some
    commitment is active, and drawing all records from scratch raises no decimal exception. Then the walk over days and pages ends within one step for each billing day of
    its window (those from the day of its start to the day of its end) and each record, and it leaves no flag set and one watermark for all active commitments, which has
    reached two hours before the present or the end of the last period. *)
Theorem recompute_settles rate_on billing_date_of day_start l : BillingZone billing_date_of day_start → reachable rate_on billing_date_of day_start true l → run l = None → active (commitments l) ≠ [] →
  draw_all rate_on (terms <$> active (commitments l)) (start_states (terms <$> active (commitments l))) (records l) ≠ None →
  ∃ cs rn, begin_recompute billing_date_of day_start (commitments l) (now l) = Some (cs, rn) ∧
    let days := Z.max 0 (billing_date_of (run_through rn - 1) - billing_date_of (run_start rn) + 1) in
    ∀ fuel, days + Z.of_nat (length (records l)) ≤ Z.of_nat fuel → ∃ l' w, recompute_provider rate_on billing_date_of day_start fuel l = Some (Some l') ∧
      settled (commitments l') ∧ (∀ c, c ∈ active (commitments l') → recomputed_through c = Some w) ∧
      Z.min (now l - APPEND_GRACE) (day_start (maximum (period_end ∘ terms <$> commitments l))) ≤ w.
Proof.
  intros Hz Hr Hno Hact Hdr. apply ledger_reachable_inv in Hr as Hinv; [|done]. destruct (begin_some billing_date_of day_start l Hact) as (cs & rn & Hb). pose proof (begin_inv rate_on _ _ l cs rn Hinv Hno Hb) as Hinv1.
  destruct (begin_clear billing_date_of day_start l cs rn Hact Hb) as (Hcl & Hact1 & Et & Hw). destruct (sorted_prefix _ _ (past_passed day_start rn) (rec_sorted _ _ (i_records _ _ _ l Hinv))) as (A & B & Hsp & _).
  exists cs, rn. split; [done|]. intros days fuel Hfuel. destruct (replay_window_ends rate_on billing_date_of day_start fuel _ rn A B Hinv1 eq_refl Hcl Hact1 Hsp) as (rn' & recs & H1 & H2 & H3 & H4); [by rewrite Et| |].
  { destruct Hsp as (E & _). rewrite E, length_app in Hfuel. pose proof (begin_days _ _ _ _ _ _ Hb). unfold days in Hfuel. lia. }
  destruct (finished_watermarks rate_on billing_date_of day_start _ rn' H4 eq_refl Hcl Hact1) as [Hset Hwm]. cbn [records commitments now] in *. unfold recompute_provider. rewrite Hb, H1. eexists _, (run_through rn'). split_and!; [reflexivity|done|done|]. by rewrite H3.
Qed.

(** * Examples *)

Module ReplayExample.
Import CommitmentExample.
(** India, five and a half hours ahead of UTC *)
Definition local_date : Z → Z := billing_date_at (19800 * 1000000).
Definition local_start : Z → Z := day_start_at (19800 * 1000000).
#[global] Instance local_zone : BillingZone local_date local_start := fixed_zone _.

Definition usage_at (id t : Z) (q : Q) : SpendUsageRecord := usage id t (local_date t) q.
Definition recompute (l : Ledger) : Ledger := match recompute_provider no_rate local_date local_start 50 l with Some (Some l') => l' | _ => l end.
Definition change (l : Ledger) (new_end : option Z) (close : bool) : Ledger := match update_commitment (commitments l) 1 new_end close None with Ok cs => with_commitments l cs | Err _ => l end.
Definition begun (l : Ledger) : Ledger := match begin_recompute local_date local_start (commitments l) (now l) with Some (cs, rn) => {| commitments := cs; records := records l; run := Some rn; now := now l |} | None => l end.
Definition paged (l : Ledger) : Ledger :=
  match run l with Some rn => match replay_page no_rate local_start rn (records l) with Some (rn', recs) => {| commitments := commitments l; records := recs; run := Some rn'; now := now l |} | None => l end | None => l end.
Definition finished (l : Ledger) : Ledger := match run l with Some rn => {| commitments := finish_recompute (commitments l) rn; records := records l; run := None; now := now l |} | None => l end.
Definition crashed (l : Ledger) : Ledger := {| commitments := commitments l; records := records l; run := None; now := now l |}.

(** A million tokens are committed for thirty days, and six hundred thousand are used on the second day *)
Definition opened : Ledger := tick (write_event (with_commitments (start_ledger (2 * DAY)) table) (usage_at 1 DAY (600000 # 1))) (3 * DAY).
Definition drawn_once : Ledger := recompute opened.
Definition later : Ledger := tick drawn_once (6 * DAY).

Definition settledb (cs : list SpendCommitment) : bool := negb (flagged cs) && match active cs with [] => false | _ => true end && forallb (λ c, given (recomputed_through c)) (active cs).
Lemma settledb_settled cs : settledb cs = true → settled cs.
Proof.
  unfold settledb. intros [[H1 H2]%andb_true_iff H3]%andb_true_iff. split_and!; [by apply negb_true_iff|by destruct (active cs)|]. intros c Hc E. rewrite forallb_forall in H3. specialize (H3 c). rewrite E in H3. by discriminate H3; apply list_elem_of_In.
Qed.

(** Each of these is a step of the system *)
Definition can_begin (l : Ledger) : bool := negb (given (run l)) && given (begin_recompute local_date local_start (commitments l) (now l)).
Definition can_page (l : Ledger) : bool := match run l with Some rn => match run_days rn with [] => false | _ => given (replay_page no_rate local_start rn (records l)) end | None => false end.
Definition can_finish (l : Ledger) : bool := match run l with Some rn => match run_days rn with [] => true | _ => false end | None => false end.

Lemma begun_step in_order l : can_begin l = true → step no_rate local_date local_start in_order l (begun l).
Proof.
  unfold can_begin, begun. intros [H1 H2]%andb_true_iff. destruct (begin_recompute _ _ _ _) as [[cs rn]|] eqn:E; [|done]. eapply step_begin; [by destruct (run l)|done].
Qed.
Lemma paged_step in_order l : can_page l = true → step no_rate local_date local_start in_order l (paged l).
Proof.
  unfold can_page, paged. intros H. destruct (run l) as [rn|] eqn:Er; [|done]. destruct (run_days rn) eqn:Ed; [done|]. destruct (replay_page _ _ _ _) as [[rn' recs]|] eqn:E; [|done]. eapply step_page; [done|by rewrite Ed|done].
Qed.
Lemma pages_steps in_order n l : rtc (step no_rate local_date local_start in_order) l (Nat.iter n paged l).
Proof.
  induction n as [|n IH]; [apply rtc_refl|]. etransitivity; [exact IH|]. change (Nat.iter (S n) paged l) with (paged (Nat.iter n paged l)). generalize (Nat.iter n paged l). intros x. destruct (can_page x) eqn:E; [by apply rtc_once, paged_step|].
  assert (paged x = x) as E'; [|rewrite E'; apply rtc_refl]. unfold can_page, paged in *. destruct x as [cs recs [rn|] t]; cbn in *; [|done]. unfold replay_page in *. destruct (run_days rn); [done|]. by destruct (if _ <=? _ then _ else _).
Qed.
Lemma finished_step in_order l : can_finish l = true → step no_rate local_date local_start in_order l (finished l).
Proof. unfold can_finish, finished. intros H. destruct (run l) as [rn|] eqn:Er; [|done]. apply step_finish; [done|]. by destruct (run_days rn). Qed.

Lemma opened_reachable : reachable no_rate local_date local_start true opened.
Proof.
  exists (2 * DAY). apply rtc_l with (with_commitments (start_ledger (2 * DAY)) table); [apply (step_create _ _ _ _ _ 1 (body 0 30 (1 # 1))); [apply not_elem_of_nil|vm_compute; reflexivity]|].
  apply rtc_l with (write_event (with_commitments (start_ledger (2 * DAY)) table) (usage_at 1 DAY (600000 # 1))); [apply step_write; [reflexivity|reflexivity|apply not_elem_of_nil|reflexivity]|]. apply rtc_once, step_tick. vm_compute. discriminate.
Qed.

Lemma later_reachable : reachable no_rate local_date local_start true later.
Proof.
  destruct opened_reachable as [t Hr]. exists t. etransitivity; [exact Hr|]. assert (later = tick (finished (paged (paged (paged (paged (begun opened)))))) (6 * DAY)) as -> by (vm_compute; reflexivity).
  eapply rtc_l; [apply begun_step; vm_compute; reflexivity|]. do 4 (eapply rtc_l; [apply paged_step; vm_compute; reflexivity|]). eapply rtc_l; [apply finished_step; vm_compute; reflexivity|]. apply rtc_once, step_tick. vm_compute. discriminate.
Qed.
End ReplayExample.

Import ReplayExample.

Lemma drawdown_is_a_replay_witness : settled (commitments later) ∧ ∃ before after, records later = before ++ after ∧ length before = 1%nat ∧ ((λ c, d_quantity (drawn c)) <$> commitments later) = [600000 # 1].
Proof.
  assert (settled (commitments later)) as Hs. { apply settledb_settled. vm_compute. reflexivity. }
  split; [exact Hs|]. destruct (drawdown_is_a_replay CommitmentExample.no_rate local_date local_start later local_zone later_reachable Hs) as (w & before & after & st & E & Hb & Ha & Hw & _). exists before, after. split; [exact E|]. split; [|vm_compute; reflexivity].
  assert (records later = [assign (Some 1, false, 0%Q) (usage_at 1 DAY (600000 # 1))]) as Er by (vm_compute; reflexivity). assert (∃ c, commitments later = [c] ∧ active (commitments later) = [c] ∧ recomputed_through c = Some 252000000000) as (c & _ & Ec & Ew) by (eexists; split_and!; vm_compute; reflexivity).
  assert (Some w = Some 252000000000) as [= ->]. { rewrite <- Ew. symmetry. apply Hw. rewrite Ec. left. }
  rewrite Er in E. destruct before as [|r [|r' before]]; [|reflexivity|].
  - exfalso. cbn in E. subst after. specialize (Ha _ ltac:(left)). vm_compute in Ha. by apply Ha.
  - injection E as _ E. discriminate E.
Defined.

Lemma recompute_settles_witness : ∃ cs rn l', begin_recompute local_date local_start (commitments opened) (now opened) = Some (cs, rn) ∧
  recompute_provider CommitmentExample.no_rate local_date local_start 5 opened = Some (Some l') ∧ settled (commitments l').
Proof.
  destruct (recompute_settles CommitmentExample.no_rate local_date local_start opened local_zone opened_reachable) as (cs & rn & Hb & Hn); [reflexivity|vm_compute; discriminate|vm_compute; discriminate|].
  assert (Z.max 0 (local_date (run_through rn - 1) - local_date (run_start rn) + 1) + Z.of_nat (length (records opened)) ≤ Z.of_nat 5) as Hle.
  { assert (match begin_recompute local_date local_start (commitments opened) (now opened) with
            | Some (_, rn) => Z.max 0 (local_date (run_through rn - 1) - local_date (run_start rn) + 1) + Z.of_nat (length (records opened)) <=? Z.of_nat 5
            | None => true end = true) as Hc by (vm_compute; reflexivity).
    rewrite Hb in Hc. by apply Z.leb_le. }
  destruct (Hn 5%nat Hle) as (l' & w & H1 & H2 & _). exists cs, rn, l'. exact (conj Hb (conj H1 H2)).
Defined.

(** * What goes wrong *)

Module LateRecord.
Definition racing : Ledger := write_event (paged (paged (begun later))) (usage_at 2 (3 * DAY + 1) (700000 # 1)).
Definition after : Ledger := recompute (tick (finished (Nat.iter 4 paged racing)) (9 * DAY)).

Lemma late_record_reachable : reachable CommitmentExample.no_rate local_date local_start false after.
Proof.
  destruct later_reachable as [t Hr]. exists t. transitivity later.
  { clear -Hr. induction Hr as [|x y z Hxy _ IH]; [apply rtc_refl|]. eapply rtc_l; [|exact IH].
    destruct Hxy; [by apply step_tick|by apply step_write|by eapply step_create|by eapply step_update|apply step_restate|apply step_settle|by apply step_begin|by eapply step_page|by apply step_finish|apply step_crash]. }
  assert (after = finished (Nat.iter 4 paged (begun (tick (finished (Nat.iter 4 paged racing)) (9 * DAY))))) as -> by (vm_compute; reflexivity).
  eapply rtc_l; [apply begun_step; vm_compute; reflexivity|]. etransitivity; [apply (pages_steps _ 2)|].
  eapply rtc_l; [apply step_write with (r := usage_at 2 (3 * DAY + 1) (700000 # 1)); [reflexivity|reflexivity| |done]; apply (bool_decide_unpack _); vm_compute; exact I|].
  etransitivity; [apply (pages_steps _ 4)|]. eapply rtc_l; [apply finished_step; vm_compute; reflexivity|]. eapply rtc_l; [apply (step_tick _ _ _ _ _ (9 * DAY)); vm_compute; discriminate|].
  eapply rtc_l; [apply begun_step; vm_compute; reflexivity|]. etransitivity; [apply (pages_steps _ 4)|]. apply rtc_once, finished_step. vm_compute. reflexivity.
Qed.
End LateRecord.
Import LateRecord.

(** A record that arrives behind an append pass, inside its window, is not marked (the watermarks are still those before the window), and the pass then moves the
    watermark past it: it is never drawn, though a replay would draw it *)
Theorem late_record_is_lost :
  reachable CommitmentExample.no_rate local_date local_start false after ∧ settled (commitments after) ∧ (Forall (λ c, ∃ w, recomputed_through c = Some w ∧ 3 * DAY + 1 < w) (commitments after)) ∧ (assignment <$> records after) = [(Some 1, false, 0%Q); unassigned] ∧
  (snd <$> draw_all CommitmentExample.no_rate (terms <$> commitments after) (start_states (terms <$> commitments after)) (records after)) = Some [assign (Some 1, false, 0%Q) (usage_at 1 DAY (600000 # 1)); assign (Some 1, true, 300000 # 1) (usage_at 2 (3 * DAY + 1) (700000 # 1))].
Proof.
  split_and!; [exact late_record_reachable|apply settledb_settled; vm_compute; reflexivity| |vm_compute; reflexivity|vm_compute; reflexivity]. vm_compute. repeat constructor. eexists. split; reflexivity.
Qed.

(** The flags of a provider whose commitments are all closed are cleared before the replay, and there is no watermark to drop: when that replay stops before its first page, no later recompute does anything, and the records keep their
    assignment to the closed commitment *)
Theorem closed_replay_is_not_repeated :
  let closed := crashed (begun (change later None true)) in
  begin_recompute local_date local_start (commitments closed) (now closed + 30 * DAY) = None ∧ (assignment <$> records closed) = [(Some 1, false, 0%Q)].
Proof. split; vm_compute; reflexivity. Qed.

(** Closing a commitment together with an earlier end replays only to the new end: the records past it keep their assignment *)
Theorem shortened_and_closed_keeps_assignments :
  let after := recompute (change later (Some 1) true) in
  begin_recompute local_date local_start (commitments after) (now after + 30 * DAY) = None ∧ (assignment <$> records after) = [(Some 1, false, 0%Q)].
Proof. split; vm_compute; reflexivity. Qed.
