(* ===== verification/SpendRollups.v ===== *)
(** The daily rollup of usage records: the incremental upkeep and the rebuild of src/core/spend/rollups.py.

    Sums are decimals of fixed scale (six places for quantities, ten for amounts), here the integers of their last place. The values of
    ROLLUP_DIMS are their texts; use_case, model and environment are never missing in a record, so a row stores its values as they are. Writers hold a shared lock of the day and their upserts add, a rebuild holds it
    exclusively: a transaction is atomic. *)

From Stdlib Require Import Ascii.
From S2P Require Import Prelude PyVal PyText Digest SpendPricing SpendReplay.

Local Open Scope Z_scope.

(** * What a record adds *)

Record Delta := {
  d_quantity : Z; d_amount : Z; d_amount_inr : Z; unconverted_amount : Z; unpriced_quantity : Z; d_overage_quantity : Z; record_count : Z; call_count : Z; unpriced_count : Z;
  unconverted_count : Z; fx_estimated_count : Z; overage_count : Z; allocated_count : Z; estimated_count : Z }.

Definition combine (f : Z → Z → Z) (a b : Delta) : Delta :=
  {| d_quantity := f (d_quantity a) (d_quantity b); d_amount := f (d_amount a) (d_amount b); d_amount_inr := f (d_amount_inr a) (d_amount_inr b);
     unconverted_amount := f (unconverted_amount a) (unconverted_amount b); unpriced_quantity := f (unpriced_quantity a) (unpriced_quantity b);
     d_overage_quantity := f (d_overage_quantity a) (d_overage_quantity b); record_count := f (record_count a) (record_count b); call_count := f (call_count a) (call_count b);
     unpriced_count := f (unpriced_count a) (unpriced_count b); unconverted_count := f (unconverted_count a) (unconverted_count b); fx_estimated_count := f (fx_estimated_count a) (fx_estimated_count b);
     overage_count := f (overage_count a) (overage_count b); allocated_count := f (allocated_count a) (allocated_count b); estimated_count := f (estimated_count a) (estimated_count b) |}.

Definition ZERO_DELTA : Delta :=
  {| d_quantity := 0; d_amount := 0; d_amount_inr := 0; unconverted_amount := 0; unpriced_quantity := 0; d_overage_quantity := 0; record_count := 0; call_count := 0; unpriced_count := 0;
     unconverted_count := 0; fx_estimated_count := 0; overage_count := 0; allocated_count := 0; estimated_count := 0 |}.
Definition plus : Delta → Delta → Delta := combine Z.add.
Definition negate (a : Delta) : Delta := combine Z.sub ZERO_DELTA a.

#[global] Instance Delta_eq_dec : EqDecision Delta.
Proof. solve_decision. Defined.
Definition is_zero (a : Delta) : bool := bool_decide (a = ZERO_DELTA).

Abbreviation Dims := (list (option string)).

Record UsageRecord := {
  r_event_time : Z; r_event_date : Z; r_dims : Dims; quantity : Z; amount : option Z; amount_inr : option Z; unpriced : bool; unconverted : bool; overage : bool; overage_quantity : Z; calls : Z;
  fx_estimated : bool; allocated : bool; quantity_estimated : bool; price_estimated : bool }.

Definition _canon (v : option string) : option string := strip <$> v.
Definition dims_of (r : UsageRecord) : Dims := _canon <$> r_dims r.
Definition dims_text (d : Dims) : string := join "|" (default "~" <$> d).
Definition dims_hash (d : Dims) : string := sha256_hexdigest (dims_text d).

Definition delta_of (r : UsageRecord) : Delta :=
  {| d_quantity := quantity r; d_amount := default 0 (amount r); d_amount_inr := default 0 (amount_inr r); unconverted_amount := if unconverted r then default 0 (amount r) else 0;
     unpriced_quantity := if unpriced r then quantity r else 0; d_overage_quantity := overage_quantity r; record_count := 1; call_count := calls r; unpriced_count := Z.b2z (unpriced r);
     unconverted_count := Z.b2z (unconverted r); fx_estimated_count := Z.b2z (fx_estimated r); overage_count := Z.b2z (overage r); allocated_count := Z.b2z (allocated r);
     estimated_count := Z.b2z (quantity_estimated r || price_estimated r) |}.

Definition contribution (r : UsageRecord) : Z * Dims * Delta := (r_event_date r, dims_of r, delta_of r).

Abbreviation Rows := (gmap (Z * string) (Dims * Delta)).

Definition add_delta (deltas : Rows) (day : Z) (dims : Dims) (delta : Delta) : Rows :=
  let k := (day, dims_hash dims) in <[k := (dims, match deltas !! k with None => delta | Some previous => plus previous.2 delta end)]> deltas.

Definition add_record (deltas : Rows) (r : UsageRecord) : Rows := let '(day, dims, delta) := contribution r in add_delta deltas day dims delta.
Definition aggregate (rs : list UsageRecord) : Rows := foldl add_record ∅ rs.

Definition move (deltas : Rows) (before after : UsageRecord) : Rows :=
  let '(day, dims, delta) := contribution before in
  let deltas := add_delta deltas day dims (negate delta) in
  let '(day, dims, delta) := contribution after in
  add_delta deltas day dims delta.

(** * The table *)

(** The errors of the table: its check of counts and its unique index *)
Inductive table_error := CheckViolation | UniqueViolation.

(** [ck_spend_usage_rollups_counts] *)
Definition counts_ok (a : Delta) : bool :=
  (0 <=? record_count a) && (0 <=? call_count a) && (0 <=? unpriced_count a) && (0 <=? unconverted_count a) && (0 <=? fx_estimated_count a) && (0 <=? overage_count a) &&
  (0 <=? allocated_count a) && (0 <=? estimated_count a).

Definition key_leb (a b : (Z * string) * (Dims * Delta)) : bool := lex Z.leb String.leb (fst a) (fst b).

Section table.
(** Whether the database checks a proposed row before it looks for the row it conflicts with; PostgreSQL does *)
Context (proposed_checked : bool).

(** One row of an additive upsert *)
Definition upsert (table : Rows) (row : (Z * string) * (Dims * Delta)) : result table_error Rows :=
  let '(k, (dims, delta)) := row in
  _ ← raise_if (proposed_checked && negb (counts_ok delta)) CheckViolation;
  let new := match table !! k with None => (dims, delta) | Some old => (old.1, plus old.2 delta) end in
  _ ← raise_if (negb (counts_ok new.2)) CheckViolation;
  Ok (<[k := new]> table).

Definition live (deltas : Rows) : list ((Z * string) * (Dims * Delta)) := List.filter (λ kv, negb (is_zero kv.2.2)) (map_to_list deltas).

(** The upserts, then the touched days' rows left with no records go *)
Definition apply_deltas (table deltas : Rows) : result table_error Rows :=
  t ← fold_res upsert table (sort_by key_leb (live deltas));
  let days := (λ kv, kv.1.1) <$> live deltas in
  Ok (filter (λ kv, ¬ (kv.1.1 ∈ days ∧ record_count kv.2.2 = 0)) t).
End table.

(** * The rebuild of a day *)

Section rebuild.
Context (day_start : Z → Z).

(** [day_window]: the day in the reporting zone, widened by a day on each side *)
Definition in_window (day : Z) (r : UsageRecord) : bool := (day_start day - DAY <=? r_event_time r) && (r_event_time r <? day_start (day + 1) + DAY).
Definition day_records (day : Z) (rs : list UsageRecord) : list UsageRecord := List.filter (λ r, (r_event_date r =? day) && in_window day r) rs.

(** The groups of equal dims, with their sums *)
Definition grouped (rs : list UsageRecord) : gmap Dims Delta := foldr (λ r g, <[r_dims r := plus (delta_of r) (default ZERO_DELTA (g !! r_dims r))]> g) ∅ rs.

Definition hash_leb (a b : Dims * Delta) : bool := String.leb (dims_hash (fst a)) (dims_hash (fst b)).

Definition insert_row (day : Z) (table : Rows) (row : Dims * Delta) : result table_error Rows :=
  let k := (day, dims_hash row.1) in
  _ ← raise_if (bool_decide (is_Some (table !! k))) UniqueViolation;
  _ ← raise_if (negb (counts_ok row.2)) CheckViolation;
  Ok (<[k := row]> table).

Definition rebuild_day (table : Rows) (rs : list UsageRecord) (day : Z) : result table_error Rows :=
  let kept := filter (λ kv, kv.1.1 ≠ day) table in
  fold_res (insert_row day) kept (sort_by hash_leb (map (λ dv : Dims * Delta, (_canon <$> dv.1, dv.2)) (map_to_list (grouped (day_records day rs))))).
End rebuild.

(** * Every sequence of transactions *)

Record Books := { books : list UsageRecord; table : Rows }.

(** The revisions of a chunk: each record is replaced and moved *)
Fixpoint revise (rs : list UsageRecord) (deltas : Rows) (changes : list (nat * UsageRecord)) : option (list UsageRecord * Rows) :=
  match changes with
  | [] => Some (rs, deltas)
  | (i, new) :: changes => old ← rs !! i; revise (<[i := new]> rs) (move deltas old new) changes
  end.

(** Event fields never change *)
Definition same_day (rs : list UsageRecord) (c : nat * UsageRecord) : Prop := ∃ old, rs !! c.1 = Some old ∧ r_event_date c.2 = r_event_date old ∧ r_event_time c.2 = r_event_time old.

Section system.
Context (proposed_checked : bool) (reporting_date day_start : Z → Z).

(** [U]: the records that ever occur *)
Inductive step (U : UsageRecord → Prop) : Books → Books → Prop :=
| step_write s rows t : Forall U rows → Forall (λ r, r_event_date r = reporting_date (r_event_time r)) rows → apply_deltas proposed_checked (table s) (aggregate rows) = Ok t →
    step U s {| books := books s ++ rows; table := t |}
| step_revise s changes rs deltas t : Forall (λ c, U c.2) changes → Forall (same_day (books s)) changes → revise (books s) ∅ changes = Some (rs, deltas) →
    apply_deltas proposed_checked (table s) deltas = Ok t → step U s {| books := rs; table := t |}
| step_rebuild s day t : rebuild_day day_start (table s) (books s) day = Ok t → step U s {| books := books s; table := t |}.

Definition reachable (U : UsageRecord → Prop) (s : Books) : Prop := rtc (step U) {| books := []; table := ∅ |} s.
End system.

(** * Sums *)

Lemma plus_comm a b : plus a b = plus b a.
Proof. destruct a, b. unfold plus, combine. cbn. f_equal; apply Z.add_comm. Qed.
Lemma plus_assoc a b c : plus a (plus b c) = plus (plus a b) c.
Proof. destruct a, b, c. unfold plus, combine. cbn. f_equal; apply Z.add_assoc. Qed.
Lemma plus_zero_l a : plus ZERO_DELTA a = a.
Proof. by destruct a. Qed.
Lemma plus_zero_r a : plus a ZERO_DELTA = a.
Proof. rewrite plus_comm. apply plus_zero_l. Qed.
Lemma plus_negate a : plus a (negate a) = ZERO_DELTA.
Proof. destruct a. unfold plus, negate, combine, ZERO_DELTA. cbn. f_equal; lia. Qed.

Lemma plus_cancel a b x : plus a x = plus b x → a = b.
Proof. destruct a, b. intros H. injection H as ? ? ? ? ? ? ? ? ? ? ? ? ? ?. f_equal; lia. Qed.

Definition rkey (r : UsageRecord) : Z * string := (r_event_date r, dims_hash (dims_of r)).

(** What the records of a key add up to *)
Definition total (k : Z * string) (rs : list UsageRecord) : Delta := foldr (λ r acc, if bool_decide (rkey r = k) then plus (delta_of r) acc else acc) ZERO_DELTA rs.

Lemma total_app k a b : total k (a ++ b) = plus (total k a) (total k b).
Proof. induction a as [|r a IH]; cbn; [by rewrite plus_zero_l|]. fold (total k (a ++ b)) (total k a). rewrite IH. destruct (bool_decide _); [apply plus_assoc|done]. Qed.

Lemma total_count k rs : 0 ≤ record_count (total k rs) ∧ (record_count (total k rs) = 0 ↔ ∀ r, r ∈ rs → rkey r ≠ k).
Proof.
  induction rs as [|r rs [IH1 IH2]]; cbn; [split; [done|]; split; [|done]; intros _ r Hr; by apply not_elem_of_nil in Hr|]. fold (total k rs). destruct (bool_decide_reflect (rkey r = k)) as [E|Hne].
  - cbn. split; [lia|]. split; [lia|]. intros H. destruct (H r); [left|done].
  - split; [done|]. rewrite IH2. split; [intros H x [->|Hx]%elem_of_cons; auto|]. intros H x Hx. apply H. by right.
Qed.

Lemma total_none k rs : (∀ r, r ∈ rs → rkey r ≠ k) → total k rs = ZERO_DELTA.
Proof. induction rs as [|r rs IH]; intros H; cbn; [done|]. rewrite bool_decide_false by (apply H; left). apply IH. intros x Hx. apply H. by right. Qed.

Lemma total_some k rs : (∃ r, r ∈ rs ∧ rkey r = k) → 0 < record_count (total k rs).
Proof. intros (r & Hr & E). pose proof (total_count k rs) as [H1 H2]. destruct (Z.eq_dec (record_count (total k rs)) 0) as [H0|]; [|lia]. by destruct (proj1 H2 H0 r Hr). Qed.

(** What a set of deltas adds to a key *)
Definition dtotal (d : Rows) (k : Z * string) : Delta := default ZERO_DELTA (snd <$> d !! k).

Lemma add_delta_total d day dims x k : dtotal (add_delta d day dims x) k = if bool_decide (k = (day, dims_hash dims)) then plus (dtotal d k) x else dtotal d k.
Proof.
  unfold add_delta, dtotal. destruct (bool_decide_reflect (k = (day, dims_hash dims))) as [->|Hne]; [|by rewrite lookup_insert_ne]. rewrite lookup_insert_eq. cbn. destruct (d !! _) as [[? ?]|]; cbn; [done|by rewrite plus_zero_l].
Qed.

Lemma aggregate_from d rs k : dtotal (foldl add_record d rs) k = plus (dtotal d k) (total k rs).
Proof.
  revert d. induction rs as [|r rs IH]; intros d; cbn; [by rewrite plus_zero_r|]. rewrite IH. unfold add_record. cbn. rewrite add_delta_total. fold (total k rs) (rkey r). rewrite (bool_decide_ext (rkey r = k) (k = rkey r)) by naive_solver. destruct (bool_decide _); [|done]. by rewrite plus_assoc.
Qed.

Lemma aggregate_total rs k : dtotal (aggregate rs) k = total k rs.
Proof. unfold aggregate. rewrite aggregate_from. apply plus_zero_l. Qed.

Lemma move_total d before after k :
  plus (dtotal (move d before after) k) (if bool_decide (rkey before = k) then delta_of before else ZERO_DELTA) = plus (dtotal d k) (if bool_decide (rkey after = k) then delta_of after else ZERO_DELTA).
Proof.
  unfold move. cbn. rewrite !add_delta_total. fold (rkey before) (rkey after). rewrite (bool_decide_ext (k = rkey before) (rkey before = k)), (bool_decide_ext (k = rkey after) (rkey after = k)) by naive_solver.
  destruct (bool_decide (rkey before = k)), (bool_decide (rkey after = k)); rewrite ?plus_zero_r; try done.
  - rewrite <- !plus_assoc. f_equal. rewrite (plus_comm (delta_of after)), plus_assoc, (plus_comm (negate _)), plus_negate. apply plus_zero_l.
  - rewrite <- plus_assoc, (plus_comm (negate _)), plus_negate. apply plus_zero_r.
Qed.

(** * The table holds the sums *)

Definition sums (rs : list UsageRecord) (t : Rows) : Prop :=
  ∀ k, match t !! k with None => ∀ r, r ∈ rs → rkey r ≠ k | Some row => row.2 = total k rs ∧ ∃ r, r ∈ rs ∧ rkey r = k ∧ row.1 = dims_of r end.

Section upkeep.
Context (pc : bool) (U : UsageRecord → Prop).
Hypothesis no_collision : ∀ r r', U r → U r' → rkey r = rkey r' → dims_of r = dims_of r'.

Lemma sums_unique rs t t' : (∀ r, r ∈ rs → U r) → sums rs t → sums rs t' → t = t'.
Proof.
  intros HU H H'. apply map_eq. intros k. specialize (H k). specialize (H' k). destruct (t !! k) as [[d s]|], (t' !! k) as [[d' s']|]; cbn in *; try done.
  - destruct H as (-> & r & Hr & Ek & ->), H' as (-> & r' & Hr' & Ek' & ->). do 2 f_equal. apply no_collision; [by apply HU|by apply HU|congruence].
  - destruct H as (_ & r & Hr & Ek & _). by destruct (H' r Hr).
  - destruct H' as (_ & r & Hr & Ek & _). by destruct (H r Hr).
Qed.

Lemma upserts_lookup rows t t1 : NoDup rows.*1 → fold_res (upsert pc) t rows = Ok t1 →
  ∀ k, (∀ dims x, (k, (dims, x)) ∈ rows → t1 !! k = Some match t !! k with None => (dims, x) | Some old => (old.1, plus old.2 x) end) ∧ (k ∉ rows.*1 → t1 !! k = t !! k).
Proof.
  revert t. induction rows as [|[k0 [d0 x0]] rows IH]; intros t Hnd H k; cbn in H; [injection H as <-; split; [intros ? ? Hin; by apply not_elem_of_nil in Hin|done]|].
  apply bind_Ok in H as (t2 & Hu & H). apply bind_Ok in Hu as ([] & _ & Hu). apply bind_Ok in Hu as ([] & _ & [= <-]). cbn in Hnd. apply NoDup_cons in Hnd as [Hni Hnd]. destruct (IH _ Hnd H k) as [H1 H2]. split.
  - intros dims x [E|Hin]%elem_of_cons.
    + injection E as -> -> ->. rewrite (H2 Hni). apply lookup_insert_eq.
    + rewrite (H1 dims x Hin). rewrite lookup_insert_ne; [done|]. intros ->. apply Hni. apply list_elem_of_fmap. by exists (k, (dims, x)).
  - cbn. rewrite not_elem_of_cons. intros [Hne Hk]. rewrite (H2 Hk). by rewrite lookup_insert_ne.
Qed.

Lemma live_elem d k v : (k, v) ∈ sort_by key_leb (live d) ↔ d !! k = Some v ∧ v.2 ≠ ZERO_DELTA.
Proof. unfold live. rewrite elem_of_sort_by, list_elem_of_In, filter_In, <- list_elem_of_In, elem_of_map_to_list. cbn. unfold is_zero. by rewrite negb_true_iff, bool_decide_eq_false. Qed.

Lemma live_NoDup d : NoDup (sort_by key_leb (live d)).*1.
Proof.
  rewrite sort_by_Permutation. unfold live. eapply sublist_NoDup; [apply (NoDup_fst_map_to_list d)|]. induction (map_to_list d) as [|x l IH]; cbn; [constructor|]. destruct (negb _); cbn; by constructor.
Qed.

(** A net change of the records, applied as deltas *)
Lemma apply_sums rs rs' t d t' : (∀ r, r ∈ rs → U r) → (∀ r, r ∈ rs' → U r) → sums rs t → (∀ k row, d !! k = Some row → ∃ r, U r ∧ rkey r = k ∧ row.1 = dims_of r) →
  (∀ k, total k rs' = plus (total k rs) (dtotal d k)) → apply_deltas pc t d = Ok t' → sums rs' t'.
Proof.
  intros HU HU' Hs Hd Htot H. unfold apply_deltas in H. apply bind_Ok in H as (t1 & H1 & [= <-]). pose proof (upserts_lookup _ _ _ (live_NoDup d) H1) as Hlk.
  assert (∀ k, dtotal d k = ZERO_DELTA → t1 !! k = t !! k) as Hsame.
  { intros k Hz. apply Hlk. intros Hin. apply list_elem_of_fmap in Hin as ([k' v] & -> & Hv). apply live_elem in Hv as [Hv Hnz]. unfold dtotal in Hz. cbn in Hz. rewrite Hv in Hz. by destruct Hnz. }
  assert (∀ k row, t1 !! k = Some row → row.2 = total k rs' ∧ ∃ r, U r ∧ rkey r = k ∧ row.1 = dims_of r) as Hrow.
  { intros k row E. destruct (decide (dtotal d k = ZERO_DELTA)) as [Hz|Hnz].
    - rewrite (Hsame k Hz) in E. specialize (Hs k). rewrite E in Hs. destruct Hs as (E1 & r & Hr & Ek & Ed). rewrite Htot, Hz, plus_zero_r. split; [done|]. exists r. auto.
    - unfold dtotal in Hnz. destruct (d !! k) as [[dims x]|] eqn:Ed; [|done]. cbn in Hnz. assert ((k, (dims, x)) ∈ sort_by key_leb (live d)) as Hin by by apply live_elem. rewrite (proj1 (Hlk k) dims x Hin) in E. injection E as <-.
      destruct (Hd k _ Ed) as (r & Hr & Ek & Edim). rewrite Htot. unfold dtotal. rewrite Ed. cbn. specialize (Hs k). destruct (t !! k) as [[d0 s0]|]; cbn in *.
      + destruct Hs as (-> & r0 & Hr0 & Ek0 & ->). split; [done|]. exists r0. auto.
      + rewrite (total_none k rs Hs), plus_zero_l. split; [done|]. by exists r. }
  intros k. rewrite map_lookup_filter. destruct (t1 !! k) as [[dims s]|] eqn:E; cbn.
  - destruct (Hrow k _ E) as (Es & r & HUr & Ek & Edim). cbn in Es, Edim. destruct (decide (k.1 ∈ (λ kv : (Z * string) * (Dims * Delta), kv.1.1) <$> live d ∧ record_count s = 0)) as [[Hday Hz]|Hkeep].
    + rewrite option_guard_False by tauto. cbn. rewrite Es in Hz. by apply total_count.
    + rewrite option_guard_True by done. cbn. split; [done|]. destruct (decide (record_count (total k rs') = 0)) as [Hz|Hnz].
      * exfalso. apply Hkeep. rewrite Es. split; [|done]. destruct (decide (dtotal d k = ZERO_DELTA)) as [Hd0|Hd0].
        -- rewrite (Hsame k Hd0) in E. specialize (Hs k). rewrite E in Hs. destruct Hs as (_ & r0 & Hr0 & Ek0 & _). pose proof (total_some k rs ltac:(by exists r0)) as Hpos. rewrite Htot, Hd0, plus_zero_r in Hz. lia.
        -- unfold dtotal in Hd0. destruct (d !! k) as [v|] eqn:Edk; [|done]. apply list_elem_of_fmap. exists (k, v). split; [done|]. rewrite <- elem_of_sort_by. apply live_elem. by split.
      * destruct (total_count k rs') as [Hc1 Hc2]. destruct (list_find (λ r, rkey r = k) rs') as [[i r']|] eqn:Ef.
        -- apply list_find_Some in Ef as (Hi & Ek' & _). apply list_elem_of_lookup_2 in Hi. exists r'. split_and!; [done|done|]. rewrite Edim. apply no_collision; [done|by apply HU'|congruence].
        -- exfalso. apply Hnz, Hc2. apply list_find_None in Ef. by rewrite Forall_forall in Ef.
  - assert (dtotal d k = ZERO_DELTA) as Hz. { destruct (decide (dtotal d k = ZERO_DELTA)) as [|Hnz]; [done|exfalso]. unfold dtotal in Hnz. destruct (d !! k) as [[dims x]|] eqn:Ed; [|done]. rewrite (proj1 (Hlk k) dims x) in E; [done|]. by apply live_elem. }
    rewrite (Hsame k Hz) in E. specialize (Hs k). rewrite E in Hs. apply total_count. rewrite Htot, Hz, plus_zero_r. by apply total_count.
Qed.

Definition dims_known (d : Rows) : Prop := ∀ k row, d !! k = Some row → ∃ r, U r ∧ rkey r = k ∧ row.1 = dims_of r.

Lemma add_delta_known d r x : U r → dims_known d → dims_known (add_delta d (r_event_date r) (dims_of r) x).
Proof. intros Hr Hd k row H. unfold add_delta in H. apply lookup_insert_Some in H as [[<- <-]|[_ H]]; [by exists r|by eapply Hd]. Qed.

Lemma aggregate_known rs : Forall U rs → dims_known (aggregate rs).
Proof.
  unfold aggregate. assert (dims_known ∅) as H0 by (intros k row H; by rewrite lookup_empty in H). revert H0. generalize (∅ : Rows). intros d Hd HU. revert d Hd. induction HU as [|r rs Hr _ IH]; intros d Hd; cbn; [done|]. apply IH. by apply add_delta_known.
Qed.

Lemma write_sums rs rows t t' : (∀ r, r ∈ rs → U r) → Forall U rows → sums rs t → apply_deltas pc t (aggregate rows) = Ok t' → sums (rs ++ rows) t'.
Proof.
  intros HU Hrows Hs H. eapply (apply_sums rs); [done| |exact Hs|by apply aggregate_known| |exact H].
  - intros r [Hr|Hr]%elem_of_app; [by apply HU|]. rewrite Forall_forall in Hrows. by apply Hrows.
  - intros k. by rewrite total_app, aggregate_total.
Qed.

Lemma total_insert k rs i old new : rs !! i = Some old →
  plus (total k (<[i := new]> rs)) (if bool_decide (rkey old = k) then delta_of old else ZERO_DELTA) = plus (total k rs) (if bool_decide (rkey new = k) then delta_of new else ZERO_DELTA).
Proof.
  intros H. rewrite <- (take_drop_middle rs i old H) at 2. rewrite insert_take_drop by (by eapply lookup_lt_Some). rewrite !total_app. cbn. fold (total k (drop (S i) rs)). rewrite <- !plus_assoc. f_equal.
  destruct (bool_decide (rkey old = k)), (bool_decide (rkey new = k)); rewrite ?plus_zero_r; try done; try apply plus_comm.
  rewrite <- !plus_assoc, (plus_comm (total _ _)), (plus_comm (total _ _)), !plus_assoc. f_equal. apply plus_comm.
Qed.

(** The moves of a chunk add up to the change of the sums *)
Lemma revise_total changes rs d rs' d' k : revise rs d changes = Some (rs', d') → plus (total k rs') (dtotal d k) = plus (total k rs) (dtotal d' k).
Proof.
  revert rs d. induction changes as [|[i new] changes IH]; intros rs d H; cbn in H; [by injection H as <- <-|]. apply bind_Some in H as (old & Hi & H). change (revise (<[i := new]> rs) (move d old new) changes = Some (rs', d')) in H. specialize (IH _ _ H). pose proof (move_total d old new k) as Hm. pose proof (total_insert k rs i old new Hi) as Ht.
  set (o := if bool_decide (rkey old = k) then _ else _) in *. set (n := if bool_decide (rkey new = k) then _ else _) in *. apply (plus_cancel _ _ (plus o n)).
  transitivity (plus (plus (total k rs') (plus (dtotal d k) n)) o); [rewrite <- !plus_assoc; do 2 f_equal; apply plus_comm|]. rewrite <- Hm.
  transitivity (plus (plus (plus (total k rs') (dtotal (move d old new) k)) o) o); [by rewrite <- !plus_assoc|]. rewrite IH.
  transitivity (plus (plus (plus (total k (<[i := new]> rs)) o) (dtotal d' k)) o); [rewrite <- !plus_assoc; f_equal; rewrite plus_assoc, (plus_comm (dtotal d' k)), <- plus_assoc; f_equal; apply plus_comm|]. rewrite Ht.
  rewrite <- !plus_assoc. f_equal. rewrite plus_assoc, (plus_comm n), <- plus_assoc. f_equal. apply plus_comm.
Qed.

Lemma revise_known changes rs d rs' d' : revise rs d changes = Some (rs', d') → Forall (λ c, U c.2) changes → (∀ r, r ∈ rs → U r) → dims_known d → (∀ r, r ∈ rs' → U r) ∧ dims_known d'.
Proof.
  revert rs d. induction changes as [|[i new] changes IH]; intros rs d H Hc HU Hd; cbn in H; [by injection H as <- <-|]. apply bind_Some in H as (old & Hi & H). apply Forall_cons in Hc as [Hn Hc]. cbn in Hn. apply list_elem_of_lookup_2 in Hi as Hin. apply (IH _ _ H Hc).
  - intros r Hr. apply list_elem_of_lookup in Hr as (j & Hj). apply list_lookup_insert_Some in Hj as [(_ & <- & _)|(_ & Hj)]; [done|]. apply HU. by eapply list_elem_of_lookup_2.
  - unfold move. cbn. apply add_delta_known; [done|]. apply add_delta_known; [by apply HU|done].
Qed.

Lemma revise_sums rs changes rs' d t t' : (∀ r, r ∈ rs → U r) → Forall (λ c, U c.2) changes → sums rs t → revise rs ∅ changes = Some (rs', d) → apply_deltas pc t d = Ok t' → sums rs' t' ∧ ∀ r, r ∈ rs' → U r.
Proof.
  intros HU Hc Hs Hr H. destruct (revise_known _ _ _ _ _ Hr Hc HU) as [HU' Hd]; [intros k row E; by rewrite lookup_empty in E|]. split; [|done]. eapply (apply_sums rs); [done|done|exact Hs|exact Hd| |exact H].
  intros k. pose proof (revise_total _ _ _ _ _ k Hr) as E. unfold dtotal in E at 1. rewrite lookup_empty in E. cbn in E. by rewrite plus_zero_r in E.
Qed.

(** ** The rebuild *)

Hypothesis stored_as_is : ∀ r, U r → dims_of r = r_dims r.
Hypothesis calls_counted : ∀ r, U r → 0 ≤ calls r.

Lemma delta_counts r : U r → counts_ok (delta_of r) = true.
Proof. intros Hr. specialize (calls_counted r Hr). unfold counts_ok, delta_of. cbn. destruct (unpriced r), (unconverted r), (fx_estimated r), (overage r), (allocated r), (quantity_estimated r || price_estimated r); cbn; lia. Qed.

Lemma counts_plus a b : counts_ok a = true → counts_ok b = true → counts_ok (plus a b) = true.
Proof. unfold counts_ok, plus, combine. cbn. rewrite !andb_true_iff, !Z.leb_le. lia. Qed.

Lemma total_counts k rs : (∀ r, r ∈ rs → U r) → counts_ok (total k rs) = true.
Proof. induction rs as [|r rs IH]; intros HU; cbn; [done|]. fold (total k rs). assert (counts_ok (total k rs) = true) as Hc by (apply IH; intros x Hx; apply HU; by right). destruct (bool_decide _); [|done]. apply counts_plus; [|done]. apply delta_counts, HU. left. Qed.

Lemma upserts_ok rows t : (∀ row, row ∈ rows → counts_ok row.2.2 = true) → (∀ k v, t !! k = Some v → counts_ok v.2 = true) → ∃ t', fold_res (upsert pc) t rows = Ok t'.
Proof.
  revert t. induction rows as [|[k [dims x]] rows IH]; intros t Hr Ht; [by exists t|]. pose proof (Hr _ (list_elem_of_here _ _)) as Hx. cbn in Hx. cbn [fold_res upsert]. rewrite Hx, andb_false_r. cbn [raise_if result_bind].
  set (new := match t !! k with None => (dims, x) | Some old => (old.1, plus old.2 x) end). assert (counts_ok new.2 = true) as Hn by (subst new; destruct (t !! k) eqn:E; [apply counts_plus; [by eapply Ht|done]|done]). rewrite Hn. cbn. apply IH; [intros row Hin; apply Hr; by right|].
  intros k' v E. apply lookup_insert_Some in E as [[_ <-]|[_ E]]; [done|by eapply Ht].
Qed.

(** A write of new records is accepted *)
Lemma rollup_write_ok rs rows t : (∀ r, r ∈ rs → U r) → Forall U rows → sums rs t → ∃ t', apply_deltas pc t (aggregate rows) = Ok t'.
Proof.
  intros HU Hrows Hs. destruct (upserts_ok (sort_by key_leb (live (aggregate rows))) t) as (t1 & H1).
  - intros [k row] Hin. apply live_elem in Hin as [E _]. pose proof (aggregate_total rows k) as Et. unfold dtotal in Et. rewrite E in Et. cbn in *. rewrite Et. apply total_counts. by apply Forall_forall.
  - intros k v E. specialize (Hs k). rewrite E in Hs. destruct Hs as [-> _]. by apply total_counts.
  - unfold apply_deltas. rewrite H1. cbn. eauto.
Qed.

(** The group of some dims holds the sums of their key *)
Lemma grouped_lookup day rs d : (∀ r, r ∈ rs → U r ∧ r_event_date r = day) →
  match grouped rs !! d with None => ∀ r, r ∈ rs → r_dims r ≠ d | Some x => x = total (day, dims_hash d) rs ∧ ∃ r, r ∈ rs ∧ r_dims r = d end.
Proof.
  induction rs as [|r rs IH]; intros HU; [cbn; rewrite lookup_empty; intros r Hr; by apply not_elem_of_nil in Hr|]. specialize (IH (λ x Hx, HU x (list_elem_of_further x r rs Hx))). destruct (HU r ltac:(left)) as [HUr Hday]. cbn [grouped foldr]. fold (grouped rs).
  assert (rkey r = (day, dims_hash (r_dims r))) as Ekey by (unfold rkey; by rewrite Hday, (stored_as_is r HUr)). assert (r_dims r ≠ d → (∃ x, x ∈ rs ∧ r_dims x = d) → rkey r ≠ (day, dims_hash d)) as Hne.
  { intros Hd (x & Hx & Ed) Ek. destruct (HU x ltac:(by right)) as [HUx Hdx]. apply Hd. rewrite <- Ed, <- (stored_as_is r HUr), <- (stored_as_is x HUx). apply no_collision; [done|done|]. rewrite Ek. unfold rkey. by rewrite Hdx, (stored_as_is x HUx), Ed. }
  destruct (decide (r_dims r = d)) as [Ed|Hd].
  - rewrite Ed, lookup_insert_eq. split; [|exists r; split; [left|done]]. cbn. fold (total (day, dims_hash d) rs). rewrite Ekey, Ed, bool_decide_true by done. f_equal. destruct (grouped rs !! d) as [x|]; cbn; [by destruct IH|]. symmetry. apply total_none. intros y Hy Ek. destruct (HU y ltac:(by right)) as [HUy Hdy]. apply (IH y Hy).
    rewrite <- Ed, <- (stored_as_is r HUr), <- (stored_as_is y HUy). apply no_collision; [done|done|]. by rewrite Ek, Ekey, Ed.
  - rewrite lookup_insert_ne by done. destruct (grouped rs !! d) as [x|].
    + destruct IH as (-> & Hx). cbn. fold (total (day, dims_hash d) rs). rewrite bool_decide_false by (by apply Hne). split; [done|]. destruct Hx as (y & Hy & Ey). exists y. split; [by right|done].
    + intros x [->|Hx]%elem_of_cons; [done|by apply IH].
Qed.

Lemma inserts_ok day rows t : NoDup (dims_hash ∘ fst <$> rows) → (∀ row, row ∈ rows → counts_ok row.2 = true ∧ t !! (day, dims_hash row.1) = None) →
  ∃ t', fold_res (insert_row day) t rows = Ok t' ∧ (∀ row, row ∈ rows → t' !! (day, dims_hash row.1) = Some row) ∧ (∀ k, (∀ row, row ∈ rows → k ≠ (day, dims_hash row.1)) → t' !! k = t !! k).
Proof.
  revert t. induction rows as [|row rows IH]; intros t Hnd Hok; [exists t; split_and!; [done|intros ? H; by apply not_elem_of_nil in H|done]|]. cbn in Hnd. apply NoDup_cons in Hnd as [Hni Hnd]. destruct (Hok row ltac:(left)) as [Hc Hn].
  assert (∀ r', r' ∈ rows → (day, dims_hash row.1) ≠ (day, dims_hash r'.1)) as Hdiff by (intros r' Hr' [= E]; apply Hni; rewrite E; apply list_elem_of_fmap; by exists r').
  destruct (IH (<[(day, dims_hash row.1) := row]> t) Hnd) as (t' & H1 & H2 & H3).
  { intros r' Hr'. destruct (Hok r' ltac:(by right)) as [? ?]. split; [done|]. rewrite lookup_insert_ne by (by apply Hdiff). done. }
  assert (insert_row day t row = Ok (<[(day, dims_hash row.1) := row]> t)) as Erow by (unfold insert_row; rewrite Hn, bool_decide_false, Hc by (by intros [? ?]); done).
  exists t'. cbn [fold_res]. rewrite Erow. split_and!; [done| |].
  - intros r' [->|Hr']%elem_of_cons; [|by apply H2]. rewrite H3 by done. apply lookup_insert_eq.
  - intros k Hk. rewrite H3 by (intros r' Hr'; apply Hk; by right). rewrite lookup_insert_ne; [done|]. intros E. by destruct (Hk row ltac:(left)).
Qed.

Context (reporting_date day_start : Z → Z) `{Hzone : BillingZone reporting_date day_start}.

Lemma total_day day d rs : (∀ r, r ∈ rs → r_event_date r = reporting_date (r_event_time r)) → total (day, d) (day_records day_start day rs) = total (day, d) rs ∧ ∀ r, r ∈ day_records day_start day rs ↔ r ∈ rs ∧ r_event_date r = day.
Proof.
  intros Hd. assert (∀ r, r ∈ rs → ((r_event_date r =? day) && in_window day_start day r) = (r_event_date r =? day)) as Hw.
  { intros r Hr. destruct (Z.eqb_spec (r_event_date r) day) as [E|]; [|done]. rewrite (Hd r Hr) in E. apply day_contains in E. unfold in_window, DAY. lia. }
  split.
  - induction rs as [|r rs IH]; [done|]. assert (∀ x, x ∈ rs → r_event_date x = reporting_date (r_event_time x)) as Hd' by (intros x Hx; apply Hd; by right). assert (∀ x, x ∈ rs → ((r_event_date x =? day) && in_window day_start day x) = (r_event_date x =? day)) as Hw' by (intros x Hx; apply Hw; by right).
    cbn [day_records List.filter]. rewrite (Hw r ltac:(left)). fold (day_records day_start day rs). cbn. fold (total (day, d) rs). destruct (Z.eqb_spec (r_event_date r) day) as [E|Hne]; cbn; fold (total (day, d) (day_records day_start day rs)); [by rewrite (IH Hd' Hw')|].
    rewrite bool_decide_false by (unfold rkey; congruence). by apply IH.
  - intros r. unfold day_records. rewrite list_elem_of_In, filter_In, <- list_elem_of_In. split; [intros [Hr H]; split; [done|]; rewrite (Hw r Hr) in H; by apply Z.eqb_eq|]. intros [Hr E]. split; [done|]. rewrite (Hw r Hr). by apply Z.eqb_eq.
Qed.

Lemma rebuilt_rows day rs : (∀ r, r ∈ rs → U r ∧ r_event_date r = day) → let rows := sort_by hash_leb (map (λ dv : Dims * Delta, (_canon <$> dv.1, dv.2)) (map_to_list (grouped rs))) in
  NoDup (dims_hash ∘ fst <$> rows) ∧ (∀ row, row ∈ rows → row.2 = total (day, dims_hash row.1) rs ∧ ∃ r, r ∈ rs ∧ rkey r = (day, dims_hash row.1) ∧ row.1 = dims_of r) ∧ (∀ r, r ∈ rs → ∃ row, row ∈ rows ∧ rkey r = (day, dims_hash row.1)).
Proof.
  intros HU rows. assert (∀ dv, dv ∈ map_to_list (grouped rs) → (_canon <$> dv.1) = dv.1 ∧ dv.2 = total (day, dims_hash dv.1) rs ∧ ∃ r, r ∈ rs ∧ r_dims r = dv.1) as Hdv.
  { intros [d x] Hd. apply elem_of_map_to_list in Hd. pose proof (grouped_lookup day rs d HU) as H. rewrite Hd in H. destruct H as (Hx & r & Hr & Ed). cbn. split_and!; [|done|by exists r]. rewrite <- Ed. by apply (stored_as_is r), HU. }
  assert (∀ row, row ∈ rows ↔ row ∈ map_to_list (grouped rs)) as Hin.
  { intros row. subst rows. rewrite elem_of_sort_by. split.
    - intros H. apply list_elem_of_fmap in H as (dv & -> & Hd). destruct (Hdv dv Hd) as (-> & _). by destruct dv.
    - intros H. apply list_elem_of_fmap. exists row. destruct (Hdv row H) as (-> & _). by destruct row. }
  assert (∀ d r, r ∈ rs → r_dims r = d → rkey r = (day, dims_hash d) ∧ d = dims_of r) as Hkey by (intros d r Hr <-; destruct (HU r Hr) as [HUr Hday]; unfold rkey; by rewrite Hday, (stored_as_is r HUr)).
  split_and!.
  - subst rows. rewrite sort_by_Permutation. change (dims_hash ∘ fst <$> ?l) with (map (dims_hash ∘ fst) l). rewrite map_map. apply NoDup_fmap_2_strong; [|apply NoDup_map_to_list]. intros a b Ha Hb E. cbn in E. destruct (Hdv a Ha) as (Ea & Ta & ra & Hra & Da), (Hdv b Hb) as (Eb & Tb & rb & Hrb & Db). rewrite Ea, Eb in E.
    destruct (Hkey _ _ Hra Da) as [Ka Ea'], (Hkey _ _ Hrb Db) as [Kb Eb']. assert (a.1 = b.1) as E1 by (rewrite Ea', Eb'; apply no_collision; [by apply HU|by apply HU|congruence]). rewrite (surjective_pairing a), (surjective_pairing b). by rewrite Ta, Tb, E1.
  - intros row Hr. apply Hin in Hr. destruct (Hdv row Hr) as (_ & Ht & r & Hrr & Ed). split; [done|]. exists r. destruct (Hkey _ _ Hrr Ed). auto.
  - intros r Hr. destruct (Hkey _ r Hr eq_refl) as [Kr _]. pose proof (grouped_lookup day rs (r_dims r) HU) as H. destruct (grouped rs !! r_dims r) as [x|] eqn:E; [|by destruct (H r Hr)]. exists (r_dims r, x). split; [by apply Hin, elem_of_map_to_list|done].
Qed.

(** A rebuilt day is the day as it was kept *)
Lemma rebuild_same rs t day : (∀ r, r ∈ rs → U r) → (∀ r, r ∈ rs → r_event_date r = reporting_date (r_event_time r)) → sums rs t → rebuild_day day_start t rs day = Ok t.
Proof.
  intros HU Hdated Hs. set (D := day_records day_start day rs). assert (∀ r, r ∈ D ↔ r ∈ rs ∧ r_event_date r = day) as HD by exact (proj2 (total_day day EmptyString rs Hdated)). destruct (rebuilt_rows day D) as (Hnd & Hrows & Hall); [intros r Hr; apply HD in Hr as [Hr ?]; auto|].
  destruct (inserts_ok day _ (filter (λ kv, kv.1.1 ≠ day) t) Hnd) as (t' & Hok & Hin & Hout).
  { intros row Hr. destruct (Hrows row Hr) as (-> & _). split; [apply total_counts; intros r Hr'; by apply HU, HD|]. apply map_lookup_filter_None. right. intros x _ Hne. by apply Hne. }
  unfold rebuild_day. fold D. rewrite Hok. f_equal. apply (sums_unique rs); [done| |done]. intros k. destruct (decide (k.1 = day)) as [Ed|Hne].
  - destruct (list_find (λ row, k = (day, dims_hash row.1)) (sort_by hash_leb (map (λ dv : Dims * Delta, (_canon <$> dv.1, dv.2)) (map_to_list (grouped D))))) as [[i row]|] eqn:Ef.
    + apply list_find_Some in Ef as (Hi & -> & _). apply list_elem_of_lookup_2 in Hi. rewrite (Hin row Hi). destruct (Hrows row Hi) as (E1 & r & Hr & Kr & E2). rewrite E1. split; [exact (proj1 (total_day day _ rs Hdated))|]. exists r. split_and!; [by apply HD|done|done].
    + apply list_find_None in Ef. rewrite Forall_forall in Ef. rewrite (Hout k Ef). assert (filter (λ kv : (Z * string) * (Dims * Delta), kv.1.1 ≠ day) t !! k = None) as -> by (apply map_lookup_filter_None; right; intros x _ Hn; by apply Hn).
      intros r Hr Kr. destruct (Hall r) as (row & Hrow & Kr'); [apply HD; split; [done|]; rewrite <- Ed, <- Kr; done|]. apply (Ef row Hrow). congruence.
  - rewrite Hout by (intros row Hr E; by rewrite E in Hne). specialize (Hs k). destruct (t !! k) as [row|] eqn:E; [rewrite (proj2 (map_lookup_filter_Some _ _ _ _) (conj E Hne)); done|]. rewrite (proj2 (map_lookup_filter_None _ _ _) (or_introl E)). done.
Qed.
End upkeep.

(** * Keys *)

Definition bar : ascii := "|"%char.
Definition bars (l : list (list ascii)) : list ascii := concat ((λ q, bar :: q) <$> l).

(** Values other than the model are codes: they have no bar, and none is the text of a missing value *)
Definition code_value (v : option string) : Prop := match v with None => True | Some s => (bar ∉ chars s) ∧ s ≠ "~" end.
Definition dims_wf (d : Dims) : Prop := ∃ a m b, d = a ++ Some m :: b ∧ length a = 10%nat ∧ length b = 10%nat ∧ Forall code_value a ∧ Forall code_value b ∧ (_canon <$> d) = d.

Lemma bar_front x x' k k' : bar ∉ x → bar ∉ x' → x ++ bar :: k = x' ++ bar :: k' → x = x' ∧ k = k'.
Proof.
  revert x'. induction x as [|c x IH]; intros [|c' x'] H H' E; cbn in E.
  - by injection E.
  - injection E as E _. subst c'. destruct H'. left.
  - injection E as E _. subst c. destruct H. left.
  - injection E as -> E. apply not_elem_of_cons in H as [_ H], H' as [_ H']. by destruct (IH x' H H' E) as [-> ->].
Qed.

Lemma bar_back x x' k k' : bar ∉ k → bar ∉ k' → x ++ bar :: k = x' ++ bar :: k' → x = x' ∧ k = k'.
Proof.
  intros H H' E. apply (f_equal reverse) in E. rewrite !reverse_app, !reverse_cons, <- !app_assoc in E. cbn in E. apply bar_front in E as [E1 E2]; [|by rewrite elem_of_reverse|by rewrite elem_of_reverse]. by apply (inj reverse) in E1, E2.
Qed.

Lemma bars_inj m m' l l' : length l = length l' → Forall (λ q, bar ∉ q) l → Forall (λ q, bar ∉ q) l' → m ++ bars l = m' ++ bars l' → m = m' ∧ l = l'.
Proof.
  revert l'. induction l as [|q l IH] using rev_ind; intros l' Hlen Hl Hl' E.
  - destruct l'; [|done]. cbn in E. rewrite !app_nil_r in E. done.
  - destruct l' as [|q' l' _] using rev_ind; [rewrite length_app in Hlen; cbn in Hlen; lia|]. rewrite !length_app in Hlen. cbn in Hlen. apply Forall_app in Hl as [Hl Hq], Hl' as [Hl' Hq']. unfold bars in E. rewrite !fmap_app, !concat_app in E. cbn in E. rewrite !app_nil_r, !app_assoc in E.
    apply bar_back in E as [E ->]; [|by inversion Hq|by inversion Hq']. destruct (IH l' ltac:(lia) Hl Hl' E) as [-> ->]. done.
Qed.

#[local] Instance chars_injective : Inj (=) (=) chars.
Proof. intros a b E. by rewrite <- (of_chars_chars a), E, of_chars_chars. Qed.

Lemma chars_join_bar p ps : chars (join "|" (p :: ps)) = chars p ++ bars (chars <$> ps).
Proof. cbn. revert p. induction ps as [|q ps IH]; intros p; cbn [foldl fmap list_fmap bars concat]; [by rewrite app_nil_r|]. rewrite IH, !chars_app. unfold bars. cbn. by rewrite <- app_assoc. Qed.

Lemma chars_values a m b : chars (join "|" (a ++ m :: b)) = concat ((λ q, chars q ++ [bar]) <$> a) ++ chars m ++ bars (chars <$> b).
Proof.
  induction a as [|x a IH]; [exact (chars_join_bar m b)|]. change ((x :: a) ++ m :: b) with (x :: (a ++ m :: b)). rewrite chars_join_bar. cbn [fmap list_fmap concat]. rewrite <- !app_assoc. f_equal. rewrite <- IH. clear IH. destruct (a ++ m :: b) as [|y l] eqn:E; [by destruct a|]. by rewrite chars_join_bar.
Qed.

Lemma fronts_inj a a' k k' : length a = length a' → Forall (λ q, bar ∉ chars q) a → Forall (λ q, bar ∉ chars q) a' → concat ((λ q, chars q ++ [bar]) <$> a) ++ k = concat ((λ q, chars q ++ [bar]) <$> a') ++ k' → a = a' ∧ k = k'.
Proof.
  revert a'. induction a as [|x a IH]; intros [|x' a'] Hlen H H' E; try done. cbn in E, Hlen. rewrite <- !app_assoc in E. cbn in E. apply Forall_cons in H as [Hx H], H' as [Hx' H']. apply bar_front in E as [E1 E]; [|done|done]. destruct (IH a' ltac:(lia) H H' E) as [-> ->]. apply (inj chars) in E1 as ->. done.
Qed.

Lemma codes_default a a' : Forall code_value a → Forall code_value a' → (default "~" <$> a) = (default "~" <$> a') → a = a'.
Proof.
  intros H. revert a'. induction H as [|v a Hv _ IH]; intros [|v' a'] H' E; try done. cbn in E. injection E as E1 E. apply Forall_cons in H' as [Hv' H']. rewrite (IH a' H' E). f_equal. destruct v, v'; cbn in *; try done; [by subst|by destruct Hv; subst|by destruct Hv'; subst].
Qed.

Lemma codes_free a : Forall code_value a → Forall (λ q, bar ∉ chars q) (default "~" <$> a).
Proof. intros H. apply Forall_fmap. eapply Forall_impl; [exact H|]. intros [s|]; cbn; [by intros [? _]|]. intros _. apply (bool_decide_unpack _). vm_compute. done. Qed.

(** The text of a key names its values *)
Lemma dims_text_inj d d' : dims_wf d → dims_wf d' → dims_text d = dims_text d' → d = d'.
Proof.
  intros (a & m & b & -> & La & Lb & Ha & Hb & _) (a' & m' & b' & -> & La' & Lb' & Ha' & Hb' & _) E. apply (f_equal chars) in E. unfold dims_text in E. rewrite !fmap_app, !fmap_cons, !chars_values in E. cbn in E.
  apply fronts_inj in E as [Ea E]; [|by rewrite !length_fmap, La, La'|by apply codes_free|by apply codes_free]. apply codes_default in Ea as ->; [|done|done].
  apply bars_inj in E as [Em Eb]; [|by rewrite !length_fmap, Lb, Lb'|apply Forall_fmap; by apply codes_free|apply Forall_fmap; by apply codes_free]. apply (inj chars) in Em as ->. apply (inj (fmap chars)) in Eb. by apply codes_default in Eb as ->.
Qed.

(** * Every state reached *)

Definition dated (reporting_date : Z → Z) (r : UsageRecord) : Prop := r_event_date r = reporting_date (r_event_time r).

Lemma revise_all (P : UsageRecord → Prop) changes rs d rs' d' : revise rs d changes = Some (rs', d') → Forall (λ c, P c.2) changes → (∀ r, r ∈ rs → P r) → ∀ r, r ∈ rs' → P r.
Proof.
  revert rs d. induction changes as [|[i new] changes IH]; intros rs d H Hc HP; cbn in H; [by injection H as <- <-|]. apply bind_Some in H as (old & Hi & H). apply Forall_cons in Hc as [Hn Hc]. apply (IH _ _ H Hc).
  intros r Hr. apply list_elem_of_lookup in Hr as (j & Hj). apply list_lookup_insert_Some in Hj as [(_ & <- & _)|(_ & Hj)]; [done|]. apply HP. by eapply list_elem_of_lookup_2.
Qed.

Lemma aggregate_sums rs : sums rs (aggregate rs).
Proof.
  intros k. pose proof (aggregate_total rs k) as Ht. unfold dtotal in Ht. destruct (aggregate rs !! k) as [row|] eqn:E; cbn in Ht.
  - split; [done|]. apply (aggregate_known (λ r, r ∈ rs)) in E as (r & Hr & Ek & Ed); [by exists r|]. apply Forall_forall. done.
  - apply total_count. by rewrite <- Ht.
Qed.

Section invariant.
Context (pc : bool) (U : UsageRecord → Prop) (reporting_date day_start : Z → Z) `{Hzone : BillingZone reporting_date day_start}.
Hypothesis no_collision : ∀ r r', U r → U r' → rkey r = rkey r' → dims_of r = dims_of r'.
Hypothesis stored_as_is : ∀ r, U r → dims_of r = r_dims r.
Hypothesis calls_counted : ∀ r, U r → 0 ≤ calls r.

Definition books_ok (s : Books) : Prop := (∀ r, r ∈ books s → U r) ∧ (∀ r, r ∈ books s → dated reporting_date r) ∧ sums (books s) (table s).

Lemma step_books_ok s s' : step pc reporting_date day_start U s s' → books_ok s → books_ok s'.
Proof.
  intros Hst (HU & Hd & Hs). destruct Hst as [s rows t HUr Hdr Ht|s changes rs deltas t HUc Hsd Hr Ht|s day t Ht]; unfold books_ok; cbn.
  - split_and!; [|intros r [Hr|Hr]%elem_of_app; [by apply Hd|by rewrite Forall_forall in Hdr; apply Hdr]|by eapply write_sums]. intros r [Hr|Hr]%elem_of_app; [by apply HU|]. rewrite Forall_forall in HUr. by apply HUr.
  - edestruct (revise_sums pc U) as [Hs' HU']; [done|exact HU|exact HUc|exact Hs|exact Hr|exact Ht|]. split_and!; [done| |done]. apply (revise_all (dated reporting_date) _ _ _ _ _ Hr); [|done]. eapply Forall_impl; [exact Hsd|]. intros [i new] (old & Hi & E1 & E2). cbn in *. unfold dated. rewrite E1, E2. apply Hd. by eapply list_elem_of_lookup_2.
  - assert (rebuild_day day_start (table s) (books s) day = Ok (table s)) as E by (eapply (rebuild_same U); eassumption). rewrite E in Ht. injection Ht as <-. done.
Qed.

Lemma reachable_books_ok s : reachable pc reporting_date day_start U s → books_ok s.
Proof.
  intros H. unfold reachable in H. remember {| books := []; table := ∅ |} as s0 eqn:E0. assert (books_ok s0) as H0.
  { subst s0. split_and!; [intros r Hr; by apply not_elem_of_nil in Hr|intros r Hr; by apply not_elem_of_nil in Hr|]. intros k. cbn. rewrite lookup_empty. intros r Hr. by apply not_elem_of_nil in Hr. }
  clear E0. induction H as [s|s1 s2 s3 Hst _ IH]; [done|]. apply IH. by eapply step_books_ok.
Qed.
End invariant.

Lemma text_no_collision (U : UsageRecord → Prop) : (∀ r, U r → dims_wf (r_dims r)) → (∀ r r', U r → U r' → dims_hash (dims_of r) = dims_hash (dims_of r') → dims_text (dims_of r) = dims_text (dims_of r')) →
  (∀ r, U r → dims_of r = r_dims r) ∧ ∀ r r', U r → U r' → rkey r = rkey r' → dims_of r = dims_of r'.
Proof.
  intros Hwf Hh. assert (∀ r, U r → dims_of r = r_dims r) as Hst by (intros r Hr; by destruct (Hwf r Hr) as (a & m & b & _ & _ & _ & _ & _ & E)). split; [done|]. intros r r' Hr Hr' [= _ E]. apply Hh in E; [|done|done]. rewrite (Hst r Hr), (Hst r' Hr') in *. apply dims_text_inj; auto.
Qed.

(** C32. Consider runs of the transactions that the database accepts: writes of records, revisions (repriced, attributed anew, assigned to a commitment) and rebuilds of days, in any
    order. (With PostgreSQL's check of proposed rows, [pc], a revision that moves a record to another row is not among them, see [revision_is_refused].) Suppose every record has
    trimmed values, no bar in a value other than its model, and a non-negative number of calls, and no two records have values of different texts with the same digest.
    Then the rollup table is the aggregate of the usage records: each row holds the sums of the records of its day and values and counts at least one of them, no row is missing,
    rebuilding any day succeeds and changes nothing, and the next write of such records is accepted. (A model name that is cut may not be trimmed, see [cut_names_break_the_rebuild].) *)
Theorem rollup_is_the_sum pc reporting_date day_start `{BillingZone reporting_date day_start} U s :
  (∀ r, U r → dims_wf (r_dims r) ∧ 0 ≤ calls r) → (∀ r r', U r → U r' → dims_hash (dims_of r) = dims_hash (dims_of r') → dims_text (dims_of r) = dims_text (dims_of r')) →
  reachable pc reporting_date day_start U s →
  table s = aggregate (books s) ∧ (∀ day, rebuild_day day_start (table s) (books s) day = Ok (table s)) ∧
  (∀ k row, table s !! k = Some row → row.2 = total k (books s) ∧ 0 < record_count row.2) ∧ (∀ r, r ∈ books s → is_Some (table s !! rkey r)) ∧
  (∀ rows, Forall U rows → ∃ t, apply_deltas pc (table s) (aggregate rows) = Ok t).
Proof.
  intros Hwf Hh Hr. destruct (text_no_collision U (λ r Hr, proj1 (Hwf r Hr)) Hh) as [Hst Hnc]. assert (∀ r, U r → 0 ≤ calls r) as Hc by (intros r HU; by apply Hwf). apply reachable_books_ok in Hr as (HU & Hd & Hs); try assumption. split_and!.
  - eapply (sums_unique U); [done|done|done|apply aggregate_sums].
  - intros day. eapply (rebuild_same U); eassumption.
  - intros k row E. specialize (Hs k). rewrite E in Hs. destruct Hs as (E2 & r & Hin & Ek & _). split; [done|]. rewrite E2. apply total_some. by exists r.
  - intros r Hin. specialize (Hs (rkey r)). destruct (table s !! rkey r); [done|]. by destruct (Hs r Hin).
  - intros rows Hrows. by eapply (rollup_write_ok pc U).
Qed.

Module RollupExample.
Definition rdims (model : string) (commitment : option string) : Dims :=
  [Some "2026-03-02"; None; None; Some "agent"; None; Some "lending"; Some "kyc"; Some "agent"; None; Some "openai"; Some model; Some "llm"; Some "input_tokens"; Some "USD"; None; Some "card"; commitment; None; None; Some "prod"; None].
Definition use (model : string) (commitment : option string) : UsageRecord :=
  {| r_event_time := 100; r_event_date := 0; r_dims := rdims model commitment; quantity := 5000000; amount := Some 70; amount_inr := None; unpriced := false; unconverted := true; overage := false; overage_quantity := 0; calls := 1;
     fx_estimated := false; allocated := false; quantity_estimated := false; price_estimated := true |}.
Definition plain_use := use "gpt|4" None.
Definition committed_use := use "gpt|4" (Some "c1").
Definition the_uses (r : UsageRecord) : Prop := r = plain_use ∨ r = committed_use.
Definition applied (t d : Rows) : Rows := match apply_deltas false t d with Ok t => t | Err _ => ∅ end.
Definition is_applied (t d : Rows) : bool := match apply_deltas false t d with Ok _ => true | Err _ => false end.
Lemma applied_eq t d : is_applied t d = true → apply_deltas false t d = Ok (applied t d).
Proof. unfold is_applied, applied. by destruct (apply_deltas false t d). Qed.

Definition written : Books := {| books := [plain_use; plain_use]; table := applied ∅ (aggregate [plain_use; plain_use]) |}.
Definition assigned : Books := {| books := [committed_use; plain_use]; table := applied (table written) (move ∅ plain_use committed_use) |}.

Lemma uses_wf r : the_uses r → dims_wf (r_dims r) ∧ 0 ≤ calls r.
Proof.
  assert (∀ l : Dims, forallb (λ v : option string, match v with None => true | Some s => forallb (λ c, negb (Ascii.eqb c bar)) (chars s) && negb (String.eqb s "~") end) l = true → Forall code_value l) as Hl.
  { intros l H. apply Forall_forall. intros [x|] Hx; [|done]. rewrite forallb_forall in H. apply list_elem_of_In, H in Hx. apply andb_true_iff in Hx as [Hc Hne]. rewrite forallb_forall in Hc. split; [|intros ->; done]. intros Hin. apply list_elem_of_In, Hc in Hin. by rewrite Ascii.eqb_refl in Hin. }
  intros [->| ->]; (split; [|done]); [set (d := rdims "gpt|4" None)|set (d := rdims "gpt|4" (Some "c1"))]; exists (take 10 d), "gpt|4", (drop 11 d); (split; [reflexivity|]); (split; [reflexivity|]); (split; [reflexivity|]); (split; [apply Hl; vm_compute; reflexivity|split; [apply Hl; vm_compute; reflexivity|vm_compute; reflexivity]]).
Qed.

Lemma assigned_reachable : reachable false (billing_date_at 0) (day_start_at 0) the_uses assigned.
Proof.
  eapply rtc_l; [apply (step_write _ _ _ _ _ [plain_use; plain_use] (table written))|eapply rtc_l; [|apply rtc_refl]].
  - repeat constructor.
  - repeat constructor.
  - apply applied_eq. vm_compute. reflexivity.
  - apply (step_revise _ _ _ _ written [(0%nat, committed_use)] [committed_use; plain_use] (move ∅ plain_use committed_use) (table assigned)).
    + apply Forall_singleton. by right.
    + apply Forall_singleton. by exists plain_use.
    + reflexivity.
    + apply applied_eq. vm_compute. reflexivity.
Qed.
End RollupExample.

(** The example: two records are written, the first is assigned to a commitment *)
Lemma rollup_is_the_sum_witness : table RollupExample.assigned = aggregate [RollupExample.committed_use; RollupExample.plain_use].
Proof.
  refine (proj1 (rollup_is_the_sum false (billing_date_at 0) (day_start_at 0) RollupExample.the_uses RollupExample.assigned RollupExample.uses_wf _ RollupExample.assigned_reachable)).
  intros r r' [->| ->] [->| ->] E; try reflexivity; exfalso; vm_compute in E; discriminate E.
Defined.

(** * Refused changes *)

Lemma upserts_refused rows t row : row ∈ rows → counts_ok row.2.2 = false → fold_res (upsert true) t rows = Err CheckViolation.
Proof.
  revert t. induction rows as [|[k [dims x]] rows IH]; intros t Hin Hc; [by apply not_elem_of_nil in Hin|]. cbn [fold_res upsert]. apply elem_of_cons in Hin as [->|Hin]; [cbn in Hc; by rewrite Hc|].
  destruct (counts_ok x); [|done]. set (new := match t !! k with None => _ | Some _ => _ end). cbn - [counts_ok new]. destruct (counts_ok new.2); [|done]. by apply IH.
Qed.

(** A revision that moves a record to another row proposes a row that counts minus one record, which PostgreSQL checks before it looks for the row in conflict: no such revision is ever applied, whatever the table holds *)
Theorem revision_is_refused t before after : rkey before ≠ rkey after → apply_deltas true t (move ∅ before after) = Err CheckViolation.
Proof.
  intros Hne. unfold apply_deltas. rewrite (upserts_refused _ t (rkey before, (dims_of before, negate (delta_of before)))); [done| |done]. apply live_elem. split; [|done]. unfold move. cbn. unfold add_delta at 1. rewrite lookup_insert_ne by (unfold rkey in *; congruence).
  unfold add_delta. rewrite lookup_empty. apply lookup_insert_eq.
Qed.

(** Assigning a record to a commitment is such a revision *)
Theorem assignment_is_refused : apply_deltas true (aggregate [RollupExample.plain_use]) (move ∅ RollupExample.plain_use RollupExample.committed_use) = Err CheckViolation.
Proof. apply revision_is_refused. apply (bool_decide_unpack _). vm_compute. done. Qed.

(** A model name longer than 128 characters is cut, and may be left with a blank at its end. Its records are written, but the rebuild groups by the stored name and keys by the trimmed one: it refuses the day *)
Theorem cut_names_break_the_rebuild :
  let short := of_chars (repeat "a"%char 127) in let long := short +:+ " b" in
  let rs := [RollupExample.use (canonical_model "openai" short []) None; RollupExample.use (canonical_model "openai" long []) None] in
  match apply_deltas true ∅ (aggregate rs) with Ok t => size t = 1%nat ∧ rebuild_day (day_start_at 0) t rs 0 = Err UniqueViolation | Err _ => False end.
Proof. vm_compute. by split. Qed.
